(* ===== verification/_CoqProject ===== *)
-Q . S2P
Prelude.v
Time.v
ListHead.v
ListHeap.v
Rbtree.v
SectorTree.v
Elevator.v
Scheduler.v
SioSched.v
NoopSched.v
VrSched.v
DeadlineSched.v
Logger.v
Ashmem.v
AshmemDev.v
TimerWheel.v
TimerRun.v
TimerNext.v
TimerIdle.v
Wakelock.v
WakelockLive.v
WakelockSys.v
WakelockTimer.v
EarlySuspend.v
UserWakelock.v
BinderAlloc.v
BinderPages.v
BinderHeap.v
BinderOps.v
BinderSys.v
BinderRef.v
BinderShape.v
BinderNodes.v
BinderCount.v
BinderHold.v
BinderTrans.v
BinderEnd.v
BinderRefSys.v
