(* ===== verification/Prelude.v ===== *)
(** * A verification of parts of the nubernel 2.6.35 kernel

    nubernel is a Linux 2.6.35 kernel for the Samsung Epic 4G.  This library
    models parts of it from their C source under src/Kernel/ and proves them
    correct.  Every definition that models code is executable, and has the name
    it has in the source where Rocq allows it.

    ** Conventions

    The kernel is built for one 32-bit ARM core without SMP, with [HZ] = 1000 and
    64-bit sectors.  A C integer is a [Z] in the range of its type; [u8] to
    [u64] and [s32] write out the wrap-around.  Code that works on shared memory
    is a function of type [M S A], from a state to a result and a new state, or
    to [None] for a kernel oops: a [BUG_ON] that fires, a load from or a store to
    an address that is not allocated, or a loop that runs out of fuel.  A theorem
    that says that a call gives [Some] therefore says that it terminates and does
    not oops.  The bounds of the loops are computed from the state (the number of
    nodes, of requests, of ranges or of bytes), and the theorems show that they
    are large enough in every state that satisfies the invariant of the component.
    Sections of code under one lock are one step; interleavings are sequences of
    such steps.  What other code returns (memory allocators, copies from and to user
    space, the shmem file system) is an argument of the definitions.

    ** Components and files

    - Prelude.v: machine integers, the state and failure monad, comparisons of
      jiffies (include/linux/jiffies.h), error numbers, lemmas on lists.
    - Time.v: conversions between units of time (kernel/time.c,
      include/linux/time.h and jiffies.h), the packed [ktime_t]
      (include/linux/ktime.h), 64-bit division (lib/div64.c,
      include/linux/math64.h) and the calendar (drivers/rtc/rtc-lib.c).
    - ListHead.v: include/linux/list.h.  A memory [mem] maps addresses to
      [list_head] records; [dlist m h xs] says that the list of the head [h] has
      the entries [xs].  Each operation is proved on [dlist] with a frame.
      ListHeap.v describes a memory with many lists by a map from heads to
      entries ([lrep]), and is what the clients of lists use.
    - Rbtree.v: lib/rbtree.c and include/linux/rbtree.h.  [zrep] relates a
      memory of [rb_node] records to an inductive tree, which is red-black
      ([rbt]).  Insertion, deletion, replacement and the walks are proved for
      every such tree.
    - SectorTree.v: the request trees of block/elevator.c ([elv_rb_add],
      [elv_rb_find], [elv_rb_del] and the neighbours), behind the interface
      [SectorTree].
    - Elevator.v: requests and queues (include/linux/blkdev.h), the merge hash,
      sorting into the dispatch queue, insertion, requeueing, draining and
      plugging of block/elevator.c and block/blk-core.c.
    - Scheduler.v: the interface [IOSched], what the elevator relies on in an
      I/O scheduler, and the theorems on the elevator for every instance.
    - SioSched.v, NoopSched.v, VrSched.v, DeadlineSched.v: the I/O schedulers of
      block/sio-iosched.c, noop-iosched.c, vr-iosched.c and deadline-iosched.c, with
      an invariant each, and each an instance of [IOSched].
    - Logger.v: drivers/staging/android/logger.c, the ring buffers of the log.
    - Ashmem.v and AshmemDev.v: mm/ashmem.c, shared memory with unpinned ranges
      of pages that the shrinker can purge; the first has the ranges, the two lists
      that run through them and the shrinker, the second the file operations.
    - TimerWheel.v, TimerRun.v, TimerNext.v, TimerIdle.v: kernel/timer.c.  The first has the
      wheel, its invariant ([wheel_rep]: in which list a timer of a given expiry time
      can be), and the operations on timers; the second the tick with the cascade of
      lists, the timer functions as programs over the timer interface ([prog]), and
      abstract timers ([spec], a map from timers to expiry times) that the tick
      implements; the third the search for the next expiry, its cache in [next_timer],
      and the rounding of jiffies; the fourth that the cache is right in every history
      with ticks and idle periods.
    - Wakelock.v, WakelockLive.v, WakelockSys.v: kernel/power/wakelock.c.  The first has
      the operations and what each does to the three lists of locks ([rep]); the second
      the invariant ([good]: when the timer is pending and for which time, and when the
      work that suspends is queued); the third the calls of drivers, the ticks and the
      steps of that work in any order ([step], [reach]).  The timer is behind the
      interface [ExpireTimer]; WakelockTimer.v provides it with the timer wheel.
    - EarlySuspend.v: kernel/power/earlysuspend.c, the requests of user space to sleep and
      wake up and the handlers of drivers, with the work in the steps between which its
      locks are free, together with all steps of the wake locks.
    - UserWakelock.v: kernel/power/userwakelock.c, the wake locks that user space names in
      /sys/power, with what it uses of lib/string.c, lib/vsprintf.c and lib/ctype.c; on top
      of Rbtree.v and of the wake locks.
    - BinderAlloc.v, BinderPages.v, BinderHeap.v, BinderOps.v, BinderSys.v: the buffers of
      drivers/staging/android/binder.c, from [binder_mmap] to the end of the process.  The
      first file has the code: a buffer is known by the address of its header, whose list
      entry and tree nodes are in ListHead.v and Rbtree.v memories at that address; what the
      page allocator and the page tables answer is a [page_env], and to use a header on a
      page that is not mapped is an oops.  The others have the pages ([pinv]), the cut of the
      area into buffers and the pages they need ([tiled], [need], the invariant [binv]), the
      operations, and all sequences of them ([reach]).
    - BinderRef.v, BinderShape.v, BinderNodes.v, BinderCount.v, BinderHold.v, BinderTrans.v,
      BinderEnd.v, BinderRefSys.v: the objects of binder.c.  The first file has the code: nodes
      and references with their counters, the three trees of a process, the lists of work,
      the commands that count references, the translation of the objects in a transaction and
      its undoing, and the end of a process.  BinderShape.v says how trees and lists lie in
      memory ([shape]), BinderNodes.v what each operation does to the records, BinderCount.v
      that the counters are exact ([counts]), BinderHold.v what buffers hold ([good]);
      BinderTrans.v and BinderEnd.v have the transactions, the commands and the end of a
      process ([inv]), BinderRefSys.v all sequences of them ([reach]).

    ** What the theorems show

    - Lists and trees: the pointer operations implement the operations on
      sequences, touch no other memory, and keep the red-black balance, which bounds
      the height by twice the logarithm of the size.
    - Elevator: the merge hash finds exactly the mergeable requests, the dispatch
      queue is in one-way order and respects barriers, no request is lost between
      insertion and dispatch, and draining terminates, for every scheduler that meets
      the interface.
    - Schedulers: which request a dispatch takes, that no [BUG_ON] fires, that
      merging keeps deadlines, and bounds on how long a request can starve.
    - Logger: readers get whole entries in the order of writing, whatever is
      overwritten, flushed or fails in between, unless a write fails that another one
      overtook after it had read the offset to go back to.
    - Ashmem: pinning and unpinning act on sets of pages exactly as documented, the
      shrinker frees only unpinned pages and the least recently unpinned first, a
      mapping gets no permission that the mask of the area lacks, and no sequence of
      calls oopses, if the calls do not name the empty interval at the very end of an
      area, which the checks let through.
    - Timers: the wheel implements a map from timers to expiry times.  The tick calls
      exactly the timers whose time has come, each in the jiffy of its expiry time
      although it moves between lists of different spans, whatever the timer functions
      do with timers and across the wrap-around of jiffies; slack stays in its bounds; an
      idle CPU is told to sleep until the next timer that must wake it, and not past it.
      The timer functions use [mod_timer], its variants, [del_timer] and
      [timer_pending]; [add_timer] must not be called for a pending timer, which is the
      caller's duty.  The histories of the last theorem span less than 2^28 jiffies,
      three days, so that no comparison of times in the cache wraps around.
    - Wake locks: no sequence of calls corrupts a list or reaches a [BUG_ON]; a lock
      keeps the system awake exactly until it is released, gets a timeout, or its time is
      over (no lock is destroyed while it is active); the
      system never stays awake for no reason, and with the timer wheel below, it goes on
      to suspend when the last timeout has ended.  Timeouts, and the time for which a lock
      whose time is over stays behind one without a timeout, are taken to be less than
      2^30 jiffies, twelve days; after 2^31 the signed difference of the times changes
      sign.
    - Early suspend: every request takes effect in at most eight steps, whatever was
      queued or half done before; handlers are called in the order of their levels,
      suspended and resumed in turn; and the system suspends only after them.
    - Wake locks of user space: the lock of a name is held exactly as the writes that
      succeeded asked for, except that a timeout of a multiple of 2^32 jiffies counts as
      none; names are found in the tree in their order, and the files show
      exactly the locks there are.
    - Binder buffers: no sequence of mappings, allocations, frees and the end of the process
      oopses or runs into a [BUG_ON]; allocated buffers do not overlap and are mapped; an
      allocation takes the smallest free buffer that fits, and one that fails changes
      nothing; freeing what was allocated gives back the free space, merged; in the end
      every page is freed.  The driver is taken to get hold of the memory of the process
      ([get_task_mm]) as long as that has the area mapped, which is so while the thread that
      opened the device lives.
    - Binder objects: whatever processes do, and in whatever order they end, no node or
      reference is used after it has been freed, the counters are exactly what refers to a
      node, a handle that is sent back is the object it was made from, descriptors are the
      smallest that are free, and all nodes and references are freed when the last process
      has ended.  The
      objects of a transaction are taken not to overlap, which the driver does not check and
      without which a node can be freed while it is used, and the counters of references,
      which processes increase, are taken to stay below 2^31.
    - Time: software division is division, arithmetic on packed times is that on
      nanoseconds, [mktime] is what counting days gives, and every 32-bit time
      becomes a date and is found from it again.
    - Some theorems (their kind is error in the list of properties) show where the
      code does not do what its comments say.

    ** Not modelled

    Device drivers, file systems, networking, sound, cryptography, the process
    scheduler, page allocators and architecture code are not modelled: they
    drive hardware or are developments of their own.  Device and module registration,
    sysfs and printing have no state that the rest depends on.  Of the block layer,
    the CFQ scheduler, switching schedulers and the construction of requests
    from bios are left; of the red-black tree, the augmentation callbacks; of
    timers, the high-resolution timers, whose next event is an argument where the wheel
    looks at it, sleeping, and migration between CPUs, as there is one.  Of power
    management, what stops and restarts devices and processors is left: [pm_suspend] is a
    pause between two steps of the work, and a call of a handler is an entry in a log.
    The parts of earlysuspend.c for CONFIG_SND_S5P_RP, which is not set, are left out.
    Of binder, the records of transactions and their stacks, one-way queues, death
    notifications, the pool of threads and what files in transactions are, are left. *)

From stdpp Require Import prelude gmap list sorting.
From Stdlib Require Import ZArith Lia ZifyBool.

Open Scope Z_scope.

Declare Scope kernel_scope.
Delimit Scope kernel_scope with K.

(** ** Machine integers

    The kernel is built for a 32-bit ARM core: [int], [unsigned int], [long]
    and [unsigned long] are 32 bits wide, [u64] and [sector_t] are 64 bits
    wide.  A C integer is a [Z] in the range of its type; every operation that
    can leave the range is followed by the conversion below. *)
Definition u8 (x : Z) : Z := x `mod` 2 ^ 8.
Definition u16 (x : Z) : Z := x `mod` 2 ^ 16.
Definition u32 (x : Z) : Z := x `mod` 2 ^ 32.
Definition u64 (x : Z) : Z := x `mod` 2 ^ 64.

Definition s32 (x : Z) : Z :=
  let y := u32 x in if y <? 2 ^ 31 then y else y - 2 ^ 32.

(** [fls] by the instruction [clz]: the position of the highest bit that is set,
    counted from 1. *)
Definition clz (x : Z) : Z := if x =? 0 then 32 else 31 - Z.log2 x.
Definition fls (x : Z) : Z := 32 - clz x.
Definition __fls (x : Z) : Z := fls x - 1.

Notation "x ⊕ y" := (u32 (x + y)) (at level 50, left associativity) : kernel_scope.
Notation "x ⊖ y" := (u32 (x - y)) (at level 50, left associativity) : kernel_scope.

Definition INT_MAX : Z := 2 ^ 31 - 1.
Definition ULONG_MAX : Z := 2 ^ 32 - 1.

Lemma u32_small x : 0 <= x < 2 ^ 32 -> u32 x = x.
Proof. intros ?. by apply Z.mod_small. Qed.

Lemma u32_range x : 0 <= u32 x < 2 ^ 32.
Proof. apply Z.mod_pos_bound; lia. Qed.

Lemma u32_u32 x : u32 (u32 x) = u32 x.
Proof. apply u32_small, u32_range. Qed.

Lemma u32_add_l x y : u32 (u32 x + y) = u32 (x + y).
Proof. unfold u32. by rewrite Zplus_mod_idemp_l. Qed.

Lemma u32_add_r x y : u32 (x + u32 y) = u32 (x + y).
Proof. unfold u32. by rewrite Zplus_mod_idemp_r. Qed.

Lemma u32_sub_l x y : u32 (u32 x - y) = u32 (x - y).
Proof. unfold u32. by rewrite Zminus_mod_idemp_l. Qed.

Lemma u32_sub_r x y : u32 (x - u32 y) = u32 (x - y).
Proof. unfold u32. by rewrite Zminus_mod_idemp_r. Qed.

Lemma s32_small x : - 2 ^ 31 <= x < 2 ^ 31 -> s32 x = x.
Proof.
  intros ?. unfold s32, u32. destruct (decide (0 <= x)).
  - rewrite Z.mod_small by lia. destruct (Z.ltb_spec x (2 ^ 31)); lia.
  - assert (x `mod` 2 ^ 32 = x + 2 ^ 32) as ->.
    { symmetry. apply (Z.mod_unique_pos _ _ (-1)); lia. }
    destruct (Z.ltb_spec (x + 2 ^ 32) (2 ^ 31)); lia.
Qed.

Lemma s32_u32 x : s32 (u32 x) = s32 x.
Proof. unfold s32. by rewrite u32_u32. Qed.

Lemma s32_range x : - 2 ^ 31 <= s32 x < 2 ^ 31.
Proof.
  unfold s32. pose proof (u32_range x). destruct (Z.ltb_spec (u32 x) (2 ^ 31)); lia.
Qed.

Lemma u32_s32 x : u32 (s32 x) = u32 x.
Proof.
  unfold s32. destruct (_ <? _); [apply u32_u32|]. unfold u32 at 1. replace (u32 x - 2 ^ 32) with (u32 x + (-1) * 2 ^ 32) by lia.
  rewrite Z.mod_add by lia. apply u32_u32.
Qed.
Lemma s32_add_l x y : s32 (s32 x + y) = s32 (x + y).
Proof. rewrite <-s32_u32, <-u32_add_l, u32_s32, u32_add_l. apply s32_u32. Qed.

(** A number and its conversion differ by a multiple of 2^32. *)
Lemma u32_ex x : exists k, u32 x = x + k * 2 ^ 32.
Proof. exists (- (x `div` 2 ^ 32)). unfold u32. pose proof (Z.div_mod x (2 ^ 32)). lia. Qed.
Lemma u32_shift x y k : x = y + k * 2 ^ 32 -> u32 x = u32 y.
Proof. intros ->. unfold u32. by rewrite Z.mod_add by lia. Qed.
Lemma s32_ex x : exists k, s32 x = x + k * 2 ^ 32.
Proof. destruct (u32_ex x) as [k E]. unfold s32. destruct (_ <? _); [exists k; lia|exists (k - 1); lia]. Qed.
Lemma s32_shift x y k : - 2 ^ 31 <= y < 2 ^ 31 -> x = y + k * 2 ^ 32 -> s32 x = y.
Proof. intros Hy E. rewrite <-s32_u32, (u32_shift _ _ _ E), s32_u32. by apply s32_small. Qed.

(** Masking with the complement of [2 ^ k - 1] at the width [w] rounds down to a
    multiple of [2 ^ k], and masking with [2 ^ k - 1] gives the remainder. *)
Lemma land_not_ones w k x : 0 <= k -> 0 <= w -> 0 <= x < 2 ^ w -> Z.land x (Z.lnot (2 ^ k - 1) `mod` 2 ^ w) = x - x `mod` 2 ^ k.
Proof.
  intros Hk Hw Hx. replace (2 ^ k - 1) with (Z.ones k) by (rewrite Z.ones_equiv; lia).
  rewrite <-(Z.land_ones (Z.lnot _) w), (Z.land_comm _ (Z.ones w)), Z.land_assoc, Z.land_ones, Z.mod_small by lia.
  rewrite <-Z.ldiff_land, Z.ldiff_ones_r by lia.
  rewrite Z.shiftl_mul_pow2, Z.shiftr_div_pow2 by lia. pose proof (Z.div_mod x (2 ^ k)). lia.
Qed.
Lemma land_ones_mod k x : 0 <= k -> Z.land x (2 ^ k - 1) = x `mod` 2 ^ k.
Proof. intros Hk. rewrite <-Z.land_ones by done. rewrite Z.ones_equiv. f_equal. Qed.

Create HintDb kernel discriminated.
#[export] Hint Resolve u32_range s32_range : kernel.
Create Rewrite HintDb u32.
#[export] Hint Rewrite u32_u32 u32_add_l u32_add_r u32_sub_l u32_sub_r : u32.

(** ** Effects

    Code that works on shared memory is a state transformer that may stop the
    machine: [None] is a kernel oops, that is a [BUG_ON] that fires or a
    dereference of a pointer that is not allocated.  stdpp's monad notations
    ([x ← m; k] and [m ;; k]) sequence such code. *)
Definition M (S A : Type) : Type := S -> option (A * S).

#[export] Instance M_ret {S} : MRet (M S) := λ A x s, Some (x, s).
#[export] Instance M_bind {S} : MBind (M S) := λ A B f m s,
  match m s with Some (a, s') => f a s' | None => None end.

Definition get {S} : M S S := λ s, Some (s, s).
Definition put {S} (s' : S) : M S unit := λ _, Some (tt, s').
Definition modify {S} (f : S -> S) : M S unit := λ s, Some (tt, f s).
Definition oops {S A} : M S A := λ _, None.
Definition BUG_ON {S} (b : bool) : M S unit := if b then oops else mret tt.

Lemma bind_run {S A B} (f : A -> M S B) (m : M S A) s a s' :
  m s = Some (a, s') -> (m ≫= f) s = f a s'.
Proof. intros H. unfold mbind, M_bind. by rewrite H. Qed.

Lemma bind_inv {S A B} (f : A -> M S B) (m : M S A) s r :
  (m ≫= f) s = Some r -> exists a s', m s = Some (a, s') /\ f a s' = Some r.
Proof.
  unfold mbind, M_bind. destruct (m s) as [[a s']|]; [eauto|done].
Qed.

Lemma bind_assoc {S A B C} (m : M S A) (f : A -> M S B) (g : B -> M S C) s :
  ((m ≫= f) ≫= g) s = (m ≫= (λ a, f a ≫= g)) s.
Proof. unfold mbind, M_bind. by destruct (m s) as [[a s']|]. Qed.

Lemma bind_mret_l {S A B} (a : A) (f : A -> M S B) s : (mret a ≫= f) s = f a s.
Proof. done. Qed.

Lemma bind_run2 {S A} (m1 m2 : M S unit) (rest : M S A) s s' :
  (m1 ;; m2) s = Some (tt, s') -> (m1 ;; m2 ;; rest) s = rest s'.
Proof.
  unfold mbind, M_bind. destruct (m1 s) as [[[] s1]|]; [|done]. by intros ->.
Qed.

Lemma bind_run3 {S A} (m1 m2 m3 : M S unit) (rest : M S A) s s' :
  (m1 ;; m2 ;; m3) s = Some (tt, s') -> (m1 ;; m2 ;; m3 ;; rest) s = rest s'.
Proof.
  unfold mbind, M_bind. destruct (m1 s) as [[[] s1]|]; [|done]. destruct (m2 s1) as [[[] s2]|]; [|done]. by intros ->.
Qed.

(** Runs the first action of a sequence with an equation for it. *)
Ltac mrun H := rewrite (bind_run _ _ _ _ _ H); cbn beta.

(** ** Jiffies

    [jiffies] is an [unsigned long] that wraps around; the comparison macros of
    include/linux/jiffies.h look at the sign of the difference. *)
Definition HZ : Z := 1000.

Definition time_after (a b : Z) : bool := s32 (b - a) <? 0.
Definition time_before (a b : Z) : bool := time_after b a.
Definition time_after_eq (a b : Z) : bool := 0 <=? s32 (a - b).
Definition time_before_eq (a b : Z) : bool := time_after_eq b a.

(** Two instants of real (unbounded) time less than 2^31 ticks apart are
    ordered correctly by the macros whatever their values after wrap-around. *)
Lemma time_after_wrap t t' :
  - 2 ^ 31 < t - t' < 2 ^ 31 -> time_after (u32 t) (u32 t') = (t' <? t).
Proof.
  intros ?. unfold time_after. rewrite <-(s32_u32 (_ - _)).
  autorewrite with u32. rewrite s32_u32, s32_small by lia. lia.
Qed.

Lemma time_after_eq_wrap t t' :
  - 2 ^ 31 < t - t' < 2 ^ 31 -> time_after_eq (u32 t) (u32 t') = (t' <=? t).
Proof.
  intros ?. unfold time_after_eq. rewrite <-(s32_u32 (_ - _)).
  autorewrite with u32. rewrite s32_u32, s32_small by lia. lia.
Qed.

(** An instant that passed less than 2^31 ticks ago. *)
Lemma time_after_passed j t : 0 < u32 (j - t) < 2 ^ 31 -> time_after j t = true.
Proof.
  intros Hd. unfold time_after. rewrite <-s32_u32.
  replace (u32 (t - j)) with (u32 (0 - u32 (j - t))) by (rewrite u32_sub_r; f_equal; lia).
  rewrite s32_u32, s32_small by lia. lia.
Qed.

(** ** Error numbers *)
Definition EPERM : Z := 1.
Definition EINTR : Z := 4.
Definition EBADF : Z := 9.
Definition EAGAIN : Z := 11.
Definition ENOMEM : Z := 12.
Definition EFAULT : Z := 14.
Definition EBUSY : Z := 16.
Definition ENODEV : Z := 19.
Definition EINVAL : Z := 22.
Definition ENOTTY : Z := 25.

(** ** Lists *)
Lemma nodup_split {A} (x : A) (l1 l2 k1 k2 : list A) :
  NoDup (l1 ++ x :: l2) -> l1 ++ x :: l2 = k1 ++ x :: k2 -> l1 = k1 /\ l2 = k2.
Proof.
  revert k1. induction l1 as [|a l1 IH]; intros [|b k1] Hn E; simplify_eq/=; [done|..].
  - apply NoDup_cons in Hn as [Hx _]. set_solver +Hx.
  - apply NoDup_cons in Hn as [Hx _]. set_solver +Hx.
  - apply NoDup_cons in Hn as [_ Hn]. destruct (IH k1) as [-> ->]; done.
Qed.

(** Taking one element out of a list. *)
Lemma filter_ne_notin (l : list Z) x : x ∉ l -> filter (λ y, y <> x) l = l.
Proof.
  induction l as [|a l IH]; intros Hx; [done|]. rewrite filter_cons, decide_True by set_solver +Hx.
  f_equal. apply IH. set_solver +Hx.
Qed.
Lemma filter_ne (l1 l2 : list Z) x : NoDup (l1 ++ x :: l2) -> filter (λ y, y <> x) (l1 ++ x :: l2) = l1 ++ l2.
Proof.
  intros Hn. rewrite <-Permutation_middle in Hn. apply NoDup_cons in Hn as [Hx _].
  rewrite filter_app, filter_cons, decide_False by congruence. rewrite <-filter_app. by apply filter_ne_notin.
Qed.

(** A part of a sorted list is sorted. *)
Lemma sorted_filter {A : Type} (R : A -> A -> Prop) (P : A -> Prop) `{!forall x : A, Decision (P x)} (l : list A) : StronglySorted R l -> StronglySorted R (filter P l).
Proof.
  induction 1 as [|x l Hs IH Hx]; [constructor|]. rewrite filter_cons. case_decide; [|done]. constructor; [done|]. rewrite Forall_forall in *. intros y [_ Hy]%list_elem_of_filter. by apply Hx.
Qed.
