(* ===== verification/Time.v ===== *)
(** * Arithmetic on times

    Conversions between units of time (kernel/time.c, include/linux/time.h and jiffies.h),
    the packed representation of [ktime_t] that a 32-bit kernel uses
    (include/linux/ktime.h), 64-bit division in software (lib/div64.c) and the calendar of
    the real-time clock (drivers/rtc/rtc-lib.c).  [HZ] is 1000 and the timer of the
    S5PV210 runs at 12 MHz, which fixes the constants of jiffies.h. *)
From stdpp Require Import prelude list.
From Stdlib Require Import ZArith Lia ZifyBool.
From S2P Require Import Prelude.
Open Scope Z_scope.

Module Time.

Definition s64 (x : Z) : Z := let y := u64 x in if y <? 2 ^ 63 then y else y - 2 ^ 64.

(** ** Division *)
(** [while ((int64_t)b > 0 && b < rem)] *)
Fixpoint div64_up (fuel : nat) (rem b d : Z) : option (Z * Z) :=
  match fuel with
  | O => None
  | S fuel => if (0 <? s64 b) && (b <? rem) then div64_up fuel rem (u64 (b + b)) (u64 (d + d)) else Some (b, d)
  end.
(** [do { ... } while (d)] *)
Fixpoint div64_down (fuel : nat) (rem res b d : Z) : option (Z * Z) :=
  match fuel with
  | O => None
  | S fuel =>
      let '(rem, res) := if rem >=? b then (u64 (rem - b), u64 (res + d)) else (rem, res) in
      let b := Z.shiftr b 1 in
      let d := Z.shiftr d 1 in
      if negb (d =? 0) then div64_down fuel rem res b d else Some (res, rem)
  end.
(** The quotient that is stored in [*n], and the remainder. *)
Definition __div64_32 (n base : Z) : option (Z * Z) :=
  let high := u32 (Z.shiftr n 32) in
  let '(rem, res) :=
    if high >=? base then
      let high := high `div` base in (u64 (n - u64 (Z.shiftl (u32 (high * base)) 32)), u64 (Z.shiftl high 32))
    else (n, 0) in
  match div64_up 65 rem base 1 with
  | None => None
  | Some (b, d) => div64_down 65 rem res b d
  end.

(** [div_u64_rem] by [do_div], which is the division of the language here. *)
Definition div_u64_rem (dividend divisor : Z) : Z * Z := (dividend `div` divisor, dividend `mod` divisor).
Definition div_u64 (dividend divisor : Z) : Z := (div_u64_rem dividend divisor).1.
Definition div_s64_rem (dividend divisor : Z) : Z * Z :=
  if dividend <? 0 then
    let '(quotient, remainder) := div_u64_rem (u64 (- dividend)) (Z.abs divisor) in
    (s64 (if divisor >? 0 then u64 (- quotient) else quotient), s32 (- remainder))
  else
    let '(quotient, remainder) := div_u64_rem dividend (Z.abs divisor) in
    (s64 (if divisor <? 0 then u64 (- quotient) else quotient), s32 remainder).
(** [div64_u64] shifts both operands until the divisor has 32 bits. *)
Definition div64_u64 (dividend divisor : Z) : Z :=
  let high := u32 (Z.shiftr divisor 32) in
  if negb (high =? 0) then
    let shift := fls high in
    div_u64 (Z.shiftr dividend shift) (u32 (Z.shiftr divisor shift))
  else div_u64 dividend (u32 divisor).
(** [while (dividend >= divisor)] *)
Fixpoint iter_div_loop (fuel : nat) (dividend divisor ret : Z) : option (Z * Z) :=
  match fuel with
  | O => None
  | S fuel => if dividend >=? divisor then iter_div_loop fuel (dividend - divisor) divisor (u32 (ret + 1)) else Some (ret, dividend)
  end.
Definition __iter_div_u64_rem (dividend divisor : Z) : option (Z * Z) :=
  iter_div_loop (S (Z.to_nat (dividend `div` divisor))) dividend divisor 0.

(** ** Units *)
Definition MSEC_PER_SEC : Z := 1000.
Definition NSEC_PER_USEC : Z := 1000.
Definition USEC_PER_SEC : Z := 1000000.
Definition NSEC_PER_SEC : Z := 1000000000.
Definition USER_HZ : Z := 100.
Definition TIME_T_MAX : Z := 2 ^ 31 - 1.
Definition CLOCK_TICK_RATE : Z := 12000000.

Definition SH_DIV (NOM DEN LSH : Z) : Z := Z.shiftl (NOM `div` DEN) LSH + (Z.shiftl (NOM `mod` DEN) LSH + DEN `div` 2) `div` DEN.
Definition LATCH : Z := (CLOCK_TICK_RATE + HZ `div` 2) `div` HZ.
Definition ACTHZ : Z := SH_DIV CLOCK_TICK_RATE LATCH 8.
Definition TICK_NSEC : Z := SH_DIV (1000000 * 1000) ACTHZ 8.
Definition SHIFT_HZ : Z := 10.
Definition SEC_JIFFIE_SC : Z :=
  if Z.land (Z.shiftl (Z.shiftl NSEC_PER_SEC 2 `div` TICK_NSEC) (31 - SHIFT_HZ - 2)) 2147483648 =? 0 then 32 - SHIFT_HZ else 31 - SHIFT_HZ.
Definition NSEC_JIFFIE_SC : Z := SEC_JIFFIE_SC + 29.
Definition USEC_JIFFIE_SC : Z := SEC_JIFFIE_SC + 19.
Definition SEC_CONVERSION : Z := u32 (u64 (u64 (Z.shiftl NSEC_PER_SEC SEC_JIFFIE_SC) + TICK_NSEC - 1) `div` TICK_NSEC).
Definition NSEC_CONVERSION : Z := u32 (u64 (u64 (Z.shiftl 1 NSEC_JIFFIE_SC) + TICK_NSEC - 1) `div` TICK_NSEC).
Definition USEC_CONVERSION : Z := u32 (u64 (u64 (Z.shiftl NSEC_PER_USEC USEC_JIFFIE_SC) + TICK_NSEC - 1) `div` TICK_NSEC).
Definition USEC_ROUND : Z := u64 (Z.shiftl 1 USEC_JIFFIE_SC - 1).
Definition MAX_JIFFY_OFFSET : Z := Z.shiftr (2 ^ 31 - 1) 1 - 1.
Definition MAX_SEC_IN_JIFFIES : Z := s32 (u64 (MAX_JIFFY_OFFSET * TICK_NSEC) `div` NSEC_PER_SEC).

(** ** Seconds and nanoseconds *)
Record timespec := Timespec { tv_sec : Z; tv_nsec : Z }.
Record timeval := Timeval { tvv_sec : Z; tv_usec : Z }.

Definition timespec_equal (a b : timespec) : bool := (tv_sec a =? tv_sec b) && (tv_nsec a =? tv_nsec b).
Definition timespec_compare (lhs rhs : timespec) : Z :=
  if tv_sec lhs <? tv_sec rhs then -1
  else if tv_sec lhs >? tv_sec rhs then 1
  else s32 (tv_nsec lhs - tv_nsec rhs).
Definition timespec_valid (ts : timespec) : bool := (tv_sec ts >=? 0) && (u32 (tv_nsec ts) <? NSEC_PER_SEC).

(** The two loops of [set_normalized_timespec]. *)
Fixpoint norm_down (fuel : nat) (sec nsec : Z) : option (Z * Z) :=
  match fuel with
  | O => None
  | S fuel => if nsec >=? NSEC_PER_SEC then norm_down fuel (s32 (sec + 1)) (nsec - NSEC_PER_SEC) else Some (sec, nsec)
  end.
Fixpoint norm_up (fuel : nat) (sec nsec : Z) : option (Z * Z) :=
  match fuel with
  | O => None
  | S fuel => if nsec <? 0 then norm_up fuel (s32 (sec - 1)) (nsec + NSEC_PER_SEC) else Some (sec, nsec)
  end.
Definition set_normalized_timespec (sec nsec : Z) : option timespec :=
  let fuel := S (S (Z.to_nat (Z.abs nsec `div` NSEC_PER_SEC))) in
  match norm_down fuel sec nsec with
  | None => None
  | Some (sec, nsec) =>
      match norm_up fuel sec nsec with
      | None => None
      | Some (sec, nsec) => Some (Timespec sec nsec)
      end
  end.

Definition timespec_sub (lhs rhs : timespec) : option timespec :=
  set_normalized_timespec (s32 (tv_sec lhs - tv_sec rhs)) (s32 (tv_nsec lhs - tv_nsec rhs)).
Definition timespec_add_safe (lhs rhs : timespec) : option timespec :=
  match set_normalized_timespec (s32 (tv_sec lhs + tv_sec rhs)) (s32 (tv_nsec lhs + tv_nsec rhs)) with
  | None => None
  | Some res =>
      Some (if (tv_sec res <? tv_sec lhs) || (tv_sec res <? tv_sec rhs) then Timespec TIME_T_MAX (tv_nsec res) else res)
  end.
Definition timespec_add_ns (a : timespec) (ns : Z) : option timespec :=
  match __iter_div_u64_rem (u64 (tv_nsec a + ns)) NSEC_PER_SEC with
  | None => None
  | Some (q, ns) => Some (Timespec (s32 (tv_sec a + q)) (s32 ns))
  end.
Definition timespec_to_ns (ts : timespec) : Z := s64 (tv_sec ts * NSEC_PER_SEC + tv_nsec ts).
Definition timeval_to_ns (tv : timeval) : Z := s64 (tvv_sec tv * NSEC_PER_SEC + s32 (tv_usec tv * NSEC_PER_USEC)).
Definition ns_to_timespec (nsec : Z) : timespec :=
  if nsec =? 0 then Timespec 0 0
  else
    let '(q, rem) := div_s64_rem nsec NSEC_PER_SEC in
    if rem <? 0 then Timespec (s32 (s32 q - 1)) (s32 (rem + NSEC_PER_SEC)) else Timespec (s32 q) rem.
Definition ns_to_timeval (nsec : Z) : timeval :=
  let ts := ns_to_timespec nsec in Timeval (tv_sec ts) (Z.quot (tv_nsec ts) 1000).

(** ** Jiffies *)
Definition jiffies_to_msecs (j : Z) : Z := u32 (MSEC_PER_SEC `div` HZ * j).
Definition jiffies_to_usecs (j : Z) : Z := u32 (USEC_PER_SEC `div` HZ * j).
Definition msecs_to_jiffies (m : Z) : Z :=
  if s32 m <? 0 then MAX_JIFFY_OFFSET
  else u32 (m + MSEC_PER_SEC `div` HZ - 1) `div` (MSEC_PER_SEC `div` HZ).
Definition usecs_to_jiffies (u : Z) : Z :=
  if u >? jiffies_to_usecs MAX_JIFFY_OFFSET then MAX_JIFFY_OFFSET
  else u32 (u + USEC_PER_SEC `div` HZ - 1) `div` (USEC_PER_SEC `div` HZ).
Definition timespec_to_jiffies (value : timespec) : Z :=
  let sec := u32 (tv_sec value) in
  let nsec := s32 (tv_nsec value + TICK_NSEC - 1) in
  let '(sec, nsec) := if sec >=? u32 MAX_SEC_IN_JIFFIES then (u32 MAX_SEC_IN_JIFFIES, 0) else (sec, nsec) in
  u32 (Z.shiftr (u64 (u64 (sec * SEC_CONVERSION) + Z.shiftr (u64 (u64 nsec * NSEC_CONVERSION)) (NSEC_JIFFIE_SC - SEC_JIFFIE_SC))) SEC_JIFFIE_SC).
Definition jiffies_to_timespec (jiffies : Z) : timespec :=
  let '(q, rem) := div_u64_rem (u64 (jiffies * TICK_NSEC)) NSEC_PER_SEC in Timespec (s32 q) rem.
Definition timeval_to_jiffies (value : timeval) : Z :=
  let sec := u32 (tvv_sec value) in
  let usec := tv_usec value in
  let '(sec, usec) := if sec >=? u32 MAX_SEC_IN_JIFFIES then (u32 MAX_SEC_IN_JIFFIES, 0) else (sec, usec) in
  u32 (Z.shiftr (u64 (u64 (sec * SEC_CONVERSION) +
    Z.shiftr (u64 (u64 (u64 usec * USEC_CONVERSION) + USEC_ROUND)) (USEC_JIFFIE_SC - SEC_JIFFIE_SC))) SEC_JIFFIE_SC).
Definition jiffies_to_timeval (jiffies : Z) : timeval :=
  let '(q, rem) := div_u64_rem (u64 (jiffies * TICK_NSEC)) NSEC_PER_SEC in Timeval (s32 q) (rem `div` NSEC_PER_USEC).
Definition jiffies_to_clock_t (x : Z) : Z := s32 (div_u64 (u64 (u64 x * TICK_NSEC)) (NSEC_PER_SEC `div` USER_HZ)).
Definition clock_t_to_jiffies (x : Z) : Z :=
  if x >=? ULONG_MAX `div` (HZ `div` USER_HZ) then ULONG_MAX else u32 (x * (HZ `div` USER_HZ)).
Definition jiffies_64_to_clock_t (x : Z) : Z := div_u64 (u64 (x * TICK_NSEC)) (NSEC_PER_SEC `div` USER_HZ).
Definition nsec_to_clock_t (x : Z) : Z := div_u64 x (NSEC_PER_SEC `div` USER_HZ).
Definition nsecs_to_jiffies (n : Z) : Z := u32 (div_u64 n (NSEC_PER_SEC `div` HZ)).
Definition timespec_trunc (t : timespec) (gran : Z) : timespec :=
  if gran <=? u32 (jiffies_to_usecs 1 * 1000) then t
  else if gran =? 1000000000 then Timespec (tv_sec t) 0
  else Timespec (tv_sec t) (s32 (u32 (tv_nsec t) - u32 (tv_nsec t) `mod` gran)).

(** ** [ktime_t]

    A union of a 64-bit number [tv64] and the pair of the seconds in its high half and the
    nanoseconds in its low half; a [ktime_t] is [tv64] here. *)
Definition kt_sec (kt : Z) : Z := s32 (Z.shiftr kt 32).
Definition kt_nsec (kt : Z) : Z := s32 kt.
Definition ktime_set (secs nsecs : Z) : Z := s64 (Z.shiftl secs 32 + u32 nsecs).
Definition ktime_sub (lhs rhs : Z) : Z :=
  let res := s64 (lhs - rhs) in
  if kt_nsec res <? 0 then ktime_set (kt_sec res) (kt_nsec res + NSEC_PER_SEC) else res.
Definition ktime_add (add1 add2 : Z) : Z :=
  let res := s64 (add1 + add2) in
  if kt_nsec res >=? NSEC_PER_SEC then s64 (res + u32 (- NSEC_PER_SEC)) else res.
Definition timespec_to_ktime (ts : timespec) : Z := ktime_set (tv_sec ts) (tv_nsec ts).
Definition timeval_to_ktime (tv : timeval) : Z := ktime_set (tvv_sec tv) (s32 (tv_usec tv * 1000)).
Definition ktime_to_timespec (kt : Z) : timespec := Timespec (kt_sec kt) (kt_nsec kt).
Definition ktime_to_timeval (kt : Z) : timeval := Timeval (kt_sec kt) (Z.quot (kt_nsec kt) NSEC_PER_USEC).
Definition ktime_to_ns (kt : Z) : Z := s64 (kt_sec kt * NSEC_PER_SEC + kt_nsec kt).

(** ** The calendar *)
Definition mktime (year0 mon0 day hour min sec : Z) : Z :=
  let mon := u32 (mon0 - 2) in
  let '(mon, year) := if 0 >=? s32 mon then (u32 (mon + 12), u32 (year0 - 1)) else (mon, year0) in
  let days := u32 (u32 (year `div` 4 - year `div` 100 + year `div` 400 + u32 (367 * mon) `div` 12 + day) + u32 (year * 365) - 719499) in
  u32 (u32 (u32 (u32 (u32 (days * 24 + hour) * 60) + min) * 60) + sec).

Record rtc_time := RtcTime {
  tm_sec : Z; tm_min : Z; tm_hour : Z; tm_mday : Z; tm_mon : Z; tm_year : Z; tm_wday : Z; tm_yday : Z;
}.
Definition is_leap_year (year : Z) : bool := ((year `mod` 4 =? 0) && negb (year `mod` 100 =? 0)) || (year `mod` 400 =? 0).
Definition rtc_days_in_month : list Z := [31; 28; 31; 30; 31; 30; 31; 31; 30; 31; 30; 31].
Definition rtc_ydays (leap : bool) : list Z :=
  if leap then [0; 31; 60; 91; 121; 152; 182; 213; 244; 274; 305; 335; 366]
  else [0; 31; 59; 90; 120; 151; 181; 212; 243; 273; 304; 334; 365].
Definition LEAPS_THRU_END_OF (y : Z) : Z := y `div` 4 - y `div` 100 + y `div` 400.
(** For [month] < 12. *)
Definition rtc_month_days (month year : Z) : Z :=
  nth (Z.to_nat month) rtc_days_in_month 0 + (if is_leap_year year && (month =? 1) then 1 else 0).
Definition rtc_year_days (day month year : Z) : Z := nth (Z.to_nat month) (rtc_ydays (is_leap_year year)) 0 + day - 1.

(** [for (month = 0; month < 11; month++)], for the [c] months that are left. *)
Fixpoint month_loop (c : nat) (month days year : Z) : Z * Z :=
  match c with
  | O => (month, days)
  | S c =>
      let newdays := days - rtc_month_days month year in
      if newdays <? 0 then (month, days) else month_loop c (month + 1) newdays year
  end.
Definition rtc_time_to_tm (time : Z) : rtc_time :=
  let days := time `div` 86400 in
  let time := u32 (time - u32 (days * 86400)) in
  let tm_wday := (days + 4) `mod` 7 in
  let year := 1970 + days `div` 365 in
  let days := s32 (u32 (days - u32 ((year - 1970) * 365 + LEAPS_THRU_END_OF (year - 1) - LEAPS_THRU_END_OF (1970 - 1)))) in
  let '(year, days) := if days <? 0 then (year - 1, days + 365 + (if is_leap_year (year - 1) then 1 else 0)) else (year, days) in
  let tm_yday := days + 1 in
  let '(month, mdays) := month_loop 11 0 days year in
  let hour := time `div` 3600 in
  let time := u32 (time - hour * 3600) in
  let min := time `div` 60 in
  RtcTime (time - min * 60) min hour (mdays + 1) month (year - 1900) tm_wday tm_yday.
Definition rtc_valid_tm (tm : rtc_time) : Z :=
  if (tm_year tm <? 70) || (u32 (tm_mon tm) >=? 12) || (tm_mday tm <? 1)
     || (tm_mday tm >? rtc_month_days (tm_mon tm) (tm_year tm + 1900))
     || (u32 (tm_hour tm) >=? 24) || (u32 (tm_min tm) >=? 60) || (u32 (tm_sec tm) >=? 60)
  then - EINVAL else 0.
Definition rtc_tm_to_time (tm : rtc_time) : Z :=
  mktime (u32 (tm_year tm + 1900)) (u32 (tm_mon tm + 1)) (u32 (tm_mday tm)) (u32 (tm_hour tm)) (u32 (tm_min tm)) (u32 (tm_sec tm)).

(** ** Lemmas on widths *)
Lemma u64_small x : 0 <= x < 2 ^ 64 -> u64 x = x.
Proof. intros ?. by apply Z.mod_small. Qed.
Lemma u64_range x : 0 <= u64 x < 2 ^ 64.
Proof. apply Z.mod_pos_bound; lia. Qed.
Lemma s64_small x : - 2 ^ 63 <= x < 2 ^ 63 -> s64 x = x.
Proof.
  intros ?. unfold s64, u64. destruct (decide (0 <= x)).
  - rewrite Z.mod_small by lia. destruct (Z.ltb_spec x (2 ^ 63)); lia.
  - assert (x `mod` 2 ^ 64 = x + 2 ^ 64) as -> by (symmetry; apply (Z.mod_unique_pos _ _ (-1)); lia).
    destruct (Z.ltb_spec (x + 2 ^ 64) (2 ^ 63)); lia.
Qed.
Lemma s64_neg x : 2 ^ 63 <= x < 2 ^ 64 -> s64 x < 0.
Proof. intros ?. unfold s64. rewrite u64_small by lia. destruct (Z.ltb_spec x (2 ^ 63)); lia. Qed.

(** ** Division *)
(** The divisor is doubled [k] times, until it is more than half the dividend. *)
Lemma div64_up_run base rem fuel : forall k b d, 0 < base < 2 ^ 32 -> 0 <= rem < 2 ^ 64 -> 0 <= k -> b = base * 2 ^ k -> d = 2 ^ k -> 2 ^ k <= 2 ^ 63 -> b < 2 ^ 64 ->
  64 - k <= Z.of_nat fuel - 1 ->
  exists k', k <= k' <= 63 /\ div64_up fuel rem b d = Some (base * 2 ^ k', 2 ^ k') /\ base * 2 ^ k' < 2 ^ 64 /\ rem < 2 * (base * 2 ^ k').
Proof.
  induction fuel as [|fuel IH]; intros k b d Hbase Hrem Hk -> -> Hk63 Hb Hf.
  { assert (2 ^ 65 <= 2 ^ k) by (apply Z.pow_le_mono_r; lia). lia. }
  assert (0 < 2 ^ k) as Hp by (apply Z.pow_pos_nonneg; lia). cbn [div64_up].
  destruct (Z.lt_ge_cases (base * 2 ^ k) (2 ^ 63)) as [Hlt|Hge].
  - rewrite s64_small by nia. destruct (Z.ltb_spec 0 (base * 2 ^ k)); [|nia]. cbn [andb].
    destruct (Z.ltb_spec (base * 2 ^ k) rem) as [Hlt2|Hge2].
    + rewrite !u64_small by nia. replace (base * 2 ^ k + base * 2 ^ k) with (base * 2 ^ (k + 1)) by (rewrite Z.pow_add_r by lia; lia).
      replace (2 ^ k + 2 ^ k) with (2 ^ (k + 1)) by (rewrite Z.pow_add_r by lia; lia).
      assert (2 ^ (k + 1) = 2 * 2 ^ k) as E1 by (rewrite Z.pow_add_r by lia; lia).
      assert (k < 63) by (apply (Z.pow_lt_mono_r_iff 2); nia).
      destruct (IH (k + 1) _ _ Hbase Hrem ltac:(lia) eq_refl eq_refl) as (k' & Hk' & Hrun & Hb' & Hr'); [apply Z.pow_le_mono_r; lia|lia|lia|].
      exists k'. split; [lia|done].
    + exists k. assert (k < 64) by (apply (Z.pow_lt_mono_r_iff 2); lia). split; [lia|]. split; [done|]. lia.
  - pose proof (s64_neg (base * 2 ^ k) ltac:(lia)). destruct (Z.ltb_spec 0 (s64 (base * 2 ^ k))); [lia|]. cbn [andb].
    exists k. assert (k < 64) by (apply (Z.pow_lt_mono_r_iff 2); lia). split; [lia|]. split; [done|]. lia.
Qed.

(** Going down, each bit of the quotient is found. *)
Lemma div64_down_run base fuel : forall k rem res, 0 < base -> 0 <= k -> (Z.to_nat k < fuel)%nat -> 0 <= rem < 2 * (base * 2 ^ k) -> base * 2 ^ k < 2 ^ 64 -> rem < 2 ^ 64 ->
  0 <= res -> res + rem `div` base < 2 ^ 64 ->
  div64_down fuel rem res (base * 2 ^ k) (2 ^ k) = Some (res + rem `div` base, rem `mod` base).
Proof.
  induction fuel as [|fuel IH]; intros k rem res Hbase Hk Hf Hrem Hb Hr64 Hres Hq; [lia|].
  assert (0 < 2 ^ k) as Hp by (apply Z.pow_pos_nonneg; lia). cbn [div64_down].
  set (rr := if rem >=? base * 2 ^ k then _ else _).
  assert (exists rem' res', rr = (rem', res') /\ 0 <= rem' < base * 2 ^ k /\ 0 <= res' /\ res' + rem' `div` base = res + rem `div` base /\ rem' `mod` base = rem `mod` base) as (rem' & res' & -> & Hrem' & Hres' & Eq & Em).
  { unfold rr. rewrite Z.geb_leb. destruct (Z.leb_spec (base * 2 ^ k) rem).
    - assert (rem = (rem - base * 2 ^ k) + 2 ^ k * base) as E by lia.
      assert (rem `div` base = (rem - base * 2 ^ k) `div` base + 2 ^ k) as Ed by (rewrite E at 1; by rewrite Z.div_add by lia).
      assert (0 <= (rem - base * 2 ^ k) `div` base) by (apply Z.div_pos; lia).
      rewrite !u64_small by lia. eexists _, _. split; [done|]. split; [lia|]. split; [lia|]. split; [lia|].
      rewrite E at 2. by rewrite Z.mod_add by lia.
    - eexists _, _. split; [done|]. split; [lia|]. done. }
  rewrite !Z.shiftr_div_pow2 by lia. change (2 ^ 1) with 2. destruct (decide (k = 0)) as [->|Hk0].
  - cbn [negb]. change (2 ^ 0 `div` 2 =? 0) with true. cbn [negb]. rewrite Z.mul_1_r in *. rewrite <-Eq, <-Em. rewrite Z.div_small, Z.mod_small by lia. f_equal. f_equal. lia.
  - assert (2 ^ k = 2 ^ (k - 1) * 2) as E2 by (rewrite <-(Z.pow_add_r 2 _ 1) by lia; f_equal; lia).
    assert (0 < 2 ^ (k - 1)) by (apply Z.pow_pos_nonneg; lia).
    replace ((base * 2 ^ k) `div` 2) with (base * 2 ^ (k - 1)) by (rewrite E2, Z.mul_assoc, Z.div_mul by lia; done).
    replace (2 ^ k `div` 2) with (2 ^ (k - 1)) by (rewrite E2, Z.div_mul by lia; done).
    destruct (Z.eqb_spec (2 ^ (k - 1)) 0); [lia|]. cbn [negb]. rewrite IH; [by rewrite Eq, Em|lia..].
Qed.

(** The software division is division. *)
Lemma div64_32_run n base : 0 <= n < 2 ^ 64 -> 0 < base < 2 ^ 32 -> __div64_32 n base = Some (n `div` base, n `mod` base).
Proof.
  intros Hn Hb. unfold __div64_32. set (h := n `div` 2 ^ 32).
  assert (0 <= h < 2 ^ 32) as Hh by (split; [apply Z.div_pos; lia|apply Z.div_lt_upper_bound; lia]).
  rewrite Z.shiftr_div_pow2 by lia. fold h. rewrite (u32_small h) by done. set (q := h `div` base).
  pose proof (Z.div_mod h base ltac:(lia)) as Dh. pose proof (Z.mod_pos_bound h base ltac:(lia)) as Mh. fold q in Dh.
  assert (0 <= q <= h) as Hq by (split; [apply Z.div_pos; lia|apply Z.div_le_upper_bound; nia]).
  pose proof (Z.div_mod n (2 ^ 32) ltac:(lia)) as Dn. pose proof (Z.mod_pos_bound n (2 ^ 32) ltac:(lia)) as Mn. fold h in Dn.
  assert (n `div` base < 2 ^ 64) as Hq64 by (apply Z.div_lt_upper_bound; nia).
  set (rr := if h >=? base then _ else _).
  assert (exists rem res, rr = (rem, res) /\ 0 <= rem < 2 ^ 64 /\ 0 <= res /\ res + rem `div` base = n `div` base /\ rem `mod` base = n `mod` base) as (rem & res & -> & Hrem & Hres & Eq & Em).
  { unfold rr. rewrite Z.geb_leb. destruct (Z.leb_spec base h); [|by exists n, 0].
    rewrite !Z.shiftl_mul_pow2 by lia. assert (0 <= q * base <= h) as Hqb by nia.
    rewrite (u32_small (q * base)) by lia. rewrite (u64_small (q * base * 2 ^ 32)), (u64_small (n - _)), (u64_small (q * 2 ^ 32)) by lia.
    exists (n - q * base * 2 ^ 32), (q * 2 ^ 32). assert (n = n - q * base * 2 ^ 32 + (q * 2 ^ 32) * base) as E by lia.
    split; [done|]. split; [nia|]. split; [lia|]. split.
    - rewrite E at 2. rewrite Z.div_add by lia. lia.
    - rewrite E at 2. by rewrite Z.mod_add by lia. }
  destruct (div64_up_run base rem 65 0 base 1) as (k & Hk & -> & Hb64 & Hr2); try lia.
  rewrite (div64_down_run base) by lia. by rewrite Eq, Em.
Qed.

Lemma div_s64_rem_floor n d : - 2 ^ 63 <= n < 2 ^ 63 -> 0 < d < 2 ^ 31 -> div_s64_rem n d = (Z.quot n d, Z.rem n d).
Proof.
  intros Hn Hd. unfold div_s64_rem, div_u64_rem. rewrite Z.abs_eq by lia. destruct (Z.ltb_spec n 0).
  - rewrite (u64_small (- n)) by lia. destruct (Z.gtb_spec d 0); [|lia].
    assert (Z.quot n d = - ((- n) `div` d)) as -> by (rewrite <-Z.quot_div_nonneg, Z.quot_opp_l by lia; lia).
    assert (Z.rem n d = - ((- n) `mod` d)) as -> by (rewrite <-Z.rem_mod_nonneg, Z.rem_opp_l by lia; lia).
    pose proof (Z.mod_pos_bound (- n) d ltac:(lia)). rewrite s32_small by lia.
    assert (0 <= (- n) `div` d <= - n) as Hq by (split; [apply Z.div_pos; lia|apply Z.div_le_upper_bound; nia]).
    assert (s64 (u64 (- ((- n) `div` d))) = - ((- n) `div` d)) as ->; [|done].
    unfold s64, u64. rewrite Zmod_mod. fold (u64 (- ((- n) `div` d))). fold (s64 (- ((- n) `div` d))). apply s64_small. lia.
  - destruct (Z.ltb_spec d 0); [lia|]. rewrite Z.quot_div_nonneg, Z.rem_mod_nonneg by lia.
    pose proof (Z.mod_pos_bound n d ltac:(lia)). rewrite s32_small by lia.
    assert (0 <= n `div` d <= n) as Hq by (split; [apply Z.div_pos; lia|apply Z.div_le_upper_bound; nia]). by rewrite s64_small by lia.
Qed.

(** ** Normal form *)
Lemma norm_down_run fuel : forall sec nsec, (Z.to_nat (Z.max 0 nsec `div` NSEC_PER_SEC) < fuel)%nat ->
  norm_down fuel sec nsec = Some (if nsec >=? NSEC_PER_SEC then (s32 (sec + nsec `div` NSEC_PER_SEC), nsec `mod` NSEC_PER_SEC) else (sec, nsec)).
Proof.
  change NSEC_PER_SEC with 1000000000. induction fuel as [|fuel IH]; intros sec nsec Hf; [lia|]. cbn [norm_down].
  change NSEC_PER_SEC with 1000000000. rewrite !Z.geb_leb. destruct (Z.leb_spec 1000000000 nsec); [|done].
  assert (nsec `div` 1000000000 = (nsec - 1000000000) `div` 1000000000 + 1) as Ed by (rewrite <-Z.div_add by lia; f_equal; lia).
  rewrite Z.max_r in Hf by lia. assert (0 <= (nsec - 1000000000) `div` 1000000000) by (apply Z.div_pos; lia).
  rewrite IH by (rewrite Z.max_r by lia; lia). rewrite Z.geb_leb.
  assert (nsec `mod` 1000000000 = (nsec - 1000000000) `mod` 1000000000) as Em.
  { replace (nsec - 1000000000) with (nsec + (-1) * 1000000000) by lia. by rewrite Z.mod_add by lia. }
  destruct (Z.leb_spec 1000000000 (nsec - 1000000000)).
  - rewrite Em. f_equal. f_equal. rewrite s32_add_l. f_equal. lia.
  - rewrite Em, (Z.mod_small (nsec - 1000000000)) by lia. f_equal. f_equal. f_equal. rewrite Ed, Z.div_small by lia. lia.
Qed.
Lemma norm_up_run fuel : forall sec nsec, (Z.to_nat (- (Z.min 0 nsec `div` NSEC_PER_SEC)) < fuel)%nat ->
  norm_up fuel sec nsec = Some (if nsec <? 0 then (s32 (sec + nsec `div` NSEC_PER_SEC), nsec `mod` NSEC_PER_SEC) else (sec, nsec)).
Proof.
  change NSEC_PER_SEC with 1000000000. induction fuel as [|fuel IH]; intros sec nsec Hf; [lia|]. cbn [norm_up].
  change NSEC_PER_SEC with 1000000000. destruct (Z.ltb_spec nsec 0); [|done].
  assert (nsec `div` 1000000000 = (nsec + 1000000000) `div` 1000000000 - 1) as Ed.
  { replace (nsec + 1000000000) with (nsec + 1 * 1000000000) by lia. rewrite Z.div_add by lia. lia. }
  assert (nsec `mod` 1000000000 = (nsec + 1000000000) `mod` 1000000000) as Em.
  { replace (nsec + 1000000000) with (nsec + 1 * 1000000000) by lia. by rewrite Z.mod_add by lia. }
  rewrite Z.min_r in Hf by lia. assert (nsec `div` 1000000000 < 0) by (apply Z.div_lt_upper_bound; lia).
  rewrite IH.
  - rewrite Em. destruct (Z.ltb_spec (nsec + 1000000000) 0).
    + f_equal. f_equal. rewrite s32_add_l. f_equal. lia.
    + rewrite (Z.mod_small (nsec + 1000000000)) by lia. f_equal. f_equal. f_equal. rewrite Ed, Z.div_small by lia. lia.
  - destruct (Z.min_spec 0 (nsec + 1000000000)) as [[_ ->]|[_ ->]]; [rewrite Z.div_0_l by lia; lia|lia].
Qed.

Lemma set_normalized_run sec nsec : - 2 ^ 31 <= sec < 2 ^ 31 ->
  set_normalized_timespec sec nsec = Some (Timespec (s32 (sec + nsec `div` NSEC_PER_SEC)) (nsec `mod` NSEC_PER_SEC)).
Proof.
  intros Hs. unfold set_normalized_timespec. change NSEC_PER_SEC with 1000000000 in *.
  rewrite norm_down_run.
  - change NSEC_PER_SEC with 1000000000. rewrite Z.geb_leb. destruct (Z.leb_spec 1000000000 nsec).
    + rewrite norm_up_run.
      * pose proof (Z.mod_pos_bound nsec 1000000000 ltac:(lia)). destruct (Z.ltb_spec (nsec `mod` 1000000000) 0); [lia|done].
      * change NSEC_PER_SEC with 1000000000. pose proof (Z.mod_pos_bound nsec 1000000000 ltac:(lia)). rewrite Z.min_l, Z.div_0_l by lia. lia.
    + rewrite norm_up_run.
      * change NSEC_PER_SEC with 1000000000. destruct (Z.ltb_spec nsec 0); [done|]. rewrite Z.div_small, Z.mod_small, Z.add_0_r, s32_small by lia. done.
      * change NSEC_PER_SEC with 1000000000. destruct (Z.min_spec 0 nsec) as [[_ ->]|[Hle ->]]; [rewrite Z.div_0_l by lia; lia|].
        rewrite Z.abs_neq by lia. pose proof (Z.div_opp_l_nz nsec 1000000000). pose proof (Z.div_opp_l_z nsec 1000000000).
        destruct (decide (nsec `mod` 1000000000 = 0)); lia.
  - change NSEC_PER_SEC with 1000000000. destruct (Z.max_spec 0 nsec) as [[Hle ->]|[_ ->]]; [rewrite Z.abs_eq by lia; lia|rewrite Z.div_0_l by lia; lia].
Qed.

(** ** Jiffies *)
Lemma tick_nsec : TICK_NSEC = 1000000. Proof. reflexivity. Qed.
Lemma sec_conversion : SEC_CONVERSION = 1000 * 2 ^ 22. Proof. reflexivity. Qed.
Lemma nsec_conversion : NSEC_CONVERSION = 2251799814. Proof. reflexivity. Qed.
Lemma usec_conversion : USEC_CONVERSION = 2199023256. Proof. reflexivity. Qed.
Lemma max_sec : MAX_SEC_IN_JIFFIES = 1073741. Proof. reflexivity. Qed.

(** The scaled seconds and the scaled rest. *)
Lemma scaled_sum sec y k : 0 <= k -> 0 <= sec < 2 ^ 21 -> 0 <= y -> y `div` 2 ^ (k + 22) <= 2 ^ 20 ->
  u32 (Z.shiftr (u64 (u64 (sec * SEC_CONVERSION) + Z.shiftr y k)) 22) = sec * 1000 + y `div` 2 ^ (k + 22).
Proof.
  intros Hk Hs Hy Hq. rewrite sec_conversion, (u64_small (sec * _)) by lia. rewrite !Z.shiftr_div_pow2 by lia.
  pose proof (Z.div_pos y (2 ^ k) Hy ltac:(lia)) as H1. rewrite Z.pow_add_r, <-Z.div_div in * by lia.
  set (z := y `div` 2 ^ k) in *. assert (z < 2 ^ 43) as Hz.
  { pose proof (Z.div_mod z (2 ^ 22) ltac:(lia)). pose proof (Z.mod_pos_bound z (2 ^ 22) ltac:(lia)). lia. }
  rewrite u64_small by lia. replace (sec * (1000 * 2 ^ 22) + z) with (z + sec * 1000 * 2 ^ 22) by lia. rewrite Z.div_add by lia.
  pose proof (Z.div_pos z (2 ^ 22) H1 ltac:(lia)). rewrite u32_small by lia. lia.
Qed.

Lemma timespec_to_jiffies_run sec nsec : 0 <= sec < 1073741 -> 0 <= nsec < 1000000000 ->
  timespec_to_jiffies (Timespec sec nsec) = sec * 1000 + (nsec + 999999) `div` 1000000.
Proof.
  intros Hs Hn. unfold timespec_to_jiffies. cbn [tv_sec tv_nsec]. rewrite tick_nsec, max_sec, (u32_small sec) by lia. change (u32 1073741) with 1073741.
  rewrite Z.geb_leb, (proj2 (Z.leb_gt _ _)) by lia. change (NSEC_JIFFIE_SC - SEC_JIFFIE_SC) with 29. change SEC_JIFFIE_SC with 22.
  rewrite s32_small by lia. rewrite nsec_conversion. replace (nsec + 1000000 - 1) with (nsec + 999999) by lia. set (x := nsec + 999999).
  rewrite (u64_small x), (u64_small (x * _)) by lia.
  assert ((x * 2251799814) `div` 2 ^ 51 = x `div` 1000000) as E.
  { pose proof (Z.div_mod x 1000000 ltac:(lia)). pose proof (Z.mod_pos_bound x 1000000 ltac:(lia)).
    symmetry. apply (Z.div_unique_pos _ _ _ ((x `div` 1000000) * 314752 + (x `mod` 1000000) * 2251799814)); lia. }
  rewrite scaled_sum; change (2 ^ (29 + 22)) with (2 ^ 51); [by rewrite E|lia|lia|lia|]. rewrite E.
  apply Z.div_le_upper_bound; lia.
Qed.

Lemma timeval_to_jiffies_run sec usec : 0 <= sec < 1073741 -> 0 <= usec < 1000000 ->
  timeval_to_jiffies (Timeval sec usec) = sec * 1000 + (if usec =? 0 then 0 else usec `div` 1000 + 1).
Proof.
  intros Hs Hn. unfold timeval_to_jiffies. cbn [tvv_sec tv_usec]. rewrite max_sec, (u32_small sec) by lia. change (u32 1073741) with 1073741.
  rewrite Z.geb_leb, (proj2 (Z.leb_gt _ _)) by lia. change (USEC_JIFFIE_SC - SEC_JIFFIE_SC) with 19. change SEC_JIFFIE_SC with 22. change USEC_ROUND with (2 ^ 41 - 1).
  rewrite usec_conversion, (u64_small usec), (u64_small (usec * _)), (u64_small (usec * _ + _)) by lia.
  assert ((usec * 2199023256 + (2 ^ 41 - 1)) `div` 2 ^ 41 = if usec =? 0 then 0 else usec `div` 1000 + 1) as E.
  { pose proof (Z.div_mod usec 1000 ltac:(lia)). pose proof (Z.mod_pos_bound usec 1000 ltac:(lia)). destruct (Z.eqb_spec usec 0) as [->|]; [done|].
    symmetry. apply (Z.div_unique_pos _ _ _ ((usec `div` 1000) * 448 + (usec `mod` 1000) * 2199023256 - 1)); lia. }
  rewrite scaled_sum; change (2 ^ (19 + 22)) with (2 ^ 41); [by rewrite E|lia|lia|lia|]. rewrite E.
  destruct (usec =? 0); [lia|]. assert (usec `div` 1000 <= 1000) by (apply Z.div_le_upper_bound; lia). lia.
Qed.

Lemma jiffies_split j : 0 <= j < 2 ^ 32 -> div_u64_rem (u64 (j * TICK_NSEC)) NSEC_PER_SEC = (j `div` 1000, (j `mod` 1000) * 1000000).
Proof.
  intros Hj. rewrite tick_nsec. unfold div_u64_rem. change NSEC_PER_SEC with (1000 * 1000000). rewrite u64_small by lia.
  by rewrite Z.div_mul_cancel_r, Zmult_mod_distr_r by lia.
Qed.

(** ** [ktime_t] *)
Definition packed (kt sec nsec : Z) : Prop := kt = sec * 2 ^ 32 + nsec /\ - 2 ^ 31 <= sec < 2 ^ 31 /\ 0 <= nsec < 1000000000.

Lemma s64_fits sec nsec : - 2 ^ 31 <= sec < 2 ^ 31 -> 0 <= nsec < 2 ^ 32 -> s64 (sec * 2 ^ 32 + nsec) = sec * 2 ^ 32 + nsec.
Proof. intros. apply s64_small. lia. Qed.
Lemma kt_halves sec nsec : - 2 ^ 31 <= sec < 2 ^ 31 -> 0 <= nsec < 2 ^ 32 ->
  kt_sec (sec * 2 ^ 32 + nsec) = sec /\ kt_nsec (sec * 2 ^ 32 + nsec) = s32 nsec.
Proof.
  intros Hs Hn. unfold kt_sec, kt_nsec. rewrite Z.shiftr_div_pow2 by lia. split.
  - rewrite Z.div_add_l by lia. rewrite Z.div_small, Z.add_0_r, s32_small by lia. done.
  - rewrite <-s32_u32. unfold u32. rewrite Z.add_comm, Z.mod_add by lia. fold (u32 nsec). by rewrite s32_u32.
Qed.
Lemma ktime_set_eq sec nsec : - 2 ^ 31 <= sec < 2 ^ 31 -> 0 <= nsec < 2 ^ 32 -> ktime_set sec nsec = sec * 2 ^ 32 + nsec.
Proof.
  intros Hs Hn. unfold ktime_set. rewrite u32_small by lia. rewrite Z.shiftl_mul_pow2 by lia. by apply s64_fits.
Qed.

Lemma ktime_to_ns_eq kt sec nsec : packed kt sec nsec -> ktime_to_ns kt = sec * NSEC_PER_SEC + nsec.
Proof.
  intros (-> & Hs & Hn). unfold ktime_to_ns. destruct (kt_halves sec nsec) as [-> ->]; [lia|lia|]. rewrite s32_small by lia.
  change NSEC_PER_SEC with 1000000000. apply s64_small. lia.
Qed.
Lemma ktime_add_run a b sa na sb nb : packed a sa na -> packed b sb nb -> - 2 ^ 31 <= sa + sb < 2 ^ 31 - 1 ->
  packed (ktime_add a b) (sa + sb + (na + nb) `div` 1000000000) ((na + nb) `mod` 1000000000).
Proof.
  intros (-> & Ha & Hna) (-> & Hb & Hnb) Hs. unfold ktime_add.
  replace (sa * 2 ^ 32 + na + (sb * 2 ^ 32 + nb)) with ((sa + sb) * 2 ^ 32 + (na + nb)) by lia. rewrite s64_fits by lia.
  destruct (kt_halves (sa + sb) (na + nb)) as [_ ->]; [lia|lia|]. rewrite s32_small by lia. change NSEC_PER_SEC with 1000000000.
  rewrite Z.geb_leb. destruct (Z.leb_spec 1000000000 (na + nb)).
  - assert ((na + nb) `div` 1000000000 = 1) as -> by (symmetry; apply (Z.div_unique_pos _ _ _ (na + nb - 1000000000)); lia).
    assert ((na + nb) `mod` 1000000000 = na + nb - 1000000000) as -> by (symmetry; apply (Z.mod_unique_pos _ _ 1); lia).
    replace (u32 (- (1000000000))) with (2 ^ 32 - 1000000000) by done. rewrite s64_small by lia. split; lia.
  - rewrite Z.div_small, Z.mod_small by lia. split; lia.
Qed.
Lemma ktime_sub_run a b sa na sb nb : packed a sa na -> packed b sb nb -> - 2 ^ 31 + 1 <= sa - sb < 2 ^ 31 ->
  packed (ktime_sub a b) (sa - sb + (na - nb) `div` 1000000000) ((na - nb) `mod` 1000000000).
Proof.
  intros (-> & Ha & Hna) (-> & Hb & Hnb) Hs. unfold ktime_sub.
  replace (sa * 2 ^ 32 + na - (sb * 2 ^ 32 + nb)) with ((sa - sb) * 2 ^ 32 + (na - nb)) by lia.
  destruct (Z.le_gt_cases nb na).
  - rewrite s64_fits by lia. destruct (kt_halves (sa - sb) (na - nb)) as [_ ->]; [lia|lia|]. rewrite s32_small by lia.
    destruct (Z.ltb_spec (na - nb) 0); [lia|]. rewrite Z.div_small, Z.mod_small by lia. split; lia.
  - replace ((sa - sb) * 2 ^ 32 + (na - nb)) with ((sa - sb - 1) * 2 ^ 32 + (2 ^ 32 + na - nb)) by lia. rewrite s64_fits by lia.
    destruct (kt_halves (sa - sb - 1) (2 ^ 32 + na - nb)) as [-> ->]; [lia|lia|].
    assert (s32 (2 ^ 32 + na - nb) = na - nb) as ->.
    { rewrite <-s32_u32. unfold u32. replace (2 ^ 32 + na - nb) with (na - nb + 1 * 2 ^ 32) by lia. rewrite Z.mod_add by lia. fold (u32 (na - nb)). rewrite s32_u32. apply s32_small. lia. }
    destruct (Z.ltb_spec (na - nb) 0); [|lia]. change NSEC_PER_SEC with 1000000000. rewrite ktime_set_eq by lia.
    assert ((na - nb) `div` 1000000000 = -1) as -> by (symmetry; apply (Z.div_unique_pos _ _ _ (na - nb + 1000000000)); lia).
    assert ((na - nb) `mod` 1000000000 = na - nb + 1000000000) as -> by (symmetry; apply (Z.mod_unique_pos _ _ (-1)); lia). split; lia.
Qed.

(** ** The calendar *)
Definition year_days (y : Z) : Z := if is_leap_year y then 366 else 365.
Definition sumZ (l : list Z) : Z := foldr Z.add 0 l.
(** The days from 1970-01-01 to a date, by counting years and months. *)
Definition days_since_epoch (y m d : Z) : Z :=
  sumZ (year_days <$> seqZ 1970 (y - 1970)) + sumZ ((λ k, rtc_month_days k y) <$> seqZ 0 (m - 1)) + (d - 1).

Lemma sumZ_app l k : sumZ (l ++ k) = sumZ l + sumZ k.
Proof. unfold sumZ. induction l; cbn; [done|]. rewrite IHl. lia. Qed.

Lemma sumZ_1 (f : Z -> Z) a : sumZ (f <$> seqZ a 1) = f a.
Proof. rewrite seqZ_cons, seqZ_nil by lia. cbn. lia. Qed.

Lemma leaps_step y : LEAPS_THRU_END_OF y - LEAPS_THRU_END_OF (y - 1) = if is_leap_year y then 1 else 0.
Proof.
  assert (forall p, 0 < p -> y `div` p - (y - 1) `div` p = if y `mod` p =? 0 then 1 else 0) as Hs.
  { intros p Hp. pose proof (Z.div_mod y p ltac:(lia)). pose proof (Z.div_mod (y - 1) p ltac:(lia)).
    pose proof (Z.mod_pos_bound y p Hp). pose proof (Z.mod_pos_bound (y - 1) p Hp). destruct (Z.eqb_spec (y `mod` p) 0); nia. }
  unfold LEAPS_THRU_END_OF, is_leap_year. pose proof (Hs 4 ltac:(lia)). pose proof (Hs 100 ltac:(lia)). pose proof (Hs 400 ltac:(lia)).
  assert (y `mod` 400 = 0 -> y `mod` 100 = 0) by (intros E; apply Z.mod_divide in E as [c ->]; [|lia]; apply Z.mod_divide; [lia|]; exists (c * 4); lia).
  assert (y `mod` 100 = 0 -> y `mod` 4 = 0) by (intros E; apply Z.mod_divide in E as [c ->]; [|lia]; apply Z.mod_divide; [lia|]; exists (c * 25); lia).
  destruct (Z.eqb_spec (y `mod` 4) 0), (Z.eqb_spec (y `mod` 100) 0), (Z.eqb_spec (y `mod` 400) 0); cbn; try lia; tauto.
Qed.

Lemma years_sum n : 0 <= n -> sumZ (year_days <$> seqZ 1970 n) = LEAPS_THRU_END_OF (1969 + n) + 365 * (1969 + n) - 719162.
Proof.
  revert n. apply natlike_ind; [done|]. intros n Hn IH. unfold Z.succ. rewrite seqZ_app, fmap_app, sumZ_app, IH by lia.
  rewrite sumZ_1.
  pose proof (leaps_step (1970 + n)) as Hl. replace (1970 + n - 1) with (1969 + n) in Hl by lia. replace (1969 + (n + 1)) with (1970 + n) by lia.
  unfold year_days. destruct (is_leap_year _); lia.
Qed.

(** The days of a year before month [m]. *)
Lemma months_sum m y : 1 <= m <= 13 -> sumZ ((λ k, rtc_month_days k y) <$> seqZ 0 (m - 1)) = nth (Z.to_nat (m - 1)) (rtc_ydays (is_leap_year y)) 0.
Proof.
  intros Hm. assert (m = 1 ∨ m = 2 ∨ m = 3 ∨ m = 4 ∨ m = 5 ∨ m = 6 ∨ m = 7 ∨ m = 8 ∨ m = 9 ∨ m = 10 ∨ m = 11 ∨ m = 12 ∨ m = 13) as Hin by lia.
  unfold rtc_month_days. destruct_or! Hin; subst m; cbn; destruct (is_leap_year y); done.
Qed.
Lemma mktime_run y m d h mi s : 1970 <= y < 2 ^ 32 -> 1 <= m <= 12 ->
  mktime y m d h mi s = u32 (((days_since_epoch y m d * 24 + h) * 60 + mi) * 60 + s).
Proof.
  intros Hy Hm. unfold mktime, days_since_epoch. rewrite months_sum, years_sum by lia. replace (1969 + (y - 1970)) with (y - 1) by lia.
  pose proof (leaps_step y) as Hl. unfold LEAPS_THRU_END_OF in Hl.
  assert (exists mon year, (if 0 >=? s32 (u32 (m - 2)) then (u32 (u32 (m - 2) + 12), u32 (y - 1)) else (u32 (m - 2), y)) = (mon, year) /\
    year `div` 4 - year `div` 100 + year `div` 400 + u32 (367 * mon) `div` 12 + d + year * 365 - 719499 =
      LEAPS_THRU_END_OF (y - 1) + 365 * (y - 1) - 719162 + nth (Z.to_nat (m - 1)) (rtc_ydays (is_leap_year y)) 0 + (d - 1)) as (mon & year & -> & E).
  { assert (m = 1 ∨ m = 2 ∨ m = 3 ∨ m = 4 ∨ m = 5 ∨ m = 6 ∨ m = 7 ∨ m = 8 ∨ m = 9 ∨ m = 10 ∨ m = 11 ∨ m = 12) as Hin by lia.
    destruct_or! Hin; subst m; eexists _, _; (split; [reflexivity|]); rewrite ?(u32_small (y - 1)) by lia;
      unfold LEAPS_THRU_END_OF; destruct (is_leap_year y);
      repeat match goal with |- context [?t] => match t with u32 (367 * _) `div` 12 => idtac | nth _ (rtc_ydays _) _ => idtac end;
        let v := eval vm_compute in t in change t with v end; lia. }
  destruct (u32_ex (year * 365)) as [k2 ->].
  set (n := _ + d) in *. destruct (u32_ex n) as [k1 ->]. set (t := _ - 719499). destruct (u32_ex t) as [k3 ->].
  set (t2 := _ + h). destruct (u32_ex t2) as [k4 ->]. destruct (u32_ex ((t2 + k4 * 2 ^ 32) * 60)) as [k5 ->].
  set (t4 := _ + mi). destruct (u32_ex t4) as [k6 ->]. destruct (u32_ex ((t4 + k6 * 2 ^ 32) * 60)) as [k7 ->].
  apply (u32_shift _ _ ((k1 + k2 + k3) * 86400 + k4 * 3600 + k5 * 60 + k6 * 60 + k7)). unfold t4, t2, t. lia.
Qed.

Definition valid_date (y m d : Z) : Prop := 1970 <= y /\ 0 <= m < 12 /\ 1 <= d <= rtc_month_days m y.
Definition before_month (y m : Z) : Z := sumZ ((λ k, rtc_month_days k y) <$> seqZ 0 m).
Definition before_year (y : Z) : Z := sumZ (year_days <$> seqZ 1970 (y - 1970)).

Lemma rtc_month_days_le m y : rtc_month_days m y <= 32.
Proof.
  unfold rtc_month_days. assert (forall i : nat, nth i rtc_days_in_month 0 <= 31) as Hn.
  { intros i. do 12 (destruct i as [|i]; [cbn; lia|]). destruct i; cbn; lia. }
  specialize (Hn (Z.to_nat m)). destruct (_ && _); lia.
Qed.
Lemma before_month_S y m : 0 <= m -> before_month y (m + 1) = before_month y m + rtc_month_days m y.
Proof.
  intros. unfold before_month. rewrite seqZ_app, fmap_app, sumZ_app by lia. rewrite sumZ_1. by rewrite Z.add_0_l.
Qed.
Lemma before_month_year y : before_month y 12 = year_days y.
Proof. unfold before_month. rewrite (months_sum 13) by lia. cbn. unfold year_days. by destruct (is_leap_year y). Qed.
Lemma before_year_eq y : 1970 <= y -> before_year y = LEAPS_THRU_END_OF (y - 1) + 365 * (y - 1) - 719162.
Proof. intros. unfold before_year. rewrite years_sum by lia. by replace (1969 + (y - 1970)) with (y - 1) by lia. Qed.
Lemma before_year_S y : 1970 <= y -> before_year (y + 1) = before_year y + year_days y.
Proof.
  intros. rewrite !before_year_eq by lia. pose proof (leaps_step y). replace (y + 1 - 1) with y by lia. unfold year_days. destruct (is_leap_year y); lia.
Qed.
Lemma days_since_epoch_eq y m d : days_since_epoch y (m + 1) d = before_year y + before_month y m + (d - 1).
Proof. unfold days_since_epoch, before_month. by replace (m + 1 - 1) with m by lia. Qed.

Lemma month_loop_run y c : forall month days, 0 <= month -> month + Z.of_nat c = 11 -> 0 <= days ->
  exists m d, month_loop c month days y = (m, d) /\ month <= m <= 11 /\ 0 <= d /\ before_month y month + days = before_month y m + d /\ (m < 11 -> d < rtc_month_days m y).
Proof.
  induction c as [|c IH]; intros month days Hm Hc Hd; cbn [month_loop].
  { exists month, days. repeat split; lia. }
  destruct (Z.ltb_spec (days - rtc_month_days month y) 0).
  - exists month, days. repeat split; lia.
  - destruct (IH (month + 1) (days - rtc_month_days month y)) as (m & d & -> & ? & ? & E & ?); [lia..|]. rewrite before_month_S in E by lia.
    exists m, d. repeat split; try done; lia.
Qed.
(** A day of a year is the day of one of its months. *)
Lemma month_loop_date y days : 1970 <= y -> 0 <= days < year_days y ->
  exists m d, month_loop 11 0 days y = (m, d) /\ valid_date y m (d + 1) /\ before_month y m + d = days.
Proof.
  intros Hy Hd. destruct (month_loop_run y 11 0 days) as (m & d & -> & Hm & Hd0 & E & Hlt); [lia..|]. change (before_month y 0) with 0 in E.
  exists m, d. split; [done|]. split; [|lia]. split; [done|]. split; [lia|]. split; [lia|].
  destruct (decide (m = 11)) as [->|]; [|lia]. pose proof (before_month_S y 11). pose proof (before_month_year y). change (11 + 1) with 12 in *. lia.
Qed.

Lemma leap_bounds days : 0 <= days < 49711 -> let y := 1970 + days `div` 365 in
  0 <= LEAPS_THRU_END_OF (y - 1) - 477 <= 40 /\ 1970 <= y <= 2106.
Proof.
  intros Hd y. assert (0 <= days `div` 365 < 137) by (split; [apply Z.div_pos; lia|apply Z.div_lt_upper_bound; lia]).
  unfold LEAPS_THRU_END_OF. assert (1970 <= y <= 2106) as Hy by lia. clearbody y. split; [|lia].
  Z.to_euclidean_division_equations. lia.
Qed.

Lemma rtc_time_to_tm_run t : 0 <= t < 2 ^ 32 ->
  exists y m d, valid_date y m d /\ y <= 2106 /\ days_since_epoch y (m + 1) d = t `div` 86400 /\
    rtc_time_to_tm t = RtcTime (t `mod` 60) ((t `div` 60) `mod` 60) ((t `div` 3600) `mod` 24) d m (y - 1900) ((t `div` 86400 + 4) `mod` 7) (rtc_year_days d m y + 1).
Proof.
  intros Ht. unfold rtc_time_to_tm. set (days := t `div` 86400).
  assert (0 <= days < 49711) as Hd by (split; [apply Z.div_pos; lia|apply Z.div_lt_upper_bound; lia]).
  destruct (leap_bounds days Hd) as [Hl Hy]. set (y := 1970 + days `div` 365) in *.
  change (LEAPS_THRU_END_OF (1970 - 1)) with 477.
  pose proof (before_year_eq y ltac:(lia)) as Hb.
  pose proof (Z.div_mod days 365 ltac:(lia)) as D365. pose proof (Z.mod_pos_bound days 365 ltac:(lia)) as M365.
  assert (u32 ((y - 1970) * 365 + LEAPS_THRU_END_OF (y - 1) - 477) = before_year y) as -> by (rewrite u32_small by lia; lia).
  rewrite s32_u32, s32_small by lia.
  assert (exists y' yd, (if days - before_year y <? 0 then (y - 1, days - before_year y + 365 + (if is_leap_year (y - 1) then 1 else 0)) else (y, days - before_year y)) = (y', yd) /\
    1970 <= y' <= 2106 /\ 0 <= yd < year_days y' /\ before_year y' + yd = days) as (y' & yd & -> & Hy' & Hyd & Ed).
  { destruct (Z.ltb_spec (days - before_year y) 0); eexists _, _; (split; [done|]).
    - assert (y <> 1970) by (intros E; rewrite E in *; change (before_year 1970) with 0 in *; lia).
      pose proof (before_year_S (y - 1) ltac:(lia)) as HS. replace (y - 1 + 1) with y in HS by lia. unfold year_days in *. destruct (is_leap_year (y - 1)); lia.
    - unfold year_days. destruct (is_leap_year y); lia. }
  destruct (month_loop_date y' yd) as (m & d & -> & Hv & Em); [lia..|].
  exists y', m, (d + 1). split; [done|]. split; [lia|]. split; [rewrite days_since_epoch_eq; lia|].
  assert (rtc_year_days (d + 1) m y' = yd) as ->.
  { unfold rtc_year_days. unfold before_month in Em. replace m with (m + 1 - 1) in Em by lia. destruct Hv as (? & ? & ?). rewrite months_sum in Em by lia.
    replace (m + 1 - 1) with m in Em by lia. lia. }
  assert (t - days * 86400 = t `mod` 86400) as Er by (pose proof (Z.div_mod t 86400); lia). pose proof (Z.mod_pos_bound t 86400 ltac:(lia)).
  rewrite (u32_small (days * 86400)), Er, (u32_small (t `mod` 86400)) by lia.
  assert (t `mod` 86400 `div` 3600 = (t `div` 3600) `mod` 24) as -> by (Z.to_euclidean_division_equations; lia).
  assert (t `mod` 86400 - (t `div` 3600) `mod` 24 * 3600 = t `mod` 3600) as -> by (Z.to_euclidean_division_equations; lia).
  pose proof (Z.mod_pos_bound t 3600 ltac:(lia)). rewrite u32_small by lia. f_equal; Z.to_euclidean_division_equations; lia.
Qed.

(** A date is determined by its day. *)
Lemma before_month_mono y m m' : 0 <= m <= m' -> m' <= 12 -> before_month y m <= before_month y m'.
Proof.
  intros Hm Hm'. unfold before_month. replace m with (m + 1 - 1) by lia. replace m' with (m' + 1 - 1) by lia. rewrite !months_sum by lia.
  assert (forall i j : nat, (i <= j)%nat -> (j <= 12)%nat -> nth i (rtc_ydays (is_leap_year y)) 0 <= nth j (rtc_ydays (is_leap_year y)) 0) as Hn; [|apply Hn; lia].
  clear. intros i j Hij Hj. destruct (is_leap_year y); do 13 (destruct j as [|j]; [do 13 (destruct i as [|i]; [cbn; lia|]); lia|]); lia.
Qed.
Lemma before_year_mono y y' : 1970 <= y <= y' -> before_year y <= before_year y'.
Proof.
  intros Hy. replace y' with (y + (y' - y)) by lia. assert (0 <= y' - y) as Hn by lia. revert Hn. generalize (y' - y). apply natlike_ind; [by rewrite Z.add_0_r|].
  intros n Hn IH. unfold Z.succ. rewrite Z.add_assoc, before_year_S by lia. unfold year_days. destruct (is_leap_year _); lia.
Qed.
Lemma date_bounds y m d : valid_date y m d ->
  before_year y + before_month y m <= days_since_epoch y (m + 1) d < before_year y + before_month y (m + 1) /\
  before_year y <= days_since_epoch y (m + 1) d < before_year (y + 1).
Proof.
  intros (Hy & Hm & Hd). rewrite days_since_epoch_eq, before_month_S by lia. split; [lia|].
  pose proof (before_month_mono y 0 m ltac:(lia) ltac:(lia)) as H0. change (before_month y 0) with 0 in H0.
  pose proof (before_month_mono y (m + 1) 12 ltac:(lia) ltac:(lia)) as H1. rewrite before_month_S in H1 by lia.
  rewrite before_year_S, <-before_month_year by lia. lia.
Qed.
Lemma date_inj y m d y' m' d' : valid_date y m d -> valid_date y' m' d' -> days_since_epoch y (m + 1) d = days_since_epoch y' (m' + 1) d' ->
  y = y' /\ m = m' /\ d = d'.
Proof.
  intros Hv Hv' E. pose proof (date_bounds _ _ _ Hv) as [Hm Hy]. pose proof (date_bounds _ _ _ Hv') as [Hm' Hy'].
  destruct Hv as (? & ? & ?), Hv' as (? & ? & ?). rewrite <-E in Hm', Hy'.
  assert (y = y') as ->.
  { destruct (Z.lt_trichotomy y y') as [Hlt|[?|Hlt]]; [|done|].
    - pose proof (before_year_mono (y + 1) y'). lia.
    - pose proof (before_year_mono (y' + 1) y). lia. }
  assert (m = m') as ->.
  { destruct (Z.lt_trichotomy m m') as [Hlt|[?|Hlt]]; [|done|].
    - pose proof (before_month_mono y' (m + 1) m'). lia.
    - pose proof (before_month_mono y' (m' + 1) m). lia. }
  rewrite !days_since_epoch_eq in E. lia.
Qed.

(** The members of an [rtc_time] are ints. *)
Definition tm_ints (tm : rtc_time) : Prop :=
  Forall (λ x, - 2 ^ 31 <= x < 2 ^ 31) [tm_sec tm; tm_min tm; tm_hour tm; tm_mday tm; tm_mon tm; tm_year tm].
Definition same_moment (a b : rtc_time) : Prop :=
  tm_sec a = tm_sec b /\ tm_min a = tm_min b /\ tm_hour a = tm_hour b /\ tm_mday a = tm_mday b /\ tm_mon a = tm_mon b /\ tm_year a = tm_year b.

Lemma s32_as_u32 x b : 0 <= b <= 2 ^ 31 -> - 2 ^ 31 <= x < 2 ^ 31 -> (u32 x >=? b) = negb ((0 <=? x) && (x <? b)).
Proof.
  intros Hb Hx. destruct (Z.leb_spec 0 x).
  - rewrite u32_small by lia. lia.
  - assert (u32 x = x + 2 ^ 32) as -> by (symmetry; apply (Z.mod_unique_pos _ _ (-1)); lia). lia.
Qed.
Lemma rtc_valid_tm_iff tm : tm_ints tm -> rtc_valid_tm tm = 0 <->
  valid_date (tm_year tm + 1900) (tm_mon tm) (tm_mday tm) /\ 0 <= tm_hour tm < 24 /\ 0 <= tm_min tm < 60 /\ 0 <= tm_sec tm < 60.
Proof.
  unfold tm_ints. rewrite !Forall_cons. intros (? & ? & ? & ? & ? & ? & _). unfold rtc_valid_tm, valid_date.
  rewrite !s32_as_u32 by lia. split.
  - intros E. destruct (_ || _) eqn:Eo; [done|]. rewrite !orb_false_iff in Eo. lia.
  - intros. destruct (_ || _) eqn:Eo; [|done]. rewrite !orb_true_iff in Eo. lia.
Qed.
Lemma rtc_tm_to_time_run tm : tm_ints tm -> rtc_valid_tm tm = 0 ->
  rtc_tm_to_time tm = u32 (days_since_epoch (tm_year tm + 1900) (tm_mon tm + 1) (tm_mday tm) * 86400 + tm_hour tm * 3600 + tm_min tm * 60 + tm_sec tm).
Proof.
  intros Hi Hv. apply rtc_valid_tm_iff in Hv as ((? & ? & ?) & ? & ? & ?); [|done]. unfold tm_ints in Hi. rewrite !Forall_cons in Hi.
  destruct Hi as (? & ? & ? & ? & ? & ? & _). unfold rtc_tm_to_time. rewrite !(u32_small (tm_year tm + _)), !u32_small by lia.
  rewrite mktime_run by lia. f_equal. lia.
Qed.

(** ** Theorems *)
(** the software division of lib/div64.c ends for every dividend and every divisor that is not zero, and gives the quotient and the remainder. *)
Theorem div64_32_correct n base : 0 <= n < 2 ^ 64 -> 0 < base < 2 ^ 32 -> __div64_32 n base = Some (n `div` base, n `mod` base).
Proof. apply div64_32_run. Qed.
Lemma div64_32_witness : __div64_32 (2 ^ 64 - 1) 1000000000 = Some (18446744073, 709551615).
Proof. apply (div64_32_correct (2 ^ 64 - 1) 1000000000); lia. Defined.

(** The shifted division of [div64_u64]. *)
Lemma shifted_div n D s : 1 <= s <= 32 -> 2 ^ (31 + s) <= D < 2 ^ (32 + s) -> 0 <= n < 2 ^ 64 ->
  n `div` D <= (n `div` 2 ^ s) `div` (D `div` 2 ^ s) <= n `div` D + 1.
Proof.
  intros Hs HD Hn. assert (0 < 2 ^ s) as Hp by (apply Z.pow_pos_nonneg; lia).
  set (d := D `div` 2 ^ s). set (n' := n `div` 2 ^ s). set (q' := n' `div` d).
  pose proof (Z.div_mod D (2 ^ s) ltac:(lia)) as DD. pose proof (Z.mod_pos_bound D (2 ^ s) Hp) as MD. fold d in DD.
  pose proof (Z.div_mod n (2 ^ s) ltac:(lia)) as Dn. pose proof (Z.mod_pos_bound n (2 ^ s) Hp) as Mn. fold n' in Dn.
  assert (2 ^ 31 <= d) as Hd by (apply Z.div_le_lower_bound; [done|]; rewrite <-Z.pow_add_r, Z.add_comm by lia; lia).
  pose proof (Z.div_mod n' d ltac:(lia)) as Dq. pose proof (Z.mod_pos_bound n' d ltac:(lia)) as Mq. fold q' in Dq.
  pose proof (Z.div_mod n D ltac:(lia)) as Dnn. pose proof (Z.mod_pos_bound n D ltac:(lia)) as Mnn.
  assert (0 <= n') by (apply Z.div_pos; lia). assert (0 <= q') by (apply Z.div_pos; lia). assert (0 <= n `div` D) by (apply Z.div_pos; lia).
  split.
  - apply Z.div_le_lower_bound; [lia|]. apply Z.div_le_lower_bound; [done|]. nia.
  - assert (q' * (2 ^ s - 1) < D) as Hq.
    { destruct (decide (s = 1)) as [->|].
      - change (2 ^ 1) with 2 in *. change (2 ^ (31 + 1)) with (2 ^ 32) in *. nia.
      - assert (2 ^ 33 <= 2 ^ (31 + s)) by (apply Z.pow_le_mono_r; lia). assert (q' * 2 ^ s < 2 ^ 33) by nia. lia. }
    assert (q' * D < n + D) by nia. nia.
Qed.
Lemma fls_bounds x : 0 < x < 2 ^ 32 -> 1 <= fls x <= 32 /\ 2 ^ (fls x - 1) <= x < 2 ^ fls x.
Proof.
  intros Hx. unfold fls, clz. rewrite (proj2 (Z.eqb_neq x 0)) by lia. pose proof (Z.log2_spec x ltac:(lia)) as [H1 H2]. pose proof (Z.log2_nonneg x).
  assert (Z.log2 x < 32) by (apply Z.log2_lt_pow2; lia). replace (32 - (31 - Z.log2 x)) with (Z.succ (Z.log2 x)) by lia.
  replace (Z.succ (Z.log2 x) - 1) with (Z.log2 x) by lia. lia.
Qed.

(** [div64_u64] is exact for a divisor of at most 32 bits.  For a longer divisor, of which it drops low bits, the result is the quotient or one more than it. *)
Theorem div64_u64_bounds n D : 0 <= n < 2 ^ 64 -> 0 < D < 2 ^ 64 ->
  (D < 2 ^ 32 -> div64_u64 n D = n `div` D) /\ n `div` D <= div64_u64 n D <= n `div` D + 1.
Proof.
  intros Hn HD. unfold div64_u64, div_u64, div_u64_rem. cbn [fst]. rewrite (Z.shiftr_div_pow2 D 32) by lia. set (h := D `div` 2 ^ 32).
  pose proof (Z.div_mod D (2 ^ 32) ltac:(lia)) as Dh. pose proof (Z.mod_pos_bound D (2 ^ 32) ltac:(lia)) as Mh. fold h in Dh.
  assert (0 <= h < 2 ^ 32) as Hh by (split; [apply Z.div_pos; lia|apply Z.div_lt_upper_bound; lia]). rewrite (u32_small h) by lia.
  destruct (Z.eqb_spec h 0) as [E|E]; cbn [negb].
  - rewrite u32_small by lia. lia.
  - split; [lia|]. destruct (fls_bounds h) as [Hs Hb]; [lia|]. set (s := fls h) in *. rewrite !Z.shiftr_div_pow2 by lia.
    assert (2 ^ (32 + s) = 2 ^ 32 * 2 ^ s) as E1 by (rewrite Z.pow_add_r; lia).
    assert (2 ^ (31 + s) = 2 ^ 32 * 2 ^ (s - 1)) as E2 by (rewrite <-Z.pow_add_r by lia; f_equal; lia).
    assert (0 < 2 ^ s) by (apply Z.pow_pos_nonneg; lia).
    assert (2 ^ (31 + s) <= D < 2 ^ (32 + s)) as HDs by nia. rewrite u32_small.
    + by apply shifted_div.
    + split; [apply Z.div_pos; lia|apply Z.div_lt_upper_bound; lia].
Qed.
Lemma div64_u64_witness : div64_u64 (2 ^ 64 - 1) (2 ^ 32 - 1) = 2 ^ 32 + 1 /\ div64_u64 (3 * (2 ^ 33 - 1) - 1) (2 ^ 33 - 1) = 3.
Proof.
  split.
  - etransitivity; [apply (div64_u64_bounds (2 ^ 64 - 1) (2 ^ 32 - 1)); lia|reflexivity].
  - pose proof (div64_u64_bounds (3 * (2 ^ 33 - 1) - 1) (2 ^ 33 - 1)). reflexivity.
Defined.

Lemma iter_div_run fuel : forall n d ret, 0 <= n -> 0 < d -> (Z.to_nat (n `div` d) < fuel)%nat ->
  iter_div_loop fuel n d (u32 ret) = Some (u32 (ret + n `div` d), n `mod` d).
Proof.
  induction fuel as [|fuel IH]; intros n d ret Hn Hd Hf; [lia|]. cbn [iter_div_loop]. rewrite Z.geb_leb. destruct (Z.leb_spec d n).
  - assert (n `div` d = (n - d) `div` d + 1) as Ed by (rewrite <-Z.div_add by lia; f_equal; lia).
    assert (n `mod` d = (n - d) `mod` d) as -> by (replace (n - d) with (n + (-1) * d) by lia; by rewrite Z.mod_add by lia).
    assert (0 <= (n - d) `div` d) by (apply Z.div_pos; lia). rewrite u32_add_l, IH by lia. do 3 f_equal. lia.
  - rewrite Z.div_small, Z.mod_small, Z.add_0_r by lia. done.
Qed.
Lemma iter_div_u64_rem_run n d : 0 <= n -> 0 < d -> __iter_div_u64_rem n d = Some (u32 (n `div` d), n `mod` d).
Proof. intros. unfold __iter_div_u64_rem. change 0 with (u32 0). rewrite iter_div_run; [by rewrite Z.add_0_l|done..|lia]. Qed.

(** [a + q] with [q] unsigned, at 32 bits. *)
Lemma s32_add_u32 a q : s32 (a + u32 q) = s32 (a + q).
Proof. rewrite <-s32_u32, u32_add_r. apply s32_u32. Qed.

(** [timespec_add_ns] and [set_normalized_timespec] end on every input and leave the nanoseconds in their range. The time they give is the sum, when its seconds fit 32 bits. *)
Theorem timespec_normal sec nsec ns : - 2 ^ 31 <= sec < 2 ^ 31 -> 0 <= nsec < NSEC_PER_SEC -> 0 <= ns < 2 ^ 63 ->
  exists r, timespec_add_ns (Timespec sec nsec) ns = Some r /\ set_normalized_timespec sec (nsec + ns) = Some r /\
    0 <= tv_nsec r < NSEC_PER_SEC /\ tv_sec r = s32 (sec + (nsec + ns) `div` NSEC_PER_SEC) /\
    (sec + (nsec + ns) `div` NSEC_PER_SEC < 2 ^ 31 -> tv_sec r * NSEC_PER_SEC + tv_nsec r = sec * NSEC_PER_SEC + nsec + ns).
Proof.
  intros Hs Hn Hns. unfold timespec_add_ns. cbn [tv_sec tv_nsec]. rewrite set_normalized_run by done.
  change NSEC_PER_SEC with 1000000000 in *. rewrite u64_small by lia. rewrite iter_div_u64_rem_run, s32_add_u32 by lia.
  pose proof (Z.mod_pos_bound (nsec + ns) 1000000000 ltac:(lia)). pose proof (Z.div_mod (nsec + ns) 1000000000 ltac:(lia)).
  pose proof (Z.div_pos (nsec + ns) 1000000000 ltac:(lia) ltac:(lia)). rewrite (s32_small (_ `mod` _)) by lia.
  eexists. split; [done|]. split; [done|]. cbn [tv_sec tv_nsec]. split; [lia|]. split; [done|]. intros. rewrite s32_small by lia. lia.
Qed.
Lemma timespec_normal_witness : timespec_add_ns (Timespec (-1) 999999999) 2000000001 = Some (Timespec 2 0).
Proof. destruct (timespec_normal (-1) 999999999 2000000001) as (r & -> & E & _); [lia|done|lia|]. rewrite <-E. reflexivity. Defined.

(** [timespec_add_safe] of two times that are not negative ends; the result is the sum, or its seconds are the largest there are. *)
Theorem timespec_add_safe_correct a b : 0 <= tv_sec a < 2 ^ 31 -> 0 <= tv_sec b < 2 ^ 31 -> 0 <= tv_nsec a < NSEC_PER_SEC -> 0 <= tv_nsec b < NSEC_PER_SEC ->
  exists r, timespec_add_safe a b = Some r /\ 0 <= tv_nsec r < NSEC_PER_SEC /\
    let total := tv_sec a + tv_sec b + (tv_nsec a + tv_nsec b) `div` NSEC_PER_SEC in
    tv_sec r = Z.min total TIME_T_MAX /\
    (total <= TIME_T_MAX -> tv_sec r * NSEC_PER_SEC + tv_nsec r = (tv_sec a + tv_sec b) * NSEC_PER_SEC + tv_nsec a + tv_nsec b).
Proof.
  intros Ha Hb Hna Hnb. unfold timespec_add_safe. change NSEC_PER_SEC with 1000000000 in *. change TIME_T_MAX with (2 ^ 31 - 1).
  rewrite (s32_small (tv_nsec a + _)) by lia. rewrite set_normalized_run by apply s32_range. change NSEC_PER_SEC with 1000000000. rewrite s32_add_l. cbn [tv_sec tv_nsec].
  set (q := _ `div` _). set (m := _ `mod` _). pose proof (Z.mod_pos_bound (tv_nsec a + tv_nsec b) 1000000000 ltac:(lia)) as Hm. fold m in Hm.
  assert (0 <= q < 2) as Hq by (split; [apply Z.div_pos; lia|apply Z.div_lt_upper_bound; lia]).
  pose proof (Z.div_mod (tv_nsec a + tv_nsec b) 1000000000 ltac:(lia)) as D. fold q m in D.
  eexists. split; [done|]. destruct (Z.lt_ge_cases (tv_sec a + tv_sec b + q) (2 ^ 31)) as [Hlt|Hge].
  - rewrite s32_small by lia. destruct (_ || _) eqn:E; [lia|]. cbn [tv_sec tv_nsec]. lia.
  - assert (s32 (tv_sec a + tv_sec b + q) = tv_sec a + tv_sec b + q - 2 ^ 32) as Es.
    { rewrite <-s32_u32. unfold u32. replace (tv_sec a + tv_sec b + q) with (tv_sec a + tv_sec b + q - 2 ^ 32 + 1 * 2 ^ 32) at 1 by lia.
      rewrite Z.mod_add by lia. fold (u32 (tv_sec a + tv_sec b + q - 2 ^ 32)). rewrite s32_u32. apply s32_small. lia. }
    rewrite Es. destruct (_ || _) eqn:E; [|lia]. cbn [tv_sec tv_nsec]. lia.
Qed.
Lemma timespec_add_safe_witness : exists r, timespec_add_safe (Timespec 2147483647 600000000) (Timespec 0 600000000) = Some r /\ tv_sec r = TIME_T_MAX.
Proof.
  destruct (timespec_add_safe_correct (Timespec 2147483647 600000000) (Timespec 0 600000000)) as (r & E & _ & Es & _); [cbn; unfold NSEC_PER_SEC; lia..|].
  exists r. split; [exact E|exact Es].
Defined.

(** on values whose seconds and nanoseconds are in their halves, with the nanoseconds in range, [ktime_add] and [ktime_sub] keep that form and are addition and subtraction of nanoseconds, although they work on the packed 64-bit numbers. *)
Theorem ktime_ops_correct a b sa na sb nb : packed a sa na -> packed b sb nb ->
  (- 2 ^ 31 <= sa + sb < 2 ^ 31 - 1 ->
   (exists s n, packed (ktime_add a b) s n) /\ ktime_to_ns (ktime_add a b) = ktime_to_ns a + ktime_to_ns b) /\
  (- 2 ^ 31 + 1 <= sa - sb < 2 ^ 31 ->
   (exists s n, packed (ktime_sub a b) s n) /\ ktime_to_ns (ktime_sub a b) = ktime_to_ns a - ktime_to_ns b).
Proof.
  intros Ha Hb. split; intros Hs.
  - pose proof (ktime_add_run _ _ _ _ _ _ Ha Hb Hs) as Hp. split; [by eauto|]. rewrite (ktime_to_ns_eq _ _ _ Hp), (ktime_to_ns_eq _ _ _ Ha), (ktime_to_ns_eq _ _ _ Hb).
    change NSEC_PER_SEC with 1000000000. pose proof (Z.div_mod (na + nb) 1000000000). lia.
  - pose proof (ktime_sub_run _ _ _ _ _ _ Ha Hb Hs) as Hp. split; [by eauto|]. rewrite (ktime_to_ns_eq _ _ _ Hp), (ktime_to_ns_eq _ _ _ Ha), (ktime_to_ns_eq _ _ _ Hb).
    change NSEC_PER_SEC with 1000000000. pose proof (Z.div_mod (na - nb) 1000000000). lia.
Qed.
Lemma ktime_ops_witness : ktime_to_ns (ktime_sub (ktime_set 1 0) (ktime_set 0 1)) = 999999999.
Proof.
  assert (packed (ktime_set 1 0) 1 0) as Ha by (split; [reflexivity|lia]). assert (packed (ktime_set 0 1) 0 1) as Hb by (split; [reflexivity|lia]).
  destruct (ktime_ops_correct _ _ _ _ _ _ Ha Hb) as [_ Hsub]. destruct Hsub as [_ ->]; [lia|]. reflexivity.
Defined.

(** C34: the formula of [mktime] is the number of seconds that counting years, months and days from 1970 gives, to 32 bits. *)
Theorem mktime_correct y m d h mi s : 1970 <= y < 2 ^ 32 -> 1 <= m <= 12 ->
  mktime y m d h mi s = u32 (days_since_epoch y m d * 86400 + h * 3600 + mi * 60 + s).
Proof. intros. rewrite mktime_run by done. f_equal. lia. Qed.
Lemma mktime_witness : mktime 2000 3 1 12 30 15 = 951913815.
Proof. rewrite (mktime_correct 2000 3 1 12 30 15) by lia. vm_compute. reflexivity. Defined.

Lemma clock_split t : t `div` 86400 * 86400 + (t `div` 3600) `mod` 24 * 3600 + (t `div` 60) `mod` 60 * 60 + t `mod` 60 = t.
Proof.
  replace (t `div` 86400) with (t `div` 3600 `div` 24) by (rewrite Z.div_div by lia; done).
  replace (t `div` 3600) with (t `div` 60 `div` 60) by (rewrite Z.div_div by lia; done).
  pose proof (Z.div_mod t 60). pose proof (Z.div_mod (t `div` 60) 60). pose proof (Z.div_mod (t `div` 60 `div` 60) 24). lia.
Qed.

(** C33: every 32-bit time becomes a valid date, with its weekday and its day of the year, which is converted back to that time. Any other valid date before 2106 that is converted to it is the same. *)
Theorem rtc_roundtrip t : 0 <= t < 2 ^ 32 -> let tm := rtc_time_to_tm t in
  rtc_valid_tm tm = 0 /\ rtc_tm_to_time tm = t /\
  tm_wday tm = (t `div` 86400 + 4) `mod` 7 /\ tm_yday tm = rtc_year_days (tm_mday tm) (tm_mon tm) (tm_year tm + 1900) + 1 /\
  (forall tm', tm_ints tm' -> rtc_valid_tm tm' = 0 -> tm_year tm' < 206 -> rtc_tm_to_time tm' = t -> same_moment tm' tm).
Proof.
  intros Ht. destruct (rtc_time_to_tm_run t Ht) as (y & m & d & Hv & Hy & Ed & E). rewrite E. cbn zeta. clear E.
  set (tm := RtcTime _ _ _ _ _ _ _ _).
  pose proof (Z.mod_pos_bound t 60 ltac:(lia)). pose proof (Z.mod_pos_bound (t `div` 60) 60 ltac:(lia)). pose proof (Z.mod_pos_bound (t `div` 3600) 24 ltac:(lia)).
  assert (tm_ints tm) as Hi. { destruct Hv as (? & ? & ?). pose proof (rtc_month_days_le m y). repeat constructor; cbn; lia. }
  assert (y - 1900 + 1900 = y) as Ey by lia.
  assert (rtc_valid_tm tm = 0) as Hok by (apply rtc_valid_tm_iff; [done|]; cbn; rewrite Ey; done).
  split; [done|]. split; [rewrite rtc_tm_to_time_run by done; cbn; rewrite Ey, Ed, clock_split; by apply u32_small|].
  split; [done|]. split; [cbn; by rewrite Ey|]. intros tm' Hi' Hok' Hy' E.
  rewrite rtc_tm_to_time_run in E by done. apply rtc_valid_tm_iff in Hok' as (Hv' & Hh & Hmi & Hsec); [|done].
  pose proof (date_bounds _ _ _ Hv') as [_ Hb]. pose proof (before_year_mono (tm_year tm' + 1900 + 1) 2106) as Hmono.
  change (before_year 2106) with 49673 in Hmono. destruct Hv' as (Hv1 & Hv2).
  assert (0 <= before_year (tm_year tm' + 1900)) by (pose proof (before_year_mono 1970 (tm_year tm' + 1900)); change (before_year 1970) with 0 in *; lia).
  rewrite u32_small in E by lia. set (D := days_since_epoch (tm_year tm' + 1900) _ _) in *.
  assert (D = t `div` 86400) as ED by (apply (Z.div_unique_pos _ _ _ (tm_hour tm' * 3600 + tm_min tm' * 60 + tm_sec tm')); lia).
  destruct (date_inj (tm_year tm' + 1900) (tm_mon tm') (tm_mday tm') y m d) as (? & ? & ?); [done|done|lia|].
  unfold same_moment. cbn. pose proof (clock_split t). repeat split; lia.
Qed.
Lemma rtc_roundtrip_witness : rtc_tm_to_time (rtc_time_to_tm 951827696) = 951827696 /\ rtc_time_to_tm 951827696 = RtcTime 56 34 12 29 1 100 2 60.
Proof. split; [exact (proj1 (proj2 (rtc_roundtrip 951827696 ltac:(lia))))|]. vm_compute. reflexivity. Defined.

(** [timespec_to_jiffies] rounds up to whole jiffies with its scaled multiplications, without error, up to the largest number of seconds that it accepts; a longer time gives that maximum. *)
Theorem timespec_to_jiffies_correct sec nsec : 0 <= sec < 2 ^ 31 -> 0 <= nsec < NSEC_PER_SEC ->
  timespec_to_jiffies (Timespec sec nsec) =
  if sec <? MAX_SEC_IN_JIFFIES then (sec * NSEC_PER_SEC + nsec + (TICK_NSEC - 1)) `div` TICK_NSEC else MAX_SEC_IN_JIFFIES * HZ.
Proof.
  intros Hs Hn. change NSEC_PER_SEC with 1000000000 in *. rewrite max_sec, tick_nsec. destruct (Z.ltb_spec sec 1073741).
  - rewrite timespec_to_jiffies_run by lia. replace (sec * 1000000000 + nsec + (1000000 - 1)) with (nsec + 999999 + sec * 1000 * 1000000) by lia.
    rewrite Z.div_add by lia. lia.
  - unfold timespec_to_jiffies. cbn [tv_sec tv_nsec]. rewrite max_sec, (u32_small sec) by lia. change (u32 1073741) with 1073741.
    rewrite Z.geb_leb, (proj2 (Z.leb_le _ _)) by lia. reflexivity.
Qed.
Lemma timespec_to_jiffies_witness : timespec_to_jiffies (Timespec 3 1) = 3001 /\ timespec_to_jiffies (Timespec 2147483647 5) = 1073741000.
Proof.
  rewrite (timespec_to_jiffies_correct 3 1) by (unfold NSEC_PER_SEC; lia). rewrite (timespec_to_jiffies_correct 2147483647 5) by (unfold NSEC_PER_SEC; lia).
  split; vm_compute; reflexivity.
Defined.

(** a number of jiffies is the same after a conversion to a [timespec] and back. Through a [timeval] it is one more, unless it is a whole number of seconds. *)
Theorem jiffies_roundtrips j : 0 <= j < 1073741000 ->
  timespec_to_jiffies (jiffies_to_timespec j) = j /\
  timeval_to_jiffies (jiffies_to_timeval j) = j + (if j `mod` HZ =? 0 then 0 else 1).
Proof.
  intros Hj. unfold jiffies_to_timespec, jiffies_to_timeval. rewrite jiffies_split by lia. change HZ with 1000. change NSEC_PER_USEC with 1000.
  pose proof (Z.div_mod j 1000 ltac:(lia)). pose proof (Z.mod_pos_bound j 1000 ltac:(lia)).
  assert (0 <= j `div` 1000 < 1073741) by (split; [apply Z.div_pos; lia|apply Z.div_lt_upper_bound; lia]). rewrite s32_small by lia. split.
  - rewrite timespec_to_jiffies_run by lia. replace (j `mod` 1000 * 1000000 + 999999) with (999999 + j `mod` 1000 * 1000000) by lia.
    rewrite Z.div_add by lia. change (999999 `div` 1000000) with 0. lia.
  - replace (j `mod` 1000 * 1000000) with (j `mod` 1000 * 1000 * 1000) by lia. rewrite Z.div_mul, timeval_to_jiffies_run by lia.
    destruct (Z.eqb_spec (j `mod` 1000) 0) as [E0|E0]; [rewrite E0, Z.mul_0_l; change (0 =? 0) with true; cbv iota; lia|]. rewrite (proj2 (Z.eqb_neq (_ * _) _)) by lia. rewrite Z.div_mul by lia. lia.
Qed.
Lemma jiffies_roundtrips_witness : timeval_to_jiffies (jiffies_to_timeval 1) = 2.
Proof. exact (proj2 (jiffies_roundtrips 1 ltac:(lia))). Defined.

(** [usecs_to_jiffies] rounds up to whole jiffies, but its limit for times that are too long has overflowed: the last 1999 values, a little over 71 minutes, become the largest timeout, which is 12 days. *)
Theorem usecs_to_jiffies_limit u : 0 <= u < 2 ^ 32 ->
  usecs_to_jiffies u = if u <=? 2 ^ 32 - 2000 then (u + 999) `div` 1000 else MAX_JIFFY_OFFSET.
Proof.
  intros Hu. unfold usecs_to_jiffies. change (jiffies_to_usecs MAX_JIFFY_OFFSET) with (2 ^ 32 - 2000). change (USEC_PER_SEC `div` HZ) with 1000.
  rewrite Z.gtb_ltb. destruct (Z.ltb_spec (2 ^ 32 - 2000) u), (Z.leb_spec u (2 ^ 32 - 2000)); try lia. rewrite u32_small by lia. f_equal. lia.
Qed.
Lemma usecs_to_jiffies_witness : usecs_to_jiffies 4294965297 = 1073741822 /\ usecs_to_jiffies 4294965296 = 4294966.
Proof. rewrite (usecs_to_jiffies_limit 4294965297), (usecs_to_jiffies_limit 4294965296) by lia. split; vm_compute; reflexivity. Defined.
End Time.
