(* ===== verification/ListHead.v ===== *)
(** * Circular doubly linked lists (include/linux/list.h)

    The memory of all list heads is a finite map from addresses to [list_head]
    records; the operations below run in the monad of [Prelude] on that map, so
    an access through an unallocated pointer is an oops.  [dlist m h xs] says
    that the head at address [h] owns exactly the entries [xs], in order; the
    theorems show that each operation implements the operation on [xs] its
    comment promises, and leaves every disjoint list alone. *)

From S2P Require Import Prelude.
From stdpp Require Import prelude gmap list.
From Stdlib Require Import ZArith Lia.
Open Scope Z_scope.

Record list_head := ListHead { lh_next : Z; lh_prev : Z }.
Abbreviation mem := (gmap Z list_head).

Definition LIST_POISON1 : Z := 1048832.
Definition LIST_POISON2 : Z := 2097664.

(** ** The operations *)
Section operations.

Definition load (p : Z) : M mem list_head :=
  λ m, match m !! p with Some n => Some (n, m) | None => None end.
Definition get_next (p : Z) : M mem Z := n ← load p; mret (lh_next n).
Definition get_prev (p : Z) : M mem Z := n ← load p; mret (lh_prev n).
Definition set_next (p v : Z) : M mem unit :=
  n ← load p; modify (λ m, <[p := ListHead v (lh_prev n)]> m).
Definition set_prev (p v : Z) : M mem unit :=
  n ← load p; modify (λ m, <[p := ListHead (lh_next n) v]> m).

Definition INIT_LIST_HEAD (list : Z) : M mem unit :=
  set_next list list ;; set_prev list list.

Definition __list_add (new prev next : Z) : M mem unit :=
  set_prev next new ;; set_next new next ;; set_prev new prev ;; set_next prev new.

Definition list_add (new head : Z) : M mem unit :=
  n ← get_next head; __list_add new head n.

Definition list_add_tail (new head : Z) : M mem unit :=
  p ← get_prev head; __list_add new p head.

Definition __list_del (prev next : Z) : M mem unit :=
  set_prev next prev ;; set_next prev next.

Definition list_del (entry : Z) : M mem unit :=
  p ← get_prev entry; n ← get_next entry; __list_del p n ;;
  set_next entry LIST_POISON1 ;; set_prev entry LIST_POISON2.

Definition list_replace (old new : Z) : M mem unit :=
  n ← get_next old; set_next new n ;;
  n' ← get_next new; set_prev n' new ;;
  p ← get_prev old; set_prev new p ;;
  p' ← get_prev new; set_next p' new.

Definition list_replace_init (old new : Z) : M mem unit :=
  list_replace old new ;; INIT_LIST_HEAD old.

Definition list_del_init (entry : Z) : M mem unit :=
  p ← get_prev entry; n ← get_next entry; __list_del p n ;; INIT_LIST_HEAD entry.

Definition list_move (list head : Z) : M mem unit :=
  p ← get_prev list; n ← get_next list; __list_del p n ;; list_add list head.

Definition list_move_tail (list head : Z) : M mem unit :=
  p ← get_prev list; n ← get_next list; __list_del p n ;; list_add_tail list head.

Definition list_is_last (list head : Z) : M mem bool :=
  n ← get_next list; mret (n =? head).

Definition list_empty (head : Z) : M mem bool :=
  n ← get_next head; mret (n =? head).

Definition list_empty_careful (head : Z) : M mem bool :=
  next ← get_next head;
  p ← get_prev head;
  mret ((next =? head) && (next =? p)).

Definition list_rotate_left (head : Z) : M mem unit :=
  e ← list_empty head;
  if (e : bool) then mret tt
  else first ← get_next head; list_move_tail first head.

Definition list_is_singular (head : Z) : M mem bool :=
  e ← list_empty head;
  if (e : bool) then mret false
  else n ← get_next head; p ← get_prev head; mret (n =? p).

Definition __list_cut_position (list head entry : Z) : M mem unit :=
  new_first ← get_next entry;
  hn ← get_next head; set_next list hn ;;
  ln ← get_next list; set_prev ln list ;;
  set_prev list entry ;;
  set_next entry list ;;
  set_next head new_first ;;
  set_prev new_first head.

Definition list_cut_position (list head entry : Z) : M mem unit :=
  e ← list_empty head;
  if (e : bool) then mret tt else
  s ← list_is_singular head;
  hn ← get_next head;
  if (s && (negb (hn =? entry) && negb (head =? entry)) : bool) then mret tt
  else if entry =? head then INIT_LIST_HEAD list
  else __list_cut_position list head entry.

Definition __list_splice (list prev next : Z) : M mem unit :=
  first ← get_next list;
  last ← get_prev list;
  set_prev first prev ;; set_next prev first ;;
  set_next last next ;; set_prev next last.

Definition list_splice (list head : Z) : M mem unit :=
  e ← list_empty list;
  if (e : bool) then mret tt else n ← get_next head; __list_splice list head n.

Definition list_splice_tail (list head : Z) : M mem unit :=
  e ← list_empty list;
  if (e : bool) then mret tt else p ← get_prev head; __list_splice list p head.

Definition list_splice_init (list head : Z) : M mem unit :=
  e ← list_empty list;
  if (e : bool) then mret tt
  else n ← get_next head; __list_splice list head n ;; INIT_LIST_HEAD list.

Definition list_splice_tail_init (list head : Z) : M mem unit :=
  e ← list_empty list;
  if (e : bool) then mret tt
  else p ← get_prev head; __list_splice list p head ;; INIT_LIST_HEAD list.

End operations.

(** ** Fields as partial functions and pure updates *)
Definition nxt (m : mem) (p : Z) : option Z := lh_next <$> m !! p.
Definition prv (m : mem) (p : Z) : option Z := lh_prev <$> m !! p.
Definition upd_next (p v : Z) (m : mem) : mem := alter (λ n, ListHead v (lh_prev n)) p m.
Definition upd_prev (p v : Z) (m : mem) : mem := alter (λ n, ListHead (lh_next n) v) p m.
Definition allocated (m : mem) (p : Z) : Prop := is_Some (m !! p).

Section access.
Implicit Types (m : mem) (p q v : Z).

Lemma nxt_allocated m p v : nxt m p = Some v -> allocated m p.
Proof. unfold nxt, allocated. destruct (m !! p); naive_solver. Qed.
Lemma prv_allocated m p v : prv m p = Some v -> allocated m p.
Proof. unfold prv, allocated. destruct (m !! p); naive_solver. Qed.

Lemma get_next_run m p v : nxt m p = Some v -> get_next p m = Some (v, m).
Proof.
  unfold nxt, get_next, load, mbind, M_bind, mret, M_ret.
  destruct (m !! p); naive_solver.
Qed.
Lemma get_prev_run m p v : prv m p = Some v -> get_prev p m = Some (v, m).
Proof.
  unfold prv, get_prev, load, mbind, M_bind, mret, M_ret.
  destruct (m !! p); naive_solver.
Qed.
Lemma set_next_run m p v : allocated m p -> set_next p v m = Some (tt, upd_next p v m).
Proof.
  intros [n Hn]. unfold set_next, load, modify, mbind, M_bind, upd_next. rewrite Hn.
  do 2 f_equal. apply map_eq. intros i. rewrite lookup_insert, lookup_alter.
  case_decide; [subst; by rewrite Hn|done].
Qed.
Lemma set_prev_run m p v : allocated m p -> set_prev p v m = Some (tt, upd_prev p v m).
Proof.
  intros [n Hn]. unfold set_prev, load, modify, mbind, M_bind, upd_prev. rewrite Hn.
  do 2 f_equal. apply map_eq. intros i. rewrite lookup_insert, lookup_alter.
  case_decide; [subst; by rewrite Hn|done].
Qed.

Lemma nxt_upd_prev m p v q : nxt (upd_prev p v m) q = nxt m q.
Proof. unfold nxt, upd_prev. rewrite lookup_alter. case_decide; [subst; by destruct (m !! q)|done]. Qed.
Lemma prv_upd_next m p v q : prv (upd_next p v m) q = prv m q.
Proof. unfold prv, upd_next. rewrite lookup_alter. case_decide; [subst; by destruct (m !! q)|done]. Qed.
Lemma nxt_upd_eq m p v : allocated m p -> nxt (upd_next p v m) p = Some v.
Proof. intros [n Hn]. unfold nxt, upd_next. by rewrite lookup_alter_eq, Hn. Qed.
Lemma nxt_upd_ne m p v q : q <> p -> nxt (upd_next p v m) q = nxt m q.
Proof. intros ?. unfold nxt, upd_next. by rewrite lookup_alter_ne. Qed.
Lemma prv_upd_eq m p v : allocated m p -> prv (upd_prev p v m) p = Some v.
Proof. intros [n Hn]. unfold prv, upd_prev. by rewrite lookup_alter_eq, Hn. Qed.
Lemma prv_upd_ne m p v q : q <> p -> prv (upd_prev p v m) q = prv m q.
Proof. intros ?. unfold prv, upd_prev. by rewrite lookup_alter_ne. Qed.

Lemma allocated_upd_next m p v q : allocated (upd_next p v m) q <-> allocated m q.
Proof.
  unfold allocated, upd_next. rewrite lookup_alter. case_decide; [|done].
  subst. by rewrite fmap_is_Some.
Qed.
Lemma allocated_upd_prev m p v q : allocated (upd_prev p v m) q <-> allocated m q.
Proof.
  unfold allocated, upd_prev. rewrite lookup_alter. case_decide; [|done].
  subst. by rewrite fmap_is_Some.
Qed.
Lemma lookup_upd_next_ne m p v q : q <> p -> upd_next p v m !! q = m !! q.
Proof. intros ?. by apply lookup_alter_ne. Qed.
Lemma lookup_upd_prev_ne m p v q : q <> p -> upd_prev p v m !! q = m !! q.
Proof. intros ?. by apply lookup_alter_ne. Qed.
End access.

Create Rewrite HintDb lh.
#[export] Hint Rewrite nxt_upd_prev prv_upd_next : lh.
#[export] Hint Resolve nxt_allocated prv_allocated : kernel.
#[export] Hint Resolve <- allocated_upd_next allocated_upd_prev : kernel.

(** Discharges the field reads and allocation side conditions of an operation. *)
Ltac lh_field :=
  repeat first
    [ progress autorewrite with lh
    | rewrite nxt_upd_ne by congruence
    | rewrite prv_upd_ne by congruence
    | rewrite nxt_upd_eq by eauto 10 with kernel
    | rewrite prv_upd_eq by eauto 10 with kernel ];
  eauto 10 with kernel.

(** ** Chains and lists *)
Definition link (m : mem) (a b : Z) : Prop := nxt m a = Some b /\ prv m b = Some a.

Fixpoint chain (m : mem) (l : list Z) : Prop :=
  match l with
  | a :: ((b :: _) as l') => link m a b /\ chain m l'
  | _ => True
  end.

Definition dlist (m : mem) (h : Z) (xs : list Z) : Prop :=
  NoDup (h :: xs) /\ chain m (h :: xs ++ [h]).

Section chains.
Implicit Types (m : mem) (l : list Z) (h p n x new : Z).

Lemma chain_app m l1 x l2 :
  chain m (l1 ++ x :: l2) <-> chain m (l1 ++ [x]) /\ chain m (x :: l2).
Proof.
  induction l1 as [|a [|b l1] IH]; [cbn; destruct l2; tauto..|].
  cbn [app chain] in *. rewrite IH. tauto.
Qed.

Lemma chain_join m l1 p n l2 :
  chain m ((l1 ++ [p]) ++ n :: l2) <->
  chain m (l1 ++ [p]) /\ link m p n /\ chain m (n :: l2).
Proof. rewrite <-app_assoc. cbn [app]. rewrite chain_app. cbn. tauto. Qed.

Lemma chain_frame m m' l :
  chain m l ->
  (forall q, q ∈ removelast l -> nxt m' q = nxt m q) ->
  (forall q, q ∈ tail l -> prv m' q = prv m q) ->
  chain m' l.
Proof.
  induction l as [|a [|b l] IH]; [done..|].
  intros [[Hn Hp] Hc] H1 H2.
  assert (chain m' (b :: l)) as ?.
  { apply IH; [done| |]; intros q Hq.
    - apply H1. cbn [removelast]. apply elem_of_cons. by right.
    - apply H2. cbn [tail] in *. apply elem_of_cons. by right. }
  split; [|done]. split.
  - rewrite H1; [done|]. cbn. apply elem_of_cons; by left.
  - rewrite H2; [done|]. cbn. apply elem_of_cons; by left.
Qed.

Lemma chain_allocated m l : chain m l -> (2 <= length l)%nat -> forall q, q ∈ l -> allocated m q.
Proof.
  induction l as [|a [|b l] IH]; [by cbn; intros; lia..|].
  intros [[Hn Hp] Hc] _ q Hq.
  apply elem_of_cons in Hq as [->|Hq]; [by eauto with kernel|].
  destruct l as [|c l].
  - apply list_elem_of_singleton in Hq as ->. eauto with kernel.
  - apply IH; [done|cbn; lia|done].
Qed.

Lemma dlist_allocated m h xs q : dlist m h xs -> q ∈ h :: xs -> allocated m q.
Proof.
  intros [_ Hc] Hq. eapply chain_allocated; [done|..].
  - rewrite length_cons, length_app. cbn. lia.
  - set_solver.
Qed.

Lemma snoc_view h l : exists A p, h :: l = A ++ [p].
Proof. destruct (exists_last (l := h :: l)) as (A & p & ->); [done|eauto]. Qed.

Lemma cons_view l h : exists n B, l ++ [h] = n :: B.
Proof. destruct l; eauto. Qed.

Lemma removelast_snoc l x : removelast (l ++ [x]) = l.
Proof. by rewrite removelast_app, app_nil_r. Qed.

(** A list cut at some point: [p] is the node before the cut and [n] the node
    after it, either of which may be the head. *)
Record cut (h : Z) (l1 l2 A : list Z) (p n : Z) (B : list Z) : Prop := {
  cut_l : h :: l1 = A ++ [p];
  cut_r : l2 ++ [h] = n :: B;
}.

Lemma cut_exists h l1 l2 : exists A p n B, cut h l1 l2 A p n B.
Proof.
  destruct (snoc_view h l1) as (A & p & ?), (cons_view l2 h) as (n & B & ?).
  by exists A, p, n, B.
Qed.

Lemma cut_mem h l1 l2 A p n B : cut h l1 l2 A p n B -> NoDup (h :: l1 ++ l2) ->
  p ∈ h :: l1 /\ n ∈ l2 ++ [h] /\ p ∉ A /\ p ∉ l2 /\ n ∉ l1 /\ n ∉ B /\
  (forall q, q ∈ A -> q ∈ h :: l1) /\ (forall q, q ∈ B -> q ∈ l2 ++ [h]).
Proof.
  intros [Hl Hr] Hnd.
  assert (NoDup ((h :: l1) ++ l2)) as (Hn1 & Hd & Hn2)%NoDup_app by done.
  assert (h ∉ l2) as Hh by (apply Hd; set_solver).
  assert (NoDup (l2 ++ [h])) as Hn3.
  { apply NoDup_app. repeat split; [done|set_solver|apply NoDup_singleton]. }
  rewrite Hr in Hn3. apply NoDup_cons in Hn3 as [? _].
  assert (p ∈ h :: l1) by (rewrite Hl; set_solver).
  assert (n ∈ l2 ++ [h]) by (rewrite Hr; set_solver).
  split_and!; [done|done| | | |done| |].
  - rewrite Hl in Hn1. apply NoDup_app in Hn1 as (? & Hd' & _). set_solver.
  - by apply Hd.
  - intros ?. apply NoDup_cons in Hn1 as [??].
    assert (n ∈ l2 \/ n = h) as [?| ->] by set_solver; [|done].
    by apply (Hd n); [set_solver|].
  - intros q ?. rewrite Hl. set_solver.
  - intros q ?. rewrite Hr. set_solver.
Qed.

Lemma cut_chain m h l1 l2 A p n B : cut h l1 l2 A p n B ->
  chain m (h :: (l1 ++ l2) ++ [h]) <-> chain m (h :: l1) /\ link m p n /\ chain m (l2 ++ [h]).
Proof.
  intros [Hl Hr]. rewrite <-app_assoc, app_comm_cons, Hl, Hr. apply chain_join.
Qed.

Lemma cut_chain_mid m h l1 x l2 A p n B : cut h l1 l2 A p n B ->
  chain m (h :: (l1 ++ x :: l2) ++ [h]) <->
  chain m (h :: l1) /\ link m p x /\ link m x n /\ chain m (l2 ++ [h]).
Proof.
  intros [Hl Hr]. rewrite (cut_chain m h l1 (x :: l2) A p x (l2 ++ [h])) by done.
  cbn [app]. rewrite Hr. cbn. tauto.
Qed.

Lemma chain_frame_l m m' h l1 l2 A p n B : cut h l1 l2 A p n B ->
  chain m (h :: l1) ->
  (forall q, q ∈ A -> nxt m' q = nxt m q) -> (forall q, q ∈ l1 -> prv m' q = prv m q) ->
  chain m' (h :: l1).
Proof.
  intros [Hl _] Hc H1 H2. eapply chain_frame; [done| |done].
  intros q Hq. rewrite Hl, removelast_snoc in Hq. auto.
Qed.

Lemma chain_frame_r m m' h l1 l2 A p n B : cut h l1 l2 A p n B ->
  chain m (l2 ++ [h]) ->
  (forall q, q ∈ l2 -> nxt m' q = nxt m q) -> (forall q, q ∈ B -> prv m' q = prv m q) ->
  chain m' (l2 ++ [h]).
Proof.
  intros [_ Hr] Hc H1 H2. eapply chain_frame; [done|..]; intros q Hq.
  - rewrite removelast_snoc in Hq. auto.
  - rewrite Hr in Hq. auto.
Qed.

End chains.

(** ** What the operations do *)
Section theorems.
Implicit Types (m : mem) (h p n x new : Z) (l xs ys : list Z).

(** Memory outside the set [S] is untouched. *)
Definition same_outside (S : list Z) m m' : Prop := forall q, q ∉ S -> m' !! q = m !! q.

Lemma dlist_frame S m m' h xs :
  same_outside S m m' -> (forall q, q ∈ h :: xs -> q ∉ S) -> dlist m h xs -> dlist m' h xs.
Proof.
  intros Hs Hd [Hnd Hc]. split; [done|].
  assert (forall q, q ∈ h :: xs ++ [h] -> m' !! q = m !! q) as Hq.
  { intros q ?. apply Hs, Hd. set_solver. }
  eapply chain_frame; [done|..]; intros q ?; unfold nxt, prv; rewrite Hq; try done.
  - rewrite app_comm_cons, removelast_snoc in *. set_solver.
  - cbn [tail] in *. set_solver.
Qed.

Lemma __list_add_dlist m h l1 l2 A p n B new :
  cut h l1 l2 A p n B -> dlist m h (l1 ++ l2) -> new ∉ h :: l1 ++ l2 -> allocated m new ->
  exists m', __list_add new p n m = Some (tt, m') /\
    dlist m' h (l1 ++ new :: l2) /\ same_outside (new :: h :: l1 ++ l2) m m'.
Proof.
  intros Hcut [Hnd Hc] Hnew Ha.
  pose proof (cut_mem _ _ _ _ _ _ _ Hcut Hnd) as (Hp & Hn & HpA & Hp2 & Hn1 & HnB & HA & HB).
  apply (cut_chain _ _ _ _ _ _ _ _ Hcut) in Hc as (Hc1 & [Hl1 Hl2] & Hc2).
  assert (new <> p) by set_solver. assert (new <> n) by set_solver.
  exists (upd_next p new (upd_prev new p (upd_next new n (upd_prev n new m)))). split_and!.
  - unfold __list_add.
    erewrite bind_run by (apply set_prev_run; lh_field).
    erewrite bind_run by (apply set_next_run; lh_field).
    erewrite bind_run by (apply set_prev_run; lh_field).
    apply set_next_run. lh_field.
  - split.
    { rewrite app_comm_cons in *. rewrite <-Permutation_middle. by constructor. }
    rewrite (cut_chain_mid _ _ _ _ _ _ _ _ _ Hcut). split_and!.
    + eapply chain_frame_l; [done..| |]; intros q Hq; pose proof (HA q).
      * assert (q <> p) by set_solver. assert (q <> new) by set_solver. lh_field.
      * assert (q <> n) by set_solver. assert (q <> new) by set_solver. lh_field.
    + split; lh_field.
    + split; lh_field.
    + eapply chain_frame_r; [done..| |]; intros q Hq; pose proof (HB q).
      * assert (q <> p) by set_solver. assert (q <> new) by set_solver. lh_field.
      * assert (q <> n) by set_solver. assert (q <> new) by set_solver. lh_field.
  - intros q Hq.
    assert (q <> p) by set_solver. assert (q <> new) by set_solver.
    assert (q <> n) by set_solver.
    by rewrite lookup_upd_next_ne, lookup_upd_prev_ne, lookup_upd_next_ne, lookup_upd_prev_ne.
Qed.

(** [list_add new pos] inserts right after [pos], which may be the head. *)
Lemma list_add_dlist m h l1 l2 pos A new :
  dlist m h (l1 ++ l2) -> h :: l1 = A ++ [pos] -> new ∉ h :: l1 ++ l2 -> allocated m new ->
  exists m', list_add new pos m = Some (tt, m') /\
    dlist m' h (l1 ++ new :: l2) /\ same_outside (new :: h :: l1 ++ l2) m m'.
Proof.
  intros Hd HA Hnew Ha. destruct (cons_view l2 h) as (n & B & Hr).
  assert (cut h l1 l2 A pos n B) as Hcut by done.
  destruct (proj1 (cut_chain m _ _ _ _ _ _ _ Hcut) (proj2 Hd)) as (_ & [? _] & _).
  unfold list_add. erewrite bind_run by (by apply get_next_run).
  by eapply __list_add_dlist.
Qed.

(** [list_add_tail new pos] inserts right before [pos], which may be the head. *)
Lemma list_add_tail_dlist m h l1 l2 pos B new :
  dlist m h (l1 ++ l2) -> l2 ++ [h] = pos :: B -> new ∉ h :: l1 ++ l2 -> allocated m new ->
  exists m', list_add_tail new pos m = Some (tt, m') /\
    dlist m' h (l1 ++ new :: l2) /\ same_outside (new :: h :: l1 ++ l2) m m'.
Proof.
  intros Hd HB Hnew Ha. destruct (snoc_view h l1) as (A & p & Hl).
  assert (cut h l1 l2 A p pos B) as Hcut by done.
  destruct (proj1 (cut_chain m _ _ _ _ _ _ _ Hcut) (proj2 Hd)) as (_ & [_ ?] & _).
  unfold list_add_tail. erewrite bind_run by (by apply get_prev_run).
  by eapply __list_add_dlist.
Qed.

Lemma __list_del_dlist m h l1 l2 A p n B x :
  cut h l1 l2 A p n B -> dlist m h (l1 ++ x :: l2) ->
  exists m', __list_del p n m = Some (tt, m') /\ prv m x = Some p /\ nxt m x = Some n /\
    dlist m' h (l1 ++ l2) /\ x ∉ h :: l1 ++ l2 /\ allocated m' x /\
    same_outside (h :: l1 ++ l2) m m'.
Proof.
  intros Hcut [Hnd Hc].
  assert (NoDup (h :: l1 ++ l2) /\ (x ∉ h :: l1 ++ l2)) as [Hnd' Hx].
  { rewrite app_comm_cons, <-Permutation_middle in Hnd.
    by apply NoDup_cons in Hnd as [? ?]. }
  pose proof (cut_mem _ _ _ _ _ _ _ Hcut Hnd') as (Hp & Hn & HpA & Hp2 & Hn1 & HnB & HA & HB).
  apply (cut_chain_mid _ _ _ _ _ _ _ _ _ Hcut) in Hc as (Hc1 & [??] & [??] & Hc2).
  exists (upd_next p n (upd_prev n p m)). split_and!; [|done|done| |done|lh_field|].
  - unfold __list_del. erewrite bind_run by (apply set_prev_run; lh_field).
    apply set_next_run. lh_field.
  - split; [done|]. rewrite (cut_chain _ _ _ _ _ _ _ _ Hcut). split_and!.
    + eapply chain_frame_l; [done..| |]; intros q Hq; pose proof (HA q).
      * assert (q <> p) by set_solver. lh_field.
      * assert (q <> n) by set_solver. lh_field.
    + split; lh_field.
    + eapply chain_frame_r; [done..| |]; intros q Hq; pose proof (HB q).
      * assert (q <> p) by set_solver. lh_field.
      * assert (q <> n) by set_solver. lh_field.
  - intros q Hq. assert (q <> p) by set_solver. assert (q <> n) by set_solver.
    by rewrite lookup_upd_next_ne, lookup_upd_prev_ne.
Qed.

Lemma INIT_LIST_HEAD_dlist m p :
  allocated m p ->
  exists m', INIT_LIST_HEAD p m = Some (tt, m') /\ dlist m' p [] /\ same_outside [p] m m'.
Proof.
  intros Ha. exists (upd_prev p p (upd_next p p m)). split_and!.
  - unfold INIT_LIST_HEAD. erewrite bind_run by (apply set_next_run; lh_field).
    apply set_prev_run. lh_field.
  - split; [apply NoDup_singleton|]. cbn. repeat split; lh_field.
  - intros q Hq. assert (q <> p) by set_solver.
    by rewrite lookup_upd_prev_ne, lookup_upd_next_ne.
Qed.

Lemma same_outside_trans S S' m1 m2 m3 :
  same_outside S m1 m2 -> same_outside S' m2 m3 -> same_outside (S ++ S') m1 m3.
Proof. intros H1 H2 q Hq. rewrite H2, H1; set_solver. Qed.

Lemma same_outside_mono S S' m1 m2 :
  (forall q, q ∈ S -> q ∈ S') -> same_outside S m1 m2 -> same_outside S' m1 m2.
Proof. intros H1 H2 q Hq. apply H2. set_solver. Qed.

Lemma list_del_init_dlist m h l1 l2 x :
  dlist m h (l1 ++ x :: l2) ->
  exists m', list_del_init x m = Some (tt, m') /\
    dlist m' h (l1 ++ l2) /\ dlist m' x [] /\ same_outside (h :: l1 ++ x :: l2) m m'.
Proof.
  intros Hd. destruct (cut_exists h l1 l2) as (A & p & n & B & Hcut).
  destruct (__list_del_dlist _ _ _ _ _ _ _ _ _ Hcut Hd)
    as (m1 & Hr & Hp & Hn & Hd1 & Hx & Ha & Hs1).
  destruct (INIT_LIST_HEAD_dlist m1 x Ha) as (m2 & Hr2 & Hd2 & Hs2).
  exists m2. split_and!; [|by eapply dlist_frame; [| |done]; set_solver|done|].
  - unfold list_del_init. erewrite bind_run by (by apply get_prev_run).
    erewrite bind_run by (by apply get_next_run). by erewrite bind_run by done.
  - eapply same_outside_mono; [|by eapply same_outside_trans]. set_solver.
Qed.

Lemma list_del_dlist m h l1 l2 x :
  dlist m h (l1 ++ x :: l2) ->
  exists m', list_del x m = Some (tt, m') /\ dlist m' h (l1 ++ l2) /\
    m' !! x = Some (ListHead LIST_POISON1 LIST_POISON2) /\
    same_outside (h :: l1 ++ x :: l2) m m'.
Proof.
  intros Hd. destruct (cut_exists h l1 l2) as (A & p & n & B & Hcut).
  destruct (__list_del_dlist _ _ _ _ _ _ _ _ _ Hcut Hd)
    as (m1 & Hr & Hp & Hn & Hd1 & Hx & Ha & Hs1).
  set (m2 := upd_prev x LIST_POISON2 (upd_next x LIST_POISON1 m1)).
  assert (same_outside [x] m1 m2) as Hs2.
  { intros q Hq. assert (q <> x) by set_solver. unfold m2.
    by rewrite lookup_upd_prev_ne, lookup_upd_next_ne. }
  exists m2. split_and!; [|by eapply dlist_frame; [| |done]; set_solver| |].
  - unfold list_del. erewrite bind_run by (by apply get_prev_run).
    erewrite bind_run by (by apply get_next_run). erewrite bind_run by done.
    erewrite bind_run by (by apply set_next_run). apply set_prev_run. lh_field.
  - unfold m2, upd_prev, upd_next. rewrite !lookup_alter_eq.
    destruct Ha as [? ->]. done.
  - eapply same_outside_mono; [|by eapply same_outside_trans]. set_solver.
Qed.

(** [list_move x pos] and [list_move_tail x pos]: [x] leaves its list, and goes
    right after (before) [pos] in whatever list [pos] is on by then. *)
Lemma list_move_dlist m h l1 l2 x pos :
  dlist m h (l1 ++ x :: l2) ->
  exists m1, dlist m1 h (l1 ++ l2) /\ same_outside (h :: l1 ++ l2) m m1 /\
  forall h' k1 k2 A, dlist m1 h' (k1 ++ k2) -> h' :: k1 = A ++ [pos] -> x ∉ h' :: k1 ++ k2 ->
  exists m', list_move x pos m = Some (tt, m') /\ dlist m' h' (k1 ++ x :: k2) /\
    same_outside (x :: h' :: k1 ++ k2) m1 m'.
Proof.
  intros Hd. destruct (cut_exists h l1 l2) as (A & p & n & B & Hcut).
  destruct (__list_del_dlist _ _ _ _ _ _ _ _ _ Hcut Hd)
    as (m1 & Hr & Hp & Hn & Hd1 & Hx & Ha & Hs1).
  exists m1. split_and!; [done..|]. intros h' k1 k2 A' Hd2 HA' Hx2.
  unfold list_move. erewrite bind_run by (by apply get_prev_run).
  erewrite bind_run by (by apply get_next_run). erewrite bind_run by done.
  by eapply list_add_dlist.
Qed.

Lemma list_move_tail_dlist m h l1 l2 x pos :
  dlist m h (l1 ++ x :: l2) ->
  exists m1, dlist m1 h (l1 ++ l2) /\ same_outside (h :: l1 ++ l2) m m1 /\
  forall h' k1 k2 B, dlist m1 h' (k1 ++ k2) -> k2 ++ [h'] = pos :: B -> x ∉ h' :: k1 ++ k2 ->
  exists m', list_move_tail x pos m = Some (tt, m') /\ dlist m' h' (k1 ++ x :: k2) /\
    same_outside (x :: h' :: k1 ++ k2) m1 m'.
Proof.
  intros Hd. destruct (cut_exists h l1 l2) as (A & p & n & B & Hcut).
  destruct (__list_del_dlist _ _ _ _ _ _ _ _ _ Hcut Hd)
    as (m1 & Hr & Hp & Hn & Hd1 & Hx & Ha & Hs1).
  exists m1. split_and!; [done..|]. intros h' k1 k2 B' Hd2 HB' Hx2.
  unfold list_move_tail. erewrite bind_run by (by apply get_prev_run).
  erewrite bind_run by (by apply get_next_run). erewrite bind_run by done.
  by eapply list_add_tail_dlist.
Qed.

(** The read-only tests. *)
Lemma dlist_head m h xs : dlist m h xs -> exists f t : Z, nxt m h = Some f /\ prv m h = Some t /\
  match xs with
  | [] => f = h /\ t = h
  | x :: xs' => f = x /\ (t ∈ x :: xs') /\ (x = t <-> xs' = [])
  end.
Proof.
  intros [Hnd Hc]. destruct xs as [|x xs].
  { cbn in Hc. destruct Hc as [[??] _]. by exists h, h. }
  destruct (snoc_view x xs) as (A & l & HA).
  exists x, l. cbn [app] in Hc. destruct Hc as [[? _] Hc]. split; [done|].
  rewrite app_comm_cons, HA in Hc. apply (chain_join m A l h []) in Hc as (_ & [? ?] & _).
  split; [done|]. split_and!; [done|rewrite HA; set_solver|].
  destruct A as [|a A]; cbn in HA; [by simplify_eq|].
  simplify_eq/=. apply NoDup_cons in Hnd as [_ Hnd]. apply NoDup_cons in Hnd as [Hnd _].
  split; [intros ->; set_solver|by destruct A].
Qed.

Lemma list_empty_dlist m h xs : dlist m h xs ->
  list_empty h m = Some (bool_decide (xs = []), m).
Proof.
  intros Hd. destruct (dlist_head _ _ _ Hd) as (f & l & Hf & Hl & Hx).
  unfold list_empty. erewrite bind_run by (by apply get_next_run).
  unfold mret, M_ret. do 2 f_equal. destruct Hd as [Hnd _]. destruct xs; cbn.
  - destruct Hx as [-> _]. by rewrite Z.eqb_refl.
  - destruct Hx as [-> _]. apply NoDup_cons in Hnd as [? _].
    apply Z.eqb_neq. set_solver.
Qed.

Lemma list_is_singular_dlist m h xs : dlist m h xs ->
  list_is_singular h m = Some (bool_decide (length xs = 1%nat), m).
Proof.
  intros Hd. unfold list_is_singular.
  erewrite bind_run by (by apply list_empty_dlist).
  destruct (dlist_head _ _ _ Hd) as (f & l & Hf & Hl & Hx).
  destruct xs as [|x xs]; [done|]. rewrite bool_decide_false by done.
  erewrite bind_run by (by apply get_next_run).
  erewrite bind_run by (by apply get_prev_run).
  unfold mret, M_ret. do 2 f_equal. destruct Hx as (-> & _ & Hx).
  destruct (Z.eqb_spec x l) as [E|E].
  - apply Hx in E as ->. done.
  - rewrite bool_decide_false; [done|]. intros E'. apply E, Hx. destruct xs; cbn in E'; [done|lia].
Qed.

Lemma list_rotate_left_dlist m h x xs : dlist m h (x :: xs) ->
  exists m', list_rotate_left h m = Some (tt, m') /\ dlist m' h (xs ++ [x]) /\
    same_outside (h :: x :: xs) m m'.
Proof.
  intros Hd. unfold list_rotate_left.
  erewrite bind_run by (by apply list_empty_dlist). rewrite bool_decide_false by done.
  destruct (dlist_head _ _ _ Hd) as (f & l & Hf & _ & [-> _]).
  erewrite bind_run by (by apply get_next_run).
  destruct (list_move_tail_dlist m h [] xs x h Hd) as (m1 & Hd1 & Hs1 & Hmv). cbn [app] in *.
  destruct (Hmv h xs [] []) as (m' & Hr & Hd' & Hs'); [by rewrite app_nil_r|done| |].
  { rewrite app_nil_r. destruct Hd as [Hnd _].
    apply NoDup_cons in Hnd as [? Hnd]. apply NoDup_cons in Hnd as [? _]. set_solver. }
  exists m'. split_and!; [done|done|].
  rewrite app_nil_r in Hs'. eapply same_outside_mono; [|by eapply same_outside_trans].
  set_solver.
Qed.

(** Joining two disjoint lists. *)
Lemma __list_splice_dlist m h l1 l2 A p n B lst y ys :
  cut h l1 l2 A p n B -> dlist m h (l1 ++ l2) -> dlist m lst (y :: ys) ->
  (forall q, q ∈ lst :: y :: ys -> q ∉ h :: l1 ++ l2) ->
  exists m', __list_splice lst p n m = Some (tt, m') /\
    dlist m' h (l1 ++ (y :: ys) ++ l2) /\ m' !! lst = m !! lst /\
    same_outside (h :: l1 ++ (y :: ys) ++ l2) m m'.
Proof.
  intros Hcut [Hnd Hc] Hdl Hdisj.
  pose proof (cut_mem _ _ _ _ _ _ _ Hcut Hnd) as (Hp & Hn & HpA & Hp2 & Hn1 & HnB & HA & HB).
  apply (cut_chain _ _ _ _ _ _ _ _ Hcut) in Hc as (Hc1 & [Hl1 Hl2] & Hc2).
  destruct (snoc_view y ys) as (Y & z & HY).
  destruct Hdl as [Hndl Hcl].
  assert (nxt m lst = Some y /\ prv m lst = Some z /\ allocated m y /\ allocated m z /\
    chain m (Y ++ [z])) as (Hfy & Hlz & Hay & Haz & Hcy).
  { cbn [app] in Hcl. destruct Hcl as [[? ?] Hcl]. rewrite app_comm_cons, HY in Hcl.
    apply (chain_join m Y z lst []) in Hcl as (? & [? ?] & _).
    split_and!; [by eauto with kernel..|done]. }
  apply NoDup_cons in Hndl as [Hlst Hndl].
  assert (y ∈ y :: ys) as Hy by set_solver.
  assert (z ∈ y :: ys) as Hz by (rewrite HY; set_solver).
  assert (forall q, q ∈ y :: ys -> q <> p /\ q <> n) as Hyp.
  { intros q Hq. pose proof (Hdisj q) as Hq'. set_solver +Hq Hq' Hp Hn. }
  assert (forall q, q ∈ h :: l1 ++ l2 -> q <> y /\ q <> z) as Hyz.
  { intros q Hq. split; intros ->; (eapply Hdisj; [|exact Hq]); set_solver +Hz. }
  destruct (Hyp y Hy) as [Hyp1 Hyn]. destruct (Hyp z Hz) as [Hzp Hzn].
  assert (lst <> p /\ lst <> n /\ lst <> y /\ lst <> z) as (?&?&?&?).
  { pose proof (Hdisj lst) as Hq'. set_solver +Hlst Hq' Hp Hn Hz. }
  assert (NoDup (Y ++ [z])) as HndY by (by rewrite <-HY).
  set (m' := upd_prev n z (upd_next z n (upd_next p y (upd_prev y p m)))).
  exists m'. split_and!.
  - unfold __list_splice. erewrite bind_run by (by apply get_next_run).
    erewrite bind_run by (by apply get_prev_run).
    erewrite bind_run by (apply set_prev_run; lh_field).
    erewrite bind_run by (apply set_next_run; lh_field).
    erewrite bind_run by (apply set_next_run; lh_field).
    apply set_prev_run. lh_field.
  - split.
    { rewrite app_comm_cons, (Permutation_app_swap_app (h :: l1)).
      apply NoDup_app. split_and!; [done| |done]. intros q Hq. apply Hdisj. set_solver +Hq. }
    assert (h :: (l1 ++ (y :: ys) ++ l2) ++ [h] = (A ++ [p]) ++ y :: ys ++ (n :: B)) as ->.
    { destruct Hcut as [<- <-]. by simplify_list_eq. }
    rewrite chain_join, app_comm_cons, HY, chain_join. split_and!.
    + rewrite <-(cut_l _ _ _ _ _ _ _ Hcut).
      eapply chain_frame_l; [done..| |]; intros q Hq; unfold m'.
      * pose proof (HA q Hq) as HqA. destruct (Hyz q); [set_solver +HqA|].
        assert (q <> p) by set_solver +Hq HpA. lh_field.
      * destruct (Hyz q); [set_solver +Hq|]. assert (q <> n) by set_solver +Hq Hn1. lh_field.
    + split; unfold m'; lh_field.
    + eapply chain_frame; [done|..]; intros q Hq; unfold m'.
      * rewrite removelast_snoc in Hq. apply NoDup_app in HndY as (_ & HndY & _).
        assert (q ∈ y :: ys) as Hq' by (rewrite HY; set_solver +Hq).
        destruct (Hyp q Hq'). assert (q <> z) by (intros ->; eapply HndY; [done|set_solver +]).
        lh_field.
      * rewrite <-HY in Hq. cbn [tail] in Hq. apply NoDup_cons in Hndl as [Hndl _].
        assert (q <> y) by set_solver +Hq Hndl. destruct (Hyp q); [set_solver +Hq|]. lh_field.
    + split; unfold m'; lh_field.
    + rewrite <-(cut_r _ _ _ _ _ _ _ Hcut).
      eapply chain_frame_r; [done..| |]; intros q Hq; unfold m'.
      * destruct (Hyz q); [set_solver +Hq|]. assert (q <> p) by set_solver +Hq Hp2. lh_field.
      * pose proof (HB q Hq) as HqB. destruct (Hyz q); [set_solver +HqB|].
        assert (q <> n) by set_solver +Hq HnB. lh_field.
  - unfold m'. by rewrite lookup_upd_prev_ne, !lookup_upd_next_ne, lookup_upd_prev_ne.
  - intros q Hq. assert (q <> p) by set_solver +Hq Hp. assert (q <> n) by set_solver +Hq Hn.
    assert (q <> y) by set_solver +Hq. assert (q <> z) by set_solver +Hq Hz. unfold m'.
    by rewrite lookup_upd_prev_ne, !lookup_upd_next_ne, lookup_upd_prev_ne.
Qed.

Lemma list_splice_dlist m h xs lst ys :
  dlist m h xs -> dlist m lst ys -> (forall q, q ∈ lst :: ys -> q ∉ h :: xs) ->
  exists m', list_splice lst h m = Some (tt, m') /\ dlist m' h (ys ++ xs) /\
    m' !! lst = m !! lst /\ same_outside (h :: ys ++ xs) m m'.
Proof.
  intros Hd Hdl Hdisj. unfold list_splice.
  erewrite bind_run by (by apply list_empty_dlist).
  destruct ys as [|y ys]; [by exists m|]. rewrite bool_decide_false by done.
  destruct (cons_view xs h) as (n & B & Hr).
  assert (cut h [] xs [] h n B) as Hcut by done.
  destruct (proj1 (cut_chain m _ _ _ _ _ _ _ Hcut) (proj2 Hd)) as (_ & [? _] & _).
  erewrite bind_run by (by apply get_next_run).
  exact (__list_splice_dlist m h [] xs [] h n B lst y ys Hcut Hd Hdl Hdisj).
Qed.

Lemma list_splice_tail_dlist m h xs lst ys :
  dlist m h xs -> dlist m lst ys -> (forall q, q ∈ lst :: ys -> q ∉ h :: xs) ->
  exists m', list_splice_tail lst h m = Some (tt, m') /\ dlist m' h (xs ++ ys) /\
    m' !! lst = m !! lst /\ same_outside (h :: xs ++ ys) m m'.
Proof.
  intros Hd Hdl Hdisj. unfold list_splice_tail.
  erewrite bind_run by (by apply list_empty_dlist).
  destruct ys as [|y ys]; [rewrite app_nil_r; by exists m|].
  rewrite bool_decide_false by done.
  destruct (snoc_view h xs) as (A & p & Hl).
  assert (cut h xs [] A p h []) as Hcut by done.
  rewrite <-(app_nil_r xs) in Hd, Hdisj.
  destruct (proj1 (cut_chain m _ _ _ _ _ _ _ Hcut) (proj2 Hd)) as (_ & [_ ?] & _).
  erewrite bind_run by (by apply get_prev_run).
  pose proof (__list_splice_dlist m h xs [] A p h [] lst y ys Hcut Hd Hdl Hdisj) as Hsp.
  by rewrite app_nil_r in Hsp.
Qed.

(** The [_init] variants also leave the emptied list head as an empty list. *)
Lemma splice_init m lst ys h zs m1 :
  dlist m lst ys -> m1 !! lst = m !! lst -> dlist m1 h zs ->
  lst ∉ h :: zs -> same_outside (h :: zs) m m1 ->
  exists m', INIT_LIST_HEAD lst m1 = Some (tt, m') /\ dlist m' h zs /\ dlist m' lst [] /\
    same_outside (lst :: h :: zs) m m'.
Proof.
  intros Hdl Hl Hd Hni Hs.
  destruct (INIT_LIST_HEAD_dlist m1 lst) as (m' & Hr & Hd' & Hs').
  { unfold allocated. rewrite Hl. apply (dlist_allocated m lst ys); [done|set_solver]. }
  exists m'. split_and!; [done| |done|].
  - eapply dlist_frame; [done| |done]. intros q Hq. set_solver +Hni Hq.
  - eapply same_outside_mono; [|by eapply same_outside_trans]. set_solver +.
Qed.

Lemma list_splice_init_dlist m h xs lst ys :
  dlist m h xs -> dlist m lst ys -> (forall q, q ∈ lst :: ys -> q ∉ h :: xs) ->
  exists m', list_splice_init lst h m = Some (tt, m') /\ dlist m' h (ys ++ xs) /\
    dlist m' lst [] /\ same_outside (lst :: h :: ys ++ xs) m m'.
Proof.
  intros Hd Hdl Hdisj. pose proof (list_splice_dlist m h xs lst ys Hd Hdl Hdisj) as Hs.
  unfold list_splice, list_splice_init in *.
  erewrite bind_run by (by apply list_empty_dlist).
  erewrite bind_run in Hs by (by apply list_empty_dlist).
  destruct Hs as (m1 & Hr & Hd1 & Hl & Hs).
  destruct ys as [|y ys].
  { cbn in Hr. injection Hr as <-. exists m. by split_and!. }
  rewrite bool_decide_false in * by done.
  destruct (splice_init m lst (y :: ys) h ((y :: ys) ++ xs) m1) as (m' & ?&?&?&?); [done..| |done|].
  { pose proof (Hdisj lst). destruct Hdl as [Hnd _].
    apply NoDup_cons in Hnd as [Hnd _]. set_solver. }
  exists m'. split_and!; [|done..].
  unfold mbind, M_bind in *. destruct (get_next h m) as [[n m0]|]; [|done].
  by rewrite Hr.
Qed.

(** [list_splice_tail_init lst h] appends the entries of one list to a
    disjoint one in their order and leaves [lst] an empty list; no address
    outside of the two lists changes. *)
Theorem list_splice_tail_init_dlist m h xs lst ys :
  dlist m h xs -> dlist m lst ys -> (forall q, q ∈ lst :: ys -> q ∉ h :: xs) ->
  exists m', list_splice_tail_init lst h m = Some (tt, m') /\ dlist m' h (xs ++ ys) /\
    dlist m' lst [] /\ same_outside (lst :: h :: xs ++ ys) m m'.
Proof.
  intros Hd Hdl Hdisj. pose proof (list_splice_tail_dlist m h xs lst ys Hd Hdl Hdisj) as Hs.
  unfold list_splice_tail, list_splice_tail_init in *.
  erewrite bind_run by (by apply list_empty_dlist).
  erewrite bind_run in Hs by (by apply list_empty_dlist).
  destruct Hs as (m1 & Hr & Hd1 & Hl & Hs).
  destruct ys as [|y ys].
  { cbn in Hr. injection Hr as <-. exists m. by split_and!. }
  rewrite bool_decide_false in * by done.
  destruct (splice_init m lst (y :: ys) h (xs ++ y :: ys) m1) as (m' & ?&?&?&?); [done..| |done|].
  { pose proof (Hdisj lst). destruct Hdl as [Hnd _].
    apply NoDup_cons in Hnd as [Hnd _]. set_solver. }
  exists m'. split_and!; [|done..].
  unfold mbind, M_bind in *. destruct (get_prev h m) as [[n m0]|]; [|done].
  by rewrite Hr.
Qed.

Lemma __list_cut_position_dlist m h l1 e l2 lst :
  dlist m h (l1 ++ e :: l2) -> allocated m lst -> lst ∉ h :: l1 ++ e :: l2 ->
  exists m', __list_cut_position lst h e m = Some (tt, m') /\
    dlist m' lst (l1 ++ [e]) /\ dlist m' h l2 /\
    same_outside (lst :: h :: l1 ++ e :: l2) m m'.
Proof.
  intros [Hnd Hc] Ha Hlst.
  destruct (cons_view l1 e) as (f & F & Hf), (cons_view l2 h) as (n & B & Hn).
  assert (h :: (l1 ++ e :: l2) ++ [h] = h :: l1 ++ e :: n :: B) as Heq.
  { rewrite <-Hn. by simplify_list_eq. }
  rewrite Heq, app_comm_cons, chain_app in Hc. destruct Hc as [Hc1 [[Hen Hne] Hc2]].
  rewrite <-app_comm_cons, Hf in Hc1. destruct Hc1 as [[Hhf Hfh] Hc1].
  rewrite <-Hf in Hc1. rewrite <-Hn in Hc2.
  assert (NoDup (l1 ++ [e]) /\ NoDup l2 /\ (forall q, q ∈ l1 ++ [e] -> q ∉ l2) /\ (h ∉ l1 ++ [e]) /\ h ∉ l2)
    as (Hnd1 & Hnd2 & Hd12 & Hh1 & Hh2).
  { rewrite cons_middle, app_assoc in Hnd. apply NoDup_cons in Hnd as [Hh Hnd].
    apply NoDup_app in Hnd as (?&?&?). set_solver. }
  assert (NoDup (l2 ++ [h])) as Hnd3.
  { apply NoDup_app. split_and!; [done|set_solver +Hh2|apply NoDup_singleton]. }
  assert (f ∈ l1 ++ [e]) as Hfm by (rewrite Hf; set_solver +).
  assert (e ∈ l1 ++ [e]) as Hem by set_solver +.
  assert (n ∈ l2 ++ [h]) as Hnm by (rewrite Hn; set_solver +).
  assert (forall q, q ∈ l1 ++ [e] -> q ∉ l2 ++ [h]) as Hd by set_solver +Hd12 Hh1.
  assert (forall q, q ∈ l1 ++ [e] -> q <> n /\ q <> lst /\ q <> h) as Hq1.
  { intros q Hq. pose proof (Hd q Hq). set_solver +H Hq Hnm Hlst. }
  assert (forall q, q ∈ l2 ++ [h] -> q <> f /\ q <> lst /\ q <> e) as Hq2.
  { intros q Hq. split_and!; [intros ->; by apply (Hd f)| |intros ->; by apply (Hd e)].
    set_solver +Hq Hlst. }
  destruct (Hq1 f Hfm) as (?&?&?), (Hq1 e Hem) as (?&?&?), (Hq2 n Hnm) as (?&?&?).
  assert (lst <> h) by set_solver +Hlst.
  set (m' := upd_prev n h (upd_next h n (upd_next e lst (upd_prev lst e
               (upd_prev f lst (upd_next lst f m)))))).
  exists m'. split_and!.
  - unfold __list_cut_position. erewrite bind_run by (by apply get_next_run).
    erewrite bind_run by (by apply get_next_run).
    erewrite bind_run by (apply set_next_run; lh_field).
    erewrite bind_run by (apply get_next_run; lh_field).
    erewrite bind_run by (apply set_prev_run; lh_field).
    erewrite bind_run by (apply set_prev_run; lh_field).
    erewrite bind_run by (apply set_next_run; lh_field).
    erewrite bind_run by (apply set_next_run; lh_field).
    apply set_prev_run. lh_field.
  - split; [constructor; [set_solver +Hlst|done]|].
    assert (chain m' (l1 ++ [e])) as Hc1'.
    { eapply chain_frame; [done|..]; intros q Hq; unfold m'.
      - rewrite removelast_snoc in Hq. destruct (Hq1 q) as (?&?&?); [set_solver +Hq|].
        apply NoDup_app in Hnd1 as (_ & Hnd1 & _).
        assert (q <> e) by (intros ->; eapply Hnd1; [done|set_solver +]). lh_field.
      - rewrite Hf in Hq, Hnd1. cbn [tail] in Hq. apply NoDup_cons in Hnd1 as [Hfn _].
        destruct (Hq1 q) as (?&?&?); [rewrite Hf; set_solver +Hq|].
        assert (q <> f) by set_solver +Hq Hfn. lh_field. }
    assert (lst :: (l1 ++ [e]) ++ [lst] = (lst :: l1) ++ e :: [lst]) as -> by (by simplify_list_eq).
    rewrite chain_app. split.
    + rewrite <-app_comm_cons. rewrite Hf in Hc1' |- *. split; [split; unfold m'; lh_field|done].
    + split; [split; unfold m'; lh_field|done].
  - split; [by constructor|]. rewrite Hn. split; [split; unfold m'; lh_field|]. rewrite <-Hn.
    eapply chain_frame; [done|..]; intros q Hq; unfold m'.
    + rewrite removelast_snoc in Hq. destruct (Hq2 q) as (?&?&?); [set_solver +Hq|].
      assert (q <> h) by set_solver +Hq Hh2. lh_field.
    + rewrite Hn in Hq, Hnd3. cbn [tail] in Hq. apply NoDup_cons in Hnd3 as [Hnn _].
      destruct (Hq2 q) as (?&?&?); [rewrite Hn; set_solver +Hq|].
      assert (q <> n) by set_solver +Hq Hnn. lh_field.
  - intros q Hq. assert (q <> n) by set_solver +Hq Hnm. assert (q <> f) by set_solver +Hq Hfm.
    assert (q <> e) by set_solver +Hq. assert (q <> h) by set_solver +Hq.
    assert (q <> lst) by set_solver +Hq. unfold m'.
    by rewrite lookup_upd_prev_ne, !lookup_upd_next_ne, !lookup_upd_prev_ne, lookup_upd_next_ne.
Qed.

(** [list_cut_position lst h e] moves the entries of the list [h] up to and
    including [e] to the list [lst], in their order, and leaves the rest in [h];
    no other address changes. *)
Theorem list_cut_position_dlist m h l1 e l2 lst :
  dlist m h (l1 ++ e :: l2) -> allocated m lst -> lst ∉ h :: l1 ++ e :: l2 ->
  exists m', list_cut_position lst h e m = Some (tt, m') /\
    dlist m' lst (l1 ++ [e]) /\ dlist m' h l2 /\
    same_outside (lst :: h :: l1 ++ e :: l2) m m'.
Proof.
  intros Hd Ha Hlst. unfold list_cut_position.
  erewrite bind_run by (by apply list_empty_dlist).
  rewrite bool_decide_false by (by destruct l1).
  erewrite bind_run by (by apply list_is_singular_dlist).
  destruct (dlist_head _ _ _ Hd) as (f & t & Hf & _ & Hx).
  erewrite bind_run by (by apply get_next_run).
  assert (e <> h) as Heh.
  { destruct Hd as [Hnd _]. apply NoDup_cons in Hnd as [Hnd _]. set_solver +Hnd. }
  case_bool_decide as Hlen; cbn [andb].
  - destruct l1 as [|a l1]; [|rewrite length_app in Hlen; cbn in Hlen; lia].
    cbn in Hx. destruct Hx as [-> _]. rewrite Z.eqb_refl. cbn [negb andb].
    rewrite (proj2 (Z.eqb_neq e h)) by done. by apply __list_cut_position_dlist.
  - rewrite (proj2 (Z.eqb_neq e h)) by done. by apply __list_cut_position_dlist.
Qed.

(** [list_replace old new]: [new] takes the place of [old]. *)
Lemma list_replace_dlist m h l1 old l2 new :
  dlist m h (l1 ++ old :: l2) -> allocated m new -> new ∉ h :: l1 ++ old :: l2 ->
  exists m', list_replace old new m = Some (tt, m') /\
    dlist m' h (l1 ++ new :: l2) /\ m' !! old = m !! old /\
    same_outside (new :: h :: l1 ++ l2) m m'.
Proof.
  intros Hd Ha Hnew. pose proof Hd as [Hnd Hc].
  destruct (cut_exists h l1 l2) as (A & p & n & B & Hcut).
  assert (NoDup (h :: l1 ++ l2) /\ (old ∉ h :: l1 ++ l2)) as [Hnd' Hold].
  { rewrite app_comm_cons, <-Permutation_middle in Hnd. by apply NoDup_cons in Hnd as [? ?]. }
  pose proof (cut_mem _ _ _ _ _ _ _ Hcut Hnd') as (Hp & Hn & HpA & Hp2 & Hn1 & HnB & HA & HB).
  apply (cut_chain_mid _ _ _ _ _ _ _ _ _ Hcut) in Hc as (Hc1 & [??] & [??] & Hc2).
  assert (new <> p) by set_solver +Hnew Hp. assert (new <> n) by set_solver +Hnew Hn.
  assert (new <> old) by set_solver +Hnew.
  assert (old <> p) by set_solver +Hold Hp. assert (old <> n) by set_solver +Hold Hn.
  assert (forall q, q ∈ h :: l1 ++ l2 -> q <> new) as Hqn by (intros q Hq; set_solver +Hq Hnew).
  set (m' := upd_next p new (upd_prev new p (upd_prev n new (upd_next new n m)))).
  exists m'. split_and!.
  - unfold list_replace. erewrite bind_run by (by apply get_next_run).
    erewrite bind_run by (apply set_next_run; lh_field).
    erewrite bind_run by (apply get_next_run; lh_field).
    erewrite bind_run by (apply set_prev_run; lh_field).
    erewrite bind_run by (apply get_prev_run; lh_field).
    erewrite bind_run by (apply set_prev_run; lh_field).
    erewrite bind_run by (apply get_prev_run; lh_field).
    apply set_next_run. lh_field.
  - split.
    { rewrite app_comm_cons, <-Permutation_middle. constructor; [set_solver +Hnew|done]. }
    rewrite (cut_chain_mid _ _ _ _ _ _ _ _ _ Hcut). split_and!; [|split; unfold m'; lh_field..|].
    + eapply chain_frame_l; [done..| |]; intros q Hq; unfold m'.
      * pose proof (HA q Hq) as HqA. assert (q <> p) by set_solver +Hq HpA.
        assert (q <> new) by (apply Hqn; set_solver +HqA). lh_field.
      * assert (q <> n) by set_solver +Hq Hn1.
        assert (q <> new) by (apply Hqn; set_solver +Hq). lh_field.
    + eapply chain_frame_r; [done..| |]; intros q Hq; unfold m'.
      * assert (q <> p) by set_solver +Hq Hp2.
        assert (q <> new) by (apply Hqn; set_solver +Hq). lh_field.
      * pose proof (HB q Hq) as HqB. assert (q <> n) by set_solver +Hq HnB.
        assert (q <> new) by (apply Hqn; set_solver +HqB). lh_field.
  - unfold m'. by rewrite lookup_upd_next_ne, !lookup_upd_prev_ne, lookup_upd_next_ne.
  - intros q Hq. assert (q <> p) by set_solver +Hq Hp. assert (q <> n) by set_solver +Hq Hn.
    assert (q <> new) by set_solver +Hq. unfold m'.
    by rewrite lookup_upd_next_ne, !lookup_upd_prev_ne, lookup_upd_next_ne.
Qed.

(** A circular list is also the list of its first entry. *)
Lemma dlist_rotate m h x l : dlist m h (x :: l) <-> dlist m x (l ++ [h]).
Proof.
  assert (NoDup (h :: x :: l) <-> NoDup (x :: l ++ [h])) as Hn.
  { change (x :: l ++ [h]) with ((x :: l) ++ [h]). by rewrite (Permutation_app_comm (x :: l) [h]). }
  assert (chain m (h :: (x :: l) ++ [h]) <-> chain m (x :: (l ++ [h]) ++ [x])) as Hc.
  { replace (x :: (l ++ [h]) ++ [x]) with ((x :: l) ++ h :: [x]) by (cbn; by rewrite <-app_assoc).
    rewrite chain_app. cbn. tauto. }
  unfold dlist. by rewrite Hn, Hc.
Qed.

(** [list_replace_init h w] gives the entries of [h] to the head [w]. *)
Lemma list_replace_init_head m h l w : dlist m h l -> allocated m w -> w ∉ h :: l ->
  exists m', list_replace_init h w m = Some (tt, m') /\ dlist m' w l /\ dlist m' h [] /\ same_outside (w :: h :: l) m m'.
Proof.
  intros Hd Ha Hw. assert (exists m1, list_replace h w m = Some (tt, m1) /\ dlist m1 w l /\ same_outside (w :: h :: l) m m1 /\ allocated m1 h) as (m1 & Hrun & Hd1 & Hs1 & Hh).
  { pose proof (dlist_allocated _ _ _ h Hd ltac:(set_solver +)) as Hh. destruct l as [|x l].
    - destruct Hd as [_ [[Hn Hp] _]]. assert (h <> w) by set_solver +Hw.
      exists (upd_next w w (upd_prev w w (upd_prev h w (upd_next w h m)))). split_and!.
      + unfold list_replace. do 7 (erewrite bind_run by (first [apply get_next_run|apply set_next_run|apply get_prev_run|apply set_prev_run]; lh_field)).
        apply set_next_run. lh_field.
      + split; [apply NoDup_singleton|]. cbn. repeat split; lh_field.
      + intros q Hq. assert (q <> h /\ q <> w) as [??] by set_solver +Hq. by rewrite lookup_upd_next_ne, !lookup_upd_prev_ne, lookup_upd_next_ne.
      + by rewrite allocated_upd_next, !allocated_upd_prev, allocated_upd_next.
    - apply dlist_rotate in Hd. destruct (list_replace_dlist m x l h [] w) as (m1 & Hrun & Hd1 & Eh & Hs1); [done|done|set_solver +Hw|].
      exists m1. split; [done|]. split; [by apply dlist_rotate|]. split; [eapply same_outside_mono; [|exact Hs1]; set_solver +|].
      unfold allocated. by rewrite Eh. }
  destruct (INIT_LIST_HEAD_dlist m1 h Hh) as (m2 & Hrun2 & Hd2 & Hs2). exists m2. split; [|split; [|split; [done|]]].
  - unfold list_replace_init. by erewrite bind_run.
  - eapply dlist_frame; [exact Hs2| |done]. intros q Hq Hqh. apply list_elem_of_singleton in Hqh as ->. destruct Hd as [Hnd _].
    apply NoDup_cons in Hnd as [? _]. set_solver +Hq Hw H.
  - eapply same_outside_mono; [|by eapply same_outside_trans]. set_solver +.
Qed.

End theorems.

(** ** Properties *)

(** Moving an entry between two disjoint lists.  [list_move x pos] takes [x]
    out of the list of [h1], wherever it stands there, and puts it right after
    [pos] in the list of [h2] (at the front when [pos] is the head [h2]); every
    other address of memory is untouched. *)
Theorem list_move_between (m : mem) (h1 h2 x pos : Z) (l1 l2 k1 k2 A : list Z)
  (Hfrom : dlist m h1 (l1 ++ x :: l2)) (Hto : dlist m h2 (k1 ++ k2))
  (Hdisj : forall q, q ∈ h2 :: k1 ++ k2 -> q ∉ h1 :: l1 ++ x :: l2)
  (Hpos : h2 :: k1 = A ++ [pos]) :
  exists m', list_move x pos m = Some (tt, m') /\
    dlist m' h1 (l1 ++ l2) /\ dlist m' h2 (k1 ++ x :: k2) /\
    same_outside (x :: h1 :: h2 :: l1 ++ l2 ++ k1 ++ k2) m m'.
Proof.
  destruct (list_move_dlist m h1 l1 l2 x pos Hfrom) as (m1 & Hd1 & Hs1 & Hmv).
  assert (x ∉ h2 :: k1 ++ k2) as Hx2.
  { intros Hx. apply (Hdisj x Hx). set_solver +. }
  assert (x ∉ h1 :: l1 ++ l2) as Hx1.
  { destruct Hfrom as [Hnd _]. rewrite app_comm_cons, <-Permutation_middle in Hnd.
    by apply NoDup_cons in Hnd as [? _]. }
  destruct (Hmv h2 k1 k2 A) as (m' & Hr & Hd2 & Hs2); [|done..|].
  { eapply dlist_frame; [done| |done]. intros q Hq Hq'. apply (Hdisj q Hq). set_solver +Hq'. }
  exists m'. split_and!; [done| |done|].
  - eapply dlist_frame; [exact Hs2| |done]. intros q Hq Hq'.
    apply elem_of_cons in Hq' as [->|Hq']; [done|].
    apply (Hdisj q Hq'). set_solver +Hq.
  - eapply same_outside_mono; [|by eapply same_outside_trans]. set_solver +.
Qed.

(** Concrete memory: heads at 100 and 200, entries 1, 2, 3 and 4, 5. *)
Definition demo_mem : mem := list_to_map
  [(100, ListHead 1 3); (1, ListHead 2 100); (2, ListHead 3 1); (3, ListHead 100 2);
   (200, ListHead 4 5); (4, ListHead 5 200); (5, ListHead 200 4); (300, ListHead 0 0)].

Lemma list_move_between_witness :
  exists m', list_move 2 4 demo_mem = Some (tt, m') /\
    dlist m' 100 [1; 3] /\ dlist m' 200 [4; 2; 5] /\
    same_outside [2; 100; 200; 1; 3; 4; 5] demo_mem m'.
Proof.
  apply (list_move_between demo_mem 100 200 2 4 [1] [3] [4] [5] [200]).
  - split; [apply (bool_decide_unpack _); vm_compute; exact I|].
    vm_compute. repeat split.
  - split; [apply (bool_decide_unpack _); vm_compute; exact I|].
    vm_compute. repeat split.
  - intros q Hq Hq'. set_solver +Hq Hq'.
  - reflexivity.
Defined.

Lemma list_cut_position_witness :
  exists m', list_cut_position 300 100 2 demo_mem = Some (tt, m') /\
    dlist m' 300 [1; 2] /\ dlist m' 100 [3] /\
    same_outside [300; 100; 1; 2; 3] demo_mem m'.
Proof.
  apply (list_cut_position_dlist demo_mem 100 [1] 2 [3] 300).
  - split; [apply (bool_decide_unpack _); vm_compute; exact I|].
    vm_compute. repeat split.
  - vm_compute. eauto.
  - set_solver +.
Defined.

Lemma list_splice_tail_init_witness :
  exists m', list_splice_tail_init 200 100 demo_mem = Some (tt, m') /\
    dlist m' 100 [1; 2; 3; 4; 5] /\ dlist m' 200 [] /\
    same_outside [200; 100; 1; 2; 3; 4; 5] demo_mem m'.
Proof.
  apply (list_splice_tail_init_dlist demo_mem 100 [1; 2; 3] 200 [4; 5]).
  - split; [apply (bool_decide_unpack _); vm_compute; exact I|].
    vm_compute. repeat split.
  - split; [apply (bool_decide_unpack _); vm_compute; exact I|].
    vm_compute. repeat split.
  - intros q Hq Hq'. set_solver +Hq Hq'.
Defined.
