(* ===== verification/ListHeap.v ===== *)
(** * Several lists in one memory

    The block layer keeps requests on one list at a time: a scheduler's fifo or
    the dispatch queue.  [lrep m L] describes a whole memory of list nodes as a
    finite map [L] from list heads to the sequences of their entries; a node
    that is on no list is the head of its own empty list, which is what
    [list_del_init] leaves.  The lemmas give the effect on [L] of the operations
    of ListHead.v that the block layer uses. *)
From stdpp Require Import prelude gmap list.
From Stdlib Require Import ZArith Lia.
From S2P Require Import Prelude ListHead.
Open Scope Z_scope.

Abbreviation heads := (gmap Z (list Z)).

(** [q] is a node of the list of [h], as its head or as an entry. *)
Definition own (L : heads) (q h : Z) : Prop := exists l, L !! h = Some l /\ q ∈ h :: l.

Record lrep (m : mem) (L : heads) : Prop := {
  lr_dlist : forall h l, L !! h = Some l -> dlist m h l;
  lr_disj : forall q h1 h2, own L q h1 -> own L q h2 -> h1 = h2;
}.

Section heap.
Implicit Types (m : mem) (L : heads) (h x q : Z) (l : list Z).

Lemma own_head L h l : L !! h = Some l -> own L h h.
Proof. intros E. exists l. split; [done|set_solver +]. Qed.
Lemma own_entry L h l q : L !! h = Some l -> q ∈ l -> own L q h.
Proof. intros E Hq. exists l. split; [done|set_solver +Hq]. Qed.

Lemma lrep_nodup m L h l : lrep m L -> L !! h = Some l -> NoDup (h :: l).
Proof. intros [Hd _] E. by destruct (Hd h l E). Qed.

Lemma lrep_entry_ne m L h l x l' : lrep m L -> L !! h = Some l -> x ∈ l -> L !! x = Some l' -> False.
Proof.
  intros Hr E Hx E'. pose proof (lr_disj _ _ Hr x h x (own_entry _ _ _ _ E Hx) (own_head _ _ _ E')) as ->.
  pose proof (lrep_nodup _ _ _ _ Hr E) as Hn. by apply NoDup_cons in Hn as [? _].
Qed.

(** An entry of a list is not the head of a list. *)
Lemma lrep_entry_head m L h l1 x l2 h' l' : lrep m L -> L !! h = Some (l1 ++ x :: l2) ->
  L !! h' = Some l' -> x <> h'.
Proof.
  intros Hr E E' ->. eapply (lrep_entry_ne _ _ _ _ h' _ Hr E); [set_solver +|done].
Qed.

(** The lists that keep away from the addresses [S] survive a change of [S]. *)
Lemma lrep_change m m' L L' S :
  lrep m L -> same_outside S m m' ->
  (forall h l, L' !! h = Some l ->
     dlist m' h l \/ (L !! h = Some l /\ forall q, q ∈ h :: l -> q ∉ S)) ->
  (forall q h1 h2, own L' q h1 -> own L' q h2 -> h1 = h2) -> lrep m' L'.
Proof.
  intros [Hd _] Hs HL Hdis. split; [|done]. intros h l E.
  destruct (HL h l E) as [?|[E' Hq]]; [done|]. eapply dlist_frame; [done|done|by apply Hd].
Qed.

Lemma lrep_insert m m' L h l1 l2 x :
  lrep m L -> L !! h = Some (l1 ++ l2) -> (forall h', ~ own L x h') ->
  dlist m' h (l1 ++ x :: l2) -> same_outside (x :: h :: l1 ++ l2) m m' ->
  lrep m' (<[h := l1 ++ x :: l2]> L).
Proof.
  intros Hr E Hx Hd Hs.
  assert (forall q h', own (<[h := l1 ++ x :: l2]> L) q h' -> (q = x /\ h' = h) \/ own L q h') as Ho.
  { intros q h' (l & El & Hq). apply lookup_insert_Some in El as [[-> <-]|[Hne El]].
    - destruct (decide (q = x)); [by left|right; exists (l1 ++ l2)]. split; [done|set_solver].
    - right. by exists l. }
  eapply lrep_change; [done|exact Hs|..].
  - intros h' l El. apply lookup_insert_Some in El as [[-> <-]|[Hne El]]; [by left|right].
    split; [done|]. intros q Hq. assert (own L q h') as Hq' by (by exists l).
    rewrite elem_of_cons. intros [->|Hql]; [by apply (Hx h')|].
    apply Hne. eapply (lr_disj _ _ Hr); [|done]. by exists (l1 ++ l2).
  - intros q h1 h2 H1 H2. destruct (Ho _ _ H1) as [[-> ->]|O1], (Ho _ _ H2) as [[? ->]|O2]; try done.
    + by destruct (Hx h2). + subst. by destruct (Hx h1). + by eapply (lr_disj _ _ Hr).
Qed.

Lemma own_delete L x q h : own (delete x L) q h -> own L q h /\ h <> x.
Proof.
  intros (l & El & Hq). apply lookup_delete_Some in El as [Hne El].
  split; [by exists l|by apply not_eq_sym].
Qed.

Lemma lrep_delete m L x : lrep m L -> lrep m (delete x L).
Proof.
  intros [Hd Hdis]. split.
  - intros h l El. apply lookup_delete_Some in El as [_ El]. by apply Hd.
  - intros q h1 h2 [H1 _]%own_delete [H2 _]%own_delete. by eapply Hdis.
Qed.

Lemma idle_unowned m L x : lrep m L -> L !! x = Some [] -> forall h', ~ own (delete x L) x h'.
Proof.
  intros Hr E h' [Ho Hne]%own_delete. apply Hne.
  eapply (lr_disj _ _ Hr); [done|]. by eapply own_head.
Qed.

(** Taking [x] out of the list of [h]. *)
Lemma lrep_unlink m m' L h l1 l2 x :
  lrep m L -> L !! h = Some (l1 ++ x :: l2) -> dlist m' h (l1 ++ l2) ->
  same_outside (h :: l1 ++ x :: l2) m m' ->
  lrep m' (<[h := l1 ++ l2]> L) /\ forall h', ~ own (<[h := l1 ++ l2]> L) x h'.
Proof.
  intros Hr E Hd Hs.
  pose proof (lrep_nodup _ _ _ _ Hr E) as Hn. rewrite app_comm_cons, <-Permutation_middle in Hn.
  apply NoDup_cons in Hn as [Hx _].
  assert (own L x h) as Hxh by (exists (l1 ++ x :: l2); set_solver +E).
  assert (forall q h', own (<[h := l1 ++ l2]> L) q h' -> q <> x /\ own L q h') as Ho.
  { intros q h' (l & El & Hq). apply lookup_insert_Some in El as [[-> <-]|[Hne El]].
    - split; [set_solver +Hq Hx|]. exists (l1 ++ x :: l2). set_solver +E Hq.
    - assert (own L q h') as Hq' by (by exists l). split; [|done]. intros ->.
      apply Hne. by eapply (lr_disj _ _ Hr). }
  split; [|intros h' [? _]%Ho; done].
  eapply lrep_change; [done|exact Hs|..].
  - intros h' l El. apply lookup_insert_Some in El as [[-> <-]|[Hne El]]; [by left|right].
    split; [done|]. intros q Hq Hql. apply Hne.
    eapply (lr_disj _ _ Hr); [by exists (l1 ++ x :: l2)|by exists l].
  - intros q h1 h2 [_ H1]%Ho [_ H2]%Ho. by eapply (lr_disj _ _ Hr).
Qed.

Lemma lrep_fresh m m' L x :
  lrep m L -> (forall h', ~ own L x h') -> dlist m' x [] -> same_outside [x] m m' ->
  lrep m' (<[x := []]> L).
Proof.
  intros Hr Hx Hd Hs.
  assert (forall q h', own (<[x := []]> L) q h' -> (q = x /\ h' = x) \/ own L q h') as Ho.
  { intros q h' (l & El & Hq). apply lookup_insert_Some in El as [[-> <-]|[Hne El]].
    - left. set_solver +Hq. - right. by exists l. }
  eapply lrep_change; [done|exact Hs|..].
  - intros h' l El. apply lookup_insert_Some in El as [[-> <-]|[Hne El]]; [by left|right].
    split; [done|]. intros q Hq Hqx. apply list_elem_of_singleton in Hqx as ->.
    apply (Hx h'). by exists l.
  - intros q h1 h2 H1 H2. destruct (Ho _ _ H1) as [[-> ->]|O1], (Ho _ _ H2) as [[? ->]|O2]; try done.
    + by destruct (Hx h2). + subst. by destruct (Hx h1). + by eapply (lr_disj _ _ Hr).
Qed.

(** The last node of the list [h :: l] seen as a ring: the head when [l] is empty. *)
Definition lastd (h : Z) l : Z := default h (last l).

Lemma lastd_view h l : exists A, h :: l = A ++ [lastd h l].
Proof.
  unfold lastd. destruct (decide (l = [])) as [->|Hne]; [by exists []|].
  destruct (exists_last Hne) as (l' & x & ->). exists (h :: l'). by rewrite last_snoc.
Qed.
Lemma lastd_snoc h l x : lastd h (l ++ [x]) = x.
Proof. unfold lastd. by rewrite last_snoc. Qed.

(** ** The operations *)
Lemma heap_get_prev m L h l1 x l2 : lrep m L -> L !! h = Some (l1 ++ x :: l2) ->
  get_prev x m = Some (lastd h l1, m).
Proof.
  intros Hr E. destruct (lastd_view h l1) as [A HA], (cons_view l2 h) as (n & B & HB).
  pose proof (lr_dlist _ _ Hr _ _ E) as [_ Hc].
  apply (cut_chain_mid _ _ _ _ _ A (lastd h l1) n B) in Hc as (_ & [_ Hp] & _); [|done].
  by apply get_prev_run.
Qed.

Lemma heap_get_prev_head m L h l : lrep m L -> L !! h = Some l -> get_prev h m = Some (lastd h l, m).
Proof.
  intros Hr E. destruct (lastd_view h l) as [A HA].
  pose proof (lr_dlist _ _ Hr _ _ E) as [_ Hc]. rewrite <-(app_nil_r l) in Hc.
  apply (cut_chain _ _ _ _ A (lastd h l) h []) in Hc as (_ & [_ Hp] & _); [|done].
  by apply get_prev_run.
Qed.

Lemma heap_length m L h l : lrep m L -> L !! h = Some l -> (length l <= size m)%nat.
Proof.
  intros Hr E. pose proof (lrep_nodup _ _ _ _ Hr E) as Hn. apply NoDup_cons in Hn as [_ Hn].
  rewrite <-(size_dom m), <-(size_list_to_set (C:=gset Z)) by done. apply subseteq_size.
  intros q Hq%elem_of_list_to_set. apply elem_of_dom.
  eapply dlist_allocated; [by apply (lr_dlist _ _ Hr)|set_solver +Hq].
Qed.

Lemma heap_list_empty m L h l : lrep m L -> L !! h = Some l ->
  list_empty h m = Some (bool_decide (l = []), m).
Proof. intros [Hd _] E. by apply list_empty_dlist, Hd. Qed.

(** An entry of a list is not the head of an empty one. *)
Lemma heap_list_empty_entry m L h l1 x l2 : lrep m L -> L !! h = Some (l1 ++ x :: l2) ->
  list_empty x m = Some (false, m).
Proof.
  intros Hr E. pose proof (lr_dlist _ _ Hr _ _ E) as [Hn Hc].
  destruct (cut_exists h l1 l2) as (A & p & n & B & Hcut).
  apply (cut_chain_mid _ _ _ _ _ _ _ _ _ Hcut) in Hc as (_ & _ & [Hxn _] & _).
  unfold list_empty. erewrite bind_run by (by apply get_next_run).
  unfold mret, M_ret. do 2 f_equal. apply Z.eqb_neq. intros Hnx.
  rewrite app_comm_cons, <-Permutation_middle in Hn. apply NoDup_cons in Hn as [Hx Hn].
  destruct (cut_mem _ _ _ _ _ _ _ Hcut Hn) as (_ & Hx' & _). rewrite Hnx in Hx'. set_solver +Hx Hx'.
Qed.

Lemma heap_get_next m L h l : lrep m L -> L !! h = Some l ->
  get_next h m = Some (match l with [] => h | x :: _ => x end, m).
Proof.
  intros Hr E. destruct (dlist_head _ _ _ (lr_dlist _ _ Hr _ _ E)) as (f & t & Hf & _ & Hx).
  rewrite (get_next_run _ _ _ Hf). by destruct l; destruct Hx as [-> _].
Qed.

Lemma heap_add_tail m L h l x : lrep m L -> L !! h = Some l -> L !! x = Some [] -> x <> h ->
  exists m', list_add_tail x h m = Some (tt, m') /\ lrep m' (<[h := l ++ [x]]> (delete x L)).
Proof.
  intros Hr E Ex Hne. pose proof (lr_dlist _ _ Hr _ _ E) as Hd.
  destruct (list_add_tail_dlist m h l [] h [] x) as (m' & Hrun & Hd' & Hs).
  - by rewrite app_nil_r.
  - done.
  - rewrite app_nil_r. intros Hx. apply Hne.
    by eapply (lr_disj _ _ Hr); [eapply own_head|exists l].
  - eapply dlist_allocated; [by apply (lr_dlist _ _ Hr x [])|set_solver +].
  - exists m'. split; [done|]. rewrite app_nil_r in Hs.
    eapply (lrep_insert m m' (delete x L) h l []); [by apply lrep_delete| | |done|by rewrite app_nil_r].
    + by rewrite lookup_delete_ne, app_nil_r.
    + by eapply idle_unowned.
Qed.

Lemma heap_add m L h l1 l2 x pos A : lrep m L -> L !! h = Some (l1 ++ l2) -> L !! x = Some [] -> x <> h ->
  h :: l1 = A ++ [pos] ->
  exists m', list_add x pos m = Some (tt, m') /\ lrep m' (<[h := l1 ++ x :: l2]> (delete x L)).
Proof.
  intros Hr E Ex Hne HA. pose proof (lr_dlist _ _ Hr _ _ E) as Hd.
  destruct (list_add_dlist m h l1 l2 pos A x) as (m' & Hrun & Hd' & Hs); [done..| | |].
  - intros Hx. apply Hne. by eapply (lr_disj _ _ Hr); [eapply own_head|exists (l1 ++ l2)].
  - eapply dlist_allocated; [by apply (lr_dlist _ _ Hr x [])|set_solver +].
  - exists m'. split; [done|].
    eapply (lrep_insert m m' (delete x L) h l1 l2); [by apply lrep_delete| | |done|done].
    + by rewrite lookup_delete_ne.
    + by eapply idle_unowned.
Qed.

Lemma heap_del_init m L h l1 l2 x : lrep m L -> L !! h = Some (l1 ++ x :: l2) ->
  exists m', list_del_init x m = Some (tt, m') /\ lrep m' (<[x := []]> (<[h := l1 ++ l2]> L)).
Proof.
  intros Hr E. destruct (list_del_init_dlist m h l1 l2 x (lr_dlist _ _ Hr _ _ E)) as (m' & Hrun & Hd & Hdx & Hs).
  exists m'. split; [done|]. destruct (lrep_unlink m m' L h l1 l2 x Hr E Hd Hs) as [Hr' Hx].
  by eapply lrep_fresh.
Qed.

(** [list_del_init] of a node that is on no list changes nothing. *)
Lemma heap_del_init_idle m L x : lrep m L -> L !! x = Some [] ->
  exists m', list_del_init x m = Some (tt, m') /\ lrep m' L.
Proof.
  intros Hr E. pose proof (lr_dlist _ _ Hr _ _ E) as [_ [[Hn Hp] _]].
  destruct (INIT_LIST_HEAD_dlist (upd_next x x (upd_prev x x m)) x) as (m' & Hi & Hd & Hs).
  { lh_field. }
  exists m'. split.
  - unfold list_del_init. erewrite bind_run by (by apply get_prev_run).
    erewrite bind_run by (by apply get_next_run). unfold __list_del.
    erewrite bind_run; [exact Hi|].
    erewrite bind_run by (apply set_prev_run; eauto with kernel).
    apply set_next_run. lh_field.
  - rewrite <-(insert_id L x []) by done.
    rewrite <-(insert_delete_eq L). eapply lrep_fresh; [by apply lrep_delete|by eapply idle_unowned|done|].
    intros q Hq. rewrite Hs by done.
    rewrite lookup_upd_next_ne, lookup_upd_prev_ne by set_solver +Hq. done.
Qed.

(** [list_move x pos] with [pos] in the list of [h2], which may be the list
    [x] is taken from. *)
Lemma heap_move m L h1 l1 l2 h2 k1 k2 A x pos : lrep m L -> L !! h1 = Some (l1 ++ x :: l2) ->
  <[h1 := l1 ++ l2]> L !! h2 = Some (k1 ++ k2) -> h2 :: k1 = A ++ [pos] ->
  exists m', list_move x pos m = Some (tt, m') /\
    lrep m' (<[h2 := k1 ++ x :: k2]> (<[h1 := l1 ++ l2]> L)).
Proof.
  intros Hr E E2 HA.
  destruct (list_move_dlist m h1 l1 l2 x pos (lr_dlist _ _ Hr _ _ E)) as (m1 & Hd1 & Hs1 & Hmv).
  destruct (lrep_unlink m m1 L h1 l1 l2 x Hr E Hd1) as [Hr1 Hx].
  { eapply same_outside_mono; [|done]. set_solver +. }
  destruct (Hmv h2 k1 k2 A (lr_dlist _ _ Hr1 _ _ E2) HA) as (m' & Hrun & Hd' & Hs').
  { intros Hq. apply (Hx h2). by exists (k1 ++ k2). }
  exists m'. split; [done|]. by eapply lrep_insert.
Qed.

(** A node that is linked to itself can be taken as the head of an empty list. *)
Lemma heap_idle m L x : lrep m L -> dlist m x [] -> lrep m (<[x := []]> L).
Proof.
  intros Hr Hd. assert (nxt m x = Some x) as Hx by apply Hd.
  assert (forall h, own L x h -> h = x /\ L !! x = Some []) as Ho.
  { intros h (l & E & Hin). apply elem_of_cons in Hin as [->|Hin].
    - split; [done|]. destruct l as [|y l]; [done|exfalso].
      pose proof (lr_dlist _ _ Hr _ _ E) as [Hn [[Hy _] _]]. apply NoDup_cons in Hn as [Hn _].
      rewrite Hx in Hy. simplify_eq. set_solver +Hn.
    - exfalso. apply list_elem_of_split in Hin as (l1 & l2 & ->).
      pose proof (heap_list_empty_entry _ _ _ _ _ _ Hr E) as He. unfold list_empty in He.
      erewrite bind_run in He by (by apply get_next_run). rewrite Z.eqb_refl in He. done. }
  destruct (L !! x) as [l|] eqn:E.
  - destruct (Ho x) as [_ [= ->]]; [by eapply own_head|]. by rewrite insert_id.
  - eapply lrep_fresh; [done| |done|done]. intros h Hh. by destruct (Ho h Hh).
Qed.
(** The operations that link and unlink neither allocate nor free. *)
Definition keeps_dom {A} (f : M mem A) : Prop := forall m r, f m = Some r -> dom r.2 = dom m.
Lemma keeps_dom_bind {A B} (f : M mem A) (g : A -> M mem B) : keeps_dom f -> (forall a, keeps_dom (g a)) -> keeps_dom (f ≫= g).
Proof. intros Hf Hg m r (a & m1 & H1 & H2)%bind_inv. rewrite (Hg _ _ _ H2). exact (Hf _ _ H1). Qed.
Lemma keeps_dom_read {A} p (g : list_head -> M mem A) : (forall n, keeps_dom (g n)) -> keeps_dom (n ← load p; g n).
Proof. intros Hg. apply keeps_dom_bind; [|done]. intros m r. unfold load. by destruct (m !! p); [intros [= <-]|]. Qed.
Lemma keeps_dom_write p (f : list_head -> list_head) : keeps_dom (n ← load p; modify (λ m, <[p := f n]> m)).
Proof.
  intros m r (n & m1 & H1 & [= <-])%bind_inv. unfold load in H1. destruct (m !! p) as [n0|] eqn:E; [|done]. injection H1 as <- <-. cbn. rewrite dom_insert_L. apply elem_of_dom_2 in E. set_solver +E.
Qed.
Lemma keeps_dom_add_tail x h : keeps_dom (list_add_tail x h).
Proof.
  apply keeps_dom_bind; [apply keeps_dom_read; intros n m r [= <-]; done|intros q].
  do 3 (apply keeps_dom_bind; [apply keeps_dom_write|intros _]). apply keeps_dom_write.
Qed.
Lemma keeps_dom_del_init x : keeps_dom (list_del_init x).
Proof.
  do 2 (apply keeps_dom_bind; [apply keeps_dom_read; intros n m r [= <-]; done|intros ?]). apply keeps_dom_bind; [|intros _]; (apply keeps_dom_bind; [apply keeps_dom_write|intros _; apply keeps_dom_write]).
Qed.
Lemma keeps_dom_init x : keeps_dom (INIT_LIST_HEAD x).
Proof. apply keeps_dom_bind; [apply keeps_dom_write|intros _; apply keeps_dom_write]. Qed.
Lemma keeps_dom_run {A} (f : M mem A) m a m' : keeps_dom f -> f m = Some (a, m') -> dom m' = dom m.
Proof. intros H. apply H. Qed.

(** ** Nodes that come and go

    A node that is on no list can be allocated, written and freed. *)
Lemma lrep_outside m m' L x : lrep m L -> (forall h, ~ own L x h) -> same_outside [x] m m' -> lrep m' L.
Proof.
  intros Hr Hx Hs. eapply lrep_change; [exact Hr|exact Hs| |apply Hr].
  intros h l E. right. split; [done|]. intros q Hq Hqx. apply list_elem_of_singleton in Hqx as ->.
  apply (Hx h). by exists l.
Qed.

Lemma heap_store m L x v : lrep m L -> (forall h, ~ own L x h) -> lrep (<[x := v]> m) L.
Proof. intros Hr Hx. eapply lrep_outside; [done|exact Hx|]. intros q Hq. apply lookup_insert_ne. set_solver +Hq. Qed.

Lemma heap_free m L x : lrep m L -> (forall h, ~ own L x h) -> lrep (delete x m) L.
Proof. intros Hr Hx. eapply lrep_outside; [done|exact Hx|]. intros q Hq. apply lookup_delete_ne. set_solver +Hq. Qed.

(** An address that is not allocated is on no list. *)
Lemma unowned_free m L x : lrep m L -> m !! x = None -> forall h, ~ own L x h.
Proof.
  intros Hr Hx h (l & E & Hq). destruct (dlist_allocated _ _ _ x (lr_dlist _ _ Hr _ _ E) Hq) as [v Hv].
  by rewrite Hx in Hv.
Qed.

(** A change of the nodes of one list allocates nothing. *)
Lemma heap_none m m' L h l y : lrep m L -> L !! h = Some l -> same_outside (h :: l) m m' -> m !! y = None -> m' !! y = None.
Proof.
  intros Hr E Hs Hy. rewrite Hs; [done|]. intros Hq. apply (unowned_free _ _ _ Hr Hy h). by exists l.
Qed.

(** [list_add_tail x pos] with a node [x] that is on no list. *)
Lemma heap_add_before m L h l1 l2 x pos B : lrep m L -> L !! h = Some (l1 ++ l2) ->
  (forall h', ~ own L x h') -> allocated m x -> l2 ++ [h] = pos :: B ->
  exists m', list_add_tail x pos m = Some (tt, m') /\ lrep m' (<[h := l1 ++ x :: l2]> L) /\
    same_outside (x :: h :: l1 ++ l2) m m'.
Proof.
  intros Hr E Hx Ha HB.
  destruct (list_add_tail_dlist m h l1 l2 pos B x (lr_dlist _ _ Hr _ _ E) HB) as (m' & Hrun & Hd & Hs); [|done|].
  { intros Hq. apply (Hx h). by exists (l1 ++ l2). }
  exists m'. split_and!; [done| |done]. by eapply lrep_insert.
Qed.

Lemma heap_del m L h l1 l2 x : lrep m L -> L !! h = Some (l1 ++ x :: l2) ->
  exists m', list_del x m = Some (tt, m') /\ lrep m' (<[h := l1 ++ l2]> L) /\
    (forall h', ~ own (<[h := l1 ++ l2]> L) x h') /\ same_outside (h :: l1 ++ x :: l2) m m'.
Proof.
  intros Hr E. destruct (list_del_dlist m h l1 l2 x (lr_dlist _ _ Hr _ _ E)) as (m' & Hrun & Hd & _ & Hs).
  exists m'. split; [done|]. destruct (lrep_unlink m m' L h l1 l2 x Hr E Hd Hs). done.
Qed.

(** The same, with the entry taken out of whatever list it is on. *)
Lemma heap_del_any m L h l x : lrep m L -> L !! h = Some l -> x ∈ l ->
  exists m', list_del x m = Some (tt, m') /\ lrep m' (filter (λ y, y <> x) <$> L) /\
    (forall h', ~ own (filter (λ y, y <> x) <$> L) x h') /\ (forall q, allocated m q -> allocated m' q).
Proof.
  intros Hr E Hx. apply list_elem_of_split in Hx as (l1 & l2 & ->).
  destruct (list_del_dlist m h l1 l2 x (lr_dlist _ _ Hr _ _ E)) as (m' & Hrun & Hd & Hp & Hs).
  destruct (lrep_unlink m m' L h l1 l2 x Hr E Hd Hs) as [Hr' Hx'].
  assert (<[h := l1 ++ l2]> L = filter (λ y, y <> x) <$> L) as EL.
  { apply map_eq. intros h'. rewrite lookup_fmap. destruct (decide (h' = h)) as [->|Hne].
    - rewrite lookup_insert_eq, E. cbn. rewrite filter_ne; [done|]. by pose proof (lrep_nodup _ _ _ _ Hr E) as [_ ?]%NoDup_cons.
    - rewrite lookup_insert_ne by done. destruct (L !! h') as [k|] eqn:Ek; [|done]. cbn. rewrite filter_ne_notin; [done|].
      intros Hk. apply Hne. eapply (lr_disj _ _ Hr); [by eapply own_entry|eapply own_entry; [exact E|set_solver +]]. }
  rewrite EL in Hr', Hx'. exists m'. split_and!; [done..|]. intros q Hq. destruct (decide (q ∈ h :: l1 ++ x :: l2)) as [Hin|Hout].
  - destruct (decide (q = x)) as [->|]; [by eexists|]. eapply dlist_allocated; [exact Hd|set_solver +Hin n].
  - unfold allocated. by rewrite Hs.
Qed.

(** Adding a node that is on no list. *)
Lemma heap_add_after m L h l1 l2 x pos A : lrep m L -> L !! h = Some (l1 ++ l2) -> (forall h', ~ own L x h') -> allocated m x -> h :: l1 = A ++ [pos] ->
  exists m', list_add x pos m = Some (tt, m') /\ lrep m' (<[h := l1 ++ x :: l2]> L) /\ (forall q, allocated m q -> allocated m' q).
Proof.
  intros Hr E Hx Ha HA. destruct (list_add_dlist m h l1 l2 pos A x (lr_dlist _ _ Hr _ _ E)) as (m' & Hrun & Hd & Hs); [done| |done|].
  { intros Hq. apply (Hx h). by exists (l1 ++ l2). }
  exists m'. split; [done|]. split; [by eapply (lrep_insert m m' L h l1 l2)|]. intros q Hq. destruct (decide (q ∈ x :: h :: l1 ++ l2)) as [Hin|Hout].
  - eapply dlist_allocated; [exact Hd|set_solver +Hin].
  - unfold allocated. by rewrite Hs.
Qed.
Lemma heap_add_unowned m L h k x : lrep m L -> L !! h = Some k -> (forall h', ~ own L x h') -> allocated m x ->
  exists m', list_add x h m = Some (tt, m') /\ lrep m' (<[h := x :: k]> L) /\ (forall q, allocated m q -> allocated m' q).
Proof. intros Hr E Hx Ha. by apply (heap_add_after m L h [] k x h []). Qed.
Lemma heap_add_tail_unowned m L h k x : lrep m L -> L !! h = Some k -> (forall h', ~ own L x h') -> allocated m x ->
  exists m', list_add_tail x h m = Some (tt, m') /\ lrep m' (<[h := k ++ [x]]> L) /\ (forall q, allocated m q -> allocated m' q).
Proof.
  intros Hr E Hx Ha. rewrite <-(app_nil_r k) in E. destruct (heap_add_before m L h k [] x h [] Hr E Hx Ha) as (m' & Hrun & Hr' & Hs); [done|].
  exists m'. split; [done|]. split; [done|]. intros q Hq. destruct (decide (q ∈ x :: h :: k ++ [])) as [Hin|Hout].
  - eapply dlist_allocated; [eapply (lr_dlist _ _ Hr' h); apply lookup_insert_eq|set_solver +Hin].
  - unfold allocated. by rewrite Hs.
Qed.

(** The next node of an entry: the head after the last one. *)
Lemma heap_next m L h l1 x l2 : lrep m L -> L !! h = Some (l1 ++ x :: l2) ->
  get_next x m = Some (hd h l2, m).
Proof.
  intros Hr E. destruct (cut_exists h l1 l2) as (A & p & n & B & Hcut).
  pose proof (lr_dlist _ _ Hr _ _ E) as [_ Hc].
  apply (cut_chain_mid _ _ _ _ _ _ _ _ _ Hcut) in Hc as (_ & _ & [Hxn _] & _).
  destruct Hcut as [_ HB]. rewrite (get_next_run _ _ _ Hxn).
  destruct l2; cbn in HB; by injection HB as <- _.
Qed.

(** The first node of the list of [h]. *)
Lemma heap_first m L h l : lrep m L -> L !! h = Some l -> get_next h m = Some (hd h l, m).
Proof. intros Hr E. rewrite (heap_get_next _ _ _ _ Hr E). by destruct l. Qed.

(** [list_replace_init h w]: the list of [h] becomes that of a head [w] that was on no
    list. *)
Lemma heap_replace_init m L h l w : lrep m L -> L !! h = Some l -> (forall h', ~ own L w h') -> allocated m w ->
  exists m', list_replace_init h w m = Some (tt, m') /\ lrep m' (<[w := l]> (<[h := []]> L)) /\ same_outside (w :: h :: l) m m'.
Proof.
  intros Hr E Hw Ha. assert (w ∉ h :: l) as Hwl by (intros Hq; apply (Hw h); by exists l).
  destruct (list_replace_init_head m h l w (lr_dlist _ _ Hr _ _ E) Ha Hwl) as (m' & Hrun & Hdw & Hdh & Hs).
  exists m'. split; [done|]. split; [|done]. pose proof (lrep_nodup _ _ _ _ Hr E) as Hn. apply NoDup_cons in Hn as [Hn _].
  assert (forall q k, own (<[w := l]> (<[h := []]> L)) q k ->
    (q = w /\ k = w) \/ (q ∈ l /\ k = w) \/ (q = h /\ k = h) \/ (own L q k /\ k <> h)) as Ho.
  { intros q k (l' & [[<- <-]|[_ [[<- <-]|[Hne El]]%lookup_insert_Some]]%lookup_insert_Some & Hq); [|set_solver +Hq|].
    - apply elem_of_cons in Hq as [->|]; auto.
    - do 3 right. split; [by exists l'|done]. }
  eapply lrep_change; [exact Hr|exact Hs|..].
  - intros k l' [[<- <-]|[_ [[<- <-]|[Hne El]]%lookup_insert_Some]]%lookup_insert_Some; [by left..|right]. split; [done|].
    intros q Hq [->|Hqh]%elem_of_cons; [apply (Hw k); by exists l'|].
    apply Hne. eapply (lr_disj _ _ Hr); [by exists l|by exists l'].
  - assert (forall q, q ∈ l -> own L q h) as Hol by (intros q Hq; by eapply own_entry).
    pose proof (own_head _ _ _ E) as Hoh. pose proof (lr_disj _ _ Hr) as Hdis.
    intros q k1 k2 H1 H2. apply Ho in H1, H2. naive_solver.
Qed.
End heap.
#[export] Hint Resolve keeps_dom_add_tail keeps_dom_del_init : kernel.

(** Reads a head in an updated map of lists. *)
Ltac heads_lookup :=
  repeat first
    [ rewrite lookup_insert_eq
    | rewrite lookup_insert_ne by congruence
    | rewrite lookup_delete_eq
    | rewrite lookup_delete_ne by congruence ].

(** ** Checking a concrete memory *)
#[export] Instance link_dec (m : mem) (a b : Z) : Decision (link m a b).
Proof. unfold link. apply _. Defined.
#[export] Instance chain_dec (m : mem) (l : list Z) : Decision (chain m l).
Proof.
  induction l as [|a [|b l] IH]; [left; exact I..|].
  change (Decision (link m a b /\ chain m (b :: l))). apply and_dec; [apply _|exact IH].
Defined.
#[export] Instance dlist_dec (m : mem) (h : Z) (l : list Z) : Decision (dlist m h l).
Proof. unfold dlist. apply _. Defined.

Definition lrep_check (m : mem) (L : heads) : bool :=
  bool_decide (Forall (λ p, dlist m p.1 p.2) (map_to_list L)) &&
  bool_decide (NoDup (concat ((λ p, p.1 :: p.2) <$> map_to_list L))).

Lemma concat_nodup_inj {A B} (f : A -> list B) (l : list A) (a b : A) (q : B) :
  NoDup (concat (f <$> l)) -> a ∈ l -> b ∈ l -> q ∈ f a -> q ∈ f b -> a = b.
Proof.
  induction l as [|c l IH]; intros Hn Ha Hb Hqa Hqb; [set_solver +Ha|].
  cbn in Hn. apply NoDup_app in Hn as (_ & Hd & Hn).
  assert (forall d, d ∈ l -> q ∈ f d -> q ∈ concat (f <$> l)) as Hin.
  { intros d Hd' Hq. apply list_elem_of_In, in_concat. exists (f d).
    split; [|by apply list_elem_of_In]. by apply list_elem_of_In, list_elem_of_fmap_2. }
  apply elem_of_cons in Ha as [->|Ha], Hb as [->|Hb]; [done|..|by apply IH].
  - destruct (Hd q Hqa). by apply (Hin b).
  - destruct (Hd q Hqb). by apply (Hin a).
Qed.

Lemma lrep_check_ok m L : lrep_check m L = true -> lrep m L.
Proof.
  intros [H1%bool_decide_eq_true H2%bool_decide_eq_true]%andb_true_iff. split.
  - intros h l E. rewrite Forall_forall in H1. apply (H1 (h, l)). by apply elem_of_map_to_list.
  - intros q h1 h2 (l1 & E1 & Hq1) (l2 & E2 & Hq2).
    assert ((h1, l1) = (h2, l2)) as [= -> _]; [|done].
    eapply (concat_nodup_inj (λ p, p.1 :: p.2)); [exact H2|by apply elem_of_map_to_list..|done|done].
Qed.
