(* ===== verification/Rbtree.v ===== *)
(** * Red-black trees (lib/rbtree.c, include/linux/rbtree.h)

    A tree lives in memory as [struct rb_node]s that pack the parent address
    and the colour of a node in one word.  The state of the operations is the
    memory of the nodes and the root pointer; as in [Prelude], a dereference of
    an unallocated pointer is an oops.  The loops carry fuel; running out of it
    would be an oops too, and the theorems show that it never happens.

    [zrep st k t] relates the memory to an inductive tree [t] seen from a
    context [k] (a zipper).  The operations are shown to keep the red-black
    invariant and the in-order sequence of the nodes. *)

From S2P Require Import Prelude.
From stdpp Require Import prelude gmap list.
From Stdlib Require Import ZArith Lia.
Open Scope Z_scope.

Record rb_node := RbNode {
  rb_parent_color : Z;
  rb_right : Z;
  rb_left : Z;
}.

Record rb_state := RbState { nodes : gmap Z rb_node; root : Z }.

Definition RB_RED : Z := 0.
Definition RB_BLACK : Z := 1.

(** ** include/linux/rbtree.h *)
Definition rb_parent (r : rb_node) : Z := Z.land (rb_parent_color r) (Z.lnot 3).
Definition rb_color (r : rb_node) : Z := Z.land (rb_parent_color r) 1.
Definition rb_is_red (r : rb_node) : bool := rb_color r =? 0.
Definition rb_is_black (r : rb_node) : bool := negb (rb_color r =? 0).

Definition load (p : Z) : M rb_state rb_node :=
  λ st, match nodes st !! p with Some n => Some (n, st) | None => None end.
Definition store (p : Z) (n : rb_node) : M rb_state unit :=
  load p ;; modify (λ st, RbState (<[p := n]> (nodes st)) (root st)).
Definition set_root (p : Z) : M rb_state unit := modify (λ st, RbState (nodes st) p).
Definition get_root : M rb_state Z := λ st, Some (root st, st).

Definition set_pc (p pc : Z) : M rb_state unit :=
  n ← load p; store p (RbNode pc (rb_right n) (rb_left n)).
Definition set_left (p v : Z) : M rb_state unit :=
  n ← load p; store p (RbNode (rb_parent_color n) (rb_right n) v).
Definition set_right (p v : Z) : M rb_state unit :=
  n ← load p; store p (RbNode (rb_parent_color n) v (rb_left n)).

Definition rb_set_red (p : Z) : M rb_state unit :=
  n ← load p; set_pc p (Z.land (rb_parent_color n) (Z.lnot 1)).
Definition rb_set_black (p : Z) : M rb_state unit :=
  n ← load p; set_pc p (Z.lor (rb_parent_color n) 1).
Definition rb_set_parent (rb p : Z) : M rb_state unit :=
  n ← load rb; set_pc rb (Z.lor (Z.land (rb_parent_color n) 3) p).
Definition rb_set_color (rb color : Z) : M rb_state unit :=
  n ← load rb; set_pc rb (Z.lor (Z.land (rb_parent_color n) (Z.lnot 1)) color).

Definition RB_ROOT : Z := 0.
Definition RB_EMPTY_ROOT : M rb_state bool := r ← get_root; mret (r =? 0).
Definition RB_EMPTY_NODE (node : Z) : M rb_state bool :=
  n ← load node; mret (rb_parent n =? node).
Definition RB_CLEAR_NODE (node : Z) : M rb_state unit := rb_set_parent node node.

(** The address [*rb_link] a new node is stored to: the root or a child field. *)
Inductive rb_link := LinkRoot | LinkLeft (p : Z) | LinkRight (p : Z).

Definition rb_link_node (node parent : Z) (link : rb_link) : M rb_state unit :=
  modify (λ st, RbState (<[node := RbNode parent 0 0]> (nodes st)) (root st)) ;;
  match link with
  | LinkRoot => set_root node
  | LinkLeft p => set_left p node
  | LinkRight p => set_right p node
  end.

(** ** lib/rbtree.c *)
Definition __rb_rotate_left (node : Z) : M rb_state unit :=
  n ← load node;
  let right := rb_right n in
  let parent := rb_parent n in
  rn ← load right;
  set_right node (rb_left rn) ;;
  (if rb_left rn =? 0 then mret tt else rb_set_parent (rb_left rn) node) ;;
  set_left right node ;;
  rb_set_parent right parent ;;
  (if parent =? 0 then set_root right
   else pn ← load parent;
        if node =? rb_left pn then set_left parent right else set_right parent right) ;;
  rb_set_parent node right.

Definition __rb_rotate_right (node : Z) : M rb_state unit :=
  n ← load node;
  let left := rb_left n in
  let parent := rb_parent n in
  ln ← load left;
  set_left node (rb_right ln) ;;
  (if rb_right ln =? 0 then mret tt else rb_set_parent (rb_right ln) node) ;;
  set_right left node ;;
  rb_set_parent left parent ;;
  (if parent =? 0 then set_root left
   else pn ← load parent;
        if node =? rb_right pn then set_right parent left else set_left parent left) ;;
  rb_set_parent node left.

(** [uncle && rb_is_red(uncle)] and [!p || rb_is_black(p)]. *)
Definition nonnull_red (p : Z) : M rb_state bool :=
  if p =? 0 then mret false else n ← load p; mret (rb_is_red n).
Definition null_or_black (p : Z) : M rb_state bool :=
  if p =? 0 then mret true else n ← load p; mret (rb_is_black n).

Fixpoint rb_insert_color_loop (fuel : nat) (node : Z) : M rb_state unit :=
  match fuel with
  | O => oops
  | S fuel =>
    n ← load node;
    let parent := rb_parent n in
    if parent =? 0 then mret tt else
    pn ← load parent;
    if negb (rb_is_red pn) then mret tt else
    let gparent := rb_parent pn in
    gn ← load gparent;
    if parent =? rb_left gn then
      let uncle := rb_right gn in
      red ← nonnull_red uncle;
      if (red : bool) then
        rb_set_black uncle ;; rb_set_black parent ;; rb_set_red gparent ;;
        rb_insert_color_loop fuel gparent
      else
        pn' ← load parent;
        (if rb_right pn' =? node then
           __rb_rotate_left parent ;;
           rb_set_black node ;; rb_set_red gparent ;; __rb_rotate_right gparent ;;
           rb_insert_color_loop fuel parent
         else
           rb_set_black parent ;; rb_set_red gparent ;; __rb_rotate_right gparent ;;
           rb_insert_color_loop fuel node)
    else
      let uncle := rb_left gn in
      red ← nonnull_red uncle;
      if (red : bool) then
        rb_set_black uncle ;; rb_set_black parent ;; rb_set_red gparent ;;
        rb_insert_color_loop fuel gparent
      else
        pn' ← load parent;
        (if rb_left pn' =? node then
           __rb_rotate_right parent ;;
           rb_set_black node ;; rb_set_red gparent ;; __rb_rotate_left gparent ;;
           rb_insert_color_loop fuel parent
         else
           rb_set_black parent ;; rb_set_red gparent ;; __rb_rotate_left gparent ;;
           rb_insert_color_loop fuel node)
  end.

Definition rb_insert_color (node : Z) : M rb_state unit :=
  st ← get;
  rb_insert_color_loop (S (size (nodes st))) node ;;
  r ← get_root; rb_set_black r.

(** The loop of [__rb_erase_color]; returns the [node] it ends with. *)
Fixpoint __rb_erase_color_loop (fuel : nat) (node parent : Z) : M rb_state Z :=
  match fuel with
  | O => oops
  | S fuel =>
    nb ← null_or_black node;
    r ← get_root;
    if negb ((nb : bool) && negb (node =? r)) then mret node else
    pn ← load parent;
    if rb_left pn =? node then
      on ← load (rb_right pn);
      (if rb_is_red on then
         rb_set_black (rb_right pn) ;; rb_set_red parent ;; __rb_rotate_left parent
       else mret tt) ;;
      pn ← load parent;
      let other := rb_right pn in
      on ← load other;
      bl ← null_or_black (rb_left on);
      br ← null_or_black (rb_right on);
      if (bl : bool) && (br : bool) then
        rb_set_red other ;;
        pn ← load parent;
        __rb_erase_color_loop fuel parent (rb_parent pn)
      else
        (if (br : bool) then
           rb_set_black (rb_left on) ;; rb_set_red other ;; __rb_rotate_right other
         else mret tt) ;;
        pn ← load parent;
        let other := rb_right pn in
        rb_set_color other (rb_color pn) ;;
        rb_set_black parent ;;
        on ← load other;
        rb_set_black (rb_right on) ;;
        __rb_rotate_left parent ;;
        get_root
    else
      on ← load (rb_left pn);
      (if rb_is_red on then
         rb_set_black (rb_left pn) ;; rb_set_red parent ;; __rb_rotate_right parent
       else mret tt) ;;
      pn ← load parent;
      let other := rb_left pn in
      on ← load other;
      bl ← null_or_black (rb_left on);
      br ← null_or_black (rb_right on);
      if (bl : bool) && (br : bool) then
        rb_set_red other ;;
        pn ← load parent;
        __rb_erase_color_loop fuel parent (rb_parent pn)
      else
        (if (bl : bool) then
           rb_set_black (rb_right on) ;; rb_set_red other ;; __rb_rotate_left other
         else mret tt) ;;
        pn ← load parent;
        let other := rb_left pn in
        rb_set_color other (rb_color pn) ;;
        rb_set_black parent ;;
        on ← load other;
        rb_set_black (rb_left on) ;;
        __rb_rotate_right parent ;;
        get_root
  end.

Definition __rb_erase_color (node parent : Z) : M rb_state unit :=
  st ← get;
  node' ← __rb_erase_color_loop (S (size (nodes st))) node parent;
  if node' =? 0 then mret tt else rb_set_black node'.

(** [while ((left = node->rb_left) != NULL) node = left;] and its mirror image. *)
Fixpoint leftmost (fuel : nat) (node : Z) : M rb_state Z :=
  match fuel with
  | O => oops
  | S fuel => n ← load node; if rb_left n =? 0 then mret node else leftmost fuel (rb_left n)
  end.
Fixpoint rightmost (fuel : nat) (node : Z) : M rb_state Z :=
  match fuel with
  | O => oops
  | S fuel => n ← load node; if rb_right n =? 0 then mret node else rightmost fuel (rb_right n)
  end.

(** The child field of [parent] (or the root pointer) that holds [old] gets [new]. *)
Definition change_child (parent old new : Z) : M rb_state unit :=
  if parent =? 0 then set_root new
  else pn ← load parent;
       if rb_left pn =? old then set_left parent new else set_right parent new.

Definition rb_erase (node : Z) : M rb_state unit :=
  n ← load node;
  if (rb_left n =? 0) || (rb_right n =? 0) then
    let child := if rb_left n =? 0 then rb_right n else rb_left n in
    let parent := rb_parent n in
    let color := rb_color n in
    (if child =? 0 then mret tt else rb_set_parent child parent) ;;
    change_child parent node child ;;
    (if color =? RB_BLACK then __rb_erase_color child parent else mret tt)
  else
    let old := node in
    st ← get;
    node ← leftmost (S (size (nodes st))) (rb_right n);
    on ← load old;
    change_child (rb_parent on) old node ;;
    nn ← load node;
    let child := rb_right nn in
    let parent := rb_parent nn in
    let color := rb_color nn in
    parent' ← (if parent =? old then mret node
               else
                 (if child =? 0 then mret tt else rb_set_parent child parent) ;;
                 set_left parent child ;;
                 on ← load old;
                 set_right node (rb_right on) ;;
                 rb_set_parent (rb_right on) node ;;
                 mret parent);
    on ← load old;
    set_pc node (rb_parent_color on) ;;
    set_left node (rb_left on) ;;
    rb_set_parent (rb_left on) node ;;
    (if color =? RB_BLACK then __rb_erase_color child parent' else mret tt).

Definition rb_first : M rb_state Z :=
  st ← get; if root st =? 0 then mret 0 else leftmost (S (size (nodes st))) (root st).
Definition rb_last : M rb_state Z :=
  st ← get; if root st =? 0 then mret 0 else rightmost (S (size (nodes st))) (root st).

(** [while ((parent = rb_parent(node)) && node == parent->rb_right) node = parent;] *)
Fixpoint climb_right (fuel : nat) (node : Z) : M rb_state Z :=
  match fuel with
  | O => oops
  | S fuel =>
    n ← load node;
    let parent := rb_parent n in
    if parent =? 0 then mret 0 else
    pn ← load parent;
    if node =? rb_right pn then climb_right fuel parent else mret parent
  end.
Fixpoint climb_left (fuel : nat) (node : Z) : M rb_state Z :=
  match fuel with
  | O => oops
  | S fuel =>
    n ← load node;
    let parent := rb_parent n in
    if parent =? 0 then mret 0 else
    pn ← load parent;
    if node =? rb_left pn then climb_left fuel parent else mret parent
  end.

Definition rb_next (node : Z) : M rb_state Z :=
  st ← get;
  n ← load node;
  if rb_parent n =? node then mret 0
  else if rb_right n =? 0 then climb_right (S (size (nodes st))) node
  else leftmost (S (size (nodes st))) (rb_right n).

Definition rb_prev (node : Z) : M rb_state Z :=
  st ← get;
  n ← load node;
  if rb_parent n =? node then mret 0
  else if rb_left n =? 0 then climb_left (S (size (nodes st))) node
  else rightmost (S (size (nodes st))) (rb_left n).

Definition rb_replace_node (victim new : Z) : M rb_state unit :=
  v ← load victim;
  let parent := rb_parent v in
  (if parent =? 0 then set_root new
   else pn ← load parent;
        if victim =? rb_left pn then set_left parent new else set_right parent new) ;;
  (if rb_left v =? 0 then mret tt else rb_set_parent (rb_left v) new) ;;
  (if rb_right v =? 0 then mret tt else rb_set_parent (rb_right v) new) ;;
  v' ← load victim;
  modify (λ st, RbState (<[new := v']> (nodes st)) (root st)).

(** ** The packed word *)
Inductive color := Red | Black.
#[export] Instance color_eq_dec : EqDecision color.
Proof. solve_decision. Defined.
Definition colZ (c : color) : Z := match c with Red => RB_RED | Black => RB_BLACK end.

(** Node addresses are word aligned, so the low two bits of a parent address
    are free. *)
Definition aligned (p : Z) : Prop := 0 <= p /\ p mod 4 = 0.

Lemma aligned_form p : aligned p -> p = 0 \/ exists k, p = Z.pos (k~0~0).
Proof.
  intros [Hp Hm]. apply Z_div_exact_2 in Hm; [|lia].
  destruct (p / 4) as [|k|k] eqn:E; [left; lia|right; exists k; lia|].
  exfalso. lia.
Qed.

Section packing.
Context (p q : Z) (c d : color) (Hp : aligned p) (Hq : aligned q).

Lemma pc_parent : Z.land (p + colZ c) (Z.lnot 3) = p.
Proof. destruct (aligned_form p Hp) as [->|[k ->]], c; reflexivity. Qed.
Lemma pc_color : Z.land (p + colZ c) 1 = colZ c.
Proof. destruct (aligned_form p Hp) as [->|[k ->]], c; reflexivity. Qed.
Lemma pc_set_parent : Z.lor (Z.land (p + colZ c) 3) q = q + colZ c.
Proof.
  destruct (aligned_form p Hp) as [->|[k ->]], (aligned_form q Hq) as [->|[k' ->]], c; reflexivity.
Qed.
Lemma pc_set_color : Z.lor (Z.land (p + colZ c) (Z.lnot 1)) (colZ d) = p + colZ d.
Proof. destruct (aligned_form p Hp) as [->|[k ->]], c, d; reflexivity. Qed.
Lemma pc_set_red : Z.land (p + colZ c) (Z.lnot 1) = p + colZ Red.
Proof. destruct (aligned_form p Hp) as [->|[k ->]], c; reflexivity. Qed.
Lemma pc_set_black : Z.lor (p + colZ c) 1 = p + colZ Black.
Proof. destruct (aligned_form p Hp) as [->|[k ->]], c; reflexivity. Qed.
End packing.

(** ** Trees and contexts *)
Inductive tree := L | N (c : color) (l : tree) (x : Z) (r : tree).

Fixpoint inorder (t : tree) : list Z :=
  match t with L => [] | N _ l x r => inorder l ++ x :: inorder r end.

Definition tptr (t : tree) : Z := match t with L => 0 | N _ _ x _ => x end.

(** One step of the path from a subtree to the root: the hole is the left
    ([Lf]) or right ([Rf]) child of the node. *)
Inductive frame := Lf (c : color) (x : Z) (r : tree) | Rf (c : color) (l : tree) (x : Z).
Notation ctx := (list frame).

Definition cptr (k : ctx) : Z :=
  match k with [] => 0 | Lf _ x _ :: _ => x | Rf _ _ x :: _ => x end.

Definition fill (f : frame) (t : tree) : tree :=
  match f with Lf c x r => N c t x r | Rf c l x => N c l x t end.
Definition plug (k : ctx) (t : tree) : tree := fold_left (λ t f, fill f t) k t.

Definition fids (f : frame) : list Z :=
  match f with Lf _ x r => x :: inorder r | Rf _ l x => x :: inorder l end.
Definition cids (k : ctx) : list Z := concat (fids <$> k).

(** The in-order nodes left and right of the hole. *)
Fixpoint cleft (k : ctx) : list Z :=
  match k with
  | [] => []
  | Lf _ _ _ :: k => cleft k
  | Rf _ l x :: k => cleft k ++ inorder l ++ [x]
  end.
Fixpoint cright (k : ctx) : list Z :=
  match k with
  | [] => []
  | Lf _ x r :: k => x :: inorder r ++ cright k
  | Rf _ _ _ :: k => cright k
  end.

Lemma inorder_plug k t : inorder (plug k t) = cleft k ++ inorder t ++ cright k.
Proof.
  revert t; induction k as [|[c x r|c l x] k IH]; intros t; cbn.
  - by rewrite app_nil_r.
  - unfold plug in IH. rewrite IH. cbn. by rewrite <-!app_assoc.
  - unfold plug in IH. rewrite IH. cbn. by rewrite <-!app_assoc.
Qed.

Lemma cids_perm k : cids k ≡ₚ cleft k ++ cright k.
Proof.
  induction k as [|[c x r|c l x] k IH]; cbn; [done|..].
  - change (concat (fids <$> k)) with (cids k). rewrite IH. solve_Permutation.
  - change (concat (fids <$> k)) with (cids k). rewrite IH. solve_Permutation.
Qed.

(** ** The representation relation *)
Fixpoint rep (h : gmap Z rb_node) (par : Z) (t : tree) : Prop :=
  match t with
  | L => True
  | N c l x r =>
      h !! x = Some (RbNode (par + colZ c) (tptr r) (tptr l)) /\ rep h x l /\ rep h x r
  end.

Fixpoint crep (h : gmap Z rb_node) (k : ctx) (hole rt : Z) : Prop :=
  match k with
  | [] => rt = hole
  | Lf c x r :: k =>
      h !! x = Some (RbNode (cptr k + colZ c) (tptr r) hole) /\ rep h x r /\ crep h k x rt
  | Rf c l x :: k =>
      h !! x = Some (RbNode (cptr k + colZ c) hole (tptr l)) /\ rep h x l /\ crep h k x rt
  end.

Definition valid (p : Z) : Prop := aligned p /\ p <> 0.

Record zrep (st : rb_state) (k : ctx) (t : tree) : Prop := {
  zr_tree : rep (nodes st) (cptr k) t;
  zr_ctx : crep (nodes st) k (tptr t) (root st);
  zr_nodup : NoDup (cids k ++ inorder t);
  zr_valid : Forall valid (cids k ++ inorder t);
}.

Section representation.
Implicit Types (st : rb_state) (k : ctx) (t l r : tree) (h : gmap Z rb_node).

Lemma zrep_Lf st c x r k t : zrep st (Lf c x r :: k) t <-> zrep st k (N c t x r).
Proof.
  assert (cids (Lf c x r :: k) ++ inorder t ≡ₚ cids k ++ inorder (N c t x r)) as Hp
    by (cbn; solve_Permutation).
  split; intros [Ht Hc Hn Hv]; [rewrite Hp in Hn, Hv|rewrite <-Hp in Hn, Hv];
    cbn in Ht, Hc; split; cbn; tauto.
Qed.
Lemma zrep_Rf st c l x k t : zrep st (Rf c l x :: k) t <-> zrep st k (N c l x t).
Proof.
  assert (cids (Rf c l x :: k) ++ inorder t ≡ₚ cids k ++ inorder (N c l x t)) as Hp
    by (cbn; solve_Permutation).
  split; intros [Ht Hc Hn Hv]; [rewrite Hp in Hn, Hv|rewrite <-Hp in Hn, Hv];
    cbn in Ht, Hc; split; cbn; tauto.
Qed.

Lemma zup_L st c x r k t : zrep st (Lf c x r :: k) t -> zrep st k (N c t x r).
Proof. apply zrep_Lf. Qed.
Lemma zdn_L st c x r k t : zrep st k (N c t x r) -> zrep st (Lf c x r :: k) t.
Proof. apply zrep_Lf. Qed.
Lemma zup_R st c l x k t : zrep st (Rf c l x :: k) t -> zrep st k (N c l x t).
Proof. apply zrep_Rf. Qed.
Lemma zdn_R st c l x k t : zrep st k (N c l x t) -> zrep st (Rf c l x :: k) t.
Proof. apply zrep_Rf. Qed.

Lemma zrep_fill st f k t : zrep st (f :: k) t <-> zrep st k (fill f t).
Proof. destruct f; [apply zrep_Lf|apply zrep_Rf]. Qed.

Lemma zrep_plug st k t k' : zrep st (k ++ k') t <-> zrep st k' (plug k t).
Proof.
  revert t; induction k as [|f k IH]; intros t; [done|].
  cbn [app]. rewrite zrep_fill, IH. done.
Qed.

Lemma rep_frame h h' par t :
  rep h par t -> (forall q, q ∈ inorder t -> h' !! q = h !! q) -> rep h' par t.
Proof.
  revert par; induction t as [|c l IHl x r IHr]; intros par; [done|].
  cbn. intros (Hx & Hl & Hr) Hs. split_and!.
  - rewrite Hs; [done|set_solver +].
  - apply IHl; [done|]. intros q Hq. apply Hs. set_solver +Hq.
  - apply IHr; [done|]. intros q Hq. apply Hs. set_solver +Hq.
Qed.

Lemma crep_frame h h' k hole rt :
  crep h k hole rt -> (forall q, q ∈ cids k -> h' !! q = h !! q) -> crep h' k hole rt.
Proof.
  revert hole; induction k as [|[c x r|c l x] k IH]; intros hole; [done|..];
    cbn; intros (Hx & Ht & Hk) Hs; split_and!.
  1,4: rewrite Hs; [done|set_solver +].
  1,3: eapply rep_frame; [done|]; intros q Hq; apply Hs; set_solver +Hq.
  all: apply IH; [done|]; intros q Hq; apply Hs; unfold cids in Hq; set_solver +Hq.
Qed.

Lemma rep_in h par t x : rep h par t -> x ∈ inorder t -> is_Some (h !! x).
Proof.
  revert par; induction t as [|c l IHl y r IHr]; intros par; cbn; [set_solver|].
  intros (Hy & Hl & Hr). rewrite elem_of_app, elem_of_cons.
  intros [?|[->|?]]; [by eapply IHl|by eexists|by eapply IHr].
Qed.

Lemma crep_in h k hole rt x : crep h k hole rt -> x ∈ cids k -> is_Some (h !! x).
Proof.
  revert hole; induction k as [|[c y r|c l y] k IH]; intros hole; cbn; [set_solver|..];
    intros (Hy & Ht & Hk); rewrite elem_of_cons, elem_of_app; intros [->|[?|?]];
    eauto using rep_in.
Qed.

Lemma zrep_size st k t : zrep st k t -> (length (cids k ++ inorder t) <= size (nodes st))%nat.
Proof.
  intros [Ht Hc Hn _]. rewrite <-size_dom.
  rewrite <-(size_list_to_set (C := gset Z)) by exact Hn.
  apply subseteq_size. intros x. rewrite elem_of_list_to_set, elem_of_app, elem_of_dom.
  intros [?|?]; [by eapply crep_in|by eapply rep_in].
Qed.

Lemma length_cids k : (length k <= length (cids k))%nat.
Proof.
  induction k as [|f k IH]; [done|]. change (cids (f :: k)) with (fids f ++ cids k).
  rewrite length_app. destruct f; cbn; lia.
Qed.

Lemma zrep_fuel st k t : zrep st k t -> (length k + length (inorder t) <= size (nodes st))%nat.
Proof.
  intros Hz. apply zrep_size in Hz. rewrite length_app in Hz. pose proof (length_cids k). lia.
Qed.

Lemma tptr_in t : t <> L -> tptr t ∈ inorder t.
Proof. destruct t; [done|]. intros _. cbn. set_solver +. Qed.

Lemma cptr_in k : k <> [] -> cptr k ∈ cids k.
Proof. destruct k as [|[]]; [done|..]; intros _; cbn; set_solver +. Qed.

Lemma aligned_0 : aligned 0. Proof. done. Qed.

Lemma cptr_aligned k : Forall valid (cids k) -> aligned (cptr k).
Proof.
  intros Hv. destruct k as [|f k]; [done|]. rewrite Forall_forall in Hv.
  by apply Hv, cptr_in.
Qed.

Lemma zrep_aligned st k t : zrep st k t -> aligned (cptr k).
Proof. intros [_ _ _ Hv]. apply cptr_aligned. by apply Forall_app in Hv as [? _]. Qed.

Lemma zrep_valid st k c l x r : zrep st k (N c l x r) -> valid x.
Proof. intros [_ _ _ Hv]. rewrite Forall_forall in Hv. apply Hv. cbn. set_solver +. Qed.

(** Reading the node in focus. *)
Lemma zrep_load st k c l x r : zrep st k (N c l x r) ->
  load x st = Some (RbNode (cptr k + colZ c) (tptr r) (tptr l), st).
Proof. intros [[Hx _] _ _ _]. unfold load. by rewrite Hx. Qed.

Lemma rb_parent_pack p c (rp lp : Z) : aligned p -> rb_parent (RbNode (p + colZ c) rp lp) = p.
Proof. intros. by apply pc_parent. Qed.
Lemma rb_color_pack p c (rp lp : Z) : aligned p -> rb_color (RbNode (p + colZ c) rp lp) = colZ c.
Proof. intros. by apply pc_color. Qed.

Definition is_red (c : color) : bool := match c with Red => true | Black => false end.

Lemma rb_is_red_pack p c (rp lp : Z) :
  aligned p -> rb_is_red (RbNode (p + colZ c) rp lp) = is_red c.
Proof. intros. unfold rb_is_red. rewrite rb_color_pack by done. by destruct c. Qed.
Lemma rb_is_black_pack p c (rp lp : Z) :
  aligned p -> rb_is_black (RbNode (p + colZ c) rp lp) = negb (is_red c).
Proof. intros. unfold rb_is_black. rewrite rb_color_pack by done. by destruct c. Qed.

End representation.

Create Rewrite HintDb rb.
#[export] Hint Resolve zrep_aligned zrep_load aligned_0 : kernel.

Section primitives.
Implicit Types (st : rb_state) (k : ctx) (t l r : tree) (h : gmap Z rb_node).

Definition upd (p : Z) (n : rb_node) st : rb_state := RbState (<[p := n]> (nodes st)) (root st).

Lemma load_run st p n : nodes st !! p = Some n -> load p st = Some (n, st).
Proof. intros H. unfold load. by rewrite H. Qed.
Lemma store_run st p n n' : nodes st !! p = Some n -> store p n' st = Some (tt, upd p n' st).
Proof. intros H. unfold store. by erewrite bind_run by (by apply load_run). Qed.
Lemma set_left_run st p n v : nodes st !! p = Some n ->
  set_left p v st = Some (tt, upd p (RbNode (rb_parent_color n) (rb_right n) v) st).
Proof.
  intros H. unfold set_left. erewrite bind_run by (by apply load_run). by eapply store_run.
Qed.
Lemma set_right_run st p n v : nodes st !! p = Some n ->
  set_right p v st = Some (tt, upd p (RbNode (rb_parent_color n) v (rb_left n)) st).
Proof.
  intros H. unfold set_right. erewrite bind_run by (by apply load_run). by eapply store_run.
Qed.
Lemma set_pc_run st p n v : nodes st !! p = Some n ->
  set_pc p v st = Some (tt, upd p (RbNode v (rb_right n) (rb_left n)) st).
Proof.
  intros H. unfold set_pc. erewrite bind_run by (by apply load_run). by eapply store_run.
Qed.

(** Packed-word updates on a node whose parent and colour are known. *)
Lemma rb_set_parent_run st x p c rp lp p' :
  nodes st !! x = Some (RbNode (p + colZ c) rp lp) -> aligned p -> aligned p' ->
  rb_set_parent x p' st = Some (tt, upd x (RbNode (p' + colZ c) rp lp) st).
Proof.
  intros H Hp Hp'. unfold rb_set_parent. erewrite bind_run by (by apply load_run).
  rewrite (set_pc_run _ _ _ _ H). cbn [rb_parent_color rb_right rb_left].
  by rewrite pc_set_parent.
Qed.

Lemma zrep_focus st k t : zrep st k t ->
  NoDup (cids k) /\ NoDup (inorder t) /\ (forall q, q ∈ cids k -> q ∉ inorder t) /\
  Forall valid (cids k) /\ Forall valid (inorder t).
Proof.
  intros [_ _ Hn Hv]. apply NoDup_app in Hn as (?&?&?). by apply Forall_app in Hv as [??].
Qed.

(** Changing the word of the node in focus recolours it. *)
Lemma zrep_recolor st k c l x r c' :
  zrep st k (N c l x r) ->
  zrep (upd x (RbNode (cptr k + colZ c') (tptr r) (tptr l)) st) k (N c' l x r).
Proof.
  intros Hz. pose proof (zrep_focus _ _ _ Hz) as (_ & Hn & Hd & _).
  destruct Hz as [(Hx & Hl & Hr) Hc Hnd Hv]. cbn in Hn.
  apply NoDup_app in Hn as (_ & Hxl & Hxr). apply NoDup_cons in Hxr as [Hxr _].
  split; [|cbn [nodes root upd tptr]..|done|done].
  - cbn. split_and!; [by rewrite lookup_insert_eq|..];
      (eapply rep_frame; [done|]; intros q Hq; apply lookup_insert_ne; intros ->).
    + eapply Hxl; [done|set_solver +].
    + done.
  - eapply crep_frame; [done|]. intros q Hq. apply lookup_insert_ne. intros ->.
    eapply Hd; [done|]. cbn. set_solver +.
Qed.

Lemma rb_set_red_run st k c l x r : zrep st k (N c l x r) ->
  exists st', rb_set_red x st = Some (tt, st') /\ zrep st' k (N Red l x r).
Proof.
  intros Hz. eexists. split; [|by eapply zrep_recolor].
  unfold rb_set_red. erewrite bind_run by (by eauto with kernel).
  erewrite set_pc_run by (by apply Hz). cbn [rb_parent_color rb_right rb_left].
  by rewrite pc_set_red by eauto with kernel.
Qed.
Lemma rb_set_black_run st k c l x r : zrep st k (N c l x r) ->
  exists st', rb_set_black x st = Some (tt, st') /\ zrep st' k (N Black l x r).
Proof.
  intros Hz. eexists. split; [|by eapply zrep_recolor].
  unfold rb_set_black. erewrite bind_run by (by eauto with kernel).
  erewrite set_pc_run by (by apply Hz). cbn [rb_parent_color rb_right rb_left].
  by rewrite pc_set_black by eauto with kernel.
Qed.
Lemma rb_set_color_run st k c l x r c' : zrep st k (N c l x r) ->
  exists st', rb_set_color x (colZ c') st = Some (tt, st') /\ zrep st' k (N c' l x r).
Proof.
  intros Hz. eexists. split; [|by eapply zrep_recolor].
  unfold rb_set_color. erewrite bind_run by (by eauto with kernel).
  erewrite set_pc_run by (by apply Hz). cbn [rb_parent_color rb_right rb_left].
  by rewrite pc_set_color by eauto with kernel.
Qed.

(** A non-empty subtree gets another parent. *)
Lemma reparent_run st par par' t :
  rep (nodes st) par t -> NoDup (inorder t) -> Forall valid (inorder t) ->
  aligned par -> aligned par' ->
  exists st', (if tptr t =? 0 then mret tt else rb_set_parent (tptr t) par') st = Some (tt, st') /\
    rep (nodes st') par' t /\ root st' = root st /\
    (forall q, q ∉ inorder t -> nodes st' !! q = nodes st !! q).
Proof.
  intros Ht Hn Hv Hp Hp'. destruct t as [|c l x r]; [by exists st|].
  cbn in Ht, Hn. destruct Ht as (Hx & Hl & Hr).
  assert (x <> 0) as Hx0.
  { rewrite Forall_forall in Hv. apply Hv. cbn. set_solver +. }
  cbn [tptr]. rewrite (proj2 (Z.eqb_neq x 0) Hx0).
  exists (upd x (RbNode (par' + colZ c) (tptr r) (tptr l)) st).
  apply NoDup_app in Hn as (_ & Hxl & Hxr). apply NoDup_cons in Hxr as [Hxr _].
  split_and!; [by apply (rb_set_parent_run _ _ par)| |done|].
  - cbn. split_and!; [by rewrite lookup_insert_eq|..];
      (eapply rep_frame; [done|]; intros q Hq; apply lookup_insert_ne; intros ->).
    + eapply Hxl; [done|set_solver +].
    + done.
  - intros q Hq. cbn. apply lookup_insert_ne. intros ->. apply Hq. cbn. set_solver +.
Qed.

(** The pointer to the subtree in focus gets another value. *)
Lemma change_child_run st k old new :
  crep (nodes st) k old (root st) -> NoDup (cids k) -> Forall valid (cids k) ->
  old <> 0 -> old ∉ cids k ->
  exists st', change_child (cptr k) old new st = Some (tt, st') /\
    crep (nodes st') k new (root st') /\
    (forall q, q ∉ cids k -> nodes st' !! q = nodes st !! q).
Proof.
  intros Hc Hn Hv Ho Hok. unfold change_child.
  destruct k as [|f k]; [by exists (RbState (nodes st) new)|].
  assert (cptr (f :: k) <> 0) as Hp0.
  { rewrite Forall_forall in Hv. apply Hv. by apply cptr_in. }
  rewrite (proj2 (Z.eqb_neq _ _) Hp0).
  destruct f as [c x r|c l x]; cbn in Hc, Hn, Hok; destruct Hc as (Hx & Ht & Hk); cbn [cptr];
    (erewrite bind_run by (by apply load_run)); cbn [rb_left].
  - rewrite Z.eqb_refl. eexists. split_and!; [by eapply set_left_run|..].
    + cbn. rewrite lookup_insert_eq. apply NoDup_cons in Hn as [Hn _]. split_and!; [done|..].
      * eapply rep_frame; [done|]. intros q Hq. apply lookup_insert_ne. set_solver +Hn Hq.
      * eapply crep_frame; [done|]. intros q Hq. apply lookup_insert_ne. unfold cids in Hq.
        set_solver +Hn Hq.
    + intros q Hq. cbn in Hq. cbn. apply lookup_insert_ne. set_solver +Hq.
  - rewrite (proj2 (Z.eqb_neq _ _)).
    2:{ intros E. destruct l as [|? ? y ?]; cbn in E; [by rewrite <-E in Ho|].
        subst y. apply Hok. cbn. set_solver +. }
    eexists. split_and!; [by eapply set_right_run|..].
    + cbn. rewrite lookup_insert_eq. apply NoDup_cons in Hn as [Hn _]. split_and!; [done|..].
      * eapply rep_frame; [done|]. intros q Hq. apply lookup_insert_ne. set_solver +Hn Hq.
      * eapply crep_frame; [done|]. intros q Hq. apply lookup_insert_ne. unfold cids in Hq.
        set_solver +Hn Hq.
    + intros q Hq. cbn in Hq. cbn. apply lookup_insert_ne. set_solver +Hq.
Qed.

End primitives.

Section rotations.
Implicit Types (st : rb_state) (k : ctx) (t l r a b d : tree) (h : gmap Z rb_node).

(** The variant of [change_child] that tests the right field first. *)
Lemma change_child_r_run st k old new :
  crep (nodes st) k old (root st) -> NoDup (cids k) -> Forall valid (cids k) ->
  old <> 0 -> old ∉ cids k ->
  exists st', (if cptr k =? 0 then set_root new
               else pn ← load (cptr k);
                    if old =? rb_right pn then set_right (cptr k) new
                    else set_left (cptr k) new) st = Some (tt, st') /\
    crep (nodes st') k new (root st') /\
    (forall q, q ∉ cids k -> nodes st' !! q = nodes st !! q).
Proof.
  intros Hc Hn Hv Ho Hok.
  destruct (change_child_run st k old new Hc Hn Hv Ho Hok) as (st' & Hr & H).
  exists st'. split; [|done]. rewrite <-Hr. unfold change_child.
  destruct (Z.eqb_spec (cptr k) 0); [done|].
  destruct k as [|[c x r|c l x] k]; [done|..]; cbn in Hc; destruct Hc as (Hx & _ & _); cbn [cptr] in *;
    (erewrite !bind_run by (by apply load_run)); cbn [rb_left rb_right]; rewrite Z.eqb_refl.
  - rewrite (proj2 (Z.eqb_neq _ _)); [done|]. intros E.
    destruct r as [|? ? y ?]; cbn in E; [done|]. subst y. apply Hok. cbn. set_solver +.
  - rewrite (proj2 (Z.eqb_neq _ _)); [done|]. intros E.
    destruct l as [|? ? y ?]; cbn in E; [by rewrite <-E in Ho|].
    subst y. apply Hok. cbn. set_solver +.
Qed.

(** The nodes of two adjacent nodes [x], [y] with subtrees [a], [b], [d] and of
    the context around them are distinct. *)
Lemma rotate_distinct k (la lb ld : list Z) (x y : Z) :
  NoDup (cids k ++ la ++ x :: lb ++ y :: ld) ->
  x <> y /\ (x ∉ cids k) /\ (y ∉ cids k) /\
  (forall q, q ∈ la -> q <> x /\ q <> y /\ (q ∉ lb) /\ q ∉ cids k) /\
  (forall q, q ∈ lb -> q <> x /\ q <> y /\ q ∉ cids k) /\
  (forall q, q ∈ ld -> q <> x /\ q <> y /\ (q ∉ lb) /\ q ∉ cids k) /\
  (forall q, q ∈ cids k -> q <> x /\ q <> y /\ q ∉ lb) /\ NoDup (cids k) /\ NoDup lb.
Proof.
  rewrite !NoDup_app, !NoDup_cons, !NoDup_app, !NoDup_cons.
  intros (Hk & Hd & Ha & Hda & Hx & Hb & Hdb & Hy & Hdd).
  split_and!; [set_solver +Hx|set_solver +Hd|set_solver +Hd|..|done|done];
    intros q Hq; split_and!; try intros ->; set_solver.
Qed.

Lemma rb_rotate_left_run st k cx a x cy b y d :
  zrep st k (N cx a x (N cy b y d)) ->
  exists st', __rb_rotate_left x st = Some (tt, st') /\ zrep st' k (N cy (N cx a x b) y d).
Proof.
  intros Hz. pose proof (zrep_focus _ _ _ Hz) as (_ & _ & _ & Hvk & Hvt).
  pose proof (zrep_aligned _ _ _ Hz) as HP.
  destruct Hz as [(Hx & Ha & Hy & Hb & Hd) Hc Hnd Hv]. cbn in Hnd.
  pose proof (rotate_distinct k _ _ _ _ _ Hnd)
    as (Hxy & Hxk & Hyk & Hqa & Hqb & Hqd & Hqk & Hnk & Hnb).
  assert (valid x /\ valid y /\ Forall valid (inorder b)) as ([Hax Hx0] & [Hay Hy0] & Hvb).
  { cbn in Hvt. rewrite !Forall_app, !Forall_cons, !Forall_app, !Forall_cons in Hvt. tauto. }
  unfold __rb_rotate_left.
  erewrite bind_run by (by apply load_run). cbn [tptr rb_right] in *. rewrite rb_parent_pack by done.
  erewrite bind_run by (by apply load_run). cbn [rb_left].
  erewrite bind_run by (by eapply set_right_run). cbn [rb_parent_color rb_left].
  set (st1 := upd x _ st).
  destruct (reparent_run st1 y x b) as (st2 & Hr2 & Hb2 & Hrt2 & Hs2); [|done..|].
  { eapply rep_frame; [done|]. intros q Hq. apply lookup_insert_ne.
    destruct (Hqb q Hq); congruence. }
  erewrite bind_run by done.
  assert (nodes st2 !! y = Some (RbNode (x + colZ cy) (tptr d) (tptr b))) as Hy2.
  { rewrite Hs2 by (intros Hq; by destruct (Hqb y Hq) as (_ & ? & _)).
    cbn. by rewrite lookup_insert_ne. }
  erewrite bind_run by (by eapply set_left_run). cbn [rb_parent_color rb_right].
  set (st3 := upd y _ st2).
  erewrite bind_run.
  2:{ eapply (rb_set_parent_run _ _ x); [cbn; by rewrite lookup_insert_eq|done|done]. }
  set (st4 := upd y _ st3).
  assert (forall q, q <> x -> q <> y -> q ∉ inorder b -> nodes st4 !! q = nodes st !! q) as Hs4.
  { intros q ???. cbn. rewrite !lookup_insert_ne by done. rewrite Hs2 by done.
    cbn. by rewrite lookup_insert_ne. }
  destruct (change_child_run st4 k x y) as (st5 & Hr5 & Hc5 & Hs5); [|done..|].
  { cbn. rewrite Hrt2. cbn. eapply crep_frame; [done|]. intros q Hq.
    destruct (Hqk q Hq) as (?&?&?). apply Hs4; done. }
  unfold change_child in Hr5.
  erewrite bind_run.
  2:{ rewrite <-Hr5. destruct (cptr k =? 0); [done|]. unfold mbind, M_bind.
      destruct (load (cptr k) st4) as [[pn st4']|]; [|done]. by rewrite (Z.eqb_sym x). }
  assert (nodes st5 !! x = Some (RbNode (cptr k + colZ cx) (tptr b) (tptr a))) as Hx5.
  { rewrite Hs5 by done. cbn. rewrite !lookup_insert_ne by done.
    rewrite Hs2 by (intros Hq; by destruct (Hqb x Hq)). cbn. by rewrite lookup_insert_eq. }
  eexists. split; [by apply (rb_set_parent_run _ _ (cptr k))|].
  assert (forall q, q <> x -> q <> y -> q ∉ inorder b -> q ∉ cids k ->
    nodes (upd x (RbNode (y + colZ cx) (tptr b) (tptr a)) st5) !! q = nodes st !! q) as Hs6.
  { intros q ????. cbn. rewrite lookup_insert_ne by done. rewrite Hs5 by done. by apply Hs4. }
  split; cbn [cptr tptr root upd].
  - cbn -[upd]. split_and!.
    + cbn. rewrite lookup_insert_ne by done. rewrite Hs5 by done. cbn. by rewrite lookup_insert_eq.
    + cbn. by rewrite lookup_insert_eq.
    + eapply rep_frame; [done|]. intros q Hq. destruct (Hqa q Hq) as (?&?&?&?). by apply Hs6.
    + eapply rep_frame; [done|]. intros q Hq. destruct (Hqb q Hq) as (?&?&?).
      cbn. rewrite lookup_insert_ne by done. rewrite Hs5 by done. cbn. by rewrite !lookup_insert_ne.
    + eapply rep_frame; [done|]. intros q Hq. destruct (Hqd q Hq) as (?&?&?&?). by apply Hs6.
  - eapply crep_frame; [done|]. intros q Hq. destruct (Hqk q Hq) as (?&?&?).
    cbn. by rewrite lookup_insert_ne.
  - cbn. by rewrite <-app_assoc in *.
  - cbn in *. by rewrite <-app_assoc in *.
Qed.

Lemma rb_rotate_right_run st k cx a x cy b y d :
  zrep st k (N cy (N cx a x b) y d) ->
  exists st', __rb_rotate_right y st = Some (tt, st') /\ zrep st' k (N cx a x (N cy b y d)).
Proof.
  intros Hz. pose proof (zrep_focus _ _ _ Hz) as (_ & _ & _ & Hvk & Hvt).
  pose proof (zrep_aligned _ _ _ Hz) as HP.
  destruct Hz as [(Hy & (Hx & Ha & Hb) & Hd) Hc Hnd Hv]. cbn in Hnd.
  rewrite <-app_assoc in Hnd. cbn in Hnd.
  pose proof (rotate_distinct k _ _ _ _ _ Hnd)
    as (Hxy & Hxk & Hyk & Hqa & Hqb & Hqd & Hqk & Hnk & Hnb).
  assert (valid x /\ valid y /\ Forall valid (inorder b)) as ([Hax Hx0] & [Hay Hy0] & Hvb).
  { cbn in Hvt. rewrite !Forall_app, !Forall_cons in Hvt. tauto. }
  unfold __rb_rotate_right.
  erewrite bind_run by (by apply load_run). cbn [tptr rb_left] in *. rewrite rb_parent_pack by done.
  erewrite bind_run by (by apply load_run). cbn [rb_right].
  erewrite bind_run by (by eapply set_left_run). cbn [rb_parent_color rb_right].
  set (st1 := upd y _ st).
  destruct (reparent_run st1 x y b) as (st2 & Hr2 & Hb2 & Hrt2 & Hs2); [|done..|].
  { eapply rep_frame; [done|]. intros q Hq. apply lookup_insert_ne.
    destruct (Hqb q Hq) as (?&?&?); congruence. }
  erewrite bind_run by done.
  assert (nodes st2 !! x = Some (RbNode (y + colZ cx) (tptr b) (tptr a))) as Hx2.
  { rewrite Hs2 by (intros Hq; by destruct (Hqb x Hq)). cbn. by rewrite lookup_insert_ne. }
  erewrite bind_run by (by eapply set_right_run). cbn [rb_parent_color rb_left].
  set (st3 := upd x _ st2).
  erewrite bind_run.
  2:{ eapply (rb_set_parent_run _ _ y); [cbn; by rewrite lookup_insert_eq|done|done]. }
  set (st4 := upd x _ st3).
  assert (forall q, q <> x -> q <> y -> q ∉ inorder b -> nodes st4 !! q = nodes st !! q) as Hs4.
  { intros q ???. cbn. rewrite !lookup_insert_ne by done. rewrite Hs2 by done.
    cbn. by rewrite lookup_insert_ne. }
  destruct (change_child_r_run st4 k y x) as (st5 & Hr5 & Hc5 & Hs5); [|done..|].
  { cbn. rewrite Hrt2. cbn. eapply crep_frame; [done|]. intros q Hq.
    destruct (Hqk q Hq) as (?&?&?). apply Hs4; done. }
  erewrite bind_run by done.
  assert (nodes st5 !! y = Some (RbNode (cptr k + colZ cy) (tptr d) (tptr b))) as Hy5.
  { rewrite Hs5 by done. cbn. rewrite !lookup_insert_ne by done.
    rewrite Hs2 by (intros Hq; by destruct (Hqb y Hq) as (_ & ? & _)).
    cbn. by rewrite lookup_insert_eq. }
  eexists. split; [by apply (rb_set_parent_run _ _ (cptr k))|].
  assert (forall q, q <> x -> q <> y -> q ∉ inorder b -> q ∉ cids k ->
    nodes (upd y (RbNode (x + colZ cy) (tptr d) (tptr b)) st5) !! q = nodes st !! q) as Hs6.
  { intros q ????. cbn. rewrite lookup_insert_ne by done. rewrite Hs5 by done. by apply Hs4. }
  split; cbn [cptr tptr root upd].
  - cbn -[upd]. split_and!.
    + cbn. rewrite lookup_insert_ne by done. rewrite Hs5 by done. cbn. by rewrite lookup_insert_eq.
    + eapply rep_frame; [done|]. intros q Hq. destruct (Hqa q Hq) as (?&?&?&?). by apply Hs6.
    + cbn. by rewrite lookup_insert_eq.
    + eapply rep_frame; [done|]. intros q Hq. destruct (Hqb q Hq) as (?&?&?).
      cbn. rewrite lookup_insert_ne by done. rewrite Hs5 by done. cbn. by rewrite !lookup_insert_ne.
    + eapply rep_frame; [done|]. intros q Hq. destruct (Hqd q Hq) as (?&?&?&?). by apply Hs6.
  - eapply crep_frame; [done|]. intros q Hq. destruct (Hqk q Hq) as (?&?&?).
    cbn. by rewrite lookup_insert_ne.
  - done.
  - cbn in *. by rewrite <-app_assoc in Hv.
Qed.

End rotations.

(** ** The red-black invariant *)
Definition tcolor (t : tree) : color := match t with L => Black | N c _ _ _ => c end.

(** [rbt c n t]: the root of [t] has colour [c] (a leaf is black), no red node
    has a red child, and every path to a leaf passes [n] black nodes. *)
Inductive rbt : color -> nat -> tree -> Prop :=
  | rbt_L : rbt Black 0 L
  | rbt_R n l x r : rbt Black n l -> rbt Black n r -> rbt Red n (N Red l x r)
  | rbt_B n cl cr l x r : rbt cl n l -> rbt cr n r -> rbt Black (S n) (N Black l x r).

(** [crb k c n]: a subtree of colour [c] and black height [n] fits the hole of
    [k], and the whole tree has a black root. *)
Inductive crb : ctx -> color -> nat -> Prop :=
  | crb_nil n : crb [] Black n
  | crb_LR x r k n : rbt Black n r -> crb k Red n -> crb (Lf Red x r :: k) Black n
  | crb_RR l x k n : rbt Black n l -> crb k Red n -> crb (Rf Red l x :: k) Black n
  | crb_LB x r k c c' n : rbt c' n r -> crb k Black (S n) -> crb (Lf Black x r :: k) c n
  | crb_RB l x k c c' n : rbt c' n l -> crb k Black (S n) -> crb (Rf Black l x :: k) c n.

(** The trees [rb_root] holds between two operations. *)
Definition is_rb (t : tree) : Prop := exists n, rbt Black n t.

Create HintDb rb discriminated.
#[export] Hint Constructors rbt crb : rb.

Lemma rbt_tcolor c n t : rbt c n t -> tcolor t = c.
Proof. by destruct 1. Qed.

Lemma crb_weaken k n : crb k Red n -> crb k Black n.
Proof. inversion 1; subst; eauto with rb. Qed.
#[export] Hint Resolve crb_weaken : rb.

Lemma crb_plug k c n t : crb k c n -> rbt c n t -> is_rb (plug k t).
Proof.
  intros Hc. revert t; induction Hc; intros t Ht; cbn; [by exists n|..]; eauto with rb.
Qed.

Lemma plug_crb k t : is_rb (plug k t) -> exists c n, rbt c n t /\ crb k c n.
Proof.
  revert t; induction k as [|f k IH]; intros t Hp; [destruct Hp as [n ?]; eauto with rb|].
  apply IH in Hp as (c & n & Ht & Hk).
  destruct f; inversion Ht; subst; eauto 10 with rb.
Qed.

(** ** Insertion *)
(** Runs the next operation of a sequence with the lemma [H] that gives its
    final state. *)
Ltac zrun H st Hz :=
  let Hr := fresh in
  destruct H as (st & Hr & Hz); erewrite bind_run by exact Hr; clear Hr.

Section insertion.
Implicit Types (st : rb_state) (k : ctx) (t l r u : tree).

Lemma nonnull_red_run st k t : zrep st k t ->
  nonnull_red (tptr t) st = Some (bool_decide (tcolor t = Red), st).
Proof.
  intros Hz. unfold nonnull_red. destruct t as [|c l x r]; [done|]. cbn [tptr].
  destruct (zrep_valid _ _ _ _ _ _ Hz) as [_ Hx]. rewrite (proj2 (Z.eqb_neq x 0) Hx).
  erewrite bind_run by (by eapply zrep_load). unfold rb_is_red.
  rewrite rb_color_pack by eauto with kernel. by destruct c.
Qed.

Lemma null_or_black_run st k t : zrep st k t ->
  null_or_black (tptr t) st = Some (bool_decide (tcolor t = Black), st).
Proof.
  intros Hz. unfold null_or_black. destruct t as [|c l x r]; [done|]. cbn [tptr].
  destruct (zrep_valid _ _ _ _ _ _ Hz) as [_ Hx]. rewrite (proj2 (Z.eqb_neq x 0) Hx).
  erewrite bind_run by (by eapply zrep_load). unfold rb_is_black.
  rewrite rb_color_pack by eauto with kernel. by destruct c.
Qed.

Definition fcolor (f : frame) : color := match f with Lf c _ _ => c | Rf c _ _ => c end.

(** The parent of the node in focus, as the code reads it. *)
Lemma zrep_parent_valid st f k t : zrep st (f :: k) t -> valid (cptr (f :: k)).
Proof.
  intros [_ _ _ Hv]. rewrite Forall_forall in Hv. apply Hv, elem_of_app. left. by apply cptr_in.
Qed.

Lemma zrep_ne_tptr st f k t : zrep st (f :: k) t -> tptr t <> 0 ->
  match f with Lf _ _ r => tptr t <> tptr r | Rf _ l _ => tptr t <> tptr l end.
Proof.
  intros [_ _ Hn _] H0. destruct t as [|c l x r]; [done|]. cbn in H0 |- *.
  apply NoDup_app in Hn as (_ & Hn & _).
  destruct f as [c' y s|c' s y]; intros E; (destruct s as [|? ? z ?]; cbn in E; [done|]);
    subst z; apply (Hn x); cbn; set_solver +.
Qed.

(** With no parent, or a black one, the loop is done. *)
Lemma insert_loop_stop st k c l x r fuel :
  zrep st k (N c l x r) -> match k with [] => True | f :: _ => fcolor f = Black end ->
  rb_insert_color_loop (S fuel) x st = Some (tt, st).
Proof.
  intros Hz Hk. cbn [rb_insert_color_loop].
  erewrite bind_run by (by eapply zrep_load). rewrite rb_parent_pack by eauto with kernel.
  destruct k as [|f k]; [done|].
  destruct (zrep_parent_valid _ _ _ _ Hz) as [_ Hp0].
  rewrite (proj2 (Z.eqb_neq _ _) Hp0).
  apply zrep_fill in Hz. pose proof (zrep_aligned _ _ _ Hz) as Ha.
  destruct f as [c' y s|c' s y]; cbn in Hk; subst c'; cbn [cptr fill] in *;
    (erewrite bind_run by (by eapply zrep_load)); unfold rb_is_red;
    by rewrite rb_color_pack.
Qed.

(** With a red parent the loop looks at the grandparent: one equation for each
    side the parent can be on. *)
Lemma insert_loop_red_l st f c gp u k cx l x r fuel :
  zrep st (f :: Lf c gp u :: k) (N cx l x r) -> fcolor f = Red ->
  let parent := cptr (f :: Lf c gp u :: k) in
  rb_insert_color_loop (S fuel) x st =
    (if bool_decide (tcolor u = Red) then
       rb_set_black (tptr u) ;; rb_set_black parent ;; rb_set_red gp ;;
       rb_insert_color_loop fuel gp
     else if match f with Lf _ _ _ => false | Rf _ _ _ => true end then
       __rb_rotate_left parent ;;
       rb_set_black x ;; rb_set_red gp ;; __rb_rotate_right gp ;;
       rb_insert_color_loop fuel parent
     else
       rb_set_black parent ;; rb_set_red gp ;; __rb_rotate_right gp ;;
       rb_insert_color_loop fuel x) st.
Proof.
  intros Hz Hf. cbn zeta. cbn [rb_insert_color_loop].
  destruct (zrep_parent_valid _ _ _ _ Hz) as [_ Hp0].
  destruct (zrep_valid _ _ _ _ _ _ Hz) as [_ Hx0].
  pose proof (zrep_ne_tptr _ _ _ _ Hz Hx0) as Hne.
  erewrite bind_run by (by eapply zrep_load). rewrite rb_parent_pack by eauto with kernel.
  rewrite (proj2 (Z.eqb_neq _ _) Hp0).
  apply zrep_fill in Hz.
  destruct (zrep_parent_valid _ _ _ _ Hz) as [_ Hg0].
  pose proof (zrep_aligned _ _ _ Hz) as Ha. cbn [cptr] in Hg0, Ha.
  pose proof (proj1 (zrep_Lf _ _ _ _ _ _) Hz) as Hz2.
  pose proof (proj2 (zrep_Rf _ _ _ _ _ _) Hz2) as Hz3.
  destruct f as [c' y s|c' s y]; cbn in Hf; subst c'; cbn [cptr fill] in *;
    (erewrite bind_run by (by eapply zrep_load)); rewrite rb_is_red_pack by done;
    cbn [is_red negb]; rewrite rb_parent_pack by done;
    (erewrite bind_run by (by eapply zrep_load)); cbn [rb_left rb_right tptr];
    rewrite Z.eqb_refl; (erewrite bind_run by (by eapply nonnull_red_run));
    destruct (bool_decide (tcolor u = Red)); try done;
    (erewrite bind_run by (by eapply zrep_load)); cbn [rb_left rb_right tptr] in *.
  - by rewrite (proj2 (Z.eqb_neq _ _) (not_eq_sym Hne)).
  - by rewrite Z.eqb_refl.
Qed.

Lemma insert_loop_red_r st f c gp u k cx l x r fuel :
  zrep st (f :: Rf c u gp :: k) (N cx l x r) -> fcolor f = Red ->
  let parent := cptr (f :: Rf c u gp :: k) in
  rb_insert_color_loop (S fuel) x st =
    (if bool_decide (tcolor u = Red) then
       rb_set_black (tptr u) ;; rb_set_black parent ;; rb_set_red gp ;;
       rb_insert_color_loop fuel gp
     else if match f with Lf _ _ _ => true | Rf _ _ _ => false end then
       __rb_rotate_right parent ;;
       rb_set_black x ;; rb_set_red gp ;; __rb_rotate_left gp ;;
       rb_insert_color_loop fuel parent
     else
       rb_set_black parent ;; rb_set_red gp ;; __rb_rotate_left gp ;;
       rb_insert_color_loop fuel x) st.
Proof.
  intros Hz Hf. cbn zeta. cbn [rb_insert_color_loop].
  destruct (zrep_parent_valid _ _ _ _ Hz) as [_ Hp0].
  destruct (zrep_valid _ _ _ _ _ _ Hz) as [_ Hx0].
  pose proof (zrep_ne_tptr _ _ _ _ Hz Hx0) as Hne.
  erewrite bind_run by (by eapply zrep_load). rewrite rb_parent_pack by eauto with kernel.
  rewrite (proj2 (Z.eqb_neq _ _) Hp0).
  apply zrep_fill in Hz.
  destruct (zrep_parent_valid _ _ _ _ Hz) as [_ Hg0].
  assert (cptr (f :: Rf c u gp :: k) <> tptr u) as Hpu.
  { pose proof (zrep_ne_tptr _ _ _ _ Hz) as H. cbn in H.
    destruct f; cbn in *; by apply H. }
  pose proof (zrep_aligned _ _ _ Hz) as Ha. cbn [cptr] in Hg0, Ha.
  pose proof (proj1 (zrep_Rf _ _ _ _ _ _) Hz) as Hz2.
  pose proof (proj2 (zrep_Lf _ _ _ _ _ _) Hz2) as Hz3.
  destruct f as [c' y s|c' s y]; cbn in Hf; subst c'; cbn [cptr fill] in *;
    (erewrite bind_run by (by eapply zrep_load)); rewrite rb_is_red_pack by done;
    cbn [is_red negb]; rewrite rb_parent_pack by done;
    (erewrite bind_run by (by eapply zrep_load)); cbn [rb_left rb_right tptr];
    rewrite (proj2 (Z.eqb_neq _ _) Hpu); (erewrite bind_run by (by eapply nonnull_red_run));
    destruct (bool_decide (tcolor u = Red)); try done;
    (erewrite bind_run by (by eapply zrep_load)); cbn [rb_left rb_right tptr] in *.
  - by rewrite Z.eqb_refl.
  - by rewrite (proj2 (Z.eqb_neq _ _) (not_eq_sym Hne)).
Qed.

Lemma plug_app k k' t : plug (k ++ k') t = plug k' (plug k t).
Proof. apply fold_left_app. Qed.

Lemma zrep_root st k t : zrep st k t -> zrep st [] (plug k t).
Proof. intros Hz. apply zrep_plug. by rewrite app_nil_r. Qed.

(** The case of a red uncle: the three nodes are recoloured. *)
Lemma insert_recolor_l st k pl p pr gp ul ux ur (rest : M rb_state unit) :
  zrep st k (N Black (N Red pl p pr) gp (N Red ul ux ur)) ->
  exists st', (rb_set_black ux ;; rb_set_black p ;; rb_set_red gp ;; rest) st = rest st' /\
    zrep st' k (N Red (N Black pl p pr) gp (N Black ul ux ur)).
Proof.
  intros Hz. apply zdn_R in Hz. zrun (rb_set_black_run _ _ _ _ _ _ Hz) st1 Hz1.
  apply zup_R, zdn_L in Hz1. zrun (rb_set_black_run _ _ _ _ _ _ Hz1) st2 Hz2.
  apply zup_L in Hz2. zrun (rb_set_red_run _ _ _ _ _ _ Hz2) st3 Hz3. by exists st3.
Qed.

Lemma insert_recolor_r st k pl p pr gp ul ux ur (rest : M rb_state unit) :
  zrep st k (N Black (N Red ul ux ur) gp (N Red pl p pr)) ->
  exists st', (rb_set_black ux ;; rb_set_black p ;; rb_set_red gp ;; rest) st = rest st' /\
    zrep st' k (N Red (N Black ul ux ur) gp (N Black pl p pr)).
Proof.
  intros Hz. apply zdn_L in Hz. zrun (rb_set_black_run _ _ _ _ _ _ Hz) st1 Hz1.
  apply zup_L, zdn_R in Hz1. zrun (rb_set_black_run _ _ _ _ _ _ Hz1) st2 Hz2.
  apply zup_R in Hz2. zrun (rb_set_red_run _ _ _ _ _ _ Hz2) st3 Hz3. by exists st3.
Qed.

(** The cases of a black uncle: one or two rotations. *)
Lemma insert_rotate_l st k pl p pr gp u (rest : M rb_state unit) :
  zrep st k (N Black (N Red pl p pr) gp u) ->
  exists st', (rb_set_black p ;; rb_set_red gp ;; __rb_rotate_right gp ;; rest) st = rest st' /\
    zrep st' k (N Black pl p (N Red pr gp u)).
Proof.
  intros Hz. apply zdn_L in Hz. zrun (rb_set_black_run _ _ _ _ _ _ Hz) st1 Hz1.
  apply zup_L in Hz1. zrun (rb_set_red_run _ _ _ _ _ _ Hz1) st2 Hz2.
  zrun (rb_rotate_right_run _ _ _ _ _ _ _ _ _ Hz2) st3 Hz3. by exists st3.
Qed.

Lemma insert_rotate_r st k pl p pr gp u (rest : M rb_state unit) :
  zrep st k (N Black u gp (N Red pl p pr)) ->
  exists st', (rb_set_black p ;; rb_set_red gp ;; __rb_rotate_left gp ;; rest) st = rest st' /\
    zrep st' k (N Black (N Red u gp pl) p pr).
Proof.
  intros Hz. apply zdn_R in Hz. zrun (rb_set_black_run _ _ _ _ _ _ Hz) st1 Hz1.
  apply zup_R in Hz1. zrun (rb_set_red_run _ _ _ _ _ _ Hz1) st2 Hz2.
  zrun (rb_rotate_left_run _ _ _ _ _ _ _ _ _ Hz2) st3 Hz3. by exists st3.
Qed.

(** What one call of the loop establishes: it ends in a state that holds a tree
    with the same nodes in the same order that is red-black up to the colour of
    its root. *)
Definition insert_post st (node : Z) (fuel : nat) (order : list Z) : Prop :=
  exists st' t c m, rb_insert_color_loop fuel node st = Some (tt, st') /\
    zrep st' [] t /\ inorder t = order /\ rbt c m t.

Lemma insert_post_stop st k c l x r fuel m :
  zrep st k (N c l x r) -> match k with [] => True | f :: _ => fcolor f = Black end ->
  rbt c m (N c l x r) -> crb k c m -> insert_post st x (S fuel) (inorder (plug k (N c l x r))).
Proof.
  intros Hz Hk Ht Hc. destruct (crb_plug _ _ _ _ Hc Ht) as [m' ?].
  exists st, (plug k (N c l x r)), Black, m'. split_and!; [|by apply zrep_root|done|done].
  by eapply insert_loop_stop.
Qed.

Lemma insert_step_l fuel st f gp u k n l x r :
  zrep st (f :: Lf Black gp u :: k) (N Red l x r) -> rbt Red n (N Red l x r) ->
  crb (f :: Lf Black gp u :: k) Black n -> fcolor f = Red ->
  (forall st gl gx gr, zrep st k (N Red gl gx gr) -> rbt Red (S n) (N Red gl gx gr) ->
     crb k Black (S n) -> insert_post st gx fuel (inorder (plug k (N Red gl gx gr)))) ->
  (0 < fuel)%nat ->
  insert_post st x (S fuel) (inorder (plug (f :: Lf Black gp u :: k) (N Red l x r))).
Proof.
  intros Hz Ht Hc Hf IH Hfuel. destruct fuel as [|fuel]; [lia|].
  inversion Ht as [|? ? ? ? Hl Hr|]; subst. unfold insert_post.
  rewrite (insert_loop_red_l _ _ _ _ _ _ _ _ _ _ _ Hz Hf).
  apply zrep_fill, zup_L in Hz. case_bool_decide as Hu.
  - destruct u as [|cu ul ux ur]; [done|]. cbn in Hu. subst cu.
    destruct f as [cf y s|cf s y]; cbn in Hf; subst cf; cbn [fill cptr tptr] in *;
      inversion Hc as [|? ? ? ? Hs Hk|? ? ? ? Hs Hk| |]; subst;
      inversion Hk as [| | |? ? ? ? ? ? Hu Hk'|]; subst; inversion Hu; subst;
      destruct (insert_recolor_l _ _ _ _ _ _ _ _ _ (rb_insert_color_loop (S fuel) gp) Hz)
        as (st' & -> & Hz');
      (edestruct IH as (st2 & t2 & c2 & m2 & ?&?&Ho&?); [done|by eauto with rb|done|]);
      (exists st2, t2, c2, m2; split_and!; [done..| |done]);
      rewrite Ho, !inorder_plug; cbn; rewrite ?inorder_plug; cbn; by simplify_list_eq.
  - assert (tcolor u = Black) as Hub by (by destruct (tcolor u)).
    destruct f as [cf y s|cf s y]; cbn in Hf; subst cf; cbn [fill cptr tptr] in *;
      inversion Hc as [|? ? ? ? Hs Hk|? ? ? ? Hs Hk| |]; subst;
      inversion Hk as [| | |? ? ? ? ? ? Hrb Hk'|]; subst;
      pose proof (rbt_tcolor _ _ _ Hrb); subst; rewrite Hub in Hrb.
    + destruct (insert_rotate_l _ _ _ _ _ _ _ (rb_insert_color_loop (S fuel) x) Hz)
        as (st' & -> & Hz').
      apply zdn_L in Hz'.
      edestruct insert_post_stop as (st2 & t2 & c2 & m2 & ?&?&Ho&?);
        [exact Hz'|done|done|by eauto with rb|].
      exists st2, t2, c2, m2. split_and!; [done..| |done].
      rewrite Ho, !inorder_plug. cbn. by simplify_list_eq.
    + apply zdn_L in Hz. zrun (rb_rotate_left_run _ _ _ _ _ _ _ _ _ Hz) st1 Hz1.
      apply zup_L in Hz1.
      destruct (insert_rotate_l _ _ _ _ _ _ _ (rb_insert_color_loop (S fuel) y) Hz1)
        as (st' & -> & Hz').
      apply zdn_L in Hz'.
      edestruct insert_post_stop as (st2 & t2 & c2 & m2 & ?&?&Ho&?);
        [exact Hz'|done|by eauto with rb..|].
      exists st2, t2, c2, m2. split_and!; [done..| |done].
      rewrite Ho, !inorder_plug. cbn. by simplify_list_eq.
Qed.

Lemma insert_step_r fuel st f gp u k n l x r :
  zrep st (f :: Rf Black u gp :: k) (N Red l x r) -> rbt Red n (N Red l x r) ->
  crb (f :: Rf Black u gp :: k) Black n -> fcolor f = Red ->
  (forall st gl gx gr, zrep st k (N Red gl gx gr) -> rbt Red (S n) (N Red gl gx gr) ->
     crb k Black (S n) -> insert_post st gx fuel (inorder (plug k (N Red gl gx gr)))) ->
  (0 < fuel)%nat ->
  insert_post st x (S fuel) (inorder (plug (f :: Rf Black u gp :: k) (N Red l x r))).
Proof.
  intros Hz Ht Hc Hf IH Hfuel. destruct fuel as [|fuel]; [lia|].
  inversion Ht as [|? ? ? ? Hl Hr|]; subst. unfold insert_post.
  rewrite (insert_loop_red_r _ _ _ _ _ _ _ _ _ _ _ Hz Hf).
  apply zrep_fill, zup_R in Hz. case_bool_decide as Hu.
  - destruct u as [|cu ul ux ur]; [done|]. cbn in Hu. subst cu.
    destruct f as [cf y s|cf s y]; cbn in Hf; subst cf; cbn [fill cptr tptr] in *;
      inversion Hc as [|? ? ? ? Hs Hk|? ? ? ? Hs Hk| |]; subst;
      inversion Hk as [| | | |? ? ? ? ? ? Hu Hk']; subst; inversion Hu; subst;
      destruct (insert_recolor_r _ _ _ _ _ _ _ _ _ (rb_insert_color_loop (S fuel) gp) Hz)
        as (st' & -> & Hz');
      (edestruct IH as (st2 & t2 & c2 & m2 & ?&?&Ho&?); [done|by eauto with rb|done|]);
      (exists st2, t2, c2, m2; split_and!; [done..| |done]);
      rewrite Ho, !inorder_plug; cbn; rewrite ?inorder_plug; cbn; by simplify_list_eq.
  - assert (tcolor u = Black) as Hub by (by destruct (tcolor u)).
    destruct f as [cf y s|cf s y]; cbn in Hf; subst cf; cbn [fill cptr tptr] in *;
      inversion Hc as [|? ? ? ? Hs Hk|? ? ? ? Hs Hk| |]; subst;
      inversion Hk as [| | | |? ? ? ? ? ? Hrb Hk']; subst;
      pose proof (rbt_tcolor _ _ _ Hrb); subst; rewrite Hub in Hrb.
    + apply zdn_R in Hz. zrun (rb_rotate_right_run _ _ _ _ _ _ _ _ _ Hz) st1 Hz1.
      apply zup_R in Hz1.
      destruct (insert_rotate_r _ _ _ _ _ _ _ (rb_insert_color_loop (S fuel) y) Hz1)
        as (st' & -> & Hz').
      apply zdn_R in Hz'.
      edestruct insert_post_stop as (st2 & t2 & c2 & m2 & ?&?&Ho&?);
        [exact Hz'|done|by eauto with rb..|].
      exists st2, t2, c2, m2. split_and!; [done..| |done].
      rewrite Ho, !inorder_plug. cbn. by simplify_list_eq.
    + destruct (insert_rotate_r _ _ _ _ _ _ _ (rb_insert_color_loop (S fuel) x) Hz)
        as (st' & -> & Hz').
      apply zdn_R in Hz'.
      edestruct insert_post_stop as (st2 & t2 & c2 & m2 & ?&?&Ho&?);
        [exact Hz'|done|done|by eauto with rb|].
      exists st2, t2, c2, m2. split_and!; [done..| |done].
      rewrite Ho, !inorder_plug. cbn. by simplify_list_eq.
Qed.

Lemma insert_loop_run fuel st k n l x r :
  zrep st k (N Red l x r) -> rbt Red n (N Red l x r) -> crb k Black n -> (length k < fuel)%nat ->
  insert_post st x fuel (inorder (plug k (N Red l x r))).
Proof.
  revert st k n l x r. induction fuel as [|fuel IH]; intros st k n l x r Hz Ht Hc Hf; [lia|].
  destruct k as [|f k].
  { exists st, (N Red l x r), Red, n. split_and!; [by eapply insert_loop_stop|done..]. }
  destruct (fcolor f) eqn:Hfc.
  2:{ eapply insert_post_stop; [done..|]. destruct f; cbn in Hfc; subst; inversion Hc; subst; eauto with rb. }
  assert (exists g k', k = g :: k' /\ fcolor g = Black) as (g & k' & -> & Hg).
  { destruct f; cbn in Hfc; subst; inversion Hc; subst;
      match goal with H : crb k Red _ |- _ => inversion H end; eauto. }
  destruct g as [cg gp u|cg u gp]; cbn in Hg; subst cg.
  - eapply insert_step_l; [done..| |cbn in Hf; lia]. intros.
    apply IH with (n := S n); [done..|cbn in Hf; lia].
  - eapply insert_step_r; [done..| |cbn in Hf; lia]. intros.
    apply IH with (n := S n); [done..|cbn in Hf; lia].
Qed.

End insertion.

(** ** Removal: rebalancing *)
Section erase_color.
Implicit Types (st : rb_state) (k : ctx) (t l r s a b : tree).

(** The body of the loop after the red-sibling case, for each side. *)
Definition erase_tail_l (fuel : nat) (parent : Z) : M rb_state Z :=
  pn ← load parent;
  let other := rb_right pn in
  on ← load other;
  bl ← null_or_black (rb_left on);
  br ← null_or_black (rb_right on);
  if (bl : bool) && (br : bool) then
    rb_set_red other ;;
    pn ← load parent;
    __rb_erase_color_loop fuel parent (rb_parent pn)
  else
    (if (br : bool) then
       rb_set_black (rb_left on) ;; rb_set_red other ;; __rb_rotate_right other
     else mret tt) ;;
    pn ← load parent;
    let other := rb_right pn in
    rb_set_color other (rb_color pn) ;;
    rb_set_black parent ;;
    on ← load other;
    rb_set_black (rb_right on) ;;
    __rb_rotate_left parent ;;
    get_root.

Definition erase_tail_r (fuel : nat) (parent : Z) : M rb_state Z :=
  pn ← load parent;
  let other := rb_left pn in
  on ← load other;
  bl ← null_or_black (rb_left on);
  br ← null_or_black (rb_right on);
  if (bl : bool) && (br : bool) then
    rb_set_red other ;;
    pn ← load parent;
    __rb_erase_color_loop fuel parent (rb_parent pn)
  else
    (if (bl : bool) then
       rb_set_black (rb_right on) ;; rb_set_red other ;; __rb_rotate_left other
     else mret tt) ;;
    pn ← load parent;
    let other := rb_left pn in
    rb_set_color other (rb_color pn) ;;
    rb_set_black parent ;;
    on ← load other;
    rb_set_black (rb_left on) ;;
    __rb_rotate_right parent ;;
    get_root.

Lemma crep_root_in h k hole rt : crep h k hole rt -> k <> [] -> rt ∈ cids k.
Proof.
  revert hole; induction k as [|f k IH]; intros hole; [done|]. intros Hc _.
  destruct k as [|f' k].
  - destruct f; cbn in Hc; destruct Hc as (_ & _ & ->); cbn; set_solver +.
  - change (cids (f :: f' :: k)) with (fids f ++ cids (f' :: k)). apply elem_of_app. right.
    destruct f; destruct Hc as (_ & _ & Hc); by eapply IH.
Qed.

Lemma zrep_not_root st f k t : zrep st (f :: k) t -> tptr t <> root st.
Proof.
  intros [_ Hc Hn Hv] E. apply crep_root_in in Hc; [|done]. rewrite <-E in Hc.
  destruct t as [|c l x r].
  - rewrite Forall_forall in Hv. destruct (Hv 0) as [_ ?]; [|done]. apply elem_of_app. by left.
  - apply NoDup_app in Hn as (_ & Hn & _). apply (Hn _ Hc). cbn. set_solver +.
Qed.

(** A red or root focus ends the loop. *)
Lemma erase_loop_stop st k t fuel parent :
  zrep st k t -> tcolor t = Red \/ k = [] ->
  __rb_erase_color_loop (S fuel) (tptr t) parent st = Some (tptr t, st).
Proof.
  intros Hz Hs. cbn [__rb_erase_color_loop].
  erewrite bind_run by (by eapply null_or_black_run).
  erewrite bind_run by done. destruct Hs as [->| ->]; [done|].
  destruct Hz as [_ Hc _ _]. cbn in Hc. rewrite Hc, Z.eqb_refl. by rewrite andb_false_r.
Qed.

Lemma erase_loop_l st cp p cs sl sx sr k t fuel :
  zrep st (Lf cp p (N cs sl sx sr) :: k) t -> tcolor t = Black ->
  __rb_erase_color_loop (S fuel) (tptr t) p st =
    ((if is_red cs then rb_set_black sx ;; rb_set_red p ;; __rb_rotate_left p else mret tt) ;;
     erase_tail_l fuel p) st.
Proof.
  intros Hz Ht. cbn [__rb_erase_color_loop].
  erewrite bind_run by (by eapply null_or_black_run).
  erewrite bind_run by done. rewrite Ht.
  rewrite (proj2 (Z.eqb_neq _ _) (zrep_not_root _ _ _ _ Hz)).
  rewrite bool_decide_true by done. cbn [negb andb].
  apply zup_L in Hz. pose proof (zdn_R _ _ _ _ _ _ Hz) as Hs.
  erewrite bind_run by (by eapply zrep_load). cbn [rb_left rb_right tptr].
  rewrite Z.eqb_refl. cbn match. erewrite bind_run by (by eapply zrep_load).
  by rewrite rb_is_red_pack by eauto with kernel.
Qed.

Lemma erase_loop_r st cp p cs sl sx sr k t fuel :
  zrep st (Rf cp (N cs sl sx sr) p :: k) t -> tcolor t = Black ->
  __rb_erase_color_loop (S fuel) (tptr t) p st =
    ((if is_red cs then rb_set_black sx ;; rb_set_red p ;; __rb_rotate_right p else mret tt) ;;
     erase_tail_r fuel p) st.
Proof.
  intros Hz Ht. cbn [__rb_erase_color_loop].
  erewrite bind_run by (by eapply null_or_black_run).
  erewrite bind_run by done. rewrite Ht.
  rewrite (proj2 (Z.eqb_neq _ _) (zrep_not_root _ _ _ _ Hz)).
  rewrite bool_decide_true by done. cbn [negb andb].
  assert (sx <> tptr t) as Hne.
  { destruct t as [|c l x r]; [|apply not_eq_sym, (zrep_ne_tptr _ _ _ _ Hz), (zrep_valid _ _ _ _ _ _ Hz)].
    apply zup_R, zdn_L in Hz. apply (zrep_valid _ _ _ _ _ _ Hz). }
  apply zup_R in Hz. pose proof (zdn_L _ _ _ _ _ _ Hz) as Hs.
  erewrite bind_run by (by eapply zrep_load). cbn [rb_left rb_right tptr].
  rewrite (proj2 (Z.eqb_neq _ _) Hne). cbn match. erewrite bind_run by (by eapply zrep_load).
  by rewrite rb_is_red_pack by eauto with kernel.
Qed.

Definition blacken t : tree := match t with L => L | N _ l x r => N Black l x r end.

(** The program [m] ends in a state whose tree, once the returned node is made
    black, is red-black, and holds the nodes [order] in order. *)
Definition erase_post (m : M rb_state Z) st (order : list Z) : Prop :=
  exists st' k t, m st = Some (tptr t, st') /\ zrep st' k t /\
    is_rb (plug k (blacken t)) /\ inorder (plug k t) = order.

Definition erase_final_l (parent : Z) : M rb_state Z :=
  pn ← load parent;
  let other := rb_right pn in
  rb_set_color other (rb_color pn) ;;
  rb_set_black parent ;;
  on ← load other;
  rb_set_black (rb_right on) ;;
  __rb_rotate_left parent ;;
  get_root.
Definition erase_final_r (parent : Z) : M rb_state Z :=
  pn ← load parent;
  let other := rb_left pn in
  rb_set_color other (rb_color pn) ;;
  rb_set_black parent ;;
  on ← load other;
  rb_set_black (rb_left on) ;;
  __rb_rotate_right parent ;;
  get_root.

Lemma erase_post_root st k t order :
  zrep st k t -> is_rb (plug k t) -> inorder (plug k t) = order -> erase_post get_root st order.
Proof.
  intros Hz Hrb Ho. exists st, [], (plug k t). apply zrep_root in Hz. split_and!; [|done| |done].
  - unfold get_root. destruct Hz as [_ Hc _ _]. cbn in Hc. by rewrite Hc.
  - cbn. destruct Hrb as [n Hrb]. destruct Hrb; cbn; eexists; eauto with rb.
Qed.

Lemma erase_final_l_run st cp p sl sx ra ry rb k t c1 c2 n :
  zrep st (Lf cp p (N Black sl sx (N Red ra ry rb)) :: k) t ->
  rbt c1 n t -> rbt c2 n sl -> rbt Red n (N Red ra ry rb) ->
  crb (Lf cp p (N Black sl sx (N Red ra ry rb)) :: k) Black (S n) ->
  erase_post (erase_final_l p) st (inorder (plug k (N cp t p (N Black sl sx (N Red ra ry rb))))).
Proof.
  intros Hz Ht Hsl Hsr Hc. unfold erase_post, erase_final_l. apply zup_L in Hz.
  pose proof (zrep_aligned _ _ _ Hz) as Ha.
  erewrite bind_run by (by eapply zrep_load). cbn [rb_right tptr]. rewrite rb_color_pack by done.
  apply zdn_R in Hz. zrun (rb_set_color_run _ _ _ _ _ _ cp Hz) st1 Hz1.
  apply zup_R in Hz1. zrun (rb_set_black_run _ _ _ _ _ _ Hz1) st2 Hz2.
  apply zdn_R in Hz2. erewrite bind_run by (by eapply zrep_load). cbn [rb_right tptr].
  apply zdn_R in Hz2. zrun (rb_set_black_run _ _ _ _ _ _ Hz2) st3 Hz3.
  apply zup_R, zup_R in Hz3. zrun (rb_rotate_left_run _ _ _ _ _ _ _ _ _ Hz3) st4 Hz4.
  apply (erase_post_root _ _ _ _ Hz4).
  - inversion Hsr; subst. inversion Hc; subst; eapply crb_plug; eauto with rb.
  - rewrite !inorder_plug. cbn. by simplify_list_eq.
Qed.

Lemma erase_final_r_run st cp p la ly lb sx sr k t c1 c2 n :
  zrep st (Rf cp (N Black (N Red la ly lb) sx sr) p :: k) t ->
  rbt c1 n t -> rbt c2 n sr -> rbt Red n (N Red la ly lb) ->
  crb (Rf cp (N Black (N Red la ly lb) sx sr) p :: k) Black (S n) ->
  erase_post (erase_final_r p) st (inorder (plug k (N cp (N Black (N Red la ly lb) sx sr) p t))).
Proof.
  intros Hz Ht Hsr Hsl Hc. unfold erase_post, erase_final_r. apply zup_R in Hz.
  pose proof (zrep_aligned _ _ _ Hz) as Ha.
  erewrite bind_run by (by eapply zrep_load). cbn [rb_left tptr]. rewrite rb_color_pack by done.
  apply zdn_L in Hz. zrun (rb_set_color_run _ _ _ _ _ _ cp Hz) st1 Hz1.
  apply zup_L in Hz1. zrun (rb_set_black_run _ _ _ _ _ _ Hz1) st2 Hz2.
  apply zdn_L in Hz2. erewrite bind_run by (by eapply zrep_load). cbn [rb_left tptr].
  apply zdn_L in Hz2. zrun (rb_set_black_run _ _ _ _ _ _ Hz2) st3 Hz3.
  apply zup_L, zup_L in Hz3. zrun (rb_rotate_right_run _ _ _ _ _ _ _ _ _ Hz3) st4 Hz4.
  apply (erase_post_root _ _ _ _ Hz4).
  - inversion Hsl; subst. inversion Hc; subst; eapply crb_plug; eauto with rb.
  - rewrite !inorder_plug. cbn. by simplify_list_eq.
Qed.

(** The two states in which the loop goes on at the parent: still one black
    node short, or a red focus that will be made black. *)
Definition short (k : ctx) t (n : nat) : Prop :=
  (rbt Black n t /\ crb k Black (S n)) \/
  (tcolor t = Red /\ rbt Black (S n) (blacken t) /\ crb k Black (S n)).

Lemma erase_tail_l_run fuel st cp p sl sx sr k t n :
  zrep st (Lf cp p (N Black sl sx sr) :: k) t -> rbt Black n t -> rbt Black (S n) (N Black sl sx sr) ->
  crb (Lf cp p (N Black sl sx sr) :: k) Black (S n) ->
  (forall st' t' n', zrep st' k t' -> short k t' n' -> (tcolor t' = Red \/ cp = Black) ->
     erase_post (__rb_erase_color_loop fuel (tptr t') (cptr k)) st' (inorder (plug k t'))) ->
  erase_post (erase_tail_l fuel p) st (inorder (plug k (N cp t p (N Black sl sx sr)))).
Proof.
  intros Hz Ht Hs Hc IH. unfold erase_post, erase_tail_l.
  pose proof (zup_L _ _ _ _ _ _ Hz) as Hz0. pose proof (zdn_R _ _ _ _ _ _ Hz0) as Hzs.
  erewrite bind_run by (by eapply zrep_load). cbn [rb_right tptr].
  erewrite bind_run by (by eapply zrep_load). cbn [rb_right rb_left].
  erewrite bind_run by (by eapply null_or_black_run, zdn_L).
  erewrite bind_run by (by eapply null_or_black_run, zdn_R).
  inversion Hs as [| |? c1 c2 ? ? ? Hsl Hsr]; subst.
  pose proof (rbt_tcolor _ _ _ Hsl). pose proof (rbt_tcolor _ _ _ Hsr). subst.
  destruct (tcolor sr) eqn:Er.
  - rewrite (bool_decide_false (Red = Black)) by done. rewrite andb_false_r. cbn match.
    rewrite bind_mret_l. destruct sr as [|cr ra ry rb]; [done|]. cbn in Er. subst cr.
    by eapply erase_final_l_run.
  - rewrite (bool_decide_true (Black = Black)) by done. destruct (tcolor sl) eqn:El.
    + destruct sl as [|cl a y b]; [done|]. cbn in El. subst cl.
      rewrite bool_decide_false by done. cbn match. cbn [rb_left tptr andb].
      rewrite !bind_assoc. apply zdn_L in Hzs.
      zrun (rb_set_black_run _ _ _ _ _ _ Hzs) st1 Hz1. rewrite !bind_assoc.
      apply zup_L in Hz1. zrun (rb_set_red_run _ _ _ _ _ _ Hz1) st2 Hz2.
      zrun (rb_rotate_right_run _ _ _ _ _ _ _ _ _ Hz2) st3 Hz3. apply zup_R, zdn_L in Hz3.
      inversion Hsl; subst.
      assert (inorder (plug k (N cp t p (N Black (N Red a y b) sx sr))) =
              inorder (plug k (N cp t p (N Black a y (N Red b sx sr))))) as ->.
      { rewrite !inorder_plug. cbn. by simplify_list_eq. }
      eapply erase_final_l_run; [done..|by eauto with rb|].
      inversion Hc; subst; eauto 10 with rb.
    + rewrite bool_decide_true by done. cbn match. cbn [andb].
      zrun (rb_set_red_run _ _ _ _ _ _ Hzs) st1 Hz1. apply zup_R in Hz1.
      erewrite bind_run by (by eapply zrep_load). rewrite rb_parent_pack by eauto with kernel.
      edestruct (IH st1 (N cp t p (N Red sl sx sr))) as (st2 & k2 & t2 & ? & ? & ? & Ho); [done|..].
      { instantiate (1 := if is_red cp then n else S n).
        inversion Hc; subst; [right|left]; cbn; split_and!; eauto with rb. }
      { cbn. destruct cp; auto. }
      exists st2, k2, t2. split_and!; [done..|]. rewrite Ho, !inorder_plug. done.
Qed.

Lemma erase_tail_r_run fuel st cp p sl sx sr k t n :
  zrep st (Rf cp (N Black sl sx sr) p :: k) t -> rbt Black n t -> rbt Black (S n) (N Black sl sx sr) ->
  crb (Rf cp (N Black sl sx sr) p :: k) Black (S n) ->
  (forall st' t' n', zrep st' k t' -> short k t' n' -> (tcolor t' = Red \/ cp = Black) ->
     erase_post (__rb_erase_color_loop fuel (tptr t') (cptr k)) st' (inorder (plug k t'))) ->
  erase_post (erase_tail_r fuel p) st (inorder (plug k (N cp (N Black sl sx sr) p t))).
Proof.
  intros Hz Ht Hs Hc IH. unfold erase_post, erase_tail_r.
  pose proof (zup_R _ _ _ _ _ _ Hz) as Hz0. pose proof (zdn_L _ _ _ _ _ _ Hz0) as Hzs.
  erewrite bind_run by (by eapply zrep_load). cbn [rb_left tptr].
  erewrite bind_run by (by eapply zrep_load). cbn [rb_right rb_left].
  erewrite bind_run by (by eapply null_or_black_run, zdn_L).
  erewrite bind_run by (by eapply null_or_black_run, zdn_R).
  inversion Hs as [| |? c1 c2 ? ? ? Hsl Hsr]; subst.
  pose proof (rbt_tcolor _ _ _ Hsl). pose proof (rbt_tcolor _ _ _ Hsr). subst.
  destruct (tcolor sl) eqn:El.
  - rewrite (bool_decide_false (Red = Black)) by done. cbn [andb]. cbn match.
    rewrite bind_mret_l. destruct sl as [|cl la ly lb]; [done|]. cbn in El. subst cl.
    by eapply erase_final_r_run.
  - rewrite (bool_decide_true (Black = Black)) by done. destruct (tcolor sr) eqn:Er.
    + destruct sr as [|cr a y b]; [done|]. cbn in Er. subst cr.
      rewrite bool_decide_false by done. cbn [rb_right tptr andb]. cbn match.
      rewrite !bind_assoc. apply zdn_R in Hzs.
      zrun (rb_set_black_run _ _ _ _ _ _ Hzs) st1 Hz1. rewrite !bind_assoc.
      apply zup_R in Hz1. zrun (rb_set_red_run _ _ _ _ _ _ Hz1) st2 Hz2.
      zrun (rb_rotate_left_run _ _ _ _ _ _ _ _ _ Hz2) st3 Hz3. apply zup_L, zdn_R in Hz3.
      inversion Hsr; subst.
      assert (inorder (plug k (N cp (N Black sl sx (N Red a y b)) p t)) =
              inorder (plug k (N cp (N Black (N Red sl sx a) y b) p t))) as ->.
      { rewrite !inorder_plug. cbn. by simplify_list_eq. }
      eapply erase_final_r_run; [done..|by eauto with rb|].
      inversion Hc; subst; eauto 10 with rb.
    + rewrite bool_decide_true by done. cbn match. cbn [andb].
      zrun (rb_set_red_run _ _ _ _ _ _ Hzs) st1 Hz1. apply zup_L in Hz1.
      erewrite bind_run by (by eapply zrep_load). rewrite rb_parent_pack by eauto with kernel.
      edestruct (IH st1 (N cp (N Red sl sx sr) p t)) as (st2 & k2 & t2 & ? & ? & ? & Ho); [done|..].
      { instantiate (1 := if is_red cp then n else S n).
        inversion Hc; subst; [right|left]; cbn; split_and!; eauto with rb. }
      { cbn. destruct cp; auto. }
      exists st2, k2, t2. split_and!; [done..|]. rewrite Ho, !inorder_plug. done.
Qed.

Lemma short_stop k t n : short k t n -> tcolor t = Red \/ k = [] -> is_rb (plug k (blacken t)).
Proof.
  intros [[Ht Hk]|(Hr & Ht & Hk)] Hs; [|by eapply crb_plug].
  destruct Hs as [Hs| ->]; [by rewrite (rbt_tcolor _ _ _ Ht) in Hs|].
  exists n. by destruct t as [|[]]; cbn; [|inversion Ht|].
Qed.

Lemma erase_loop_run fuel st k t n :
  zrep st k t -> short k t n -> (tcolor t = Red /\ (0 < fuel)%nat) \/ (length k < fuel)%nat ->
  erase_post (__rb_erase_color_loop fuel (tptr t) (cptr k)) st (inorder (plug k t)).
Proof.
  revert st k t n. induction fuel as [|fuel IH]; intros st k t n Hz Hs Hf; [lia|].
  destruct (decide (tcolor t = Red \/ k = [])) as [Hstop|Hgo].
  { exists st, k, t. split_and!; [by eapply erase_loop_stop|done|by eapply short_stop|done]. }
  destruct Hs as [[Ht Hk]|[? _]]; [|tauto]. destruct Hf as [[? _]|Hf]; [tauto|].
  assert (tcolor t = Black) as Htb by (by destruct (tcolor t); [exfalso; eauto|]).
  destruct k as [|[cp p s|cp s p] k]; [exfalso; eauto|..]; cbn in Hf; cbn [cptr].
  - assert (exists cs, rbt cs (S n) s) as [cs Hsib] by (inversion Hk; subst; eauto).
    destruct s as [|cs' sl sx sr]; [inversion Hsib|].
    unfold erase_post. rewrite (erase_loop_l _ _ _ _ _ _ _ _ _ _ Hz Htb).
    destruct cs'; cbn [is_red].
    + inversion Hsib; subst. assert (cp = Black) as -> by (by inversion Hk as [|? ? ? ? Hx| | |]; [inversion Hx|]).
      rewrite !bind_assoc. apply zup_L, zdn_R in Hz.
      zrun (rb_set_black_run _ _ _ _ _ _ Hz) st1 Hz1. rewrite !bind_assoc. apply zup_R in Hz1.
      zrun (rb_set_red_run _ _ _ _ _ _ Hz1) st2 Hz2.
      zrun (rb_rotate_left_run _ _ _ _ _ _ _ _ _ Hz2) st3 Hz3. do 2 apply zdn_L in Hz3.
      destruct sl as [|cl la ly lb]; [by match goal with H : rbt Black (S n) L |- _ => inversion H end|].
      assert (cl = Black) as -> by (by match goal with H : rbt Black (S n) (N cl _ _ _) |- _ => inversion H end).
      edestruct (erase_tail_l_run fuel st3) as (st4 & k4 & t4 & ?&?&?&Ho); [done|done|done|..].
      { inversion Hk; subst; eauto 10 with rb. }
      { intros st' t' n' ?? [?|?]; [|done]. eapply IH; [done..|left; split; [done|lia]]. }
      exists st4, k4, t4. split_and!; [done..|]. rewrite Ho. cbn.
      rewrite !inorder_plug. cbn. by simplify_list_eq.
    + rewrite bind_mret_l. inversion Hsib; subst. eapply erase_tail_l_run; [done..|].
      intros st' t' n' ???. eapply IH; [done..|right; lia].
  - assert (exists cs, rbt cs (S n) s) as [cs Hsib] by (inversion Hk; subst; eauto).
    destruct s as [|cs' sl sx sr]; [inversion Hsib|].
    unfold erase_post. rewrite (erase_loop_r _ _ _ _ _ _ _ _ _ _ Hz Htb).
    destruct cs'; cbn [is_red].
    + inversion Hsib; subst. assert (cp = Black) as -> by (by inversion Hk as [| |? ? ? ? Hx| |]; [inversion Hx|]).
      rewrite !bind_assoc. apply zup_R, zdn_L in Hz.
      zrun (rb_set_black_run _ _ _ _ _ _ Hz) st1 Hz1. rewrite !bind_assoc. apply zup_L in Hz1.
      zrun (rb_set_red_run _ _ _ _ _ _ Hz1) st2 Hz2.
      zrun (rb_rotate_right_run _ _ _ _ _ _ _ _ _ Hz2) st3 Hz3. do 2 apply zdn_R in Hz3.
      destruct sr as [|cr la ly lb]; [by match goal with H : rbt Black (S n) L |- _ => inversion H end|].
      assert (cr = Black) as -> by (by match goal with H : rbt Black (S n) (N cr _ _ _) |- _ => inversion H end).
      edestruct (erase_tail_r_run fuel st3) as (st4 & k4 & t4 & ?&?&?&Ho); [done|done|done|..].
      { inversion Hk; subst; eauto 10 with rb. }
      { intros st' t' n' ?? [?|?]; [|done]. eapply IH; [done..|left; split; [done|lia]]. }
      exists st4, k4, t4. split_and!; [done..|]. rewrite Ho. cbn.
      rewrite !inorder_plug. cbn. by simplify_list_eq.
    + rewrite bind_mret_l. inversion Hsib; subst. eapply erase_tail_r_run; [done..|].
      intros st' t' n' ???. eapply IH; [done..|right; lia].
Qed.

(** [__rb_erase_color] repairs a tree that is one black node short at the focus. *)
Lemma rb_erase_color_run st k t n :
  zrep st k t -> short k t n ->
  exists st' t', __rb_erase_color (tptr t) (cptr k) st = Some (tt, st') /\
    zrep st' [] t' /\ is_rb t' /\ inorder t' = inorder (plug k t).
Proof.
  intros Hz Hs. unfold __rb_erase_color. erewrite bind_run by done.
  destruct (erase_loop_run (S (size (nodes st))) st k t n Hz Hs) as (st1 & k1 & t1 & Hr & Hz1 & Hrb & Ho).
  { right. pose proof (zrep_fuel _ _ _ Hz). lia. }
  erewrite bind_run by done. destruct t1 as [|c l x r].
  { exists st1, (plug k1 L). split_and!; [done|by apply zrep_root|done|done]. }
  destruct (zrep_valid _ _ _ _ _ _ Hz1) as [_ Hx]. cbn [tptr].
  rewrite (proj2 (Z.eqb_neq _ _) Hx).
  destruct (rb_set_black_run _ _ _ _ _ _ Hz1) as (st2 & Hr2 & Hz2).
  exists st2, (plug k1 (N Black l x r)). split_and!; [done|by apply zrep_root|done|].
  rewrite <-Ho, !inorder_plug. done.
Qed.

End erase_color.

(** ** Removal: unlinking *)
Section erase.
Implicit Types (st : rb_state) (k : ctx) (t l r s : tree).

(** [ismin t c m mr t' p]: the leftmost node of [t] is [m] with right subtree
    [mr], its parent [p] is a node of [t], and [t'] is [t] with [mr] in the
    place of [m]. *)
Inductive ismin : tree -> color -> Z -> tree -> tree -> Z -> Prop :=
  | min_here ct cm m mr y tr : ismin (N ct (N cm L m mr) y tr) cm m mr (N ct mr y tr) y
  | min_left ct tl y tr cm m mr tl' p :
      ismin tl cm m mr tl' p -> ismin (N ct tl y tr) cm m mr (N ct tl' y tr) p.

Lemma ismin_ctx t cm m mr t' p : ismin t cm m mr t' p ->
  exists km, t = plug km (N cm L m mr) /\ t' = plug km mr /\ km <> [] /\
    forall k, cptr (km ++ k) = p.
Proof.
  induction 1 as [ct cm m mr y tr|ct tl y tr cm m mr tl' p _ (km & -> & -> & Hk & Hp)].
  - by exists [Lf ct y tr].
  - exists (km ++ [Lf ct y tr]). unfold plug. rewrite !fold_left_app. cbn.
    split_and!; [done..|by destruct km|]. intros k. by rewrite <-app_assoc.
Qed.

Lemma ismin_inorder t cm m mr t' p : ismin t cm m mr t' p ->
  inorder t = m :: inorder t' /\ tptr t' = tptr t /\ p ∈ inorder t' /\
  (forall q, q ∈ inorder mr -> q ∈ inorder t').
Proof.
  induction 1 as [|? ? ? ? ? ? ? ? ? _ (Hi & Hp & Hm & Hq)]; cbn; [set_solver +|].
  rewrite Hi. set_solver +Hm Hq.
Qed.

Lemma leftmost_run st k t fuel :
  zrep st k t -> t <> L -> (length (inorder t) < fuel)%nat ->
  exists cm m mr, leftmost fuel (tptr t) st = Some (m, st) /\
    (t = N cm L m mr \/ exists t' p, ismin t cm m mr t' p).
Proof.
  revert k t. induction fuel as [|fuel IH]; intros k t Hz Hne Hf; [lia|].
  destruct t as [|c l x r]; [done|]. cbn [leftmost tptr].
  pose proof Hz as Hz0. erewrite bind_run by (by eapply zrep_load). cbn [rb_left].
  destruct l as [|cl ll lx lr]; [by exists c, x, r; eauto|].
  apply zdn_L in Hz. destruct (zrep_valid _ _ _ _ _ _ Hz) as [_ Hlx]. cbn [tptr].
  rewrite (proj2 (Z.eqb_neq _ _) Hlx).
  destruct (IH _ _ Hz) as (cm & m & mr & Hr & Hm); [done| |].
  { cbn [inorder] in *. rewrite !length_app in *. cbn in *. rewrite ?length_app in *. cbn in *. lia. }
  exists cm, m, mr. split; [done|]. right. destruct Hm as [E|(t' & p & Hm)].
  - rewrite E. eauto using ismin.
  - eauto using ismin.
Qed.

(** Taking the leftmost node out of a subtree with more than that node. *)
Lemma unlink_min_run st par t cm m mr t' p :
  ismin t cm m mr t' p -> rep (nodes st) par t -> NoDup (inorder t) -> Forall valid (inorder t) ->
  exists st',
    ((if tptr mr =? 0 then mret tt else rb_set_parent (tptr mr) p) ;; set_left p (tptr mr)) st
      = Some (tt, st') /\
    rep (nodes st') par t' /\ root st' = root st /\
    (forall q, q ∉ inorder t' -> nodes st' !! q = nodes st !! q).
Proof.
  intros Hm. revert par.
  induction Hm as [ct cm m mr y tr|ct tl y tr cm m mr tl' p Hm IH]; intros par Ht Hnd Hv.
  - destruct Ht as (Hy & (Hmn & _ & Hmr) & Htr). cbn in Hnd.
    apply NoDup_cons in Hnd as [Hmi Hnd]. apply NoDup_app in Hnd as (Hn1 & Hd & Hn2).
    apply NoDup_cons in Hn2 as [Hyi Hn2].
    cbn in Hv. rewrite Forall_cons, Forall_app, Forall_cons in Hv.
    destruct Hv as ([Hma _] & Hvr & [Hya _] & _).
    destruct (reparent_run st m y mr) as (st1 & Hr1 & Hmr1 & Hrt1 & Hs1); [done..|].
    erewrite bind_run by done.
    assert (nodes st1 !! y = nodes st !! y) as Hy1.
    { apply Hs1. intros Hq. apply (Hd y Hq). set_solver +. }
    eexists. split_and!; [eapply set_left_run; by rewrite Hy1| |by cbn|].
    + cbn [upd nodes rep rb_parent_color rb_right]. rewrite lookup_insert_eq. split_and!; [done|..].
      * eapply rep_frame; [done|]. intros q Hq. apply lookup_insert_ne. intros ->.
        apply (Hd q Hq). set_solver +.
      * eapply rep_frame; [done|]. intros q Hq. rewrite lookup_insert_ne by (intros ->; done).
        apply Hs1. intros Hq'. apply (Hd q Hq'). set_solver +Hq.
    + intros q Hq. cbn in Hq |- *. rewrite lookup_insert_ne by set_solver +Hq. apply Hs1. set_solver +Hq.
  - destruct Ht as (Hy & Htl & Htr). cbn in Hnd.
    apply NoDup_app in Hnd as (Hn1 & Hd & Hn2). apply NoDup_cons in Hn2 as [Hyi Hn2].
    cbn in Hv. rewrite Forall_app, Forall_cons in Hv.
    destruct (ismin_inorder _ _ _ _ _ _ Hm) as (Hi & Hp & _).
    destruct (IH y) as (st1 & Hr1 & Ht1 & Hrt1 & Hs1); [done|done|tauto|].
    assert (forall q, q ∈ y :: inorder tr -> nodes st1 !! q = nodes st !! q) as Hq1.
    { intros q Hq. apply Hs1. intros Hq'. apply (Hd q); [rewrite Hi; set_solver +Hq'|done]. }
    exists st1. split_and!; [done| |done|].
    + cbn. rewrite Hp, Hq1 by set_solver +. split_and!; [done..|].
      eapply rep_frame; [done|]. intros q Hq. apply Hq1. set_solver +Hq.
    + intros q Hq. apply Hs1. cbn in Hq. set_solver +Hq.
Qed.

(** Focusing on a node. *)
Lemma focus_exists t x : x ∈ inorder t -> exists k c l r, t = plug k (N c l x r).
Proof.
  induction t as [|c l IHl y r IHr]; cbn; [set_solver|].
  rewrite elem_of_app, elem_of_cons. intros [Hx|[->|Hx]].
  - destruct (IHl Hx) as (k & c' & l' & r' & ->). exists (k ++ [Lf c y r]), c', l', r'.
    unfold plug. by rewrite fold_left_app.
  - by exists [], c, l, r.
  - destruct (IHr Hx) as (k & c' & l' & r' & ->). exists (k ++ [Rf c l y]), c', l', r'.
    unfold plug. by rewrite fold_left_app.
Qed.

(** The black-height account of removing a node with at most one child. *)
Lemma short_child k c l x r n (ch : tree) :
  rbt c n (N c l x r) -> crb k c n -> (l = L /\ ch = r) \/ (r = L /\ ch = l) ->
  (c = Red -> is_rb (plug k ch)) /\ (c = Black -> exists m, short k ch m).
Proof.
  intros Ht Hc Hch. split; intros ->; inversion Ht as [|? ? ? ? Hl Hr|? cl cr ? ? ? Hl Hr]; subst.
  - destruct Hch as [[-> ->]|[-> ->]]; (eapply crb_plug; [by apply crb_weaken|done]).
  - exists n0. destruct Hch as [[-> ->]|[-> ->]].
    + destruct cr; [right|left; eauto with rb]. inversion Hr; subst. cbn. eauto with rb.
    + destruct cl; [right|left; eauto with rb]. inversion Hl; subst. cbn. eauto with rb.
Qed.

Lemma crb_rename km c l x y k c' n : crb (km ++ Rf c l x :: k) c' n -> crb (km ++ Rf c l y :: k) c' n.
Proof.
  revert c' n. induction km as [|f km IH]; intros c' n; cbn; inversion 1; subst; eauto with rb.
Qed.

Lemma erase_one_child st k c l x r ch :
  zrep st k (N c l x r) -> (l = L /\ ch = r) \/ (r = L /\ ch = l) ->
  exists st', ((if tptr ch =? 0 then mret tt else rb_set_parent (tptr ch) (cptr k)) ;;
               change_child (cptr k) x (tptr ch)) st = Some (tt, st') /\ zrep st' k ch.
Proof.
  intros Hz Hch. pose proof (zrep_aligned _ _ _ Hz) as Hp.
  pose proof (zrep_valid _ _ _ _ _ _ Hz) as [Hxa Hx0].
  destruct Hz as [(Hx & Hl & Hr) Hc Hn Hv]. cbn in Hn, Hv.
  assert (rep (nodes st) x ch /\ NoDup (cids k ++ inorder ch) /\ Forall valid (cids k ++ inorder ch) /\
    (x ∉ cids k) /\ NoDup (cids k) /\ (forall q, q ∈ cids k -> q ∉ inorder ch) /\ NoDup (inorder ch))
    as (Hrep & Hn' & Hv' & Hxk & Hnk & Hd & Hnc).
  { rewrite !NoDup_app, !NoDup_cons in Hn. rewrite !Forall_app, !Forall_cons in Hv.
    rewrite !NoDup_app, !Forall_app. destruct Hch as [[-> ->]|[-> ->]]; cbn in *; set_solver. }
  apply Forall_app in Hv' as [Hvk Hvc].
  destruct (reparent_run st x (cptr k) ch) as (st1 & Hr1 & Hch1 & Hrt1 & Hs1); [done..|].
  destruct (change_child_run st1 k x (tptr ch)) as (st2 & Hr2 & Hc2 & Hs2); [|done..|].
  { rewrite Hrt1. eapply crep_frame; [done|]. intros q Hq. by apply Hs1, Hd. }
  exists st2. split; [by erewrite bind_run by done|]. split; [|done|done|by apply Forall_app].
  eapply rep_frame; [done|]. intros q Hq. apply Hs2. intros Hq'. by apply (Hd q).
Qed.

(** The replacement [m] takes over the word and the left subtree of [x]. *)
Lemma erase_adopt {A} st k c l x m r' rx pc0 lp0 (rest : M rb_state A) :
  nodes st !! x = Some (RbNode (cptr k + colZ c) rx (tptr l)) ->
  nodes st !! m = Some (RbNode pc0 (tptr r') lp0) ->
  rep (nodes st) x l -> rep (nodes st) m r' -> crep (nodes st) k m (root st) ->
  NoDup (cids k ++ inorder (N c l m r')) -> Forall valid (cids k ++ inorder (N c l m r')) ->
  aligned x -> x <> m -> l <> L ->
  exists st', (on ← load x; set_pc m (rb_parent_color on) ;; set_left m (rb_left on) ;;
               rb_set_parent (rb_left on) m ;; rest) st = rest st' /\ zrep st' k (N c l m r').
Proof.
  intros Hx Hm Hl Hr Hc Hn Hv Hxa Hxm HlL.
  pose proof Hn as Hn0. cbn in Hn. rewrite NoDup_app, NoDup_app, NoDup_cons in Hn.
  destruct Hn as (Hnk & Hdk & Hnl & Hdl & Hmr & Hnr).
  assert (valid m /\ Forall valid (inorder l)) as [[Hma Hm0] Hvl].
  { cbn in Hv. rewrite !Forall_app, Forall_cons in Hv. tauto. }
  erewrite bind_run by (by apply load_run). cbn [rb_parent_color rb_left].
  erewrite bind_run by (by eapply set_pc_run). cbn [rb_right rb_left].
  erewrite bind_run.
  2:{ eapply set_left_run. cbn. by rewrite lookup_insert_eq. }
  cbn [rb_parent_color rb_right]. set (st2 := upd m _ _).
  assert (forall q, q <> m -> nodes st2 !! q = nodes st !! q) as Hs2.
  { intros q Hq. cbn. by rewrite !lookup_insert_ne. }
  destruct (reparent_run st2 x m l) as (st3 & Hr3 & Hl3 & Hrt3 & Hs3); [|done..|].
  { eapply rep_frame; [done|]. intros q Hq. apply Hs2. intros ->. apply (Hdl m Hq). set_solver +. }
  assert (tptr l <> 0) as Hl0.
  { destruct l as [|? ? y ?]; [done|]. rewrite Forall_forall in Hvl. apply Hvl. cbn. set_solver +. }
  rewrite (proj2 (Z.eqb_neq _ _) Hl0) in Hr3.
  exists st3. split; [by erewrite bind_run by done|].
  assert (m ∉ inorder l) as Hml by (intros Hq; apply (Hdl m Hq); set_solver +).
  split; [|rewrite Hrt3|done|done].
  - cbn -[upd]. split_and!; [|done|].
    + rewrite Hs3 by done. cbn. by rewrite lookup_insert_eq.
    + eapply rep_frame; [done|]. intros q Hq. rewrite Hs3.
      * apply Hs2. by intros ->.
      * intros Hq'. apply (Hdl q Hq'). set_solver +Hq.
  - cbn. eapply crep_frame; [done|]. intros q Hq. rewrite Hs3.
    + apply Hs2. intros ->. apply (Hdk m Hq). cbn. set_solver +.
    + intros Hq'. apply (Hdk q Hq). cbn. set_solver +Hq'.
Qed.

(** Moving the leftmost node [m] of the right subtree [r] into the place of
    [x]: what the [if (rb_parent(node) == old)] statement leaves. *)
Lemma erase_splice st x r cm m mr :
  rep (nodes st) x r -> r = N cm L m mr \/ (exists t' p, ismin r cm m mr t' p) ->
  NoDup (x :: inorder r) -> Forall valid (x :: inorder r) ->
  (exists pcx lx, nodes st !! x = Some (RbNode pcx (tptr r) lx)) ->
  exists km pm lp st' pc0,
    r = plug km (N cm L m mr) /\ inorder r = m :: inorder (plug km mr) /\ aligned pm /\
    nodes st !! m = Some (RbNode (pm + colZ cm) (tptr mr) 0) /\
    (if pm =? x then mret m
     else (if tptr mr =? 0 then mret tt else rb_set_parent (tptr mr) pm) ;;
          set_left pm (tptr mr) ;;
          on ← load x; set_right m (rb_right on) ;; rb_set_parent (rb_right on) m ;; mret pm) st
      = Some (cptr (km ++ [Lf cm m L]), st') /\
    (forall c l k, cptr (km ++ Rf c l m :: k) = cptr (km ++ [Lf cm m L])) /\
    nodes st' !! m = Some (RbNode pc0 (tptr (plug km mr)) lp) /\
    rep (nodes st') m (plug km mr) /\ root st' = root st /\
    (forall q, q ∉ inorder r -> nodes st' !! q = nodes st !! q).
Proof.
  intros Hr Hm Hn Hv (pcx & lx & Hx).
  pose proof (Forall_inv Hv) as [Hxa Hx0]. apply Forall_inv_tail in Hv as Hvr.
  apply NoDup_cons in Hn as [Hxr Hnr].
  destruct Hm as [->|(t' & p & Hm)].
  { destruct Hr as (Hm & _ & Hmr). exists [], x, 0, st, (x + colZ cm).
    rewrite Z.eqb_refl. cbn. split_and!; try done. }
  destruct (ismin_inorder _ _ _ _ _ _ Hm) as (Hi & Hp & Hpi & _).
  destruct (ismin_ctx _ _ _ _ _ _ Hm) as (km & E & E' & Hkm & Hcp).
  assert (nodes st !! m = Some (RbNode (p + colZ cm) (tptr mr) 0)) as Hmn.
  { revert Hr. clear -Hm. revert x. induction Hm; intros x0 Hr; [by apply Hr|].
    destruct Hr as (_ & Hr & _). by eapply IHHm. }
  assert (m ∉ inorder t' /\ NoDup (inorder t')) as [Hmt Hnt] by (rewrite Hi in Hnr; by apply NoDup_cons).
  assert (valid m /\ Forall valid (inorder t')) as [[Hma Hm0] Hvt] by (rewrite Hi in Hvr; by apply Forall_cons).
  assert (x ∉ inorder t') as Hxt by (rewrite Hi in Hxr; set_solver +Hxr).
  assert (p <> x) as Hpx by (intros ->; done).
  assert (valid p) as [Hpa _] by (rewrite Forall_forall in Hvt; by apply Hvt).
  destruct (unlink_min_run st x r cm m mr t' p) as (st1 & Hr1 & Ht1 & Hrt1 & Hs1); [done..|].
  set (st2 := upd m (RbNode (p + colZ cm) (tptr r) 0) st1).
  destruct (reparent_run st2 x m t') as (st3 & Hr3 & Ht3 & Hrt3 & Hs3); [|done..|].
  { eapply rep_frame; [done|]. intros q Hq. cbn. apply lookup_insert_ne. by intros ->. }
  assert (tptr r <> 0) as Hr0.
  { rewrite Forall_forall in Hvr. destruct r as [|? ? y ?]; [by inversion Hm|].
    apply Hvr. cbn. set_solver +. }
  rewrite Hp, (proj2 (Z.eqb_neq _ _) Hr0) in Hr3.
  exists km, p, 0, st3, (p + colZ cm). rewrite <-E', Hcp. split_and!; try done.
  - rewrite (proj2 (Z.eqb_neq _ _) Hpx). erewrite bind_run2 by done.
    erewrite bind_run by (apply load_run; by rewrite Hs1). cbn [rb_right].
    erewrite bind_run by (eapply set_right_run; by rewrite Hs1). cbn [rb_parent_color rb_left].
    by erewrite bind_run by done.
  - rewrite Hs3 by done. cbn. by rewrite lookup_insert_eq, Hp.
  - rewrite Hrt3. done.
  - intros q Hq. rewrite Hi in Hq. rewrite Hs3 by set_solver +Hq. cbn.
    rewrite lookup_insert_ne by set_solver +Hq. apply Hs1. set_solver +Hq.
Qed.

Lemma erase_two_children st k c l x r :
  zrep st k (N c l x r) -> l <> L -> r <> L ->
  exists st' km cm m mr, r = plug km (N cm L m mr) /\ inorder r = m :: inorder (plug km mr) /\
    rb_erase x st = (if colZ cm =? RB_BLACK
                     then __rb_erase_color (tptr mr) (cptr (km ++ Rf c l m :: k)) else mret tt) st' /\
    zrep st' (km ++ Rf c l m :: k) mr.
Proof.
  intros Hz HlL HrL. pose proof (zrep_aligned _ _ _ Hz) as Hpa. pose proof Hz as Hz0.
  pose proof (zrep_fuel _ _ _ (zdn_R _ _ _ _ _ _ Hz)) as Hfuel. cbn in Hfuel.
  destruct (leftmost_run _ _ _ (S (size (nodes st))) (zdn_R _ _ _ _ _ _ Hz)) as (cm & m & mr & Hlm & Hm);
    [done|lia|].
  destruct (zrep_valid _ _ _ _ _ _ Hz) as [Hxa Hx0].
  destruct Hz as [(Hx & Hl & Hr) Hc Hn Hv]. cbn in Hn, Hv.
  assert (tptr l <> 0 /\ tptr r <> 0) as [Hl0 Hr0].
  { rewrite Forall_forall in Hv. split; [destruct l as [|? ? y ?]|destruct r as [|? ? y ?]]; try done;
      apply Hv; cbn; set_solver +. }
  pose proof Hn as Hn0. rewrite NoDup_app, NoDup_app in Hn. destruct Hn as (Hnk & Hdk & Hnl & Hdl & Hnr).
  assert (Forall valid (x :: inorder r) /\ Forall valid (cids k)) as [Hvr Hvk].
  { rewrite !Forall_app in Hv. tauto. }
  assert (x ∉ cids k) as Hxk by (intros Hq; apply (Hdk x Hq); set_solver +).
  destruct (change_child_run st k x m) as (st1 & Hr1 & Hc1 & Hs1); [done..|].
  assert (forall q, q ∈ x :: inorder l ++ inorder r -> nodes st1 !! q = nodes st !! q) as Hs1'.
  { intros q Hq. apply Hs1. intros Hq'. apply (Hdk q Hq'). set_solver +Hq. }
  destruct (erase_splice st1 x r cm m mr) as
    (km & pm & lp & st2 & pc0 & E & Hi & Hpma & Hmn & Hr2 & Hcp & Hm2 & Hrm2 & Hrt2 & Hs2);
    [|done|done|done| |].
  { eapply rep_frame; [done|]. intros q Hq. apply Hs1'. set_solver +Hq. }
  { eexists _, _. rewrite Hs1' by set_solver +. done. }
  rewrite Hi in Hn0, Hdk, Hdl, Hnr, Hv, Hs1', Hs2. apply NoDup_cons in Hnr as [Hxr Hnr].
  assert (nodes st2 !! x = nodes st !! x) as Hx2.
  { rewrite Hs2 by done. apply Hs1'. set_solver +. }
  destruct (erase_adopt st2 k c l x m (plug km mr) (tptr r) pc0 lp
    (if colZ cm =? RB_BLACK then __rb_erase_color (tptr mr) (cptr (km ++ [Lf cm m L])) else mret tt))
    as (st3 & Hr3 & Hz3); [by rewrite Hx2|done| |done| | | |done|set_solver +Hxr|done|].
  { eapply rep_frame; [done|]. intros q Hq. rewrite Hs2.
    - apply Hs1'. set_solver +Hq.
    - intros Hq'. apply (Hdl q Hq). set_solver +Hq'. }
  { rewrite Hrt2. eapply crep_frame; [done|]. intros q Hq. apply Hs2. intros Hq'.
    apply (Hdk q Hq). set_solver +Hq'. }
  { eapply sublist_NoDup; [exact Hn0|]. cbn. apply sublist_app, sublist_app; [done..|by constructor]. }
  { cbn. rewrite !Forall_app, !Forall_cons in *. tauto. }
  exists st3, km, cm, m, mr. rewrite Hcp. split_and!; [done|done| |].
  - unfold rb_erase. erewrite bind_run by (by apply load_run). cbn [rb_left rb_right].
    rewrite (proj2 (Z.eqb_neq _ _) Hl0), (proj2 (Z.eqb_neq _ _) Hr0). cbn [orb].
    erewrite bind_run by done. erewrite bind_run by done.
    erewrite bind_run by (by apply load_run). cbn [rb_parent_color]. rewrite rb_parent_pack by done.
    erewrite bind_run by done. erewrite bind_run by (by apply load_run). cbn [rb_right rb_parent_color].
    rewrite rb_parent_pack, rb_color_pack by done. erewrite bind_run by done. done.
  - apply zrep_plug. by apply zdn_R.
Qed.

Lemma erase_finish st k ch c :
  zrep st k ch -> (c = Red -> is_rb (plug k ch)) -> (c = Black -> exists m, short k ch m) ->
  exists st' t', (if colZ c =? RB_BLACK then __rb_erase_color (tptr ch) (cptr k) else mret tt) st
      = Some (tt, st') /\ zrep st' [] t' /\ is_rb t' /\ inorder t' = inorder (plug k ch).
Proof.
  intros Hz HR HB. destruct c; cbn.
  - exists st, (plug k ch). split_and!; [done|by apply zrep_root|by apply HR|done].
  - destruct (HB eq_refl) as [m Hm]. by eapply rb_erase_color_run.
Qed.

(** [rb_erase] at a focused node. *)
Lemma rb_erase_focus st k c l x r :
  zrep st k (N c l x r) -> is_rb (plug k (N c l x r)) ->
  exists st' t', rb_erase x st = Some (tt, st') /\ zrep st' [] t' /\ is_rb t' /\
    inorder t' = cleft k ++ inorder l ++ inorder r ++ cright k.
Proof.
  intros Hz Hrb. destruct (plug_crb _ _ Hrb) as (c0 & n & Ht & Hk).
  pose proof (rbt_tcolor _ _ _ Ht) as <-. cbn in Ht, Hk.
  assert ((l = L \/ r = L) \/ (l <> L /\ r <> L)) as [Hlr|[HlL HrL]] by (destruct l, r; naive_solver).
  - assert (exists ch, (l = L /\ ch = r) \/ (r = L /\ ch = l)) as [ch Hch] by naive_solver.
    assert (inorder l ++ inorder r = inorder ch) as Ho.
    { destruct Hch as [[-> ->]|[-> ->]]; cbn; by rewrite ?app_nil_r. }
    assert (rb_erase x st = ((if tptr ch =? 0 then mret tt else rb_set_parent (tptr ch) (cptr k)) ;;
      change_child (cptr k) x (tptr ch) ;;
      (if colZ c =? RB_BLACK then __rb_erase_color (tptr ch) (cptr k) else mret tt)) st) as ->.
    { pose proof (zrep_aligned _ _ _ Hz) as Hpa.
      unfold rb_erase. erewrite bind_run by (by eapply zrep_load).
      cbn [rb_left rb_right rb_parent_color]. rewrite rb_parent_pack, rb_color_pack by done.
      destruct Hch as [[-> ->]|[-> ->]]; cbn [tptr]; rewrite Z.eqb_refl; [done|].
      rewrite orb_true_r. cbv zeta. by destruct (Z.eq_dec (tptr l) 0) as [->|E%Z.eqb_neq]; rewrite ?E. }
    destruct (erase_one_child _ _ _ _ _ _ _ Hz Hch) as (st1 & Hr1 & Hz1).
    erewrite bind_run2 by done.
    destruct (short_child _ _ _ _ _ _ _ Ht Hk Hch) as [HR HB]. rewrite (app_assoc (inorder l)), Ho.
    rewrite <-inorder_plug. by eapply erase_finish.
  - destruct (erase_two_children st k c l x r) as (st1 & km & cm & m & mr & E & Hi & Hr1 & Hz1);
      [done..|].
    rewrite Hr1, Hi. assert (is_rb (plug (km ++ Rf c l x :: k) (N cm L m mr))) as Hrb'.
    { rewrite plug_app. cbn. by rewrite <-E. }
    destruct (plug_crb _ _ Hrb') as (c1 & n1 & Ht1 & Hk1).
    pose proof (rbt_tcolor _ _ _ Ht1) as <-. cbn in Ht1, Hk1. apply (crb_rename _ _ _ _ m) in Hk1.
    destruct (short_child _ _ _ _ _ _ mr Ht1 Hk1) as [HR HB]; [by left|].
    destruct (erase_finish _ _ _ cm Hz1 HR HB) as (st2 & t' & ? & ? & ? & Ho).
    exists st2, t'. split_and!; [done..|]. rewrite Ho, plug_app, inorder_plug.
    cbn. by rewrite <-!app_assoc.
Qed.

(** [rb_erase] of a node of the tree: it returns, and the tree it leaves is
    red-black and lists the other nodes in the same order. *)
Theorem rb_erase_run st t x (l1 l2 : list Z) :
  zrep st [] t -> is_rb t -> inorder t = l1 ++ x :: l2 ->
  exists st' t', rb_erase x st = Some (tt, st') /\ zrep st' [] t' /\ is_rb t' /\
    inorder t' = l1 ++ l2.
Proof.
  intros Hz Hrb Hi. pose proof Hz as [_ _ Hn _].
  destruct (focus_exists t x) as (k & c & l & r & ->).
  { rewrite Hi. set_solver +. }
  rewrite <-zrep_plug, app_nil_r in Hz.
  destruct (rb_erase_focus _ _ _ _ _ _ Hz Hrb) as (st' & t' & ? & ? & ? & Ho).
  exists st', t'. split_and!; [done..|]. rewrite Ho. clear Ho.
  cbn in Hn. rewrite inorder_plug in Hi, Hn. cbn in Hi, Hn.
  destruct (nodup_split x (cleft k ++ inorder l) (inorder r ++ cright k) l1 l2) as [<- <-];
    [by rewrite <-!app_assoc in *|by rewrite <-Hi, <-!app_assoc|by rewrite <-!app_assoc].
Qed.

End erase.

(** ** Walking the tree *)
(** The first and last element of a list of nodes, NULL when there is none. *)
Definition hd0 (l : list Z) : Z := default 0 (head l).
Definition last0 (l : list Z) : Z := default 0 (last l).

Lemma hd0_app l1 l2 : hd0 (l1 ++ l2) = match l1 with [] => hd0 l2 | x :: _ => x end.
Proof. by destruct l1. Qed.
Lemma last0_app l1 x l2 : last0 (l1 ++ x :: l2) = last0 (x :: l2).
Proof. unfold last0. by rewrite last_app_cons. Qed.

Section walking.
Implicit Types (st : rb_state) (k : ctx) (t l r : tree).

Lemma leftmost_hd st k t fuel :
  zrep st k t -> t <> L -> (length (inorder t) < fuel)%nat ->
  leftmost fuel (tptr t) st = Some (hd0 (inorder t), st).
Proof.
  intros Hz Ht Hf. destruct (leftmost_run _ _ _ _ Hz Ht Hf) as (cm & m & mr & -> & [->|(t' & p & Hm)]);
    [done|]. by destruct (ismin_inorder _ _ _ _ _ _ Hm) as (-> & _).
Qed.

Lemma rightmost_last st k t fuel :
  zrep st k t -> t <> L -> (length (inorder t) < fuel)%nat ->
  rightmost fuel (tptr t) st = Some (last0 (inorder t), st).
Proof.
  revert k t. induction fuel as [|fuel IH]; intros k t Hz Hne Hf; [lia|].
  destruct t as [|c l x r]; [done|]. cbn [rightmost tptr].
  erewrite bind_run by (by eapply zrep_load). cbn [rb_right inorder]. rewrite last0_app.
  apply zdn_R in Hz. destruct r as [|cr rl rx rr]; [done|].
  destruct (zrep_valid _ _ _ _ _ _ Hz) as [_ Hrx]. cbn [tptr].
  rewrite (proj2 (Z.eqb_neq _ _) Hrx). cbn [inorder] in Hf. rewrite length_app in Hf. cbn [length] in Hf.
  change rx with (tptr (N cr rl rx rr)). rewrite (IH _ _ Hz) by (done || cbn [inorder]; lia).
  cbn [inorder]. change (x :: ?l) with ([x] ++ l). by rewrite app_assoc, !last0_app.
Qed.

Lemma climb_right_run st k t fuel :
  zrep st k t -> t <> L -> (length k < fuel)%nat ->
  climb_right fuel (tptr t) st = Some (hd0 (cright k), st).
Proof.
  revert k t. induction fuel as [|fuel IH]; intros k t Hz Hne Hf; [lia|].
  destruct t as [|c l x r]; [done|]. cbn [climb_right tptr].
  pose proof (zrep_aligned _ _ _ Hz) as Ha.
  erewrite bind_run by (by eapply zrep_load). cbn [rb_parent_color]. rewrite rb_parent_pack by done.
  destruct k as [|[cp p s|cp s p] k]; [done|..]; cbn [cptr].
  - pose proof (zrep_ne_tptr _ _ _ _ Hz) as Hx. cbn in Hx.
    pose proof (zrep_valid _ _ _ _ _ _ Hz) as [_ Hx0].
    apply zup_L in Hz. destruct (zrep_valid _ _ _ _ _ _ Hz) as [_ Hp].
    rewrite (proj2 (Z.eqb_neq _ _) Hp). erewrite bind_run by (by eapply zrep_load). cbn [rb_right].
    by rewrite (proj2 (Z.eqb_neq _ _) (Hx Hx0)).
  - apply zup_R in Hz. destruct (zrep_valid _ _ _ _ _ _ Hz) as [_ Hp].
    rewrite (proj2 (Z.eqb_neq _ _) Hp). erewrite bind_run by (by eapply zrep_load). cbn [rb_right tptr].
    rewrite Z.eqb_refl. cbn in Hf. apply (IH _ _ Hz); [done|lia].
Qed.

Lemma climb_left_run st k t fuel :
  zrep st k t -> t <> L -> (length k < fuel)%nat ->
  climb_left fuel (tptr t) st = Some (last0 (cleft k), st).
Proof.
  revert k t. induction fuel as [|fuel IH]; intros k t Hz Hne Hf; [lia|].
  destruct t as [|c l x r]; [done|]. cbn [climb_left tptr].
  pose proof (zrep_aligned _ _ _ Hz) as Ha.
  erewrite bind_run by (by eapply zrep_load). cbn [rb_parent_color]. rewrite rb_parent_pack by done.
  destruct k as [|[cp p s|cp s p] k]; [done|..]; cbn [cptr].
  - apply zup_L in Hz. destruct (zrep_valid _ _ _ _ _ _ Hz) as [_ Hp].
    rewrite (proj2 (Z.eqb_neq _ _) Hp). erewrite bind_run by (by eapply zrep_load). cbn [rb_left tptr].
    rewrite Z.eqb_refl. cbn in Hf. apply (IH _ _ Hz); [done|lia].
  - pose proof (zrep_ne_tptr _ _ _ _ Hz) as Hx. cbn in Hx.
    pose proof (zrep_valid _ _ _ _ _ _ Hz) as [_ Hx0].
    apply zup_R in Hz. destruct (zrep_valid _ _ _ _ _ _ Hz) as [_ Hp].
    rewrite (proj2 (Z.eqb_neq _ _) Hp). erewrite bind_run by (by eapply zrep_load). cbn [rb_left].
    rewrite (proj2 (Z.eqb_neq _ _) (Hx Hx0)). cbn [cleft]. by rewrite app_assoc, last0_app.
Qed.

(** Focusing on a node of the tree, with the order split at it. *)
Lemma zrep_split st t x (l1 l2 : list Z) :
  zrep st [] t -> inorder t = l1 ++ x :: l2 ->
  exists k c l r, t = plug k (N c l x r) /\ zrep st k (N c l x r) /\
    l1 = cleft k ++ inorder l /\ l2 = inorder r ++ cright k.
Proof.
  intros Hz Hi. pose proof Hz as [_ _ Hn _].
  destruct (focus_exists t x) as (k & c & l & r & ->); [rewrite Hi; set_solver +|].
  exists k, c, l, r. rewrite <-zrep_plug, app_nil_r in Hz. split_and!; [done..| |];
  cbn in Hn; rewrite inorder_plug in Hi, Hn; cbn in Hi, Hn;
  (destruct (nodup_split x (cleft k ++ inorder l) (inorder r ++ cright k) l1 l2) as [<- <-];
    [by rewrite <-!app_assoc in *|by rewrite <-Hi, <-!app_assoc|done]).
Qed.

Lemma zrep_parent_ne st k c l x r : zrep st k (N c l x r) -> cptr k <> x.
Proof.
  intros Hz. destruct (zrep_valid _ _ _ _ _ _ Hz) as [_ Hx].
  destruct k as [|f k]; [done|]. destruct Hz as [_ _ Hn _].
  intros E. apply NoDup_app in Hn as (_ & Hn & _). apply (Hn x); [|set_solver +].
  rewrite <-E. destruct f; cbn; set_solver +.
Qed.

Lemma rb_next_run st t x (l1 l2 : list Z) :
  zrep st [] t -> inorder t = l1 ++ x :: l2 -> rb_next x st = Some (hd0 l2, st).
Proof.
  intros Hz Hi. destruct (zrep_split _ _ _ _ _ Hz Hi) as (k & c & l & r & -> & Hzk & -> & ->).
  pose proof (zrep_aligned _ _ _ Hzk) as Ha. pose proof (zrep_fuel _ _ _ Hzk) as Hf.
  cbn in Hf. rewrite length_app in Hf. cbn in Hf.
  unfold rb_next. erewrite bind_run by done. erewrite bind_run by (by eapply zrep_load).
  cbn [rb_right rb_parent_color]. rewrite rb_parent_pack by done.
  rewrite (proj2 (Z.eqb_neq _ _) (zrep_parent_ne _ _ _ _ _ _ Hzk)).
  destruct r as [|cr rl rx rr].
  - apply (climb_right_run _ _ _ _ Hzk); [done|lia].
  - apply zdn_R in Hzk. destruct (zrep_valid _ _ _ _ _ _ Hzk) as [_ Hrx]. cbn [tptr].
    rewrite (proj2 (Z.eqb_neq _ _) Hrx). change rx with (tptr (N cr rl rx rr)) at 1.
    rewrite (leftmost_hd _ _ _ _ Hzk) by (done || lia).
    rewrite hd0_app. cbn. by destruct (inorder rl).
Qed.

Lemma rb_prev_run st t x (l1 l2 : list Z) :
  zrep st [] t -> inorder t = l1 ++ x :: l2 -> rb_prev x st = Some (last0 l1, st).
Proof.
  intros Hz Hi. destruct (zrep_split _ _ _ _ _ Hz Hi) as (k & c & l & r & -> & Hzk & -> & ->).
  pose proof (zrep_aligned _ _ _ Hzk) as Ha. pose proof (zrep_fuel _ _ _ Hzk) as Hf.
  cbn in Hf. rewrite length_app in Hf. cbn in Hf.
  unfold rb_prev. erewrite bind_run by done. erewrite bind_run by (by eapply zrep_load).
  cbn [rb_left rb_parent_color]. rewrite rb_parent_pack by done.
  rewrite (proj2 (Z.eqb_neq _ _) (zrep_parent_ne _ _ _ _ _ _ Hzk)).
  destruct l as [|cl ll lx lr].
  - cbn [inorder]. rewrite app_nil_r. apply (climb_left_run _ _ _ _ Hzk); [done|lia].
  - apply zdn_L in Hzk. destruct (zrep_valid _ _ _ _ _ _ Hzk) as [_ Hlx]. cbn [tptr].
    rewrite (proj2 (Z.eqb_neq _ _) Hlx). change lx with (tptr (N cl ll lx lr)) at 1.
    rewrite (rightmost_last _ _ _ _ Hzk) by (done || lia).
    cbn [inorder]. by rewrite (app_assoc (cleft k)), !last0_app.
Qed.

Lemma rb_first_run st t : zrep st [] t -> rb_first st = Some (hd0 (inorder t), st).
Proof.
  intros Hz. pose proof Hz as [_ Hc _ _]. cbn in Hc. unfold rb_first. erewrite bind_run by done.
  pose proof (zrep_fuel _ _ _ Hz) as Hf. rewrite Hc. destruct t as [|c l x r]; [done|].
  destruct (zrep_valid _ _ _ _ _ _ Hz) as [_ Hx]. cbn [tptr]. rewrite (proj2 (Z.eqb_neq _ _) Hx).
  change x with (tptr (N c l x r)) at 1. cbn in Hf. by rewrite (leftmost_hd _ _ _ _ Hz) by (done || cbn; lia).
Qed.

Lemma rb_last_run st t : zrep st [] t -> rb_last st = Some (last0 (inorder t), st).
Proof.
  intros Hz. pose proof Hz as [_ Hc _ _]. cbn in Hc. unfold rb_last. erewrite bind_run by done.
  pose proof (zrep_fuel _ _ _ Hz) as Hf. rewrite Hc. destruct t as [|c l x r]; [done|].
  destruct (zrep_valid _ _ _ _ _ _ Hz) as [_ Hx]. cbn [tptr]. rewrite (proj2 (Z.eqb_neq _ _) Hx).
  change x with (tptr (N c l x r)) at 1. cbn in Hf. by rewrite (rightmost_last _ _ _ _ Hz) by (done || cbn; lia).
Qed.

End walking.

(** ** Linking, recolouring and replacing whole nodes *)
Section whole.
Implicit Types (st : rb_state) (k : ctx) (t l r : tree).

(** The address of the child pointer the hole of [k] stands for. *)
Definition link_of (k : ctx) : rb_link :=
  match k with [] => LinkRoot | Lf _ x _ :: _ => LinkLeft x | Rf _ _ x :: _ => LinkRight x end.

Lemma rb_link_node_run st k x :
  zrep st k L -> valid x -> x ∉ cids k ->
  exists st', rb_link_node x (cptr k) (link_of k) st = Some (tt, st') /\ zrep st' k (N Red L x L).
Proof.
  intros [_ Hc Hn Hv] Hx Hxk. rewrite app_nil_r in Hn, Hv. unfold rb_link_node.
  erewrite bind_run by done. set (st1 := RbState _ _).
  assert (crep (nodes st1) k 0 (root st1)) as Hc1.
  { eapply crep_frame; [done|]. intros q Hq. cbn. apply lookup_insert_ne. by intros ->. }
  assert (exists st', (match link_of k with
    | LinkRoot => set_root x | LinkLeft p => set_left p x | LinkRight p => set_right p x end) st1
      = Some (tt, st') /\ crep (nodes st') k x (root st') /\ nodes st' !! x = nodes st1 !! x)
    as (st' & -> & Hc' & Hx').
  { destruct k as [|[c p s|c s p] k]; cbn [link_of].
    - by exists (RbState (nodes st1) x).
    - destruct Hc1 as (Hp & Hs & Hc1). cbn in Hn. apply NoDup_cons in Hn as [Hpn Hn].
      eexists. split; [by eapply set_left_run|]. split; [|cbn in *; apply lookup_insert_ne; set_solver +Hxk].
      cbn [upd nodes crep root rb_parent_color rb_right]. rewrite lookup_insert_eq. split_and!; [done|..].
      + eapply rep_frame; [done|]. intros q Hq. apply lookup_insert_ne. set_solver +Hq Hpn.
      + eapply crep_frame; [done|]. intros q Hq. apply lookup_insert_ne. set_solver +Hq Hpn.
    - destruct Hc1 as (Hp & Hs & Hc1). cbn in Hn. apply NoDup_cons in Hn as [Hpn Hn].
      eexists. split; [by eapply set_right_run|]. split; [|cbn in *; apply lookup_insert_ne; set_solver +Hxk].
      cbn [upd nodes crep root rb_parent_color rb_left]. rewrite lookup_insert_eq. split_and!; [done|..].
      + eapply rep_frame; [done|]. intros q Hq. apply lookup_insert_ne. set_solver +Hq Hpn.
      + eapply crep_frame; [done|]. intros q Hq. apply lookup_insert_ne. set_solver +Hq Hpn. }
  exists st'. split; [done|]. split; [|done|..].
  - cbn. rewrite Hx'. cbn. by rewrite lookup_insert_eq, Z.add_0_r.
  - cbn. apply NoDup_app. split_and!; [done| |apply NoDup_singleton]. set_solver +Hxk.
  - cbn. apply Forall_app. by rewrite Forall_singleton.
Qed.

(** [rb_insert_color] after [rb_link_node]. *)
Lemma rb_insert_color_run st k x :
  zrep st k (N Red L x L) -> is_rb (plug k L) ->
  exists st' t, rb_insert_color x st = Some (tt, st') /\ zrep st' [] t /\ is_rb t /\
    inorder t = cleft k ++ x :: cright k.
Proof.
  intros Hz Hrb. destruct (plug_crb _ _ Hrb) as (c & n & Hl & Hk). inversion Hl; subst.
  unfold rb_insert_color. erewrite bind_run by done.
  destruct (insert_loop_run (S (size (nodes st))) st k 0 L x L) as (st1 & t & c & m & Hr & Hz1 & Hi & Ht);
    [done|eauto with rb|done| |].
  { pose proof (zrep_fuel _ _ _ Hz). lia. }
  erewrite bind_run by done. rewrite inorder_plug in Hi. cbn in Hi.
  destruct t as [|c1 l1 y r1]; [by destruct (cleft k)|].
  pose proof Hz1 as [_ Hc1 _ _]. cbn in Hc1. erewrite bind_run by done. rewrite Hc1.
  destruct (rb_set_black_run _ _ _ _ _ _ Hz1) as (st2 & Hr2 & Hz2).
  exists st2, (N Black l1 y r1). split_and!; [done|done| |done].
  inversion Ht; subst; eexists; eauto with rb.
Qed.

(** Linking a fresh node at the hole [k] and rebalancing. *)
Lemma rb_insert_run st k x :
  zrep st k L -> is_rb (plug k L) -> valid x -> x ∉ cids k ->
  exists st' t, (rb_link_node x (cptr k) (link_of k) ;; rb_insert_color x) st = Some (tt, st') /\
    zrep st' [] t /\ is_rb t /\ inorder t = cleft k ++ x :: cright k.
Proof.
  intros Hz Hrb Hx Hxk. destruct (rb_link_node_run _ _ _ Hz Hx Hxk) as (st1 & Hr & Hz1).
  erewrite bind_run by done. by apply rb_insert_color_run.
Qed.

Lemma change_child_sym parent old new st :
  (if parent =? 0 then set_root new
   else pn ← load parent;
        if old =? rb_left pn then set_left parent new else set_right parent new) st
  = change_child parent old new st.
Proof.
  unfold change_child. destruct (parent =? 0); [done|]. unfold mbind, M_bind.
  destruct (load parent st) as [[pn st']|]; [|done]. by rewrite Z.eqb_sym.
Qed.

Lemma rb_replace_node_run st k c l x r y :
  zrep st k (N c l x r) -> valid y -> y ∉ cids k ++ inorder (N c l x r) ->
  exists st', rb_replace_node x y st = Some (tt, st') /\ zrep st' k (N c l y r).
Proof.
  intros Hz Hy Hyk. pose proof (zrep_aligned _ _ _ Hz) as Hpa.
  destruct (zrep_valid _ _ _ _ _ _ Hz) as [Hxa Hx0]. destruct Hy as [Hya Hy0].
  destruct Hz as [(Hx & Hl & Hr) Hc Hn Hv].
  pose proof Hn as Hn0. cbn in Hn. rewrite NoDup_app, NoDup_app, NoDup_cons in Hn.
  destruct Hn as (Hnk & Hdk & Hnl & Hdl & Hxr & Hnr).
  cbn in Hv. rewrite !Forall_app, Forall_cons in Hv. destruct Hv as (Hvk & Hvl & _ & Hvr).
  assert ((y ∉ cids k) /\ (y ∉ inorder l) /\ (y ∉ inorder r) /\ y <> x) as (Hyk' & Hyl & Hyr & Hyx)
    by (cbn in Hyk; set_solver +Hyk).
  assert (x ∉ cids k) as Hxk by (intros Hq; apply (Hdk x Hq); cbn; set_solver +).
  assert (x ∉ inorder l) as Hxl by (intros Hq; apply (Hdl x Hq); set_solver +).
  destruct (change_child_run st k x y) as (st1 & Hr1 & Hc1 & Hs1); [done..|].
  destruct (reparent_run st1 x y l) as (st2 & Hr2 & Hl2 & Hrt2 & Hs2); [|done..|].
  { eapply rep_frame; [done|]. intros q Hq. apply Hs1. intros Hq'. apply (Hdk q Hq'). set_solver +Hq. }
  destruct (reparent_run st2 x y r) as (st3 & Hr3 & Hr3' & Hrt3 & Hs3); [|done..|].
  { eapply rep_frame; [done|]. intros q Hq. rewrite Hs2, Hs1; [done|..].
    - intros Hq'. apply (Hdk q Hq'). set_solver +Hq.
    - intros Hq'. apply (Hdl q Hq'). set_solver +Hq. }
  assert (nodes st3 !! x = nodes st !! x) as Hx3 by (by rewrite Hs3, Hs2, Hs1).
  eexists. split.
  { unfold rb_replace_node. erewrite bind_run by (by apply load_run).
    cbn [rb_parent_color rb_left rb_right]. rewrite rb_parent_pack by done.
    erewrite bind_run by (by rewrite change_child_sym).
    erewrite bind_run by done. erewrite bind_run by done.
    erewrite bind_run by (apply load_run; by rewrite Hx3). done. }
  assert (forall q, q <> y -> q ∉ inorder r -> q ∉ inorder l ->
    <[y := RbNode (cptr k + colZ c) (tptr r) (tptr l)]> (nodes st3) !! q = nodes st1 !! q) as Hq.
  { intros q ???. rewrite lookup_insert_ne by done. by rewrite Hs3, Hs2. }
  split; cbn.
  - rewrite lookup_insert_eq. split_and!; [done|eapply rep_frame; [done|]..].
    + intros q Hql. rewrite lookup_insert_ne by (intros ->; done). apply Hs3.
      intros Hqr. apply (Hdl q Hql). set_solver +Hqr.
    + intros q Hqr. by rewrite lookup_insert_ne by (intros ->; done).
  - rewrite Hrt3, Hrt2. eapply crep_frame; [done|]. intros q Hqk.
    apply Hq; [by intros ->|intros Hqr; apply (Hdk q Hqk); cbn; set_solver +Hqr..].
  - rewrite !NoDup_app, NoDup_cons. cbn in Hdk. set_solver +Hyk' Hyl Hyr Hdk Hdl Hnk Hnl Hnr.
  - by rewrite !Forall_app, Forall_cons.
Qed.

(** The longest path of a red-black tree. *)
Fixpoint height t : nat := match t with L => 0 | N _ l _ r => S (height l `max` height r) end.

Lemma rbt_size c n t : rbt c n t -> (2 ^ n <= S (length (inorder t)))%nat.
Proof.
  induction 1; cbn -[Nat.pow]; rewrite ?length_app; cbn -[Nat.pow]; [done|lia|].
  rewrite Nat.pow_succ_r'. lia.
Qed.

Lemma rbt_height c n t : rbt c n t -> (height t <= match c with Red => S (2 * n) | Black => 2 * n end)%nat.
Proof. induction 1; cbn; [lia..|]. destruct cl, cr; lia. Qed.

Lemma is_rb_height t : is_rb t -> (height t <= 2 * Nat.log2 (S (length (inorder t))))%nat.
Proof.
  intros [n Ht]. pose proof (rbt_size _ _ _ Ht) as Hs. pose proof (rbt_height _ _ _ Ht).
  apply Nat.log2_le_mono in Hs. rewrite Nat.log2_pow2 in Hs by lia. cbn in *. lia.
Qed.

End whole.

(** ** What the component promises *)
(** [tree_ok st l]: the root pointer of [st] leads to a red-black tree whose
    in-order sequence of nodes is [l]. *)
Definition tree_ok (st : rb_state) (l : list Z) : Prop :=
  exists t, zrep st [] t /\ is_rb t /\ inorder t = l.

(** [link_at st x link parent l l']: [link] is a NULL child pointer of [parent]
    (or the NULL root pointer), and a node [x] stored there turns the sequence
    [l] into [l']. *)
Inductive link_at (st : rb_state) (x : Z) : rb_link -> Z -> list Z -> list Z -> Prop :=
  | at_root : root st = 0 -> link_at st x LinkRoot 0 [] [x]
  | at_left p n l1 l2 : nodes st !! p = Some n -> rb_left n = 0 ->
      link_at st x (LinkLeft p) p (l1 ++ p :: l2) (l1 ++ x :: p :: l2)
  | at_right p n l1 l2 : nodes st !! p = Some n -> rb_right n = 0 ->
      link_at st x (LinkRight p) p (l1 ++ p :: l2) (l1 ++ p :: x :: l2).

Lemma tptr_0 st k t : zrep st k t -> tptr t = 0 -> t = L.
Proof. destruct t; [done|]. intros Hz E. by destruct (zrep_valid _ _ _ _ _ _ Hz) as [_ []]. Qed.

Lemma link_at_hole st x link parent l l' :
  tree_ok st l -> link_at st x link parent l l' -> x ∉ l ->
  exists k, zrep st k L /\ is_rb (plug k L) /\ link = link_of k /\ parent = cptr k /\
    l' = cleft k ++ x :: cright k /\ x ∉ cids k.
Proof.
  intros (t & Hz & Hrb & Hi) Hat Hxl.
  assert (forall k, zrep st k L -> inorder (plug k L) = l -> x ∉ cids k) as Hxk.
  { intros k _ E. rewrite cids_perm. rewrite inorder_plug in E. cbn in E. by rewrite E. }
  destruct Hat as [Hr|p n l1 l2 Hp Hc|p n l1 l2 Hp Hc].
  - pose proof Hz as [_ Hcr _ _]. cbn in Hcr. assert (t = L) as -> by (eapply tptr_0; [done|congruence]).
    exists []. split_and!; done || set_solver +Hxl.
  - destruct (zrep_split _ _ _ _ _ Hz Hi) as (k & c & a & b & -> & Hzk & -> & ->).
    pose proof Hzk as [(Hp' & _) _ _ _]. rewrite Hp' in Hp. simplify_eq. cbn in Hc.
    apply zdn_L in Hzk. apply (tptr_0 _ _ _ Hzk) in Hc as ->.
    exists (Lf c p b :: k). split_and!; try done; [by cbn; rewrite app_nil_r|by apply Hxk].
  - destruct (zrep_split _ _ _ _ _ Hz Hi) as (k & c & a & b & -> & Hzk & -> & ->).
    pose proof Hzk as [(Hp' & _) _ _ _]. rewrite Hp' in Hp. simplify_eq. cbn in Hc.
    apply zdn_R in Hzk. apply (tptr_0 _ _ _ Hzk) in Hc as ->.
    exists (Rf c a p :: k). split_and!; try done; [by cbn; rewrite <-!app_assoc|by apply Hxk].
Qed.

(** C14: linking a fresh node at a NULL child pointer with [rb_link_node] and
    rebalancing with [rb_insert_color] returns, and leaves a red-black tree
    whose sequence has the node at that position and is otherwise unchanged. *)
Theorem rb_insert_correct st x link parent l l' :
  tree_ok st l -> link_at st x link parent l l' -> valid x -> x ∉ l ->
  exists st', (rb_link_node x parent link ;; rb_insert_color x) st = Some (tt, st') /\
    tree_ok st' l'.
Proof.
  intros Hok Hat Hx Hxl.
  destruct (link_at_hole _ _ _ _ _ _ Hok Hat Hxl) as (k & Hz & Hrb & -> & -> & -> & Hxk).
  destruct (rb_insert_run _ _ _ Hz Hrb Hx Hxk) as (st' & t & ? & ? & ? & ?).
  exists st'. split; [done|]. by exists t.
Qed.

(** C1: [rb_erase] of a node of the tree returns, and leaves a red-black tree
    whose sequence is the old one without that node. *)
Theorem rb_erase_correct st l1 x l2 :
  tree_ok st (l1 ++ x :: l2) ->
  exists st', rb_erase x st = Some (tt, st') /\ tree_ok st' (l1 ++ l2).
Proof.
  intros (t & Hz & Hrb & Hi). destruct (rb_erase_run _ _ _ _ _ Hz Hrb Hi) as (st' & t' & ? & ? & ? & ?).
  exists st'. split; [done|]. by exists t'.
Qed.

(** on a tree with sequence [l1 ++ x :: l2], [rb_first] and [rb_last]
    return the ends of the sequence, [rb_next] and [rb_prev] of [x] its
    neighbours (NULL past an end), and none of them changes the tree; no path
    from the root is longer than [2 * log2 (n + 1)] for [n] nodes. *)
Theorem rb_walk_correct st l1 x l2 :
  tree_ok st (l1 ++ x :: l2) ->
  rb_first st = Some (hd0 (l1 ++ x :: l2), st) /\
  rb_last st = Some (last0 (l1 ++ x :: l2), st) /\
  rb_next x st = Some (hd0 l2, st) /\
  rb_prev x st = Some (last0 l1, st) /\
  exists t, zrep st [] t /\ (height t <= 2 * Nat.log2 (S (length (l1 ++ x :: l2))))%nat.
Proof.
  intros (t & Hz & Hrb & Hi). rewrite <-Hi. split_and!.
  - by apply rb_first_run.
  - by apply rb_last_run.
  - by eapply rb_next_run.
  - by eapply rb_prev_run.
  - exists t. split; [done|]. by apply is_rb_height.
Qed.

(** [rb_replace_node] puts a fresh node into the place of a node of the
    tree: the sequence has the new node in the position of the old one, and the
    tree is still red-black. *)
Theorem rb_replace_correct st l1 x l2 y :
  tree_ok st (l1 ++ x :: l2) -> valid y -> y ∉ l1 ++ x :: l2 ->
  exists st', rb_replace_node x y st = Some (tt, st') /\ tree_ok st' (l1 ++ y :: l2).
Proof.
  intros (t & Hz & Hrb & Hi) Hy Hyl.
  destruct (zrep_split _ _ _ _ _ Hz Hi) as (k & c & a & b & -> & Hzk & -> & ->).
  destruct (rb_replace_node_run _ _ _ _ _ _ y Hzk Hy) as (st' & Hr & Hz').
  { rewrite <-Hi, inorder_plug in Hyl. rewrite cids_perm. cbn in *. set_solver +Hyl. }
  exists st'. split; [done|]. exists (plug k (N c a y b)). split_and!.
  - by apply zrep_root.
  - destruct (plug_crb _ _ Hrb) as (c' & n & Ht & Hk). eapply crb_plug; [done|].
    inversion Ht; subst; econstructor; eauto.
  - rewrite inorder_plug. cbn. by rewrite <-!app_assoc.
Qed.

(** ** A concrete tree *)
Definition demo_tree : tree := N Black (N Red L 4 L) 8 (N Red L 12 L).
Definition demo_rb : rb_state :=
  RbState {[ 8 := RbNode 1 12 4; 4 := RbNode 8 0 0; 12 := RbNode 8 0 0 ]} 8.

Lemma valid_dec p : (0 <? p) && (p mod 4 =? 0) = true -> valid p.
Proof. unfold valid, aligned. intros. lia. Qed.

Lemma demo_rb_ok : tree_ok demo_rb [4; 8; 12].
Proof.
  exists demo_tree. split_and!; [|exists 1%nat; repeat econstructor|done].
  split; [cbn; split_and!; reflexivity|reflexivity| |repeat constructor; lia].
  apply (bool_decide_unpack _). vm_compute. exact I.
Qed.

Lemma rb_insert_witness :
  exists st', (rb_link_node 16 4 (LinkRight 4) ;; rb_insert_color 16) demo_rb = Some (tt, st') /\
    tree_ok st' [4; 16; 8; 12].
Proof.
  apply (rb_insert_correct demo_rb 16 (LinkRight 4) 4 [4; 8; 12] [4; 16; 8; 12]).
  - exact demo_rb_ok.
  - apply (at_right demo_rb 16 4 (RbNode 8 0 0) [] [8; 12]); reflexivity.
  - apply valid_dec. reflexivity.
  - set_solver.
Defined.

Lemma rb_erase_witness : exists st', rb_erase 8 demo_rb = Some (tt, st') /\ tree_ok st' [4; 12].
Proof. exact (rb_erase_correct demo_rb [4] 8 [12] demo_rb_ok). Defined.

Lemma rb_walk_witness : rb_next 8 demo_rb = Some (12, demo_rb) /\ rb_prev 8 demo_rb = Some (4, demo_rb).
Proof.
  destruct (rb_walk_correct demo_rb [4] 8 [12] demo_rb_ok) as (_ & _ & Hn & Hp & _).
  split; [exact Hn|exact Hp].
Defined.

Lemma rb_replace_witness :
  exists st', rb_replace_node 8 20 demo_rb = Some (tt, st') /\ tree_ok st' [4; 20; 12].
Proof.
  apply (rb_replace_correct demo_rb [4] 8 [12] 20 demo_rb_ok).
  - apply valid_dec. reflexivity.
  - set_solver.
Defined.
