(* ===== verification/SectorTree.v ===== *)
(** * Sector-sorted request trees

    The rb-tree support functions of block/elevator.c: requests are kept in a
    red-black tree ordered by [blk_rq_pos].  The sector of a request is a field
    of the request, outside the tree, so the operations take the function [pos]
    that reads it; a front merge changes [pos] of a request while it is linked.

    The interface [SectorTree] is what the I/O schedulers rely on; the
    implementation over lib/rbtree.c discharges it at the end of the file. *)
From stdpp Require Import prelude gmap list sorting.
From Stdlib Require Import ZArith Lia.
From S2P Require Import Prelude Rbtree.
Open Scope Z_scope.

(** ** The operations *)
(** The descent to a NULL child pointer: [cur] is the value of the child pointer [link] of
    [parent].  Returns the request of the same sector, or NULL when [rq] was
    linked. *)
Fixpoint elv_rb_add_loop (fuel : nat) (pos : Z -> Z) (rq parent : Z) (link : rb_link) (cur : Z)
  : M rb_state Z :=
  match fuel with
  | O => oops
  | S fuel =>
    if cur =? 0 then
      rb_link_node rq parent link ;; rb_insert_color rq ;; mret 0
    else
      n ← load cur;
      if pos rq <? pos cur then elv_rb_add_loop fuel pos rq cur (LinkLeft cur) (rb_left n)
      else if pos rq >? pos cur then elv_rb_add_loop fuel pos rq cur (LinkRight cur) (rb_right n)
      else mret cur
  end.

Definition elv_rb_add (pos : Z -> Z) (rq : Z) : M rb_state Z :=
  st ← get; elv_rb_add_loop (S (size (nodes st))) pos rq 0 LinkRoot (root st).

Definition elv_rb_del (rq : Z) : M rb_state unit :=
  e ← RB_EMPTY_NODE rq; BUG_ON e ;; rb_erase rq ;; RB_CLEAR_NODE rq.

Fixpoint elv_rb_find_loop (fuel : nat) (pos : Z -> Z) (sector n : Z) : M rb_state Z :=
  match fuel with
  | O => oops
  | S fuel =>
    if n =? 0 then mret 0 else
    nd ← load n;
    if sector <? pos n then elv_rb_find_loop fuel pos sector (rb_left nd)
    else if sector >? pos n then elv_rb_find_loop fuel pos sector (rb_right nd)
    else mret n
  end.

Definition elv_rb_find (pos : Z -> Z) (sector : Z) : M rb_state Z :=
  st ← get; elv_rb_find_loop (S (size (nodes st))) pos sector (root st).

Definition elv_rb_former_request (rq : Z) : M rb_state Z := rb_prev rq.
Definition elv_rb_latter_request (rq : Z) : M rb_state Z := rb_next rq.

(** ** Sequences sorted by sector *)
Definition sector_lt (pos : Z -> Z) (a b : Z) : Prop := pos a < pos b.
Definition sorted (pos : Z -> Z) (l : list Z) : Prop := StronglySorted (sector_lt pos) l.

(** Insertion in sector order. *)
Fixpoint place (pos : Z -> Z) (x : Z) (l : list Z) : list Z :=
  match l with
  | [] => [x]
  | y :: l' => if pos x <? pos y then x :: l else y :: place pos x l'
  end.

(** The request at sector [s], NULL when there is none. *)
Definition at_sector (pos : Z -> Z) (s : Z) (l : list Z) : Z :=
  default 0 (head (filter (λ y, pos y = s) l)).

Section sequences.
Context (pos : Z -> Z).
Implicit Types (l : list Z) (x y : Z).

Lemma sorted_app l1 l2 : sorted pos (l1 ++ l2) <->
  sorted pos l1 /\ sorted pos l2 /\ forall a b, a ∈ l1 -> b ∈ l2 -> pos a < pos b.
Proof.
  unfold sorted. induction l1 as [|x l1 IH]; cbn.
  - split; [|tauto]. intros ?. split_and!; [constructor|done|set_solver].
  - split.
    + inversion 1 as [|? ? H1 H2]; subst. apply IH in H1 as (? & ? & Hab).
      rewrite Forall_app, !Forall_forall in H2. destruct H2 as [H2 H3].
      split_and!; [constructor; [done|by apply Forall_forall]|done|].
      intros a b [->|Ha]%elem_of_cons Hb; [by apply H3|by apply Hab].
    + intros (H1 & H2 & Hab). inversion H1 as [|? ? H3 H4]; subst. constructor.
      * apply IH. split_and!; [done..|]. intros a b Ha Hb. apply Hab; [set_solver +Ha|done].
      * rewrite Forall_app. split; [done|]. apply Forall_forall. intros b Hb. apply Hab; set_solver +Hb.
Qed.

Lemma sorted_cons x l : sorted pos (x :: l) <-> sorted pos l /\ forall b, b ∈ l -> pos x < pos b.
Proof.
  unfold sorted. split.
  - inversion 1 as [|? ? H1 H2]; subst. by rewrite Forall_forall in H2.
  - intros [H1 H2]. constructor; [done|]. by apply Forall_forall.
Qed.

Lemma sorted_mid l1 x l2 : sorted pos (l1 ++ x :: l2) <->
  sorted pos (l1 ++ l2) /\ (forall a, a ∈ l1 -> pos a < pos x) /\ (forall b, b ∈ l2 -> pos x < pos b).
Proof.
  rewrite !sorted_app, sorted_cons. split.
  - intros (? & (? & Hx) & Hab). split_and!; try done; intros; apply Hab; set_solver.
  - intros ((? & ? & Hab) & H1 & H2). split_and!; try done.
    intros a b Ha [->|Hb]%elem_of_cons; [by apply H1|by apply Hab].
Qed.

Lemma sorted_ext (pos' : Z -> Z) l : (forall x, x ∈ l -> pos' x = pos x) -> sorted pos l -> sorted pos' l.
Proof.
  unfold sorted. induction l as [|x l IH]; intros He Hs; [constructor|].
  inversion Hs as [|? ? H1 H2]; subst. constructor; [apply IH; [set_solver|done]|].
  rewrite Forall_forall in *. intros y Hy. unfold sector_lt. rewrite !He by set_solver. by apply H2.
Qed.

Lemma place_split l1 l2 x :
  (forall a, a ∈ l1 -> pos a < pos x) -> (forall b, b ∈ l2 -> pos x < pos b) ->
  place pos x (l1 ++ l2) = l1 ++ x :: l2.
Proof.
  intros H1 H2. induction l1 as [|y l1 IH]; cbn.
  - destruct l2 as [|b l2]; [done|]. cbn. rewrite (proj2 (Z.ltb_lt _ _)); [done|]. apply H2. set_solver +.
  - rewrite (proj2 (Z.ltb_ge _ _)); [f_equal; apply IH; set_solver|].
    specialize (H1 y). assert (pos y < pos x) by (apply H1; set_solver +). lia.
Qed.

(** A new sector splits a sorted sequence in two. *)
Lemma place_view l x : sorted pos l -> (forall y, y ∈ l -> pos y <> pos x) ->
  exists l1 l2, l = l1 ++ l2 /\ place pos x l = l1 ++ x :: l2 /\
    (forall a, a ∈ l1 -> pos a < pos x) /\ (forall b, b ∈ l2 -> pos x < pos b).
Proof.
  induction l as [|y l IH]; intros Hs Hne.
  - exists [], []. split_and!; [done..|set_solver +|set_solver +].
  - apply sorted_cons in Hs as [Hs Hy]. cbn. destruct (Z.ltb_spec (pos x) (pos y)) as [Hxy|Hxy].
    + exists [], (y :: l). split_and!; [done..|set_solver +|].
      intros b [->|Hb]%elem_of_cons; [done|]. specialize (Hy b Hb). lia.
    + assert (pos y <> pos x) by (apply Hne; set_solver +).
      destruct IH as (l1 & l2 & -> & -> & H1 & H2); [done|set_solver|].
      exists (y :: l1), l2. split_and!; [done..| |done].
      intros a [->|Ha]%elem_of_cons; [lia|by apply H1].
Qed.

Lemma place_sorted l x : sorted pos l -> (forall y, y ∈ l -> pos y <> pos x) -> sorted pos (place pos x l).
Proof.
  intros Hs Hne. destruct (place_view l x Hs Hne) as (l1 & l2 & -> & -> & H1 & H2).
  by apply sorted_mid.
Qed.

Lemma place_perm l x : place pos x l ≡ₚ x :: l.
Proof.
  induction l as [|y l IH]; cbn; [done|]. destruct (pos x <? pos y); [done|]. rewrite IH. constructor.
Qed.

Lemma sorted_nodup l : sorted pos l -> NoDup l.
Proof.
  induction l as [|x l IH]; intros Hs; [constructor|]. apply sorted_cons in Hs as [Hs Hx].
  constructor; [|by apply IH]. intros H. specialize (Hx x H). lia.
Qed.

Lemma sorted_inj l x y : sorted pos l -> x ∈ l -> y ∈ l -> pos x = pos y -> x = y.
Proof.
  induction l as [|z l IH]; intros Hs Hx Hy E; [set_solver +Hx|]. apply sorted_cons in Hs as [Hs Hz].
  apply elem_of_cons in Hx as [->|Hx], Hy as [->|Hy]; [done|..|by apply IH].
  - specialize (Hz y Hy). lia. - specialize (Hz x Hx). lia.
Qed.

Lemma at_sector_in l y : sorted pos l -> y ∈ l -> at_sector pos (pos y) l = y.
Proof.
  induction l as [|z l IH]; intros Hs Hy; [set_solver +Hy|]. unfold at_sector in *.
  pose proof Hs as [Hs' Hz]%sorted_cons. rewrite filter_cons. case_decide as E; cbn.
  - eapply sorted_inj; [exact Hs|set_solver +|done|done].
  - apply IH; [done|]. apply elem_of_cons in Hy as [->|?]; [done|done].
Qed.

Lemma at_sector_none l s : (forall y, y ∈ l -> pos y <> s) -> at_sector pos s l = 0.
Proof.
  intros H. unfold at_sector. induction l as [|z l IH]; [done|].
  rewrite filter_cons, decide_False by (apply H; set_solver +). apply IH. set_solver.
Qed.

Lemma at_sector_skip l1 l2 s : (forall y, y ∈ l1 -> pos y <> s) -> at_sector pos s (l1 ++ l2) = at_sector pos s l2.
Proof.
  intros H. induction l1 as [|z l1 IH]; [done|]. unfold at_sector in *. rewrite <-app_comm_cons.
  rewrite filter_cons, decide_False by (apply H; set_solver +). apply IH. set_solver.
Qed.
Lemma at_sector_keep l1 l2 s : (forall y, y ∈ l2 -> pos y <> s) -> at_sector pos s (l1 ++ l2) = at_sector pos s l1.
Proof.
  intros H. induction l1 as [|z l1 IH]; [by apply at_sector_none|]. unfold at_sector in *. rewrite <-app_comm_cons.
  rewrite !filter_cons. case_decide; [done|apply IH].
Qed.
End sequences.

(** ** The interface *)
(** [st_view t l]: the tree holds the requests [l], in this order.  Every
    operation succeeds, and says which request it returns (NULL is 0) and how
    the sequence changes. *)
Class SectorTree (T : Type) := {
  st_view : T -> list Z -> Prop;
  st_init : M T unit;
  st_add : (Z -> Z) -> Z -> M T Z;
  st_del : Z -> M T unit;
  st_find : (Z -> Z) -> Z -> M T Z;
  st_latter : Z -> M T Z;
  st_former : Z -> M T Z;
  st_is_empty : M T bool;
  st_view_valid t l : st_view t l -> Forall valid l;
  st_init_view t : exists t', st_init t = Some (tt, t') /\ st_view t' [];
  st_is_empty_view t l : st_view t l -> st_is_empty t = Some (bool_decide (l = []), t);
  st_add_new pos t l x :
    st_view t l -> sorted pos l -> valid x -> (forall y, y ∈ l -> pos y <> pos x) ->
    exists t', st_add pos x t = Some (0, t') /\ st_view t' (place pos x l);
  st_add_alias pos t l x y :
    st_view t l -> sorted pos l -> y ∈ l -> pos y = pos x -> st_add pos x t = Some (y, t);
  st_del_view t l1 x l2 :
    st_view t (l1 ++ x :: l2) -> exists t', st_del x t = Some (tt, t') /\ st_view t' (l1 ++ l2);
  st_find_view pos t l s :
    st_view t l -> sorted pos l -> st_find pos s t = Some (at_sector pos s l, t);
  st_latter_view t l1 x l2 : st_view t (l1 ++ x :: l2) -> st_latter x t = Some (hd0 l2, t);
  st_former_view t l1 x l2 : st_view t (l1 ++ x :: l2) -> st_former x t = Some (last0 l1, t);
}.

(** ** The implementation *)
(** No operation of lib/rbtree.c frees a node. *)
Definition keeps {A} (m : M rb_state A) : Prop :=
  forall st a st', m st = Some (a, st') ->
  forall p, is_Some (nodes st !! p) -> is_Some (nodes st' !! p).

Create HintDb keeps discriminated.

Section keeps.
Lemma keeps_ret {A} (a : A) : keeps (mret a).
Proof. intros st a' st' [= -> ->]. done. Qed.
Lemma keeps_oops {A} : keeps (@oops rb_state A).
Proof. done. Qed.
Lemma keeps_get : keeps (@get rb_state).
Proof. intros st a st' [= <- <-]. done. Qed.
Lemma keeps_bind {A B} (m : M rb_state A) (f : A -> M rb_state B) :
  keeps m -> (forall a, keeps (f a)) -> keeps (m ≫= f).
Proof.
  intros Hm Hf st b st'. unfold mbind, M_bind. destruct (m st) as [[a st1]|] eqn:E; [|done].
  intros E' p Hp. eapply Hf; [done|]. by eapply Hm.
Qed.
Lemma keeps_if {A} (b : bool) (m m' : M rb_state A) : keeps m -> keeps m' -> keeps (if b then m else m').
Proof. by destruct b. Qed.
Lemma keeps_load p : keeps (load p).
Proof. intros st a st'. unfold load. destruct (nodes st !! p); [|done]. by intros [= _ ->]. Qed.
Lemma keeps_insert p n : keeps (modify (λ st, RbState (<[p := n]> (nodes st)) (root st))).
Proof. intros st a st' [= <- <-] q Hq. cbn. rewrite lookup_insert. by case_decide. Qed.
Lemma keeps_set_root p : keeps (set_root p).
Proof. intros st a st' [= <- <-]. done. Qed.
End keeps.

#[export] Hint Resolve keeps_ret keeps_oops keeps_get keeps_bind keeps_if keeps_load keeps_insert
  keeps_set_root : keeps.

(** Walks through the body of an operation. *)
Ltac keep :=
  repeat first
    [ apply keeps_ret | apply keeps_oops | apply keeps_get | apply keeps_load | apply keeps_insert
    | apply keeps_set_root | solve [eauto with keeps]
    | apply keeps_bind; [|intros ?] | apply keeps_if | progress cbv zeta ].

Section keeps_ops.
Lemma keeps_store p n : keeps (store p n).
Proof. unfold store. keep. Qed.
Hint Resolve keeps_store : keeps.
Lemma keeps_set_pc p v : keeps (set_pc p v). Proof. unfold set_pc. keep. Qed.
Lemma keeps_set_left p v : keeps (set_left p v). Proof. unfold set_left. keep. Qed.
Lemma keeps_set_right p v : keeps (set_right p v). Proof. unfold set_right. keep. Qed.
Hint Resolve keeps_set_pc keeps_set_left keeps_set_right : keeps.
Lemma keeps_rb_set_parent p v : keeps (rb_set_parent p v). Proof. unfold rb_set_parent. keep. Qed.
Lemma keeps_rb_set_color p v : keeps (rb_set_color p v). Proof. unfold rb_set_color. keep. Qed.
Lemma keeps_rb_set_red p : keeps (rb_set_red p). Proof. unfold rb_set_red. keep. Qed.
Lemma keeps_rb_set_black p : keeps (rb_set_black p). Proof. unfold rb_set_black. keep. Qed.
Lemma keeps_null_or_black p : keeps (null_or_black p). Proof. unfold null_or_black. keep. Qed.
Lemma keeps_get_root : keeps get_root. Proof. intros st a st' [= <- <-]. done. Qed.
Hint Resolve keeps_rb_set_parent keeps_rb_set_color keeps_rb_set_red keeps_rb_set_black
  keeps_null_or_black keeps_get_root : keeps.
Lemma keeps_rotate_left p : keeps (__rb_rotate_left p). Proof. unfold __rb_rotate_left. keep. Qed.
Lemma keeps_rotate_right p : keeps (__rb_rotate_right p). Proof. unfold __rb_rotate_right. keep. Qed.
Hint Resolve keeps_rotate_left keeps_rotate_right : keeps.
Lemma keeps_leftmost fuel p : keeps (leftmost fuel p).
Proof. revert p; induction fuel; intros p; cbn [leftmost]; keep. Qed.
Lemma keeps_change_child p o n : keeps (change_child p o n). Proof. unfold change_child. keep. Qed.
Lemma keeps_erase_color_loop fuel n p : keeps (__rb_erase_color_loop fuel n p).
Proof. revert n p; induction fuel; intros n p; cbn [__rb_erase_color_loop]; keep. Qed.
Hint Resolve keeps_leftmost keeps_change_child keeps_erase_color_loop : keeps.
Lemma keeps_erase_color n p : keeps (__rb_erase_color n p).
Proof. unfold __rb_erase_color. keep. Qed.
Hint Resolve keeps_erase_color : keeps.
Lemma keeps_rb_erase p : keeps (rb_erase p).
Proof. unfold rb_erase. keep. Qed.
End keeps_ops.

(** The descent of [elv_rb_add] ends at the alias, or at the hole between the
    smaller and the larger sectors. *)
Lemma elv_rb_add_loop_run fuel pos x st k t :
  zrep st k t -> is_rb (plug k t) -> (length (inorder t) < fuel)%nat ->
  sorted pos (inorder t) ->
  (forall a, a ∈ cleft k -> pos a < pos x) -> (forall b, b ∈ cright k -> pos x < pos b) ->
  (forall y, y ∈ inorder t -> pos y = pos x -> 
     elv_rb_add_loop fuel pos x (cptr k) (link_of k) (tptr t) st = Some (y, st)) /\
  (valid x -> (forall y, y ∈ inorder t -> pos y <> pos x) -> exists st',
     elv_rb_add_loop fuel pos x (cptr k) (link_of k) (tptr t) st = Some (0, st') /\
     tree_ok st' (place pos x (inorder (plug k t)))).
Proof.
  revert k t. induction fuel as [|fuel IH]; intros k t Hz Hrb Hf Hs HL HR; [lia|].
  cbn [elv_rb_add_loop]. destruct t as [|c l y r].
  { split; [set_solver +|]. intros Hx _.
    assert (x ∉ cids k) as Hxk.
    { rewrite cids_perm, elem_of_app. intros [Hq|Hq]; [specialize (HL _ Hq)|specialize (HR _ Hq)]; lia. }
    destruct (rb_insert_run _ _ _ Hz Hrb Hx Hxk) as (st' & t & Hr & Hz' & Hrb' & Hi).
    exists st'. cbn [tptr]. rewrite Z.eqb_refl. split; [by erewrite bind_run2 by done|].
    exists t. split_and!; [done..|]. rewrite Hi, inorder_plug. cbn. by rewrite place_split. }
  destruct (zrep_valid _ _ _ _ _ _ Hz) as [_ Hy]. cbn [tptr]. rewrite (proj2 (Z.eqb_neq _ _) Hy).
  cbn in Hf, Hs. rewrite length_app in Hf. cbn in Hf.
  apply sorted_mid in Hs as (Hs & Hsl & Hsr). apply sorted_app in Hs as (Hsl' & Hsr' & _).
  split.
  - intros z Hz' E. erewrite bind_run by (by eapply zrep_load). cbn [rb_left rb_right inorder] in *.
    apply elem_of_app in Hz' as [Hz'|[->|Hz']%elem_of_cons].
    + specialize (Hsl z Hz'). rewrite (proj2 (Z.ltb_lt _ _)) by lia.
      apply (IH (Lf c y r :: k) l); try done; [by apply zdn_L|lia|].
      cbn. intros b [->|[Hb|Hb]%elem_of_app]%elem_of_cons; [lia|specialize (Hsr b Hb); lia|by apply HR].
    + rewrite (proj2 (Z.ltb_ge _ _)), Z.gtb_ltb, (proj2 (Z.ltb_ge _ _)) by lia. done.
    + specialize (Hsr z Hz'). rewrite (proj2 (Z.ltb_ge _ _)), Z.gtb_ltb, (proj2 (Z.ltb_lt _ _)) by lia.
      apply (IH (Rf c l y :: k) r); try done; [by apply zdn_R|lia|].
      cbn. intros a Ha. rewrite !elem_of_app, list_elem_of_singleton in Ha. destruct Ha as [Ha|[Ha| ->]];
        [by apply HL|specialize (Hsl a Ha); lia|lia].
  - intros Hx Hne. cbn [inorder] in Hne. assert (pos y <> pos x) as Hyx by (apply Hne; set_solver +).
    erewrite bind_run by (by eapply zrep_load). cbn [rb_left rb_right].
    destruct (Z.ltb_spec (pos x) (pos y)).
    + apply (IH (Lf c y r :: k) l); try done; [by apply zdn_L|lia| |set_solver +Hne].
      cbn. intros b [->|[Hb|Hb]%elem_of_app]%elem_of_cons; [lia|specialize (Hsr b Hb); lia|by apply HR].
    + rewrite Z.gtb_ltb, (proj2 (Z.ltb_lt _ _)) by lia.
      apply (IH (Rf c l y :: k) r); try done; [by apply zdn_R|lia| |set_solver +Hne].
      cbn. intros a Ha. rewrite !elem_of_app, list_elem_of_singleton in Ha. destruct Ha as [Ha|[Ha| ->]];
        [by apply HL|specialize (Hsl a Ha); lia|lia].
Qed.

Lemma elv_rb_find_loop_run fuel pos s st k t :
  zrep st k t -> (length (inorder t) < fuel)%nat -> sorted pos (inorder t) ->
  elv_rb_find_loop fuel pos s (tptr t) st = Some (at_sector pos s (inorder t), st).
Proof.
  revert k t. induction fuel as [|fuel IH]; intros k t Hz Hf Hs; [lia|].
  destruct t as [|c l y r]; [done|].
  destruct (zrep_valid _ _ _ _ _ _ Hz) as [_ Hy]. cbn [tptr elv_rb_find_loop].
  rewrite (proj2 (Z.eqb_neq _ _) Hy). pose proof Hs as Hs0.
  cbn in Hf, Hs. rewrite length_app in Hf. cbn in Hf.
  apply sorted_mid in Hs as (Hs & Hsl & Hsr). apply sorted_app in Hs as (Hsl' & Hsr' & _).
  erewrite bind_run by (by eapply zrep_load). cbn [rb_left rb_right].
  destruct (Z.ltb_spec s (pos y)); [|rewrite Z.gtb_ltb; destruct (Z.ltb_spec (pos y) s)].
  - rewrite (IH _ _ (zdn_L _ _ _ _ _ _ Hz)) by (done || lia). do 2 f_equal. cbn [inorder].
    symmetry. apply at_sector_keep. intros b [->|Hb]%elem_of_cons; [lia|]. specialize (Hsr b Hb). lia.
  - rewrite (IH _ _ (zdn_R _ _ _ _ _ _ Hz)) by (done || lia). do 2 f_equal. cbn [inorder].
    symmetry. change (y :: inorder r) with ([y] ++ inorder r). rewrite app_assoc.
    apply at_sector_skip. intros b [Hb| ->%list_elem_of_singleton]%elem_of_app; [specialize (Hsl b Hb)|]; lia.
  - assert (s = pos y) as -> by lia. rewrite at_sector_in; [done|done|cbn; set_solver +].
Qed.

Lemma elv_rb_del_run st l1 x l2 : tree_ok st (l1 ++ x :: l2) ->
  exists st', elv_rb_del x st = Some (tt, st') /\ tree_ok st' (l1 ++ l2).
Proof.
  intros (t & Hz & Hrb & Hi).
  destruct (zrep_split _ _ _ _ _ Hz Hi) as (k & c & l & r & E & Hzk & _ & _).
  pose proof (zrep_aligned _ _ _ Hzk) as Ha.
  destruct (rb_erase_run _ _ _ _ _ Hz Hrb Hi) as (st1 & t1 & Hr1 & Hz1 & Hrb1 & Hi1).
  pose proof Hz as [_ _ Hn _]. cbn in Hn. rewrite Hi in Hn.
  rewrite <-Permutation_middle in Hn. apply NoDup_cons in Hn as [Hx Hn].
  assert (is_Some (nodes st1 !! x)) as [n1 Hn1].
  { eapply keeps_rb_erase; [done|]. destruct Hzk as [(Hx' & _) _ _ _]. eauto. }
  eexists. split.
  - unfold elv_rb_del, RB_EMPTY_NODE. erewrite bind_run.
    2:{ erewrite bind_run by (by eapply zrep_load). cbn [rb_parent_color]. done. }
    rewrite rb_parent_pack, (proj2 (Z.eqb_neq _ _) (zrep_parent_ne _ _ _ _ _ _ Hzk)) by done.
    erewrite bind_run by done. erewrite bind_run by done. unfold RB_CLEAR_NODE, rb_set_parent.
    erewrite bind_run by (by apply load_run). by apply set_pc_run.
  - exists t1. split_and!; [|done|done]. rewrite <-Hi1 in Hx. destruct Hz1 as [Ht1 Hc1 Hn1' Hv1].
    split; [|done|done|done]. cbn. eapply rep_frame; [done|]. intros q Hq.
    apply lookup_insert_ne. by intros ->.
Qed.

Lemma RB_EMPTY_ROOT_run st l : tree_ok st l -> RB_EMPTY_ROOT st = Some (bool_decide (l = []), st).
Proof.
  intros (t & Hz & _ & <-). pose proof Hz as [_ Hc _ _]. cbn in Hc. unfold RB_EMPTY_ROOT, get_root.
  erewrite bind_run by done. rewrite Hc. unfold mret, M_ret. do 2 f_equal.
  destruct t as [|c l x r]; [done|]. destruct (zrep_valid _ _ _ _ _ _ Hz) as [_ Hx].
  rewrite bool_decide_false by (cbn; by destruct (inorder l)). by apply Z.eqb_neq.
Qed.

#[export] Program Instance rb_sector_tree : SectorTree rb_state := {|
  st_view := tree_ok; st_init := set_root RB_ROOT; st_add := elv_rb_add; st_del := elv_rb_del;
  st_find := elv_rb_find; st_latter := elv_rb_latter_request; st_former := elv_rb_former_request;
  st_is_empty := RB_EMPTY_ROOT |}.
Next Obligation. intros st l (t & Hz & _ & <-). by destruct Hz as [_ _ _ Hv]. Qed.
Next Obligation.
  intros st. eexists. split; [done|]. exists L. split_and!; [|by exists 0%nat; constructor|done].
  by repeat constructor.
Qed.
Next Obligation. intros. by apply RB_EMPTY_ROOT_run. Qed.
Next Obligation.
  intros pos st l x (t & Hz & Hrb & <-) Hs Hx Hne. pose proof Hz as [_ Hc _ _]. cbn in Hc.
  unfold elv_rb_add. erewrite bind_run by done. rewrite Hc.
  apply (elv_rb_add_loop_run _ pos x st [] t); try done; [|set_solver +..].
  pose proof (zrep_fuel _ _ _ Hz) as Hf. cbn in Hf. lia.
Qed.
Next Obligation.
  intros pos st l x y (t & Hz & Hrb & <-) Hs Hy E. pose proof Hz as [_ Hc _ _]. cbn in Hc.
  unfold elv_rb_add. erewrite bind_run by done. rewrite Hc.
  apply (elv_rb_add_loop_run _ pos x st [] t); try done; [|set_solver +..].
  pose proof (zrep_fuel _ _ _ Hz) as Hf. cbn in Hf. lia.
Qed.
Next Obligation. intros. by apply elv_rb_del_run. Qed.
Next Obligation.
  intros pos st l s (t & Hz & Hrb & <-) Hs. pose proof Hz as [_ Hc _ _]. cbn in Hc.
  unfold elv_rb_find. erewrite bind_run by done. rewrite Hc.
  apply (elv_rb_find_loop_run _ pos s st [] t); try done.
  pose proof (zrep_fuel _ _ _ Hz) as Hf. cbn in Hf. lia.
Qed.
Next Obligation. intros st l1 x l2 (t & Hz & Hrb & Hi). by eapply rb_next_run. Qed.
Next Obligation. intros st l1 x l2 (t & Hz & Hrb & Hi). by eapply rb_prev_run. Qed.

(** ** Properties *)
Lemma at_sector_place pos l x s : sorted pos l -> (forall y, y ∈ l -> pos y <> pos x) ->
  at_sector pos s (place pos x l) = if s =? pos x then x else at_sector pos s l.
Proof.
  intros Hs Hne. destruct (Z.eqb_spec s (pos x)) as [->|Hsx].
  - apply at_sector_in; [by apply place_sorted|]. rewrite place_perm. set_solver +.
  - destruct (place_view pos l x Hs Hne) as (l1 & l2 & -> & -> & H1 & H2).
    unfold at_sector. by rewrite !filter_app, filter_cons, decide_False by congruence.
Qed.

(** Adding a request of a new sector to a sector-sorted tree returns NULL;
    [elv_rb_find] then finds it at its sector and finds at every other sector
    what was there before, and [elv_rb_del] of it gives back a tree with the
    original sequence. *)
Theorem elv_rb_add_find_del st pos l x :
  tree_ok st l -> sorted pos l -> valid x -> (forall y, y ∈ l -> pos y <> pos x) ->
  exists st1 st2, elv_rb_add pos x st = Some (0, st1) /\ tree_ok st1 (place pos x l) /\
    sorted pos (place pos x l) /\
    (forall s, elv_rb_find pos s st1 = Some (if s =? pos x then x else at_sector pos s l, st1)) /\
    elv_rb_del x st1 = Some (tt, st2) /\ tree_ok st2 l.
Proof.
  intros Hok Hs Hx Hne. destruct (st_add_new (SectorTree:=rb_sector_tree) pos st l x Hok Hs Hx Hne) as (st1 & Hadd & Hok1).
  pose proof (place_sorted pos l x Hs Hne) as Hs1.
  assert (exists st2, elv_rb_del x st1 = Some (tt, st2) /\ tree_ok st2 l) as (st2 & Hdel & Hok2).
  { destruct (place_view pos l x Hs Hne) as (l1 & l2 & -> & E & _).
    apply elv_rb_del_run. by rewrite <-E. }
  exists st1, st2. split_and!; try done.
  intros s. rewrite <-at_sector_place by done. by apply (st_find_view (SectorTree:=rb_sector_tree)).
Qed.

Lemma elv_rb_add_find_del_witness :
  exists st1 st2, elv_rb_add (λ x, x) 16 demo_rb = Some (0, st1) /\ tree_ok st1 [4; 8; 12; 16] /\
    sorted (λ x, x) [4; 8; 12; 16] /\
    (forall s, elv_rb_find (λ x, x) s st1
       = Some (if s =? 16 then 16 else at_sector (λ x, x) s [4; 8; 12], st1)) /\
    elv_rb_del 16 st1 = Some (tt, st2) /\ tree_ok st2 [4; 8; 12].
Proof.
  apply (elv_rb_add_find_del demo_rb (λ x, x) [4; 8; 12] 16 demo_rb_ok).
  - repeat constructor; unfold sector_lt; lia.
  - apply valid_dec. reflexivity.
  - intros y Hy. rewrite !elem_of_cons in Hy. set_solver.
Defined.
