(* ===== verification/Elevator.v ===== *)
(** * The block elevator

    block/elevator.c: the merge hash, the dispatch queue, and the entry points
    through which the block layer talks to an I/O scheduler.  The state of one
    request queue is the record [elv]: the requests (a map from addresses), the
    memory of list nodes (the dispatch queue and the lists of the scheduler,
    through [queuelist] of the requests), the fields of [struct request_queue],
    the scheduler's private data of a type [D], and the clock [jiffies].  The
    address of a request also stands for the addresses of its embedded
    [queuelist] and [rb_node], each kind of node having a memory of its own. *)
From stdpp Require Import prelude gmap list sorting.
From Stdlib Require Import ZArith Lia.
From S2P Require Import Prelude Time ListHead ListHeap Rbtree SectorTree.
Open Scope Z_scope.

(** ** Requests *)
Record request := Rq {
  __sector : Z;        (* sector_t *)
  __data_len : Z;      (* unsigned int *)
  cmd_flags : Z;       (* unsigned int *)
  cmd_type : Z;
  csd_list : list_head;
  rq_hash : option Z;  (* the hash bucket the request is linked in *)
  rq_disk : Z;
  special : Z;
  rq_bio_rw : Z;       (* rq->bio->bi_rw *)
}.

Record bio := Bio { bi_sector : Z; bi_size : Z; bi_rw : Z; bi_disk : Z }.

Definition REQ_RW : Z := Z.shiftl 1 0.
Definition REQ_DISCARD : Z := Z.shiftl 1 4.
Definition REQ_SORTED : Z := Z.shiftl 1 5.
Definition REQ_SOFTBARRIER : Z := Z.shiftl 1 6.
Definition REQ_HARDBARRIER : Z := Z.shiftl 1 7.
Definition REQ_NOMERGE : Z := Z.shiftl 1 9.
Definition REQ_STARTED : Z := Z.shiftl 1 10.
Definition REQ_ELVPRIV : Z := Z.shiftl 1 13.
Definition REQ_ORDERED_COLOR : Z := Z.shiftl 1 17.
Definition REQ_RW_SYNC : Z := Z.shiftl 1 18.
Definition REQ_TYPE_FS : Z := 1.
Definition BIO_RW_DISCARD : Z := 4.

Definition flagged (r : request) (mask : Z) : bool := negb (Z.land (cmd_flags r) mask =? 0).

Definition blk_rq_pos (r : request) : Z := __sector r.
Definition blk_rq_bytes (r : request) : Z := __data_len r.
Definition blk_rq_sectors (r : request) : Z := Z.shiftr (blk_rq_bytes r) 9.
(** [sector_t] addition. *)
Definition rq_end_sector (r : request) : Z := u64 (blk_rq_pos r + blk_rq_sectors r).
Definition rq_hash_key (r : request) : Z := u64 (blk_rq_pos r + blk_rq_sectors r).

Definition blk_fs_request (r : request) : bool := cmd_type r =? REQ_TYPE_FS.
Definition blk_discard_rq (r : request) : Z := Z.land (cmd_flags r) REQ_DISCARD.
Definition blk_sorted_rq (r : request) : bool := flagged r REQ_SORTED.
Definition blk_barrier_rq (r : request) : bool := flagged r REQ_HARDBARRIER.
Definition blk_rq_started (r : request) : bool := flagged r REQ_STARTED.
Definition blk_account_rq (r : request) : bool :=
  blk_rq_started r && (blk_fs_request r || negb (blk_discard_rq r =? 0)).
Definition rq_data_dir (r : request) : Z := Z.land (cmd_flags r) 1.
Definition rw_is_sync (rw_flags : Z) : bool :=
  (Z.land rw_flags REQ_RW =? 0) || negb (Z.land rw_flags REQ_RW_SYNC =? 0).
Definition rq_is_sync (r : request) : bool := rw_is_sync (cmd_flags r).

Definition RQ_NOMERGE_FLAGS : Z :=
  Z.lor (Z.lor REQ_NOMERGE REQ_STARTED) (Z.lor REQ_HARDBARRIER REQ_SOFTBARRIER).
Definition rq_mergeable (r : request) : bool :=
  negb (flagged r RQ_NOMERGE_FLAGS) && (negb (blk_discard_rq r =? 0) || blk_fs_request r).

Definition bio_rw_flagged (rw flag : Z) : bool := negb (Z.land rw (Z.shiftl 1 flag) =? 0).
Definition bio_data_dir (b : bio) : Z := Z.land (bi_rw b) 1.
Definition bio_sectors (b : bio) : Z := Z.shiftr (bi_size b) 9.
Definition bio_integrity (b : bio) : Z := 0.
Definition blk_integrity_rq (r : request) : Z := 0.

Definition set_sector (v : Z) (r : request) : request :=
  Rq v (__data_len r) (cmd_flags r) (cmd_type r) (csd_list r) (rq_hash r) (rq_disk r) (special r) (rq_bio_rw r).
Definition set_cmd_flags (v : Z) (r : request) : request :=
  Rq (__sector r) (__data_len r) v (cmd_type r) (csd_list r) (rq_hash r) (rq_disk r) (special r) (rq_bio_rw r).
Definition set_csd_list (v : list_head) (r : request) : request :=
  Rq (__sector r) (__data_len r) (cmd_flags r) (cmd_type r) v (rq_hash r) (rq_disk r) (special r) (rq_bio_rw r).
Definition set_rq_hash (v : option Z) (r : request) : request :=
  Rq (__sector r) (__data_len r) (cmd_flags r) (cmd_type r) (csd_list r) v (rq_disk r) (special r) (rq_bio_rw r).

(** ** The queue *)
Record request_queue := Queue {
  queue_head : Z;                (* address of the dispatch list head *)
  last_merge : Z;
  end_sector : Z;
  boundary_rq : Z;
  nr_sorted : Z;                 (* unsigned int *)
  hash : gmap Z (list Z);        (* the buckets of elevator_queue::hash *)
  queue_flags : Z;
  in_flight_async : Z;
  in_flight_sync : Z;            (* in_flight[2], unsigned int *)
  ordseq : Z;
  ordcolor : Z;
  orig_bar_rq : Z;
  pre_flush_rq : Z;
  bar_rq : Z;
  post_flush_rq : Z;             (* addresses of the embedded requests *)
  rq_count_async : Z;
  rq_count_sync : Z;             (* rq.count[2], int *)
  unplug_thresh : Z;
  unplug_delay : Z;
  unplug_timer : option Z;       (* expiry of the pending timer *)
  kblockd_pending : bool;        (* unplug_work is scheduled *)
}.

Record elv (D : Type) := Elv {
  rqs : gmap Z request;
  lists : mem;
  queue : request_queue;
  elevator_data : D;
  jiffies : Z;
}.
Arguments Elv {D}.
Arguments rqs {D}.
Arguments lists {D}.
Arguments queue {D}.
Arguments elevator_data {D}.
Arguments jiffies {D}.

Definition set_last_merge (v : Z) (q : request_queue) : request_queue :=
  Queue (queue_head q) v (end_sector q) (boundary_rq q) (nr_sorted q) (hash q) (queue_flags q)
    (in_flight_async q) (in_flight_sync q) (ordseq q) (ordcolor q) (orig_bar_rq q) (pre_flush_rq q)
    (bar_rq q) (post_flush_rq q) (rq_count_async q) (rq_count_sync q) (unplug_thresh q)
    (unplug_delay q) (unplug_timer q) (kblockd_pending q).
Definition set_boundary (sector rq : Z) (q : request_queue) : request_queue :=
  Queue (queue_head q) (last_merge q) sector rq (nr_sorted q) (hash q) (queue_flags q)
    (in_flight_async q) (in_flight_sync q) (ordseq q) (ordcolor q) (orig_bar_rq q) (pre_flush_rq q)
    (bar_rq q) (post_flush_rq q) (rq_count_async q) (rq_count_sync q) (unplug_thresh q)
    (unplug_delay q) (unplug_timer q) (kblockd_pending q).
Definition set_nr_sorted (v : Z) (q : request_queue) : request_queue :=
  Queue (queue_head q) (last_merge q) (end_sector q) (boundary_rq q) v (hash q) (queue_flags q)
    (in_flight_async q) (in_flight_sync q) (ordseq q) (ordcolor q) (orig_bar_rq q) (pre_flush_rq q)
    (bar_rq q) (post_flush_rq q) (rq_count_async q) (rq_count_sync q) (unplug_thresh q)
    (unplug_delay q) (unplug_timer q) (kblockd_pending q).
Definition set_hash (v : gmap Z (list Z)) (q : request_queue) : request_queue :=
  Queue (queue_head q) (last_merge q) (end_sector q) (boundary_rq q) (nr_sorted q) v (queue_flags q)
    (in_flight_async q) (in_flight_sync q) (ordseq q) (ordcolor q) (orig_bar_rq q) (pre_flush_rq q)
    (bar_rq q) (post_flush_rq q) (rq_count_async q) (rq_count_sync q) (unplug_thresh q)
    (unplug_delay q) (unplug_timer q) (kblockd_pending q).
Definition set_queue_flags (v : Z) (timer : option Z) (work : bool) (q : request_queue) : request_queue :=
  Queue (queue_head q) (last_merge q) (end_sector q) (boundary_rq q) (nr_sorted q) (hash q) v
    (in_flight_async q) (in_flight_sync q) (ordseq q) (ordcolor q) (orig_bar_rq q) (pre_flush_rq q)
    (bar_rq q) (post_flush_rq q) (rq_count_async q) (rq_count_sync q) (unplug_thresh q)
    (unplug_delay q) timer work.
Definition set_in_flight (async sync : Z) (q : request_queue) : request_queue :=
  Queue (queue_head q) (last_merge q) (end_sector q) (boundary_rq q) (nr_sorted q) (hash q) (queue_flags q)
    async sync (ordseq q) (ordcolor q) (orig_bar_rq q) (pre_flush_rq q)
    (bar_rq q) (post_flush_rq q) (rq_count_async q) (rq_count_sync q) (unplug_thresh q)
    (unplug_delay q) (unplug_timer q) (kblockd_pending q).
Definition set_ordcolor (v : Z) (q : request_queue) : request_queue :=
  Queue (queue_head q) (last_merge q) (end_sector q) (boundary_rq q) (nr_sorted q) (hash q) (queue_flags q)
    (in_flight_async q) (in_flight_sync q) (ordseq q) v (orig_bar_rq q) (pre_flush_rq q)
    (bar_rq q) (post_flush_rq q) (rq_count_async q) (rq_count_sync q) (unplug_thresh q)
    (unplug_delay q) (unplug_timer q) (kblockd_pending q).

(** ** Access *)
Section access.
Context {D : Type}.

Definition upd_rqs (f : gmap Z request -> gmap Z request) (s : elv D) : elv D :=
  Elv (f (rqs s)) (lists s) (queue s) (elevator_data s) (jiffies s).
Definition upd_queue (f : request_queue -> request_queue) (s : elv D) : elv D :=
  Elv (rqs s) (lists s) (f (queue s)) (elevator_data s) (jiffies s).
Definition upd_data (f : D -> D) (s : elv D) : elv D :=
  Elv (rqs s) (lists s) (queue s) (f (elevator_data s)) (jiffies s).
Definition with_lists (m : mem) (s : elv D) : elv D :=
  Elv (rqs s) m (queue s) (elevator_data s) (jiffies s).

Definition get_rq (rq : Z) : M (elv D) request :=
  λ s, match rqs s !! rq with Some r => Some (r, s) | None => None end.
Definition set_rq (rq : Z) (f : request -> request) : M (elv D) unit :=
  r ← get_rq rq; modify (upd_rqs <[rq := f r]>).
Definition get_q : M (elv D) request_queue := λ s, Some (queue s, s).
Definition set_q (f : request_queue -> request_queue) : M (elv D) unit := modify (upd_queue f).
Definition get_data : M (elv D) D := λ s, Some (elevator_data s, s).
Definition set_data (f : D -> D) : M (elv D) unit := modify (upd_data f).

(** An operation of list.h on the list memory. *)
Definition on_lists {A} (m : M mem A) : M (elv D) A :=
  λ s, match m (lists s) with Some (a, l) => Some (a, with_lists l s) | None => None end.

(** The sector of a request, as the sort functions read it. *)
Definition sector_of (s : elv D) (rq : Z) : Z :=
  match rqs s !! rq with Some r => blk_rq_pos r | None => 0 end.
End access.

(** ** The hash of linux/hash.h *)
Definition GOLDEN_RATIO_PRIME_32 : Z := 2654404609.
Definition hash_32 (val bits : Z) : Z := Z.shiftr (u32 (u32 val * GOLDEN_RATIO_PRIME_32)) (32 - bits).
Definition elv_hash_shift : Z := 6.
Definition ELV_HASH_BLOCK (sec : Z) : Z := Z.shiftr sec 3.
(** [hash_long] takes an [unsigned long]: the block number is cut to 32 bits. *)
Definition ELV_HASH_FN (sec : Z) : Z := hash_32 (u32 (ELV_HASH_BLOCK sec)) elv_hash_shift.

Definition ELEVATOR_NO_MERGE : Z := 0.
Definition ELEVATOR_FRONT_MERGE : Z := 1.
Definition ELEVATOR_BACK_MERGE : Z := 2.
Definition ELEVATOR_INSERT_FRONT : Z := 1.
Definition ELEVATOR_INSERT_BACK : Z := 2.
Definition ELEVATOR_INSERT_SORT : Z := 3.
Definition ELEVATOR_INSERT_REQUEUE : Z := 4.

(** ** The fifo time of a request and its lists *)
Section fifo.
Context {D : Type}.
Definition rq_fifo_time (r : request) : Z := lh_next (csd_list r).
Definition rq_set_fifo_time (rq exp : Z) : M (elv D) unit :=
  set_rq rq (λ r, set_csd_list (ListHead exp (lh_prev (csd_list r))) r).
(** [&rq->csd.list] is written [rq]. *)
Definition rq_fifo_clear (rq : Z) : M (elv D) unit :=
  on_lists (list_del_init rq) ;; set_rq rq (set_csd_list (ListHead rq rq)).
End fifo.

(** ** The merge hash *)
Section rqhash.
Context {D : Type}.

Definition bucket (q : request_queue) (b : Z) : list Z := default [] (hash q !! b).
Definition ELV_ON_HASH (r : request) : bool := match rq_hash r with Some _ => true | None => false end.

(** [hlist_del_init]: nothing happens to a node that is on no list. *)
Definition __elv_rqhash_del (rq : Z) : M (elv D) unit :=
  r ← get_rq rq;
  match rq_hash r with
  | None => mret tt
  | Some b =>
      set_q (λ q, set_hash (<[b := filter (λ y, y ≠ rq) (bucket q b)]> (hash q)) q) ;;
      set_rq rq (set_rq_hash None)
  end.

Definition elv_rqhash_del (rq : Z) : M (elv D) unit :=
  r ← get_rq rq; if ELV_ON_HASH r then __elv_rqhash_del rq else mret tt.

Definition elv_rqhash_add (rq : Z) : M (elv D) unit :=
  r ← get_rq rq;
  BUG_ON (ELV_ON_HASH r) ;;
  let b := ELV_HASH_FN (rq_hash_key r) in
  set_q (λ q, set_hash (<[b := rq :: bucket q b]> (hash q)) q) ;;
  set_rq rq (set_rq_hash (Some b)).

Definition elv_rqhash_reposition (rq : Z) : M (elv D) unit :=
  __elv_rqhash_del rq ;; elv_rqhash_add rq.

(** The walk over the bucket; requests that may not merge any more are dropped
    on the way. *)
Fixpoint elv_rqhash_find_loop (entries : list Z) (offset : Z) : M (elv D) Z :=
  match entries with
  | [] => mret 0
  | rq :: entries =>
      r ← get_rq rq;
      BUG_ON (negb (ELV_ON_HASH r)) ;;
      if negb (rq_mergeable r) then
        __elv_rqhash_del rq ;; elv_rqhash_find_loop entries offset
      else if rq_hash_key r =? offset then mret rq
      else elv_rqhash_find_loop entries offset
  end.

Definition elv_rqhash_find (offset : Z) : M (elv D) Z :=
  q ← get_q; elv_rqhash_find_loop (bucket q (ELV_HASH_FN offset)) offset.
End rqhash.

(** ** The dispatch queue *)
Section dispatch.
Context {D : Type}.

Definition stop_flags : Z := Z.lor (Z.lor REQ_SOFTBARRIER REQ_HARDBARRIER) REQ_STARTED.

(** One step of the walk of [elv_dispatch_sort] from the tail: [true] stops at
    [pos]. *)
Definition sort_stop (boundary : Z) (rq pos : request) : bool :=
  if negb (blk_discard_rq rq =? blk_discard_rq pos) then true
  else if negb (rq_data_dir rq =? rq_data_dir pos) then true
  else if flagged pos stop_flags then true
  else if blk_rq_pos rq >=? boundary then
    if blk_rq_pos pos <? boundary then false
    else blk_rq_pos rq >=? blk_rq_pos pos
  else if blk_rq_pos pos >=? boundary then true
  else blk_rq_pos rq >=? blk_rq_pos pos.

Fixpoint dispatch_sort_loop (fuel : nat) (boundary : Z) (r : request) (head entry : Z) : M (elv D) Z :=
  match fuel with
  | O => oops
  | S fuel =>
    if entry =? head then mret entry else
    pos ← get_rq entry;
    if sort_stop boundary r pos then mret entry
    else p ← on_lists (get_prev entry); dispatch_sort_loop fuel boundary r head p
  end.

Definition forget_last_merge (rq : Z) : M (elv D) unit :=
  q ← get_q; if last_merge q =? rq then set_q (set_last_merge 0) else mret tt.

Definition elv_dispatch_sort (rq : Z) : M (elv D) unit :=
  forget_last_merge rq ;;
  elv_rqhash_del rq ;;
  set_q (λ q, set_nr_sorted (u32 (nr_sorted q - 1)) q) ;;
  q ← get_q;
  r ← get_rq rq;
  s ← get;
  p ← on_lists (get_prev (queue_head q));
  entry ← dispatch_sort_loop (S (size (lists s))) (end_sector q) r (queue_head q) p;
  on_lists (list_add rq entry).

Definition elv_dispatch_add_tail (rq : Z) : M (elv D) unit :=
  forget_last_merge rq ;;
  elv_rqhash_del rq ;;
  set_q (λ q, set_nr_sorted (u32 (nr_sorted q - 1)) q) ;;
  r ← get_rq rq;
  set_q (set_boundary (rq_end_sector r) rq) ;;
  q ← get_q;
  on_lists (list_add_tail rq (queue_head q)).
End dispatch.

(** ** The plug and the driver *)
Section plug.
Context {D : Type}.
Definition QUEUE_FLAG_STOPPED : Z := 2.
Definition QUEUE_FLAG_REENTER : Z := 6.
Definition QUEUE_FLAG_PLUGGED : Z := 7.
Definition QUEUE_FLAG_ELVSWITCH : Z := 8.
Definition QUEUE_FLAG_NOMERGES : Z := 10.
Definition QUEUE_FLAG_NONROT : Z := 14.
Definition QUEUE_FLAG_NOXMERGES : Z := 17.

Definition queue_flag (flag : Z) (q : request_queue) : bool := Z.testbit (queue_flags q) flag.
Definition queue_flag_set (flag : Z) : M (elv D) unit :=
  set_q (λ q, set_queue_flags (Z.setbit (queue_flags q) flag) (unplug_timer q) (kblockd_pending q) q).
Definition queue_flag_clear (flag : Z) : M (elv D) unit :=
  set_q (λ q, set_queue_flags (Z.clearbit (queue_flags q) flag) (unplug_timer q) (kblockd_pending q) q).
Definition queue_flag_test_and_set (flag : Z) : M (elv D) bool :=
  q ← get_q; if queue_flag flag q then mret true else queue_flag_set flag ;; mret false.
Definition queue_flag_test_and_clear (flag : Z) : M (elv D) bool :=
  q ← get_q; if queue_flag flag q then queue_flag_clear flag ;; mret true else mret false.

Definition set_timer (t : option Z) : M (elv D) unit :=
  set_q (λ q, set_queue_flags (queue_flags q) t (kblockd_pending q) q).
Definition schedule_unplug_work : M (elv D) unit :=
  set_q (λ q, set_queue_flags (queue_flags q) (unplug_timer q) true q).

Definition blk_plug_device : M (elv D) unit :=
  q ← get_q;
  if queue_flag QUEUE_FLAG_STOPPED q then mret tt else
  was ← queue_flag_test_and_set QUEUE_FLAG_PLUGGED;
  if (was : bool) then mret tt
  else s ← get; set_timer (Some (u32 (jiffies s + unplug_delay q))).

Definition blk_remove_plug : M (elv D) bool :=
  was ← queue_flag_test_and_clear QUEUE_FLAG_PLUGGED;
  if (was : bool) then set_timer None ;; mret true else mret false.

Definition __generic_unplug_device (request_fn : M (elv D) unit) : M (elv D) unit :=
  q ← get_q;
  if queue_flag QUEUE_FLAG_STOPPED q then mret tt else
  plugged ← blk_remove_plug;
  if negb plugged && negb (queue_flag QUEUE_FLAG_NONROT q) then mret tt else request_fn.
End plug.

(** ** The scheduler interface *)
Record elevator_ops (D : Type) := ElevatorOps {
  elevator_merge_fn : option (bio -> M (elv D) (Z * Z));     (* the result and [*req] *)
  elevator_merged_fn : option (Z -> Z -> M (elv D) unit);
  elevator_merge_req_fn : option (Z -> Z -> M (elv D) unit);
  elevator_allow_merge_fn : option (Z -> bio -> M (elv D) bool);
  elevator_dispatch_fn : Z -> M (elv D) Z;
  elevator_add_req_fn : Z -> M (elv D) unit;
  elevator_deactivate_req_fn : option (Z -> M (elv D) unit);
  elevator_queue_empty_fn : option (M (elv D) bool);
  elevator_former_req_fn : option (Z -> M (elv D) Z);
  elevator_latter_req_fn : option (Z -> M (elv D) Z);
}.
Arguments elevator_merge_fn {D}.
Arguments elevator_merged_fn {D}.
Arguments elevator_merge_req_fn {D}.
Arguments elevator_allow_merge_fn {D}.
Arguments elevator_dispatch_fn {D}.
Arguments elevator_add_req_fn {D}.
Arguments elevator_deactivate_req_fn {D}.
Arguments elevator_queue_empty_fn {D}.
Arguments elevator_former_req_fn {D}.
Arguments elevator_latter_req_fn {D}.

(** The barrier sequence of block/blk-barrier.c. *)
Definition QUEUE_ORDSEQ_DRAIN : Z := 2.
Definition QUEUE_ORDSEQ_PREFLUSH : Z := 4.
Definition QUEUE_ORDSEQ_BAR : Z := 8.
Definition QUEUE_ORDSEQ_POSTFLUSH : Z := 16.
Definition QUEUE_ORDSEQ_DONE : Z := 32.

Section entry.
Context {D : Type} (ops : elevator_ops D) (request_fn : M (elv D) unit).

Definition blk_ordered_req_seq (rq : Z) : M (elv D) Z :=
  q ← get_q;
  BUG_ON (ordseq q =? 0) ;;
  if rq =? pre_flush_rq q then mret QUEUE_ORDSEQ_PREFLUSH
  else if rq =? bar_rq q then mret QUEUE_ORDSEQ_BAR
  else if rq =? post_flush_rq q then mret QUEUE_ORDSEQ_POSTFLUSH
  else
    r ← get_rq rq;
    if negb (blk_fs_request r) then mret QUEUE_ORDSEQ_DRAIN else
    b ← get_rq (orig_bar_rq q);
    if Z.land (cmd_flags r) REQ_ORDERED_COLOR =? Z.land (cmd_flags b) REQ_ORDERED_COLOR
    then mret QUEUE_ORDSEQ_DRAIN else mret QUEUE_ORDSEQ_DONE.

Definition elv_iosched_allow_merge (allow : option (Z -> bio -> M (elv D) bool)) (rq : Z) (b : bio)
  : M (elv D) bool :=
  match allow with Some f => f rq b | None => mret true end.

(** [allow] is the [elevator_allow_merge_fn] of the queue's scheduler. *)
Definition elv_rq_merge_ok (allow : option (Z -> bio -> M (elv D) bool)) (rq : Z) (b : bio)
  : M (elv D) bool :=
  r ← get_rq rq;
  if negb (rq_mergeable r) then mret false
  else if negb (Bool.eqb (bio_rw_flagged (bi_rw b) BIO_RW_DISCARD) (bio_rw_flagged (rq_bio_rw r) BIO_RW_DISCARD))
  then mret false
  else if negb (bio_data_dir b =? rq_data_dir r) then mret false
  else if negb (rq_disk r =? bi_disk b) || negb (special r =? 0) then mret false
  else if negb (bio_integrity b =? blk_integrity_rq r) then mret false
  else
    ok ← elv_iosched_allow_merge allow rq b;
    if negb ok then mret false else mret true.

Definition elv_try_merge (rq : Z) (b : bio) : M (elv D) Z :=
  ok ← elv_rq_merge_ok (elevator_allow_merge_fn ops) rq b;
  if (ok : bool) then
    r ← get_rq rq;
    if u64 (blk_rq_pos r + blk_rq_sectors r) =? bi_sector b then mret ELEVATOR_BACK_MERGE
    else if u64 (blk_rq_pos r - bio_sectors b) =? bi_sector b then mret ELEVATOR_FRONT_MERGE
    else mret ELEVATOR_NO_MERGE
  else mret ELEVATOR_NO_MERGE.

(** Returns the kind of merge and the request to merge with. *)
Definition elv_merge (b : bio) : M (elv D) (Z * Z) :=
  q ← get_q;
  if queue_flag QUEUE_FLAG_NOMERGES q then mret (ELEVATOR_NO_MERGE, 0) else
  ret ← (if last_merge q =? 0 then mret ELEVATOR_NO_MERGE else elv_try_merge (last_merge q) b);
  if negb (ret =? ELEVATOR_NO_MERGE) then mret (ret, last_merge q) else
  if queue_flag QUEUE_FLAG_NOXMERGES q then mret (ELEVATOR_NO_MERGE, 0) else
  rq ← elv_rqhash_find (bi_sector b);
  ok ← (if rq =? 0 then mret false else elv_rq_merge_ok (elevator_allow_merge_fn ops) rq b);
  if (ok : bool) then mret (ELEVATOR_BACK_MERGE, rq) else
  match elevator_merge_fn ops with
  | Some f => f b
  | None => mret (ELEVATOR_NO_MERGE, 0)
  end.

Definition elv_merged_request (rq type : Z) : M (elv D) unit :=
  match elevator_merged_fn ops with Some f => f rq type | None => mret tt end ;;
  (if type =? ELEVATOR_BACK_MERGE then elv_rqhash_reposition rq else mret tt) ;;
  set_q (set_last_merge rq).

Definition elv_merge_requests (rq next : Z) : M (elv D) unit :=
  match elevator_merge_req_fn ops with Some f => f rq next | None => mret tt end ;;
  elv_rqhash_reposition rq ;;
  elv_rqhash_del next ;;
  set_q (λ q, set_nr_sorted (u32 (nr_sorted q - 1)) q) ;;
  set_q (set_last_merge rq).

(** [while (dispatch_fn(q, 1)) ;] *)
Fixpoint elv_drain_loop (fuel : nat) : M (elv D) unit :=
  match fuel with
  | O => oops
  | S fuel => n ← elevator_dispatch_fn ops 1; if n =? 0 then mret tt else elv_drain_loop fuel
  end.
Definition elv_drain_elevator : M (elv D) unit :=
  s ← get; elv_drain_loop (S (size (rqs s))).

Definition elv_queue_empty : M (elv D) bool :=
  q ← get_q;
  e ← on_lists (list_empty (queue_head q));
  if negb e then mret false
  else match elevator_queue_empty_fn ops with Some f => f | None => mret true end.

Definition __blk_run_queue : M (elv D) unit :=
  blk_remove_plug ;;
  q ← get_q;
  if queue_flag QUEUE_FLAG_STOPPED q then mret tt else
  e ← elv_queue_empty;
  if (e : bool) then mret tt else
  was ← queue_flag_test_and_set QUEUE_FLAG_REENTER;
  if (was : bool) then queue_flag_set QUEUE_FLAG_PLUGGED ;; schedule_unplug_work
  else request_fn ;; queue_flag_clear QUEUE_FLAG_REENTER.

(** The walk from the head to the first request whose sequence is not before
    [seq]. *)
Fixpoint requeue_loop (fuel : nat) (seq head pos : Z) : M (elv D) Z :=
  match fuel with
  | O => oops
  | S fuel =>
    if pos =? head then mret pos else
    pseq ← blk_ordered_req_seq pos;
    if seq <=? pseq then mret pos
    else n ← on_lists (get_next pos); requeue_loop fuel seq head n
  end.

Definition or_cmd_flags (rq flags : Z) : M (elv D) unit :=
  set_rq rq (λ r, set_cmd_flags (Z.lor (cmd_flags r) flags) r).

Definition insert_requeue (rq : Z) : M (elv D) unit :=
  or_cmd_flags rq REQ_SOFTBARRIER ;;
  q ← get_q;
  if ordseq q =? 0 then on_lists (list_add rq (queue_head q)) else
  seq ← blk_ordered_req_seq rq;
  s ← get;
  n ← on_lists (get_next (queue_head q));
  pos ← requeue_loop (S (size (lists s))) seq (queue_head q) n;
  on_lists (list_add_tail rq pos).

Definition insert_sort (rq : Z) : M (elv D) unit :=
  r ← get_rq rq;
  BUG_ON (negb (blk_fs_request r) && (blk_discard_rq r =? 0)) ;;
  or_cmd_flags rq REQ_SORTED ;;
  set_q (λ q, set_nr_sorted (u32 (nr_sorted q + 1)) q) ;;
  r ← get_rq rq;
  (if rq_mergeable r then
     elv_rqhash_add rq ;;
     q ← get_q; if last_merge q =? 0 then set_q (set_last_merge rq) else mret tt
   else mret tt) ;;
  elevator_add_req_fn ops rq.

Definition elv_insert (rq where_ : Z) : M (elv D) unit :=
  unplug_it ←
    (if where_ =? ELEVATOR_INSERT_FRONT then
       or_cmd_flags rq REQ_SOFTBARRIER ;;
       q ← get_q; on_lists (list_add rq (queue_head q)) ;; mret true
     else if where_ =? ELEVATOR_INSERT_BACK then
       or_cmd_flags rq REQ_SOFTBARRIER ;;
       elv_drain_elevator ;;
       q ← get_q; on_lists (list_add_tail rq (queue_head q)) ;;
       __blk_run_queue ;; mret true
     else if where_ =? ELEVATOR_INSERT_SORT then insert_sort rq ;; mret true
     else if where_ =? ELEVATOR_INSERT_REQUEUE then insert_requeue rq ;; mret false
     else oops);
  q ← get_q;
  if (unplug_it : bool) && queue_flag QUEUE_FLAG_PLUGGED q then
    let nrq := s32 (rq_count_sync q + rq_count_async q - s32 (in_flight_async q + in_flight_sync q)) in
    if nrq >=? unplug_thresh q then __generic_unplug_device request_fn else mret tt
  else mret tt.

Definition __elv_add_request (rq where_ : Z) (plug : bool) : M (elv D) unit :=
  q ← get_q;
  (if ordcolor q =? 0 then mret tt else or_cmd_flags rq REQ_ORDERED_COLOR) ;;
  r ← get_rq rq;
  where' ←
    (if flagged r (Z.lor REQ_SOFTBARRIER REQ_HARDBARRIER) then
       (if blk_barrier_rq r then set_q (λ q, set_ordcolor (Z.lxor (ordcolor q) 1) q) else mret tt) ;;
       (if blk_fs_request r || negb (blk_discard_rq r =? 0)
        then set_q (set_boundary (rq_end_sector r) rq) else mret tt) ;;
       mret (if where_ =? ELEVATOR_INSERT_SORT then ELEVATOR_INSERT_BACK else where_)
     else if negb (flagged r REQ_ELVPRIV) && (where_ =? ELEVATOR_INSERT_SORT)
     then mret ELEVATOR_INSERT_BACK else mret where_);
  (if plug then blk_plug_device else mret tt) ;;
  elv_insert rq where'.

Definition elv_requeue_request (rq : Z) : M (elv D) unit :=
  r ← get_rq rq;
  (if blk_account_rq r then
     (if rq_is_sync r then set_q (λ q, set_in_flight (in_flight_async q) (u32 (in_flight_sync q - 1)) q)
      else set_q (λ q, set_in_flight (u32 (in_flight_async q - 1)) (in_flight_sync q) q)) ;;
     (if blk_sorted_rq r then
        match elevator_deactivate_req_fn ops with Some f => f rq | None => mret tt end
      else mret tt)
   else mret tt) ;;
  set_rq rq (λ r, set_cmd_flags (Z.land (cmd_flags r) (Z.lnot REQ_STARTED)) r) ;;
  elv_insert rq ELEVATOR_INSERT_REQUEUE.

Definition elv_latter_request (rq : Z) : M (elv D) Z :=
  match elevator_latter_req_fn ops with Some f => f rq | None => mret 0 end.
Definition elv_former_request (rq : Z) : M (elv D) Z :=
  match elevator_former_req_fn ops with Some f => f rq | None => mret 0 end.
End entry.

(** ** The merge hash is consistent *)
(** The bucket a request says it is linked in holds it, and is the one of its
    end sector. *)
Definition linked {D} (s : elv D) (b x : Z) : Prop :=
  exists r, rqs s !! x = Some r /\ rq_hash r = Some b.

Record hash_links {D} (s : elv D) : Prop := {
  h_bucket : forall b x, x ∈ bucket (queue s) b <-> linked s b x;
  h_nodup : forall b, NoDup (bucket (queue s) b);
}.
Definition key_ok {D} (s : elv D) (x : Z) : Prop :=
  forall r b, rqs s !! x = Some r -> rq_hash r = Some b -> b = ELV_HASH_FN (rq_hash_key r).
Record hash_ok {D} (s : elv D) : Prop := {
  h_links :> hash_links s;
  h_key : forall x, key_ok s x;
}.

(** The state after [hlist_del_init] of the hash node of [x], and after it is
    linked into the bucket of its end sector. *)
Definition unhash {D} (x : Z) (s : elv D) : elv D :=
  match rqs s !! x with
  | Some r =>
      match rq_hash r with
      | Some b => upd_rqs <[x := set_rq_hash None r]>
                    (upd_queue (λ q, set_hash (<[b := filter (λ y, y ≠ x) (bucket q b)]> (hash q)) q) s)
      | None => s
      end
  | None => s
  end.
Definition dohash {D} (x : Z) (r : request) (s : elv D) : elv D :=
  let b := ELV_HASH_FN (rq_hash_key r) in
  upd_rqs <[x := set_rq_hash (Some b) r]>
    (upd_queue (λ q, set_hash (<[b := x :: bucket q b]> (hash q)) q) s).

Section hash.
Context {D : Type}.
Implicit Types (s : elv D) (x b : Z) (r : request).

Lemma get_rq_run s x r : rqs s !! x = Some r -> get_rq x s = Some (r, s).
Proof. unfold get_rq. by intros ->. Qed.
Lemma set_rq_run s x r f : rqs s !! x = Some r -> set_rq x f s = Some (tt, upd_rqs <[x := f r]> s).
Proof. intros H. unfold set_rq. by erewrite bind_run by (by apply get_rq_run). Qed.


Lemma bucket_eq b l q : bucket (set_hash (<[b := l]> (hash q)) q) b = l.
Proof. unfold bucket. cbn. by rewrite lookup_insert_eq. Qed.
Lemma bucket_ne b b' l q : b <> b' -> bucket (set_hash (<[b := l]> (hash q)) q) b' = bucket q b'.
Proof. intros. unfold bucket. cbn. by rewrite lookup_insert_ne. Qed.

Lemma rqhash_del_run s x r : rqs s !! x = Some r -> __elv_rqhash_del x s = Some (tt, unhash x s).
Proof.
  intros H. unfold __elv_rqhash_del, unhash. erewrite bind_run by (by apply get_rq_run). rewrite H.
  destruct (rq_hash r); [|done]. erewrite bind_run by done. by apply set_rq_run.
Qed.
Lemma elv_rqhash_del_run s x r : rqs s !! x = Some r -> elv_rqhash_del x s = Some (tt, unhash x s).
Proof.
  intros H. unfold elv_rqhash_del, ELV_ON_HASH. erewrite bind_run by (by apply get_rq_run).
  destruct (rq_hash r) eqn:E; [by eapply rqhash_del_run|]. unfold unhash. by rewrite H, E.
Qed.
Lemma elv_rqhash_add_run s x r : rqs s !! x = Some r -> rq_hash r = None ->
  elv_rqhash_add x s = Some (tt, dohash x r s).
Proof.
  intros H E. unfold elv_rqhash_add, ELV_ON_HASH. erewrite bind_run by (by apply get_rq_run).
  rewrite E. erewrite bind_run by done. erewrite bind_run by done. by apply set_rq_run.
Qed.

Lemma unhash_rqs s x r : rqs s !! x = Some r -> rqs (unhash x s) = <[x := set_rq_hash None r]> (rqs s).
Proof.
  intros H. unfold unhash. rewrite H. destruct (rq_hash r) eqn:E; [done|].
  symmetry. apply insert_id. rewrite H. f_equal. destruct r; cbn in *. by subst.
Qed.

Lemma unhash_bucket s x b y : hash_links s ->
  y ∈ bucket (queue (unhash x s)) b <-> y <> x /\ y ∈ bucket (queue s) b.
Proof.
  intros Hok. unfold unhash. destruct (rqs s !! x) as [r|] eqn:H.
  2:{ split; [|tauto]. intros Hy. split; [|done]. intros ->.
      apply (h_bucket _ Hok) in Hy as (? & ? & _). congruence. }
  destruct (rq_hash r) as [b'|] eqn:E.
  2:{ split; [|tauto]. intros Hy. split; [|done]. intros ->.
      apply (h_bucket _ Hok) in Hy as (? & ? & ?). congruence. }
  cbn [queue upd_rqs upd_queue]. destruct (decide (b' = b)) as [->|Hne].
  - rewrite bucket_eq. by rewrite list_elem_of_filter.
  - rewrite bucket_ne by done. split; [|tauto]. intros Hy. split; [|done]. intros ->.
    apply (h_bucket _ Hok) in Hy as (? & ? & ?). congruence.
Qed.

(** Unlinking restores the consistency that a changed end sector of [x] broke. *)
Lemma unhash_ok s x : hash_links s -> (forall y, y <> x -> key_ok s y) -> hash_ok (unhash x s).
Proof.
  intros Hok Hk. destruct (rqs s !! x) as [r|] eqn:H.
  2:{ unfold unhash. rewrite H. split; [done|]. intros y. destruct (decide (y = x)) as [->|]; [|by apply Hk].
      intros r b ?. congruence. }
  split; [split|].
  - intros b y. rewrite unhash_bucket by done. unfold linked. rewrite (unhash_rqs s x r H).
    rewrite (h_bucket _ Hok). unfold linked. destruct (decide (y = x)) as [->|Hne].
    + rewrite lookup_insert_eq. split; [tauto|]. by intros (? & [= <-] & ?).
    + rewrite lookup_insert_ne by done. tauto.
  - intros b. unfold unhash. rewrite H. destruct (rq_hash r) as [b'|]; [|apply (h_nodup _ Hok)].
    cbn [queue upd_rqs upd_queue]. destruct (decide (b' = b)) as [->|Hne].
    + rewrite bucket_eq. apply NoDup_filter, (h_nodup _ Hok).
    + rewrite bucket_ne by done. apply (h_nodup _ Hok).
  - intros y r' b. rewrite (unhash_rqs s x r H). destruct (decide (y = x)) as [->|Hne].
    + rewrite lookup_insert_eq. by intros [= <-].
    + rewrite lookup_insert_ne by done. by apply Hk.
Qed.

Lemma dohash_ok s x r : hash_ok s -> rqs s !! x = Some r -> rq_hash r = None -> hash_ok (dohash x r s).
Proof.
  intros [Hl Hk] H E. unfold dohash. set (k := ELV_HASH_FN (rq_hash_key r)).
  assert (forall b, x ∉ bucket (queue s) b) as Hx.
  { intros b (? & ? & ?)%(h_bucket _ Hl). congruence. }
  split; [split|].
  - intros b y. cbn [queue upd_rqs upd_queue]. unfold linked. cbn [rqs upd_rqs upd_queue].
    destruct (decide (y = x)) as [->|Hne].
    + rewrite lookup_insert_eq. destruct (decide (k = b)) as [<-|Hb].
      * rewrite bucket_eq. split; [intros _; eauto|set_solver +].
      * rewrite bucket_ne by done. split; [by intros ?%Hx|]. intros (? & [= <-] & [= ?]). done.
    + rewrite lookup_insert_ne by done. change (y ∈ bucket (set_hash (<[k := x :: bucket (queue s) k]> (hash (queue s))) (queue s)) b <-> linked s b y).
      rewrite <-(h_bucket _ Hl). destruct (decide (k = b)) as [<-|Hb].
      * rewrite bucket_eq. set_solver +Hne.
      * by rewrite bucket_ne.
  - intros b. cbn [queue upd_rqs upd_queue]. destruct (decide (k = b)) as [<-|Hb].
    + rewrite bucket_eq. constructor; [apply Hx|apply (h_nodup _ Hl)].
    + rewrite bucket_ne by done. apply (h_nodup _ Hl).
  - intros y r' b. cbn [rqs upd_rqs upd_queue]. destruct (decide (y = x)) as [->|Hne].
    + rewrite lookup_insert_eq. intros [= <-]. cbn. by intros [= <-].
    + rewrite lookup_insert_ne by done. apply Hk.
Qed.

Lemma hash_ok_ext s s' : rqs s' = rqs s -> hash (queue s') = hash (queue s) -> hash_ok s -> hash_ok s'.
Proof.
  intros E1 E2 [[Hb Hn] Hk]. unfold bucket in *.
  split; [split|]; unfold bucket, linked, key_ok in *; by rewrite ?E1, ?E2.
Qed.

(** Writing a request that is not on the hash. *)
Lemma hash_ok_write s x r r' : hash_ok s -> rqs s !! x = Some r -> rq_hash r = None -> rq_hash r' = None ->
  hash_ok (upd_rqs <[x := r']> s).
Proof.
  intros [[Hb Hn] Hk] H E E'. split; [split|].
  - intros b y. cbn. rewrite Hb. unfold linked. cbn. destruct (decide (y = x)) as [->|Hne].
    + rewrite lookup_insert_eq. naive_solver congruence.
    + by rewrite lookup_insert_ne.
  - done.
  - intros y r0 b. cbn. destruct (decide (y = x)) as [->|Hne].
    + rewrite lookup_insert_eq. congruence.
    + rewrite lookup_insert_ne by done. apply Hk.
Qed.

(** [elv_rqhash_reposition] after the end sector of [x] changed. *)
Lemma elv_rqhash_reposition_run s x r :
  hash_links s -> (forall y, y <> x -> key_ok s y) -> rqs s !! x = Some r ->
  exists s', elv_rqhash_reposition x s = Some (tt, s') /\ hash_ok s' /\
    linked s' (ELV_HASH_FN (rq_hash_key r)) x.
Proof.
  intros Hl Hk H. unfold elv_rqhash_reposition.
  erewrite bind_run by (by eapply rqhash_del_run).
  assert (rqs (unhash x s) !! x = Some (set_rq_hash None r)) as H'.
  { by rewrite (unhash_rqs s x r H), lookup_insert_eq. }
  eexists. split_and!.
  - by apply (elv_rqhash_add_run _ _ _ H').
  - apply dohash_ok; [by apply unhash_ok|done|done].
  - unfold linked, dohash. cbn [rqs upd_rqs]. rewrite lookup_insert_eq. eexists. done.
Qed.

(** The requests a bucket walk may return. *)
Definition candidate s (offset x : Z) : Prop :=
  exists r, rqs s !! x = Some r /\ ELV_ON_HASH r = true /\ rq_mergeable r = true /\ rq_hash_key r = offset.

Lemma unhash_lookup_ne s x y : x <> y -> rqs (unhash x s) !! y = rqs s !! y.
Proof.
  intros Hne. unfold unhash. destruct (rqs s !! x) as [r|]; [|done]. destruct (rq_hash r); [|done].
  cbn. by rewrite lookup_insert_ne.
Qed.

Lemma rqhash_find_loop_step s x r b entries offset :
  rqs s !! x = Some r -> rq_hash r = Some b ->
  elv_rqhash_find_loop (x :: entries) offset s =
    (if negb (rq_mergeable r) then elv_rqhash_find_loop entries offset (unhash x s)
     else if rq_hash_key r =? offset then Some (x, s) else elv_rqhash_find_loop entries offset s).
Proof.
  intros Hr Eb. cbn [elv_rqhash_find_loop]. erewrite bind_run by (by apply get_rq_run).
  unfold ELV_ON_HASH. rewrite Eb. erewrite bind_run by done.
  destruct (rq_mergeable r); cbn [negb]; [by destruct (rq_hash_key r =? offset)|].
  by erewrite bind_run by (by eapply rqhash_del_run).
Qed.

Lemma rqhash_find_loop_run entries s offset :
  hash_ok s -> NoDup entries -> (forall x, x ∈ entries -> exists b, linked s b x) ->
  exists x s', elv_rqhash_find_loop entries offset s = Some (x, s') /\ hash_ok s' /\
    (forall y r, rqs s !! y = Some r -> rq_mergeable r = true \/ y ∉ entries -> rqs s' !! y = Some r) /\
    (candidate s' offset x \/ (x = 0 /\ forall y, y ∈ entries -> ~ candidate s' offset y)).
Proof.
  revert s. induction entries as [|x entries IH]; intros s Hok Hn Hin.
  { exists 0, s. split_and!; [done..|right]. set_solver +. }
  apply NoDup_cons in Hn as [Hx Hn]. destruct (Hin x) as (b & r & Hr & Eb); [set_solver +|].
  rewrite (rqhash_find_loop_step _ _ _ _ _ _ Hr Eb). destruct (rq_mergeable r) eqn:Em; cbn [negb].
  - destruct (Z.eqb_spec (rq_hash_key r) offset) as [Ek|Ek].
    { exists x, s. split_and!; [done|done|by intros|left]. exists r. unfold ELV_ON_HASH. by rewrite Eb. }
    destruct (IH s) as (x' & s' & Hrun & Hok' & Hk & Hres); [done..|set_solver +Hin|].
    exists x', s'. split_and!; [done|done|set_solver +Hk|].
    destruct Hres as [?|[-> Hno]]; [by left|right; split; [done|]].
    intros y [->|Hy]%elem_of_cons; [|by apply Hno].
    intros (r' & Hr' & _ & _ & ?). rewrite (Hk x r Hr) in Hr' by auto. congruence.
  - destruct (IH (unhash x s)) as (x' & s' & Hrun & Hok' & Hk & Hres); [|done|..].
    { apply unhash_ok; [apply Hok|]. intros y _. apply Hok. }
    { intros y Hy. destruct (Hin y) as (b' & r' & ? & ?); [set_solver +Hy|]. exists b', r'.
      rewrite unhash_lookup_ne by (intros ->; done). done. }
    exists x', s'. split_and!; [done|done|..].
    + intros y ry Hy Hor. destruct (decide (y = x)) as [->|Hne].
      { exfalso. destruct Hor as [?|Hor]; [congruence|]. set_solver +Hor. }
      apply Hk; [by rewrite unhash_lookup_ne|]. set_solver +Hor.
    + destruct Hres as [?|[-> Hno]]; [by left|right; split; [done|]].
      intros y [->|Hy]%elem_of_cons; [|by apply Hno].
      intros (r' & Hr' & Hh & _). rewrite (Hk x (set_rq_hash None r)) in Hr'; [|..|by right].
      * by simplify_eq.
      * by rewrite (unhash_rqs s x r Hr), lookup_insert_eq.
Qed.

(** An empty hash. *)
Lemma hash_ok_empty s : hash (queue s) = ∅ -> map_Forall (λ _ r, rq_hash r = None) (rqs s) -> hash_ok s.
Proof.
  intros E Hr. split; [split|].
  - intros b x. unfold bucket, linked. rewrite E, lookup_empty. split; [set_solver +|].
    intros (r & H & Hb). rewrite (Hr x r H) in Hb. done.
  - intros b. unfold bucket. rewrite E, lookup_empty. constructor.
  - intros x r b H Hb. rewrite (Hr x r H) in Hb. done.
Qed.
End hash.

(** on a consistent merge hash, [elv_rqhash_find] succeeds and keeps the
    hash consistent and every mergeable request as it was; what it returns is a
    hashed mergeable request that ends at [offset], and it returns NULL only
    when there is none. *)
Theorem elv_rqhash_find_correct {D} (s : elv D) offset :
  hash_ok s ->
  exists x s', elv_rqhash_find offset s = Some (x, s') /\ hash_ok s' /\
    (forall y r, rqs s !! y = Some r -> rq_mergeable r = true -> rqs s' !! y = Some r) /\
    (candidate s' offset x \/ (x = 0 /\ forall y, ~ candidate s offset y)).
Proof.
  intros Hok. unfold elv_rqhash_find. erewrite bind_run by done.
  destruct (rqhash_find_loop_run (bucket (queue s) (ELV_HASH_FN offset)) s offset)
    as (x & s' & Hrun & Hok' & Hk & Hres); [done|apply Hok|..].
  { intros x Hx. exists (ELV_HASH_FN offset). by apply (h_bucket _ Hok). }
  exists x, s'. split_and!; [done|done|by intros; eapply Hk; eauto|].
  destruct Hres as [?|[-> Hno]]; [by left|right; split; [done|]].
  intros y (r & Hr & Hh & Hm & Ek). apply (Hno y); [|exists r; split_and!; [apply Hk; auto|done..]].
  unfold ELV_ON_HASH in Hh. destruct (rq_hash r) as [b|] eqn:Eb; [|done].
  apply (h_bucket _ Hok). exists r. split; [done|]. rewrite Eb. f_equal.
  rewrite <-Ek. by apply (h_key _ Hok y).
Qed.

(** ** The dispatch queue *)
(** [L] describes the list memory and the merge hash is consistent. *)
Record core {D} (s : elv D) (L : heads) : Prop := {
  core_lists : lrep (lists s) L;
  core_hash : hash_ok s;
}.

(** What dispatching [x], the request [r], does besides linking it. *)
Record dispatched {D} (s s' : elv D) (x : Z) (r : request) : Prop := {
  d_rqs : rqs s' = <[x := set_rq_hash None r]> (rqs s);
  d_data : elevator_data s' = elevator_data s;
  d_jiffies : jiffies s' = jiffies s;
  d_head : queue_head (queue s') = queue_head (queue s);
  d_nr : nr_sorted (queue s') = u32 (nr_sorted (queue s) - 1);
  d_last : last_merge (queue s') = if last_merge (queue s) =? x then 0 else last_merge (queue s);
}.

Section dispatch_queue.
Context {D : Type}.
Implicit Types (s : elv D) (L : heads) (x : Z) (r : request) (d : list Z).

Lemma on_lists_run {A} (m : M mem A) s a l : m (lists s) = Some (a, l) -> on_lists m s = Some (a, with_lists l s).
Proof. unfold on_lists. by intros ->. Qed.
Lemma on_lists_read {A} (m : M mem A) s a : m (lists s) = Some (a, lists s) -> on_lists m s = Some (a, s).
Proof. unfold on_lists. intros ->. by destruct s. Qed.

(** The part both dispatch functions start with. *)
Definition dequeued x s : elv D :=
  upd_queue (λ q, set_nr_sorted (u32 (nr_sorted q - 1)) q)
    (unhash x (if last_merge (queue s) =? x then upd_queue (set_last_merge 0) s else s)).

Lemma dequeue_run {A} s x r (rest : M (elv D) A) : rqs s !! x = Some r ->
  (forget_last_merge x ;; elv_rqhash_del x ;;
   set_q (λ q, set_nr_sorted (u32 (nr_sorted q - 1)) q) ;; rest) s = rest (dequeued x s).
Proof.
  intros H. unfold dequeued, forget_last_merge.
  assert ((q ← get_q; if last_merge q =? x then set_q (set_last_merge 0) else mret tt) s
    = Some (tt, if last_merge (queue s) =? x then upd_queue (set_last_merge 0) s else s)) as Hr.
  { erewrite bind_run by done. by destruct (last_merge (queue s) =? x). }
  erewrite bind_run by exact Hr.
  erewrite bind_run.
  2:{ apply (elv_rqhash_del_run _ x r). by destruct (last_merge (queue s) =? x). }
  by erewrite bind_run by done.
Qed.

Lemma unhash_fields s x :
  lists (unhash x s) = lists s /\ elevator_data (unhash x s) = elevator_data s /\
  jiffies (unhash x s) = jiffies s /\ queue_head (queue (unhash x s)) = queue_head (queue s) /\
  nr_sorted (queue (unhash x s)) = nr_sorted (queue s) /\
  last_merge (queue (unhash x s)) = last_merge (queue s) /\
  end_sector (queue (unhash x s)) = end_sector (queue s).
Proof. unfold unhash. destruct (rqs s !! x) as [r|]; [|done]. by destruct (rq_hash r). Qed.

Lemma dequeued_ok s x r : hash_ok s -> rqs s !! x = Some r ->
  hash_ok (dequeued x s) /\ dispatched s (dequeued x s) x r /\ lists (dequeued x s) = lists s /\
  end_sector (queue (dequeued x s)) = end_sector (queue s).
Proof.
  intros Hok H. unfold dequeued.
  set (s1 := if last_merge (queue s) =? x then upd_queue (set_last_merge 0) s else s).
  assert (hash_ok s1 /\ rqs s1 = rqs s /\ lists s1 = lists s /\ elevator_data s1 = elevator_data s /\
    jiffies s1 = jiffies s /\ queue_head (queue s1) = queue_head (queue s) /\
    nr_sorted (queue s1) = nr_sorted (queue s) /\ end_sector (queue s1) = end_sector (queue s) /\
    last_merge (queue s1) = if last_merge (queue s) =? x then 0 else last_merge (queue s))
    as (Hok1 & E1 & E2 & E3 & E4 & E5 & E6 & E7 & E8).
  { unfold s1. destruct (last_merge (queue s) =? x); [|done]. split_and!; try done.
    destruct Hok as [[Hb Hn] Hk]. by split; [split|]. }
  destruct (unhash_fields s1 x) as (F1 & F2 & F3 & F4 & F5 & F6 & F7).
  assert (hash_ok (unhash x s1)) as [[Hb Hn] Hk] by (apply unhash_ok; [apply Hok1|intros y _; apply Hok1]).
  split_and!; [|split| |]; cbn; try congruence.
  - by split; [split|].
  - rewrite (unhash_rqs _ _ r); congruence.
Qed.

Lemma elv_dispatch_add_tail_run s L x r d :
  core s L -> L !! queue_head (queue s) = Some d -> L !! x = Some [] -> x <> queue_head (queue s) ->
  rqs s !! x = Some r ->
  exists s', elv_dispatch_add_tail x s = Some (tt, s') /\ dispatched s s' x r /\
    core s' (<[queue_head (queue s) := d ++ [x]]> (delete x L)) /\
    end_sector (queue s') = rq_end_sector r.
Proof.
  intros [Hl Hh] Hq Hx Hne H. destruct (dequeued_ok s x r Hh H) as ([[Hb Hn] Hk] & Hd & El & _).
  destruct (heap_add_tail _ _ _ _ _ Hl Hq Hx Hne) as (m' & Hadd & Hl').
  pose proof (d_head _ _ _ _ Hd) as Eh. pose proof (d_rqs _ _ _ _ Hd) as Er.
  eexists. split_and!.
  - unfold elv_dispatch_add_tail. rewrite (dequeue_run s x r) by done.
    erewrite bind_run. 2:{ apply get_rq_run. by rewrite Er, lookup_insert_eq. }
    erewrite bind_run by done. erewrite bind_run by done. apply on_lists_run.
    cbn [lists queue upd_queue queue_head set_boundary]. rewrite El, Eh. exact Hadd.
  - destruct Hd. by split.
  - split; [done|]. by split; [split|].
  - done.
Qed.

(** Whether the walk of [elv_dispatch_sort] stops at [y]. *)
Definition stops s (boundary : Z) r (y : Z) : bool :=
  match rqs s !! y with Some p => sort_stop boundary r p | None => true end.

Lemma dispatch_sort_loop_run fuel s L h d1 d2 b r :
  lrep (lists s) L -> L !! h = Some (d1 ++ d2) -> (forall y, y ∈ d1 -> is_Some (rqs s !! y)) ->
  (length d1 < fuel)%nat ->
  exists e1 e2, d1 = e1 ++ e2 /\
    dispatch_sort_loop fuel b r h (lastd h d1) s = Some (lastd h e1, s) /\
    (forall y, y ∈ e2 -> stops s b r y = false) /\
    (e1 = [] \/ exists e y, e1 = e ++ [y] /\ stops s b r y = true).
Proof.
  intros Hl. revert d1 d2. induction fuel as [|fuel IH]; intros d1 d2 E Hr Hf; [lia|].
  cbn [dispatch_sort_loop].
  assert (d1 = [] \/ exists d y, d1 = d ++ [y]) as [->|(d & y & ->)].
  { destruct d1 as [|z d1]; [by left|right]. destruct (exists_last (l:=z :: d1)) as (d & y & ->); eauto. }
  { exists [], []. cbn. rewrite Z.eqb_refl. split_and!; [done..|set_solver +|by left]. }
  rewrite lastd_snoc. rewrite <-app_assoc in E. cbn in E. rewrite length_app in Hf. cbn in Hf.
  assert (y <> h) as Hyh.
  { intros ->. pose proof (lrep_nodup _ _ _ _ Hl E) as Hn. apply NoDup_cons in Hn as [Hn _]. set_solver +Hn. }
  destruct (Hr y) as [p Hp]; [set_solver +|].
  rewrite (proj2 (Z.eqb_neq _ _) Hyh).
  destruct (sort_stop b r p) eqn:Es.
  { exists (d ++ [y]), []. rewrite app_nil_r, lastd_snoc. erewrite bind_run by (by apply get_rq_run). rewrite Es.
    split_and!; [done..|set_solver +|right]. exists d, y. unfold stops. by rewrite Hp. }
  destruct (IH d (y :: d2) E) as (e1 & e2 & -> & Hrun & H2 & H1); [set_solver +Hr|lia|].
  exists e1, (e2 ++ [y]). split_and!; [by rewrite app_assoc| | |done].
  - erewrite bind_run by (by apply get_rq_run). rewrite Es.
    erewrite bind_run by (apply on_lists_read; by eapply heap_get_prev). exact Hrun.
  - intros z [Hz| ->%list_elem_of_singleton]%elem_of_app; [by apply H2|]. unfold stops. by rewrite Hp.
Qed.

Lemma stops_hash s s' x r b h y : y <> x -> rqs s' = <[x := set_rq_hash h r]> (rqs s) ->
  stops s' b (set_rq_hash h r) y = stops s b r y.
Proof. intros Hne E. unfold stops. rewrite E, lookup_insert_ne by done. done. Qed.

Lemma elv_dispatch_sort_run s L x r d :
  core s L -> L !! queue_head (queue s) = Some d -> L !! x = Some [] -> x <> queue_head (queue s) ->
  rqs s !! x = Some r -> (forall y, y ∈ d -> is_Some (rqs s !! y)) ->
  exists s' e1 e2, elv_dispatch_sort x s = Some (tt, s') /\ dispatched s s' x r /\
    d = e1 ++ e2 /\ core s' (<[queue_head (queue s) := e1 ++ x :: e2]> (delete x L)) /\
    end_sector (queue s') = end_sector (queue s) /\
    (forall y, y ∈ e2 -> stops s (end_sector (queue s)) r y = false) /\
    (e1 = [] \/ exists e y, e1 = e ++ [y] /\ stops s (end_sector (queue s)) r y = true).
Proof.
  intros [Hl Hh] Hq Hx Hne H Hd. destruct (dequeued_ok s x r Hh H) as ([[Hb Hn] Hk] & Hdq & El & Ee).
  pose proof (d_head _ _ _ _ Hdq) as Eh. pose proof (d_rqs _ _ _ _ Hdq) as Er.
  assert (forall y, y ∈ d -> y <> x) as Hyx.
  { intros y Hy ->. exact (lrep_entry_ne _ _ _ _ _ _ Hl Hq Hy Hx). }
  destruct (dispatch_sort_loop_run (S (size (lists s))) (dequeued x s) L (queue_head (queue s)) d []
    (end_sector (queue s)) (set_rq_hash None r)) as (e1 & e2 & -> & Hrun & H2 & H1).
  { by rewrite El. } { by rewrite app_nil_r. }
  { intros y Hy. rewrite Er, lookup_insert_ne by (apply not_eq_sym; auto). auto. }
  { pose proof (heap_length _ _ _ _ Hl Hq). lia. }
  destruct (lastd_view (queue_head (queue s)) e1) as [A HA].
  destruct (heap_add _ _ _ _ _ _ _ _ Hl Hq Hx Hne HA) as (m' & Hadd & Hl').
  exists (with_lists m' (dequeued x s)), e1, e2. split_and!.
  - unfold elv_dispatch_sort. rewrite (dequeue_run s x r) by done.
    erewrite bind_run by done.
    erewrite bind_run. 2:{ apply get_rq_run. by rewrite Er, lookup_insert_eq. }
    erewrite bind_run by done. rewrite Eh, Ee, El.
    erewrite bind_run. 2:{ apply on_lists_read. rewrite El. by eapply heap_get_prev_head. }
    erewrite bind_run by exact Hrun. apply on_lists_run. by rewrite El.
  - destruct Hdq. by split.
  - done.
  - split; [done|]. by split; [split|].
  - done.
  - intros y Hy. rewrite <-(H2 y Hy). symmetry. eapply stops_hash; [|done]. apply Hyx. set_solver +Hy.
  - destruct H1 as [->|(e & y & -> & Hs)]; [by left|right]. exists e, y. split; [done|].
    rewrite <-Hs. symmetry. eapply stops_hash; [|done]. apply Hyx. set_solver +.
Qed.
End dispatch_queue.

(** The one-way elevator order from the sector [b]: the sectors from [b] up
    come before the sectors below [b], and each group is ascending. *)
Definition elv_le (b p q : Z) : Prop := (b <= p /\ q < b) \/ ((b <= p <-> b <= q) /\ p <= q).

(** [rq] may be sorted past [pos]: same kind and direction, [pos] no barrier
    and not started. *)
Definition passable (rq pos : request) : Prop :=
  blk_discard_rq rq = blk_discard_rq pos /\ rq_data_dir rq = rq_data_dir pos /\
  flagged pos stop_flags = false.

Section order.
Implicit Types (r p : request) (b : Z).

Lemma elv_le_trans b x y z : elv_le b x y -> elv_le b y z -> elv_le b x z.
Proof. unfold elv_le. lia. Qed.

Lemma sort_stop_false b r p : sort_stop b r p = false ->
  passable r p /\ elv_le b (blk_rq_pos r) (blk_rq_pos p).
Proof.
  unfold sort_stop, passable, elv_le.
  destruct (Z.eqb_spec (blk_discard_rq r) (blk_discard_rq p)); cbn [negb]; [|done].
  destruct (Z.eqb_spec (rq_data_dir r) (rq_data_dir p)); cbn [negb]; [|done].
  destruct (flagged p stop_flags); [done|].
  destruct (Z.geb_spec (blk_rq_pos r) b), (Z.ltb_spec (blk_rq_pos p) b), (Z.geb_spec (blk_rq_pos p) b),
    (Z.geb_spec (blk_rq_pos r) (blk_rq_pos p)); intros ?; split; try done; lia.
Qed.

Lemma sort_stop_true b r p : sort_stop b r p = true -> passable r p ->
  elv_le b (blk_rq_pos p) (blk_rq_pos r).
Proof.
  unfold sort_stop, passable, elv_le. intros Hs (E1 & E2 & E3). revert Hs. rewrite E1, E2, E3, !Z.eqb_refl. cbn [negb].
  destruct (Z.geb_spec (blk_rq_pos r) b), (Z.ltb_spec (blk_rq_pos p) b), (Z.geb_spec (blk_rq_pos p) b),
    (Z.geb_spec (blk_rq_pos r) (blk_rq_pos p)); intros ?; try done; lia.
Qed.

Lemma StronglySorted_snoc_le {A} (R : relation A) (l : list A) (y z : A) :
  StronglySorted R (l ++ [y]) -> z ∈ l -> R z y.
Proof.
  induction l as [|a l IH]; [set_solver +|]. cbn. inversion 1 as [|? ? H1 H2]; subst.
  intros [->|Hz]%elem_of_cons; [|by apply IH]. rewrite Forall_forall in H2. apply H2. set_solver +.
Qed.

Lemma StronglySorted_insert {A} (R : relation A) (l1 l2 : list A) (x : A) :
  StronglySorted R (l1 ++ l2) -> (forall y, y ∈ l1 -> R y x) -> (forall y, y ∈ l2 -> R x y) ->
  StronglySorted R (l1 ++ x :: l2).
Proof.
  induction l1 as [|a l1 IH]; cbn; intros Hs H1 H2.
  - constructor; [done|]. by apply Forall_forall.
  - inversion Hs as [|? ? Hs' Ha]; subst. constructor.
    + apply IH; [done| |done]. intros y Hy. apply H1. set_solver +Hy.
    + rewrite Forall_app in Ha |- *. destruct Ha. split; [done|]. constructor; [|done]. apply H1. set_solver +.
Qed.
End order.

(** [elv_dispatch_sort] links an idle request into the dispatch queue without
    moving it past a barrier, a started request, or one of another kind or
    direction; when the whole queue may be passed and is in the one-way elevator
    order of [end_sector], it still is afterwards.  The request is taken off the
    merge hash and off [last_merge], and [nr_sorted] drops by one. *)
Theorem elv_dispatch_sort_correct {D} (s : elv D) L x r d :
  core s L -> L !! queue_head (queue s) = Some d -> L !! x = Some [] -> x <> queue_head (queue s) ->
  rqs s !! x = Some r -> (forall y, y ∈ d -> is_Some (rqs s !! y)) ->
  exists s' e1 e2, elv_dispatch_sort x s = Some (tt, s') /\ dispatched s s' x r /\
    d = e1 ++ e2 /\ core s' (<[queue_head (queue s) := e1 ++ x :: e2]> (delete x L)) /\
    (forall y, y ∈ e2 -> exists p, rqs s !! y = Some p /\ passable r p) /\
    ((forall y, y ∈ d -> exists p, rqs s !! y = Some p /\ passable r p) ->
     StronglySorted (λ a b, elv_le (end_sector (queue s)) (sector_of s a) (sector_of s b)) d ->
     StronglySorted (λ a b, elv_le (end_sector (queue s)) (sector_of s a) (sector_of s b)) (e1 ++ x :: e2)).
Proof.
  intros Hc Hq Hx Hne H Hd.
  destruct (elv_dispatch_sort_run s L x r d) as (s' & e1 & e2 & Hrun & Hdi & -> & Hc' & _ & H2 & H1); [done..|].
  assert (sector_of s x = blk_rq_pos r) as Ex by (unfold sector_of; by rewrite H).
  assert (forall y, y ∈ e2 -> exists p, rqs s !! y = Some p /\ sort_stop (end_sector (queue s)) r p = false) as H2'.
  { intros y Hy. destruct (Hd y) as [p Hp]; [set_solver +Hy|]. exists p. split; [done|].
    specialize (H2 y Hy). unfold stops in H2. by rewrite Hp in H2. }
  exists s', e1, e2. split_and!; [done..| |].
  - intros y Hy. destruct (H2' y Hy) as (p & Hp & Hs). exists p. split; [done|]. by eapply sort_stop_false.
  - intros Hpass Hs. apply StronglySorted_insert; [done|..].
    + destruct H1 as [->|(e & z & -> & Hz)]; [set_solver +|].
      assert (elv_le (end_sector (queue s)) (sector_of s z) (sector_of s x)) as Hzx.
      { destruct (Hpass z) as (p & Hp & Hpp); [set_solver +|]. unfold stops in Hz. rewrite Hp in Hz.
        rewrite Ex. unfold sector_of. rewrite Hp. by apply sort_stop_true. }
      intros y [Hy| ->%list_elem_of_singleton]%elem_of_app; [|done].
      eapply elv_le_trans; [|exact Hzx].
      apply (StronglySorted_snoc_le (λ a b, elv_le _ (sector_of s a) (sector_of s b)) e z y); [|done].
      clear -Hs. revert Hs. generalize (e ++ [z]). intros l.
      induction l as [|a l IH]; cbn; [constructor|]. inversion 1 as [|? ? H1 H2]; subst.
      rewrite Forall_app in H2. constructor; [by apply IH|tauto].
    + intros y Hy. destruct (H2' y Hy) as (p & Hp & Hsp). rewrite Ex. unfold sector_of. rewrite Hp.
      by apply sort_stop_false.
Qed.

(** ** Fifo statements the schedulers share *)
Section fifo_shared.
Context {D : Type}.

(** The statement the merge functions of the sio, V(R) and deadline schedulers
    share: [rq] takes the fifo position and the deadline of [next] when [next]
    expires first. *)
Definition fifo_merge (rq next : Z) : M (elv D) unit :=
  e1 ← on_lists (list_empty rq);
  if (e1 : bool) then mret tt else
  e2 ← on_lists (list_empty next);
  if (e2 : bool) then mret tt else
  r ← get_rq rq;
  n ← get_rq next;
  if time_before (rq_fifo_time n) (rq_fifo_time r) then
    on_lists (list_move rq next) ;; rq_set_fifo_time rq (rq_fifo_time n)
  else mret tt.

(** The first request of a fifo when it has expired, NULL otherwise. *)
Definition fifo_expired (head : Z) : M (elv D) Z :=
  e ← on_lists (list_empty head);
  if (e : bool) then mret 0 else
  rq ← on_lists (get_next head);
  r ← get_rq rq;
  s ← get;
  if time_after (jiffies s) (rq_fifo_time r) then mret rq else mret 0.
End fifo_shared.

(** The value a [STORE_FUNCTION] writes for the number [data]. *)
Definition store_value (MIN MAX data : Z) (conv : bool) : Z :=
  let data := if data <? MIN then MIN else if data >? MAX then MAX else data in
  if conv then s32 (Time.msecs_to_jiffies (u32 data)) else data.

Section fifo_lemmas.
Context {D : Type}.
Implicit Types (s : elv D) (L : heads) (x h : Z) (r : request) (l : list Z).

Definition first_expired s l : Z :=
  match l with
  | [] => 0
  | x :: _ => match rqs s !! x with
              | Some r => if time_after (jiffies s) (rq_fifo_time r) then x else 0
              | None => 0
              end
  end.

Lemma first_expired_hd s l : first_expired s l = 0 \/ exists l', l = first_expired s l :: l'.
Proof.
  destruct l as [|x l]; [by left|]. cbn. destruct (rqs s !! x); [|by left].
  destruct (time_after _ _); [right; by exists l|by left].
Qed.
Lemma first_expired_cases s l : first_expired s l = 0 \/ first_expired s l ∈ l.
Proof. destruct (first_expired_hd s l) as [?|[l' E]]; [by left|right]. rewrite E at 2. set_solver +. Qed.

Lemma fifo_expired_run s L h l :
  lrep (lists s) L -> L !! h = Some l -> (forall x, x ∈ l -> is_Some (rqs s !! x)) ->
  fifo_expired h s = Some (first_expired s l, s).
Proof.
  intros Hl E Hst. unfold fifo_expired.
  erewrite bind_run by (apply on_lists_read; by eapply heap_list_empty).
  destruct l as [|x l]; [done|]. rewrite bool_decide_false by done.
  erewrite bind_run by (apply on_lists_read; by erewrite heap_get_next by done).
  destruct (Hst x) as [r Hr]; [set_solver +|]. erewrite bind_run by (by apply get_rq_run).
  erewrite bind_run by done. cbn. rewrite Hr. by destruct (time_after _ _).
Qed.

(** The state after [rq_fifo_clear]. *)
Definition cleared x r m s : elv D := upd_rqs <[x := set_csd_list (ListHead x x) r]> (with_lists m s).

Lemma rq_fifo_clear_run s L h l1 x l2 r :
  lrep (lists s) L -> L !! h = Some (l1 ++ x :: l2) -> rqs s !! x = Some r ->
  exists m, rq_fifo_clear x s = Some (tt, cleared x r m s) /\ lrep m (<[x := []]> (<[h := l1 ++ l2]> L)).
Proof.
  intros Hl E Hr. destruct (heap_del_init _ _ _ _ _ _ Hl E) as (m & Hm & Hl').
  exists m. split; [|done]. unfold rq_fifo_clear. erewrite bind_run by (by apply on_lists_run).
  by apply set_rq_run.
Qed.

Lemma rq_fifo_clear_idle s L x r :
  lrep (lists s) L -> L !! x = Some [] -> rqs s !! x = Some r ->
  exists m, rq_fifo_clear x s = Some (tt, cleared x r m s) /\ lrep m L.
Proof.
  intros Hl E Hr. destruct (heap_del_init_idle _ _ _ Hl E) as (m & Hm & Hl').
  exists m. split; [|done]. unfold rq_fifo_clear. erewrite bind_run by (by apply on_lists_run).
  by apply set_rq_run.
Qed.

(** Writing a request without touching its hash link and its last sector. *)
Lemma hash_ok_keep s x r r' : hash_ok s -> rqs s !! x = Some r -> rq_hash r' = rq_hash r ->
  rq_hash_key r' = rq_hash_key r -> hash_ok (upd_rqs <[x := r']> s).
Proof.
  intros [[Hb Hn] Hk] H E1 E2. split; [split|].
  - intros b y. cbn. rewrite Hb. unfold linked. cbn. destruct (decide (y = x)) as [->|Hne].
    + rewrite lookup_insert_eq. split; intros (r0 & ? & ?); simplify_eq; eexists; (split; [done|congruence]).
    + by rewrite lookup_insert_ne.
  - done.
  - intros y r0 b. cbn. destruct (decide (y = x)) as [->|Hne].
    + rewrite lookup_insert_eq. intros [= <-]. rewrite E1, E2. by apply (Hk x r).
    + rewrite lookup_insert_ne by done. apply Hk.
Qed.
Lemma hash_ok_csd s x r v : hash_ok s -> rqs s !! x = Some r -> hash_ok (upd_rqs <[x := set_csd_list v r]> s).
Proof. intros Hh H. by eapply hash_ok_keep. Qed.

Lemma hash_ok_lists s m : hash_ok s -> hash_ok (with_lists m s).
Proof. by apply hash_ok_ext. Qed.
Lemma hash_ok_data s f : hash_ok s -> hash_ok (upd_data f s).
Proof. by apply hash_ok_ext. Qed.

(** The state after [rq] took the place and the deadline of [next]. *)
Definition moved rq r n m s : elv D :=
  upd_rqs <[rq := set_csd_list (ListHead (rq_fifo_time n) (lh_prev (csd_list r))) r]> (with_lists m s).

Lemma fifo_merge_run s L h1 l1 rq l2 h2 k1 next k2 r n :
  lrep (lists s) L -> L !! h1 = Some (l1 ++ rq :: l2) ->
  <[h1 := l1 ++ l2]> L !! h2 = Some (k1 ++ next :: k2) ->
  rqs s !! rq = Some r -> rqs s !! next = Some n ->
  if time_before (rq_fifo_time n) (rq_fifo_time r) then
    exists m, fifo_merge rq next s = Some (tt, moved rq r n m s) /\
      lrep m (<[h2 := k1 ++ next :: rq :: k2]> (<[h1 := l1 ++ l2]> L))
  else fifo_merge rq next s = Some (tt, s).
Proof.
  intros Hl E1 E2 Hr Hn.
  assert (exists h l l', L !! h = Some (l ++ next :: l')) as (h & l & l' & E3).
  { apply lookup_insert_Some in E2 as [[-> E2]|[_ E2]]; [|eauto].
    assert (next ∈ l1 ++ rq :: l2) as (l & l' & E)%list_elem_of_split.
    { assert (next ∈ l1 ++ l2) as Hin by (rewrite E2; set_solver +). set_solver +Hin. }
    exists h2, l, l'. by rewrite E1, E. }
  assert (fifo_merge rq next s = (if time_before (rq_fifo_time n) (rq_fifo_time r) then
    on_lists (list_move rq next) ;; rq_set_fifo_time rq (rq_fifo_time n) else mret tt) s) as ->.
  { unfold fifo_merge. erewrite bind_run by (apply on_lists_read; by eapply heap_list_empty_entry).
    cbn match. erewrite bind_run by (apply on_lists_read; by eapply heap_list_empty_entry).
    cbn match. erewrite bind_run by (by apply get_rq_run). by erewrite bind_run by (by apply get_rq_run). }
  destruct (time_before _ _); [|done].
  destruct (heap_move (lists s) L h1 l1 l2 h2 (k1 ++ [next]) k2 (h2 :: k1) rq next) as (m & Hm & Hl');
    [done|done|by rewrite <-app_assoc|done|].
  exists m. rewrite <-app_assoc in Hl'. split; [|done].
  erewrite bind_run by (by apply on_lists_run).
  by apply (set_rq_run (with_lists m s) rq r (λ r, set_csd_list (ListHead (rq_fifo_time n) (lh_prev (csd_list r))) r)).
Qed.
End fifo_lemmas.

(** ** Concrete states *)
Definition demo_rq (sector flags fifo_time : Z) : request :=
  Rq sector 4096 flags REQ_TYPE_FS (ListHead fifo_time 0) None 1 0 flags.
Definition demo_queue (head nr : Z) : request_queue :=
  Queue head 0 0 0 nr ∅ 0 0 0 0 0 0 0 0 0 0 0 4 3 None false.

(** The list memory that holds the lists [L]. *)
Definition ring (h : Z) (l : list Z) : list (Z * list_head) :=
  zip (h :: l) (zip_with ListHead (l ++ [h]) (lastd h l :: h :: l)).
Definition demo_lists (L : list (Z * list Z)) : mem :=
  list_to_map (concat ((λ p, ring p.1 p.2) <$> L)).

(** Two reads queued for dispatch at sectors 10 and 30, a third at sector 20. *)
Definition demo_heads : heads := {[ 300 := [4; 8]; 12 := [] ]}.
Definition demo_elv : elv unit :=
  Elv {[ 4 := demo_rq 10 0 0; 8 := demo_rq 30 0 0; 12 := demo_rq 20 0 0 ]}
    (demo_lists [(300, [4; 8]); (12, [])]) (demo_queue 300 1) tt 0.

Lemma demo_elv_core : core demo_elv demo_heads.
Proof.
  split; [apply lrep_check_ok; vm_compute; reflexivity|].
  apply hash_ok_empty; [reflexivity|]. apply (bool_decide_unpack _). vm_compute. exact I.
Qed.

Lemma elv_dispatch_sort_witness :
  exists s' e1 e2, elv_dispatch_sort 12 demo_elv = Some (tt, s') /\ dispatched demo_elv s' 12 (demo_rq 20 0 0) /\
    [4; 8] = e1 ++ e2 /\ core s' (<[300 := e1 ++ 12 :: e2]> (delete 12 demo_heads)).
Proof.
  destruct (elv_dispatch_sort_correct demo_elv demo_heads 12 (demo_rq 20 0 0) [4; 8])
    as (s' & e1 & e2 & H1 & H2 & H3 & H4 & _).
  - exact demo_elv_core.
  - vm_compute. reflexivity.
  - vm_compute. reflexivity.
  - vm_compute. discriminate.
  - vm_compute. reflexivity.
  - intros y Hy. rewrite !elem_of_cons in Hy. destruct Hy as [->|[->|Hy]]; [eexists; reflexivity..|].
    set_solver +Hy.
  - exists s', e1, e2. split_and!; [exact H1|exact H2|exact H3|exact H4].
Defined.

Lemma elv_rqhash_find_witness :
  exists x s', elv_rqhash_find 18 demo_elv = Some (x, s') /\ hash_ok s' /\
    (forall y r, rqs demo_elv !! y = Some r -> rq_mergeable r = true -> rqs s' !! y = Some r) /\
    (candidate s' 18 x \/ (x = 0 /\ forall y, ~ candidate demo_elv 18 y)).
Proof. exact (elv_rqhash_find_correct demo_elv 18 (core_hash _ _ demo_elv_core)). Defined.
