(* ===== verification/Scheduler.v ===== *)
(** * What the elevator relies on in an I/O scheduler

    block/elevator.c calls a scheduler through [struct elevator_ops].  The class
    [IOSched] states what it relies on: [ok s L pend] says that the scheduler is
    in a consistent state with the requests [pend] pending; dispatching takes
    exactly one pending request to the dispatch queue until none is left, and
    adding a request makes it pending and loses none.  The theorems of this file
    are proved against the class; each scheduler file has its instance. *)
From stdpp Require Import prelude gmap list sorting.
From Stdlib Require Import ZArith Lia.
From S2P Require Import Prelude ListHead ListHeap Rbtree SectorTree Elevator.
Open Scope Z_scope.

(** [nr_sorted] minus the number of pending requests. *)
Definition excess {D} (s : elv D) (pend : list Z) : Z := u32 (nr_sorted (queue s) - Z.of_nat (length pend)).

(** The one-hit merge cache holds a pending request or nothing. *)
Definition cache_ok {D} (s : elv D) (pend : list Z) : Prop :=
  last_merge (queue s) = 0 \/ last_merge (queue s) ∈ pend.

Section accounting.
Context {D : Type}.
Implicit Types (s : elv D).

Lemma sent_excess s s' x pend pend' : nr_sorted (queue s') = u32 (nr_sorted (queue s) - 1) ->
  pend ≡ₚ x :: pend' -> excess s' pend' = excess s pend.
Proof.
  intros En Hp. unfold excess. rewrite En, Hp, u32_sub_l. cbn [length]. f_equal. lia.
Qed.
Lemma sent_cache s s' x pend pend' :
  last_merge (queue s') = (if last_merge (queue s) =? x then 0 else last_merge (queue s)) ->
  pend ≡ₚ x :: pend' -> cache_ok s pend -> cache_ok s' pend'.
Proof.
  unfold cache_ok. intros -> Hp. rewrite Hp. destruct (Z.eqb_spec (last_merge (queue s)) x); [by left|].
  rewrite elem_of_cons. tauto.
Qed.

(** What adding [x] to the tree did: nothing else, or the request [y] of the same
    sector went to the dispatch queue. *)
Definition added s s' (x : Z) (pend d pend' d' : list Z) : Prop :=
  (queue s' = queue s /\ d' = d /\ pend' ≡ₚ x :: pend) \/
  (exists y rest, nr_sorted (queue s') = u32 (nr_sorted (queue s) - 1) /\
    last_merge (queue s') = (if last_merge (queue s) =? y then 0 else last_merge (queue s)) /\
    d' = d ++ [y] /\ pend ≡ₚ y :: rest /\ pend' ≡ₚ x :: rest).

Lemma added_acc s s' x pend d pend' d' : added s s' x pend d pend' d' ->
  pend' ++ d' ≡ₚ x :: pend ++ d /\ x ∈ pend' /\ excess s' pend' = u32 (excess s pend - 1) /\
  (cache_ok s (x :: pend) -> cache_ok s' pend').
Proof.
  unfold added, excess, cache_ok. intros [(-> & -> & Hp)|(y & rest & -> & -> & -> & Hp & Hp')].
  - rewrite Hp, u32_sub_l. split_and!; [done|set_solver +|cbn [length]; f_equal; lia|done].
  - rewrite Hp, Hp', !u32_sub_l. split_and!; [solve_Permutation|set_solver +|cbn [length]; f_equal; lia|].
    destruct (Z.eqb_spec (last_merge (queue s)) y); [by left|]. set_solver.
Qed.
End accounting.

(** What taking the request [x] off the scheduler and onto the dispatch queue
    does to the requests and the queue. *)
Record sent {D} (s s' : elv D) (x : Z) : Prop := {
  sn_rqs : forall y, y <> x -> rqs s' !! y = rqs s !! y;
  sn_kept : is_Some (rqs s' !! x);
  sn_jiffies : jiffies s' = jiffies s;
  sn_head : queue_head (queue s') = queue_head (queue s);
  sn_nr : nr_sorted (queue s') = u32 (nr_sorted (queue s) - 1);
  sn_last : last_merge (queue s') = if last_merge (queue s) =? x then 0 else last_merge (queue s);
}.

Class IOSched {D : Type} (ops : elevator_ops D) (ok : elv D -> heads -> list Z -> Prop) : Prop := {
  sched_core s L pend : ok s L pend -> core s L;
  sched_head s L pend : ok s L pend -> is_Some (L !! queue_head (queue s));
  sched_nodup s L pend : ok s L pend -> NoDup pend;
  sched_stored s L pend x : ok s L pend -> x ∈ pend -> is_Some (rqs s !! x);
  (** [elv_insert] writes the merge hash, [nr_sorted], [last_merge] and the
      flags of a request that is on no list before it adds the request. *)
  sched_frame s s' L pend x r : ok s L pend -> rqs s !! x = Some r -> x ∉ pend ->
    (exists r', rqs s' = <[x := r']> (rqs s)) -> hash_ok s' -> lists s' = lists s ->
    queue_head (queue s') = queue_head (queue s) -> elevator_data s' = elevator_data s ->
    jiffies s' = jiffies s -> ok s' L pend;
  sched_none s L force : ok s L [] ->
    exists s', elevator_dispatch_fn ops force s = Some (0, s') /\ ok s' L [] /\ queue s' = queue s;
  sched_some s L pend d force : ok s L pend -> pend <> [] -> L !! queue_head (queue s) = Some d ->
    exists x pend' d1 d2 s' L', elevator_dispatch_fn ops force s = Some (1, s') /\ ok s' L' pend' /\
      pend ≡ₚ x :: pend' /\ d = d1 ++ d2 /\ queue_head (queue s') = queue_head (queue s) /\
      L' !! queue_head (queue s) = Some (d1 ++ x :: d2) /\
      excess s' pend' = excess s pend /\ (cache_ok s pend -> cache_ok s' pend');
  sched_add s L pend d x r : ok s L pend -> L !! queue_head (queue s) = Some d -> L !! x = Some [] ->
    x ∉ pend -> x <> queue_head (queue s) -> valid x -> rqs s !! x = Some r ->
    exists pend' d' s' L', elevator_add_req_fn ops x s = Some (tt, s') /\ ok s' L' pend' /\
      queue_head (queue s') = queue_head (queue s) /\ L' !! queue_head (queue s) = Some d' /\
      pend' ++ d' ≡ₚ x :: pend ++ d /\ x ∈ pend' /\
      excess s' pend' = u32 (excess s pend - 1) /\ (cache_ok s (x :: pend) -> cache_ok s' pend');
}.

Section generic.
Context {D : Type} (ops : elevator_ops D) (ok : elv D -> heads -> list Z -> Prop) {sched : IOSched ops ok}.
Implicit Types (s : elv D) (L : heads) (pend d : list Z).

Lemma excess_0 s : excess s [] = 0 -> u32 (nr_sorted (queue s)) = 0.
Proof. unfold excess. cbn. by rewrite Z.sub_0_r. Qed.

(** The forced dispatch of [elv_drain_elevator] empties the scheduler. *)
Lemma elv_drain_loop_run fuel s L pend d :
  ok s L pend -> L !! queue_head (queue s) = Some d -> (length pend < fuel)%nat ->
  exists s' L' d', elv_drain_loop ops fuel s = Some (tt, s') /\ ok s' L' [] /\
    queue_head (queue s') = queue_head (queue s) /\ L' !! queue_head (queue s) = Some d' /\
    d' ≡ₚ d ++ pend /\ excess s' [] = excess s pend /\ (cache_ok s pend -> cache_ok s' []).
Proof.
  revert s L pend d. induction fuel as [|fuel IH]; intros s L pend d Hok Hd Hf; [lia|].
  cbn [elv_drain_loop]. destruct (decide (pend = [])) as [->|Hne].
  - destruct (sched_none s L 1 Hok) as (s' & Hrun & Hok' & Eq). exists s', L, d.
    erewrite bind_run by done. unfold excess, cache_ok. rewrite Eq, app_nil_r. done.
  - destruct (sched_some s L pend d 1 Hok Hne Hd)
      as (x & pend' & d1 & d2 & s1 & L1 & Hrun & Hok1 & Hp & -> & Eh & Hd1 & He & Hl).
    destruct (IH s1 L1 pend' (d1 ++ x :: d2)) as (s' & L' & d' & Hr' & Hok' & Eh' & Hd' & Hpd & He' & Hl').
    { done. } { by rewrite Eh. } { rewrite Hp in Hf. cbn in Hf. lia. }
    exists s', L', d'. split_and!.
    + by erewrite bind_run by done.
    + done.
    + by rewrite Eh', Eh.
    + by rewrite Eh in Hd'.
    + rewrite Hpd, Hp. solve_Permutation.
    + by rewrite He', He.
    + auto.
Qed.

Lemma pending_size s L pend : ok s L pend -> (length pend <= size (rqs s))%nat.
Proof.
  intros Hok. rewrite <-(size_dom (rqs s)), <-(size_list_to_set (C:=gset Z)) by by eapply sched_nodup.
  apply subseteq_size. intros q Hq%elem_of_list_to_set. apply elem_of_dom. by eapply sched_stored.
Qed.

(** What [ELEVATOR_INSERT_SORT] does before it calls the scheduler. *)
Lemma insert_sort_prefix s L pend x r :
  ok s L pend -> x ∉ pend -> rqs s !! x = Some r -> rq_hash r = None ->
  blk_fs_request r || negb (blk_discard_rq r =? 0) = true ->
  exists s1 r1, insert_sort ops x s = elevator_add_req_fn ops x s1 /\ ok s1 L pend /\
    rqs s1 !! x = Some r1 /\ queue_head (queue s1) = queue_head (queue s) /\
    nr_sorted (queue s1) = u32 (nr_sorted (queue s) + 1) /\
    (last_merge (queue s1) = last_merge (queue s) \/ last_merge (queue s1) = x).
Proof.
  intros Hok Hxp H Eh Hfs.
  set (r1 := set_cmd_flags (Z.lor (cmd_flags r) REQ_SORTED) r).
  set (s1 := upd_queue (λ q, set_nr_sorted (u32 (nr_sorted q + 1)) q) (upd_rqs <[x := r1]> s)).
  assert (hash_ok s1) as Hh1.
  { eapply hash_ok_ext; [| |eapply (hash_ok_write s x r r1); try done]; [done..|].
    by eapply core_hash, sched_core. }
  assert (insert_sort ops x s = ((if rq_mergeable r1 then
     elv_rqhash_add x ;; q ← get_q; if last_merge q =? 0 then set_q (set_last_merge x) else mret tt
     else mret tt) ;; elevator_add_req_fn ops x) s1) as ->.
  { unfold insert_sort, or_cmd_flags. erewrite bind_run by (by apply get_rq_run).
    assert (negb (blk_fs_request r) && (blk_discard_rq r =? 0) = false) as ->
      by (by destruct (blk_fs_request r), (blk_discard_rq r =? 0)).
    erewrite bind_run by done. erewrite bind_run by (by apply set_rq_run). erewrite bind_run by done.
    erewrite bind_run. 2:{ apply get_rq_run. cbn. by rewrite lookup_insert_eq. } done. }
  assert (rqs s1 !! x = Some r1) as H1 by (cbn; by rewrite lookup_insert_eq).
  destruct (rq_mergeable r1).
  2:{ exists s1, r1. split_and!; [by erewrite bind_run by done| |done|done|done|by left].
      eapply (sched_frame s s1); try done. by exists r1. }
  set (s2 := dohash x r1 s1).
  assert (hash_ok s2) as Hh2 by (by apply dohash_ok).
  assert (rqs s2 !! x = Some (set_rq_hash (Some (ELV_HASH_FN (rq_hash_key r1))) r1)) as H2
    by (cbn; by rewrite lookup_insert_eq).
  set (s3 := if last_merge (queue s2) =? 0 then upd_queue (set_last_merge x) s2 else s2).
  assert (rqs s3 = rqs s2 /\ hash (queue s3) = hash (queue s2) /\ lists s3 = lists s /\
    queue_head (queue s3) = queue_head (queue s) /\ elevator_data s3 = elevator_data s /\
    jiffies s3 = jiffies s /\ nr_sorted (queue s3) = u32 (nr_sorted (queue s) + 1) /\
    (last_merge (queue s3) = last_merge (queue s) \/ last_merge (queue s3) = x))
    as (E1 & E2 & E3 & E4 & E5 & E6 & E7 & E8).
  { unfold s3. destruct (last_merge (queue s2) =? 0); split_and!; try done; [by right|by left]. }
  exists s3, (set_rq_hash (Some (ELV_HASH_FN (rq_hash_key r1))) r1). split_and!; try done.
  - erewrite bind_run; [done|]. erewrite bind_run by (by apply elv_rqhash_add_run).
    fold s2. erewrite bind_run by done. unfold s3. by destruct (last_merge (queue s2) =? 0).
  - eapply (sched_frame s s3); try done; [|by eapply hash_ok_ext].
    eexists. rewrite E1. unfold s2, s1. cbn. by rewrite insert_insert_eq.
  - by rewrite E1.
Qed.
End generic.

(** C31: [elv_drain_elevator] terminates for every scheduler that meets [IOSched]:
    it moves every pending request to the dispatch queue, loses and duplicates
    none, and leaves [nr_sorted] at 0 when it counted the pending requests
    before, so the "forced dispatching is broken" message is not printed; the
    merge cache no longer refers to any request. *)
Theorem elv_drain_elevator_correct {D} (ops : elevator_ops D) ok `{!IOSched ops ok} s L pend d :
  ok s L pend -> L !! queue_head (queue s) = Some d -> excess s pend = 0 -> cache_ok s pend ->
  exists s' L' d', elv_drain_elevator ops s = Some (tt, s') /\ ok s' L' [] /\
    L' !! queue_head (queue s') = Some d' /\ d' ≡ₚ d ++ pend /\
    u32 (nr_sorted (queue s')) = 0 /\ last_merge (queue s') = 0.
Proof.
  intros Hok Hd He Hc. unfold elv_drain_elevator. erewrite bind_run by done.
  destruct (elv_drain_loop_run ops ok (S (size (rqs s))) s L pend d)
    as (s' & L' & d' & Hr & Hok' & Eh & Hd' & Hp & He' & Hl); [done..| |].
  { pose proof (pending_size ops ok s L pend Hok). lia. }
  exists s', L', d'. split_and!; [done|done|by rewrite Eh|done|..].
  - apply excess_0. congruence.
  - destruct (Hl Hc) as [?|Hx]; [done|set_solver +Hx].
Qed.

(** inserting a request with [ELEVATOR_INSERT_SORT] succeeds for every
    scheduler that meets [IOSched]: the request becomes pending, every request
    that was pending or queued for dispatch still is, [nr_sorted] counts the
    pending requests and the merge cache holds one of them or nothing. *)
Theorem insert_sort_correct {D} (ops : elevator_ops D) ok `{!IOSched ops ok} s L pend d x r :
  ok s L pend -> L !! queue_head (queue s) = Some d -> L !! x = Some [] -> x ∉ pend ->
  x <> queue_head (queue s) -> valid x -> rqs s !! x = Some r -> rq_hash r = None ->
  blk_fs_request r || negb (blk_discard_rq r =? 0) = true ->
  excess s pend = 0 -> cache_ok s pend ->
  exists s' L' pend' d', insert_sort ops x s = Some (tt, s') /\ ok s' L' pend' /\
    L' !! queue_head (queue s') = Some d' /\ pend' ++ d' ≡ₚ x :: pend ++ d /\ x ∈ pend' /\
    excess s' pend' = 0 /\ cache_ok s' pend'.
Proof.
  intros Hok Hd Hx Hxq Hne Hv H Eh Hfs He Hc.
  destruct (insert_sort_prefix ops ok s L pend x r) as (s1 & r1 & -> & Hok1 & H1 & Eq & En & Elm); [done..|].
  destruct (sched_add s1 L pend d x r1) as (pend' & d' & s' & L' & Hrun & Hok' & Eq' & Hd' & Hp & Hxp & He' & Hc');
    rewrite ?Eq; try done.
  exists s', L', pend', d'. split_and!; try done.
  - by rewrite Eq'.
  - rewrite He'. unfold excess in *. rewrite En, u32_sub_l, <-Z.sub_add_distr, u32_sub_l, <-He.
    f_equal. lia.
  - apply Hc'. unfold cache_ok in *. destruct Elm as [->|Elm]; set_solver.
Qed.

(** ** Two fifos and a dispatch queue *)
(** The list part of the invariant of the schedulers that also keep a sorted
    tree: the fifos at [h0] and [h1] hold [l0] and [l1]. *)
Record fifos {D} (s : elv D) (L : heads) (h0 h1 : Z) (l0 l1 : list Z) : Prop := {
  ff_core : core s L;
  ff_0 : L !! h0 = Some l0;
  ff_1 : L !! h1 = Some l1;
  ff_q : is_Some (L !! queue_head (queue s));
  ff_ne : h0 <> h1;
  ff_n0 : h0 <> queue_head (queue s);
  ff_n1 : h1 <> queue_head (queue s);
  ff_s0 : rqs s !! h0 = None;
  ff_s1 : rqs s !! h1 = None;
  ff_sq : rqs s !! queue_head (queue s) = None;
}.

Definition rem (x : Z) (l : list Z) : list Z := filter (λ y, y <> x) l.

Section fifos.
Context {D : Type}.
Implicit Types (s : elv D) (L : heads) (x h : Z) (l : list Z).

Lemma rem_notin x l : x ∉ l -> rem x l = l.
Proof.
  intros Hx. unfold rem. induction l as [|y l IH]; [done|].
  rewrite filter_cons, decide_True by set_solver +Hx. f_equal. apply IH. set_solver +Hx.
Qed.
Lemma rem_mid x l1 l2 : x ∉ l1 -> x ∉ l2 -> rem x (l1 ++ x :: l2) = l1 ++ l2.
Proof.
  intros H1 H2. unfold rem. rewrite filter_app, filter_cons, decide_False by auto.
  fold (rem x l1) (rem x l2). by rewrite !rem_notin.
Qed.
Lemma elem_of_rem x y l : y ∈ rem x l <-> y <> x /\ y ∈ l.
Proof. unfold rem. by rewrite list_elem_of_filter. Qed.

Lemma fifos_data s L h0 h1 l0 l1 f : fifos s L h0 h1 l0 l1 -> fifos (upd_data f s) L h0 h1 l0 l1.
Proof. intros [[Hl Hh] ? ? ? ? ? ? ? ? ?]. split; try done. split; [done|]. by apply hash_ok_data. Qed.

Lemma fifos_frame s s' L h0 h1 l0 l1 x r : fifos s L h0 h1 l0 l1 -> rqs s !! x = Some r ->
  (exists r', rqs s' = <[x := r']> (rqs s)) -> hash_ok s' -> lists s' = lists s ->
  queue_head (queue s') = queue_head (queue s) -> fifos s' L h0 h1 l0 l1.
Proof.
  intros [[Hl Hh] ? ? ? ? ? ? ? ? ?] Hr [r' Er] Hh' El Eq.
  split; rewrite ?Eq; try done; try (rewrite Er, lookup_insert_ne; [done|]; intros ->; congruence).
  split; [by rewrite El|done].
Qed.

(** A stored request is not one of the list heads. *)
Lemma fifos_stored s L h0 h1 l0 l1 x : fifos s L h0 h1 l0 l1 -> is_Some (rqs s !! x) ->
  x <> h0 /\ x <> h1 /\ x <> queue_head (queue s).
Proof. intros [_ _ _ _ _ _ _ S0 S1 Sq] [r Hr]. split_and!; intros ->; congruence. Qed.

Lemma fifos_nodup s L h0 h1 l0 l1 : fifos s L h0 h1 l0 l1 -> NoDup (l0 ++ l1).
Proof.
  intros [[Hl _] Ha Hs _ Hn _ _ _ _ _]. apply NoDup_app. split_and!.
  - pose proof (lrep_nodup _ _ _ _ Hl Ha) as H. by apply NoDup_cons in H as [_ ?].
  - intros x Hx Hx'. apply Hn. eapply (lr_disj _ _ Hl); by eapply own_entry.
  - pose proof (lrep_nodup _ _ _ _ Hl Hs) as H. by apply NoDup_cons in H as [_ ?].
Qed.

Lemma fifos_linked s L h0 h1 l0 l1 x : fifos s L h0 h1 l0 l1 -> x ∈ l0 ++ l1 -> L !! x = None.
Proof.
  intros [[Hl _] Ha Hs _ _ _ _ _ _ _] Hx. destruct (L !! x) as [l|] eqn:E; [exfalso|done].
  apply elem_of_app in Hx as [Hx|Hx];
    [exact (lrep_entry_ne _ _ _ _ _ _ Hl Ha Hx E)|exact (lrep_entry_ne _ _ _ _ _ _ Hl Hs Hx E)].
Qed.

Lemma fifos_cleared s L L' h0 h1 l0 l1 k0 k1 x r m :
  fifos s L h0 h1 l0 l1 -> rqs s !! x = Some r -> lrep m L' ->
  L' !! h0 = Some k0 -> L' !! h1 = Some k1 -> L' !! queue_head (queue s) = L !! queue_head (queue s) ->
  fifos (cleared x r m s) L' h0 h1 k0 k1.
Proof.
  intros Hf Hr Hl' E0 E1 Eq. destruct (fifos_stored _ _ _ _ _ _ _ Hf (mk_is_Some _ _ Hr)) as (N0 & N1 & Nq).
  destruct Hf as [[Hl Hh] F0 F1 Fq ? ? ? ? ? ?].
  split; cbn; rewrite ?lookup_insert_ne by done; try done.
  - split; [done|]. apply (hash_ok_csd (with_lists m s) x r); [by apply hash_ok_lists|done].
  - by rewrite Eq.
Qed.

(** [rq_fifo_clear] of a request that is on one of the fifos or on no list. *)
Lemma fifos_clear s L h0 h1 l0 l1 x r : fifos s L h0 h1 l0 l1 -> rqs s !! x = Some r ->
  x ∈ l0 ++ l1 \/ L !! x = Some [] ->
  exists m L', rq_fifo_clear x s = Some (tt, cleared x r m s) /\
    fifos (cleared x r m s) L' h0 h1 (rem x l0) (rem x l1) /\ L' !! x = Some [] /\
    L' !! queue_head (queue s) = L !! queue_head (queue s) /\
    (forall y, is_Some (rqs s !! y) -> y <> x -> L' !! y = L !! y).
Proof.
  intros Hf Hr Hx. pose proof (fifos_nodup _ _ _ _ _ _ Hf) as Hnd.
  destruct (fifos_stored _ _ _ _ _ _ _ Hf (mk_is_Some _ _ Hr)) as (N0 & N1 & Nq).
  pose proof Hf as [[Hl Hh] F0 F1 Fq Fn Fn0 Fn1 _ _ _].
  assert (forall y, is_Some (rqs s !! y) -> y <> h0 /\ y <> h1 /\ y <> queue_head (queue s)) as Hst
    by (intros y Hy; by eapply fifos_stored).
  destruct Hx as [[Hx|Hx]%elem_of_app|Hx].
  - destruct (list_elem_of_split _ _ Hx) as (k1 & k2 & ->).
    destruct (rq_fifo_clear_run s L h0 k1 x k2 r Hl F0 Hr) as (m & Hrun & Hl').
    apply NoDup_app in Hnd as (Hn0 & Hd & _).
    apply NoDup_app in Hn0 as (_ & Hk & Hn0). apply NoDup_cons in Hn0 as [Hk2 _].
    rewrite rem_mid; [|intros H; apply (Hk x H); set_solver +|done].
    rewrite (rem_notin x l1) by (apply Hd; set_solver +).
    exists m, (<[x := []]> (<[h0 := k1 ++ k2]> L)). split_and!; [done|..].
    + eapply fifos_cleared; try done; by heads_lookup.
    + by heads_lookup. + by heads_lookup.
    + intros y (? & ? & ?)%Hst ?. by heads_lookup.
  - destruct (list_elem_of_split _ _ Hx) as (k1 & k2 & ->).
    destruct (rq_fifo_clear_run s L h1 k1 x k2 r Hl F1 Hr) as (m & Hrun & Hl').
    apply NoDup_app in Hnd as (_ & Hd & Hn0).
    apply NoDup_app in Hn0 as (_ & Hk & Hn0). apply NoDup_cons in Hn0 as [Hk2 _].
    rewrite rem_mid; [|intros H; apply (Hk x H); set_solver +|done].
    rewrite (rem_notin x l0) by (intros H; apply (Hd x H); set_solver +).
    exists m, (<[x := []]> (<[h1 := k1 ++ k2]> L)). split_and!; [done|..].
    + eapply fifos_cleared; try done; by heads_lookup.
    + by heads_lookup. + by heads_lookup.
    + intros y (? & ? & ?)%Hst ?. by heads_lookup.
  - destruct (rq_fifo_clear_idle s L x r Hl Hx Hr) as (m & Hrun & Hl').
    assert (x ∉ l0 ++ l1) as Hni by (intros Hin; pose proof (fifos_linked _ _ _ _ _ _ _ Hf Hin); congruence).
    rewrite !rem_notin by set_solver +Hni.
    exists m, L. split_and!; try done. by eapply fifos_cleared.
Qed.

(** [elv_dispatch_add_tail] of a request that is on no list. *)
Lemma fifos_dispatch s L h0 h1 l0 l1 x r d : fifos s L h0 h1 l0 l1 -> rqs s !! x = Some r ->
  L !! x = Some [] -> L !! queue_head (queue s) = Some d ->
  exists s' L', elv_dispatch_add_tail x s = Some (tt, s') /\ dispatched s s' x r /\
    fifos s' L' h0 h1 l0 l1 /\ L' !! queue_head (queue s) = Some (d ++ [x]) /\
    (forall y, is_Some (rqs s !! y) -> y <> x -> L' !! y = L !! y).
Proof.
  intros Hf Hr Hx Hd. destruct (fifos_stored _ _ _ _ _ _ _ Hf (mk_is_Some _ _ Hr)) as (N0 & N1 & Nq).
  pose proof Hf as [Hc F0 F1 Fq Fn Fn0 Fn1 S0 S1 Sq].
  destruct (elv_dispatch_add_tail_run s L x r d Hc Hd Hx Nq Hr) as (s' & Hrun & Hdi & Hc' & _).
  exists s', (<[queue_head (queue s) := d ++ [x]]> (delete x L)). split_and!; [done|done| |by heads_lookup|].
  - pose proof (d_rqs _ _ _ _ Hdi) as Er. pose proof (d_head _ _ _ _ Hdi) as Eq.
    split; [exact Hc'|..]; rewrite ?Eq; try done; try (by heads_lookup); rewrite Er; by heads_lookup.
  - intros y Hy Hyx. destruct (fifos_stored _ _ _ _ _ _ _ Hf Hy) as (? & ? & ?). by heads_lookup.
Qed.

(** The statement that sets the deadline and appends to a fifo. *)
Lemma fifos_append s L h0 h1 l0 l1 x r (b : bool) exp : fifos s L h0 h1 l0 l1 -> rqs s !! x = Some r ->
  L !! x = Some [] ->
  exists s' L', (rq_set_fifo_time x exp ;; on_lists (list_add_tail x (if b then h1 else h0))) s = Some (tt, s') /\
    fifos s' L' h0 h1 (if b then l0 else l0 ++ [x]) (if b then l1 ++ [x] else l1) /\
    L' !! queue_head (queue s) = L !! queue_head (queue s) /\
    (forall y, is_Some (rqs s !! y) -> y <> x -> L' !! y = L !! y) /\
    rqs s' = <[x := set_csd_list (ListHead exp (lh_prev (csd_list r))) r]> (rqs s) /\
    queue s' = queue s /\ elevator_data s' = elevator_data s /\ jiffies s' = jiffies s.
Proof.
  intros Hf Hr Hx. destruct (fifos_stored _ _ _ _ _ _ _ Hf (mk_is_Some _ _ Hr)) as (N0 & N1 & Nq).
  pose proof Hf as [[Hl Hh] F0 F1 Fq Fn Fn0 Fn1 S0 S1 Sq].
  set (h := if b then h1 else h0). set (l := if b then l1 else l0).
  assert (L !! h = Some l) as El by (unfold h, l; by destruct b).
  assert (x <> h) as Hxh by (unfold h; by destruct b).
  assert (h <> queue_head (queue s)) as Hhq by (unfold h; by destruct b).
  destruct (heap_add_tail _ _ _ _ _ Hl El Hx Hxh) as (m & Hadd & Hl').
  set (s1 := upd_rqs <[x := set_csd_list (ListHead exp (lh_prev (csd_list r))) r]> s).
  exists (with_lists m s1), (<[h := l ++ [x]]> (delete x L)). split_and!; try done.
  - erewrite bind_run by (by apply (set_rq_run s x r (λ r, set_csd_list (ListHead exp (lh_prev (csd_list r))) r))).
    by apply on_lists_run.
  - assert (hash_ok (with_lists m s1)) by (by apply hash_ok_lists, hash_ok_csd).
    unfold h, l in *. destruct b; split; cbn; try done; try (by heads_lookup).
  - by heads_lookup.
  - intros y Hy Hyx. destruct (fifos_stored _ _ _ _ _ _ _ Hf Hy) as (? & ? & ?).
    unfold h in *. destruct b; by heads_lookup.
Qed.

(** Merging the neighbouring request [next] of the same fifo into [rq]. *)
Lemma fifos_merge s L h0 h1 l0 l1 (b : bool) k1 rq k2 j1 next j2 r n : fifos s L h0 h1 l0 l1 ->
  (if b then l1 else l0) = k1 ++ rq :: k2 -> k1 ++ k2 = j1 ++ next :: j2 ->
  rqs s !! rq = Some r -> rqs s !! next = Some n ->
  let first := time_before (rq_fifo_time n) (rq_fifo_time r) in
  let v := if first then j1 ++ next :: rq :: j2 else k1 ++ rq :: k2 in
  exists s' L' cl, fifo_merge rq next s = Some (tt, s') /\
    fifos s' L' h0 h1 (if b then l0 else v) (if b then v else l1) /\
    L' !! queue_head (queue s) = L !! queue_head (queue s) /\
    (forall y, is_Some (rqs s !! y) -> L' !! y = L !! y) /\
    rqs s' = <[rq := set_csd_list cl r]> (rqs s) /\ lh_next cl = (if first then rq_fifo_time n else rq_fifo_time r) /\
    queue s' = queue s /\ elevator_data s' = elevator_data s /\ jiffies s' = jiffies s.
Proof.
  intros Hf E1 E2 Hr Hn first v.
  assert (forall y, is_Some (rqs s !! y) -> y <> h0 /\ y <> h1 /\ y <> queue_head (queue s)) as Hst
    by (intros y Hy; by eapply fifos_stored).
  destruct (Hst rq (mk_is_Some _ _ Hr)) as (N0 & N1 & Nq).
  pose proof Hf as [[Hl Hh] F0 F1 Fq Fn Fn0 Fn1 S0 S1 Sq]. set (h := if b then h1 else h0).
  assert (L !! h = Some (k1 ++ rq :: k2)) as El by (unfold h; rewrite <-E1; by destruct b).
  assert (h <> queue_head (queue s)) as Hhq by (unfold h; by destruct b).
  pose proof (fifo_merge_run s L h k1 rq k2 h j1 next j2 r n Hl El) as Hrun.
  rewrite lookup_insert_eq, E2 in Hrun. specialize (Hrun eq_refl Hr Hn). fold first in Hrun.
  destruct first eqn:Ef.
  - destruct Hrun as (m & Hrun & Hl'). rewrite insert_insert_eq in Hl'.
    exists (moved rq r n m s), (<[h := v]> L). eexists. split_and!; [exact Hrun| | | |reflexivity|done..].
    + unfold h, v in *. split; rewrite ?Ef; cbn; rewrite ?lookup_insert_ne by done; try done.
      * split; [exact Hl'|]. apply (hash_ok_csd (with_lists m s) rq r); [by apply hash_ok_lists|done].
      * destruct b; by heads_lookup.
      * destruct b; by heads_lookup.
    + by heads_lookup.
    + intros y (? & ? & ?)%Hst. unfold h. destruct b; by heads_lookup.
  - exists s, L, (csd_list r). split_and!; try done.
    + unfold v. by destruct b; rewrite <-E1.
    + rewrite insert_id; [done|]. rewrite Hr. by destruct r.
Qed.
End fifos.
