(* ===== verification/SioSched.v ===== *)
(** * The simple I/O scheduler

    block/sio-iosched.c, the default scheduler of this kernel: two fifos, one of
    synchronous and one of asynchronous requests; synchronous requests go first,
    except that after a batch of [fifo_batch] dispatches an expired request is
    served, an asynchronous one before a synchronous one. *)
From stdpp Require Import prelude gmap list.
From Stdlib Require Import ZArith Lia ZifyBool.
From S2P Require Import Prelude ListHead ListHeap Rbtree SectorTree Elevator Scheduler.
Open Scope Z_scope.

Module Sio.

Definition sync_expire : Z := HZ / 2.
Definition async_expire : Z := 5 * HZ.
Definition fifo_batch : Z := 16.

(** [fifo_list] gives the addresses of the two list heads. *)
Record sio_data := SioData {
  fifo_list_async : Z;
  fifo_list_sync : Z;
  batched : Z;               (* unsigned int *)
  fifo_expire_async : Z;
  fifo_expire_sync : Z;
  sd_fifo_batch : Z;         (* int *)
}.
Definition fifo_list (sd : sio_data) (sync : bool) : Z :=
  if sync then fifo_list_sync sd else fifo_list_async sd.
Definition fifo_expire (sd : sio_data) (sync : bool) : Z :=
  if sync then fifo_expire_sync sd else fifo_expire_async sd.
Definition set_batched (v : Z) (sd : sio_data) : sio_data :=
  SioData (fifo_list_async sd) (fifo_list_sync sd) v (fifo_expire_async sd) (fifo_expire_sync sd)
    (sd_fifo_batch sd).

Definition sio_merged_requests (rq next : Z) : M (elv sio_data) unit :=
  fifo_merge rq next ;; rq_fifo_clear next.

Definition sio_add_request (rq : Z) : M (elv sio_data) unit :=
  sd ← get_data;
  r ← get_rq rq;
  let sync := rq_is_sync r in
  s ← get;
  rq_set_fifo_time rq (u32 (jiffies s + fifo_expire sd sync)) ;;
  on_lists (list_add_tail rq (fifo_list sd sync)).

Definition sio_queue_empty : M (elv sio_data) bool :=
  sd ← get_data;
  e ← on_lists (list_empty (fifo_list sd true));
  if (e : bool) then on_lists (list_empty (fifo_list sd false)) else mret false.

Definition sio_expired_request (sync : bool) : M (elv sio_data) Z :=
  sd ← get_data; fifo_expired (fifo_list sd sync).

Definition sio_choose_expired_request : M (elv sio_data) Z :=
  sync ← sio_expired_request true;
  async ← sio_expired_request false;
  if negb (sync =? 0) && negb (async =? 0) then mret async
  else if negb (sync =? 0) then mret sync
  else mret async.

Definition sio_choose_request : M (elv sio_data) Z :=
  sd ← get_data;
  e ← on_lists (list_empty (fifo_list sd true));
  if negb e then on_lists (get_next (fifo_list sd true)) else
  e ← on_lists (list_empty (fifo_list sd false));
  if negb e then on_lists (get_next (fifo_list sd false)) else mret 0.

Definition sio_dispatch_request (rq : Z) : M (elv sio_data) unit :=
  rq_fifo_clear rq ;;
  elv_dispatch_add_tail rq ;;
  set_data (λ sd, set_batched (u32 (batched sd + 1)) sd).

(** [batched] is unsigned, so the comparison converts [fifo_batch]. *)
Definition sio_dispatch_requests (force : Z) : M (elv sio_data) Z :=
  sd ← get_data;
  rq ← (if batched sd >? u32 (sd_fifo_batch sd) then
          set_data (set_batched 0) ;; sio_choose_expired_request
        else mret 0);
  rq ← (if rq =? 0 then sio_choose_request else mret rq);
  if rq =? 0 then mret 0 else
  sio_dispatch_request rq ;; mret 1.

Definition sio_former_request (rq : Z) : M (elv sio_data) Z :=
  sd ← get_data;
  r ← get_rq rq;
  p ← on_lists (get_prev rq);
  if p =? fifo_list sd (rq_is_sync r) then mret 0 else mret p.

Definition sio_latter_request (rq : Z) : M (elv sio_data) Z :=
  sd ← get_data;
  r ← get_rq rq;
  n ← on_lists (get_next rq);
  if n =? fifo_list sd (rq_is_sync r) then mret 0 else mret n.

(** The addresses of the list heads in the structure that [kmalloc_node]
    returned, [None] when it failed. *)
Definition sio_init_queue (alloc : option (Z * Z)) : M mem (option sio_data) :=
  match alloc with
  | None => mret None
  | Some (async, sync) =>
      INIT_LIST_HEAD sync ;; INIT_LIST_HEAD async ;;
      mret (Some (SioData async sync 0 async_expire sync_expire fifo_batch))
  end.

Definition sio_exit_queue : M (elv sio_data) unit :=
  sd ← get_data;
  e ← on_lists (list_empty (fifo_list sd true)); BUG_ON (negb e) ;;
  e ← on_lists (list_empty (fifo_list sd false)); BUG_ON (negb e).

(** The sysfs attributes, for the number that was read. *)
Definition sio_sync_expire_store (data : Z) (sd : sio_data) : sio_data :=
  SioData (fifo_list_async sd) (fifo_list_sync sd) (batched sd) (fifo_expire_async sd)
    (store_value 0 INT_MAX data true) (sd_fifo_batch sd).
Definition sio_async_expire_store (data : Z) (sd : sio_data) : sio_data :=
  SioData (fifo_list_async sd) (fifo_list_sync sd) (batched sd) (store_value 0 INT_MAX data true)
    (fifo_expire_sync sd) (sd_fifo_batch sd).
Definition sio_fifo_batch_store (data : Z) (sd : sio_data) : sio_data :=
  SioData (fifo_list_async sd) (fifo_list_sync sd) (batched sd) (fifo_expire_async sd)
    (fifo_expire_sync sd) (store_value 0 INT_MAX data false).

Definition iosched_sio : elevator_ops sio_data := {|
  elevator_merge_fn := None;
  elevator_merged_fn := None;
  elevator_merge_req_fn := Some sio_merged_requests;
  elevator_allow_merge_fn := None;
  elevator_dispatch_fn := sio_dispatch_requests;
  elevator_add_req_fn := sio_add_request;
  elevator_deactivate_req_fn := None;
  elevator_queue_empty_fn := Some sio_queue_empty;
  elevator_former_req_fn := Some sio_former_request;
  elevator_latter_req_fn := Some sio_latter_request;
|}.

(** ** The invariant *)
(** The two fifos hold [la] and [ls], apart from the dispatch queue. *)
Record sio_inv (s : elv sio_data) (L : heads) (la ls : list Z) : Prop := {
  si_core : core s L;
  si_async : L !! fifo_list (elevator_data s) false = Some la;
  si_sync : L !! fifo_list (elevator_data s) true = Some ls;
  si_head : is_Some (L !! queue_head (queue s));
  si_ne : fifo_list (elevator_data s) false <> fifo_list (elevator_data s) true;
  si_nea : fifo_list (elevator_data s) false <> queue_head (queue s);
  si_nes : fifo_list (elevator_data s) true <> queue_head (queue s);
  si_stored : forall x, x ∈ la ++ ls -> is_Some (rqs s !! x);
  si_valid : Forall valid (la ++ ls);
  si_heads : forall b, rqs s !! fifo_list (elevator_data s) b = None;
}.
Definition sio_ok (s : elv sio_data) (L : heads) (pend : list Z) : Prop :=
  exists la ls, sio_inv s L la ls /\ pend = la ++ ls.

(** The request a dispatch selects. *)
Definition sio_expired_choice (s : elv sio_data) (la ls : list Z) : Z :=
  if first_expired s la =? 0 then first_expired s ls else first_expired s la.
Definition sio_choice (s : elv sio_data) (la ls : list Z) : Z :=
  let sd := elevator_data s in
  let rq := if batched sd >? u32 (sd_fifo_batch sd) then sio_expired_choice s la ls else 0 in
  if rq =? 0 then hd0 (ls ++ la) else rq.

Section invariant.
Implicit Types (s : elv sio_data) (L : heads) (la ls : list Z).

Lemma hd0_valid l x : Forall valid (x :: l) -> (x =? 0) = false.
Proof. intros Hv. apply Z.eqb_neq. by apply Forall_inv in Hv as [_ ?]. Qed.

Lemma sio_choose_expired_run s L la ls : sio_inv s L la ls ->
  sio_choose_expired_request s = Some (sio_expired_choice s la ls, s).
Proof.
  intros [Hc Ha Hs _ _ _ _ Hst _ _]. unfold sio_choose_expired_request, sio_expired_request.
  erewrite bind_run.
  2:{ erewrite bind_run by done. eapply fifo_expired_run; [apply Hc|done|set_solver +Hst]. }
  erewrite bind_run.
  2:{ erewrite bind_run by done. eapply fifo_expired_run; [apply Hc|done|set_solver +Hst]. }
  unfold sio_expired_choice. destruct (Z.eqb_spec (first_expired s la) 0) as [E|E],
    (Z.eqb_spec (first_expired s ls) 0) as [E'|E']; cbn [negb andb]; try done. by rewrite E, E'.
Qed.

Lemma sio_choose_run s L la ls : sio_inv s L la ls -> sio_choose_request s = Some (hd0 (ls ++ la), s).
Proof.
  intros [[Hl _] Ha Hs _ _ _ _ _ _ _]. unfold sio_choose_request. erewrite bind_run by done.
  erewrite bind_run by (apply on_lists_read; by eapply heap_list_empty).
  destruct ls as [|x ls].
  - rewrite bool_decide_true by done. cbn [negb].
    erewrite bind_run by (apply on_lists_read; by eapply heap_list_empty).
    destruct la as [|y la]; [done|].
    rewrite (bool_decide_false (_ :: _ = [])) by done. apply on_lists_read. by erewrite heap_get_next by done.
  - rewrite (bool_decide_false (_ :: _ = [])) by done. apply on_lists_read. by erewrite heap_get_next by done.
Qed.

(** What one dispatch of [x] changes. *)
Record sio_sent s s' (x : Z) : Prop := {
  ss_rqs : forall y, y <> x -> rqs s' !! y = rqs s !! y;
  ss_kept : is_Some (rqs s' !! x);
  ss_data : elevator_data s' = set_batched (u32 (batched (elevator_data s) + 1)) (elevator_data s);
  ss_jiffies : jiffies s' = jiffies s;
  ss_head : queue_head (queue s') = queue_head (queue s);
  ss_nr : nr_sorted (queue s') = u32 (nr_sorted (queue s) - 1);
  ss_last : last_merge (queue s') = if last_merge (queue s) =? x then 0 else last_merge (queue s);
}.

Lemma sio_dispatch_request_run s L h l1 x l2 d :
  core s L -> L !! h = Some (l1 ++ x :: l2) -> h <> queue_head (queue s) ->
  L !! queue_head (queue s) = Some d -> is_Some (rqs s !! x) ->
  exists s', sio_dispatch_request x s = Some (tt, s') /\ sio_sent s s' x /\
    core s' (<[queue_head (queue s) := d ++ [x]]> (delete x (<[x := []]> (<[h := l1 ++ l2]> L)))).
Proof.
  intros [Hl Hh] E Hne Hd [r Hr].
  destruct (rq_fifo_clear_run s L h l1 x l2 r Hl E Hr) as (m & Hclr & Hl1).
  assert (x <> queue_head (queue s)) as Hxq by exact (lrep_entry_head _ _ _ _ _ _ _ _ Hl E Hd).
  assert (x <> h) as Hxh by exact (lrep_entry_head _ _ _ _ _ _ _ _ Hl E E).
  destruct (elv_dispatch_add_tail_run (cleared x r m s) (<[x := []]> (<[h := l1 ++ l2]> L)) x
    (set_csd_list (ListHead x x) r) d) as (s1 & Hadd & [D1 D2 D3 D4 D5 D6] & Hc1 & _).
  { split; [done|]. apply (hash_ok_csd (with_lists m s) x r); [by apply hash_ok_lists|done]. }
  { cbn. rewrite lookup_insert_ne by done. by rewrite lookup_insert_ne. }
  { by rewrite lookup_insert_eq. }
  { done. }
  { cbn. by rewrite lookup_insert_eq. }
  eexists. split_and!.
  - unfold sio_dispatch_request. erewrite bind_run by done. erewrite bind_run by done. done.
  - split; cbn.
    + intros y Hy. rewrite D1. cbn. by rewrite !lookup_insert_ne.
    + rewrite D1, lookup_insert_eq. eauto.
    + by rewrite D2.
    + done.
    + done.
    + done.
    + done.
  - destruct Hc1 as [Hl2 Hh2]. split; [done|]. by apply hash_ok_data.
Qed.

(** Setting [batched] touches nothing the invariant speaks about. *)
Lemma sio_inv_batched s L la ls v : sio_inv s L la ls -> sio_inv (upd_data (set_batched v) s) L la ls.
Proof. intros [[Hl Hh] ? ? ? ? ? ? ? ? ?]. split; try done. split; [done|]. by apply hash_ok_data. Qed.

(** The selected request is the first of one of the fifos. *)
Lemma sio_choice_first s la ls : la ++ ls <> [] ->
  (exists la', la = sio_choice s la ls :: la') \/ (exists ls', ls = sio_choice s la ls :: ls').
Proof.
  intros Hne. unfold sio_choice.
  set (rq := if _ >? _ then _ else _).
  assert (rq = 0 \/ (exists la', la = rq :: la') \/ (exists ls', ls = rq :: ls')) as Hrq.
  { unfold rq, sio_expired_choice. destruct (batched _ >? _); [|by left].
    destruct (Z.eqb_spec (first_expired s la) 0) as [E|E].
    - destruct (first_expired_hd s ls) as [?|?]; auto.
    - destruct (first_expired_hd s la) as [?|?]; auto. }
  destruct (Z.eqb_spec rq 0) as [E|E]; [|tauto].
  destruct ls as [|y ls]; [|right; by exists ls]. destruct la as [|y la]; [done|left; by exists la].
Qed.

(** The invariant after a request left the fifo [b]. *)
Lemma sio_inv_sent s s' L L' la ls la' ls' x :
  sio_inv s L la ls -> sio_sent s s' x -> core s' L' ->
  L' !! fifo_list (elevator_data s) false = Some la' -> L' !! fifo_list (elevator_data s) true = Some ls' ->
  is_Some (L' !! queue_head (queue s)) ->
  (forall y, y ∈ la' ++ ls' -> y ∈ la ++ ls) -> is_Some (rqs s !! x) -> sio_inv s' L' la' ls'.
Proof.
  intros [_ _ _ _ Hn1 Hn2 Hn3 Hst Hv Hhd] [S1 S2 S3 _ S5 _ _] Hc Ha Hs Hq Hsub Hx.
  split; rewrite ?S3, ?S5; try done.
  - intros y Hy. destruct (decide (y = x)) as [->|Hne]; [done|]. rewrite S1 by done. auto.
  - rewrite Forall_forall in *. auto.
  - intros b. specialize (Hhd b). change (rqs s' !! fifo_list (elevator_data s) b = None).
    rewrite S1; [done|]. intros <-. rewrite Hhd in Hx. by destruct Hx.
Qed.

(** [sio_dispatch_requests] on each branch. *)
Lemma sio_dispatch_requests_run s L la ls d force :
  sio_inv s L la ls -> L !! queue_head (queue s) = Some d ->
  let s0 := if batched (elevator_data s) >? u32 (sd_fifo_batch (elevator_data s))
            then upd_data (set_batched 0) s else s in
  if decide (la ++ ls = []) then sio_dispatch_requests force s = Some (0, s0)
  else exists s' L' la' ls', sio_dispatch_requests force s = Some (1, s') /\ sio_inv s' L' la' ls' /\
    sio_sent s0 s' (sio_choice s la ls) /\ L' !! queue_head (queue s) = Some (d ++ [sio_choice s la ls]) /\
    ((la = sio_choice s la ls :: la' /\ ls' = ls) \/ (ls = sio_choice s la ls :: ls' /\ la' = la)).
Proof.
  intros Hinv Hd s0.
  assert (sio_inv s0 L la ls) as Hinv0 by (unfold s0; destruct (_ >? _); [by apply sio_inv_batched|done]).
  assert (queue s0 = queue s /\ rqs s0 = rqs s) as [Eq Er] by (unfold s0; by destruct (_ >? _)).
  set (c := sio_choice s la ls).
  assert (sio_dispatch_requests force s =
    (if c =? 0 then mret 0 else sio_dispatch_request c ;; mret 1) s0) as ->.
  { unfold sio_dispatch_requests. erewrite bind_run by done.
    assert ((if batched (elevator_data s) >? u32 (sd_fifo_batch (elevator_data s)) then
       set_data (set_batched 0) ;; sio_choose_expired_request else mret 0) s =
      Some (if batched (elevator_data s) >? u32 (sd_fifo_batch (elevator_data s))
            then sio_expired_choice s la ls else 0, s0)) as Hpick.
    { unfold s0. destruct (_ >? _); [|done]. erewrite bind_run by done.
      by rewrite (sio_choose_expired_run _ L la ls) by (by apply sio_inv_batched). }
    erewrite bind_run by exact Hpick. unfold c, sio_choice.
    set (rq := if _ >? _ then _ else _). destruct (rq =? 0) eqn:E.
    - by erewrite bind_run by (by eapply sio_choose_run).
    - by erewrite bind_run by done. }
  destruct (decide (la ++ ls = [])) as [[-> ->]%app_eq_nil|Hne].
  { unfold c, sio_choice, sio_expired_choice. cbn. by destruct (_ >? _). }
  pose proof Hinv0 as [Hc0 Ha Hs _ Hn1 Hn2 Hn3 Hst Hv _]. pose proof (sio_choice_first s la ls Hne) as Hfirst.
  fold c in Hfirst. clearbody c. rewrite <-Eq in Hd |- *. clearbody s0.
  assert ((c =? 0) = false) as ->.
  { destruct Hfirst as [[la' ->]|[ls' ->]]; eapply hd0_valid; [exact Hv|].
    by apply Forall_app in Hv as [_ Hv]. }
  destruct Hfirst as [[la' ->]|[ls' ->]].
  - destruct (sio_dispatch_request_run s0 L (fifo_list (elevator_data s0) false) [] c la' d)
      as (s' & Hrun & Hsent & Hc'); [done..|apply Hst; set_solver +|].
    pose proof (lrep_entry_head _ _ _ [] _ _ _ _ (core_lists _ _ Hc0) Ha Hs) as Hcs.
    pose proof (lrep_entry_head _ _ _ [] _ _ _ _ (core_lists _ _ Hc0) Ha Ha) as Hca.
    eexists s', _, la', ls. split_and!; [by erewrite bind_run by done| |done|by rewrite lookup_insert_eq|by left].
    eapply sio_inv_sent; [done|done|done|by heads_lookup..| |set_solver +|apply Hst; set_solver +]. heads_lookup. eauto.
  - destruct (sio_dispatch_request_run s0 L (fifo_list (elevator_data s0) true) [] c ls' d)
      as (s' & Hrun & Hsent & Hc'); [done..|apply Hst; set_solver +|].
    pose proof (lrep_entry_head _ _ _ [] _ _ _ _ (core_lists _ _ Hc0) Hs Hs) as Hcs.
    pose proof (lrep_entry_head _ _ _ [] _ _ _ _ (core_lists _ _ Hc0) Hs Ha) as Hca.
    eexists s', _, la, ls'. split_and!; [by erewrite bind_run by done| |done|by rewrite lookup_insert_eq|by right].
    eapply sio_inv_sent; [done|done|done|by heads_lookup..| |set_solver +|apply Hst; set_solver +]. heads_lookup. eauto.
Qed.

Lemma sio_add_request_run s L la ls x r :
  sio_inv s L la ls -> L !! x = Some [] -> x <> queue_head (queue s) ->
  valid x -> rqs s !! x = Some r ->
  let exp := u32 (jiffies s + fifo_expire (elevator_data s) (rq_is_sync r)) in
  exists s' L', sio_add_request x s = Some (tt, s') /\
    rqs s' = <[x := set_csd_list (ListHead exp (lh_prev (csd_list r))) r]> (rqs s) /\
    elevator_data s' = elevator_data s /\ queue s' = queue s /\ jiffies s' = jiffies s /\
    L' !! queue_head (queue s) = L !! queue_head (queue s) /\
    if rq_is_sync r then sio_inv s' L' la (ls ++ [x]) else sio_inv s' L' (la ++ [x]) ls.
Proof.
  intros [[Hl Hh] Ha Hs Hq Hn1 Hn2 Hn3 Hst Hv Hhd] Hx Hxq Hvx Hr exp.
  assert (forall b, x <> fifo_list (elevator_data s) b) as Hxb by (intros b ->; specialize (Hhd b); congruence).
  pose proof (Hxb false) as Hxa. pose proof (Hxb true) as Hxs.
  set (h := fifo_list (elevator_data s) (rq_is_sync r)).
  set (l := if rq_is_sync r then ls else la).
  assert (L !! h = Some l) as El by (unfold h, l; by destruct (rq_is_sync r)).
  assert (x <> h) as Hxh by (unfold h; by destruct (rq_is_sync r)).
  assert (h <> queue_head (queue s)) as Hhq by (unfold h; by destruct (rq_is_sync r)).
  destruct (heap_add_tail _ _ _ _ _ Hl El Hx Hxh) as (m & Hadd & Hl').
  set (s1 := upd_rqs <[x := set_csd_list (ListHead exp (lh_prev (csd_list r))) r]> s).
  exists (with_lists m s1), (<[h := l ++ [x]]> (delete x L)). split_and!; try done.
  - unfold sio_add_request. erewrite bind_run by done. erewrite bind_run by (by apply get_rq_run).
    cbv zeta. erewrite bind_run by done.
    erewrite bind_run by (by apply (set_rq_run s x r (λ r, set_csd_list (ListHead exp (lh_prev (csd_list r))) r))).
    by apply on_lists_run.
  - by heads_lookup.
  - assert (core (with_lists m s1) (<[h := l ++ [x]]> (delete x L))) as Hc'.
    { split; [done|]. apply hash_ok_lists, hash_ok_csd; [done|done]. }
    assert (forall y, y ∈ x :: la ++ ls -> is_Some (rqs (with_lists m s1) !! y)) as Hst'.
    { intros y Hy. cbn. destruct (decide (y = x)) as [->|Hne]; [rewrite lookup_insert_eq; eauto|].
      rewrite lookup_insert_ne by done. apply Hst. set_solver +Hy Hne. }
    assert (Forall valid (x :: la ++ ls)) as Hv' by (by constructor).
    assert (forall b, rqs (with_lists m s1) !! fifo_list (elevator_data s) b = None) as Hhd'.
    { intros b. cbn. rewrite lookup_insert_ne by apply Hxb. apply Hhd. }
    unfold h, l in *. destruct (rq_is_sync r); split; cbn in *; try done; try (by heads_lookup).
    all: try (intros y Hy; apply Hst'; set_solver +Hy).
    all: rewrite Forall_forall in *; intros y Hy; apply Hv'; set_solver +Hy.
Qed.

Lemma sio_nodup s L la ls : sio_inv s L la ls -> NoDup (la ++ ls).
Proof.
  intros [[Hl _] Ha Hs _ Hn _ _ _ _ _]. apply NoDup_app. split_and!.
  - pose proof (lrep_nodup _ _ _ _ Hl Ha) as H. by apply NoDup_cons in H as [_ ?].
  - intros x Hx Hx'. apply Hn. eapply (lr_disj _ _ Hl); by eapply own_entry.
  - pose proof (lrep_nodup _ _ _ _ Hl Hs) as H. by apply NoDup_cons in H as [_ ?].
Qed.

Lemma sio_linked s L la ls x : sio_inv s L la ls -> x ∈ la ++ ls -> L !! x = None.
Proof.
  intros [[Hl _] Ha Hs _ _ _ _ _ _ _] Hx. destruct (L !! x) as [l|] eqn:E; [exfalso|done].
  apply elem_of_app in Hx as [Hx|Hx];
    [exact (lrep_entry_ne _ _ _ _ _ _ Hl Ha Hx E)|exact (lrep_entry_ne _ _ _ _ _ _ Hl Hs Hx E)].
Qed.

Lemma sio_inv_frame s s' L la ls x r : sio_inv s L la ls -> rqs s !! x = Some r ->
  (exists r', rqs s' = <[x := r']> (rqs s)) -> hash_ok s' -> lists s' = lists s ->
  queue_head (queue s') = queue_head (queue s) -> elevator_data s' = elevator_data s -> sio_inv s' L la ls.
Proof.
  intros [[Hl Hh] ? ? ? ? ? ? Hst ? Hhd] Hr [r' Er] Hh' El Eq Ed.
  split; rewrite ?Ed, ?Eq; try done.
  - split; [by rewrite El|done].
  - intros y Hy. rewrite Er. destruct (decide (y = x)) as [->|Hne];
      [rewrite lookup_insert_eq; eauto|rewrite lookup_insert_ne by done; auto].
  - intros b. specialize (Hhd b). rewrite Er, lookup_insert_ne; [done|]. intros ->. congruence.
Qed.
End invariant.

#[export] Instance sio_sched : IOSched iosched_sio sio_ok.
Proof.
  split.
  - intros s L pend (la & ls & [Hc _ _ _ _ _ _ _ _ _] & _). done.
  - intros s L pend (la & ls & [_ _ _ Hq _ _ _ _ _ _] & _). done.
  - intros s L pend (la & ls & Hinv & ->). by eapply sio_nodup.
  - intros s L pend x (la & ls & [_ _ _ _ _ _ _ Hst _ _] & ->). auto.
  - intros s s' L pend x r (la & ls & Hinv & ->) Hr _ Hr' Hh El Eq Ed _. exists la, ls.
    split; [|done]. by eapply sio_inv_frame.
  - intros s L force (la & ls & Hinv & [-> ->]%eq_sym%app_eq_nil).
    pose proof Hinv as [_ _ _ [d Hd] _ _ _ _ _ _].
    pose proof (sio_dispatch_requests_run s L [] [] d force Hinv Hd) as Hrun. cbn in Hrun.
    eexists. split; [exact Hrun|]. destruct (_ >? _); (split; [|done]); exists [], []; (split; [|done]);
      [by apply sio_inv_batched|done].
  - intros s L pend d force (la & ls & Hinv & ->) Hne Hd.
    pose proof (sio_dispatch_requests_run s L la ls d force Hinv Hd) as Hrun. cbn zeta in Hrun.
    rewrite decide_False in Hrun by done.
    destruct Hrun as (s' & L' & la' & ls' & Hrun & Hinv' & Hsent & Hd' & Hcase).
    set (s0 := if _ >? _ then _ else s) in Hsent.
    assert (queue s0 = queue s) as Eq by (unfold s0; by destruct (_ >? _)).
    destruct Hsent as [_ _ _ _ S5 S6 S7]. rewrite Eq in S5, S6, S7.
    assert (la ++ ls ≡ₚ sio_choice s la ls :: la' ++ ls') as Hp.
    { clear -Hcase. destruct Hcase as [[E ->]|[E ->]]; revert E; generalize (sio_choice s la ls); intros z ->;
        solve_Permutation. }
    exists (sio_choice s la ls), (la' ++ ls'), d, [], s', L'. split_and!; try done.
    + by exists la', ls'.
    + by rewrite app_nil_r.
    + by eapply sent_excess.
    + by eapply sent_cache.
  - intros s L pend d x r (la & ls & Hinv & ->) Hd Hx _ Hxq Hv Hr.
    destruct (sio_add_request_run s L la ls x r Hinv Hx Hxq Hv Hr)
      as (s' & L' & Hrun & _ & _ & Eq & _ & Hd' & Hinv').
    set (pend' := if rq_is_sync r then la ++ ls ++ [x] else (la ++ [x]) ++ ls).
    assert (pend' ≡ₚ x :: la ++ ls) as Hp by (unfold pend'; destruct (rq_is_sync r); solve_Permutation).
    exists pend', d, s', L'. split_and!; try done.
    + unfold pend'. destruct (rq_is_sync r); [by exists la, (ls ++ [x])|by exists (la ++ [x]), ls].
    + by rewrite Eq.
    + by rewrite Hd'.
    + by rewrite Hp.
    + rewrite Hp. set_solver +.
    + unfold excess. rewrite Eq, Hp, u32_sub_l. cbn [length]. f_equal. lia.
    + unfold cache_ok. by rewrite Eq, Hp.
Qed.

(** ** Starvation *)
(** The passing of [t] ticks. *)
Definition tick (t : Z) (s : elv sio_data) : elv sio_data :=
  Elv (rqs s) (lists s) (queue s) (elevator_data s) (u32 (jiffies s + t)).

(** What may happen to the scheduler between two instants: [sio_step s k t s']
    is one event with [k] dispatches that takes [t] ticks. *)
Inductive sio_step (s : elv sio_data) : Z -> Z -> elv sio_data -> Prop :=
  | step_tick t : 0 <= t -> sio_step s 0 t (tick t s)
  | step_add x r s' : dlist (lists s) x [] -> rqs s !! x = Some r -> valid x ->
      x <> queue_head (queue s) -> sio_add_request x s = Some (tt, s') -> sio_step s 0 0 s'
  | step_dispatch n s' : sio_dispatch_requests 0 s = Some (n, s') -> sio_step s 1 0 s'.

Inductive sio_run : elv sio_data -> Z -> Z -> elv sio_data -> Prop :=
  | run_nil s : sio_run s 0 0 s
  | run_cons s k t s1 n T s' : sio_step s k t s1 -> sio_run s1 n T s' -> sio_run s (k + n) (t + T) s'.

(** [y] has expired and stays so for [B] more ticks. *)
Definition late (s : elv sio_data) (B y : Z) : Prop :=
  exists r, rqs s !! y = Some r /\
    0 < u32 (jiffies s - rq_fifo_time r) /\ u32 (jiffies s - rq_fifo_time r) + B < 2 ^ 31.

(** The number of dispatches that a request with [p] requests before it on the
    asynchronous fifo can still have to wait for. *)
Definition sio_wait (s : elv sio_data) (p : nat) : Z :=
  let sd := elevator_data s in
  Z.of_nat p * (sd_fifo_batch sd + 1) +
  (if batched sd >? sd_fifo_batch sd then 1 else sd_fifo_batch sd + 2 - batched sd).

Definition sio_bounds (s : elv sio_data) : Prop :=
  0 <= sd_fifo_batch (elevator_data s) <= INT_MAX /\ 0 <= batched (elevator_data s).

(** [x] is on the dispatch queue, or at most [w] dispatches away from it. *)
Definition sio_conf (s : elv sio_data) (x w B : Z) : Prop :=
  sio_bounds s /\ exists L la ls d, sio_inv s L la ls /\ L !! queue_head (queue s) = Some d /\
    (x ∈ d \/ exists l1 l2, la = l1 ++ x :: l2 /\ (forall y, y ∈ l1 ++ [x] -> late s B y) /\
       sio_wait s (length l1) <= w).

Section starvation.
Implicit Types (s : elv sio_data) (L : heads) (la ls l : list Z) (x w B : Z).

Lemma late_first s B y l : late s B y -> 0 <= B -> first_expired s (y :: l) = y.
Proof.
  intros (r & Hr & H1 & H2) HB. cbn. rewrite Hr, time_after_passed by lia. done.
Qed.

Lemma late_frame s s' B y : rqs s' !! y = rqs s !! y -> jiffies s' = jiffies s -> late s B y -> late s' B y.
Proof. intros E1 E2 (r & ? & ? & ?). exists r. rewrite E1, E2. done. Qed.

Lemma late_tick s B t y : 0 <= t <= B -> late s B y -> late (tick t s) (B - t) y.
Proof.
  intros Ht (r & Hr & H1 & H2). exists r. cbn. split; [done|].
  assert (u32 (u32 (jiffies s + t) - rq_fifo_time r) = u32 (jiffies s - rq_fifo_time r) + t) as ->; [|lia].
  rewrite u32_sub_l. replace (jiffies s + t - rq_fifo_time r) with (jiffies s - rq_fifo_time r + t) by lia.
  rewrite <-u32_add_l. apply u32_small. lia.
Qed.

Lemma conf_tick s x w B t : 0 <= t <= B -> sio_conf s x w B -> sio_conf (tick t s) x w (B - t).
Proof.
  intros Ht (Hb & L & la & ls & d & Hinv & Hd & Hx). split; [done|]. exists L, la, ls, d. split_and!; [|done|].
  - destruct Hinv as [[Hl Hh] ? ? ? ? ? ? ? ? ?]. split; try done. split; [done|]. by apply (hash_ok_ext s).
  - destruct Hx as [?|(l1 & l2 & -> & Hlate & Hw)]; [by left|right]. exists l1, l2. split_and!; [done| |done].
    intros y Hy. apply late_tick; auto.
Qed.

Lemma conf_add s x w B y r s' : dlist (lists s) y [] -> rqs s !! y = Some r -> valid y ->
  y <> queue_head (queue s) -> sio_add_request y s = Some (tt, s') -> sio_conf s x w B -> sio_conf s' x w B.
Proof.
  intros Hy Hr Hv Hyq Hrun (Hb & L & la & ls & d & Hinv & Hd & Hx).
  assert (forall b, y <> fifo_list (elevator_data s) b) as Hyb.
  { intros b ->. pose proof (si_heads _ _ _ _ Hinv b). congruence. }
  pose proof (Hyb true). pose proof (Hyb false).
  assert (sio_inv s (<[y := []]> L) la ls) as Hinv1.
  { destruct Hinv as [[Hl Hh] ? ? ? ? ? ? ? ? ?]. split; try done; try (by heads_lookup).
    split; [by apply heap_idle|done]. }
  destruct (sio_add_request_run s (<[y := []]> L) la ls y r Hinv1) as (s1 & L' & Hrun' & Er & Ed & Eq & Ej & Hd' & Hinv');
    [by rewrite lookup_insert_eq|done..|].
  rewrite Hrun in Hrun'. injection Hrun' as <-. split; [by unfold sio_bounds; rewrite Ed|].
  assert (y ∉ la ++ ls) as Hyl.
  { intros Hin. pose proof (sio_linked _ _ _ _ _ Hinv1 Hin) as E. by rewrite lookup_insert_eq in E. }
  rewrite lookup_insert_ne in Hd' by done.
  assert (x ∈ d \/ exists l1 l2, (if rq_is_sync r then la else la ++ [y]) = l1 ++ x :: l2 /\
    (forall z, z ∈ l1 ++ [x] -> late s' B z) /\ sio_wait s' (length l1) <= w) as Hx'.
  { destruct Hx as [?|(l1 & l2 & -> & Hlate & Hw)]; [by left|right].
    exists l1, (if rq_is_sync r then l2 else l2 ++ [y]). split_and!.
    - destruct (rq_is_sync r); [done|]. by rewrite <-app_assoc.
    - intros z Hz. eapply late_frame; [|done|by apply Hlate]. rewrite Er. apply lookup_insert_ne.
      intros ->. apply Hyl. set_solver +Hz.
    - unfold sio_wait. by rewrite Ed. }
  destruct (rq_is_sync r).
  - exists L', la, (ls ++ [y]), d. rewrite Eq. split_and!; [done|by rewrite Hd'|done].
  - exists L', (la ++ [y]), ls, d. rewrite Eq. split_and!; [done|by rewrite Hd'|done].
Qed.

Lemma conf_dispatch s x w B n s' : 0 <= B -> sio_dispatch_requests 0 s = Some (n, s') ->
  sio_conf s x w B -> sio_conf s' x (w - 1) B.
Proof.
  intros HB Hrun ([Hfb Hb0] & L & la & ls & d & Hinv & Hd & Hx).
  pose proof (sio_dispatch_requests_run s L la ls d 0 Hinv Hd) as Hr. cbn zeta in Hr.
  rewrite (u32_small (sd_fifo_batch (elevator_data s))) in Hr by (unfold INT_MAX in *; lia).
  set (s0 := if _ >? _ then _ else s) in Hr.
  destruct (decide (la ++ ls = [])) as [[-> ->]%app_eq_nil|Hne].
  { rewrite Hrun in Hr. injection Hr as -> ->. split.
    - unfold s0, sio_bounds. destruct (_ >? _); cbn; lia.
    - exists L, [], [], d. split_and!.
      + unfold s0. destruct (_ >? _); [by apply sio_inv_batched|done].
      + unfold s0. by destruct (_ >? _).
      + left. destruct Hx as [?|(l1 & l2 & E & _)]; [done|]. by destruct l1. }
  destruct Hr as (s1 & L' & la' & ls' & Hr & Hinv' & Hsent & Hd' & Hcase).
  rewrite Hrun in Hr. injection Hr as -> <-. set (c := sio_choice s la ls) in *.
  assert (queue s0 = queue s /\ rqs s0 = rqs s /\ jiffies s0 = jiffies s) as (Eq & Er & Ej)
    by (unfold s0; by destruct (_ >? _)).
  destruct Hsent as [S1 _ S3 S4 S5 _ _]. rewrite Er in S1. rewrite Ej in S4. rewrite Eq in S5.
  set (fb := sd_fifo_batch (elevator_data s)) in *. set (b := batched (elevator_data s)) in *.
  assert (sd_fifo_batch (elevator_data s') = fb /\
    batched (elevator_data s') = if b >? fb then 1 else b + 1) as [Efb Eb].
  { rewrite S3. unfold s0. destruct (Z.gtb_spec b fb); cbn; (split; [done|]).
    - done. - apply u32_small. unfold INT_MAX in *. lia. }
  split; [unfold sio_bounds; rewrite Efb, Eb; destruct (_ >? _); lia|].
  exists L', la', ls', (d ++ [c]). rewrite S5. split_and!; [done..|].
  destruct Hx as [?|(l1 & l2 & Ela & Hlate & Hw)]; [left; set_solver|].
  assert (0 <= Z.of_nat (length l1)) as Hp by lia.
  unfold sio_wait in *. fold fb b in Hw. rewrite Efb, Eb.
  assert (NoDup (la ++ ls)) as Hnd by (by eapply sio_nodup).
  destruct Hcase as [[Ec ->]|[Ec ->]].
  - destruct l1 as [|y l1]; [left; rewrite Ela in Ec; injection Ec as ->; set_solver +|right].
    rewrite Ela in Ec. injection Ec as Ey Ela'. exists l1, l2. split_and!; [done|..].
    + intros z Hz. eapply late_frame; [|done|apply Hlate; set_solver +Hz].
      apply S1. intros Ezc. rewrite Ela in Hnd. cbn in Hnd. apply NoDup_cons in Hnd as [Hnd _].
      apply Hnd. rewrite Ey, <-Ezc. set_solver +Hz.
    + cbn [length] in Hw, Hp. destruct (Z.gtb_spec b fb), (Z.gtb_spec 1 fb), (Z.gtb_spec (b + 1) fb); nia.
  - right. exists l1, l2. split_and!; [done|..].
    + intros z Hz. eapply late_frame; [|done|by apply Hlate].
      apply S1. intros ->. apply NoDup_app in Hnd as (_ & Hnd & _). apply (Hnd c); [set_solver +Hz Ela|].
      rewrite Ec. set_solver +.
    + destruct (Z.gtb_spec b fb) as [Hbf|Hbf]; [exfalso|destruct (Z.gtb_spec (b + 1) fb); nia].
      assert (exists y l, la = y :: l /\ late s B y) as (y & l & Ey & Hy).
      { destruct l1 as [|y l1]; [exists x, l2|exists y, (l1 ++ x :: l2)]; (split; [done|apply Hlate; set_solver +]). }
      assert (c = y) as Ecy.
      { unfold c, sio_choice. fold fb b. rewrite (u32_small fb) by (unfold INT_MAX in *; lia).
        rewrite (proj2 (Z.gtb_gt _ _)) by lia. unfold sio_expired_choice.
        rewrite Ey, (late_first s B y l Hy HB).
        assert ((y =? 0) = false) as E0.
        { eapply (hd0_valid (l ++ ls)). pose proof (si_valid _ _ _ _ Hinv) as Hv. by rewrite Ey in Hv. }
        by rewrite E0, E0. }
      apply NoDup_app in Hnd as (_ & Hnd & _). apply (Hnd c); [rewrite Ey, Ecy; set_solver +|].
      rewrite Ec. set_solver +.
Qed.

Lemma run_time s n T s' : sio_run s n T s' -> 0 <= T.
Proof. induction 1 as [|s k t s1 n T s' Hstep]; [done|]. inversion Hstep; lia. Qed.

Lemma conf_run s n T s' x w B : sio_run s n T s' -> T <= B -> sio_conf s x w B ->
  sio_conf s' x (w - n) (B - T).
Proof.
  intros Hrun. revert w B. induction Hrun as [s|s k t s1 n T s' Hstep Hrun IH]; intros w B HB Hc.
  { by rewrite !Z.sub_0_r. }
  pose proof (run_time _ _ _ _ Hrun) as HT.
  replace (w - (k + n)) with (w - k - n) by lia. replace (B - (t + T)) with (B - t - T) by lia.
  apply IH; [lia|]. destruct Hstep as [t Ht|y r s1 ? ? ? ? ?|m s1 ?]; rewrite ?Z.sub_0_r.
  - apply conf_tick; [lia|done].
  - by eapply conf_add.
  - eapply conf_dispatch; [lia|done|done].
Qed.

(** A wait of at most [fifo_batch + 2] dispatches per request in front. *)
Lemma sio_wait_bound s p : sio_bounds s ->
  1 <= sio_wait s p <= (Z.of_nat p + 1) * (sd_fifo_batch (elevator_data s) + 2).
Proof. intros [? ?]. unfold sio_wait. destruct (Z.gtb_spec (batched (elevator_data s)) (sd_fifo_batch (elevator_data s))); nia. Qed.
End starvation.

(** C9: synchronous requests cannot starve asynchronous ones.  Take a request [x]
    on the asynchronous fifo with [p] requests before it, all expired (and less
    than 2^31 ticks ago).  In every run in which requests are added, time passes
    and at least [(p + 1) * (fifo_batch + 2)] dispatches happen, in any order,
    [x] has reached the dispatch queue. *)
Theorem sio_no_starvation s L la ls l1 x l2 n T s' :
  sio_inv s L la ls -> sio_bounds s -> la = l1 ++ x :: l2 ->
  (forall y, y ∈ l1 ++ [x] -> late s T y) -> sio_run s n T s' ->
  (Z.of_nat (length l1) + 1) * (sd_fifo_batch (elevator_data s) + 2) <= n ->
  exists L' la' ls' d, sio_inv s' L' la' ls' /\ L' !! queue_head (queue s') = Some d /\ x ∈ d.
Proof.
  intros Hinv Hb -> Hlate Hrun Hn. pose proof (sio_wait_bound s (length l1) Hb) as Hw.
  destruct (conf_run s n T s' x (sio_wait s (length l1)) T Hrun) as (Hb' & L' & la' & ls' & d' & Hinv' & Hd' & Hx).
  { lia. }
  { split; [done|]. pose proof (si_head _ _ _ _ Hinv) as [d Hd]. exists L, (l1 ++ x :: l2), ls, d.
    split_and!; [done..|]. right. exists l1, l2. done. }
  exists L', la', ls', d'. split_and!; [done..|]. destruct Hx as [?|(l1' & _ & _ & _ & Hw')]; [done|].
  pose proof (sio_wait_bound s' (length l1') Hb'). lia.
Qed.

(** ** Merging *)
Lemma sio_merged_requests_run s L h1 l1 rq l2 h2 k1 next k2 r n :
  core s L -> L !! h1 = Some (l1 ++ rq :: l2) -> <[h1 := l1 ++ l2]> L !! h2 = Some (k1 ++ next :: k2) ->
  rqs s !! rq = Some r -> rqs s !! next = Some n -> rq <> next ->
  time_before (rq_fifo_time n) (rq_fifo_time r) = true ->
  exists s' L', sio_merged_requests rq next s = Some (tt, s') /\ core s' L' /\
    L' = <[next := []]> (<[h2 := k1 ++ rq :: k2]> (<[h1 := l1 ++ l2]> L)) /\
    elevator_data s' = elevator_data s /\
    rqs s' = <[next := set_csd_list (ListHead next next) n]>
      (<[rq := set_csd_list (ListHead (rq_fifo_time n) (lh_prev (csd_list r))) r]> (rqs s)).
Proof.
  intros [Hl Hh] E1 E2 Hr Hn Hne Ht.
  pose proof (fifo_merge_run s L h1 l1 rq l2 h2 k1 next k2 r n Hl E1 E2 Hr Hn) as Hm. rewrite Ht in Hm.
  destruct Hm as (m & Hrun & Hl1).
  assert (hash_ok (moved rq r n m s)) as Hh1.
  { apply (hash_ok_csd (with_lists m s) rq r); [by apply hash_ok_lists|done]. }
  destruct (rq_fifo_clear_run (moved rq r n m s) _ h2 k1 next (rq :: k2) n Hl1) as (m' & Hrun' & Hl2).
  { by rewrite lookup_insert_eq. }
  { cbn. by rewrite lookup_insert_ne. }
  eexists _, _. split_and!.
  - unfold sio_merged_requests. by erewrite bind_run by done.
  - split; [exact Hl2|]. apply (hash_ok_csd (with_lists m' (moved rq r n m s)) next n); [by apply hash_ok_lists|].
    cbn. by rewrite lookup_insert_ne.
  - by rewrite insert_insert_eq.
  - done.
  - done.
Qed.

(** Merging [next] into [rq] when [next] expires first, whichever fifos they
    are on: [rq] gets the fifo position and the deadline of [next], [next] is on
    no list, and no other request moves. *)
Theorem sio_merged_requests_correct s L h1 l1 rq l2 h2 k1 next k2 r n :
  core s L -> L !! h1 = Some (l1 ++ rq :: l2) -> <[h1 := l1 ++ l2]> L !! h2 = Some (k1 ++ next :: k2) ->
  rqs s !! rq = Some r -> rqs s !! next = Some n -> rq <> next ->
  time_before (rq_fifo_time n) (rq_fifo_time r) = true ->
  exists s' L' r', sio_merged_requests rq next s = Some (tt, s') /\ core s' L' /\
    L' !! h2 = Some (k1 ++ rq :: k2) /\ (h1 <> h2 -> L' !! h1 = Some (l1 ++ l2)) /\ L' !! next = Some [] /\
    (forall h, h <> h1 -> h <> h2 -> h <> next -> L' !! h = L !! h) /\
    rqs s' !! rq = Some r' /\ rq_fifo_time r' = rq_fifo_time n.
Proof.
  intros Hc E1 E2 Hr Hn Hne Ht.
  destruct (sio_merged_requests_run s L h1 l1 rq l2 h2 k1 next k2 r n) as (s' & L' & Hrun & Hc' & -> & _ & Er); [done..|].
  assert (next <> h2 /\ next <> h1) as [Hn2 Hn1].
  { assert (exists h l l', L !! h = Some (l ++ next :: l')) as (h & l & l' & E).
    { apply lookup_insert_Some in E2 as [[-> E2]|[_ E2]]; [|eauto].
      assert (next ∈ l1 ++ rq :: l2) as (l & l' & E)%list_elem_of_split.
      { assert (next ∈ l1 ++ l2) as Hin by (rewrite E2; set_solver +). set_solver +Hin. }
      exists h2, l, l'. by rewrite E1, E. }
    assert (exists l2', L !! h2 = Some l2') as [l2' El2].
    { apply lookup_insert_Some in E2 as [[-> _]|[_ E2]]; eauto. }
    split; [exact (lrep_entry_head _ _ _ _ _ _ _ _ (core_lists _ _ Hc) E El2)|
            exact (lrep_entry_head _ _ _ _ _ _ _ _ (core_lists _ _ Hc) E E1)]. }
  eexists s', _, _. split_and!; [done|exact Hc'|..].
  - by heads_lookup.
  - intros Hh. by heads_lookup.
  - by heads_lookup.
  - intros h ???. by heads_lookup.
  - rewrite Er. by heads_lookup.
  - done.
Qed.

(** a merge can put an asynchronous write onto the synchronous fifo, since the
    block layer only compares the data direction of the two requests.  Then
    [sio_former_request] compares the predecessor with the head of the wrong
    fifo and returns the list head, which is not a request. *)
Theorem sio_former_request_misfiled s L l1 rq l2 next k2 r n :
  sio_inv s L (l1 ++ rq :: l2) (next :: k2) -> rqs s !! rq = Some r -> rqs s !! next = Some n ->
  rq_is_sync r = false -> time_before (rq_fifo_time n) (rq_fifo_time r) = true ->
  exists s', sio_merged_requests rq next s = Some (tt, s') /\
    sio_former_request rq s' = Some (fifo_list (elevator_data s') true, s') /\
    rqs s' !! fifo_list (elevator_data s') true = None.
Proof.
  intros Hinv Hr Hn Hsync Ht. pose proof (sio_nodup _ _ _ _ Hinv) as Hnd.
  destruct Hinv as [Hc Ha Hs _ Hn1 _ _ _ _ Hhd].
  assert (rq <> next) as Hne.
  { intros ->. apply NoDup_app in Hnd as (_ & Hnd & _). apply (Hnd next); set_solver +. }
  destruct (sio_merged_requests_run s L (fifo_list (elevator_data s) false) l1 rq l2
    (fifo_list (elevator_data s) true) [] next k2 r n) as (s' & L' & Hrun & [Hl' _] & EL & Ed & Er);
    [done|done|by heads_lookup|done..|].
  exists s'. rewrite Ed. split_and!; [done|..].
  - unfold sio_former_request. erewrite bind_run by done.
    erewrite bind_run. 2:{ apply get_rq_run. rewrite Er. by heads_lookup. }
    pose proof (lrep_entry_head _ _ _ [] _ _ _ _ (core_lists _ _ Hc) Hs Hs) as Hnh.
    erewrite bind_run.
    2:{ apply on_lists_read. eapply (heap_get_prev _ _ (fifo_list (elevator_data s) true) [] rq k2 Hl').
        rewrite EL. by heads_lookup. }
    rewrite Ed. change (rq_is_sync (set_csd_list _ r)) with (rq_is_sync r). rewrite Hsync.
    change (lastd ?h []) with h.
    by rewrite (proj2 (Z.eqb_neq _ _) (not_eq_sym Hn1)).
  - rewrite Er. rewrite !lookup_insert_ne; [apply Hhd|..].
    + intros ->. specialize (Hhd true). congruence.
    + intros ->. specialize (Hhd true). congruence.
Qed.

(** ** Concrete states *)
(** An asynchronous write [4] and two reads [8] and [12] pending, all expired. *)
Definition demo_heads : heads := {[ 100 := [4]; 200 := [8; 12]; 300 := []; 16 := [] ]}.
Definition demo_sio : elv sio_data :=
  Elv {[ 4 := demo_rq 80 1 900; 8 := demo_rq 10 0 500; 12 := demo_rq 20 0 600; 16 := demo_rq 30 0 0 ]}
    (demo_lists [(100, [4]); (200, [8; 12]); (300, []); (16, [])]) (demo_queue 300 3)
    (SioData 100 200 0 5000 500 0) 1000.

Lemma demo_sio_inv : sio_inv demo_sio demo_heads [4] [8; 12].
Proof.
  split; try reflexivity; try discriminate.
  - split; [apply lrep_check_ok; vm_compute; reflexivity|].
    apply hash_ok_empty; [reflexivity|]. apply (bool_decide_unpack _). vm_compute. exact I.
  - vm_compute. eauto.
  - apply Forall_forall. apply (bool_decide_unpack _). vm_compute. exact I.
  - repeat (constructor; [apply valid_dec; reflexivity|]). constructor.
  - intros []; reflexivity.
Qed.

(** The state after [n] dispatches. *)
Fixpoint dispatches (n : nat) (s : elv sio_data) : elv sio_data :=
  match n with
  | O => s
  | S n => match sio_dispatch_requests 0 s with Some (_, s') => dispatches n s' | None => s end
  end.

Lemma sio_no_starvation_witness :
  exists L' la' ls' d, sio_inv (dispatches 2 demo_sio) L' la' ls' /\
    L' !! queue_head (queue (dispatches 2 demo_sio)) = Some d /\ 4 ∈ d.
Proof.
  apply (sio_no_starvation demo_sio demo_heads [4] [8; 12] [] 4 [] 2 0).
  - exact demo_sio_inv.
  - unfold sio_bounds. cbn. unfold INT_MAX. lia.
  - reflexivity.
  - intros y Hy. apply list_elem_of_singleton in Hy as ->. exists (demo_rq 80 1 900).
    split; [reflexivity|]. vm_compute. split; reflexivity.
  - apply (run_cons _ 1 0 (dispatches 1 demo_sio) 1 0).
    + apply (step_dispatch _ 1). vm_compute. reflexivity.
    + apply (run_cons _ 1 0 (dispatches 2 demo_sio) 0 0); [|constructor].
      apply (step_dispatch _ 1). vm_compute. reflexivity.
  - vm_compute. discriminate.
Defined.

Lemma sio_merged_requests_witness :
  exists s' L' r', sio_merged_requests 4 8 demo_sio = Some (tt, s') /\ core s' L' /\
    L' !! 200 = Some [4; 12] /\ (100 <> 200 -> L' !! 100 = Some []) /\ L' !! 8 = Some [] /\
    (forall h, h <> 100 -> h <> 200 -> h <> 8 -> L' !! h = demo_heads !! h) /\
    rqs s' !! 4 = Some r' /\ rq_fifo_time r' = 500.
Proof.
  apply (sio_merged_requests_correct demo_sio demo_heads 100 [] 4 [] 200 [] 8 [12] (demo_rq 80 1 900) (demo_rq 10 0 500));
    [exact (si_core _ _ _ _ demo_sio_inv)|reflexivity..|discriminate|reflexivity].
Defined.

Lemma sio_former_request_misfiled_witness :
  exists s', sio_merged_requests 4 8 demo_sio = Some (tt, s') /\
    sio_former_request 4 s' = Some (fifo_list (elevator_data s') true, s') /\
    rqs s' !! fifo_list (elevator_data s') true = None.
Proof.
  apply (sio_former_request_misfiled demo_sio demo_heads [] 4 [] 8 [12] (demo_rq 80 1 900) (demo_rq 10 0 500));
    [exact demo_sio_inv|reflexivity..].
Defined.

Lemma elv_drain_elevator_witness :
  exists s' L' d', elv_drain_elevator iosched_sio demo_sio = Some (tt, s') /\ sio_ok s' L' [] /\
    L' !! queue_head (queue s') = Some d' /\ d' ≡ₚ [] ++ [4; 8; 12] /\
    u32 (nr_sorted (queue s')) = 0 /\ last_merge (queue s') = 0.
Proof.
  apply (elv_drain_elevator_correct iosched_sio sio_ok demo_sio demo_heads [4; 8; 12] []).
  - exists [4], [8; 12]. split; [exact demo_sio_inv|reflexivity].
  - reflexivity.
  - reflexivity.
  - left. reflexivity.
Defined.

Lemma insert_sort_witness :
  exists s' L' pend' d', insert_sort iosched_sio 16 demo_sio = Some (tt, s') /\ sio_ok s' L' pend' /\
    L' !! queue_head (queue s') = Some d' /\ pend' ++ d' ≡ₚ 16 :: [4; 8; 12] ++ [] /\ 16 ∈ pend' /\
    excess s' pend' = 0 /\ cache_ok s' pend'.
Proof.
  apply (insert_sort_correct iosched_sio sio_ok demo_sio demo_heads [4; 8; 12] [] 16 (demo_rq 30 0 0)).
  - exists [4], [8; 12]. split; [exact demo_sio_inv|reflexivity].
  - reflexivity.
  - reflexivity.
  - apply (bool_decide_unpack _). vm_compute. exact I.
  - discriminate.
  - apply valid_dec. reflexivity.
  - reflexivity.
  - reflexivity.
  - reflexivity.
  - reflexivity.
  - left. reflexivity.
Defined.
End Sio.
