(* ===== verification/NoopSched.v ===== *)
(** * The no-op I/O scheduler

    block/noop-iosched.c: one fifo; a dispatch sorts its first request into the
    dispatch queue. *)
From stdpp Require Import prelude gmap list.
From Stdlib Require Import ZArith Lia.
From S2P Require Import Prelude ListHead ListHeap Rbtree SectorTree Elevator Scheduler.
Open Scope Z_scope.

Module Noop.

(** The address of the list head [nd->queue]. *)
Record noop_data := NoopData { nd_queue : Z }.

Definition noop_merged_requests (rq next : Z) : M (elv noop_data) unit := on_lists (list_del_init next).

Definition noop_dispatch (force : Z) : M (elv noop_data) Z :=
  nd ← get_data;
  e ← on_lists (list_empty (nd_queue nd));
  if negb e then
    rq ← on_lists (get_next (nd_queue nd));
    on_lists (list_del_init rq) ;;
    elv_dispatch_sort rq ;;
    mret 1
  else mret 0.

Definition noop_add_request (rq : Z) : M (elv noop_data) unit :=
  nd ← get_data; on_lists (list_add_tail rq (nd_queue nd)).

Definition noop_queue_empty : M (elv noop_data) bool :=
  nd ← get_data; on_lists (list_empty (nd_queue nd)).

Definition noop_former_request (rq : Z) : M (elv noop_data) Z :=
  nd ← get_data;
  p ← on_lists (get_prev rq);
  if p =? nd_queue nd then mret 0 else mret p.

Definition noop_latter_request (rq : Z) : M (elv noop_data) Z :=
  nd ← get_data;
  n ← on_lists (get_next rq);
  if n =? nd_queue nd then mret 0 else mret n.

Definition noop_init_queue (alloc : option Z) : M mem (option noop_data) :=
  match alloc with
  | None => mret None
  | Some h => INIT_LIST_HEAD h ;; mret (Some (NoopData h))
  end.

Definition noop_exit_queue : M (elv noop_data) unit :=
  nd ← get_data; e ← on_lists (list_empty (nd_queue nd)); BUG_ON (negb e).

Definition elevator_noop : elevator_ops noop_data := {|
  elevator_merge_fn := None;
  elevator_merged_fn := None;
  elevator_merge_req_fn := Some noop_merged_requests;
  elevator_allow_merge_fn := None;
  elevator_dispatch_fn := noop_dispatch;
  elevator_add_req_fn := noop_add_request;
  elevator_deactivate_req_fn := None;
  elevator_queue_empty_fn := Some noop_queue_empty;
  elevator_former_req_fn := Some noop_former_request;
  elevator_latter_req_fn := Some noop_latter_request;
|}.

(** ** The invariant *)
Record noop_inv (s : elv noop_data) (L : heads) (l : list Z) : Prop := {
  ni_core : core s L;
  ni_queue : L !! nd_queue (elevator_data s) = Some l;
  ni_ne : nd_queue (elevator_data s) <> queue_head (queue s);
  ni_stored : forall x, x ∈ l -> is_Some (rqs s !! x);
  ni_disp : exists d, L !! queue_head (queue s) = Some d /\ forall x, x ∈ d -> is_Some (rqs s !! x);
  ni_head : rqs s !! nd_queue (elevator_data s) = None;
}.

Section invariant.
Implicit Types (s : elv noop_data) (L : heads) (l d : list Z) (x : Z).

Lemma noop_dispatch_none s L force : noop_inv s L [] -> noop_dispatch force s = Some (0, s).
Proof.
  intros [[Hl _] Hq _ _ _ _]. unfold noop_dispatch. erewrite bind_run by done.
  by erewrite bind_run by (apply on_lists_read; by eapply heap_list_empty).
Qed.

Lemma noop_dispatch_some s L x l d force : noop_inv s L (x :: l) -> L !! queue_head (queue s) = Some d ->
  exists s' L' e1 e2 r, noop_dispatch force s = Some (1, s') /\ noop_inv s' L' l /\
    rqs s !! x = Some r /\ dispatched s s' x r /\ d = e1 ++ e2 /\
    L' !! queue_head (queue s) = Some (e1 ++ x :: e2).
Proof.
  intros [[Hl Hh] Hq Hne Hst (d' & Hd' & Hdst) Hhd] Hd. rewrite Hd in Hd'. injection Hd' as <-.
  destruct (Hst x) as [r Hr]; [set_solver +|].
  pose proof (lrep_entry_head _ _ _ [] _ _ _ _ Hl Hq Hd) as Hxq.
  pose proof (lrep_entry_head _ _ _ [] _ _ _ _ Hl Hq Hq) as Hxh.
  destruct (heap_del_init _ _ _ [] _ _ Hl Hq) as (m & Hdel & Hl1).
  destruct (elv_dispatch_sort_run (with_lists m s) (<[x := []]> (<[nd_queue (elevator_data s) := l]> L)) x r d)
    as (s' & e1 & e2 & Hrun & Hdi & -> & Hc' & _); cbn; try done.
  { split; [done|]. by apply hash_ok_lists. } { by heads_lookup. } { by heads_lookup. }
  destruct Hdi as [D1 D2 D3 D4 D5 D6]. cbn in D1, D2, D3, D4, D5, D6, Hc'.
  assert (forall y, is_Some (rqs s !! y) -> is_Some (rqs s' !! y)) as Hkeep.
  { intros y Hy. rewrite D1. destruct (decide (y = x)) as [->|]; [rewrite lookup_insert_eq; eauto|].
    by rewrite lookup_insert_ne. }
  eexists s', _, e1, e2, r. split_and!.
  - unfold noop_dispatch. erewrite bind_run by done.
    erewrite bind_run by (apply on_lists_read; by eapply heap_list_empty).
    rewrite bool_decide_false by done. cbn [negb].
    erewrite bind_run by (apply on_lists_read; by erewrite heap_get_next by done).
    erewrite bind_run by (by apply on_lists_run). by erewrite bind_run by done.
  - split; [exact Hc'|..]; rewrite ?D2, ?D4.
    + by heads_lookup.
    + done.
    + intros y Hy. apply Hkeep, Hst. set_solver +Hy.
    + exists (e1 ++ x :: e2). heads_lookup. split; [done|]. intros y Hy. apply Hkeep.
      destruct (decide (y = x)) as [->|Hyx]; [eauto|]. apply Hdst. set_solver +Hy Hyx.
    + rewrite D1, lookup_insert_ne; [done|]. intros ->. congruence.
  - done.
  - by split.
  - done.
  - by heads_lookup.
Qed.

Lemma noop_add_run s L l x r : noop_inv s L l -> L !! x = Some [] -> x <> queue_head (queue s) ->
  rqs s !! x = Some r ->
  exists s' L', noop_add_request x s = Some (tt, s') /\ noop_inv s' L' (l ++ [x]) /\ queue s' = queue s /\
    L' !! queue_head (queue s) = L !! queue_head (queue s).
Proof.
  intros [[Hl Hh] Hq Hne Hst (d & Hd & Hdst) Hhd] Hx Hxq Hr.
  assert (x <> nd_queue (elevator_data s)) as Hxh by (intros ->; congruence).
  destruct (heap_add_tail _ _ _ _ _ Hl Hq Hx Hxh) as (m & Hadd & Hl').
  exists (with_lists m s), (<[nd_queue (elevator_data s) := l ++ [x]]> (delete x L)). split_and!.
  - unfold noop_add_request. erewrite bind_run by done. by apply on_lists_run.
  - split; cbn; try done; try (by heads_lookup).
    + split; [done|]. by apply hash_ok_lists.
    + intros y [Hy| ->%list_elem_of_singleton]%elem_of_app; eauto.
    + exists d. by heads_lookup.
  - done.
  - by heads_lookup.
Qed.
End invariant.

#[export] Instance noop_sched : IOSched elevator_noop noop_inv.
Proof.
  split.
  - by intros s L pend [Hc _ _ _ _ _].
  - intros s L pend [_ _ _ _ (d & Hd & _) _]. eauto.
  - intros s L pend [[Hl _] Hq _ _ _ _]. pose proof (lrep_nodup _ _ _ _ Hl Hq) as H. by apply NoDup_cons in H as [_ ?].
  - intros s L pend x [_ _ _ Hst _ _]. auto.
  - intros s s' L pend x r [[Hl Hh] Hq Hne Hst (d & Hd & Hdst) Hhd] Hr _ [r' Er] Hh' El Eq Ed _.
    assert (forall y, is_Some (rqs s !! y) -> is_Some (rqs s' !! y)) as Hkeep.
    { intros y Hy. rewrite Er. destruct (decide (y = x)) as [->|]; [rewrite lookup_insert_eq; eauto|].
      by rewrite lookup_insert_ne. }
    split; rewrite ?Ed, ?Eq; try done; auto.
    + split; [by rewrite El|done].
    + exists d. auto.
    + rewrite Er, lookup_insert_ne; [done|]. intros ->. congruence.
  - intros s L force Hinv. exists s. split_and!; [by eapply noop_dispatch_none|done|done].
  - intros s L [|x pend] d force Hinv Hne Hd; [done|].
    destruct (noop_dispatch_some s L x pend d force Hinv Hd)
      as (s' & L' & e1 & e2 & r & Hrun & Hinv' & _ & [D1 D2 D3 D4 D5 D6] & -> & Hd').
    exists x, pend, e1, e2, s', L'. split_and!; try done.
    + by eapply sent_excess.
    + by eapply sent_cache.
  - intros s L pend d x r Hinv Hd Hx _ Hxq _ Hr.
    destruct (noop_add_run s L pend x r Hinv Hx Hxq Hr) as (s' & L' & Hrun & Hinv' & Eq & Ed).
    exists (pend ++ [x]), d, s', L'. assert (pend ++ [x] ≡ₚ x :: pend) as Hp by solve_Permutation.
    split_and!; try done.
    + by rewrite Eq.
    + by rewrite Ed.
    + by rewrite Hp.
    + rewrite Hp. set_solver +.
    + unfold excess. rewrite Eq, Hp, u32_sub_l. cbn [length]. f_equal. lia.
    + unfold cache_ok. by rewrite Eq, Hp.
Qed.

(** A no-op dispatch takes the oldest request of the fifo, whatever its
    sector, and links it into the dispatch queue so that no request already
    there changes its place relative to the others. *)
Theorem noop_dispatch_fifo s L x l d force :
  noop_inv s L (x :: l) -> L !! queue_head (queue s) = Some d ->
  exists s' L' e1 e2, noop_dispatch force s = Some (1, s') /\ noop_inv s' L' l /\ d = e1 ++ e2 /\
    L' !! queue_head (queue s') = Some (e1 ++ x :: e2) /\
    nr_sorted (queue s') = u32 (nr_sorted (queue s) - 1).
Proof.
  intros Hinv Hd. destruct (noop_dispatch_some s L x l d force Hinv Hd)
    as (s' & L' & e1 & e2 & r & Hrun & Hinv' & _ & Hdi & -> & Hd').
  exists s', L', e1, e2. destruct Hdi as [_ _ _ D4 D5 _]. rewrite D4. done.
Qed.

Definition demo_heads : heads := {[ 100 := [8; 4]; 300 := [] ]}.
Definition demo_noop : elv noop_data :=
  Elv {[ 4 := demo_rq 80 0 0; 8 := demo_rq 10 0 0 ]}
    (demo_lists [(100, [8; 4]); (300, [])]) (demo_queue 300 2) (NoopData 100) 0.

Lemma noop_dispatch_fifo_witness :
  exists s' L' e1 e2, noop_dispatch 0 demo_noop = Some (1, s') /\ noop_inv s' L' [4] /\ [] = e1 ++ e2 /\
    L' !! queue_head (queue s') = Some (e1 ++ 8 :: e2) /\
    nr_sorted (queue s') = u32 (nr_sorted (queue demo_noop) - 1).
Proof.
  apply (noop_dispatch_fifo demo_noop demo_heads 8 [4] [] 0); [|reflexivity].
  split; try reflexivity; try discriminate.
  - split; [apply lrep_check_ok; vm_compute; reflexivity|].
    apply hash_ok_empty; [reflexivity|]. apply (bool_decide_unpack _). vm_compute. exact I.
  - apply Forall_forall. apply (bool_decide_unpack _). vm_compute. exact I.
  - exists []. split; [reflexivity|]. set_solver +.
Defined.
End Noop.
