(* ===== verification/VrSched.v ===== *)
(** * The V(R) I/O scheduler

    block/vr-iosched.c: requests are kept in a sector-sorted tree; the next one
    is the neighbour of the head position with the lower penalty, and after a
    batch of dispatches the oldest expired request.  The model is generic in the
    implementation of the tree, which it uses through [SectorTree]. *)
From stdpp Require Import prelude gmap list sorting.
From Stdlib Require Import ZArith Lia ZifyBool.
From S2P Require Import Prelude ListHead ListHeap Rbtree SectorTree Elevator Scheduler.
Open Scope Z_scope.

Module Vr.

Definition sync_expire : Z := HZ / 2.
Definition async_expire : Z := 5 * HZ.
Definition fifo_batch : Z := 16.
Definition rev_penalty : Z := 10.
Definition FORWARD : Z := 0.
Definition BACKWARD : Z := 1.

Record vr_data (T : Type) := VrData {
  sort_list : T;
  fifo_list_async : Z;
  fifo_list_sync : Z;            (* the addresses of the list heads *)
  next_rq : Z;
  prev_rq : Z;
  nbatched : Z;                  (* unsigned int *)
  last_sector : Z;               (* sector_t *)
  head_dir : Z;
  fifo_expire_async : Z;
  fifo_expire_sync : Z;
  vd_fifo_batch : Z;
  vd_rev_penalty : Z;            (* int *)
}.
Arguments VrData {T}.
Arguments sort_list {T}.
Arguments fifo_list_async {T}.
Arguments fifo_list_sync {T}.
Arguments next_rq {T}.
Arguments prev_rq {T}.
Arguments nbatched {T}.
Arguments last_sector {T}.
Arguments head_dir {T}.
Arguments fifo_expire_async {T}.
Arguments fifo_expire_sync {T}.
Arguments vd_fifo_batch {T}.
Arguments vd_rev_penalty {T}.

Section vr.
Context {T : Type} `{!SectorTree T}.
Implicit Types (vd : vr_data T).

Definition fifo_list vd (sync : bool) : Z := if sync then fifo_list_sync vd else fifo_list_async vd.
Definition fifo_expire vd (sync : bool) : Z := if sync then fifo_expire_sync vd else fifo_expire_async vd.

Definition set_sort_list (t : T) vd : vr_data T :=
  VrData t (fifo_list_async vd) (fifo_list_sync vd) (next_rq vd) (prev_rq vd) (nbatched vd) (last_sector vd)
    (head_dir vd) (fifo_expire_async vd) (fifo_expire_sync vd) (vd_fifo_batch vd) (vd_rev_penalty vd).
Definition set_next_rq (v : Z) vd : vr_data T :=
  VrData (sort_list vd) (fifo_list_async vd) (fifo_list_sync vd) v (prev_rq vd) (nbatched vd) (last_sector vd)
    (head_dir vd) (fifo_expire_async vd) (fifo_expire_sync vd) (vd_fifo_batch vd) (vd_rev_penalty vd).
Definition set_prev_rq (v : Z) vd : vr_data T :=
  VrData (sort_list vd) (fifo_list_async vd) (fifo_list_sync vd) (next_rq vd) v (nbatched vd) (last_sector vd)
    (head_dir vd) (fifo_expire_async vd) (fifo_expire_sync vd) (vd_fifo_batch vd) (vd_rev_penalty vd).
Definition set_nbatched (v : Z) vd : vr_data T :=
  VrData (sort_list vd) (fifo_list_async vd) (fifo_list_sync vd) (next_rq vd) (prev_rq vd) v (last_sector vd)
    (head_dir vd) (fifo_expire_async vd) (fifo_expire_sync vd) (vd_fifo_batch vd) (vd_rev_penalty vd).
Definition set_position (sector dir : Z) vd : vr_data T :=
  VrData (sort_list vd) (fifo_list_async vd) (fifo_list_sync vd) (next_rq vd) (prev_rq vd) (nbatched vd) sector
    dir (fifo_expire_async vd) (fifo_expire_sync vd) (vd_fifo_batch vd) (vd_rev_penalty vd).

Notation V := (M (elv (vr_data T))).

(** An operation on the tree [vd->sort_list]. *)
Definition on_tree {A} (m : M T A) : V A :=
  λ s, match m (sort_list (elevator_data s)) with
       | Some (a, t) => Some (a, upd_data (set_sort_list t) s)
       | None => None
       end.

Definition rb_add (rq : Z) : V Z := s ← get; on_tree (st_add (sector_of s) rq).

(** [BUG_ON(next && next == prev); BUG_ON(next && prev && pos(next) < pos(prev))]. *)
Definition vr_check_neighbours : V unit :=
  vd ← get_data;
  BUG_ON (negb (next_rq vd =? 0) && (next_rq vd =? prev_rq vd)) ;;
  if negb (next_rq vd =? 0) && negb (prev_rq vd =? 0) then
    n ← get_rq (next_rq vd);
    p ← get_rq (prev_rq vd);
    BUG_ON (blk_rq_pos n <? blk_rq_pos p)
  else mret tt.

Definition vr_del_rq_rb (rq : Z) : V unit :=
  vd ← get_data;
  (if next_rq vd =? rq then n ← on_tree (st_latter rq); set_data (set_next_rq n)
   else if prev_rq vd =? rq then p ← on_tree (st_former rq); set_data (set_prev_rq p)
   else mret tt) ;;
  vr_check_neighbours ;;
  on_tree (st_del rq).

Definition vr_remove_request (rq : Z) : V unit := rq_fifo_clear rq ;; vr_del_rq_rb rq.

Definition vr_move_request (rq : Z) : V unit :=
  r ← get_rq rq;
  vd ← get_data;
  let dir := if blk_rq_pos r >? last_sector vd then FORWARD else BACKWARD in
  set_data (set_position (blk_rq_pos r) dir) ;;
  n ← on_tree (st_latter rq); set_data (set_next_rq n) ;;
  p ← on_tree (st_former rq); set_data (set_prev_rq p) ;;
  BUG_ON (negb (n =? 0) && (n =? p)) ;;
  vr_remove_request rq ;;
  elv_dispatch_add_tail rq ;;
  set_data (λ vd, set_nbatched (u32 (nbatched vd + 1)) vd).

(** The updates of [next_rq] and [prev_rq] after [rq] was linked. *)
Definition vr_new_neighbour (rq : Z) : V unit :=
  vd ← get_data;
  r ← get_rq rq;
  if blk_rq_pos r >=? last_sector vd then
    if next_rq vd =? 0 then set_data (set_next_rq rq)
    else n ← get_rq (next_rq vd);
         if blk_rq_pos n >? blk_rq_pos r then set_data (set_next_rq rq) else mret tt
  else
    if prev_rq vd =? 0 then set_data (set_prev_rq rq)
    else p ← get_rq (prev_rq vd);
         if blk_rq_pos p <? blk_rq_pos r then set_data (set_prev_rq rq) else mret tt.

Definition vr_add_rq_rb (rq : Z) : V unit :=
  alias ← rb_add rq;
  (if alias =? 0 then mret tt
   else vr_move_request alias ;; alias ← rb_add rq; BUG_ON (negb (alias =? 0))) ;;
  vr_new_neighbour rq ;;
  vr_check_neighbours.

Definition vr_add_request (rq : Z) : V unit :=
  r ← get_rq rq;
  let dir := rq_is_sync r in
  vr_add_rq_rb rq ;;
  vd ← get_data;
  if fifo_expire vd dir =? 0 then mret tt else
  s ← get;
  rq_set_fifo_time rq (u32 (jiffies s + fifo_expire vd dir)) ;;
  on_lists (list_add_tail rq (fifo_list vd dir)).

(** The V(R) scheduler has no [elevator_allow_merge_fn]. *)
Definition vr_merge (b : bio) : V (Z * Z) :=
  let sector := u64 (bi_sector b + bio_sectors b) in
  s ← get;
  rq ← on_tree (st_find (sector_of s) sector);
  ok ← (if rq =? 0 then mret false else elv_rq_merge_ok None rq b);
  if (ok : bool) then mret (ELEVATOR_FRONT_MERGE, rq) else mret (ELEVATOR_NO_MERGE, 0).

Definition vr_merged_request (req type : Z) : V unit :=
  if type =? ELEVATOR_FRONT_MERGE then vr_del_rq_rb req ;; vr_add_rq_rb req else mret tt.

Definition vr_merged_requests (rq next : Z) : V unit :=
  fifo_merge rq next ;; vr_remove_request next.

Definition vr_expired_request (ddir : bool) : V Z := vd ← get_data; fifo_expired (fifo_list vd ddir).

Definition vr_check_fifo : V Z :=
  rq_sync ← vr_expired_request true;
  rq_async ← vr_expired_request false;
  if negb (rq_async =? 0) && negb (rq_sync =? 0) then
    a ← get_rq rq_async;
    s ← get_rq rq_sync;
    if time_after (rq_fifo_time a) (rq_fifo_time s) then mret rq_sync else mret rq_async
  else if negb (rq_sync =? 0) then mret rq_sync
  else mret rq_async.

(** The value of [do_div(n, base)]: the remainder. *)
Definition do_div (n base : Z) : Z := n mod u32 base.

Definition vr_choose_request : V Z :=
  vd ← get_data;
  let penalty := if vd_rev_penalty vd =? 0 then INT_MAX else vd_rev_penalty vd in
  let next := next_rq vd in
  let prev := prev_rq vd in
  BUG_ON (negb (prev =? 0) && (prev =? next)) ;;
  if prev =? 0 then mret next
  else if next =? 0 then mret prev
  else
    n ← get_rq next;
    p ← get_rq prev;
    let next_pen := u64 (blk_rq_pos n - last_sector vd) in
    let prev_pen := u64 (last_sector vd - blk_rq_pos p) in
    let next_pen := if head_dir vd =? FORWARD then do_div next_pen penalty else next_pen in
    let prev_pen := if head_dir vd =? FORWARD then prev_pen else do_div prev_pen penalty in
    if next_pen <=? prev_pen then mret next else mret prev.

Definition vr_dispatch_requests (force : Z) : V Z :=
  vd ← get_data;
  rq ← (if nbatched vd >? u32 (vd_fifo_batch vd) then set_data (set_nbatched 0) ;; vr_check_fifo else mret 0);
  rq ← (if rq =? 0 then vr_choose_request else mret rq);
  if rq =? 0 then mret 0 else vr_move_request rq ;; mret 1.

Definition vr_queue_empty : V bool := on_tree st_is_empty.

Definition vr_exit_queue : V unit := e ← on_tree st_is_empty; BUG_ON (negb e).

(** [tree] is the memory of tree nodes, whose root [RB_ROOT] clears. *)
Definition vr_init_queue (alloc : option (Z * Z)) (tree : T) : M mem (option (vr_data T)) :=
  match alloc with
  | None => mret None
  | Some (async, sync) =>
      INIT_LIST_HEAD sync ;; INIT_LIST_HEAD async ;;
      match st_init tree with
      | Some (_, t) => mret (Some (VrData t async sync 0 0 0 0 FORWARD async_expire sync_expire fifo_batch rev_penalty))
      | None => oops
      end
  end.

(** The sysfs attributes, for the number that was read. *)
Definition set_settings (async sync batch pen : Z) vd : vr_data T :=
  VrData (sort_list vd) (fifo_list_async vd) (fifo_list_sync vd) (next_rq vd) (prev_rq vd) (nbatched vd)
    (last_sector vd) (head_dir vd) async sync batch pen.
Definition vr_sync_expire_store (data : Z) vd : vr_data T :=
  set_settings (fifo_expire_async vd) (store_value 0 INT_MAX data true) (vd_fifo_batch vd) (vd_rev_penalty vd) vd.
Definition vr_async_expire_store (data : Z) vd : vr_data T :=
  set_settings (store_value 0 INT_MAX data true) (fifo_expire_sync vd) (vd_fifo_batch vd) (vd_rev_penalty vd) vd.
Definition vr_fifo_batch_store (data : Z) vd : vr_data T :=
  set_settings (fifo_expire_async vd) (fifo_expire_sync vd) (store_value 0 INT_MAX data false) (vd_rev_penalty vd) vd.
Definition vr_rev_penalty_store (data : Z) vd : vr_data T :=
  set_settings (fifo_expire_async vd) (fifo_expire_sync vd) (vd_fifo_batch vd) (store_value 0 INT_MAX data false) vd.

Definition iosched_vr : elevator_ops (vr_data T) := {|
  elevator_merge_fn := Some vr_merge;
  elevator_merged_fn := Some vr_merged_request;
  elevator_merge_req_fn := Some vr_merged_requests;
  elevator_allow_merge_fn := None;
  elevator_dispatch_fn := vr_dispatch_requests;
  elevator_add_req_fn := vr_add_request;
  elevator_deactivate_req_fn := None;
  elevator_queue_empty_fn := Some vr_queue_empty;
  elevator_former_req_fn := Some (λ rq, on_tree (st_former rq));
  elevator_latter_req_fn := Some (λ rq, on_tree (st_latter rq));
|}.

(** ** The invariant *)
(** The part of the invariant about the tree: [tp] are the requests before the
    head position, [tn] those from it on, in sector order [pos]. *)
Record vr_tree (pos : Z -> Z) vd (tp tn : list Z) : Prop := {
  vt_view : st_view (sort_list vd) (tp ++ tn);
  vt_sorted : sorted pos (tp ++ tn);
  vt_prev : prev_rq vd = last0 tp;
  vt_next : next_rq vd = hd0 tn;
  vt_before : forall a, a ∈ tp -> pos a < last_sector vd;
  vt_after : forall b, b ∈ tn -> last_sector vd <= pos b;
}.

Implicit Types (s : elv (vr_data T)) (pos : Z -> Z) (tp tn : list Z) (x : Z).

Lemma on_tree_run {A} (m : M T A) s a t : m (sort_list (elevator_data s)) = Some (a, t) ->
  on_tree m s = Some (a, upd_data (set_sort_list t) s).
Proof. unfold on_tree. by intros ->. Qed.
Lemma on_tree_read {A} (m : M T A) s a :
  m (sort_list (elevator_data s)) = Some (a, sort_list (elevator_data s)) -> on_tree m s = Some (a, s).
Proof. unfold on_tree. intros ->. do 2 f_equal. destruct s as [? ? ? [] ?]. done. Qed.

Lemma hd0_cases l : l = [] /\ hd0 l = 0 \/ hd0 l ∈ l.
Proof. destruct l; [by left|right; cbn; set_solver +]. Qed.
Lemma last0_cases l : l = [] /\ last0 l = 0 \/ last0 l ∈ l.
Proof.
  destruct (decide (l = [])) as [->|Hne]; [by left|right].
  destruct (exists_last Hne) as (l' & y & ->). rewrite last0_app. cbn. set_solver +.
Qed.

(** The requests that [next_rq] and [prev_rq] refer to in a state whose sectors
    agree with [pos] on [tp ++ tn]. *)
Definition agrees pos s (l : list Z) : Prop :=
  forall y, y ∈ l -> exists r, rqs s !! y = Some r /\ blk_rq_pos r = pos y.

Lemma vr_check_run pos s tp tn :
  sorted pos (tp ++ tn) -> Forall valid (tp ++ tn) -> agrees pos s (tp ++ tn) ->
  next_rq (elevator_data s) = hd0 tn -> prev_rq (elevator_data s) = last0 tp ->
  vr_check_neighbours s = Some (tt, s).
Proof.
  intros Hs Hv Ha En Ep. unfold vr_check_neighbours. erewrite bind_run by done. rewrite En, Ep.
  apply sorted_app in Hs as (_ & _ & Hlt). rewrite Forall_app, !Forall_forall in Hv. destruct Hv as [Hvp Hvn].
  destruct (hd0_cases tn) as [[_ E0]|Hn]; [by rewrite E0|].
  rewrite (proj2 (Z.eqb_neq _ 0)) by apply (Hvn _ Hn).
  destruct (last0_cases tp) as [[_ E0]|Hp].
  { rewrite E0. rewrite (proj2 (Z.eqb_neq (hd0 tn) 0)) by apply (Hvn _ Hn). done. }
  specialize (Hlt _ _ Hp Hn).
  rewrite (proj2 (Z.eqb_neq (hd0 tn) (last0 tp))) by (intros E; rewrite E in Hlt; lia).
  erewrite bind_run by done. rewrite (proj2 (Z.eqb_neq _ 0)) by apply (Hvp _ Hp). cbn [negb andb].
  destruct (Ha (hd0 tn)) as (rn & Hrn & En'); [set_solver +Hn|].
  destruct (Ha (last0 tp)) as (rp & Hrp & Ep'); [set_solver +Hp|].
  erewrite bind_run by (by apply get_rq_run). erewrite bind_run by (by apply get_rq_run).
  rewrite En', Ep', (proj2 (Z.ltb_ge _ _)) by lia. done.
Qed.

(** The tail of [vr_del_rq_rb], once the neighbours are right for the tree
    without [x]. *)
Lemma vr_del_tail pos s tp tn t1 x t2 :
  st_view (sort_list (elevator_data s)) (t1 ++ x :: t2) -> sorted pos (t1 ++ x :: t2) ->
  tp ++ tn = t1 ++ t2 -> agrees pos s (t1 ++ t2) ->
  next_rq (elevator_data s) = hd0 tn -> prev_rq (elevator_data s) = last0 tp ->
  exists t, (vr_check_neighbours ;; on_tree (st_del x)) s = Some (tt, upd_data (set_sort_list t) s) /\
    st_view t (tp ++ tn).
Proof.
  intros Hview Hs E Ha En Ep. pose proof (st_view_valid _ _ Hview) as Hv.
  apply sorted_mid in Hs as (Hs & _ & _). rewrite Forall_app, Forall_cons in Hv.
  destruct (st_del_view _ _ _ _ Hview) as (t & Hdel & Hview').
  exists t. rewrite E. split; [|done].
  erewrite bind_run. 2:{ apply (vr_check_run pos s tp tn); rewrite ?E; try done. apply Forall_app; tauto. }
  by apply on_tree_run.
Qed.

(** [vr_del_rq_rb] of a request of the tree; the sector of that request may
    have changed since it was linked. *)
Lemma vr_del_run pos s tp tn t1 x t2 :
  vr_tree pos (elevator_data s) tp tn -> tp ++ tn = t1 ++ x :: t2 -> agrees pos s (t1 ++ t2) ->
  exists vd' tp' tn', vr_del_rq_rb x s = Some (tt, upd_data (λ _, vd') s) /\ tp' ++ tn' = t1 ++ t2 /\
    vr_tree pos vd' tp' tn' /\
    exists t n p, vd' = set_sort_list t (set_next_rq n (set_prev_rq p (elevator_data s))).
Proof.
  intros [Hview Hs Ep En Hb Ha] E Hag. rewrite E in Hview, Hs.
  pose proof (st_view_valid _ _ Hview) as Hv.
  assert (x <> 0) as Hx0 by (rewrite Forall_app, Forall_cons in Hv; apply Hv).
  pose proof (sorted_nodup _ _ Hs) as Hnd. apply NoDup_app in Hnd as (_ & Hd1 & Hnd).
  apply NoDup_cons in Hnd as [Hx2 _]. assert (x ∉ t1) as Hx1 by (intros H; apply (Hd1 x H); set_solver +).
  assert (exists tp' tn' n p, tp' ++ tn' = t1 ++ t2 /\ n = hd0 tn' /\ p = last0 tp' /\
    (forall a, a ∈ tp' -> a ∈ tp) /\ (forall b, b ∈ tn' -> b ∈ tn) /\
    forall B (rest : V B), (vd ← get_data;
      (if next_rq vd =? x then n ← on_tree (st_latter x); set_data (set_next_rq n)
       else if prev_rq vd =? x then p ← on_tree (st_former x); set_data (set_prev_rq p)
       else mret tt) ;; rest) s = rest (upd_data (λ vd, set_next_rq n (set_prev_rq p vd)) s))
    as (tp' & tn' & n & p & E' & -> & -> & Hp' & Hn' & Hrun).
  { assert (forall l, x ∉ l -> last0 l <> x /\ hd0 l <> x) as Hne.
    { intros l Hl. destruct (last0_cases l) as [[_ ->]|Hin], (hd0_cases l) as [[_ ->]|Hin']; split; try done; by intros <-. }
    assert (upd_data (λ vd, set_next_rq (next_rq (elevator_data s)) (set_prev_rq (prev_rq (elevator_data s)) vd)) s = s) as Hid
      by (by destruct s as [? ? ? [] ?]).
    assert ((exists k, t1 = tp ++ k /\ tn = k ++ x :: t2) \/ exists k, tp = t1 ++ x :: k /\ t2 = k ++ tn)
      as [(k & -> & ->)|(k & -> & ->)].
    { apply app_eq_inv in E as [([|z k] & E1 & E2)|(k & E1 & E2)]; cbn in E2; simplify_eq.
      - left. exists []. by rewrite !app_nil_r in *.
      - right. eauto.
      - left. eauto. }
    - destruct (Hne tp) as [Hpx _]; [set_solver +Hx1|]. destruct k as [|z k].
      + exists tp, t2, (hd0 t2), (last0 tp). rewrite app_nil_r in *. split_and!; try done; [set_solver +|].
        intros B rest. erewrite bind_run by done. rewrite En. cbn [hd0 app head default from_option id].
        rewrite Z.eqb_refl. erewrite bind_run; [|erewrite bind_run by (apply on_tree_read; by eapply st_latter_view); done].
        f_equal. rewrite <-Ep. by destruct s as [? ? ? [] ?].
      + exists tp, ((z :: k) ++ t2), z, (last0 tp). rewrite <-app_assoc. split_and!; try done; [set_solver +|].
        intros B rest. erewrite bind_run by done. rewrite En, Ep. cbn [hd0 app head default from_option id].
        rewrite (proj2 (Z.eqb_neq z x)) by set_solver +Hx1. rewrite (proj2 (Z.eqb_neq _ _) Hpx).
        erewrite bind_run by done. f_equal. rewrite En, Ep in Hid. symmetry. exact Hid.
    - destruct (Hne tn) as [_ Hnx]; [set_solver +Hx2|]. destruct (decide (k = [])) as [->|Hk].
      + exists t1, tn, (hd0 tn), (last0 t1). split_and!; try done; [set_solver +|].
        intros B rest. erewrite bind_run by done. rewrite En, Ep, (proj2 (Z.eqb_neq _ _) Hnx).
        rewrite last0_app. change (last0 [x]) with x. rewrite Z.eqb_refl.
        erewrite bind_run; [|erewrite bind_run by (apply on_tree_read; by eapply st_former_view); done].
        f_equal. rewrite <-En. by destruct s as [? ? ? [] ?].
      + assert (last0 (t1 ++ x :: k) = last0 (t1 ++ k)) as El.
        { destruct (exists_last Hk) as (k' & z & ->). change (x :: k' ++ [z]) with ((x :: k') ++ [z]).
          by rewrite !app_assoc, !last0_app. }
        exists (t1 ++ k), tn, (hd0 tn), (last0 (t1 ++ k)). split_and!; try done; [by rewrite <-app_assoc|set_solver +|].
        intros B rest. erewrite bind_run by done. rewrite En, (proj2 (Z.eqb_neq _ _) Hnx).
        rewrite Ep, El. destruct (Hne (t1 ++ k)) as [Hpx _]; [set_solver +Hx1 Hx2|].
        rewrite (proj2 (Z.eqb_neq _ _) Hpx). erewrite bind_run by done. f_equal. rewrite En, Ep, El in Hid.
        symmetry. exact Hid. }
  destruct (vr_del_tail pos (upd_data (λ vd, set_next_rq (hd0 tn') (set_prev_rq (last0 tp') vd)) s) tp' tn' t1 x t2)
    as (t & Hdel & Hview'); [done..|].
  eexists _, tp', tn'. split_and!.
  - unfold vr_del_rq_rb. rewrite Hrun, Hdel. done.
  - done.
  - split; cbn; try done; auto. rewrite E'. by apply sorted_mid in Hs as (Hs & _).
  - by eexists _, _, _.
Qed.

(** The fifos hold requests of the tree, or of [extra]: a request that a front
    merge has taken out of the tree to link it again. *)
Record vr_inv s (L : heads) (la ls tp tn extra : list Z) : Prop := {
  vi_fifos : fifos s L (fifo_list (elevator_data s) false) (fifo_list (elevator_data s) true) la ls;
  vi_tree : vr_tree (sector_of s) (elevator_data s) tp tn;
  vi_stored : forall x, x ∈ tp ++ tn -> is_Some (rqs s !! x);
  vi_sub : forall x, x ∈ la ++ ls -> x ∈ extra ++ tp ++ tn;
  vi_idle : forall x, x ∈ tp ++ tn -> x ∈ la ++ ls \/ L !! x = Some [];
}.

(** The settings, which only sysfs changes. *)
Definition settings vd : Z * Z * Z * Z * Z * Z :=
  (fifo_list_async vd, fifo_list_sync vd, fifo_expire_async vd, fifo_expire_sync vd, vd_fifo_batch vd, vd_rev_penalty vd).

Lemma settings_fifo vd vd' b : settings vd' = settings vd -> fifo_list vd' b = fifo_list vd b /\ fifo_expire vd' b = fifo_expire vd b.
Proof. unfold settings. intros [= ? ? ? ? ? ?]. by destruct b. Qed.

Lemma stored_agrees s l : (forall x, x ∈ l -> is_Some (rqs s !! x)) -> agrees (sector_of s) s l.
Proof. intros H y Hy. destruct (H y Hy) as [r Hr]. exists r. split; [done|]. unfold sector_of. by rewrite Hr. Qed.

Lemma agrees_sector pos s l x : agrees pos s l -> x ∈ l -> sector_of s x = pos x.
Proof. intros H Hx. destruct (H x Hx) as (r & Hr & <-). unfold sector_of. by rewrite Hr. Qed.

(** A neighbour of the removed request is never the removed request. *)
Lemma neighbour_ne pos t1 x t2 : sorted pos (t1 ++ x :: t2) -> x <> 0 ->
  hd0 t2 <> x /\ last0 t1 <> x /\ (hd0 t2 <> 0 -> hd0 t2 <> last0 t1).
Proof.
  intros Hs H0. pose proof (sorted_nodup _ _ Hs) as Hnd. apply NoDup_app in Hnd as (_ & Hd & Hnd).
  apply NoDup_cons in Hnd as [Hx2 _].
  split_and!.
  - destruct (hd0_cases t2) as [[_ ->]|H2]; [done|]. intros E. by rewrite E in H2.
  - destruct (last0_cases t1) as [[_ ->]|H1]; [done|]. intros E. rewrite E in H1. apply (Hd x H1). set_solver +.
  - intros Hn E. destruct (hd0_cases t2) as [[_ E0]|H2]; [done|].
    destruct (last0_cases t1) as [[_ E0]|H1]; [congruence|].
    rewrite E in H2. apply (Hd _ H1). set_solver +H2.
Qed.

Lemma vr_move_run s L la ls tp tn extra t1 x t2 d :
  vr_inv s L la ls tp tn extra -> tp ++ tn = t1 ++ x :: t2 -> L !! queue_head (queue s) = Some d ->
  exists s' L', vr_move_request x s = Some (tt, s') /\ vr_inv s' L' (rem x la) (rem x ls) t1 t2 extra /\
    L' !! queue_head (queue s) = Some (d ++ [x]) /\ sent s s' x /\
    settings (elevator_data s') = settings (elevator_data s) /\
    last_sector (elevator_data s') = sector_of s x /\
    nbatched (elevator_data s') = u32 (nbatched (elevator_data s) + 1) /\
    (forall y, is_Some (rqs s !! y) -> y <> x -> L' !! y = L !! y).
Proof.
  intros [Hf [Hview Hs _ _ _ _] Hst Hsub Hidle] E Hd. rewrite E in *.
  pose proof (st_view_valid _ _ Hview) as Hv.
  assert (x <> 0) as Hx0 by (rewrite Forall_app, Forall_cons in Hv; apply Hv).
  destruct (Hst x) as [r Hr]; [set_solver +|].
  assert (sector_of s x = blk_rq_pos r) as Esx by (unfold sector_of; by rewrite Hr).
  destruct (neighbour_ne _ _ _ _ Hs Hx0) as (Nx & Px & NP).
  set (dir := if blk_rq_pos r >? last_sector (elevator_data s) then FORWARD else BACKWARD).
  set (s3 := upd_data (λ vd, set_prev_rq (last0 t1) (set_next_rq (hd0 t2) (set_position (blk_rq_pos r) dir vd))) s).
  destruct (fifos_clear s3 L (fifo_list (elevator_data s) false) (fifo_list (elevator_data s) true) la ls x r)
    as (m & L1 & Hclr & Hf1 & Hx1 & Hq1 & Hk1); [by apply fifos_data|done|by apply Hidle; set_solver +|].
  set (s4 := cleared x r m s3) in *.
  assert (agrees (sector_of s) s4 (t1 ++ t2)) as Hag.
  { intros y Hy. destruct (stored_agrees s (t1 ++ x :: t2) Hst y) as (ry & Hry & Ey); [set_solver +Hy|].
    exists ry. split; [|done]. cbn. rewrite lookup_insert_ne; [done|]. intros ->.
    apply sorted_nodup in Hs. rewrite <-Permutation_middle in Hs. by apply NoDup_cons in Hs as [? _]. }
  destruct (vr_del_tail (sector_of s) s4 t1 t2 t1 x t2) as (t & Hdel & Hview'); [done..|].
  set (s5 := upd_data (set_sort_list t) s4) in *.
  destruct (fifos_dispatch s5 L1 (fifo_list (elevator_data s) false) (fifo_list (elevator_data s) true) (rem x la) (rem x ls)
    x (set_csd_list (ListHead x x) r) d) as (s6 & L2 & Hadd & [D1 D2 D3 D4 D5 D6] & Hf2 & Hq2 & Hk2).
  { by apply fifos_data. } { cbn. by rewrite lookup_insert_eq. } { done. } { exact (eq_trans Hq1 Hd). }
  cbn in D1, D2, D3, D4, D5, D6.
  exists (upd_data (λ vd, set_nbatched (u32 (nbatched vd + 1)) vd) s6), L2.
  assert (forall y, y <> x -> rqs s6 !! y = rqs s !! y) as Hrq.
  { intros y Hy. rewrite D1. by rewrite !lookup_insert_ne. }
  assert (x ∉ t1 ++ t2) as Hxt.
  { apply sorted_nodup in Hs. rewrite <-Permutation_middle in Hs. by apply NoDup_cons in Hs as [? _]. }
  assert (forall y, y ∈ t1 ++ t2 -> sector_of s6 y = sector_of s y) as Hsec.
  { intros y Hy. unfold sector_of. rewrite Hrq; [done|]. by intros ->. }
  apply sorted_mid in Hs as (Hs' & Hb & Ha). split_and!.
  - unfold vr_move_request. erewrite bind_run by (by apply get_rq_run). erewrite bind_run by done. cbv zeta.
    erewrite bind_run by done. erewrite bind_run by (apply on_tree_read; by eapply st_latter_view).
    erewrite bind_run by done. erewrite bind_run by (apply on_tree_read; by eapply st_former_view).
    erewrite bind_run by done.
    assert (negb (hd0 t2 =? 0) && (hd0 t2 =? last0 t1) = false) as ->.
    { destruct (Z.eqb_spec (hd0 t2) 0); [done|]. cbn. by apply Z.eqb_neq, NP. }
    erewrite bind_run by done.
    erewrite bind_run.
    2:{ unfold vr_remove_request. erewrite bind_run by exact Hclr. unfold vr_del_rq_rb. erewrite bind_run by done.
        change (next_rq (elevator_data s4)) with (hd0 t2). change (prev_rq (elevator_data s4)) with (last0 t1).
        rewrite (proj2 (Z.eqb_neq _ _) Nx), (proj2 (Z.eqb_neq _ _) Px). erewrite bind_run by done. exact Hdel. }
    by erewrite bind_run by exact Hadd.
  - split; cbn [elevator_data upd_data rqs].
    + apply fifos_data. by rewrite D2.
    + rewrite D2. split; cbn; try done.
      * eapply sorted_ext; [|done]. apply Hsec.
      * intros a Hin. change (sector_of s6 a < blk_rq_pos r). rewrite Hsec, <-Esx by set_solver +Hin. by apply Hb.
      * intros b Hin. change (blk_rq_pos r <= sector_of s6 b). rewrite Hsec, <-Esx by set_solver +Hin.
        apply Z.lt_le_incl. by apply Ha.
    + intros y Hy. rewrite Hrq by (intros ->; done). apply Hst. set_solver +Hy.
    + intros y Hy. rewrite elem_of_app, !elem_of_rem in Hy.
      assert (y ∈ extra ++ t1 ++ x :: t2) as Hin by (apply Hsub; set_solver +Hy). set_solver +Hin Hy.
    + intros y Hy. assert (y <> x) as Hyx by (intros ->; done).
      destruct (Hidle y) as [Hin|Hin]; [set_solver +Hy|left|right].
      * rewrite elem_of_app, !elem_of_rem. set_solver +Hin Hyx.
      * assert (is_Some (rqs s !! y)) by (apply Hst; set_solver +Hy).
        rewrite Hk2, Hk1; try done. cbn. by rewrite lookup_insert_ne.
  - exact Hq2.
  - split; cbn; try done. rewrite D1, lookup_insert_eq. eauto.
  - cbn. by rewrite D2.
  - cbn. rewrite D2. done.
  - cbn. by rewrite D2.
  - intros y Hy Hyx. rewrite Hk2, Hk1; try done. cbn. by rewrite lookup_insert_ne.
Qed.

(** ** Linking a request *)
Lemma place_right pos tp tn x : (forall a, a ∈ tp -> pos a < pos x) ->
  place pos x (tp ++ tn) = tp ++ place pos x tn.
Proof.
  intros H. induction tp as [|a tp IH]; [done|]. cbn.
  rewrite (proj2 (Z.ltb_ge _ _)); [f_equal; apply IH; set_solver|].
  apply Z.lt_le_incl, H. set_solver +.
Qed.
Lemma place_left pos tp tn x : sorted pos tp -> (forall y, y ∈ tp -> pos y <> pos x) ->
  (forall b, b ∈ tn -> pos x < pos b) -> place pos x (tp ++ tn) = place pos x tp ++ tn.
Proof.
  intros Hs Hne Hn. destruct (place_view pos tp x Hs Hne) as (p1 & p2 & -> & -> & H1 & H2).
  rewrite <-!app_assoc. apply place_split; [done|]. intros b [Hb|Hb]%elem_of_app; auto.
Qed.

Lemma vr_new_neighbour_run s tp tn x r t :
  vr_tree (sector_of s) (elevator_data s) tp tn -> (forall y, y ∈ tp ++ tn -> is_Some (rqs s !! y)) ->
  rqs s !! x = Some r -> (forall y, y ∈ tp ++ tn -> sector_of s y <> sector_of s x) ->
  st_view t (place (sector_of s) x (tp ++ tn)) ->
  let s0 := upd_data (set_sort_list t) s in
  exists vd' tp' tn', vr_new_neighbour x s0 = Some (tt, upd_data (λ _, vd') s0) /\
    tp' ++ tn' = place (sector_of s) x (tp ++ tn) /\ vr_tree (sector_of s) vd' tp' tn' /\
    exists n p, vd' = set_next_rq n (set_prev_rq p (elevator_data s0)).
Proof.
  intros [Hview Hs Ep En Hb Ha] Hst Hr Hne Ht s0.
  assert (sector_of s x = blk_rq_pos r) as Ex by (unfold sector_of; by rewrite Hr).
  pose proof (st_view_valid _ _ Hview) as Hv. rewrite Forall_forall in Hv.
  pose proof (stored_agrees s _ Hst) as Hag.
  assert (sorted (sector_of s) (place (sector_of s) x (tp ++ tn))) as Hs' by (by apply place_sorted).
  assert (forall vd, set_next_rq (next_rq vd) (set_prev_rq (prev_rq vd) vd) = vd) as Hid by (by intros []).
  unfold vr_new_neighbour. erewrite bind_run by done. erewrite bind_run by (by apply get_rq_run).
  change (last_sector (elevator_data s0)) with (last_sector (elevator_data s)).
  change (next_rq (elevator_data s0)) with (next_rq (elevator_data s)).
  change (prev_rq (elevator_data s0)) with (prev_rq (elevator_data s)).
  destruct (Z.geb_spec (blk_rq_pos r) (last_sector (elevator_data s))) as [Hge|Hlt].
  - assert (forall a, a ∈ tp -> sector_of s a < sector_of s x) as Hbx by (intros a Hin; specialize (Hb a Hin); lia).
    rewrite (place_right _ _ _ _ Hbx) in *.
    exists (set_next_rq (hd0 (place (sector_of s) x tn)) (elevator_data s0)), tp, (place (sector_of s) x tn).
    split_and!; [|done|split; cbn; try done|].
    + rewrite En. destruct tn as [|y tn]; [done|]. change (hd0 (y :: tn)) with y.
      rewrite (proj2 (Z.eqb_neq y 0)) by (apply Hv; set_solver +).
      destruct (Hag y) as (ry & Hry & Ey); [set_solver +|].
      erewrite bind_run by (by apply get_rq_run). cbn [place]. rewrite Z.gtb_ltb, Ey, Ex.
      destruct (blk_rq_pos r <? sector_of s y); [done|].
      change (hd0 (y :: place (sector_of s) x tn)) with y. change y with (hd0 (y :: tn)) at 1. rewrite <-En.
      unfold mret, M_ret. do 2 f_equal.
    + intros b. rewrite place_perm. intros [->|Hin]%elem_of_cons; [lia|auto].
    + eexists _, (prev_rq (elevator_data s0)). done.
  - assert (forall b, b ∈ tn -> sector_of s x < sector_of s b) as Hax by (intros b Hin; specialize (Ha b Hin); lia).
    assert (sorted (sector_of s) tp) as Hsp by (by apply sorted_app in Hs as (? & _)).
    rewrite (place_left _ tp tn x Hsp) in * by (done || set_solver +Hne).
    exists (set_prev_rq (last0 (place (sector_of s) x tp)) (elevator_data s0)), (place (sector_of s) x tp), tn.
    split_and!; [|done|split; cbn; try done|].
    + destruct (place_view (sector_of s) tp x Hsp) as (p1 & p2 & Etp & -> & H1 & H2); [set_solver +Hne|].
      rewrite last0_app, Ep. destruct (decide (p2 = [])) as [->|Hp2].
      * rewrite app_nil_r in Etp. subst p1. change (last0 [x]) with x.
        destruct (last0_cases tp) as [[-> _]|Hl]; [done|].
        rewrite (proj2 (Z.eqb_neq _ 0)) by (apply Hv; set_solver +Hl).
        destruct (Hag (last0 tp)) as (ry & Hry & Ey); [set_solver +Hl|].
        erewrite bind_run by (by apply get_rq_run). rewrite Ey, <-Ex, (proj2 (Z.ltb_lt _ _)) by (by apply H1). done.
      * destruct (exists_last Hp2) as (p3 & z & ->). change (x :: p3 ++ [z]) with ((x :: p3) ++ [z]).
        assert (last0 tp = z) as El by (rewrite Etp, app_assoc; apply last0_app).
        rewrite last0_app. change (last0 [z]) with z. rewrite El.
        assert (z ∈ tp) as Hz by (rewrite Etp; set_solver +).
        rewrite (proj2 (Z.eqb_neq _ 0)) by (apply Hv; set_solver +Hz).
        destruct (Hag z) as (ry & Hry & Ey); [set_solver +Hz|].
        erewrite bind_run by (by apply get_rq_run).
        assert (sector_of s x < sector_of s z) by (apply H2; set_solver +).
        rewrite Ey, <-Ex, (proj2 (Z.ltb_ge _ _)) by lia. rewrite <-El, <-Ep.
        unfold mret, M_ret. do 2 f_equal.
    + intros a. rewrite place_perm. intros [->|Hin]%elem_of_cons; [lia|auto].
    + exists (next_rq (elevator_data s0)), (last0 (place (sector_of s) x tp)). by destruct (elevator_data s0).
Qed.

(** Linking [x] when no request has its sector. *)
Lemma vr_link_run s L la ls tp tn extra x r :
  vr_inv s L la ls tp tn extra -> rqs s !! x = Some r -> x ∉ tp ++ tn -> valid x ->
  x ∈ la ++ ls \/ L !! x = Some [] -> (forall y, y ∈ extra -> y = x) ->
  (forall y, y ∈ tp ++ tn -> sector_of s y <> sector_of s x) ->
  exists t vd' tp' tn', rb_add x s = Some (0, upd_data (set_sort_list t) s) /\
    (vr_new_neighbour x ;; vr_check_neighbours) (upd_data (set_sort_list t) s) = Some (tt, upd_data (λ _, vd') s) /\
    vr_inv (upd_data (λ _, vd') s) L la ls tp' tn' [] /\ tp' ++ tn' ≡ₚ x :: tp ++ tn /\
    settings vd' = settings (elevator_data s) /\
    last_sector vd' = last_sector (elevator_data s) /\ nbatched vd' = nbatched (elevator_data s).
Proof.
  intros [Hf Ht Hst Hsub Hidle] Hr Hxt Hv Hx Hex Hne.
  destruct (st_add_new (sector_of s) (sort_list (elevator_data s)) (tp ++ tn) x) as (t & Hadd & Hview);
    [apply Ht|apply Ht|done|done|].
  destruct (vr_new_neighbour_run s tp tn x r t Ht Hst Hr Hne Hview) as (vd' & tp' & tn' & Hrun & E & Ht' & n & p & ->).
  cbn [elevator_data upd_data] in *. set (vd' := set_next_rq n (set_prev_rq p (set_sort_list t (elevator_data s)))) in *.
  assert (tp' ++ tn' ≡ₚ x :: tp ++ tn) as Hp by (rewrite E; apply place_perm).
  assert (forall y, y ∈ tp' ++ tn' -> is_Some (rqs s !! y)) as Hst'.
  { intros y. rewrite Hp. intros [->|Hy]%elem_of_cons; eauto. }
  exists t, vd', tp', tn'. split_and!; try done.
  - unfold rb_add. erewrite bind_run by done. by apply on_tree_run.
  - erewrite bind_run by exact Hrun. destruct Ht' as [V1 V2 V3 V4 _ _].
    change (upd_data (λ _, vd') (upd_data (set_sort_list t) s)) with (upd_data (λ _, vd') s).
    by apply (vr_check_run (sector_of s) (upd_data (λ _, vd') s) tp' tn' V2 (st_view_valid _ _ V1) (stored_agrees s _ Hst')).
  - split.
    + by apply fifos_data.
    + done.
    + done.
    + intros y Hy%Hsub. rewrite app_nil_l, Hp. apply elem_of_app in Hy as [Hy%Hex|Hy]; set_solver +Hy.
    + intros y. rewrite Hp. intros [->|Hy]%elem_of_cons; auto.
Qed.

Lemma vr_add_rq_rb_run s L la ls tp tn extra x r d :
  vr_inv s L la ls tp tn extra -> rqs s !! x = Some r -> x ∉ tp ++ tn -> valid x ->
  L !! queue_head (queue s) = Some d ->
  x ∈ la ++ ls \/ L !! x = Some [] -> (forall y, y ∈ extra -> y = x) ->
  exists s' L' la' ls' tp' tn' d', vr_add_rq_rb x s = Some (tt, s') /\ vr_inv s' L' la' ls' tp' tn' [] /\
    L' !! queue_head (queue s) = Some d' /\ queue_head (queue s') = queue_head (queue s) /\
    settings (elevator_data s') = settings (elevator_data s) /\ rqs s' !! x = Some r /\
    jiffies s' = jiffies s /\ (L !! x = Some [] -> L' !! x = Some []) /\
    added s s' x (tp ++ tn) d (tp' ++ tn') d'.
Proof.
  intros Hinv Hr Hxt Hv Hd Hx Hex. pose proof Hinv as [Hf [Hview Hs _ _ _ _] Hst _ _].
  destruct (decide (Exists (λ y, sector_of s y = sector_of s x) (tp ++ tn))) as [Hal|Hal].
  2:{ destruct (vr_link_run s L la ls tp tn extra x r) as (t & vd' & tp' & tn' & Hadd & Hrun & Hinv' & Hp & Hset & _ & _);
        [done..|intros y Hy E; apply Hal, Exists_exists; eauto|].
      exists (upd_data (λ _, vd') s), L, la, ls, tp', tn', d. split_and!; try done.
      - unfold vr_add_rq_rb. erewrite bind_run by done. rewrite Z.eqb_refl. by erewrite bind_run by done.
      - by left. }
  apply Exists_exists in Hal as (y & Hy & Ey).
  assert (y <> x) as Hyx by (intros ->; done).
  assert (y <> 0) as Hy0 by (pose proof (st_view_valid _ _ Hview) as Hva; rewrite Forall_forall in Hva; by apply Hva).
  destruct (list_elem_of_split _ _ Hy) as (t1 & t2 & E).
  destruct (vr_move_run s L la ls tp tn extra t1 y t2 d Hinv E Hd)
    as (s1 & L1 & Hmove & Hinv1 & Hd1 & Hsent & Hset1 & Hls1 & _ & Hk1).
  pose proof Hsent as [S1 S2 S3 S4 S5 S6].
  assert (rqs s1 !! x = Some r) as Hr1 by (by rewrite S1 by auto).
  assert (sector_of s1 x = sector_of s x) as Esx by (unfold sector_of; by rewrite Hr, Hr1).
  rewrite E in Hxt, Hs, Hview, Hy.
  destruct (vr_link_run s1 L1 (rem y la) (rem y ls) t1 t2 extra x r)
    as (t & vd' & tp' & tn' & Hadd & Hrun & Hinv' & Hp & Hset & _ & _); try done.
  { set_solver +Hxt. }
  { destruct Hx as [Hx|Hx]; [left|right]; [|rewrite Hk1; eauto].
    rewrite elem_of_app, !elem_of_rem. set_solver +Hx Hyx. }
  { intros z Hz. rewrite Esx. assert (z <> y) as Hzy.
    { intros ->. apply sorted_nodup in Hs. rewrite <-Permutation_middle in Hs. by apply NoDup_cons in Hs as [? _]. }
    assert (sector_of s1 z = sector_of s z) as -> by (unfold sector_of; by rewrite S1).
    rewrite <-Ey. intros Ez. apply Hzy. eapply (sorted_inj _ _ z y Hs); [set_solver +Hz|set_solver +|done]. }
  exists (upd_data (λ _, vd') s1), L1, (rem y la), (rem y ls), tp', tn', (d ++ [y]). split_and!; try done.
  - unfold vr_add_rq_rb. erewrite bind_run.
    2:{ unfold rb_add. erewrite bind_run by done. apply on_tree_read.
        exact (st_add_alias _ _ _ x y Hview Hs Hy Ey). }
    rewrite (proj2 (Z.eqb_neq _ _) Hy0). erewrite bind_run.
    2:{ erewrite bind_run by exact Hmove. erewrite bind_run by exact Hadd. done. }
    exact Hrun.
  - exact (eq_trans Hset Hset1).
  - intros Hx'. rewrite Hk1; eauto.
  - right. exists y, (t1 ++ t2). split_and!; try done. rewrite E. solve_Permutation.
Qed.

Lemma vr_add_request_run s L la ls tp tn x r d :
  vr_inv s L la ls tp tn [] -> rqs s !! x = Some r -> x ∉ tp ++ tn -> valid x ->
  L !! queue_head (queue s) = Some d -> L !! x = Some [] ->
  exists s' L' la' ls' tp' tn' d', vr_add_request x s = Some (tt, s') /\ vr_inv s' L' la' ls' tp' tn' [] /\
    L' !! queue_head (queue s) = Some d' /\ queue_head (queue s') = queue_head (queue s) /\
    settings (elevator_data s') = settings (elevator_data s) /\
    added s s' x (tp ++ tn) d (tp' ++ tn') d'.
Proof.
  intros Hinv Hr Hxt Hv Hd Hx.
  destruct (vr_add_rq_rb_run s L la ls tp tn [] x r d)
    as (s1 & L1 & la1 & ls1 & tp' & tn' & d' & Hrb & Hinv1 & Hd1 & Eq & Hset & Hr1 & Ej & Hx1 & Hadd);
    [done..|by right|set_solver +|].
  specialize (Hx1 Hx). set (e := fifo_expire (elevator_data s1) (rq_is_sync r)).
  assert (x ∈ tp' ++ tn') as Hxt'.
  { destruct Hadd as [(_ & _ & ->)|(? & ? & _ & _ & _ & _ & ->)]; set_solver +. }
  assert (vr_add_request x s = (if e =? 0 then mret tt else
    rq_set_fifo_time x (u32 (jiffies s1 + e)) ;;
    on_lists (list_add_tail x (fifo_list (elevator_data s1) (rq_is_sync r)))) s1) as ->.
  { unfold vr_add_request. erewrite bind_run by (by apply get_rq_run). cbv zeta.
    erewrite bind_run by exact Hrb. erewrite bind_run by done. fold e. by destruct (e =? 0). }
  destruct (e =? 0). { by exists s1, L1, la1, ls1, tp', tn', d'. }
  pose proof Hinv1 as [Hf Ht Hst Hsub Hidle].
  destruct (fifos_append s1 L1 _ _ la1 ls1 x r (rq_is_sync r) (u32 (jiffies s1 + e)) Hf Hr1 Hx1)
    as (s2 & L2 & Hrun & Hf2 & Hq2 & Hk2 & Er & Eq2 & Ed2 & Ej2).
  exists s2, L2, (if rq_is_sync r then la1 else la1 ++ [x]), (if rq_is_sync r then ls1 ++ [x] else ls1), tp', tn', d'.
  assert (forall y, sector_of s2 y = sector_of s1 y) as Hsec.
  { intros y. unfold sector_of. rewrite Er. destruct (decide (y = x)) as [->|];
      [by rewrite lookup_insert_eq, Hr1|by rewrite lookup_insert_ne]. }
  split_and!.
  - rewrite <-Hrun. do 2 f_equal.
  - split; rewrite ?Ed2.
    + done.
    + destruct Ht as [V1 V2 V3 V4 V5 V6]. split; try done; [|intros y Hy; rewrite Hsec; auto..].
      eapply sorted_ext; [|done]. auto.
    + intros y Hy. rewrite Er. destruct (decide (y = x)) as [->|]; [rewrite lookup_insert_eq; eauto|].
      rewrite lookup_insert_ne; auto.
    + intros y Hy. assert (y = x \/ y ∈ la1 ++ ls1) as [->|Hy'] by (destruct (rq_is_sync r); set_solver +Hy); auto.
    + intros y Hy. destruct (decide (y = x)) as [->|Hyx].
      * left. destruct (rq_is_sync r); set_solver +.
      * destruct (Hidle y Hy) as [Hin|Hin]; [left; destruct (rq_is_sync r); set_solver +Hin|right].
        rewrite Hk2; auto.
  - rewrite <-Eq, Hq2, Eq. done.
  - by rewrite Eq2.
  - by rewrite Ed2.
  - unfold added. by rewrite Eq2.
Qed.

(** ** Dispatching *)
(** The request that [vr_check_fifo] picks: the first request of a fifo if its
    deadline has passed, the older of the two when both have. *)
Definition vr_expired s (la ls : list Z) : Z :=
  let rs := first_expired s ls in
  let ra := first_expired s la in
  if negb (ra =? 0) && negb (rs =? 0) then
    match rqs s !! ra, rqs s !! rs with
    | Some a, Some b => if time_after (rq_fifo_time a) (rq_fifo_time b) then rs else ra
    | _, _ => 0
    end
  else if negb (rs =? 0) then rs else ra.

(** The request that [vr_choose_request] picks between the two neighbours. *)
Definition vr_choice s (prev next : Z) : Z :=
  let vd := elevator_data s in
  let penalty := if vd_rev_penalty vd =? 0 then INT_MAX else vd_rev_penalty vd in
  if prev =? 0 then next else if next =? 0 then prev else
  let next_pen := u64 (sector_of s next - last_sector vd) in
  let prev_pen := u64 (last_sector vd - sector_of s prev) in
  let next_pen := if head_dir vd =? FORWARD then do_div next_pen penalty else next_pen in
  let prev_pen := if head_dir vd =? FORWARD then prev_pen else do_div prev_pen penalty in
  if next_pen <=? prev_pen then next else prev.

Lemma vr_expired_cases s la ls : vr_expired s la ls = 0 \/ vr_expired s la ls ∈ la ++ ls.
Proof.
  unfold vr_expired. destruct (first_expired_cases s la) as [Ea|Ha], (first_expired_cases s ls) as [Es|Hs].
  - rewrite Ea, Es. by left.
  - rewrite Ea. cbn. destruct (_ =? 0); cbn; [by left|right; set_solver +Hs].
  - rewrite Es, andb_false_r. right. cbn. set_solver +Ha.
  - destruct (negb _ && negb _).
    + destruct (rqs s !! first_expired s la), (rqs s !! first_expired s ls); auto.
      destruct (time_after _ _); right; set_solver +Ha Hs.
    + right. destruct (negb _); set_solver +Ha Hs.
Qed.

Lemma vr_check_fifo_run s L la ls tp tn : vr_inv s L la ls tp tn [] ->
  vr_check_fifo s = Some (vr_expired s la ls, s).
Proof.
  intros [[[Hl _] Fa Fs _ _ _ _ _ _ _] _ Hst Hsub _]. unfold vr_check_fifo, vr_expired_request.
  assert (forall y, y ∈ la ++ ls -> is_Some (rqs s !! y)) as Hst' by (intros y Hy; by apply Hst, Hsub).
  erewrite bind_run. 2:{ erewrite bind_run by done. eapply fifo_expired_run; [done..|set_solver +Hst']. }
  erewrite bind_run. 2:{ erewrite bind_run by done. eapply fifo_expired_run; [done..|set_solver +Hst']. }
  unfold vr_expired. cbv zeta. destruct (negb _ && negb _) eqn:E. 2:{ by destruct (first_expired s ls =? 0). }
  rewrite andb_true_iff, !negb_true_iff, !Z.eqb_neq in E. destruct E as [Ea Es].
  destruct (first_expired_cases s la) as [?|Ha]; [done|]. destruct (first_expired_cases s ls) as [?|Hs]; [done|].
  destruct (Hst' (first_expired s la)) as [a Ra]; [set_solver +Ha|].
  destruct (Hst' (first_expired s ls)) as [b Rb]; [set_solver +Hs|].
  erewrite bind_run by (by apply get_rq_run). erewrite bind_run by (by apply get_rq_run).
  rewrite Ra, Rb. by destruct (time_after _ _).
Qed.

Lemma vr_choice_cases s tp tn : tp ++ tn <> [] -> Forall valid (tp ++ tn) ->
  vr_choice s (last0 tp) (hd0 tn) ∈ tp ++ tn.
Proof.
  intros Hne Hv. rewrite Forall_forall in Hv. unfold vr_choice.
  destruct (last0_cases tp) as [[-> E]|Hp].
  { rewrite E, Z.eqb_refl. destruct (hd0_cases tn) as [[-> _]|Hn]; [done|set_solver +Hn]. }
  rewrite (proj2 (Z.eqb_neq (last0 tp) 0)) by (apply Hv; set_solver +Hp).
  destruct (hd0_cases tn) as [[-> E]|Hn]; [rewrite E, Z.eqb_refl; set_solver +Hp|].
  rewrite (proj2 (Z.eqb_neq (hd0 tn) 0)) by (apply Hv; set_solver +Hn).
  destruct (_ <=? _); set_solver +Hp Hn.
Qed.

Lemma vr_choose_run s L la ls tp tn : vr_inv s L la ls tp tn [] ->
  vr_choose_request s = Some (vr_choice s (last0 tp) (hd0 tn), s).
Proof.
  intros [_ [V1 V2 V3 V4 V5 V6] Hst _ _]. pose proof (st_view_valid _ _ V1) as Hv. rewrite Forall_forall in Hv.
  unfold vr_choose_request, vr_choice. erewrite bind_run by done. cbv zeta. rewrite V3, V4.
  apply sorted_app in V2 as (_ & _ & Hlt).
  destruct (last0_cases tp) as [[_ ->]|Hp]; [done|].
  rewrite (proj2 (Z.eqb_neq (last0 tp) 0)) by (apply Hv; set_solver +Hp). cbn [negb andb].
  destruct (hd0_cases tn) as [[_ ->]|Hn].
  { rewrite (proj2 (Z.eqb_neq (last0 tp) 0)) by (apply Hv; set_solver +Hp). done. }
  specialize (Hlt _ _ Hp Hn).
  rewrite (proj2 (Z.eqb_neq (last0 tp) (hd0 tn))) by (intros E; rewrite E in Hlt; lia).
  erewrite bind_run by done. rewrite (proj2 (Z.eqb_neq (hd0 tn) 0)) by (apply Hv; set_solver +Hn).
  destruct (Hst (hd0 tn)) as [rn Rn]; [set_solver +Hn|]. destruct (Hst (last0 tp)) as [rp Rp]; [set_solver +Hp|].
  erewrite bind_run by (by apply get_rq_run). erewrite bind_run by (by apply get_rq_run).
  unfold sector_of. rewrite Rn, Rp. by destruct (_ <=? _).
Qed.

(** Whether a dispatch looks at the deadlines. *)
Definition vr_looks s : bool := nbatched (elevator_data s) >? u32 (vd_fifo_batch (elevator_data s)).

Definition vr_picked s (la ls tp tn : list Z) : Z :=
  let c := if vr_looks s then vr_expired s la ls else 0 in
  if c =? 0 then vr_choice s (last0 tp) (hd0 tn) else c.

Lemma vr_picked_cases s L la ls tp tn : vr_inv s L la ls tp tn [] -> tp ++ tn <> [] ->
  vr_picked s la ls tp tn ∈ tp ++ tn.
Proof.
  intros [_ [V1 _ _ _ _ _] _ Hsub _] Hne. pose proof (st_view_valid _ _ V1) as Hv. unfold vr_picked.
  destruct (Z.eqb_spec (if vr_looks s then vr_expired s la ls else 0) 0) as [_|Hc].
  - by apply vr_choice_cases.
  - destruct (vr_looks s); [|done]. apply Hsub. by destruct (vr_expired_cases s la ls).
Qed.

Lemma vr_inv_batched s L la ls tp tn extra n : vr_inv s L la ls tp tn extra ->
  vr_inv (upd_data (set_nbatched n) s) L la ls tp tn extra.
Proof. intros [Hf [] ? ? ?]. split; try done. by apply fifos_data. Qed.

Lemma vr_dispatch_run s L la ls tp tn d force : vr_inv s L la ls tp tn [] -> L !! queue_head (queue s) = Some d ->
  let s0 := if vr_looks s then upd_data (set_nbatched 0) s else s in
  let x := vr_picked s la ls tp tn in
  if decide (tp ++ tn = []) then vr_dispatch_requests force s = Some (0, s0)
  else exists s' L' t1 t2, vr_dispatch_requests force s = Some (1, s') /\ tp ++ tn = t1 ++ x :: t2 /\
    vr_inv s' L' (rem x la) (rem x ls) t1 t2 [] /\ L' !! queue_head (queue s) = Some (d ++ [x]) /\ sent s s' x /\
    settings (elevator_data s') = settings (elevator_data s) /\
    last_sector (elevator_data s') = sector_of s x /\
    nbatched (elevator_data s') = u32 (nbatched (elevator_data s0) + 1).
Proof.
  intros Hinv Hd s0 x.
  assert (vr_inv s0 L la ls tp tn []) as Hinv0 by (unfold s0; destruct (vr_looks s); [by apply vr_inv_batched|done]).
  assert (vr_dispatch_requests force s = (if x =? 0 then mret 0 else vr_move_request x ;; mret 1) s0) as ->.
  { unfold vr_dispatch_requests. erewrite bind_run by done. fold (vr_looks s).
    erewrite (bind_run _ _ _ (if vr_looks s then vr_expired s la ls else 0) s0).
    2:{ unfold s0. destruct (vr_looks s); [|done]. erewrite bind_run by done.
        change (vr_expired s la ls) with (vr_expired (upd_data (set_nbatched 0) s) la ls).
        eapply vr_check_fifo_run. by apply vr_inv_batched. }
    erewrite (bind_run _ _ _ x s0); [by destruct (x =? 0)|]. unfold x, vr_picked.
    destruct (_ =? 0); [|done]. erewrite vr_choose_run by done. do 2 f_equal. unfold s0. by destruct (vr_looks s). }
  destruct (decide (tp ++ tn = [])) as [E|Hne].
  - assert (x = 0) as ->; [|done]. unfold x, vr_picked. destruct Hinv as [_ _ _ Hsub _].
    apply app_nil in E as [-> ->].
    assert ((if vr_looks s then vr_expired s la ls else 0) = 0) as ->; [|done].
    destruct (vr_looks s); [|done]. destruct (vr_expired_cases s la ls) as [?|Hin%Hsub]; [done|set_solver +Hin].
  - pose proof (vr_picked_cases s L la ls tp tn Hinv Hne) as Hx. fold x in Hx.
    destruct (list_elem_of_split _ _ Hx) as (t1 & t2 & E).
    assert (x <> 0) as Hx0.
    { destruct Hinv as [_ [V1 _ _ _ _ _] _ _ _]. apply st_view_valid in V1. rewrite Forall_forall in V1. by apply V1. }
    assert (queue s0 = queue s /\ rqs s0 = rqs s /\ jiffies s0 = jiffies s /\
      settings (elevator_data s0) = settings (elevator_data s)) as (Eq & Er & Ej & Es)
      by (unfold s0; by destruct (vr_looks s)).
    destruct (vr_move_run s0 L la ls tp tn [] t1 x t2 d) as (s' & L' & Hrun & Hinv' & Hd' & [S1 S2 S3 S4 S5 S6] & Hset & Hls & Hnb & _);
      [done|done|by rewrite Eq|].
    rewrite Eq in S4, S5, S6, Hd'. rewrite Ej in S3. rewrite Es in Hset. rewrite Er in S1.
    exists s', L', t1, t2. split_and!; try done.
    + rewrite (proj2 (Z.eqb_neq _ _) Hx0). by erewrite bind_run by exact Hrun.
    + rewrite Hls. unfold sector_of. by rewrite Er.
Qed.

(** ** The scheduler meets the elevator's interface *)
Definition vr_ok s (L : heads) (pend : list Z) : Prop :=
  exists la ls tp tn, vr_inv s L la ls tp tn [] /\ pend = tp ++ tn.

#[export] Instance vr_sched : IOSched iosched_vr vr_ok.
Proof.
  split.
  - intros s L pend (la & ls & tp & tn & [[Hc _ _ _ _ _ _ _ _ _] _ _ _ _] & _). done.
  - intros s L pend (la & ls & tp & tn & [[_ _ _ Hq _ _ _ _ _ _] _ _ _ _] & _). done.
  - intros s L pend (la & ls & tp & tn & [_ [_ Hs _ _ _ _] _ _ _] & ->). by eapply sorted_nodup.
  - intros s L pend x (la & ls & tp & tn & [_ _ Hst _ _] & ->). auto.
  - intros s s' L pend x r (la & ls & tp & tn & [Hf [V1 V2 V3 V4 V5 V6] Hst Hsub Hidle] & ->) Hr Hx Hr' Hh El Eq Ed _.
    assert (forall y, y ∈ tp ++ tn -> rqs s' !! y = rqs s !! y) as Hk.
    { intros y Hy. destruct Hr' as [r' ->]. rewrite lookup_insert_ne; [done|]. by intros ->. }
    assert (forall y, y ∈ tp ++ tn -> sector_of s' y = sector_of s y) as Hsec
      by (intros y Hy; unfold sector_of; by rewrite Hk).
    exists la, ls, tp, tn. split; [|done]. split; rewrite ?Ed; try done.
    + by eapply fifos_frame.
    + split; try done.
      * by eapply sorted_ext.
      * intros a Ha. rewrite Hsec by set_solver +Ha. auto.
      * intros a Ha. rewrite Hsec by set_solver +Ha. auto.
    + intros y Hy. rewrite Hk; auto.
  - intros s L force (la & ls & tp & tn & Hinv & E). pose proof (ff_q _ _ _ _ _ _ (vi_fifos _ _ _ _ _ _ _ Hinv)) as [d Hd].
    pose proof (vr_dispatch_run s L la ls tp tn d force Hinv Hd) as Hrun. cbn zeta in Hrun.
    rewrite decide_True in Hrun by done. eexists. split; [exact Hrun|].
    destruct (vr_looks s); (split; [|done]); exists la, ls, tp, tn; [split; [by apply vr_inv_batched|done]|done].
  - intros s L pend d force (la & ls & tp & tn & Hinv & ->) Hne Hd.
    pose proof (vr_dispatch_run s L la ls tp tn d force Hinv Hd) as Hrun. cbn zeta in Hrun.
    rewrite decide_False in Hrun by done.
    destruct Hrun as (s' & L' & t1 & t2 & Hrun & E & Hinv' & Hd' & [S1 S2 S3 S4 S5 S6] & _).
    assert (tp ++ tn ≡ₚ vr_picked s la ls tp tn :: t1 ++ t2) as Hp by (rewrite E; solve_Permutation).
    exists (vr_picked s la ls tp tn), (t1 ++ t2), d, [], s', L'. split_and!; try done.
    + by eexists _, _, _, _.
    + by rewrite app_nil_r.
    + by eapply sent_excess.
    + by eapply sent_cache.
  - intros s L pend d x r (la & ls & tp & tn & Hinv & ->) Hd Hx Hxp Hxq Hv Hr.
    destruct (vr_add_request_run s L la ls tp tn x r d Hinv Hr Hxp Hv Hd Hx)
      as (s' & L' & la' & ls' & tp' & tn' & d' & Hrun & Hinv' & Hd' & Eq & _ & Hadd%added_acc).
    exists (tp' ++ tn'), d', s', L'. split_and!; try done; try apply Hadd. by eexists _, _, _, _.
Qed.

(** ** Merging *)
(** After a front merge the sector of [x] is lower; [s] is the state before. *)
Lemma vr_relink_run s L la ls tp tn x r r' d :
  vr_inv s L la ls tp tn [] -> x ∈ tp ++ tn -> rqs s !! x = Some r -> L !! queue_head (queue s) = Some d ->
  rq_hash r' = rq_hash r -> rq_hash_key r' = rq_hash_key r ->
  exists s' L' la' ls' tp' tn' d' rest,
    vr_merged_request x ELEVATOR_FRONT_MERGE (upd_rqs <[x := r']> s) = Some (tt, s') /\
    vr_inv s' L' la' ls' tp' tn' [] /\ L' !! queue_head (queue s) = Some d' /\ rqs s' !! x = Some r' /\
    tp ++ tn ≡ₚ x :: rest /\ added s s' x rest d (tp' ++ tn') d'.
Proof.
  intros [Hf Ht Hst Hsub Hidle] Hx Hr Hd E1 E2. set (s1 := upd_rqs <[x := r']> s).
  pose proof Ht as [V1 V2 _ _ _ _]. pose proof (st_view_valid _ _ V1) as Hv.
  destruct (list_elem_of_split _ _ Hx) as (t1 & t2 & E).
  assert (x ∉ t1 ++ t2) as Hx12.
  { rewrite E in V2. apply sorted_nodup in V2. rewrite <-Permutation_middle in V2. by apply NoDup_cons in V2 as [? _]. }
  assert (forall y, y ∈ t1 ++ t2 -> rqs s1 !! y = rqs s !! y) as Hk.
  { intros y Hy. cbn. rewrite lookup_insert_ne; [done|]. by intros ->. }
  assert (forall y, y ∈ t1 ++ t2 -> sector_of s1 y = sector_of s y) as Hsec
    by (intros y Hy; unfold sector_of; by rewrite Hk).
  destruct (vr_del_run (sector_of s) s1 tp tn t1 x t2) as (vd' & tp1 & tn1 & Hdel & E' & [W1 W2 W3 W4 W5 W6] & t & n & p & Evd); [done..| |].
  { intros y Hy. destruct (stored_agrees s _ Hst y) as (ry & Ry & Ey); [rewrite E; set_solver +Hy|].
    exists ry. by rewrite Hk. }
  set (s2 := upd_data (λ _, vd') s1) in *.
  assert (vr_inv s2 L la ls tp1 tn1 [x]) as Hinv2.
  { split; cbn [elevator_data upd_data s2].
    - apply fifos_data. assert (fifos s1 L (fifo_list vd' false) (fifo_list vd' true) la ls); [|done].
      rewrite Evd. eapply (fifos_frame s); try done; [by exists r'|]. eapply hash_ok_keep; try done. apply Hf.
    - rewrite <-E' in Hsec. split; try done.
      + by eapply sorted_ext.
      + intros a Ha. change (sector_of s1 a < last_sector vd'). rewrite Hsec by set_solver +Ha. auto.
      + intros a Ha. change (last_sector vd' <= sector_of s1 a). rewrite Hsec by set_solver +Ha. auto.
    - intros y. rewrite E'. intros Hy. change (is_Some (rqs s1 !! y)). rewrite Hk by done. apply Hst.
      rewrite E. set_solver +Hy.
    - intros y Hy%Hsub. rewrite E'. rewrite E in Hy. set_solver +Hy.
    - intros y. rewrite E'. intros Hy. apply Hidle. rewrite E. set_solver +Hy. }
  destruct (vr_add_rq_rb_run s2 L la ls tp1 tn1 [x] x r' d)
    as (s' & L' & la' & ls' & tp' & tn' & d' & Hrb & Hinv' & Hd' & Eq & _ & Hr1 & _ & _ & Hadd); try done.
  { cbn. by rewrite lookup_insert_eq. } { by rewrite E'. }
  { rewrite Forall_forall in Hv. auto. } { auto. } { intros y Hy. by apply list_elem_of_singleton in Hy. }
  exists s', L', la', ls', tp', tn', d', (t1 ++ t2). split_and!; try done.
  - unfold vr_merged_request. rewrite Z.eqb_refl. by erewrite bind_run by exact Hdel.
  - rewrite E. solve_Permutation.
  - by rewrite <-E'.
Qed.
End vr.

Section claims.
Context {T : Type} `{!SectorTree T}.
Implicit Types (s : elv (vr_data T)) (L : heads) (la ls tp tn d : list Z) (x : Z).

(** C21: [vr_dispatch_requests] on a scheduler with pending requests passes all its
    assertions, takes one request [x] out of the tree and the fifos to the end of
    the dispatch queue, moves the head to its sector and re-establishes the
    invariant.  After a full batch, a request whose deadline has passed at the
    front of a fifo makes the dispatched request one that has expired and waits at the front
    of its fifo; otherwise the dispatched request is next to the head position
    in sector order. *)
Theorem vr_dispatch_requests_correct s L la ls tp tn d force :
  vr_inv s L la ls tp tn [] -> L !! queue_head (queue s) = Some d -> tp ++ tn <> [] ->
  exists s' L' t1 x t2, vr_dispatch_requests force s = Some (1, s') /\ tp ++ tn = t1 ++ x :: t2 /\
    vr_inv s' L' (rem x la) (rem x ls) t1 t2 [] /\ L' !! queue_head (queue s') = Some (d ++ [x]) /\
    last_sector (elevator_data s') = sector_of s x /\
    if vr_looks s && negb ((first_expired s la =? 0) && (first_expired s ls =? 0))
    then x = first_expired s la \/ x = first_expired s ls
    else x = last0 tp \/ x = hd0 tn.
Proof.
  intros Hinv Hd Hne. pose proof (vr_dispatch_run s L la ls tp tn d force Hinv Hd) as Hrun. cbn zeta in Hrun.
  rewrite decide_False in Hrun by done.
  destruct Hrun as (s' & L' & t1 & t2 & Hrun & E & Hinv' & Hd' & [_ _ _ S4 _ _] & _ & Hls & _).
  exists s', L', t1, (vr_picked s la ls tp tn), t2. rewrite S4. split_and!; try done.
  assert (vr_choice s (last0 tp) (hd0 tn) = last0 tp \/ vr_choice s (last0 tp) (hd0 tn) = hd0 tn) as Hch.
  { unfold vr_choice. repeat case_match; auto. }
  unfold vr_picked. destruct (vr_looks s); cbn [andb]; [|done].
  assert (forall y, y ∈ la ++ ls -> is_Some (rqs s !! y)) as Hst.
  { destruct Hinv as [_ _ Hst Hsub _]. intros y Hy. by apply Hst, Hsub. }
  unfold vr_expired. cbv zeta.
  destruct (Z.eqb_spec (first_expired s la) 0) as [Ea|Na], (Z.eqb_spec (first_expired s ls) 0) as [Es|Ns]; cbn [negb andb].
  - by rewrite Ea.
  - rewrite (proj2 (Z.eqb_neq _ _) Ns). auto.
  - rewrite (proj2 (Z.eqb_neq _ _) Na). auto.
  - destruct (first_expired_cases s la) as [?|Ha]; [done|]. destruct (first_expired_cases s ls) as [?|Hs]; [done|].
    destruct (Hst (first_expired s la)) as [a ->]; [set_solver +Ha|].
    destruct (Hst (first_expired s ls)) as [b ->]; [set_solver +Hs|].
    destruct (time_after _ _);
      [rewrite (proj2 (Z.eqb_neq _ _) Ns)|rewrite (proj2 (Z.eqb_neq _ _) Na)]; auto.
Qed.

(** after a front merge has lowered the sector of a pending request,
    [vr_merged_request] relinks it without a failing assertion: the invariant
    holds for the new sectors and no request is lost.  A request that already
    had the new sector goes to the dispatch queue. *)
Theorem vr_merged_request_correct s L la ls tp tn x r r' d :
  vr_inv s L la ls tp tn [] -> x ∈ tp ++ tn -> rqs s !! x = Some r -> L !! queue_head (queue s) = Some d ->
  rq_hash r' = rq_hash r -> rq_hash_key r' = rq_hash_key r ->
  exists s' L' la' ls' tp' tn' d',
    vr_merged_request x ELEVATOR_FRONT_MERGE (upd_rqs <[x := r']> s) = Some (tt, s') /\
    vr_inv s' L' la' ls' tp' tn' [] /\ L' !! queue_head (queue s) = Some d' /\
    rqs s' !! x = Some r' /\ x ∈ tp' ++ tn' /\ (tp' ++ tn') ++ d' ≡ₚ (tp ++ tn) ++ d.
Proof.
  intros Hinv Hx Hr Hd E1 E2. destruct (vr_relink_run s L la ls tp tn x r r' d Hinv Hx Hr Hd E1 E2)
    as (s' & L' & la' & ls' & tp' & tn' & d' & rest & Hrun & Hinv' & Hd' & Hr' & Hp & (Hp' & Hx' & _)%added_acc).
  exists s', L', la', ls', tp', tn', d'. split_and!; try done. rewrite Hp', Hp. done.
Qed.

(** With the head moving forward, a next request within [rev_penalty] sectors
    and a previous one that is nearer, [vr_choose_request] picks the previous one
    and reverses the head, although the distance of the next one divided by
    [rev_penalty], its penalty, is lower: [do_div] leaves the quotient in its
    argument and the assignment replaces it by the remainder. *)
Theorem vr_choose_request_remainder s L la ls tp tn :
  vr_inv s L la ls tp tn [] -> tp <> [] -> tn <> [] ->
  head_dir (elevator_data s) = FORWARD ->
  let penalty := vd_rev_penalty (elevator_data s) in
  let next_pen := sector_of s (hd0 tn) - last_sector (elevator_data s) in
  let prev_pen := last_sector (elevator_data s) - sector_of s (last0 tp) in
  prev_pen < next_pen < penalty -> penalty < 2 ^ 31 ->
  vr_choose_request s = Some (last0 tp, s) /\ next_pen / penalty < prev_pen.
Proof.
  intros Hinv Hp Hn Hdir penalty next_pen prev_pen Hlt Hpen. erewrite vr_choose_run by done.
  destruct Hinv as [_ [V1 _ _ _ V5 V6] _ _ _]. pose proof (st_view_valid _ _ V1) as Hv. rewrite Forall_forall in Hv.
  destruct (last0_cases tp) as [[? _]|Hpi]; [done|]. destruct (hd0_cases tn) as [[? _]|Hni]; [done|].
  specialize (V5 _ Hpi). specialize (V6 _ Hni).
  assert (0 < prev_pen /\ 0 < next_pen) as [P0 N0] by (unfold prev_pen, next_pen in *; lia).
  unfold vr_choice. rewrite (proj2 (Z.eqb_neq (last0 tp) 0)) by (apply Hv; set_solver +Hpi).
  rewrite (proj2 (Z.eqb_neq (hd0 tn) 0)) by (apply Hv; set_solver +Hni).
  fold next_pen prev_pen penalty. rewrite Hdir, Z.eqb_refl, (proj2 (Z.eqb_neq penalty 0)) by lia.
  unfold do_div, u64, u32. rewrite !(Z.mod_small _ (2 ^ 64)), !(Z.mod_small penalty), (Z.mod_small next_pen) by lia.
  rewrite (proj2 (Z.leb_gt _ _)) by lia. split; [done|]. rewrite Z.div_small; lia.
Qed.
End claims.

(** ** A concrete state *)
(** The head is at sector 15; the requests [4], [8] and [12] wait at the sectors 10, 24 and 30. *)
Definition demo_heads : heads := {[ 100 := [4]; 200 := [8; 12]; 300 := []; 16 := [] ]}.
Definition demo_vr : elv (vr_data rb_state) :=
  Elv {[ 4 := demo_rq 10 1 900; 8 := demo_rq 24 0 500; 12 := demo_rq 30 0 600; 16 := demo_rq 24 0 0 ]}
    (demo_lists [(100, [4]); (200, [8; 12]); (300, []); (16, [])]) (demo_queue 300 3)
    (VrData demo_rb 100 200 8 4 17 15 FORWARD 5000 500 16 10) 1000.

Lemma demo_vr_inv : vr_inv demo_vr demo_heads [4] [8; 12] [4] [8; 12] [].
Proof.
  split.
  - split; try reflexivity; try discriminate; [|vm_compute; eauto].
    split; [apply lrep_check_ok; vm_compute; reflexivity|].
    apply hash_ok_empty; [reflexivity|]. apply (bool_decide_unpack _). vm_compute. exact I.
  - split; try reflexivity.
    + exact demo_rb_ok.
    + repeat constructor; vm_compute; reflexivity.
    + intros a ->%list_elem_of_singleton. vm_compute. reflexivity.
    + apply Forall_forall. apply (bool_decide_unpack _). vm_compute. exact I.
  - apply Forall_forall. apply (bool_decide_unpack _). vm_compute. exact I.
  - done.
  - intros x Hx. by left.
Qed.

Lemma vr_dispatch_requests_witness :
  exists s' L' t1 x t2, vr_dispatch_requests 0 demo_vr = Some (1, s') /\ [4; 8; 12] = t1 ++ x :: t2 /\
    vr_inv s' L' (rem x [4]) (rem x [8; 12]) t1 t2 [] /\ L' !! queue_head (queue s') = Some [x] /\ (x = 4 \/ x = 8).
Proof.
  destruct (vr_dispatch_requests_correct demo_vr demo_heads [4] [8; 12] [4] [8; 12] [] 0)
    as (s' & L' & t1 & x & t2 & H1 & H2 & H3 & H4 & _ & H5); [exact demo_vr_inv|reflexivity|discriminate|].
  exists s', L', t1, x, t2. split_and!; [exact H1|exact H2|exact H3|exact H4|exact H5].
Defined.

Lemma vr_merged_request_witness :
  exists s' L' la' ls' tp' tn' d',
    vr_merged_request 12 ELEVATOR_FRONT_MERGE (upd_rqs <[12 := Rq 24 7168 0 REQ_TYPE_FS (ListHead 600 0) None 1 0 0]> demo_vr)
      = Some (tt, s') /\
    vr_inv s' L' la' ls' tp' tn' [] /\ L' !! 300 = Some d' /\
    12 ∈ tp' ++ tn' /\ (tp' ++ tn') ++ d' ≡ₚ [4; 8; 12].
Proof.
  destruct (vr_merged_request_correct demo_vr demo_heads [4] [8; 12] [4] [8; 12] 12 (demo_rq 30 0 600)
    (Rq 24 7168 0 REQ_TYPE_FS (ListHead 600 0) None 1 0 0) [])
    as (s' & L' & la' & ls' & tp' & tn' & d' & H1 & H2 & H3 & _ & H4 & H5);
    [exact demo_vr_inv|set_solver +|reflexivity|reflexivity|reflexivity|reflexivity|].
  exists s', L', la', ls', tp', tn', d'. split_and!; [exact H1|exact H2|exact H3|exact H4|exact H5].
Defined.

Lemma vr_choose_request_remainder_witness :
  vr_choose_request demo_vr = Some (4, demo_vr) /\ 9 / 10 < 5.
Proof.
  apply (vr_choose_request_remainder demo_vr demo_heads [4] [8; 12] [4] [8; 12]);
    [exact demo_vr_inv|discriminate|discriminate|reflexivity|vm_compute; split; reflexivity|reflexivity].
Defined.
End Vr.
