(* ===== verification/DeadlineSched.v ===== *)
(** * The deadline I/O scheduler

    block/deadline-iosched.c: reads and writes each have a sector-sorted tree and
    a fifo ordered by deadline.  Batches of requests in sector order are served
    from one direction; reads are preferred, but writes wait for at most
    [writes_starved] batches.  As in the V(R) scheduler the trees are used
    through [SectorTree]; the tree nodes of the requests of one direction are
    one memory. *)
From stdpp Require Import prelude gmap list sorting.
From Stdlib Require Import ZArith Lia ZifyBool.
From S2P Require Import Prelude ListHead ListHeap Rbtree SectorTree Elevator Scheduler.
Open Scope Z_scope.

Module Deadline.

Definition read_expire : Z := HZ / 2.
Definition write_expire : Z := 5 * HZ.
Definition writes_starved : Z := 2.
Definition fifo_batch : Z := 16.

(** A pair of fields indexed by the data direction: [READ] is [false]. *)
Record dirs (A : Type) := Dirs { on_read : A; on_write : A }.
Arguments Dirs {A}.
Arguments on_read {A}.
Arguments on_write {A}.
Definition at_dir {A} (p : dirs A) (w : bool) : A := if w then on_write p else on_read p.
Definition set_dir {A} (w : bool) (v : A) (p : dirs A) : dirs A :=
  if w then Dirs (on_read p) v else Dirs v (on_write p).
Definition is_write (r : request) : bool := negb (rq_data_dir r =? 0).

Record deadline_data (T : Type) := DeadlineData {
  sort_list : dirs T;
  fifo_list : dirs Z;            (* the addresses of the list heads *)
  next_rq : dirs Z;
  batching : Z;                  (* unsigned int *)
  last_sector : Z;               (* sector_t *)
  starved : Z;                   (* unsigned int *)
  fifo_expire : dirs Z;          (* int *)
  dd_fifo_batch : Z;             (* int *)
  dd_writes_starved : Z;         (* int *)
  front_merges : Z;              (* int *)
}.
Arguments DeadlineData {T}.
Arguments sort_list {T}.
Arguments fifo_list {T}.
Arguments next_rq {T}.
Arguments batching {T}.
Arguments last_sector {T}.
Arguments starved {T}.
Arguments fifo_expire {T}.
Arguments dd_fifo_batch {T}.
Arguments dd_writes_starved {T}.
Arguments front_merges {T}.

Section deadline.
Context {T : Type} `{!SectorTree T}.
Implicit Types (dd : deadline_data T).

Definition set_sort_list (w : bool) (t : T) dd : deadline_data T :=
  DeadlineData (set_dir w t (sort_list dd)) (fifo_list dd) (next_rq dd) (batching dd) (last_sector dd) (starved dd)
    (fifo_expire dd) (dd_fifo_batch dd) (dd_writes_starved dd) (front_merges dd).
Definition set_next_rq (w : bool) (v : Z) dd : deadline_data T :=
  DeadlineData (sort_list dd) (fifo_list dd) (set_dir w v (next_rq dd)) (batching dd) (last_sector dd) (starved dd)
    (fifo_expire dd) (dd_fifo_batch dd) (dd_writes_starved dd) (front_merges dd).
Definition set_batching (v : Z) dd : deadline_data T :=
  DeadlineData (sort_list dd) (fifo_list dd) (next_rq dd) v (last_sector dd) (starved dd)
    (fifo_expire dd) (dd_fifo_batch dd) (dd_writes_starved dd) (front_merges dd).
Definition set_last_sector (v : Z) dd : deadline_data T :=
  DeadlineData (sort_list dd) (fifo_list dd) (next_rq dd) (batching dd) v (starved dd)
    (fifo_expire dd) (dd_fifo_batch dd) (dd_writes_starved dd) (front_merges dd).
Definition set_starved (v : Z) dd : deadline_data T :=
  DeadlineData (sort_list dd) (fifo_list dd) (next_rq dd) (batching dd) (last_sector dd) v
    (fifo_expire dd) (dd_fifo_batch dd) (dd_writes_starved dd) (front_merges dd).
Definition set_settings (expire : dirs Z) (batch ws fm : Z) dd : deadline_data T :=
  DeadlineData (sort_list dd) (fifo_list dd) (next_rq dd) (batching dd) (last_sector dd) (starved dd)
    expire batch ws fm.

Notation DL := (M (elv (deadline_data T))).

(** An operation on the tree of one direction, [deadline_rb_root]. *)
Definition on_tree {A} (w : bool) (m : M T A) : DL A :=
  λ s, match m (at_dir (sort_list (elevator_data s)) w) with
       | Some (a, t) => Some (a, upd_data (set_sort_list w t) s)
       | None => None
       end.
Definition rb_add (w : bool) (rq : Z) : DL Z := s ← get; on_tree w (st_add (sector_of s) rq).

Definition deadline_latter_request (rq : Z) : DL Z := r ← get_rq rq; on_tree (is_write r) (st_latter rq).
Definition deadline_former_request (rq : Z) : DL Z := r ← get_rq rq; on_tree (is_write r) (st_former rq).

Definition deadline_del_rq_rb (rq : Z) : DL unit :=
  r ← get_rq rq;
  dd ← get_data;
  (if at_dir (next_rq dd) (is_write r) =? rq
   then n ← deadline_latter_request rq; set_data (set_next_rq (is_write r) n) else mret tt) ;;
  on_tree (is_write r) (st_del rq).

Definition deadline_remove_request (rq : Z) : DL unit := rq_fifo_clear rq ;; deadline_del_rq_rb rq.

Definition deadline_move_to_dispatch (rq : Z) : DL unit :=
  deadline_remove_request rq ;; elv_dispatch_add_tail rq.

Definition deadline_move_request (rq : Z) : DL unit :=
  r ← get_rq rq;
  set_data (set_next_rq false 0) ;;
  set_data (set_next_rq true 0) ;;
  n ← deadline_latter_request rq;
  set_data (set_next_rq (is_write r) n) ;;
  set_data (set_last_sector (rq_end_sector r)) ;;
  deadline_move_to_dispatch rq.

(** [while (alias = elv_rb_add(root, rq)) deadline_move_request(dd, alias)];
    every round takes a request out of the tree. *)
Fixpoint add_rq_rb_loop (fuel : nat) (w : bool) (rq : Z) : DL unit :=
  match fuel with
  | O => oops
  | S fuel =>
      alias ← rb_add w rq;
      if alias =? 0 then mret tt else deadline_move_request alias ;; add_rq_rb_loop fuel w rq
  end.
Definition deadline_add_rq_rb (rq : Z) : DL unit :=
  s ← get;
  r ← get_rq rq;
  add_rq_rb_loop (S (size (rqs s))) (is_write r) rq.

Definition deadline_add_request (rq : Z) : DL unit :=
  r ← get_rq rq;
  deadline_add_rq_rb rq ;;
  dd ← get_data;
  s ← get;
  rq_set_fifo_time rq (u32 (jiffies s + at_dir (fifo_expire dd) (is_write r))) ;;
  on_lists (list_add_tail rq (at_dir (fifo_list dd) (is_write r))).

(** The deadline scheduler has no [elevator_allow_merge_fn]. *)
Definition deadline_merge (b : bio) : DL (Z * Z) :=
  dd ← get_data;
  if front_merges dd =? 0 then mret (ELEVATOR_NO_MERGE, 0) else
  let sector := u64 (bi_sector b + bio_sectors b) in
  s ← get;
  rq ← on_tree (negb (bio_data_dir b =? 0)) (st_find (sector_of s) sector);
  if rq =? 0 then mret (ELEVATOR_NO_MERGE, 0) else
  r ← get_rq rq;
  BUG_ON (negb (sector =? blk_rq_pos r)) ;;
  ok ← elv_rq_merge_ok None rq b;
  if (ok : bool) then mret (ELEVATOR_FRONT_MERGE, rq) else mret (ELEVATOR_NO_MERGE, 0).

Definition deadline_merged_request (req type : Z) : DL unit :=
  if type =? ELEVATOR_FRONT_MERGE then
    r ← get_rq req;
    on_tree (is_write r) (st_del req) ;; deadline_add_rq_rb req
  else mret tt.

Definition deadline_merged_requests (req next : Z) : DL unit :=
  fifo_merge req next ;; deadline_remove_request next.

Definition deadline_check_fifo (ddir : bool) : DL bool :=
  dd ← get_data;
  rq ← on_lists (get_next (at_dir (fifo_list dd) ddir));
  r ← get_rq rq;
  s ← get;
  mret (time_after (jiffies s) (rq_fifo_time r)).

(** From [dispatch_find_request] on. *)
Definition dispatch_find_request (data_dir : bool) : DL Z :=
  expired ← deadline_check_fifo data_dir;
  dd ← get_data;
  rq ← (if expired || (at_dir (next_rq dd) data_dir =? 0)
        then on_lists (get_next (at_dir (fifo_list dd) data_dir))
        else mret (at_dir (next_rq dd) data_dir));
  set_data (set_batching 0) ;;
  mret rq.

(** [dispatch_writes]. *)
Definition dispatch_writes : DL Z :=
  e ← on_tree true st_is_empty;
  BUG_ON e ;;
  set_data (set_starved 0) ;;
  dispatch_find_request true.

(** From [dispatch_request] on. *)
Definition dispatch_request (rq : Z) : DL Z :=
  set_data (λ dd, set_batching (u32 (batching dd + 1)) dd) ;;
  deadline_move_request rq ;;
  mret 1.

Definition deadline_dispatch_requests (force : Z) : DL Z :=
  dd ← get_data;
  re ← on_lists (list_empty (at_dir (fifo_list dd) false));
  we ← on_lists (list_empty (at_dir (fifo_list dd) true));
  let rq := if at_dir (next_rq dd) true =? 0 then at_dir (next_rq dd) false else at_dir (next_rq dd) true in
  if negb (rq =? 0) && (batching dd <? u32 (dd_fifo_batch dd)) then dispatch_request rq
  else if negb re then
    e ← on_tree false st_is_empty;
    BUG_ON e ;;
    starve ← (if negb we then set_data (λ dd, set_starved (u32 (starved dd + 1)) dd) ;;
                mret (starved dd >=? u32 (dd_writes_starved dd))
              else mret false);
    rq ← (if (starve : bool) then dispatch_writes else dispatch_find_request false);
    dispatch_request rq
  else if negb we then rq ← dispatch_writes; dispatch_request rq
  else mret 0.

Definition deadline_queue_empty : DL bool :=
  dd ← get_data;
  we ← on_lists (list_empty (at_dir (fifo_list dd) true));
  if (we : bool) then on_lists (list_empty (at_dir (fifo_list dd) false)) else mret false.

Definition deadline_exit_queue : DL unit :=
  dd ← get_data;
  re ← on_lists (list_empty (at_dir (fifo_list dd) false));
  BUG_ON (negb re) ;;
  we ← on_lists (list_empty (at_dir (fifo_list dd) true));
  BUG_ON (negb we).

(** [alloc] gives the addresses of the two list heads; [trees] are the memories
    of tree nodes, whose roots [RB_ROOT] clears. *)
Definition deadline_init_queue (alloc : option (dirs Z)) (trees : dirs T) : M mem (option (deadline_data T)) :=
  match alloc with
  | None => mret None
  | Some fl =>
      INIT_LIST_HEAD (on_read fl) ;; INIT_LIST_HEAD (on_write fl) ;;
      match st_init (on_read trees), st_init (on_write trees) with
      | Some (_, tr), Some (_, tw) =>
          mret (Some (DeadlineData (Dirs tr tw) fl (Dirs 0 0) 0 0 0 (Dirs read_expire write_expire)
            fifo_batch writes_starved 1))
      | _, _ => oops
      end
  end.

(** The sysfs attributes, for the number that was read. *)
Definition deadline_read_expire_store (data : Z) dd : deadline_data T :=
  set_settings (set_dir false (store_value 0 INT_MAX data true) (fifo_expire dd))
    (dd_fifo_batch dd) (dd_writes_starved dd) (front_merges dd) dd.
Definition deadline_write_expire_store (data : Z) dd : deadline_data T :=
  set_settings (set_dir true (store_value 0 INT_MAX data true) (fifo_expire dd))
    (dd_fifo_batch dd) (dd_writes_starved dd) (front_merges dd) dd.
Definition deadline_writes_starved_store (data : Z) dd : deadline_data T :=
  set_settings (fifo_expire dd) (dd_fifo_batch dd) (store_value (- 2 ^ 31) INT_MAX data false) (front_merges dd) dd.
Definition deadline_front_merges_store (data : Z) dd : deadline_data T :=
  set_settings (fifo_expire dd) (dd_fifo_batch dd) (dd_writes_starved dd) (store_value 0 1 data false) dd.
Definition deadline_fifo_batch_store (data : Z) dd : deadline_data T :=
  set_settings (fifo_expire dd) (store_value 0 INT_MAX data false) (dd_writes_starved dd) (front_merges dd) dd.

Definition iosched_deadline : elevator_ops (deadline_data T) := {|
  elevator_merge_fn := Some deadline_merge;
  elevator_merged_fn := Some deadline_merged_request;
  elevator_merge_req_fn := Some deadline_merged_requests;
  elevator_allow_merge_fn := None;
  elevator_dispatch_fn := deadline_dispatch_requests;
  elevator_add_req_fn := deadline_add_request;
  elevator_deactivate_req_fn := None;
  elevator_queue_empty_fn := Some deadline_queue_empty;
  elevator_former_req_fn := Some deadline_former_request;
  elevator_latter_req_fn := Some deadline_latter_request;
|}.

(** ** The invariant *)
Implicit Types (s : elv (deadline_data T)) (L : heads) (l t ext : bool -> list Z) (w c : bool) (x : Z) (k d : list Z).

Definition put w (v : list Z) (f : bool -> list Z) : bool -> list Z := λ c, if Bool.eqb c w then v else f c.

Lemma at_set_dir {A} w (v : A) p c : at_dir (set_dir w v p) c = if Bool.eqb c w then v else at_dir p c.
Proof. by destruct w, c. Qed.
Lemma eqb_same c : Bool.eqb c c = true.
Proof. by destruct c. Qed.

(** [l c] is the fifo and [t c] the tree, in sector order, of the direction [c];
    [ext c] are requests of that direction that a front merge has taken out of
    the tree.  A request of the tree is on its fifo, or on no list while it is
    being added. *)
Record dl_inv s L l t ext : Prop := {
  di_fifos : fifos s L (at_dir (fifo_list (elevator_data s)) false) (at_dir (fifo_list (elevator_data s)) true)
               (l false) (l true);
  di_view : forall c, st_view (at_dir (sort_list (elevator_data s)) c) (t c);
  di_sorted : forall c, sorted (sector_of s) (t c);
  di_stored : forall c x, x ∈ t c -> exists r, rqs s !! x = Some r /\ is_write r = c;
  di_sub : forall c x, x ∈ l c -> x ∈ ext c ++ t c;
  di_idle : forall c x, x ∈ t c -> x ∈ l c \/ L !! x = Some [];
  di_next : forall c, at_dir (next_rq (elevator_data s)) c = 0 \/
              at_dir (next_rq (elevator_data s)) c ∈ ext c ++ t c;
  di_one : at_dir (next_rq (elevator_data s)) false = 0 \/ at_dir (next_rq (elevator_data s)) true = 0;
}.

Definition none : bool -> list Z := λ _, [].

(** What a move of a request to the dispatch queue leaves alone. *)
Definition counters dd : Z * Z * dirs Z * dirs Z * Z * Z * Z :=
  (batching dd, starved dd, fifo_list dd, fifo_expire dd, dd_fifo_batch dd, dd_writes_starved dd, front_merges dd).

Lemma dl_tree_run {A} c (m : M T A) s a tr : m (at_dir (sort_list (elevator_data s)) c) = Some (a, tr) ->
  on_tree c m s = Some (a, upd_data (set_sort_list c tr) s).
Proof. unfold on_tree. by intros ->. Qed.
Lemma dl_tree_read {A} c (m : M T A) s a :
  m (at_dir (sort_list (elevator_data s)) c) = Some (a, at_dir (sort_list (elevator_data s)) c) ->
  on_tree c m s = Some (a, s).
Proof. unfold on_tree. intros ->. do 2 f_equal. destruct s as [? ? ? [[] ? ? ? ? ? ? ? ? ?] ?]. by destruct c. Qed.

Lemma in_list_dir l c x : x ∈ l c -> x ∈ l false ++ l true.
Proof. destruct c; set_solver +. Qed.

Lemma dl_hd_ne s L l t ext w k1 x k2 : dl_inv s L l t ext -> t w = k1 ++ x :: k2 -> hd0 k2 <> x /\ x ∉ k1 ++ k2.
Proof.
  intros [_ Hv Hs _ _ _ _ _] E. specialize (Hs w). specialize (Hv w). rewrite E in *.
  pose proof (st_view_valid _ _ Hv) as Hva. rewrite Forall_app, Forall_cons in Hva.
  apply sorted_nodup in Hs. apply NoDup_app in Hs as (_ & Hd & Hs). apply NoDup_cons in Hs as [Hx _].
  assert (x ∉ k1) by (intros H; apply (Hd x H); set_solver +). split; [|set_solver].
  destruct k2 as [|y k2]; cbn; [destruct Hva as (_ & [? ?] & _); lia|set_solver +Hx].
Qed.

Lemma latter_run s w x r k1 k2 : rqs s !! x = Some r -> is_write r = w ->
  st_view (at_dir (sort_list (elevator_data s)) w) (k1 ++ x :: k2) -> deadline_latter_request x s = Some (hd0 k2, s).
Proof.
  intros Hr <- Hv. unfold deadline_latter_request. erewrite bind_run by (by apply get_rq_run).
  apply dl_tree_read. by eapply st_latter_view.
Qed.

Lemma dl_del_run s w x r k1 k2 : rqs s !! x = Some r -> is_write r = w ->
  st_view (at_dir (sort_list (elevator_data s)) w) (k1 ++ x :: k2) ->
  exists tr n, deadline_del_rq_rb x s = Some (tt, upd_data (λ dd, set_sort_list w tr (set_next_rq w n dd)) s) /\
    st_view tr (k1 ++ k2) /\
    n = (if at_dir (next_rq (elevator_data s)) w =? x then hd0 k2 else at_dir (next_rq (elevator_data s)) w).
Proof.
  intros Hr Hw Hv. destruct (st_del_view _ _ _ _ Hv) as (tr & Hdel & Hv').
  set (n := if at_dir (next_rq (elevator_data s)) w =? x then hd0 k2 else at_dir (next_rq (elevator_data s)) w).
  exists tr, n. split_and!; [|done|done].
  unfold deadline_del_rq_rb. erewrite bind_run by (by apply get_rq_run). erewrite bind_run by done. rewrite Hw.
  erewrite (bind_run _ _ _ tt (upd_data (set_next_rq w n) s)).
  - apply (dl_tree_run w (st_del x) (upd_data (set_next_rq w n) s)). exact Hdel.
  - unfold n. destruct (_ =? x).
    + by erewrite bind_run by (by eapply latter_run).
    + unfold mret, M_ret. do 2 f_equal. destruct s as [? ? ? [? ? [] ? ? ? ? ? ? ?] ?]. by destruct w.
Qed.

Lemma dl_inv_data s L l t ext f : dl_inv s L l t ext ->
  let dd := elevator_data s in
  fifo_list (f dd) = fifo_list dd -> sort_list (f dd) = sort_list dd ->
  (forall c, at_dir (next_rq (f dd)) c = 0 \/ at_dir (next_rq (f dd)) c ∈ ext c ++ t c) ->
  at_dir (next_rq (f dd)) false = 0 \/ at_dir (next_rq (f dd)) true = 0 -> dl_inv (upd_data f s) L l t ext.
Proof.
  intros [Hf Hv Hs Hst Hsub Hidle _ _] dd E1 E2 Hn H1. split; cbn [elevator_data upd_data]; try done.
  - apply fifos_data. unfold dd in *. by rewrite E1.
  - unfold dd in *. by rewrite E2.
Qed.

(** Writes to requests that are in no tree and whose list links are untouched. *)
Lemma dl_inv_frame s s' L L' l t ext : dl_inv s L l t ext -> elevator_data s' = elevator_data s ->
  fifos s' L' (at_dir (fifo_list (elevator_data s)) false) (at_dir (fifo_list (elevator_data s)) true) (l false) (l true) ->
  (forall c x, x ∈ t c -> rqs s' !! x = rqs s !! x) ->
  (forall c x, x ∈ t c -> L !! x = Some [] -> L' !! x = Some []) -> dl_inv s' L' l t ext.
Proof.
  intros [Hf Hv Hs Hst Hsub Hidle Hn H1] Ed Hf' Hk HL. split; rewrite ?Ed; try done.
  - intros c. eapply sorted_ext; [|apply Hs]. intros x Hx. unfold sector_of. by rewrite (Hk c).
  - intros c x Hx. rewrite (Hk c); auto.
  - intros c x Hx. destruct (Hidle c x Hx); eauto.
Qed.

Lemma put_same w v t : put w v t w = v.
Proof. unfold put. by rewrite eqb_same. Qed.
Lemma put_sub w k1 x k2 t c y : t w = k1 ++ x :: k2 -> y ∈ put w (k1 ++ k2) t c -> y ∈ t c.
Proof.
  intros E. unfold put. destruct (Bool.eqb c w) eqn:Ec; [|done].
  apply Bool.eqb_prop in Ec as ->. rewrite E. set_solver.
Qed.
Lemma put_keep w k1 x k2 t c y : t w = k1 ++ x :: k2 -> y <> x -> y ∈ t c -> y ∈ put w (k1 ++ k2) t c.
Proof.
  intros E Hne. unfold put. destruct (Bool.eqb c w) eqn:Ec; [|done].
  apply Bool.eqb_prop in Ec as ->. rewrite E. set_solver.
Qed.

(** A request is in the tree of its direction only. *)
Lemma dl_only s L l t ext w k1 x k2 c y : dl_inv s L l t ext -> t w = k1 ++ x :: k2 ->
  y ∈ put w (k1 ++ k2) t c -> y <> x.
Proof.
  intros Hinv E Hy ->. destruct (dl_hd_ne _ _ _ _ _ _ _ _ _ Hinv E) as [_ Hx].
  pose proof (put_sub _ _ _ _ _ _ _ E Hy) as Hy'. destruct Hinv as [_ _ _ Hst _ _ _ _].
  destruct (Hst c x Hy') as (r & Hr & <-). destruct (Hst w x) as (r' & Hr' & Hw); [rewrite E; set_solver +|].
  simplify_eq. rewrite put_same in Hy. done.
Qed.

Lemma dl_remove_run s L l t ext w k1 x k2 r : dl_inv s L l t ext -> t w = k1 ++ x :: k2 -> rqs s !! x = Some r ->
  exists s' L' tr n, deadline_remove_request x s = Some (tt, s') /\
    dl_inv s' L' (λ c, rem x (l c)) (put w (k1 ++ k2) t) ext /\ L' !! x = Some [] /\
    L' !! queue_head (queue s) = L !! queue_head (queue s) /\
    (forall y, is_Some (rqs s !! y) -> y <> x -> L' !! y = L !! y) /\
    rqs s' = <[x := set_csd_list (ListHead x x) r]> (rqs s) /\ queue s' = queue s /\ jiffies s' = jiffies s /\
    elevator_data s' = set_sort_list w tr (set_next_rq w n (elevator_data s)).
Proof.
  intros Hinv E Hr. pose proof (dl_hd_ne _ _ _ _ _ _ _ _ _ Hinv E) as [_ Hx12].
  assert (forall c y, y ∈ put w (k1 ++ k2) t c -> y <> x) as Honly by (intros c y; by eapply dl_only).
  pose proof Hinv as [Hf Hv Hs Hst Hsub Hidle Hn H1].
  assert (is_write r = w) as Hw.
  { destruct (Hst w x) as (r' & Hr' & <-); [rewrite E; set_solver +|]. by simplify_eq. }
  destruct (fifos_clear s L _ _ (l false) (l true) x r Hf Hr) as (m & L1 & Hclr & Hf1 & Hx1 & Hq1 & Hk1).
  { destruct (Hidle w x) as [?|?]; [rewrite E; set_solver +|left; by eapply in_list_dir|by right]. }
  set (s1 := cleared x r m s) in *.
  assert (rqs s1 !! x = Some (set_csd_list (ListHead x x) r)) as Hr1 by (cbn; by rewrite lookup_insert_eq).
  destruct (dl_del_run s1 w x _ k1 k2 Hr1 Hw) as (tr & n & Hdel & Hv' & En); [rewrite <-E; apply Hv|].
  exists (upd_data (λ dd, set_sort_list w tr (set_next_rq w n dd)) s1), L1, tr, n. split_and!; try done.
  { unfold deadline_remove_request. by erewrite bind_run by exact Hclr. }
  assert (forall c y, y ∈ put w (k1 ++ k2) t c -> rqs s1 !! y = rqs s !! y) as Hk.
  { intros c y Hy%Honly. cbn. by rewrite lookup_insert_ne. }
  split; cbn [elevator_data upd_data set_sort_list set_next_rq sort_list fifo_list next_rq].
  - by apply fifos_data.
  - intros c. rewrite at_set_dir. unfold put. destruct (Bool.eqb c w); [done|apply Hv].
  - intros c. apply (sorted_ext (sector_of s)).
    { intros y Hy. unfold sector_of. by rewrite (Hk c). }
    unfold put. destruct (Bool.eqb c w); [|apply Hs]. specialize (Hs w). rewrite E in Hs. by apply sorted_mid in Hs as [? _].
  - intros c y Hy. change (exists r0, rqs s1 !! y = Some r0 /\ is_write r0 = c). rewrite (Hk c y Hy). eapply Hst, put_sub; done.
  - intros c y [Hyx Hy]%elem_of_rem. apply Hsub in Hy. apply elem_of_app in Hy as [Hy|Hy]; [set_solver +Hy|].
    apply elem_of_app. right. by eapply put_keep.
  - intros c y Hy. pose proof (Honly _ _ Hy) as Hyx. pose proof (put_sub _ _ _ _ _ _ _ E Hy) as Hy'.
    destruct (Hidle c y Hy') as [Hin|Hin]; [left; by apply elem_of_rem|right].
    destruct (Hst c y Hy') as (ry & Hry & _). rewrite Hk1; eauto.
  - intros c. rewrite at_set_dir. destruct (Bool.eqb c w) eqn:Ec.
    + apply Bool.eqb_prop in Ec as ->. rewrite put_same, En. cbn [s1 cleared elevator_data upd_rqs with_lists].
      destruct (Z.eqb_spec (at_dir (next_rq (elevator_data s)) w) x) as [_|Hnx].
      * destruct k2; [by left|right; set_solver +].
      * destruct (Hn w) as [?|Hin]; [by left|right]. rewrite E in Hin. set_solver +Hin Hnx.
    + destruct (Hn c) as [?|Hin]; [by left|right]. unfold put. by rewrite Ec.
  - rewrite !at_set_dir, En. cbn [s1 cleared elevator_data upd_rqs with_lists].
    destruct H1 as [H0|H0], w; cbn [Bool.eqb]; rewrite H0; auto.
    + destruct (Z.eqb_spec 0 x) as [<-|_]; [|by left]. specialize (Hv false). rewrite E in Hv.
      apply st_view_valid in Hv. rewrite Forall_app, Forall_cons in Hv. by destruct Hv as (_ & [? ?] & _).
    + destruct (Z.eqb_spec 0 x) as [<-|_]; [|by right]. specialize (Hv true). rewrite E in Hv.
      apply st_view_valid in Hv. rewrite Forall_app, Forall_cons in Hv. by destruct Hv as (_ & [? ?] & _).
Qed.

Lemma dl_move_run s L l t ext w k1 x k2 d : dl_inv s L l t ext -> t w = k1 ++ x :: k2 ->
  L !! queue_head (queue s) = Some d ->
  exists s' L', deadline_move_request x s = Some (tt, s') /\
    dl_inv s' L' (λ c, rem x (l c)) (put w (k1 ++ k2) t) ext /\
    L' !! queue_head (queue s) = Some (d ++ [x]) /\ sent s s' x /\
    counters (elevator_data s') = counters (elevator_data s) /\
    (forall y, is_Some (rqs s !! y) -> y <> x -> L' !! y = L !! y) /\
    (exists r r', rqs s !! x = Some r /\ rqs s' !! x = Some r' /\ is_write r' = is_write r).
Proof.
  intros Hinv E Hd. pose proof Hinv as [_ Hv _ Hst _ _ _ _].
  destruct (Hst w x) as (r & Hr & Hw); [rewrite E; set_solver +|].
  set (f := λ dd, set_last_sector (rq_end_sector r) (set_next_rq w (hd0 k2) (set_next_rq true 0 (set_next_rq false 0 dd)))).
  assert (dl_inv (upd_data f s) L l t ext) as Hinv1.
  { apply dl_inv_data; try done.
    - intros c. unfold f. cbn [set_last_sector set_next_rq next_rq]. rewrite !at_set_dir.
      destruct (Bool.eqb c w) eqn:Ec; [|by destruct c; left].
      apply Bool.eqb_prop in Ec as ->. rewrite E. destruct k2; [by left|right; set_solver +].
    - unfold f. cbn [set_last_sector set_next_rq next_rq]. rewrite !at_set_dir. destruct w; cbn; auto. }
  destruct (dl_remove_run (upd_data f s) L l t ext w k1 x k2 r Hinv1 E Hr)
    as (s2 & L2 & tr & n & Hrem & Hinv2 & Hx2 & Hq2 & Hk2 & Er2 & Eq2 & Ej2 & Ed2).
  cbn [queue upd_data rqs jiffies elevator_data] in Hq2, Er2, Eq2, Ej2, Ed2, Hk2.
  destruct (fifos_dispatch s2 L2 _ _ _ _ x (set_csd_list (ListHead x x) r) d (di_fifos _ _ _ _ _ Hinv2))
    as (s3 & L3 & Hdis & [D1 D2 D3 D4 D5 D6] & Hf3 & Hq3 & Hk3).
  { rewrite Er2. by rewrite lookup_insert_eq. } { done. } { by rewrite Eq2, Hq2. }
  rewrite Eq2 in *. rewrite Er2 in D1. exists s3, L3. split_and!; try done.
  - unfold deadline_move_request. erewrite bind_run by (by apply get_rq_run). erewrite bind_run by done.
    erewrite bind_run by done.
    erewrite bind_run. 2:{ eapply (latter_run _ w x r k1 k2); [done..|]. rewrite <-E. apply Hv. }
    erewrite bind_run by done. erewrite bind_run by done.
    unfold deadline_move_to_dispatch. rewrite Hw. erewrite bind_run by exact Hrem. exact Hdis.
  - eapply dl_inv_frame; try done.
    + intros c y Hy%(dl_only _ _ _ _ _ _ _ _ _ _ _ Hinv E). rewrite D1, Er2. by rewrite !lookup_insert_ne.
    + intros c y Hy Hi. pose proof (dl_only _ _ _ _ _ _ _ _ _ _ _ Hinv E Hy) as Hyx. rewrite Hk3; [done| |done].
      destruct (di_stored _ _ _ _ _ Hinv2 c y Hy) as (ry & Hry & _). eauto.
  - split; try done; [..|by rewrite D3].
    + intros y Hy. rewrite D1. by rewrite !lookup_insert_ne.
    + rewrite D1, lookup_insert_eq. eauto.
  - by rewrite D2, Ed2.
  - intros y Hy Hyx. rewrite Hk3; [apply Hk2; done| |done]. rewrite Er2, lookup_insert_ne; done.
  - exists r, (set_rq_hash None (set_csd_list (ListHead x x) r)). split_and!; [done| |done].
    rewrite D1. by rewrite lookup_insert_eq.
Qed.

(** ** Adding a request *)
Definition pending t : list Z := t false ++ t true.

Lemma pending_put w x k t : t w ≡ₚ x :: k -> pending t ≡ₚ x :: pending (put w k t).
Proof. unfold pending, put. destruct w; cbn; intros ->; solve_Permutation. Qed.
Lemma pending_place w x v t : v ≡ₚ x :: t w -> pending (put w v t) ≡ₚ x :: pending t.
Proof. unfold pending, put. destruct w; cbn; intros ->; solve_Permutation. Qed.

Lemma dl_link_run s L l t ext w x r :
  dl_inv s L l t ext -> rqs s !! x = Some r -> is_write r = w -> x ∉ t w -> valid x ->
  x ∈ l w \/ L !! x = Some [] -> (forall c y, y ∈ ext c -> c = w /\ y = x) ->
  (forall y, y ∈ t w -> sector_of s y <> sector_of s x) ->
  exists tr v, rb_add w x s = Some (0, upd_data (set_sort_list w tr) s) /\ v ≡ₚ x :: t w /\
    dl_inv (upd_data (set_sort_list w tr) s) L l (put w v t) none.
Proof.
  intros [Hf Hv Hs Hst Hsub Hidle Hn H1] Hr Hw Hx Hval Hxl Hext Hne.
  destruct (st_add_new (sector_of s) _ (t w) x (Hv w) (Hs w) Hval Hne) as (tr & Hadd & Hview).
  exists tr, (place (sector_of s) x (t w)). pose proof (place_perm (sector_of s) (t w) x) as Hp.
  split_and!; [|done|].
  { unfold rb_add. erewrite bind_run by done. by apply dl_tree_run. }
  assert (forall c y, y ∈ ext c ++ t c -> y ∈ none c ++ put w (place (sector_of s) x (t w)) t c) as Hin.
  { intros c y [[-> ->]%Hext|Hy]%elem_of_app; rewrite elem_of_app; right.
    - rewrite put_same, Hp. set_solver +.
    - unfold put. destruct (Bool.eqb c w) eqn:Ec; [|done]. apply Bool.eqb_prop in Ec as ->. rewrite Hp. set_solver +Hy. }
  assert (forall c y, y ∈ put w (place (sector_of s) x (t w)) t c -> c = w /\ y = x \/ y ∈ t c) as Hout.
  { intros c y. unfold put. destruct (Bool.eqb c w) eqn:Ec; [|auto]. apply Bool.eqb_prop in Ec as ->.
    rewrite Hp, elem_of_cons. tauto. }
  split; cbn [elevator_data upd_data set_sort_list sort_list fifo_list next_rq rqs].
  - by apply fifos_data.
  - intros c. rewrite at_set_dir. unfold put. by destruct (Bool.eqb c w).
  - intros c. change (sorted (sector_of s) (put w (place (sector_of s) x (t w)) t c)).
    unfold put. destruct (Bool.eqb c w); [|done]. by apply place_sorted.
  - intros c y [[-> ->]|Hy]%Hout; eauto.
  - auto.
  - intros c y [[-> ->]|Hy]%Hout; auto.
  - intros c. destruct (Hn c); auto.
  - done.
Qed.

(** The requests that stay keep their place; [x] is new in the trees. *)
Definition kept x l t l' t' : Prop :=
  forall c y, y ∈ t' c -> (y = x \/ y ∈ t c) /\ (y ∈ l c -> y ∈ l' c).

Lemma dl_add_rb_run s L l t ext w x r d :
  dl_inv s L l t ext -> rqs s !! x = Some r -> is_write r = w -> x ∉ t w -> valid x ->
  L !! queue_head (queue s) = Some d -> x ∈ l w \/ L !! x = Some [] ->
  (forall c y, y ∈ ext c -> c = w /\ y = x) ->
  exists s' L' l' t' d', deadline_add_rq_rb x s = Some (tt, s') /\ dl_inv s' L' l' t' none /\
    L' !! queue_head (queue s) = Some d' /\ queue_head (queue s') = queue_head (queue s) /\
    counters (elevator_data s') = counters (elevator_data s) /\ rqs s' !! x = Some r /\ jiffies s' = jiffies s /\
    (L !! x = Some [] -> L' !! x = Some []) /\ x ∈ t' w /\ kept x l t l' t' /\
    added s s' x (pending t) d (pending t') d'.
Proof.
  intros Hinv Hr Hw Hxt Hval Hd Hxl Hext. pose proof Hinv as [Hf Hv Hs Hst Hsub Hidle Hn H1].
  assert (exists m, size (rqs s) = S m) as [m Em].
  { destruct (size (rqs s)) eqn:E; [|eauto]. apply map_size_empty_inv in E. rewrite E in Hr. by rewrite lookup_empty in Hr. }
  assert (deadline_add_rq_rb x s = add_rq_rb_loop (S (S m)) w x s) as ->.
  { unfold deadline_add_rq_rb. erewrite bind_run by done. erewrite bind_run by (by apply get_rq_run). by rewrite Hw, Em. }
  assert (forall v t0 c y, v ≡ₚ x :: t0 w -> y ∈ put w v t0 c -> y = x \/ y ∈ t0 c) as Hput.
  { intros v t0 c y Hp. unfold put. destruct (Bool.eqb c w) eqn:Ec; [|auto]. apply Bool.eqb_prop in Ec as ->.
    rewrite Hp, elem_of_cons. done. }
  destruct (decide (Exists (λ y, sector_of s y = sector_of s x) (t w))) as [Hal|Hal].
  2:{ destruct (dl_link_run s L l t ext w x r) as (tr & v & Hadd & Hp & Hinv'); try done.
      { intros y Hy E. apply Hal, Exists_exists. eauto. }
      eexists _, L, l, (put w v t), d. split_and!; try done.
      - cbn [add_rq_rb_loop]. erewrite bind_run by exact Hadd. done.
      - rewrite put_same, Hp. set_solver +.
      - intros c y Hy. split; [by eapply Hput|done].
      - left. split_and!; try done. by apply pending_place. }
  apply Exists_exists in Hal as (y & Hy & Ey). assert (y <> x) as Hyx by (intros ->; done).
  assert (y <> 0) as Hy0.
  { pose proof (st_view_valid _ _ (Hv w)) as Hva. rewrite Forall_forall in Hva. by apply Hva. }
  destruct (list_elem_of_split _ _ Hy) as (k1 & k2 & E).
  destruct (dl_move_run s L l t ext w k1 y k2 d Hinv E Hd)
    as (s1 & L1 & Hmove & Hinv1 & Hd1 & Hsent & Hc1 & Hk1 & _). destruct Hsent as [S1 S2 S3 S4 S5 S6].
  assert (rqs s1 !! x = Some r) as Hr1 by (by rewrite S1 by auto).
  assert (sector_of s1 x = sector_of s x) as Esx by (unfold sector_of; by rewrite Hr, Hr1).
  destruct (dl_hd_ne _ _ _ _ _ _ _ _ _ Hinv E) as [_ Hy12].
  destruct (dl_link_run s1 L1 (λ c, rem y (l c)) (put w (k1 ++ k2) t) ext w x r)
    as (tr & v & Hadd & Hp & Hinv'); try done.
  { rewrite put_same. rewrite E in Hxt. set_solver +Hxt. }
  { destruct Hxl as [Hx|Hx]; [left; by apply elem_of_rem|right]. rewrite Hk1; eauto. }
  { intros z. rewrite put_same, Esx. intros Hz. assert (z <> y) as Hzy by (intros ->; done).
    assert (sector_of s1 z = sector_of s z) as -> by (unfold sector_of; by rewrite S1).
    rewrite <-Ey. intros Ez. apply Hzy. eapply (sorted_inj _ _ z y (Hs w)); [rewrite E; set_solver +Hz|done|done]. }
  eexists _, L1, _, _, (d ++ [y]). split_and!; [|exact Hinv'|..]; try done.
  - cbn [add_rq_rb_loop]. erewrite bind_run.
    2:{ unfold rb_add. erewrite bind_run by done. apply dl_tree_read. exact (st_add_alias _ _ _ x y (Hv w) (Hs w) Hy Ey). }
    rewrite (proj2 (Z.eqb_neq _ _) Hy0). erewrite bind_run by exact Hmove. by erewrite bind_run by exact Hadd.
  - intros Hx'. rewrite Hk1; eauto.
  - rewrite put_same, Hp. set_solver +.
  - intros c z Hz. apply (Hput _ _ _ _ Hp) in Hz as [->|Hz].
    + split; [by left|]. intros Hz. by apply elem_of_rem.
    + pose proof (dl_only _ _ _ _ _ _ _ _ _ _ _ Hinv E Hz). split; [right; by eapply put_sub|].
      intros Hzl. by apply elem_of_rem.
  - right. exists y, (pending (put w (k1 ++ k2) t)). split_and!; try done.
    + apply pending_put. rewrite E. solve_Permutation.
    + by apply pending_place.
Qed.

(** Between two operations every request of a tree is on the fifo. *)
Definition dl_ok s L l t : Prop := dl_inv s L l t none /\ forall c x, x ∈ t c -> x ∈ l c.

Lemma dl_add_request_run s L l t x r d :
  dl_ok s L l t -> rqs s !! x = Some r -> x ∉ pending t -> valid x ->
  L !! queue_head (queue s) = Some d -> L !! x = Some [] ->
  exists s' L' l' t' d', deadline_add_request x s = Some (tt, s') /\ dl_ok s' L' l' t' /\
    L' !! queue_head (queue s) = Some d' /\ queue_head (queue s') = queue_head (queue s) /\
    counters (elevator_data s') = counters (elevator_data s) /\ added s s' x (pending t) d (pending t') d'.
Proof.
  intros [Hinv Hfull] Hr Hxt Hval Hd Hx.
  destruct (dl_add_rb_run s L l t none (is_write r) x r d)
    as (s1 & L1 & l1 & t' & d' & Hrb & Hinv1 & Hd1 & Eq & Hc & Hr1 & Ej & Hx1 & Hxt' & Hkept & Hadd); try done.
  { unfold pending in Hxt. destruct (is_write r); set_solver +Hxt. } { by right. } { set_solver +. }
  specialize (Hx1 Hx). pose proof Hinv1 as [Hf Hv Hs Hst Hsub Hidle Hn H1]. set (w := is_write r) in *.
  set (exp := u32 (jiffies s1 + at_dir (fifo_expire (elevator_data s1)) w)).
  destruct (fifos_append s1 L1 _ _ (l1 false) (l1 true) x r w exp Hf Hr1 Hx1)
    as (s2 & L2 & Hrun & Hf2 & Hq2 & Hk2 & Er & Eq2 & Ed2 & Ej2).
  set (l2 := put w (l1 w ++ [x]) l1).
  assert (forall c y, y ∈ l2 c <-> y ∈ l1 c \/ (c = w /\ y = x)) as Hl2.
  { intros c y. unfold l2, put. destruct (Bool.eqb c w) eqn:Ec.
    - apply Bool.eqb_prop in Ec as ->. rewrite elem_of_app, list_elem_of_singleton. tauto.
    - split; [by left|]. intros [?|[-> _]]; [done|]. by rewrite eqb_same in Ec. }
  assert (forall y, sector_of s2 y = sector_of s1 y) as Hsec.
  { intros y. unfold sector_of. rewrite Er. destruct (decide (y = x)) as [->|];
      [by rewrite lookup_insert_eq, Hr1|by rewrite lookup_insert_ne]. }
  exists s2, L2, l2, t', d'. split_and!; [..|by rewrite Eq2|by rewrite Ed2|unfold added; by rewrite Eq2].
  - unfold deadline_add_request. erewrite bind_run by (by apply get_rq_run). erewrite bind_run by exact Hrb.
    erewrite bind_run by done. erewrite bind_run by done. fold w exp. rewrite <-Hrun. do 2 f_equal.
  - split; [split; rewrite ?Ed2; try done|].
    + unfold l2, put. by destruct w.
    + intros c. eapply sorted_ext; [|apply Hs]. auto.
    + intros c y Hy. destruct (Hst c y Hy) as (ry & Hry & Hcy). rewrite Er. destruct (decide (y = x)) as [->|].
      * rewrite lookup_insert_eq. simplify_eq. eauto.
      * rewrite lookup_insert_ne by done. eauto.
    + intros c y [Hy|[-> ->]]%Hl2; [auto|]. set_solver +Hxt'.
    + intros c y Hy. rewrite Hl2. destruct (decide (y = x)) as [->|Hyx].
      * destruct (Hst c x Hy) as (ry & Hry & <-). simplify_eq. auto.
      * destruct (Hidle c y Hy) as [?|Hi]; [auto|right]. rewrite Hk2; [done| |done].
        destruct (Hst c y Hy) as (ry & Hry & _). eauto.
    + intros c y Hy. rewrite Hl2. destruct (decide (y = x)) as [->|Hyx].
      * destruct (Hst c x Hy) as (ry & Hry & <-). simplify_eq. auto.
      * destruct (Hkept c y Hy) as [[?|Hyt] Hl]; [done|]. left. by apply Hl, Hfull.
  - rewrite <-Eq, Hq2, Eq. done.
Qed.

(** ** Dispatching *)
(** The request that continues the running batch, or NULL. *)
Definition batch_rq dd : Z :=
  if at_dir (next_rq dd) true =? 0 then at_dir (next_rq dd) false else at_dir (next_rq dd) true.
Definition continuing dd : bool := negb (batch_rq dd =? 0) && (batching dd <? u32 (dd_fifo_batch dd)).

(** The direction of a new batch. *)
Definition new_dir dd l : option bool :=
  if negb (bool_decide (l false = [])) then
    Some (negb (bool_decide (l true = [])) && (starved dd >=? u32 (dd_writes_starved dd)))
  else if negb (bool_decide (l true = [])) then Some true
  else None.

(** The request a new batch of the direction [w] starts with. *)
Definition first_rq s l w : Z :=
  let n := at_dir (next_rq (elevator_data s)) w in
  if negb (first_expired s (l w) =? 0) || (n =? 0) then hd0 (l w) else n.

(** What a dispatch that takes the request [x] of direction [w] did: it went on
    with the batch, or started a new one. *)
Definition dl_rule s l w x (b st : Z) : Prop :=
  let dd := elevator_data s in
  (continuing dd = true /\ x = at_dir (next_rq dd) w /\ b = u32 (batching dd + 1) /\ st = starved dd) \/
  (continuing dd = false /\ new_dir dd l = Some w /\ x = first_rq s l w /\ b = 1 /\
   st = if w then 0 else if bool_decide (l true = []) then starved dd else u32 (starved dd + 1)).

Lemma dl_ok_counters s L l t b st : dl_ok s L l t ->
  dl_ok (upd_data (λ dd, set_batching b (set_starved st dd)) s) L l t.
Proof. intros [Hinv Hfull]. split; [|done]. pose proof Hinv as [_ _ _ _ _ _ Hn H1]. by apply dl_inv_data. Qed.

Lemma dl_lists s L l t c : dl_ok s L l t ->
  (forall x, x ∈ l c <-> x ∈ t c) /\ (l c = [] <-> t c = []) /\
  L !! at_dir (fifo_list (elevator_data s)) c = Some (l c) /\ Forall valid (l c).
Proof.
  intros [[Hf Hv _ _ Hsub _ _ _] Hfull].
  assert (forall x, x ∈ l c <-> x ∈ t c) as Heq by (intros x; split; [apply Hsub|apply Hfull]).
  split_and!.
  - done.
  - destruct (l c) as [|y k], (t c) as [|z k']; try done.
    + assert (z ∈ @nil Z) as Hz by (apply Heq; set_solver +). set_solver +Hz.
    + assert (y ∈ @nil Z) as Hy by (apply Heq; set_solver +). set_solver +Hy.
  - destruct Hf, c; done.
  - pose proof (st_view_valid _ _ (Hv c)) as Hva. rewrite Forall_forall in *. intros x Hx%Heq. auto.
Qed.

Lemma first_rq_in s L l t w : dl_ok s L l t -> l w <> [] -> first_rq s l w ∈ t w.
Proof.
  intros Hok Hne. destruct (dl_lists _ _ _ _ w Hok) as (Heq & _).
  destruct Hok as [[_ _ _ _ _ _ Hn _] _]. unfold first_rq.
  destruct (_ || _) eqn:E.
  - apply Heq. destruct (l w); [done|set_solver +].
  - apply orb_false_iff in E as [_ E]. apply Z.eqb_neq in E. by destruct (Hn w).
Qed.

Lemma check_fifo_run s L l t c : dl_ok s L l t -> l c <> [] ->
  deadline_check_fifo c s = Some (negb (first_expired s (l c) =? 0), s) /\
  on_lists (get_next (at_dir (fifo_list (elevator_data s)) c)) s = Some (hd0 (l c), s).
Proof.
  intros Hok Hne. destruct (dl_lists _ _ _ _ c Hok) as (Heq & _ & HL & Hval).
  destruct Hok as [[[[Hl _] _ _ _ _ _ _ _ _ _] _ _ Hst _ _ _ _] _].
  destruct (l c) as [|x k] eqn:E; [done|].
  assert (on_lists (get_next (at_dir (fifo_list (elevator_data s)) c)) s = Some (x, s)) as Hg.
  { apply on_lists_read. by erewrite heap_get_next by done. }
  split; [|done]. destruct (Hst c x) as (r & Hr & _); [apply Heq; set_solver +|].
  unfold deadline_check_fifo. erewrite bind_run by done. erewrite bind_run by exact Hg.
  erewrite bind_run by (by apply get_rq_run). erewrite bind_run by done. cbn. rewrite Hr.
  destruct (time_after _ _); [|done]. rewrite (proj2 (Z.eqb_neq x 0)); [done|].
  apply Forall_cons in Hval as [[_ ?] _]. done.
Qed.

Lemma find_request_run s L l t c : dl_ok s L l t -> l c <> [] ->
  dispatch_find_request c s = Some (first_rq s l c, upd_data (set_batching 0) s).
Proof.
  intros Hok Hne. destruct (check_fifo_run s L l t c Hok Hne) as [Hc Hg].
  unfold dispatch_find_request. erewrite bind_run by exact Hc. erewrite bind_run by done.
  erewrite (bind_run _ _ _ (first_rq s l c) s); [done|].
  unfold first_rq. cbv zeta. destruct (_ || _); [exact Hg|done].
Qed.

Lemma writes_run s L l t : dl_ok s L l t -> l true <> [] ->
  dispatch_writes s = Some (first_rq s l true, upd_data (λ dd, set_batching 0 (set_starved 0 dd)) s).
Proof.
  intros Hok Hne. destruct (dl_lists _ _ _ _ true Hok) as (_ & Hemp & _).
  pose proof Hok as [[_ Hv _ _ _ _ Hn H1] _]. unfold dispatch_writes.
  erewrite bind_run by (apply dl_tree_read; by eapply st_is_empty_view).
  rewrite bool_decide_false by tauto. erewrite bind_run by done. erewrite bind_run by done.
  erewrite (find_request_run (upd_data (set_starved 0) s) L l t true); [done| |done].
  destruct Hok as [Hinv Hfull]. split; [|done]. by apply dl_inv_data.
Qed.

Lemma sent_data s s' x f : sent (upd_data f s) s' x -> sent s s' x.
Proof. intros []. by split. Qed.

Lemma dispatch_request_run s L l t w x d : dl_ok s L l t -> x ∈ t w -> L !! queue_head (queue s) = Some d ->
  exists s' L' k1 k2, dispatch_request x s = Some (1, s') /\ t w = k1 ++ x :: k2 /\
    dl_ok s' L' (λ c, rem x (l c)) (put w (k1 ++ k2) t) /\
    L' !! queue_head (queue s) = Some (d ++ [x]) /\ sent s s' x /\
    counters (elevator_data s') = counters (set_batching (u32 (batching (elevator_data s) + 1)) (elevator_data s)) /\
    (exists r, rqs s' !! x = Some r /\ is_write r = w).
Proof.
  intros [Hinv Hfull] Hx Hd. destruct (list_elem_of_split _ _ Hx) as (k1 & k2 & E).
  set (f := λ dd, set_batching (u32 (batching dd + 1)) dd).
  assert (dl_inv (upd_data f s) L l t none) as Hinv1.
  { pose proof Hinv as [_ _ _ _ _ _ Hn H1]. by apply dl_inv_data. }
  destruct (dl_move_run (upd_data f s) L l t none w k1 x k2 d Hinv1 E Hd)
    as (s' & L' & Hrun & Hinv' & Hd' & Hsent & Hc & _ & (r & r' & Hr & Hr' & Hw)).
  exists s', L', k1, k2. split_and!; try done.
  - unfold dispatch_request. erewrite bind_run by done. by erewrite bind_run by exact Hrun.
  - split; [done|]. intros c y Hy. apply elem_of_rem. split; [by eapply (dl_only _ _ _ _ _ _ _ _ _ _ _ Hinv E)|].
    by eapply Hfull, put_sub.
  - by eapply sent_data.
  - exists r'. split; [done|]. rewrite Hw. destruct Hinv as [_ _ _ Hst _ _ _ _].
    destruct (Hst w x Hx) as (r0 & Hr0 & <-). cbn in Hr. by simplify_eq.
Qed.

(** The selection part of [deadline_dispatch_requests]: the state [s1] in which
    [dispatch_request] is called for [x]. *)
Lemma dl_select_run s L l t force : dl_ok s L l t -> pending t <> [] ->
  exists w x b st, x ∈ t w /\
    deadline_dispatch_requests force s
      = dispatch_request x (upd_data (λ dd, set_batching b (set_starved st dd)) s) /\
    dl_rule s l w x (u32 (b + 1)) st.
Proof.
  intros Hok Hne. pose proof (dl_lists _ _ _ _ false Hok) as (_ & E0 & L0 & _).
  pose proof (dl_lists _ _ _ _ true Hok) as (_ & E1 & L1 & _).
  pose proof Hok as [[[[Hl _] _ _ _ _ _ _ _ _ _] Hv _ _ _ _ Hn H1] _]. unfold dl_rule.
  unfold deadline_dispatch_requests. erewrite bind_run by done.
  erewrite bind_run by (apply on_lists_read; by eapply heap_list_empty).
  erewrite bind_run by (apply on_lists_read; by eapply heap_list_empty). cbv zeta.
  fold (batch_rq (elevator_data s)). fold (continuing (elevator_data s)).
  destruct (continuing (elevator_data s)) eqn:Ec.
  { set (w := negb (at_dir (next_rq (elevator_data s)) true =? 0)).
    assert (batch_rq (elevator_data s) = at_dir (next_rq (elevator_data s)) w) as Eb.
    { unfold batch_rq, w. by destruct (_ =? 0). }
    exists w, (batch_rq (elevator_data s)), (batching (elevator_data s)), (starved (elevator_data s)). split_and!.
    - unfold continuing in Ec. apply andb_true_iff in Ec as [Ec _]. apply negb_true_iff, Z.eqb_neq in Ec.
      rewrite Eb in *. by destruct (Hn w).
    - by f_equal; destruct s as [? ? ? [] ?].
    - left. by rewrite Eb. }
  unfold new_dir. destruct (decide (l false = [])) as [N0|N0].
  - rewrite (bool_decide_true (l false = [])) by done. cbn [negb].
    assert (l true <> []) as N1 by (intros N1; apply Hne; unfold pending; by rewrite (proj1 E0 N0), (proj1 E1 N1)).
    rewrite (bool_decide_false (l true = [])) by done. cbn [negb].
    exists true, (first_rq s l true), 0, 0. split_and!; [by eapply first_rq_in| |by right].
    by erewrite bind_run by (by eapply writes_run).
  - rewrite (bool_decide_false (l false = [])) by done. cbn [negb].
    erewrite bind_run by (apply dl_tree_read; by eapply st_is_empty_view).
    rewrite (bool_decide_false (t false = [])) by tauto. erewrite bind_run by done.
    destruct (decide (l true = [])) as [N1|N1].
    + rewrite (bool_decide_true (l true = [])) by done. cbn [negb]. erewrite bind_run by done.
      exists false, (first_rq s l false), 0, (starved (elevator_data s)).
      split_and!; [by eapply first_rq_in| |by right].
      erewrite bind_run by (by eapply find_request_run). by f_equal; destruct s as [? ? ? [] ?].
    + rewrite (bool_decide_false (l true = [])) by done. cbn [negb andb].
      set (st := u32 (starved (elevator_data s) + 1)). set (s1 := upd_data (set_starved st) s).
      assert (dl_ok s1 L l t) as Hok1.
      { destruct Hok as [Hinv Hfull]. split; [|done]. by apply dl_inv_data. }
      erewrite (bind_run _ _ _ _ s1) by done.
      destruct (starved (elevator_data s) >=? u32 (dd_writes_starved (elevator_data s))).
      * exists true, (first_rq s l true), 0, 0. split_and!; [by eapply first_rq_in| |by right].
        by erewrite bind_run by (by eapply writes_run).
      * exists false, (first_rq s l false), 0, st. split_and!; [by eapply first_rq_in| |by right].
        by erewrite bind_run by (by eapply find_request_run).
Qed.

Lemma dl_dispatch_run s L l t d force : dl_ok s L l t -> pending t <> [] -> L !! queue_head (queue s) = Some d ->
  exists s' L' w k1 x k2 b st, deadline_dispatch_requests force s = Some (1, s') /\ t w = k1 ++ x :: k2 /\
    dl_ok s' L' (λ c, rem x (l c)) (put w (k1 ++ k2) t) /\
    L' !! queue_head (queue s) = Some (d ++ [x]) /\ sent s s' x /\ dl_rule s l w x b st /\
    counters (elevator_data s') = counters (set_batching b (set_starved st (elevator_data s))) /\
    (exists r, rqs s' !! x = Some r /\ is_write r = w).
Proof.
  intros Hok Hne Hd. destruct (dl_select_run s L l t force Hok Hne) as (w & x & b & st & Hx & -> & Hrule).
  apply (dl_ok_counters _ _ _ _ b st) in Hok.
  destruct (dispatch_request_run _ L l t w x d Hok Hx Hd) as (s' & L' & k1 & k2 & Hrun & E & Hok' & Hd' & Hsent & Hc & Hw).
  exists s', L', w, k1, x, k2, (u32 (b + 1)), st. split_and!; try done. by eapply sent_data.
Qed.

Lemma dl_dispatch_none s L l t force : dl_ok s L l t -> pending t = [] ->
  deadline_dispatch_requests force s = Some (0, s).
Proof.
  intros Hok [N0 N1]%app_nil. pose proof (dl_lists _ _ _ _ false Hok) as (_ & E0 & L0 & _).
  pose proof (dl_lists _ _ _ _ true Hok) as (_ & E1 & L1 & _).
  pose proof Hok as [[[[Hl _] _ _ _ _ _ _ _ _ _] Hv _ _ _ _ Hn H1] _].
  unfold deadline_dispatch_requests. erewrite bind_run by done.
  erewrite bind_run by (apply on_lists_read; by eapply heap_list_empty).
  erewrite bind_run by (apply on_lists_read; by eapply heap_list_empty). cbv zeta.
  rewrite !bool_decide_true by tauto. cbn [negb].
  assert (forall c, at_dir (next_rq (elevator_data s)) c = 0) as Hz.
  { intros c. destruct (Hn c) as [?|Hin]; [done|]. destruct c; rewrite ?N0, ?N1 in Hin; set_solver +Hin. }
  rewrite !Hz. done.
Qed.

(** ** The scheduler meets the elevator's interface *)
Definition deadline_ok s L (pend : list Z) : Prop := exists l t, dl_ok s L l t /\ pend = pending t.

#[export] Instance deadline_sched : IOSched iosched_deadline deadline_ok.
Proof.
  split.
  - intros s L pend (l & t & [[[Hc _ _ _ _ _ _ _ _ _] _ _ _ _ _ _ _] _] & _). done.
  - intros s L pend (l & t & [[[_ _ _ Hq _ _ _ _ _ _] _ _ _ _ _ _ _] _] & _). done.
  - intros s L pend (l & t & [[_ _ Hs Hst _ _ _ _] _] & ->). unfold pending. apply NoDup_app. split_and!.
    + by eapply sorted_nodup.
    + intros x Hx Hx'. destruct (Hst _ _ Hx) as (r & Hr & Hw), (Hst _ _ Hx') as (r' & Hr' & Hw'). congruence.
    + by eapply sorted_nodup.
  - intros s L pend x (l & t & [[_ _ _ Hst _ _ _ _] _] & ->) [Hx|Hx]%elem_of_app; destruct (Hst _ _ Hx) as (r & Hr & _); eauto.
  - intros s s' L pend x r (l & t & [Hinv Hfull] & ->) Hr Hx Hr' Hh El Eq Ed _.
    exists l, t. split; [|done]. split; [|done]. eapply dl_inv_frame; try done.
    + eapply fifos_frame; try done. apply Hinv.
    + intros c y Hy. destruct Hr' as [r' ->]. rewrite lookup_insert_ne; [done|]. intros ->. apply Hx.
      unfold pending. destruct c; set_solver +Hy.
  - intros s L force (l & t & Hok & E). exists s. split_and!; [by eapply dl_dispatch_none|by exists l, t|done].
  - intros s L pend d force (l & t & Hok & ->) Hne Hd.
    destruct (dl_dispatch_run s L l t d force Hok Hne Hd)
      as (s' & L' & w & k1 & x & k2 & b & st & Hrun & E & Hok' & Hd' & [S1 S2 S3 S4 S5 S6] & _).
    assert (pending t ≡ₚ x :: pending (put w (k1 ++ k2) t)) as Hp by (apply pending_put; rewrite E; solve_Permutation).
    exists x, (pending (put w (k1 ++ k2) t)), d, [], s', L'. split_and!; try done.
    + by eexists _, _.
    + by rewrite app_nil_r.
    + by eapply sent_excess.
    + by eapply sent_cache.
  - intros s L pend d x r (l & t & Hok & ->) Hd Hx Hxp Hxq Hv Hr.
    destruct (dl_add_request_run s L l t x r d Hok Hr Hxp Hv Hd Hx)
      as (s' & L' & l' & t' & d' & Hrun & Hok' & Hd' & Eq & _ & Hadd%added_acc).
    exists (pending t'), d', s', L'. split_and!; try done; try apply Hadd. by eexists _, _.
Qed.

(** ** Merging *)
(** After a front merge the sector of [x] is lower; [s] is the state before. *)
Lemma dl_front_run s L l t w x r r' d :
  dl_ok s L l t -> x ∈ t w -> rqs s !! x = Some r -> L !! queue_head (queue s) = Some d ->
  rq_hash r' = rq_hash r -> rq_hash_key r' = rq_hash_key r -> is_write r' = is_write r ->
  exists s' L' l' t' d',
    deadline_merged_request x ELEVATOR_FRONT_MERGE (upd_rqs <[x := r']> s) = Some (tt, s') /\
    dl_ok s' L' l' t' /\ L' !! queue_head (queue s) = Some d' /\ rqs s' !! x = Some r' /\ x ∈ t' w /\
    counters (elevator_data s') = counters (elevator_data s) /\ pending t' ++ d' ≡ₚ pending t ++ d.
Proof.
  intros [Hinv Hfull] Hx Hr Hd Eh Ek Edir. set (s1 := upd_rqs <[x := r']> s).
  destruct (list_elem_of_split _ _ Hx) as (k1 & k2 & E).
  assert (forall c y, y ∈ put w (k1 ++ k2) t c -> y <> x) as Honly by (intros c y; by eapply dl_only).
  pose proof Hinv as [Hf Hv Hs Hst Hsub Hidle Hn H1].
  assert (is_write r' = w) as Hw by (destruct (Hst w x Hx) as (? & ? & <-); by simplify_eq).
  assert (forall c y, y ∈ put w (k1 ++ k2) t c -> rqs s1 !! y = rqs s !! y) as Hk.
  { intros c y Hy%Honly. cbn. by rewrite lookup_insert_ne. }
  destruct (st_del_view (at_dir (sort_list (elevator_data s)) w) k1 x k2) as (tr & Hdel & Hv'); [rewrite <-E; apply Hv|].
  set (s2 := upd_data (set_sort_list w tr) s1). set (ext := put w [x] none).
  assert (forall c y, y ∈ t c -> y ∈ ext c ++ put w (k1 ++ k2) t c) as Hin.
  { intros c y Hy. destruct (decide (y = x)) as [->|Hyx]; [|apply elem_of_app; right; by eapply put_keep].
    assert (c = w) as -> by (destruct (Hst c x Hy) as (? & ? & <-), (Hst w x Hx) as (? & ? & <-); by simplify_eq).
    unfold ext. rewrite put_same. set_solver +. }
  assert (dl_inv s2 L l (put w (k1 ++ k2) t) ext) as Hinv2.
  { split; cbn [elevator_data upd_data s2 set_sort_list sort_list fifo_list next_rq].
    - apply fifos_data. eapply (fifos_frame s); try done; [by exists r'|]. eapply hash_ok_keep; try done. apply Hf.
    - intros c. rewrite at_set_dir. unfold put. destruct (Bool.eqb c w); [done|apply Hv].
    - intros c. apply (sorted_ext (sector_of s)).
      { intros y Hy. change (sector_of s1 y = sector_of s y). unfold sector_of. by rewrite (Hk c). }
      unfold put. destruct (Bool.eqb c w); [|apply Hs]. specialize (Hs w). rewrite E in Hs. by apply sorted_mid in Hs as [? _].
    - intros c y Hy. change (exists r0, rqs s1 !! y = Some r0 /\ is_write r0 = c). rewrite (Hk c y Hy). by eapply Hst, put_sub.
    - intros c y Hy. by apply Hin, Hsub.
    - intros c y Hy. by eapply Hidle, put_sub.
    - intros c. destruct (Hn c) as [?|Hy]; [by left|right]. by apply Hin.
    - done. }
  destruct (dl_add_rb_run s2 L l (put w (k1 ++ k2) t) ext w x r' d)
    as (s' & L' & l' & t' & d' & Hrb & Hinv' & Hd' & Eq & Hc & Hr' & _ & _ & Hx' & Hkept & (Hp & _)%added_acc); try done.
  { cbn. by rewrite lookup_insert_eq. } { intros Hy%Honly. done. }
  { pose proof (st_view_valid _ _ (Hv w)) as Hva. rewrite Forall_forall in Hva. auto. } { auto. }
  { intros c y. unfold ext, put. destruct (Bool.eqb c w) eqn:Ec; [|set_solver +].
    apply Bool.eqb_prop in Ec as ->. by intros ->%list_elem_of_singleton. }
  exists s', L', l', t', d'. split_and!; try done.
  - unfold deadline_merged_request. rewrite Z.eqb_refl.
    erewrite bind_run. 2:{ apply get_rq_run. cbn. by rewrite lookup_insert_eq. }
    rewrite Hw. erewrite bind_run by (by apply dl_tree_run). exact Hrb.
  - split; [done|]. intros c y Hy. destruct (Hkept c y Hy) as [[->|Hyt] Hl].
    + apply Hl. destruct (di_stored _ _ _ _ _ Hinv' c x Hy) as (ry & Hry & <-). simplify_eq. auto.
    + apply Hl, Hfull. by eapply put_sub.
  - rewrite Hp. rewrite (pending_put w x (k1 ++ k2) t); [done|]. rewrite E. solve_Permutation.
Qed.

Lemma dl_merge_run s L l t w k1 rq k2 j1 next j2 r n d :
  dl_ok s L l t -> l w = k1 ++ rq :: k2 -> k1 ++ k2 = j1 ++ next :: j2 ->
  rqs s !! rq = Some r -> rqs s !! next = Some n -> L !! queue_head (queue s) = Some d ->
  exists s' L' l' t' cl, deadline_merged_requests rq next s = Some (tt, s') /\ dl_ok s' L' l' t' /\
    L' !! queue_head (queue s) = Some d /\ L' !! next = Some [] /\ pending t ≡ₚ next :: pending t' /\
    l' w = (if time_before (rq_fifo_time n) (rq_fifo_time r) then j1 ++ rq :: j2 else rem next (k1 ++ rq :: k2)) /\
    rqs s' !! rq = Some (set_csd_list cl r) /\
    lh_next cl = (if time_before (rq_fifo_time n) (rq_fifo_time r) then rq_fifo_time n else rq_fifo_time r) /\
    counters (elevator_data s') = counters (elevator_data s).
Proof.
  intros Hok E1 E2 Hr Hn Hd. pose proof (dl_lists _ _ _ _ w Hok) as (Heq & _). destruct Hok as [Hinv Hfull].
  pose proof Hinv as [Hf Hv Hs Hst Hsub Hidle Hnx H1].
  assert (NoDup (l w)) as Hnd.
  { pose proof (fifos_nodup _ _ _ _ _ _ Hf) as Hnd. apply NoDup_app in Hnd as (? & _ & ?). by destruct w. }
  assert (next ∈ l w /\ rq ∈ l w) as [Hnl Hrl].
  { rewrite E1. split; [|set_solver +]. assert (next ∈ k1 ++ k2) as Hin by (rewrite E2; set_solver +). set_solver +Hin. }
  assert (rq ∉ k1 ++ k2 /\ NoDup (k1 ++ k2)) as [Hrk Hnk].
  { rewrite E1, <-Permutation_middle in Hnd. by apply NoDup_cons in Hnd. }
  rewrite E2 in Hnk. apply NoDup_app in Hnk as (_ & Hj1 & Hj2). apply NoDup_cons in Hj2 as [Hj2 _].
  assert (next <> rq) as Hne by (intros ->; rewrite E2 in Hrk; set_solver +Hrk).
  set (v := if time_before (rq_fifo_time n) (rq_fifo_time r) then j1 ++ next :: rq :: j2 else k1 ++ rq :: k2).
  assert (v ≡ₚ l w) as Hvp.
  { unfold v. rewrite E1. destruct (time_before _ _); [|done].
    rewrite <-(Permutation_middle k1 k2 rq), E2. solve_Permutation. }
  destruct (fifos_merge s L _ _ (l false) (l true) w k1 rq k2 j1 next j2 r n Hf) as (s1 & L1 & cl & Hrun & Hf1 & Hq1 & Hk1 & Er & Ecl & Eq & Ed & Ej);
    [by rewrite <-E1; destruct w|done..|].
  fold v in Hf1. set (l1 := put w v l).
  assert (forall c y, y ∈ l1 c <-> y ∈ l c) as Hl1.
  { intros c y. unfold l1, put. destruct (Bool.eqb c w) eqn:Ec; [|done]. apply Bool.eqb_prop in Ec as ->. by rewrite Hvp. }
  assert (forall y, sector_of s1 y = sector_of s y) as Hsec.
  { intros y. unfold sector_of. rewrite Er. destruct (decide (y = rq)) as [->|];
      [by rewrite lookup_insert_eq, Hr|by rewrite lookup_insert_ne]. }
  assert (dl_inv s1 L1 l1 t none) as Hinv1.
  { split; rewrite ?Ed; try done.
    - unfold l1, put. by destruct w.
    - intros c. eapply sorted_ext; [|apply Hs]. auto.
    - intros c y Hy. destruct (Hst c y Hy) as (ry & Hry & Hc). rewrite Er. destruct (decide (y = rq)) as [->|].
      + rewrite lookup_insert_eq. simplify_eq. eauto.
      + rewrite lookup_insert_ne by done. eauto.
    - intros c y Hy%Hl1. auto.
    - intros c y Hy. rewrite Hl1. destruct (Hidle c y Hy); [by left|right]. destruct (Hst c y Hy) as (? & ? & _). rewrite Hk1; eauto. }
  destruct (list_elem_of_split _ _ (proj1 (Heq next) Hnl)) as (i1 & i2 & Et).
  assert (rqs s1 !! next = Some n) as Hn1 by (rewrite Er, lookup_insert_ne; done).
  destruct (dl_remove_run s1 L1 l1 t none w i1 next i2 n Hinv1 Et Hn1)
    as (s2 & L2 & tr & nn & Hrem & Hinv2 & Hx2 & Hq2 & Hk2 & Er2 & Eq2 & Ej2 & Ed2).
  exists s2, L2, (λ c, rem next (l1 c)), (put w (i1 ++ i2) t), cl. split_and!; try done.
  - unfold deadline_merged_requests. by erewrite bind_run by exact Hrun.
  - split; [done|]. intros c y Hy. rewrite elem_of_rem, Hl1. split; [by eapply (dl_only _ _ _ _ _ _ _ _ _ _ _ Hinv Et)|].
    by eapply Hfull, put_sub.
  - rewrite Eq in Hq2. by rewrite Hq2, Hq1.
  - apply pending_put. rewrite Et. solve_Permutation.
  - unfold l1. rewrite put_same. unfold v. destruct (time_before _ _); [|done]. apply rem_mid.
    + intros Hin. apply (Hj1 next Hin). set_solver +.
    + set_solver +Hj2 Hne.
  - rewrite Er2, Er, lookup_insert_ne, lookup_insert_eq; done.
  - by rewrite Ed2, Ed.
Qed.

(** ** Starvation of writes *)
Definition tick (n : Z) s : elv (deadline_data T) :=
  Elv (rqs s) (lists s) (queue s) (elevator_data s) (u32 (jiffies s + n)).

Definition write_waits s : Prop :=
  on_lists (list_empty (at_dir (fifo_list (elevator_data s)) true)) s = Some (false, s).

(** The request at the end of the dispatch queue is a read. *)
Definition took_read s : Prop :=
  exists x r, get_prev (queue_head (queue s)) (lists s) = Some (x, lists s) /\ rqs s !! x = Some r /\ is_write r = false.

(** What happens between two dispatches: time passes, requests are added and merged. *)
Inductive quiet s : elv (deadline_data T) -> Prop :=
  | quiet_tick n : quiet s (tick n s)
  | quiet_add L l t x r d s' : dl_ok s L l t -> rqs s !! x = Some r -> x ∉ pending t -> valid x ->
      L !! queue_head (queue s) = Some d -> L !! x = Some [] ->
      deadline_add_request x s = Some (tt, s') -> quiet s s'
  | quiet_front L l t w x r r' d s' : dl_ok s L l t -> x ∈ t w -> rqs s !! x = Some r ->
      L !! queue_head (queue s) = Some d -> rq_hash r' = rq_hash r -> rq_hash_key r' = rq_hash_key r ->
      is_write r' = is_write r ->
      deadline_merged_request x ELEVATOR_FRONT_MERGE (upd_rqs <[x := r']> s) = Some (tt, s') -> quiet s s'
  | quiet_merge L l t w k1 rq k2 j1 next j2 r n d s' : dl_ok s L l t -> l w = k1 ++ rq :: k2 ->
      k1 ++ k2 = j1 ++ next :: j2 -> rqs s !! rq = Some r -> rqs s !! next = Some n ->
      L !! queue_head (queue s) = Some d -> deadline_merged_requests rq next s = Some (tt, s') -> quiet s s'.

(** A run in which reads are dispatched [n] times while a write waits. *)
Inductive read_run : elv (deadline_data T) -> Z -> elv (deadline_data T) -> Prop :=
  | run_nil s : read_run s 0 s
  | run_quiet s s1 n s2 : quiet s s1 -> read_run s1 n s2 -> read_run s n s2
  | run_read force s s1 n s2 : write_waits s -> deadline_dispatch_requests force s = Some (1, s1) -> took_read s1 ->
      read_run s1 n s2 -> read_run s (1 + n) s2.

(** How many more reads can be dispatched while a write waits. *)
Definition patience dd : Z :=
  Z.max 0 (u32 (dd_writes_starved dd) - starved dd) * Z.max 1 (u32 (dd_fifo_batch dd)) +
  Z.max 0 (u32 (dd_fifo_batch dd) - batching dd).

Definition dl_bounds dd : Prop := 0 <= batching dd /\ 0 <= starved dd.

Lemma counters_same dd dd' : counters dd' = counters dd -> patience dd' = patience dd /\ (dl_bounds dd -> dl_bounds dd').
Proof. unfold counters, patience, dl_bounds. intros [= -> -> _ _ -> -> _]. done. Qed.

Lemma quiet_ok s s' L l t : dl_ok s L l t -> quiet s s' ->
  (exists L' l' t', dl_ok s' L' l' t') /\ counters (elevator_data s') = counters (elevator_data s).
Proof.
  intros Hok [n|L0 l0 t0 x r d s1 Hok0 Hr Hx Hv Hd HL Hrun|L0 l0 t0 w x r r' d s1 Hok0 Hx Hr Hd H1 H2 H3 Hrun|
    L0 l0 t0 w k1 rq k2 j1 next j2 r n d s1 Hok0 E1 E2 Hr Hn Hd Hrun].
  - split; [|done]. exists L, l, t. destruct Hok as [Hinv Hfull]. split; [|done].
    destruct Hinv as [[[Hl Hh] ? ? ? ? ? ? ? ? ?] ? ? ? ? ? ? ?]. split; try done. split; try done. split; [done|].
    apply (hash_ok_ext s); done.
  - destruct (dl_add_request_run s L0 l0 t0 x r d) as (s2 & L' & l' & t' & d' & Hrun' & Hok' & _ & _ & Hc & _); try done.
    rewrite Hrun in Hrun'. injection Hrun' as <-. split; [by exists L', l', t'|done].
  - destruct (dl_front_run s L0 l0 t0 w x r r' d) as (s2 & L' & l' & t' & d' & Hrun' & Hok' & _ & _ & _ & Hc & _); try done.
    rewrite Hrun in Hrun'. injection Hrun' as <-. split; [by exists L', l', t'|done].
  - destruct (dl_merge_run s L0 l0 t0 w k1 rq k2 j1 next j2 r n d)
      as (s2 & L' & l' & t' & cl & Hrun' & Hok' & _ & _ & _ & _ & _ & _ & Hc); try done.
    rewrite Hrun in Hrun'. injection Hrun' as <-. split; [by exists L', l', t'|done].
Qed.

Lemma rule_patience s l x b st : dl_bounds (elevator_data s) -> l true <> [] -> dl_rule s l false x b st ->
  let dd' := set_batching b (set_starved st (elevator_data s)) in
  dl_bounds dd' /\ patience dd' + 1 <= patience (elevator_data s).
Proof.
  unfold dl_bounds, patience. intros [Hb Hs] Hw Hrule. cbn.
  pose proof (u32_range (dd_fifo_batch (elevator_data s))). pose proof (u32_range (dd_writes_starved (elevator_data s))).
  destruct Hrule as [(Hc & _ & -> & ->)|(_ & Hd & _ & -> & ->)].
  - unfold continuing in Hc. apply andb_true_iff in Hc as [_ Hc%Z.ltb_lt].
    rewrite (u32_small (batching _ + 1)) by lia. lia.
  - unfold new_dir in Hd. rewrite (bool_decide_false (l true = [])) in Hd |- * by done. cbn [negb andb] in Hd.
    assert (starved (elevator_data s) < u32 (dd_writes_starved (elevator_data s))) as Hlt.
    { destruct (negb _) in Hd; [|done]. injection Hd as Hd. lia. }
    rewrite (u32_small (starved _ + 1)) by lia. nia.
Qed.

Lemma read_run_patience s n s' L l t : read_run s n s' -> dl_ok s L l t -> dl_bounds (elevator_data s) ->
  n <= patience (elevator_data s).
Proof.
  intros Hrun. revert L l t. induction Hrun as [s|s s1 n s2 Hq _ IH|force s s1 n s2 Hww Hrun Hread _ IH]; intros L l t Hok Hb.
  - unfold patience. apply Z.add_nonneg_nonneg; [apply Z.mul_nonneg_nonneg|]; lia.
  - destruct (quiet_ok _ _ _ _ _ Hok Hq) as [(L' & l' & t' & Hok') [Hp Hb']%counters_same].
    rewrite <-Hp. by eapply IH; auto.
  - pose proof (dl_lists _ _ _ _ true Hok) as (_ & Hemp & HL & _).
    pose proof Hok as [[[[Hl _] _ _ [d Hd] _ _ _ _ _ _] _ _ _ _ _ _ _] _].
    unfold write_waits in Hww. erewrite (on_lists_read _ _ _ (heap_list_empty _ _ _ _ Hl HL)) in Hww.
    injection Hww as Hww%bool_decide_eq_false.
    destruct (dl_dispatch_run s L l t d force Hok) as (s' & L' & w & k1 & x & k2 & b & st & Hrun' & E & Hok' & Hd' & Hsent & Hrule & Hc & (r & Hr & Hw)).
    { unfold pending. intros [_ ?]%app_nil. tauto. } { done. }
    rewrite Hrun in Hrun'. injection Hrun' as <-. destruct Hsent as [_ _ _ S4 _ _]. destruct Hread as (x' & r' & Hprev & Hr' & Hread).
    pose proof Hok' as [[[[Hl' _] _ _ _ _ _ _ _ _ _] _ _ _ _ _ _ _] _].
    rewrite S4, (heap_get_prev_head _ _ _ _ Hl' Hd'), lastd_snoc in Hprev.
    injection Hprev as <-. rewrite Hr in Hr'. injection Hr' as <-. rewrite Hread in Hw. subst w.
    destruct (rule_patience s l _ b st Hb Hww Hrule) as [Hb' Hp].
    apply counters_same in Hc as [Hp' Hb'']. specialize (IH _ _ _ Hok' (Hb'' Hb')). lia.
Qed.
End deadline.

Section claims.
Context {T : Type} `{!SectorTree T}.
Implicit Types (s : elv (deadline_data T)) (L : heads) (l t : bool -> list Z).

(** [deadline_dispatch_requests] on a scheduler with pending requests passes its
    assertions and moves one request from its tree and fifo to the end of the
    dispatch queue.  It goes on with the running batch while [batching] is below
    [fifo_batch]; a new batch serves reads unless only writes wait or they have
    been passed over [writes_starved] times, and starts at the head of the fifo
    if that has expired or the direction has no next request. *)
Theorem deadline_dispatch_requests_correct s L l t d force :
  dl_ok s L l t -> pending t <> [] -> L !! queue_head (queue s) = Some d ->
  exists s' L' w k1 x k2, deadline_dispatch_requests force s = Some (1, s') /\ t w = k1 ++ x :: k2 /\
    dl_ok s' L' (λ c, rem x (l c)) (put w (k1 ++ k2) t) /\ L' !! queue_head (queue s') = Some (d ++ [x]) /\
    dl_rule s l w x (batching (elevator_data s')) (starved (elevator_data s')).
Proof.
  intros Hok Hne Hd. destruct (dl_dispatch_run s L l t d force Hok Hne Hd)
    as (s' & L' & w & k1 & x & k2 & b & st & Hrun & E & Hok' & Hd' & [_ _ _ S4 _ _] & Hrule & Hc & _).
  injection Hc as Eb Est _ _ _ _ _. exists s', L', w, k1, x, k2. rewrite S4, Eb, Est. done.
Qed.

(** C13: reads cannot starve writes.  From any state of the scheduler, however
    time passes and requests are added and merged in between, calls of
    [deadline_dispatch_requests] choose a read at most
    [writes_starved * max(1, fifo_batch) + fifo_batch] times in a row while a
    write waits (both settings read as unsigned numbers).  Requests that do not go
    through [deadline_dispatch_requests], because [deadline_add_rq_rb] finds another
    request at their sector and dispatches that one, are not counted. *)
Theorem deadline_no_write_starvation s n s' L l t :
  dl_ok s L l t -> dl_bounds (elevator_data s) -> read_run s n s' ->
  let dd := elevator_data s in
  n <= u32 (dd_writes_starved dd) * Z.max 1 (u32 (dd_fifo_batch dd)) + u32 (dd_fifo_batch dd).
Proof.
  intros Hok Hb Hrun dd. pose proof (read_run_patience s n s' L l t Hrun Hok Hb) as Hn. fold dd in Hn, Hb.
  unfold patience in Hn. destruct Hb as [Hb1 Hb2].
  pose proof (u32_range (dd_writes_starved dd)). pose proof (u32_range (dd_fifo_batch dd)).
  assert (Z.max 0 (u32 (dd_writes_starved dd) - starved dd) * Z.max 1 (u32 (dd_fifo_batch dd))
    <= u32 (dd_writes_starved dd) * Z.max 1 (u32 (dd_fifo_batch dd))) by (apply Z.mul_le_mono_nonneg_r; lia).
  lia.
Qed.

(** [deadline_merged_requests] of two requests of one fifo keeps the invariant
    and takes [next] out of the scheduler.  The merged request gets the earlier
    of the two deadlines, and the position of [next] in the fifo if that was
    [next]'s. *)
Theorem deadline_merged_requests_correct s L l t w k1 rq k2 j1 next j2 r n d :
  dl_ok s L l t -> l w = k1 ++ rq :: k2 -> k1 ++ k2 = j1 ++ next :: j2 ->
  rqs s !! rq = Some r -> rqs s !! next = Some n -> L !! queue_head (queue s) = Some d ->
  let first := time_before (rq_fifo_time n) (rq_fifo_time r) in
  exists s' L' l' t' r', deadline_merged_requests rq next s = Some (tt, s') /\ dl_ok s' L' l' t' /\
    pending t ≡ₚ next :: pending t' /\ L' !! next = Some [] /\
    l' w = (if first then j1 ++ rq :: j2 else rem next (k1 ++ rq :: k2)) /\
    rqs s' !! rq = Some r' /\ rq_fifo_time r' = if first then rq_fifo_time n else rq_fifo_time r.
Proof.
  intros Hok E1 E2 Hr Hn Hd first. destruct (dl_merge_run s L l t w k1 rq k2 j1 next j2 r n d Hok E1 E2 Hr Hn Hd)
    as (s' & L' & l' & t' & cl & Hrun & Hok' & _ & HL & Hp & El & Hr' & Ht & _).
  by exists s', L', l', t', (set_csd_list cl r).
Qed.
End claims.

(** ** A concrete state *)
(** Two reads at the sectors 10 and 20 and a write at sector 5. *)
Definition demo_heads : heads := {[ 100 := [8; 4]; 200 := [12]; 300 := []; 16 := [] ]}.
Definition demo_tree_rd : rb_state := RbState {[ 4 := RbNode 1 8 0; 8 := RbNode 4 0 0 ]} 4.
Definition demo_tree_wr : rb_state := RbState {[ 12 := RbNode 1 0 0 ]} 12.
Definition demo_dl : elv (deadline_data rb_state) :=
  Elv {[ 4 := demo_rq 10 0 900; 8 := demo_rq 20 0 500; 12 := demo_rq 5 1 600; 16 := demo_rq 24 0 0 ]}
    (demo_lists [(100, [8; 4]); (200, [12]); (300, []); (16, [])]) (demo_queue 300 3)
    (DeadlineData (Dirs demo_tree_rd demo_tree_wr) (Dirs 100 200) (Dirs 0 0) 0 0 0 (Dirs 500 5000) 1 1 1) 1000.
Definition demo_l : bool -> list Z := λ w, if w then [12] else [8; 4].
Definition demo_t : bool -> list Z := λ w, if w then [12] else [4; 8].

Lemma demo_dl_ok : dl_ok demo_dl demo_heads demo_l demo_t.
Proof.
  split; [split|].
  - split; try reflexivity; try discriminate; [|vm_compute; eauto].
    split; [apply lrep_check_ok; vm_compute; reflexivity|].
    apply hash_ok_empty; [reflexivity|]. apply (bool_decide_unpack _). vm_compute. exact I.
  - intros []; [exists (N Black L 12 L)|exists (N Black L 4 (N Red L 8 L))];
      (split_and!; [|exists 1%nat; repeat econstructor|done]);
      (split; [cbn; split_and!; reflexivity|reflexivity| |repeat constructor; lia]);
      apply (bool_decide_unpack _); vm_compute; exact I.
  - intros []; repeat constructor.
  - intros [] x; cbn [demo_t]; rewrite !elem_of_cons, elem_of_nil;
      [intros [->|[]]|intros [->|[->|[]]]]; eexists; (split; [reflexivity|reflexivity]).
  - intros [] x; set_solver.
  - intros [] x; set_solver.
  - intros []; by left.
  - by left.
  - intros [] x; set_solver.
Qed.

Lemma deadline_dispatch_requests_witness :
  exists s' L' w k1 x k2, deadline_dispatch_requests 0 demo_dl = Some (1, s') /\ demo_t w = k1 ++ x :: k2 /\
    dl_ok s' L' (λ c, rem x (demo_l c)) (put w (k1 ++ k2) demo_t) /\ L' !! queue_head (queue s') = Some [x] /\
    dl_rule demo_dl demo_l w x (batching (elevator_data s')) (starved (elevator_data s')).
Proof.
  apply (deadline_dispatch_requests_correct demo_dl demo_heads demo_l demo_t [] 0);
    [exact demo_dl_ok|discriminate|reflexivity].
Defined.

Definition demo_next : elv (deadline_data rb_state) :=
  match deadline_dispatch_requests 0 demo_dl with Some (_, s) => s | None => demo_dl end.

Lemma deadline_no_write_starvation_witness : read_run demo_dl 1 demo_next /\
  1 <= u32 (dd_writes_starved (elevator_data demo_dl)) * Z.max 1 (u32 (dd_fifo_batch (elevator_data demo_dl))) + u32 (dd_fifo_batch (elevator_data demo_dl)).
Proof.
  assert (read_run demo_dl 1 demo_next) as Hrun.
  { apply (run_read 0 demo_dl demo_next 0 demo_next); [vm_compute; reflexivity..| |apply run_nil].
    exists 8. eexists. split_and!; [vm_compute; reflexivity|vm_compute; reflexivity|reflexivity]. }
  split; [exact Hrun|]. apply (deadline_no_write_starvation demo_dl 1 demo_next demo_heads demo_l demo_t demo_dl_ok); [split; vm_compute; discriminate|exact Hrun].
Defined.

Lemma deadline_merged_requests_witness :
  exists s' L' l' t' r', deadline_merged_requests 4 8 demo_dl = Some (tt, s') /\ dl_ok s' L' l' t' /\
    pending demo_t ≡ₚ 8 :: pending t' /\ L' !! 8 = Some [] /\ l' false = [4] /\
    rqs s' !! 4 = Some r' /\ rq_fifo_time r' = 500.
Proof.
  apply (deadline_merged_requests_correct demo_dl demo_heads demo_l demo_t false [8] 4 [] [] 8 []
    (demo_rq 10 0 900) (demo_rq 20 0 500) []); [exact demo_dl_ok|reflexivity..].
Defined.
End Deadline.
