(* ===== verification/Logger.v ===== *)
(** * The Android logger

    drivers/staging/android/logger.c: a log is a ring buffer of variable-length
    entries with one write head and any number of readers, each with an offset
    of its own.  A write first pulls every reader that it would overtake forward
    to a later entry.  The state of one log is the record [logger_log]; the
    sections under [log->mutex] are the operations, so that interleavings of
    readers and writers are sequences of them. *)
From stdpp Require Import prelude list sorting.
From Stdlib Require Import ZArith Lia ZifyBool.
From S2P Require Import Prelude.
Open Scope Z_scope.

Module Logger.

(** ** Data *)
Record logger_reader := Reader { rd_addr : Z; r_off : Z }.

Record logger_log := Log {
  buffer : list Z;                 (* unsigned char[size] *)
  readers : list logger_reader;
  w_off : Z;                       (* size_t *)
  head : Z;                        (* size_t *)
  size : Z;                        (* size_t *)
  klog : list (list Z);            (* what was passed to printk *)
}.
Notation LG := (M logger_log).

Definition set_buffer b s := Log b (readers s) (w_off s) (head s) (size s) (klog s).
Definition set_readers r s := Log (buffer s) r (w_off s) (head s) (size s) (klog s).
Definition set_w_off v s := Log (buffer s) (readers s) v (head s) (size s) (klog s).
Definition set_head v s := Log (buffer s) (readers s) (w_off s) v (size s) (klog s).
Definition add_klog t s := Log (buffer s) (readers s) (w_off s) (head s) (size s) (klog s ++ [t]).

(** [struct logger_entry]: twenty bytes, little endian; [msg] follows. *)
Record logger_entry := Entry { len : Z; __pad : Z; pid : Z; tid : Z; sec : Z; nsec : Z }.
Definition sizeof_entry : Z := 20.
Definition le16 (v : Z) : list Z := [v mod 2 ^ 8; v / 2 ^ 8 mod 2 ^ 8].
Definition le32 (v : Z) : list Z := le16 v ++ le16 (v / 2 ^ 16).
Definition entry_bytes (h : logger_entry) : list Z :=
  le16 (len h) ++ le16 (__pad h) ++ le32 (pid h) ++ le32 (tid h) ++ le32 (sec h) ++ le32 (nsec h).

Definition LOGGER_ENTRY_MAX_LEN : Z := 4 * 1024.
Definition LOGGER_ENTRY_MAX_PAYLOAD : Z := LOGGER_ENTRY_MAX_LEN - sizeof_entry.

Definition logger_offset (log : logger_log) (n : Z) : Z := Z.land n (u32 (size log - 1)).

(** [memcpy] from and to the ring buffer: an access outside of it is an oops. *)
Definition in_buffer (log : logger_log) (off n : Z) : bool :=
  (0 <=? off) && (0 <=? n) && (off + n <=? Z.of_nat (length (buffer log))).
Definition buf_read (off n : Z) : LG (list Z) :=
  λ log, if in_buffer log off n then Some (take (Z.to_nat n) (drop (Z.to_nat off) (buffer log)), log) else None.
Definition buf_write (off : Z) (bs : list Z) : LG unit :=
  λ log, if in_buffer log off (Z.of_nat (length bs))
         then Some (tt, set_buffer (list_inserts (Z.to_nat off) bs (buffer log)) log) else None.

Definition get_reader (rd : Z) : LG logger_reader :=
  λ log, match filter (λ r, rd_addr r = rd) (readers log) with r :: _ => Some (r, log) | [] => None end.
Definition set_r_off (rd v : Z) : LG unit :=
  modify (λ log, set_readers ((λ r, if rd_addr r =? rd then Reader rd v else r) <$> readers log) log).

(** ** Entries *)
Definition get_entry_len (off : Z) : LG Z :=
  log ← get;
  bs ← (if u32 (size log - off) =? 1
        then b0 ← buf_read off 1; b1 ← buf_read 0 1; mret (b0 ++ b1)
        else buf_read off 2);
  match bs with
  | [b0; b1] => mret (u32 (sizeof_entry + (b0 + 2 ^ 8 * b1)))
  | _ => oops
  end.

(** The loop of [get_next_entry]; every round adds at least [sizeof_entry] to [count]. *)
Fixpoint next_entry_loop (fuel : nat) (off len count : Z) : LG Z :=
  match fuel with
  | O => oops
  | S fuel =>
      nr ← get_entry_len off;
      log ← get;
      let off := logger_offset log (u32 (off + nr)) in
      let count := u32 (count + nr) in
      if count <? len then next_entry_loop fuel off len count else mret off
  end.
Definition get_next_entry (off len : Z) : LG Z := next_entry_loop (S (Z.to_nat len)) off len 0.

Definition clock_interval (a b c : Z) : bool :=
  if b <? a then (a <? c) || (b >=? c) else (a <? c) && (b >=? c).

Fixpoint fix_up_list (old new len : Z) (rs : list logger_reader) : LG (list logger_reader) :=
  match rs with
  | [] => mret []
  | r :: rs =>
      off ← (if clock_interval old new (r_off r) then get_next_entry (r_off r) len else mret (r_off r));
      rs' ← fix_up_list old new len rs;
      mret (Reader (rd_addr r) off :: rs')
  end.
Definition fix_up_readers (len : Z) : LG unit :=
  log ← get;
  let old := w_off log in
  let new := logger_offset log (u32 (old + len)) in
  (if clock_interval old new (head log)
   then h ← get_next_entry (head log) len; modify (set_head h) else mret tt) ;;
  rs ← fix_up_list old new len (readers log);
  modify (set_readers rs).

(** ** Writing *)
Definition do_write_log (buf : list Z) : LG unit :=
  log ← get;
  let count := Z.of_nat (length buf) in
  let len := Z.min count (u32 (size log - w_off log)) in
  buf_write (w_off log) (take (Z.to_nat len) buf) ;;
  (if count =? len then mret tt else buf_write 0 (drop (Z.to_nat len) buf)) ;;
  modify (set_w_off (logger_offset log (u32 (w_off log + count)))).

(** A user-space segment of [iov_len] bytes of which [iov_data] can be read. *)
Record iovec := Iov { iov_len : Z; iov_data : list Z }.

(** [copy_from_user] of [n] bytes at [pos] of the segment to the offset [off]:
    whether it faulted; what could not be read is cleared. *)
Definition copy_from_user (off : Z) (seg : iovec) (pos n : Z) : LG bool :=
  let bs := take (Z.to_nat n) (drop (Z.to_nat pos) (iov_data seg)) in
  buf_write off (bs ++ replicate (Z.to_nat n - length bs) 0) ;;
  mret (Z.of_nat (length bs) <? n).

Fixpoint copy_tmp (i : Z) (n : nat) : LG (list Z) :=
  match n with
  | O => mret []
  | S n =>
      log ← get;
      b ← buf_read (logger_offset log (u32 (w_off log + i))) 1;
      bs ← copy_tmp (i + 1) n;
      mret (b ++ bs)
  end.

(** Messages that start with "!@" also go to the kernel log. *)
Definition echo_to_klog (count : Z) : LG unit :=
  if count >=? 2 then
    log ← get;
    b0 ← buf_read (w_off log) 1;
    if bool_decide (b0 = [33]) then
      b1 ← buf_read (logger_offset log (u32 (w_off log + 1))) 1;
      if bool_decide (b1 = [64]) then
        tmp ← copy_tmp 0 (Z.to_nat (Z.min count (256 - 1)));
        modify (add_klog tmp)
      else mret tt
    else mret tt
  else mret tt.

Definition do_write_log_from_user (seg : iovec) (count : Z) : LG Z :=
  log ← get;
  let len := Z.min count (u32 (size log - w_off log)) in
  fault ← (if len =? 0 then mret false else copy_from_user (w_off log) seg 0 len);
  if (fault : bool) then mret (- EFAULT) else
  fault ← (if count =? len then mret false else copy_from_user 0 seg len (count - len));
  if (fault : bool) then mret (- EFAULT) else
  echo_to_klog count ;;
  modify (set_w_off (logger_offset log (u32 (w_off log + count)))) ;;
  mret count.

(** The loop over the segments: [ret] bytes of the payload are written. *)
Fixpoint write_segs (orig hlen : Z) (iov : list iovec) (ret : Z) : LG Z :=
  match iov with
  | [] => mret ret
  | seg :: iov =>
      let len := Z.min (iov_len seg) (u32 (hlen - ret)) in
      nr ← do_write_log_from_user seg len;
      if nr <? 0 then modify (set_w_off orig) ;; mret nr
      else write_segs orig hlen iov (ret + nr)
  end.

(** [logger_aio_write] from the point where it holds the mutex; [orig] is the
    write offset it had read before it took the mutex, [ki_left] the number of
    bytes that the caller asked to write. *)
Definition logger_aio_write (orig : Z) (h : logger_entry) (iov : list iovec) (ki_left : Z) : LG Z :=
  let hlen := u16 (Z.min ki_left LOGGER_ENTRY_MAX_PAYLOAD) in
  let h := Entry hlen (__pad h) (pid h) (tid h) (sec h) (nsec h) in
  if hlen =? 0 then mret 0 else
  fix_up_readers (u32 (sizeof_entry + hlen)) ;;
  do_write_log (entry_bytes h) ;;
  write_segs orig hlen iov 0.

(** ** Reading *)
(** [copy_to_user] of bytes at [pos] of a user buffer of which [room] bytes can be written. *)
Definition copy_to_user (room pos : Z) (bs : list Z) : bool := room <? pos + Z.of_nat (length bs).

Definition do_read_log_to_user (rd : Z) (count room : Z) : LG (Z * list Z) :=
  log ← get;
  r ← get_reader rd;
  let len := Z.min count (u32 (size log - r_off r)) in
  b0 ← buf_read (r_off r) len;
  if copy_to_user room 0 b0 then mret (- EFAULT, []) else
  b1 ← (if count =? len then mret [] else buf_read 0 (count - len));
  if negb (count =? len) && copy_to_user room len b1 then mret (- EFAULT, []) else
  set_r_off rd (logger_offset log (u32 (r_off r + count))) ;;
  mret (count, b0 ++ b1).

(** The outcome of a pass through [logger_read]: it goes to sleep, finds on its
    second look that the data is gone and starts again, or returns. *)
Inductive read_result := Sleep | Restart | Returns (ret : Z) (data : list Z).

(** The waiting loop, up to [finish_wait]; [None] is "go on". *)
Definition logger_read_wait (rd : Z) (nonblock signal_pending : bool) : LG (option read_result) :=
  log ← get;
  r ← get_reader rd;
  if negb (w_off log =? r_off r) then mret None
  else if nonblock then mret (Some (Returns (- EAGAIN) []))
  else if signal_pending then mret (Some (Returns (- EINTR) []))
  else mret (Some Sleep).

(** The second critical section. *)
Definition logger_read_entry (rd count room : Z) : LG read_result :=
  log ← get;
  r ← get_reader rd;
  if w_off log =? r_off r then mret Restart else
  ret ← get_entry_len (r_off r);
  if count <? ret then mret (Returns (- EINVAL) []) else
  out ← do_read_log_to_user rd ret room;
  mret (Returns out.1 out.2).

Definition logger_read (rd count room : Z) (nonblock signal_pending : bool) : LG read_result :=
  w ← logger_read_wait rd nonblock signal_pending;
  match w with Some res => mret res | None => logger_read_entry rd count room end.

(** ** Opening, closing and control *)
Record file := File { f_read : bool; f_write : bool; private_data : Z }.

Definition get_log_from_minor (log_main log_events log_radio log_system minor : Z) : option nat :=
  if log_main =? minor then Some 0%nat
  else if log_events =? minor then Some 1%nat
  else if log_radio =? minor then Some 2%nat
  else if log_system =? minor then Some 3%nat
  else None.

(** [alloc] is the address of the new reader, if there is memory for it. *)
Definition logger_open (found : bool) (alloc : option Z) (f : file) : LG (Z * file) :=
  if negb found then mret (- ENODEV, f)
  else if f_read f then
    match alloc with
    | None => mret (- ENOMEM, f)
    | Some rd =>
        modify (λ log, set_readers (readers log ++ [Reader rd (head log)]) log) ;;
        mret (0, File (f_read f) (f_write f) rd)
    end
  else mret (0, f).

Definition logger_release (f : file) : LG Z :=
  (if f_read f then
     get_reader (private_data f) ;;
     modify (λ log, set_readers (filter (λ r, rd_addr r <> private_data f) (readers log)) log)
   else mret tt) ;;
  mret 0.

Definition POLL_OUT : Z := Z.lor 4 256.
Definition POLL_IN : Z := Z.lor 1 64.
Definition logger_poll (f : file) : LG Z :=
  if negb (f_read f) then mret POLL_OUT else
  log ← get;
  r ← get_reader (private_data f);
  mret (if w_off log =? r_off r then POLL_OUT else Z.lor POLL_OUT POLL_IN).

Inductive logger_cmd :=
  LOGGER_GET_LOG_BUF_SIZE | LOGGER_GET_LOG_LEN | LOGGER_GET_NEXT_ENTRY_LEN | LOGGER_FLUSH_LOG | LOGGER_OTHER.

Definition logger_ioctl (f : file) (cmd : logger_cmd) : LG Z :=
  log ← get;
  match cmd with
  | LOGGER_GET_LOG_BUF_SIZE => mret (size log)
  | LOGGER_GET_LOG_LEN =>
      if negb (f_read f) then mret (- EBADF) else
      r ← get_reader (private_data f);
      mret (if w_off log >=? r_off r then w_off log - r_off r else u32 (u32 (size log - r_off r) + w_off log))
  | LOGGER_GET_NEXT_ENTRY_LEN =>
      if negb (f_read f) then mret (- EBADF) else
      r ← get_reader (private_data f);
      if negb (w_off log =? r_off r) then get_entry_len (r_off r) else mret 0
  | LOGGER_FLUSH_LOG =>
      if negb (f_write f) then mret (- EBADF) else
      modify (λ log, set_head (w_off log) (set_readers ((λ r, Reader (rd_addr r) (w_off log)) <$> readers log) log)) ;;
      mret 0
  | LOGGER_OTHER => mret (- ENOTTY)
  end.

(** [DEFINE_LOGGER_DEVICE]. *)
Definition DEFINE_LOGGER_DEVICE (SIZE : Z) : logger_log := Log (replicate (Z.to_nat SIZE) 0) [] 0 0 SIZE [].

(** ** The ring *)
(** The size is a power of two that holds two entries, as the comment on
    [DEFINE_LOGGER_DEVICE] asks for. *)
Record geom (log : logger_log) : Prop := {
  g_pow : exists k, 0 <= k /\ size log = 2 ^ k;
  g_two : 2 * LOGGER_ENTRY_MAX_LEN <= size log;
  g_max : size log + LOGGER_ENTRY_MAX_LEN < 2 ^ 31;
  g_len : Z.of_nat (length (buffer log)) = size log;
}.

(** The byte at the offset [k], taken modulo the size, and [n] bytes from [off] on. *)
Definition at_ (log : logger_log) (k : Z) : Z := buffer log !!! Z.to_nat (k mod size log).
Definition slice (log : logger_log) (off : Z) (n : nat) : list Z :=
  (λ i, at_ log (off + Z.of_nat i)) <$> seq 0 n.

Implicit Types (log : logger_log) (e bs xs : list Z) (l : list (list Z)).

Lemma geom_pos log : geom log -> 0 < size log < 2 ^ 31.
Proof. intros [_ ? ? _]. unfold LOGGER_ENTRY_MAX_LEN in *. lia. Qed.

Lemma offset_mod log n : geom log -> 0 <= n -> logger_offset log n = n mod size log.
Proof.
  intros Hg Hn. pose proof (geom_pos log Hg). destruct Hg as [(k & Hk & E) _ _ _].
  unfold logger_offset. rewrite u32_small by lia. rewrite E, Z.sub_1_r, <-Z.ones_equiv. by apply Z.land_ones.
Qed.

Lemma slice_length log off n : length (slice log off n) = n.
Proof. unfold slice. by rewrite length_fmap, length_seq. Qed.
Lemma slice_lookup log off n i : (i < n)%nat -> slice log off n !! i = Some (at_ log (off + Z.of_nat i)).
Proof. intros Hi. unfold slice. rewrite list_lookup_fmap, lookup_seq_lt by done. done. Qed.

(** Two byte lists of the same length are equal when they agree at each index. *)
Lemma bytes_eq (xs ys : list Z) : length xs = length ys ->
  (forall i, (i < length xs)%nat -> xs !! i = ys !! i) -> xs = ys.
Proof.
  intros El H. apply list_eq. intros i. destruct (decide (i < length xs)%nat) as [Hi|Hi]; [auto|].
  rewrite !lookup_ge_None_2; [done|lia..].
Qed.

Lemma slice_app log off n m : slice log off (n + m) = slice log off n ++ slice log (off + Z.of_nat n) m.
Proof.
  apply bytes_eq; [by rewrite length_app, !slice_length|]. rewrite slice_length. intros i Hi.
  rewrite slice_lookup by done. destruct (decide (i < n)%nat).
  - rewrite lookup_app_l by (by rewrite slice_length). by rewrite slice_lookup.
  - rewrite lookup_app_r by (rewrite slice_length; lia). rewrite slice_length, slice_lookup by lia.
    do 2 f_equal. lia.
Qed.

Lemma at_mod log k : at_ log (k mod size log) = at_ log k.
Proof. unfold at_. by rewrite Zmod_mod. Qed.
Lemma at_shift log k k' : (k - k') mod size log = 0 -> size log <> 0 -> at_ log k = at_ log k'.
Proof.
  intros E Hs. unfold at_. do 2 f_equal. apply Z.mod_divide in E as [q E]; [|done].
  replace k with (k' + q * size log) by lia. apply Z_mod_plus_full.
Qed.
Lemma slice_mod log off n : slice log (off mod size log) n = slice log off n.
Proof.
  unfold slice. apply list_fmap_ext. intros _ i _. unfold at_. by rewrite Zplus_mod_idemp_l.
Qed.

Lemma buf_read_run log off n : geom log -> 0 <= off -> 0 <= n -> off + n <= size log ->
  buf_read off n log = Some (slice log off (Z.to_nat n), log).
Proof.
  intros Hg Ho Hn Hle. pose proof (g_len _ Hg) as El. unfold buf_read, in_buffer.
  rewrite El. replace ((0 <=? off) && (0 <=? n) && (off + n <=? size log)) with true by lia. do 2 f_equal.
  apply bytes_eq; [rewrite slice_length, length_take, length_drop; lia|].
  rewrite length_take, length_drop. intros i Hi. rewrite slice_lookup, lookup_take_lt, lookup_drop by lia.
  unfold at_. rewrite Z.mod_small by lia. rewrite list_lookup_lookup_total_lt by lia. do 2 f_equal. lia.
Qed.

(** A read that wraps around. *)
Lemma ring_split log off n len : geom log -> 0 <= off < size log -> len = Z.min (Z.of_nat n) (size log - off) ->
  slice log off n = slice log off (Z.to_nat len) ++ slice log 0 (n - Z.to_nat len).
Proof.
  intros Hg Ho ->. replace n with (Z.to_nat (Z.min (Z.of_nat n) (size log - off)) +
    (n - Z.to_nat (Z.min (Z.of_nat n) (size log - off))))%nat at 1 by lia.
  rewrite slice_app. f_equal. destruct (decide (Z.of_nat n <= size log - off)).
  - replace (n - _)%nat with 0%nat by lia. done.
  - rewrite <-slice_mod, Z2Nat.id, Z.min_r by lia. replace (off + (size log - off)) with (1 * size log) by lia.
    by rewrite Z_mod_mult.
Qed.
(** ** Entries in the ring *)
Definition entry_ok e : Prop :=
  exists b0 b1 rest, e = b0 :: b1 :: rest /\ 0 <= b0 < 2 ^ 8 /\ 0 <= b1 < 2 ^ 8 /\
    Z.of_nat (length e) = sizeof_entry + (b0 + 2 ^ 8 * b1) /\ Z.of_nat (length e) <= LOGGER_ENTRY_MAX_LEN.

Definition blen l : Z := Z.of_nat (length (concat l)).

(** The bytes from [off] to the write head are [bs]. *)
Record holds log (off : Z) bs : Prop := {
  h_off : 0 <= off < size log;
  h_slice : slice log off (length bs) = bs;
  h_end : (off + Z.of_nat (length bs)) mod size log = w_off log;
  h_room : Z.of_nat (length bs) < size log;
}.
(** The entries from [off] to the write head are [l]. *)
Definition reads log (off : Z) l : Prop := holds log off (concat l) /\ Forall entry_ok l.

Lemma entry_len e : entry_ok e -> sizeof_entry <= Z.of_nat (length e) <= LOGGER_ENTRY_MAX_LEN.
Proof. intros (b0 & b1 & rest & -> & ? & ? & E & ?). split; [|done]. rewrite E. lia. Qed.

Lemma blen_cons e l : blen (e :: l) = Z.of_nat (length e) + blen l.
Proof. unfold blen. cbn. rewrite length_app. lia. Qed.
Lemma blen_nonneg l : 0 <= blen l.
Proof. unfold blen. lia. Qed.

Lemma holds_w log off bs : geom log -> holds log off bs -> 0 <= w_off log < size log.
Proof. intros Hg [_ _ <- _]. apply Z.mod_pos_bound. by apply geom_pos. Qed.

(** The distance from the write head forward to [off]. *)
Lemma holds_dist log off bs : geom log -> holds log off bs ->
  (off - w_off log) mod size log = if (length bs =? 0)%nat then 0 else size log - Z.of_nat (length bs).
Proof.
  intros Hg [Ho _ <- Hr]. pose proof (geom_pos log Hg). rewrite Zminus_mod_idemp_r.
  replace (off - (off + Z.of_nat (length bs))) with (- Z.of_nat (length bs)) by lia.
  destruct (Nat.eqb_spec (length bs) 0) as [->|Hne]; [by apply Zmod_0_l|].
  symmetry. apply (Z.mod_unique_pos _ _ (-1)); lia.
Qed.

Lemma holds_empty log off bs : geom log -> holds log off bs -> (w_off log =? off) = (length bs =? 0)%nat.
Proof.
  intros Hg Hh. pose proof (holds_dist _ _ _ Hg Hh) as Hd. pose proof (holds_w _ _ _ Hg Hh) as Hw.
  pose proof (geom_pos log Hg). destruct Hh as [Ho _ _ Hr].
  destruct (Nat.eqb_spec (length bs) 0) as [E|Hne]; apply Z.eqb_eq || apply Z.eqb_neq.
  - apply Z.mod_divide in Hd as [q Hq]; [|lia]. assert (q = 0) by nia. lia.
  - intros E. rewrite E, Z.sub_diag, Zmod_0_l in Hd. lia.
Qed.

Lemma holds_advance log off xs ys : geom log -> holds log off (xs ++ ys) ->
  holds log ((off + Z.of_nat (length xs)) mod size log) ys.
Proof.
  intros Hg [Ho Hs He Hr]. pose proof (geom_pos log Hg). rewrite length_app in *. split.
  - apply Z.mod_pos_bound; lia.
  - rewrite slice_mod. rewrite slice_app in Hs. apply app_inj_1 in Hs as [_ Hs]; [done|by rewrite slice_length].
  - rewrite Zplus_mod_idemp_l, <-He. f_equal. lia.
  - lia.
Qed.
Lemma holds_prefix log off xs ys : holds log off (xs ++ ys) -> slice log off (length xs) = xs.
Proof.
  intros [_ Hs _ _]. rewrite length_app, slice_app in Hs. apply app_inj_1 in Hs as [Hs _]; [done|by rewrite slice_length].
Qed.

Lemma reads_tail log off e l : geom log -> reads log off (e :: l) ->
  reads log ((off + Z.of_nat (length e)) mod size log) l.
Proof. intros Hg [Hh Hok]. apply Forall_cons in Hok as [_ Hok]. split; [|done]. by eapply holds_advance. Qed.

Lemma get_entry_len_run log off e l : geom log -> reads log off (e :: l) ->
  get_entry_len off log = Some (Z.of_nat (length e), log).
Proof.
  intros Hg [Hh Hok]. pose proof (geom_pos log Hg). apply Forall_cons in Hok as [He _].
  pose proof (h_off _ _ _ Hh) as Ho. pose proof (entry_len e He) as Hlen.
  destruct He as (b0 & b1 & rest & -> & Hb0 & Hb1 & El & Hmax).
  assert (slice log off 2 = [b0; b1]) as Hs by exact (holds_prefix log off [b0; b1] (rest ++ concat l) Hh).
  unfold get_entry_len. erewrite bind_run by done. rewrite u32_small by lia.
  assert ((if size log - off =? 1 then b0 ← buf_read off 1; b1 ← buf_read 0 1; mret (b0 ++ b1) else buf_read off 2) log
    = Some ([b0; b1], log)) as Hrd.
  { destruct (Z.eqb_spec (size log - off) 1) as [E1|E1].
    - erewrite bind_run by (apply buf_read_run; [done|lia..]). erewrite bind_run by (apply buf_read_run; [done|lia..]).
      rewrite <-Hs, (ring_split log off 2 1) by (done || lia). done.
    - rewrite buf_read_run by (done || lia). by rewrite <-Hs. }
  erewrite bind_run by exact Hrd. cbv beta iota. rewrite El, u32_small; [done|]. unfold LOGGER_ENTRY_MAX_LEN in *. lia.
Qed.

(** Dropping entries until at least [n] bytes are gone. *)
Fixpoint skip (n : Z) l : list (list Z) :=
  match l with
  | [] => []
  | e :: l => if Z.of_nat (length e) <? n then skip (n - Z.of_nat (length e)) l else l
  end.

Lemma skip_blen n l : n <= blen l -> blen (skip n l) <= blen l - n.
Proof.
  revert n. induction l as [|e l IH]; intros n Hn; cbn [skip]; [unfold blen in *; cbn in *; lia|]. rewrite blen_cons in *.
  destruct (Z.ltb_spec (Z.of_nat (length e)) n); [|lia]. specialize (IH (n - Z.of_nat (length e))). lia.
Qed.
Lemma skip_suffix n l : exists k, skip n l = drop k l.
Proof.
  revert n. induction l as [|e l IH]; intros n; cbn [skip]; [by exists 0%nat|].
  destruct (_ <? n); [|by exists 1%nat]. destruct (IH (n - Z.of_nat (length e))) as [k ->]. by exists (S k).
Qed.

Lemma next_entry_loop_run log len fuel off l count : geom log -> reads log off l ->
  0 <= count < len -> len < 2 ^ 31 -> len - count <= blen l -> (Z.to_nat (len - count) < fuel)%nat ->
  exists off', next_entry_loop fuel off len count log = Some (off', log) /\ reads log off' (skip (len - count) l).
Proof.
  intros Hg. revert off l count. induction fuel as [|fuel IH]; intros off l count Hr Hc Hlen Hle Hf; [lia|].
  destruct l as [|e l]; [unfold blen in Hle; cbn in Hle; lia|]. rewrite blen_cons in Hle.
  pose proof (geom_pos log Hg). pose proof (reads_tail _ _ _ _ Hg Hr) as Hr'.
  assert (entry_ok e) as He by (destruct Hr as [_ Hok]; by apply Forall_cons in Hok as [? _]).
  pose proof (entry_len e He) as Hel. unfold sizeof_entry, LOGGER_ENTRY_MAX_LEN in Hel.
  assert (0 <= off < size log) by apply Hr.
  cbn [next_entry_loop skip]. erewrite bind_run by (by eapply get_entry_len_run). erewrite bind_run by done.
  rewrite (u32_small (off + _)), (u32_small (count + _)), offset_mod by (done || lia).
  destruct (Z.ltb_spec (count + Z.of_nat (length e)) len) as [Hlt|Hge].
  - rewrite (proj2 (Z.ltb_lt (Z.of_nat (length e)) (len - count))) by lia.
    replace (len - count - Z.of_nat (length e)) with (len - (count + Z.of_nat (length e))) by lia.
    apply IH; [done|lia..].
  - rewrite (proj2 (Z.ltb_ge (Z.of_nat (length e)) (len - count))) by lia. eauto.
Qed.

Lemma get_next_entry_run log off l n : geom log -> reads log off l -> 0 < n < 2 ^ 31 -> n <= blen l ->
  exists off', get_next_entry off n log = Some (off', log) /\ reads log off' (skip n l).
Proof.
  intros Hg Hr Hn Hle. destruct (next_entry_loop_run log n (S (Z.to_nat n)) off l 0) as (off' & Hrun & Hr'); try done; try lia.
  rewrite Z.sub_0_r in Hr'. eauto.
Qed.

(** [clock_interval] over an arc of [n] bytes. *)
Lemma clock_interval_spec N a n c : 0 <= a < N -> 0 <= c < N -> 0 < n < N ->
  clock_interval a ((a + n) mod N) c = bool_decide (0 < (c - a) mod N <= n).
Proof.
  intros Ha Hc Hn. unfold clock_interval.
  assert ((a + n) mod N = if a + n <? N then a + n else a + n - N) as ->.
  { destruct (Z.ltb_spec (a + n) N); [apply Z.mod_small; lia|]. symmetry. apply (Z.mod_unique_pos _ _ 1); lia. }
  assert ((c - a) mod N = if c <? a then c - a + N else c - a) as ->.
  { destruct (Z.ltb_spec c a); [|apply Z.mod_small; lia]. symmetry. apply (Z.mod_unique_pos _ _ (-1)); lia. }
  destruct (Z.ltb_spec (a + n) N), (Z.ltb_spec c a); case_bool_decide; case_match; lia.
Qed.

(** What is left for a reader of [l] after a write of [n] bytes. *)
Definition survive (N n : Z) l : list (list Z) := if N - n <=? blen l then skip n l else l.

Lemma survive_room N n l : blen l < N -> 2 * n <= N -> blen (survive N n l) + n < N.
Proof.
  intros Hr Hn. unfold survive. destruct (Z.leb_spec (N - n) (blen l)); [|lia].
  pose proof (skip_blen n l). lia.
Qed.
(** ** The abstract state *)
(** New readers start with the entries [lh]; the readers, in the order of the
    list, have the entries [ls] to read. *)
Record views log (lh : list (list Z)) (ls : list (list (list Z))) : Prop := {
  v_geom : geom log;
  v_head : reads log (head log) lh;
  v_readers : Forall2 (λ r l, reads log (r_off r) l) (readers log) ls;
  v_nodup : NoDup (rd_addr <$> readers log);
}.

Lemma reads_ext log log' off l : buffer log' = buffer log -> w_off log' = w_off log -> size log' = size log ->
  reads log off l -> reads log' off l.
Proof.
  intros Eb Ew Es [[H1 H2 H3 H4] H5]. split; [|done]. split; rewrite ?Es, ?Ew; try done.
  rewrite <-H2 at 2. unfold slice. apply list_fmap_ext. intros _ i _. unfold at_. by rewrite Eb, Es.
Qed.
Lemma geom_ext log log' : length (buffer log') = length (buffer log) -> size log' = size log -> geom log -> geom log'.
Proof. intros Eb Es [H1 H2 H3 H4]. split; rewrite ?Es; try done. by rewrite Eb. Qed.

Lemma survive_run log off l n : geom log -> reads log off l -> 0 < n -> 2 * n <= size log ->
  let new := (w_off log + n) mod size log in
  exists off', (if clock_interval (w_off log) new off then get_next_entry off n else mret off) log = Some (off', log) /\
    reads log off' (survive (size log) n l).
Proof.
  intros Hg Hr Hn H2n new. pose proof (geom_pos log Hg). pose proof Hr as [Hh _].
  pose proof (holds_w _ _ _ Hg Hh) as Hw. pose proof (holds_dist _ _ _ Hg Hh) as Hd. pose proof Hh as [Ho _ _ Hroom].
  unfold new. rewrite clock_interval_spec by lia. rewrite Hd. unfold survive. fold (blen l) in *.
  change (Z.of_nat (length (concat l))) with (blen l).
  destruct (Nat.eqb_spec (length (concat l)) 0) as [E|Hne].
  - rewrite bool_decide_false by lia. rewrite (proj2 (Z.leb_gt _ _)) by (unfold blen; lia). eauto.
  - destruct (Z.leb_spec (size log - n) (blen l)).
    + rewrite bool_decide_true by (unfold blen in *; lia). apply get_next_entry_run; try done; lia.
    + rewrite bool_decide_false by (unfold blen in *; lia). eauto.
Qed.

Lemma fix_up_list_run log rs ls n : geom log -> 0 < n -> 2 * n <= size log ->
  Forall2 (λ r l, reads log (r_off r) l) rs ls ->
  exists rs', fix_up_list (w_off log) ((w_off log + n) mod size log) n rs log = Some (rs', log) /\
    Forall2 (λ r l, reads log (r_off r) l) rs' (survive (size log) n <$> ls) /\ rd_addr <$> rs' = rd_addr <$> rs.
Proof.
  intros Hg Hn H2n Hf. induction Hf as [|r l rs ls Hr _ (rs' & Hrun & Hf' & Ea)]; [by exists []; repeat constructor|].
  destruct (survive_run log (r_off r) l n Hg Hr Hn H2n) as (off' & Hrun' & Hr').
  exists (Reader (rd_addr r) off' :: rs'). cbn [fix_up_list]. split_and!.
  - erewrite bind_run by exact Hrun'. by erewrite bind_run by exact Hrun.
  - by constructor.
  - cbn. by rewrite Ea.
Qed.

Lemma fix_up_readers_run log lh ls n : views log lh ls -> 0 < n -> 2 * n <= size log ->
  exists log', fix_up_readers n log = Some (tt, log') /\
    buffer log' = buffer log /\ w_off log' = w_off log /\ size log' = size log /\ klog log' = klog log /\
    rd_addr <$> readers log' = rd_addr <$> readers log /\
    views log' (survive (size log) n lh) (survive (size log) n <$> ls).
Proof.
  intros [Hg Hh Hrs Hnd] Hn H2n. pose proof (geom_pos log Hg).
  pose proof (holds_w _ _ _ Hg (proj1 Hh)) as Hw.
  destruct (survive_run log (head log) lh n Hg Hh Hn H2n) as (h' & Hrun & Hh').
  set (log1 := set_head h' log).
  assert (geom log1) as Hg1 by (by apply (geom_ext log)).
  assert (forall off l, reads log off l -> reads log1 off l) as Hext by (intros off l; by apply reads_ext).
  destruct (fix_up_list_run log1 (readers log) ls n Hg1 Hn H2n) as (rs' & Hrun' & Hrs' & Ea).
  { eapply Forall2_impl; [exact Hrs|]. intros r l Hr. by apply Hext. }
  exists (set_readers rs' log1). split_and!; try done.
  - unfold fix_up_readers. erewrite bind_run by done. cbv zeta. rewrite u32_small, offset_mod by (done || lia).
    erewrite (bind_run _ _ _ tt log1).
    2:{ destruct (clock_interval _ _ _); [by erewrite bind_run by exact Hrun|].
        injection Hrun as E. unfold log1. rewrite <-E. unfold mret, M_ret. do 2 f_equal. by destruct log. }
    by erewrite bind_run by exact Hrun'.
  - split; cbn.
    + by apply (geom_ext log1).
    + apply (reads_ext log1); auto.
    + eapply Forall2_impl; [exact Hrs'|]. intros r l Hr. by apply (reads_ext log1).
    + by rewrite Ea.
Qed.
(** ** Writing to the ring *)
(** [bs] is written from the offset [orig] on; nothing else of the buffer changes. *)
Record wrote log log' (orig : Z) bs : Prop := {
  wr_size : size log' = size log;
  wr_len : length (buffer log') = length (buffer log);
  wr_head : head log' = head log;
  wr_readers : readers log' = readers log;
  wr_bytes : forall i, 0 <= i < size log ->
    at_ log' (orig + i) = if i <? Z.of_nat (length bs) then bs !!! Z.to_nat i else at_ log (orig + i);
}.

Lemma wrote_geom log log' orig bs : wrote log log' orig bs -> geom log -> geom log'.
Proof. intros [H1 H2 _ _ _]. by apply geom_ext. Qed.
Lemma wrote_nil log orig : wrote log log orig [].
Proof. split; try done. intros i Hi. by rewrite (proj2 (Z.ltb_ge _ _)) by (cbn; lia). Qed.

Lemma wrote_other log log1 log2 orig bs : wrote log log1 orig bs -> buffer log2 = buffer log1 -> size log2 = size log1 ->
  head log2 = head log1 -> readers log2 = readers log1 -> wrote log log2 orig bs.
Proof.
  intros [H1 H2 H3 H4 H5] Eb Es Eh Er. split; rewrite ?Eb, ?Es, ?Eh, ?Er; try done.
  intros i Hi. rewrite <-H5 by done. unfold at_. by rewrite Eb, Es.
Qed.

Lemma wrote_trans log log1 log2 orig acc bs : geom log -> wrote log log1 orig acc ->
  wrote log1 log2 ((orig + Z.of_nat (length acc)) mod size log) bs ->
  Z.of_nat (length acc) + Z.of_nat (length bs) <= size log -> wrote log log2 orig (acc ++ bs).
Proof.
  intros Hg [A1 A2 A3 A4 A5] [B1 B2 B3 B4 B5] Hle. pose proof (geom_pos log Hg). rewrite A1 in *.
  split; try congruence. intros i Hi. rewrite length_app.
  set (a := Z.of_nat (length acc)) in *. set (b := Z.of_nat (length bs)) in *.
  assert (forall lg k, size lg = size log -> at_ lg ((orig + a) mod size log + k) = at_ lg (orig + a + k)) as Hmod.
  { intros lg k E. unfold at_. rewrite E. by rewrite Zplus_mod_idemp_l. }
  destruct (Z.ltb_spec i a).
  - rewrite (proj2 (Z.ltb_lt i _)) by lia. rewrite lookup_total_app_l by lia.
    specialize (A5 i Hi). rewrite (proj2 (Z.ltb_lt i a)) in A5 by lia. rewrite <-A5.
    specialize (B5 (i - a + size log)). rewrite Hmod in B5 by congruence. rewrite Hmod in B5 by congruence.
    rewrite (at_shift log2 (orig + i) (orig + a + (i - a + size log))), B5.
    + rewrite (proj2 (Z.ltb_ge (i - a + size log) b)) by lia. apply at_shift; [|lia].
      rewrite A1. replace (orig + a + (i - a + size log) - (orig + i)) with (1 * size log) by lia. apply Z_mod_mult.
    + lia.
    + rewrite B1. replace (orig + i - (orig + a + (i - a + size log))) with ((-1) * size log) by lia. apply Z_mod_mult.
    + lia.
  - specialize (B5 (i - a)). rewrite Hmod in B5 by congruence. rewrite Hmod in B5 by congruence.
    replace (orig + a + (i - a)) with (orig + i) in B5 by lia. rewrite B5 by lia.
    specialize (A5 i Hi). rewrite (proj2 (Z.ltb_ge i a)) in A5 by lia. rewrite <-A5.
    destruct (Z.ltb_spec (i - a) b).
    + rewrite (proj2 (Z.ltb_lt i _)) by lia. rewrite lookup_total_app_r by lia. f_equal. lia.
    + by rewrite (proj2 (Z.ltb_ge i _)) by lia.
Qed.

(** What a reader holds after [acc] was written at the write head. *)
Lemma wrote_slice log log' off xs acc : geom log -> holds log off xs -> wrote log log' (w_off log) acc ->
  Z.of_nat (length xs) + Z.of_nat (length acc) < size log -> slice log' off (length (xs ++ acc)) = xs ++ acc.
Proof.
  intros Hg Hh [A1 A2 A3 A4 A5] Hle. pose proof (geom_pos log Hg). pose proof Hh as [Ho Hs He _].
  apply bytes_eq; [by rewrite slice_length|]. rewrite slice_length. intros i Hi. rewrite slice_lookup by done.
  rewrite length_app in Hi. symmetry. rewrite list_lookup_lookup_total_lt by (rewrite length_app; lia). f_equal.
  destruct (decide (i < length xs)%nat) as [Hix|Hix].
  - rewrite lookup_total_app_l by done.
    assert (xs !! i = Some (at_ log (off + Z.of_nat i))) as Hx by (rewrite <-Hs at 1; by apply slice_lookup).
    rewrite (list_lookup_total_correct _ _ _ Hx). set (k := size log - Z.of_nat (length xs) + Z.of_nat i).
    assert (forall lg, size lg = size log -> at_ lg (off + Z.of_nat i) = at_ lg (w_off log + k)) as Hk.
    { intros lg E. apply at_shift; [|lia]. rewrite E, <-He, Zminus_mod, Zplus_mod_idemp_l, <-Zminus_mod. unfold k.
      replace (_ - _) with ((-1) * size log) by lia. apply Z_mod_mult. }
    rewrite !Hk by done. rewrite A5 by lia. by rewrite (proj2 (Z.ltb_ge _ _)) by lia.
  - rewrite lookup_total_app_r by lia. set (k := Z.of_nat i - Z.of_nat (length xs)).
    assert (at_ log' (off + Z.of_nat i) = at_ log' (w_off log + k)) as ->.
    { apply at_shift; [|lia]. rewrite A1, <-He, Zminus_mod, Zplus_mod_idemp_l, <-Zminus_mod. unfold k.
      replace (_ - _) with (0 * size log) by lia. apply Z_mod_mult. }
    rewrite A5 by lia. rewrite (proj2 (Z.ltb_lt _ _)) by lia. f_equal. lia.
Qed.

Lemma wrote_holds log log' off xs acc : geom log -> holds log off xs -> wrote log log' (w_off log) acc ->
  Z.of_nat (length xs) + Z.of_nat (length acc) < size log ->
  (w_off log' = (w_off log + Z.of_nat (length acc)) mod size log -> holds log' off (xs ++ acc)) /\
  (w_off log' = w_off log -> holds log' off xs).
Proof.
  intros Hg Hh Hw Hle. pose proof (wrote_slice _ _ _ _ _ Hg Hh Hw Hle) as Hs.
  pose proof Hh as [Ho _ He _]. pose proof Hw as [A1 _ _ _ _]. split; intros Ew; split; rewrite ?A1; try done.
  - rewrite length_app, Ew, <-He, Zplus_mod_idemp_l. f_equal. lia.
  - rewrite length_app. lia.
  - rewrite length_app, slice_app in Hs. apply app_inj_1 in Hs as [Hs _]; [done|by rewrite slice_length].
  - by rewrite Ew.
  - lia.
Qed.
Lemma buf_write_run log off bs : geom log -> 0 <= off < size log -> off + Z.of_nat (length bs) <= size log ->
  exists log', buf_write off bs log = Some (tt, log') /\ wrote log log' off bs /\
    w_off log' = w_off log /\ klog log' = klog log.
Proof.
  intros Hg Ho Hle. pose proof (g_len _ Hg) as El. unfold buf_write, in_buffer. rewrite El.
  replace ((0 <=? off) && (0 <=? Z.of_nat (length bs)) && (off + Z.of_nat (length bs) <=? size log)) with true by lia.
  eexists. split_and!; [done| |done|done]. split; cbn; try done; [apply length_inserts|].
  intros i Hi. unfold at_. cbn.
  assert ((off + i) mod size log = if off + i <? size log then off + i else off + i - size log) as ->.
  { destruct (Z.ltb_spec (off + i) (size log)); [apply Z.mod_small; lia|].
    symmetry. apply (Z.mod_unique_pos _ _ 1); lia. }
  apply list_lookup_total_correct. destruct (Z.ltb_spec i (Z.of_nat (length bs))).
  - rewrite (proj2 (Z.ltb_lt (off + i) _)) by lia. rewrite list_lookup_inserts by lia.
    rewrite list_lookup_lookup_total_lt by lia. do 2 f_equal. lia.
  - destruct (Z.ltb_spec (off + i) (size log)).
    + rewrite list_lookup_inserts_ge by lia. rewrite list_lookup_lookup_total_lt by lia. done.
    + rewrite list_lookup_inserts_lt by lia. rewrite list_lookup_lookup_total_lt by lia. done.
Qed.

(** The two halves of a write that may wrap around. *)
Lemma ring_write_run log (n : Z) bs1 bs2 : geom log -> 0 <= w_off log < size log -> 0 <= n <= size log ->
  let len := Z.min n (size log - w_off log) in
  Z.of_nat (length bs1) = len -> Z.of_nat (length bs2) = n - len ->
  exists log1 log2, buf_write (w_off log) bs1 log = Some (tt, log1) /\ wrote log log1 (w_off log) bs1 /\
    w_off log1 = w_off log /\ klog log1 = klog log /\
    (n <> len -> buf_write 0 bs2 log1 = Some (tt, log2)) /\ (n = len -> log2 = log1) /\
    wrote log log2 (w_off log) (bs1 ++ bs2) /\ w_off log2 = w_off log /\ klog log2 = klog log.
Proof.
  intros Hg Hw Hn len E1 E2. destruct (buf_write_run log (w_off log) bs1 Hg Hw) as (log1 & Hrun1 & Hwr1 & Ew1 & Ek1); [lia|].
  pose proof (wrote_geom _ _ _ _ Hwr1 Hg) as Hg1. pose proof (wr_size _ _ _ _ Hwr1) as Es.
  destruct (decide (n = len)) as [En|En].
  { exists log1, log1. assert (bs2 = []) as -> by (apply length_zero_iff_nil; lia). rewrite app_nil_r. done. }
  destruct (buf_write_run log1 0 bs2 Hg1) as (log2 & Hrun2 & Hwr2 & Ew2 & Ek2); [lia..|].
  exists log1, log2. split_and!; try done; try congruence.
  apply (wrote_trans log log1 log2 (w_off log) bs1 bs2 Hg Hwr1); [|lia].
  replace ((w_off log + Z.of_nat (length bs1)) mod size log) with 0; [done|].
  rewrite E1. replace (w_off log + len) with (1 * size log) by lia. symmetry. apply Z_mod_mult.
Qed.

Lemma do_write_log_run log bs : geom log -> 0 <= w_off log < size log -> Z.of_nat (length bs) <= size log ->
  exists log', do_write_log bs log = Some (tt, log') /\ wrote log log' (w_off log) bs /\
    w_off log' = (w_off log + Z.of_nat (length bs)) mod size log.
Proof.
  intros Hg Hw Hn. pose proof (geom_pos log Hg).
  set (n := Z.of_nat (length bs)). set (len := Z.min n (size log - w_off log)).
  destruct (ring_write_run log n (take (Z.to_nat len) bs) (drop (Z.to_nat len) bs) Hg Hw)
    as (log1 & log2 & Hrun1 & Hwr1 & Ew1 & _ & Hrun2 & E2 & Hwr & Ew2 & _); [lia|rewrite length_take; lia|rewrite length_drop; lia|].
  rewrite take_drop in Hwr.
  exists (set_w_off ((w_off log + n) mod size log) log2). split_and!; [|by eapply wrote_other|done].
  unfold do_write_log. erewrite bind_run by done. cbv zeta. rewrite (u32_small (size log - _)) by lia. fold n len.
  erewrite bind_run by exact Hrun1. rewrite (u32_small (w_off log + n)), offset_mod by (done || lia).
  erewrite (bind_run _ _ _ tt log2); [done|]. destruct (Z.eqb_spec n len); [|by apply Hrun2]. by rewrite E2.
Qed.

Lemma copy_tmp_run log i n : geom log -> 0 <= w_off log < size log -> 0 <= i -> i + Z.of_nat n < 2 ^ 31 ->
  exists bs, copy_tmp i n log = Some (bs, log).
Proof.
  intros Hg Hw. pose proof (geom_pos log Hg). revert i. induction n as [|n IH]; intros i Hi Hle; [by eexists|].
  cbn [copy_tmp]. erewrite bind_run by done. rewrite u32_small, offset_mod by (done || lia).
  assert (0 <= (w_off log + i) mod size log < size log) by (apply Z.mod_pos_bound; lia).
  erewrite bind_run by (apply buf_read_run; [done|lia..]). destruct (IH (i + 1)) as [bs Hbs]; [lia..|].
  erewrite bind_run by exact Hbs. by eexists.
Qed.

Lemma echo_run log count : geom log -> 0 <= w_off log < size log ->
  exists log', echo_to_klog count log = Some (tt, log') /\ buffer log' = buffer log /\ size log' = size log /\
    w_off log' = w_off log /\ head log' = head log /\ readers log' = readers log.
Proof.
  intros Hg Hw. pose proof (geom_pos log Hg). unfold echo_to_klog. destruct (count >=? 2); [|by eexists].
  erewrite bind_run by done. erewrite bind_run by (apply buf_read_run; [done|lia..]).
  destruct (bool_decide _); [|by eexists]. rewrite u32_small, offset_mod by (done || lia).
  assert (0 <= (w_off log + 1) mod size log < size log) by (apply Z.mod_pos_bound; lia).
  erewrite bind_run by (apply buf_read_run; [done|lia..]).
  destruct (bool_decide _); [|by eexists].
  destruct (copy_tmp_run log 0 (Z.to_nat (Z.min count (256 - 1)))) as [bs Hbs]; [done|done|lia|lia|].
  erewrite bind_run by exact Hbs. by eexists.
Qed.
(** The bytes that [copy_from_user] stores, and whether it faults. *)
Definition user_bytes (seg : iovec) (pos n : Z) : list Z :=
  let bs := take (Z.to_nat n) (drop (Z.to_nat pos) (iov_data seg)) in
  bs ++ replicate (Z.to_nat n - length bs) 0.
Definition faults (seg : iovec) (pos n : Z) : bool :=
  Z.of_nat (length (take (Z.to_nat n) (drop (Z.to_nat pos) (iov_data seg)))) <? n.

Lemma user_bytes_len seg pos n : 0 <= n -> Z.of_nat (length (user_bytes seg pos n)) = n.
Proof. intros Hn. unfold user_bytes. rewrite length_app, length_replicate, length_take. lia. Qed.
Lemma user_bytes_ok seg pos n : faults seg pos n = false -> 0 <= n ->
  user_bytes seg pos n = take (Z.to_nat n) (drop (Z.to_nat pos) (iov_data seg)).
Proof.
  unfold faults, user_bytes. intros Hf Hn. replace (_ - _)%nat with 0%nat by lia. by rewrite app_nil_r.
Qed.

Lemma from_user_run log seg count : geom log -> 0 <= w_off log < size log -> 0 <= count <= size log ->
  exists log' nr, do_write_log_from_user seg count log = Some (nr, log') /\
    if count <=? Z.of_nat (length (iov_data seg))
    then nr = count /\ wrote log log' (w_off log) (take (Z.to_nat count) (iov_data seg)) /\
      w_off log' = (w_off log + count) mod size log
    else nr = - EFAULT /\ w_off log' = w_off log /\
      exists bs, Z.of_nat (length bs) <= count /\ wrote log log' (w_off log) bs.
Proof.
  intros Hg Hw Hc. pose proof (geom_pos log Hg). set (len := Z.min count (size log - w_off log)).
  pose proof (user_bytes_len seg 0 len) as L1. pose proof (user_bytes_len seg len (count - len)) as L2.
  destruct (ring_write_run log count (user_bytes seg 0 len) (user_bytes seg len (count - len)) Hg Hw)
    as (log1 & log2 & Hrun1 & Hwr1 & Ew1 & _ & Hrun2 & E2 & Hwr & Ew2 & _); [lia|lia|lia|].
  unfold do_write_log_from_user. erewrite bind_run by done. cbv zeta. rewrite (u32_small (size log - _)) by lia. fold len.
  assert ((if len =? 0 then mret false else copy_from_user (w_off log) seg 0 len) log = Some (faults seg 0 len, log1)) as Hc1.
  { destruct (Z.eqb_spec len 0) as [E0|E0].
    - assert (faults seg 0 len = false) as -> by (rewrite E0; unfold faults; lia).
      assert (user_bytes seg 0 len = []) as E by (apply length_zero_iff_nil; lia).
      rewrite E in Hrun1. unfold buf_write in Hrun1. destruct (in_buffer _ _ _); [|done].
      injection Hrun1 as <-. cbn. unfold mret, M_ret. do 2 f_equal. by destruct log.
    - unfold copy_from_user. erewrite bind_run by exact Hrun1. done. }
  erewrite bind_run by exact Hc1.
  assert (count <=? Z.of_nat (length (iov_data seg)) = negb (faults seg 0 len) && negb (faults seg len (count - len))) as Hok.
  { unfold faults. rewrite !length_take, !length_drop. lia. }
  destruct (faults seg 0 len) eqn:F1.
  { exists log1, (- EFAULT). split; [done|]. rewrite Hok. cbn. split_and!; [done|done|].
    eexists. split; [|exact Hwr1]. lia. }
  assert ((if count =? len then mret false else copy_from_user 0 seg len (count - len)) log1
    = Some (faults seg len (count - len), log2)) as Hc2.
  { destruct (Z.eqb_spec count len) as [E|E].
    - rewrite (E2 E). assert (faults seg len (count - len) = false) as ->; [|done]. rewrite E. unfold faults. lia.
    - unfold copy_from_user. erewrite bind_run by (by apply Hrun2). done. }
  erewrite bind_run by exact Hc2. destruct (faults seg len (count - len)) eqn:F2.
  { exists log2, (- EFAULT). split; [done|]. rewrite Hok. cbn. split_and!; [done|done|].
    eexists. split; [|exact Hwr]. rewrite length_app. lia. }
  rewrite Hok. cbn [negb andb].
  assert (user_bytes seg 0 len ++ user_bytes seg len (count - len) = take (Z.to_nat count) (iov_data seg)) as Hb.
  { rewrite !user_bytes_ok by (done || lia). cbn [drop Z.to_nat].
    rewrite take_take_drop. f_equal. lia. }
  rewrite Hb in Hwr. pose proof (wrote_geom _ _ _ _ Hwr Hg) as Hg2.
  destruct (echo_run log2 count Hg2) as (log3 & Hecho & B1 & B2 & B3 & B4 & B5); [rewrite Ew2, (wr_size _ _ _ _ Hwr); done|].
  erewrite bind_run by exact Hecho. rewrite u32_small, offset_mod by (done || lia).
  eexists _, count. split; [by erewrite bind_run by done|]. split_and!; [done| |done].
  eapply wrote_other; [exact Hwr|done..].
Qed.
(** The payload that the segments give. *)
Definition payload (iov : list iovec) : list Z := concat (iov_data <$> iov).
Definition iov_total (iov : list iovec) : Z := foldr (λ seg n, iov_len seg + n) 0 iov.
Definition readable (seg : iovec) : Prop := iov_len seg = Z.of_nat (length (iov_data seg)).

Lemma write_segs_run log0 log orig hlen iov ret acc : geom log0 -> 0 <= orig < size log0 ->
  wrote log0 log orig acc -> w_off log = (orig + Z.of_nat (length acc)) mod size log0 ->
  0 <= ret <= hlen -> Z.of_nat (length acc) + (hlen - ret) <= size log0 -> hlen < 2 ^ 16 ->
  Forall (λ seg, 0 <= iov_len seg) iov ->
  exists log' res, write_segs orig hlen iov ret log = Some (res, log') /\
    ((res = - EFAULT /\ ~ Forall readable iov /\ w_off log' = orig /\
      exists bs, Z.of_nat (length bs) <= Z.of_nat (length acc) + (hlen - ret) /\ wrote log0 log' orig bs) \/
     (res = Z.min (ret + iov_total iov) hlen /\ exists bs, wrote log0 log' orig (acc ++ bs) /\ Z.of_nat (length bs) = res - ret /\
        w_off log' = (orig + Z.of_nat (length (acc ++ bs))) mod size log0 /\
        (Forall readable iov -> bs = take (Z.to_nat (hlen - ret)) (payload iov)))).
Proof.
  intros Hg Ho. revert log ret acc. induction iov as [|seg iov IH]; intros log ret acc Hwr Hw Hret Hroom Hh Hlen.
  { exists log, ret. split; [done|]. right. split; [cbn; lia|]. exists []. rewrite app_nil_r. split_and!; try done.
    - cbn. lia. - intros _. cbn. by rewrite take_nil. }
  apply Forall_cons in Hlen as [Hl Hlen]. pose proof (geom_pos log0 Hg).
  cbn [write_segs]. rewrite u32_small by lia. set (n := Z.min (iov_len seg) (hlen - ret)).
  pose proof (wrote_geom _ _ _ _ Hwr Hg) as Hg1. pose proof (wr_size _ _ _ _ Hwr) as Es.
  assert (0 <= w_off log < size log) as Hw1 by (rewrite Hw, Es; apply Z.mod_pos_bound; lia).
  destruct (from_user_run log seg n Hg1 Hw1) as (log1 & nr & Hrun & Hres); [lia|].
  erewrite bind_run by exact Hrun. rewrite Hw, Es in Hres.
  destruct (Z.leb_spec n (Z.of_nat (length (iov_data seg)))) as [Hle|Hgt].
  - destruct Hres as (-> & Hwr1 & Hw2). rewrite (proj2 (Z.ltb_ge n 0)) by lia.
    set (bs := take (Z.to_nat n) (iov_data seg)) in *.
    assert (Z.of_nat (length bs) = n) as Eb by (unfold bs; rewrite length_take; lia).
    assert (wrote log0 log1 orig (acc ++ bs)) as Hwr2 by (by eapply wrote_trans; [..|lia]).
    assert (w_off log1 = (orig + Z.of_nat (length (acc ++ bs))) mod size log0) as Hw3.
    { rewrite Hw2, Zplus_mod_idemp_l, length_app. f_equal. lia. }
    destruct (IH log1 (ret + n) (acc ++ bs) Hwr2 Hw3) as (log' & res & Hrun' & Hcase);
      [lia|rewrite length_app; lia|done|done|].
    exists log', res. split; [done|]. destruct Hcase as [(-> & Hnr & Hw' & cs & Hc & Hwc)|(Hr & cs & Hwc & Hlc & Hw' & Hp)].
    + left. split_and!; [done|by intros [_ ?]%Forall_cons|done|]. exists cs. split; [rewrite length_app in Hc; lia|done].
    + right. split; [unfold iov_total in *; cbn [foldr]; lia|]. exists (bs ++ cs). rewrite app_assoc, length_app. split_and!; [done|lia|done|].
      intros [Hs Hrs]%Forall_cons. rewrite (Hp Hrs). unfold payload. cbn [fmap list_fmap concat]. unfold readable in Hs.
      rewrite take_app. unfold bs. f_equal; [|f_equal; lia].
      destruct (decide (iov_len seg <= hlen - ret)); [rewrite !take_ge by lia; done|f_equal; lia].
  - destruct Hres as (-> & Hw2 & bs & Hbs & Hwr1). cbn.
    exists (set_w_off orig log1), (- EFAULT). split; [done|]. left.
    split_and!; [done|intros [Hs _]%Forall_cons; unfold readable in Hs; lia|done|].
    exists (acc ++ bs). split; [rewrite length_app; lia|]. apply (wrote_other log0 log1); try done.
    apply (wrote_trans log0 log log1 orig acc bs Hg Hwr Hwr1). lia.
Qed.

(** The header that is written for a payload of [hlen] bytes. *)
Definition header (h : logger_entry) (hlen : Z) : list Z :=
  entry_bytes (Entry hlen (__pad h) (pid h) (tid h) (sec h) (nsec h)).
Lemma header_ok h hlen p : 0 < hlen <= LOGGER_ENTRY_MAX_PAYLOAD -> Z.of_nat (length p) = hlen ->
  entry_ok (header h hlen ++ p).
Proof.
  unfold LOGGER_ENTRY_MAX_PAYLOAD, LOGGER_ENTRY_MAX_LEN, sizeof_entry. intros Hh Hp.
  exists (hlen mod 2 ^ 8), (hlen / 2 ^ 8 mod 2 ^ 8),
    ((le16 (__pad h) ++ le32 (pid h) ++ le32 (tid h) ++ le32 (sec h) ++ le32 (nsec h)) ++ p). split; [done|].
  assert (Z.of_nat (length (header h hlen ++ p)) = 20 + hlen) as ->
    by (rewrite length_app; change (length (header h hlen)) with 20%nat; lia).
  assert (hlen / 2 ^ 8 mod 2 ^ 8 = hlen / 2 ^ 8) as ->.
  { apply Z.mod_small. split; [apply Z.div_pos; lia|apply Z.div_lt_upper_bound; lia]. }
  pose proof (Z.div_mod hlen (2 ^ 8)). pose proof (Z.mod_pos_bound hlen (2 ^ 8)).
  assert (0 <= hlen / 2 ^ 8 < 2 ^ 8) by (split; [apply Z.div_pos; lia|apply Z.div_lt_upper_bound; lia]).
  unfold sizeof_entry, LOGGER_ENTRY_MAX_LEN. lia.
Qed.

Lemma Forall2_with {A B} (P Q : A -> B -> Prop) (R : B -> Prop) la lb :
  Forall2 P la lb -> Forall R lb -> (forall a b, P a b -> R b -> Q a b) -> Forall2 Q la lb.
Proof. intros Hf Hr H. induction Hf; [done|]. apply Forall_cons in Hr as [? ?]. constructor; auto. Qed.

(** The whole of [logger_aio_write], without another writer in between. *)
Lemma write_run log lh ls h iov : views log lh ls -> Forall (λ seg, 0 <= iov_len seg) iov ->
  let hlen := Z.min (iov_total iov) LOGGER_ENTRY_MAX_PAYLOAD in
  let n := sizeof_entry + hlen in
  0 < hlen ->
  exists log' res, logger_aio_write (w_off log) h iov (iov_total iov) log = Some (res, log') /\
    rd_addr <$> readers log' = rd_addr <$> readers log /\ size log' = size log /\
    ((res = - EFAULT /\ ~ Forall readable iov /\ views log' (survive (size log) n lh) (survive (size log) n <$> ls)) \/
     (res = hlen /\ exists p, Z.of_nat (length p) = hlen /\
        (Forall readable iov -> p = take (Z.to_nat hlen) (payload iov)) /\
        views log' (survive (size log) n lh ++ [header h hlen ++ p])
          ((λ l, survive (size log) n l ++ [header h hlen ++ p]) <$> ls))).
Proof.
  intros Hv Hiov hlen n Hpos. pose proof Hv as [Hg Hh Hrs _]. pose proof (geom_pos log Hg).
  pose proof (holds_w _ _ _ Hg (proj1 Hh)) as Hw.
  assert (n = 20 + hlen /\ hlen <= 4076 /\ 8192 <= size log) as (En & Hmax & H8).
  { pose proof (g_two log Hg). unfold n, hlen, LOGGER_ENTRY_MAX_PAYLOAD, sizeof_entry, LOGGER_ENTRY_MAX_LEN in *. lia. }
  clearbody n.
  destruct (fix_up_readers_run log lh ls n Hv) as (log1 & Hfix & Eb & Ew & Es & Ek & Ea & Hv1); [lia..|].
  pose proof Hv1 as [Hg1 Hh1 Hrs1 Hnd1].
  assert (length (header h hlen) = 20%nat) as E20 by done.
  destruct (do_write_log_run log1 (header h hlen) Hg1) as (log2 & Hwh & Hwr2 & Hw2); [lia..|].
  destruct (write_segs_run log1 log2 (w_off log) hlen iov 0 (header h hlen) Hg1) as (log' & res & Hseg & Hcase);
    [lia|by rewrite <-Ew|by rewrite <-Ew|lia|lia|lia|done|].
  rewrite <-Ew in Hcase.
  exists log', res. split.
  { unfold logger_aio_write. cbv zeta. fold hlen. assert (u16 hlen = hlen) as -> by (unfold u16; apply Z.mod_small; lia).
    rewrite (proj2 (Z.eqb_neq hlen 0)) by lia. unfold sizeof_entry. rewrite u32_small, <-En by lia.
    erewrite bind_run by exact Hfix. erewrite bind_run by exact Hwh. exact Hseg. }
  assert (forall off l bs, reads log1 off (survive (size log) n l) -> Z.of_nat (length bs) <= n -> blen l < size log ->
     wrote log1 log' (w_off log1) bs ->
     (w_off log' = (w_off log1 + Z.of_nat (length bs)) mod size log1 -> entry_ok bs -> reads log' off (survive (size log) n l ++ [bs])) /\
     (w_off log' = w_off log1 -> reads log' off (survive (size log) n l))) as Hreads.
  { intros off l bs [Hho Hok] Hbs Hl Hwr. pose proof (survive_room (size log) n l Hl) as Hroom.
    destruct (wrote_holds log1 log' off _ bs Hg1 Hho Hwr) as [H1 H2]; [rewrite Es; unfold blen in Hroom; lia|].
    split; intros Hwo; [intros Hbok|]; split.
    - rewrite concat_app. cbn. rewrite app_nil_r. auto.
    - apply Forall_app. auto.
    - auto.
    - done. }
  assert (forall bs, wrote log1 log' (w_off log1) bs -> size log' = size log /\ readers log' = readers log1 /\
    head log' = head log1 /\ geom log') as Hsame.
  { intros bs Hwr. split_and!; [rewrite <-Es|..]; try apply Hwr. by eapply wrote_geom. }
  assert (Forall (λ l, blen l < size log) ls) as Hls.
  { clear -Hrs. induction Hrs as [|r l rs ls [Hr _] _ IH]; constructor; [apply Hr|done]. }
  rewrite Forall2_fmap_r in Hrs1.
  destruct Hcase as [(-> & Hnr & Hwo & bs & Hbs & Hwr)|(-> & bs & Hwr & Hbs & Hwo & Hp)];
    destruct (Hsame _ Hwr) as (Es' & Er' & Eh' & Hg').
  - split_and!; [by rewrite Er'|done|]. left. split_and!; [done..|]. split; [done| | |by rewrite Er'].
    + rewrite Eh'. eapply Hreads; [done| |apply Hh|done|done]. rewrite E20 in Hbs. lia.
    + rewrite Er', Forall2_fmap_r. eapply Forall2_with; [exact Hrs1|exact Hls|]. intros r l Hr Hl.
      eapply Hreads; [done| |done|done|done]. rewrite E20 in Hbs. lia.
  - split_and!; [by rewrite Er'|done|]. right. rewrite Z.add_0_l in *.
    assert (Z.min (iov_total iov) hlen = hlen) as Eh by (unfold hlen in *; lia). rewrite Eh in *.
    split; [done|]. exists bs. rewrite !Z.sub_0_r in *. split_and!; [done|done|].
    assert (entry_ok (header h hlen ++ bs)) as Hok by (apply header_ok; [unfold LOGGER_ENTRY_MAX_PAYLOAD, LOGGER_ENTRY_MAX_LEN, sizeof_entry; lia|done]).
    assert (Z.of_nat (length (header h hlen ++ bs)) <= n) as Hle by (rewrite length_app; lia).
    split; [done| | |by rewrite Er'].
    + rewrite Eh'. eapply Hreads; [done|done|apply Hh|done|done|done].
    + rewrite Er', Forall2_fmap_r. eapply Forall2_with; [exact Hrs1|exact Hls|]. intros r l Hr Hl.
      eapply Hreads; done.
Qed.
(** ** Reading *)
Lemma reader_lookup (rs : list logger_reader) i r : NoDup (rd_addr <$> rs) -> rs !! i = Some r ->
  filter (λ r', rd_addr r' = rd_addr r) rs = [r] /\
  forall v, (λ r', if rd_addr r' =? rd_addr r then Reader (rd_addr r) v else r') <$> rs = <[i := Reader (rd_addr r) v]> rs.
Proof.
  revert i. induction rs as [|r0 rs IH]; intros i Hnd Hi; [done|]. cbn in Hnd. apply NoDup_cons in Hnd as [Hni Hnd].
  destruct i as [|i]; cbn in Hi.
  - injection Hi as ->. rewrite filter_cons_True by done. cbn. rewrite Z.eqb_refl.
    assert (forall r', r' ∈ rs -> rd_addr r' <> rd_addr r) as Hne.
    { intros r' Hr' E. apply Hni. rewrite <-E. by apply list_elem_of_fmap_2. }
    split.
    { destruct (filter _ rs) as [|r' k] eqn:E; [done|]. exfalso. assert (r' ∈ r' :: k) as Hin by set_solver +.
      rewrite <-E, list_elem_of_filter in Hin. destruct Hin as [? Hin]. by apply (Hne r'). }
    intros v. f_equal.
    rewrite <-(list_fmap_id rs) at 2. apply list_fmap_ext. intros j r' Hr'%list_elem_of_lookup_2.
    by rewrite (proj2 (Z.eqb_neq _ _)) by auto.
  - assert (rd_addr r0 <> rd_addr r) as Hne.
    { intros E. apply Hni. rewrite E. apply list_elem_of_fmap_2. by eapply list_elem_of_lookup_2. }
    destruct (IH i Hnd Hi) as [Hf Hm]. rewrite filter_cons_False by done. split; [done|]. intros v. cbn.
    rewrite (proj2 (Z.eqb_neq _ _) Hne). f_equal. apply Hm.
Qed.

Lemma get_reader_run log lh ls i r : views log lh ls -> readers log !! i = Some r ->
  get_reader (rd_addr r) log = Some (r, log).
Proof.
  intros [_ _ _ Hnd] Hi. unfold get_reader. destruct (reader_lookup _ _ _ Hnd Hi) as [-> _]. done.
Qed.

Lemma views_read log lh ls i r l l' off : views log lh ls -> readers log !! i = Some r -> ls !! i = Some l ->
  reads log off l' -> views (set_readers (<[i := Reader (rd_addr r) off]> (readers log)) log) lh (<[i := l']> ls).
Proof.
  intros [Hg Hh Hrs Hnd] Hi Hl Hr. split; cbn.
  - by apply (geom_ext log).
  - by apply (reads_ext log).
  - apply Forall2_insert; [|by apply (reads_ext log)]. eapply Forall2_impl; [exact Hrs|]. intros r0 l0 H0. by apply (reads_ext log).
  - rewrite list_fmap_insert. cbn. rewrite list_insert_id; [done|]. by rewrite list_lookup_fmap, Hi.
Qed.

Lemma do_read_run log lh ls i r e l room : views log lh ls -> readers log !! i = Some r -> ls !! i = Some (e :: l) ->
  exists log', do_read_log_to_user (rd_addr r) (Z.of_nat (length e)) room log
    = Some (if room <? Z.of_nat (length e) then (- EFAULT, []) else (Z.of_nat (length e), e), log') /\
    if room <? Z.of_nat (length e) then log' = log
    else views log' lh (<[i := l]> ls) /\ rd_addr <$> readers log' = rd_addr <$> readers log.
Proof.
  intros Hv Hi Hl. pose proof Hv as [Hg _ Hrs Hnd]. pose proof (geom_pos log Hg).
  pose proof (Forall2_lookup_lr _ _ _ _ _ _ Hrs Hi Hl) as Hr. cbn in Hr.
  pose proof (reads_tail _ _ _ _ Hg Hr) as Ht. destruct Hr as [Hh _]. pose proof Hh as [Ho _ _ Hroom].
  cbn in Hroom. rewrite length_app in Hroom.
  set (n := length e) in *. set (len := Z.min (Z.of_nat n) (size log - r_off r)).
  assert (slice log (r_off r) (Z.to_nat len) ++ slice log 0 (n - Z.to_nat len) = e) as He.
  { rewrite <-(ring_split log (r_off r) n len) by done. by eapply holds_prefix. }
  unfold do_read_log_to_user. erewrite bind_run by done. erewrite bind_run by (by eapply get_reader_run). cbv zeta.
  rewrite (u32_small (size log - _)) by lia. fold len.
  erewrite bind_run by (apply buf_read_run; [done|lia..]). unfold copy_to_user. rewrite slice_length.
  assert ((if Z.of_nat n =? len then mret [] else buf_read 0 (Z.of_nat n - len)) log
    = Some (slice log 0 (n - Z.to_nat len), log)) as Hb1.
  { destruct (Z.eqb_spec (Z.of_nat n) len); [by replace (n - _)%nat with 0%nat by lia|].
    rewrite buf_read_run by (done || lia). do 3 f_equal. lia. }
  destruct (Z.ltb_spec room (Z.of_nat n)) as [Hlt|Hge].
  - exists log. split; [|done]. destruct (Z.ltb_spec room (0 + Z.of_nat (Z.to_nat len))); [done|].
    erewrite bind_run by exact Hb1. rewrite slice_length.
    replace (negb (Z.of_nat n =? len) && (room <? len + Z.of_nat (n - Z.to_nat len))) with true by lia. done.
  - rewrite (proj2 (Z.ltb_ge room (0 + _))) by lia. erewrite bind_run by exact Hb1. rewrite slice_length.
    replace (negb (Z.of_nat n =? len) && (room <? len + Z.of_nat (n - Z.to_nat len))) with false by lia.
    rewrite u32_small, offset_mod by (done || lia).
    eexists. split; [erewrite bind_run by done; rewrite He; done|].
    destruct (reader_lookup _ _ _ Hnd Hi) as [_ Hm]. rewrite Hm. split; [by eapply views_read|].
    cbn. rewrite list_fmap_insert. cbn. rewrite list_insert_id; [done|]. by rewrite list_lookup_fmap, Hi.
Qed.

(** The outcome of a read by a reader whose entries are [l]. *)
Definition read_outcome (l : list (list Z)) (count room : Z) (nonblock signal_pending : bool) : read_result * list (list Z) :=
  match l with
  | [] => (if nonblock then Returns (- EAGAIN) [] else if signal_pending then Returns (- EINTR) [] else Sleep, [])
  | e :: l' =>
      if count <? Z.of_nat (length e) then (Returns (- EINVAL) [], l)
      else if room <? Z.of_nat (length e) then (Returns (- EFAULT) [], l)
      else (Returns (Z.of_nat (length e)) e, l')
  end.

Lemma read_run log lh ls i r l count room nb sp : views log lh ls -> readers log !! i = Some r -> ls !! i = Some l ->
  exists log', logger_read (rd_addr r) count room nb sp log = Some ((read_outcome l count room nb sp).1, log') /\
    rd_addr <$> readers log' = rd_addr <$> readers log /\
    views log' lh (<[i := (read_outcome l count room nb sp).2]> ls).
Proof.
  intros Hv Hi Hl. pose proof Hv as [Hg _ Hrs _].
  pose proof (Forall2_lookup_lr _ _ _ _ _ _ Hrs Hi Hl) as Hr. cbn in Hr.
  pose proof (holds_empty _ _ _ Hg (proj1 Hr)) as He.
  unfold logger_read, logger_read_wait. rewrite bind_assoc. erewrite bind_run by done. rewrite bind_assoc.
  erewrite bind_run by (by eapply get_reader_run). rewrite He.
  destruct l as [|e l]; cbn [concat length Nat.eqb negb].
  - exists log. cbn. rewrite list_insert_id by done. split; [by destruct nb, sp|done].
  - assert (length (e ++ concat l) =? 0 = false)%nat as He0.
    { destruct Hr as [_ Hok]. apply Forall_cons in Hok as [(b0 & b1 & rest & -> & _) _]. done. }
    cbn [concat] in He. rewrite He0 in He |- *. cbn [negb]. erewrite bind_run by done. unfold logger_read_entry.
    erewrite bind_run by done. erewrite bind_run by (by eapply get_reader_run). rewrite He.
    erewrite bind_run by (by eapply get_entry_len_run). cbn [read_outcome].
    destruct (count <? Z.of_nat (length e)); [exists log; by rewrite list_insert_id|].
    destruct (do_read_run log lh ls i r e l room Hv Hi Hl) as (log' & Hrun & Hres).
    erewrite bind_run by exact Hrun. exists log'. destruct (room <? Z.of_nat (length e)); [|by destruct Hres].
    subst log'. by rewrite list_insert_id.
Qed.
(** ** Runs *)
(** The bytes of the ring determine the entries. *)
Lemma entries_inj l l' : Forall entry_ok l -> Forall entry_ok l' -> concat l = concat l' -> l = l'.
Proof.
  intros Hl. revert l'. induction Hl as [|e l He Hl IH]; intros l' Hl' E.
  - destruct Hl' as [|e' l' He' _]; [done|]. destruct He' as (b0 & b1 & rest & -> & _). done.
  - destruct Hl' as [|e' l' He' Hl']; [by destruct He as (b0 & b1 & rest & -> & _)|]. cbn in E.
    assert (length e = length e') as El.
    { destruct He as (b0 & b1 & rest & -> & _ & _ & E1 & _), He' as (c0 & c1 & rest' & -> & _ & _ & E2 & _).
      injection E as -> -> E. lia. }
    apply app_inj_1 in E as [-> E]; [|done]. f_equal. auto.
Qed.

Lemma reads_unique log off l l' : geom log -> reads log off l -> reads log off l' -> l = l'.
Proof.
  intros Hg [Hh Hok] [Hh' Hok']. apply entries_inj; [done..|].
  pose proof (holds_dist _ _ _ Hg Hh) as D. pose proof (holds_dist _ _ _ Hg Hh') as D'.
  pose proof Hh as [_ Hs _ Hr]. pose proof Hh' as [_ Hs' _ Hr'].
  assert (length (concat l) = length (concat l')) as E.
  { rewrite D in D'. destruct (Nat.eqb_spec (length (concat l)) 0), (Nat.eqb_spec (length (concat l')) 0); lia. }
  rewrite <-Hs, <-Hs', E. done.
Qed.

(** The reader [rd] has the entries [l] to read. *)
Definition pending log (rd : Z) l : Prop := exists r, r ∈ readers log /\ rd_addr r = rd /\ reads log (r_off r) l.
Definition log_ok log : Prop := exists lh ls, views log lh ls.

Lemma pending_index log lh ls rd l : views log lh ls -> pending log rd l ->
  exists i r, readers log !! i = Some r /\ rd_addr r = rd /\ ls !! i = Some l.
Proof.
  intros [Hg _ Hrs _] (r & [i Hi]%list_elem_of_lookup & Hrd & Hr). exists i, r. split_and!; [done..|].
  destruct (Forall2_lookup_l _ _ _ _ _ Hrs Hi) as (l0 & Hl0 & Hr0). by rewrite (reads_unique _ _ _ _ Hg Hr Hr0).
Qed.
Lemma index_pending log lh ls i rd l : views log lh ls -> (rd_addr <$> readers log) !! i = Some rd -> ls !! i = Some l ->
  pending log rd l.
Proof.
  intros [Hg _ Hrs _] Hrd Hl. rewrite list_lookup_fmap in Hrd.
  destruct (readers log !! i) as [r|] eqn:Hi; [|done]. injection Hrd as <-. exists r. split_and!; [|done|].
  - by eapply list_elem_of_lookup_2. - exact (Forall2_lookup_lr _ _ _ _ _ _ Hrs Hi Hl).
Qed.

Inductive event := Wrote (es : list (list Z)) | Got (rd : Z) (es : list (list Z)).

(** Writes of readable segments, writes that fail, reads, flushes and new readers.
    The offset that a write had read before it took the mutex does not matter
    unless the write fails; a failing write is one that no other writer overtook
    between the two, so that it resets the log to the offset it has. *)
Inductive log_step log : event -> logger_log -> Prop :=
  | step_write orig h iov res log' : Forall readable iov -> 0 < iov_total iov ->
      logger_aio_write orig h iov (iov_total iov) log = Some (res, log') ->
      log_step log (Wrote [header h res ++ take (Z.to_nat res) (payload iov)]) log'
  | step_fault h iov res log' : Forall (λ seg, 0 <= iov_len seg) iov -> 0 < iov_total iov -> res < 0 ->
      logger_aio_write (w_off log) h iov (iov_total iov) log = Some (res, log') -> log_step log (Wrote []) log'
  | step_read rd count room nb sp ret data log' :
      logger_read rd count room nb sp log = Some (Returns ret data, log') ->
      log_step log (Got rd (if ret <? 0 then [] else [data])) log'
  | step_flush f log' : logger_ioctl f LOGGER_FLUSH_LOG log = Some (0, log') -> log_step log (Wrote []) log'
  | step_open rd f ret log' : rd ∉ rd_addr <$> readers log ->
      logger_open true (Some rd) f log = Some (ret, log') -> log_step log (Wrote []) log'.

Inductive log_run : logger_log -> list event -> logger_log -> Prop :=
  | run_nil log : log_run log [] log
  | run_cons log ev log1 tr log' : log_step log ev log1 -> log_run log1 tr log' -> log_run log (ev :: tr) log'.

Definition written (tr : list event) : list (list Z) := ev ← tr; match ev with Wrote es => es | _ => [] end.
Definition delivered (rd : Z) (tr : list event) : list (list Z) :=
  ev ← tr; match ev with Got rd' es => if rd' =? rd then es else [] | _ => [] end.

Lemma survive_sublist N n l : sublist (survive N n l) l.
Proof.
  unfold survive. destruct (_ <=? _); [|done]. destruct (skip_suffix n l) as [k ->]. apply sublist_drop.
Qed.

Lemma readable_nonneg iov : Forall readable iov -> Forall (λ seg, 0 <= iov_len seg) iov.
Proof. intros H. eapply Forall_impl; [exact H|]. unfold readable. intros seg ->. lia. Qed.

(** What happened to the reader [rd] in one step. *)
Definition kept_order (rd : Z) l (ev : event) l' : Prop := sublist (delivered rd [ev] ++ l') (l ++ written [ev]).

Lemma write_step log lh ls rd l h iov res log' : views log lh ls -> pending log rd l ->
  Forall (λ seg, 0 <= iov_len seg) iov -> 0 < iov_total iov ->
  logger_aio_write (w_off log) h iov (iov_total iov) log = Some (res, log') ->
  log_ok log' /\ exists l', pending log' rd l' /\
    (res < 0 -> kept_order rd l (Wrote []) l') /\
    (Forall readable iov -> kept_order rd l (Wrote [header h res ++ take (Z.to_nat res) (payload iov)]) l').
Proof.
  intros Hv Hp Hiov Hpos Hrun. destruct (pending_index _ _ _ _ _ Hv Hp) as (i & r & Hi & Hrd & Hl).
  destruct (write_run log lh ls h iov Hv Hiov) as (log2 & res2 & Hrun2 & Ea & _ & Hcase);
    [unfold LOGGER_ENTRY_MAX_PAYLOAD, LOGGER_ENTRY_MAX_LEN, sizeof_entry; lia|].
  rewrite Hrun in Hrun2. injection Hrun2 as <- <-. unfold kept_order.
  assert ((rd_addr <$> readers log') !! i = Some rd) as Hi' by (by rewrite Ea, list_lookup_fmap, Hi, <-Hrd).
  destruct Hcase as [(-> & Hnr & Hv')|(-> & p & Ep & Hp' & Hv')]; (split; [by eexists _, _|]).
  - eexists. split; [eapply index_pending; [done..|]; by rewrite list_lookup_fmap, Hl|]. cbn. rewrite app_nil_r.
    split; [intros _; apply survive_sublist|done].
  - eexists. split; [eapply index_pending; [done..|]; by rewrite list_lookup_fmap, Hl|]. cbn. split.
    + unfold LOGGER_ENTRY_MAX_PAYLOAD, LOGGER_ENTRY_MAX_LEN, sizeof_entry. lia.
    + intros Hrd'. rewrite (Hp' Hrd'). apply sublist_app; [apply survive_sublist|done].
Qed.

(** A write that does not fail does not use the offset it had read without the mutex. *)
Lemma write_segs_orig orig orig' hlen iov : forall ret log res log', 0 <= res ->
  write_segs orig hlen iov ret log = Some (res, log') -> write_segs orig' hlen iov ret log = Some (res, log').
Proof.
  induction iov as [|seg iov IH]; intros ret log res log' Hres H; [done|]. cbn [write_segs] in H |- *.
  apply bind_inv in H as (nr & log1 & H1 & H). erewrite bind_run by exact H1.
  destruct (Z.ltb_spec nr 0); [|by apply IH]. cbn in H. injection H as <- _. lia.
Qed.
Lemma logger_aio_write_orig orig orig' h iov n log res log' : 0 <= res ->
  logger_aio_write orig h iov n log = Some (res, log') -> logger_aio_write orig' h iov n log = Some (res, log').
Proof.
  intros Hres H. unfold logger_aio_write in *. destruct (_ =? 0); [done|].
  apply bind_inv in H as (x1 & log1 & H1 & H). erewrite bind_run by exact H1.
  apply bind_inv in H as (x2 & log2 & H2 & H). erewrite bind_run by exact H2. by eapply write_segs_orig.
Qed.
Lemma readable_write_orig log lh ls orig h iov res log' : views log lh ls -> Forall readable iov -> 0 < iov_total iov ->
  logger_aio_write orig h iov (iov_total iov) log = Some (res, log') ->
  logger_aio_write (w_off log) h iov (iov_total iov) log = Some (res, log').
Proof.
  intros Hv Hrd Hpos Hrun. destruct (write_run log lh ls h iov Hv (readable_nonneg _ Hrd)) as (log2 & res2 & H2 & _ & _ & Hcase);
    [unfold LOGGER_ENTRY_MAX_PAYLOAD, LOGGER_ENTRY_MAX_LEN, sizeof_entry; lia|].
  destruct Hcase as [(_ & Hnr & _)|(-> & _)]; [done|]. rewrite <-Hrun, H2. symmetry. eapply logger_aio_write_orig; [|exact H2].
  unfold LOGGER_ENTRY_MAX_PAYLOAD, LOGGER_ENTRY_MAX_LEN, sizeof_entry; lia.
Qed.

Lemma get_reader_index log lh ls rd r log1 : views log lh ls -> get_reader rd log = Some (r, log1) ->
  log1 = log /\ rd_addr r = rd /\ exists i l, readers log !! i = Some r /\ ls !! i = Some l.
Proof.
  intros [_ _ Hrs _] Hg. unfold get_reader in Hg. destruct (filter _ _) as [|r0 k] eqn:E; [done|]. injection Hg as <- <-.
  assert (r0 ∈ r0 :: k) as Hin by set_solver +. rewrite <-E, list_elem_of_filter in Hin. destruct Hin as [Hrd [i Hi]%list_elem_of_lookup].
  destruct (Forall2_lookup_l _ _ _ _ _ Hrs Hi) as (l & Hl & _). split_and!; [done..|]. by exists i, l.
Qed.

Lemma read_step log lh ls rd l rd' count room nb sp ret data log' : views log lh ls -> pending log rd l ->
  logger_read rd' count room nb sp log = Some (Returns ret data, log') ->
  log_ok log' /\ exists l', pending log' rd l' /\ kept_order rd l (Got rd' (if ret <? 0 then [] else [data])) l'.
Proof.
  intros Hv Hp Hrun. destruct (pending_index _ _ _ _ _ Hv Hp) as (i & r & Hi & <- & Hl).
  assert (exists r' log1, get_reader rd' log = Some (r', log1)) as (r' & log1 & Hg).
  { unfold logger_read, logger_read_wait in Hrun. rewrite bind_assoc in Hrun. erewrite bind_run in Hrun by done.
    rewrite bind_assoc in Hrun. apply bind_inv in Hrun as (r' & log1 & Hg & _). eauto. }
  destruct (get_reader_index _ _ _ _ _ _ Hv Hg) as (-> & <- & j & l2 & Hj & Hl2).
  destruct (read_run log lh ls j r' l2 count room nb sp Hv Hj Hl2) as (log2 & Hrun2 & Ea & Hv2).
  rewrite Hrun in Hrun2. injection Hrun2 as Hout <-. split; [by eexists _, _|].
  assert ((rd_addr <$> readers log') !! i = Some (rd_addr r)) as Hi' by (by rewrite Ea, list_lookup_fmap, Hi).
  unfold kept_order. cbn. rewrite !app_nil_r. destruct (decide (i = j)) as [<-|Hij].
  - rewrite Hi in Hj. injection Hj as <-. rewrite Hl in Hl2. injection Hl2 as <-. rewrite Z.eqb_refl.
    eexists. split; [eapply index_pending; [done..|]; apply list_lookup_insert_eq; by apply lookup_lt_Some in Hl|].
    revert Hout. unfold read_outcome. destruct l as [|e l].
    + destruct nb, sp; cbn; try done; by intros [= -> ->].
    + destruct (count <? _); [by intros [= -> ->]|]. destruct (room <? _); [by intros [= -> ->]|]. cbn.
      intros [= -> ->]. by rewrite (proj2 (Z.ltb_ge _ 0)) by lia.
  - exists l. split; [eapply index_pending; [done..|]; by rewrite list_lookup_insert_ne|].
    rewrite (proj2 (Z.eqb_neq _ _)); [done|]. intros E. apply Hij.
    eapply (NoDup_lookup (rd_addr <$> readers log)); [apply Hv|..]; rewrite list_lookup_fmap.
    + by rewrite Hi. + rewrite Hj. cbn. congruence.
Qed.

Lemma flush_run log lh ls : views log lh ls ->
  views (set_head (w_off log) (set_readers ((λ r, Reader (rd_addr r) (w_off log)) <$> readers log) log)) [] ((λ _, []) <$> ls).
Proof.
  intros [Hg Hh Hrs Hnd]. set (log' := set_head _ _).
  assert (reads log' (w_off log) []) as Hr.
  { pose proof (holds_w _ _ _ Hg (proj1 Hh)). pose proof (geom_pos log Hg). split; [|done]. split; cbn; try done; try lia.
    rewrite Z.add_0_r. by apply Z.mod_small. }
  split; [by apply (geom_ext log)|done| |].
  - cbn. rewrite Forall2_fmap. eapply Forall2_impl; [exact Hrs|]. done.
  - cbn. rewrite <-list_fmap_compose. done.
Qed.

Lemma open_run log lh ls rd : views log lh ls -> rd ∉ rd_addr <$> readers log ->
  views (set_readers (readers log ++ [Reader rd (head log)]) log) lh (ls ++ [lh]).
Proof.
  intros [Hg Hh Hrs Hnd] Hni. split; cbn.
  - by apply (geom_ext log).
  - by apply (reads_ext log).
  - apply Forall2_app; [|constructor; [by apply (reads_ext log)|done]].
    eapply Forall2_impl; [exact Hrs|]. intros r l Hr. by apply (reads_ext log).
  - rewrite fmap_app. apply NoDup_app. split_and!; [done| |apply NoDup_singleton]. cbn. set_solver +Hni.
Qed.

Lemma log_step_ok log ev log' rd l : log_ok log -> pending log rd l -> log_step log ev log' ->
  log_ok log' /\ exists l', pending log' rd l' /\ kept_order rd l ev l'.
Proof.
  intros (lh & ls & Hv) Hp Hs.
  destruct Hs as [orig h iov res log' Hrd Hpos Hrun|h iov res log' Hn Hpos Hres Hrun|rd' count room nb sp ret data log' Hrun|f log' Hrun|rd' f ret log' Hni Hrun].
  - apply (readable_write_orig _ _ _ _ _ _ _ _ Hv Hrd Hpos) in Hrun.
    destruct (write_step _ _ _ _ _ _ _ _ _ Hv Hp (readable_nonneg _ Hrd) Hpos Hrun) as (Hok & l' & Hp' & _ & H). eauto.
  - destruct (write_step _ _ _ _ _ _ _ _ _ Hv Hp Hn Hpos Hrun) as (Hok & l' & Hp' & H & _). eauto.
  - by eapply read_step.
  - unfold logger_ioctl in Hrun. erewrite bind_run in Hrun by done. destruct (f_write f); [|done]. cbn in Hrun.
    injection Hrun as <-. pose proof (flush_run _ _ _ Hv) as Hv'. split; [by eexists _, _|].
    destruct (pending_index _ _ _ _ _ Hv Hp) as (i & r & Hi & <- & Hl). exists []. split; [|apply sublist_nil_l].
    eapply (index_pending _ _ _ i); [exact Hv'| |by rewrite list_lookup_fmap, Hl].
    cbn. by rewrite <-list_fmap_compose, list_lookup_fmap, Hi.
  - unfold logger_open in Hrun. cbn [negb] in Hrun. unfold kept_order. cbn. rewrite app_nil_r.
    destruct (f_read f); [|injection Hrun as _ <-; split; [by eexists _, _|by exists l]].
    injection Hrun as _ <-. pose proof (open_run _ _ _ _ Hv Hni) as Hv'. split; [by eexists _, _|]. exists l. split; [|done].
    destruct (pending_index _ _ _ _ _ Hv Hp) as (i & r & Hi & <- & Hl).
    eapply (index_pending _ _ _ i); [exact Hv'| |by apply lookup_app_l_Some].
    cbn. rewrite fmap_app. apply lookup_app_l_Some. by rewrite list_lookup_fmap, Hi.
Qed.

(** ** The claims *)
(** a write of readable segments never fails.  It stores one entry, the header
    and the payload cut at [LOGGER_ENTRY_MAX_PAYLOAD] bytes, and returns the number
    of payload bytes.  Every reader (and the start position of new readers) then
    has the new entry after the entries it had before, of which the oldest are
    gone only if the write lapped it. *)
Theorem logger_aio_write_correct log lh ls h iov : views log lh ls -> Forall readable iov -> 0 < iov_total iov ->
  let hlen := Z.min (iov_total iov) LOGGER_ENTRY_MAX_PAYLOAD in
  let e := header h hlen ++ take (Z.to_nat hlen) (payload iov) in
  let keep l := survive (size log) (sizeof_entry + hlen) l ++ [e] in
  exists log', logger_aio_write (w_off log) h iov (iov_total iov) log = Some (hlen, log') /\
    rd_addr <$> readers log' = rd_addr <$> readers log /\ views log' (keep lh) (keep <$> ls).
Proof.
  intros Hv Hrd Hpos hlen e keep. destruct (write_run log lh ls h iov Hv (readable_nonneg _ Hrd)) as (log' & res & Hrun & Ea & _ & Hcase);
    [unfold LOGGER_ENTRY_MAX_PAYLOAD, LOGGER_ENTRY_MAX_LEN, sizeof_entry; lia|].
  destruct Hcase as [(_ & Hnr & _)|(-> & p & _ & Hp & Hv')]; [done|]. exists log'. split_and!; [done..|].
  rewrite (Hp Hrd) in Hv'. exact Hv'.
Qed.

(** a write that faults half-way, whatever it has already stored, returns
    [-EFAULT] and leaves a consistent log: every reader still has complete entries
    only, those it had before without the ones the write would have lapped. *)
Theorem logger_aio_write_fault log lh ls h iov log' res : views log lh ls -> Forall (λ seg, 0 <= iov_len seg) iov ->
  0 < iov_total iov -> logger_aio_write (w_off log) h iov (iov_total iov) log = Some (res, log') -> res < 0 ->
  let keep l := survive (size log) (sizeof_entry + Z.min (iov_total iov) LOGGER_ENTRY_MAX_PAYLOAD) l in
  res = - EFAULT /\ views log' (keep lh) (keep <$> ls).
Proof.
  intros Hv Hiov Hpos Hrun Hres keep. destruct (write_run log lh ls h iov Hv Hiov) as (log2 & res2 & Hrun2 & _ & _ & Hcase);
    [unfold LOGGER_ENTRY_MAX_PAYLOAD, LOGGER_ENTRY_MAX_LEN, sizeof_entry; lia|].
  rewrite Hrun in Hrun2. injection Hrun2 as <- <-. destruct Hcase as [(-> & _ & Hv')|(-> & _)]; [done|].
  unfold LOGGER_ENTRY_MAX_PAYLOAD, LOGGER_ENTRY_MAX_LEN, sizeof_entry in Hres. lia.
Qed.

(** [logger_read] delivers exactly the oldest entry of the reader and steps over it;
    it changes nothing when the buffer is too small or cannot be written, and
    blocks, or returns [-EAGAIN] or [-EINTR], when there is no entry.  Other
    readers are not affected. *)
Theorem logger_read_correct log lh ls i r l count room nonblock signal_pending :
  views log lh ls -> readers log !! i = Some r -> ls !! i = Some l ->
  let out := read_outcome l count room nonblock signal_pending in
  exists log', logger_read (rd_addr r) count room nonblock signal_pending log = Some (out.1, log') /\
    views log' lh (<[i := out.2]> ls).
Proof.
  intros Hv Hi Hl out. destruct (read_run log lh ls i r l count room nonblock signal_pending Hv Hi Hl) as (log' & ? & _ & ?). eauto.
Qed.

(** C25: over any run of writes of readable segments (whatever offset they had read
    before they took the mutex), failing writes that no other writer overtook
    between reading the offset and taking the mutex, reads of any readers, flushes
    and new readers, what a reader gets, followed by what it still has to read, is
    a subsequence of what it had to read at the start followed by what was written:
    no entry is invented, torn, repeated or reordered.  A failing write that was
    overtaken is the case of [logger_aio_write_stale]. *)
Theorem logger_fifo log tr log' rd l : log_ok log -> pending log rd l -> log_run log tr log' ->
  log_ok log' /\ exists l', pending log' rd l' /\ sublist (delivered rd tr ++ l') (l ++ written tr).
Proof.
  intros Hok Hp Hrun. revert l Hok Hp. induction Hrun as [log|log ev log1 tr log' Hs _ IH]; intros l Hok Hp.
  { split; [done|]. exists l. split; [done|]. cbn. by rewrite app_nil_r. }
  destruct (log_step_ok _ _ _ _ _ Hok Hp Hs) as (Hok1 & l1 & Hp1 & H1). destruct (IH l1 Hok1 Hp1) as (Hok' & l' & Hp' & H').
  split; [done|]. exists l'. split; [done|]. unfold kept_order in H1.
  change (ev :: tr) with ([ev] ++ tr). unfold delivered, written in *. rewrite !bind_app, <-app_assoc.
  etrans; [apply sublist_app; [reflexivity|exact H']|]. rewrite app_assoc, (app_assoc l). by apply sublist_app.
Qed.

(** [LOGGER_GET_LOG_LEN] and [LOGGER_GET_NEXT_ENTRY_LEN] return the number of bytes
    the reader has to read and the size of its next entry (0 without one), and
    [LOGGER_FLUSH_LOG] leaves nothing to read for anyone. *)
Theorem logger_ioctl_correct log lh ls i r l f :
  views log lh ls -> readers log !! i = Some r -> ls !! i = Some l -> private_data f = rd_addr r ->
  f_read f = true -> f_write f = true ->
  logger_ioctl f LOGGER_GET_LOG_LEN log = Some (blen l, log) /\
  logger_ioctl f LOGGER_GET_NEXT_ENTRY_LEN log = Some (match l with [] => 0 | e :: _ => Z.of_nat (length e) end, log) /\
  exists log', logger_ioctl f LOGGER_FLUSH_LOG log = Some (0, log') /\ views log' [] ((λ _, []) <$> ls).
Proof.
  intros Hv Hi Hl Ep Er Ew. pose proof Hv as [Hg _ Hrs _]. pose proof (geom_pos log Hg).
  pose proof (Forall2_lookup_lr _ _ _ _ _ _ Hrs Hi Hl) as Hr. cbn in Hr.
  pose proof (holds_empty _ _ _ Hg (proj1 Hr)) as He. pose proof (holds_w _ _ _ Hg (proj1 Hr)) as Hw.
  pose proof (holds_dist _ _ _ Hg (proj1 Hr)) as Hd. pose proof Hr as [[Ho _ _ Hroom] _].
  unfold logger_ioctl. rewrite Er, Ew. cbn [negb]. split_and!.
  - erewrite bind_run by done. rewrite Ep. erewrite bind_run by (by eapply get_reader_run). unfold mret, M_ret. do 2 f_equal.
    unfold blen. rewrite !u32_small by (rewrite ?u32_small by lia; lia).
    assert ((r_off r - w_off log) mod size log = if r_off r <? w_off log then r_off r - w_off log + size log else r_off r - w_off log) as E.
    { destruct (Z.ltb_spec (r_off r) (w_off log)); [|apply Z.mod_small; lia]. symmetry. apply (Z.mod_unique_pos _ _ (-1)); lia. }
    rewrite E in Hd. destruct (Nat.eqb_spec (length (concat l)) 0), (Z.ltb_spec (r_off r) (w_off log)), (Z.geb_spec (w_off log) (r_off r)); lia.
  - erewrite bind_run by done. rewrite Ep. erewrite bind_run by (by eapply get_reader_run). rewrite He.
    destruct l as [|e l]; [done|].
    assert (length (concat (e :: l)) =? 0 = false)%nat as ->.
    { destruct Hr as [_ Hok]. apply Forall_cons in Hok as [(b0 & b1 & rest & -> & _) _]. done. }
    by eapply get_entry_len_run.
  - eexists. split; [done|]. by eapply flush_run.
Qed.

(** C40: [logger_aio_write] reads the write offset it would restore before it takes the
    mutex.  If another write happened in between and the write faults, the write
    head goes back to the stale offset: a reader that had read everything is then
    told that there are bytes to read, although it has no entry. *)
Theorem logger_aio_write_stale log lh ls i r orig h n f :
  views log lh ls -> readers log !! i = Some r -> ls !! i = Some [] -> 0 <= orig < size log -> orig <> w_off log ->
  0 < n -> f_read f = true -> private_data f = rd_addr r ->
  exists log' m, logger_aio_write orig h [Iov n []] n log = Some (- EFAULT, log') /\
    w_off log' = orig /\ readers log' !! i = Some r /\
    logger_ioctl f LOGGER_GET_LOG_LEN log' = Some (m, log') /\ 0 < m < size log.
Proof.
  intros Hv Hi Hl Ho Hne Hn Hf Hp. pose proof Hv as [Hg Hh Hrs Hnd]. pose proof (geom_pos log Hg).
  pose proof (holds_w _ _ _ Hg (proj1 Hh)) as Hw.
  set (hlen := Z.min n LOGGER_ENTRY_MAX_PAYLOAD). set (k := sizeof_entry + hlen).
  assert (k = 20 + hlen /\ 0 < hlen <= 4076 /\ 8192 <= size log) as (Ek & Hmax & H8).
  { pose proof (g_two log Hg). unfold k, hlen, LOGGER_ENTRY_MAX_PAYLOAD, sizeof_entry, LOGGER_ENTRY_MAX_LEN in *. lia. }
  destruct (fix_up_readers_run log lh ls k Hv) as (log1 & Hfix & _ & Ew & Es & _ & Ea & Hv1); [lia..|].
  pose proof Hv1 as [Hg1 _ Hrs1 Hnd1].
  destruct (do_write_log_run log1 (header h hlen) Hg1) as (log2 & Hwh & Hwr2 & Hw2); [lia|change (length (header h hlen)) with 20%nat; lia|].
  pose proof (wrote_geom _ _ _ _ Hwr2 Hg1) as Hg2. pose proof Hwr2 as [Es2 _ _ Er2 _].
  destruct (from_user_run log2 (Iov n []) hlen Hg2) as (log3 & nr & Hseg & Hres); [rewrite Hw2, Es2; apply Z.mod_pos_bound; lia|lia|].
  rewrite (proj2 (Z.leb_gt _ _)) in Hres by (cbn; lia). destruct Hres as (-> & _ & bs & _ & [Es3 _ _ Er3 _]).
  assert (readers log1 !! i = Some r) as Hi1.
  { destruct (Forall2_lookup_r _ _ _ i [] Hrs1) as (r1 & Hi1 & Hr1).
    { rewrite list_lookup_fmap, Hl. cbn. f_equal. unfold survive. by destruct (_ <=? _). }
    assert (rd_addr r1 = rd_addr r) as Ea1.
    { apply (f_equal (λ a, a !! i)) in Ea. rewrite !list_lookup_fmap, Hi1, Hi in Ea. by injection Ea. }
    pose proof (holds_empty _ _ _ Hg1 (proj1 Hr1)) as He1.
    pose proof (holds_empty _ _ _ Hg (proj1 (Forall2_lookup_lr _ _ _ _ _ _ Hrs Hi Hl))) as He. cbn in He, He1.
    rewrite Hi1. destruct r as [a o], r1 as [a1 o1]. cbn in *. do 2 f_equal; lia. }
  exists (set_w_off orig log3). eexists. split; [|split; [|split; [|split]]].
  - unfold logger_aio_write. cbv zeta. fold hlen. assert (u16 hlen = hlen) as -> by (unfold u16; apply Z.mod_small; lia).
    rewrite (proj2 (Z.eqb_neq hlen 0)) by lia. unfold sizeof_entry. rewrite u32_small, <-Ek by lia.
    erewrite bind_run by exact Hfix. erewrite bind_run by exact Hwh.
    cbn [write_segs]. rewrite u32_small by lia. change (iov_len (Iov n [])) with n.
    replace (Z.min n (hlen - 0)) with hlen by (unfold hlen; lia). by erewrite bind_run by exact Hseg.
  - done.
  - cbn. by rewrite Er3, Er2.
  - unfold logger_ioctl. erewrite bind_run by done. rewrite Hf. cbn [negb].
    erewrite bind_run. 2:{ rewrite Hp. unfold get_reader. cbn. rewrite Er3, Er2.
      destruct (reader_lookup _ _ _ Hnd1 Hi1) as [-> _]. done. }
    done.
  - pose proof (holds_empty _ _ _ Hg (proj1 (Forall2_lookup_lr _ _ _ _ _ _ Hrs Hi Hl))) as He. cbn in He.
    assert (r_off r = w_off log) as -> by lia. cbn. rewrite Es3, Es2, Es.
    rewrite !u32_small by (rewrite ?u32_small by lia; lia). destruct (Z.geb_spec orig (w_off log)); lia.
Qed.

(** ** A concrete log *)
(** A log of two pages with one entry and one reader that has not read it. *)
Definition demo_hdr : logger_entry := Entry 0 0 7 7 100 5.
Definition demo_e : list Z := header demo_hdr 3 ++ [65; 66; 67].
Definition demo_log : logger_log :=
  Log (demo_e ++ replicate (8192 - 23) 0) [Reader 500 0; Reader 600 23] 23 0 8192 [].

Lemma demo_views : views demo_log [demo_e] [[demo_e]; []].
Proof.
  assert (geom demo_log) as Hg.
  { split; [exists 13; split; [lia|reflexivity]|vm_compute; discriminate|vm_compute; reflexivity|vm_compute; reflexivity]. }
  assert (reads demo_log 0 [demo_e]) as Hr.
  { split; [split; [cbn; lia|vm_compute; reflexivity..]|]. constructor; [|constructor].
    apply header_ok; [vm_compute; split; [reflexivity|discriminate]|reflexivity]. }
  split; [done|done| |].
  - constructor; [exact Hr|]. constructor; [|constructor]. split; [split; [cbn; lia|vm_compute; reflexivity..]|constructor].
  - apply (bool_decide_unpack _). vm_compute. exact I.
Qed.

Definition demo_iov : list iovec := [Iov 2 [33; 64]; Iov 1 [90]].

Lemma logger_aio_write_witness :
  exists log', logger_aio_write 23 demo_hdr demo_iov 3 demo_log = Some (3, log') /\
    views log' [demo_e; header demo_hdr 3 ++ [33; 64; 90]]
      [[demo_e; header demo_hdr 3 ++ [33; 64; 90]]; [header demo_hdr 3 ++ [33; 64; 90]]].
Proof.
  destruct (logger_aio_write_correct demo_log [demo_e] [[demo_e]; []] demo_hdr demo_iov demo_views) as (log' & H1 & _ & H3);
    [repeat constructor|vm_compute; reflexivity|]. exists log'. split; [exact H1|exact H3].
Defined.

Definition demo_bad : list iovec := [Iov 2 [33; 64]; Iov 1 []].
Lemma logger_aio_write_fault_witness :
  exists log', logger_aio_write 23 demo_hdr demo_bad 3 demo_log = Some (- EFAULT, log') /\ views log' [demo_e] [[demo_e]; []].
Proof.
  destruct (logger_aio_write 23 demo_hdr demo_bad 3 demo_log) as [[res log']|] eqn:E; [|vm_compute in E; discriminate].
  destruct (logger_aio_write_fault demo_log [demo_e] [[demo_e]; []] demo_hdr demo_bad log' res demo_views) as [-> Hv].
  - repeat constructor; vm_compute; discriminate.
  - reflexivity.
  - exact E.
  - vm_compute in E. injection E as <- _. reflexivity.
  - exists log'. split; [reflexivity|exact Hv].
Defined.

Lemma logger_read_witness :
  exists log', logger_read 500 4096 4096 false false demo_log = Some (Returns 23 demo_e, log') /\ views log' [demo_e] [[]; []].
Proof.
  exact (logger_read_correct demo_log [demo_e] [[demo_e]; []] 0%nat (Reader 500 0) [demo_e] 4096 4096 false false
    demo_views eq_refl eq_refl).
Defined.

Definition demo_after : logger_log :=
  match logger_aio_write 23 demo_hdr demo_iov 3 demo_log with Some (_, l) => l | None => demo_log end.
Lemma logger_fifo_witness :
  log_ok demo_after /\ exists l', pending demo_after 500 l' /\ sublist l' [demo_e; header demo_hdr 3 ++ [33; 64; 90]].
Proof.
  apply (logger_fifo demo_log [Wrote [header demo_hdr 3 ++ [33; 64; 90]]] demo_after 500 [demo_e]).
  - exists [demo_e], [[demo_e]; []]. exact demo_views.
  - exists (Reader 500 0). split_and!; [set_solver +|reflexivity|]. exact (v_head _ _ _ demo_views).
  - apply (run_cons _ _ demo_after [] demo_after); [|constructor].
    apply (step_write demo_log 9 demo_hdr demo_iov 3 demo_after); [repeat constructor|reflexivity|].
    vm_compute. reflexivity.
Defined.

Lemma logger_ioctl_witness :
  logger_ioctl (File true true 500) LOGGER_GET_LOG_LEN demo_log = Some (23, demo_log) /\
  logger_ioctl (File true true 500) LOGGER_GET_NEXT_ENTRY_LEN demo_log = Some (23, demo_log).
Proof.
  destruct (logger_ioctl_correct demo_log [demo_e] [[demo_e]; []] 0%nat (Reader 500 0) [demo_e] (File true true 500)
    demo_views eq_refl eq_refl eq_refl eq_refl eq_refl) as (H1 & H2 & _). split; [exact H1|exact H2].
Defined.

Lemma logger_aio_write_stale_witness :
  exists log' m, logger_aio_write 0 demo_hdr [Iov 5 []] 5 demo_log = Some (- EFAULT, log') /\
    w_off log' = 0 /\ readers log' !! 1%nat = Some (Reader 600 23) /\
    logger_ioctl (File true false 600) LOGGER_GET_LOG_LEN log' = Some (m, log') /\ 0 < m < 8192.
Proof.
  apply (logger_aio_write_stale demo_log [demo_e] [[demo_e]; []] 1%nat (Reader 600 23) 0 demo_hdr 5 (File true false 600)
    demo_views); try reflexivity; [split; [discriminate|reflexivity]|discriminate].
Defined.
End Logger.
