(* ===== verification/Ashmem.v ===== *)
(** * Anonymous shared memory: pages

    mm/ashmem.c: an area is a shmem file with a list of unpinned ranges of pages,
    in descending order; every range that has not been purged is also on one
    global list, in the order of unpinning, from which the shrinker takes pages
    back.  The two lists run through different nodes of a range, [unpinned] and
    [lru], and are two memories of list nodes here; a node has the address of its
    range, and the node [unpinned_list] of an area has the address of the area.
    The sections under [ashmem_mutex] are the operations.  This file has the state,
    the operations on ranges, pinning, unpinning and the shrinker; AshmemDev.v has the
    file operations. *)
From stdpp Require Import prelude gmap list sorting.
From Stdlib Require Import ZArith Lia ZifyBool.
From S2P Require Import Prelude ListHead ListHeap.
Open Scope Z_scope.

Module Ashmem.

(** ** Data *)
Definition ASHMEM_NAME_LEN : Z := 256.
(** The bytes of "dev/ashmem/" and of "dev/ashmem" with its terminating NUL. *)
Definition ASHMEM_NAME_PREFIX : list Z := [100; 101; 118; 47; 97; 115; 104; 109; 101; 109; 47].
Definition ASHMEM_NAME_DEF : list Z := [100; 101; 118; 47; 97; 115; 104; 109; 101; 109; 0].
Definition ASHMEM_NAME_PREFIX_LEN : Z := Z.of_nat (length ASHMEM_NAME_PREFIX).
Definition ASHMEM_FULL_NAME_LEN : Z := ASHMEM_NAME_LEN + ASHMEM_NAME_PREFIX_LEN.

Definition ASHMEM_NOT_PURGED : Z := 0.
Definition ASHMEM_WAS_PURGED : Z := 1.
Definition ASHMEM_IS_UNPINNED : Z := 0.
Definition ASHMEM_IS_PINNED : Z := 1.

Definition PROT_READ : Z := 1.
Definition PROT_WRITE : Z := 2.
Definition PROT_EXEC : Z := 4.
Definition VM_READ : Z := 1.
Definition VM_WRITE : Z := 2.
Definition VM_EXEC : Z := 4.
Definition VM_SHARED : Z := 8.
Definition VM_MAYREAD : Z := 16.
Definition VM_MAYWRITE : Z := 32.
Definition VM_MAYEXEC : Z := 64.
Definition VM_CAN_NONLINEAR : Z := 2 ^ 27.
Definition READ_IMPLIES_EXEC : Z := 2 ^ 22.
Definition __GFP_FS : Z := 128.
Definition GFP_KERNEL : Z := Z.lor 16 (Z.lor 64 __GFP_FS).

Definition PAGE_SHIFT : Z := 12.
Definition PAGE_SIZE : Z := Z.shiftl 1 PAGE_SHIFT.
Definition PAGE_MASK : Z := u32 (Z.lnot (PAGE_SIZE - 1)).
Definition PAGE_ALIGN (addr : Z) : Z := Z.land (u32 (addr + (PAGE_SIZE - 1))) (u32 (Z.lnot (PAGE_SIZE - 1))).

(** The backing file of an area: its position and its reference count. *)
Record file := File { f_pos : Z; f_count : Z }.
(** [vm_ops] tells whether the operations of the mapping are [shmem_vm_ops]. *)
Record vm_area_struct := Vma { vm_flags : Z; vm_file : option Z; vm_ops : bool }.

Record ashmem_area := Area {
  name : list Z;
  area_file : option Z;
  size_ : Z;
  prot_mask : Z;
}.

Record ashmem_range := Range {
  asma : Z;
  pgstart : Z;
  pgend : Z;
  purged : Z;
}.

(** All of ashmem.  [truncated] records the calls of [vmtruncate_range]: the
    file, the first and the last byte. *)
Record ashmem := Ash {
  areas : gmap Z ashmem_area;
  ranges : gmap Z ashmem_range;
  unpinned : mem;
  lru : mem;
  lru_count : Z;
  files : gmap Z file;
  truncated : list (Z * Z * Z);
}.
Abbreviation AM := (M ashmem).

(** The address of the node [ashmem_lru_list]; no range is at address 0. *)
Definition ashmem_lru_list : Z := 0.

Definition set_areas v s := Ash v (ranges s) (unpinned s) (lru s) (lru_count s) (files s) (truncated s).
Definition set_ranges v s := Ash (areas s) v (unpinned s) (lru s) (lru_count s) (files s) (truncated s).
Definition set_unpinned v s := Ash (areas s) (ranges s) v (lru s) (lru_count s) (files s) (truncated s).
Definition set_lru v s := Ash (areas s) (ranges s) (unpinned s) v (lru_count s) (files s) (truncated s).
Definition set_lru_count v s := Ash (areas s) (ranges s) (unpinned s) (lru s) v (files s) (truncated s).
Definition set_files v s := Ash (areas s) (ranges s) (unpinned s) (lru s) (lru_count s) v (truncated s).
Definition add_truncated v s :=
  Ash (areas s) (ranges s) (unpinned s) (lru s) (lru_count s) (files s) (truncated s ++ [v]).

Definition on_unpinned {A} (m : M mem A) : AM A := λ s,
  match m (unpinned s) with Some (a, v) => Some (a, set_unpinned v s) | None => None end.
Definition on_lru {A} (m : M mem A) : AM A := λ s,
  match m (lru s) with Some (a, v) => Some (a, set_lru v s) | None => None end.
Definition get_range (range : Z) : AM ashmem_range := λ s, r ← ranges s !! range; Some (r, s).
Definition put_range (range : Z) (r : ashmem_range) : AM unit := modify (λ s, set_ranges (<[range := r]> (ranges s)) s).
Definition get_area (a : Z) : AM ashmem_area := λ s, r ← areas s !! a; Some (r, s).
Definition put_area (a : Z) (ar : ashmem_area) : AM unit := modify (λ s, set_areas (<[a := ar]> (areas s)) s).
Definition get_backing (f : Z) : AM file := λ s, r ← files s !! f; Some (r, s).
Definition put_backing (f : Z) (b : file) : AM unit := modify (λ s, set_files (<[f := b]> (files s)) s).

(** ** Ranges *)
Definition range_size (r : ashmem_range) : Z := u32 (pgend r - pgstart r + 1).
Definition range_on_lru (r : ashmem_range) : bool := purged r =? ASHMEM_NOT_PURGED.
Definition page_range_subsumes_range (r : ashmem_range) (start end_ : Z) : bool :=
  (start <=? pgstart r) && (pgend r <=? end_).
Definition page_range_subsumed_by_range (r : ashmem_range) (start end_ : Z) : bool :=
  (pgstart r <=? start) && (end_ <=? pgend r).
Definition page_in_range (r : ashmem_range) (page : Z) : bool := (pgstart r <=? page) && (page <=? pgend r).
Definition page_range_in_range (r : ashmem_range) (start end_ : Z) : bool :=
  page_in_range r start || page_in_range r end_ || page_range_subsumes_range r start end_.
Definition range_before_page (r : ashmem_range) (page : Z) : bool := pgend r <? page.
Definition PROT_MASK : Z := Z.lor PROT_EXEC (Z.lor PROT_READ PROT_WRITE).

Definition lru_add (range : Z) : AM unit :=
  on_lru (list_add_tail range ashmem_lru_list) ;;
  r ← get_range range;
  modify (λ s, set_lru_count (u32 (lru_count s + range_size r)) s).

Definition lru_del (range : Z) : AM unit :=
  on_lru (list_del range) ;;
  r ← get_range range;
  modify (λ s, set_lru_count (u32 (lru_count s - range_size r)) s).

(** [kmem_cache_zalloc] and [kmem_cache_free] of a range: both list nodes come
    and go with it. *)
Definition zalloc_range (range : Z) : AM unit := modify (λ s,
  set_ranges (<[range := Range 0 0 0 0]> (ranges s))
    (set_unpinned (<[range := ListHead 0 0]> (unpinned s)) (set_lru (<[range := ListHead 0 0]> (lru s)) s))).
Definition free_range (range : Z) : AM unit := modify (λ s,
  set_ranges (delete range (ranges s)) (set_unpinned (delete range (unpinned s)) (set_lru (delete range (lru s)) s))).

(** [alloc] is what the slab allocator returns. *)
Definition range_alloc (asma prev_range purged start end_ : Z) (alloc : option Z) : AM Z :=
  match alloc with
  | None => mret (- ENOMEM)
  | Some range =>
      zalloc_range range ;;
      let r := Range asma start end_ purged in
      put_range range r ;;
      on_unpinned (list_add_tail range prev_range) ;;
      (if range_on_lru r then lru_add range else mret tt) ;;
      mret 0
  end.

Definition range_del (range : Z) : AM unit :=
  on_unpinned (list_del range) ;;
  r ← get_range range;
  (if range_on_lru r then lru_del range else mret tt) ;;
  free_range range.

Definition range_shrink (range start end_ : Z) : AM unit :=
  r ← get_range range;
  let pre := range_size r in
  let r' := Range (asma r) start end_ (purged r) in
  put_range range r' ;;
  if range_on_lru r' then modify (λ s, set_lru_count (u32 (lru_count s - u32 (pre - range_size r'))) s) else mret tt.

(** ** The shrinker *)
Fixpoint shrink_walk (fuel : nat) (range nr_to_scan : Z) : AM unit :=
  match fuel with
  | O => oops
  | S fuel =>
      if range =? ashmem_lru_list then mret tt
      else
        next ← on_lru (get_next range);
        r ← get_range range;
        ar ← get_area (asma r);
        match area_file ar with
        | None => oops
        | Some f =>
            let start := u32 (pgstart r * PAGE_SIZE) in
            let end_ := u32 (u32 (pgend r + 1) * PAGE_SIZE - 1) in
            modify (add_truncated (f, start, end_)) ;;
            put_range range (Range (asma r) (pgstart r) (pgend r) ASHMEM_WAS_PURGED) ;;
            lru_del range ;;
            let nr_to_scan := s32 (nr_to_scan - range_size r) in
            if nr_to_scan <=? 0 then mret tt else shrink_walk fuel next nr_to_scan
        end
  end.

Definition ashmem_shrink (nr_to_scan gfp_mask : Z) : AM Z :=
  if negb (nr_to_scan =? 0) && (Z.land gfp_mask __GFP_FS =? 0) then mret (-1)
  else if nr_to_scan =? 0 then s ← get; mret (s32 (lru_count s))
  else
    s ← get;
    first ← on_lru (get_next ashmem_lru_list);
    shrink_walk (S (size (ranges s))) first nr_to_scan ;;
    s' ← get; mret (s32 (lru_count s')).

(** ** Pinning *)
Fixpoint pin_walk (fuel : nat) (a range pgstart_ pgend_ : Z) (alloc : option Z) (ret : Z) : AM Z :=
  match fuel with
  | O => oops
  | S fuel =>
      if range =? a then mret ret
      else
        next ← on_unpinned (get_next range);
        r ← get_range range;
        if range_before_page r pgstart_ then mret ret
        else if page_range_in_range r pgstart_ pgend_ then
          let ret := Z.lor ret (purged r) in
          if page_range_subsumes_range r pgstart_ pgend_ then
            range_del range ;; pin_walk fuel a next pgstart_ pgend_ alloc ret
          else if pgstart_ <=? pgstart r then
            range_shrink range (u32 (pgend_ + 1)) (pgend r) ;; pin_walk fuel a next pgstart_ pgend_ alloc ret
          else if pgend r <=? pgend_ then
            range_shrink range (pgstart r) (u32 (pgstart_ - 1)) ;; pin_walk fuel a next pgstart_ pgend_ alloc ret
          else
            range_alloc a range (purged r) (u32 (pgend_ + 1)) (pgend r) alloc ;;
            range_shrink range (pgstart r) (u32 (pgstart_ - 1)) ;;
            mret ret
        else pin_walk fuel a next pgstart_ pgend_ alloc ret
  end.

Definition ashmem_pin (a pgstart_ pgend_ : Z) (alloc : option Z) : AM Z :=
  s ← get;
  first ← on_unpinned (get_next a);
  pin_walk (S (size (ranges s))) a first pgstart_ pgend_ alloc ASHMEM_NOT_PURGED.

(** One pass of the loop of [ashmem_unpin]: it returns from the function, ends at
    the insertion point, or finds a range to merge with. *)
Inductive unpin_scan := Covered | Insert (range : Z) | Overlap (range : Z).

Fixpoint unpin_walk (fuel : nat) (a range pgstart_ pgend_ : Z) : AM unpin_scan :=
  match fuel with
  | O => oops
  | S fuel =>
      if range =? a then mret (Insert range)
      else
        next ← on_unpinned (get_next range);
        r ← get_range range;
        if range_before_page r pgstart_ then mret (Insert range)
        else if page_range_subsumed_by_range r pgstart_ pgend_ then mret Covered
        else if page_range_in_range r pgstart_ pgend_ then mret (Overlap range)
        else unpin_walk fuel a next pgstart_ pgend_
  end.

Fixpoint unpin_restart (fuel : nat) (a pgstart_ pgend_ purged_ : Z) (alloc : option Z) : AM Z :=
  match fuel with
  | O => oops
  | S fuel =>
      s ← get;
      first ← on_unpinned (get_next a);
      sc ← unpin_walk (S (size (ranges s))) a first pgstart_ pgend_;
      match sc with
      | Covered => mret 0
      | Insert range => range_alloc a range purged_ pgstart_ pgend_ alloc
      | Overlap range =>
          r ← get_range range;
          range_del range ;;
          unpin_restart fuel a (Z.min (pgstart r) pgstart_) (Z.max (pgend r) pgend_) (Z.lor purged_ (purged r)) alloc
      end
  end.

Definition ashmem_unpin (a pgstart_ pgend_ : Z) (alloc : option Z) : AM Z :=
  s ← get; unpin_restart (S (size (ranges s))) a pgstart_ pgend_ ASHMEM_NOT_PURGED alloc.

Fixpoint status_walk (fuel : nat) (a range pgstart_ pgend_ : Z) : AM Z :=
  match fuel with
  | O => oops
  | S fuel =>
      if range =? a then mret ASHMEM_IS_PINNED
      else
        r ← get_range range;
        if range_before_page r pgstart_ then mret ASHMEM_IS_PINNED
        else if page_range_in_range r pgstart_ pgend_ then mret ASHMEM_IS_UNPINNED
        else next ← on_unpinned (get_next range); status_walk fuel a next pgstart_ pgend_
  end.

Definition ashmem_get_pin_status (a pgstart_ pgend_ : Z) : AM Z :=
  s ← get;
  first ← on_unpinned (get_next a);
  status_walk (S (size (ranges s))) a first pgstart_ pgend_.

(** ** The shape of the lists

    [U] gives the unpinned list of every area and [lr] the list of the ranges
    that can be purged, both as addresses of ranges. *)
Fixpoint pages (R : gmap Z ashmem_range) (l : list Z) : Z :=
  match l with [] => 0 | x :: l => match R !! x with Some r => range_size r | None => 0 end + pages R l end.

Record shape (s : ashmem) (U : heads) (lr : list Z) : Prop := {
  sh_unp : lrep (unpinned s) U;
  sh_lru : lrep (lru s) {[ashmem_lru_list := lr]};
  sh_heads : forall a, is_Some (areas s !! a) <-> is_Some (U !! a);
  sh_entries : forall x r, ranges s !! x = Some r -> exists l, U !! asma r = Some l /\ x ∈ l;
  sh_ranges : forall a l x, U !! a = Some l -> x ∈ l -> exists r, ranges s !! x = Some r /\ asma r = a;
  sh_on_lru : forall x, x ∈ lr <-> exists r, ranges s !! x = Some r /\ purged r = ASHMEM_NOT_PURGED;
  sh_count : lru_count s = u32 (pages (ranges s) lr);
  sh_file : forall x r, ranges s !! x = Some r ->
    exists ar f, areas s !! asma r = Some ar /\ area_file ar = Some f;
  sh_null : ranges s !! ashmem_lru_list = None;
}.

(** What the operations on ranges leave alone. *)
Definition same_files (s s' : ashmem) : Prop :=
  areas s' = areas s /\ files s' = files s /\ truncated s' = truncated s.
(** An address the allocator may return. *)
Definition fresh (s : ashmem) (x : Z) : Prop := unpinned s !! x = None /\ lru s !! x = None.

Implicit Types (s : ashmem) (U : heads) (lr l : list Z) (R : gmap Z ashmem_range) (r : ashmem_range) (rs : list ashmem_range).

Lemma pages_app R l1 l2 : pages R (l1 ++ l2) = pages R l1 + pages R l2.
Proof. induction l1 as [|x l1 IH]; cbn; [done|]. rewrite IH. lia. Qed.
Lemma pages_cons R x l r : R !! x = Some r -> pages R (x :: l) = range_size r + pages R l.
Proof. intros E. cbn. by rewrite E. Qed.
Lemma pages_ext R R' l : (forall x, x ∈ l -> R' !! x = R !! x) -> pages R' l = pages R l.
Proof.
  induction l as [|x l IH]; intros H; [done|]. cbn. rewrite H by set_solver +. rewrite IH; [done|].
  intros y Hy. apply H. set_solver +Hy.
Qed.
Lemma pages_middle R l1 x l2 r : R !! x = Some r -> pages R (l1 ++ x :: l2) = range_size r + pages R (l1 ++ l2).
Proof. intros E. rewrite !pages_app, (pages_cons _ _ _ _ E). lia. Qed.
(** A change of one range that is on the list once. *)
Lemma pages_insert R l1 x l2 r r' : NoDup (l1 ++ x :: l2) -> R !! x = Some r ->
  pages (<[x := r']> R) (l1 ++ x :: l2) = pages R (l1 ++ x :: l2) - range_size r + range_size r'.
Proof.
  intros Hn E. rewrite (pages_middle _ _ _ _ r' (lookup_insert_eq _ _ _)), (pages_middle _ _ _ _ _ E).
  rewrite (pages_ext R); [lia|]. intros y Hy. apply lookup_insert_ne. intros ->.
  rewrite <-Permutation_middle in Hn. by apply NoDup_cons in Hn as [? _].
Qed.

Lemma set_unpinned_same s : set_unpinned (unpinned s) s = s.
Proof. by destruct s. Qed.
Lemma set_lru_same s : set_lru (lru s) s = s.
Proof. by destruct s. Qed.
Lemma on_unpinned_run {A} (m : M mem A) s a v :
  m (unpinned s) = Some (a, v) -> on_unpinned m s = Some (a, set_unpinned v s).
Proof. intros E. unfold on_unpinned. by rewrite E. Qed.
Lemma on_unpinned_read {A} (m : M mem A) s a : m (unpinned s) = Some (a, unpinned s) -> on_unpinned m s = Some (a, s).
Proof. intros E. rewrite (on_unpinned_run _ _ _ _ E). by rewrite set_unpinned_same. Qed.
Lemma on_lru_run {A} (m : M mem A) s a v : m (lru s) = Some (a, v) -> on_lru m s = Some (a, set_lru v s).
Proof. intros E. unfold on_lru. by rewrite E. Qed.
Lemma on_lru_read {A} (m : M mem A) s a : m (lru s) = Some (a, lru s) -> on_lru m s = Some (a, s).
Proof. intros E. rewrite (on_lru_run _ _ _ _ E). by rewrite set_lru_same. Qed.
Lemma get_range_run s x r : ranges s !! x = Some r -> get_range x s = Some (r, s).
Proof. intros E. unfold get_range. by rewrite E. Qed.
Lemma get_area_run s a ar : areas s !! a = Some ar -> get_area a s = Some (ar, s).
Proof. intros E. unfold get_area. by rewrite E. Qed.

Lemma lru_nodup s U lr : shape s U lr -> NoDup (ashmem_lru_list :: lr).
Proof. intros H. eapply lrep_nodup; [exact (sh_lru _ _ _ H)|apply lookup_singleton_eq]. Qed.

Lemma lru_split s U lr x r : shape s U lr -> ranges s !! x = Some r -> range_on_lru r = true ->
  exists k1 k2, lr = k1 ++ x :: k2 /\ x ∉ k1 ++ k2.
Proof.
  intros H E Hr. pose proof (lru_nodup _ _ _ H) as Hn.
  assert (x ∈ lr) as Hx by (apply (sh_on_lru _ _ _ H); exists r; split; [done|unfold range_on_lru in Hr; lia]).
  apply list_elem_of_split in Hx as (k1 & k2 & ->). exists k1, k2. split; [done|].
  apply NoDup_cons in Hn as [_ Hn]. rewrite <-Permutation_middle in Hn. by apply NoDup_cons in Hn as [? _].
Qed.

(** [lru_del] of a range that is on the list. *)
Lemma lru_del_run s x r k1 k2 : lrep (lru s) {[ashmem_lru_list := k1 ++ x :: k2]} -> ranges s !! x = Some r ->
  exists v, lru_del x s = Some (tt, set_lru_count (u32 (lru_count s - range_size r)) (set_lru v s)) /\
    lrep v {[ashmem_lru_list := k1 ++ k2]} /\ (forall h, ~ own {[ashmem_lru_list := k1 ++ k2]} x h) /\
    forall y, lru s !! y = None -> v !! y = None.
Proof.
  intros Hl E. pose proof (lookup_singleton_eq (M := gmap Z) ashmem_lru_list (k1 ++ x :: k2)) as Es.
  destruct (heap_del _ _ _ k1 k2 x Hl Es) as (v & Hrun & Hl' & Hx & Hs).
  rewrite insert_singleton_eq in Hl', Hx. exists v. split_and!; [|done|done|by intros y; eapply heap_none]. unfold lru_del.
  erewrite bind_run by (by apply on_lru_run). by erewrite bind_run by (by apply get_range_run).
Qed.

(** ** The operations on ranges *)
Lemma range_del_run s U lr a l1 x l2 r : shape s U lr -> U !! a = Some (l1 ++ x :: l2) -> ranges s !! x = Some r ->
  exists s' lr', range_del x s = Some (tt, s') /\ shape s' (<[a := l1 ++ l2]> U) lr' /\
    ranges s' = delete x (ranges s) /\ same_files s s' /\ forall y, fresh s y -> fresh s' y.
Proof.
  intros H Hl Hx. pose proof H as [Hu Hlr Hh He Hr Hon Hc Hf Hz].
  pose proof (lrep_nodup _ _ _ _ Hu Hl) as Hn. rewrite app_comm_cons, <-Permutation_middle in Hn.
  apply NoDup_cons in Hn as [Hnx _].
  destruct (heap_del _ _ _ l1 l2 x Hu Hl) as (v & Hdel & Hu' & Hown & Hsv).
  assert (exists k w, (if range_on_lru r then lru_del x else mret tt) (set_unpinned v s) =
      Some (tt, set_lru_count (u32 (pages (ranges s) k)) (set_lru w (set_unpinned v s))) /\
      lrep w {[ashmem_lru_list := k]} /\ (forall h, ~ own {[ashmem_lru_list := k]} x h) /\
      (forall y, y ∈ k <-> y ∈ lr /\ y <> x) /\ (forall y, lru s !! y = None -> w !! y = None)) as (k & w & Hrun & Hw & Hwo & Hk & Hsw).
  { destruct (range_on_lru r) eqn:Hrl.
    - destruct (lru_split _ _ _ _ _ H Hx Hrl) as (k1 & k2 & -> & Hnk).
      destruct (lru_del_run (set_unpinned v s) x r k1 k2 Hlr Hx) as (w & Hrun & Hw & Hwo & Hsw).
      exists (k1 ++ k2), w. split_and!; [|done|done|set_solver +Hnk|done].
      rewrite Hrun. cbn. rewrite Hc, u32_sub_l, (pages_middle _ _ _ _ _ Hx). do 5 f_equal. lia.
    - assert (x ∉ lr) as Hxl.
      { intros (r' & Hr' & Hp)%Hon. simplify_eq. unfold range_on_lru in Hrl. lia. }
      assert (forall y, y ∈ lr <-> y ∈ lr /\ y <> x) as Hy by (intros y; split; [|tauto]; intros ?; split; [done|by intros ->]).
      exists lr, (lru s). split_and!; [|done| |done|done].
      + rewrite <-Hc. by destruct s.
      + intros h (l & E & Hq). apply lookup_singleton_Some in E as [<- <-]. apply elem_of_cons in Hq as [->|?]; [|done].
        by rewrite Hz in Hx. }
  eexists _, k. split_and!.
  - unfold range_del. erewrite bind_run by (by apply on_unpinned_run).
    erewrite bind_run by (by apply get_range_run). by erewrite bind_run by exact Hrun.
  - split; cbn.
    + by apply heap_free.
    + by apply heap_free.
    + intros b. rewrite Hh. destruct (decide (b = a)) as [->|]; [rewrite lookup_insert_eq, Hl; naive_solver|by rewrite lookup_insert_ne].
    + intros y ry [Hne Hy]%lookup_delete_Some. destruct (He _ _ Hy) as (l & El & Hyl).
      destruct (decide (asma ry = a)) as [Ea|]; [|exists l; by rewrite lookup_insert_ne].
      rewrite Ea in El |- *. rewrite Hl in El. injection El as <-. eexists. rewrite lookup_insert_eq. split; [done|set_solver +Hyl Hne].
    + intros b l y El Hy. assert (y <> x) as Hne.
      { intros ->. apply (Hown b). exists l. split; [done|set_solver +Hy]. }
      rewrite lookup_delete_ne by done. apply lookup_insert_Some in El as [[-> <-]|[_ El]]; [|by eapply Hr].
      eapply Hr; [exact Hl|set_solver +Hy].
    + intros y. rewrite Hk, Hon. split.
      * intros ((ry & Hy & Hp) & Hne). exists ry. by rewrite lookup_delete_ne.
      * intros (ry & [Hne Hy]%lookup_delete_Some & Hp). split; [eauto|done].
    + f_equal. symmetry. apply pages_ext. intros y [_ Hy]%Hk. by apply lookup_delete_ne.
    + intros y ry [_ Hy]%lookup_delete_Some. by eapply Hf.
    + rewrite lookup_delete_ne; [done|]. intros ->. by rewrite Hz in Hx.
  - done.
  - done.
  - intros y [F1 F2]. split; cbn; (destruct (decide (y = x)) as [->|]; [apply lookup_delete_eq|rewrite lookup_delete_ne by done]).
    + exact (heap_none _ _ _ _ _ _ Hu Hl Hsv F1). + by apply Hsw.
Qed.

Lemma range_shrink_run s U lr x r start end_ : shape s U lr -> ranges s !! x = Some r ->
  exists s', range_shrink x start end_ s = Some (tt, s') /\ shape s' U lr /\
    ranges s' = <[x := Range (asma r) start end_ (purged r)]> (ranges s) /\ same_files s s' /\ forall y, fresh s y -> fresh s' y.
Proof.
  intros H Hx. pose proof H as [Hu Hlr Hh He Hr Hon Hc Hf Hz]. set (r' := Range _ _ _ _).
  exists (set_lru_count (u32 (pages (<[x := r']> (ranges s)) lr)) (set_ranges (<[x := r']> (ranges s)) s)). split_and!; [|split; cbn|done|done|done].
  - unfold range_shrink. erewrite bind_run by (by apply get_range_run). fold r'. erewrite bind_run by done.
    destruct (range_on_lru r') eqn:Hrl.
    + destruct (lru_split _ _ _ _ _ H Hx Hrl) as (k1 & k2 & -> & Hnk). unfold modify. cbn. do 3 f_equal.
      pose proof (lru_nodup _ _ _ H) as [_ Hn]%NoDup_cons. rewrite Hc, (pages_insert _ _ _ _ _ _ Hn Hx), u32_sub_l, u32_sub_r. f_equal. lia.
    + unfold mret, M_ret. rewrite (pages_ext (ranges s)); [by rewrite <-Hc; destruct s|].
      intros y (ry & Hy & Hp)%Hon. apply lookup_insert_ne. intros ->. simplify_eq. unfold range_on_lru in Hrl. cbn in Hrl. lia.
  - done.
  - done.
  - done.
  - intros y ry [[<- <-]|[_ Hy]]%lookup_insert_Some; [exact (He x r Hx)|by apply He].
  - intros b l y El Hy. destruct (Hr _ _ _ El Hy) as (ry & Ey & Ha). destruct (decide (y = x)) as [->|Hne].
    + exists r'. rewrite lookup_insert_eq. split; [done|]. by simplify_eq.
    + exists ry. by rewrite lookup_insert_ne.
  - intros y. rewrite Hon. destruct (decide (y = x)) as [->|Hne].
    + rewrite lookup_insert_eq. split; intros (ry & Ey & Hp); simplify_eq; eexists; (split; [done|exact Hp]).
    + by rewrite lookup_insert_ne.
  - done.
  - intros y ry [[<- <-]|[_ Hy]]%lookup_insert_Some; [exact (Hf x r Hx)|by eapply Hf].
  - rewrite lookup_insert_ne; [done|]. intros ->. by rewrite Hz in Hx.
Qed.

Lemma shape_fresh s U lr x : shape s U lr -> fresh s x -> ranges s !! x = None /\ U !! x = None /\ x <> ashmem_lru_list.
Proof.
  intros H [Fu Fl]. pose proof (unowned_free _ _ _ (sh_unp _ _ _ H) Fu) as Hno. split_and!.
  - destruct (ranges s !! x) as [r|] eqn:E; [|done]. destruct (sh_entries _ _ _ H _ _ E) as (l & El & Hl).
    destruct (Hno (asma r)). exists l. set_solver +El Hl.
  - destruct (U !! x) as [l|] eqn:E; [|done]. destruct (Hno x). by eapply own_head.
  - intros ->. apply (unowned_free _ _ _ (sh_lru _ _ _ H) Fl ashmem_lru_list). eapply own_head, lookup_singleton_eq.
Qed.

Lemma range_alloc_run s U lr a l1 l2 pos B x p start end_ : shape s U lr -> U !! a = Some (l1 ++ l2) ->
  l2 ++ [a] = pos :: B -> fresh s x -> (exists ar f, areas s !! a = Some ar /\ area_file ar = Some f) ->
  exists s' lr', range_alloc a pos p start end_ (Some x) s = Some (0, s') /\ shape s' (<[a := l1 ++ x :: l2]> U) lr' /\
    ranges s' = <[x := Range a start end_ p]> (ranges s) /\ same_files s s'.
Proof.
  intros H Hl HB Hfr Hfile. pose proof H as [Hu Hlr Hh He Hr Hon Hc Hf Hz]. pose proof Hfr as [Fu Fl].
  destruct (shape_fresh _ _ _ _ H Hfr) as (Fr & Fh & Fz).
  pose proof (unowned_free _ _ _ Hu Fu) as Hno. pose proof (unowned_free _ _ _ Hlr Fl) as Hnl.
  set (r := Range a start end_ p). set (n0 := ListHead 0 0).
  destruct (heap_add_before (<[x := n0]> (unpinned s)) U a l1 l2 x pos B) as (v & Hadd & Hu' & _);
    [by apply heap_store|done|done|unfold allocated; rewrite lookup_insert_eq; eauto|done|].
  assert (forall l, x ∉ l -> pages (<[x := r]> (ranges s)) l = pages (ranges s) l) as Hpg.
  { intros l Hxl. apply pages_ext. intros y Hy. apply lookup_insert_ne. by intros ->. }
  assert (x ∉ lr) as Hxl. { intros (r' & Hr' & _)%Hon. by rewrite Fr in Hr'. }
  set (s1 := set_unpinned v (set_ranges (<[x := r]> (ranges s)) (set_lru (<[x := n0]> (lru s)) s))).
  assert (exists k w, (if range_on_lru r then lru_add x else mret tt) s1 =
      Some (tt, set_lru_count (u32 (pages (<[x := r]> (ranges s)) k)) (set_lru w s1)) /\
      lrep w {[ashmem_lru_list := k]} /\
      (forall y, y ∈ k <-> y ∈ lr \/ (y = x /\ p = ASHMEM_NOT_PURGED))) as (k & w & Hrun & Hw & Hk).
  { unfold range_on_lru. cbn [r purged]. destruct (Z.eqb_spec p ASHMEM_NOT_PURGED) as [Hp|Hp].
    - destruct (heap_add_before (<[x := n0]> (lru s)) {[ashmem_lru_list := lr]} ashmem_lru_list lr [] x ashmem_lru_list [])
        as (w & Hadd2 & Hw & _); [by apply heap_store|rewrite app_nil_r; apply lookup_singleton_eq|done|
          unfold allocated; rewrite lookup_insert_eq; eauto|done|].
      rewrite insert_singleton_eq in Hw. exists (lr ++ [x]), w. split_and!; [|done|set_solver +Hp].
      unfold lru_add. erewrite bind_run by (by apply on_lru_run).
      erewrite bind_run by (apply get_range_run; cbn; apply lookup_insert_eq). unfold modify. cbn. do 3 f_equal.
      rewrite Hc, u32_add_l, pages_app, Hpg by done. cbn. rewrite lookup_insert_eq. f_equal. lia.
    - exists lr, (<[x := n0]> (lru s)). split_and!; [|by apply heap_store|].
      + rewrite Hpg, <-Hc by done. done.
      + intros y. split; [by left|]. intros [?|[_ ?]]; done. }
  eexists _, k. split_and!.
  - unfold range_alloc. erewrite bind_run by done. erewrite bind_run by done. fold r.
    erewrite bind_run by (apply on_unpinned_run; exact Hadd). cbn. rewrite insert_insert_eq.
    erewrite bind_run by exact Hrun. done.
  - split; cbn.
    + exact Hu'.
    + exact Hw.
    + intros b. rewrite Hh. destruct (decide (b = a)) as [->|]; [rewrite lookup_insert_eq, Hl; naive_solver|by rewrite lookup_insert_ne].
    + intros y ry [[<- <-]|[Hne Hy]]%lookup_insert_Some; cbn.
      * eexists. rewrite lookup_insert_eq. split; [done|set_solver +].
      * destruct (He _ _ Hy) as (l & El & Hyl). destruct (decide (asma ry = a)) as [Ea|]; [|exists l; by rewrite lookup_insert_ne].
        rewrite Ea in El |- *. rewrite Hl in El. injection El as <-. eexists. rewrite lookup_insert_eq. split; [done|set_solver +Hyl].
    + intros b l y El Hy. destruct (decide (y = x)) as [->|Hne].
      * apply lookup_insert_Some in El as [[-> <-]|[_ El]]; [exists r; by rewrite lookup_insert_eq|].
        destruct (Hr _ _ _ El Hy) as (r' & Hr' & _). by rewrite Fr in Hr'.
      * rewrite lookup_insert_ne by done. apply lookup_insert_Some in El as [[-> <-]|[_ El]]; [|by eapply Hr].
        eapply Hr; [exact Hl|set_solver +Hy Hne].
    + intros y. rewrite Hk, Hon. destruct (decide (y = x)) as [->|Hne].
      * rewrite lookup_insert_eq, Fr. split; [intros [(? & ? & _)|[_ Hp]]; [done|exists r; done]|]. intros (? & [= <-] & Hp). by right.
      * rewrite lookup_insert_ne by done. split; [intros [?|[? _]]; done|by left].
    + done.
    + intros y ry [[<- <-]|[Hne Hy]]%lookup_insert_Some; [exact Hfile|by eapply Hf].
    + by rewrite lookup_insert_ne.
  - done.
  - done.
Qed.

(** ** Pinning and unpinning as operations on lists of ranges *)
Definition elems R l rs : Prop := Forall2 (λ x r, R !! x = Some r) l rs.

(** The pages of a range are a nonempty interval of an address space of 2^32 bytes. *)
Definition range_wf r : Prop :=
  0 <= pgstart r <= pgend r /\ pgend r < 2 ^ 20 /\ (purged r = ASHMEM_NOT_PURGED \/ purged r = ASHMEM_WAS_PURGED).

(** The four cases of [ashmem_pin]; [ok] tells whether a range can be allocated. *)
Fixpoint pin_list (ok : bool) (ps pe : Z) rs : list ashmem_range :=
  match rs with
  | [] => []
  | r :: rs' =>
      let upper := Range (asma r) (pe + 1) (pgend r) (purged r) in
      let lower := Range (asma r) (pgstart r) (ps - 1) (purged r) in
      if range_before_page r ps then rs
      else if page_range_in_range r ps pe then
        if page_range_subsumes_range r ps pe then pin_list ok ps pe rs'
        else if ps <=? pgstart r then upper :: pin_list ok ps pe rs'
        else if pgend r <=? pe then lower :: pin_list ok ps pe rs'
        else (if ok then [upper] else []) ++ lower :: rs'
      else r :: pin_list ok ps pe rs'
  end.

Fixpoint pin_ret (ps pe : Z) rs (ret : Z) : Z :=
  match rs with
  | [] => ret
  | r :: rs' =>
      if range_before_page r ps then ret
      else if page_range_in_range r ps pe then
        if page_range_subsumes_range r ps pe || (ps <=? pgstart r) || (pgend r <=? pe)
        then pin_ret ps pe rs' (Z.lor ret (purged r)) else Z.lor ret (purged r)
      else pin_ret ps pe rs' ret
  end.

(** From [s] to [s'], the part [l2] of the list of [a] after [l1] is replaced by a
    list of the ranges [out]; nothing else changes. *)
Definition rewrites s U a l1 l2 (alloc : option Z) rs s' : Prop :=
  exists l2' lr', shape s' (<[a := l1 ++ l2']> U) lr' /\ elems (ranges s') l2' rs /\
    (forall y, y ∉ l2 -> alloc <> Some y -> ranges s' !! y = ranges s !! y) /\ same_files s s'.

Lemma elems_ext R R' l rs : elems R l rs -> (forall x, x ∈ l -> R' !! x = R !! x) -> elems R' l rs.
Proof.
  intros H Hx. induction H as [|x r l rs E _ IH]; constructor; [rewrite Hx; [done|set_solver +]|].
  apply IH. intros y Hy. apply Hx. set_solver +Hy.
Qed.

Lemma same_files_trans s1 s2 s3 : same_files s1 s2 -> same_files s2 s3 -> same_files s1 s3.
Proof. intros (E1 & E2 & E3) (F1 & F2 & F3). unfold same_files. by rewrite F1, F2, F3. Qed.

Lemma rewrites_refl s U lr a l1 l2 alloc rs : shape s U lr -> U !! a = Some (l1 ++ l2) -> elems (ranges s) l2 rs ->
  rewrites s U a l1 l2 alloc rs s.
Proof. intros H E He. exists l2, lr. rewrite insert_id by done. done. Qed.

Lemma rewrites_keep s s1 U a l1 x l2 alloc r1 rs s' :
  x ∉ l2 -> alloc <> Some x -> same_files s s1 -> (forall y, y <> x -> ranges s1 !! y = ranges s !! y) ->
  ranges s1 !! x = Some r1 -> rewrites s1 U a (l1 ++ [x]) l2 alloc rs s' -> rewrites s U a l1 (x :: l2) alloc (r1 :: rs) s'.
Proof.
  intros Hx Ha Hs Hy Hr (l2' & lr' & Hsh & He & Hf & Hs'). exists (x :: l2'), lr'. split_and!.
  - by rewrite <-app_assoc in Hsh.
  - constructor; [by rewrite Hf|done].
  - intros y Hny Hay. rewrite Hf, Hy; [done|..]; set_solver +Hny Hay.
  - by eapply same_files_trans.
Qed.

Lemma rewrites_drop s s1 U a l1 x l2 l l0 alloc rs s' :
  same_files s s1 -> ranges s1 = delete x (ranges s) -> x :: l2 ⊆ l ->
  rewrites s1 (<[a := l0]> U) a l1 l2 alloc rs s' -> rewrites s U a l1 l alloc rs s'.
Proof.
  intros Hs Hr Hsub (l2' & lr' & Hsh & He & Hf & Hs'). exists l2', lr'. split_and!.
  - by rewrite insert_insert_eq in Hsh.
  - done.
  - intros y Hny Hay. rewrite Hf, Hr, lookup_delete_ne; [done|..]; set_solver +Hny Hay Hsub.
  - by eapply same_files_trans.
Qed.

Lemma list_entry s U lr a l1 x l2 : shape s U lr -> U !! a = Some (l1 ++ x :: l2) ->
  (x =? a) = false /\ x ∉ l2 /\ on_unpinned (get_next x) s = Some (hd a l2, s).
Proof.
  intros H E. split_and!.
  - apply Z.eqb_neq. exact (lrep_entry_head _ _ _ _ _ _ _ _ (sh_unp _ _ _ H) E E).
  - pose proof (lrep_nodup _ _ _ _ (sh_unp _ _ _ H) E) as [_ Hn]%NoDup_cons.
    apply NoDup_app in Hn as (_ & _ & [? _]%NoDup_cons). done.
  - apply on_unpinned_read. by eapply heap_next; [apply H|].
Qed.

Lemma range_alloc_maybe s U lr a l1 l2 pos B alloc p start end_ : shape s U lr -> U !! a = Some (l1 ++ l2) ->
  l2 ++ [a] = pos :: B -> (forall x, alloc = Some x -> fresh s x) ->
  (exists ar f, areas s !! a = Some ar /\ area_file ar = Some f) ->
  exists s1 l0 lr1, range_alloc a pos p start end_ alloc s =
      Some (if bool_decide (is_Some alloc) then 0 else - ENOMEM, s1) /\ shape s1 (<[a := l1 ++ l0 ++ l2]> U) lr1 /\
    (forall y, alloc <> Some y -> ranges s1 !! y = ranges s !! y) /\ same_files s s1 /\
    (forall y, y ∈ l0 -> alloc = Some y) /\
    elems (ranges s1) l0 (if bool_decide (is_Some alloc) then [Range a start end_ p] else []).
Proof.
  intros H E HB Hal Hfile. destruct alloc as [z|]; cbn [bool_decide].
  - destruct (range_alloc_run s U lr a l1 l2 pos B z p start end_ H E HB (Hal z eq_refl) Hfile)
      as (s1 & lr1 & Hrun & H1 & Hr1 & Hs1).
    exists s1, [z], lr1. split_and!; [done|done| |done| |].
    + intros y Hy. rewrite Hr1. apply lookup_insert_ne. congruence.
    + intros y ->%list_elem_of_singleton. done.
    + constructor; [|constructor]. by rewrite Hr1, lookup_insert_eq.
  - exists s, [], lr. split_and!; [done|by rewrite insert_id|done|done|set_solver +|constructor].
Qed.

Lemma pin_walk_run a ps pe alloc l2 : forall fuel s U lr l1 rs ret, shape s U lr -> U !! a = Some (l1 ++ l2) ->
  elems (ranges s) l2 rs -> Forall range_wf rs -> 0 <= ps <= pe -> pe < 2 ^ 20 ->
  (forall x, alloc = Some x -> fresh s x) -> (length l2 < fuel)%nat ->
  exists s', pin_walk fuel a (hd a l2) ps pe alloc ret s = Some (pin_ret ps pe rs ret, s') /\
    rewrites s U a l1 l2 alloc (pin_list (bool_decide (is_Some alloc)) ps pe rs) s'.
Proof.
  induction l2 as [|x l2 IH]; intros [|fuel] s U lr l1 rs ret H E He Hwf Hp Hpe Hal Hfuel; cbn in Hfuel; try lia;
    inversion He as [|x' r l' rs' Ex He' Ex1 Er]; subst; cbn [hd pin_walk pin_list pin_ret].
  { rewrite Z.eqb_refl. eexists. split; [done|by eapply rewrites_refl]. }
  destruct (list_entry _ _ _ _ _ _ _ H E) as (-> & Hxl & Hnext). apply Forall_cons in Hwf as [(Hw1 & Hw2 & _) Hwf].
  assert (alloc <> Some x) as Hax.
  { intros Hx. destruct (shape_fresh _ _ _ _ H (Hal _ Hx)) as [Hn _]. by rewrite Ex in Hn. }
  erewrite bind_run by exact Hnext. erewrite bind_run by (by apply get_range_run).
  destruct (range_before_page r ps) eqn:Hb. { eexists. split; [done|by eapply rewrites_refl]. }
  assert (forall s1 r1 ret1, shape s1 U lr -> same_files s s1 -> (forall y, y <> x -> ranges s1 !! y = ranges s !! y) ->
    ranges s1 !! x = Some r1 -> (forall y, fresh s y -> fresh s1 y) ->
    exists s', pin_walk fuel a (hd a l2) ps pe alloc ret1 s1 = Some (pin_ret ps pe rs' ret1, s') /\
      rewrites s U a l1 (x :: l2) alloc (r1 :: pin_list (bool_decide (is_Some alloc)) ps pe rs') s') as Hkeep.
  { intros s1 r1 ret1 H1 Hs1 Hy1 Hr1 Hf1.
    destruct (IH fuel s1 U lr (l1 ++ [x]) rs' ret1) as (s' & Hrun & Hrw); try done; [by rewrite <-app_assoc| | |lia|].
    - eapply elems_ext; [done|]. intros y Hy. apply Hy1. by intros ->.
    - intros y Hy. by apply Hf1, Hal.
    - exists s'. split; [done|]. by eapply rewrites_keep. }
  destruct (page_range_in_range r ps pe) eqn:Hin; [|by apply Hkeep].
  destruct (page_range_subsumes_range r ps pe) eqn:Hsub; [cbn [orb]|].
  { destruct (range_del_run _ _ _ _ _ _ _ _ H E Ex) as (s1 & lr1 & Hdel & H1 & Hr1 & Hs1 & Hf1).
    erewrite bind_run by exact Hdel.
    destruct (IH fuel s1 (<[a := l1 ++ l2]> U) lr1 l1 rs' (Z.lor ret (purged r))) as (s' & Hrun & Hrw);
      try done; [by rewrite lookup_insert_eq| | |lia|].
    - rewrite Hr1. eapply elems_ext; [done|]. intros y Hy. apply lookup_delete_ne. by intros ->.
    - intros y Hy. by apply Hf1, Hal.
    - exists s'. split; [done|]. by eapply (rewrites_drop _ _ _ _ _ x l2). }
  rewrite (u32_small (pe + 1)) by lia.
  assert (forall start end_ ret1, exists s', (range_shrink x start end_ ;; pin_walk fuel a (hd a l2) ps pe alloc ret1) s =
      Some (pin_ret ps pe rs' ret1, s') /\ rewrites s U a l1 (x :: l2) alloc
        (Range (asma r) start end_ (purged r) :: pin_list (bool_decide (is_Some alloc)) ps pe rs') s') as Hshrink.
  { intros start end_ ret1. destruct (range_shrink_run s U lr x r start end_ H Ex) as (s1 & Hrun & H1 & Hr1 & Hs1 & Hf1).
    erewrite bind_run by exact Hrun. eapply Hkeep; [done|done| |by rewrite Hr1, lookup_insert_eq|done].
    intros y Hy. rewrite Hr1. by apply lookup_insert_ne. }
  destruct (ps <=? pgstart r) eqn:Hlo; [apply Hshrink|]. rewrite (u32_small (ps - 1)) by lia.
  destruct (pgend r <=? pe) eqn:Hhi; [apply Hshrink|]. cbn [orb].
  destruct (sh_ranges _ _ _ H _ _ x E) as (r' & Er & Ea); [set_solver +|]. rewrite Ex in Er. injection Er as <-. rewrite Ea.
  destruct (range_alloc_maybe s U lr a l1 (x :: l2) x (l2 ++ [a]) alloc (purged r) (pe + 1) (pgend r))
    as (s1 & l0 & lr1 & Hrun & H1 & Hy1 & Hs1 & Hl0 & He0); [done|done|done|done|rewrite <-Ea; by eapply (sh_file _ _ _ H)|].
  assert (x ∉ l0) as Hx0 by (intros ?%Hl0; done).
  erewrite bind_run by exact Hrun.
  assert (ranges s1 !! x = Some r) as Ex1 by (by rewrite Hy1).
  destruct (range_shrink_run s1 _ lr1 x r (pgstart r) (ps - 1) H1 Ex1) as (s2 & Hrun2 & H2 & Hr2 & Hs2 & _).
  rewrite Ea in Hr2. erewrite bind_run by exact Hrun2. exists s2. split; [done|].
  exists (l0 ++ x :: l2), lr1. split_and!; [done| | |by eapply same_files_trans].
  - apply Forall2_app.
    + rewrite Hr2. eapply elems_ext; [exact He0|]. intros y Hy. apply lookup_insert_ne. by intros ->.
    + constructor; [by rewrite Hr2, lookup_insert_eq|]. rewrite Hr2. eapply elems_ext; [exact He'|]. intros y Hy.
      rewrite lookup_insert_ne by (by intros ->). apply Hy1. intros Hyz.
      destruct (shape_fresh _ _ _ _ H (Hal _ Hyz)) as [Hn _].
      destruct (sh_ranges _ _ _ H _ _ y E) as (? & Hy' & _); [set_solver +Hy|]. by rewrite Hn in Hy'.
  - intros y Hy Hay. rewrite Hr2, lookup_insert_ne by set_solver +Hy. by apply Hy1.
Qed.

(** *** Unpinning *)
Definition desc rs : Prop := StronglySorted (λ r1 r2, pgend r2 < pgstart r1) rs.
(** The page [pg] is in a range of [rs], with the purge mark [q]. *)
Definition has rs (pg q : Z) : Prop := exists r, r ∈ rs /\ pgstart r <= pg <= pgend r /\ purged r = q.
Definition covers rs (pg : Z) : Prop := exists r, r ∈ rs /\ pgstart r <= pg <= pgend r.

(** Where a pass of [ashmem_unpin] stops. *)
Definition scan_at (a ps pe : Z) (l : list Z) rs (sc : unpin_scan) : Prop :=
  match rs with
  | [] => l = [] /\ sc = Insert a
  | r :: _ => exists x l', l = x :: l' /\
      ((sc = Insert x /\ pgend r < ps) \/
       (sc = Covered /\ pgstart r <= ps /\ pe <= pgend r) \/
       (sc = Overlap x /\ pgstart r <= pe /\ ps <= pgend r /\ (ps < pgstart r \/ pgend r < pe)))
  end.

Lemma unpin_walk_run s U lr a ps pe l2 : forall fuel l1 rs, shape s U lr -> U !! a = Some (l1 ++ l2) ->
  elems (ranges s) l2 rs -> Forall range_wf rs -> 0 <= ps <= pe -> (length l2 < fuel)%nat ->
  exists k1 k2 rs1 rs2 sc, unpin_walk fuel a (hd a l2) ps pe s = Some (sc, s) /\ l2 = k1 ++ k2 /\ rs = rs1 ++ rs2 /\
    elems (ranges s) k1 rs1 /\ elems (ranges s) k2 rs2 /\ Forall (λ r, pe < pgstart r) rs1 /\ scan_at a ps pe k2 rs2 sc.
Proof.
  induction l2 as [|x l2 IH]; intros [|fuel] l1 rs H E He Hwf Hp Hfuel; cbn in Hfuel; try lia;
    inversion He as [|x' r l' rs' Ex He' Ex1 Er]; subst; cbn [hd unpin_walk].
  { rewrite Z.eqb_refl. eexists [], [], [], [], _. split_and!; try done; constructor. }
  destruct (list_entry _ _ _ _ _ _ _ H E) as (-> & Hxl & Hnext). apply Forall_cons in Hwf as [(Hw1 & Hw2 & _) Hwf].
  erewrite bind_run by exact Hnext. erewrite bind_run by (by apply get_range_run).
  assert (forall sc, scan_at a ps pe (x :: l2) (r :: rs') sc -> exists k1 k2 rs1 rs2 sc', Some (sc, s) = Some (sc', s) /\
    x :: l2 = k1 ++ k2 /\ r :: rs' = rs1 ++ rs2 /\ elems (ranges s) k1 rs1 /\ elems (ranges s) k2 rs2 /\
    Forall (λ r, pe < pgstart r) rs1 /\ scan_at a ps pe k2 rs2 sc') as Hstop.
  { intros sc Hsc. exists [], (x :: l2), [], (r :: rs'), sc. split_and!; try done; constructor. }
  unfold range_before_page, page_range_subsumed_by_range, page_range_in_range, page_in_range, page_range_subsumes_range.
  destruct (Z.ltb_spec (pgend r) ps) as [|Hb]; [apply Hstop; exists x, l2; split; [done|]; by left|].
  destruct (_ && _) eqn:Hc; [apply Hstop; exists x, l2; split; [done|]; right; left; split; [done|lia]|].
  destruct (_ || _) eqn:Ho; [apply Hstop; exists x, l2; split; [done|]; right; right; split; [done|lia]|].
  destruct (IH fuel (l1 ++ [x]) rs' H) as (k1 & k2 & rs1 & rs2 & sc & Hrun & -> & -> & He1 & He2 & Hlt & Hsc);
    [by rewrite <-app_assoc|done|done|done|lia|].
  exists (x :: k1), k2, (r :: rs1), rs2, sc. split_and!; try done; [by constructor|]. constructor; [lia|done].
Qed.

Lemma desc_app rs1 rs2 : desc (rs1 ++ rs2) <->
  desc rs1 /\ desc rs2 /\ forall r1 r2, r1 ∈ rs1 -> r2 ∈ rs2 -> pgend r2 < pgstart r1.
Proof.
  unfold desc. induction rs1 as [|r rs1 IH]; cbn.
  - split; [|tauto]. intros H. split_and!; [constructor|done|set_solver +].
  - split.
    + intros [H1 H2]%StronglySorted_inv. apply IH in H1 as (H1 & H3 & H4). rewrite Forall_app in H2. destruct H2 as [H2 H5].
      split_and!; [by constructor|done|]. intros r1 r2 [->|Hr1]%elem_of_cons Hr2; [|by apply H4].
      rewrite Forall_forall in H5. by apply H5.
    + intros ([H1 H2]%StronglySorted_inv & H3 & H4). constructor.
      * apply IH. split_and!; [done..|]. intros r1 r2 Hr1. apply H4. set_solver +Hr1.
      * apply Forall_app. split; [done|]. apply Forall_forall. intros r2 Hr2. apply H4; [set_solver +|done].
Qed.

(** The ranges of a list have no page in common. *)
Lemma desc_apart rs1 r rs2 r' : desc (rs1 ++ r :: rs2) -> r' ∈ rs1 ++ rs2 -> pgend r < pgstart r' \/ pgend r' < pgstart r.
Proof.
  intros (_ & [_ D2]%StronglySorted_inv & D3)%desc_app [Hr|Hr]%elem_of_app; [left; apply D3; [done|set_solver +]|right].
  rewrite Forall_forall in D2. by apply D2.
Qed.

(** What [ashmem_unpin] makes of the ranges [rs] of an area, when the pages from
    [ps] to [pe] are unpinned with the purge mark [p]. *)
Record unpins (ok : bool) (ps pe p : Z) rs rs' (ret : Z) : Prop := {
  up_desc : desc rs';
  up_wf : Forall range_wf rs';
  up_covers : ok = true -> ret = 0 /\ forall pg, covers rs' pg <-> covers rs pg \/ ps <= pg <= pe;
  up_purged : ok = true -> forall pg, has rs pg ASHMEM_WAS_PURGED \/ (p = ASHMEM_WAS_PURGED /\ ps <= pg <= pe) ->
    has rs' pg ASHMEM_WAS_PURGED;
  up_clean : p = ASHMEM_NOT_PURGED -> (forall pg, ps <= pg <= pe -> ~ has rs pg ASHMEM_WAS_PURGED) ->
    forall pg, has rs' pg ASHMEM_WAS_PURGED -> has rs pg ASHMEM_WAS_PURGED;
  up_fail : ok = false -> (forall pg, covers rs' pg -> covers rs pg) /\
    (ret = - ENOMEM \/ (ret = 0 /\ forall pg, ps <= pg <= pe -> covers rs' pg));
}.

Lemma has_middle rs1 r rs2 pg q : has (rs1 ++ r :: rs2) pg q <->
  has (rs1 ++ rs2) pg q \/ (pgstart r <= pg <= pgend r /\ purged r = q).
Proof.
  split.
  - intros (r0 & [H|[->|H]%elem_of_cons]%elem_of_app & Hpg); [left|by right|left]; exists r0; (split; [set_solver +H|done]).
  - intros [(r0 & H & Hpg)|Hpg]; [exists r0|exists r]; (split; [set_solver|done]).
Qed.
Lemma covers_middle rs1 r rs2 pg : covers (rs1 ++ r :: rs2) pg <-> covers (rs1 ++ rs2) pg \/ pgstart r <= pg <= pgend r.
Proof.
  split.
  - intros (r0 & [H|[->|H]%elem_of_cons]%elem_of_app & Hpg); [left|by right|left]; exists r0; (split; [set_solver +H|done]).
  - intros [(r0 & H & Hpg)|Hpg]; [exists r0|exists r]; (split; [set_solver|done]).
Qed.

Lemma unpins_covered ok ps pe p rs r : desc rs -> Forall range_wf rs -> r ∈ rs -> pgstart r <= ps -> pe <= pgend r ->
  p = ASHMEM_NOT_PURGED -> unpins ok ps pe p rs rs 0.
Proof.
  intros Hd Hw Hr H1 H2 ->. assert (forall pg, ps <= pg <= pe -> covers rs pg) as Hc.
  { intros pg Hpg. exists r. split; [done|lia]. }
  split; [done|done| | |done|].
  - intros _. split; [done|]. intros pg. split; [by left|]. intros [?|?]; [done|by apply Hc].
  - intros _ pg [?|[? _]]; done.
  - intros _. split; [done|]. right. done.
Qed.

(** No range of [rs] contains a page from [ps] to [pe]: a range is inserted there. *)
Lemma unpins_insert ok a ps pe p rs1 rs2 : desc (rs1 ++ rs2) -> Forall range_wf (rs1 ++ rs2) ->
  0 <= ps <= pe -> pe < 2 ^ 20 -> (p = ASHMEM_NOT_PURGED \/ p = ASHMEM_WAS_PURGED) ->
  Forall (λ r, pe < pgstart r) rs1 -> Forall (λ r, pgend r < ps) rs2 ->
  unpins ok ps pe p (rs1 ++ rs2) (rs1 ++ (if ok then [Range a ps pe p] else []) ++ rs2) (if ok then 0 else - ENOMEM).
Proof.
  intros Hd Hw Hps Hpe Hp H1 H2. rewrite Forall_app in Hw. destruct Hw as [Hw1 Hw2].
  assert (range_wf (Range a ps pe p)) as Hnew by (unfold range_wf; cbn; lia).
  destruct ok; cbn; split; try done.
  - apply desc_app in Hd as (D1 & D2 & D3). rewrite Forall_forall in H1, H2. apply desc_app. split_and!; [done| |].
    + constructor; [done|]. by apply Forall_forall.
    + intros r1 r2 Hr1 [->|Hr2]%elem_of_cons; [by apply H1|by apply D3].
  - by apply Forall_app_2, Forall_cons_2.
  - intros _. split; [done|]. intros pg. by rewrite covers_middle.
  - intros _ pg. rewrite has_middle. intros [?|[-> ?]]; [by left|by right].
  - intros -> _ pg. rewrite has_middle. intros [?|[_ ?]]; done.
  - by apply Forall_app_2.
  - intros _. split; [done|by left].
Qed.

(** A range that meets the interval is taken out and the interval grows by it. *)
Lemma unpins_merge ok ps pe p r rs1 rs2 rs' ret : desc (rs1 ++ r :: rs2) -> range_wf r -> ps <= pe ->
  pgstart r <= pe -> ps <= pgend r -> (p = ASHMEM_NOT_PURGED \/ p = ASHMEM_WAS_PURGED) ->
  unpins ok (Z.min (pgstart r) ps) (Z.max (pgend r) pe) (Z.lor p (purged r)) (rs1 ++ rs2) rs' ret ->
  unpins ok ps pe p (rs1 ++ r :: rs2) rs' ret.
Proof.
  intros Hd (Hr & _ & Hpr) Hps H1 H2 Hp [U1 U2 U3 U4 U5 U6].
  assert (forall pg, ps <= pg <= pe \/ pgstart r <= pg <= pgend r <->
    Z.min (pgstart r) ps <= pg <= Z.max (pgend r) pe) as Hhull by lia.
  assert (Z.lor p (purged r) = ASHMEM_WAS_PURGED <-> p = ASHMEM_WAS_PURGED \/ purged r = ASHMEM_WAS_PURGED) as Hor
    by (destruct Hp as [Hp|Hp], Hpr as [Hpr|Hpr]; rewrite Hp, Hpr; unfold ASHMEM_NOT_PURGED, ASHMEM_WAS_PURGED; rewrite ?Z.lor_0_l, ?Z.lor_0_r, ?Z.lor_diag; lia).
  assert (exists pg, ps <= pg <= pe /\ pgstart r <= pg <= pgend r) as (pg0 & Hpg0).
  { exists (Z.max ps (pgstart r)). lia. }
  split; [done|done|..].
  - intros Hok. destruct (U3 Hok) as [-> Hc]. split; [done|]. intros pg. rewrite Hc, covers_middle, <-Hhull. tauto.
  - intros Hok pg Hpg. apply (U4 Hok). rewrite has_middle in Hpg. rewrite Hor, <-Hhull. tauto.
  - intros Hp0 Hno pg Hpg.
    assert (purged r = ASHMEM_NOT_PURGED) as Hr0.
    { destruct Hpr as [|Hpr]; [done|]. destruct (Hno pg0); [lia|]. apply has_middle. right. tauto. }
    apply has_middle. left. apply U5; [by rewrite Hp0, Hr0| |done]. intros pg1 Hin Hh. apply Hhull in Hin as [Hin|Hin].
    + apply (Hno pg1 Hin). apply has_middle. by left.
    + destruct Hh as (r1 & Hr1 & Hpg1 & _). pose proof (desc_apart _ _ _ _ Hd Hr1). lia.
  - intros Hok. destruct (U6 Hok) as [Hc Hret]. split.
    + intros pg Hpg. apply covers_middle. left. by apply Hc.
    + destruct Hret as [?|[? Hall]]; [by left|right]. split; [done|]. intros pg Hpg. apply Hall, Hhull. by left.
Qed.

Lemma list_length s U lr a l : shape s U lr -> U !! a = Some l -> (length l <= size (ranges s))%nat.
Proof.
  intros H E. pose proof (lrep_nodup _ _ _ _ (sh_unp _ _ _ H) E) as [_ Hn]%NoDup_cons.
  rewrite <-(size_dom (ranges s)), <-(size_list_to_set (C := gset Z)) by done. apply subseteq_size.
  intros x Hx%elem_of_list_to_set. apply elem_of_dom. destruct (sh_ranges _ _ _ H _ _ _ E Hx) as (r & -> & _). eauto.
Qed.

Lemma list_first s U lr a l : shape s U lr -> U !! a = Some l -> on_unpinned (get_next a) s = Some (hd a l, s).
Proof. intros H E. apply on_unpinned_read. eapply heap_first; [apply H|done]. Qed.

Lemma unpin_insert_run s U lr a k1 k2 rs1 rs2 ps pe p alloc : shape s U lr -> U !! a = Some (k1 ++ k2) ->
  elems (ranges s) k1 rs1 -> elems (ranges s) k2 rs2 -> desc (rs1 ++ rs2) -> Forall range_wf (rs1 ++ rs2) ->
  0 <= ps <= pe -> pe < 2 ^ 20 -> (p = ASHMEM_NOT_PURGED \/ p = ASHMEM_WAS_PURGED) ->
  (forall x, alloc = Some x -> fresh s x) -> (exists ar f, areas s !! a = Some ar /\ area_file ar = Some f) ->
  Forall (λ r, pe < pgstart r) rs1 -> Forall (λ r, pgend r < ps) rs2 ->
  let ok := bool_decide (is_Some alloc) in
  let rs' := rs1 ++ (if ok then [Range a ps pe p] else []) ++ rs2 in
  let ret := if ok then 0 else - ENOMEM in
  exists s', range_alloc a (hd a k2) p ps pe alloc s = Some (ret, s') /\
    rewrites s U a [] (k1 ++ k2) alloc rs' s' /\ unpins ok ps pe p (rs1 ++ rs2) rs' ret.
Proof.
  intros H E He1 He2 Hd Hw Hps Hpe Hp Hal Hfile Hlt H2 ok rs' ret.
  assert (exists B, k2 ++ [a] = hd a k2 :: B) as [B HB] by (destruct k2; eexists; done).
  destruct (range_alloc_maybe s U lr a k1 k2 _ B alloc p ps pe H E HB Hal Hfile)
    as (s1 & l0 & lr1 & Hrun1 & H1 & Hy1 & Hs1 & Hl0 & He0).
  assert (forall l rs, elems (ranges s) l rs -> elems (ranges s1) l rs) as Hkeep.
  { intros l' rs0 He'. eapply elems_ext; [done|]. intros y Hy. apply Hy1. intros Hyz.
    destruct (shape_fresh _ _ _ _ H (Hal _ Hyz)) as [Hn _]. apply list_elem_of_lookup in Hy as [i Hi].
    destruct (Forall2_lookup_l _ _ _ _ _ He' Hi) as (? & _ & Hyr). by rewrite Hn in Hyr. }
  exists s1. split_and!; [exact Hrun1| |by apply (unpins_insert _ a)].
  exists (k1 ++ l0 ++ k2), lr1. split_and!; [done| |by auto|done].
  apply Forall2_app; [by apply Hkeep|]. apply Forall2_app; [done|by apply Hkeep].
Qed.

Lemma unpin_restart_run a alloc : forall fuel s U lr l rs ps pe p, shape s U lr -> U !! a = Some l ->
  elems (ranges s) l rs -> desc rs -> Forall range_wf rs -> 0 <= ps <= pe -> pe < 2 ^ 20 ->
  (p = ASHMEM_NOT_PURGED \/ p = ASHMEM_WAS_PURGED) ->
  (p = ASHMEM_NOT_PURGED \/ forall r, r ∈ rs -> ~ (pgstart r <= ps /\ pe <= pgend r)) ->
  (forall x, alloc = Some x -> fresh s x) -> (exists ar f, areas s !! a = Some ar /\ area_file ar = Some f) ->
  (length l < fuel)%nat ->
  exists s' ret rs', unpin_restart fuel a ps pe p alloc s = Some (ret, s') /\ rewrites s U a [] l alloc rs' s' /\
    unpins (bool_decide (is_Some alloc)) ps pe p rs rs' ret.
Proof.
  induction fuel as [|fuel IH]; intros s U lr l rs ps pe p H E He Hd Hwf Hp Hpe Hpu Hcov Hal Hfile Hfuel; [lia|].
  cbn [unpin_restart]. erewrite bind_run by done. erewrite bind_run by (by eapply list_first).
  pose proof (list_length _ _ _ _ _ H E) as Hlen.
  destruct (unpin_walk_run s U lr a ps pe l (S (size (ranges s))) [] rs H E He Hwf Hp) as
    (k1 & k2 & rs1 & rs2 & sc & Hrun & -> & -> & He1 & He2 & Hlt & Hsc); [lia|].
  erewrite bind_run by exact Hrun.
  assert (Forall (λ r, pgend r < ps) rs2 -> exists s' ret rs', range_alloc a (hd a k2) p ps pe alloc s = Some (ret, s') /\
    rewrites s U a [] (k1 ++ k2) alloc rs' s' /\ unpins (bool_decide (is_Some alloc)) ps pe p (rs1 ++ rs2) rs' ret) as Hins.
  { intros H2. edestruct (unpin_insert_run s U lr a k1 k2 rs1 rs2 ps pe p alloc) as (s' & ?); eauto. }
  destruct rs2 as [|r rs2]; cbn in Hsc.
  { destruct Hsc as [-> ->]. by apply Hins. }
  destruct Hsc as (x & k3 & -> & [[-> Hb]|[(-> & Hc1 & Hc2)|(-> & Ho1 & Ho2 & Ho3)]]).
  - apply Hins. apply desc_app in Hd as (_ & [_ D2]%StronglySorted_inv & _).
    rewrite Forall_app, Forall_cons in Hwf. destruct Hwf as (_ & (? & _) & _).
    constructor; [done|]. eapply Forall_impl; [exact D2|]. cbn. lia.
  - eexists s, 0, (rs1 ++ r :: rs2). split_and!; [done|by eapply rewrites_refl|].
    eapply (unpins_covered _ _ _ _ _ r); try done; [set_solver +|]. destruct Hcov as [|Hcov]; [done|].
    destruct (Hcov r); [set_solver +|lia].
  - inversion He2 as [|x' r' l' rs' Ex He3]; subst. erewrite bind_run by (by apply get_range_run).
    destruct (range_del_run _ _ _ _ _ _ _ _ H E Ex) as (s1 & lr1 & Hdel & H1 & Hr1 & Hs1 & Hf1).
    erewrite bind_run by exact Hdel. rewrite Forall_app, Forall_cons in Hwf. destruct Hwf as (Hw1 & Hwr & Hw2).
    pose proof Hwr as (Hr0 & Hr2 & Hrp). rewrite length_app in Hfuel. cbn in Hfuel.
    pose proof (lrep_nodup _ _ _ _ (sh_unp _ _ _ H) E) as [_ Hn]%NoDup_cons. rewrite <-Permutation_middle in Hn.
    apply NoDup_cons in Hn as [Hn _].
    destruct (IH s1 (<[a := k1 ++ k3]> U) lr1 (k1 ++ k3) (rs1 ++ rs2) (Z.min (pgstart r) ps) (Z.max (pgend r) pe)
      (Z.lor p (purged r))) as (s' & ret & rs' & Hrun' & Hrw & Hup).
    + done. + by rewrite lookup_insert_eq.
    + rewrite Hr1. apply (elems_ext (ranges s)); [by apply Forall2_app|]. intros y Hy. apply lookup_delete_ne. by intros ->.
    + apply desc_app in Hd as (D1 & [D2 _]%StronglySorted_inv & D3). apply desc_app. split_and!; [done..|].
      intros r1 r2 Hr1' Hr2'. apply D3; [done|set_solver +Hr2'].
    + by apply Forall_app_2. + lia. + lia.
    + destruct Hpu as [-> | ->], Hrp as [-> | ->]; vm_compute; tauto.
    + right. intros r' Hr'. pose proof (desc_apart _ _ _ _ Hd Hr'). lia.
    + intros y Hy. by apply Hf1, Hal.
    + destruct Hs1 as (-> & _ & _). done.
    + rewrite length_app. lia.
    + exists s', ret, rs'. split_and!; [done| |eapply unpins_merge; [exact Hd|done|lia|lia|lia|done|exact Hup]].
      eapply (rewrites_drop s s1 U a [] x (k1 ++ k3)); [done|done|set_solver +|exact Hrw].
Qed.

(** *** What pinning does to the pages *)
Lemma has_cons r rs pg q : has (r :: rs) pg q <-> (pgstart r <= pg <= pgend r /\ purged r = q) \/ has rs pg q.
Proof. pose proof (has_middle [] r rs pg q). cbn in *. tauto. Qed.
Lemma has_nil pg q : ~ has [] pg q.
Proof. intros (r & Hr & _). set_solver +Hr. Qed.

(** The pages of the ranges after [r] are below it. *)
Lemma desc_below r rs pg q : desc (r :: rs) -> has rs pg q -> pg < pgstart r.
Proof.
  intros [_ D]%StronglySorted_inv (r' & Hr' & Hpg & _). rewrite Forall_forall in D. specialize (D r' Hr'). cbn in D. lia.
Qed.

Ltac range_cases :=
  unfold range_before_page, page_range_in_range, page_range_subsumes_range, page_in_range in *;
  repeat match goal with |- context [if ?b then _ else _] => destruct b eqn:? end.

Lemma pin_list_has ok ps pe rs pg q : ps <= pe -> desc rs -> Forall range_wf rs ->
  (has (pin_list ok ps pe rs) pg q -> has rs pg q /\ ~ (ps <= pg <= pe)) /\
  (ok = true -> has rs pg q -> ~ (ps <= pg <= pe) -> has (pin_list ok ps pe rs) pg q).
Proof.
  intros Hp. induction rs as [|r rs IH]; intros Hd Hw; [split; [by intros ?%has_nil|done]|].
  pose proof (desc_below r rs pg q Hd) as Hlow.
  apply StronglySorted_inv in Hd as [Hd _]. apply Forall_cons in Hw as [(Hr & _) Hw].
  destruct (IH Hd Hw) as [I1 I2]. cbn [pin_list]. rewrite (has_cons r rs).
  range_cases; cbn [app]; rewrite ?has_cons; cbn [pgstart pgend purged];
    (split; [|intros Hok; try discriminate Hok]); intuition lia.
Qed.

(** Without memory, the pages that are lost are those of the upper half of a range that had to be split. *)
Lemma pin_list_lost ps pe rs pg q : ps <= pe -> desc rs -> Forall range_wf rs -> has rs pg q -> ~ (ps <= pg <= pe) ->
  has (pin_list false ps pe rs) pg q \/ (pe < pg /\ exists r, r ∈ rs /\ pgstart r < ps /\ pg <= pgend r).
Proof.
  intros Hp. induction rs as [|r rs IH]; intros Hd Hw Hpg Hout; [by apply has_nil in Hpg|].
  pose proof (desc_below r rs pg q Hd) as Hlow.
  apply StronglySorted_inv in Hd as [Hd _]. apply Forall_cons in Hw as [(Hr & _) Hw]. apply has_cons in Hpg.
  assert (has rs pg q -> has (pin_list false ps pe rs) pg q \/ (pe < pg /\ exists r0, r0 ∈ r :: rs /\ pgstart r0 < ps /\ pg <= pgend r0)) as IH'.
  { intros H. destruct (IH Hd Hw H Hout) as [?|(? & r0 & ? & ?)]; [by left|right; split; [done|]; exists r0; split; [by right|done]]. }
  assert (ps <= pgstart r \/ pgend r < pg \/ exists r0, r0 ∈ r :: rs /\ pgstart r0 < ps /\ pg <= pgend r0) as Hself.
  { destruct (decide (ps <= pgstart r)), (decide (pgend r < pg)); [tauto..|]. right; right. exists r. split; [set_solver +|lia]. }
  revert IH' Hself. generalize (exists r0, r0 ∈ r :: rs /\ pgstart r0 < ps /\ pg <= pgend r0). intros P IH' Hself.
  cbn [pin_list]. range_cases; cbn [app]; rewrite ?has_cons; cbn [pgstart pgend purged]; destruct (Z.lt_ge_cases pe pg); intuition lia.
Qed.

Lemma pin_list_sub ok ps pe rs r' : 0 <= ps <= pe -> Forall range_wf rs -> r' ∈ pin_list ok ps pe rs ->
  range_wf r' /\ exists r, r ∈ rs /\ pgstart r <= pgstart r' /\ pgend r' <= pgend r.
Proof.
  intros Hp. induction rs as [|r rs IH]; intros Hw Hin; [set_solver +Hin|].
  apply Forall_cons in Hw as [Hr Hw]. pose proof Hr as (Hr1 & Hr2 & Hr3).
  assert (forall r0, r0 ∈ r :: rs -> range_wf r0 /\ exists r1, r1 ∈ r :: rs /\ pgstart r1 <= pgstart r0 /\ pgend r0 <= pgend r1) as Hall.
  { intros r0 [->|H0]%elem_of_cons; (split; [|eexists; split; [|split; reflexivity]]); [done|set_solver +| |set_solver +H0].
    rewrite Forall_forall in Hw. by apply Hw. }
  assert (r' ∈ pin_list ok ps pe rs -> range_wf r' /\ exists r0, r0 ∈ r :: rs /\ pgstart r0 <= pgstart r' /\ pgend r' <= pgend r0) as IH'.
  { intros Hin'. destruct (IH Hw Hin') as (? & r0 & ? & ?). split; [done|]. exists r0. set_solver. }
  assert (forall st en, pgstart r <= st <= en -> en <= pgend r -> r' = Range (asma r) st en (purged r) ->
    range_wf r' /\ exists r0, r0 ∈ r :: rs /\ pgstart r0 <= pgstart r' /\ pgend r' <= pgend r0) as Hpart.
  { intros st en H1 H2 ->. split; [unfold range_wf; cbn; lia|]. exists r. split; [set_solver +|cbn; lia]. }
  cbn [pin_list] in Hin. revert Hin. range_cases; cbn [app]; rewrite ?elem_of_cons.
  all: intros Hin; repeat match type of Hin with _ \/ _ => destruct Hin as [Hin|Hin] end; subst; try (by apply IH').
  all: try (by apply Hall, elem_of_cons; auto). all: try (eapply Hpart; [| |reflexivity]; lia).
Qed.

Lemma pin_list_desc ok ps pe rs : 0 <= ps <= pe -> desc rs -> Forall range_wf rs ->
  desc (pin_list ok ps pe rs) /\ Forall range_wf (pin_list ok ps pe rs).
Proof.
  intros Hp Hd Hw. split; [|apply Forall_forall; intros r' Hr'; by eapply pin_list_sub].
  induction rs as [|r rs IH]; [done|]. apply StronglySorted_inv in Hd as [Hd Hr]. pose proof Hd as Hd'.
  apply Forall_cons in Hw as [(Hr1 & Hr2) Hw]. specialize (IH Hd Hw). rewrite Forall_forall in Hr. cbn in Hr.
  assert (forall r0, pgstart r <= pgstart r0 -> desc (r0 :: pin_list ok ps pe rs)) as Hcons.
  { intros r0 Hr0. constructor; [done|]. apply Forall_forall. intros r' Hr'.
    destruct (pin_list_sub _ _ _ _ _ Hp Hw Hr') as (_ & r3 & Hr3 & ? & ?). specialize (Hr r3 Hr3). cbn in *. lia. }
  assert (forall r0, pgstart r <= pgstart r0 -> desc (r0 :: rs)) as Hcons'.
  { intros r0 Hr0. constructor; [done|]. apply Forall_forall. intros r' Hr'. specialize (Hr r' Hr'). cbn in *. lia. }
  cbn [pin_list]. range_cases; cbn [app]; try done; try (apply Hcons; cbn; lia); try (apply Hcons'; cbn; lia).
  constructor; [apply Hcons'; cbn; lia|]. constructor; [cbn; lia|]. apply Forall_forall. intros r' Hr'.
  specialize (Hr r' Hr'). cbn in *. lia.
Qed.

(** Whether a page between [ps] and [pe] has been purged. *)
Definition lost (ps pe : Z) rs : Prop := exists pg, ps <= pg <= pe /\ has rs pg ASHMEM_WAS_PURGED.

Lemma lost_cons ps pe r rs : lost ps pe (r :: rs) <->
  (purged r = ASHMEM_WAS_PURGED /\ exists pg, ps <= pg <= pe /\ pgstart r <= pg <= pgend r) \/ lost ps pe rs.
Proof. unfold lost. setoid_rewrite has_cons. naive_solver. Qed.

Lemma pin_ret_spec ps pe rs ret : ps <= pe -> desc rs -> Forall range_wf rs -> ret = 0 \/ ret = 1 ->
  (pin_ret ps pe rs ret = 1 /\ (ret = 1 \/ lost ps pe rs)) \/ (pin_ret ps pe rs ret = 0 /\ ret = 0 /\ ~ lost ps pe rs).
Proof.
  intros Hp. revert ret. induction rs as [|r rs IH]; intros ret Hd Hw Hret.
  { cbn. destruct Hret as [->| ->]; [right|left]; split_and!; [done..|by intros (pg & _ & ?%has_nil)|done|by left]. }
  assert (forall pg q, has rs pg q -> pg < pgstart r) as Hlow by (intros pg q; by apply desc_below).
  apply StronglySorted_inv in Hd as [Hd _]. apply Forall_cons in Hw as [(Hr & _ & Hq) Hw].
  assert (Z.lor ret (purged r) = 0 \/ Z.lor ret (purged r) = 1) as Hor'.
  { destruct Hret as [->| ->], Hq as [-> | ->]; vm_compute; tauto. }
  assert (Z.lor ret (purged r) = 1 <-> ret = 1 \/ purged r = ASHMEM_WAS_PURGED) as Hor.
  { destruct Hret as [->| ->], Hq as [-> | ->]; vm_compute; intuition congruence. }
  rewrite lost_cons. cbn [pin_ret].
  assert (pgend r < ps -> ~ lost ps pe rs) as Hb. { intros Hb (pg & Hpg & Hh). specialize (Hlow _ _ Hh). lia. }
  assert (pgstart r <= ps -> ~ lost ps pe rs) as Hb2. { intros Hb2 (pg & Hpg & Hh). specialize (Hlow _ _ Hh). lia. }
  assert ((exists pg, ps <= pg <= pe /\ pgstart r <= pg <= pgend r) <-> ps <= pgend r /\ pgstart r <= pe) as ->.
  { split; [intros (pg & ?); lia|]. intros ?. exists (Z.max ps (pgstart r)). lia. }
  pose proof (IH ret Hd Hw Hret) as I1. pose proof (IH _ Hd Hw Hor') as I2. unfold ASHMEM_WAS_PURGED in *.
  clear IH Hlow. range_cases; try (specialize (Hb ltac:(lia))); try (specialize (Hb2 ltac:(lia))); intuition lia.
Qed.

(** ** The invariant of ashmem

    [V] gives the unpinned ranges of every area, the abstract state of pinning;
    [lr] is the list of the ranges that can be purged, the oldest first. *)
Record areas_ok s : Prop := {
  ao_name : forall a ar, areas s !! a = Some ar ->
    Z.of_nat (length (name ar)) = ASHMEM_FULL_NAME_LEN /\ name ar !! Z.to_nat (ASHMEM_FULL_NAME_LEN - 1) = Some 0;
  ao_size : forall a ar, areas s !! a = Some ar -> 0 <= size_ ar < 2 ^ 32;
  ao_file : forall a ar f, areas s !! a = Some ar -> area_file ar = Some f -> is_Some (files s !! f);
  ao_own : forall a b ar br f, areas s !! a = Some ar -> areas s !! b = Some br ->
    area_file ar = Some f -> area_file br = Some f -> a = b;
}.
Definition views R U (V : gmap Z (list ashmem_range)) : Prop := forall a, option_Forall2 (elems R) (U !! a) (V !! a).
Definition ash s (V : gmap Z (list ashmem_range)) lr : Prop :=
  (exists U, shape s U lr /\ views (ranges s) U V) /\ (forall a rs, V !! a = Some rs -> desc rs /\ Forall range_wf rs) /\ areas_ok s.

Lemma areas_ok_same s s' : same_files s s' -> areas_ok s -> areas_ok s'.
Proof. intros (E1 & E2 & _) [H1 H2 H3 H4]. split; rewrite ?E1, ?E2; done. Qed.

Lemma views_lookup R U V a rs : views R U V -> V !! a = Some rs -> exists l, U !! a = Some l /\ elems R l rs.
Proof. intros Hv E. specialize (Hv a). rewrite E in Hv. inversion Hv; eauto. Qed.

(** An operation on one list keeps the view of the others. *)
Lemma rewrites_views s U lr V a l alloc rs s' : shape s U lr -> views (ranges s) U V -> U !! a = Some l ->
  (forall x, alloc = Some x -> fresh s x) -> rewrites s U a [] l alloc rs s' ->
  exists U' lr', shape s' U' lr' /\ views (ranges s') U' (<[a := rs]> V) /\ same_files s s'.
Proof.
  intros H Hv E Hal (l' & lr' & Hsh & He & Hf & Hs). exists (<[a := l']> U), lr'. split_and!; [done| |done].
  intros b. destruct (decide (b = a)) as [->|Hne]; [rewrite !lookup_insert_eq; by constructor|].
  rewrite !lookup_insert_ne by done. specialize (Hv b). destruct (U !! b) as [lb|] eqn:Eb; [|by inversion Hv; constructor].
  inversion Hv as [? rb Hb|]; subst. constructor. eapply elems_ext; [done|]. intros y Hy. apply Hf.
  - intros Hyl. apply Hne. eapply (lr_disj _ _ (sh_unp _ _ _ H)); by eapply own_entry.
  - intros Hya. destruct (shape_fresh _ _ _ _ H (Hal _ Hya)) as [Hn _].
    destruct (sh_ranges _ _ _ H _ _ _ Eb Hy) as (? & Hy' & _). by rewrite Hn in Hy'.
Qed.

Lemma ash_rewrites s V lr U a l alloc rs s' : ash s V lr -> shape s U lr -> views (ranges s) U V -> U !! a = Some l ->
  (forall x, alloc = Some x -> fresh s x) -> rewrites s U a [] l alloc rs s' -> desc rs -> Forall range_wf rs ->
  exists lr', ash s' (<[a := rs]> V) lr'.
Proof.
  intros (_ & Hd & Ha) H Hv E Hal Hrw D W.
  destruct (rewrites_views _ _ _ _ _ _ _ _ _ H Hv E Hal Hrw) as (U' & lr' & H' & Hv' & Hs). exists lr'. split_and!; [by exists U'| |by eapply areas_ok_same].
  intros b rb [[<- <-]|[_ Eb]]%lookup_insert_Some; [done|by eapply Hd].
Qed.

Lemma ashmem_pin_run s V lr a rs ps pe alloc : ash s V lr -> V !! a = Some rs ->
  (forall x, alloc = Some x -> fresh s x) -> 0 <= ps <= pe -> pe < 2 ^ 20 ->
  exists s' lr', ashmem_pin a ps pe alloc s = Some (pin_ret ps pe rs ASHMEM_NOT_PURGED, s') /\
    ash s' (<[a := pin_list (bool_decide (is_Some alloc)) ps pe rs]> V) lr'.
Proof.
  intros Hash Ea Hal Hp Hpe. pose proof Hash as ((U & H & Hv) & Hd & _). destruct (Hd _ _ Ea) as [D W].
  destruct (views_lookup _ _ _ _ _ Hv Ea) as (l & E & He). pose proof (list_length _ _ _ _ _ H E).
  destruct (pin_walk_run a ps pe alloc l (S (size (ranges s))) s U lr [] rs ASHMEM_NOT_PURGED) as (s' & Hrun & Hrw); try done; [lia|].
  set (ok := bool_decide _) in *. destruct (pin_list_desc ok ps pe rs Hp D W) as [D' W'].
  destruct (ash_rewrites _ _ _ _ _ _ _ _ _ Hash H Hv E Hal Hrw D' W') as (lr' & Hash').
  exists s', lr'. split; [|exact Hash'].
  unfold ashmem_pin. erewrite bind_run by done. by erewrite bind_run by (by eapply list_first).
Qed.

Lemma ashmem_unpin_run s V lr a ar f rs ps pe alloc : ash s V lr -> V !! a = Some rs ->
  areas s !! a = Some ar -> area_file ar = Some f ->
  (forall x, alloc = Some x -> fresh s x) -> 0 <= ps <= pe -> pe < 2 ^ 20 ->
  exists ret s' rs' lr', ashmem_unpin a ps pe alloc s = Some (ret, s') /\ ash s' (<[a := rs']> V) lr' /\
    unpins (bool_decide (is_Some alloc)) ps pe ASHMEM_NOT_PURGED rs rs' ret.
Proof.
  intros Hash Ea Har Hf Hal Hp Hpe. pose proof Hash as ((U & H & Hv) & Hd & _). destruct (Hd _ _ Ea) as [D W].
  destruct (views_lookup _ _ _ _ _ Hv Ea) as (l & E & He). pose proof (list_length _ _ _ _ _ H E).
  destruct (unpin_restart_run a alloc (S (size (ranges s))) s U lr l rs ps pe ASHMEM_NOT_PURGED) as (s' & ret & rs' & Hrun & Hrw & Hup);
    try done; [by left|by left|by eauto|lia|].
  destruct (ash_rewrites _ _ _ _ _ _ _ _ _ Hash H Hv E Hal Hrw (up_desc _ _ _ _ _ _ _ Hup) (up_wf _ _ _ _ _ _ _ Hup)) as (lr' & Hash').
  exists ret, s', rs', lr'. done.
Qed.

(** C35: pinning the pages from [ps] to [pe] of an area takes exactly these pages from
    its unpinned ranges and changes no other page or area; the result tells
    whether one of these pages had been purged.  Without memory the only difference
    is that, if one range covers pages below [ps] and above [pe], the pages above
    [pe] of this range become pinned as well. *)
Theorem ashmem_pin_correct s V lr a rs ps pe alloc : ash s V lr -> V !! a = Some rs ->
  (forall x, alloc = Some x -> fresh s x) -> 0 <= ps <= pe -> pe < 2 ^ 20 ->
  exists ret s' rs' lr', ashmem_pin a ps pe alloc s = Some (ret, s') /\ ash s' (<[a := rs']> V) lr' /\
    (forall pg q, has rs' pg q -> has rs pg q /\ ~ (ps <= pg <= pe)) /\
    (is_Some alloc -> forall pg q, has rs pg q -> ~ (ps <= pg <= pe) -> has rs' pg q) /\
    (alloc = None -> forall pg q, has rs pg q -> ~ (ps <= pg <= pe) ->
      has rs' pg q \/ (pe < pg /\ exists r, r ∈ rs /\ pgstart r < ps /\ pg <= pgend r)) /\
    ((ret = ASHMEM_WAS_PURGED /\ lost ps pe rs) \/ (ret = ASHMEM_NOT_PURGED /\ ~ lost ps pe rs)).
Proof.
  intros Hash Ea Hal Hp Hpe. destruct (ashmem_pin_run _ _ _ _ _ _ _ _ Hash Ea Hal Hp Hpe) as (s' & lr' & Hrun & Hash').
  destruct Hash as (_ & Hd & _). destruct (Hd _ _ Ea) as [D W].
  eexists _, s', _, lr'. split_and!; [exact Hrun|exact Hash'|..].
  - intros pg q. by apply pin_list_has; [lia|..].
  - intros Hsome pg q. apply pin_list_has; [lia|done..|]. by case_bool_decide.
  - intros -> pg q. rewrite bool_decide_eq_false_2 by (by intros []). by apply pin_list_lost; [lia|..].
  - destruct (pin_ret_spec ps pe rs ASHMEM_NOT_PURGED) as [(-> & [?|?])|(-> & _ & ?)]; try done; [lia|by left|by left|by right].
Qed.

(** C36: unpinning adds exactly the pages from [ps] to [pe] to the unpinned ranges of the
    area and keeps every purge mark; no page gets a purge mark when none of these
    pages has one.  Without memory for the new range the call fails, and no page
    becomes unpinned. *)
Theorem ashmem_unpin_correct s V lr a ar f rs ps pe alloc : ash s V lr -> V !! a = Some rs ->
  areas s !! a = Some ar -> area_file ar = Some f ->
  (forall x, alloc = Some x -> fresh s x) -> 0 <= ps <= pe -> pe < 2 ^ 20 ->
  exists ret s' rs' lr', ashmem_unpin a ps pe alloc s = Some (ret, s') /\ ash s' (<[a := rs']> V) lr' /\
    (is_Some alloc -> ret = 0 /\ (forall pg, covers rs' pg <-> covers rs pg \/ ps <= pg <= pe) /\
      forall pg, has rs pg ASHMEM_WAS_PURGED -> has rs' pg ASHMEM_WAS_PURGED) /\
    (~ lost ps pe rs -> forall pg, has rs' pg ASHMEM_WAS_PURGED -> has rs pg ASHMEM_WAS_PURGED) /\
    (alloc = None -> (forall pg, covers rs' pg -> covers rs pg) /\
      (ret = - ENOMEM \/ (ret = 0 /\ forall pg, ps <= pg <= pe -> covers rs' pg))).
Proof.
  intros Hash Ea Har Hf Hal Hp Hpe.
  destruct (ashmem_unpin_run _ _ _ _ _ _ _ _ _ _ Hash Ea Har Hf Hal Hp Hpe) as (ret & s' & rs' & lr' & Hrun & Hash' & [_ _ Hc Hpu Hcl Hfail]).
  exists ret, s', rs', lr'. split_and!; [exact Hrun|exact Hash'|..].
  - intros Hsome. rewrite bool_decide_eq_true_2 in Hc, Hpu by done. destruct (Hc eq_refl) as [-> Hc']. split_and!; [done..|].
    intros pg Hpg. apply Hpu; [done|by left].
  - intros Hno. apply Hcl; [done|]. intros pg Hpg Hh. apply Hno. by exists pg.
  - intros ->. by apply Hfail.
Qed.

Lemma status_walk_run s U lr a ps pe l2 : forall fuel l1 rs, shape s U lr -> U !! a = Some (l1 ++ l2) ->
  elems (ranges s) l2 rs -> desc rs -> Forall range_wf rs -> ps <= pe -> (length l2 < fuel)%nat ->
  exists ret, status_walk fuel a (hd a l2) ps pe s = Some (ret, s) /\
    ((ret = ASHMEM_IS_UNPINNED /\ exists pg, ps <= pg <= pe /\ covers rs pg) \/
     (ret = ASHMEM_IS_PINNED /\ forall pg, ps <= pg <= pe -> ~ covers rs pg)).
Proof.
  induction l2 as [|x l2 IH]; intros [|fuel] l1 rs H E He Hd Hwf Hp Hfuel; cbn in Hfuel; try lia;
    inversion He as [|x' r l' rs' Ex He' Ex1 Er]; subst; cbn [hd status_walk].
  { rewrite Z.eqb_refl. eexists. split; [done|]. right. split; [done|]. intros pg _ (r & Hr & _). set_solver +Hr. }
  destruct (list_entry _ _ _ _ _ _ _ H E) as (-> & Hxl & Hnext). apply Forall_cons in Hwf as [(Hr & _) Hwf].
  apply StronglySorted_inv in Hd as [Hd Hlow]. rewrite Forall_forall in Hlow. cbn in Hlow.
  erewrite bind_run by (by apply get_range_run).
  unfold range_before_page, page_range_in_range, page_in_range, page_range_subsumes_range.
  assert (forall pg, covers (r :: rs') pg <-> covers rs' pg \/ pgstart r <= pg <= pgend r) as Hcov by apply (covers_middle []).
  destruct (Z.ltb_spec (pgend r) ps) as [|Hb].
  { eexists. split; [done|]. right. split; [done|]. intros pg Hpg [(r' & Hr' & Hin)|?]%Hcov; [specialize (Hlow r' Hr')|]; lia. }
  destruct (_ || _) eqn:Ho.
  { eexists. split; [done|]. left. split; [done|]. exists (Z.max ps (pgstart r)). rewrite Hcov. lia. }
  erewrite bind_run by exact Hnext. destruct (IH fuel (l1 ++ [x]) rs' H) as (ret & Hrun & Hret);
    [by rewrite <-app_assoc|done|done|done|done|lia|].
  exists ret. split; [done|]. destruct Hret as [(? & pg & ? & ?)|(? & Hno)]; [left|right].
  - split; [done|]. exists pg. rewrite Hcov. tauto.
  - split; [done|]. intros pg Hpg [Hin|Hin]%Hcov; [by apply (Hno pg)|lia].
Qed.

(** [ashmem_get_pin_status] says unpinned exactly if a page from [ps] to [pe] is
    unpinned, and changes nothing. *)
Lemma ashmem_get_pin_status_run s V lr a rs ps pe : ash s V lr -> V !! a = Some rs -> ps <= pe ->
  exists ret, ashmem_get_pin_status a ps pe s = Some (ret, s) /\
    ((ret = ASHMEM_IS_UNPINNED /\ exists pg, ps <= pg <= pe /\ covers rs pg) \/
     (ret = ASHMEM_IS_PINNED /\ forall pg, ps <= pg <= pe -> ~ covers rs pg)).
Proof.
  intros ((U & H & Hv) & Hd & _) Ea Hp. destruct (Hd _ _ Ea) as [D W].
  destruct (views_lookup _ _ _ _ _ Hv Ea) as (l & E & He). pose proof (list_length _ _ _ _ _ H E).
  destruct (status_walk_run s U lr a ps pe l (S (size (ranges s))) [] rs H E He D W Hp) as (ret & Hrun & Hret); [lia|].
  exists ret. split; [|done]. unfold ashmem_get_pin_status. erewrite bind_run by done.
  by erewrite bind_run by (by eapply list_first).
Qed.

(** *** The shrinker *)
Definition purge r : ashmem_range := Range (asma r) (pgstart r) (pgend r) ASHMEM_WAS_PURGED.
(** The bytes of the file that the pages of the range [x] are kept in. *)
Definition bytes_of s (x : Z) (t : Z * Z * Z) : Prop := exists r ar f, ranges s !! x = Some r /\
  areas s !! asma r = Some ar /\ area_file ar = Some f /\ t = (f, pgstart r * PAGE_SIZE, (pgend r + 1) * PAGE_SIZE - 1).
Definition all_wf R : Prop := forall x r, R !! x = Some r -> range_wf r.

(** One round: the oldest range is truncated and marked. *)
Lemma shrink_one s U x lr r : shape s U (x :: lr) -> ranges s !! x = Some r ->
  exists s1 f ar, areas s !! asma r = Some ar /\ area_file ar = Some f /\
    (let t := (f, u32 (pgstart r * PAGE_SIZE), u32 (u32 (pgend r + 1) * PAGE_SIZE - 1)) in
     (modify (add_truncated t) ;; put_range x (purge r) ;; lru_del x) s = Some (tt, s1) /\
     truncated s1 = truncated s ++ [t]) /\
    shape s1 U lr /\ ranges s1 = <[x := purge r]> (ranges s) /\ areas s1 = areas s /\ files s1 = files s.
Proof.
  intros H Hx. pose proof H as [Hu Hlr Hh He Hr Hon Hc Hf Hz]. destruct (Hf _ _ Hx) as (ar & f & Har & Haf).
  pose proof (lru_nodup _ _ _ H) as [_ [Hnx Hn]%NoDup_cons]%NoDup_cons.
  set (t := (f, u32 (pgstart r * PAGE_SIZE), u32 (u32 (pgend r + 1) * PAGE_SIZE - 1))). set (s0 := set_ranges (<[x := purge r]> (ranges s)) (add_truncated t s)).
  destruct (lru_del_run s0 x (purge r) [] lr Hlr) as (v & Hrun & Hv & _); [apply lookup_insert_eq|].
  exists (set_lru_count (u32 (lru_count s0 - range_size (purge r))) (set_lru v s0)), f, ar.
  split_and!; [done|done| | |done|done|done].
  - split; [|done]. erewrite bind_run by done. by erewrite bind_run by done.
  - split; cbn.
    + done.
    + done.
    + done.
    + intros y ry [[<- <-]|[_ Hy]]%lookup_insert_Some; [exact (He _ _ Hx)|by apply He].
    + intros b l y El Hy. destruct (Hr _ _ _ El Hy) as (ry & Ey & Eb). destruct (decide (y = x)) as [->|Hne].
      * exists (purge r). rewrite lookup_insert_eq. split; [done|]. by simplify_eq.
      * exists ry. by rewrite lookup_insert_ne.
    + intros y. destruct (decide (y = x)) as [->|Hne].
      * rewrite lookup_insert_eq. split; [done|]. by intros (ry & [= <-] & ?).
      * rewrite lookup_insert_ne, <-Hon by done. set_solver +Hne.
    + rewrite Hc, u32_sub_l, (pages_cons _ _ _ _ Hx), (pages_ext (ranges s) (<[x := purge r]> _)); [f_equal; unfold range_size; cbn; lia|].
      intros y Hy. apply lookup_insert_ne. by intros ->.
    + intros y ry [[<- <-]|[_ Hy]]%lookup_insert_Some; [exact (Hf _ _ Hx)|by eapply Hf].
    + rewrite lookup_insert_ne; [done|]. intros ->. by rewrite Hz in Hx.
Qed.

Lemma lru_entry s U x lr : shape s U (x :: lr) -> (x =? ashmem_lru_list) = false /\
  on_lru (get_next x) s = Some (hd ashmem_lru_list lr, s) /\ exists r, ranges s !! x = Some r.
Proof.
  intros H. pose proof (lru_nodup _ _ _ H) as [Hx _]%NoDup_cons. split_and!.
  - apply Z.eqb_neq. set_solver +Hx.
  - apply on_lru_read. eapply (heap_next _ _ _ []); [apply (sh_lru _ _ _ H)|apply lookup_singleton_eq].
  - destruct (proj1 (sh_on_lru _ _ _ H x)) as (r & ? & _); [set_solver +|eauto].
Qed.

(** What purging the ranges [l], in this order, does. *)
Record purges s l s' : Prop := {
  pg_ranges : forall y, ranges s' !! y = (λ r, if bool_decide (y ∈ l) then purge r else r) <$> ranges s !! y;
  pg_areas : areas s' = areas s;
  pg_files : files s' = files s;
  pg_truncated : exists ts, truncated s' = truncated s ++ ts /\ Forall2 (bytes_of s) l ts;
}.

Lemma range_size_wf r : range_wf r -> range_size r = pgend r - pgstart r + 1.
Proof. intros (? & ? & _). unfold range_size. apply u32_small. lia. Qed.

Lemma bytes_wf (f : Z) r : range_wf r -> (f, u32 (pgstart r * PAGE_SIZE), u32 (u32 (pgend r + 1) * PAGE_SIZE - 1)) =
  (f, pgstart r * PAGE_SIZE, (pgend r + 1) * PAGE_SIZE - 1).
Proof. intros (? & ? & _). change PAGE_SIZE with 4096. rewrite !u32_small; rewrite ?u32_small; try done; lia. Qed.

Lemma all_wf_purge R x r : all_wf R -> R !! x = Some r -> all_wf (<[x := purge r]> R).
Proof.
  intros Hw Hx y ry [[<- <-]|[_ Hy]]%lookup_insert_Some; [|by eapply Hw].
  destruct (Hw _ _ Hx) as (? & ? & _). unfold range_wf. cbn. auto.
Qed.

Lemma purges_nil s : purges s [] s.
Proof. split; [|done|done|exists []; rewrite app_nil_r; by split]. intros y. by destruct (ranges s !! y). Qed.
Lemma purges_cons s s1 s' x r l ar f : x ∉ l -> ranges s !! x = Some r -> areas s !! asma r = Some ar -> area_file ar = Some f ->
  ranges s1 = <[x := purge r]> (ranges s) -> areas s1 = areas s -> files s1 = files s ->
  truncated s1 = truncated s ++ [(f, pgstart r * PAGE_SIZE, (pgend r + 1) * PAGE_SIZE - 1)] ->
  purges s1 l s' -> purges s (x :: l) s'.
Proof.
  intros Hx Hr Ha Hf R1 A1 F1 T1 [P1 P2 P3 (ts & P4 & P5)]. split.
  - intros y. rewrite P1, R1. destruct (decide (y = x)) as [->|Hne].
    + rewrite lookup_insert_eq, Hr. cbn. rewrite bool_decide_eq_false_2, bool_decide_eq_true_2 by set_solver +Hx. done.
    + rewrite lookup_insert_ne by done. destruct (ranges s !! y); [|done]. cbn. f_equal.
      rewrite (bool_decide_ext (y ∈ l) (y ∈ x :: l)); [done|set_solver +Hne].
  - by rewrite P2.
  - by rewrite P3.
  - eexists (_ :: ts). split; [by rewrite P4, T1, <-app_assoc|]. constructor; [by exists r, ar, f|].
    apply Forall2_same_length_lookup_2; [by eapply Forall2_length|]. intros i y t Hy Ht.
    destruct (Forall2_lookup_lr _ _ _ _ _ _ P5 Hy Ht) as (r' & ar' & f' & Hr' & Ha' & Hf' & ->).
    assert (y <> x) as Hne by (intros ->; apply Hx; by eapply list_elem_of_lookup_2).
    rewrite R1, lookup_insert_ne in Hr' by done. rewrite A1 in Ha'. by exists r', ar', f'.
Qed.

Lemma shrink_walk_run U lr : forall fuel s nr, shape s U lr -> all_wf (ranges s) -> (length lr < fuel)%nat ->
  exists s' k, shrink_walk fuel (hd ashmem_lru_list lr) nr s = Some (tt, s') /\ shape s' U (drop k lr) /\
    purges s (take k lr) s' /\ (0 < nr < 2 ^ 31 -> (nr <= pages (ranges s) (take k lr) \/ (length lr <= k)%nat) /\
      forall j, (j < k)%nat -> pages (ranges s) (take j lr) < nr).
Proof.
  induction lr as [|x lr IH]; intros [|fuel] s nr H Hw Hfuel; cbn in Hfuel; try lia; cbn [hd shrink_walk].
  { rewrite Z.eqb_refl. exists s, 0%nat. split_and!; [done|done|by apply purges_nil|]. split; [by right|lia]. }
  destruct (lru_entry _ _ _ _ H) as (-> & Hnext & r & Hr). erewrite bind_run by exact Hnext.
  erewrite bind_run by (by apply get_range_run). pose proof (Hw _ _ Hr) as Hwr. pose proof Hwr as (W1 & W2 & _).
  destruct (shrink_one _ _ _ _ _ H Hr) as (s1 & f & ar & Ha & Hf & (Hrun & T1) & H1 & R1 & A1 & F1).
  erewrite bind_run by (by apply get_area_run). rewrite Hf. rewrite bytes_wf in Hrun, T1 by done. rewrite bytes_wf by done.
  erewrite bind_run3 by exact Hrun. rewrite (range_size_wf r) by done.
  pose proof (lru_nodup _ _ _ H) as [_ [Hx _]%NoDup_cons]%NoDup_cons.
  assert (forall l, x ∉ l -> pages (ranges s) (x :: l) = pgend r - pgstart r + 1 + pages (ranges s1) l) as Hpages.
  { intros l Hxl. rewrite (pages_cons _ _ _ _ Hr), range_size_wf by done. rewrite (pages_ext (ranges s) (ranges s1)); [done|].
    intros y Hy. rewrite R1. apply lookup_insert_ne. by intros ->. }
  assert (forall j, x ∉ take j lr) as Hxj by (intros j Hj; apply Hx; by eapply elem_of_take in Hj as (? & ? & _); eapply list_elem_of_lookup_2).
  assert (0 < nr < 2 ^ 31 -> s32 (nr - (pgend r - pgstart r + 1)) = nr - (pgend r - pgstart r + 1)) as Hs
    by (intros; apply s32_small; lia).
  destruct (Z.leb_spec (s32 (nr - (pgend r - pgstart r + 1))) 0) as [Hle|Hgt].
  - exists s1, 1%nat. cbn [drop take]. rewrite take_0, drop_0. split_and!; [done|done| |].
    + eapply (purges_cons s s1 s1); eauto using purges_nil. set_solver +.
    + intros Hnr. split; [left; rewrite Hpages by set_solver +; cbn [pages]; lia|].
      intros j Hj. assert (j = 0%nat) as -> by lia. cbn. lia.
  - destruct (IH fuel s1 (s32 (nr - (pgend r - pgstart r + 1)))) as (s' & k & Hrun' & H' & Hpu & Hk);
      [done|rewrite R1; by apply all_wf_purge|lia|].
    exists s', (S k). cbn [drop take]. split_and!; [done|done|by eapply purges_cons|].
    intros Hnr. rewrite Hs in Hk, Hgt by done. destruct Hk as [Hk Hj]; [lia|]. split.
    + rewrite Hpages by done. cbn [length]. lia.
    + intros [|j] Hlt; cbn [take]; [cbn; lia|]. rewrite Hpages by done. specialize (Hj j). lia.
Qed.

Definition same_pages r r' : Prop := r' = r \/ r' = purge r.

Lemma same_pages_desc rs rs' : Forall2 same_pages rs rs' -> desc rs -> desc rs'.
Proof.
  intros H. induction H as [|r r' rs rs' Hr Hrs IH]; intros Hd; [constructor|].
  apply StronglySorted_inv in Hd as [Hd Hlow]. constructor; [by apply IH|]. apply Forall_forall. intros r1 Hr1.
  apply list_elem_of_lookup in Hr1 as [i Hi]. destruct (Forall2_lookup_r _ _ _ _ _ Hrs Hi) as (r0 & Hr0 & Hsame).
  rewrite Forall_forall in Hlow. specialize (Hlow r0 ltac:(by eapply list_elem_of_lookup_2)). cbn in *.
  destruct Hr as [->| ->], Hsame as [->| ->]; done.
Qed.
Lemma same_pages_wf rs rs' : Forall2 same_pages rs rs' -> Forall range_wf rs -> Forall range_wf rs'.
Proof.
  intros H. induction H as [|r r' rs rs' Hr Hrs IH]; intros Hw; [constructor|]. apply Forall_cons in Hw as [Hw1 Hw].
  constructor; [|by apply IH]. destruct Hr as [->| ->]; [done|]. destruct Hw1 as (? & ? & _). unfold range_wf. cbn. auto.
Qed.
Lemma same_pages_covers rs rs' pg : Forall2 same_pages rs rs' -> covers rs' pg <-> covers rs pg.
Proof.
  intros H. induction H as [|r r' rs rs' Hr Hrs IH]; [done|].
  rewrite (covers_middle [] r' rs'), (covers_middle [] r rs). cbn. rewrite IH. by destruct Hr as [->| ->].
Qed.

Lemma purges_elems s l s' k rs : purges s l s' -> elems (ranges s) k rs ->
  exists rs', elems (ranges s') k rs' /\ Forall2 same_pages rs rs'.
Proof.
  intros Hp H. induction H as [|x r k rs Hx _ (rs' & IH1 & IH2)]; [exists []; split; constructor|].
  eexists (_ :: rs'). split; constructor; [by rewrite (pg_ranges _ _ _ Hp), Hx|done| |done].
  cbn. case_bool_decide; [by right|by left].
Qed.

Lemma elems_omap R k rs : elems R k rs -> omap (R !!.) k = rs.
Proof. intros H. induction H as [|x r k rs Hx _ IH]; [done|]. cbn. by rewrite Hx, IH. Qed.

Lemma ash_all_wf s V lr : ash s V lr -> all_wf (ranges s).
Proof.
  intros ((U & H & Hv) & Hd & _) x r Hx. destruct (sh_entries _ _ _ H _ _ Hx) as (l & El & Hl).
  pose proof (Hv (asma r)) as Hv'. rewrite El in Hv'. inversion Hv' as [? rs He Ea Eb|]; subst.
  apply list_elem_of_lookup in Hl as [i Hi]. destruct (Forall2_lookup_l _ _ _ _ _ He Hi) as (r' & Hr' & Hx').
  rewrite Hx in Hx'. injection Hx' as <-. destruct (Hd (asma r) rs ltac:(done)) as [_ Hw]. by eapply Forall_lookup_1.
Qed.

Lemma purges_ash s V lr U l s' lr' : ash s V lr -> shape s U lr -> views (ranges s) U V -> purges s l s' -> shape s' U lr' ->
  exists V', ash s' V' lr' /\ forall a rs, V !! a = Some rs -> exists rs', V' !! a = Some rs' /\ Forall2 same_pages rs rs'.
Proof.
  intros (_ & Hd & Ha) H Hv Hp H'. set (V' := (λ k : list Z, omap (ranges s' !!.) k) <$> U : gmap Z (list ashmem_range)).
  assert (forall a, match V !! a with Some rs => exists k rs', U !! a = Some k /\ V' !! a = Some rs' /\ elems (ranges s') k rs' /\
    Forall2 same_pages rs rs' | None => U !! a = None /\ V' !! a = None end) as HV'.
  { intros a. specialize (Hv a). destruct (V !! a) as [rs|] eqn:Ea; inversion Hv as [k ? He Eu|Eu]; subst.
    - destruct (purges_elems _ _ _ _ _ Hp He) as (rs' & He' & Hs). exists k, rs'. split_and!; [done| |done|done].
      unfold V'. rewrite lookup_fmap, <-Eu. cbn. by rewrite (elems_omap _ _ _ He').
    - split; [done|]. unfold V'. by rewrite lookup_fmap, <-Eu. }
  exists V'. split; [split_and!|].
  - exists U. split; [done|]. intros a. specialize (HV' a). destruct (V !! a) as [rs|].
    + destruct HV' as (k & rs' & -> & -> & He & _). by constructor.
    + destruct HV' as [-> ->]. constructor.
  - intros a rs' Ea. specialize (HV' a). destruct (V !! a) as [rs|] eqn:E; [|destruct HV'; congruence].
    destruct HV' as (k & rs1 & _ & Hrs1 & _ & Hs). rewrite Ea in Hrs1. injection Hrs1 as <-. destruct (Hd _ _ E).
    split; [by eapply same_pages_desc|by eapply same_pages_wf].
  - destruct Hp as [_ Pa Pf _]. destruct Ha as [H1 H2 H3 H4]. split; rewrite ?Pa, ?Pf; done.
  - intros a rs Ea. specialize (HV' a). rewrite Ea in HV'. destruct HV' as (k & rs' & _ & ? & _ & ?). eauto.
Qed.

Lemma lru_length s U lr : shape s U lr -> (length lr <= size (ranges s))%nat.
Proof.
  intros H. pose proof (lru_nodup _ _ _ H) as [_ Hn]%NoDup_cons.
  rewrite <-(size_dom (ranges s)), <-(size_list_to_set (C := gset Z)) by done. apply subseteq_size.
  intros x Hx%elem_of_list_to_set. apply elem_of_dom. apply (sh_on_lru _ _ _ H) in Hx as (r & -> & _). eauto.
Qed.

Lemma ashmem_shrink_run s V lr nr gfp : ash s V lr -> nr <> 0 -> Z.land gfp __GFP_FS <> 0 ->
  exists s' V' k, ashmem_shrink nr gfp s = Some (s32 (lru_count s'), s') /\ ash s' V' (drop k lr) /\ purges s (take k lr) s' /\
    (0 < nr < 2 ^ 31 -> (nr <= pages (ranges s) (take k lr) \/ (length lr <= k)%nat) /\
      forall j, (j < k)%nat -> pages (ranges s) (take j lr) < nr) /\ lru_count s' = u32 (pages (ranges s') (drop k lr)) /\
    forall a rs, V !! a = Some rs -> exists rs', V' !! a = Some rs' /\ Forall2 same_pages rs rs'.
Proof.
  intros Hash Hnr Hg. pose proof Hash as ((U & H & Hv) & _). pose proof (lru_length _ _ _ H).
  destruct (shrink_walk_run U lr (S (size (ranges s))) s nr H (ash_all_wf _ _ _ Hash)) as (s' & k & Hrun & H' & Hp & Hk); [lia|].
  destruct (purges_ash _ _ _ _ _ _ _ Hash H Hv Hp H') as (V' & Hash' & HV').
  exists s', V', k. split_and!; [|done|done|done|exact (sh_count _ _ _ H')|done].
  unfold ashmem_shrink. rewrite (proj2 (Z.eqb_neq nr 0)), (proj2 (Z.eqb_neq _ 0) Hg) by lia. cbn [negb andb].
  erewrite bind_run by done. erewrite bind_run by (apply on_lru_read; eapply heap_first; [apply (sh_lru _ _ _ H)|apply lookup_singleton_eq]).
  by erewrite bind_run by exact Hrun.
Qed.

(** The shrinker purges the least recently unpinned ranges, no more of them than it
    takes to free [nr] pages, and frees [nr] pages if there are as many.  It truncates
    exactly the bytes of the unpinned pages of these ranges in the files of their
    areas, marks the ranges as purged, takes them off the list and leaves the
    count of the pages that can be purged; no page becomes pinned or unpinned. *)
Theorem ashmem_shrink_correct s V lr nr gfp : ash s V lr -> 0 < nr < 2 ^ 31 -> Z.land gfp __GFP_FS <> 0 ->
  exists s' V' k ts, ashmem_shrink nr gfp s = Some (s32 (lru_count s'), s') /\ ash s' V' (drop k lr) /\
    truncated s' = truncated s ++ ts /\ Forall2 (bytes_of s) (take k lr) ts /\
    (forall y, ranges s' !! y = (λ r, if bool_decide (y ∈ take k lr) then purge r else r) <$> ranges s !! y) /\
    (nr <= pages (ranges s) (take k lr) \/ drop k lr = []) /\
    (forall j, (j < k)%nat -> pages (ranges s) (take j lr) < nr) /\ lru_count s' = u32 (pages (ranges s') (drop k lr)) /\
    forall a rs, V !! a = Some rs -> exists rs', V' !! a = Some rs' /\ forall pg, covers rs' pg <-> covers rs pg.
Proof.
  intros Hash Hnr Hg. destruct (ashmem_shrink_run _ _ _ nr _ Hash ltac:(lia) Hg) as (s' & V' & k & Hrun & Hash' & Hp & Hk & Hc & HV).
  destruct (Hk Hnr) as [Hk1 Hj].
  destruct Hp as [P1 _ _ (ts & P2 & P3)]. exists s', V', k, ts. split_and!; try done.
  - destruct Hk1 as [?|?]; [by left|right]. by apply drop_ge.
  - intros a rs Ea. destruct (HV a rs Ea) as (rs' & ? & ?). exists rs'. split; [done|]. intros pg. by apply same_pages_covers.
Qed.

(** ** A concrete state

    An area of ten pages at address 100 with two ranges: the pages 4 to 6 can be
    purged, the pages 1 and 2 have been purged. *)
Definition demo_area : ashmem_area := Area (ASHMEM_NAME_PREFIX ++ replicate 256 0) (Some 7) 40960 PROT_MASK.
Definition demo_r1 : ashmem_range := Range 100 4 6 ASHMEM_NOT_PURGED.
Definition demo_r2 : ashmem_range := Range 100 1 2 ASHMEM_WAS_PURGED.
Definition demo_ranges : gmap Z ashmem_range := <[200 := demo_r1]> (<[201 := demo_r2]> ∅).
Definition demo_unpinned : mem := <[100 := ListHead 200 201]> (<[200 := ListHead 201 100]> (<[201 := ListHead 100 200]> ∅)).
Definition demo_lru : mem := <[0 := ListHead 200 200]> (<[200 := ListHead 0 0]> (<[201 := ListHead 0 0]> ∅)).
Definition demo_ash : ashmem := Ash {[100 := demo_area]} demo_ranges demo_unpinned demo_lru 3 {[7 := File 0 1]} [].
Definition demo_V : gmap Z (list ashmem_range) := {[100 := [demo_r1; demo_r2]]}.

Lemma demo_ranges_inv x r : demo_ranges !! x = Some r -> (x = 200 /\ r = demo_r1) \/ (x = 201 /\ r = demo_r2).
Proof. unfold demo_ranges. intros [[<- <-]|[_ [[<- <-]|[_ Hx]]%lookup_insert_Some]]%lookup_insert_Some; [by left|by right|by rewrite lookup_empty in Hx]. Qed.

Lemma demo_ok : ash demo_ash demo_V [200].
Proof.
  split_and!; [exists {[100 := [200; 201]]}; split; [split; cbn|]| |split; cbn].
  - apply lrep_check_ok. vm_compute. reflexivity.
  - apply lrep_check_ok. vm_compute. reflexivity.
  - intros a. destruct (decide (a = 100)) as [->|]; [rewrite !lookup_singleton_eq; naive_solver|].
    by rewrite !lookup_singleton_ne.
  - intros x r [[-> ->]|[-> ->]]%demo_ranges_inv; exists [200; 201]; (split; [apply lookup_singleton_eq|set_solver +]).
  - intros a l x [<- <-]%lookup_singleton_Some Hx. rewrite !elem_of_cons in Hx. destruct Hx as [->|[->|Hx]]; [by eexists..|set_solver +Hx].
  - intros x. rewrite list_elem_of_singleton. split; [intros ->; by eexists|].
    intros (r & [[-> ->]|[-> ->]]%demo_ranges_inv & Hp); done.
  - done.
  - intros x r [[-> ->]|[-> ->]]%demo_ranges_inv; (exists demo_area, 7; split; [apply lookup_singleton_eq|done]).
  - done.
  - intros a. unfold demo_V. destruct (decide (a = 100)) as [->|]; [rewrite !lookup_singleton_eq|rewrite !lookup_singleton_ne by done; constructor].
    constructor. by repeat constructor.
  - unfold demo_V. intros a rs [<- <-]%lookup_singleton_Some. split; [repeat constructor|].
    repeat constructor; unfold range_wf, demo_r1, demo_r2, ASHMEM_NOT_PURGED, ASHMEM_WAS_PURGED; cbn; lia.
  - by intros a ar [<- <-]%lookup_singleton_Some.
  - by intros a ar [<- <-]%lookup_singleton_Some.
  - intros a ar f [<- <-]%lookup_singleton_Some [= <-]. rewrite lookup_singleton_eq. eauto.
  - by intros a b ar br f [<- <-]%lookup_singleton_Some [<- <-]%lookup_singleton_Some.
Qed.

Lemma demo_fresh x : Some 300 = Some x -> fresh demo_ash x.
Proof. intros [= <-]. split; reflexivity. Qed.

(** Pinning page 5 splits the first range. *)
Lemma ashmem_pin_witness : exists ret s' rs' lr', ashmem_pin 100 5 5 (Some 300) demo_ash = Some (ret, s') /\
  ash s' (<[100 := rs']> demo_V) lr' /\ ret = 0 /\ ~ has rs' 5 0.
Proof.
  destruct (ashmem_pin_correct demo_ash demo_V [200] 100 [demo_r1; demo_r2] 5 5 (Some 300) demo_ok eq_refl demo_fresh)
    as (ret & s' & rs' & lr' & Hrun & Hash & Hout & _); [lia|lia|].
  exists ret, s', rs', lr'. split_and!; [exact Hrun|exact Hash|vm_compute in Hrun; injection Hrun as <- _; reflexivity|].
  intros Hh. apply Hout in Hh as [_ Hn]. lia.
Defined.

(** Unpinning the pages 2 to 4 merges all ranges. *)
Lemma ashmem_unpin_witness : exists s' rs' lr', ashmem_unpin 100 2 4 (Some 300) demo_ash = Some (0, s') /\
  ash s' (<[100 := rs']> demo_V) lr' /\ covers rs' 3.
Proof.
  destruct (ashmem_unpin_correct demo_ash demo_V [200] 100 demo_area 7 [demo_r1; demo_r2] 2 4 (Some 300) demo_ok eq_refl eq_refl eq_refl demo_fresh)
    as (ret & s' & rs' & lr' & Hrun & Hash & Hok & _); [lia|lia|].
  destruct Hok as (-> & Hc & _); [by eexists|]. exists s', rs', lr'. split_and!; [exact Hrun|exact Hash|]. apply Hc. right. lia.
Defined.

(** One page is asked for: the range of three pages is purged. *)
Lemma ashmem_shrink_witness : exists s' V' lr', ashmem_shrink 1 GFP_KERNEL demo_ash = Some (0, s') /\ ash s' V' lr' /\
  truncated s' = [(7, 16384, 28671)].
Proof.
  destruct (ashmem_shrink_correct demo_ash demo_V [200] 1 GFP_KERNEL demo_ok) as (s' & V' & k & ts & Hrun & Hash & _); [lia|vm_compute; discriminate|].
  destruct (ashmem_shrink 1 GFP_KERNEL demo_ash) as [[ret s1]|] eqn:E; [|discriminate]. injection Hrun as _ ->.
  exists s', V', (drop k [200]). vm_compute in E. injection E as <- <-. split_and!; [reflexivity|exact Hash|reflexivity].
Defined.
End Ashmem.
