(* ===== verification/AshmemDev.v ===== *)
(** * Anonymous shared memory: the device

    The rest of mm/ashmem.c on top of Ashmem.v: opening and releasing areas, their
    names and protection masks, mapping, and the checks of the ioctls on the
    arguments of pinning.  The system calls are the steps of a machine; in every
    reachable state the invariant [ash] holds and no call oopses. *)
From stdpp Require Import prelude gmap list sorting.
From Stdlib Require Import ZArith Lia ZifyBool.
From S2P Require Import Prelude ListHead ListHeap Ashmem.
Open Scope Z_scope.

Module AshmemDev.
Import Ashmem.
(** ** Areas as files

    [generic_file_open] gives [ret] and the slab allocator [alloc]. *)
Definition ashmem_open (ret : Z) (alloc : option Z) : AM (Z * option Z) :=
  if negb (ret =? 0) then mret (ret, None)
  else match alloc with
  | None => mret (- ENOMEM, None)
  | Some a =>
      modify (λ s, set_unpinned (<[a := ListHead 0 0]> (unpinned s)) s) ;;
      on_unpinned (INIT_LIST_HEAD a) ;;
      put_area a (Area (ASHMEM_NAME_PREFIX ++ replicate (Z.to_nat ASHMEM_NAME_LEN) 0) None 0 PROT_MASK) ;;
      mret (0, Some a)
  end.

Definition get_file (f : Z) : AM unit := b ← get_backing f; put_backing f (File (f_pos b) (f_count b + 1)).
Definition fput (f : Z) : AM unit :=
  b ← get_backing f;
  if f_count b =? 1 then modify (λ s, set_files (delete f (files s)) s)
  else put_backing f (File (f_pos b) (f_count b - 1)).

Fixpoint release_walk (fuel : nat) (a range : Z) : AM unit :=
  match fuel with
  | O => oops
  | S fuel =>
      if range =? a then mret tt
      else next ← on_unpinned (get_next range); range_del range ;; release_walk fuel a next
  end.

Definition free_area (a : Z) : AM unit :=
  modify (λ s, set_areas (delete a (areas s)) (set_unpinned (delete a (unpinned s)) s)).

Definition ashmem_release (a : Z) : AM Z :=
  s ← get;
  first ← on_unpinned (get_next a);
  release_walk (S (size (ranges s))) a first ;;
  ar ← get_area a;
  (match area_file ar with Some f => fput f | None => mret tt end) ;;
  free_area a ;;
  mret 0.

(** [f_read] is the read operation of the backing file: from the position it
    gives the result, an [int], and the new position. *)
Definition ashmem_read (f_read : Z -> Z -> Z * Z) (a len pos : Z) : AM (Z * Z) :=
  ar ← get_area a;
  if size_ ar =? 0 then mret (0, pos)
  else match area_file ar with
  | None => mret (- EBADF, pos)
  | Some f =>
      let '(ret, pos') := f_read len pos in
      if ret <? 0 then mret (ret, pos')
      else b ← get_backing f; put_backing f (File pos' (f_count b)) ;; mret (ret, pos')
  end.

(** [f_llseek] is the seek operation of the backing file, which gives a 64-bit
    result and sets the position.  The result is kept in an [int].  The returned
    pair is the result and the new [file->f_pos], when it is set. *)
Definition ashmem_llseek (f_llseek : Z -> Z -> Z -> Z * Z) (a offset origin : Z) : AM (Z * option Z) :=
  ar ← get_area a;
  if size_ ar =? 0 then mret (- EINVAL, None)
  else match area_file ar with
  | None => mret (- EBADF, None)
  | Some f =>
      b ← get_backing f;
      let '(r, pos') := f_llseek (f_pos b) offset origin in
      put_backing f (File pos' (f_count b)) ;;
      let ret := s32 r in
      if ret <? 0 then mret (ret, None) else mret (ret, Some pos')
  end.

Definition _calc_vm_trans (x bit1 bit2 : Z) : Z :=
  if bit1 <=? bit2 then Z.land x bit1 * (bit2 / bit1) else Z.land x bit1 / (bit1 / bit2).
Definition calc_vm_prot_bits (prot : Z) : Z :=
  Z.lor (_calc_vm_trans prot PROT_READ VM_READ)
    (Z.lor (_calc_vm_trans prot PROT_WRITE VM_WRITE) (_calc_vm_trans prot PROT_EXEC VM_EXEC)).
Definition calc_vm_may_flags (prot : Z) : Z :=
  Z.lor (_calc_vm_trans prot PROT_READ VM_MAYREAD)
    (Z.lor (_calc_vm_trans prot PROT_WRITE VM_MAYWRITE) (_calc_vm_trans prot PROT_EXEC VM_MAYEXEC)).

Definition put_vm_file (vma : vm_area_struct) : AM unit :=
  match vm_file vma with Some g => fput g | None => mret tt end.
Definition shmem_set_file (vma : vm_area_struct) (f : Z) : AM vm_area_struct :=
  put_vm_file vma ;; mret (Vma (vm_flags vma) (Some f) true).

(** [shmem_file_setup] gives a new file or an error. *)
Definition ashmem_mmap (shmem_file_setup : list Z -> Z -> Z -> Z + Z) (a : Z) (vma : vm_area_struct) :
    AM (Z * vm_area_struct) :=
  ar ← get_area a;
  if size_ ar =? 0 then mret (- EINVAL, vma)
  else if negb (Z.land (Z.land (vm_flags vma) (u32 (Z.lnot (calc_vm_prot_bits (prot_mask ar)))))
                       (calc_vm_prot_bits PROT_MASK) =? 0)
  then mret (- EPERM, vma)
  else
    let flags := Z.land (vm_flags vma) (u32 (Z.lnot (calc_vm_may_flags (u32 (Z.lnot (prot_mask ar)))))) in
    r ← match area_file ar with
        | Some f => mret (inl f)
        | None =>
            let nm := if negb (nth (Z.to_nat ASHMEM_NAME_PREFIX_LEN) (name ar) 0 =? 0)
                      then name ar else ASHMEM_NAME_DEF in
            match shmem_file_setup nm (size_ ar) flags with
            | inr err => mret (inr err)
            | inl f =>
                put_backing f (File 0 1) ;;
                put_area a (Area (name ar) (Some f) (size_ ar) (prot_mask ar)) ;;
                mret (inl f)
            end
        end;
    match r with
    | inr err => mret (err, Vma flags (vm_file vma) (vm_ops vma))
    | inl f =>
        get_file f ;;
        let vma := Vma flags (vm_file vma) (vm_ops vma) in
        vma ← (if negb (Z.land flags VM_SHARED =? 0) then shmem_set_file vma f
               else put_vm_file vma ;; mret (Vma (vm_flags vma) (Some f) (vm_ops vma)));
        mret (0, Vma (Z.lor (vm_flags vma) VM_CAN_NONLINEAR) (vm_file vma) (vm_ops vma))
    end.

(** ** Protection and names *)
Definition set_prot_mask (personality : Z) (a prot : Z) : AM Z :=
  ar ← get_area a;
  if negb (Z.land (prot_mask ar) prot =? prot) then mret (- EINVAL)
  else
    let prot := if negb (Z.land prot PROT_READ =? 0) && negb (Z.land personality READ_IMPLIES_EXEC =? 0)
                then Z.lor prot PROT_EXEC else prot in
    put_area a (Area (name ar) (area_file ar) (size_ ar) prot) ;;
    mret 0.

(** [copy_from_user] of [n] bytes of which the user can read [user]; the rest of
    the destination is cleared. *)
Definition copied (user : list Z) (n : nat) : list Z := take n user ++ replicate (n - length user) 0.

Definition set_name (a : Z) (user : list Z) : AM Z :=
  ar ← get_area a;
  match area_file ar with
  | Some _ => mret (- EINVAL)
  | None =>
      let n := Z.to_nat ASHMEM_NAME_LEN in
      let fault := (length user <? n)%nat in
      let nm := take (Z.to_nat ASHMEM_NAME_PREFIX_LEN) (name ar) ++ copied user n in
      let nm := <[Z.to_nat (ASHMEM_FULL_NAME_LEN - 1) := 0]> nm in
      put_area a (Area nm (area_file ar) (size_ ar) (prot_mask ar)) ;;
      mret (if fault then - EFAULT else 0)
  end.

Fixpoint strlen (s : list Z) : option nat :=
  match s with
  | [] => None
  | c :: s => if c =? 0 then Some O else S <$> strlen s
  end.

(** [room] bytes of the user's buffer can be written; the result comes with the
    bytes that arrive there. *)
Definition get_name (a : Z) (room : nat) : AM (Z * list Z) :=
  ar ← get_area a;
  let p := Z.to_nat ASHMEM_NAME_PREFIX_LEN in
  if negb (nth p (name ar) 0 =? 0) then
    match strlen (drop p (name ar)) with
    | None => oops
    | Some n =>
        let out := take (S n) (drop p (name ar)) in
        mret (if (room <? length out)%nat then - EFAULT else 0, take room out)
    end
  else mret (if (room <? length ASHMEM_NAME_DEF)%nat then - EFAULT else 0, take room ASHMEM_NAME_DEF).

(** ** Pinning and the ioctls *)
(** [struct ashmem_pin] *)
Record pin_arg := Pin { offset : Z; len : Z }.
Inductive pin_cmd := ASHMEM_PIN | ASHMEM_UNPIN | ASHMEM_GET_PIN_STATUS.

(** [pin] is [None] when the argument cannot be read. *)
Definition ashmem_pin_unpin (a : Z) (cmd : pin_cmd) (pin : option pin_arg) (alloc : option Z) : AM Z :=
  ar ← get_area a;
  match area_file ar, pin with
  | None, _ => mret (- EINVAL)
  | _, None => mret (- EFAULT)
  | _, Some p =>
      let len := if len p =? 0 then u32 (PAGE_ALIGN (size_ ar) - offset p) else len p in
      if negb (Z.land (Z.lor (offset p) len) (u32 (Z.lnot PAGE_MASK)) =? 0) then mret (- EINVAL)
      else if u32 (u32 (-1) - offset p) <? len then mret (- EINVAL)
      else if PAGE_ALIGN (size_ ar) <? u32 (offset p + len) then mret (- EINVAL)
      else
        let pgstart_ := offset p / PAGE_SIZE in
        let pgend_ := u32 (pgstart_ + len / PAGE_SIZE - 1) in
        match cmd with
        | ASHMEM_PIN => ashmem_pin a pgstart_ pgend_ alloc
        | ASHMEM_UNPIN => ashmem_unpin a pgstart_ pgend_ alloc
        | ASHMEM_GET_PIN_STATUS => ashmem_get_pin_status a pgstart_ pgend_
        end
  end.

(** The commands with their arguments; [capable] and [personality] are those of
    the caller. *)
Inductive ashmem_cmd :=
  | ASHMEM_SET_NAME (user : list Z) | ASHMEM_GET_NAME (room : nat)
  | ASHMEM_SET_SIZE (arg : Z) | ASHMEM_GET_SIZE
  | ASHMEM_SET_PROT_MASK (arg : Z) | ASHMEM_GET_PROT_MASK
  | ASHMEM_PIN_CMD (cmd : pin_cmd) (pin : option pin_arg)
  | ASHMEM_PURGE_ALL_CACHES | OTHER_CMD.

Definition ashmem_ioctl (personality : Z) (capable : bool) (alloc : option Z) (a : Z) (cmd : ashmem_cmd) :
    AM (Z * list Z) :=
  match cmd with
  | ASHMEM_SET_NAME user => ret ← set_name a user; mret (ret, [])
  | ASHMEM_GET_NAME room => get_name a room
  | ASHMEM_SET_SIZE arg =>
      ar ← get_area a;
      match area_file ar with
      | Some _ => mret (- EINVAL, [])
      | None => put_area a (Area (name ar) (area_file ar) arg (prot_mask ar)) ;; mret (0, [])
      end
  | ASHMEM_GET_SIZE => ar ← get_area a; mret (s32 (size_ ar), [])
  | ASHMEM_SET_PROT_MASK arg => ret ← set_prot_mask personality a arg; mret (ret, [])
  | ASHMEM_GET_PROT_MASK => ar ← get_area a; mret (s32 (prot_mask ar), [])
  | ASHMEM_PIN_CMD cmd pin => ret ← ashmem_pin_unpin a cmd pin alloc; mret (ret, [])
  | ASHMEM_PURGE_ALL_CACHES =>
      if capable then
        ret ← ashmem_shrink 0 GFP_KERNEL;
        ashmem_shrink ret GFP_KERNEL ;;
        mret (ret, [])
      else mret (- EPERM, [])
  | OTHER_CMD => mret (- ENOTTY, [])
  end.

Implicit Types (s : ashmem) (U : heads) (lr l : list Z) (V : gmap Z (list ashmem_range)) (ar : ashmem_area).

(** ** Page arithmetic *)
Lemma page_align_spec x : 0 <= x < 2 ^ 32 ->
  0 <= PAGE_ALIGN x <= 2 ^ 32 - PAGE_SIZE /\ PAGE_ALIGN x mod PAGE_SIZE = 0.
Proof.
  intros Hx. unfold PAGE_ALIGN. pose proof (u32_range (x + (PAGE_SIZE - 1))) as Hr.
  set (y := u32 (x + _)) in *. change PAGE_SIZE with (2 ^ 12). unfold u32.
  rewrite (land_not_ones 32 12) by lia. pose proof (Z.mod_pos_bound y (2 ^ 12)).
  rewrite Zminus_mod, Z.mod_mod, Z.sub_diag by lia. split; [|done]. pose proof (Z.div_mod y (2 ^ 12)). lia.
Qed.

Lemma page_bits x y : 0 <= x -> 0 <= y -> Z.land (Z.lor x y) (u32 (Z.lnot PAGE_MASK)) = 0 <-> x mod PAGE_SIZE = 0 /\ y mod PAGE_SIZE = 0.
Proof.
  intros Hx Hy. change (u32 (Z.lnot PAGE_MASK)) with (2 ^ 12 - 1).
  rewrite Z.land_lor_distr_l, !land_ones_mod by lia. apply Z.lor_eq_0_iff.
Qed.

(** The arguments that pass the checks of [ashmem_pin_unpin], except those with a
    length that is zero after the default has been put in, name a nonempty
    interval of pages of the area. *)
Definition pin_valid ar (p : pin_arg) : Prop :=
  0 <= offset p < 2 ^ 32 /\ 0 <= len p < 2 ^ 32 /\ (len p = 0 -> offset p <> PAGE_ALIGN (size_ ar)).
(** The exception: length 0 at the end of the area. *)
Definition pin_empty ar (p : pin_arg) : Prop := len p = 0 /\ offset p = PAGE_ALIGN (size_ ar).

(** The length in bytes, and what the checks accept. *)
Definition pin_len ar (p : pin_arg) : Z := if len p =? 0 then PAGE_ALIGN (size_ ar) - offset p else len p.
Definition pin_accepted ar (p : pin_arg) : Prop :=
  offset p mod PAGE_SIZE = 0 /\ pin_len ar p mod PAGE_SIZE = 0 /\ 0 < pin_len ar p /\ offset p + pin_len ar p <= PAGE_ALIGN (size_ ar).
Definition pin_op (cmd : pin_cmd) (a ps pe : Z) (alloc : option Z) : AM Z :=
  match cmd with
  | ASHMEM_PIN => ashmem_pin a ps pe alloc
  | ASHMEM_UNPIN => ashmem_unpin a ps pe alloc
  | ASHMEM_GET_PIN_STATUS => ashmem_get_pin_status a ps pe
  end.

Lemma accepted_dec ar p : Decision (pin_accepted ar p).
Proof. unfold pin_accepted. apply _. Qed.

(** The exception passes all checks with an interval that ends before it starts. *)
Lemma pin_empty_run s a ar f cmd p alloc : areas s !! a = Some ar -> area_file ar = Some f -> 0 <= size_ ar < 2 ^ 32 -> pin_empty ar p ->
  ashmem_pin_unpin a cmd (Some p) alloc s = pin_op cmd a (offset p / PAGE_SIZE) (u32 (offset p / PAGE_SIZE - 1)) alloc s.
Proof.
  intros Ha Hf Hsz [Hl Ho]. destruct (page_align_spec _ Hsz) as [Hal1 Hal2]. rewrite <-Ho in Hal1, Hal2.
  unfold ashmem_pin_unpin. erewrite bind_run by (by apply get_area_run). rewrite Hf, Hl, <-Ho, Z.sub_diag.
  change (0 =? 0) with true. change (u32 0) with 0. cbv beta iota zeta.
  rewrite (proj2 (page_bits (offset p) 0 ltac:(lia) ltac:(lia))) by done. change (0 / PAGE_SIZE) with 0. rewrite !Z.add_0_r.
  change (u32 (-1)) with (2 ^ 32 - 1). change PAGE_SIZE with 4096 in Hal1.
  rewrite (u32_small (2 ^ 32 - 1 - offset p)), (u32_small (offset p)) by lia. cbn [negb Z.eqb].
  rewrite (proj2 (Z.ltb_ge (2 ^ 32 - 1 - offset p) 0)), (proj2 (Z.ltb_ge (offset p) (offset p))) by lia. by destruct cmd.
Qed.

Lemma pin_unpin_cases s a ar f cmd p alloc : areas s !! a = Some ar -> area_file ar = Some f -> 0 <= size_ ar < 2 ^ 32 -> pin_valid ar p ->
  (~ pin_accepted ar p -> ashmem_pin_unpin a cmd (Some p) alloc s = Some (- EINVAL, s)) /\
  (pin_accepted ar p -> exists ps pe, 0 <= ps <= pe /\ pe < 2 ^ 20 /\ ps * PAGE_SIZE = offset p /\
    (pe + 1) * PAGE_SIZE = offset p + pin_len ar p /\
    ashmem_pin_unpin a cmd (Some p) alloc s = pin_op cmd a ps pe alloc s).
Proof.
  intros Ha Hf Hsz (Ho & Hl & Hne). destruct (page_align_spec _ Hsz) as [Hal Hal2].
  unfold ashmem_pin_unpin. erewrite bind_run by (by apply get_area_run). rewrite Hf.
  set (n := if len p =? 0 then u32 _ else _).
  assert (n = u32 (pin_len ar p)) as En.
  { unfold n, pin_len. destruct (len p =? 0); [done|]. by rewrite u32_small. }
  pose proof (u32_range (pin_len ar p)) as Hn. rewrite <-En in Hn.
  change (u32 (-1)) with (2 ^ 32 - 1). rewrite (u32_small (2 ^ 32 - 1 - offset p)) by lia.
  assert (0 < n /\ (pin_len ar p <= 0 -> 2 ^ 32 - 1 - offset p < n) /\ (0 < pin_len ar p -> n = pin_len ar p)) as (Hn0 & Hneg & Hpos).
  { rewrite En. unfold pin_len. destruct (Z.eqb_spec (len p) 0) as [E|].
    - specialize (Hne E). change PAGE_SIZE with 4096 in Hal. destruct (Z.leb_spec (PAGE_ALIGN (size_ ar)) (offset p)).
      + replace (u32 (PAGE_ALIGN (size_ ar) - offset p)) with (PAGE_ALIGN (size_ ar) - offset p + 2 ^ 32); [lia|].
        unfold u32. apply (Z.mod_unique_pos _ _ (-1)); lia.
      + rewrite u32_small by lia. lia.
    - rewrite u32_small by lia. lia. }
  split.
  - intros Hno. destruct (Z.eqb_spec (Z.land (Z.lor (offset p) n) (u32 (Z.lnot PAGE_MASK))) 0) as [[H1 H2]%page_bits|]; [|lia..|done].
    cbn [negb]. destruct (Z.ltb_spec (2 ^ 32 - 1 - offset p) n) as [|H3]; [done|].
    destruct (Z.ltb_spec (PAGE_ALIGN (size_ ar)) (u32 (offset p + n))) as [|H4]; [done|].
    rewrite u32_small in H4 by lia. destruct Hno. assert (n = pin_len ar p) as En' by lia. rewrite En' in H2, H4, Hn0. done.
  - intros (H1 & H2 & H3 & H4). rewrite (Hpos H3) in *. clear n En Hpos Hneg.
    change PAGE_SIZE with 4096 in Hal.
    rewrite (proj2 (Z.eqb_eq _ _) (proj2 (page_bits (offset p) (pin_len ar p) ltac:(lia) ltac:(lia)) (conj H1 H2))). cbn [negb].
    rewrite (proj2 (Z.ltb_ge (2 ^ 32 - 1 - offset p) _)) by lia.
    rewrite (u32_small (offset p + _)), (proj2 (Z.ltb_ge (PAGE_ALIGN _) _)) by lia.
    change PAGE_SIZE with 4096 in *. pose proof (Z.div_mod (offset p) 4096). pose proof (Z.div_mod (pin_len ar p) 4096).
    assert (0 <= offset p / 4096) by (apply Z.div_pos; lia). rewrite u32_small by lia.
    eexists _, _. split_and!; [| | | | |by destruct cmd]; lia.
Qed.

(** ** Changes of the areas *)
Lemma shape_areas s s' U lr : shape s U lr -> unpinned s' = unpinned s -> lru s' = lru s -> ranges s' = ranges s ->
  lru_count s' = lru_count s -> (forall a, is_Some (areas s' !! a) <-> is_Some (areas s !! a)) ->
  (forall a ar f, areas s !! a = Some ar -> area_file ar = Some f -> exists ar' f', areas s' !! a = Some ar' /\ area_file ar' = Some f') ->
  shape s' U lr.
Proof.
  intros [Hu Hlr Hh He Hr Hon Hc Hf Hz] E1 E2 E3 E4 Ha Hfile. split; rewrite ?E1, ?E2, ?E3, ?E4; try done.
  - intros a. by rewrite Ha.
  - intros x r Hx. destruct (Hf x r Hx) as (ar & f & H1 & H2). by eapply Hfile.
Qed.

(** The file of an area does not change and is the area's own. *)
Lemma ash_put_area s V lr a ar ar' : ash s V lr -> areas s !! a = Some ar ->
  Z.of_nat (length (name ar')) = ASHMEM_FULL_NAME_LEN -> name ar' !! Z.to_nat (ASHMEM_FULL_NAME_LEN - 1) = Some 0 ->
  0 <= size_ ar' < 2 ^ 32 -> area_file ar' = area_file ar -> ash (set_areas (<[a := ar']> (areas s)) s) V lr.
Proof.
  intros ((U & H & Hv) & Hd & [A1 A2 A3 A4]) Ha Hn1 Hn2 Hsz Hf. split_and!; [|done|split; cbn].
  - exists U. split; [|done]. eapply shape_areas; [exact H|done..| |]; cbn.
    + intros b. destruct (decide (b = a)) as [->|]; [rewrite lookup_insert_eq, Ha; naive_solver|by rewrite lookup_insert_ne].
    + intros b br f Hb Hbf. destruct (decide (b = a)) as [->|]; [|rewrite lookup_insert_ne by done; eauto].
      rewrite lookup_insert_eq. rewrite Ha in Hb. injection Hb as <-. exists ar', f. by rewrite Hf.
  - intros b br [[<- <-]|[_ Hb]]%lookup_insert_Some; [done|by eapply A1].
  - intros b br [[<- <-]|[_ Hb]]%lookup_insert_Some; [done|by eapply A2].
  - intros b br f [[<- <-]|[_ Hb]]%lookup_insert_Some Hbf; [|by eapply A3]. rewrite Hf in Hbf. by eapply A3.
  - assert (forall b br f, <[a := ar']> (areas s) !! b = Some br -> area_file br = Some f ->
      exists br0, areas s !! b = Some br0 /\ area_file br0 = Some f) as Hold.
    { intros b br f [[<- <-]|[_ Hb]]%lookup_insert_Some Hbf; [exists ar; by rewrite <-Hf|eauto]. }
    intros b c br cr f Hb Hc Hbf Hcf. destruct (Hold _ _ _ Hb Hbf) as (? & ? & ?), (Hold _ _ _ Hc Hcf) as (? & ? & ?). by eapply A4.
Qed.

Lemma ash_area s V lr a ar : ash s V lr -> areas s !! a = Some ar -> exists rs, V !! a = Some rs.
Proof.
  intros ((U & H & Hv) & _) Ha. destruct (proj1 (sh_heads _ _ _ H a)) as [l El]; [eauto|].
  specialize (Hv a). rewrite El in Hv. inversion Hv; eauto.
Qed.

(** ** Pinning through the ioctl *)
Lemma pin_unpin_run s V lr a ar cmd pin alloc : ash s V lr -> areas s !! a = Some ar ->
  (forall x, alloc = Some x -> fresh s x) -> (forall p, pin = Some p -> pin_valid ar p) ->
  exists ret s' V' lr', ashmem_pin_unpin a cmd pin alloc s = Some (ret, s') /\ ash s' V' lr'.
Proof.
  intros Hash Ha Hal Hpin. unfold ashmem_pin_unpin. erewrite bind_run by (by apply get_area_run).
  assert (forall ret : Z, exists ret' s' V' lr', Some (ret, s) = Some (ret', s') /\ ash s' V' lr') as Hret by eauto 10.
  destruct (area_file ar) as [f|] eqn:Hf; [|apply Hret]. destruct pin as [p|]; [|apply Hret].
  pose proof Hash as (_ & _ & [_ A2 _ _]).
  destruct (pin_unpin_cases s a ar f cmd p alloc Ha Hf (A2 _ _ Ha) (Hpin p eq_refl)) as [Hno Hyes].
  unfold ashmem_pin_unpin in Hno, Hyes. erewrite bind_run, Hf in Hno by (by apply get_area_run).
  erewrite bind_run, Hf in Hyes by (by apply get_area_run).
  destruct (accepted_dec ar p) as [Hacc|Hacc]; [|rewrite Hno by done; apply Hret].
  destruct (Hyes Hacc) as (ps & pe & P1 & P2 & _ & _ & ->).
  destruct (ash_area _ _ _ _ _ Hash Ha) as (rs & Hrs). destruct cmd; cbn [pin_op].
  - destruct (ashmem_pin_run _ _ _ _ _ _ _ _ Hash Hrs Hal P1 P2) as (s' & lr' & -> & Hash'). eauto 10.
  - destruct (ashmem_unpin_run _ _ _ _ _ _ _ _ _ _ Hash Hrs Ha Hf Hal P1 P2) as (ret & s' & rs' & lr' & -> & Hash' & _). eauto 10.
  - destruct (ashmem_get_pin_status_run _ _ _ _ _ _ _ Hash Hrs (proj2 P1)) as (ret & -> & _). eauto 10.
Qed.

(** C37: the ioctl for unpinning accepts the page-aligned nonempty intervals of bytes
    inside the area, with length 0 for everything from the offset on, and then adds
    exactly the pages of these bytes to the unpinned ones.  Every other argument is
    rejected with [EINVAL] and changes nothing, except length 0 at the very end of
    the area: this one passes the checks, and [ashmem_unpin] gets an interval that
    ends one page before it starts. *)
Theorem ashmem_unpin_ioctl_bounds s V lr a ar f p x rs : ash s V lr -> areas s !! a = Some ar -> area_file ar = Some f ->
  0 <= offset p < 2 ^ 32 -> 0 <= len p < 2 ^ 32 -> V !! a = Some rs -> fresh s x ->
  (pin_accepted ar p -> exists s' rs' lr', ashmem_pin_unpin a ASHMEM_UNPIN (Some p) (Some x) s = Some (0, s') /\
    ash s' (<[a := rs']> V) lr' /\
    forall pg, covers rs' pg <-> covers rs pg \/ offset p <= pg * PAGE_SIZE < offset p + pin_len ar p) /\
  (~ pin_accepted ar p -> ~ pin_empty ar p -> ashmem_pin_unpin a ASHMEM_UNPIN (Some p) (Some x) s = Some (- EINVAL, s)) /\
  (pin_empty ar p -> ashmem_pin_unpin a ASHMEM_UNPIN (Some p) (Some x) s =
    ashmem_unpin a (offset p / PAGE_SIZE) (u32 (offset p / PAGE_SIZE - 1)) (Some x) s).
Proof.
  intros Hash Ha Hf Ho Hl Hrs Hx. pose proof Hash as (_ & _ & [_ A2 _ _]).
  split; [|split; [intros Hacc He|intros He; by apply (pin_empty_run s a ar f ASHMEM_UNPIN p (Some x) Ha Hf (A2 _ _ Ha) He)]].
  2: { apply (pin_unpin_cases s a ar f ASHMEM_UNPIN p (Some x) Ha Hf (A2 _ _ Ha)); [|done]. split_and!; [lia..|]. intros E E'. by apply He. }
  intros Hacc. assert (pin_valid ar p) as Hpin.
  { split_and!; [lia..|]. intros E E'. destruct Hacc as (_ & _ & H & _). unfold pin_len in H. rewrite E, E' in H. cbn in H. lia. }
  destruct (pin_unpin_cases s a ar f ASHMEM_UNPIN p (Some x) Ha Hf (A2 _ _ Ha) Hpin) as [_ Hyes].
  destruct (Hyes Hacc) as (ps & pe & P1 & P2 & P3 & P4 & ->). cbn [pin_op].
  destruct (ashmem_unpin_run s V lr a ar f rs ps pe (Some x)) as (ret & s' & rs' & lr' & -> & Hash' & Hup); try done; [by intros ? [= <-]|].
  destruct (up_covers _ _ _ _ _ _ _ Hup eq_refl) as [-> Hc]. exists s', rs', lr'. split_and!; [done..|].
  intros pg. rewrite Hc, <-P4, <-P3. change PAGE_SIZE with 4096. split; (intros [?|?]; [by left|right; lia]).
Qed.

(** ** Opening and releasing *)
Lemma ashmem_open_run s V lr a : ash s V lr -> fresh s a ->
  exists s', ashmem_open 0 (Some a) s = Some ((0, Some a), s') /\ ash s' (<[a := []]> V) lr /\
    areas s' = <[a := Area (ASHMEM_NAME_PREFIX ++ replicate (Z.to_nat ASHMEM_NAME_LEN) 0) None 0 PROT_MASK]> (areas s).
Proof.
  intros ((U & H & Hv) & Hd & [A1 A2 A3 A4]) Hfr. destruct (shape_fresh _ _ _ _ H Hfr) as (Fr & Fh & Fz).
  pose proof H as [Hu Hlr Hh He Hr Hon Hc Hf Hz]. pose proof (unowned_free _ _ _ Hu (proj1 Hfr)) as Hno.
  assert (areas s !! a = None) as Fa. { apply eq_None_not_Some. rewrite Hh, Fh. by intros []. }
  destruct (INIT_LIST_HEAD_dlist (<[a := ListHead 0 0]> (unpinned s)) a) as (m & Hinit & Hd1 & Hs1);
    [unfold allocated; rewrite lookup_insert_eq; eauto|].
  set (ar := Area _ _ _ _). exists (set_areas (<[a := ar]> (areas s)) (set_unpinned m s)). split_and!; [| |done].
  - unfold ashmem_open. cbn [Z.eqb negb]. erewrite bind_run by done. by erewrite bind_run by (by apply on_unpinned_run).
  - split_and!; [exists (<[a := []]> U); split; [split; cbn|]| |split; cbn].
    + eapply lrep_fresh; [by apply heap_store|done|done|done].
    + done.
    + intros b. destruct (decide (b = a)) as [->|]; [rewrite !lookup_insert_eq; naive_solver|by rewrite !lookup_insert_ne].
    + intros x r Hx. destruct (He _ _ Hx) as (l & El & Hl). exists l. split; [|done]. rewrite lookup_insert_ne; [done|congruence].
    + intros b l x [[<- <-]|[_ El]]%lookup_insert_Some Hl; [set_solver +Hl|by eapply Hr].
    + done.
    + done.
    + intros x r Hx. destruct (Hf _ _ Hx) as (br & f & Hb & Hbf). exists br, f. split; [|done].
      rewrite lookup_insert_ne; [done|congruence].
    + done.
    + intros b. destruct (decide (b = a)) as [->|]; [rewrite !lookup_insert_eq; repeat constructor|rewrite !lookup_insert_ne by done; apply Hv].
    + intros b rs [[<- <-]|[_ Hb]]%lookup_insert_Some; [split; constructor|by eapply Hd].
    + intros b br [[<- <-]|[_ Hb]]%lookup_insert_Some; [done|by eapply A1].
    + intros b br [[<- <-]|[_ Hb]]%lookup_insert_Some; [done|by eapply A2].
    + intros b br f [[<- <-]|[_ Hb]]%lookup_insert_Some Hbf; [done|by eapply A3].
    + intros b c br cr f [[<- <-]|[_ Hb]]%lookup_insert_Some [[<- <-]|[_ Hc']]%lookup_insert_Some Hbf Hcf; try done. by eapply A4.
Qed.

Lemma release_walk_run a l : forall fuel s U lr, shape s U lr -> U !! a = Some l -> (length l < fuel)%nat ->
  exists s', release_walk fuel a (hd a l) s = Some (tt, s') /\ rewrites s U a [] l None [] s'.
Proof.
  induction l as [|x l IH]; intros [|fuel] s U lr H E Hfuel; cbn in Hfuel; try lia; cbn [hd release_walk].
  { rewrite Z.eqb_refl. exists s. split; [done|]. eapply rewrites_refl; [done|done|constructor]. }
  destruct (list_entry s U lr a [] x l H E) as (-> & Hxl & Hnext). erewrite bind_run by exact Hnext.
  destruct (sh_ranges _ _ _ H _ _ x E) as (r & Hr & _); [set_solver +|].
  destruct (range_del_run s U lr a [] x l r H E Hr) as (s1 & lr1 & Hdel & H1 & Hr1 & Hs1 & _).
  erewrite bind_run by exact Hdel. destruct (IH fuel s1 (<[a := l]> U) lr1 H1) as (s' & Hrun & Hrw); [apply lookup_insert_eq|lia|].
  exists s'. split; [done|]. by eapply (rewrites_drop s s1 U a [] x l).
Qed.

Lemma fput_run s f b : files s !! f = Some b ->
  exists F, fput f s = Some (tt, set_files F s) /\ forall g, g <> f -> F !! g = files s !! g.
Proof.
  intros Hf. unfold fput, get_backing. erewrite bind_run by (by rewrite Hf). destruct (f_count b =? 1); eexists; (split; [done|]).
  - intros g Hg. by apply lookup_delete_ne.
  - intros g Hg. by apply lookup_insert_ne.
Qed.

Lemma shape_files s F U lr : shape s U lr -> shape (set_files F s) U lr.
Proof. intros H. eapply shape_areas; [exact H|done..|]. eauto. Qed.

(** An area without ranges goes, with its reference to the file. *)
Lemma ash_free_area s V lr a ar F : ash s (<[a := []]> V) lr -> areas s !! a = Some ar ->
  (forall g, area_file ar <> Some g -> F !! g = files s !! g) ->
  ash (set_areas (delete a (areas s)) (set_unpinned (delete a (unpinned s)) (set_files F s))) (delete a V) lr.
Proof.
  intros ((U & H & Hv) & Hd & [A1 A2 A3 A4]) Ha HF. pose proof H as [Hu Hlr Hh He Hr Hon Hc Hf Hz].
  assert (U !! a = Some []) as Ea.
  { specialize (Hv a). rewrite lookup_insert_eq in Hv. inversion Hv as [l rs Hl El Ev|]; subst. by inversion Hl; subst. }
  assert (forall x r, ranges s !! x = Some r -> asma r <> a) as Hother.
  { intros x r Hx Hra. destruct (He _ _ Hx) as (l & El & Hl). rewrite Hra, Ea in El. injection El as <-. set_solver +Hl. }
  split_and!; [exists (delete a U); split; [split; cbn|]| |split; cbn].
  - apply heap_free; [by apply lrep_delete|]. by eapply idle_unowned.
  - done.
  - intros b. destruct (decide (b = a)) as [->|]; [rewrite !lookup_delete_eq; by split; intros []|by rewrite !lookup_delete_ne].
  - intros x r Hx. rewrite lookup_delete_ne by (apply not_eq_sym; by eapply Hother). by apply He.
  - intros b l x [_ El]%lookup_delete_Some Hl. by eapply Hr.
  - done.
  - done.
  - intros x r Hx. rewrite lookup_delete_ne by (apply not_eq_sym; by eapply Hother). by eapply Hf.
  - done.
  - intros b. destruct (decide (b = a)) as [->|Hne]; [rewrite !lookup_delete_eq; constructor|].
    rewrite !lookup_delete_ne by done. specialize (Hv b). by rewrite lookup_insert_ne in Hv.
  - intros b rs [Hne Hb]%lookup_delete_Some. apply (Hd b). by rewrite lookup_insert_ne.
  - intros b br [_ Hb]%lookup_delete_Some. by eapply A1.
  - intros b br [_ Hb]%lookup_delete_Some. by eapply A2.
  - intros b br f [Hne Hb]%lookup_delete_Some Hbf. rewrite HF; [by eapply A3|]. intros Haf. apply Hne. by eapply A4.
  - intros b c br cr f [_ Hb]%lookup_delete_Some [_ Hc']%lookup_delete_Some. by eapply A4.
Qed.

(** Releasing an area deletes its ranges from its list, from the list of ranges that
    can be purged and from memory, with their pages taken from the count, and drops
    the area and its reference to the file; the other areas keep their ranges. *)
Lemma ashmem_release_run s V lr a ar : ash s V lr -> areas s !! a = Some ar ->
  exists s' lr', ashmem_release a s = Some (0, s') /\ ash s' (delete a V) lr' /\ areas s' = delete a (areas s) /\
    (forall x r, ranges s' !! x = Some r -> asma r <> a) /\ lru_count s' = u32 (pages (ranges s') lr').
Proof.
  intros Hash Ha. pose proof Hash as ((U & H & Hv) & _ & Hao). destruct (ash_area _ _ _ _ _ Hash Ha) as (rs & Hrs).
  destruct (views_lookup _ _ _ _ _ Hv Hrs) as (l & E & He). pose proof (list_length _ _ _ _ _ H E).
  destruct (release_walk_run a l (S (size (ranges s))) s U lr H E) as (s1 & Hrun & Hrw); [lia|].
  destruct (ash_rewrites s V lr U a l None [] s1 Hash H Hv E) as (lr' & Hash1); [done|done|constructor|constructor|].
  assert (areas s1 = areas s /\ files s1 = files s) as [Ea1 Ef1] by (destruct Hrw as (? & ? & _ & _ & _ & ? & ? & _); done).
  assert (exists F, (match area_file ar with Some f => fput f | None => mret tt end) s1 = Some (tt, set_files F s1) /\
    forall g, area_file ar <> Some g -> F !! g = files s1 !! g) as (F & Hput & HF).
  { destruct (area_file ar) as [f|] eqn:Hf.
    - destruct (ao_file _ Hao _ _ _ Ha Hf) as [b Hb]. rewrite <-Ef1 in Hb. destruct (fput_run _ _ _ Hb) as (F & -> & HF).
      exists F. split; [done|]. intros g Hg. apply HF. congruence.
    - exists (files s1). split; [by destruct s1|done]. }
  rewrite <-Ea1 in Ha. pose proof (ash_free_area _ _ _ _ _ _ Hash1 Ha HF) as Hash2. eexists _, lr'. split_and!; [|exact Hash2|..].
  - unfold ashmem_release. erewrite bind_run by done. erewrite bind_run by (by eapply list_first).
    erewrite bind_run by exact Hrun. erewrite bind_run by (by apply get_area_run). by erewrite bind_run by exact Hput.
  - cbn. by rewrite Ea1.
  - destruct Hash2 as ((U' & H' & Hv') & _). intros x r Hx Hra. destruct (sh_entries _ _ _ H' _ _ Hx) as (k & Ek & _).
    specialize (Hv' a). rewrite <-Hra, Ek in Hv'. rewrite Hra, lookup_delete_eq in Hv'. inversion Hv'.
  - destruct Hash2 as ((U' & H' & _) & _). exact (sh_count _ _ _ H').
Qed.

(** ** Mapping *)
Lemma ash_set_file s V lr a ar f b : ash s V lr -> areas s !! a = Some ar -> area_file ar = None -> files s !! f = None ->
  ash (set_areas (<[a := Area (name ar) (Some f) (size_ ar) (prot_mask ar)]> (areas s)) (set_files (<[f := b]> (files s)) s)) V lr.
Proof.
  intros ((U & H & Hv) & Hd & [A1 A2 A3 A4]) Ha Hn Hf. split_and!; [|done|split; cbn].
  - exists U. split; [|done]. eapply shape_areas; [exact H|done..| |]; cbn.
    + intros c. destruct (decide (c = a)) as [->|]; [rewrite lookup_insert_eq, Ha; naive_solver|by rewrite lookup_insert_ne].
    + intros c cr g Hc Hg. destruct (decide (c = a)) as [->|]; [congruence|]. rewrite lookup_insert_ne by done. eauto.
  - intros c cr [[<- <-]|[_ Hc]]%lookup_insert_Some; [exact (A1 _ _ Ha)|by eapply A1].
  - intros c cr [[<- <-]|[_ Hc]]%lookup_insert_Some; [exact (A2 _ _ Ha)|by eapply A2].
  - intros c cr g [[<- <-]|[_ Hc]]%lookup_insert_Some Hg.
    + injection Hg as <-. rewrite lookup_insert_eq. eauto.
    + destruct (decide (g = f)) as [->|]; [rewrite lookup_insert_eq; eauto|rewrite lookup_insert_ne by done; by eapply A3].
  - assert (forall c cr, areas s !! c = Some cr -> area_file cr = Some f -> False) as Hnew.
    { intros c cr Hc Hcf. destruct (A3 _ _ _ Hc Hcf) as [? Hb]. by rewrite Hf in Hb. }
    intros c d cr dr g [[<- <-]|[_ Hc]]%lookup_insert_Some [[<- <-]|[_ Hd']]%lookup_insert_Some Hcg Hdg; try done.
    + injection Hcg as <-. destruct (Hnew _ _ Hd' Hdg). + injection Hdg as <-. destruct (Hnew _ _ Hc Hcg). + by eapply A4.
Qed.

Lemma ash_files s V lr F : ash s V lr ->
  (forall a ar f, areas s !! a = Some ar -> area_file ar = Some f -> is_Some (F !! f)) -> ash (set_files F s) V lr.
Proof.
  intros ((U & H & Hv) & Hd & [A1 A2 A3 A4]) HF. split_and!; [|done|by split].
  exists U. split; [by apply shape_files|done].
Qed.

(** The flags of a mapping that the area does not allow. *)
Definition denied (mask flags : Z) : Z :=
  Z.land (Z.land flags (u32 (Z.lnot (calc_vm_prot_bits mask)))) (calc_vm_prot_bits PROT_MASK).
Definition restricted (mask flags : Z) : Z := Z.land flags (u32 (Z.lnot (calc_vm_may_flags (u32 (Z.lnot mask))))).

(** What the caller of [ashmem_mmap] provides: a new file, and a mapping that does
    not hold the last reference to the file of an area. *)
Definition mmap_valid s (setup : list Z -> Z -> Z -> Z + Z) (vma : vm_area_struct) : Prop :=
  (forall nm sz fl f, setup nm sz fl = inl f -> files s !! f = None) /\ (forall nm sz fl err, setup nm sz fl = inr err -> err < 0) /\
  (forall g, vm_file vma = Some g -> is_Some (files s !! g) /\ forall b br, areas s !! b = Some br -> area_file br <> Some g).

(** The end of [ashmem_mmap]: the mapping gets a reference to the file. *)
Definition attach (vma : vm_area_struct) (f flags : Z) : AM (Z * vm_area_struct) :=
  get_file f ;;
  let vma := Vma flags (vm_file vma) (vm_ops vma) in
  vma ← (if negb (Z.land flags VM_SHARED =? 0) then shmem_set_file vma f
         else put_vm_file vma ;; mret (Vma (vm_flags vma) (Some f) (vm_ops vma)));
  mret (0, Vma (Z.lor (vm_flags vma) VM_CAN_NONLINEAR) (vm_file vma) (vm_ops vma)).

Lemma attach_run s V lr f vma flags : ash s V lr -> is_Some (files s !! f) ->
  (forall g, vm_file vma = Some g -> g <> f /\ is_Some (files s !! g) /\ forall b br, areas s !! b = Some br -> area_file br <> Some g) ->
  exists s' ops, attach vma f flags s = Some ((0, Vma (Z.lor flags VM_CAN_NONLINEAR) (Some f) ops), s') /\
    ash s' V lr /\ areas s' = areas s /\ is_Some (files s' !! f).
Proof.
  intros Hash [b Hb] Hg. unfold attach, get_file, get_backing. rewrite bind_assoc. erewrite bind_run by (by rewrite Hb).
  erewrite bind_run by done. set (F := <[f := _]> (files s)).
  assert (forall g, is_Some (files s !! g) -> is_Some (F !! g)) as HF.
  { intros g Hs. unfold F. destruct (decide (g = f)) as [->|]; [rewrite lookup_insert_eq; eauto|by rewrite lookup_insert_ne]. }
  assert (ash (set_files F s) V lr) as Hash1.
  { apply ash_files; [done|]. intros a ar g Ha Hag. apply HF. destruct Hash as (_ & _ & Hao). by eapply (ao_file _ Hao). }
  assert (exists s', put_vm_file (Vma flags (vm_file vma) (vm_ops vma)) (set_files F s) = Some (tt, s') /\ ash s' V lr /\
    areas s' = areas s /\ is_Some (files s' !! f)) as (s' & Hput & Hs').
  { unfold put_vm_file. cbn [vm_file]. destruct (vm_file vma) as [g|].
    - destruct (Hg g eq_refl) as (Hne & Hgs & Hown). destruct (HF g Hgs) as [c Hc].
      destruct (fput_run (set_files F s) g c Hc) as (F' & Hput & HF').
      exists (set_files F' (set_files F s)). split_and!; [done| |done|].
      + apply ash_files; [done|]. intros a ar h Ha Hah. rewrite HF' by (intros ->; by eapply Hown).
        destruct Hash1 as (_ & _ & Hao). by eapply (ao_file _ Hao).
      + cbn. rewrite HF' by congruence. unfold F. cbn. rewrite lookup_insert_eq. eauto.
    - exists (set_files F s). split_and!; [done|done|done|]. cbn. unfold F. rewrite lookup_insert_eq. eauto. }
  destruct (negb _); eexists s', _; (split; [|exact Hs']).
  - unfold shmem_set_file. rewrite bind_assoc. by erewrite bind_run by exact Hput.
  - rewrite bind_assoc. by erewrite bind_run by exact Hput.
Qed.

Lemma mmap_run s V lr a ar setup vma : ash s V lr -> areas s !! a = Some ar -> mmap_valid s setup vma ->
  exists ret vma' s', ashmem_mmap setup a vma s = Some ((ret, vma'), s') /\ ash s' V lr /\
    (ret = 0 -> size_ ar <> 0 /\ denied (prot_mask ar) (vm_flags vma) = 0 /\
      vm_flags vma' = Z.lor (restricted (prot_mask ar) (vm_flags vma)) VM_CAN_NONLINEAR /\
      exists ar' f, areas s' !! a = Some ar' /\ area_file ar' = Some f /\ vm_file vma' = Some f /\ is_Some (files s' !! f)).
Proof.
  intros Hash Ha (Hnew & Herr & Hvm). unfold ashmem_mmap. erewrite bind_run by (by apply get_area_run).
  fold (denied (prot_mask ar) (vm_flags vma)). fold (restricted (prot_mask ar) (vm_flags vma)).
  destruct (Z.eqb_spec (size_ ar) 0) as [|Hsz]; [by eexists _, _, s|].
  destruct (Z.eqb_spec (denied (prot_mask ar) (vm_flags vma)) 0) as [Hden|]; [|by eexists _, _, s]. cbn [negb].
  destruct (area_file ar) as [f|] eqn:Hf.
  - erewrite bind_run by done. pose proof Hash as (_ & _ & Hao).
    fold (attach vma f (restricted (prot_mask ar) (vm_flags vma))).
    destruct (attach_run s V lr f vma (restricted (prot_mask ar) (vm_flags vma))) as (s' & ops & Hrun & Hash' & Ea & Hfs);
      [done|by eapply (ao_file _ Hao)| |].
    { intros g Hg. destruct (Hvm g Hg) as [? Hown]. split_and!; [|done|done]. intros ->. by eapply Hown. }
    eexists _, _, s'. split_and!; [exact Hrun|done|]. intros _. split_and!; [done..|]. exists ar, f. by rewrite Ea.
  - set (nm := if negb _ then _ else _). destruct (setup nm (size_ ar) _) as [f|err] eqn:Hset.
    + erewrite bind_run by done. pose proof (Hnew _ _ _ _ Hset) as Hfn.
      pose proof (ash_set_file s V lr a ar f (File 0 1) Hash Ha Hf Hfn) as Hash1. set (s1 := set_areas _ _) in Hash1.
      fold (attach vma f (restricted (prot_mask ar) (vm_flags vma))).
      destruct (attach_run s1 V lr f vma (restricted (prot_mask ar) (vm_flags vma))) as (s' & ops & Hrun & Hash' & Ea & Hfs);
        [done|cbn; rewrite lookup_insert_eq; eauto| |].
      { intros g Hg. destruct (Hvm g Hg) as [[c Hc] Hown]. assert (g <> f) as Hne by congruence. split_and!; [done| |].
        - cbn. rewrite lookup_insert_ne by done. eauto.
        - cbn. intros b br [[<- <-]|[_ Hb]]%lookup_insert_Some; [cbn; congruence|by eapply Hown]. }
      eexists _, _, s'. split_and!; [exact Hrun|done|]. intros _. split_and!; [done..|]. eexists _, f. rewrite Ea. cbn.
      rewrite lookup_insert_eq. done.
    + eexists _, _, s. split_and!; [done|done|]. intros ->. specialize (Herr _ _ _ _ Hset). lia.
Qed.

(** ** Protection bits *)
Lemma land_pow2 x i : 0 <= i -> Z.land x (2 ^ i) = if Z.testbit x i then 2 ^ i else 0.
Proof.
  intros Hi. apply Z.bits_inj'. intros n Hn. rewrite Z.land_spec, Z.pow2_bits_eqb by done.
  destruct (Z.eqb_spec i n) as [<-|]; destruct (Z.testbit x i) eqn:E; rewrite ?Z.pow2_bits_eqb, ?Z.bits_0, ?E, ?andb_false_r by done; try done.
  - by rewrite Z.eqb_refl. - symmetry. by apply Z.eqb_neq.
Qed.

(** [true] for the three bits of reading, writing and executing. *)
Definition prot_bit (i : Z) : Prop := i = 0 \/ i = 1 \/ i = 2.

Lemma prot_bits_spec m i : prot_bit i -> Z.testbit (calc_vm_prot_bits m) i = Z.testbit m i.
Proof.
  intros Hi. unfold calc_vm_prot_bits, _calc_vm_trans. change PROT_READ with (2 ^ 0). change PROT_WRITE with (2 ^ 1).
  change PROT_EXEC with (2 ^ 2). rewrite !land_pow2 by lia.
  destruct (Z.testbit m 0) eqn:E0, (Z.testbit m 1) eqn:E1, (Z.testbit m 2) eqn:E2; destruct Hi as [->|[->| ->]]; rewrite ?E0, ?E1, ?E2; reflexivity.
Qed.
Lemma may_flags_spec m i : prot_bit i -> Z.testbit (calc_vm_may_flags m) (4 + i) = Z.testbit m i.
Proof.
  intros Hi. unfold calc_vm_may_flags, _calc_vm_trans. change PROT_READ with (2 ^ 0). change PROT_WRITE with (2 ^ 1).
  change PROT_EXEC with (2 ^ 2). rewrite !land_pow2 by lia.
  destruct (Z.testbit m 0) eqn:E0, (Z.testbit m 1) eqn:E1, (Z.testbit m 2) eqn:E2; destruct Hi as [->|[->| ->]]; rewrite ?E0, ?E1, ?E2; reflexivity.
Qed.
Lemma u32_lnot_bit x i : 0 <= i < 32 -> Z.testbit (u32 (Z.lnot x)) i = negb (Z.testbit x i).
Proof. intros Hi. unfold u32. rewrite Z.mod_pow2_bits_low by lia. apply Z.lnot_spec. lia. Qed.

(** a mapping that [ashmem_mmap] accepts has no permission to read, write or execute
    that the protection mask of the area lacks, and none that mprotect could add
    later; a mapping that asks for such a permission is refused, and so is a mapping of
    an area without a size.  An accepted mapping holds a reference to the backing file. *)
Theorem ashmem_mmap_correct s V lr a ar setup vma : ash s V lr -> areas s !! a = Some ar -> mmap_valid s setup vma ->
  exists ret vma' s', ashmem_mmap setup a vma s = Some ((ret, vma'), s') /\ ash s' V lr /\
    (ret = 0 -> size_ ar <> 0 /\
      (forall i, prot_bit i -> Z.testbit (prot_mask ar) i = false ->
        Z.testbit (vm_flags vma) i = false /\ Z.testbit (vm_flags vma') i = false /\ Z.testbit (vm_flags vma') (4 + i) = false) /\
      exists ar' f, areas s' !! a = Some ar' /\ area_file ar' = Some f /\ vm_file vma' = Some f /\ is_Some (files s' !! f)).
Proof.
  intros Hash Ha Hv. destruct (mmap_run _ _ _ _ _ _ _ Hash Ha Hv) as (ret & vma' & s' & Hrun & Hash' & Hok).
  exists ret, vma', s'. split_and!; [done..|]. intros Hr. destruct (Hok Hr) as (Hsz & Hden & Hfl & Hfile). split_and!; [done| |done].
  intros i Hi Hm. assert (0 <= i < 3) as Hi3 by (destruct Hi as [->|[->| ->]]; lia).
  assert (Z.testbit (vm_flags vma) i = false) as Hreq.
  { apply (f_equal (λ z, Z.testbit z i)) in Hden. unfold denied in Hden.
    rewrite !Z.land_spec, u32_lnot_bit, !prot_bits_spec, Hm, Z.bits_0, andb_true_r in Hden by (done || lia).
    replace (Z.testbit PROT_MASK i) with true in Hden by (destruct Hi as [->|[->| ->]]; done). by rewrite andb_true_r in Hden. }
  split_and!; [done|..]; rewrite Hfl, Z.lor_spec; unfold restricted; rewrite Z.land_spec.
  - rewrite Hreq. by destruct Hi as [->|[->| ->]].
  - rewrite u32_lnot_bit, may_flags_spec, u32_lnot_bit, Hm by (done || lia). rewrite andb_false_r. by destruct Hi as [->|[->| ->]].
Qed.

Lemma ash_keep_name s V lr a ar file_ sz m : ash s V lr -> areas s !! a = Some ar -> 0 <= sz < 2 ^ 32 -> file_ = area_file ar ->
  ash (set_areas (<[a := Area (name ar) file_ sz m]> (areas s)) s) V lr.
Proof.
  intros Hash Ha Hsz ->. pose proof Hash as (_ & _ & Hao). destruct (ao_name _ Hao _ _ Ha). by eapply ash_put_area.
Qed.

Lemma set_prot_mask_run s V lr pers a ar prot : ash s V lr -> areas s !! a = Some ar ->
  exists ret s', set_prot_mask pers a prot s = Some (ret, s') /\ ash s' V lr.
Proof.
  intros Hash Ha. unfold set_prot_mask. erewrite bind_run by (by apply get_area_run). destruct (negb _); [eauto|].
  erewrite bind_run by done. eexists _, _. split; [done|]. apply ash_keep_name; [done|done| |done].
  destruct Hash as (_ & _ & Hao). exact (ao_size _ Hao _ _ Ha).
Qed.

(** with the personality [READ_IMPLIES_EXEC] the protection mask can grow: a request
    for a subset of the mask with [PROT_READ] is accepted and adds [PROT_EXEC] also
    to a mask from which it has been removed. *)
Theorem set_prot_mask_adds_exec s pers a ar prot : areas s !! a = Some ar -> Z.land (prot_mask ar) prot = prot ->
  Z.testbit prot 0 = true -> Z.testbit pers 22 = true -> Z.testbit (prot_mask ar) 2 = false ->
  exists s' ar', set_prot_mask pers a prot s = Some (0, s') /\ areas s' !! a = Some ar' /\ Z.testbit (prot_mask ar') 2 = true.
Proof.
  intros Ha Hsub Hr Hp Hx. unfold set_prot_mask. erewrite bind_run by (by apply get_area_run).
  rewrite Hsub, Z.eqb_refl. cbn [negb]. change PROT_READ with (2 ^ 0). change READ_IMPLIES_EXEC with (2 ^ 22).
  rewrite !land_pow2, Hr, Hp by lia. change (negb (2 ^ 0 =? 0) && negb (2 ^ 22 =? 0)) with true. erewrite bind_run by done.
  eexists _, _. split_and!; [done|cbn; apply lookup_insert_eq|]. cbn [prot_mask].
  rewrite Z.lor_spec. change (Z.testbit PROT_EXEC 2) with true. apply orb_true_r.
Qed.

(** ** Names *)
(** The bytes of a C string up to its end, with the terminating NUL. *)
Fixpoint c_string (l : list Z) : list Z :=
  match l with [] => [0] | c :: l => if c =? 0 then [0] else c :: c_string l end.

Lemma strlen_c_string l rest : exists n, strlen (l ++ 0 :: rest) = Some n /\ take (S n) (l ++ 0 :: rest) = c_string l.
Proof.
  induction l as [|c l (n & E & Ht)]; [by exists 0%nat|]. cbn [app strlen c_string]. destruct (c =? 0) eqn:Hc.
  - apply Z.eqb_eq in Hc as ->. by exists 0%nat.
  - exists (S n). rewrite E. cbn. split; [done|]. f_equal. exact Ht.
Qed.

Lemma c_string_length l : (length (c_string l) <= S (length l))%nat.
Proof. induction l as [|c l IH]; cbn; [lia|]. destruct (c =? 0); cbn; lia. Qed.

Lemma name_parts s a ar : areas_ok s -> areas s !! a = Some ar ->
  exists p m, name ar = p ++ m ++ [0] /\ length p = 11%nat /\ length m = 255%nat.
Proof.
  intros Hao Ha. destruct (ao_name _ Hao _ _ Ha) as [Hl Hz]. change (Z.to_nat (ASHMEM_FULL_NAME_LEN - 1)) with 266%nat in Hz.
  change ASHMEM_FULL_NAME_LEN with 267 in Hl. exists (take 11 (name ar)), (take 255 (drop 11 (name ar))).
  rewrite !length_take, length_drop. split_and!; [|lia..]. rewrite <-(take_drop 11 (name ar)) at 1. f_equal.
  rewrite <-(take_drop 255 (drop 11 (name ar))) at 1. f_equal. rewrite drop_drop.
  rewrite (drop_S (name ar) 0) by exact Hz. rewrite drop_ge by lia. done.
Qed.

(** The user gets the default name or the bytes of the C string. *)
Definition shown_name (m : list Z) : list Z := match m with 0 :: _ => ASHMEM_NAME_DEF | _ => c_string m end.

Lemma get_name_run s a ar room p c m : areas s !! a = Some ar -> name ar = p ++ (c :: m) ++ [0] -> length p = 11%nat ->
  get_name a room s = Some ((if (room <? length (shown_name (c :: m)))%nat then - EFAULT else 0, take room (shown_name (c :: m))), s).
Proof.
  intros Ha E Hp. unfold get_name. erewrite bind_run by (by apply get_area_run).
  change (Z.to_nat ASHMEM_NAME_PREFIX_LEN) with (11%nat). rewrite E. rewrite <-Hp, drop_app_length, app_nth2, Nat.sub_diag by lia.
  cbn [nth app]. destruct (Z.eqb_spec c 0) as [->|Hc]; [done|]. cbn [negb].
  destruct (strlen_c_string (c :: m) []) as (n & Hn & Ht). cbn [app] in Hn, Ht. rewrite Hn, Ht.
  assert (shown_name (c :: m) = c_string (c :: m)) as -> by (by destruct c). done.
Qed.

Lemma get_name_safe s a ar room : areas_ok s -> areas s !! a = Some ar -> exists ret out, get_name a room s = Some ((ret, out), s).
Proof.
  intros Hao Ha. destruct (name_parts _ _ _ Hao Ha) as (p & [|c m] & E & Hp & Hm); [done|].
  erewrite get_name_run by done. by eexists _, _.
Qed.

Lemma set_name_run s V lr a ar user : ash s V lr -> areas s !! a = Some ar -> area_file ar = None ->
  let nm := take 11 (name ar) ++ take 255 (copied user 256) ++ [0] in
  let s' := set_areas (<[a := Area nm None (size_ ar) (prot_mask ar)]> (areas s)) s in
  set_name a user s = Some (if (length user <? 256)%nat then - EFAULT else 0, s') /\ ash s' V lr.
Proof.
  intros Hash Ha Hf nm s'. pose proof Hash as (_ & _ & Hao). destruct (name_parts _ _ _ Hao Ha) as (p & m & E & Hp & Hm).
  assert (length (copied user 256) = 256%nat) as Hc.
  { unfold copied. rewrite length_app, length_take, length_replicate. lia. }
  assert (length (take 11 (name ar)) = 11%nat) as H11 by (by rewrite length_take, E, !length_app, Hp, Hm).
  assert (<[266%nat := 0]> (take 11 (name ar) ++ copied user 256) = nm) as Enm.
  { unfold nm. replace 266%nat with (length (take 11 (name ar)) + 255)%nat by lia. rewrite insert_app_r. f_equal.
    rewrite <-(take_drop 255 (copied user 256)) at 1. rewrite <-(Nat.add_0_r 255) at 1.
    rewrite <-(length_take_le (copied user 256) 255) at 1 by lia. rewrite insert_app_r. f_equal.
    destruct (drop 255 (copied user 256)) as [|c [|d l]] eqn:Hd; [..|exfalso];
      apply (f_equal length) in Hd; rewrite length_drop in Hd; cbn in Hd; try lia. done. }
  split.
  - unfold set_name. erewrite bind_run by (by apply get_area_run). rewrite Hf.
    change (Z.to_nat (ASHMEM_FULL_NAME_LEN - 1)) with 266%nat. change (Z.to_nat ASHMEM_NAME_PREFIX_LEN) with 11%nat.
    change (Z.to_nat ASHMEM_NAME_LEN) with 256%nat. rewrite Enm. by erewrite bind_run by done.
  - eapply ash_put_area; try done.
    + cbn. unfold nm. rewrite !length_app, H11, length_take, Hc. done.
    + cbn. unfold nm. change (Z.to_nat (ASHMEM_FULL_NAME_LEN - 1)) with 266%nat. rewrite app_assoc, lookup_app_r; rewrite length_app, H11, length_take, Hc; [done|lia].
    + cbn. exact (ao_size _ Hao _ _ Ha).
Qed.

(** A name that is set and read back is the C string that was set, cut to 255 bytes
    and always terminated, so that nothing behind it is copied to the user; an empty
    name reads as the default name. *)
Theorem ashmem_name_roundtrip s V lr a ar user room : ash s V lr -> areas s !! a = Some ar -> area_file ar = None ->
  (256 <= length user)%nat -> (256 <= room)%nat ->
  exists s', set_name a user s = Some (0, s') /\ ash s' V lr /\ get_name a room s' = Some ((0, shown_name (take 255 user)), s').
Proof.
  intros Hash Ha Hf Hu Hr. destruct (set_name_run s V lr a ar user Hash Ha Hf) as [Hrun Hash']. eexists. split_and!; [|exact Hash'|].
  - rewrite Hrun. destruct (Nat.ltb_spec (length user) 256); [lia|done].
  - pose proof Hash as (_ & _ & Hao). destruct (name_parts _ _ _ Hao Ha) as (p & m & E & Hp & Hm).
    assert (take 255 (copied user 256) = take 255 user) as Hcp.
    { unfold copied. replace (256 - length user)%nat with 0%nat by lia. cbn [replicate]. by rewrite app_nil_r, take_take. }
    assert (length (take 255 user) = 255%nat) as H255 by (rewrite length_take; lia).
    destruct (take 255 user) as [|c u] eqn:Hcu; [done|].
    assert (length (shown_name (c :: u)) <= 256)%nat as Hlen.
    { pose proof (c_string_length (c :: u)). unfold shown_name. destruct c; [cbn; lia|lia..]. }
    erewrite (get_name_run _ _ _ _ (take 11 (name ar)) c u); [|cbn; apply lookup_insert_eq|cbn; by rewrite Hcp|by rewrite length_take, E, !length_app, Hp, Hm].
    destruct (Nat.ltb_spec room (length (shown_name (c :: u)))); [lia|]. by rewrite take_ge by lia.
Qed.

(** ** Reading and seeking *)
Lemma put_backing_run s V lr f b : ash s V lr -> is_Some (files s !! f) -> exists s', put_backing f b s = Some (tt, s') /\ ash s' V lr.
Proof.
  intros Hash Hf. eexists. split; [done|]. apply ash_files; [done|]. intros a ar g Ha Hg.
  destruct (decide (g = f)) as [->|]; [rewrite lookup_insert_eq; eauto|rewrite lookup_insert_ne by done].
  destruct Hash as (_ & _ & Hao). by eapply (ao_file _ Hao).
Qed.

Lemma ashmem_read_run s V lr a ar f_read n pos : ash s V lr -> areas s !! a = Some ar ->
  exists r s', ashmem_read f_read a n pos s = Some (r, s') /\ ash s' V lr.
Proof.
  intros Hash Ha. pose proof Hash as (_ & _ & Hao). unfold ashmem_read. erewrite bind_run by (by apply get_area_run).
  destruct (_ =? _); [eauto|]. destruct (area_file ar) as [f|] eqn:Hf; [|eauto]. destruct (f_read n pos) as [ret pos'].
  destruct (_ <? _); [eauto|]. destruct (ao_file _ Hao _ _ _ Ha Hf) as [b Hb]. unfold get_backing. erewrite bind_run by (by rewrite Hb).
  destruct (put_backing_run s V lr f (File pos' (f_count b)) Hash) as (s' & Hrun & Hash'); [eauto|]. erewrite bind_run by exact Hrun. eauto.
Qed.

Lemma ashmem_llseek_run s V lr a ar f_llseek off origin : ash s V lr -> areas s !! a = Some ar ->
  exists r s', ashmem_llseek f_llseek a off origin s = Some (r, s') /\ ash s' V lr.
Proof.
  intros Hash Ha. pose proof Hash as (_ & _ & Hao). unfold ashmem_llseek. erewrite bind_run by (by apply get_area_run).
  destruct (_ =? _); [eauto|]. destruct (area_file ar) as [f|] eqn:Hf; [|eauto].
  destruct (ao_file _ Hao _ _ _ Ha Hf) as [b Hb]. unfold get_backing. erewrite bind_run by (by rewrite Hb).
  destruct (f_llseek _ _ _) as [r pos']. destruct (put_backing_run s V lr f (File pos' (f_count b)) Hash) as (s' & Hrun & Hash'); [eauto|].
  erewrite bind_run by exact Hrun. destruct (_ <? _); eauto.
Qed.

(** [ashmem_llseek] keeps the 64-bit result of the seek in an [int]: a seek of the
    backing file to a position from 2^31 on moves the backing file, but the
    caller gets a negative result and its own position is not set. *)
Theorem ashmem_llseek_truncates s a ar f b f_llseek off origin r pos' : areas s !! a = Some ar -> size_ ar <> 0 ->
  area_file ar = Some f -> files s !! f = Some b -> f_llseek (f_pos b) off origin = (r, pos') -> 2 ^ 31 <= r < 2 ^ 32 ->
  exists ret s', ashmem_llseek f_llseek a off origin s = Some ((ret, None), s') /\ ret = r - 2 ^ 32 /\ ret < 0 /\
    files s' !! f = Some (File pos' (f_count b)).
Proof.
  intros Ha Hsz Hf Hb Hseek Hr. unfold ashmem_llseek. erewrite bind_run by (by apply get_area_run).
  rewrite (proj2 (Z.eqb_neq _ _) Hsz), Hf. unfold get_backing. erewrite bind_run by (by rewrite Hb). rewrite Hseek.
  erewrite bind_run by done. assert (s32 r = r - 2 ^ 32) as ->.
  { unfold s32. rewrite u32_small by lia. destruct (Z.ltb_spec r (2 ^ 31)); lia. }
  rewrite (proj2 (Z.ltb_lt (r - 2 ^ 32) 0)) by lia. eexists _, _. split_and!; [done|done|lia|]. cbn. apply lookup_insert_eq.
Qed.

(** Unpinning at the end of the area with length 0 passes all checks with an interval
    that ends before it starts: every such call succeeds and allocates another empty
    range, which no page limits, and the next call can do the same. *)
Theorem ashmem_unpin_empty s U lr a ar f l p x : shape s U lr -> areas s !! a = Some ar -> area_file ar = Some f ->
  0 <= size_ ar < 2 ^ 32 -> offset p = PAGE_ALIGN (size_ ar) -> 0 < offset p -> len p = 0 -> fresh s x -> U !! a = Some l ->
  (forall y r, y ∈ l -> ranges s !! y = Some r -> pgend r < offset p / PAGE_SIZE) ->
  exists s' lr' r, ashmem_pin_unpin a ASHMEM_UNPIN (Some p) (Some x) s = Some (0, s') /\
    shape s' (<[a := x :: l]> U) lr' /\ areas s' = areas s /\ ranges s' = <[x := r]> (ranges s) /\
    size (ranges s') = S (size (ranges s)) /\ pgend r < pgstart r /\
    forall y r, y ∈ x :: l -> ranges s' !! y = Some r -> pgend r < offset p / PAGE_SIZE.
Proof.
  intros H Ha Hf Hsz Ho Hpos Hl Hx E Hlow. destruct (page_align_spec _ Hsz) as [Hal1 Hal2]. rewrite <-Ho in Hal1, Hal2.
  assert (1 <= offset p / PAGE_SIZE < 2 ^ 20) as Hpg.
  { change PAGE_SIZE with 4096 in *. pose proof (Z.div_mod (offset p) 4096). lia. }
  set (ps := offset p / PAGE_SIZE) in *.
  destruct (range_alloc_run s U lr a [] l (hd a l) (tail (l ++ [a])) x ASHMEM_NOT_PURGED ps (ps - 1) H E) as (s' & lr' & Hrun & H' & Hr' & Hs');
    [by destruct l|done|by eauto|].
  assert (unpin_walk (S (size (ranges s))) a (hd a l) ps (ps - 1) s = Some (Insert (hd a l), s)) as Hwalk.
  { cbn [unpin_walk]. destruct l as [|y l]; cbn [hd]; [by rewrite Z.eqb_refl|].
    destruct (list_entry s U lr a [] y l H E) as (-> & _ & Hnext). erewrite bind_run by exact Hnext.
    destruct (sh_ranges _ _ _ H _ _ y E) as (r & Hr & _); [set_solver +|]. erewrite bind_run by (by apply get_range_run).
    unfold range_before_page. rewrite (proj2 (Z.ltb_lt _ _)); [done|]. apply (Hlow y r); [set_solver +|done]. }
  exists s', lr', (Range a ps (ps - 1) ASHMEM_NOT_PURGED). split_and!; [|done|apply Hs'|done| |cbn; lia|].
  - rewrite (pin_empty_run s a ar f ASHMEM_UNPIN p (Some x) Ha Hf Hsz (conj Hl Ho)). cbn [pin_op]. fold ps. rewrite u32_small by lia.
    unfold ashmem_unpin. erewrite bind_run by done. cbn [unpin_restart]. erewrite bind_run by done.
    erewrite bind_run by (by eapply list_first). by erewrite bind_run by exact Hwalk.
  - rewrite Hr', map_size_insert_None; [done|]. by destruct (shape_fresh _ _ _ _ H Hx).
  - intros y r Hy. rewrite Hr'. intros [[<- <-]|[Hne Hr]]%lookup_insert_Some; [cbn; lia|]. eapply Hlow; [|done]. set_solver +Hy Hne.
Qed.

(** ** The device as a machine *)
Inductive call :=
  | Open (ret : Z) (alloc : option Z)
  | Release (a : Z)
  | Read (f_read : Z -> Z -> Z * Z) (a n pos : Z)
  | Llseek (f_llseek : Z -> Z -> Z -> Z * Z) (a off origin : Z)
  | Mmap (setup : list Z -> Z -> Z -> Z + Z) (a : Z) (vma : vm_area_struct)
  | Shrink (nr gfp : Z)
  | Ioctl (personality : Z) (capable : bool) (alloc : option Z) (a : Z) (cmd : ashmem_cmd).

Definition exec (c : call) : AM unit :=
  match c with
  | Open ret alloc => ashmem_open ret alloc ;; mret tt
  | Release a => ashmem_release a ;; mret tt
  | Read f_read a n pos => ashmem_read f_read a n pos ;; mret tt
  | Llseek f_llseek a off origin => ashmem_llseek f_llseek a off origin ;; mret tt
  | Mmap setup a vma => ashmem_mmap setup a vma ;; mret tt
  | Shrink nr gfp => ashmem_shrink nr gfp ;; mret tt
  | Ioctl pers cap alloc a cmd => ashmem_ioctl pers cap alloc a cmd ;; mret tt
  end.

(** Calls on open areas, with an allocator that returns unused memory; the argument
    of pinning is not the empty interval at the end of the area. *)
Definition valid s (c : call) : Prop :=
  match c with
  | Open _ alloc => forall x, alloc = Some x -> fresh s x
  | Release a | Read _ a _ _ | Llseek _ a _ _ => is_Some (areas s !! a)
  | Mmap setup a vma => is_Some (areas s !! a) /\ mmap_valid s setup vma
  | Shrink _ _ => True
  | Ioctl _ _ alloc a cmd => exists ar, areas s !! a = Some ar /\ (forall x, alloc = Some x -> fresh s x) /\
      match cmd with
      | ASHMEM_SET_SIZE arg => 0 <= arg < 2 ^ 32
      | ASHMEM_PIN_CMD _ (Some p) => pin_valid ar p
      | _ => True
      end
  end.

Lemma shrink_safe s V lr nr gfp : ash s V lr -> exists ret s' V' lr', ashmem_shrink nr gfp s = Some (ret, s') /\ ash s' V' lr'.
Proof.
  intros Hash. destruct (Z.eqb_spec nr 0) as [->|Hnr]; [unfold ashmem_shrink; cbn; eauto 10|].
  destruct (Z.eqb_spec (Z.land gfp __GFP_FS) 0) as [Hg|Hg].
  - unfold ashmem_shrink. rewrite (proj2 (Z.eqb_neq _ _) Hnr), Hg. cbn. eauto 10.
  - destruct (ashmem_shrink_run s V lr nr gfp Hash Hnr Hg) as (s' & V' & k & -> & Hash' & _). eauto 10.
Qed.

Lemma ioctl_safe s V lr pers cap alloc a cmd : ash s V lr -> valid s (Ioctl pers cap alloc a cmd) ->
  exists r s' V' lr', ashmem_ioctl pers cap alloc a cmd s = Some (r, s') /\ ash s' V' lr'.
Proof.
  intros Hash (ar & Ha & Hal & Hcmd). pose proof Hash as (_ & _ & Hao). destruct cmd; cbn [ashmem_ioctl].
  - destruct (area_file ar) as [f|] eqn:Hf.
    + unfold set_name. rewrite bind_assoc. erewrite bind_run by (by apply get_area_run). rewrite Hf. eexists _, _. eauto.
    + destruct (set_name_run s V lr a ar user Hash Ha Hf) as [Hrun Hash']. erewrite bind_run by exact Hrun. eauto 10.
  - destruct (get_name_safe s a ar room Hao Ha) as (ret & out & ->). eauto 10.
  - erewrite bind_run by (by apply get_area_run). destruct (area_file ar) as [f|] eqn:Hf; [eexists _, _; eauto|].
    erewrite bind_run by done. eexists _, _, V, lr. split; [done|]. by apply ash_keep_name.
  - erewrite bind_run by (by apply get_area_run). eauto 10.
  - destruct (set_prot_mask_run s V lr pers a ar arg Hash Ha) as (ret & s' & Hrun & Hash'). erewrite bind_run by exact Hrun. eauto 10.
  - erewrite bind_run by (by apply get_area_run). eauto 10.
  - destruct (pin_unpin_run s V lr a ar cmd pin alloc Hash Ha Hal) as (ret & s' & V' & lr' & Hrun & Hash').
    { intros p ->. exact Hcmd. }
    erewrite bind_run by exact Hrun. eauto 10.
  - destruct cap; [|eauto 10]. erewrite bind_run by done.
    destruct (shrink_safe s V lr (s32 (lru_count s)) GFP_KERNEL Hash) as (ret & s' & V' & lr' & Hrun & Hash').
    erewrite bind_run by exact Hrun. eauto 10.
  - eauto 10.
Qed.

Lemma exec_safe s V lr c : ash s V lr -> valid s c -> exists s' V' lr', exec c s = Some (tt, s') /\ ash s' V' lr'.
Proof.
  intros Hash Hc. assert (forall A (m : AM A), (exists r s' V' lr', m s = Some (r, s') /\ ash s' V' lr') ->
    exists s' V' lr', (m ;; mret tt) s = Some (tt, s') /\ ash s' V' lr') as Hm.
  { intros A m (r & s' & V' & lr' & Hrun & Hash'). erewrite bind_run by exact Hrun. eauto. }
  destruct c as [ret alloc|a|f_read a n pos|f_llseek a off origin|setup a vma|nr gfp|pers cap alloc a cmd]; cbn [exec]; apply Hm; cbn in Hc.
  - destruct (decide (ret = 0)) as [->|Hret]; [|unfold ashmem_open; rewrite (proj2 (Z.eqb_neq _ _) Hret); cbn; eauto 10].
    destruct alloc as [x|]; [|cbn; eauto 10].
    destruct (ashmem_open_run s V lr x Hash (Hc x eq_refl)) as (s' & -> & Hash' & _). eauto 10.
  - destruct Hc as [ar Ha]. destruct (ashmem_release_run s V lr a ar Hash Ha) as (s' & lr' & -> & Hash' & _). eauto 10.
  - destruct Hc as [ar Ha]. destruct (ashmem_read_run s V lr a ar f_read n pos Hash Ha) as (r & s' & -> & ?). eauto 10.
  - destruct Hc as [ar Ha]. destruct (ashmem_llseek_run s V lr a ar f_llseek off origin Hash Ha) as (r & s' & -> & ?). eauto 10.
  - destruct Hc as [[ar Ha] Hv]. destruct (mmap_run s V lr a ar setup vma Hash Ha Hv) as (ret & vma' & s' & -> & ? & _). eauto 10.
  - by apply (shrink_safe s V lr).
  - by apply (ioctl_safe s V lr).
Qed.

Fixpoint run_calls (cs : list call) : AM unit := match cs with [] => mret tt | c :: cs => exec c ;; run_calls cs end.
Fixpoint valid_run s (cs : list call) : Prop :=
  match cs with [] => True | c :: cs => valid s c /\ forall s', exec c s = Some (tt, s') -> valid_run s' cs end.

(** The device after its initialisation: no areas, and an empty list. *)
Definition ash_init : ashmem := Ash ∅ ∅ ∅ {[ashmem_lru_list := ListHead ashmem_lru_list ashmem_lru_list]} 0 ∅ [].

Lemma ash_init_ok : ash ash_init ∅ [].
Proof.
  split_and!; [exists ∅; split; [split; cbn|]| |split; cbn].
  - by apply lrep_check_ok. - by apply lrep_check_ok.
  - intros a. by rewrite !lookup_empty.
  - intros x r. by rewrite lookup_empty.
  - intros a l x. by rewrite lookup_empty.
  - intros x. split; [set_solver +|]. intros (r & Hr & _). by rewrite lookup_empty in Hr.
  - done.
  - intros x r. by rewrite lookup_empty.
  - apply lookup_empty.
  - intros a. rewrite !lookup_empty. constructor.
  - intros a rs. by rewrite lookup_empty.
  - intros a ar. by rewrite lookup_empty.
  - intros a ar. by rewrite lookup_empty.
  - intros a ar f. by rewrite lookup_empty.
  - intros a b ar br f. by rewrite lookup_empty.
Qed.

(** C22: from the initial state, no sequence of calls of the device on open areas,
    the shrinker included, oopses, loops or breaks the invariant of the areas, the
    ranges, the two lists that run through them and the count of pages.  The calls
    are any but one: pinning, unpinning or asking for the state of the empty interval
    at the very end of an area (length 0 at the offset [PAGE_ALIGN(size)]), which the
    checks of [ashmem_pin_unpin] let through and which is the case of
    [ashmem_unpin_empty]. *)
Theorem ashmem_safe cs : valid_run ash_init cs ->
  exists s' V lr, run_calls cs ash_init = Some (tt, s') /\ ash s' V lr /\ lru_count s' = u32 (pages (ranges s') lr).
Proof.
  enough (forall s V lr, ash s V lr -> valid_run s cs -> exists s' V lr, run_calls cs s = Some (tt, s') /\ ash s' V lr) as Hgen.
  { intros Hv. destruct (Hgen _ _ _ ash_init_ok Hv) as (s' & V & lr & Hrun & Hash). exists s', V, lr. split_and!; [done..|].
    destruct Hash as ((U & H & _) & _). exact (sh_count _ _ _ H). }
  induction cs as [|c cs IH]; intros s V lr Hash Hv; cbn; [eauto 10|]. destruct Hv as [Hc Hv].
  destruct (exec_safe _ _ _ _ Hash Hc) as (s1 & V1 & lr1 & Hrun & Hash1). erewrite bind_run by exact Hrun. by eapply IH; [|apply Hv].
Qed.

(** ** Concrete calls *)
(** Everything from page 7 on, in an area of ten pages. *)
Definition demo_pin : pin_arg := Pin 28672 0.
Lemma ashmem_unpin_ioctl_witness : exists s' rs' lr',
  ashmem_pin_unpin 100 ASHMEM_UNPIN (Some demo_pin) (Some 300) demo_ash = Some (0, s') /\
  ash s' (<[100 := rs']> demo_V) lr' /\ covers rs' 9.
Proof.
  destruct (ashmem_unpin_ioctl_bounds demo_ash demo_V [200] 100 demo_area 7 demo_pin 300 [demo_r1; demo_r2] demo_ok eq_refl eq_refl)
    as [Hok _]; [cbn; lia|cbn; lia|reflexivity|split; reflexivity|].
  destruct Hok as (s' & rs' & lr' & Hrun & Hash & Hc); [split_and!; vm_compute; (reflexivity || discriminate)|].
  exists s', rs', lr'. split_and!; [exact Hrun|exact Hash|]. apply Hc. right. split; [vm_compute; discriminate|vm_compute; reflexivity].
Defined.

(** A read-only area refuses a writable mapping and limits a readable one. *)
Definition ro_area : ashmem_area := Area (ASHMEM_NAME_PREFIX ++ replicate 256 0) (Some 7) 40960 PROT_READ.
Definition demo_ro : ashmem := set_areas {[100 := ro_area]} demo_ash.
Lemma demo_ro_ok : ash demo_ro demo_V [200].
Proof.
  assert (demo_ro = set_areas (<[100 := ro_area]> (areas demo_ash)) demo_ash) as ->
    by (unfold demo_ro; f_equal; symmetry; apply insert_singleton_eq).
  apply (ash_put_area _ _ _ _ demo_area); [exact demo_ok|reflexivity|reflexivity|reflexivity|cbn; lia|reflexivity].
Qed.
Definition demo_setup (nm : list Z) (sz fl : Z) : Z + Z := inl 8.
Lemma ashmem_mmap_witness : exists ret vma' s',
  ashmem_mmap demo_setup 100 (Vma (Z.lor VM_READ (Z.lor VM_SHARED 112)) None false) demo_ro = Some ((ret, vma'), s') /\
  ret = 0 /\ Z.testbit (vm_flags vma') 5 = false.
Proof.
  destruct (ashmem_mmap_correct demo_ro demo_V [200] 100 ro_area demo_setup (Vma (Z.lor VM_READ (Z.lor VM_SHARED 112)) None false) demo_ro_ok eq_refl)
    as (ret & vma' & s' & Hrun & _ & Hok).
  - split_and!; [|discriminate|discriminate]. intros nm sz fl f [= <-]. reflexivity.
  - exists ret, vma', s'. assert (ret = 0) as Hret by (vm_compute in Hrun; injection Hrun as <- _ _; reflexivity).
    destruct (Hok Hret) as (_ & Hbits & _). destruct (Hbits 1) as (_ & _ & Hmay); [right; left; reflexivity|reflexivity|].
    split_and!; [exact Hrun|exact Hret|exact Hmay].
Defined.

Lemma set_prot_mask_adds_exec_witness : exists s' ar',
  set_prot_mask READ_IMPLIES_EXEC 100 PROT_READ demo_ro = Some (0, s') /\ areas s' !! 100 = Some ar' /\ Z.testbit (prot_mask ar') 2 = true.
Proof. apply (set_prot_mask_adds_exec demo_ro READ_IMPLIES_EXEC 100 ro_area PROT_READ); reflexivity. Defined.

Definition new_area : ashmem_area := Area (ASHMEM_NAME_PREFIX ++ replicate 256 0) None 0 PROT_MASK.
Definition demo_new : ashmem := Ash {[100 := new_area]} ∅ {[100 := ListHead 100 100]} {[0 := ListHead 0 0]} 0 ∅ [].
Lemma demo_new_ok : ash demo_new {[100 := []]} [].
Proof.
  destruct (ashmem_open_run ash_init ∅ [] 100 ash_init_ok) as (s' & Hrun & Hash & _); [split; reflexivity|].
  assert (ashmem_open 0 (Some 100) ash_init = Some ((0, Some 100), demo_new)) as E by (vm_compute; reflexivity).
  rewrite E in Hrun. injection Hrun as <-. exact Hash.
Qed.
Definition demo_user : list Z := [65; 66; 0; 67] ++ replicate 300 88.
Lemma ashmem_name_witness : exists s', set_name 100 demo_user demo_new = Some (0, s') /\ ash s' {[100 := []]} [] /\
  get_name 100 256 s' = Some ((0, [65; 66; 0]), s').
Proof.
  exact (ashmem_name_roundtrip demo_new {[100 := []]} [] 100 new_area demo_user 256 demo_new_ok eq_refl eq_refl
    ltac:(vm_compute; lia) ltac:(lia)).
Defined.

Definition demo_seek (pos off origin : Z) : Z * Z := (off, off).
Lemma ashmem_llseek_witness : exists ret s', ashmem_llseek demo_seek 100 (2 ^ 31) 0 demo_ash = Some ((ret, None), s') /\
  ret = - 2 ^ 31 /\ ret < 0 /\ files s' !! 7 = Some (File (2 ^ 31) 1).
Proof.
  exact (ashmem_llseek_truncates demo_ash 100 demo_area 7 (File 0 1) demo_seek (2 ^ 31) 0 (2 ^ 31) (2 ^ 31)
    eq_refl ltac:(discriminate) eq_refl eq_refl eq_refl ltac:(lia)).
Defined.

Lemma ashmem_unpin_empty_witness : exists s' r, ashmem_pin_unpin 100 ASHMEM_UNPIN (Some (Pin 40960 0)) (Some 300) demo_ash = Some (0, s') /\
  ranges s' !! 300 = Some r /\ pgend r < pgstart r.
Proof.
  pose proof demo_ok as ((U & H & Hv) & _).
  destruct (views_lookup _ _ _ 100 [demo_r1; demo_r2] Hv eq_refl) as (l & El & He).
  destruct (ashmem_unpin_empty demo_ash U [200] 100 demo_area 7 l (Pin 40960 0) 300 H eq_refl eq_refl) as
    (s' & lr' & r & Hrun & _ & _ & Hr & _ & Hlt & _); [cbn; lia|reflexivity|cbn; lia|reflexivity|split; reflexivity|exact El| |].
  - intros y r _ [[-> ->]|[-> ->]]%demo_ranges_inv; vm_compute; reflexivity.
  - exists s', r. split_and!; [exact Hrun|rewrite Hr; apply lookup_insert_eq|exact Hlt].
Defined.

(** Open, set a size, map, unpin two pages, purge them, release. *)
Definition demo_calls : list call := [
  Open 0 (Some 100); Ioctl 0 false None 100 (ASHMEM_SET_SIZE 40960); Mmap demo_setup 100 (Vma VM_READ None false);
  Ioctl 0 false (Some 300) 100 (ASHMEM_PIN_CMD ASHMEM_UNPIN (Some (Pin 0 8192)));
  Shrink 1 GFP_KERNEL; Release 100].
Lemma ashmem_safe_witness : exists s' V lr, run_calls demo_calls ash_init = Some (tt, s') /\ ash s' V lr /\ lru_count s' = u32 (pages (ranges s') lr).
Proof.
  apply (ashmem_safe demo_calls).
  split; [intros x [= <-]; split; reflexivity|]. intros s1 E1. vm_compute in E1. injection E1 as <-.
  split; [eexists; split; [reflexivity|split; [discriminate|cbn; lia]]|]. intros s2 E2. vm_compute in E2. injection E2 as <-.
  split; [split; [eexists; reflexivity|split_and!; [intros ? ? ? ? [= <-]; reflexivity|discriminate|discriminate]]|]. intros s3 E3. vm_compute in E3. injection E3 as <-.
  split; [eexists; split; [reflexivity|split; [intros x [= <-]; split; reflexivity|split_and!; cbn; try lia; discriminate]]|]. intros s4 E4. vm_compute in E4. injection E4 as <-.
  split; [exact I|]. intros s5 E5. vm_compute in E5. injection E5 as <-.
  split; [eexists; reflexivity|]. intros s6 _. exact I.
Defined.
End AshmemDev.
