(* ===== verification/TimerWheel.v ===== *)
(** * The timer wheel: timers and their places

    kernel/timer.c keeps the pending timers of a CPU in 512 lists: [tv1] has a
    list for each of the next 256 jiffies, [tv2] to [tv5] have 64 lists each, which
    cover longer and longer spans.  [internal_add_timer] picks the list from the
    distance to the expiry time.  The list node [entry] is the first field of a
    timer and has its address.  A timer is pending when [entry.next] is not null.
    This file has the state, the invariant of the wheel, and the operations that
    start, change and stop timers; TimerRun.v has the tick and TimerNext.v the search
    for the next expiry.  The kernel is built for one CPU, so there is one
    [tvec_base] and [running_timer] is never set. *)
From stdpp Require Import prelude gmap list.
From Stdlib Require Import ZArith Lia ZifyBool.
From S2P Require Import Prelude ListHead ListHeap.
Open Scope Z_scope.

Module Timer.

(** ** Data *)
Definition TVN_BITS : Z := 6.
Definition TVR_BITS : Z := 8.
Definition TVN_SIZE : Z := Z.shiftl 1 TVN_BITS.
Definition TVR_SIZE : Z := Z.shiftl 1 TVR_BITS.
Definition TVN_MASK : Z := TVN_SIZE - 1.
Definition TVR_MASK : Z := TVR_SIZE - 1.
Definition TBASE_DEFERRABLE_FLAG : Z := 1.
Definition TIMER_NOT_PINNED : Z := 0.
Definition TIMER_PINNED : Z := 1.
Definition BITS_PER_LONG : Z := 32.

Record timer_list := TimerList {
  expires : Z;
  base : Z;
  function : Z;
  data : Z;
  slack : Z;
}.

(** A call of a timer's function: the timer, the function, its argument, and the
    jiffy that was being processed. *)
Record call := Call { c_timer : Z; c_fn : Z; c_data : Z; c_jiffy : Z }.

(** All of the timer code.  [tvec_bases] is the address of the one [tvec_base] and
    [tv1] that of its first list head; [called] records the calls of timer
    functions. *)
Record wheel := Wheel {
  lists : mem;
  timers : gmap Z timer_list;
  tvec_bases : Z;
  tv1 : Z;
  timer_jiffies : Z;
  next_timer : Z;
  jiffies : Z;
  called : list call;
}.

Definition set_lists (m : mem) (s : wheel) : wheel :=
  Wheel m (timers s) (tvec_bases s) (tv1 s) (timer_jiffies s) (next_timer s) (jiffies s) (called s).
Definition set_timers (ts : gmap Z timer_list) (s : wheel) : wheel :=
  Wheel (lists s) ts (tvec_bases s) (tv1 s) (timer_jiffies s) (next_timer s) (jiffies s) (called s).
Definition set_timer_jiffies (j : Z) (s : wheel) : wheel :=
  Wheel (lists s) (timers s) (tvec_bases s) (tv1 s) j (next_timer s) (jiffies s) (called s).
Definition set_next_timer (j : Z) (s : wheel) : wheel :=
  Wheel (lists s) (timers s) (tvec_bases s) (tv1 s) (timer_jiffies s) j (jiffies s) (called s).
Definition set_jiffies (j : Z) (s : wheel) : wheel :=
  Wheel (lists s) (timers s) (tvec_bases s) (tv1 s) (timer_jiffies s) (next_timer s) j (called s).
Definition add_called (c : call) (s : wheel) : wheel :=
  Wheel (lists s) (timers s) (tvec_bases s) (tv1 s) (timer_jiffies s) (next_timer s) (jiffies s) (called s ++ [c]).

Abbreviation TM := (M wheel).

(** An operation of list.h on the nodes of the wheel. *)
Definition on_lists {A} (f : M mem A) : TM A := λ s,
  match f (lists s) with Some (a, m) => Some (a, set_lists m s) | None => None end.
Definition get_timer (x : Z) : TM timer_list := λ s,
  match timers s !! x with Some t => Some (t, s) | None => None end.
Definition put_timer (x : Z) (t : timer_list) : TM unit := λ s,
  match timers s !! x with Some _ => Some (tt, set_timers (<[x := t]> (timers s)) s) | None => None end.
Definition set_expires (e : Z) (t : timer_list) : timer_list := TimerList e (base t) (function t) (data t) (slack t).
Definition set_base (b : Z) (t : timer_list) : timer_list := TimerList (expires t) b (function t) (data t) (slack t).
Definition set_slack (z : Z) (t : timer_list) : timer_list := TimerList (expires t) (base t) (function t) (data t) z.

(** The list head [vec + i] of [tv1] (for [n] = 0) to [tv5] (for [n] = 4).  A
    [list_head] has 8 bytes. *)
Definition tv_offset (n : nat) : Z := match n with O => 0 | S k => TVR_SIZE + TVN_SIZE * Z.of_nat k end.
Definition vec (s : wheel) (n : nat) (i : Z) : Z := tv1 s + 8 * (tv_offset n + i).

(** ** The deferrable flag *)
Definition tbase_get_deferrable (b : Z) : Z := Z.land b TBASE_DEFERRABLE_FLAG.
Definition tbase_get_base (b : Z) : Z := Z.land b (u32 (Z.lnot TBASE_DEFERRABLE_FLAG)).
Definition timer_set_deferrable (timer : Z) : TM unit :=
  t ← get_timer timer; put_timer timer (set_base (Z.lor (base t) TBASE_DEFERRABLE_FLAG) t).
Definition timer_set_base (timer new_base : Z) : TM unit :=
  t ← get_timer timer; put_timer timer (set_base (Z.lor new_base (tbase_get_deferrable (base t))) t).
Definition deferrable (t : timer_list) : bool := negb (tbase_get_deferrable (base t) =? 0).

(** ** Adding and removing *)
Definition set_timer_slack (timer slack_hz : Z) : TM unit :=
  t ← get_timer timer; put_timer timer (set_slack slack_hz t).

(** The list for a timer that expires at [expires_], when [tj] is the next jiffy to
    be processed. *)
Definition timer_vec (tj expires_ : Z) : nat * Z :=
  let idx := u32 (expires_ - tj) in
  if idx <? TVR_SIZE then (0%nat, Z.land expires_ TVR_MASK)
  else if idx <? Z.shiftl 1 (TVR_BITS + TVN_BITS) then
    (1%nat, Z.land (Z.shiftr expires_ TVR_BITS) TVN_MASK)
  else if idx <? Z.shiftl 1 (TVR_BITS + 2 * TVN_BITS) then
    (2%nat, Z.land (Z.shiftr expires_ (TVR_BITS + TVN_BITS)) TVN_MASK)
  else if idx <? Z.shiftl 1 (TVR_BITS + 3 * TVN_BITS) then
    (3%nat, Z.land (Z.shiftr expires_ (TVR_BITS + 2 * TVN_BITS)) TVN_MASK)
  else if s32 idx <? 0 then (0%nat, Z.land tj TVR_MASK)
  else
    let expires_ := if idx >? ULONG_MAX then u32 (ULONG_MAX + tj) else expires_ in
    (4%nat, Z.land (Z.shiftr expires_ (TVR_BITS + 3 * TVN_BITS)) TVN_MASK).

Definition internal_add_timer (timer : Z) : TM unit :=
  t ← get_timer timer;
  s ← get;
  let '(n, i) := timer_vec (timer_jiffies s) (expires t) in
  on_lists (list_add_tail timer (vec s n i)).

Definition timer_pending (timer : Z) : TM bool :=
  next ← on_lists (get_next timer); mret (negb (next =? 0)).

Definition __init_timer (timer : Z) : TM unit :=
  on_lists (set_next timer 0) ;;
  t ← get_timer timer;
  s ← get;
  put_timer timer (set_slack (-1) (set_base (tvec_bases s) t)).
Definition init_timer_key (timer : Z) : TM unit := __init_timer timer.
Definition init_timer_deferrable_key (timer : Z) : TM unit := init_timer_key timer ;; timer_set_deferrable timer.

Definition detach_timer (timer : Z) (clear_pending : bool) : TM unit :=
  prev ← on_lists (get_prev timer);
  next ← on_lists (get_next timer);
  on_lists (__list_del prev next) ;;
  (if clear_pending then on_lists (set_next timer 0) else mret tt) ;;
  on_lists (set_prev timer LIST_POISON2).

(** With a null base the loop never ends; otherwise the lock is taken, and the base
    cannot change on one CPU.  The only base that can be accessed is
    [tvec_bases]. *)
Definition lock_timer_base (timer : Z) : TM Z :=
  t ← get_timer timer;
  s ← get;
  let base_ := tbase_get_base (base t) in
  if base_ =? tvec_bases s then mret base_ else oops.

(** [if (timer->expires == base->next_timer && !deferrable) next_timer = timer_jiffies] *)
Definition forget_next (t : timer_list) (s : wheel) : wheel :=
  if (expires t =? next_timer s) && negb (deferrable t) then set_next_timer (timer_jiffies s) s else s.
(** [if (time_before(timer->expires, base->next_timer) && !deferrable) next_timer = expires] *)
Definition lower_next (t : timer_list) (s : wheel) : wheel :=
  if time_before (expires t) (next_timer s) && negb (deferrable t) then set_next_timer (expires t) s else s.

Definition __mod_timer (timer expires_ : Z) (pending_only : bool) (pinned : Z) : TM Z :=
  t ← get_timer timer;
  BUG_ON (function t =? 0) ;;
  base_ ← lock_timer_base timer;
  p ← timer_pending timer;
  if negb p && pending_only then mret 0
  else
    (if (p : bool) then detach_timer timer false ;; modify (forget_next t) else mret tt) ;;
    s ← get;
    let new_base := tvec_bases s in
    (if negb (base_ =? new_base) then timer_set_base timer 0 ;; timer_set_base timer new_base else mret tt) ;;
    t ← get_timer timer;
    put_timer timer (set_expires expires_ t) ;;
    modify (lower_next (set_expires expires_ t)) ;;
    internal_add_timer timer ;;
    mret (if (p : bool) then 1 else 0).

Definition mod_timer_pending (timer expires_ : Z) : TM Z := __mod_timer timer expires_ true TIMER_NOT_PINNED.

(** The words below [words] of a bitmap, from the last one; [size] when none has a bit. *)
Fixpoint last_word (addr : list Z) (size : Z) (words : nat) : Z :=
  match words with
  | O => size
  | S w => let tmp := nth w addr 0 in if negb (tmp =? 0) then Z.of_nat w * BITS_PER_LONG + __fls tmp else last_word addr size w
  end.
Definition find_last_bit (addr : list Z) (size : Z) : Z :=
  let words := size `div` BITS_PER_LONG in
  let rest := Z.land size (BITS_PER_LONG - 1) in
  let tmp := if negb (rest =? 0) then Z.land (nth (Z.to_nat words) addr 0) (Z.shiftr ULONG_MAX (BITS_PER_LONG - rest)) else 0 in
  if negb (tmp =? 0) then words * BITS_PER_LONG + __fls tmp else last_word addr size (Z.to_nat words).

Definition apply_slack (now slack_ expires_ : Z) : Z :=
  let expires_limit :=
    if 0 <=? slack_ then u32 (expires_ + slack_)
    else if time_after expires_ now then u32 (expires_ + u32 (expires_ - now) `div` 256)
    else expires_ in
  let mask := Z.lxor expires_ expires_limit in
  if mask =? 0 then expires_
  else
    let bit := find_last_bit [mask] BITS_PER_LONG in
    let mask := u32 (Z.shiftl 1 bit - 1) in
    Z.land expires_limit (u32 (Z.lnot mask)).

Definition mod_timer (timer expires_ : Z) : TM Z :=
  p ← timer_pending timer;
  t ← get_timer timer;
  if p && (expires t =? expires_) then mret 1
  else
    s ← get;
    __mod_timer timer (apply_slack (jiffies s) (slack t) expires_) false TIMER_NOT_PINNED.

Definition mod_timer_pinned (timer expires_ : Z) : TM Z :=
  t ← get_timer timer;
  p ← timer_pending timer;
  if (expires t =? expires_) && p then mret 1 else __mod_timer timer expires_ false TIMER_PINNED.

Definition add_timer (timer : Z) : TM unit :=
  p ← timer_pending timer;
  BUG_ON p ;;
  t ← get_timer timer;
  mod_timer timer (expires t) ;;
  mret tt.

(** [cpu] is the only CPU; [wake_up_idle_cpu] does nothing on one CPU. *)
Definition add_timer_on (timer cpu : Z) : TM unit :=
  p ← timer_pending timer;
  t ← get_timer timer;
  BUG_ON (p || (function t =? 0)) ;;
  s ← get;
  timer_set_base timer (tvec_bases s) ;;
  t ← get_timer timer;
  modify (lower_next t) ;;
  internal_add_timer timer.

Definition del_timer (timer : Z) : TM Z :=
  p ← timer_pending timer;
  if (p : bool) then
    base_ ← lock_timer_base timer;
    p ← timer_pending timer;
    if (p : bool) then
      detach_timer timer true ;;
      t ← get_timer timer;
      modify (forget_next t) ;;
      mret 1
    else mret 0
  else mret 0.

(** The list heads in the order in which [init_timers_cpu] initialises them. *)
Definition init_order : list (nat * Z) :=
  concat ((λ j, [(4%nat, j); (3%nat, j); (2%nat, j); (1%nat, j)]) <$> seqZ 0 TVN_SIZE) ++ (pair 0%nat <$> seqZ 0 TVR_SIZE).
Fixpoint init_vecs (l : list (nat * Z)) : TM unit :=
  match l with
  | [] => mret tt
  | (n, j) :: l => s ← get; on_lists (INIT_LIST_HEAD (vec s n j)) ;; init_vecs l
  end.
(** The call for the boot CPU, whose [tvec_base] is static. *)
Definition init_timers_cpu : TM Z :=
  init_vecs init_order ;;
  modify (λ s, set_timer_jiffies (jiffies s) s) ;;
  modify (λ s, set_next_timer (timer_jiffies s) s) ;;
  mret 0.

(** ** The invariant

    [T] is the next jiffy to be processed, as an unbounded number; [timer_jiffies] is
    [T] at its width.  A timer of the list [i] of [tv(n+1)] is due at a jiffy [D]
    that lies in the span of 2^[bits n] jiffies that the list stands for; the
    [slots n] lists stand for the spans from the first one that starts at [T] or
    later.  A timer whose expiry time has passed is due at [T], and is in [tv1]. *)
Definition bits (n : nat) : Z := match n with O => 0 | S k => 8 + 6 * Z.of_nat k end.
Definition slots (n : nat) : Z := match n with O => 256 | S _ => 64 end.
Definition slot (n : nat) (i : Z) : Prop := (n < 5)%nat /\ 0 <= i < slots n.
Definition due (T e : Z) : Z := T + Z.max 0 (s32 (e - T)).

(** [D] is in the spans of level [n] from the jiffy [tau] on. *)
Definition window (n : nat) (tau D : Z) : Prop :=
  exists c, (c - 1) * 2 ^ bits n < tau <= c * 2 ^ bits n /\ c * 2 ^ bits n <= D < (c + slots n) * 2 ^ bits n.

Record placed (tau T : Z) (n : nat) (i e : Z) : Prop := {
  pl_window : window n tau (due T e);
  pl_slot : i = (due T e `div` 2 ^ bits n) `mod` slots n;
  pl_future : n <> 0%nat -> 0 <= s32 (e - T);
}.

Section placement.
Implicit Types (n : nat) (T tau D e i : Z).

Lemma bits_nonneg n : 0 <= bits n.
Proof. destruct n; cbn [bits]; lia. Qed.

Lemma ceil_exists n tau : exists c, (c - 1) * 2 ^ bits n < tau <= c * 2 ^ bits n.
Proof.
  pose proof (Z.pow_pos_nonneg 2 (bits n) ltac:(lia) (bits_nonneg n)) as Hg.
  exists ((tau + 2 ^ bits n - 1) `div` 2 ^ bits n).
  pose proof (Z.div_mod (tau + 2 ^ bits n - 1) (2 ^ bits n) ltac:(lia)).
  pose proof (Z.mod_pos_bound (tau + 2 ^ bits n - 1) (2 ^ bits n) Hg). nia.
Qed.

(** The bits of [expires] that select the list are those of the jiffy [D]. *)
Lemma slot_bits D b k : 0 <= b -> 0 <= k -> b + k <= 32 ->
  Z.land (Z.shiftr (u32 D) b) (2 ^ k - 1) = (D `div` 2 ^ b) `mod` 2 ^ k.
Proof.
  intros Hb Hk Hbk. rewrite land_ones_mod, Z.shiftr_div_pow2 by lia. unfold u32.
  pose proof (Z.div_mod D (2 ^ 32) ltac:(lia)) as E. set (q := D `div` 2 ^ 32) in *. set (r := D `mod` 2 ^ 32) in *.
  assert (D `div` 2 ^ b = r `div` 2 ^ b + q * 2 ^ (32 - b - k) * 2 ^ k) as ->.
  { rewrite E. replace (2 ^ 32 * q + r) with (r + (q * 2 ^ (32 - b - k) * 2 ^ k) * 2 ^ b).
    - apply Z.div_add. lia.
    - rewrite <-!Z.mul_assoc, <-!Z.pow_add_r by lia. replace (32 - b - k + (k + b)) with 32 by lia. lia. }
  by rewrite Z.mod_add by lia.
Qed.

(** The distance to the expiry time, and the jiffy it stands for. *)
Lemma distance T e : 0 <= e < 2 ^ 32 -> let d := u32 (e - T) in
  e = u32 (T + d) /\ (d < 2 ^ 31 -> s32 (e - T) = d) /\ (2 ^ 31 <= d -> s32 (e - T) < 0).
Proof.
  intros He d. split; [|unfold s32; fold d; pose proof (u32_range (e - T)); split; intros; destruct (Z.ltb_spec d (2 ^ 31)); lia].
  unfold d. rewrite u32_add_r. replace (T + (e - T)) with e by lia. by rewrite u32_small.
Qed.

(** A jiffy that is at least one span ahead of [T] is in the spans from [T] on and
    in those from [T + 1] on. *)
Lemma window_add n T tau D : n <> 0%nat -> 2 ^ bits n <= D - T < slots n * 2 ^ bits n -> T <= tau <= T + 1 -> window n tau D.
Proof.
  intros Hn Hd Ht. destruct (ceil_exists n tau) as (c & Hc). exists c. split; [done|].
  destruct n; [done|]. pose proof (Z.pow_pos_nonneg 2 (bits (S n)) ltac:(lia) (bits_nonneg _)). cbn [slots] in *. lia.
Qed.

Lemma placed_far n T tau e : (1 <= n < 5)%nat -> 0 <= e < 2 ^ 32 ->
  2 ^ bits n <= u32 (e - T) < slots n * 2 ^ bits n -> u32 (e - T) < 2 ^ 31 -> T <= tau <= T + 1 ->
  placed tau T n (Z.land (Z.shiftr e (bits n)) 63) e.
Proof.
  intros Hn He Hd Hd' Ht. destruct (distance T e He) as (E & Hs & _). specialize (Hs Hd').
  pose proof (u32_range (e - T)) as Hr. split; unfold due; rewrite ?Hs, ?Z.max_r by lia.
  - apply (window_add n T); [lia| |done]. lia.
  - rewrite E at 1. replace 63 with (2 ^ 6 - 1) by done.
    assert (bits n + 6 <= 32) by (destruct n as [|k]; cbn [bits]; lia).
    rewrite slot_bits by (pose proof (bits_nonneg n); lia). by destruct n; [lia|].
  - lia.
Qed.

(** [timer_vec] finds the place of a timer. *)
Lemma timer_vec_placed T tau e n i : 0 <= e < 2 ^ 32 -> timer_vec (u32 T) e = (n, i) ->
  T <= tau <= T + 1 -> (n = 0%nat -> tau = T) -> slot n i /\ placed tau T n i e.
Proof.
  intros He Hv Ht H0. unfold timer_vec in Hv. rewrite u32_sub_r in Hv.
  destruct (distance T e He) as (E & Hs & Hneg). pose proof (u32_range (e - T)) as Hr.
  assert (forall a, 0 <= Z.land a 63 < 64) as H64 by (intros a; change 63 with (2 ^ 6 - 1); rewrite land_ones_mod by lia; apply Z.mod_pos_bound; lia).
  assert (forall D, Z.land (u32 D) 255 = D `mod` 256) as Hl.
  { intros D. change 255 with (2 ^ 8 - 1). rewrite <-(Z.shiftr_0_r (u32 D)), slot_bits, Z.div_1_r by lia. done. }
  repeat match type of Hv with context [Z.shiftl 1 ?k] => let v := eval vm_compute in (Z.shiftl 1 k) in change (Z.shiftl 1 k) with v in Hv end.
  change TVR_SIZE with 256 in Hv. change TVR_MASK with 255 in Hv. change TVN_MASK with 63 in Hv.
  destruct (Z.ltb_spec (u32 (e - T)) 256).
  { injection Hv as <- <-. specialize (H0 eq_refl). subst tau. specialize (Hs ltac:(lia)). rewrite E at 1. rewrite Hl. split.
    - split; [lia|]. cbn [slots]. apply Z.mod_pos_bound. lia.
    - split; unfold due; rewrite ?Hs, ?Z.max_r by lia; [| |done].
      + exists T. cbn [bits slots]. lia.
      + rewrite E at 1. rewrite Hl. cbn [bits slots]. by rewrite Z.pow_0_r, Z.div_1_r. }
  destruct (Z.ltb_spec (u32 (e - T)) 16384).
  { injection Hv as <- <-. split; [split; [lia|apply H64]|]. apply placed_far; cbn [bits slots]; lia. }
  destruct (Z.ltb_spec (u32 (e - T)) 1048576).
  { injection Hv as <- <-. split; [split; [lia|apply H64]|]. apply placed_far; cbn [bits slots]; lia. }
  destruct (Z.ltb_spec (u32 (e - T)) 67108864).
  { injection Hv as <- <-. split; [split; [lia|apply H64]|]. apply placed_far; cbn [bits slots]; lia. }
  rewrite s32_u32 in Hv. destruct (Z.ltb_spec (s32 (e - T)) 0).
  { injection Hv as <- <-. specialize (H0 eq_refl). subst tau. rewrite Hl. split.
    - split; [lia|]. cbn [slots]. apply Z.mod_pos_bound. lia.
    - split; unfold due; rewrite ?Z.max_l by lia; [| |done].
      + exists T. cbn [bits slots]. lia.
      + cbn [bits slots]. by rewrite Z.pow_0_r, Z.div_1_r, Z.add_0_r. }
  assert (u32 (e - T) < 2 ^ 31) by (destruct (Z.ltb_spec (u32 (e - T)) (2 ^ 31)); [done|]; lia).
  rewrite Z.gtb_ltb, (proj2 (Z.ltb_ge _ _)) in Hv by (unfold ULONG_MAX; lia).
  injection Hv as <- <-. split; [split; [lia|apply H64]|]. apply placed_far; cbn [bits slots]; lia.
Qed.
End placement.

(** The timers that are known to the wheel are set up: they have a function, and
    the base of the CPU. *)
Record timer_ok (s : wheel) (x : Z) (t : timer_list) : Prop := {
  to_expires : 0 <= expires t < 2 ^ 32;
  to_base : tbase_get_base (base t) = tvec_bases s;
  to_function : function t <> 0;
  to_alloc : allocated (lists s) x;
  to_addr : x <> 0;
}.

(** [L] gives the lists.  Besides the heads of the wheel there can be heads [ws] on
    the stack; the timers [fl] are on no list while an operation moves them.
    [tau n] is the jiffy from which the spans of level [n] are counted. *)
Record wheel_rep (ws fl : list Z) (s : wheel) (L : heads) (T : Z) (tau : nat -> Z) : Prop := {
  wr_lists : lrep (lists s) L;
  wr_now : timer_jiffies s = u32 T;
  wr_vecs : forall n i, slot n i -> is_Some (L !! vec s n i);
  wr_heads : forall h l, L !! h = Some l -> (exists n i, slot n i /\ h = vec s n i) \/ h ∈ ws;
  wr_heads_ne : forall h l, L !! h = Some l -> h <> 0 /\ timers s !! h = None;
  wr_entries : forall h l x, L !! h = Some l -> x ∈ l -> is_Some (timers s !! x);
  wr_timers : forall x t, timers s !! x = Some t -> timer_ok s x t;
  wr_idle : forall x t, timers s !! x = Some t -> x ∉ fl -> (forall h, ~ own L x h) -> nxt (lists s) x = Some 0;
  wr_flight : forall x h, x ∈ fl -> ~ own L x h;
  wr_placed : forall n i l x t, slot n i -> L !! vec s n i = Some l -> x ∈ l -> timers s !! x = Some t ->
    placed (tau n) T n i (expires t);
}.

(** Whether a timer is pending, and the pending timers with their expiry times. *)
Definition pend (s : wheel) (x : Z) : bool := match nxt (lists s) x with Some v => negb (v =? 0) | None => false end.
Definition pending (s : wheel) : gmap Z Z :=
  map_imap (λ x t, if pend s x then Some (expires t) else None) (timers s).
Definition listed (L : heads) (x : Z) : Prop := exists h l, L !! h = Some l /\ x ∈ l.

Arguments wr_lists {_ _ _ _ _ _}. Arguments wr_now {_ _ _ _ _ _}. Arguments wr_vecs {_ _ _ _ _ _}.
Arguments wr_heads {_ _ _ _ _ _}. Arguments wr_heads_ne {_ _ _ _ _ _}. Arguments wr_entries {_ _ _ _ _ _}.
Arguments wr_timers {_ _ _ _ _ _}. Arguments wr_idle {_ _ _ _ _ _}. Arguments wr_flight {_ _ _ _ _ _}.
Arguments wr_placed {_ _ _ _ _ _}.

Section wheel_rep.
Context (ws : list Z).
Implicit Types (fl : list Z) (s : wheel) (L : heads) (T x h : Z) (tau : nat -> Z) (t : timer_list).

Lemma wheel_lists_run {A} (f : M mem A) s a m' : f (lists s) = Some (a, m') -> on_lists f s = Some (a, set_lists m' s).
Proof. intros H. unfold on_lists. by rewrite H. Qed.
Lemma set_lists_id s : set_lists (lists s) s = s.
Proof. by destruct s. Qed.
Lemma get_timer_run s x t : timers s !! x = Some t -> get_timer x s = Some (t, s).
Proof. intros H. unfold get_timer. by rewrite H. Qed.

Lemma vec_inj s n i n' i' : slot n i -> slot n' i' -> vec s n i = vec s n' i' -> n = n' /\ i = i'.
Proof.
  intros [Hn Hi] [Hn' Hi'] E. unfold vec in E. assert (tv_offset n + i = tv_offset n' + i') as E' by lia. clear E.
  assert (forall k, tv_offset (S k) = 256 + 64 * Z.of_nat k) as Ho by done. assert (tv_offset 0 = 0) as H0 by done.
  destruct n as [|n], n' as [|n']; rewrite ?Ho, ?H0 in E'; cbn [slots] in *; split; try lia.
Qed.

Lemma own_timer fl s L T tau x t h : wheel_rep ws fl s L T tau -> timers s !! x = Some t -> own L x h <-> exists l, L !! h = Some l /\ x ∈ l.
Proof.
  intros Hr Ht. split.
  - intros (l & E & Hx). exists l. split; [done|]. apply elem_of_cons in Hx as [->|]; [|done].
    destruct (wr_heads_ne Hr _ _ E) as [_ Hn]. congruence.
  - intros (l & E & Hx). by eapply own_entry.
Qed.

(** A timer that is on a list is pending: the next node is a timer or a head, and
    neither is at address 0. *)
Lemma listed_next fl s L T tau x : wheel_rep ws fl s L T tau -> listed L x -> exists v, nxt (lists s) x = Some v /\ v <> 0.
Proof.
  intros Hr (h & l & E & Hx). apply list_elem_of_split in Hx as (l1 & l2 & ->).
  pose proof (heap_next _ _ _ _ _ _ (wr_lists Hr) E) as Hn.
  unfold get_next, load, mbind, M_bind in Hn. unfold nxt. destruct (lists s !! x) as [v|]; [|done].
  exists (lh_next v). split; [done|]. cbn in Hn. injection Hn as ->.
  destruct l2 as [|y l2]; cbn [hd]; [by eapply wr_heads_ne|].
  destruct (wr_entries Hr _ _ y E) as (t & Ht); [set_solver +|].
  by apply (wr_timers Hr) in Ht as [].
Qed.

Lemma pend_listed fl s L T tau x t : wheel_rep ws fl s L T tau -> timers s !! x = Some t -> x ∉ fl -> pend s x = true <-> listed L x.
Proof.
  intros Hr Ht Hf. split.
  - intros Hp. apply dec_stable. intros Hn. unfold pend in Hp.
    rewrite (wr_idle Hr x t Ht Hf) in Hp; [done|].
    intros h Ho. apply Hn. apply (own_timer _ _ _ _ _ _ _ h Hr Ht) in Ho as (l & E & Hx). by exists h, l.
  - intros Hl. destruct (listed_next _ _ _ _ _ _ Hr Hl) as (v & Hv & Hne). unfold pend. rewrite Hv. lia.
Qed.

(** ** Moving timers *)
Lemma same_outside_alloc m m' L h l S : lrep m' L -> L !! h = Some l -> (forall q, q ∈ S -> q ∈ h :: l \/ allocated m' q) ->
  same_outside S m m' -> forall y, allocated m y -> allocated m' y.
Proof.
  intros Hr E HS Hs y Hy. destruct (decide (y ∈ S)) as [Hin|Hin].
  - destruct (HS y Hin); [|done]. by eapply dlist_allocated; [apply (lr_dlist _ _ Hr _ _ E)|].
  - unfold allocated. by rewrite Hs.
Qed.

Lemma detach_run s L h l1 x l2 (c : bool) : lrep (lists s) L -> L !! h = Some (l1 ++ x :: l2) ->
  exists m', detach_timer x c s = Some (tt, set_lists m' s) /\ lrep m' (<[h := l1 ++ l2]> L) /\
    (forall h', ~ own (<[h := l1 ++ l2]> L) x h') /\ same_outside (h :: l1 ++ x :: l2) (lists s) m' /\
    (forall y, allocated (lists s) y -> allocated m' y) /\ (c = true -> nxt m' x = Some 0).
Proof.
  intros Hr E. destruct (cut_exists h l1 l2) as (A & p & n & B & Hcut).
  destruct (__list_del_dlist _ _ _ _ _ _ _ _ _ Hcut (lr_dlist _ _ Hr _ _ E)) as (m1 & Hrun & Hp & Hn & Hd & Hx & Ha & Hs).
  destruct (lrep_unlink (lists s) m1 L h l1 l2 x Hr E Hd) as [Hr1 Hu]; [eapply same_outside_mono; [|exact Hs]; set_solver +|].
  set (m2 := if c then upd_next x 0 m1 else m1).
  assert (allocated m2 x) as Ha2 by (unfold m2; destruct c; [by apply allocated_upd_next|done]).
  assert (same_outside [x] m1 (upd_prev x LIST_POISON2 m2)) as Hs2.
  { intros q Hq. assert (q <> x) by set_solver +Hq. rewrite lookup_upd_prev_ne by done. unfold m2.
    destruct c; [by rewrite lookup_upd_next_ne|done]. }
  assert (lrep (upd_prev x LIST_POISON2 m2) (<[h := l1 ++ l2]> L)) as Hr2 by by eapply lrep_outside.
  assert (same_outside (h :: l1 ++ x :: l2) (lists s) (upd_prev x LIST_POISON2 m2)) as Hs3.
  { eapply same_outside_mono; [|by eapply same_outside_trans]. set_solver +. }
  exists (upd_prev x LIST_POISON2 m2). split; [|split; [done|split; [done|split; [done|split]]]].
  - unfold detach_timer. mrun (wheel_lists_run _ _ _ _ (get_prev_run _ _ _ Hp)).
    rewrite set_lists_id. mrun (wheel_lists_run _ _ _ _ (get_next_run _ _ _ Hn)). rewrite set_lists_id.
    mrun (wheel_lists_run _ _ _ _ Hrun). unfold m2. destruct c.
    + erewrite bind_run by (apply wheel_lists_run, set_next_run; exact Ha). exact (wheel_lists_run _ (set_lists (upd_next x 0 m1) s) _ _ (set_prev_run _ _ _ (proj2 (allocated_upd_next _ _ _ _) Ha))).
    + rewrite bind_mret_l. exact (wheel_lists_run _ (set_lists m1 s) _ _ (set_prev_run _ _ _ Ha)).
  - eapply same_outside_alloc; [exact Hr2|apply lookup_insert_eq| |exact Hs3].
    intros q Hq. destruct (decide (q = x)) as [->|]; [right; by apply allocated_upd_prev|left; set_solver +Hq n0].
  - intros ->. rewrite nxt_upd_prev. unfold m2. by apply nxt_upd_eq.
Qed.

(** Taking a timer off its list puts it in flight. *)
Lemma detach_rep fl s L T tau h l1 x l2 (c : bool) : wheel_rep ws fl s L T tau -> L !! h = Some (l1 ++ x :: l2) ->
  exists m', detach_timer x c s = Some (tt, set_lists m' s) /\
    wheel_rep ws (if c then fl else x :: fl) (set_lists m' s) (<[h := l1 ++ l2]> L) T tau.
Proof.
  intros Hr E. destruct (detach_run s L h l1 x l2 c (wr_lists Hr) E) as (m' & Hrun & Hl & Hu & Hs & Ha & Hc).
  exists m'. split; [done|].
  assert (forall k l, <[h := l1 ++ l2]> L !! k = Some l -> exists l', L !! k = Some l' /\ forall y, y ∈ l -> y ∈ l') as Hsub.
  { intros k l [[<- <-]|[_ Hk]]%lookup_insert_Some; [|by exists l]. eexists. split; [done|]. set_solver +. }
  assert (forall y k, own (<[h := l1 ++ l2]> L) y k -> own L y k) as Hown.
  { intros y k (l & Hk & Hy). destruct (Hsub k l Hk) as (l' & Hl' & Hin). exists l'. set_solver +Hl' Hin Hy. }
  split; cbn; [done|apply Hr|..].
  - intros n i Hi. change (vec (set_lists m' s) n i) with (vec s n i). destruct (decide (vec s n i = h)) as [->|]; heads_lookup; [done|by apply Hr].
  - intros k l Hk. destruct (Hsub k l Hk) as (l' & Hl' & _). by eapply (wr_heads Hr).
  - intros k l Hk. destruct (Hsub k l Hk) as (l' & Hl' & _). by eapply (wr_heads_ne Hr).
  - intros k l y Hk Hy. destruct (Hsub k l Hk) as (l' & Hl' & Hin). by eapply (wr_entries Hr); eauto.
  - intros y t Ht. destruct (wr_timers Hr _ _ Ht). split; try done. by apply Ha.
  - intros y t Ht Hy Hn. destruct (decide (y = x)) as [->|Hne].
    + destruct c; [by apply Hc|]. set_solver +Hy.
    + assert (forall k, ~ own L y k) as HnL.
      { intros k (l & Hk & Hin). apply (Hn k). destruct (decide (k = h)) as [->|].
        - rewrite E in Hk. injection Hk as <-. exists (l1 ++ l2). heads_lookup. split; [done|]. set_solver +Hin Hne.
        - exists l. heads_lookup. done. }
      unfold nxt. rewrite Hs; [|intros Hin; apply (HnL h); by eexists].
      apply (wr_idle Hr y t Ht); [|done]. destruct c; [done|set_solver +Hy].
  - intros y k Hy Ho. destruct (decide (y = x)) as [->|]; [by eapply Hu|].
    eapply (wr_flight Hr y k); [destruct c; [done|]; set_solver +Hy n|by apply Hown].
  - intros n i l y t Hi Hk Hy Ht. destruct (Hsub _ l Hk) as (l' & Hl' & Hin). by eapply (wr_placed Hr); eauto.
Qed.

(** [internal_add_timer] puts a timer that is in flight on the list of its place, at
    the tail. *)
Lemma add_rep fl s L T tau x t : wheel_rep ws (x :: fl) s L T tau -> x ∉ fl -> timers s !! x = Some t ->
  tau 0%nat = T -> (forall n, T <= tau n <= T + 1) ->
  exists m' n i l, internal_add_timer x s = Some (tt, set_lists m' s) /\ slot n i /\ L !! vec s n i = Some l /\
    wheel_rep ws fl (set_lists m' s) (<[vec s n i := l ++ [x]]> L) T tau /\
    (forall y, y <> x -> (forall h, ~ own L y h) -> m' !! y = lists s !! y).
Proof.
  intros Hr Hx Ht H0 Htau. destruct (timer_vec (u32 T) (expires t)) as [n i] eqn:Ev.
  destruct (wr_timers Hr _ _ Ht) as [He _ _ Ha _].
  destruct (timer_vec_placed T (tau n) (expires t) n i He Ev (Htau n)) as [Hi Hp]; [intros ->; done|].
  destruct (wr_vecs Hr n i Hi) as (l & El). pose proof El as El'. rewrite <-(app_nil_r l) in El'.
  assert (forall h, ~ own L x h) as Hu by (intros h; apply (wr_flight Hr); set_solver +).
  destruct (heap_add_before (lists s) L (vec s n i) l [] x (vec s n i) [] (wr_lists Hr) El' Hu Ha eq_refl) as (m' & Hrun & Hl & Hs).
  rewrite app_nil_r in Hs.
  assert (forall y, y <> x -> (forall h, ~ own L y h) -> m' !! y = lists s !! y) as Hframe.
  { intros y Hy Hn. apply Hs. intros [?|Hin]%elem_of_cons; [done|]. apply (Hn (vec s n i)). by exists l. }
  exists m', n, i, l. split; [|split; [done|split; [done|split; [|done]]]].
  { unfold internal_add_timer. mrun (get_timer_run _ _ _ Ht). rewrite (bind_run _ _ s s s) by done.
    rewrite (wr_now Hr), Ev. by apply wheel_lists_run. }
  assert (forall k l0, <[vec s n i := l ++ [x]]> L !! k = Some l0 ->
    exists l', L !! k = Some l' /\ forall y, y ∈ l0 -> y ∈ l' \/ (y = x /\ k = vec s n i)) as Hsub.
  { intros k l0 [[<- <-]|[_ Hk]]%lookup_insert_Some; [|exists l0; split; [done|by left]]. exists l. split; [done|].
    intros y [?|Hy]%elem_of_app; [by left|]. apply list_elem_of_singleton in Hy as ->. by right. }
  split; cbn; [done|apply Hr|..].
  - intros n' i' Hi'. change (vec (set_lists m' s) n' i') with (vec s n' i').
    destruct (decide (vec s n i = vec s n' i')) as [->|]; heads_lookup; [done|by apply Hr].
  - intros k l0 Hk. destruct (Hsub k l0 Hk) as (l' & Hl' & _). by eapply (wr_heads Hr).
  - intros k l0 Hk. destruct (Hsub k l0 Hk) as (l' & Hl' & _). by eapply (wr_heads_ne Hr).
  - intros k l0 y Hk Hy. destruct (Hsub k l0 Hk) as (l' & Hl' & Hin).
    destruct (Hin y Hy) as [Hy'|[-> _]]; [by eapply (wr_entries Hr)|by eexists].
  - intros y t' Ht'. destruct (wr_timers Hr _ _ Ht'). split; try done.
    eapply same_outside_alloc; [exact Hl|apply lookup_insert_eq| |exact Hs|done]. intros q Hq. left. set_solver +Hq.
  - intros y t' Ht' Hy Hn. assert (y <> x) as Hne.
    { intros ->. apply (Hn (vec s n i)). eexists. heads_lookup. split; [done|set_solver +]. }
    assert (forall k, ~ own L y k) as HnL.
    { intros k (l0 & Hk & Hin). apply (Hn k). destruct (decide (k = vec s n i)) as [->|].
      - exists (l ++ [x]). heads_lookup. split; [done|]. rewrite El in Hk. injection Hk as <-. set_solver +Hin.
      - exists l0. heads_lookup. done. }
    unfold nxt. rewrite Hframe by done. apply (wr_idle Hr y t' Ht'); [set_solver +Hne Hy|done].
  - intros y k Hy (l0 & Hk & Hin). destruct (Hsub k l0 Hk) as (l' & Hl' & Hin'). apply (wr_flight Hr y k); [set_solver +Hy|].
    exists l'. split; [done|]. apply elem_of_cons in Hin as [->|Hin]; [set_solver +|].
    destruct (Hin' y Hin) as [?|[-> _]]; [set_solver +H|done].
  - intros n' i' l0 y t' Hi' Hk Hy Ht'. destruct (Hsub _ l0 Hk) as (l' & Hl' & Hin).
    destruct (Hin y Hy) as [Hy'|[-> E]]; [by eapply (wr_placed Hr)|].
    change (vec (set_lists m' s) n' i') with (vec s n' i') in E. destruct (vec_inj s n' i' n i Hi' Hi E) as [-> ->]. congruence.
Qed.

(** Timers in flight can be changed. *)
Lemma put_rep fl s L T tau x t t' : wheel_rep ws fl s L T tau -> (forall h, ~ own L x h) -> timers s !! x = Some t ->
  timer_ok s x t' -> put_timer x t' s = Some (tt, set_timers (<[x := t']> (timers s)) s) /\
    wheel_rep ws fl (set_timers (<[x := t']> (timers s)) s) L T tau.
Proof.
  intros Hr Hx Ht Ho. split; [unfold put_timer; by rewrite Ht|].
  destruct Hr as [Hl Hn Hv Hh Hne He Hto Hid Hf Hp]. split; cbn; try done.
  - intros h l E. split; [by eapply Hne|]. destruct (Hne h l E) as [_ E']. rewrite lookup_insert_ne; [done|].
    intros <-. congruence.
  - intros h l y E Hy. apply lookup_insert_is_Some. destruct (decide (x = y)); [by left|right]. split; [done|by eapply He].
  - intros y t0 [[<- <-]|[_ E]]%lookup_insert_Some; [by destruct Ho|by apply Hto in E as []].
  - intros y t0 [[<- <-]|[_ E]]%lookup_insert_Some; [by apply (Hid x t)|by apply (Hid y t0)].
  - intros n i l y t0 Hi E Hy [[<- <-]|[_ E']]%lookup_insert_Some; [|by eapply Hp].
    destruct (Hx (vec s n i)). by eapply own_entry.
Qed.

Definition same_wheel (s s' : wheel) : Prop :=
  lists s' = lists s /\ timers s' = timers s /\ tvec_bases s' = tvec_bases s /\ tv1 s' = tv1 s /\ timer_jiffies s' = timer_jiffies s.
Lemma same_wheel_rep fl s s' L T tau : same_wheel s s' -> wheel_rep ws fl s L T tau -> wheel_rep ws fl s' L T tau.
Proof.
  destruct s, s'. intros (E1 & E2 & E3 & E4 & E5) []. cbn in *. subst. split; try done.
  intros x t Ht. by destruct (wr_timers0 x t Ht).
Qed.

(** ** What starting, changing and stopping a timer do *)
Definition wheel_ok (s : wheel) (L : heads) (T : Z) : Prop := wheel_rep ws [] s L T (λ _, T).

(** The timer [x] gets the expiry time [o], or is stopped; the lists on the stack
    lose it, and nothing else changes. *)
Record effect (s : wheel) (L : heads) (T x : Z) (o : option Z) (s' : wheel) (L' : heads) : Prop := {
  ef_ok : wheel_ok s' L' T;
  ef_pending : pending s' = partial_alter (λ _, o) x (pending s);
  ef_static : set_expires 0 <$> timers s' = set_expires 0 <$> timers s;
  ef_same : tvec_bases s' = tvec_bases s /\ tv1 s' = tv1 s /\ timer_jiffies s' = timer_jiffies s /\
    jiffies s' = jiffies s /\ called s' = called s;
  ef_work : forall w, (forall n i, slot n i -> w <> vec s n i) -> L' !! w = filter (λ y, y <> x) <$> L !! w;
}.

Lemma pending_lookup s y e : pending s !! y = Some e <-> exists t, timers s !! y = Some t /\ pend s y = true /\ expires t = e.
Proof.
  unfold pending. rewrite map_lookup_imap. destruct (timers s !! y) as [t|]; cbn.
  - destruct (pend s y); split; [intros [= <-]; eauto|intros (? & [= <-] & _ & <-); done|done|by intros (? & _ & ? & _)].
  - split; [done|by intros (? & ? & _)].
Qed.

(** Effects from the lists alone. *)
Lemma effect_intro s L T x t o s' L' : wheel_ok s L T -> timers s !! x = Some t -> wheel_ok s' L' T ->
  timers s' = (if o is Some e then <[x := set_expires e t]> (timers s) else timers s) ->
  tvec_bases s' = tvec_bases s -> tv1 s' = tv1 s -> timer_jiffies s' = timer_jiffies s -> jiffies s' = jiffies s -> called s' = called s ->
  (forall y, y <> x -> listed L' y <-> listed L y) -> (listed L' x <-> is_Some o) ->
  (forall w, (forall n i, slot n i -> w <> vec s n i) -> L' !! w = filter (λ y, y <> x) <$> L !! w) ->
  effect s L T x o s' L'.
Proof.
  intros Hr Ht Hr' Et E1 E2 E3 E4 E5 Hy Hx Hw. split; [done| | |done|done].
  - assert (forall y t' t0, y <> x -> timers s' !! y = Some t' -> timers s !! y = Some t0 -> pend s' y = pend s y) as Hpe.
    { intros y t' t0 Hne H' H0. apply eq_iff_eq_true. rewrite (pend_listed _ _ _ _ _ _ _ Hr' H'), (pend_listed _ _ _ _ _ _ _ Hr H0) by set_solver +. by apply Hy. }
    assert (forall y, y <> x -> timers s' !! y = timers s !! y) as Hts.
    { intros y Hne. rewrite Et. destruct o; [by rewrite lookup_insert_ne|done]. }
    apply map_eq. intros y. destruct (decide (y = x)) as [->|Hne].
    + rewrite lookup_partial_alter_eq. apply option_eq. intros e. rewrite pending_lookup.
      assert (exists t', timers s' !! x = Some t' /\ forall e', o = Some e' -> expires t' = e') as (t' & Ht' & He').
      { rewrite Et. destruct o as [e0|]; [exists (set_expires e0 t); split; [apply lookup_insert_eq|by intros ? [= ->]]|exists t; done]. }
      split.
      * intros (t1 & Ht1 & Hp & <-). assert (t1 = t') as -> by congruence.
        apply (pend_listed _ _ _ _ _ _ _ Hr' Ht') in Hp; [|set_solver +]. apply Hx in Hp as (e0 & ->). by rewrite (He' e0).
      * intros ->. exists t'. split; [done|]. split; [|by apply He']. apply (pend_listed _ _ _ _ _ _ _ Hr' Ht'); [set_solver +|]. apply Hx. eauto.
    + rewrite lookup_partial_alter_ne by done. apply option_eq. intros e. rewrite !pending_lookup, Hts by done.
      split; intros (t1 & Ht1 & Hp & <-); exists t1; (split; [done|]); (split; [|done]); rewrite <-Hp;
        [symmetry|]; apply (Hpe y t1 t1); rewrite ?Hts; done.
  - rewrite Et. destruct o as [e|]; [|done]. rewrite fmap_insert. apply insert_id. by rewrite lookup_fmap, Ht.
Qed.

Lemma lower_next_same t s : same_wheel s (lower_next t s) /\ jiffies (lower_next t s) = jiffies s /\ called (lower_next t s) = called s.
Proof. unfold lower_next. by case_match. Qed.
Lemma forget_next_same t s : same_wheel s (forget_next t s) /\ jiffies (forget_next t s) = jiffies s /\ called (forget_next t s) = called s.
Proof. unfold forget_next. by case_match. Qed.

Lemma timer_pending_run s L T fl tau x t : wheel_rep ws fl s L T tau -> timers s !! x = Some t -> timer_pending x s = Some (pend s x, s).
Proof.
  intros Hr Ht. destruct (wr_timers Hr _ _ Ht) as [_ _ _ [v Ha] _].
  assert (nxt (lists s) x = Some (lh_next v)) as Hn by (unfold nxt; by rewrite Ha).
  unfold timer_pending, pend. mrun (wheel_lists_run _ _ _ _ (get_next_run _ _ _ Hn)). by rewrite set_lists_id, Hn.
Qed.

Lemma lock_run s L T fl tau x t : wheel_rep ws fl s L T tau -> timers s !! x = Some t -> lock_timer_base x s = Some (tvec_bases s, s).
Proof.
  intros Hr Ht. unfold lock_timer_base. mrun (get_timer_run _ _ _ Ht). rewrite (bind_run _ _ s s s) by done.
  destruct (wr_timers Hr _ _ Ht) as [_ -> _ _ _]. by rewrite Z.eqb_refl.
Qed.

(** Setting the expiry time of a timer in flight and adding it. *)
Lemma arm_rep s L T x t e (r : Z) : wheel_rep ws [x] s L T (λ _, T) -> timers s !! x = Some t -> 0 <= e < 2 ^ 32 ->
  exists m' n i l, let t' := set_expires e t in let s' := set_lists m' (lower_next t' (set_timers (<[x := t']> (timers s)) s)) in
    (t ← get_timer x; put_timer x (set_expires e t) ;; modify (lower_next (set_expires e t)) ;; internal_add_timer x ;; mret r) s = Some (r, s') /\
    slot n i /\ L !! vec s n i = Some l /\ wheel_ok s' (<[vec s n i := l ++ [x]]> L) T.
Proof.
  intros Hr Ht He. set (t' := set_expires e t). set (s1 := set_timers (<[x := t']> (timers s)) s).
  destruct (put_rep [x] s L T (λ _, T) x t t' Hr) as [Hput Hr1];
    [intros h; apply (wr_flight Hr); set_solver +|done|by destruct (wr_timers Hr _ _ Ht)|].
  destruct (lower_next_same t' s1) as (Hsame & _). pose proof (same_wheel_rep _ _ _ _ _ _ Hsame Hr1) as Hr2.
  destruct (add_rep [] (lower_next t' s1) L T (λ _, T) x t') as (m' & n & i & l & Hrun & Hi & El & Hr3 & _); [done|set_solver +| |done|lia|].
  { destruct Hsame as (_ & -> & _). apply lookup_insert_eq. }
  assert (vec (lower_next t' s1) n i = vec s n i) as Hv by (unfold vec; by destruct Hsame as (_ & _ & _ & -> & _)).
  rewrite Hv in *. exists m', n, i, l. split; [|done].
  mrun (get_timer_run _ _ _ Ht). mrun Hput. rewrite (bind_run _ _ s1 tt (lower_next t' s1)) by done. by mrun Hrun.
Qed.

Lemma listed_remove m L h l1 x l2 y : lrep m L -> L !! h = Some (l1 ++ x :: l2) ->
  listed (<[h := l1 ++ l2]> L) y <-> listed L y /\ y <> x.
Proof.
  intros Hr E. pose proof (lrep_nodup _ _ _ _ Hr E) as Hn. apply NoDup_cons in Hn as [_ Hn].
  rewrite <-Permutation_middle in Hn. apply NoDup_cons in Hn as [Hx _]. split.
  - intros (k & l & [[<- <-]|[Hk El]]%lookup_insert_Some & Hy).
    + split; [exists h, (l1 ++ x :: l2); split; [done|set_solver +Hy]|]. by intros ->.
    + split; [by exists k, l|]. intros ->. apply Hk. eapply (lr_disj _ _ Hr x); [eapply own_entry; [exact E|set_solver +]|by eapply own_entry].
  - intros [(k & l & El & Hy) Hne]. destruct (decide (k = h)) as [->|].
    + exists h, (l1 ++ l2). heads_lookup. split; [done|]. rewrite E in El. injection El as <-. set_solver +Hy Hne.
    + exists k, l. by heads_lookup.
Qed.
Lemma listed_add L v l x y : L !! v = Some l -> listed (<[v := l ++ [x]]> L) y <-> listed L y \/ y = x.
Proof.
  intros E. split.
  - intros (k & l' & [[<- <-]|[Hk El]]%lookup_insert_Some & Hy); [|left; by exists k, l'].
    apply elem_of_app in Hy as [?|Hy]; [left; by exists v, l|]. apply list_elem_of_singleton in Hy. by right.
  - intros [(k & l' & El & Hy)| ->].
    + destruct (decide (k = v)) as [->|]; [|exists k, l'; by heads_lookup].
      exists v, (l ++ [x]). heads_lookup. split; [done|]. assert (l' = l) as -> by congruence. set_solver +Hy.
    + exists v, (l ++ [x]). heads_lookup. split; [done|set_solver +].
Qed.

(** The two ways to a timer in flight: it was pending, or idle. *)
Lemma pending_split s L T x t : wheel_ok s L T -> timers s !! x = Some t -> pend s x = true ->
  exists h l1 l2, L !! h = Some (l1 ++ x :: l2).
Proof.
  intros Hr Ht Hp. apply (pend_listed _ _ _ _ _ _ _ Hr Ht) in Hp as (h & l & E & Hx); [|set_solver +].
  apply list_elem_of_split in Hx as (l1 & l2 & ->). by exists h, l1, l2.
Qed.
Lemma idle_unlisted s L T x t : wheel_ok s L T -> timers s !! x = Some t -> pend s x = false -> ~ listed L x.
Proof. intros Hr Ht Hp Hl. apply (pend_listed _ _ _ _ _ _ _ Hr Ht) in Hl; [congruence|set_solver +]. Qed.
Lemma idle_flight s L T x t : wheel_ok s L T -> timers s !! x = Some t -> pend s x = false -> wheel_rep ws [x] s L T (λ _, T).
Proof.
  intros Hr Ht Hp. pose proof (idle_unlisted _ _ _ _ _ Hr Ht Hp) as Hn. pose proof Hr as []. split; try done.
  - intros y t' Ht' _. apply wr_idle0 with t'; [done|set_solver +].
  - intros y h Hy Ho. apply list_elem_of_singleton in Hy as ->. apply Hn.
    apply (own_timer _ _ _ _ _ _ _ _ Hr Ht) in Ho as (l & E & Hx). by exists h, l.
Qed.

Lemma work_remove m L h l1 x l2 w : lrep m L -> L !! h = Some (l1 ++ x :: l2) ->
  <[h := l1 ++ l2]> L !! w = filter (λ y, y <> x) <$> L !! w.
Proof.
  intros Hr E. pose proof (lrep_nodup _ _ _ _ Hr E) as Hn. apply NoDup_cons in Hn as [_ Hn].
  destruct (decide (w = h)) as [->|Hne].
  - rewrite lookup_insert_eq, E. cbn. by rewrite filter_ne.
  - rewrite lookup_insert_ne by congruence. destruct (L !! w) as [k|] eqn:Ew; [|done]. cbn. rewrite filter_ne_notin; [done|].
    intros Hx. apply Hne. eapply (lr_disj _ _ Hr x); [by eapply own_entry|eapply own_entry; [exact E|set_solver +]].
Qed.
Lemma work_unlisted L x w : ~ listed L x -> L !! w = filter (λ y, y <> x) <$> L !! w.
Proof.
  intros Hn. destruct (L !! w) as [k|] eqn:Ew; [|done]. cbn. rewrite filter_ne_notin; [done|]. intros Hx. apply Hn. by exists w, k.
Qed.

(** [s1] and [L1] are [s] and [L] with the timer [x] taken off its list, if any. *)
Record lifted (x : Z) (s : wheel) (L : heads) (s1 : wheel) (L1 : heads) : Prop := {
  li_timers : timers s1 = timers s;
  li_bases : tvec_bases s1 = tvec_bases s;
  li_tv1 : tv1 s1 = tv1 s;
  li_tj : timer_jiffies s1 = timer_jiffies s;
  li_jiffies : jiffies s1 = jiffies s;
  li_called : called s1 = called s;
  li_listed : forall y, listed L1 y <-> listed L y /\ y <> x;
  li_work : forall w, L1 !! w = filter (λ y, y <> x) <$> L !! w;
}.

Lemma lifted_idle s L T x t : wheel_ok s L T -> timers s !! x = Some t -> pend s x = false -> lifted x s L s L.
Proof.
  intros Hr Ht Hp. pose proof (idle_unlisted _ _ _ _ _ Hr Ht Hp) as Hn. split; try done.
  - intros y. split; [|naive_solver]. intros Hy. split; [done|]. by intros ->.
  - intros w. by apply work_unlisted.
Qed.

(** Taking a pending timer off its list, with the update of [next_timer]. *)
Lemma lifted_detach s L T x t (c : bool) : wheel_ok s L T -> timers s !! x = Some t -> pend s x = true ->
  exists s1 L1, (detach_timer x c ;; modify (forget_next t)) s = Some (tt, s1) /\ lifted x s L s1 L1 /\
    wheel_rep ws (if c then [] else [x]) s1 L1 T (λ _, T) /\ next_timer s1 = next_timer (forget_next t s).
Proof.
  intros Hr Ht Hp. destruct (pending_split _ _ _ _ _ Hr Ht Hp) as (h & l1 & l2 & E).
  destruct (detach_rep [] s L T (λ _, T) h l1 x l2 c Hr E) as (m1 & Hdet & Hr1).
  destruct (forget_next_same t (set_lists m1 s)) as (Hsame & Hj & Hc). pose proof Hsame as (_ & Et & Eb & Ev & Etj).
  exists (forget_next t (set_lists m1 s)), (<[h := l1 ++ l2]> L). split; [by mrun Hdet|]. split; [|split].
  - split; try done; [intros y; by eapply listed_remove; [apply Hr|]|intros w; by eapply work_remove; [apply Hr|]].
  - by eapply same_wheel_rep.
  - unfold forget_next. cbn [set_lists next_timer timer_jiffies]. by destruct (expires t =? next_timer s), (deferrable t).
Qed.

Lemma arm_effect s L T x t e (r : Z) s1 L1 : wheel_ok s L T -> timers s !! x = Some t -> wheel_rep ws [x] s1 L1 T (λ _, T) ->
  lifted x s L s1 L1 -> 0 <= e < 2 ^ 32 ->
  exists s' L', (t ← get_timer x; put_timer x (set_expires e t) ;; modify (lower_next (set_expires e t)) ;; internal_add_timer x ;; mret r) s1 = Some (r, s') /\
    effect s L T x (Some e) s' L' /\ next_timer s' = next_timer (lower_next (set_expires e t) s1).
Proof.
  intros Hr Ht Hr1 [Et Eb Ev Etj Ej Ec Hl Hw] He.
  destruct (arm_rep s1 L1 T x t e r Hr1 ltac:(by rewrite Et) He) as (m2 & n & i & l & Hrun & Hi & El & Hr2).
  set (t' := set_expires e t) in *. set (s2 := lower_next t' (set_timers (<[x := t']> (timers s1)) s1)) in *.
  destruct (lower_next_same t' (set_timers (<[x := t']> (timers s1)) s1)) as ((_ & Et2 & Eb2 & Ev2 & Etj2) & Hj2 & Hc2).
  exists (set_lists m2 s2), (<[vec s1 n i := l ++ [x]]> L1). split; [exact Hrun|split].
  - eapply effect_intro; [done|exact Ht|exact Hr2|..]; cbn [set_lists timers tvec_bases tv1 timer_jiffies jiffies called] in *.
    + rewrite <-Et. exact Et2.
    + rewrite <-Eb. exact Eb2.
    + rewrite <-Ev. exact Ev2.
    + rewrite <-Etj. exact Etj2.
    + rewrite <-Ej. exact Hj2.
    + rewrite <-Ec. exact Hc2.
    + intros y Hy. rewrite listed_add by done. rewrite Hl. naive_solver.
    + rewrite listed_add by done. naive_solver.
    + intros w Hw'. rewrite lookup_insert_ne; [apply Hw|]. intros <-. apply (Hw' n i Hi). unfold vec. by rewrite Ev.
  - cbn. unfold s2, lower_next. cbn. by case_match.
Qed.

Lemma not_bug {A} b (k : TM A) s : b = false -> (BUG_ON b ;; k) s = k s.
Proof. by intros ->. Qed.

Lemma mod_run s L T x t e po pinned : wheel_ok s L T -> timers s !! x = Some t -> 0 <= e < 2 ^ 32 -> pend s x = true \/ po = false ->
  exists s' L', __mod_timer x e po pinned s = Some (if pend s x then 1 else 0, s') /\ effect s L T x (Some e) s' L' /\
    next_timer s' = next_timer (lower_next (set_expires e t) (if pend s x then forget_next t s else s)).
Proof.
  intros Hr Ht He Hpo. unfold __mod_timer. mrun (get_timer_run _ _ _ Ht).
  assert (function t <> 0) as Hf by by destruct (wr_timers Hr _ _ Ht).
  rewrite not_bug by lia. mrun (lock_run _ _ _ _ _ _ _ Hr Ht).
  mrun (timer_pending_run _ _ _ _ _ _ _ Hr Ht). assert (negb (pend s x) && po = false) as -> by (destruct Hpo as [->| ->]; [done|apply andb_false_r]).
  destruct (pend s x) eqn:Hp.
  - destruct (lifted_detach _ _ _ _ _ false Hr Ht Hp) as (s1 & L1 & Hdet & Hli & Hr1 & Hnt).
    destruct (arm_effect _ _ _ _ _ e 1 _ _ Hr Ht Hr1 Hli He) as (s' & L' & Hrun & Hef & Hn). exists s', L'. split; [|split; [done|]].
    + mrun Hdet. rewrite (bind_run _ _ s1 s1 s1) by done. rewrite (li_bases _ _ _ _ _ Hli), Z.eqb_refl. cbn [negb]. rewrite bind_mret_l. exact Hrun.
    + rewrite Hn. unfold lower_next. rewrite Hnt. by case_match.
  - destruct (arm_effect _ _ _ _ _ e 0 _ _ Hr Ht (idle_flight _ _ _ _ _ Hr Ht Hp) (lifted_idle _ _ _ _ _ Hr Ht Hp) He) as (s' & L' & Hrun & Hef & Hn).
    exists s', L'. split; [|done]. rewrite bind_mret_l. rewrite (bind_run _ _ s s s) by done. rewrite Z.eqb_refl. cbn [negb]. rewrite bind_mret_l. exact Hrun.
Qed.

Lemma del_run s L T x t : wheel_ok s L T -> timers s !! x = Some t -> pend s x = true ->
  exists s' L', del_timer x s = Some (1, s') /\ effect s L T x None s' L' /\ next_timer s' = next_timer (forget_next t s).
Proof.
  intros Hr Ht Hp. destruct (lifted_detach _ _ _ _ _ true Hr Ht Hp) as (s1 & L1 & Hdet & [] & Hr1 & Hnt).
  exists s1, L1. split; [|split; [|done]].
  - unfold del_timer. mrun (timer_pending_run _ _ _ _ _ _ _ Hr Ht). rewrite Hp. mrun (lock_run _ _ _ _ _ _ _ Hr Ht).
    mrun (timer_pending_run _ _ _ _ _ _ _ Hr Ht). rewrite Hp.
    unfold mbind, M_bind in Hdet. destruct (detach_timer x true s) as [[[] s0]|] eqn:E0; [|done].
    mrun E0. injection Hdet as Hdet. assert (timers s0 !! x = Some t) as Ht0.
    { rewrite <-Ht, <-li_timers0, <-Hdet. by destruct (forget_next_same t s0) as ((_ & -> & _) & _). }
    mrun (get_timer_run _ _ _ Ht0). by rewrite (bind_run _ _ s0 tt s1) by (unfold modify; by rewrite Hdet).
  - eapply effect_intro; [done|exact Ht|exact Hr1|done..| | |].
    + intros y Hy. rewrite li_listed0. naive_solver.
    + rewrite li_listed0. split; [by intros []|by intros []].
    + done.
Qed.

Lemma del_idle_run s L T x t : wheel_ok s L T -> timers s !! x = Some t -> pend s x = false -> del_timer x s = Some (0, s).
Proof. intros Hr Ht Hp. unfold del_timer. mrun (timer_pending_run _ _ _ _ _ _ _ Hr Ht). by rewrite Hp. Qed.
End wheel_rep.

(** ** The slack of a timer *)
(** The highest bit in which [a] and a larger [b] differ splits them: above it they
    agree, and only [b] has it. *)
Lemma lxor_top a b : 0 <= a < b -> let k := Z.log2 (Z.lxor a b) in
  0 <= k /\ exists h, 2 ^ (k + 1) * h <= a < 2 ^ k * (2 * h + 1) /\ 2 ^ k * (2 * h + 1) <= b < 2 ^ (k + 1) * (h + 1).
Proof.
  intros Hab k. assert (0 <= k) as Hk by apply Z.log2_nonneg. split; [done|].
  assert (Z.lxor a b <> 0) as Hne by (intros E%Z.lxor_eq; lia).
  assert (0 <= Z.lxor a b) as Hnn by (apply Z.lxor_nonneg; lia).
  assert (a `div` 2 ^ (k + 1) = b `div` 2 ^ (k + 1)) as Eh.
  { rewrite <-!Z.shiftr_div_pow2 by lia. apply Z.lxor_eq. rewrite <-Z.shiftr_lxor. apply Z.shiftr_eq_0; [done|]. unfold k. lia. }
  assert (xorb (Z.testbit a k) (Z.testbit b k) = true) as Hx.
  { rewrite <-Z.lxor_spec. apply Z.bit_log2. lia. }
  exists (a `div` 2 ^ (k + 1)).
  pose proof (Z.pow_pos_nonneg 2 k ltac:(lia) Hk) as Hp. assert (2 ^ (k + 1) = 2 * 2 ^ k) as E2 by (rewrite Z.pow_add_r by lia; lia).
  assert (forall c, c `div` 2 ^ k = 2 * (c `div` 2 ^ (k + 1)) + Z.b2z (Z.testbit c k)) as Hd.
  { intros c. pose proof (Z.div_mod (c `div` 2 ^ k) 2 ltac:(lia)) as Hdm. rewrite Z.div_div in Hdm by lia. rewrite E2, Z.mul_comm.
    rewrite Z.mul_comm in Hdm. rewrite (Z.mul_comm (2 ^ k) 2) in Hdm. rewrite Z.testbit_spec', <-Z.shiftr_div_pow2 in * by lia. lia. }
  pose proof (Hd a) as Ha. pose proof (Hd b) as Hb. rewrite <-Eh in Hb.
  pose proof (Z.div_mod a (2 ^ k) ltac:(lia)). pose proof (Z.div_mod b (2 ^ k) ltac:(lia)).
  pose proof (Z.mod_pos_bound a (2 ^ k) Hp). pose proof (Z.mod_pos_bound b (2 ^ k) Hp).
  set (h := a `div` 2 ^ (k + 1)) in *. destruct (Z.testbit a k), (Z.testbit b k); try done; cbn [Z.b2z] in *; nia.
Qed.

(** How much later than asked for a timer may expire. *)
Definition slack_room (now slack_ e : Z) : Z :=
  if 0 <=? slack_ then slack_ else if time_after e now then u32 (e - now) `div` 256 else 0.

Lemma slack_room_range now slack_ e : slack_ < 2 ^ 31 -> 0 <= slack_room now slack_ e < 2 ^ 31.
Proof.
  intros Hs. unfold slack_room. destruct (Z.leb_spec 0 slack_); [lia|]. case_match; [|lia].
  pose proof (u32_range (e - now)). split; [apply Z.div_pos; lia|]. apply Z.div_lt_upper_bound; lia.
Qed.

(** The last multiple of a power of two up to [b], for the largest power that has one
    after [a]. *)
Lemma round_down_best a b : 0 <= a < b -> let k := Z.log2 (Z.lxor a b) in let q := b - b `mod` 2 ^ k in
  a < q <= b /\ forall q' j, a < q' <= b -> 0 <= j -> (2 ^ j | q') -> (2 ^ j | q).
Proof.
  intros Hab k q. destruct (lxor_top a b Hab) as (Hk & h & Ha & Hb). fold k in Hk, Ha, Hb.
  pose proof (Z.pow_pos_nonneg 2 k ltac:(lia) Hk) as Hp. assert (2 ^ (k + 1) = 2 * 2 ^ k) as E2 by (rewrite Z.pow_add_r by lia; lia).
  assert (q = 2 ^ k * (2 * h + 1)) as Eq.
  { unfold q. assert (b `mod` 2 ^ k = b - 2 ^ k * (2 * h + 1)) as ->; [|lia]. symmetry. apply (Z.mod_unique_pos _ _ (2 * h + 1)); lia. }
  split; [lia|]. intros q' j Hq' Hj Hdiv. rewrite Eq. apply Z.divide_mul_l.
  destruct (Z.le_gt_cases j k) as [Hjk|Hjk].
  - exists (2 ^ (k - j)). rewrite <-Z.pow_add_r by lia. f_equal. lia.
  - exfalso. assert ((2 ^ (k + 1) | q')) as [c Hc].
    { eapply Z.divide_trans; [|exact Hdiv]. exists (2 ^ (j - (k + 1))). rewrite <-Z.pow_add_r by lia. f_equal. lia. }
    assert (h < c < h + 1) as Hch; [|lia]. nia.
Qed.

(** The highest bit in which two numbers differ is that of the larger one, if only it
    has that bit. *)
Lemma lxor_log2 a b j : 0 <= j -> 0 <= a < 2 ^ j -> 2 ^ j <= b < 2 ^ (j + 1) -> Z.log2 (Z.lxor a b) = j.
Proof.
  intros Hj Ha Hb. destruct (lxor_top a b ltac:(lia)) as (Hk & h & H1 & H2). set (k := Z.log2 (Z.lxor a b)) in *.
  pose proof (Z.pow_pos_nonneg 2 k ltac:(lia) Hk) as Hp. assert (2 ^ (k + 1) = 2 * 2 ^ k) as E2 by (rewrite Z.pow_add_r by lia; lia).
  destruct (Z.lt_trichotomy k j) as [Hlt|[?|Hgt]]; [|done|]; exfalso.
  - assert (2 ^ j = 2 ^ (k + 1) * 2 ^ (j - (k + 1))) as Em by (rewrite <-Z.pow_add_r by lia; f_equal; lia).
    assert (h < 2 ^ (j - (k + 1)) < h + 1); [|lia]. nia.
  - assert (2 ^ (j + 1) <= 2 ^ k) by (apply Z.pow_le_mono_r; lia). assert (0 <= h) by nia. nia.
Qed.

Lemma slack_mask m : 0 < m < 2 ^ 32 -> u32 (Z.shiftl 1 (find_last_bit [m] BITS_PER_LONG) - 1) = 2 ^ Z.log2 m - 1.
Proof.
  intros Hm. change (find_last_bit [m] BITS_PER_LONG) with (if negb (m =? 0) then 0 * BITS_PER_LONG + __fls m else BITS_PER_LONG).
  unfold __fls, fls, clz. rewrite (proj2 (Z.eqb_neq m 0)) by lia. cbn [negb].
  replace (32 - (31 - Z.log2 m) - 1) with (Z.log2 m) by lia. rewrite Z.shiftl_1_l. apply u32_small.
  pose proof (Z.log2_spec m ltac:(lia)). pose proof (Z.log2_nonneg m). pose proof (Z.pow_pos_nonneg 2 (Z.log2 m)). lia.
Qed.

(** [apply_slack] rounds the latest time down. *)
Lemma apply_slack_eq now slack_ e : 0 <= e < 2 ^ 32 -> apply_slack now slack_ e =
  let lim := u32 (e + slack_room now slack_ e) in
  if Z.lxor e lim =? 0 then e else lim - lim `mod` 2 ^ Z.log2 (Z.lxor e lim).
Proof.
  intros He. assert (forall lim, 0 <= lim < 2 ^ 32 -> Z.lxor e lim <> 0 ->
    Z.land lim (u32 (Z.lnot (u32 (Z.shiftl 1 (find_last_bit [Z.lxor e lim] BITS_PER_LONG) - 1)))) = lim - lim `mod` 2 ^ Z.log2 (Z.lxor e lim)) as Hl.
  { intros lim Hlim Hne. assert (0 <= Z.lxor e lim < 2 ^ 32) as Hm.
    { split; [apply Z.lxor_nonneg; lia|]. destruct (decide (Z.lxor e lim = 0)) as [->|]; [done|].
      apply Z.log2_lt_pow2; [pose proof (proj2 (Z.lxor_nonneg e lim)); lia|]. pose proof (Z.log2_lxor e lim ltac:(lia) ltac:(lia)).
      pose proof (Z.log2_lt_pow2 e 32). pose proof (Z.log2_lt_pow2 lim 32). destruct (decide (e = 0)) as [->|], (decide (lim = 0)) as [->|]; cbn in *; lia. }
    rewrite slack_mask by lia. apply (land_not_ones 32); [apply Z.log2_nonneg|lia|done]. }
  unfold apply_slack, slack_room. destruct (Z.leb_spec 0 slack_); [|destruct (time_after e now)];
    rewrite ?Z.add_0_r, ?(u32_small e) by done; cbv zeta;
    match goal with |- context [Z.lxor e ?l =? 0] => destruct (Z.eqb_spec (Z.lxor e l) 0) as [|Hne] end; try done; apply Hl; auto using u32_range.
Qed.

Lemma apply_slack_range now slack_ e : 0 <= e < 2 ^ 32 -> 0 <= apply_slack now slack_ e < 2 ^ 32.
Proof.
  intros He. rewrite apply_slack_eq by done. cbv zeta. set (lim := u32 _). assert (0 <= lim < 2 ^ 32) by apply u32_range.
  case_match; [done|]. set (k := Z.log2 _). pose proof (Z.pow_pos_nonneg 2 k ltac:(lia) (Z.log2_nonneg _)) as Hk.
  pose proof (Z.mod_pos_bound lim _ Hk). pose proof (Z.mod_le lim (2 ^ k)). lia.
Qed.

(** the slack of a timer.  The expiry time that [apply_slack] picks is not before the
    time asked for and not later than that time plus the slack (a 256th of the delay if no
    slack was set); among the later times allowed it is one with the most trailing
    zero bits, so that timers of about the same time expire together.  This holds also
    when the expiry time wraps around. *)
Theorem apply_slack_correct (now slack_ e : Z) (He : 0 <= e < 2 ^ 32) (Hs : slack_ < 2 ^ 31) :
  exists q, apply_slack now slack_ e = u32 q /\ e <= q <= e + slack_room now slack_ e /\
    forall q' k, e < q' <= e + slack_room now slack_ e -> 0 <= k -> (2 ^ k | q') -> (2 ^ k | q).
Proof.
  pose proof (slack_room_range now slack_ e Hs) as Hd. rewrite apply_slack_eq by done. set (d := slack_room now slack_ e) in *. cbv zeta.
  destruct (Z.eqb_spec (Z.lxor e (u32 (e + d))) 0) as [E%Z.lxor_eq|Hne].
  { exists e. rewrite u32_small by done. split; [done|]. split; [lia|]. intros q' k Hq.
    destruct (Z.lt_ge_cases (e + d) (2 ^ 32)); [rewrite u32_small in E by lia; lia|].
    unfold u32 in E. assert ((e + d) `mod` 2 ^ 32 = e + d - 2 ^ 32); [|lia]. symmetry. apply (Z.mod_unique_pos _ _ 1); lia. }
  assert (d <> 0) as Hd0 by (intros ->; rewrite Z.add_0_r, u32_small in Hne by done; by rewrite Z.lxor_nilpotent in Hne).
  destruct (round_down_best e (e + d) ltac:(lia)) as (Hr & Hbest).
  exists (e + d - (e + d) `mod` 2 ^ Z.log2 (Z.lxor e (e + d))). split; [|split; [lia|exact Hbest]].
  destruct (Z.lt_ge_cases (e + d) (2 ^ 32)) as [Hlt|Hge].
  - rewrite (u32_small (e + d)) by lia. symmetry. apply u32_small. lia.
  - assert (u32 (e + d) = e + d - 2 ^ 32) as -> by (unfold u32; symmetry; apply (Z.mod_unique_pos _ _ 1); lia).
    rewrite (lxor_log2 e (e + d) 32) by lia. rewrite Z.lxor_comm, (lxor_log2 (e + d - 2 ^ 32) e 31) by lia.
    rewrite Z.mod_small by lia. replace ((e + d) `mod` 2 ^ 32) with (e + d - 2 ^ 32) by (apply (Z.mod_unique_pos _ _ 1); lia).
    replace (e + d - (e + d - 2 ^ 32)) with (2 ^ 32) by lia. by rewrite Z.sub_diag.
Qed.

Lemma apply_slack_witness : exists q, apply_slack 4294967000 64 4294967290 = u32 q /\ 4294967290 <= q <= 4294967290 + 64.
Proof. destruct (apply_slack_correct 4294967000 64 4294967290) as (q & E & Hq & _); [done|done|]. by exists q. Defined.

(** ** The interface *)
Section interface.
Context (ws : list Z).
Implicit Types (s : wheel) (L : heads) (T x e : Z) (t : timer_list).

(** The expiry time that a call asks for, if it changes the timer. *)
Definition mod_timer_effect (s : wheel) (x : Z) (t : timer_list) (e : Z) : option Z :=
  if pend s x && (expires t =? e) then None else Some (apply_slack (jiffies s) (slack t) e).

Lemma mod_timer_run s L T x t e : wheel_ok ws s L T -> timers s !! x = Some t -> 0 <= e < 2 ^ 32 ->
  exists s' L', mod_timer x e s = Some (if pend s x then 1 else 0, s') /\
    match mod_timer_effect s x t e with
    | None => s' = s /\ L' = L
    | Some e' => effect ws s L T x (Some e') s' L' /\
        next_timer s' = next_timer (lower_next (set_expires e' t) (if pend s x then forget_next t s else s))
    end.
Proof.
  intros Hr Ht He. unfold mod_timer, mod_timer_effect. mrun (timer_pending_run _ _ _ _ _ _ _ _ Hr Ht). mrun (get_timer_run _ _ _ Ht).
  destruct (pend s x && (expires t =? e)) eqn:Ep.
  - exists s, L. split; [|done]. apply andb_true_iff in Ep as [-> _]. done.
  - rewrite (bind_run _ _ s s s) by done.
    destruct (mod_run ws s L T x t (apply_slack (jiffies s) (slack t) e) false TIMER_NOT_PINNED Hr Ht) as (s' & L' & Hrun & Hef);
      [by apply apply_slack_range|by right|]. by exists s', L'.
Qed.

Lemma mod_timer_pinned_run s L T x t e : wheel_ok ws s L T -> timers s !! x = Some t -> 0 <= e < 2 ^ 32 ->
  exists s' L', mod_timer_pinned x e s = Some (if pend s x then 1 else 0, s') /\
    if pend s x && (expires t =? e) then s' = s /\ L' = L
    else effect ws s L T x (Some e) s' L' /\ next_timer s' = next_timer (lower_next (set_expires e t) (if pend s x then forget_next t s else s)).
Proof.
  intros Hr Ht He. unfold mod_timer_pinned. mrun (get_timer_run _ _ _ Ht). mrun (timer_pending_run _ _ _ _ _ _ _ _ Hr Ht).
  rewrite andb_comm. destruct (pend s x && (expires t =? e)) eqn:Ep.
  - exists s, L. split; [|done]. apply andb_true_iff in Ep as [-> _]. done.
  - destruct (mod_run ws s L T x t e false TIMER_PINNED Hr Ht He) as (s' & L' & Hrun & Hef & Hn); [by right|]. by exists s', L'.
Qed.

Lemma mod_timer_pending_run s L T x t e : wheel_ok ws s L T -> timers s !! x = Some t -> 0 <= e < 2 ^ 32 ->
  exists s' L', mod_timer_pending x e s = Some (if pend s x then 1 else 0, s') /\
    if pend s x then effect ws s L T x (Some e) s' L' /\ next_timer s' = next_timer (lower_next (set_expires e t) (forget_next t s)) else s' = s /\ L' = L.
Proof.
  intros Hr Ht He. unfold mod_timer_pending. destruct (pend s x) eqn:Ep.
  - destruct (mod_run ws s L T x t e true TIMER_NOT_PINNED Hr Ht He) as (s' & L' & Hrun & Hef & Hn); [by left|].
    rewrite Ep in Hrun, Hn. by exists s', L'.
  - exists s, L. split; [|done]. unfold __mod_timer. mrun (get_timer_run _ _ _ Ht).
    rewrite not_bug by (destruct (wr_timers Hr _ _ Ht); lia). mrun (lock_run _ _ _ _ _ _ _ _ Hr Ht).
    mrun (timer_pending_run _ _ _ _ _ _ _ _ Hr Ht). by rewrite Ep.
Qed.
End interface.

(** ** Initialisation *)
Lemma init_order_slots n i : (n, i) ∈ init_order <-> slot n i.
Proof.
  unfold init_order, slot. rewrite elem_of_app. split.
  - intros [(l & Hl & Hin)%list_elem_of_In%in_concat|Hin].
    + apply list_elem_of_In, list_elem_of_fmap in Hl as (j & -> & Hj%elem_of_seqZ). apply list_elem_of_In in Hin. change TVN_SIZE with 64 in Hj.
      repeat (apply elem_of_cons in Hin as [[= -> ->]|Hin]; [cbn [slots]; lia|]). set_solver +Hin.
    + apply list_elem_of_fmap in Hin as (j & [= -> ->] & Hj%elem_of_seqZ). change TVR_SIZE with 256 in Hj. cbn [slots]. lia.
  - intros [Hn Hi]. destruct n as [|n]; cbn [slots] in Hi; [right|left].
    + apply list_elem_of_fmap. exists i. split; [done|]. apply elem_of_seqZ. change TVR_SIZE with 256. lia.
    + apply list_elem_of_In, in_concat. eexists. rewrite <-!list_elem_of_In. split.
      * apply list_elem_of_fmap. exists i. split; [reflexivity|]. apply elem_of_seqZ. change TVN_SIZE with 64. lia.
      * destruct n as [|[|[|[|]]]]; [set_solver +..|lia].
Qed.

Lemma init_vecs_run l : forall s L, NoDup l -> (forall n i, (n, i) ∈ l -> slot n i /\ allocated (lists s) (vec s n i)) -> lrep (lists s) L ->
  (forall n i h, (n, i) ∈ l -> ~ own L (vec s n i) h) ->
  exists m' L', init_vecs l s = Some (tt, set_lists m' s) /\ lrep m' L' /\
    (forall h k, L' !! h = Some k <-> L !! h = Some k \/ (k = [] /\ exists n i, (n, i) ∈ l /\ h = vec s n i)) /\
    (forall q, (forall n i, (n, i) ∈ l -> q <> vec s n i) -> m' !! q = lists s !! q).
Proof.
  induction l as [|[n i] l IH]; intros s L Hnd Ha Hr Hu.
  { exists (lists s), L. rewrite set_lists_id. split; [done|]. split; [done|]. split; [|done]. intros h k.
    split; [by left|]. intros [?|(_ & ? & ? & Hin & _)]; [done|set_solver +Hin]. }
  apply NoDup_cons in Hnd as [Hni Hnd]. destruct (Ha n i ltac:(set_solver +)) as [Hi Hal]. set (v := vec s n i) in *.
  destruct (INIT_LIST_HEAD_dlist (lists s) v Hal) as (m1 & Hrun & Hd & Hs).
  assert (forall n' i', (n', i') ∈ l -> vec s n' i' <> v) as Hne.
  { intros n' i' Hin E. destruct (Ha n' i' ltac:(set_solver +Hin)) as [Hi' _]. destruct (vec_inj s n' i' n i Hi' Hi E) as [-> ->]. done. }
  assert (L !! v = None) as Lv by (destruct (L !! v) as [k|] eqn:E; [|done]; destruct (Hu n i v ltac:(set_solver +)); by eapply own_head).
  destruct (IH (set_lists m1 s) (<[v := []]> L) Hnd) as (m' & L' & Hrun' & Hr' & HL' & Hm').
  - intros n' i' Hin. destruct (Ha n' i' ltac:(set_solver +Hin)) as [Hi' Ha']. split; [done|]. unfold allocated. cbn. rewrite Hs; [exact Ha'|].
    intros E%list_elem_of_singleton. by apply (Hne n' i' Hin).
  - cbn. eapply lrep_fresh; [exact Hr| |done|done]. intros h. apply Hu. set_solver +.
  - intros n' i' h Hin (k & E & Hq). apply lookup_insert_Some in E as [[<- <-]|[_ E]].
    + apply list_elem_of_singleton in Hq. by apply (Hne n' i' Hin).
    + apply (Hu n' i' h); [set_solver +Hin|by exists k].
  - exists m', L'. split; [cbn [init_vecs]; rewrite (bind_run _ _ s s s) by done; fold v; by mrun (wheel_lists_run _ _ _ _ Hrun)|]. split; [done|]. split.
    + intros h k. rewrite HL'. split.
      * intros [[[<- <-]|[_ E]]%lookup_insert_Some|(-> & n' & i' & Hin & ->)]; [right; split; [done|exists n, i; set_solver +]|by left|].
        right. split; [done|]. exists n', i'. split; [set_solver +Hin|done].
      * intros [E|(-> & n' & i' & Hin & ->)]; [left; rewrite lookup_insert_ne; [done|congruence]|].
        apply elem_of_cons in Hin as [[= -> ->]|Hin]; [left; apply lookup_insert_eq|right]. split; [done|by exists n', i'].
    + intros q Hq. rewrite Hm'; [cbn; apply Hs|].
      * intros E%list_elem_of_singleton. by apply (Hq n i ltac:(set_solver +)).
      * intros n' i' Hin. apply Hq. set_solver +Hin.
Qed.

(** At boot the memory of the wheel is there but not initialised, and no timer is
    pending. *)
Record boot (s : wheel) : Prop := {
  bo_jiffies : 0 <= jiffies s < 2 ^ 32;
  bo_vecs : forall n i, slot n i -> allocated (lists s) (vec s n i) /\ vec s n i <> 0 /\ timers s !! vec s n i = None;
  bo_timers : forall x t, timers s !! x = Some t -> timer_ok s x t /\ nxt (lists s) x = Some 0;
}.

Lemma init_timers_run s : boot s -> exists m' L, let s' := set_next_timer (jiffies s) (set_timer_jiffies (jiffies s) (set_lists m' s)) in
  init_timers_cpu s = Some (0, s') /\ wheel_ok [] s' L (jiffies s) /\ (forall h l, L !! h = Some l -> l = []) /\
  (forall q, lists s !! q = None -> m' !! q = None).
Proof.
  intros [Hj Hv Ht]. assert (NoDup init_order) as Hnd by (apply (bool_decide_unpack _); vm_compute; done).
  destruct (init_vecs_run init_order s ∅ Hnd) as (m' & L & Hrun & Hr & HL & Hm).
  - intros n i Hin. apply init_order_slots in Hin. split; [done|]. by apply Hv.
  - split; [by intros ? ? ?%lookup_empty_Some|]. by intros q h1 h2 (? & ?%lookup_empty_Some & _).
  - by intros n i h _ (? & ?%lookup_empty_Some & _).
  - setoid_rewrite lookup_empty in HL. setoid_rewrite init_order_slots in HL. setoid_rewrite init_order_slots in Hm.
    assert (forall q, ~ own L q q -> forall h, ~ own L q h) as Hown.
    { intros q Hq h (l & E & Hin). apply HL in E as HE. destruct HE as [|(-> & _)]; [done|]. assert (q = h) as -> by set_solver +Hin. apply Hq. by exists []. }
    assert (forall x t, timers s !! x = Some t -> m' !! x = lists s !! x) as Hx.
    { intros x t E. apply Hm. intros n i Hi ->. destruct (Hv n i Hi) as (_ & _ & ?). congruence. }
    exists m', L. split; [unfold init_timers_cpu; by mrun Hrun|]. split; [|split].
    + split; cbn; try done.
      * by rewrite u32_small.
      * intros n i Hi. exists []. apply HL. right. split; [done|]. by exists n, i.
      * intros h l E. apply HL in E as [|(_ & n & i & Hi & ->)]; [done|]. left. by exists n, i.
      * intros h l E. apply HL in E as [|(_ & n & i & Hi & ->)]; [done|]. by apply Hv.
      * intros h l x E Hin. apply HL in E as [|(-> & _)]; [done|]. set_solver +Hin.
      * intros x t E. destruct (Ht x t E) as [[] _]. split; try done. unfold allocated. cbn. by rewrite (Hx x t).
      * intros x t E _ _. unfold nxt. rewrite (Hx x t) by done. by apply (Ht x t).
      * intros x h Hin. set_solver +Hin.
      * intros n i l x t Hi E Hin. apply HL in E as [|(-> & _)]; [done|]. set_solver +Hin.
    + intros h l E. by apply HL in E as [|(-> & _)].
    + intros q Hq. rewrite Hm; [done|]. intros n i Hi ->. destruct (Hv n i Hi) as ([v Hal] & _). congruence.
Qed.
End Timer.
