(* ===== verification/TimerRun.v ===== *)
(** * The timer wheel: the tick

    [__run_timers] of kernel/timer.c processes the jiffies that have passed one by
    one.  Before each it moves the timers of the higher levels whose span begins down
    to their places ([cascade]); then it takes the list of the jiffy and calls the
    functions of its timers, with the lock released.  While a function runs, it and any
    interrupt can start, change and stop timers; such code is a [prog], a tree of calls
    of the timer interface that can depend on their results.  The abstract timers
    ([spec_run]) know nothing of lists: at each jiffy the timers whose expiry time has
    come are called in some order.  The theorems show that the wheel implements
    them, and that each timer is called exactly at its jiffy. *)
From stdpp Require Import prelude gmap list.
From Stdlib Require Import ZArith Lia ZifyBool.
From S2P Require Import Prelude ListHead ListHeap TimerWheel.
Open Scope Z_scope.

Module TimerRun.
Import Timer.

(** ** Code that uses timers *)
Inductive prog :=
  | Done
  | ModTimer (timer expires_ : Z) (k : Z -> prog)
  | ModTimerPinned (timer expires_ : Z) (k : Z -> prog)
  | ModTimerPending (timer expires_ : Z) (k : Z -> prog)
  | DelTimer (timer : Z) (k : Z -> prog)
  | TimerPending (timer : Z) (k : bool -> prog).

Fixpoint exec (p : prog) : TM unit :=
  match p with
  | Done => mret tt
  | ModTimer x e k => r ← mod_timer x e; exec (k r)
  | ModTimerPinned x e k => r ← mod_timer_pinned x e; exec (k r)
  | ModTimerPending x e k => r ← mod_timer_pending x e; exec (k r)
  | DelTimer x k => r ← del_timer x; exec (k r)
  | TimerPending x k => r ← timer_pending x; exec (k r)
  end.

(** ** The code *)
Section code.
(** The addresses of the list heads [work_list] of [__run_timers] and [tv_list] of
    [cascade] on the stack, and what the timer functions do. *)
Context (work_list tv_list : Z) (handler : Z -> Z -> prog).

Definition stack_alloc (p : Z) : TM unit := modify (λ s, set_lists (<[p := ListHead 0 0]> (lists s)) s).
Definition stack_free (p : Z) : TM unit := modify (λ s, set_lists (delete p (lists s)) s).

Fixpoint cascade_walk (fuel : nat) (timer : Z) : TM unit :=
  match fuel with
  | O => oops
  | S fuel =>
      if timer =? tv_list then mret tt
      else
        tmp ← on_lists (get_next timer);
        t ← get_timer timer;
        s ← get;
        BUG_ON (negb (tbase_get_base (base t) =? tvec_bases s)) ;;
        internal_add_timer timer ;;
        cascade_walk fuel tmp
  end.

(** [cascade(base, &base->tv(n+1), index)] *)
Definition cascade (n : nat) (index : Z) : TM Z :=
  stack_alloc tv_list ;;
  s ← get;
  on_lists (list_replace_init (vec s n index) tv_list) ;;
  first ← on_lists (get_next tv_list);
  cascade_walk (S (size (timers s))) first ;;
  stack_free tv_list ;;
  mret index.

Definition INDEX (s : wheel) (n : Z) : Z := Z.land (Z.shiftr (timer_jiffies s) (TVR_BITS + n * TVN_BITS)) TVN_MASK.

Definition cascade_timers (index : Z) : TM unit :=
  s ← get;
  if negb (index =? 0) then mret tt
  else i ← cascade 1 (INDEX s 0);
  if negb (i =? 0) then mret tt
  else i ← cascade 2 (INDEX s 1);
  if negb (i =? 0) then mret tt
  else i ← cascade 3 (INDEX s 2);
  if negb (i =? 0) then mret tt
  else i ← cascade 4 (INDEX s 3); mret tt.

Definition call_timer_fn (timer fn data_ : Z) : TM unit :=
  s ← get;
  modify (add_called (Call timer fn data_ (u32 (timer_jiffies s - 1)))) ;;
  exec (handler fn data_).

(** [while (!list_empty(head))] *)
Fixpoint run_expired (fuel : nat) : TM unit :=
  match fuel with
  | O => oops
  | S fuel =>
      e ← on_lists (list_empty work_list);
      if (e : bool) then mret tt
      else
        timer ← on_lists (get_next work_list);
        t ← get_timer timer;
        detach_timer timer true ;;
        call_timer_fn timer (function t) (data t) ;;
        run_expired fuel
  end.

(** The body of the loop of [__run_timers]. *)
Definition run_jiffy : TM unit :=
  s ← get;
  let index := Z.land (timer_jiffies s) TVR_MASK in
  cascade_timers index ;;
  modify (λ s, set_timer_jiffies (u32 (timer_jiffies s + 1)) s) ;;
  stack_alloc work_list ;;
  on_lists (list_replace_init (vec s 0 index) work_list) ;;
  run_expired (S (size (timers s))) ;;
  stack_free work_list.

Fixpoint run_timers_loop (fuel : nat) : TM unit :=
  match fuel with
  | O => oops
  | S fuel =>
      s ← get;
      if time_after_eq (jiffies s) (timer_jiffies s) then run_jiffy ;; run_timers_loop fuel
      else mret tt
  end.

Definition __run_timers : TM unit :=
  s ← get; run_timers_loop (S (S (Z.to_nat (u32 (jiffies s - timer_jiffies s))))).

(** [hrtimer_run_pending] is not part of the wheel. *)
Definition run_timer_softirq : TM unit :=
  s ← get; if time_after_eq (jiffies s) (timer_jiffies s) then __run_timers else mret tt.

(** [jiffies] is the low half of [jiffies_64]. *)
Definition do_timer (ticks : Z) : TM unit := modify (λ s, set_jiffies (u32 (jiffies s + ticks)) s).

(** A history: code that uses timers, and ticks with the softirq that follows. *)
Inductive event := Use (p : prog) | Tick (ticks : Z).
Definition run_event (e : event) : TM unit :=
  match e with Use p => exec p | Tick ticks => do_timer ticks ;; run_timer_softirq end.
Fixpoint run_events (es : list event) : TM unit :=
  match es with [] => mret tt | e :: es => run_event e ;; run_events es end.
End code.

(** ** The abstract timers *)
Record spec := Spec {
  sp_now : Z;
  sp_jiffies : Z;
  sp_info : gmap Z timer_list;
  sp_waiting : gmap Z Z;
  sp_todo : gset Z;
  sp_calls : list call;
}.

(** A timer gets an expiry time, or none; it is no longer one of those to be called
    now. *)
Definition sp_set (x : Z) (o : option Z) (A : spec) : spec :=
  Spec (sp_now A) (sp_jiffies A) (sp_info A) (partial_alter (λ _, o) x (sp_waiting A)) (sp_todo A ∖ {[x]}) (sp_calls A).
Definition sp_call (x : Z) (t : timer_list) (A : spec) : spec :=
  Spec (sp_now A) (sp_jiffies A) (sp_info A) (delete x (sp_waiting A)) (sp_todo A ∖ {[x]})
    (sp_calls A ++ [Call x (function t) (data t) (u32 (sp_now A - 1))]).
(** The next jiffy: the timers whose expiry time is not after it are to be called. *)
Definition sp_tick (A : spec) : spec :=
  Spec (u32 (sp_now A + 1)) (sp_jiffies A) (sp_info A) (sp_waiting A)
    (dom (filter (λ p, s32 (p.2 - sp_now A) <= 0) (sp_waiting A))) (sp_calls A).

Definition sp_pending (A : spec) (x : Z) : bool := bool_decide (is_Some (sp_waiting A !! x)).
Definition sp_slack (A : spec) (x : Z) : Z := match sp_info A !! x with Some t => slack t | None => 0 end.

Fixpoint sp_exec (p : prog) (A : spec) : spec :=
  match p with
  | Done => A
  | ModTimer x e k =>
      let r := if sp_pending A x then 1 else 0 in
      sp_exec (k r) (if bool_decide (sp_waiting A !! x = Some e) then A
                     else sp_set x (Some (apply_slack (sp_jiffies A) (sp_slack A x) e)) A)
  | ModTimerPinned x e k =>
      let r := if sp_pending A x then 1 else 0 in
      sp_exec (k r) (if bool_decide (sp_waiting A !! x = Some e) then A else sp_set x (Some e) A)
  | ModTimerPending x e k =>
      if sp_pending A x then sp_exec (k 1) (sp_set x (Some e) A) else sp_exec (k 0) A
  | DelTimer x k => if sp_pending A x then sp_exec (k 1) (sp_set x None A) else sp_exec (k 0) A
  | TimerPending x k => sp_exec (k (sp_pending A x)) A
  end.

(** The code uses timers that are set up, and expiry times of the right width. *)
Fixpoint prog_ok (known : Z -> Prop) (p : prog) : Prop :=
  match p with
  | Done => True
  | ModTimer x e k | ModTimerPinned x e k | ModTimerPending x e k =>
      known x /\ 0 <= e < 2 ^ 32 /\ forall r, prog_ok known (k r)
  | DelTimer x k => known x /\ forall r, prog_ok known (k r)
  | TimerPending x k => known x /\ forall r, prog_ok known (k r)
  end.

Section spec.
Context (handler : Z -> Z -> prog).

(** The timers that are to be called are called one by one, in any order; each call
    can change which are left. *)
Inductive spec_expire : spec -> spec -> Prop :=
  | expire_done A : sp_todo A = ∅ -> spec_expire A A
  | expire_call A x t A' : x ∈ sp_todo A -> sp_info A !! x = Some t ->
      spec_expire (sp_exec (handler (function t) (data t)) (sp_call x t A)) A' -> spec_expire A A'.

Inductive spec_run : spec -> spec -> Prop :=
  | run_done A : time_after_eq (sp_jiffies A) (sp_now A) = false -> spec_run A A
  | run_tick A A1 A2 : time_after_eq (sp_jiffies A) (sp_now A) = true ->
      spec_expire (sp_tick A) A1 -> spec_run A1 A2 -> spec_run A A2.
End spec.

(** The abstract timers of a state, when [l] is the list of those to be called. *)
Definition abst (s : wheel) (l : list Z) : spec :=
  Spec (timer_jiffies s) (jiffies s) (set_expires 0 <$> timers s) (pending s) (list_to_set l) (called s).

(** ** Calls of the interface *)
Section exec.
Context (w : Z) (here : bool) (ws : list Z).
Implicit Types (s : wheel) (L : heads) (T x e : Z) (t : timer_list).

(** [w] is a head on the stack with the list [l], if it is [here]. *)
Definition work_ok (s : wheel) (L : heads) (T : Z) (l : list Z) : Prop :=
  wheel_ok ws s L T /\ (if here then L !! w = Some l else L !! w = None /\ l = []) /\ forall n i, slot n i -> w <> vec s n i.

Lemma effect_abst s L T l x o s' L' : work_ok s L T l -> effect ws s L T x o s' L' ->
  work_ok s' L' T (filter (λ y, y <> x) l) /\ abst s' (filter (λ y, y <> x) l) = sp_set x o (abst s l).
Proof.
  intros (Hr & El & Hw) [Hok Hp Hst (E1 & E2 & E3 & E4 & E5) Hwk]. split.
  - split; [done|]. split; [rewrite Hwk by done; destruct here; [by rewrite El|destruct El as [-> ->]; done]|]. intros n i Hi. unfold vec. rewrite E2. by apply Hw.
  - unfold abst, sp_set. cbn. rewrite E3, E4, E5, Hp, Hst. f_equal. apply leibniz_equiv. intros y.
    rewrite elem_of_difference, !elem_of_list_to_set, list_elem_of_filter, elem_of_singleton. tauto.
Qed.

Lemma abst_pending s l x t : timers s !! x = Some t -> sp_pending (abst s l) x = pend s x.
Proof.
  intros Ht. unfold sp_pending. cbn. unfold pending. rewrite map_lookup_imap, Ht. cbn. by destruct (pend s x).
Qed.
Lemma abst_waiting s l x t e : timers s !! x = Some t ->
  bool_decide (sp_waiting (abst s l) !! x = Some e) = pend s x && (expires t =? e).
Proof.
  intros Ht. cbn. unfold pending. rewrite map_lookup_imap, Ht. cbn. destruct (pend s x); cbn; [|done].
  destruct (Z.eqb_spec (expires t) e); [by rewrite bool_decide_true by congruence|by rewrite bool_decide_false by congruence].
Qed.
Lemma abst_slack s l x t : timers s !! x = Some t -> sp_slack (abst s l) x = slack t.
Proof. intros Ht. unfold sp_slack. cbn. by rewrite lookup_fmap, Ht. Qed.

Lemma static_known s s' x : set_expires 0 <$> timers s' = set_expires 0 <$> timers s -> is_Some (timers s !! x) -> is_Some (timers s' !! x).
Proof. intros E Hx. apply (fmap_is_Some (set_expires 0)). rewrite <-lookup_fmap, E, lookup_fmap. by apply fmap_is_Some. Qed.

(** A step from [s] with the list [l] to the abstract state [A]. *)
Definition step (s : wheel) (T : Z) (l : list Z) (s' : wheel) (L' : heads) (l' : list Z) (A : spec) : Prop :=
  work_ok s' L' T l' /\ abst s' l' = A /\ (length l' <= length l)%nat /\ set_expires 0 <$> timers s' = set_expires 0 <$> timers s.

Lemma step_none s L T l : work_ok s L T l -> step s T l s L l (abst s l).
Proof. intros Hw. by split. Qed.
Lemma step_effect s L T l x o s' L' : work_ok s L T l -> effect ws s L T x o s' L' ->
  step s T l s' L' (filter (λ y, y <> x) l) (sp_set x o (abst s l)).
Proof.
  intros Hw He. destruct (effect_abst _ _ _ _ _ _ _ _ Hw He) as [Hw' Ha]. split; [done|]. split; [done|]. split; [apply length_filter|apply He].
Qed.

(** Code that uses timers behaves on the wheel as it does on the abstract timers. *)
Lemma exec_run (K : Z -> Prop) p : prog_ok K p -> forall s L T l, work_ok s L T l -> (forall x, K x -> is_Some (timers s !! x)) ->
  exists s' L' l', exec p s = Some (tt, s') /\ step s T l s' L' l' (sp_exec p (abst s l)).
Proof.
  assert (forall q s T l s1 L1 l1 A, step s T l s1 L1 l1 A -> (forall x, K x -> is_Some (timers s !! x)) ->
    (forall s L T l, work_ok s L T l -> (forall x, K x -> is_Some (timers s !! x)) ->
      exists s' L' l', exec q s = Some (tt, s') /\ step s T l s' L' l' (sp_exec q (abst s l))) ->
    exists s' L' l', exec q s1 = Some (tt, s') /\ step s T l s' L' l' (sp_exec q A)) as Hnext.
  { intros q s T l s1 L1 l1 A (Hw & <- & Hlen & Hst) HK IH. destruct (IH s1 L1 T l1 Hw) as (s' & L' & l' & Hrun & Hw' & Ha & Hlen' & Hst').
    { intros x Hx. eapply static_known; eauto. }
    exists s', L', l'. split; [done|]. split; [done|]. split; [done|]. split; [lia|congruence]. }
  induction p as [|x e k IH|x e k IH|x e k IH|x k IH|x k IH]; intros Hp s L T l Hw HK; cbn [exec sp_exec].
  - exists s, L, l. split; [done|by apply step_none].
  - destruct Hp as (Hx & He & Hk). destruct (HK x Hx) as [t Ht].
    destruct (mod_timer_run ws s L T x t e (proj1 Hw) Ht He) as (s1 & L1 & Hrun & Hef). mrun Hrun.
    rewrite (abst_pending _ _ _ _ Ht), (abst_waiting _ _ _ _ _ Ht), (abst_slack _ _ _ _ Ht). unfold mod_timer_effect in Hef.
    destruct (pend s x && (expires t =? e)).
    + destruct Hef as [-> ->]. eapply Hnext; [by apply step_none|done|by apply IH].
    + destruct Hef as [Hef _]. eapply Hnext; [by eapply step_effect|done|by apply IH].
  - destruct Hp as (Hx & He & Hk). destruct (HK x Hx) as [t Ht].
    destruct (mod_timer_pinned_run ws s L T x t e (proj1 Hw) Ht He) as (s1 & L1 & Hrun & Hef). mrun Hrun.
    rewrite (abst_pending _ _ _ _ Ht), (abst_waiting _ _ _ _ _ Ht). destruct (pend s x && (expires t =? e)).
    + destruct Hef as [-> ->]. eapply Hnext; [by apply step_none|done|by apply IH].
    + destruct Hef as [Hef _]. eapply Hnext; [by eapply step_effect|done|by apply IH].
  - destruct Hp as (Hx & He & Hk). destruct (HK x Hx) as [t Ht].
    destruct (mod_timer_pending_run ws s L T x t e (proj1 Hw) Ht He) as (s1 & L1 & Hrun & Hef). mrun Hrun.
    rewrite (abst_pending _ _ _ _ Ht). destruct (pend s x).
    + destruct Hef as [Hef _]. eapply Hnext; [by eapply step_effect|done|by apply IH].
    + destruct Hef as [-> ->]. eapply Hnext; [by apply step_none|done|by apply IH].
  - destruct Hp as (Hx & Hk). destruct (HK x Hx) as [t Ht]. rewrite (abst_pending _ _ _ _ Ht). destruct (pend s x) eqn:Ep.
    + destruct (del_run ws s L T x t (proj1 Hw) Ht Ep) as (s1 & L1 & Hrun & Hef & _). mrun Hrun.
      eapply Hnext; [by eapply step_effect|done|by apply IH].
    + mrun (del_idle_run ws s L T x t (proj1 Hw) Ht Ep). eapply Hnext; [by apply step_none|done|by apply IH].
  - destruct Hp as (Hx & Hk). destruct (HK x Hx) as [t Ht]. rewrite (abst_pending _ _ _ _ Ht).
    mrun (timer_pending_run _ _ _ _ _ _ _ _ (proj1 Hw) Ht). eapply Hnext; [by apply step_none|done|by apply IH].
Qed.

End exec.

(** ** The calls of one jiffy *)
Section expired.
Context (w : Z) (ws : list Z).
Implicit Types (s : wheel) (L : heads) (T x e : Z) (t : timer_list).
#[local] Abbreviation work_ok := (work_ok w true ws).
#[local] Abbreviation step := (step w true ws).

(** The first timer of the list is taken off it and called. *)
Lemma detach_effect s L T x l : work_ok s L T (x :: l) ->
  exists s' L', detach_timer x true s = Some (tt, s') /\ effect ws s L T x None s' L' /\ next_timer s' = next_timer s /\ exists t, timers s !! x = Some t.
Proof.
  intros (Hr & El & _). destruct (detach_rep ws [] s L T (λ _, T) w [] x l true Hr El) as (m' & Hrun & Hr').
  destruct (wr_entries Hr _ _ x El ltac:(set_solver +)) as [t Ht].
  exists (set_lists m' s), (<[w := l]> L). split; [done|]. split; [|split; [done|by exists t]].
  assert (forall y, listed (<[w := l]> L) y <-> listed L y /\ y <> x) as Hl by (intros y; exact (listed_remove _ _ _ [] _ _ y (wr_lists Hr) El)).
  eapply effect_intro; [done|done|exact Hr'|done..| | |].
  - intros y Hy. rewrite Hl. naive_solver.
  - rewrite Hl. split; [by intros []|by intros []].
  - intros w' _. exact (work_remove _ _ _ [] _ _ _ (wr_lists Hr) El).
Qed.

(** Different timers are at most as many as there are. *)
Lemma known_length (ts : gmap Z timer_list) l : NoDup l -> (forall x, x ∈ l -> is_Some (ts !! x)) -> (length l <= size ts)%nat.
Proof.
  intros Hn Hk. rewrite <-size_dom. transitivity (size (list_to_set l : gset Z)); [by rewrite size_list_to_set|].
  apply subseteq_size. intros x Hx%elem_of_list_to_set. by apply elem_of_dom, Hk.
Qed.

Lemma work_length s L T l : work_ok s L T l -> (length l <= size (timers s))%nat.
Proof.
  intros (Hr & El & _). pose proof (lrep_nodup _ _ _ _ (wr_lists Hr) El) as Hn. apply NoDup_cons in Hn as [_ Hn].
  apply known_length; [done|]. intros x Hx. by eapply (wr_entries Hr).
Qed.

Lemma called_ok s L T l c : work_ok s L T l -> work_ok (add_called c s) L T l.
Proof. intros (Hr & El & Hw). split; [apply (same_wheel_rep ws [] s); [by repeat split|done]|done]. Qed.

Context (handler : Z -> Z -> prog) (K : Z -> Prop) (HP : forall fn d, prog_ok K (handler fn d)).

Lemma call_run s L T l x t : work_ok s L T l -> (forall x, K x -> is_Some (timers s !! x)) ->
  exists s' L' l', call_timer_fn handler x (function t) (data t) s = Some (tt, s') /\
    step s T l s' L' l' (sp_exec (handler (function t) (data t)) (abst (add_called (Call x (function t) (data t) (u32 (timer_jiffies s - 1))) s) l)).
Proof.
  intros Hw HK. unfold call_timer_fn. rewrite (bind_run _ _ s s s) by done.
  set (s1 := add_called _ s). rewrite (bind_run _ _ s tt s1) by done.
  destruct (exec_run w true ws K _ (HP (function t) (data t)) s1 L T l) as (s' & L' & l' & Hrun & Hs); [by apply called_ok|done|]. by exists s', L', l'.
Qed.

Lemma run_expired_run fuel : forall s L T l, work_ok s L T l -> (length l < fuel)%nat -> (forall x, K x -> is_Some (timers s !! x)) ->
  exists s' L', run_expired w handler fuel s = Some (tt, s') /\ work_ok s' L' T [] /\ spec_expire handler (abst s l) (abst s' []) /\
    set_expires 0 <$> timers s' = set_expires 0 <$> timers s.
Proof.
  induction fuel as [|fuel IH]; intros s L T l Hw Hf HK; [lia|]. pose proof Hw as (Hr & El & Hv). cbn [run_expired].
  mrun (wheel_lists_run _ _ _ _ (heap_list_empty _ _ _ _ (wr_lists Hr) El)). rewrite set_lists_id. destruct l as [|x l].
  { rewrite bool_decide_true by done. exists s, L. split; [done|]. split; [done|]. split; [by constructor|done]. }
  rewrite bool_decide_false by done. mrun (wheel_lists_run _ _ _ _ (heap_first _ _ _ _ (wr_lists Hr) El)). rewrite set_lists_id. cbn [hd].
  destruct (detach_effect _ _ _ _ _ Hw) as (s1 & L1 & Hdet & Hef & _ & t & Ht). mrun (get_timer_run _ _ _ Ht). mrun Hdet.
  pose proof (effect_abst _ _ _ _ _ _ _ _ _ _ _ Hw Hef) as [Hw1 Ha1]. pose proof (ef_static _ _ _ _ _ _ _ _ Hef) as Hst1.
  destruct (call_run s1 L1 T _ x t Hw1) as (s2 & L2 & l2 & Hcall & Hw2 & Ha2 & Hlen2 & Hst2); [intros y Hy; eapply static_known; eauto|].
  mrun Hcall. destruct (IH s2 L2 T l2 Hw2) as (s' & L' & Hrun & Hw' & Hsp & Hst).
  { rewrite filter_cons, decide_False in Hlen2 by congruence. pose proof (length_filter (λ y, y <> x) l). cbn in Hf. lia. }
  { intros y Hy. apply (static_known s1); [congruence|]. eapply static_known; eauto. }
  exists s', L'. split; [done|]. split; [done|]. split; [|congruence].
  apply (expire_call _ _ x (set_expires 0 t)); [cbn; set_solver +|cbn; by rewrite lookup_fmap, Ht|]. cbn [function data set_expires].
  rewrite Ha2 in Hsp. assert (sp_call x (set_expires 0 t) (abst s (x :: l)) =
    abst (add_called (Call x (function t) (data t) (u32 (timer_jiffies s1 - 1))) s1) (filter (λ y, y <> x) (x :: l))) as ->; [|exact Hsp].
  revert Ha1. unfold abst, sp_set, sp_call. cbn [sp_now sp_jiffies sp_info sp_waiting sp_todo sp_calls timer_jiffies jiffies timers called add_called set_expires function data].
  intros E. injection E as -> -> -> E4 -> ->. f_equal. symmetry. exact E4.
Qed.
End expired.

(** ** Cascading *)
Section cascade.
Context (ws : list Z).
Implicit Types (s : wheel) (L : heads) (T x p : Z) (t : timer_list) (tau : nat -> Z).

(** A node that is neither a timer nor on a list can change. *)
Lemma rep_outside fl s L T tau p m' : wheel_rep ws fl s L T tau -> (forall h, ~ own L p h) -> timers s !! p = None ->
  same_outside [p] (lists s) m' -> wheel_rep ws fl (set_lists m' s) L T tau.
Proof.
  intros [] Hp Htp Hs. assert (forall x t, timers s !! x = Some t -> m' !! x = lists s !! x) as Hx.
  { intros x t Ht. apply Hs. intros ->%list_elem_of_singleton. congruence. }
  split; cbn; try done.
  - by eapply lrep_outside.
  - intros x t Ht. destruct (wr_timers0 x t Ht). split; try done. unfold allocated. cbn. by rewrite (Hx x t).
  - intros x t Ht Hf Hn. unfold nxt. rewrite (Hx x t) by done. by eapply wr_idle0.
Qed.

(** The nodes of [l], each with a link to the next one, and the last one to [p]. *)
Fixpoint fwd (m : mem) (l : list Z) (p : Z) : Prop :=
  match l with [] => True | y :: l => nxt m y = Some (hd p l) /\ fwd m l p end.
Lemma fwd_frame m m' l p : (forall y, y ∈ l -> m' !! y = m !! y) -> fwd m l p -> fwd m' l p.
Proof.
  induction l as [|y l IH]; cbn; [done|]. intros Hm [Hy Hl]. split; [|apply IH; [|done]; set_solver +Hm].
  unfold nxt in *. by rewrite Hm by set_solver +.
Qed.
Lemma chain_fwd m l p : chain m (l ++ [p]) -> fwd m l p.
Proof. induction l as [|y [|z l] IH]; cbn; [done|by intros [[? _] _]|]. intros [[? _] Hc]. split; [done|by apply IH]. Qed.

Lemma cascade_walk_run p T tau l : forall fuel s L, wheel_rep ws l s L T tau -> NoDup l -> p ∉ l -> fwd (lists s) l p ->
  (forall y, y ∈ l -> is_Some (timers s !! y)) -> (length l < fuel)%nat -> tau 0%nat = T -> (forall n, T <= tau n <= T + 1) ->
  exists m' L', cascade_walk p fuel (hd p l) s = Some (tt, set_lists m' s) /\ wheel_rep ws [] (set_lists m' s) L' T tau /\
    (forall y, listed L' y <-> listed L y \/ y ∈ l) /\ (forall h, is_Some (L' !! h) <-> is_Some (L !! h)) /\
    (forall q, lists s !! q = None -> m' !! q = None).
Proof.
  induction l as [|x l IH]; intros fuel s L Hr Hnd Hp Hf Hk Hfu H0 Ht; (destruct fuel as [|fuel]; [cbn in Hfu; lia|]); cbn [hd cascade_walk].
  { rewrite Z.eqb_refl. exists (lists s), L. rewrite set_lists_id. split; [done|]. split; [done|]. split; [set_solver +|done]. }
  rewrite (proj2 (Z.eqb_neq x p)) by set_solver +Hp. destruct Hf as [Hn Hf].
  mrun (wheel_lists_run _ _ _ _ (get_next_run _ _ _ Hn)). rewrite set_lists_id.
  destruct (Hk x ltac:(set_solver +)) as [t Hx]. mrun (get_timer_run _ _ _ Hx). rewrite (bind_run _ _ s s s) by done.
  rewrite not_bug by (destruct (wr_timers Hr _ _ Hx) as [_ -> _ _ _]; by rewrite Z.eqb_refl).
  apply NoDup_cons in Hnd as [Hxl Hnd].
  destruct (add_rep ws l s L T tau x t Hr Hxl Hx H0 Ht) as (m1 & n & i & l0 & Hadd & Hi & El & Hr1 & Hfr). mrun Hadd.
  destruct (IH fuel (set_lists m1 s) (<[vec s n i := l0 ++ [x]]> L) Hr1 Hnd) as (m' & L' & Hrun & Hr' & Hl' & Hh' & Hnone); [set_solver +Hp| | |cbn in Hfu; lia|done|done|].
  { eapply fwd_frame; [|exact Hf]. intros y Hy. cbn. apply Hfr; [set_solver +Hy Hxl|]. intros h. apply (wr_flight Hr). set_solver +Hy. }
  { intros y Hy. apply Hk. set_solver +Hy. }
  exists m', L'. split; [exact Hrun|]. split; [exact Hr'|]. split; [|split].
  - intros y. rewrite Hl', listed_add by done. rewrite elem_of_cons. tauto.
  - intros h. rewrite Hh'. destruct (decide (vec s n i = h)) as [<-|]; [|by rewrite lookup_insert_ne].
    rewrite lookup_insert_eq, El. split; intros _; eauto.
  - intros q Hq. apply Hnone. cbn. rewrite Hfr; [done| |by apply (unowned_free _ _ _ (wr_lists Hr))].
    intros ->. destruct (wr_timers Hr _ _ Hx) as [_ _ _ [v Hv] _]. congruence.
Qed.

(** Taking the whole list of a place for the head [p]. *)
Lemma take_rep s L T tau tau' n i l p : wheel_rep ws [] s L T tau -> slot n i -> L !! vec s n i = Some l ->
  (forall h, ~ own L p h) -> allocated (lists s) p -> timers s !! p = None ->
  (forall n' i' l' x t, slot n' i' -> ~ (n' = n /\ i' = i) -> L !! vec s n' i' = Some l' -> x ∈ l' -> timers s !! x = Some t ->
     placed (tau' n') T n' i' (expires t)) ->
  exists m', list_replace_init (vec s n i) p (lists s) = Some (tt, m') /\ lrep m' (<[p := l]> (<[vec s n i := []]> L)) /\
    wheel_rep ws l (set_lists m' s) (<[vec s n i := []]> L) T tau' /\ (forall q, lists s !! q = None -> m' !! q = None).
Proof.
  intros Hr Hi El Hp Ha Htp Hpl. destruct (heap_replace_init _ _ _ _ _ (wr_lists Hr) El Hp Ha) as (m' & Hrun & Hr' & Hs).
  exists m'. split; [done|]. split; [done|]. set (v := vec s n i) in *. split; [|intros q Hq; rewrite Hs; [done|]];
    [|intros [->|Hin]%elem_of_cons; [destruct Ha; congruence|by apply (unowned_free _ _ _ (wr_lists Hr) Hq v); exists l]].
  assert (L !! p = None) as Lp by (destruct (L !! p) as [k|] eqn:E; [|done]; destruct (Hp p); by eapply own_head).
  assert (v <> p) as Hvp by congruence.
  assert (forall k l', <[v := []]> L !! k = Some l' -> exists l0, L !! k = Some l0 /\ l' ⊆ l0) as Hsub.
  { intros k l' [[<- <-]|[_ E]]%lookup_insert_Some; [exists l; set_solver +El|exists l'; set_solver +E]. }
  assert (forall y k, own (<[v := []]> L) y k -> own L y k) as Hown.
  { intros y k (l' & E & Hy). destruct (Hsub k l' E) as (l0 & E0 & Hin). exists l0. set_solver +E0 Hin Hy. }
  split; cbn.
  - replace (<[v := []]> L) with (delete p (<[p := l]> (<[v := []]> L))); [by apply lrep_delete|].
    rewrite delete_insert_id; [done|]. by rewrite lookup_insert_ne.
  - apply Hr.
  - intros n' i' Hi'. change (vec (set_lists m' s) n' i') with (vec s n' i').
    destruct (decide (v = vec s n' i')) as [<-|]; heads_lookup; [done|by apply Hr].
  - intros k l' E. destruct (Hsub k l' E) as (l0 & E0 & _). by eapply (wr_heads Hr).
  - intros k l' E. destruct (Hsub k l' E) as (l0 & E0 & _). by eapply (wr_heads_ne Hr).
  - intros k l' x E Hx. destruct (Hsub k l' E) as (l0 & E0 & Hin). eapply (wr_entries Hr); [exact E0|set_solver +Hin Hx].
  - intros x t Ht. destruct (wr_timers Hr x t Ht). split; try done. cbn.
    eapply same_outside_alloc; [exact Hr'|apply lookup_insert_eq| |exact Hs|done].
    intros q [->|[->|Hq]%elem_of_cons]%elem_of_cons; [left; set_solver +| |left; set_solver +Hq].
    right. eapply dlist_allocated; [apply (lr_dlist _ _ Hr' v []); heads_lookup; done|set_solver +].
  - intros x t Ht Hx Hn. assert (forall h, ~ own L x h) as HnL.
    { intros h (l' & E & Hin). destruct (decide (h = v)) as [->|].
      - assert (l' = l) as -> by congruence. apply elem_of_cons in Hin as [->|]; [|done].
        destruct (wr_heads_ne Hr _ _ El) as [_ ?]. congruence.
      - apply (Hn h). exists l'. by heads_lookup. }
    unfold nxt. rewrite Hs; [apply (wr_idle Hr x t Ht); [set_solver +|done]|].
    intros [->|Hin]%elem_of_cons; [congruence|]. apply (HnL v). by exists l.
  - intros x h Hx (l' & E & Hin). assert (own L x v) as Hxv by by eapply own_entry. pose proof Hxv as Hxv'.
    destruct (Hsub h l' E) as (l0 & E0 & Hin0). assert (h = v) as ->.
    { eapply (lr_disj _ _ (wr_lists Hr) x); [exists l0; set_solver +E0 Hin0 Hin|done]. }
    rewrite lookup_insert_eq in E. injection E as <-. assert (x = v) as -> by set_solver +Hin.
    pose proof (lrep_nodup _ _ _ _ (wr_lists Hr) El) as Hnd. apply NoDup_cons in Hnd as [? _]. done.
  - intros n' i' l' x t Hi' E Hx Ht. change (vec (set_lists m' s) n' i') with (vec s n' i') in E.
    apply lookup_insert_Some in E as [[_ <-]|[Hne E]]; [set_solver +Hx|]. eapply Hpl; eauto. intros [-> ->]. done.
Qed.

(** The spans of level [n] from [T + 1] on: the same as from [T] on when no span begins
    at [T], and otherwise all but the first. *)
Lemma window_same n T D : T `mod` 2 ^ bits n <> 0 -> window n T D -> window n (T + 1) D.
Proof.
  intros Hm (c & Hc & HD). exists c. split; [|done]. pose proof (Z.pow_pos_nonneg 2 (bits n) ltac:(lia) (bits_nonneg n)) as Hg.
  assert (T <> c * 2 ^ bits n) as Hne by (intros ->; by rewrite Z.mod_mul in Hm by lia). lia.
Qed.
Lemma window_next n T D : T `mod` 2 ^ bits n = 0 -> (D `div` 2 ^ bits n) `mod` slots n <> (T `div` 2 ^ bits n) `mod` slots n ->
  window n T D -> window n (T + 1) D.
Proof.
  intros Hm Hne (c & Hc & HD). pose proof (Z.pow_pos_nonneg 2 (bits n) ltac:(lia) (bits_nonneg n)) as Hg. set (g := 2 ^ bits n) in *.
  pose proof (Z.div_mod T g ltac:(lia)) as ET. assert (T `div` g = c) as Ec by nia. rewrite Ec in Hne.
  assert (D `div` g <> c) as Hd by congruence. pose proof (Z.div_mod D g ltac:(lia)) as ED. pose proof (Z.mod_pos_bound D g Hg).
  exists (c + 1). fold g. nia.
Qed.

Lemma free_node fl s L T tau p : wheel_rep ws fl s L T tau -> lists s !! p = None ->
  (forall h, ~ own L p h) /\ timers s !! p = None.
Proof.
  intros Hr Hp. split; [by apply (unowned_free _ _ _ (wr_lists Hr))|]. destruct (timers s !! p) as [t|] eqn:E; [|done].
  destruct (wr_timers Hr _ _ E) as [_ _ _ [v Hv] _]. congruence.
Qed.

Lemma cascade_run p s L T tau n : (1 <= n < 5)%nat -> wheel_rep ws [] s L T tau -> tau n = T -> tau 0%nat = T ->
  (forall k, T <= tau k <= T + 1) -> T `mod` 2 ^ bits n = 0 -> lists s !! p = None ->
  let i := (T `div` 2 ^ bits n) `mod` slots n in
  exists m' L', cascade p n i s = Some (i, set_lists m' s) /\
    wheel_rep ws [] (set_lists m' s) L' T (λ k, if (k =? n)%nat then T + 1 else tau k) /\
    (forall y, listed L' y <-> listed L y) /\ (forall q, lists s !! q = None -> m' !! q = None) /\ (forall h, is_Some (L' !! h) <-> is_Some (L !! h)).
Proof.
  intros Hn Hr Htn H0 Htau Hm Hp i. destruct (free_node _ _ _ _ _ _ Hr Hp) as [Hpu Hpt].
  set (s1 := set_lists (<[p := ListHead 0 0]> (lists s)) s). set (tau' := λ k, if (k =? n)%nat then T + 1 else tau k).
  assert (wheel_rep ws [] s1 L T tau) as Hr1.
  { apply (rep_outside _ _ _ _ _ p); [done..|]. intros q Hq. apply lookup_insert_ne. set_solver +Hq. }
  assert (slot n i) as Hi by (split; [lia|]; apply Z.mod_pos_bound; destruct n; cbn; lia).
  destruct (wr_vecs Hr1 n i Hi) as [l El].
  destruct (take_rep s1 L T tau tau' n i l p Hr1 Hi El Hpu) as (m2 & Htake & Hl2 & Hr2 & Hnone2); [eexists; apply lookup_insert_eq|done| |].
  { intros n' i' l' x t Hi' Hne E Hx Ht. pose proof (wr_placed Hr1 n' i' l' x t Hi' E Hx Ht) as [Hw Hs Hf]. split; [|done|done].
    unfold tau'. destruct (Nat.eqb_spec n' n) as [->|]; [|done]. rewrite Htn in Hw. apply window_next; [done| |done]. rewrite <-Hs. fold i. naive_solver. }
  pose proof (lr_dlist _ _ Hl2 p l (lookup_insert_eq _ _ _)) as [Hnd Hc]. apply NoDup_cons in Hnd as [Hpl Hnd].
  assert (chain m2 (l ++ [p])) as Hc' by (cbn in Hc; destruct (l ++ [p]); [done|by destruct Hc]).
  assert (forall y, y ∈ l -> is_Some (timers s !! y)) as Hk by (intros y Hy; by eapply (wr_entries Hr1)).
  destruct (cascade_walk_run p T tau' l (S (size (timers s))) (set_lists m2 s1) (<[vec s n i := []]> L)) as (m3 & L' & Hrun & Hr3 & Hl3 & Hh3 & Hnone3);
    [exact Hr2|done|done|by apply chain_fwd|done| |by unfold tau'; rewrite (proj2 (Nat.eqb_neq 0 n)) by lia| |].
  { by apply Nat.lt_succ_r, known_length. }
  { intros k. unfold tau'. case_match; [lia|apply Htau]. }
  assert (forall h, ~ own L' p h) as Hpu'.
  { intros h (l' & E & Hin). apply elem_of_cons in Hin as [->|Hin].
    - assert (is_Some (L !! h)) as [l0 E0].
      { assert (is_Some (<[vec s n i := []]> L !! h)) as [l0 E0] by (apply Hh3; eauto). apply lookup_insert_Some in E0 as [[<- _]|[_ E0]]; eauto. }
      apply (Hpu h). by eapply own_head.
    - destruct (wr_entries Hr3 h l' p E Hin) as [t Ht]. cbn in Ht. congruence. }
  exists (delete p m3), L'. split_and!.
  - unfold cascade. rewrite (bind_run _ _ s tt s1) by done. rewrite (bind_run _ _ s1 s1 s1) by done.
    mrun (wheel_lists_run _ s1 _ _ Htake). mrun (wheel_lists_run _ (set_lists m2 s1) _ _ (heap_first _ _ _ _ Hl2 (lookup_insert_eq _ _ _))). by mrun Hrun.
  - apply (rep_outside [] (set_lists m3 (set_lists m2 s1)) L' T tau' p); [done..|]. intros q Hq. apply lookup_delete_ne. set_solver +Hq.
  - intros y. rewrite Hl3. split.
    + intros [(h & l' & [[<- <-]|[_ E]]%lookup_insert_Some & Hy)|Hy]; [set_solver +Hy|by exists h, l'|by exists (vec s n i), l].
    + intros (h & l' & E & Hy). destruct (decide (h = vec s n i)) as [->|]; [right|left; exists h, l'; by heads_lookup].
      change (vec s1 n i) with (vec s n i) in El. congruence.
  - intros q Hq. apply lookup_delete_None. destruct (decide (p = q)); [by left|right]. apply Hnone3, Hnone2. cbn. by rewrite lookup_insert_ne.
  - intros h. rewrite Hh3. destruct (decide (h = vec s n i)) as [->|]; [|by rewrite lookup_insert_ne].
    rewrite lookup_insert_eq. change (vec s1 n i) with (vec s n i) in El. rewrite El. split; intros _; eauto.
Qed.

(** While the levels are cascaded in turn, the spans of those below [n] are counted
    from [T + 1] on. *)
Definition stage (T : Z) (n k : nat) : Z := if ((1 <=? k) && (k <? n))%nat then T + 1 else T.

Lemma rep_tau fl s L T tau tau' : wheel_rep ws fl s L T tau ->
  (forall n i e, (n < 5)%nat -> placed (tau n) T n i e -> placed (tau' n) T n i e) -> wheel_rep ws fl s L T tau'.
Proof. intros [] Hp. split; try done. intros n i l x t Hi El Hx Ht. apply Hp; [apply Hi|eauto]. Qed.

(** No span of a higher level begins where none of a lower one does. *)
Lemma mod_level T n k : (1 <= n <= k)%nat -> T `mod` 2 ^ bits n <> 0 -> T `mod` 2 ^ bits k <> 0.
Proof.
  intros Hnk Hn Hk. apply Hn. apply Z.mod_divide; [pose proof (Z.pow_pos_nonneg 2 (bits n) ltac:(lia) (bits_nonneg n)); lia|].
  apply Z.mod_divide in Hk; [|pose proof (Z.pow_pos_nonneg 2 (bits k) ltac:(lia) (bits_nonneg k)); lia].
  eapply Z.divide_trans; [|exact Hk]. exists (2 ^ (bits k - bits n)).
  assert (bits n <= bits k) by (destruct n, k; cbn [bits]; lia). pose proof (bits_nonneg n). rewrite <-Z.pow_add_r by lia. f_equal. lia.
Qed.
Lemma mod_level_next T n : (1 <= n)%nat -> T `mod` 2 ^ bits n = 0 -> (T `div` 2 ^ bits n) `mod` slots n = 0 <-> T `mod` 2 ^ bits (S n) = 0.
Proof.
  intros Hn Hm. assert (2 ^ bits (S n) = 2 ^ bits n * 64) as ->.
  { destruct n; [lia|]. cbn [bits]. rewrite <-(Z.pow_add_r 2 _ 6) by lia. f_equal. lia. }
  pose proof (Z.pow_pos_nonneg 2 (bits n) ltac:(lia) (bits_nonneg n)). rewrite Z.rem_mul_r, Hm by lia. destruct n; [lia|]. cbn [slots]. nia.
Qed.

(** The levels that are not reached need no cascade. *)
Lemma stage_done s L T n : (1 <= n)%nat -> wheel_rep ws [] s L T (stage T n) -> (n = 5%nat \/ T `mod` 2 ^ bits n <> 0) ->
  wheel_rep ws [] s L T (stage T 5).
Proof.
  intros Hn Hr Hd. eapply rep_tau; [exact Hr|]. intros k i e Hk [Hw Hs Hf]. split; [|done|done]. revert Hw. unfold stage.
  destruct ((1 <=? k)%nat && (k <? n)%nat) eqn:E1, ((1 <=? k)%nat && (k <? 5)%nat) eqn:E2; try done; [lia|].
  intros Hw. apply window_same; [|done]. destruct Hd as [->|Hd]; [lia|]. apply (mod_level T n k); [lia|done].
Qed.

(** One level: the list index that the code computes, and the cascade. *)
Lemma INDEX_eq s T n : (1 <= n < 5)%nat -> timer_jiffies s = u32 T -> INDEX s (Z.of_nat n - 1) = (T `div` 2 ^ bits n) `mod` slots n.
Proof.
  intros Hn E. unfold INDEX. rewrite E. replace (TVR_BITS + (Z.of_nat n - 1) * TVN_BITS) with (bits n).
  - change TVN_MASK with (2 ^ 6 - 1). destruct n; [lia|]. apply slot_bits; cbn [bits]; lia.
  - destruct n; [lia|]. unfold TVR_BITS, TVN_BITS. cbn [bits]. lia.
Qed.

Lemma stage_run p s L T n : (1 <= n < 5)%nat -> wheel_rep ws [] s L T (stage T n) -> T `mod` 2 ^ bits n = 0 -> lists s !! p = None ->
  exists i m' L', cascade p n (INDEX s (Z.of_nat n - 1)) s = Some (i, set_lists m' s) /\
    wheel_rep ws [] (set_lists m' s) L' T (stage T (S n)) /\ (forall y, listed L' y <-> listed L y) /\ (forall q, lists s !! q = None -> m' !! q = None) /\
    (forall h, is_Some (L' !! h) <-> is_Some (L !! h)) /\ (i = 0 <-> T `mod` 2 ^ bits (S n) = 0).
Proof.
  intros Hn Hr Hm Hp. rewrite (INDEX_eq s T n Hn (wr_now Hr)).
  destruct (cascade_run p s L T (stage T n) n Hn Hr) as (m' & L' & Hrun & Hr' & Hl & Hp' & Hh); [|done| |done|done|].
  { unfold stage. case_match; lia. }
  { intros k. unfold stage. case_match; lia. }
  eexists _, m', L'. split; [exact Hrun|]. split; [|split; [done|split; [done|split; [done|apply mod_level_next; [lia|done]]]]].
  eapply rep_tau; [exact Hr'|]. intros k i e Hk. unfold stage. destruct (Nat.eqb_spec k n) as [->|].
  - destruct ((1 <=? n)%nat && (n <? S n)%nat) eqn:E; [done|lia].
  - destruct ((1 <=? k)%nat && (k <? n)%nat) eqn:E1, ((1 <=? k)%nat && (k <? S n)%nat) eqn:E2; try done; lia.
Qed.

(** The cascades of the levels from [n] on, as a recursion. *)
Fixpoint cascades (p : Z) (s0 : wheel) (c n : nat) : TM unit :=
  match c with
  | O => mret tt
  | S c => i ← cascade p n (INDEX s0 (Z.of_nat n - 1)); if negb (i =? 0) then mret tt else cascades p s0 c (S n)
  end.
Lemma cascade_timers_eq p index s : cascade_timers p index s = if negb (index =? 0) then Some (tt, s) else cascades p s 4 1 s.
Proof.
  unfold cascade_timers. rewrite (bind_run _ _ s s s) by done. destruct (negb (index =? 0)); [done|]. cbn [cascades].
  change (Z.of_nat 1 - 1) with 0. change (Z.of_nat 2 - 1) with 1. change (Z.of_nat 3 - 1) with 2. change (Z.of_nat 4 - 1) with 3.
  unfold mbind, M_bind. do 4 (destruct (cascade p _ _ _) as [[? ?]|]; [|done]; destruct (negb (_ =? 0)); [done|]). done.
Qed.

Lemma cascades_run p s0 T c : forall n s L, (n + c = 5)%nat -> (1 <= n)%nat -> timer_jiffies s0 = timer_jiffies s ->
  wheel_rep ws [] s L T (stage T n) -> (c <> 0%nat -> T `mod` 2 ^ bits n = 0) -> lists s !! p = None ->
  exists m' L', cascades p s0 c n s = Some (tt, set_lists m' s) /\ wheel_rep ws [] (set_lists m' s) L' T (stage T 5) /\
    (forall y, listed L' y <-> listed L y) /\ (forall q, lists s !! q = None -> m' !! q = None) /\ (forall h, is_Some (L' !! h) <-> is_Some (L !! h)).
Proof.
  induction c as [|c IH]; intros n s L Hnc Hn Ej Hr Hm Hp.
  { exists (lists s), L. rewrite set_lists_id. assert (n = 5%nat) as -> by lia. done. }
  destruct (stage_run p s L T n ltac:(lia) Hr (Hm ltac:(lia)) Hp) as (i & m1 & L1 & Hrun & Hr1 & Hl1 & Hp1 & Hh1 & Hi).
  assert (INDEX s0 = INDEX s) as Eidx by (unfold INDEX; by rewrite Ej).
  cbn [cascades]. rewrite Eidx. mrun Hrun. destruct (Z.eqb_spec i 0) as [Ei|Ei]; cbn [negb].
  - destruct (IH (S n) (set_lists m1 s) L1) as (m' & L' & Hrun' & Hr' & Hl' & Hp' & Hh'); [lia|lia|done|done|by intros _; apply Hi|by apply Hp1|].
    exists m', L'. split; [exact Hrun'|]. split; [exact Hr'|]. split; [intros y; by rewrite Hl'|]. split; [auto|]. intros h. by rewrite Hh'.
  - exists m1, L1. split; [done|]. split; [|done]. eapply (stage_done _ _ _ (S n)); [lia|exact Hr1|]. right. tauto.
Qed.

Lemma cascade_timers_run p s L T : wheel_ok ws s L T -> lists s !! p = None ->
  exists m' L', cascade_timers p (Z.land (timer_jiffies s) TVR_MASK) s = Some (tt, set_lists m' s) /\
    wheel_rep ws [] (set_lists m' s) L' T (stage T 5) /\
    (forall y, listed L' y <-> listed L y) /\ (forall q, lists s !! q = None -> m' !! q = None) /\ (forall h, is_Some (L' !! h) <-> is_Some (L !! h)).
Proof.
  intros Hr Hp. assert (Z.land (timer_jiffies s) TVR_MASK = T `mod` 2 ^ bits 1) as ->.
  { rewrite (wr_now Hr). change TVR_MASK with (2 ^ 8 - 1). rewrite <-(Z.shiftr_0_r (u32 T)), slot_bits, Z.div_1_r by lia. done. }
  assert (wheel_rep ws [] s L T (stage T 1)) as Hr1.
  { eapply rep_tau; [exact Hr|]. intros n i e Hn. unfold stage. by destruct n as [|[]]. }
  rewrite cascade_timers_eq. destruct (Z.eqb_spec (T `mod` 2 ^ bits 1) 0) as [E|E]; cbn [negb].
  - by apply (cascades_run p s T 4 1).
  - exists (lists s), L. rewrite set_lists_id. split; [done|]. split; [|done]. by apply (stage_done _ _ _ 1); [lia| |right].
Qed.
End cascade.

(** ** The memory

    The operations of the interface allocate and free no nodes. *)
Definition nodes_kept {A} (f : TM A) : Prop := forall s a s', f s = Some (a, s') -> dom (lists s') = dom (lists s).
Definition nodes_kept_mem {A} (f : M mem A) : Prop := forall m a m', f m = Some (a, m') -> dom m' = dom m.

Lemma nodes_kept_bind {A B} (f : TM A) (g : A -> TM B) : nodes_kept f -> (forall a, nodes_kept (g a)) -> nodes_kept (f ≫= g).
Proof. intros Hf Hg s b s' (a & s1 & H1 & H2)%bind_inv. rewrite (Hg _ _ _ _ H2). by eapply Hf. Qed.
Lemma nodes_kept_mem_bind {A B} (f : M mem A) (g : A -> M mem B) : nodes_kept_mem f -> (forall a, nodes_kept_mem (g a)) -> nodes_kept_mem (f ≫= g).
Proof. intros Hf Hg s b s' (a & s1 & H1 & H2)%bind_inv. rewrite (Hg _ _ _ _ H2). by eapply Hf. Qed.
Lemma nodes_kept_ret {A} (a : A) : nodes_kept (mret a).
Proof. by intros s b s' [= _ <-]. Qed.
Lemma nodes_kept_oops {A} : @nodes_kept A oops.
Proof. done. Qed.
Lemma nodes_kept_get : nodes_kept get.
Proof. by intros s b s' [= _ <-]. Qed.
Lemma nodes_kept_mem_ret {A} (a : A) : nodes_kept_mem (mret a).
Proof. by intros s b s' [= _ <-]. Qed.
Lemma nodes_kept_on_lists {A} (f : M mem A) : nodes_kept_mem f -> nodes_kept (on_lists f).
Proof. intros Hf s a s'. unfold on_lists. destruct (f (lists s)) as [[b m]|] eqn:E; [|done]. intros [= _ <-]. by eapply Hf. Qed.
Lemma nodes_kept_load p : nodes_kept_mem (load p).
Proof. intros m a m'. unfold load. destruct (m !! p); [|done]. by intros [= _ <-]. Qed.
Lemma nodes_kept_set_next p v : nodes_kept_mem (set_next p v).
Proof. intros m a m'. unfold set_next, load, mbind, M_bind. destruct (m !! p) eqn:E; [|done]. intros [= <- <-]. rewrite dom_insert_L. apply elem_of_dom_2 in E. set_solver +E. Qed.
Lemma nodes_kept_set_prev p v : nodes_kept_mem (set_prev p v).
Proof. intros m a m'. unfold set_prev, load, mbind, M_bind. destruct (m !! p) eqn:E; [|done]. intros [= <- <-]. rewrite dom_insert_L. apply elem_of_dom_2 in E. set_solver +E. Qed.
Lemma nodes_kept_get_timer x : nodes_kept (get_timer x).
Proof. intros s a s'. unfold get_timer. case_match; [|done]. by intros [= _ <-]. Qed.
Lemma nodes_kept_put_timer x t : nodes_kept (put_timer x t).
Proof. intros s a s'. unfold put_timer. case_match; [|done]. by intros [= <- <-]. Qed.
Lemma nodes_kept_lower t : nodes_kept (modify (lower_next t)).
Proof. intros s a s' [= <- <-]. by destruct (lower_next_same t s) as ((-> & _) & _). Qed.
Lemma nodes_kept_forget t : nodes_kept (modify (forget_next t)).
Proof. intros s a s' [= <- <-]. by destruct (forget_next_same t s) as ((-> & _) & _). Qed.
Lemma nodes_kept_called c : nodes_kept (modify (add_called c)).
Proof. by intros s a s' [= <- <-]. Qed.

Create HintDb nodes_kept.
#[local] Hint Resolve nodes_kept_ret nodes_kept_oops nodes_kept_get nodes_kept_mem_ret nodes_kept_load nodes_kept_set_next nodes_kept_set_prev
  nodes_kept_get_timer nodes_kept_put_timer nodes_kept_lower nodes_kept_forget nodes_kept_called : nodes_kept.
#[local] Ltac nodes_kept := repeat first
  [ progress intros | solve [auto with nodes_kept] | apply nodes_kept_bind | apply nodes_kept_mem_bind | apply nodes_kept_on_lists | progress case_match | progress (unfold BUG_ON) ].

Lemma nodes_kept_internal_add x : nodes_kept (internal_add_timer x).
Proof. unfold internal_add_timer, list_add_tail, __list_add, get_prev. nodes_kept. Qed.
Lemma nodes_kept_detach x c : nodes_kept (detach_timer x c).
Proof. unfold detach_timer, __list_del, get_prev, get_next. nodes_kept. Qed.
Lemma nodes_kept_pending x : nodes_kept (timer_pending x).
Proof. unfold timer_pending, get_next. nodes_kept. Qed.
#[local] Hint Resolve nodes_kept_internal_add nodes_kept_detach nodes_kept_pending : nodes_kept.
Lemma nodes_kept_mod x e po pin : nodes_kept (__mod_timer x e po pin).
Proof. unfold __mod_timer, lock_timer_base, timer_set_base. nodes_kept. Qed.
#[local] Hint Resolve nodes_kept_mod : nodes_kept.
Lemma nodes_kept_exec p : nodes_kept (exec p).
Proof.
  induction p; cbn [exec]; unfold mod_timer, mod_timer_pinned, mod_timer_pending, del_timer, lock_timer_base; nodes_kept; done.
Qed.
#[local] Hint Resolve nodes_kept_exec : nodes_kept.
Lemma nodes_kept_run_expired w handler fuel : nodes_kept (run_expired w handler fuel).
Proof. induction fuel; cbn [run_expired]; unfold call_timer_fn, list_empty, get_next; nodes_kept; done. Qed.

(** ** One jiffy *)
Section jiffy.
Implicit Types (s : wheel) (L : heads) (T x w : Z) (t : timer_list) (l : list Z).

Lemma pending_eq ws ws' s L T tau s' L' T' tau' : wheel_rep ws [] s L T tau -> wheel_rep ws' [] s' L' T' tau' ->
  timers s' = timers s -> (forall y, listed L' y <-> listed L y) -> pending s' = pending s.
Proof.
  intros Hr Hr' Et Hl. apply map_eq. intros y. unfold pending. rewrite !map_lookup_imap, Et.
  destruct (timers s !! y) as [t|] eqn:Ht; [|done]. cbn. assert (pend s' y = pend s y) as ->; [|done].
  apply eq_iff_eq_true. rewrite (pend_listed _ _ _ _ _ _ _ _ Hr Ht), (pend_listed _ _ _ _ _ _ y t Hr') by (congruence || set_solver +). apply Hl.
Qed.

(** The list of a jiffy becomes the list of [w]. *)
Lemma enter_work s L T tau w l : wheel_rep [] l s L T tau -> lrep (lists s) (<[w := l]> L) -> w <> 0 -> timers s !! w = None ->
  L !! w = None -> (forall y, y ∈ l -> is_Some (timers s !! y)) -> wheel_rep [w] [] s (<[w := l]> L) T tau.
Proof.
  intros Hr Hl Hw Ht HL Hk. assert (forall n i, slot n i -> w <> vec s n i) as Hv.
  { intros n i Hi ->. destruct (wr_vecs Hr n i Hi) as [k E]. congruence. }
  pose proof Hr as []. split; try done.
  - intros n i Hi. rewrite lookup_insert_ne by by apply Hv. by apply wr_vecs0.
  - intros h k [[<- _]|[_ E]]%lookup_insert_Some; [right; set_solver +|]. destruct (wr_heads0 h k E) as [?|?]; [by left|set_solver +H].
  - intros h k [[<- _]|[_ E]]%lookup_insert_Some; [done|by eapply wr_heads_ne0].
  - intros h k x [[<- <-]|[_ E]]%lookup_insert_Some Hx; [by apply Hk|by eapply wr_entries0].
  - intros x t Hx _ Hn. eapply wr_idle0; [done| |].
    + intros Hin. apply (Hn w). exists l. heads_lookup. split; [done|set_solver +Hin].
    + intros h (k & E & Hin). apply (Hn h). exists k. split; [|done]. rewrite lookup_insert_ne; [done|]. intros <-. congruence.
  - intros x h Hx. set_solver +Hx.
  - intros n i k x t Hi E Hx Hxt. rewrite lookup_insert_ne in E by by apply Hv. by eapply wr_placed0.
Qed.

(** [w] goes out of scope with an empty list. *)
Lemma leave_work s L T tau w : wheel_rep [w] [] s L T tau -> L !! w = Some [] -> (forall n i, slot n i -> w <> vec s n i) ->
  wheel_rep [] [] (set_lists (delete w (lists s)) s) (delete w L) T tau.
Proof.
  intros Hr El Hv. pose proof (wr_heads_ne Hr _ _ El) as [_ Htw]. assert (wheel_rep [] [] s (delete w L) T tau) as Hr'.
  { pose proof Hr as []. split; try done.
    - by apply lrep_delete.
    - intros n i Hi. rewrite lookup_delete_ne by by apply Hv. by apply wr_vecs0.
    - intros h k [Hne E]%lookup_delete_Some. left. destruct (wr_heads0 h k E) as [?|Hin]; [done|]. apply list_elem_of_singleton in Hin. congruence.
    - intros h k [_ E]%lookup_delete_Some. by eapply wr_heads_ne0.
    - intros h k x [_ E]%lookup_delete_Some. by eapply wr_entries0.
    - intros x t Ht _ Hn. eapply wr_idle0; [done|set_solver +|]. intros h (k & E & Hin). destruct (decide (h = w)) as [->|].
      + rewrite El in E. injection E as <-. assert (x = w) as -> by set_solver +Hin. congruence.
      + apply (Hn h). exists k. by rewrite lookup_delete_ne.
    - intros x h Hx. set_solver +Hx.
    - intros n i k x t Hi [_ E]%lookup_delete_Some. by eapply wr_placed0. }
  apply (rep_outside [] _ _ _ _ _ w); [done| |done|intros q Hq; apply lookup_delete_ne; set_solver +Hq].
  intros h [Ho Hne]%own_delete. apply Hne. eapply (lr_disj _ _ (wr_lists Hr)); [done|by eapply own_head].
Qed.
Lemma listed_empty L w y : L !! w = Some [] -> listed (delete w L) y <-> listed L y.
Proof.
  intros El. split; intros (h & k & E & Hy).
  - apply lookup_delete_Some in E as [_ E]. by exists h, k.
  - exists h, k. split; [|done]. rewrite lookup_delete_ne; [done|]. intros <-. rewrite El in E. injection E as <-. set_solver +Hy.
Qed.

(** Where a timer is, before the jiffy [T] is processed and after the cascades. *)
Lemma placed_due T n i e : (n < 5)%nat -> placed (stage T 5 n) T n i e -> s32 (e - T) <= 0 <-> n = 0%nat /\ i = T `mod` 256.
Proof.
  intros Hn [(c & Hc & HD) Hs Hf]. unfold due in *. destruct n as [|n].
  - cbn [stage bits slots] in *. change (stage T 5 0) with T in *. rewrite Z.pow_0_r, Z.div_1_r in *. split.
    + intros Hle. split; [done|]. by rewrite Hs, Z.max_l, Z.add_0_r by done.
    + intros [_ ->]. destruct (Z.le_gt_cases (s32 (e - T)) 0) as [?|Hgt]; [done|]. exfalso.
      rewrite Z.max_r in * by lia. set (d := s32 (e - T)) in *. rewrite <-(Z.mod_small d 256) in Hgt by lia.
      pose proof (Zminus_mod (T + d) T 256) as E. rewrite <-Hs, Z.sub_diag in E. replace (T + d - T) with d in E by lia. rewrite Z.mod_0_l in E by lia. lia.
  - split; [|by intros []]. intros Hle. exfalso. specialize (Hf ltac:(done)).
    assert (stage T 5 (S n) = T + 1) as E by (unfold stage; destruct ((1 <=? S n)%nat && (S n <? 5)%nat) eqn:E; [done|lia]).
    rewrite E in *. lia.
Qed.

Lemma s32_pred e T : 0 < s32 (e - T) -> s32 (e - (T + 1)) = s32 (e - T) - 1.
Proof.
  intros H. assert (s32 (e - (T + 1)) = s32 (s32 (e - T) - 1)) as ->.
  { unfold s32 at 3. rewrite <-(s32_u32 (_ - 1)). destruct (_ <? _).
    - rewrite u32_sub_l, s32_u32. f_equal. lia.
    - replace (u32 (e - T) - 2 ^ 32 - 1) with (u32 (e - T) - (2 ^ 32 + 1)) by lia. rewrite u32_sub_l.
      unfold u32 at 1. replace (e - T - (2 ^ 32 + 1)) with (e - (T + 1) + (-1) * 2 ^ 32) by lia. rewrite Z.mod_add by lia. fold (u32 (e - (T + 1))). by rewrite s32_u32. }
  apply s32_small. pose proof (s32_range (e - T)). lia.
Qed.

Lemma s32_sub_succ a b : 0 <= s32 (a - b) -> s32 (a - u32 (b + 1)) = s32 (a - b) - 1.
Proof.
  intros Hs. rewrite <-s32_u32, u32_sub_r, s32_u32. destruct (Z.eq_dec (s32 (a - b)) 0) as [E0|]; [|apply s32_pred; lia].
  assert (u32 (a - b) = 0) as Eu by (unfold s32 in E0; pose proof (u32_range (a - b)); destruct (_ <? _); lia).
  replace (a - (b + 1)) with ((a - b) - 1) by lia. rewrite <-s32_u32, <-u32_sub_l, Eu, s32_u32, s32_small by lia. lia.
Qed.

Lemma placed_advance T n i e : (n < 5)%nat -> placed (stage T 5 n) T n i e -> 0 < s32 (e - T) -> placed (T + 1) (T + 1) n i e.
Proof.
  intros Hn [Hw Hs Hf] Hpos. assert (due (T + 1) e = due T e) as E by (unfold due; rewrite s32_pred by done; lia).
  split; rewrite ?E; [|done|intros _; rewrite s32_pred by done; lia]. destruct n as [|n].
  - destruct Hw as (c & Hc & HD). change (stage T 5 0) with T in *. cbn [bits slots] in *. unfold due in *. exists (c + 1). cbn [bits slots]. lia.
  - assert (stage T 5 (S n) = T + 1) as <-; [|done]. unfold stage. destruct ((1 <=? S n)%nat && (S n <? 5)%nat) eqn:E'; [done|lia].
Qed.

Lemma advance_rep ws fl s L T : wheel_rep ws fl s L T (stage T 5) -> L !! vec s 0 (T `mod` 256) = Some [] ->
  wheel_rep ws fl (set_timer_jiffies (u32 (timer_jiffies s + 1)) s) L (T + 1) (λ _, T + 1).
Proof.
  intros [] Hv. split; try done.
  - cbn. by rewrite wr_now0, u32_add_l.
  - intros x t Ht. by destruct (wr_timers0 x t Ht).
  - intros n i l x t Hi El Hx Ht. pose proof (wr_placed0 n i l x t Hi El Hx Ht) as Hp. apply placed_advance; [apply Hi|done|].
    apply Z.nle_gt. rewrite (placed_due T n i _ (proj1 Hi) Hp). intros [-> ->].
    change (vec (set_timer_jiffies _ s) 0 (T `mod` 256)) with (vec s 0 (T `mod` 256)) in El. rewrite Hv in El. injection El as <-. set_solver +Hx.
Qed.

(** After the cascades the list of the jiffy has exactly the pending timers whose time
    has come. *)
Lemma due_list s L T s1 L1 l : wheel_ok [] s L T -> wheel_rep [] [] s1 L1 T (stage T 5) -> timers s1 = timers s ->
  (forall y, listed L1 y <-> listed L y) -> L1 !! vec s1 0 (T `mod` 256) = Some l ->
  (list_to_set l : gset Z) = dom (filter (λ p, s32 (p.2 - timer_jiffies s) <= 0) (pending s)).
Proof.
  intros Hr Hr1 Et Hl El. apply leibniz_equiv. intros y. rewrite elem_of_list_to_set, elem_of_dom.
  assert (forall e, s32 (e - timer_jiffies s) = s32 (e - T)) as E32 by (intros e; by rewrite (wr_now Hr), <-s32_u32, u32_sub_r, s32_u32).
  assert (slot 0 (T `mod` 256)) as Hi by (split; [lia|]; cbn [slots]; apply Z.mod_pos_bound; lia). split.
  - intros Hy. destruct (wr_entries Hr1 _ _ _ El Hy) as [t Ht]. exists (expires t). apply map_lookup_filter_Some. split.
    + apply pending_lookup. rewrite <-Et. exists t. split; [done|]. split; [|done]. rewrite Et in Ht.
      apply (pend_listed _ _ _ _ _ _ _ _ Hr Ht); [set_solver +|]. apply Hl. by eexists _, l.
    + cbn. rewrite E32. by apply (placed_due T 0 _ _ ltac:(lia) (wr_placed Hr1 0 _ _ _ _ Hi El Hy Ht)).
  - intros [e [He Hle]%map_lookup_filter_Some]. apply pending_lookup in He as (t & Ht & Hpd & <-). cbn in Hle. rewrite E32 in Hle.
    apply (pend_listed _ _ _ _ _ _ _ _ Hr Ht) in Hpd; [|set_solver +]. apply Hl in Hpd as (h & k & E & Hy).
    destruct (wr_heads Hr1 h k E) as [(n & i & Hi' & ->)|?]; [|set_solver +H]. rewrite <-Et in Ht.
    apply (placed_due T n i _ (proj1 Hi') (wr_placed Hr1 n i k y t Hi' E Hy Ht)) in Hle as [-> ->]. congruence.
Qed.

(** From the next jiffy to the list of its timers: the cascades, and taking the list. *)
Lemma take_jiffy s L T w p : wheel_ok [] s L T -> lists s !! w = None -> lists s !! p = None -> w <> 0 ->
  let index := Z.land (timer_jiffies s) TVR_MASK in
  exists m1 s' L' l, cascade_timers p index s = Some (tt, set_lists m1 s) /\
    on_lists (list_replace_init (vec s 0 index) w) (set_lists (<[w := ListHead 0 0]> m1) (set_timer_jiffies (u32 (timer_jiffies s + 1)) s)) = Some (tt, s') /\
    work_ok w true [w] s' L' (T + 1) l /\ abst s' l = sp_tick (abst s []) /\ timers s' = timers s /\ next_timer s' = next_timer s /\
    (forall q, q <> w -> lists s !! q = None -> lists s' !! q = None).
Proof.
  intros Hr Hw Hp Hw0 index. assert (index = T `mod` 256) as Hidx.
  { unfold index. rewrite (wr_now Hr). change TVR_MASK with (2 ^ 8 - 1). rewrite <-(Z.shiftr_0_r (u32 T)), slot_bits, Z.div_1_r by lia. done. }
  destruct (cascade_timers_run [] p s L T Hr Hp) as (m1 & L1 & Hcas & Hr1 & Hl1 & Hnone1 & _).
  destruct (free_node _ _ _ _ _ _ _ Hr1 (Hnone1 w Hw)) as [Hwu Hwt]. cbn in Hwt.
  set (sA := set_lists (<[w := ListHead 0 0]> m1) s). assert (wheel_rep [] [] sA L1 T (stage T 5)) as HrA.
  { apply (rep_outside _ _ _ _ _ _ w (<[w := ListHead 0 0]> m1) Hr1); [done|done|]. intros q Hq. apply lookup_insert_ne. set_solver +Hq. }
  assert (slot 0 (T `mod` 256)) as Hi by (split; [lia|]; cbn [slots]; apply Z.mod_pos_bound; lia).
  destruct (wr_vecs HrA 0 _ Hi) as [l El].
  destruct (take_rep [] sA L1 T (stage T 5) (stage T 5) 0 (T `mod` 256) l w HrA Hi El Hwu) as (m4 & Htake & Hl4 & Hr4 & Hnone4);
    [eexists; apply lookup_insert_eq|done|intros; by eapply (wr_placed HrA)|].
  change (vec sA 0 (T `mod` 256)) with (vec s 0 (T `mod` 256)) in *. set (v := vec s 0 (T `mod` 256)) in *.
  assert (L1 !! w = None) as Lw by (destruct (L1 !! w) as [k|] eqn:E; [|done]; destruct (Hwu w); by eapply own_head).
  assert (v <> w) as Hvw by congruence.
  assert (forall y, y ∈ l -> is_Some (timers s !! y)) as Hk by (intros y Hy; by eapply (wr_entries HrA)).
  assert (wheel_rep [w] [] (set_lists m4 sA) (<[w := l]> (<[v := []]> L1)) T (stage T 5)) as Hr5 by (apply enter_work; try done; by heads_lookup).
  pose proof (advance_rep _ _ _ _ _ Hr5 ltac:(change (vec (set_lists m4 sA) 0 (T `mod` 256)) with v; heads_lookup; done)) as Hr6.
  assert (forall y, listed (<[w := l]> (<[v := []]> L1)) y <-> listed L y) as Hl.
  { intros y. rewrite <-Hl1. split; intros (h & k & E & Hy).
    - apply lookup_insert_Some in E as [[<- <-]|[_ E]]; [by exists v, l|]. apply lookup_insert_Some in E as [[<- <-]|[_ E]]; [set_solver +Hy|by exists h, k].
    - destruct (decide (h = v)) as [->|]; [exists w, l; heads_lookup; split; [done|congruence]|exists h, k].
      rewrite !lookup_insert_ne; [done|congruence|]. intros <-. congruence. }
  exists m1, (set_timer_jiffies (u32 (timer_jiffies s + 1)) (set_lists m4 s)), (<[w := l]> (<[v := []]> L1)), l.
  split; [exact Hcas|]. rewrite Hidx. split; [unfold on_lists; cbn [lists set_lists]; change (lists sA) with (<[w := ListHead 0 0]> m1) in Htake; fold v; by rewrite Htake|].
  split; [|split; [|split; [done|split; [done|]]]].
  - split; [exact Hr6|]. split; [by heads_lookup|]. intros n i Hi' ->. destruct (wr_vecs HrA n i Hi') as [k E]. change (vec sA n i) with (vec (set_timer_jiffies (u32 (timer_jiffies s + 1)) (set_lists m4 s)) n i) in E. congruence.
  - unfold abst, sp_tick. cbn [sp_now sp_jiffies sp_info sp_waiting sp_todo sp_calls timer_jiffies jiffies timers called set_timer_jiffies set_lists].
    rewrite (pending_eq [] [w] s L T _ (set_timer_jiffies (u32 (timer_jiffies s + 1)) (set_lists m4 s)) _ _ _ Hr Hr6 eq_refl Hl). f_equal. by eapply due_list.
  - intros q Hq Hqn. cbn. apply Hnone4. cbn. rewrite lookup_insert_ne by congruence. by apply Hnone1.
Qed.
End jiffy.

(** ** The tick *)
Lemma sp_exec_time p : forall A, sp_now (sp_exec p A) = sp_now A /\ sp_jiffies (sp_exec p A) = sp_jiffies A /\ sp_info (sp_exec p A) = sp_info A.
Proof.
  induction p as [|x e k IH|x e k IH|x e k IH|x k IH|x k IH]; intros A; cbn [sp_exec]; [done|..]; try case_match;
    rewrite ?(proj1 (IH _ _)), ?(proj1 (proj2 (IH _ _))), ?(proj2 (proj2 (IH _ _))); by try case_match.
Qed.
Lemma spec_expire_time h A A' : spec_expire h A A' -> sp_now A' = sp_now A /\ sp_jiffies A' = sp_jiffies A /\ sp_info A' = sp_info A.
Proof.
  induction 1 as [|A x t A' Hx Ht _ (IH1 & IH2 & IH3)]; [done|].
  destruct (sp_exec_time (h (function t) (data t)) (sp_call x t A)) as (E1 & E2 & E3). rewrite IH1, IH2, IH3, E1, E2, E3. done.
Qed.

Section tick.
Context (w p : Z) (handler : Z -> Z -> prog).
Implicit Types (s : wheel) (L : heads) (T x : Z).

(** The invariant of the wheel between two calls: the stack nodes are not
    allocated. *)
Definition timers_ok (s : wheel) (L : heads) (T : Z) : Prop := wheel_ok [] s L T /\ lists s !! w = None /\ lists s !! p = None /\ w <> 0.

Lemma timers_ok_jiffies s L T j : timers_ok s L T -> timers_ok (set_jiffies j s) L T.
Proof. intros (Hr & Hrest). split; [|exact Hrest]. apply (same_wheel_rep [] [] s); [by repeat split|done]. Qed.

Lemma run_jiffy_run (K : Z -> Prop) s L T : timers_ok s L T -> (forall fn d, prog_ok K (handler fn d)) -> (forall x, K x -> is_Some (timers s !! x)) ->
  exists s' L', run_jiffy w p handler s = Some (tt, s') /\ timers_ok s' L' (T + 1) /\
    spec_expire handler (sp_tick (abst s [])) (abst s' []) /\ set_expires 0 <$> timers s' = set_expires 0 <$> timers s.
Proof.
  intros (Hr & Hw & Hp & Hw0) HP HK. destruct (take_jiffy s L T w p Hr Hw Hp Hw0) as (m1 & s2 & L2 & l & Hcas & Htake & Hwk & Ha & Et & _ & Hnone).
  destruct (run_expired_run w [w] handler K HP (S (size (timers s))) s2 L2 (T + 1) l Hwk) as (s3 & L3 & Hrun & (Hr3 & El3 & Hv3) & Hsp & Hst).
  { rewrite <-Et. by eapply Nat.lt_succ_r, work_length. }
  { by rewrite Et. }
  pose proof (leave_work _ _ _ _ _ Hr3 El3 Hv3) as Hr4.
  exists (set_lists (delete w (lists s3)) s3), (delete w L3). split; [|split; [|split]].
  - unfold run_jiffy. rewrite (bind_run _ _ s s s) by done. mrun Hcas.
    rewrite (bind_run _ _ _ tt (set_timer_jiffies (u32 (timer_jiffies s + 1)) (set_lists m1 s))) by done.
    rewrite (bind_run _ _ _ tt (set_lists (<[w := ListHead 0 0]> m1) (set_timer_jiffies (u32 (timer_jiffies s + 1)) s))) by done.
    mrun Htake. by mrun Hrun.
  - split; [done|]. cbn. split; [apply lookup_delete_eq|]. split; [|done]. apply lookup_delete_None. destruct (decide (w = p)); [by left|right].
    apply not_elem_of_dom. rewrite (nodes_kept_run_expired _ _ _ _ _ _ Hrun). apply not_elem_of_dom. by apply Hnone.
  - rewrite <-Ha. unfold abst in *. cbn. rewrite (pending_eq [w] [] s3 L3 _ _ (set_lists (delete w (lists s3)) s3) _ _ _ Hr3 Hr4 eq_refl); [done|].
    intros y. by apply listed_empty.
  - cbn. by rewrite Hst, Et.
Qed.

Lemma run_loop_run (K : Z -> Prop) fuel : forall s L T, timers_ok s L T -> (forall fn d, prog_ok K (handler fn d)) -> (forall x, K x -> is_Some (timers s !! x)) ->
  (Z.to_nat (s32 (jiffies s - timer_jiffies s) + 1) < fuel)%nat ->
  exists s' L' T', run_timers_loop w p handler fuel s = Some (tt, s') /\ timers_ok s' L' T' /\ spec_run handler (abst s []) (abst s' []).
Proof.
  induction fuel as [|fuel IH]; intros s L T Hok HP HK Hf; [lia|]. cbn [run_timers_loop]. rewrite (bind_run _ _ s s s) by done.
  destruct (time_after_eq (jiffies s) (timer_jiffies s)) eqn:Et.
  - destruct (run_jiffy_run K s L T Hok HP HK) as (s1 & L1 & Hrun & Hok1 & Hsp & Hst). mrun Hrun.
    destruct (spec_expire_time _ _ _ Hsp) as (En & Ej & _). cbn in En, Ej. unfold time_after_eq in Et. apply Z.leb_le in Et.
    assert (s32 (jiffies s1 - timer_jiffies s1) + 1 <= s32 (jiffies s - timer_jiffies s)) as Hd.
    { rewrite En, Ej, s32_sub_succ by done. lia. }
    destruct (IH s1 L1 (T + 1) Hok1 HP) as (s' & L' & T' & Hrun' & Hok' & Hsp'); [intros x Hx; eapply static_known; eauto|lia|].
    exists s', L', T'. split; [done|]. split; [done|]. eapply run_tick; [|exact Hsp|exact Hsp']. unfold time_after_eq. cbn. lia.
  - exists s, L, T. split; [done|]. split; [done|]. by constructor.
Qed.

Lemma run_timers_run (K : Z -> Prop) s L T : timers_ok s L T -> (forall fn d, prog_ok K (handler fn d)) -> (forall x, K x -> is_Some (timers s !! x)) ->
  exists s' L' T', __run_timers w p handler s = Some (tt, s') /\ timers_ok s' L' T' /\ spec_run handler (abst s []) (abst s' []).
Proof.
  intros Hok HP HK. unfold __run_timers. rewrite (bind_run _ _ s s s) by done. eapply run_loop_run; [done..|].
  unfold s32. pose proof (u32_range (jiffies s - timer_jiffies s)). destruct (_ <? _); lia.
Qed.
End tick.

(** ** Timers that nobody else uses *)
Fixpoint avoids (x : Z) (p : prog) : Prop :=
  match p with
  | Done => True
  | ModTimer y _ k | ModTimerPinned y _ k | ModTimerPending y _ k => y <> x /\ forall r, avoids x (k r)
  | DelTimer y k => y <> x /\ forall r, avoids x (k r)
  | TimerPending y k => forall r, avoids x (k r)
  end.
Definition calls_of (x : Z) (cs : list call) : list call := filter (λ c, c_timer c = x) cs.

Section avoid.
Context (x : Z) (handler : Z -> Z -> prog) (Havoid : forall fn d, avoids x (handler fn d)).

Lemma sp_exec_avoid p : avoids x p -> forall A, sp_waiting (sp_exec p A) !! x = sp_waiting A !! x /\
  (x ∈ sp_todo (sp_exec p A) <-> x ∈ sp_todo A) /\ sp_calls (sp_exec p A) = sp_calls A.
Proof.
  assert (forall y o A, y <> x -> sp_waiting (sp_set y o A) !! x = sp_waiting A !! x /\ (x ∈ sp_todo (sp_set y o A) <-> x ∈ sp_todo A) /\ sp_calls (sp_set y o A) = sp_calls A) as Hset.
  { intros y o A Hy. cbn. rewrite lookup_partial_alter_ne by done. split; [done|]. split; [set_solver +Hy|done]. }
  induction p as [|y e k IH|y e k IH|y e k IH|y k IH|y k IH]; intros Hp A; cbn [sp_exec]; [done|..];
    first [destruct Hp as [Hy Hk] | pose proof Hp as Hk]; try case_match; try case_match;
    match goal with |- context [sp_exec (k ?r) ?B] => destruct (IH r (Hk r) B) as (-> & -> & ->) end; auto.
Qed.

(** The calls of one jiffy. *)
Lemma spec_expire_avoid A A' : spec_expire handler A A' ->
  (x ∉ sp_todo A -> sp_waiting A' !! x = sp_waiting A !! x /\ calls_of x (sp_calls A') = calls_of x (sp_calls A)) /\
  (forall t, x ∈ sp_todo A -> sp_info A !! x = Some t -> sp_waiting A' !! x = None /\
    calls_of x (sp_calls A') = calls_of x (sp_calls A) ++ [Call x (function t) (data t) (u32 (sp_now A - 1))]).
Proof.
  induction 1 as [A Hn|A y t A' Hy Ht Hex [IH1 IH2]]; [set_solver +Hn|].
  set (B := sp_call y t A) in *. destruct (sp_exec_avoid _ (Havoid (function t) (data t)) B) as (Ew & Et & Ec).
  destruct (sp_exec_time (handler (function t) (data t)) B) as (En & _ & Ei). rewrite Ew, Ec in IH1. rewrite Ei, En, Ec in IH2. setoid_rewrite Et in IH1. setoid_rewrite Et in IH2.
  unfold B in *. cbn [sp_call sp_waiting sp_todo sp_calls sp_now sp_info] in *. unfold calls_of in *. destruct (decide (y = x)) as [->|Hne].
  - split; [done|]. intros t' _ Ht'. assert (t' = t) as -> by congruence. destruct IH1 as [-> ->]; [set_solver +|].
    rewrite lookup_delete_eq, filter_app. split; [done|]. f_equal. rewrite filter_cons, decide_True by done. done.
  - rewrite lookup_delete_ne in IH1 by done. rewrite filter_app, (filter_cons _ _ []), decide_False, filter_nil, app_nil_r in IH1, IH2 by done.
    split; [intros Hx; apply IH1; set_solver +Hx|]. intros t' Hx Ht'. apply IH2; [set_solver +Hx Hne|done].
Qed.

(** A timer that is not waiting is not called. *)
Lemma spec_run_idle A A' : spec_run handler A A' -> sp_waiting A !! x = None ->
  sp_waiting A' !! x = None /\ calls_of x (sp_calls A') = calls_of x (sp_calls A).
Proof.
  induction 1 as [A Ht|A A1 A2 Ht Hex Hrun IH]; intros Hx; [done|]. destruct (spec_expire_avoid _ _ Hex) as [H1 _].
  destruct H1 as [Hw Hc]. { cbn. rewrite elem_of_dom. intros [e [He _]%map_lookup_filter_Some]. congruence. }
  cbn in Hw, Hc. destruct IH as [-> ->]; [congruence|done].
Qed.

(** A waiting timer is called once, at its jiffy, if that is reached. *)
Lemma spec_run_exact A A' e t : spec_run handler A A' -> sp_waiting A !! x = Some e -> sp_info A !! x = Some t ->
  let d := Z.max 0 (s32 (e - sp_now A)) in
  if d <=? s32 (sp_jiffies A - sp_now A)
  then sp_waiting A' !! x = None /\ calls_of x (sp_calls A') = calls_of x (sp_calls A) ++ [Call x (function t) (data t) (u32 (sp_now A + d))]
  else sp_waiting A' !! x = Some e /\ calls_of x (sp_calls A') = calls_of x (sp_calls A).
Proof.
  induction 1 as [A Ht|A A1 A2 Ht Hex Hrun IH]; intros Hx Hi d; unfold time_after_eq in Ht.
  { destruct (Z.leb_spec d (s32 (sp_jiffies A - sp_now A))); [lia|done]. }
  destruct (spec_expire_avoid _ _ Hex) as [H1 H2]. destruct (spec_expire_time _ _ _ Hex) as (En & Ej & Ei). cbn in En, Ej, Ei.
  assert (x ∈ sp_todo (sp_tick A) <-> s32 (e - sp_now A) <= 0) as Htodo.
  { cbn. rewrite elem_of_dom. split; [intros [e' [He Hle]%map_lookup_filter_Some]; cbn in Hle; congruence|].
    intros Hle. exists e. by apply map_lookup_filter_Some. }
  destruct (Z.le_gt_cases (s32 (e - sp_now A)) 0) as [Hle|Hgt].
  - destruct (H2 t (proj2 Htodo Hle) Hi) as [Hw Hc]. destruct (spec_run_idle _ _ Hrun Hw) as [-> ->].
    assert (d = 0) as -> by lia. destruct (Z.leb_spec 0 (s32 (sp_jiffies A - sp_now A))); [|lia]. split; [done|]. rewrite Hc. cbn.
    by rewrite u32_sub_l, Z.add_simpl_r, Z.add_0_r.
  - destruct H1 as [Hw Hc]; [rewrite Htodo; lia|]. cbn in Hw, Hc. rewrite Hw, Ei, En, Ej, Hc in IH. specialize (IH Hx Hi). cbv zeta in IH.
    rewrite !s32_sub_succ in IH by lia. rewrite u32_add_l in IH.
    replace (sp_now A + 1 + Z.max 0 (s32 (e - sp_now A) - 1)) with (sp_now A + d) in IH by lia.
    assert ((Z.max 0 (s32 (e - sp_now A) - 1) <=? s32 (sp_jiffies A - sp_now A) - 1) = (d <=? s32 (sp_jiffies A - sp_now A))) as <- by lia. exact IH.
Qed.
End avoid.

(** ** Histories *)
Definition event_ok (K : Z -> Prop) (e : event) : Prop := match e with Use p => prog_ok K p | Tick _ => True end.

Section histories.
Context (w p : Z) (handler : Z -> Z -> prog) (K : Z -> Prop) (HP : forall fn d, prog_ok K (handler fn d)).
Implicit Types (s : wheel) (L : heads) (T x : Z).

Lemma use_run q s L T : timers_ok w p s L T -> prog_ok K q -> (forall x, K x -> is_Some (timers s !! x)) ->
  exists s' L', exec q s = Some (tt, s') /\ timers_ok w p s' L' T /\ abst s' [] = sp_exec q (abst s []).
Proof.
  intros (Hr & Hw & Hp & Hw0) Hq HK. destruct (free_node _ _ _ _ _ _ _ Hr Hw) as [Hwu _].
  assert (L !! w = None) as Lw by (destruct (L !! w) as [k|] eqn:E; [|done]; destruct (Hwu w); by eapply own_head).
  destruct (exec_run w false [] K q Hq s L T []) as (s' & L' & l' & Hrun & (Hr' & [_ ->] & _) & Ha & _); [|done|].
  { split; [done|]. split; [done|]. intros n i Hi ->. destruct (wr_vecs Hr n i Hi). congruence. }
  exists s', L'. split; [done|]. split; [|done]. pose proof (nodes_kept_exec _ _ _ _ Hrun) as Hd.
  split; [done|]. split; [apply not_elem_of_dom; rewrite Hd; by apply not_elem_of_dom|].
  split; [apply not_elem_of_dom; rewrite Hd; by apply not_elem_of_dom|done].
Qed.

Lemma softirq_run s L T : timers_ok w p s L T -> (forall x, K x -> is_Some (timers s !! x)) ->
  exists s' L' T', run_timer_softirq w p handler s = Some (tt, s') /\ timers_ok w p s' L' T' /\ spec_run handler (abst s []) (abst s' []).
Proof.
  intros Hok HK. unfold run_timer_softirq. rewrite (bind_run _ _ s s s) by done. destruct (time_after_eq _ _) eqn:E.
  - by apply (run_timers_run w p handler K s L T).
  - exists s, L, T. split; [done|]. split; [done|]. by constructor.
Qed.

Lemma spec_run_info h A A' : spec_run h A A' -> sp_info A' = sp_info A.
Proof. induction 1 as [|A A1 A2 _ Hex _ IH]; [done|]. destruct (spec_expire_time _ _ _ Hex) as (_ & _ & E). by rewrite IH, E. Qed.

Lemma event_run e s L T : timers_ok w p s L T -> event_ok K e -> (forall x, K x -> is_Some (timers s !! x)) ->
  exists s' L' T', run_event w p handler e s = Some (tt, s') /\ timers_ok w p s' L' T' /\ set_expires 0 <$> timers s' = set_expires 0 <$> timers s.
Proof.
  intros Hok He HK. destruct e as [q|n]; cbn [run_event].
  - destruct (use_run q s L T Hok He HK) as (s' & L' & Hrun & Hok' & Ha). exists s', L', T. split; [done|]. split; [done|].
    destruct (sp_exec_time q (abst s [])) as (_ & _ & E). by rewrite <-Ha in E.
  - set (s1 := set_jiffies (u32 (jiffies s + n)) s). pose proof (timers_ok_jiffies w p s L T (u32 (jiffies s + n)) Hok) as Hok1. fold s1 in Hok1.
    destruct (softirq_run s1 L T Hok1 HK) as (s' & L' & T' & Hrun & Hok' & Hsp). exists s', L', T'.
    split; [by rewrite (bind_run _ _ s tt s1)|]. split; [done|]. by apply (spec_run_info _ _ _ Hsp).
Qed.

Lemma events_run es : forall s L T, timers_ok w p s L T -> Forall (event_ok K) es -> (forall x, K x -> is_Some (timers s !! x)) ->
  exists s' L' T', run_events w p handler es s = Some (tt, s') /\ timers_ok w p s' L' T'.
Proof.
  induction es as [|e es IH]; intros s L T Hok He HK; [by exists s, L, T|]. apply Forall_cons in He as [He Hes]. cbn [run_events].
  destruct (event_run e s L T Hok He HK) as (s1 & L1 & T1 & Hrun & Hok1 & Hst). mrun Hrun.
  apply (IH s1 L1 T1 Hok1 Hes). intros x Hx. eapply static_known; eauto.
Qed.
End histories.

(** ** A wheel to try the theorems on

    The heads are at addresses 8192 to 12280 and three timers at 100, 200 and 300; the
    time is shortly before [jiffies] wraps around. *)
Definition demo_boot : wheel :=
  Wheel (list_to_map (((λ k, (8192 + 8 * k, ListHead 0 0)) <$> seqZ 0 512) ++ [(100, ListHead 0 0); (200, ListHead 0 0); (300, ListHead 0 0)]))
    (list_to_map [(100, TimerList 0 4096 1 10 (-1)); (200, TimerList 0 4097 1 20 0); (300, TimerList 0 4096 2 30 (-1))])
    4096 8192 0 0 4294967290 [].
(** The function 1 restarts the timer 200 and stops the timer 300 if that is pending. *)
Definition demo_handler (fn d : Z) : prog :=
  if fn =? 1 then ModTimerPinned 200 1000 (λ _, TimerPending 300 (λ b, if b then DelTimer 300 (λ _, Done) else Done)) else Done.

Lemma demo_boot_ok : boot demo_boot.
Proof.
  split; [done|..].
  - assert (Forall (λ p, is_Some (lists demo_boot !! vec demo_boot p.1 p.2) /\ vec demo_boot p.1 p.2 <> 0 /\ timers demo_boot !! vec demo_boot p.1 p.2 = None) init_order) as H
      by (apply (bool_decide_unpack _); vm_compute; done).
    intros n i Hi. rewrite Forall_forall in H. apply (H (n, i)). by apply init_order_slots.
  - assert (forall x, x ∈ [100; 200; 300] -> nxt (lists demo_boot) x = Some 0) as Hn.
    { intros x. rewrite !elem_of_cons, elem_of_nil. intros [->|[->|[->|[]]]]; vm_compute; reflexivity. }
    intros x t Ht. assert ((x, t) ∈ [(100, TimerList 0 4096 1 10 (-1)); (200, TimerList 0 4097 1 20 0); (300, TimerList 0 4096 2 30 (-1))]) as Hin
      by exact (elem_of_list_to_map_2 _ _ _ Ht). rewrite !elem_of_cons, elem_of_nil in Hin.
    assert (nxt (lists demo_boot) x = Some 0) as Hx by (apply Hn; set_solver +Hin). split; [|done].
    split; [| | |exact (nxt_allocated _ _ _ Hx)|]; clear Ht Hx Hn; destruct Hin as [[= -> ->]|[[= -> ->]|[[= -> ->]|[]]]];
      first [vm_compute; reflexivity | vm_compute; split; discriminate | vm_compute; discriminate | cbn; lia].
Qed.
Lemma demo_known x : x = 100 \/ x = 200 \/ x = 300 -> is_Some (timers demo_boot !! x).
Proof. intros [->|[->| ->]]; apply (bool_decide_unpack _); vm_compute; exact I. Qed.
Lemma demo_handler_ok fn d : prog_ok (λ x, x = 100 \/ x = 200 \/ x = 300) (demo_handler fn d).
Proof. unfold demo_handler. case_match; [|done]. cbn. split; [auto|]. split; [done|]. intros _. split; [auto|]. intros []; cbn; auto. Qed.

(** The wheel after boot, and after the timer 100 was set to go off in 10 jiffies. *)
Definition demo : wheel := match init_timers_cpu demo_boot with Some (_, s) => s | None => demo_boot end.
Definition demo1 : wheel := match exec (ModTimerPinned 100 4 (λ _, Done)) demo with Some (_, s) => s | None => demo end.

Lemma demo_at_boot : exists L, timers_ok 500 600 demo L (jiffies demo_boot).
Proof.
  destruct (init_timers_run demo_boot demo_boot_ok) as (m' & L & Hrun & Hr & _ & Hn). exists L.
  assert (demo = set_next_timer (jiffies demo_boot) (set_timer_jiffies (jiffies demo_boot) (set_lists m' demo_boot))) as -> by (unfold demo; by rewrite Hrun).
  split; [done|]. cbn [lists set_lists set_timer_jiffies set_next_timer]. split; [by apply Hn; vm_compute|]. split; [by apply Hn; vm_compute|done].
Qed.
Lemma demo_timers : timers demo = timers demo_boot.
Proof. by vm_compute. Qed.
Lemma demo1_at_boot : exists L, timers_ok 500 600 demo1 L (jiffies demo_boot).
Proof.
  destruct demo_at_boot as (L & Hok).
  destruct (use_run 500 600 (λ x, x = 100 \/ x = 200 \/ x = 300) (ModTimerPinned 100 4 (λ _, Done)) demo L _ Hok) as (s' & L' & Hrun & Hok' & _).
  - cbn. split; [auto|]. split; [lia|done].
  - rewrite demo_timers. apply demo_known.
  - exists L'. unfold demo1. by rewrite Hrun.
Qed.
Lemma demo1_ok : exists L T, timers_ok 500 600 demo1 L T.
Proof. destruct demo1_at_boot as [L Hok]. by exists L, (jiffies demo_boot). Qed.

(** ** Properties *)

(** C2: the tick implements the abstract timers.  From every good state of the wheel, and
    whatever the timer functions do with timers, [__run_timers] terminates without an
    oops in a good state, and what happened is a run of the abstract timers: for each
    jiffy up to [jiffies], exactly the timers whose expiry time has come are called, one
    by one, except those that a call before stopped or restarted.  The functions use the
    calls of [prog] on timers that are set up; [add_timer], which must not be called for a
    pending timer, is not among them. *)
Theorem run_timers_refines (w p : Z) (handler : Z -> Z -> prog) (K : Z -> Prop) (s : wheel) (L : heads) (T : Z)
  (Hok : timers_ok w p s L T) (HP : forall fn d, prog_ok K (handler fn d)) (HK : forall x, K x -> is_Some (timers s !! x)) :
  exists s' L' T', __run_timers w p handler s = Some (tt, s') /\ timers_ok w p s' L' T' /\
    spec_run handler (abst s []) (abst s' []).
Proof. by apply (run_timers_run w p handler K s L T). Qed.

Lemma run_timers_witness : exists L T, timers_ok 500 600 demo1 L T /\ exists s' L' T',
  __run_timers 500 600 demo_handler demo1 = Some (tt, s') /\ timers_ok 500 600 s' L' T' /\ spec_run demo_handler (abst demo1 []) (abst s' []).
Proof.
  destruct demo1_ok as (L & T & Hok). exists L, T. split; [exact Hok|].
  apply (run_timers_refines 500 600 demo_handler (λ x, x = 100 \/ x = 200 \/ x = 300) demo1 L T Hok demo_handler_ok).
  intros x [->|[->| ->]]; apply (bool_decide_unpack _); vm_compute; exact I.
Defined.

(** C19: timers go off exactly on time.  A pending timer that no timer function touches is
    called by the tick exactly once if its expiry time has come, with its function and
    data, while its own jiffy is processed (the first one, if it was late already), and is
    not pending afterwards; if its time has not come, it stays pending and is not
    called.  Times are compared as [jiffies] are, across the wrap-around. *)
Theorem timer_fires_exactly (w p : Z) (handler : Z -> Z -> prog) (K : Z -> Prop) (s : wheel) (L : heads) (T x e : Z) (t : timer_list)
  (Hok : timers_ok w p s L T) (HP : forall fn d, prog_ok K (handler fn d)) (HK : forall x, K x -> is_Some (timers s !! x))
  (Ht : timers s !! x = Some t) (Hx : pending s !! x = Some e) (Hav : forall fn d, avoids x (handler fn d)) :
  exists s', __run_timers w p handler s = Some (tt, s') /\
    let d := Z.max 0 (s32 (e - timer_jiffies s)) in
    if d <=? s32 (jiffies s - timer_jiffies s)
    then pending s' !! x = None /\ calls_of x (called s') = calls_of x (called s) ++ [Call x (function t) (data t) (u32 (timer_jiffies s + d))]
    else pending s' !! x = Some e /\ calls_of x (called s') = calls_of x (called s).
Proof.
  destruct (run_timers_run w p handler K s L T Hok HP HK) as (s' & L' & T' & Hrun & _ & Hsp). exists s'. split; [done|].
  refine (spec_run_exact x handler Hav (abst s []) (abst s' []) e (set_expires 0 t) Hsp Hx _). cbn. by rewrite lookup_fmap, Ht.
Qed.

Lemma timer_fires_witness : exists L T, timers_ok 500 600 (set_jiffies 4 demo1) L T /\ exists s',
  __run_timers 500 600 demo_handler (set_jiffies 4 demo1) = Some (tt, s') /\ pending s' !! 100 = None /\
  calls_of 100 (called s') = [Call 100 1 10 4].
Proof.
  destruct demo1_ok as (L & T & Hok). pose proof (timers_ok_jiffies 500 600 demo1 L T 4 Hok) as Hok'.
  exists L, T. split; [exact Hok'|].
  destruct (timer_fires_exactly 500 600 demo_handler (λ x, x = 100 \/ x = 200 \/ x = 300) (set_jiffies 4 demo1) L T 100 4
    (TimerList 4 4096 1 10 (-1)) Hok' demo_handler_ok) as (s' & Hrun & Hc).
  - intros x [->|[->| ->]]; apply (bool_decide_unpack _); vm_compute; exact I.
  - vm_compute. reflexivity.
  - vm_compute. reflexivity.
  - intros fn d. unfold demo_handler. destruct (fn =? 1); [|exact I]. cbn. split; [lia|]. intros _ []; cbn; [|exact I]. split; [lia|]. done.
  - exists s'. split; [exact Hrun|]. exact Hc.
Defined.

(** C32: no history of timers oopses.  From boot, any sequence of uses of the timer
    interface ([prog]) on timers that are set up and of ticks, of any length, with timer functions
    that do the same, runs without an oops and keeps the invariant of the wheel. *)
Theorem timers_safe (w p : Z) (handler : Z -> Z -> prog) (K : Z -> Prop) (s : wheel) (es : list event)
  (Hboot : boot s) (Hw : lists s !! w = None) (Hp : lists s !! p = None) (Hw0 : w <> 0)
  (HP : forall fn d, prog_ok K (handler fn d)) (HK : forall x, K x -> is_Some (timers s !! x)) (He : Forall (event_ok K) es) :
  exists s' L T, (init_timers_cpu ;; run_events w p handler es) s = Some (tt, s') /\ timers_ok w p s' L T.
Proof.
  destruct (init_timers_run s Hboot) as (m' & L & Hrun & Hr & _ & Hn). mrun Hrun.
  eapply (events_run w p handler K HP es); [|done|exact HK]. split; [exact Hr|]. by split; [apply Hn|split; [apply Hn|]].
Qed.

Lemma timers_safe_witness : exists s' L T,
  (init_timers_cpu ;; run_events 500 600 demo_handler [Use (ModTimer 100 2 (λ _, ModTimer 300 70000 (λ _, Done))); Tick 40; Use (DelTimer 300 (λ _, Done)); Tick 1000]) demo_boot
    = Some (tt, s') /\ timers_ok 500 600 s' L T.
Proof.
  apply (timers_safe 500 600 demo_handler (λ x, x = 100 \/ x = 200 \/ x = 300)); [exact demo_boot_ok|by vm_compute|by vm_compute|lia|exact demo_handler_ok|exact demo_known|].
  repeat constructor; cbn; auto; lia.
Defined.

End TimerRun.
