(* ===== verification/TimerNext.v ===== *)
(** * The timer wheel: the next expiry

    When a CPU goes idle, [get_next_timer_interrupt] of kernel/timer.c tells when the
    next timer is due, so that the tick can be stopped until then.  The value is cached in
    [next_timer]; [__next_timer_interrupt] computes it from the lists of the wheel,
    without looking at all timers.  Deferrable timers do not wake a CPU and are
    skipped.  The file also has the functions that round times to whole seconds. *)
From stdpp Require Import prelude gmap list.
From Stdlib Require Import ZArith Lia ZifyBool.
From S2P Require Import Prelude ListHead ListHeap Time TimerWheel TimerRun.
Open Scope Z_scope.

Module TimerNext.
Import Time Timer TimerRun.

(** ** The search *)
Definition NEXT_TIMER_MAX_DELTA : Z := Z.shiftl 1 30 - 1.

(** The walk of a list of [tv1] from [pos]: the expiry time of the first timer that is
    not deferrable. *)
Fixpoint first_timer (fuel : nat) (head pos : Z) : TM (option Z) :=
  match fuel with
  | O => oops
  | S fuel =>
      if pos =? head then mret None
      else
        nte ← get_timer pos;
        if deferrable nte then next ← on_lists (get_next pos); first_timer fuel head next
        else mret (Some (expires nte))
  end.

(** [do { ... } while (slot != index)] on [tv1]: the list and the time of the first
    timer that is found. *)
Fixpoint tv1_search (fuel : nat) (index slot_ : Z) : TM (option (Z * Z)) :=
  match fuel with
  | O => oops
  | S fuel =>
      s ← get;
      pos ← on_lists (get_next (vec s 0 slot_));
      r ← first_timer (S (size (timers s))) (vec s 0 slot_) pos;
      match r with
      | Some e => mret (Some (slot_, e))
      | None =>
          let slot_ := Z.land (slot_ + 1) TVR_MASK in
          if negb (slot_ =? index) then tv1_search fuel index slot_ else mret None
      end
  end.

(** The walk of a list of [tv2] to [tv5]: whether a timer was found, and the earliest
    time. *)
Fixpoint min_timer (fuel : nat) (head pos : Z) (found : bool) (expires_ : Z) : TM (bool * Z) :=
  match fuel with
  | O => oops
  | S fuel =>
      if pos =? head then mret (found, expires_)
      else
        nte ← get_timer pos;
        next ← on_lists (get_next pos);
        if deferrable nte then min_timer fuel head next found expires_
        else min_timer fuel head next true (if time_before (expires nte) expires_ then expires nte else expires_)
  end.

(** The loop over the lists of [tv(n+1)].  The first result tells whether the function
    returns. *)
Fixpoint tvn_search (fuel n : nat) (index slot_ : Z) (found : bool) (expires_ : Z) : TM (bool * (bool * Z)) :=
  match fuel with
  | O => oops
  | S fuel =>
      s ← get;
      pos ← on_lists (get_next (vec s n slot_));
      r ← min_timer (S (size (timers s))) (vec s n slot_) pos found expires_;
      if (r.1 : bool) then
        if (index =? 0) || (slot_ <? index) then mret (false, r) else mret (true, r)
      else
        let slot_ := Z.land (slot_ + 1) TVN_MASK in
        if negb (slot_ =? index) then tvn_search fuel n index slot_ r.1 r.2 else mret (false, r)
  end.

(** [for (array = 0; array < 4; array++)], for the levels that are left. *)
Fixpoint arrays_search (c n : nat) (tj : Z) (found : bool) (expires_ : Z) : TM Z :=
  match c with
  | O => mret expires_
  | S c =>
      let index := Z.land tj TVN_MASK in
      r ← tvn_search (Z.to_nat TVN_SIZE) n index index found expires_;
      if (r.1 : bool) then mret r.2.2
      else
        let tj := if negb (index =? 0) then u32 (tj + (TVN_SIZE - index)) else tj in
        arrays_search c (S n) (Z.shiftr tj TVN_BITS) r.2.1 r.2.2
  end.

Definition __next_timer_interrupt : TM Z :=
  s ← get;
  let tj := timer_jiffies s in
  let expires_ := u32 (tj + NEXT_TIMER_MAX_DELTA) in
  let index := Z.land tj TVR_MASK in
  r ← tv1_search (Z.to_nat TVR_SIZE) index index;
  let tj' := Z.shiftr (if negb (index =? 0) then u32 (tj + (TVR_SIZE - index)) else tj) TVR_BITS in
  match r with
  | Some (slot_, e) =>
      if (index =? 0) || (slot_ <? index) then arrays_search 4 1 tj' true e else mret e
  | None => arrays_search 4 1 tj' false expires_
  end.

(** On one CPU, which is number 0. *)
Definition cpu_online (cpu : Z) : bool := cpu =? 0.
Definition cpu_is_offline (cpu : Z) : bool := negb (cpu_online cpu).
Definition KTIME_MAX : Z := 2 ^ 63 - 1.

(** [hr_delta] is the result of [hrtimer_get_next_event]. *)
Definition cmp_next_hrtimer_event (hr_delta now expires_ : Z) : Z :=
  if hr_delta =? KTIME_MAX then expires_
  else if hr_delta <=? 0 then u32 (now + 1)
  else
    let delta := timespec_to_jiffies (ktime_to_timespec hr_delta) in
    let delta := if delta >? NEXT_TIMER_MAX_DELTA then NEXT_TIMER_MAX_DELTA else delta in
    let delta := if delta <? 1 then 1 else delta in
    let now := u32 (now + delta) in
    if time_before now expires_ then now else expires_.

Definition get_next_timer_interrupt (hr_delta cpu now : Z) : TM Z :=
  if cpu_is_offline cpu then mret (u32 (now + NEXT_TIMER_MAX_DELTA))
  else
    s ← get;
    (if time_before_eq (next_timer s) (timer_jiffies s) then e ← __next_timer_interrupt; modify (set_next_timer e) else mret tt) ;;
    s ← get;
    let expires_ := next_timer s in
    mret (if time_before_eq expires_ now then now else cmp_next_hrtimer_event hr_delta now expires_).

(** ** Rounding *)
(** [jiffies] is the time when it is read. *)
Definition round_jiffies_common (jiffies j cpu : Z) (force_up : bool) : Z :=
  let original := j in
  let j := u32 (j + cpu * 3) in
  let rem := j `mod` HZ in
  let j := if (rem <? HZ `div` 4) && negb force_up then j - rem else u32 (j - rem + HZ) in
  let j := u32 (j - cpu * 3) in
  if j <=? jiffies then original else j.
Definition __round_jiffies (jiffies j cpu : Z) : Z := round_jiffies_common jiffies j cpu false.
(** [j0] is the time when the function starts. *)
Definition __round_jiffies_relative (j0 jiffies j cpu : Z) : Z := u32 (round_jiffies_common jiffies (u32 (j + j0)) cpu false - j0).
Definition round_jiffies (jiffies cpu j : Z) : Z := round_jiffies_common jiffies j cpu false.
Definition round_jiffies_relative (j0 jiffies cpu j : Z) : Z := __round_jiffies_relative j0 jiffies j cpu.
Definition __round_jiffies_up (jiffies j cpu : Z) : Z := round_jiffies_common jiffies j cpu true.
Definition __round_jiffies_up_relative (j0 jiffies j cpu : Z) : Z := u32 (round_jiffies_common jiffies (u32 (j + j0)) cpu true - j0).
Definition round_jiffies_up (jiffies cpu j : Z) : Z := round_jiffies_common jiffies j cpu true.
Definition round_jiffies_up_relative (j0 jiffies cpu j : Z) : Z := __round_jiffies_up_relative j0 jiffies j cpu.

(** ** Walks of lists *)
Section walks.
Context (ws fl : list Z) (s : wheel) (L : heads) (T : Z) (tau : nat -> Z) (Hr : wheel_rep ws fl s L T tau).
Implicit Types (h x e : Z) (l : list Z).

(** The expiry times of the timers of a list that are not deferrable. *)
Definition times (l : list Z) : list Z :=
  omap (λ x, match timers s !! x with Some t => if deferrable t then None else Some (expires t) | None => None end) l.
Definition min_step (r : bool * Z) (e : Z) : bool * Z := (true, if time_before e r.2 then e else r.2).

Lemma times_elem l e : e ∈ times l <-> exists x t, x ∈ l /\ timers s !! x = Some t /\ deferrable t = false /\ expires t = e.
Proof.
  unfold times. rewrite list_elem_of_omap. split.
  - intros (x & Hx & E). destruct (timers s !! x) as [t|] eqn:Ht; [|done]. destruct (deferrable t) eqn:Hd; [done|]. injection E as <-. by exists x, t.
  - intros (x & t & Hx & Ht & Hd & <-). exists x. split; [done|]. by rewrite Ht, Hd.
Qed.

Lemma walk_length h l : L !! h = Some l -> (length l < S (size (timers s)))%nat.
Proof.
  intros E. pose proof (lrep_nodup _ _ _ _ (wr_lists Hr) E) as Hn. apply NoDup_cons in Hn as [_ Hn]. apply Nat.lt_succ_r.
  rewrite <-size_dom. transitivity (size (list_to_set l : gset Z)); [by rewrite size_list_to_set|].
  apply subseteq_size. intros x Hx%elem_of_list_to_set. apply elem_of_dom. by eapply (wr_entries Hr).
Qed.

Lemma walk_entry h l1 x l2 : L !! h = Some (l1 ++ x :: l2) -> (x =? h) = false /\ (exists t, timers s !! x = Some t) /\
  on_lists (get_next x) s = Some (hd h l2, s).
Proof.
  intros E. split; [|split].
  - apply Z.eqb_neq. intros ->. pose proof (lrep_nodup _ _ _ _ (wr_lists Hr) E) as Hn. apply NoDup_cons in Hn as [Hn _]. set_solver +Hn.
  - eapply (wr_entries Hr); [exact E|set_solver +].
  - rewrite (wheel_lists_run _ _ _ _ (heap_next _ _ _ _ _ _ (wr_lists Hr) E)). by rewrite set_lists_id.
Qed.

Lemma first_timer_run h fuel : forall l1 l2, L !! h = Some (l1 ++ l2) -> (length l2 < fuel)%nat ->
  first_timer fuel h (hd h l2) s = Some (head (times l2), s).
Proof.
  induction fuel as [|fuel IH]; intros l1 [|x l2] E Hf; cbn in Hf; try lia; cbn [first_timer hd]; [by rewrite Z.eqb_refl|].
  destruct (walk_entry h l1 x l2 E) as (-> & (t & Ht) & Hn). mrun (get_timer_run _ _ _ Ht). cbn [times omap list_omap]. rewrite Ht.
  destruct (deferrable t); [|done]. mrun Hn. apply (IH (l1 ++ [x])); [by rewrite <-app_assoc|lia].
Qed.

Lemma min_timer_run h fuel : forall l1 l2 r, L !! h = Some (l1 ++ l2) -> (length l2 < fuel)%nat ->
  min_timer fuel h (hd h l2) r.1 r.2 s = Some (foldl min_step r (times l2), s).
Proof.
  induction fuel as [|fuel IH]; intros l1 [|x l2] r E Hf; cbn in Hf; try lia; cbn [min_timer hd].
  { rewrite Z.eqb_refl. by destruct r. }
  destruct (walk_entry h l1 x l2 E) as (-> & (t & Ht) & Hn). mrun (get_timer_run _ _ _ Ht). mrun Hn. cbn [times omap list_omap]. rewrite Ht.
  assert (L !! h = Some ((l1 ++ [x]) ++ l2)) as E' by by rewrite <-app_assoc.
  destruct (deferrable t); [apply (IH _ _ _ E'); lia|]. cbn [foldl]. exact (IH _ _ (min_step r (expires t)) E' ltac:(lia)).
Qed.
End walks.

(** The earliest of some times, as [time_before] sees it, when they are close enough. *)
Lemma time_before_key T a b : - 2 ^ 31 < s32 (a - T) - s32 (b - T) < 2 ^ 31 -> time_before a b = (s32 (a - T) <? s32 (b - T)).
Proof.
  intros Hd. unfold time_before, time_after. assert (s32 (a - b) = s32 (a - T) - s32 (b - T)) as ->; [|lia].
  destruct (s32_ex (a - T)) as [k1 E1], (s32_ex (b - T)) as [k2 E2]. apply (s32_shift _ _ (k2 - k1)); lia.
Qed.

Lemma min_fold T lo hi es : forall r, hi - lo <= 2 ^ 31 -> lo <= s32 (r.2 - T) < hi -> (forall e, e ∈ es -> lo <= s32 (e - T) < hi) ->
  let r' := foldl min_step r es in
  r'.1 = r.1 || negb (bool_decide (es = [])) /\ (r'.2 = r.2 \/ r'.2 ∈ es) /\ s32 (r'.2 - T) <= s32 (r.2 - T) /\
  (forall e, e ∈ es -> s32 (r'.2 - T) <= s32 (e - T)).
Proof.
  induction es as [|e es IH]; intros r Hb Hr He; cbn [foldl].
  { cbn. rewrite orb_false_r. split; [done|]. split; [by left|]. split; [lia|]. set_solver +. }
  pose proof (He e ltac:(set_solver +)) as He0. assert (time_before e r.2 = (s32 (e - T) <? s32 (r.2 - T))) as Etb by (apply time_before_key; lia).
  destruct (IH (min_step r e) Hb) as (H1 & H2 & H3 & H4).
  - cbn. rewrite Etb. case_match; lia.
  - intros e' He'. apply He. set_solver +He'.
  - cbn in H1. cbv zeta. rewrite H1. cbn [bool_decide]. rewrite bool_decide_false by done. cbn. rewrite orb_true_r. split; [done|].
    cbn in H2, H3. rewrite Etb in H2, H3. set (r' := foldl min_step (min_step r e) es) in *. split; [|split].
    + destruct (s32 (e - T) <? s32 (r.2 - T)); [|destruct H2; [by left|right; set_solver +H]]. right. destruct H2 as [->|]; set_solver.
    + destruct (Z.ltb_spec (s32 (e - T)) (s32 (r.2 - T))); lia.
    + intros e' [->|He']%elem_of_cons; [|by apply H4]. destruct (Z.ltb_spec (s32 (e - T)) (s32 (r.2 - T))); lia.
Qed.

(** ** The search finds the earliest timer *)
(** Numbers of one window of length [p] that agree modulo [p]. *)
Lemma mod_inj_window c p a b : c <= a < c + p -> c <= b < c + p -> a `mod` p = b `mod` p -> a = b.
Proof.
  intros Ha Hb E. pose proof (Z.div_mod a p ltac:(lia)) as Da. pose proof (Z.div_mod b p ltac:(lia)) as Db. rewrite E in Da.
  assert (a `div` p = b `div` p); [|congruence]. nia.
Qed.

Section search.
Context (s : wheel) (L : heads) (T : Z) (Hr : wheel_ok [] s L T).
Implicit Types (n m : nat) (k j e : Z).

(** The first span of level [n] that starts at [T] or later, the times in the list of a
    span, and the length of a span. *)
Definition gran (n : nat) : Z := 2 ^ bits n.
Definition ceil (n : nat) : Z := (T + gran n - 1) `div` gran n.
Definition bucket (n : nat) (q : Z) : list Z :=
  match L !! vec s n (q `mod` slots n) with Some l => times s l | None => [] end.

Lemma gran_pos n : 0 < gran n.
Proof. apply Z.pow_pos_nonneg; [lia|apply bits_nonneg]. Qed.
Lemma slots_pos n : 0 < slots n.
Proof. by destruct n. Qed.
Lemma gran_S n : gran (S n) = slots n * gran n.
Proof. unfold gran. destruct n as [|n]; [done|]. cbn [bits slots]. rewrite <-(Z.pow_add_r 2 6) by lia. f_equal. lia. Qed.
Lemma ceil_spec n : (ceil n - 1) * gran n < T <= ceil n * gran n.
Proof.
  pose proof (gran_pos n). unfold ceil. pose proof (Z.div_mod (T + gran n - 1) (gran n)). pose proof (Z.mod_pos_bound (T + gran n - 1) (gran n)). nia.
Qed.
Lemma ceil_0 : ceil 0 = T.
Proof. pose proof (ceil_spec 0) as H. change (gran 0) with 1 in H. lia. Qed.
(** The first span of the next level. *)
Lemma ceil_S n : let i := ceil n `mod` slots n in slots n * ceil (S n) = ceil n + (if i =? 0 then 0 else slots n - i).
Proof.
  intros i. pose proof (gran_pos n). pose proof (ceil_spec n) as Hc. pose proof (ceil_spec (S n)) as Hs. rewrite gran_S in Hs. pose proof (slots_pos n) as Hp.
  pose proof (Z.mod_pos_bound (ceil n) (slots n) Hp) as Hi. pose proof (Z.div_mod (ceil n) (slots n) ltac:(lia)) as Hd. fold i in Hi, Hd.
  set (q := ceil n `div` slots n) in *. destruct (Z.eqb_spec i 0) as [E|E].
  - assert (ceil (S n) = q); [|lia]. nia.
  - assert (ceil (S n) = q + 1); [|lia]. nia.
Qed.
Lemma ceil_up n m : (n < m)%nat -> ceil (S n) * gran (S n) <= ceil m * gran m.
Proof.
  induction 1 as [|m Hm IH]; [lia|]. etransitivity; [exact IH|]. rewrite gran_S. pose proof (ceil_S m) as E. cbv zeta in E.
  pose proof (gran_pos m). pose proof (Z.mod_pos_bound (ceil m) (slots m) (slots_pos m)). destruct (Z.eqb_spec (ceil m `mod` slots m) 0); nia.
Qed.

Lemma vec_slot n q : (n < 5)%nat -> slot n (q `mod` slots n).
Proof. intros Hn. split; [done|]. apply Z.mod_pos_bound, slots_pos. Qed.
Lemma bucket_list n q : (n < 5)%nat -> exists l, L !! vec s n (q `mod` slots n) = Some l /\ bucket n q = times s l.
Proof. intros Hn. destruct (wr_vecs Hr n _ (vec_slot n q Hn)) as [l E]. exists l. split; [done|]. unfold bucket. by rewrite E. Qed.

(** The timers of a list are due in its span. *)
Lemma bucket_due n k e : (n < 5)%nat -> 0 <= k < slots n -> e ∈ bucket n (ceil n + k) ->
  (ceil n + k) * gran n <= due T e < (ceil n + k + 1) * gran n /\ (n <> 0%nat -> 0 <= s32 (e - T)).
Proof.
  intros Hn Hk He. destruct (bucket_list n (ceil n + k) Hn) as (l & El & E). rewrite E in He. apply times_elem in He as (x & t & Hx & Ht & _ & <-).
  destruct (wr_placed Hr _ _ _ _ _ (vec_slot n (ceil n + k) Hn) El Hx Ht) as [(c & Hc & HD) Hs Hf]. split; [|done].
  fold (gran n) in *. pose proof (gran_pos n) as Hg. assert (c = ceil n) as -> by (pose proof (ceil_spec n); nia).
  pose proof (Z.div_mod (due T (expires t)) (gran n) ltac:(lia)) as Hd. pose proof (Z.mod_pos_bound (due T (expires t)) (gran n) Hg) as Hm.
  set (q := due T (expires t) `div` gran n) in *. assert (q = ceil n + k) as Eq; [|nia].
  apply (mod_inj_window (ceil n) (slots n)); [nia|lia|done].
Qed.

(** Every pending timer that is not deferrable is in the list of a span. *)
Definition wakes (e : Z) : Prop := exists x t, timers s !! x = Some t /\ pend s x = true /\ deferrable t = false /\ expires t = e.
Lemma wakes_bucket e : wakes e <-> exists n k, (n < 5)%nat /\ 0 <= k < slots n /\ e ∈ bucket n (ceil n + k).
Proof.
  split.
  - intros (x & t & Ht & Hp & Hd & <-). apply (pend_listed _ _ _ _ _ _ _ _ Hr Ht) in Hp as (h & l & El & Hx); [|set_solver +].
    destruct (wr_heads Hr h l El) as [(n & i & Hi & ->)|H]; [|set_solver +H]. pose proof Hi as [Hn Hi']. pose proof (slots_pos n) as Hs.
    exists n, ((i - ceil n) `mod` slots n). split; [done|]. split; [by apply Z.mod_pos_bound|].
    unfold bucket. rewrite Zplus_mod_idemp_r, Zplus_minus, (Z.mod_small i), El by lia. apply times_elem. by exists x, t.
  - intros (n & k & Hn & Hk & He). destruct (bucket_list n (ceil n + k) Hn) as (l & El & E). rewrite E in He.
    apply times_elem in He as (x & t & Hx & Ht & Hd & <-). exists x, t. split; [done|]. split; [|done].
    apply (pend_listed _ _ _ _ _ _ _ _ Hr Ht); [set_solver +|]. by eexists _, l.
Qed.

(** What the search is to find: no timer is due before [e], and [e] is the time of a timer,
    or the maximum. *)
Definition candidate (e : Z) : Prop := e = u32 (T + NEXT_TIMER_MAX_DELTA) \/ wakes e.
Definition found_ok (e : Z) : Prop := (forall e0, wakes e0 -> due T e <= due T e0) /\ candidate e.

(** [e] is not after the timers of the levels below [n]. *)
Definition beats (n : nat) (e : Z) : Prop :=
  forall m k e0, (m < n)%nat -> 0 <= k < slots m -> e0 ∈ bucket m (ceil m + k) -> due T e <= due T e0.

(** The state of the search when it comes to level [n]. *)
Definition search_ok (n : nat) (found : bool) (e : Z) : Prop :=
  candidate e /\ beats n e /\ - 2 ^ 30 <= s32 (e - T) /\
  if found then due T e < (ceil n + 1) * gran n
  else e = u32 (T + NEXT_TIMER_MAX_DELTA) /\ forall m k, (m < n)%nat -> 0 <= k < slots m -> bucket m (ceil m + k) = [].

(** When the timers of level [n] and those before are not before [e], and [e] is in the
    span [k] of level [n] or before, the search is done unless the span is after the
    next cascade. *)
Lemma search_found n k e : (n < 5)%nat -> 0 <= k < slots n -> candidate e -> beats n e -> - 2 ^ 30 <= s32 (e - T) ->
  (forall j e0, 0 <= j <= k -> e0 ∈ bucket n (ceil n + j) -> due T e <= due T e0) -> due T e < (ceil n + k + 1) * gran n ->
  let i := ceil n `mod` slots n in
  if (i =? 0) || (slots n <=? i + k) then search_ok (S n) true e else found_ok e.
Proof.
  intros Hn Hk Hc Hb Hlate Hj Hd i. pose proof (gran_pos n) as Hg. pose proof (Z.mod_pos_bound (ceil n) (slots n) (slots_pos n)) as Hi. fold i in Hi.
  assert (beats (S n) e) as Hb'.
  { intros m j e0 Hm Hj' He0. destruct (decide (m = n)) as [->|]; [|apply (Hb m j); [lia|done..]].
    destruct (Z.le_gt_cases j k); [apply (Hj j); [lia|done]|]. destruct (bucket_due n j e0 Hn Hj' He0) as [? _]. nia. }
  pose proof (ceil_S n) as HS. cbv zeta in HS. fold i in HS. destruct ((i =? 0) || (slots n <=? i + k)) eqn:E.
  - split; [done|]. split; [done|]. split; [done|]. rewrite gran_S. destruct (Z.eqb_spec i 0); nia.
  - apply orb_false_iff in E as [E1 E2]. rewrite E1 in HS. split; [|done]. intros e0 (m & j & Hm & Hj' & He0)%wakes_bucket.
    destruct (Nat.lt_ge_cases m (S n)) as [|Hge]; [by apply (Hb' m j)|]. destruct (bucket_due m j e0 Hm Hj' He0) as [H0 _].
    pose proof (ceil_up n m ltac:(lia)) as Hup. rewrite gran_S in Hup. pose proof (gran_pos m). nia.
Qed.

(** The index of the list after that of the span [q]; the loop ends when it has seen
    all spans from [c] on. *)
Lemma next_slot n c k (mask := slots n - 1) : 0 <= k < slots n -> Z.land ((c + k) `mod` slots n + 1) mask = (c + (k + 1)) `mod` slots n /\
  ((c + (k + 1)) `mod` slots n =? c `mod` slots n) = (k + 1 =? slots n).
Proof.
  intros Hk. assert (exists b, 0 <= b /\ slots n = 2 ^ b) as (b & Hb & Eb) by (destruct n; [by exists 8|by exists 6]).
  pose proof (slots_pos n) as Hp. unfold mask. split.
  - rewrite Eb at 2. rewrite land_ones_mod, <-Eb, Zplus_mod_idemp_l by done. f_equal. lia.
  - destruct (Z.eqb_spec (k + 1) (slots n)) as [E|E].
    + rewrite E. apply Z.eqb_eq. rewrite <-(Z.mul_1_l (slots n)) at 1. by rewrite Z.mod_add by lia.
    + apply Z.eqb_neq. intros Em. apply E. pose proof (mod_inj_window c (slots n) (c + (k + 1)) c ltac:(lia) ltac:(lia) Em). lia.
Qed.

Lemma tv1_search_run fuel : forall k, 0 <= k < 256 -> Z.of_nat fuel = 256 - k -> (forall j, 0 <= j < k -> bucket 0 (T + j) = []) ->
  exists r, tv1_search fuel (T `mod` 256) ((T + k) `mod` 256) s = Some (r, s) /\
    match r with
    | None => forall j, 0 <= j < 256 -> bucket 0 (T + j) = []
    | Some (sl, e) => exists k', 0 <= k' < 256 /\ sl = (T + k') `mod` 256 /\ e ∈ bucket 0 (T + k') /\ forall j, 0 <= j < k' -> bucket 0 (T + j) = []
    end.
Proof.
  induction fuel as [|fuel IH]; intros k Hk Hf Hj; [lia|]. cbn [tv1_search]. rewrite (bind_run _ _ s s s) by done.
  destruct (bucket_list 0 (T + k) ltac:(lia)) as (l & El & Eb). change (slots 0) with 256 in El.
  mrun (wheel_lists_run _ _ _ _ (heap_first _ _ _ _ (wr_lists Hr) El)). rewrite set_lists_id.
  mrun (first_timer_run [] [] s L T _ Hr _ _ [] l El (walk_length [] [] s L T _ Hr _ _ El)). rewrite <-Eb.
  destruct (bucket 0 (T + k)) as [|e es] eqn:Ek; cbn [head].
  - destruct (next_slot 0 T k Hk) as [E1 E2]. change (slots 0) with 256 in *. change TVR_MASK with (256 - 1). rewrite E1, E2.
    assert (forall j, 0 <= j < k + 1 -> bucket 0 (T + j) = []) as Hj'.
    { intros j Hj'. destruct (decide (j = k)) as [->|]; [done|apply Hj; lia]. }
    destruct (Z.eqb_spec (k + 1) 256); cbn [negb].
    + exists None. split; [done|]. intros j Hj0. apply Hj'. lia.
    + apply IH; [lia|lia|done].
  - exists (Some ((T + k) `mod` 256, e)). split; [done|]. exists k. rewrite Ek. split; [done|]. split; [done|]. split; [set_solver +|done].
Qed.

(** The spans of a level up to the first one that has a timer, or the next one only if a
    timer was found before. *)
Lemma tvn_search_run n found e fuel : (1 <= n < 5)%nat -> forall k, 0 <= k < 64 -> Z.of_nat fuel = 64 - k -> (found = true -> k = 0) ->
  (forall j, 0 <= j < k -> bucket n (ceil n + j) = []) ->
  let i := ceil n `mod` 64 in
  exists k', k <= k' < 64 /\ (found = true -> k' = 0) /\ (forall j, 0 <= j < k' -> bucket n (ceil n + j) = []) /\
    let r := foldl min_step (found, e) (bucket n (ceil n + k')) in
    (r.1 = false -> k' = 63 /\ bucket n (ceil n + 63) = []) /\
    tvn_search fuel n i ((ceil n + k) `mod` 64) found e s = Some (r.1 && negb ((i =? 0) || (64 <=? i + k')), r, s).
Proof.
  intros Hn. induction fuel as [|fuel IH]; intros k Hk Hf Hfd Hj i; [lia|]. cbn [tvn_search]. rewrite (bind_run _ _ s s s) by done.
  destruct (bucket_list n (ceil n + k) ltac:(lia)) as (l & El & Eb). assert (slots n = 64) as E64 by (destruct n; [lia|done]). rewrite E64 in El.
  mrun (wheel_lists_run _ _ _ _ (heap_first _ _ _ _ (wr_lists Hr) El)). rewrite set_lists_id.
  mrun (min_timer_run [] [] s L T _ Hr _ _ [] l (found, e) El (walk_length [] [] s L T _ Hr _ _ El)). rewrite <-Eb.
  assert (((ceil n + k) `mod` 64 <? i) = (64 <=? i + k)) as Esl.
  { pose proof (Z.mod_pos_bound (ceil n) 64 ltac:(lia)). unfold i. rewrite <-Zplus_mod_idemp_l.
    destruct (Z.leb_spec 64 (ceil n `mod` 64 + k)).
    - replace (ceil n `mod` 64 + k) with (ceil n `mod` 64 + k - 64 + 1 * 64) by lia. rewrite Z.mod_add, Z.mod_small by lia. lia.
    - rewrite Z.mod_small by lia. lia. }
  set (r := foldl min_step (found, e) (bucket n (ceil n + k))). destruct r.1 eqn:Er.
  - exists k. split; [lia|]. split; [done|]. split; [done|]. split; [by fold r; rewrite Er|]. fold r. rewrite Er, Esl. destruct (_ || _); [done|done].
  - assert (bucket n (ceil n + k) = [] /\ found = false) as [Ek ->].
    { unfold r in Er. revert Er. destruct (bucket n (ceil n + k)) as [|e0 es]; [by cbn; intros ->|].
      assert (forall es r, r.1 = true -> (foldl min_step r es).1 = true) as Ht by (intros es'; induction es' as [|? ? IH']; intros r0 ?; [done|by apply IH']).
      cbn [foldl]. rewrite Ht by done. done. }
    assert (r = (false, e)) as -> by (unfold r; by rewrite Ek).
    assert (forall j, 0 <= j < k + 1 -> bucket n (ceil n + j) = []) as Hj'.
    { intros j Hj'. destruct (decide (j = k)) as [->|]; [done|apply Hj; lia]. }
    destruct (next_slot n (ceil n) k ltac:(lia)) as [E1 E2]. rewrite E64 in E1, E2. change TVN_MASK with (64 - 1). rewrite E1. fold i in E2. rewrite E2.
    destruct (Z.eqb_spec (k + 1) 64); cbn [negb].
    + assert (k = 63) as -> by lia. exists 63. split; [lia|]. split; [done|]. split; [done|]. rewrite Ek. cbn. done.
    + destruct (IH (k + 1)) as (k' & Hk' & Hfd' & Hj'' & Hrest); [lia|lia|done|done|]. exists k'. split; [lia|]. done.
Qed.

(** One level of the search. *)
Lemma due_key a b : s32 (a - T) <= s32 (b - T) -> due T a <= due T b.
Proof. unfold due. lia. Qed.
Lemma max_key : s32 (u32 (T + NEXT_TIMER_MAX_DELTA) - T) = 2 ^ 30 - 1.
Proof. change NEXT_TIMER_MAX_DELTA with (2 ^ 30 - 1). rewrite <-s32_u32, u32_sub_l. replace (T + (2 ^ 30 - 1) - T) with (2 ^ 30 - 1) by lia. by rewrite s32_u32, s32_small by lia. Qed.
Lemma gran_max n : (n < 5)%nat -> gran n <= 2 ^ 26.
Proof. intros Hn. unfold gran. apply Z.pow_le_mono_r; [lia|]. destruct n; cbn [bits]; lia. Qed.

Lemma level_range n found e k : (1 <= n < 5)%nat -> search_ok n found e -> 0 <= k < 64 -> (found = true -> k = 0) ->
  exists lo hi, hi - lo <= 2 ^ 31 /\ lo <= s32 (e - T) < hi /\ forall e0, e0 ∈ bucket n (ceil n + k) -> lo <= s32 (e0 - T) < hi.
Proof.
  intros Hn (Hc & Hb & Hlate & Hf) Hk Hk0. assert (slots n = 64) as E64 by (destruct n; [lia|done]). destruct found.
  - rewrite (Hk0 eq_refl) in *. pose proof (gran_max n ltac:(lia)). pose proof (gran_pos n). pose proof (ceil_spec n).
    exists (- 2 ^ 30), (2 ^ 27 + 1). split; [lia|]. unfold due in Hf. split; [lia|]. intros e0 He0.
    destruct (bucket_due n 0 e0 ltac:(lia) ltac:(lia) He0) as [Hd Hpos]. specialize (Hpos ltac:(lia)). unfold due in Hd. lia.
  - destruct Hf as [-> _]. exists 0, (2 ^ 31). split; [lia|]. rewrite max_key. split; [lia|]. intros e0 He0.
    destruct (bucket_due n k e0 ltac:(lia) ltac:(lia) He0) as [_ Hpos]. specialize (Hpos ltac:(lia)). pose proof (s32_range (e0 - T)). lia.
Qed.

Lemma level_step n found e k : (1 <= n < 5)%nat -> search_ok n found e -> 0 <= k < 64 -> (found = true -> k = 0) ->
  (forall j, 0 <= j < k -> bucket n (ceil n + j) = []) ->
  let i := ceil n `mod` 64 in let r := foldl min_step (found, e) (bucket n (ceil n + k)) in
  (r.1 = false -> k = 63 /\ bucket n (ceil n + 63) = []) ->
  if r.1 && negb ((i =? 0) || (64 <=? i + k)) then found_ok r.2 else search_ok (S n) r.1 r.2.
Proof.
  intros Hn Hs Hk Hk0 Hj i r Hend. assert (slots n = 64) as E64 by (destruct n; [lia|done]).
  destruct (level_range n found e k Hn Hs Hk Hk0) as (lo & hi & Hlh & He & Hb). pose proof Hs as (Hc & Hbt & Hlate & Hf).
  destruct (min_fold T lo hi (bucket n (ceil n + k)) (found, e) Hlh He Hb) as (H1 & H2 & H3 & H4). fold r in H1, H2, H3, H4. cbn [fst snd] in H1, H2, H3.
  destruct r.1 eqn:Er; cbn [andb].
  - assert (candidate r.2) as Hc'. { destruct H2 as [->|Hin]; [done|]. right. apply wakes_bucket. exists n, k. split; [lia|]. split; [lia|done]. }
    assert (- 2 ^ 30 <= s32 (r.2 - T)) as Hl'.
    { destruct H2 as [->|Hin]; [done|]. destruct (bucket_due n k r.2 ltac:(lia) ltac:(lia) Hin) as [_ Hp]. specialize (Hp ltac:(lia)). lia. }
    pose proof (search_found n k r.2 ltac:(lia) ltac:(lia) Hc') as Hsf. cbv zeta in Hsf. rewrite E64 in Hsf. fold i in Hsf.
    destruct ((i =? 0) || (64 <=? i + k)); cbn [negb]; apply Hsf; clear Hsf; try done.
    1,4: intros m j e0 Hm Hj' He0; etransitivity; [apply due_key, H3|by apply (Hbt m j)].
    1,3: intros j e0 Hj' He0; destruct (decide (j = k)) as [->|]; [by apply due_key, H4|]; rewrite Hj in He0 by lia; set_solver +He0.
    all: destruct found; [rewrite (Hk0 eq_refl), Z.add_0_r; pose proof (due_key _ _ H3); lia|].
    all: destruct (bucket n (ceil n + k)) as [|e0 es] eqn:Ek; [cbn in H1; congruence|].
    all: destruct (bucket_due n k e0 ltac:(lia) ltac:(lia)) as [Hd _]; [rewrite Ek; set_solver +|].
    all: pose proof (due_key _ _ (H4 e0 ltac:(set_solver +))); lia.
  - destruct (Hend eq_refl) as [-> Hemp]. destruct found; [cbn in H1; congruence|].
    assert (r.2 = e) as -> by (destruct H2 as [->|Hin]; [done|]; rewrite Hemp in Hin; set_solver +Hin). destruct Hf as [Hmax Hempty].
    assert (forall m j, (m < S n)%nat -> 0 <= j < slots m -> bucket m (ceil m + j) = []) as Hall.
    { intros m j Hm Hj'. destruct (decide (m = n)) as [->|]; [|apply Hempty; [lia|done]]. destruct (decide (j = 63)) as [->|]; [done|apply Hj; lia]. }
    split; [done|]. split; [|done]. intros m j e0 Hm Hj' He0. rewrite Hall in He0 by done. set_solver +He0.
Qed.

(** The remaining time of the level: [tj] is the number of the first span, up to
    multiples of the number of spans in 2^32 jiffies. *)
Definition tj_ok (n : nat) (tj : Z) : Prop := exists z, tj = ceil n + z * 2 ^ (32 - bits n).

Lemma tj_next n tj : (n < 5)%nat -> tj_ok n tj ->
  Z.land tj (slots n - 1) = ceil n `mod` slots n /\
  tj_ok (S n) (Z.shiftr (if negb (ceil n `mod` slots n =? 0) then u32 (tj + (slots n - ceil n `mod` slots n)) else tj) (match n with O => 8 | _ => 6 end)).
Proof.
  intros Hn (z & ->). set (b := match n with O => 8 | _ => 6 end). assert (slots n = 2 ^ b) as Eb by (by destruct n).
  assert (bits (S n) = bits n + b) as Ebits by (destruct n; cbn [bits]; unfold b; lia).
  assert (0 <= bits n /\ bits n + b <= 32 /\ 0 <= b) as (Hb0 & Hb1 & Hb2) by (destruct n; cbn [bits]; unfold b; lia).
  assert (2 ^ (32 - bits n) = 2 ^ (32 - bits (S n)) * slots n) as Ep by (rewrite Eb, <-Z.pow_add_r by lia; f_equal; lia).
  pose proof (slots_pos n) as Hp. pose proof (ceil_S n) as HS. cbv zeta in HS. set (i := ceil n `mod` slots n) in *. split.
  - rewrite Eb at 1. rewrite land_ones_mod, <-Eb by done. rewrite Ep, Z.mul_assoc, Z.mod_add by lia. done.
  - rewrite Z.shiftr_div_pow2, <-Eb by done.
    assert (forall y w, y = slots n * (ceil (S n) + w * 2 ^ (32 - bits (S n))) -> tj_ok (S n) (y `div` slots n)) as Hdiv.
    { intros y w ->. exists w. rewrite Z.mul_comm, Z.div_mul by lia. done. }
    destruct (Z.eqb_spec i 0) as [Ei|Ei]; cbn [negb].
    + apply (Hdiv _ z). rewrite Ep. lia.
    + unfold u32. set (y := ceil n + z * 2 ^ (32 - bits n) + (slots n - i)).
      pose proof (Z.div_mod y (2 ^ 32) ltac:(lia)) as Dy. apply (Hdiv _ (z - 2 ^ bits n * (y `div` 2 ^ 32))).
      assert (2 ^ 32 = slots n * 2 ^ (32 - bits (S n)) * 2 ^ bits n) as E32 by (rewrite Eb, <-!Z.pow_add_r by lia; f_equal; lia).
      replace (y `mod` 2 ^ 32) with (y - 2 ^ 32 * (y `div` 2 ^ 32)) by lia. rewrite E32 at 1. unfold y at 1. rewrite Ep. nia.
Qed.

Lemma arrays_search_run c : forall n tj found e, (1 <= n)%nat -> (n + c = 5)%nat -> search_ok n found e -> tj_ok n tj ->
  exists e', arrays_search c n tj found e s = Some (e', s) /\ found_ok e'.
Proof.
  induction c as [|c IH]; intros n tj found e Hn Hnc Hs Htj; cbn [arrays_search].
  { exists e. split; [done|]. assert (n = 5%nat) as -> by lia. destruct Hs as (Hc & Hb & _). split; [|done].
    intros e0 (m & k & Hm & Hk & He0)%wakes_bucket. by apply (Hb m k). }
  assert (slots n = 64) as E64 by (destruct n; [lia|done]). destruct (tj_next n tj ltac:(lia) Htj) as [Eidx Htj'].
  change TVN_MASK with (64 - 1). rewrite E64 in Eidx, Htj'. rewrite Eidx.
  destruct (tvn_search_run n found e (Z.to_nat TVN_SIZE) ltac:(lia) 0) as (k & Hk & Hk0 & Hj & Hend & Hrun); [lia|done|done|lia|].
  rewrite Z.add_0_r in Hrun. mrun Hrun. cbn [fst snd].
  pose proof (level_step n found e k ltac:(lia) Hs ltac:(lia) Hk0 Hj Hend) as Hst. cbv zeta in Hst.
  set (r := foldl min_step (found, e) (bucket n (ceil n + k))) in *. destruct (r.1 && negb _) eqn:Eret.
  - exists r.2. done.
  - apply IH; [lia|lia|done|]. destruct n; [lia|]. exact Htj'.
Qed.

(** The whole search.  A timer can be late, but not by more than 2^30 jiffies. *)
Context (Hlate : forall e, wakes e -> - 2 ^ 30 <= s32 (e - T)).

Lemma level0_due k e : 0 <= k < 256 -> e ∈ bucket 0 (T + k) -> due T e = T + k.
Proof.
  intros Hk He. rewrite <-ceil_0 in He at 1. destruct (bucket_due 0 k e ltac:(lia) Hk He) as [Hd _]. rewrite ceil_0 in Hd. change (gran 0) with 1 in Hd. lia.
Qed.

Lemma next_run : exists e, __next_timer_interrupt s = Some (e, s) /\ found_ok e.
Proof.
  unfold __next_timer_interrupt. rewrite (bind_run _ _ s s s) by done. rewrite (wr_now Hr). pose proof ceil_0 as E0.
  assert (tj_ok 0 (u32 T)) as Htj. { exists (- (T `div` 2 ^ 32)). rewrite E0. unfold u32. pose proof (Z.div_mod T (2 ^ 32)). cbn [bits]. lia. }
  destruct (tj_next 0 (u32 T) ltac:(lia) Htj) as [Eidx Htj']. change (slots 0) with 256 in *. rewrite E0 in *. change TVR_MASK with (256 - 1). rewrite Eidx.
  destruct (tv1_search_run (Z.to_nat TVR_SIZE) 0) as (r & Hrun & Hres); [lia|done|lia|]. rewrite Z.add_0_r in Hrun. mrun Hrun.
  destruct r as [[sl e]|].
  - destruct Hres as (k & Hk & -> & He & Hj). pose proof (level0_due k e Hk He) as Hd.
    assert (wakes e) as Hwe. { apply wakes_bucket. exists 0%nat, k. rewrite E0. split; [lia|]. done. }
    pose proof (search_found 0 k e ltac:(lia) Hk ltac:(by right)) as Hsf. cbv zeta in Hsf. change (slots 0) with 256 in Hsf. change (gran 0) with 1 in Hsf. rewrite E0 in Hsf.
    assert (((T + k) `mod` 256 <? T `mod` 256) = (256 <=? T `mod` 256 + k)) as ->.
    { pose proof (Z.mod_pos_bound T 256 ltac:(lia)). rewrite <-Zplus_mod_idemp_l. destruct (Z.leb_spec 256 (T `mod` 256 + k)).
      - replace (T `mod` 256 + k) with (T `mod` 256 + k - 256 + 1 * 256) by lia. rewrite Z.mod_add, Z.mod_small by lia. lia.
      - rewrite Z.mod_small by lia. lia. }
    destruct ((T `mod` 256 =? 0) || (256 <=? T `mod` 256 + k)).
    + apply (arrays_search_run 4 1); [lia|lia| |exact Htj']. apply Hsf; [intros m; lia|by apply Hlate| |lia].
      intros j e0 Hj' He0. rewrite Hd, (level0_due j e0) by (lia || done). destruct (decide (j = k)) as [->|]; [lia|]. rewrite Hj in He0 by lia. set_solver +He0.
    + exists e. split; [done|]. apply Hsf; [intros m; lia|by apply Hlate| |lia].
      intros j e0 Hj' He0. rewrite Hd, (level0_due j e0) by (lia || done). destruct (decide (j = k)) as [->|]; [lia|]. rewrite Hj in He0 by lia. set_solver +He0.
  - rewrite (u32_add_l T NEXT_TIMER_MAX_DELTA). apply (arrays_search_run 4 1); [lia|lia| |exact Htj'].
    assert (forall m k, (m < 1)%nat -> 0 <= k < slots m -> bucket m (ceil m + k) = []) as Hall.
    { intros m k Hm Hk. assert (m = 0%nat) as -> by lia. rewrite E0. by apply Hres. }
    split; [by left|]. split; [intros m k e0 Hm Hk He0; rewrite Hall in He0 by done; set_solver +He0|]. rewrite max_key. split; [lia|done].
Qed.
End search.

(** ** The cached time

    [next_timer] is not after the jiffy at which a timer that is not deferrable is due,
    or it is in the past and will be computed again.  The comparisons that keep it so
    need the times to be within 2^30 jiffies. *)
Definition near (T e : Z) : Prop := - 2 ^ 30 <= s32 (e - T) < 2 ^ 30.
Record cache_ok (s : wheel) (T : Z) : Prop := {
  ca_near : forall e, wakes s e -> near T e;
  ca_next : near T (next_timer s);
  ca_before : forall e, wakes s e -> s32 (next_timer s - T) <= Z.max 0 (s32 (e - T));
}.

Lemma effect_wakes ws s L T x t o s' L' e : effect ws s L T x o s' L' -> timers s !! x = Some t ->
  wakes s' e -> (o = Some e /\ deferrable t = false) \/ wakes s e.
Proof.
  intros Hef Ht (y & t' & Hy & Hp & Hd & <-). pose proof (ef_static _ _ _ _ _ _ _ _ Hef) as Hst.
  assert (pending s' !! y = Some (expires t')) as Hpe by (apply pending_lookup; eauto). rewrite (ef_pending _ _ _ _ _ _ _ _ Hef) in Hpe.
  assert (exists t0, timers s !! y = Some t0 /\ deferrable t0 = deferrable t') as (t0 & Ht0 & Ed).
  { assert ((set_expires 0 <$> timers s) !! y = Some (set_expires 0 t')) as E by (rewrite <-Hst, lookup_fmap, Hy; done).
    rewrite lookup_fmap in E. destruct (timers s !! y) as [t0|]; [|done]. exists t0. split; [done|]. injection E. unfold deferrable. congruence. }
  destruct (decide (y = x)) as [->|Hne].
  - rewrite lookup_partial_alter_eq in Hpe. left. split; [done|]. congruence.
  - rewrite lookup_partial_alter_ne in Hpe by done. apply pending_lookup in Hpe as (t1 & Ht1 & Hp1 & E1). right. exists y, t1.
    split; [done|]. split; [done|]. split; [congruence|done].
Qed.

Lemma s32_refl T : s32 (u32 T - T) = 0.
Proof. rewrite <-s32_u32, u32_sub_l, Z.sub_diag. done. Qed.

(** Deleting and changing a timer keep the cache right. *)
Lemma forget_next_near s T t : timer_jiffies s = u32 T -> near T (next_timer s) -> near T (next_timer (forget_next t s)) /\
  forall e, s32 (next_timer s - T) <= Z.max 0 (s32 (e - T)) -> s32 (next_timer (forget_next t s) - T) <= Z.max 0 (s32 (e - T)).
Proof.
  intros ET Hn. unfold forget_next. destruct (_ && _); [|by split]. cbn [next_timer set_next_timer]. rewrite ET. unfold near. rewrite s32_refl. split; lia.
Qed.
Lemma lower_next_near s T t : near T (next_timer s) -> near T (expires t) -> near T (next_timer (lower_next t s)) /\
  (deferrable t = false -> s32 (next_timer (lower_next t s) - T) <= s32 (expires t - T)) /\
  s32 (next_timer (lower_next t s) - T) <= s32 (next_timer s - T).
Proof.
  unfold near. intros Hn He. unfold lower_next. rewrite (time_before_key T) by lia. destruct (deferrable t); cbn [negb]; rewrite ?andb_true_r, ?andb_false_r.
  - split; [done|]. split; [done|]. lia.
  - destruct (Z.ltb_spec (s32 (expires t - T)) (s32 (next_timer s - T))); cbn [next_timer set_next_timer]; lia.
Qed.

Lemma cache_mod ws s L T x t e s' L' : wheel_ok ws s L T -> cache_ok s T -> timers s !! x = Some t -> near T e -> effect ws s L T x (Some e) s' L' ->
  next_timer s' = next_timer (lower_next (set_expires e t) (if pend s x then forget_next t s else s)) -> cache_ok s' T.
Proof.
  intros Hr [Hnear Hnext Hbef] Ht He Hef En. set (s1 := if pend s x then forget_next t s else s) in *.
  assert (near T (next_timer s1) /\ forall e0, wakes s e0 -> s32 (next_timer s1 - T) <= Z.max 0 (s32 (e0 - T))) as [Hn1 Hb1].
  { unfold s1. destruct (pend s x); [|done]. destruct (forget_next_near s T t (wr_now Hr) Hnext) as [? Hb]. split; [done|]. intros. by apply Hb, Hbef. }
  destruct (lower_next_near s1 T (set_expires e t) Hn1 He) as (H1 & H2 & H3). rewrite <-En in *. split; [|done|].
  - intros e0 Hw. destruct (effect_wakes _ _ _ _ _ _ _ _ _ _ Hef Ht Hw) as [[[= ->] _]|]; auto.
  - intros e0 Hw. destruct (effect_wakes _ _ _ _ _ _ _ _ _ _ Hef Ht Hw) as [[[= ->] Hd]|Hw'].
    + specialize (H2 Hd). cbn [expires set_expires] in H2. lia.
    + specialize (Hb1 _ Hw'). lia.
Qed.
Lemma cache_del ws s L T x t s' L' : wheel_ok ws s L T -> cache_ok s T -> timers s !! x = Some t -> effect ws s L T x None s' L' ->
  next_timer s' = next_timer (forget_next t s) -> cache_ok s' T.
Proof.
  intros Hr [Hnear Hnext Hbef] Ht Hef En. destruct (forget_next_near s T t (wr_now Hr) Hnext) as [H1 H2]. rewrite <-En in *.
  assert (forall e0, wakes s' e0 -> wakes s e0) as Hw by (intros e0 Hw; destruct (effect_wakes _ _ _ _ _ _ _ _ _ _ Hef Ht Hw) as [[? _]|]; done).
  split; [auto|done|]. intros e0 H0. auto.
Qed.
(** So does the time that goes by, as long as the times stay near. *)
Lemma cache_later s s' T T' : cache_ok s T -> T <= T' -> next_timer s' = next_timer s -> (forall e, wakes s' e -> wakes s e) ->
  T' <= T + 2 ^ 30 -> - 2 ^ 30 <= s32 (next_timer s - T) - (T' - T) -> (forall e, wakes s' e -> - 2 ^ 30 <= s32 (e - T) - (T' - T)) -> cache_ok s' T'.
Proof.
  intros [Hnear Hnext Hbef] HT En Hw Hb Hn Hl.
  assert (forall e, near T e -> - 2 ^ 30 <= s32 (e - T) - (T' - T) -> s32 (e - T') = s32 (e - T) - (T' - T)) as Hs.
  { unfold near. intros e He Hl'. destruct (s32_ex (e - T)) as [k E]. apply (s32_shift _ _ (- k)); lia. }
  split.
  - intros e He. unfold near. rewrite Hs by auto. specialize (Hnear e (Hw e He)). unfold near in Hnear. specialize (Hl e He). lia.
  - rewrite En. unfold near. rewrite Hs by auto. unfold near in Hnext. lia.
  - intros e He. rewrite En, !Hs by auto. specialize (Hbef e (Hw e He)). lia.
Qed.

(** ** The next interrupt *)
Lemma s32_ahead N d : - 2 ^ 31 <= d < 2 ^ 31 -> s32 (u32 (u32 N + d) - N) = d.
Proof. intros Hd. destruct (u32_ex N) as [k1 E1], (u32_ex (u32 N + d)) as [k2 E2]. apply (s32_shift _ _ (k1 + k2)); lia. Qed.

Lemma cmp_next_bound hr_delta N x : 1 <= s32 (x - N) -> 1 <= s32 (cmp_next_hrtimer_event hr_delta (u32 N) x - N) <= s32 (x - N).
Proof.
  intros Hx. pose proof (s32_range (x - N)). unfold cmp_next_hrtimer_event. destruct (hr_delta =? KTIME_MAX); [lia|]. destruct (hr_delta <=? 0); [rewrite s32_ahead by lia; lia|].
  set (d := timespec_to_jiffies _). set (d1 := if d >? _ then _ else d). set (d2 := if d1 <? 1 then 1 else d1).
  assert (1 <= d2 <= 2 ^ 30 - 1) as Hd2.
  { unfold d2, d1. change NEXT_TIMER_MAX_DELTA with (2 ^ 30 - 1). rewrite Z.gtb_ltb. destruct (Z.ltb_spec (2 ^ 30 - 1) d); [done|]. destruct (Z.ltb_spec d 1); lia. }
  clearbody d2. rewrite (time_before_key N) by (rewrite s32_ahead by lia; lia). rewrite s32_ahead by lia.
  destruct (Z.ltb_spec d2 (s32 (x - N))); [rewrite s32_ahead by lia|]; lia.
Qed.

(** From the next jiffy of the wheel to the time of the caller. *)
Lemma key_shift T N x : T - 1 <= N < T + 2 ^ 30 -> near T x -> s32 (x - N) = s32 (x - T) - (N - T).
Proof.
  unfold near. intros HN Hx. destruct (s32_ex (x - T)) as [k E]. apply (s32_shift _ _ (- k)); lia.
Qed.

Lemma refresh_run s L T : wheel_ok [] s L T -> cache_ok s T -> exists s1,
  (if time_before_eq (next_timer s) (timer_jiffies s) then e ← __next_timer_interrupt; modify (set_next_timer e) else mret tt) s = Some (tt, s1) /\
  wheel_ok [] s1 L T /\ cache_ok s1 T /\
  (if time_before_eq (next_timer s) (timer_jiffies s) then exists e, s1 = set_next_timer e s /\ candidate s T e else s1 = s) /\
  (forall e0, wakes s e0 -> s32 (next_timer s1 - T) <= Z.max 0 (s32 (e0 - T))).
Proof.
  intros Hr Hc. destruct Hc as [Hnear Hnext Hbef]. destruct (time_before_eq _ _); [|by exists s].
  destruct (next_run s L T Hr) as (e & Hrun & Hfound & Hcand); [intros e He; apply (Hnear e He)|].
  exists (set_next_timer e s). mrun Hrun. split; [done|]. split; [apply (same_wheel_rep [] [] s); [by repeat split|done]|].
  assert (forall e0, wakes s e0 -> s32 (e - T) <= Z.max 0 (s32 (e0 - T))) as Hb by (intros e0 He0; specialize (Hfound e0 He0); unfold due in Hfound; lia).
  split; [split|split]; [done| |done|by exists e|done].
  cbn [next_timer set_next_timer]. destruct Hcand as [->|Hw]; [unfold near; rewrite max_key; lia|by apply Hnear].
Qed.

(** The wheel of the demonstration has one pending timer, ten jiffies ahead. *)
Lemma demo1_wakes e : wakes demo1 e -> e = 4.
Proof.
  assert (map_Forall (λ x t, pend demo1 x = true -> deferrable t = false -> expires t = 4) (timers demo1)) as H by (apply (bool_decide_unpack _); vm_compute; exact I).
  intros (x & t & Ht & Hp & Hd & <-). by apply (H x t).
Qed.
Lemma demo1_cache : cache_ok demo1 (jiffies demo_boot).
Proof.
  split.
  - intros e ->%demo1_wakes. vm_compute. by split.
  - vm_compute. by split.
  - intros e ->%demo1_wakes. vm_compute. done.
Qed.
Lemma demo1_wheel : exists L, wheel_ok [] demo1 L (jiffies demo_boot).
Proof. destruct demo1_at_boot as (L & Hr & _). by exists L. Qed.

(** The search for the next timer terminates without an oops, changes nothing, and finds a time at which no timer that is not deferrable is due any earlier; it is the time of such a timer, or the longest time there can be without one. *)
Theorem next_timer_interrupt_correct s L T : wheel_ok [] s L T -> (forall e, wakes s e -> - 2 ^ 30 <= s32 (e - T)) ->
  exists e, __next_timer_interrupt s = Some (e, s) /\ (forall e0, wakes s e0 -> due T e <= due T e0) /\ (e = u32 (T + NEXT_TIMER_MAX_DELTA) \/ wakes s e).
Proof. intros Hr Hl. destruct (next_run s L T Hr Hl) as (e & Hrun & Hf & Hc). by exists e. Qed.

Lemma next_timer_interrupt_witness : exists L, wheel_ok [] demo1 L (jiffies demo_boot) /\ exists e, __next_timer_interrupt demo1 = Some (e, demo1).
Proof.
  destruct demo1_wheel as [L Hr]. exists L. split; [exact Hr|]. destruct (next_timer_interrupt_correct demo1 L (jiffies demo_boot) Hr) as (e & Hrun & _).
  - intros e He. destruct (ca_near _ _ demo1_cache e He) as [Hl _]. exact Hl.
  - exists e. exact Hrun.
Defined.

Lemma before_eq_key T N x : T - 1 <= N < T + 2 ^ 30 -> near T x -> time_before_eq x (u32 N) = (s32 (x - N) <=? 0).
Proof.
  intros HN Hx. pose proof (key_shift T N x HN Hx) as Hk. unfold near in Hx.
  assert (s32 (u32 N - x) = - s32 (x - N)) as E; [|unfold time_before_eq, time_after_eq; rewrite E; lia].
  destruct (u32_ex N) as [k1 E1], (s32_ex (x - N)) as [k2 E2]. apply (s32_shift _ _ (k1 + k2)); lia.
Qed.
(** The time that is returned, from the cached time. *)
Lemma next_interrupt_run s L T N hr_delta : wheel_ok [] s L T -> cache_ok s T -> T - 1 <= N < T + 2 ^ 30 ->
  exists s', get_next_timer_interrupt hr_delta 0 (u32 N) s =
      Some (if s32 (next_timer s' - N) <=? 0 then u32 N else cmp_next_hrtimer_event hr_delta (u32 N) (next_timer s'), s') /\
    wheel_ok [] s' L T /\ cache_ok s' T /\ s32 (next_timer s' - N) = s32 (next_timer s' - T) - (N - T) /\
    (if time_before_eq (next_timer s) (timer_jiffies s) then exists e, s' = set_next_timer e s /\ candidate s T e else s' = s) /\
    (forall e0, wakes s e0 -> s32 (next_timer s' - T) <= Z.max 0 (s32 (e0 - T))).
Proof.
  intros Hr Hc HN. destruct (refresh_run s L T Hr Hc) as (s1 & Hrun & Hr1 & Hc1 & Hcand & Hb). exists s1.
  pose proof (key_shift T N (next_timer s1) HN (ca_next _ _ Hc1)) as Hk. split; [|done].
  unfold get_next_timer_interrupt. change (cpu_is_offline 0) with false. cbn iota. rewrite (bind_run _ _ s s s) by done. mrun Hrun.
  rewrite (bind_run _ _ s1 s1 s1) by done. set (x := next_timer s1) in *.
  by rewrite (before_eq_key T N x HN (ca_next _ _ Hc1)).
Qed.

(** An idle CPU does not sleep past a timer.  For a wheel with a right cache, [get_next_timer_interrupt] returns a time that is not before now and not after the jiffy at which any pending timer that is not deferrable is due, whatever the next event of the high-resolution timers is, and leaves the cache right.  When there is no such event and the cache is stale, the time is that of a timer, or the maximum, or now. *)
Theorem get_next_timer_interrupt_correct s L T N hr_delta : wheel_ok [] s L T -> cache_ok s T -> T - 1 <= N < T + 2 ^ 30 ->
  exists r s', get_next_timer_interrupt hr_delta 0 (u32 N) s = Some (r, s') /\ wheel_ok [] s' L T /\ cache_ok s' T /\
    0 <= s32 (r - N) /\ (forall e0, wakes s e0 -> N + s32 (r - N) <= Z.max N (due T e0)) /\
    (hr_delta = KTIME_MAX -> time_before_eq (next_timer s) (timer_jiffies s) = true ->
     exists e, (e = u32 (T + NEXT_TIMER_MAX_DELTA) \/ wakes s e) /\ r = if time_before_eq e (u32 N) then u32 N else e).
Proof.
  intros Hr Hc HN. destruct (next_interrupt_run s L T N hr_delta Hr Hc HN) as (s1 & Hrun & Hr1 & Hc1 & Hk & Hcand & Hb).
  eexists _, s1. split; [exact Hrun|]. split; [done|]. split; [done|]. set (x := next_timer s1) in *.
  destruct (Z.leb_spec (s32 (x - N)) 0) as [Hle|Hgt].
  - rewrite s32_refl. split; [lia|]. split; [intros e0 _; lia|]. intros _ Hst. rewrite Hst in Hcand. destruct Hcand as (e & E1 & Hcand).
    exists e. split; [exact Hcand|]. assert (e = x) as -> by (unfold x; by rewrite E1). by rewrite (before_eq_key T N x HN (ca_next _ _ Hc1)), (proj2 (Z.leb_le _ _) Hle).
  - pose proof (cmp_next_bound hr_delta N x ltac:(lia)) as Hcmp. split; [lia|]. split.
    + intros e0 He0. specialize (Hb e0 He0). unfold due. lia.
    + intros -> Hst. rewrite Hst in Hcand. destruct Hcand as (e & E1 & Hcand). exists e. split; [exact Hcand|]. assert (e = x) as -> by (unfold x; by rewrite E1).
      rewrite (before_eq_key T N x HN (ca_next _ _ Hc1)), (proj2 (Z.leb_gt _ _) Hgt). reflexivity.
Qed.

Lemma get_next_timer_interrupt_witness : exists L, wheel_ok [] demo1 L (jiffies demo_boot) /\ exists r s',
  get_next_timer_interrupt (5 * 2 ^ 32) 0 (u32 (jiffies demo_boot)) demo1 = Some (r, s') /\ cache_ok s' (jiffies demo_boot).
Proof.
  destruct demo1_wheel as [L Hr]. exists L. split; [exact Hr|].
  destruct (get_next_timer_interrupt_correct demo1 L (jiffies demo_boot) (jiffies demo_boot) (5 * 2 ^ 32) Hr demo1_cache) as (r & s' & Hrun & _ & Hc & _); [lia|].
  exists r, s'. split; [exact Hrun|exact Hc].
Defined.

(** the cached time stays right.  [mod_timer] and [del_timer] keep [next_timer] at or before the times of the pending timers that are not deferrable, or in the past, if all times are within 2^30 jiffies. *)
Theorem next_timer_cached s L T x t e : wheel_ok [] s L T -> cache_ok s T -> timers s !! x = Some t -> 0 <= e < 2 ^ 32 ->
  (forall e', mod_timer_effect s x t e = Some e' -> near T e') ->
  (exists r s' L', mod_timer x e s = Some (r, s') /\ wheel_ok [] s' L' T /\ cache_ok s' T) /\
  (exists r s' L', del_timer x s = Some (r, s') /\ wheel_ok [] s' L' T /\ cache_ok s' T).
Proof.
  intros Hr Hc Ht He Hnear. split.
  - destruct (mod_timer_run [] s L T x t e Hr Ht He) as (s' & L' & Hrun & Hef). eexists _, s', L'. split; [exact Hrun|].
    destruct (mod_timer_effect s x t e) as [e'|]; [|destruct Hef as [-> ->]; done]. destruct Hef as [Hef En].
    split; [by destruct Hef|]. by eapply cache_mod; [exact Hr|..]; auto.
  - destruct (pend s x) eqn:Hp.
    + destruct (del_run [] s L T x t Hr Ht Hp) as (s' & L' & Hrun & Hef & En). eexists _, s', L'. split; [exact Hrun|]. split; [by destruct Hef|]. by eapply cache_del.
    + exists 0, s, L. split; [by eapply del_idle_run|]. done.
Qed.

Lemma next_timer_cached_witness : exists L, wheel_ok [] demo1 L (jiffies demo_boot) /\ exists r s' L',
  mod_timer 300 2000 demo1 = Some (r, s') /\ wheel_ok [] s' L' (jiffies demo_boot) /\ cache_ok s' (jiffies demo_boot).
Proof.
  destruct demo1_wheel as [L Hr]. exists L. split; [exact Hr|].
  assert (timers demo1 !! 300 = Some (TimerList 0 4096 2 30 (-1))) as Ht by (vm_compute; reflexivity).
  assert (forall e', mod_timer_effect demo1 300 (TimerList 0 4096 2 30 (-1)) 2000 = Some e' -> near (jiffies demo_boot) e') as Hn.
  { intros e' E. vm_compute in E. injection E as <-. vm_compute. split; [discriminate|reflexivity]. }
  destruct (next_timer_cached demo1 L (jiffies demo_boot) 300 _ 2000 Hr demo1_cache Ht ltac:(lia) Hn) as [H _]. exact H.
Defined.

(** [round_jiffies_common] returns its argument, when rounding would leave no time, or a later time than now that is less than a quarter of a second before the argument and at most a second after it, and with [force_up] only after it.  With the skew of the CPU added, it is a whole number of seconds. *)
Theorem round_jiffies_correct jiffies j cpu force_up : 0 <= j < 2 ^ 32 -> 0 <= jiffies < 2 ^ 32 ->
  let r := round_jiffies_common jiffies j cpu force_up in
  r = j \/
  (jiffies < r < 2 ^ 32 /\ - (HZ `div` 4) < s32 (r - j) <= HZ /\ (force_up = true -> 0 < s32 (r - j)) /\ exists k, 0 <= k * HZ < 2 ^ 32 + HZ /\ r = u32 (k * HZ - cpu * 3)).
Proof.
  intros Hj Hjif r. unfold round_jiffies_common in r. change (HZ `div` 4) with 250 in *. change HZ with 1000 in *.
  set (m := u32 (j + cpu * 3)) in *. pose proof (u32_range (j + cpu * 3)) as Hm. fold m in Hm.
  pose proof (Z.div_mod m 1000 ltac:(lia)) as Dm. pose proof (Z.mod_pos_bound m 1000 ltac:(lia)) as Mm. set (q := m `div` 1000) in *. set (rem := m `mod` 1000) in *.
  set (up := negb ((rem <? 250) && negb force_up)). set (k := q + if up then 1 else 0).
  assert (r = if u32 (k * 1000 - cpu * 3) <=? jiffies then j else u32 (k * 1000 - cpu * 3)) as ->.
  { unfold r, k, up. destruct ((rem <? 250) && negb force_up); cbn [negb].
    - replace (m - rem) with ((q + 0) * 1000) by lia. done.
    - rewrite u32_sub_l. by replace (m - rem + 1000) with ((q + 1) * 1000) by lia. }
  destruct (Z.leb_spec (u32 (k * 1000 - cpu * 3)) jiffies) as [|Hgt]; [by left|]. right.
  assert (s32 (u32 (k * 1000 - cpu * 3) - j) = k * 1000 - m) as ->.
  { destruct (u32_ex (k * 1000 - cpu * 3)) as [k1 ->], (u32_ex (j + cpu * 3)) as [k2 E2]. fold m in E2. apply (s32_shift _ _ (k1 + k2)); [|lia].
    unfold k. destruct up; lia. }
  pose proof (u32_range (k * 1000 - cpu * 3)). split; [lia|]. unfold k, up in *. split; [destruct (Z.ltb_spec rem 250), force_up; cbn; lia|].
  split; [intros ->; rewrite andb_false_r; cbn; lia|]. exists k. split; [|done]. unfold k, up. destruct (negb _); lia.
Qed.
Lemma round_jiffies_witness : round_jiffies_common 5000 8100 0 false = 8000 /\ round_jiffies_common 5000 8100 0 true = 9000.
Proof.
  pose proof (round_jiffies_correct 5000 8100 0 true) as H. destruct H as [H|(_ & _ & H & _)]; [lia|lia|exfalso; vm_compute in H; discriminate|].
  split; [vm_compute; reflexivity|]. specialize (H eq_refl). vm_compute. reflexivity.
Defined.

End TimerNext.
