(* ===== verification/TimerIdle.v ===== *)
(** * The timer wheel: a CPU that goes idle

    The theorems of TimerNext.v are about one call of [get_next_timer_interrupt] on a
    wheel whose cached time is right.  This file shows that it is right: over any history
    of code that uses timers, of ticks and of earlier idle periods from boot on, with the
    timer functions that the ticks call, [next_timer] is not after any timer that
    must wake the CPU, and if it is not in the past it is the time of such a timer, or
    the maximum that an earlier call returned.  The histories last less than 2^28
    jiffies and use expiry times of the same span, so that no comparison of times wraps
    around. *)
From stdpp Require Import prelude gmap list.
From Stdlib Require Import ZArith Lia ZifyBool.
From S2P Require Import Prelude ListHead ListHeap Time TimerWheel TimerRun TimerNext.
Open Scope Z_scope.

Module TimerIdle.
Import Time Timer TimerRun TimerNext.

(** ** Histories with idle periods *)
Inductive idle_event := Ev (e : event) | Idle (hr_delta : Z).
Section code.
Context (work_list tv_list : Z) (handler : Z -> Z -> prog).
Definition run_idle_event (e : idle_event) : TM unit :=
  match e with
  | Ev e => run_event work_list tv_list handler e
  | Idle hr_delta => s ← get; get_next_timer_interrupt hr_delta 0 (jiffies s) ;; mret tt
  end.
Fixpoint run_idle_events (es : list idle_event) : TM unit :=
  match es with [] => mret tt | e :: es => run_idle_event e ;; run_idle_events es end.
End code.

(** The expiry times of a program are in the 2^28 jiffies from [B] on. *)
Fixpoint prog_within (B : Z) (p : prog) : Prop :=
  match p with
  | Done => True
  | ModTimer _ e k | ModTimerPinned _ e k | ModTimerPending _ e k => 0 <= s32 (e - B) < 2 ^ 28 /\ forall r, prog_within B (k r)
  | DelTimer _ k => forall r, prog_within B (k r)
  | TimerPending _ k => forall r, prog_within B (k r)
  end.
Definition idle_event_ok (K : Z -> Prop) (B : Z) (e : idle_event) : Prop :=
  match e with Ev (Use p) => prog_ok K p /\ prog_within B p | Ev (Tick n) => 0 <= n | Idle _ => True end.
Fixpoint total_ticks (es : list idle_event) : Z :=
  match es with [] => 0 | Ev (Tick n) :: es => n + total_ticks es | _ :: es => total_ticks es end.

(** ** The invariant *)
Record idle_ok (B : Z) (s : wheel) (T : Z) : Prop := {
  id_span : B <= T <= B + 2 ^ 28;
  id_cache : cache_ok s T;
  id_wakes : forall e, wakes s e -> B - T <= s32 (e - T);
  id_next : B - T <= s32 (next_timer s - T);
  id_exact : s32 (next_timer s - T) <= 0 \/ wakes s (next_timer s) \/ 2 ^ 30 - 1 - (T - B) <= s32 (next_timer s - T);
  id_slack : forall x t, timers s !! x = Some t -> slack t < 2 ^ 28;
}.

Section steps.
Context (B : Z).
Implicit Types (s : wheel) (L : heads) (T x e : Z) (t : timer_list).

(** A timer that is not touched still wakes the CPU, and so does one that is started. *)
Lemma effect_keeps ws s L T x o s' L' y t : effect ws s L T x o s' L' -> y <> x -> timers s !! y = Some t -> pend s y = true ->
  deferrable t = false -> wakes s' (expires t).
Proof.
  intros Hef Hne Ht Hp Hd. assert (pending s' !! y = Some (expires t)) as Hpe.
  { rewrite (ef_pending _ _ _ _ _ _ _ _ Hef), lookup_partial_alter_ne by done. apply pending_lookup. eauto. }
  apply pending_lookup in Hpe as (t' & Ht' & Hp' & E). exists y, t'. split_and!; [done|done| |done].
  assert ((set_expires 0 <$> timers s') !! y = (set_expires 0 <$> timers s) !! y) as Est by (by rewrite (ef_static _ _ _ _ _ _ _ _ Hef)).
  rewrite !lookup_fmap, Ht, Ht' in Est. injection Est. unfold deferrable in *. congruence.
Qed.
Lemma effect_starts ws s L T x e s' L' t : effect ws s L T x (Some e) s' L' -> timers s !! x = Some t -> deferrable t = false -> wakes s' e.
Proof.
  intros Hef Ht Hd. assert (pending s' !! x = Some e) as Hpe by (by rewrite (ef_pending _ _ _ _ _ _ _ _ Hef), lookup_partial_alter_eq).
  apply pending_lookup in Hpe as (t' & Ht' & Hp' & E). exists x, t'. split_and!; [done|done| |done].
  assert ((set_expires 0 <$> timers s') !! x = (set_expires 0 <$> timers s) !! x) as Est by (by rewrite (ef_static _ _ _ _ _ _ _ _ Hef)).
  rewrite !lookup_fmap, Ht, Ht' in Est. injection Est. unfold deferrable in *. congruence.
Qed.
Lemma static_slack s s' : set_expires 0 <$> timers s' = set_expires 0 <$> timers s -> (forall x t, timers s !! x = Some t -> slack t < 2 ^ 28) ->
  forall x t, timers s' !! x = Some t -> slack t < 2 ^ 28.
Proof.
  intros E Hs x t' Ht'. assert ((set_expires 0 <$> timers s') !! x = (set_expires 0 <$> timers s) !! x) as Est by (by rewrite E).
  rewrite !lookup_fmap, Ht' in Est. destruct (timers s !! x) as [t|] eqn:Ht; [|done]. injection Est. intros. specialize (Hs _ _ Ht). lia.
Qed.

(** What [forget_next] does: the cached time is not that of the timer any more, unless
    it is in the past. *)
Lemma forget_cases s L ws T x t : wheel_ok ws s L T -> timers s !! x = Some t -> idle_ok B s T ->
  let n := next_timer (forget_next t s) in
  B - T <= s32 (n - T) /\ (s32 (n - T) <= 0 \/ (n = next_timer s /\ (deferrable t = true \/ expires t <> n))).
Proof.
  intros Hr Ht [Hspan _ _ Hn _ _]. unfold forget_next. destruct (Z.eqb_spec (expires t) (next_timer s)) as [E|E], (deferrable t) eqn:Hd; cbn [andb negb].
  - split; [done|]. right. auto.
  - cbn. rewrite (wr_now Hr), s32_refl. lia.
  - split; [done|]. right. auto.
  - split; [done|]. right. auto.
Qed.
(** The cached time after a timer is taken from the wheel, before it is put back. *)
Definition lifted_next s x t : Z := next_timer (if pend s x then forget_next t s else s).
Lemma lifted_cases s L ws T x t o s' L' : wheel_ok ws s L T -> timers s !! x = Some t -> idle_ok B s T -> effect ws s L T x o s' L' ->
  B - T <= s32 (lifted_next s x t - T) /\
  (s32 (lifted_next s x t - T) <= 0 \/ wakes s' (lifted_next s x t) \/ 2 ^ 30 - 1 - (T - B) <= s32 (lifted_next s x t - T)).
Proof.
  intros Hr Ht Hj Hef. unfold lifted_next. destruct (pend s x) eqn:Hp.
  - destruct (forget_cases s L ws T x t Hr Ht Hj) as [Hlow [Hst|[En Hne]]]; [by auto|]. split; [done|]. rewrite En in *.
    destruct (id_exact _ _ _ Hj) as [?|[(y & ty & Hy & Hpy & Hdy & Ey)|?]]; [by auto| |by auto]. right; left.
    assert (y <> x) as Hyx by (intros ->; rewrite Ht in Hy; injection Hy as <-; destruct Hne; congruence).
    rewrite <-Ey. by eapply effect_keeps.
  - cbn iota. split; [exact (id_next _ _ _ Hj)|]. destruct (id_exact _ _ _ Hj) as [?|[(y & ty & Hy & Hpy & Hdy & Ey)|?]]; [by left| |by right; right]. right; left.
    rewrite <-Ey. apply (effect_keeps ws s L T x o s' L' y ty); [done|intros ->; congruence|done..].
Qed.

Lemma idle_mod ws s L T x t e s' L' : wheel_ok ws s L T -> idle_ok B s T -> timers s !! x = Some t -> near T e -> B - T <= s32 (e - T) ->
  effect ws s L T x (Some e) s' L' -> next_timer s' = next_timer (lower_next (set_expires e t) (if pend s x then forget_next t s else s)) -> idle_ok B s' T.
Proof.
  intros Hr Hj Ht He Hlow Hef En. destruct (lifted_cases s L ws T x t _ s' L' Hr Ht Hj Hef) as [H1 H2]. unfold lifted_next in *.
  split; [apply Hj|by eapply (cache_mod ws s L T x t e s' L'); [done|apply Hj|..]| | | |].
  - intros e0 Hw. destruct (effect_wakes _ _ _ _ _ _ _ _ _ _ Hef Ht Hw) as [[[= ->] _]|Hw']; [done|by apply Hj].
  - rewrite En. unfold lower_next. destruct (_ && _); [done|done].
  - rewrite En. unfold lower_next. destruct (_ && _) eqn:Eb; [|done]. right; left. cbn [next_timer set_next_timer expires set_expires].
    apply andb_true_iff in Eb as [_ Hd]. eapply effect_starts; [done|done|]. by apply negb_true_iff.
  - eapply static_slack; [apply Hef|apply Hj].
Qed.
Lemma idle_del ws s L T x t s' L' : wheel_ok ws s L T -> idle_ok B s T -> timers s !! x = Some t -> pend s x = true ->
  effect ws s L T x None s' L' -> next_timer s' = next_timer (forget_next t s) -> idle_ok B s' T.
Proof.
  intros Hr Hj Ht Hp Hef En. destruct (lifted_cases s L ws T x t _ s' L' Hr Ht Hj Hef) as [H1 H2]. unfold lifted_next in *. rewrite Hp, <-En in *.
  split; [apply Hj|by eapply (cache_del ws s L T x t s' L'); [done|apply Hj|..]| |done|done|].
  - intros e0 Hw. destruct (effect_wakes _ _ _ _ _ _ _ _ _ _ Hef Ht Hw) as [[? _]|Hw']; [done|by apply Hj].
  - eapply static_slack; [apply Hef|apply Hj].
Qed.
(** A timer that is called: its time has come. *)
Lemma idle_detach ws s L T x t s' L' : idle_ok B s T -> timers s !! x = Some t -> (deferrable t = false -> s32 (expires t - T) <= 0) ->
  effect ws s L T x None s' L' -> next_timer s' = next_timer s -> idle_ok B s' T.
Proof.
  intros Hj Ht Hle Hef En. assert (forall e, wakes s' e -> wakes s e) as Hw.
  { intros e Hw. by destruct (effect_wakes _ _ _ _ _ _ _ _ _ _ Hef Ht Hw) as [[? _]|]. }
  destruct Hj as [Hspan [Hnear Hnext Hbef] Hwk Hn Hex Hsl]. split; rewrite ?En; auto.
  - split; rewrite ?En; auto.
  - destruct Hex as [?|[(y & ty & Hy & Hp & Hd & E)|?]]; [by left| |by right; right]. destruct (decide (y = x)) as [->|Hne]; [left; rewrite <-E; assert (ty = t) as -> by congruence; by apply Hle|].
    right; left. rewrite <-E. by eapply effect_keeps.
  - eapply static_slack; [apply Hef|done].
Qed.

(** The next jiffy. *)
Lemma wakes_same s s' : timers s' = timers s -> pending s' = pending s -> forall e, wakes s' e <-> wakes s e.
Proof.
  intros Et Ep. assert (forall a b e, timers a = timers b -> pending a = pending b -> wakes a e -> wakes b e) as H; [|by split; apply H].
  intros a b e Eab Epb (x & t & Hx & Hp & Hd & <-). assert (pending b !! x = Some (expires t)) as Hpb by (rewrite <-Epb; apply pending_lookup; eauto).
  apply pending_lookup in Hpb as (t' & Ht' & Hp' & _). exists x, t'. rewrite <-Eab in Ht'. assert (t' = t) as -> by congruence. by rewrite <-Eab.
Qed.
Lemma key_next T e : - 2 ^ 30 <= s32 (e - T) -> s32 (e - (T + 1)) = s32 (e - T) - 1.
Proof. intros H. pose proof (s32_range (e - T)). destruct (s32_ex (e - T)) as [k E]. apply (s32_shift _ _ (- k)); lia. Qed.
Lemma idle_same s s' T : idle_ok B s T -> timers s' = timers s -> pending s' = pending s -> next_timer s' = next_timer s -> idle_ok B s' T.
Proof.
  intros [Hspan [Hnear Hnext Hbef] Hwk Hn Hex Hsl] Et Ep En. pose proof (wakes_same s s' Et Ep) as Hw.
  split; [done|split; [|by rewrite En|]| |by rewrite En|by rewrite En, Hw|by rewrite Et]; intros e He%Hw; rewrite ?En; auto.
Qed.
Lemma idle_later s s' T : idle_ok B s T -> T < B + 2 ^ 28 -> timers s' = timers s -> pending s' = pending s -> next_timer s' = next_timer s -> idle_ok B s' (T + 1).
Proof.
  intros [Hspan Hc Hwk Hn Hex Hsl] HT Et Ep En. pose proof (wakes_same s s' Et Ep) as Hw. pose proof (ca_near _ _ Hc) as Hnear. pose proof (ca_next _ _ Hc) as Hnext.
  assert (s32 (next_timer s - (T + 1)) = s32 (next_timer s - T) - 1) as Ek by (apply key_next; apply Hnext).
  split; rewrite ?En, ?Ek.
  - lia.
  - apply (cache_later s s' T); [done|lia|done|intros e He; by apply Hw|lia|lia|]. intros e He%Hw. specialize (Hwk e He). lia.
  - intros e He%Hw. specialize (Hwk e He). rewrite key_next by (apply (Hnear e He)). lia.
  - lia.
  - rewrite Hw. destruct Hex as [?|[?|?]]; [left; lia|by right; left|right; right; lia].
  - by rewrite Et.
Qed.

(** The expiry times of programs, with the slack of the timers. *)
Lemma within_near T e : B <= T <= B + 2 ^ 28 -> 0 <= s32 (e - B) < 2 ^ 30 -> near T e /\ B - T <= s32 (e - T).
Proof.
  intros HT He. unfold near. destruct (s32_ex (e - B)) as [k E].
  assert (s32 (e - T) = s32 (e - B) - (T - B)) as -> by (apply (s32_shift _ _ (- k)); lia). lia.
Qed.
Lemma slack_within now sl e : 0 <= e < 2 ^ 32 -> sl < 2 ^ 28 -> 0 <= s32 (e - B) < 2 ^ 28 -> 0 <= s32 (apply_slack now sl e - B) < 2 ^ 30.
Proof.
  intros He Hs Hb. destruct (apply_slack_correct now sl e He ltac:(lia)) as (q & -> & Hq & _).
  assert (slack_room now sl e <= 2 ^ 28) as Hroom.
  { unfold slack_room. destruct (0 <=? sl); [lia|]. destruct (time_after e now) eqn:Et; [|lia]. unfold time_after in Et.
    apply Z.div_le_upper_bound; [lia|]. pose proof (u32_range (e - now)). lia. }
  destruct (u32_ex q) as [k1 E1], (s32_ex (e - B)) as [k2 E2].
  assert (s32 (u32 q - B) = s32 (e - B) + (q - e)) as -> by (apply (s32_shift _ _ (k1 - k2)); lia). lia.
Qed.
End steps.

(** ** Programs *)
Section running.
Context (B w : Z) (here : bool) (ws : list Z).
Implicit Types (s : wheel) (L : heads) (T x e : Z) (t : timer_list) (l : list Z).

(** The timers of the list on the stack that are not deferrable are due. *)
Definition all_due s T l : Prop := forall x t e, x ∈ l -> (set_expires 0 <$> timers s) !! x = Some t -> deferrable t = false -> pending s !! x = Some e -> s32 (e - T) <= 0.
Definition running s L T l : Prop := work_ok w here ws s L T l /\ idle_ok B s T /\ all_due s T l.
Definition runs s T l s' L' l' : Prop :=
  running s' L' T l' /\ (length l' <= length l)%nat /\ set_expires 0 <$> timers s' = set_expires 0 <$> timers s /\ jiffies s' = jiffies s.

Lemma runs_none s L T l : running s L T l -> runs s T l s L l.
Proof. by split. Qed.
Lemma runs_effect s L T l x o s' L' : running s L T l -> effect ws s L T x o s' L' -> idle_ok B s' T -> runs s T l s' L' (filter (λ y, y <> x) l).
Proof.
  intros (Hw & _ & Hd) Hef Hj. destruct (effect_abst w here ws s L T l x o s' L' Hw Hef) as [Hw' _]. split_and!; [|apply length_filter|apply Hef|apply Hef].
  split_and!; [done|done|]. intros y t e [Hne Hy]%list_elem_of_filter. rewrite (ef_pending _ _ _ _ _ _ _ _ Hef), (ef_static _ _ _ _ _ _ _ _ Hef), lookup_partial_alter_ne by done. by apply Hd.
Qed.
Lemma runs_trans s T l s1 L1 l1 s2 L2 l2 : runs s T l s1 L1 l1 -> runs s1 T l1 s2 L2 l2 -> runs s T l s2 L2 l2.
Proof. intros (_ & ? & ? & ?) (? & ? & ? & ?). split_and!; [done|lia|congruence|congruence]. Qed.

Lemma exec_idle (K : Z -> Prop) p : prog_ok K p -> prog_within B p -> forall s L T l, running s L T l -> (forall x, K x -> is_Some (timers s !! x)) ->
  exists s' L' l', exec p s = Some (tt, s') /\ runs s T l s' L' l'.
Proof.
  assert (forall q s T l s1 L1 l1, runs s T l s1 L1 l1 -> (forall x, K x -> is_Some (timers s !! x)) ->
    (forall s L T l, running s L T l -> (forall x, K x -> is_Some (timers s !! x)) -> exists s' L' l', exec q s = Some (tt, s') /\ runs s T l s' L' l') ->
    exists s' L' l', exec q s1 = Some (tt, s') /\ runs s T l s' L' l') as Hnext.
  { intros q s T l s1 L1 l1 Hs HK IH. pose proof Hs as (Hr1 & _ & Hst & _). destruct (IH s1 L1 T l1 Hr1) as (s' & L' & l' & Hrun & Hs').
    { intros x Hx. eapply static_known; eauto. }
    exists s', L', l'. split; [done|]. by eapply runs_trans. }
  induction p as [|x e k IH|x e k IH|x e k IH|x k IH|x k IH]; intros Hp Hb s L T l Hrs HK; cbn [exec]; pose proof Hrs as ((Hr & _) & Hj & _).
  - exists s, L, l. split; [done|by apply runs_none].
  - destruct Hp as (Hx & He & Hk), Hb as [Hb Hbk]. destruct (HK x Hx) as [t Ht].
    destruct (mod_timer_run ws s L T x t e Hr Ht He) as (s1 & L1 & Hrun & Hef). mrun Hrun. unfold mod_timer_effect in Hef.
    destruct (pend s x && (expires t =? e)); [destruct Hef as [-> ->]; eapply Hnext; [by apply runs_none|done|by apply IH]|].
    destruct Hef as [Hef En]. eapply Hnext; [eapply runs_effect; [done|done|]|done|by apply IH].
    destruct (within_near B T (apply_slack (jiffies s) (slack t) e) (id_span _ _ _ Hj)) as [? ?]; [apply slack_within; [done|by apply (id_slack _ _ _ Hj x)|done]|].
    by eapply (idle_mod B ws s L T x t).
  - destruct Hp as (Hx & He & Hk), Hb as [Hb Hbk]. destruct (HK x Hx) as [t Ht]. destruct (within_near B T e (id_span _ _ _ Hj)) as [? ?]; [lia|].
    destruct (mod_timer_pinned_run ws s L T x t e Hr Ht He) as (s1 & L1 & Hrun & Hef). mrun Hrun.
    destruct (pend s x && (expires t =? e)); [destruct Hef as [-> ->]; eapply Hnext; [by apply runs_none|done|by apply IH]|].
    destruct Hef as [Hef En]. eapply Hnext; [eapply runs_effect; [done|done|by eapply (idle_mod B ws s L T x t)]|done|by apply IH].
  - destruct Hp as (Hx & He & Hk), Hb as [Hb Hbk]. destruct (HK x Hx) as [t Ht]. destruct (within_near B T e (id_span _ _ _ Hj)) as [? ?]; [lia|].
    destruct (mod_timer_pending_run ws s L T x t e Hr Ht He) as (s1 & L1 & Hrun & Hef). mrun Hrun.
    destruct (pend s x) eqn:Ep; [|destruct Hef as [-> ->]; eapply Hnext; [by apply runs_none|done|by apply IH]].
    destruct Hef as [Hef En]. eapply Hnext; [eapply runs_effect; [done|done|eapply (idle_mod B ws s L T x t); try done; by rewrite Ep]|done|by apply IH].
  - destruct Hp as (Hx & Hk). destruct (HK x Hx) as [t Ht]. destruct (pend s x) eqn:Ep.
    + destruct (del_run ws s L T x t Hr Ht Ep) as (s1 & L1 & Hrun & Hef & En). mrun Hrun.
      eapply Hnext; [eapply runs_effect; [done|done|by eapply (idle_del B ws s L T x t)]|done|by apply IH].
    + mrun (del_idle_run ws s L T x t Hr Ht Ep). eapply Hnext; [by apply runs_none|done|by apply IH].
  - destruct Hp as (Hx & Hk). destruct (HK x Hx) as [t Ht].
    mrun (timer_pending_run _ _ _ _ _ _ _ _ Hr Ht). eapply Hnext; [by apply runs_none|done|by apply IH].
Qed.
End running.

(** ** Ticks *)
Section tick.
Context (B w p : Z) (handler : Z -> Z -> prog) (K : Z -> Prop).
Context (HP : forall fn d, prog_ok K (handler fn d)) (HB : forall fn d, prog_within B (handler fn d)).
Implicit Types (s : wheel) (L : heads) (T x e : Z) (t : timer_list) (l : list Z).

Lemma called_idle s T c : idle_ok B s T -> idle_ok B (add_called c s) T.
Proof. intros [? [? ? ?] ? ? ? ?]. by split. Qed.
Lemma run_expired_idle fuel : forall s L T l, running B w true [w] s L T l -> (length l < fuel)%nat -> (forall x, K x -> is_Some (timers s !! x)) ->
  exists s' L', run_expired w handler fuel s = Some (tt, s') /\ runs B w true [w] s T l s' L' [].
Proof.
  induction fuel as [|fuel IH]; intros s L T l Hrs Hf HK; [lia|]. pose proof Hrs as (Hw & Hj & Hd). pose proof Hw as (Hr & El & Hv). cbn [run_expired].
  mrun (wheel_lists_run _ _ _ _ (heap_list_empty _ _ _ _ (wr_lists Hr) El)). rewrite set_lists_id. destruct l as [|x l].
  { rewrite bool_decide_true by done. exists s, L. split; [done|]. by apply runs_none. }
  rewrite bool_decide_false by done. mrun (wheel_lists_run _ _ _ _ (heap_first _ _ _ _ (wr_lists Hr) El)). rewrite set_lists_id. cbn [hd].
  destruct (detach_effect _ _ _ _ _ _ _ Hw) as (s1 & L1 & Hdet & Hef & En & t & Ht). mrun (get_timer_run _ _ _ Ht). mrun Hdet.
  assert (pend s x = true) as Hpx by (apply (pend_listed _ _ _ _ _ _ _ _ Hr Ht); [set_solver +|]; exists w, (x :: l); split; [done|set_solver +]).
  assert (deferrable t = false -> s32 (expires t - T) <= 0) as Hle by (intros Hdt; apply (Hd x (set_expires 0 t)); [set_solver +|by rewrite lookup_fmap, Ht|done|apply pending_lookup; eauto]).
  pose proof (runs_effect B w true [w] s L T (x :: l) x None s1 L1 Hrs Hef (idle_detach B [w] s L T x t s1 L1 Hj Ht Hle Hef En)) as Hs1.
  unfold call_timer_fn. rewrite bind_assoc, (bind_run _ _ s1 s1 s1) by done. rewrite bind_assoc. set (s2 := add_called (Call x (function t) (data t) (u32 (timer_jiffies s1 - 1))) s1). rewrite (bind_run _ _ s1 tt s2) by done.
  pose proof Hs1 as ((Hw1 & Hj1 & Hd1) & Hlen1 & Hst1 & Ej1).
  destruct (exec_idle B w true [w] K _ (HP (function t) (data t)) (HB (function t) (data t)) s2 L1 T (filter (λ y, y <> x) (x :: l))) as (s3 & L3 & l3 & Hrun & Hs3).
  { split_and!; [by apply called_ok|by apply called_idle|exact Hd1]. }
  { intros y Hy. by apply (static_known s s2 y Hst1), HK. }
  mrun Hrun. destruct Hs3 as (Hr3 & Hlen3 & Hst3 & Ej3). destruct (IH s3 L3 T l3 Hr3) as (s' & L' & Hrun' & Hs').
  { rewrite filter_cons, decide_False in Hlen3 by congruence. pose proof (length_filter (λ y, y <> x) l). cbn in Hf. lia. }
  { intros y Hy. apply (static_known s2); [done|]. by apply (static_known s s2 y Hst1), HK. }
  exists s', L'. split; [done|]. destruct Hs' as (? & ? & Hst' & Ej'). split_and!; [done|cbn; lia| |].
  - rewrite Hst', Hst3. exact Hst1. - rewrite Ej', Ej3. exact Ej1.
Qed.

Lemma run_jiffy_idle s L T : timers_ok w p s L T -> idle_ok B s T -> T < B + 2 ^ 28 -> (forall x, K x -> is_Some (timers s !! x)) ->
  exists s' L', run_jiffy w p handler s = Some (tt, s') /\ timers_ok w p s' L' (T + 1) /\ idle_ok B s' (T + 1) /\
    set_expires 0 <$> timers s' = set_expires 0 <$> timers s /\ jiffies s' = jiffies s.
Proof.
  intros Hok Hj HT HK. destruct (run_jiffy_run w p handler K s L T Hok HP HK) as (s' & L' & Hrun & Hok' & Hsp & Hst). exists s', L'.
  destruct (spec_expire_time _ _ _ Hsp) as (_ & Ej & _). split_and!; [done|done| |done|exact Ej]. clear L' Hok' Hsp Hst Ej.
  destruct Hok as (Hr & Hw & Hp & Hw0). destruct (take_jiffy s L T w p Hr Hw Hp Hw0) as (m1 & s2 & L2 & l & Hcas & Htake & Hwk & Ha & Et & En & _).
  assert (pending s2 = pending s /\ list_to_set l = (dom (filter (λ q, s32 (q.2 - timer_jiffies s) <= 0) (pending s)) : gset Z)) as [Ep Etodo].
  { unfold abst, sp_tick in Ha. cbn in Ha. injection Ha. auto. }
  pose proof (idle_later B s s2 T Hj HT Et Ep En) as Hj2.
  assert (all_due s2 (T + 1) l) as Hd2.
  { intros x t0 e Hx Ht0 Hdf He. rewrite Ep in He. assert (x ∈ dom (filter (λ q, s32 (q.2 - timer_jiffies s) <= 0) (pending s))) as Hx' by (rewrite <-Etodo; by apply elem_of_list_to_set).
    apply elem_of_dom in Hx' as [e' [He' Hle]%map_lookup_filter_Some]. cbn in Hle. assert (e' = e) as -> by congruence.
    rewrite (wr_now Hr), <-s32_u32, u32_sub_r, s32_u32 in Hle.
    rewrite Et, lookup_fmap in Ht0. apply pending_lookup in He as (t & Ht & Hpt & <-). rewrite Ht in Ht0. injection Ht0 as <-.
    rewrite key_next; [lia|]. apply (ca_near _ _ (id_cache _ _ _ Hj)). by exists x, t. }
  destruct (run_expired_idle (S (size (timers s))) s2 L2 (T + 1) l) as (s3 & L3 & Hrun3 & ((Hr3 & El3 & Hv3) & Hj3 & _) & _);
    [by split|rewrite <-Et; by eapply Nat.lt_succ_r, work_length|by rewrite Et|].
  assert (s' = set_lists (delete w (lists s3)) s3) as ->.
  { revert Hrun. unfold run_jiffy. rewrite (bind_run _ _ s s s) by done. mrun Hcas.
    rewrite (bind_run _ _ _ tt (set_timer_jiffies (u32 (timer_jiffies s + 1)) (set_lists m1 s))) by done.
    rewrite (bind_run _ _ _ tt (set_lists (<[w := ListHead 0 0]> m1) (set_timer_jiffies (u32 (timer_jiffies s + 1)) s))) by done.
    mrun Htake. mrun Hrun3. by intros [= <-]. }
  pose proof (leave_work _ _ _ _ _ Hr3 El3 Hv3) as Hr4.
  assert (pending (set_lists (delete w (lists s3)) s3) = pending s3) as Ep4 by (apply (pending_eq [w] [] s3 L3 _ _ (set_lists (delete w (lists s3)) s3) _ _ _ Hr3 Hr4 eq_refl); intros y; by apply listed_empty).
  apply (idle_same B s3); done.
Qed.

(** The loop ends when the wheel is one jiffy ahead of the time [N]. *)
Lemma run_loop_idle fuel : forall s L T N, timers_ok w p s L T -> idle_ok B s T -> (forall x, K x -> is_Some (timers s !! x)) ->
  jiffies s = u32 N -> T - 1 <= N < B + 2 ^ 28 -> (Z.to_nat (N - T + 1) < fuel)%nat ->
  exists s' L', run_timers_loop w p handler fuel s = Some (tt, s') /\ timers_ok w p s' L' (N + 1) /\ idle_ok B s' (N + 1) /\
    set_expires 0 <$> timers s' = set_expires 0 <$> timers s /\ jiffies s' = u32 N.
Proof.
  induction fuel as [|fuel IH]; intros s L T N Hok Hj HK EN HN Hf; [lia|]. cbn [run_timers_loop]. rewrite (bind_run _ _ s s s) by done.
  pose proof (id_span _ _ _ Hj). assert (time_after_eq (jiffies s) (timer_jiffies s) = (T <=? N)) as ->.
  { unfold time_after_eq. rewrite EN, (wr_now (proj1 Hok)), <-s32_u32, u32_sub_l, u32_sub_r, s32_u32, s32_small by lia. lia. }
  destruct (Z.leb_spec T N) as [Hle|Hgt].
  - destruct (run_jiffy_idle s L T Hok Hj ltac:(lia) HK) as (s1 & L1 & Hrun & Hok1 & Hj1 & Hst1 & Ej1). mrun Hrun.
    destruct (IH s1 L1 (T + 1) N Hok1 Hj1) as (s' & L' & Hrun' & Hok' & Hj' & Hst' & Ej');
      [intros x Hx; eapply static_known; eauto|congruence|lia|lia|]. exists s', L'. split_and!; [done|done|done|congruence|done].
  - assert (N + 1 = T) as -> by lia. by exists s, L.
Qed.
Lemma softirq_idle s L T N : timers_ok w p s L T -> idle_ok B s T -> (forall x, K x -> is_Some (timers s !! x)) -> jiffies s = u32 N -> T - 1 <= N < B + 2 ^ 28 ->
  exists s' L', run_timer_softirq w p handler s = Some (tt, s') /\ timers_ok w p s' L' (N + 1) /\ idle_ok B s' (N + 1) /\
    set_expires 0 <$> timers s' = set_expires 0 <$> timers s /\ jiffies s' = u32 N.
Proof.
  intros Hok Hj HK EN HN. pose proof (id_span _ _ _ Hj). assert (time_after_eq (jiffies s) (timer_jiffies s) = (T <=? N)) as Et.
  { unfold time_after_eq. rewrite EN, (wr_now (proj1 Hok)), <-s32_u32, u32_sub_l, u32_sub_r, s32_u32, s32_small by lia. lia. }
  unfold run_timer_softirq. rewrite (bind_run _ _ s s s), Et by done. destruct (Z.leb_spec T N) as [Hle|Hgt].
  - unfold __run_timers. rewrite (bind_run _ _ s s s) by done. apply (run_loop_idle _ s L T N); [done..|].
    assert (u32 (jiffies s - timer_jiffies s) = N - T) as -> by (rewrite EN, (wr_now (proj1 Hok)), u32_sub_l, u32_sub_r; apply u32_small; lia). lia.
  - assert (N + 1 = T) as -> by lia. by exists s, L.
Qed.

(** ** Histories *)
Definition between s L T N : Prop := timers_ok w p s L T /\ idle_ok B s T /\ jiffies s = u32 N /\ N <= T <= N + 1.

Lemma use_idle q s L T N : between s L T N -> prog_ok K q -> prog_within B q -> (forall x, K x -> is_Some (timers s !! x)) ->
  exists s' L', exec q s = Some (tt, s') /\ between s' L' T N /\ set_expires 0 <$> timers s' = set_expires 0 <$> timers s.
Proof.
  intros (Hok & Hj & EN & HN) Hq Hb HK. destruct (use_run w p K q s L T Hok Hq HK) as (s' & L' & Hrun & Hok' & _). pose proof Hok as (Hr & Hw & Hp & Hw0).
  destruct (free_node _ _ _ _ _ _ _ Hr Hw) as [Hwu _]. assert (L !! w = None) as Lw by (destruct (L !! w) as [k|] eqn:E; [|done]; destruct (Hwu w); by eapply own_head).
  destruct (exec_idle B w false [] K q Hq Hb s L T []) as (s1 & L1 & l1 & Hrun1 & ((_ & Hj1 & _) & _ & Hst & Ej)); [|done|].
  { split_and!; [|done|intros x t e Hx; set_solver +Hx]. split; [done|]. split; [done|]. intros n i Hi ->. destruct (wr_vecs Hr n i Hi). congruence. }
  rewrite Hrun in Hrun1. injection Hrun1 as <-. exists s', L'. split_and!; [done| |done]. split_and!; [done|done|congruence|lia|lia].
Qed.

(** What the call returns: not later than a timer that must wake the CPU, and not earlier than needed. *)
Definition in_time s (r N : Z) : Prop := 0 <= s32 (r - N) /\ forall e, wakes s e -> s32 (r - N) <= Z.max 1 (s32 (e - N)).
Definition no_earlier s (r N : Z) : Prop := wakes s r \/ (r = u32 N /\ exists e, wakes s e /\ s32 (e - N) <= 0) \/ 2 ^ 29 <= s32 (r - N).
Lemma candidate_ok s T e : idle_ok B s T -> candidate s T e -> cache_ok (set_next_timer e s) T -> idle_ok B (set_next_timer e s) T.
Proof.
  intros [Hspan Hc Hwk Hn Hex Hsl] Hcand Hc'. split; [done|done|exact Hwk| | |done]; cbn [next_timer set_next_timer]; destruct Hcand as [->|Hw].
  - rewrite max_key. lia. - by apply Hwk. - right; right. rewrite max_key. lia. - by right; left.
Qed.
Lemma idle_call hr_delta s L T N : between s L T N ->
  exists r s', get_next_timer_interrupt hr_delta 0 (jiffies s) s = Some (r, s') /\ between s' L T N /\ timers s' = timers s /\
    in_time s r N /\ (hr_delta = KTIME_MAX -> no_earlier s r N).
Proof.
  intros (Hok & Hj & EN & HN). rewrite EN. destruct (next_interrupt_run s L T N hr_delta (proj1 Hok) (id_cache _ _ _ Hj) ltac:(lia)) as (s' & Hrun & Hr' & Hc' & Hk & Hs' & Hb).
  rewrite (wr_now (proj1 Hok)), (before_eq_key T T) in Hs'; [|lia|apply (ca_next _ _ (id_cache _ _ _ Hj))].
  assert (idle_ok B s' T /\ timers s' = timers s /\ jiffies s' = jiffies s /\ lists s' = lists s /\
    (wakes s (next_timer s') \/ 2 ^ 30 - 1 - (T - B) <= s32 (next_timer s' - T))) as (Hj' & Et & Ej & El & Hex).
  { destruct (Z.leb_spec (s32 (next_timer s - T)) 0) as [Hle|Hgt].
    - destruct Hs' as (e & -> & Hcand). split_and!; [by eapply candidate_ok|done|done|done|]. destruct Hcand as [E|Hw]; [right|by left].
      cbn [next_timer set_next_timer]. rewrite E, max_key. pose proof (id_span _ _ _ Hj). lia.
    - rewrite Hs'. split_and!; [done..|]. destruct (id_exact _ _ _ Hj) as [?|?]; [lia|done]. }
  eexists _, s'. split; [exact Hrun|]. split; [|split; [done|]].
  { split_and!; [|done|congruence|lia|lia]. destruct Hok as (_ & Hok). split; [done|]. by rewrite El. }
  pose proof (id_span _ _ _ Hj) as Hspan. set (x := next_timer s') in *. destruct (Z.leb_spec (s32 (x - N)) 0) as [Hle|Hgt].
  - split; [unfold in_time; rewrite s32_refl; split; [lia|intros; lia]|]. intros _. right; left. split; [done|]. destruct Hex as [Hw|Hfar]; [by exists x|lia].
  - pose proof (cmp_next_bound hr_delta N x ltac:(lia)) as Hcmp. split.
    + split; [lia|]. intros e He. specialize (Hb e He). rewrite (key_shift T N e); [lia|lia|apply (ca_near _ _ (id_cache _ _ _ Hj) e He)].
    + intros ->. change (cmp_next_hrtimer_event KTIME_MAX (u32 N) x) with x. destruct Hex as [Hw|Hfar]; [by left|right; right; lia].
Qed.

Lemma idle_event_run (e : idle_event) s L T N : between s L T N -> idle_event_ok K B e -> (forall x, K x -> is_Some (timers s !! x)) -> N + total_ticks [e] < B + 2 ^ 28 ->
  exists s' L' T', run_idle_event w p handler e s = Some (tt, s') /\ between s' L' T' (N + total_ticks [e]) /\ set_expires 0 <$> timers s' = set_expires 0 <$> timers s.
Proof.
  intros Hb He HK HN. destruct e as [[q|n]|hr_delta]; cbn [run_idle_event run_event total_ticks idle_event_ok] in *; rewrite ?Z.add_0_r in *.
  - destruct He as [Hq Hw]. destruct (use_idle q s L T N Hb Hq Hw HK) as (s' & L' & Hrun & Hb' & Hst). by exists s', L', T.
  - destruct Hb as (Hok & Hj & EN & HT). set (s1 := set_jiffies (u32 (jiffies s + n)) s). rewrite (bind_run _ _ s tt s1) by done.
    destruct (softirq_idle s1 L T (N + n)) as (s' & L' & Hrun & Hok' & Hj' & Hst & Ej); [by apply timers_ok_jiffies|by apply (idle_same B s)|done| |lia|].
    { cbn. by rewrite EN, u32_add_l. }
    exists s', L', (N + n + 1). split_and!; [done| |done]. split_and!; [done|done|done|lia|lia].
  - destruct (idle_call hr_delta s L T N Hb) as (r & s' & Hrun & Hb' & Et & _). rewrite (bind_run _ _ s s s) by done. mrun Hrun. exists s', L, T.
    split_and!; [done|done|by rewrite Et].
Qed.
Lemma total_ticks_nonneg es : Forall (idle_event_ok K B) es -> 0 <= total_ticks es.
Proof. induction 1 as [|[[q|n]|h] es He _ IH]; cbn in *; lia. Qed.
Lemma idle_events_run es : forall s L T N, between s L T N -> Forall (idle_event_ok K B) es -> (forall x, K x -> is_Some (timers s !! x)) -> N + total_ticks es < B + 2 ^ 28 ->
  exists s' L' T', run_idle_events w p handler es s = Some (tt, s') /\ between s' L' T' (N + total_ticks es).
Proof.
  induction es as [|e es IH]; intros s L T N Hb He HK HN; [cbn; rewrite Z.add_0_r; by exists s, L, T|]. apply Forall_cons in He as [He Hes]. cbn [run_idle_events].
  pose proof (total_ticks_nonneg es Hes). assert (total_ticks (e :: es) = total_ticks [e] + total_ticks es) as Ett by (destruct e as [[]|]; cbn; lia).
  destruct (idle_event_run e s L T N Hb He HK ltac:(lia)) as (s1 & L1 & T1 & Hrun & Hb1 & Hst). mrun Hrun.
  destruct (IH s1 L1 T1 (N + total_ticks [e]) Hb1 Hes) as (s' & L' & T' & Hrun' & Hb'); [intros x Hx; eapply static_known; eauto|lia|].
  exists s', L', T'. split; [done|]. by rewrite Ett, Z.add_assoc.
Qed.
End tick.

(** ** The theorem *)
(** C20: an idle CPU is woken in time.  From boot on, over any history of uses of timers, ticks with the timer functions they call, and earlier idle periods, [get_next_timer_interrupt] returns a time that is not before now, and not after the expiry time of any pending timer that is not deferrable (or the next jiffy, if that time is over).  If no high-resolution timer is pending it is not earlier than needed: it is the expiry time of such a timer, or now because one is overdue, or more than 2^29 jiffies away.  The history takes less than 2^28 jiffies, its expiry times are in the 2^28 jiffies from boot on, and the slack of each timer is less than that. *)
Theorem idle_wakes_in_time (w p : Z) (handler : Z -> Z -> prog) (K : Z -> Prop) (s : wheel) (es : list idle_event) (hr_delta : Z)
  (Hboot : boot s) (Hw : lists s !! w = None) (Hp : lists s !! p = None) (Hw0 : w <> 0)
  (HP : forall fn d, prog_ok K (handler fn d)) (HB : forall fn d, prog_within (jiffies s) (handler fn d)) (HK : forall x, K x -> is_Some (timers s !! x))
  (Hs : forall x t, timers s !! x = Some t -> slack t < 2 ^ 28) (He : Forall (idle_event_ok K (jiffies s)) es) (Ht : total_ticks es < 2 ^ 28) :
  exists s' r s'', (init_timers_cpu ;; run_idle_events w p handler es) s = Some (tt, s') /\ jiffies s' = u32 (jiffies s + total_ticks es) /\
    get_next_timer_interrupt hr_delta 0 (jiffies s') s' = Some (r, s'') /\
    in_time s' r (jiffies s') /\ (hr_delta = KTIME_MAX -> no_earlier s' r (jiffies s')).
Proof.
  set (B := jiffies s) in *. destruct (init_timers_run s Hboot) as (m' & L & Hrun & Hr & Hnil & Hn). fold B in Hrun, Hr. mrun Hrun. set (s0 := set_next_timer B _) in *.
  assert (timers_ok w p s0 L B) as Hok by (split; [exact Hr|]; by split; [apply Hn|split; [apply Hn|]]).
  assert (forall e, ~ wakes s0 e) as Hno.
  { intros e (x & t & Hx & Hpx & _). apply (pend_listed _ _ _ _ _ _ _ _ Hr Hx) in Hpx as (h & l & El & Hxl); [|set_solver +]. rewrite (Hnil h l El) in Hxl. set_solver +Hxl. }
  assert (next_timer s0 = B) as En by done. pose proof (bo_jiffies _ Hboot : 0 <= B < 2 ^ 32) as HB0.
  assert (idle_ok B s0 B) as Hj.
  { split; [lia|split| | | |exact Hs]; rewrite ?En, ?Z.sub_diag; try (intros e Hwk; by apply Hno in Hwk). - unfold near. by rewrite Z.sub_diag. - done. - by left. }
  destruct (idle_events_run B w p handler K HP HB es s0 L B B) as (s' & L' & T' & Hrun' & Hb'); [split_and!; [done|done|symmetry; by apply u32_small|lia|lia]|done|done|lia|].
  destruct (idle_call B w p hr_delta s' L' T' _ Hb') as (r & s'' & Hcall & _ & _ & H1 & H2). pose proof Hb' as (_ & _ & EN & _).
  exists s', r, s''. split; [done|]. split; [done|]. split; [done|]. assert (forall e, s32 (e - jiffies s') = s32 (e - (B + total_ticks es))) as Ek.
  { intros e. by rewrite EN, <-s32_u32, u32_sub_r, s32_u32. }
  unfold in_time, no_earlier in *. setoid_rewrite Ek. split; [done|]. intros Hhr. destruct (H2 Hhr) as [?|[[-> ?]|?]]; auto. right; left. split; [|done].
  by rewrite EN, (u32_small (u32 _)) by apply u32_range.
Qed.

(** Two timers, an idle period, 20 jiffies with the first timer, and another idle period. *)
Definition demo_history : list idle_event :=
  [Ev (Use (ModTimerPinned 300 12 (λ _, ModTimer 100 70000 (λ _, Done)))); Idle (5 * 2 ^ 32); Ev (Tick 20); Idle KTIME_MAX; Ev (Tick 7)].
Lemma idle_wakes_in_time_witness : exists s' r s'', (init_timers_cpu ;; run_idle_events 500 600 demo_handler demo_history) demo_boot = Some (tt, s') /\
  jiffies s' = 21 /\ wakes s' 70144 /\ get_next_timer_interrupt KTIME_MAX 0 (jiffies s') s' = Some (r, s'') /\ s32 (r - 21) <= 70144 - 21.
Proof.
  destruct (idle_wakes_in_time 500 600 demo_handler (λ x, x = 100 \/ x = 200 \/ x = 300) demo_boot demo_history KTIME_MAX) as (s' & r & s'' & Hrun & Hj & Hcall & [_ Hin] & _).
  - exact demo_boot_ok. - vm_compute. reflexivity. - vm_compute. reflexivity. - lia. - exact demo_handler_ok.
  - intros fn d. unfold demo_handler. destruct (fn =? 1); [|exact I]. cbn. split; [vm_compute; split; [discriminate|reflexivity]|]. intros _ []; cbn; [intros _; exact I|exact I].
  - exact demo_known.
  - intros x t Ht. assert (map_Forall (λ _ t, slack t < 2 ^ 28) (timers demo_boot)) as H by (apply (bool_decide_unpack _); vm_compute; exact I). exact (H x t Ht).
  - repeat constructor; cbn; auto; try lia; vm_compute; (discriminate || reflexivity).
  - vm_compute. reflexivity.
  - assert (jiffies s' = 21) as E21 by (rewrite Hj; vm_compute; reflexivity). rewrite E21 in *.
    assert (wakes s' 70144) as Hw.
    { vm_compute in Hrun. injection Hrun as <-. exists 100. eexists. split_and!; vm_compute; reflexivity. }
    exists s', r, s''. split_and!; [exact Hrun|exact E21|exact Hw|rewrite E21; exact Hcall|]. specialize (Hin _ Hw).
    assert (Z.max 1 (s32 (70144 - 21)) = 70144 - 21) as E by (vm_compute; reflexivity). rewrite E in Hin. exact Hin.
Defined.
End TimerIdle.
