(* ===== verification/Wakelock.v ===== *)
(** * Wake locks

    kernel/power/wakelock.c of Android: the system may suspend only while no wake lock of
    type [WAKE_LOCK_SUSPEND] is active.  A lock that is taken without a timeout is put at
    the front of the list of active locks, one with a timeout at the end; the locks that
    are not active are on [inactive_locks].  When only locks with timeouts are left,
    [expire_timer] is set to the time when the last of them expires, and its function
    queues the work that suspends the system.

    The locks are used through the timer interface [ExpireTimer], of which the timer
    wheel is an instance (WakelockTimer.v).  All functions run under [list_lock] with
    interrupts disabled, so each is one step; the work function [suspend] sleeps and is
    three steps: its start, the callback [power_suspend_late] shortly before the
    machine stops, and its end.  Messages to the log are left out. *)
From stdpp Require Import prelude gmap list.
From Stdlib Require Import ZArith Lia ZifyBool.
From S2P Require Import Prelude Time ListHead ListHeap.
Import Time.
Open Scope Z_scope.

Module Wakelock.

(** ** The timer *)
(** What the wake locks rely on: [expire_timer] has no slack, so that it is due exactly at
    the time it was set to.  [tm_tick n] advances the time by [n] jiffies and runs the
    timers; it tells whether the function of [expire_timer] was called. *)
Class ExpireTimer (W : Type) := {
  tm_jiffies : W -> Z;
  tm_pending : W -> option Z;
  tm_mod_timer : Z -> M W Z;
  tm_del_timer : M W Z;
  tm_tick : Z -> M W bool;
  tm_ok : W -> Prop;
  tm_jiffies_range w : tm_ok w -> 0 <= tm_jiffies w < 2 ^ 32;
  tm_pending_range w e : tm_ok w -> tm_pending w = Some e -> 0 <= e < 2 ^ 32;
  tm_mod_law w e : tm_ok w -> 0 <= e < 2 ^ 32 -> 0 < s32 (e - tm_jiffies w) ->
    exists r w', tm_mod_timer e w = Some (r, w') /\ tm_ok w' /\ tm_jiffies w' = tm_jiffies w /\ tm_pending w' = Some e;
  tm_del_law w : tm_ok w ->
    exists r w', tm_del_timer w = Some (r, w') /\ tm_ok w' /\ tm_jiffies w' = tm_jiffies w /\ tm_pending w' = None;
  tm_tick_law w n : tm_ok w -> 0 <= n < 2 ^ 31 ->
    exists b w', tm_tick n w = Some (b, w') /\ tm_ok w' /\ tm_jiffies w' = u32 (tm_jiffies w + n) /\
      match tm_pending w with
      | None => b = false /\ tm_pending w' = None
      | Some e => if s32 (e - tm_jiffies w) <=? n then b = true /\ tm_pending w' = None else b = false /\ tm_pending w' = Some e
      end;
}.

(** ** Data *)
Definition WAKE_LOCK_SUSPEND : Z := 0.
Definition WAKE_LOCK_IDLE : Z := 1.
Definition WAKE_LOCK_TYPE_COUNT : Z := 2.
Definition WAKE_LOCK_TYPE_MASK : Z := 15.
Definition WAKE_LOCK_INITIALIZED : Z := Z.shiftl 1 8.
Definition WAKE_LOCK_ACTIVE : Z := Z.shiftl 1 9.
Definition WAKE_LOCK_AUTO_EXPIRE : Z := Z.shiftl 1 10.
Definition WAKE_LOCK_PREVENTING_SUSPEND : Z := Z.shiftl 1 11.
Definition LONG_MAX : Z := 2 ^ 31 - 1.

(** The counts and the times ([ktime_t]) of a lock. *)
Record lock_stat := LockStat {
  count : Z;
  expire_count : Z;
  wakeup_count : Z;
  total_time : Z;
  prevent_suspend_time : Z;
  max_time : Z;
  last_time : Z;
}.
(** The member [link] is a node of [lists] at the address of the lock. *)
Record wake_lock_s := WakeLock {
  flags : Z;
  name : Z;
  expires : Z;
  stat : lock_stat;
}.

(** The variables of the file.  [active_wake_locks] is the address of the array of list
    heads, [expire_timer] the state of the timers.  The readings of the clock are the
    values of [clock], [reads] of which were taken.  [suspend_queued] says that the work
    is on its queue, and [suspending] that it is running, with its [entry_event_num]. *)
Record wls (W : Type) := Wls {
  lists : mem;
  locks : gmap Z wake_lock_s;
  inactive_locks : Z;
  active_wake_locks : Z;
  current_event_num : Z;
  main_wake_lock : Z;
  sync_wake_lock : Z;
  unknown_wakeup : Z;
  deleted_wake_locks : Z;
  last_sleep_time_update : Z;
  wait_for_wakeup : bool;
  expire_timer : W;
  suspend_queued : bool;
  suspending : option Z;
  clock : nat -> Z;
  reads : nat;
  kernel_time : timespec;
  wall_to_monotonic : timespec;
}.
Arguments Wls {_}. Arguments lists {_}. Arguments locks {_}. Arguments inactive_locks {_}. Arguments active_wake_locks {_}.
Arguments current_event_num {_}. Arguments main_wake_lock {_}. Arguments sync_wake_lock {_}. Arguments unknown_wakeup {_}.
Arguments deleted_wake_locks {_}. Arguments last_sleep_time_update {_}. Arguments wait_for_wakeup {_}. Arguments expire_timer {_}.
Arguments suspend_queued {_}. Arguments suspending {_}. Arguments clock {_}. Arguments reads {_}. Arguments kernel_time {_}.
Arguments wall_to_monotonic {_}.

Definition set_flags (f : Z) (l : wake_lock_s) : wake_lock_s := WakeLock f (name l) (expires l) (stat l).
Definition set_expires (e : Z) (l : wake_lock_s) : wake_lock_s := WakeLock (flags l) (name l) e (stat l).
Definition set_stat (f : lock_stat -> lock_stat) (l : wake_lock_s) : wake_lock_s := WakeLock (flags l) (name l) (expires l) (f (stat l)).
Definition set_bits (b : Z) (l : wake_lock_s) : wake_lock_s := set_flags (Z.lor (flags l) b) l.
Definition clear_bits (b : Z) (l : wake_lock_s) : wake_lock_s := set_flags (Z.land (flags l) (u32 (Z.lnot b))) l.
Definition has_bits (b : Z) (l : wake_lock_s) : bool := negb (Z.land (flags l) b =? 0).

Section ops.
Context {W : Type} `{!ExpireTimer W}.
Implicit Types (s : wls W) (p : Z).

Definition jiffies (s : wls W) : Z := tm_jiffies (expire_timer s).
Definition head (s : wls W) (type : Z) : Z := active_wake_locks s + 8 * type.

Definition set_lists (m : mem) s : wls W :=
  Wls m (locks s) (inactive_locks s) (active_wake_locks s) (current_event_num s) (main_wake_lock s) (sync_wake_lock s) (unknown_wakeup s) (deleted_wake_locks s)
    (last_sleep_time_update s) (wait_for_wakeup s) (expire_timer s) (suspend_queued s) (suspending s) (clock s) (reads s) (kernel_time s) (wall_to_monotonic s).
Definition set_locks (ls : gmap Z wake_lock_s) s : wls W :=
  Wls (lists s) ls (inactive_locks s) (active_wake_locks s) (current_event_num s) (main_wake_lock s) (sync_wake_lock s) (unknown_wakeup s) (deleted_wake_locks s)
    (last_sleep_time_update s) (wait_for_wakeup s) (expire_timer s) (suspend_queued s) (suspending s) (clock s) (reads s) (kernel_time s) (wall_to_monotonic s).
Definition set_stats (update : Z) (wait : bool) (r : nat) s : wls W :=
  Wls (lists s) (locks s) (inactive_locks s) (active_wake_locks s) (current_event_num s) (main_wake_lock s) (sync_wake_lock s) (unknown_wakeup s) (deleted_wake_locks s)
    update wait (expire_timer s) (suspend_queued s) (suspending s) (clock s) r (kernel_time s) (wall_to_monotonic s).
Definition set_run (event : Z) (t : W) (queued : bool) (running : option Z) s : wls W :=
  Wls (lists s) (locks s) (inactive_locks s) (active_wake_locks s) event (main_wake_lock s) (sync_wake_lock s) (unknown_wakeup s) (deleted_wake_locks s)
    (last_sleep_time_update s) (wait_for_wakeup s) t queued running (clock s) (reads s) (kernel_time s) (wall_to_monotonic s).
Definition set_times (kt tomono : timespec) s : wls W :=
  Wls (lists s) (locks s) (inactive_locks s) (active_wake_locks s) (current_event_num s) (main_wake_lock s) (sync_wake_lock s) (unknown_wakeup s) (deleted_wake_locks s)
    (last_sleep_time_update s) (wait_for_wakeup s) (expire_timer s) (suspend_queued s) (suspending s) (clock s) (reads s) kt tomono.
Definition set_timer (t : W) s : wls W := set_run (current_event_num s) t (suspend_queued s) (suspending s) s.
Definition set_queued (b : bool) s : wls W := set_run (current_event_num s) (expire_timer s) b (suspending s) s.
Definition set_suspending (o : option Z) s : wls W := set_run (current_event_num s) (expire_timer s) (suspend_queued s) o s.
Definition set_event_num (n : Z) s : wls W := set_run n (expire_timer s) (suspend_queued s) (suspending s) s.

Abbreviation WM := (M (wls W)).

Definition on_lists {A} (f : M mem A) : WM A := λ s,
  match f (lists s) with Some (a, m) => Some (a, set_lists m s) | None => None end.
Definition on_timer {A} (f : M W A) : WM A := λ s,
  match f (expire_timer s) with Some (a, t) => Some (a, set_timer t s) | None => None end.
Definition get_lock (p : Z) : WM wake_lock_s := λ s,
  match locks s !! p with Some l => Some (l, s) | None => None end.
Definition upd_lock (p : Z) (f : wake_lock_s -> wake_lock_s) : WM unit := λ s,
  match locks s !! p with Some l => Some (tt, set_locks (<[p := f l]> (locks s)) s) | None => None end.
Definition upd_stat (p : Z) (f : lock_stat -> lock_stat) : WM unit := upd_lock p (set_stat f).

Definition ktime_get : WM Z := λ s, Some (clock s (reads s), set_stats (last_sleep_time_update s) (wait_for_wakeup s) (S (reads s)) s).
Definition queue_work : WM unit := modify (set_queued true).

(** ** Statistics *)
(** [None] for 0; otherwise the time at which the lock expired. *)
Definition get_expired_time (lock : Z) : WM (option Z) :=
  l ← get_lock lock;
  if negb (has_bits WAKE_LOCK_AUTO_EXPIRE l) then mret None
  else
    s ← get;
    let timeout := s32 (expires l - jiffies s) in
    if timeout >? 0 then mret None
    else
      let kt := kernel_time s in
      let tomono := wall_to_monotonic s in
      let delta := jiffies_to_timespec (u32 (- timeout)) in
      match set_normalized_timespec (s32 (tv_sec kt + tv_sec tomono - tv_sec delta)) (s32 (tv_nsec kt + tv_nsec tomono - tv_nsec delta)) with
      | None => oops
      | Some ts => mret (Some (timespec_to_ktime ts))
      end.

(** A line of /proc/wakelocks. *)
Record stat_line := StatLine {
  ln_name : Z;
  ln_count : Z;
  ln_expire_count : Z;
  ln_wakeup_count : Z;
  ln_active_since : Z;
  ln_total_time : Z;
  ln_sleep_time : Z;
  ln_max_time : Z;
  ln_last_change : Z;
}.
Definition print_lock_stat (lock : Z) : WM stat_line :=
  l ← get_lock lock;
  let st := stat l in
  let line lock_count expire_count active total prevent max :=
    StatLine (name l) lock_count expire_count (wakeup_count st) (ktime_to_ns active) (ktime_to_ns total) (ktime_to_ns prevent) (ktime_to_ns max)
      (ktime_to_ns (last_time st)) in
  if has_bits WAKE_LOCK_ACTIVE l then
    r ← get_expired_time lock;
    en ← (match r with Some now => mret (true, now) | None => now ← ktime_get; mret (false, now) end : WM (bool * Z));
    let add_time := ktime_sub en.2 (last_time st) in
    s ← get;
    mret (line (s32 (count st + 1)) (if (en.1 : bool) then s32 (expire_count st + 1) else expire_count st) (if en.1 then ktime_set 0 0 else add_time)
      (ktime_add (total_time st) add_time)
      (if has_bits WAKE_LOCK_PREVENTING_SUSPEND l then ktime_add (prevent_suspend_time st) (ktime_sub en.2 (last_sleep_time_update s)) else prevent_suspend_time st)
      (if add_time >? max_time st then add_time else max_time st))
  else mret (line (count st) (expire_count st) (ktime_set 0 0) (total_time st) (prevent_suspend_time st) (max_time st)).

(** The lines after the heading. *)
Fixpoint show_walk (fuel : nat) (head_ lock : Z) : WM (list stat_line) :=
  match fuel with
  | O => oops
  | S fuel =>
      if lock =? head_ then mret []
      else ln ← print_lock_stat lock; next ← on_lists (get_next lock); lns ← show_walk fuel head_ next; mret (ln :: lns)
  end.
Definition show_list (head_ : Z) : WM (list stat_line) :=
  s ← get; first ← on_lists (get_next head_); show_walk (S (size (locks s))) head_ first.
Definition wakelock_stats_show : WM (list stat_line) :=
  s ← get;
  l0 ← show_list (inactive_locks s);
  l1 ← show_list (head s 0);
  l2 ← show_list (head s 1);
  mret (l0 ++ l1 ++ l2).

Definition add_count (expired : bool) (st : lock_stat) : lock_stat :=
  LockStat (s32 (count st + 1)) (if expired then s32 (expire_count st + 1) else expire_count st) (wakeup_count st) (total_time st)
    (prevent_suspend_time st) (max_time st) (last_time st).
Definition add_duration (duration : Z) (st : lock_stat) : lock_stat :=
  LockStat (count st) (expire_count st) (wakeup_count st) (ktime_add (total_time st) duration) (prevent_suspend_time st)
    (if ktime_to_ns duration >? ktime_to_ns (max_time st) then duration else max_time st) (last_time st).
Definition set_last_time (t : Z) (st : lock_stat) : lock_stat :=
  LockStat (count st) (expire_count st) (wakeup_count st) (total_time st) (prevent_suspend_time st) (max_time st) t.
Definition add_prevent (duration : Z) (st : lock_stat) : lock_stat :=
  LockStat (count st) (expire_count st) (wakeup_count st) (total_time st) (ktime_add (prevent_suspend_time st) duration) (max_time st) (last_time st).
Definition add_wakeup (st : lock_stat) : lock_stat :=
  LockStat (count st) (expire_count st) (s32 (wakeup_count st + 1)) (total_time st) (prevent_suspend_time st) (max_time st) (last_time st).

Definition wake_unlock_stat_locked (lock : Z) (expired : bool) : WM unit :=
  l ← get_lock lock;
  if negb (has_bits WAKE_LOCK_ACTIVE l) then mret tt
  else
    r ← get_expired_time lock;
    en ← (match r with Some now => mret (true, now) | None => now ← ktime_get; mret (expired, now) end : WM (bool * Z));
    upd_stat lock (add_count en.1) ;;
    upd_stat lock (λ st, add_duration (ktime_sub en.2 (last_time st)) st) ;;
    t ← ktime_get;
    upd_stat lock (set_last_time t) ;;
    l ← get_lock lock;
    if has_bits WAKE_LOCK_PREVENTING_SUSPEND l then
      s ← get;
      upd_stat lock (add_prevent (ktime_sub en.2 (last_sleep_time_update s))) ;;
      upd_lock lock (clear_bits WAKE_LOCK_PREVENTING_SUSPEND)
    else mret tt.

(** The body of the loop of [update_sleep_wait_stats_locked], and the loop over the
    active locks from [lock] on. *)
Definition update_sleep_wait (done : bool) (elapsed lock : Z) : WM unit :=
  etime ← get_expired_time lock;
  l ← get_lock lock;
  (if has_bits WAKE_LOCK_PREVENTING_SUSPEND l then
     s ← get;
     upd_stat lock (add_prevent (match etime with Some t => ktime_sub t (last_sleep_time_update s) | None => elapsed end))
   else mret tt) ;;
  if done || (match etime with Some _ => true | None => false end) then upd_lock lock (clear_bits WAKE_LOCK_PREVENTING_SUSPEND)
  else upd_lock lock (set_bits WAKE_LOCK_PREVENTING_SUSPEND).
Fixpoint update_walk (fuel : nat) (done : bool) (elapsed head_ lock : Z) : WM unit :=
  match fuel with
  | O => oops
  | S fuel =>
      if lock =? head_ then mret tt
      else update_sleep_wait done elapsed lock ;; next ← on_lists (get_next lock); update_walk fuel done elapsed head_ next
  end.
Definition update_sleep_wait_stats_locked (done : bool) : WM unit :=
  now ← ktime_get;
  s ← get;
  let elapsed := ktime_sub now (last_sleep_time_update s) in
  first ← on_lists (get_next (head s WAKE_LOCK_SUSPEND));
  update_walk (S (size (locks s))) done elapsed (head s WAKE_LOCK_SUSPEND) first ;;
  modify (λ s, set_stats now (wait_for_wakeup s) (reads s) s).

(** ** Expiry *)
(** A lock stops being active; [wake_unlock] does the same as [expire_wake_lock]. *)
Definition deactivate (lock : Z) (expired : bool) : WM unit :=
  wake_unlock_stat_locked lock expired ;;
  upd_lock lock (clear_bits (Z.lor WAKE_LOCK_ACTIVE WAKE_LOCK_AUTO_EXPIRE)) ;;
  on_lists (list_del lock) ;;
  s ← get;
  on_lists (list_add lock (inactive_locks s)).
Definition expire_wake_lock (lock : Z) : WM unit := deactivate lock true.

(** [list_for_each_entry_safe] in [has_wake_lock_locked]: [n] is read before the lock is
    moved. *)
Fixpoint has_walk (fuel : nat) (head_ lock max_timeout : Z) : WM Z :=
  match fuel with
  | O => oops
  | S fuel =>
      if lock =? head_ then mret max_timeout
      else
        n ← on_lists (get_next lock);
        l ← get_lock lock;
        if has_bits WAKE_LOCK_AUTO_EXPIRE l then
          s ← get;
          let timeout := s32 (expires l - jiffies s) in
          if timeout <=? 0 then expire_wake_lock lock ;; has_walk fuel head_ n max_timeout
          else if timeout >? max_timeout then has_walk fuel head_ n timeout
          else has_walk fuel head_ n max_timeout
        else mret (-1)
  end.
Definition has_wake_lock_locked (type : Z) : WM Z :=
  BUG_ON (type >=? WAKE_LOCK_TYPE_COUNT) ;;
  s ← get;
  first ← on_lists (get_next (head s type));
  has_walk (S (size (locks s))) (head s type) first 0.
Definition has_wake_lock (type : Z) : WM Z := has_wake_lock_locked type.

Definition expire_wake_locks : WM unit :=
  has_lock ← has_wake_lock_locked WAKE_LOCK_SUSPEND;
  if has_lock =? 0 then queue_work else mret tt.

(** ** Taking and releasing *)
(** The common end of [wake_lock_internal] and [wake_unlock]. *)
Definition rearm (expire_in : Z) : WM unit :=
  s ← get;
  if expire_in >? 0 then on_timer (tm_mod_timer (u32 (jiffies s + expire_in))) ;; mret tt
  else on_timer tm_del_timer ;; (if expire_in =? 0 then queue_work else mret tt).

Definition wake_lock_active (lock : Z) : WM bool := l ← get_lock lock; mret (has_bits WAKE_LOCK_ACTIVE l).

Definition wake_lock_init (lock type name_ : Z) : WM unit :=
  (if negb (name_ =? 0) then upd_lock lock (λ l, WakeLock (flags l) name_ (expires l) (stat l)) else mret tt) ;;
  l ← get_lock lock;
  BUG_ON (name l =? 0) ;;
  upd_stat lock (λ _, LockStat 0 0 0 (ktime_set 0 0) (ktime_set 0 0) (ktime_set 0 0) (ktime_set 0 0)) ;;
  upd_lock lock (set_flags (Z.lor (Z.land type WAKE_LOCK_TYPE_MASK) WAKE_LOCK_INITIALIZED)) ;;
  on_lists (INIT_LIST_HEAD lock) ;;
  s ← get;
  on_lists (list_add lock (inactive_locks s)).

Definition add_deleted (d : lock_stat) (st : lock_stat) : lock_stat :=
  LockStat (s32 (count st + count d)) (s32 (expire_count st + expire_count d)) (wakeup_count st) (ktime_add (total_time st) (total_time d))
    (ktime_add (prevent_suspend_time st) (prevent_suspend_time d)) (ktime_add (max_time st) (max_time d)) (last_time st).
Definition wake_lock_destroy (lock : Z) : WM unit :=
  upd_lock lock (clear_bits WAKE_LOCK_INITIALIZED) ;;
  l ← get_lock lock;
  s ← get;
  (if negb (count (stat l) =? 0) then upd_stat (deleted_wake_locks s) (add_deleted (stat l)) else mret tt) ;;
  on_lists (list_del lock).

(** [wake_lock_internal] in three parts: the statistics, the flag that the lock is active,
    and the list. *)
Definition wake_lock_wakeup (lock type : Z) : WM unit :=
  s ← get;
  (if (type =? WAKE_LOCK_SUSPEND) && wait_for_wakeup s then
     modify (λ s, set_stats (last_sleep_time_update s) false (reads s) s) ;; upd_stat lock add_wakeup
   else mret tt) ;;
  l ← get_lock lock;
  if has_bits WAKE_LOCK_AUTO_EXPIRE l && (s32 (expires l - jiffies s) <=? 0) then
    wake_unlock_stat_locked lock false ;; t ← ktime_get; upd_stat lock (set_last_time t)
  else mret tt.
Definition wake_lock_activate (lock : Z) : WM unit :=
  l ← get_lock lock;
  if negb (has_bits WAKE_LOCK_ACTIVE l) then
    upd_lock lock (set_bits WAKE_LOCK_ACTIVE) ;; t ← ktime_get; upd_stat lock (set_last_time t)
  else mret tt.
Definition wake_lock_take (lock timeout : Z) (has_timeout : bool) : WM Z :=
  l ← get_lock lock;
  let type := Z.land (flags l) WAKE_LOCK_TYPE_MASK in
  BUG_ON (type >=? WAKE_LOCK_TYPE_COUNT) ;;
  BUG_ON (negb (has_bits WAKE_LOCK_INITIALIZED l)) ;;
  wake_lock_wakeup lock type ;;
  wake_lock_activate lock ;;
  s ← get;
  on_lists (list_del lock) ;;
  (if has_timeout then
     upd_lock lock (set_expires (u32 (jiffies s + timeout))) ;;
     upd_lock lock (set_bits WAKE_LOCK_AUTO_EXPIRE) ;;
     on_lists (list_add_tail lock (head s type))
   else
     upd_lock lock (set_expires LONG_MAX) ;;
     upd_lock lock (clear_bits WAKE_LOCK_AUTO_EXPIRE) ;;
     on_lists (list_add lock (head s type))) ;;
  mret type.
Definition wake_lock_internal (lock timeout : Z) (has_timeout : bool) : WM unit :=
  type ← wake_lock_take lock timeout has_timeout;
  if type =? WAKE_LOCK_SUSPEND then
    modify (λ s, set_event_num (s32 (current_event_num s + 1)) s) ;;
    s ← get;
    (if lock =? main_wake_lock s then update_sleep_wait_stats_locked true
     else
       a ← wake_lock_active (main_wake_lock s);
       if negb a then update_sleep_wait_stats_locked false else mret tt) ;;
    expire_in ← (if has_timeout then has_wake_lock_locked type else mret (-1));
    rearm expire_in
  else mret tt.

Definition wake_lock (lock : Z) : WM unit := wake_lock_internal lock 0 false.
Definition wake_lock_timeout (lock timeout : Z) : WM unit := wake_lock_internal lock timeout true.

Definition wake_unlock (lock : Z) : WM unit :=
  l ← get_lock lock;
  let type := Z.land (flags l) WAKE_LOCK_TYPE_MASK in
  deactivate lock false ;;
  s ← get;
  if type =? WAKE_LOCK_SUSPEND then
    has_lock ← has_wake_lock_locked type;
    rearm has_lock ;;
    if lock =? main_wake_lock s then update_sleep_wait_stats_locked false else mret tt
  else mret tt.

(** ** Suspending *)
(** [suspend] up to the call of [pm_suspend]: whether it gets there. *)
Definition suspend_start : WM bool :=
  modify (set_queued false) ;;
  r ← has_wake_lock WAKE_LOCK_SUSPEND;
  if negb (r =? 0) then mret false
  else modify (λ s, set_suspending (Some (current_event_num s)) s) ;; mret true.
Definition power_suspend_late : WM Z :=
  r ← has_wake_lock WAKE_LOCK_SUSPEND;
  modify (λ s, set_stats (last_sleep_time_update s) true (reads s) s) ;;
  mret (if negb (r =? 0) then - EAGAIN else 0).
(** [suspend] after [pm_suspend] returned. *)
Definition suspend_end : WM unit :=
  s ← get;
  match suspending s with
  | None => oops
  | Some entry_event_num =>
      modify (set_suspending None) ;;
      if current_event_num s =? entry_event_num then wake_lock_timeout (unknown_wakeup s) (HZ `div` 2) else mret tt
  end.

(** ** Start *)
(** The arguments are the addresses of the names. *)
Definition wakelocks_setup (n_deleted n_main n_unknown n_sync : Z) : WM unit :=
  s ← get;
  on_lists (INIT_LIST_HEAD (head s 0)) ;;
  on_lists (INIT_LIST_HEAD (head s 1)) ;;
  wake_lock_init (deleted_wake_locks s) WAKE_LOCK_SUSPEND n_deleted ;;
  wake_lock_init (main_wake_lock s) WAKE_LOCK_SUSPEND n_main ;;
  wake_lock (main_wake_lock s) ;;
  wake_lock_init (unknown_wakeup s) WAKE_LOCK_SUSPEND n_unknown ;;
  wake_lock_init (sync_wake_lock s) WAKE_LOCK_SUSPEND n_sync.
(** The end of the error paths, and of [wakelocks_exit]. *)
Definition wakelocks_exit : WM unit :=
  s ← get;
  wake_lock_destroy (sync_wake_lock s) ;; wake_lock_destroy (unknown_wakeup s) ;;
  wake_lock_destroy (main_wake_lock s) ;; wake_lock_destroy (deleted_wake_locks s).
(** [dev] and [drv] are the results of registering the device and its driver, [wq] and
    [sq] say whether the two work queues could be created. *)
Definition wakelocks_init (dev drv : Z) (wq sq : bool) (n_deleted n_main n_unknown n_sync : Z) : WM Z :=
  wakelocks_setup n_deleted n_main n_unknown n_sync ;;
  let fail ret := wakelocks_exit ;; mret ret in
  if negb (dev =? 0) then fail dev
  else if negb (drv =? 0) then fail drv
  else if negb wq then fail (- ENOMEM)
  else if negb sq then fail (- ENOMEM)
  else mret 0.

(** ** Time *)
(** The tick: [n] jiffies pass, [expire_wake_locks] is called if the timer is due, and the
    wall clock is updated. *)
Definition tick (n : Z) (kt tomono : timespec) : WM unit :=
  fired ← on_timer (tm_tick n);
  modify (set_times kt tomono) ;;
  if (fired : bool) then expire_wake_locks else mret tt.
End ops.

(** ** Flags *)
Definition flag (k : Z) (l : wake_lock_s) : bool := Z.testbit (flags l) k.
Definition type_of (l : wake_lock_s) : Z := Z.land (flags l) WAKE_LOCK_TYPE_MASK.

Lemma has_bits_flag k l : 0 <= k -> has_bits (Z.shiftl 1 k) l = flag k l.
Proof.
  intros Hk. unfold has_bits, flag. rewrite Z.shiftl_1_l. destruct (Z.testbit (flags l) k) eqn:E.
  - destruct (Z.eqb_spec (Z.land (flags l) (2 ^ k)) 0) as [E0|]; [|done]. apply (f_equal (λ z, Z.testbit z k)) in E0.
    rewrite Z.land_spec, E, Z.pow2_bits_true, Z.bits_0 in E0 by done. done.
  - assert (Z.land (flags l) (2 ^ k) = 0) as ->; [|done]. apply Z.bits_inj_0. intros n. rewrite Z.land_spec, Z.pow2_bits_eqb by done.
    destruct (Z.eqb_spec k n) as [->|]; [by rewrite E|apply andb_false_r].
Qed.
Lemma flag_set k b l : 0 <= b -> flag k (set_bits (Z.shiftl 1 b) l) = flag k l || (b =? k).
Proof. intros Hb. unfold flag, set_bits. cbn [flags set_flags]. rewrite Z.lor_spec, Z.shiftl_1_l, Z.pow2_bits_eqb by done. done. Qed.
Lemma flag_clear k b l : 0 <= k < 32 -> flag k (clear_bits b l) = flag k l && negb (Z.testbit b k).
Proof.
  intros Hk. unfold flag, clear_bits. cbn [flags set_flags]. rewrite Z.land_spec. unfold u32. rewrite Z.mod_pow2_bits_low by lia. by rewrite Z.lnot_spec by lia.
Qed.
(** Locks that differ only in what the statistics are about. *)
Definition low_flags (l l' : wake_lock_s) : Prop := forall k, 0 <= k < 8 -> flag k l' = flag k l.
Lemma type_of_low l l' : low_flags l l' -> type_of l' = type_of l.
Proof.
  intros H. unfold type_of. apply Z.bits_inj'. intros k Hk. rewrite !Z.land_spec. change WAKE_LOCK_TYPE_MASK with (Z.ones 4).
  destruct (Z.lt_ge_cases k 4).
  - f_equal. apply H. lia.
  - by rewrite Z.ones_spec_high, !andb_false_r by lia.
Qed.
Definition kept (l l' : wake_lock_s) : Prop := expires l' = expires l /\ name l' = name l /\ forall k, 0 <= k < 11 -> flag k l' = flag k l.
#[export] Instance kept_refl : Reflexive kept.
Proof. done. Qed.
#[export] Instance kept_trans : Transitive kept.
Proof. intros a b c (H1 & H2 & H3) (H4 & H5 & H6). split; [congruence|]. split; [congruence|]. intros k Hk. by rewrite H6, H3. Qed.
Lemma kept_type l l' : kept l l' -> type_of l' = type_of l.
Proof. intros (_ & _ & H). apply type_of_low. intros k Hk. apply H. lia. Qed.
Lemma kept_stat f l : kept l (set_stat f l).
Proof. done. Qed.
Lemma kept_set_prevent l : kept l (set_bits WAKE_LOCK_PREVENTING_SUSPEND l).
Proof. split; [done|]. split; [done|]. intros k Hk. rewrite (flag_set k 11) by lia. rewrite (proj2 (Z.eqb_neq 11 k)) by lia. apply orb_false_r. Qed.
Lemma kept_clear_prevent l : kept l (clear_bits WAKE_LOCK_PREVENTING_SUSPEND l).
Proof.
  split; [done|]. split; [done|]. intros k Hk. rewrite flag_clear by lia. unfold WAKE_LOCK_PREVENTING_SUSPEND. rewrite Z.shiftl_1_l, Z.pow2_bits_false by lia. apply andb_true_r.
Qed.
Create HintDb wakelock.
#[export] Hint Resolve kept_stat kept_set_prevent kept_clear_prevent : wakelock.

(** ** Steps of the statistics *)
Section stats.
Context {W : Type} `{!ExpireTimer W}.
Implicit Types (s : wls W) (p x y : Z).

(** What the invariant is about, apart from the lists and the locks. *)
Definition env s := (inactive_locks s, active_wake_locks s, (main_wake_lock s, unknown_wakeup s, deleted_wake_locks s), current_event_num s, expire_timer s, suspend_queued s, suspending s, sync_wake_lock s).
Record sstep s s' : Prop := {
  ss_lists : lists s' = lists s;
  ss_env : env s' = env s;
  ss_locks : forall y, option_Forall2 kept (locks s !! y) (locks s' !! y);
}.
#[export] Instance sstep_refl : Reflexive sstep.
Proof. intros s. split; [done|done|]. intros y. by destruct (locks s !! y); constructor. Qed.
#[export] Instance sstep_trans : Transitive sstep.
Proof.
  intros s1 s2 s3 [H1 H2 H3] [H4 H5 H6]. split; [congruence|congruence|]. intros y. specialize (H3 y). specialize (H6 y).
  inversion H3 as [a b Hab E1 E2|E1 E2]; inversion H6 as [c d Hcd E3 E4|E3 E4]; try congruence; constructor. etrans; [done|]. congruence.
Qed.
Lemma sstep_lock s s' y l : sstep s s' -> locks s !! y = Some l -> exists l', locks s' !! y = Some l' /\ kept l l'.
Proof. intros H E. pose proof (ss_locks _ _ H y) as Hy. rewrite E in Hy. inversion Hy; eauto. Qed.
Lemma sstep_is_Some s s' y : sstep s s' -> is_Some (locks s !! y) -> is_Some (locks s' !! y).
Proof. intros H [l E]. destruct (sstep_lock _ _ _ _ H E) as (l' & -> & _). eauto. Qed.

(** An action that works on the lock [p] and changes only its statistics. *)
Definition at_lock (p : Z) {A} (m : M (wls W) A) : Prop := forall s, is_Some (locks s !! p) -> exists a s', m s = Some (a, s') /\ sstep s s'.
Lemma at_ret p {A} (a : A) : at_lock p (mret a).
Proof. intros s _. by exists a, s. Qed.
Lemma at_bind p {A B} (m : M (wls W) A) (f : A -> M (wls W) B) : at_lock p m -> (forall a, at_lock p (f a)) -> at_lock p (m ≫= f).
Proof.
  intros Hm Hf s Hs. destruct (Hm s Hs) as (a & s1 & E1 & H1). destruct (Hf a s1) as (b & s2 & E2 & H2); [by eapply sstep_is_Some|].
  exists b, s2. mrun E1. split; [done|]. by etrans.
Qed.
Lemma at_get p : at_lock p get.
Proof. intros s _. by exists s, s. Qed.
Lemma at_get_lock p : at_lock p (get_lock p).
Proof. intros s [l E]. exists l, s. unfold get_lock. by rewrite E. Qed.
Lemma at_upd p f : (forall l, kept l (f l)) -> at_lock p (upd_lock p f).
Proof.
  intros Hf s [l E]. unfold upd_lock. rewrite E. eexists _, _. split; [done|]. split; [done|done|]. intros y. cbn [locks set_locks].
  destruct (decide (y = p)) as [->|]; [rewrite lookup_insert_eq, E; by constructor|]. rewrite lookup_insert_ne by done. by destruct (locks s !! y); constructor.
Qed.
Lemma at_upd_stat p f : at_lock p (upd_stat p f).
Proof. apply at_upd. intros l. apply kept_stat. Qed.
Lemma at_ktime_get p : at_lock p ktime_get.
Proof. intros s _. eexists _, _. split; [done|]. split; [done|done|]. intros y. cbn. by destruct (locks s !! y); constructor. Qed.
Lemma at_stats p f : at_lock p (modify (λ s, set_stats (f s).1.1 (f s).1.2 (f s).2 s)).
Proof. intros s _. eexists _, _. split; [done|]. split; [done|done|]. intros y. cbn. by destruct (locks s !! y); constructor. Qed.
Lemma at_expired_time p : at_lock p (get_expired_time p).
Proof.
  unfold get_expired_time. apply at_bind; [apply at_get_lock|]. intros l. case_match; [apply at_ret|]. apply at_bind; [apply at_get|]. intros s.
  case_match; [apply at_ret|]. cbv zeta. rewrite set_normalized_run by apply s32_range. apply at_ret.
Qed.
End stats.
#[export] Hint Resolve at_ret at_get at_get_lock at_upd at_upd_stat at_ktime_get at_stats at_expired_time : wakelock.
Ltac at_lock := repeat first [ progress intros | solve [auto with wakelock] | apply at_bind | progress case_match ].

Section stats_ops.
Context {W : Type} `{!ExpireTimer W}.
Implicit Types (s : wls W) (p x y : Z).
Lemma at_unlock_stat p e : at_lock p (wake_unlock_stat_locked p e).
Proof. unfold wake_unlock_stat_locked. at_lock. Qed.
Lemma at_update p done_ el : at_lock p (update_sleep_wait done_ el p).
Proof. unfold update_sleep_wait. at_lock. Qed.
End stats_ops.
#[export] Hint Resolve at_unlock_stat at_update : wakelock.
Lemma at_wakeup {W : Type} `{!ExpireTimer W} p ty : at_lock p (wake_lock_wakeup p ty : M (wls W) unit).
Proof.
  unfold wake_lock_wakeup. apply at_bind; [apply at_get|]. intros s. apply at_bind; [|at_lock]. case_match; [|at_lock].
  apply at_bind; [|at_lock]. apply (at_stats _ (λ s, (last_sleep_time_update s, false, reads s))).
Qed.
#[export] Hint Resolve at_wakeup : wakelock.

(** ** The lists

    For each type, the locks that are active without and with a timeout, in the order of
    the list; and the locks that are not active. *)
Record view := View { perm : Z -> list Z; timed : Z -> list Z; idle : list Z }.
Definition listed (A : view) (x : Z) : Prop := x ∈ idle A \/ exists ty, 0 <= ty < 2 /\ x ∈ perm A ty ++ timed A ty.
Definition out (x : Z) (A : view) : view :=
  View (λ t, filter (λ y, y <> x) (perm A t)) (λ t, filter (λ y, y <> x) (timed A t)) (filter (λ y, y <> x) (idle A)).
Definition put_perm (x ty : Z) (A : view) : view := View (λ t, if t =? ty then x :: perm A t else perm A t) (timed A) (idle A).
Definition put_timed (x ty : Z) (A : view) : view := View (perm A) (λ t, if t =? ty then timed A t ++ [x] else timed A t) (idle A).
Definition put_idle (x : Z) (A : view) : view := View (perm A) (timed A) (x :: idle A).

(** A lock that is set up, of a given type, active or not, with or without a timeout. *)
Record lock_in (ty : Z) (a e : bool) (l : wake_lock_s) : Prop := {
  li_type : type_of l = ty;
  li_init : flag 8 l = true;
  li_active : flag 9 l = a;
  li_auto : flag 10 l = e;
}.
Lemma lock_in_kept ty a e l l' : lock_in ty a e l -> kept l l' -> lock_in ty a e l'.
Proof. intros [] Hk. pose proof (kept_type _ _ Hk). destruct Hk as (_ & _ & Hk). split; [congruence|rewrite Hk by lia; done..]. Qed.

Section lists.
Context {W : Type} `{!ExpireTimer W}.
Implicit Types (s : wls W) (A : view) (L : heads) (x y ty : Z).

Definition lock_at s (ty : Z) (a e : bool) (x : Z) : Prop := exists l, locks s !! x = Some l /\ lock_in ty a e l.

Record rep s L A : Prop := {
  rp_lists : lrep (lists s) L;
  rp_active : forall ty, 0 <= ty < 2 -> L !! head s ty = Some (perm A ty ++ timed A ty);
  rp_idle : L !! inactive_locks s = Some (idle A);
  rp_sep : forall ty, 0 <= ty < 2 -> inactive_locks s <> head s ty;
  rp_node : forall x, is_Some (locks s !! x) -> allocated (lists s) x /\ L !! x = None;
  rp_perm_in : forall ty x, 0 <= ty < 2 -> x ∈ perm A ty -> lock_at s ty true false x;
  rp_timed_in : forall ty x, 0 <= ty < 2 -> x ∈ timed A ty -> lock_at s ty true true x;
  rp_idle_in : forall x, x ∈ idle A -> exists ty, 0 <= ty < 2 /\ lock_at s ty false false x;
  rp_init : forall x l, locks s !! x = Some l -> flag 8 l = true -> listed A x;
  rp_only : forall h l, L !! h = Some l -> h = inactive_locks s \/ exists ty, 0 <= ty < 2 /\ h = head s ty;
}.

Lemma head_inj s ty ty' : head s ty = head s ty' -> ty = ty'.
Proof. unfold head. lia. Qed.

Lemma listed_on s L A x : rep s L A -> listed A x -> exists h l, L !! h = Some l /\ x ∈ l.
Proof.
  intros Hr [Hx|(ty & Hty & Hx)]; [by exists (inactive_locks s), (idle A); split; [apply Hr|]|].
  exists (head s ty), (perm A ty ++ timed A ty). split; [by apply Hr|done].
Qed.
Lemma listed_lock s L A x : rep s L A -> listed A x -> exists ty a e, 0 <= ty < 2 /\ lock_at s ty a e x.
Proof.
  intros Hr [Hx|(ty & Hty & [Hx|Hx]%elem_of_app)].
  - destruct (rp_idle_in _ _ _ Hr x Hx) as (ty & ? & ?). by exists ty, false, false.
  - exists ty, true, false. split; [done|]. by apply Hr.
  - exists ty, true, true. split; [done|]. by apply Hr.
Qed.

(** The statistics do not matter. *)
Lemma lock_at_kept s s' ty a e x : (forall y, y = x -> option_Forall2 kept (locks s !! y) (locks s' !! y)) -> lock_at s ty a e x -> lock_at s' ty a e x.
Proof. intros H (l & E & Hl). specialize (H x eq_refl). rewrite E in H. inversion H as [? l' Hk E1 E2|]. subst. exists l'. split; [done|]. by eapply lock_in_kept. Qed.
Lemma rep_sstep s s' L A : rep s L A -> sstep s s' -> rep s' L A.
Proof.
  intros [H1 H2 H3 H4 H5 H6 H7 H8 H9 H10] [S1 S2 S3]. unfold env in S2. injection S2 as Ei Ea _ _ _ _ _ _ _ _.
  assert (forall ty, head s' ty = head s ty) as Eh by (intros ty; unfold head; by rewrite Ea).
  assert (forall ty a e x, lock_at s ty a e x -> lock_at s' ty a e x) as Hl by (intros ty a e x; apply lock_at_kept; intros y _; apply S3).
  split; rewrite ?S1, ?Ei; auto.
  - intros ty Hty. rewrite Eh. by apply H2.
  - intros ty Hty. rewrite Eh. by apply H4.
  - intros x [l' E]. apply H5. specialize (S3 x). rewrite E in S3. inversion S3. eauto.
  - intros x Hx. destruct (H8 x Hx) as (ty & ? & ?). exists ty. auto.
  - intros x l' E Hf. specialize (S3 x). rewrite E in S3. inversion S3 as [l ? (_ & _ & Hk) E1 E2|]. apply (H9 x l); [done|]. subst. rewrite <-Hk by lia. done.
  - intros h l E. destruct (H10 h l E) as [?|(ty & ? & ?)]; [by left|right]. exists ty. by rewrite Eh.
Qed.

(** Moving a lock.  [s'] is a state after the lock was moved, when the flags fit its new
    place. *)
Definition moved (x : Z) (m' : mem) s s' : Prop :=
  lists s' = m' /\ inactive_locks s' = inactive_locks s /\ active_wake_locks s' = active_wake_locks s /\
  forall y, y <> x -> option_Forall2 kept (locks s !! y) (locks s' !! y).

Lemma out_listed A x y : listed A y -> y <> x -> listed (out x A) y.
Proof.
  intros [Hy|(ty & Hty & Hy)] Hne; [left|right; exists ty; split; [done|]]; cbn.
  - by apply list_elem_of_filter.
  - rewrite <-filter_app. by apply list_elem_of_filter.
Qed.

Lemma rep_out s L A x : rep s L A -> listed A x ->
  exists m' L', list_del x (lists s) = Some (tt, m') /\ lrep m' L' /\ (forall h', ~ own L' x h') /\
    (forall q, allocated (lists s) q -> allocated m' q) /\ allocated m' x /\ L' = filter (λ y, y <> x) <$> L /\
    (forall ty, 0 <= ty < 2 -> L' !! head s ty = Some (perm (out x A) ty ++ timed (out x A) ty)) /\ L' !! inactive_locks s = Some (idle (out x A)).
Proof.
  intros Hr Hx. destruct (listed_on _ _ _ _ Hr Hx) as (h & l & E & Hin). destruct (heap_del_any _ _ _ _ _ (rp_lists _ _ _ Hr) E Hin) as (m' & Hrun & Hr' & Hu & Ha).
  exists m', (filter (λ y, y <> x) <$> L). split_and!; try done.
  - apply Ha. destruct (listed_lock _ _ _ _ Hr Hx) as (ty & a & e & _ & l0 & El & _). by apply Hr; eexists.
  - intros ty Hty. rewrite lookup_fmap, (rp_active _ _ _ Hr) by done. cbn. by rewrite filter_app.
  - rewrite lookup_fmap, (rp_idle _ _ _ Hr). done.
Qed.

(** The lists after [x] was moved: [A2] is their new view. *)
Lemma rep_place s s' L A x m2 A2 L2 :
  rep s L A -> lrep m2 L2 -> (forall q, allocated (lists s) q -> allocated m2 q) -> moved x m2 s s' -> is_Some (locks s !! x) ->
  (forall h, is_Some (L2 !! h) -> is_Some (L !! h)) ->
  (forall ty, 0 <= ty < 2 -> L2 !! head s ty = Some (perm A2 ty ++ timed A2 ty)) -> L2 !! inactive_locks s = Some (idle A2) ->
  (forall ty y, 0 <= ty < 2 -> y ∈ perm A2 ty -> (y = x /\ lock_at s' ty true false x) \/ (y ∈ perm A ty /\ y <> x)) ->
  (forall ty y, 0 <= ty < 2 -> y ∈ timed A2 ty -> (y = x /\ lock_at s' ty true true x) \/ (y ∈ timed A ty /\ y <> x)) ->
  (forall y, y ∈ idle A2 -> (y = x /\ exists ty, 0 <= ty < 2 /\ lock_at s' ty false false x) \/ (y ∈ idle A /\ y <> x)) ->
  (forall y, listed A y -> y <> x -> listed A2 y) -> (listed A2 x \/ forall l, locks s' !! x = Some l -> flag 8 l = false) -> rep s' L2 A2.
Proof.
  intros [H1 H2 H3 H4 H5 H6 H7 H8 H9 H10] Hr2 Ha (M1 & M2 & M3 & M4) Hx Hdm HA HI HP HT Hid Hlis Hlx.
  assert (forall ty, head s' ty = head s ty) as Eh by (intros ty; unfold head; by rewrite M3).
  assert (forall ty a e y, y <> x -> lock_at s ty a e y -> lock_at s' ty a e y) as Hl by (intros ty a e y Hne; apply lock_at_kept; intros ? ->; by apply M4).
  assert (forall y, is_Some (locks s' !! y) -> is_Some (locks s !! y)) as Hdom.
  { intros y [l' E]. destruct (decide (y = x)) as [->|Hne]; [done|]. specialize (M4 y Hne). rewrite E in M4. inversion M4. eauto. }
  split; rewrite ?M1, ?M2; auto.
  - intros ty Hty. rewrite Eh. by apply HA.
  - intros ty Hty. rewrite Eh. by apply H4.
  - intros y Hy%Hdom. destruct (H5 y Hy) as [Hal HL]. split; [by apply Ha|]. apply eq_None_not_Some. intros [? ?]%Hdm. congruence.
  - intros ty y Hty Hy. destruct (HP ty y Hty Hy) as [[-> ?]|[? ?]]; auto.
  - intros ty y Hty Hy. destruct (HT ty y Hty Hy) as [[-> ?]|[? ?]]; auto.
  - intros y Hy. destruct (Hid y Hy) as [[-> ?]|[Hin ?]]; [done|]. destruct (H8 y Hin) as (ty & ? & ?). exists ty. auto.
  - intros y l' E Hf. destruct (decide (y = x)) as [->|Hne]; [destruct Hlx as [?|Hno]; [done|by rewrite (Hno _ E) in Hf]|]. apply Hlis; [|done]. specialize (M4 y Hne). rewrite E in M4.
    inversion M4 as [l ? (_ & _ & Hk) E1 E2|]. apply (H9 y l); [done|]. subst. rewrite <-Hk by lia. done.
  - intros h l E. destruct (Hdm h) as [l0 E0]; [by eexists|].
    destruct (H10 h l0 E0) as [?|(ty & ? & ?)]; [by left|right]. exists ty. by rewrite Eh.
Qed.

Lemma placed_dom (L : heads) (x h2 : Z) (k : list Z) : is_Some (L !! h2) -> forall h, is_Some ((<[h2 := k]> ((filter (λ y, y <> x) <$> L) : heads)) !! h) -> is_Some (L !! h).
Proof. intros H2 h H. destruct (decide (h2 = h)) as [<-|Hne]; [done|]. rewrite lookup_insert_ne, lookup_fmap in H by done. by apply fmap_is_Some in H. Qed.
Lemma in_filter_ne (l : list Z) x y : y ∈ filter (λ z, z <> x) l -> y ∈ l /\ y <> x.
Proof. intros [? ?]%list_elem_of_filter. done. Qed.

Lemma move_perm s L A x ty : rep s L A -> listed A x -> 0 <= ty < 2 ->
  exists m1 m2 L', list_del x (lists s) = Some (tt, m1) /\ list_add x (head s ty) m1 = Some (tt, m2) /\
    forall s', moved x m2 s s' -> lock_at s' ty true false x -> rep s' L' (put_perm x ty (out x A)).
Proof.
  intros Hr Hx Hty. destruct (rep_out _ _ _ _ Hr Hx) as (m1 & L1 & Hdel & Hr1 & Hu & Ha & Hax & EL & HA & HI).
  destruct (heap_add_unowned _ _ _ _ _ Hr1 (HA ty Hty) Hu Hax) as (m2 & Hadd & Hr2 & Ha2). exists m1, m2. eexists. split; [done|]. split; [done|].
  intros s' Hm Hl. rewrite EL in Hr2. eapply rep_place; [exact Hr|exact Hr2|auto|exact Hm|..]; rewrite <-?EL.
  - destruct (listed_lock _ _ _ _ Hr Hx) as (? & ? & ? & _ & l & El & _). eauto.
  - rewrite EL. apply placed_dom. by rewrite (rp_active _ _ _ Hr).
  - intros ty' Hty'. cbn. destruct (Z.eqb_spec ty' ty) as [->|Hne]; [by rewrite lookup_insert_eq|]. rewrite lookup_insert_ne by (intros ?%head_inj; done). by apply HA.
  - rewrite lookup_insert_ne by (apply not_eq_sym; by apply (rp_sep _ _ _ Hr)). done.
  - intros ty' y Hty' Hy. cbn in Hy. destruct (Z.eqb_spec ty' ty) as [->|]; [apply elem_of_cons in Hy as [->|Hy]; [by left|]|]; right; by apply in_filter_ne.
  - intros ty' y Hty' Hy. right. by apply in_filter_ne.
  - intros y Hy. right. by apply in_filter_ne.
  - intros y Hy Hne. destruct (out_listed A x y Hy Hne) as [?|(ty' & Hty' & Hy')]; [by left|right]. exists ty'. split; [done|]. cbn. case_match; set_solver +Hy'.
  - left. right. exists ty. split; [done|]. cbn. rewrite Z.eqb_refl. set_solver +.
Qed.
Lemma move_timed s L A x ty : rep s L A -> listed A x -> 0 <= ty < 2 ->
  exists m1 m2 L', list_del x (lists s) = Some (tt, m1) /\ list_add_tail x (head s ty) m1 = Some (tt, m2) /\
    forall s', moved x m2 s s' -> lock_at s' ty true true x -> rep s' L' (put_timed x ty (out x A)).
Proof.
  intros Hr Hx Hty. destruct (rep_out _ _ _ _ Hr Hx) as (m1 & L1 & Hdel & Hr1 & Hu & Ha & Hax & EL & HA & HI).
  destruct (heap_add_tail_unowned _ _ _ _ _ Hr1 (HA ty Hty) Hu Hax) as (m2 & Hadd & Hr2 & Ha2). exists m1, m2. eexists. split; [done|]. split; [done|].
  intros s' Hm Hl. rewrite EL in Hr2. eapply rep_place; [exact Hr|exact Hr2|auto|exact Hm|..]; rewrite <-?EL.
  - destruct (listed_lock _ _ _ _ Hr Hx) as (? & ? & ? & _ & l & El & _). eauto.
  - rewrite EL. apply placed_dom. by rewrite (rp_active _ _ _ Hr).
  - intros ty' Hty'. cbn. destruct (Z.eqb_spec ty' ty) as [->|Hne]; [by rewrite lookup_insert_eq, app_assoc|]. rewrite lookup_insert_ne by (intros ?%head_inj; done). by apply HA.
  - rewrite lookup_insert_ne by (apply not_eq_sym; by apply (rp_sep _ _ _ Hr)). done.
  - intros ty' y Hty' Hy. right. by apply in_filter_ne.
  - intros ty' y Hty' Hy. cbn in Hy. destruct (Z.eqb_spec ty' ty) as [->|]; [apply elem_of_app in Hy as [Hy|Hy%list_elem_of_singleton]; [|subst y; by left]|]; right; by apply in_filter_ne.
  - intros y Hy. right. by apply in_filter_ne.
  - intros y Hy Hne. destruct (out_listed A x y Hy Hne) as [?|(ty' & Hty' & Hy')]; [by left|right]. exists ty'. split; [done|]. cbn. case_match; set_solver +Hy'.
  - left. right. exists ty. split; [done|]. cbn. rewrite Z.eqb_refl. set_solver +.
Qed.
Lemma move_idle s L A x : rep s L A -> listed A x ->
  exists m1 m2 L', list_del x (lists s) = Some (tt, m1) /\ list_add x (inactive_locks s) m1 = Some (tt, m2) /\
    forall s' ty, moved x m2 s s' -> 0 <= ty < 2 -> lock_at s' ty false false x -> rep s' L' (put_idle x (out x A)).
Proof.
  intros Hr Hx. destruct (rep_out _ _ _ _ Hr Hx) as (m1 & L1 & Hdel & Hr1 & Hu & Ha & Hax & EL & HA & HI).
  destruct (heap_add_unowned _ _ _ _ _ Hr1 HI Hu Hax) as (m2 & Hadd & Hr2 & Ha2). exists m1, m2. eexists. split; [done|]. split; [done|].
  intros s' ty Hm Hty Hl. rewrite EL in Hr2. eapply rep_place; [exact Hr|exact Hr2|auto|exact Hm|..]; rewrite <-?EL.
  - destruct (listed_lock _ _ _ _ Hr Hx) as (? & ? & ? & _ & l & El & _). eauto.
  - rewrite EL. apply placed_dom. by rewrite (rp_idle _ _ _ Hr).
  - intros ty' Hty'. rewrite lookup_insert_ne by (by apply (rp_sep _ _ _ Hr)). by apply HA.
  - by rewrite lookup_insert_eq.
  - intros ty' y Hty' Hy. right. by apply in_filter_ne.
  - intros ty' y Hty' Hy. right. by apply in_filter_ne.
  - intros y [->|Hy]%elem_of_cons; [left|right; by apply in_filter_ne]. split; [done|]. by exists ty.
  - intros y Hy Hne. destruct (out_listed A x y Hy Hne) as [?|(ty' & Hty' & Hy')]; [left; cbn; set_solver|right]. by exists ty'.
  - left. left. cbn. set_solver +.
Qed.
End lists.

(** ** Expiry *)
Lemma lock_in_release ty a e l : lock_in ty a e l -> lock_in ty false false (clear_bits (Z.lor WAKE_LOCK_ACTIVE WAKE_LOCK_AUTO_EXPIRE) l).
Proof.
  intros [H1 H2 H3 H4]. split.
  - rewrite <-H1. apply type_of_low. intros k Hk. rewrite flag_clear by lia. unfold WAKE_LOCK_ACTIVE, WAKE_LOCK_AUTO_EXPIRE.
    rewrite Z.lor_spec, !Z.shiftl_1_l, !Z.pow2_bits_false by lia. apply andb_true_r.
  - rewrite flag_clear by lia. by rewrite H2.
  - rewrite flag_clear by lia. apply andb_false_r.
  - rewrite flag_clear by lia. apply andb_false_r.
Qed.

Section expiry.
Context {W : Type} `{!ExpireTimer W}.
Implicit Types (s : wls W) (A : view) (L : heads) (x y ty : Z).

Lemma on_mem_run {R : Type} (f : M mem R) s a m' : f (lists s) = Some (a, m') -> on_lists f s = Some (a, set_lists m' s).
Proof. intros H. unfold on_lists. by rewrite H. Qed.
Lemma same_lists s : set_lists (lists s) s = s.
Proof. by destruct s. Qed.
Lemma upd_lock_run s p f l : locks s !! p = Some l -> upd_lock p f s = Some (tt, set_locks (<[p := f l]> (locks s)) s).
Proof. intros E. unfold upd_lock. by rewrite E. Qed.
Lemma get_lock_run s p l : locks s !! p = Some l -> get_lock p s = Some (l, s).
Proof. intros E. unfold get_lock. by rewrite E. Qed.

(** The time that a lock has left. *)
Definition key s (x : Z) : Z := match locks s !! x with Some l => s32 (expires l - jiffies s) | None => 0 end.

(** Nothing but lists, flags and statistics changes. *)
Definition same_lock (l l' : wake_lock_s) : Prop := expires l' = expires l /\ type_of l' = type_of l.
Record quiet s s' : Prop := {
  q_env : env s' = env s;
  q_locks : forall y, option_Forall2 same_lock (locks s !! y) (locks s' !! y);
}.
#[export] Instance quiet_refl : Reflexive quiet.
Proof. intros s. split; [done|]. intros y. by destruct (locks s !! y); constructor. Qed.
#[export] Instance quiet_trans : Transitive quiet.
Proof.
  intros s1 s2 s3 [H2 H3] [H5 H6]. split; [congruence|]. intros y. specialize (H3 y). specialize (H6 y).
  inversion H3 as [a b [Ha Hb] E1 E2|E1 E2]; inversion H6 as [c d [Hc Hd] E3 E4|E3 E4]; try congruence; constructor. split; congruence.
Qed.
Lemma sstep_quiet s s' : sstep s s' -> quiet s s'.
Proof. intros [_ H2 H3]. split; [done|]. intros y. specialize (H3 y). inversion H3 as [a b Hk E1 E2|E1 E2]; constructor. split; [apply Hk|by apply kept_type]. Qed.
Lemma quiet_jiffies s s' : quiet s s' -> jiffies s' = jiffies s.
Proof. intros [H _]. unfold env in H. unfold jiffies. congruence. Qed.
Lemma quiet_head s s' ty : quiet s s' -> head s' ty = head s ty.
Proof. intros [H _]. unfold env in H. unfold head. congruence. Qed.
Lemma quiet_key s s' x : quiet s s' -> key s' x = key s x.
Proof. intros H. unfold key. rewrite (quiet_jiffies _ _ H). pose proof (q_locks _ _ H x) as Hx. inversion Hx as [a b [Ha _] E1 E2|E1 E2]; [by rewrite Ha|done]. Qed.

Lemma deactivate_run s L A x b : rep s L A -> listed A x ->
  exists s' L', deactivate x b s = Some (tt, s') /\ rep s' L' (put_idle x (out x A)) /\ quiet s s'.
Proof.
  intros Hr Hx. destruct (listed_lock _ _ _ _ Hr Hx) as (ty & a & e & Hty & l & El & Hl).
  destruct (at_unlock_stat x b s) as ([] & s1 & Hst & Hss); [by eexists|]. pose proof (rep_sstep _ _ _ _ Hr Hss) as Hr1.
  destruct (sstep_lock _ _ _ _ Hss El) as (l1 & El1 & Hk). destruct (move_idle _ _ _ _ Hr1 Hx) as (m1 & m2 & L' & Hdel & Hadd & Hrep).
  set (s2 := set_lists m2 (set_locks (<[x := clear_bits (Z.lor WAKE_LOCK_ACTIVE WAKE_LOCK_AUTO_EXPIRE) l1]> (locks s1)) s1)).
  exists s2, L'. split; [|split].
  - unfold deactivate. mrun Hst. mrun (upd_lock_run _ _ (clear_bits (Z.lor WAKE_LOCK_ACTIVE WAKE_LOCK_AUTO_EXPIRE)) _ El1).
    mrun (on_mem_run (list_del x) (set_locks (<[x := clear_bits (Z.lor WAKE_LOCK_ACTIVE WAKE_LOCK_AUTO_EXPIRE) l1]> (locks s1)) s1) tt m1 Hdel).
    erewrite bind_run by done. unfold on_lists. cbn [lists set_lists set_locks inactive_locks]. by rewrite Hadd.
  - apply (Hrep s2 ty); [|done|].
    + split_and!; [done..|]. intros y Hy. cbn. rewrite lookup_insert_ne by done. by destruct (locks s1 !! y); constructor.
    + eexists. cbn. split; [apply lookup_insert_eq|]. eapply lock_in_release, lock_in_kept; [exact Hl|done].
  - etrans; [by apply sstep_quiet|]. split; [done|]. intros y. cbn. destruct (decide (y = x)) as [->|].
    + rewrite El1, lookup_insert_eq. constructor. split; [done|].
      rewrite (li_type _ _ _ _ (lock_in_release ty a e l1 (lock_in_kept _ _ _ _ _ Hl Hk))). by rewrite (kept_type _ _ Hk), (li_type _ _ _ _ Hl).
    + rewrite lookup_insert_ne by done. by destruct (locks s1 !! y); constructor.
Qed.

(** A lock with a timeout is on one list only. *)
Lemma timed_only s L A x ty t : rep s L A -> 0 <= ty < 2 -> 0 <= t < 2 -> x ∈ timed A ty -> x ∉ perm A t /\ (t <> ty -> x ∉ timed A t).
Proof.
  intros Hr Hty Ht Hx. destruct (rp_timed_in _ _ _ Hr ty x Hty Hx) as (l & El & Hl). split.
  - intros Hp. destruct (rp_perm_in _ _ _ Hr t x Ht Hp) as (l' & El' & Hl'). destruct Hl, Hl'. congruence.
  - intros Hne Hp. destruct (rp_timed_in _ _ _ Hr t x Ht Hp) as (l' & El' & Hl'). destruct Hl, Hl'. congruence.
Qed.
Lemma active_nodup s L A ty : rep s L A -> 0 <= ty < 2 -> NoDup (perm A ty ++ timed A ty).
Proof. intros Hr Hty. pose proof (lrep_nodup _ _ _ _ (rp_lists _ _ _ Hr) (rp_active _ _ _ Hr ty Hty)) as Hn. by apply NoDup_cons in Hn as [_ Hn]. Qed.
Lemma put_idle_listed A x y : listed A x -> listed (put_idle x (out x A)) y <-> listed A y.
Proof.
  intros Hx. split.
  - intros [Hy|(ty & Hty & Hy)].
    + cbn in Hy. apply elem_of_cons in Hy as [->|Hy]; [done|]. left. by apply in_filter_ne in Hy as [? _].
    + right. exists ty. split; [done|]. cbn in Hy. rewrite <-filter_app in Hy. by apply in_filter_ne in Hy as [? _].
  - intros Hy. destruct (decide (y = x)) as [->|Hne]; [left; cbn; set_solver +|]. destruct (out_listed A x y Hy Hne) as [?|?]; [left; cbn; set_solver|by right].
Qed.

(** The walk over the locks with timeouts: those whose time is over are not active
    afterwards, and the result is the longest time of the others. *)
Definition longest s (m : Z) (l : list Z) : Z := foldl (λ m x, Z.max (key s x) m) m l.
Definition alive s (l : list Z) : list Z := filter (λ x, 0 < key s x) l.
Lemma has_walk_run ty fuel : forall rest pre s L A m, 0 <= ty < 2 -> rep s L A -> perm A ty = [] -> timed A ty = pre ++ rest -> (length rest < fuel)%nat -> 0 <= m ->
  exists s' L' A', has_walk fuel (head s ty) (hd (head s ty) rest) m s = Some (longest s m rest, s') /\ rep s' L' A' /\ quiet s s' /\
    (forall t, 0 <= t < 2 -> perm A' t = perm A t /\ timed A' t = if t =? ty then pre ++ alive s rest else timed A t) /\ (forall y, listed A' y <-> listed A y).
Proof.
  induction fuel as [|fuel IH]; intros rest pre s L A m Hty Hr HP HT Hf Hm; [lia|]. cbn [has_walk]. destruct rest as [|x rest]; cbn [hd].
  { rewrite Z.eqb_refl. exists s, L, A. split_and!; try done. intros t Ht. split; [done|]. cbn. rewrite app_nil_r in *. by destruct (Z.eqb_spec t ty) as [->|]. }
  pose proof (rp_active _ _ _ Hr ty Hty) as EL. rewrite HP, HT in EL. cbn [app] in EL.
  assert ((x =? head s ty) = false) as ->.
  { apply Z.eqb_neq. intros ->. pose proof (lrep_nodup _ _ _ _ (rp_lists _ _ _ Hr) EL) as Hn. apply NoDup_cons in Hn as [Hn _]. set_solver +Hn. }
  mrun (on_mem_run (get_next x) _ _ _ (heap_next _ _ _ _ _ _ (rp_lists _ _ _ Hr) EL)). rewrite same_lists.
  assert (x ∈ timed A ty) as Hx by (rewrite HT; set_solver +). destruct (rp_timed_in _ _ _ Hr ty x Hty Hx) as (l & El & Hl).
  mrun (get_lock_run _ _ _ El). unfold WAKE_LOCK_AUTO_EXPIRE. rewrite has_bits_flag, (li_auto _ _ _ _ Hl) by lia. erewrite bind_run by done. cbv zeta.
  assert (s32 (expires l - jiffies s) = key s x) as -> by (unfold key; by rewrite El).
  assert (timed A ty = (pre ++ [x]) ++ rest) as HT' by (by rewrite HT, <-app_assoc).
  destruct (Z.leb_spec (key s x) 0) as [Hle|Hgt].
  - assert (listed A x) as Hlx by (right; exists ty; set_solver +Hty Hx). destruct (deactivate_run _ _ _ _ true Hr Hlx) as (s1 & L1 & Hex & Hr1 & Hq1). unfold expire_wake_lock. mrun Hex.
    set (A1 := put_idle x (out x A)) in *. rewrite <-(quiet_head _ _ ty Hq1).
    assert (forall t, 0 <= t < 2 -> perm A1 t = perm A t /\ timed A1 t = if t =? ty then pre ++ rest else timed A t) as HA1.
    { intros t Ht. destruct (timed_only _ _ _ _ ty t Hr Hty Ht Hx) as [Hnp Hnt]. cbn. split; [by apply filter_ne_notin|].
      destruct (Z.eqb_spec t ty) as [->|Hne]; [|apply filter_ne_notin; auto]. rewrite HT. apply filter_ne. rewrite <-HT.
      pose proof (active_nodup _ _ _ ty Hr Hty) as Hn. by rewrite HP in Hn. }
    destruct (IH rest pre s1 L1 A1 m Hty Hr1) as (s' & L' & A' & Hrun & Hr' & Hq' & HA' & Hlis); [by destruct (HA1 ty Hty) as [-> _]|destruct (HA1 ty Hty) as [_ ->]; by rewrite Z.eqb_refl|cbn in Hf; lia|done|].
    exists s', L', A'. split_and!; [|done|by etrans|..].
    + rewrite Hrun. unfold longest. cbn [foldl]. rewrite Z.max_r by lia. f_equal. f_equal. clear -Hq1. revert m. induction rest as [|y rest IH]; intros m; [done|]. cbn. by rewrite (quiet_key _ _ _ Hq1), IH.
    + intros t Ht. destruct (HA' t Ht) as [-> ->]. destruct (HA1 t Ht) as [-> ->]. split; [done|]. destruct (t =? ty); [|done]. f_equal.
      unfold alive. rewrite filter_cons, decide_False by lia. apply list_filter_iff. intros y. by rewrite (quiet_key _ _ _ Hq1).
    + intros y. rewrite Hlis. by apply put_idle_listed.
  - assert ((if key s x >? m then has_walk fuel (head s ty) (hd (head s ty) rest) (key s x) else has_walk fuel (head s ty) (hd (head s ty) rest) m) s =
      has_walk fuel (head s ty) (hd (head s ty) rest) (Z.max (key s x) m) s) as ->.
    { rewrite Z.gtb_ltb. destruct (Z.ltb_spec m (key s x)); [by rewrite Z.max_l by lia|by rewrite Z.max_r by lia]. }
    destruct (IH rest (pre ++ [x]) s L A (Z.max (key s x) m) Hty Hr HP HT') as (s' & L' & A' & Hrun & Hr' & Hq' & HA' & Hlis); [cbn in Hf; lia|lia|].
    exists s', L', A'. split_and!; [done..| |done]. intros t Ht. destruct (HA' t Ht) as [-> ->]. split; [done|]. destruct (t =? ty); [|done].
    unfold alive. rewrite filter_cons, decide_True by lia. by rewrite <-app_assoc.
Qed.

Lemma listed_length s L A ty l : rep s L A -> 0 <= ty < 2 -> l = perm A ty ++ timed A ty -> (length l < S (size (locks s)))%nat.
Proof.
  intros Hr Hty ->. pose proof (active_nodup _ _ _ _ Hr Hty) as Hn. apply Nat.lt_succ_r. rewrite <-size_dom.
  transitivity (size (list_to_set (perm A ty ++ timed A ty) : gset Z)); [by rewrite size_list_to_set|]. apply subseteq_size.
  intros x [Hx|Hx]%elem_of_list_to_set%elem_of_app; apply elem_of_dom; [destruct (rp_perm_in _ _ _ Hr ty x Hty Hx) as (l & El & _)|destruct (rp_timed_in _ _ _ Hr ty x Hty Hx) as (l & El & _)]; eauto.
Qed.

Definition none (l : list Z) : bool := bool_decide (l = []).
Lemma has_run s L A ty : 0 <= ty < 2 -> rep s L A ->
  exists s' L' A', has_wake_lock_locked ty s = Some (if none (perm A ty) then longest s 0 (timed A ty) else -1, s') /\ rep s' L' A' /\ quiet s s' /\
    (forall t, 0 <= t < 2 -> perm A' t = perm A t /\ timed A' t = if (t =? ty) && none (perm A ty) then alive s (timed A t) else timed A t) /\ (forall y, listed A' y <-> listed A y).
Proof.
  intros Hty Hr. unfold has_wake_lock_locked. assert ((ty >=? WAKE_LOCK_TYPE_COUNT) = false) as -> by (unfold WAKE_LOCK_TYPE_COUNT; lia).
  cbn [BUG_ON]. rewrite bind_mret_l. erewrite bind_run by done. pose proof (rp_active _ _ _ Hr ty Hty) as EL.
  mrun (on_mem_run (get_next (head s ty)) _ _ _ (heap_first _ _ _ _ (rp_lists _ _ _ Hr) EL)). rewrite same_lists. destruct (perm A ty) as [|p P] eqn:EP.
  - cbn [none app] in *. destruct (has_walk_run ty (S (size (locks s))) (timed A ty) [] s L A 0 Hty Hr EP eq_refl) as (s' & L' & A' & Hrun & Hr' & Hq & HA & Hlis);
      [by apply (listed_length _ _ _ _ _ Hr Hty); rewrite EP|done|]. exists s', L', A'. split_and!; [done..| |done].
    intros t Ht. destruct (HA t Ht) as [-> ->]. split; [done|]. rewrite andb_true_r. by destruct (Z.eqb_spec t ty) as [->|].
  - exists s, L, A. split_and!; [|done..| |done].
    + cbn [has_walk hd app]. assert ((p =? head s ty) = false) as ->.
      { apply Z.eqb_neq. intros ->. pose proof (lrep_nodup _ _ _ _ (rp_lists _ _ _ Hr) EL) as Hn. apply NoDup_cons in Hn as [Hn _]. set_solver +Hn. }
      mrun (on_mem_run (get_next p) _ _ _ (heap_next _ _ _ [] _ _ (rp_lists _ _ _ Hr) EL)). rewrite same_lists.
      destruct (rp_perm_in _ _ _ Hr ty p Hty) as (l & El & Hl); [rewrite EP; set_solver +|]. mrun (get_lock_run _ _ _ El).
      unfold WAKE_LOCK_AUTO_EXPIRE. by rewrite has_bits_flag, (li_auto _ _ _ _ Hl) by lia.
    + intros t Ht. split; [done|]. change (none (p :: P)) with false. by rewrite andb_false_r.
Qed.

(** The longest time. *)
Lemma longest_spec s l : forall m, m <= longest s m l /\ (forall x, x ∈ l -> key s x <= longest s m l) /\ (longest s m l = m \/ exists x, x ∈ l /\ longest s m l = key s x).
Proof.
  induction l as [|x l IH]; intros m.
  { split; [done|]. split; [set_solver +|by left]. }
  change (longest s m (x :: l)) with (longest s (Z.max (key s x) m) l). destruct (IH (Z.max (key s x) m)) as (H1 & H2 & H3). split; [lia|]. split.
  - intros y [->|Hy]%elem_of_cons; [lia|by apply H2].
  - destruct H3 as [H3|(y & Hy & H3)]; [|right; exists y; split; [set_solver +Hy|done]]. destruct (Z.max_spec (key s x) m) as [[_ E]|[_ E]]; [left|right; exists x; split; [set_solver +|]]; by rewrite H3.
Qed.

(** ** The statistics of sleep *)
Lemma update_walk_run done_ el h fuel : forall l1 l2 s L, lrep (lists s) L -> L !! h = Some (l1 ++ l2) -> (forall x, x ∈ l2 -> is_Some (locks s !! x)) -> (length l2 < fuel)%nat ->
  exists s', update_walk fuel done_ el h (hd h l2) s = Some (tt, s') /\ sstep s s'.
Proof.
  induction fuel as [|fuel IH]; intros l1 l2 s L Hr EL Hin Hf; [lia|]. cbn [update_walk]. destruct l2 as [|x l2]; cbn [hd].
  { rewrite Z.eqb_refl. by exists s. }
  assert ((x =? h) = false) as ->.
  { apply Z.eqb_neq. intros ->. pose proof (lrep_nodup _ _ _ _ Hr EL) as Hn. apply NoDup_cons in Hn as [Hn _]. set_solver +Hn. }
  destruct (at_update x done_ el s) as ([] & s1 & Hup & Hss); [apply Hin; set_solver +|]. mrun Hup. rewrite <-(ss_lists _ _ Hss) in Hr.
  mrun (on_mem_run (get_next x) _ _ _ (heap_next _ _ _ _ _ _ Hr EL)). rewrite same_lists.
  destruct (IH (l1 ++ [x]) l2 s1 L Hr) as (s' & Hrun & Hss'); [by rewrite <-app_assoc|intros y Hy; eapply sstep_is_Some; [exact Hss|apply Hin; set_solver +Hy]|cbn in Hf; lia|].
  exists s'. split; [done|by etrans].
Qed.
Lemma update_stats_run done_ s L A : rep s L A -> exists s', update_sleep_wait_stats_locked done_ s = Some (tt, s') /\ sstep s s'.
Proof.
  intros Hr. unfold update_sleep_wait_stats_locked.
  set (s1 := set_stats (last_sleep_time_update s) (wait_for_wakeup s) (S (reads s)) s). rewrite (bind_run _ _ s (clock s (reads s)) s1) by done.
  assert (sstep s s1) as Hs1 by (split; [done|done|]; intros y; cbn; by destruct (locks s !! y); constructor).
  rewrite (bind_run _ _ s1 s1 s1) by done. pose proof (rep_sstep _ _ _ _ Hr Hs1) as Hr1. pose proof (rp_active _ _ _ Hr1 0 ltac:(lia)) as EL.
  mrun (on_mem_run (get_next (head s1 0)) _ _ _ (heap_first _ _ _ _ (rp_lists _ _ _ Hr1) EL)). rewrite same_lists.
  destruct (update_walk_run done_ (ktime_sub (clock s (reads s)) (last_sleep_time_update s1)) (head s1 0) (S (size (locks s1))) [] (perm A 0 ++ timed A 0) s1 L (rp_lists _ _ _ Hr1) EL) as (s2 & Hrun & Hs2).
  - intros x [Hx|Hx]%elem_of_app; [destruct (rp_perm_in _ _ _ Hr1 0 x ltac:(lia) Hx) as (l & ? & _)|destruct (rp_timed_in _ _ _ Hr1 0 x ltac:(lia) Hx) as (l & ? & _)]; eauto.
  - by apply (listed_length _ _ _ 0 _ Hr1).
  - mrun Hrun. eexists. split; [done|]. etrans; [exact Hs1|]. etrans; [exact Hs2|]. split; [done|done|]. intros y. cbn. by destruct (locks s2 !! y); constructor.
Qed.
End expiry.
End Wakelock.
