(* ===== verification/WakelockLive.v ===== *)
(** * Wake locks: the invariant

    That the operations of Wakelock.v never corrupt a list or run into a BUG, and that the
    system does not stay awake without a reason: whenever no lock without a timeout keeps
    it from suspending, the timer is set for the time when the last timeout ends, or the
    work that suspends is queued, or it is running and nothing has happened since it
    started. *)
From stdpp Require Import prelude gmap list.
From Stdlib Require Import ZArith Lia ZifyBool.
From S2P Require Import Prelude Time ListHead ListHeap Wakelock.
Import Time Wakelock.
Open Scope Z_scope.

Module WakelockLive.

(** ** Taking a lock *)
Lemma lock_in_activate ty a e l : lock_in ty a e l -> lock_in ty true e (set_bits WAKE_LOCK_ACTIVE l).
Proof.
  intros [H1 H2 H3 H4]. assert (forall k, flag k (set_bits WAKE_LOCK_ACTIVE l) = flag k l || (9 =? k)) as Hf by (intros k; by apply flag_set).
  split; rewrite ?Hf, ?H2, ?H3, ?H4; [|by destruct a, e..]. rewrite <-H1. apply type_of_low. intros k Hk. rewrite Hf, (proj2 (Z.eqb_neq 9 k)) by lia. apply orb_false_r.
Qed.
Lemma lock_in_auto ty a e l : lock_in ty a e l -> lock_in ty a true (set_bits WAKE_LOCK_AUTO_EXPIRE l).
Proof.
  intros [H1 H2 H3 H4]. assert (forall k, flag k (set_bits WAKE_LOCK_AUTO_EXPIRE l) = flag k l || (10 =? k)) as Hf by (intros k; by apply flag_set).
  split; rewrite ?Hf, ?H2, ?H3, ?H4; [|by destruct a, e..]. rewrite <-H1. apply type_of_low. intros k Hk. rewrite Hf, (proj2 (Z.eqb_neq 10 k)) by lia. apply orb_false_r.
Qed.
Lemma lock_in_manual ty a e l : lock_in ty a e l -> lock_in ty a false (clear_bits WAKE_LOCK_AUTO_EXPIRE l).
Proof.
  intros [H1 H2 H3 H4]. assert (forall k, 0 <= k < 32 -> flag k (clear_bits WAKE_LOCK_AUTO_EXPIRE l) = flag k l && negb (10 =? k)) as Hf.
  { intros k Hk. rewrite flag_clear by done. unfold WAKE_LOCK_AUTO_EXPIRE. by rewrite Z.shiftl_1_l, Z.pow2_bits_eqb by lia. }
  split; rewrite ?Hf, ?H2, ?H3, ?H4 by lia; [|by destruct a, e..]. rewrite <-H1. apply type_of_low. intros k Hk. rewrite Hf, (proj2 (Z.eqb_neq 10 k)) by lia. apply andb_true_r.
Qed.
Lemma lock_in_expires ty a e t l : lock_in ty a e l -> lock_in ty a e (set_expires t l).
Proof. by intros []. Qed.

Lemma lock_in_fresh ty l : 0 <= ty < 2 -> lock_in ty false false (set_flags (Z.lor ty WAKE_LOCK_INITIALIZED) l).
Proof. intros Hty. assert (ty = 0 \/ ty = 1) as [->| ->] by lia; done. Qed.

Section taking.
Context {W : Type} `{!ExpireTimer W}.
Implicit Types (s : wls W) (A : view) (L : heads) (x y ty : Z).

(** The steps that change only the lock [x] and leave the lists. *)
Record xstep x s s' : Prop := {
  xs_lists : lists s' = lists s;
  xs_env : env s' = env s;
  xs_locks : forall y, y <> x -> option_Forall2 kept (locks s !! y) (locks s' !! y);
}.
#[export] Instance xstep_trans x : Transitive (xstep x).
Proof.
  intros s1 s2 s3 [H1 H2 H3] [H4 H5 H6]. split; [congruence|congruence|]. intros y Hy. specialize (H3 y Hy). specialize (H6 y Hy).
  inversion H3 as [a b Hab E1 E2|E1 E2]; inversion H6 as [c d Hcd E3 E4|E3 E4]; try congruence; constructor. etrans; [done|]. congruence.
Qed.
Lemma sstep_xstep x s s' : sstep s s' -> xstep x s s'.
Proof. intros [H1 H2 H3]. split; auto. Qed.
Lemma upd_xstep x s l : xstep x s (set_locks (<[x := l]> (locks s)) s).
Proof. split; [done|done|]. intros y Hy. cbn. rewrite lookup_insert_ne by done. by destruct (locks s !! y); constructor. Qed.
Lemma env_jiffies s s' : env s' = env s -> jiffies s' = jiffies s.
Proof. intros H. unfold env in H. unfold jiffies. congruence. Qed.
Lemma env_head s s' ty : env s' = env s -> head s' ty = head s ty.
Proof. intros H. unfold env in H. unfold head. congruence. Qed.

Lemma activate_run x s l ty a e : locks s !! x = Some l -> lock_in ty a e l ->
  exists s' l', wake_lock_activate x s = Some (tt, s') /\ xstep x s s' /\ locks s' !! x = Some l' /\ lock_in ty true e l'.
Proof.
  intros El Hl. unfold wake_lock_activate. mrun (get_lock_run _ _ _ El). unfold WAKE_LOCK_ACTIVE at 1. rewrite has_bits_flag, (li_active _ _ _ _ Hl) by lia.
  destruct a; cbn [negb]; [exists s, l; split_and!; [done|by apply sstep_xstep|done..]|].
  mrun (upd_lock_run _ _ (set_bits WAKE_LOCK_ACTIVE) _ El). set (s1 := set_locks _ s).
  assert (locks s1 !! x = Some (set_bits WAKE_LOCK_ACTIVE l)) as E1 by (unfold s1; cbn; by rewrite lookup_insert_eq).
  assert (at_lock x (t ← ktime_get; upd_stat x (set_last_time t) : M (wls W) unit)) as Hat by at_lock.
  destruct (Hat s1) as ([] & s2 & Hrun & Hss); [by eexists|]. destruct (sstep_lock _ _ _ _ Hss E1) as (l2 & E2 & Hk).
  exists s2, l2. split_and!; [done| |done|]; [|eapply lock_in_kept; [by eapply lock_in_activate|done]].
  etrans; [apply upd_xstep|by apply sstep_xstep].
Qed.

(** What a step may change beside the lists: the statistics, and the lock [x]. *)
Definition others x s s' : Prop := forall y, y <> x -> option_Forall2 same_lock (locks s !! y) (locks s' !! y).
Lemma others_key x s s' y : others x s s' -> env s' = env s -> y <> x -> key s' y = key s y.
Proof. intros H He Hy. unfold key. rewrite (env_jiffies _ _ He). specialize (H y Hy). inversion H as [a b [Ha _] E1 E2|E1 E2]; [by rewrite Ha|done]. Qed.
Lemma kept_same l l' : kept l l' -> same_lock l l'.
Proof. intros H. split; [apply H|by apply kept_type]. Qed.

Definition place x ty (ht : bool) A : view := if ht then put_timed x ty (out x A) else put_perm x ty (out x A).
Lemma take_run s L A x t ht : rep s L A -> listed A x ->
  exists ty s' L', wake_lock_take x t ht s = Some (ty, s') /\ 0 <= ty < 2 /\ rep s' L' (place x ty ht A) /\ env s' = env s /\ others x s s' /\
    (exists a e, lock_at s ty a e x) /\ lock_at s' ty true ht x /\ (ht = true -> key s' x = s32 t).
Proof.
  intros Hr Hx. destruct (listed_lock _ _ _ _ Hr Hx) as (ty & a & e & Hty & l & El & Hl). exists ty.
  unfold wake_lock_take. mrun (get_lock_run _ _ _ El). fold (type_of l). rewrite (li_type _ _ _ _ Hl). cbv zeta.
  assert ((ty >=? WAKE_LOCK_TYPE_COUNT) = false) as -> by (unfold WAKE_LOCK_TYPE_COUNT; lia). cbn [BUG_ON]. rewrite bind_mret_l.
  unfold WAKE_LOCK_INITIALIZED. rewrite has_bits_flag, (li_init _ _ _ _ Hl) by lia. cbn [BUG_ON negb]. rewrite bind_mret_l.
  destruct (at_wakeup x ty s) as ([] & s1 & Hw & Hss); [by eexists|]. mrun Hw. destruct (sstep_lock _ _ _ _ Hss El) as (l1 & El1 & Hk1).
  destruct (activate_run x s1 l1 ty a e El1) as (s2 & l2 & Hact & Hx2 & El2 & Hl2); [by eapply lock_in_kept|]. mrun Hact. erewrite bind_run by done.
  pose proof (rep_sstep _ _ _ _ Hr Hss) as Hr1.
  assert (xstep x s s2) as Hxs by (etrans; [by apply sstep_xstep|done]).
  assert (forall l' m, others x s (set_lists m (set_locks (<[x := l']> (locks s2)) s2))) as Ho.
  { intros l' m y Hy. cbn. rewrite lookup_insert_ne by done. pose proof (xs_locks _ _ _ Hxs y Hy) as H. inversion H; constructor. by apply kept_same. }
  assert (forall l' m, lists s1 = lists s2 -> moved x m s1 (set_lists m (set_locks (<[x := l']> (locks s2)) s2))) as Hmv.
  { intros l' m _. pose proof (xs_env _ _ _ Hx2) as He. unfold env in He. split_and!; [done|cbn; congruence..|]. intros y Hy. cbn. rewrite lookup_insert_ne by done. by apply Hx2. }
  pose proof (env_head _ _ ty (xs_env _ _ _ Hx2)) as Eh. pose proof (xs_lists _ _ _ Hx2) as Els.
  destruct ht.
  - destruct (move_timed _ _ _ _ ty Hr1 Hx Hty) as (m1 & m2 & L' & Hdel & Hadd & Hrep). rewrite <-Els in Hdel. mrun (on_mem_run (list_del x) s2 tt m1 Hdel).
    set (l3 := set_bits WAKE_LOCK_AUTO_EXPIRE (set_expires (u32 (jiffies s2 + t)) l2)).
    exists (set_lists m2 (set_locks (<[x := l3]> (locks s2)) s2)), L'. split_and!; [|lia|lia|..].
    + rewrite bind_assoc. mrun (upd_lock_run (set_lists m1 s2) x (set_expires (u32 (jiffies s2 + t))) l2 El2). rewrite bind_assoc.
      erewrite bind_run by (apply upd_lock_run; cbn; apply lookup_insert_eq). unfold on_lists. cbn [lists set_lists set_locks].
      unfold mbind, M_bind. cbn [lists set_lists set_locks]. rewrite Eh, Hadd. cbn. by rewrite insert_insert_eq.
    + apply Hrep; [by apply Hmv|]. eexists. split; [apply lookup_insert_eq|]. by eapply lock_in_auto, lock_in_expires.
    + apply Hxs.
    + apply Ho.
    + by exists a, e, l.
    + eexists. split; [apply lookup_insert_eq|]. by eapply lock_in_auto, lock_in_expires.
    + intros _. unfold key. cbn. rewrite lookup_insert_eq. cbn. change (jiffies _) with (jiffies s2). rewrite <-s32_u32, u32_sub_l, s32_u32. f_equal. lia.
  - destruct (move_perm _ _ _ _ ty Hr1 Hx Hty) as (m1 & m2 & L' & Hdel & Hadd & Hrep). rewrite <-Els in Hdel. mrun (on_mem_run (list_del x) s2 tt m1 Hdel).
    set (l3 := clear_bits WAKE_LOCK_AUTO_EXPIRE (set_expires LONG_MAX l2)).
    exists (set_lists m2 (set_locks (<[x := l3]> (locks s2)) s2)), L'. split_and!; [|lia|lia|..].
    + rewrite bind_assoc. mrun (upd_lock_run (set_lists m1 s2) x (set_expires LONG_MAX) l2 El2). rewrite bind_assoc.
      erewrite bind_run by (apply upd_lock_run; cbn; apply lookup_insert_eq). unfold on_lists. cbn [lists set_lists set_locks].
      unfold mbind, M_bind. cbn [lists set_lists set_locks]. rewrite Eh, Hadd. cbn. by rewrite insert_insert_eq.
    + apply Hrep; [by apply Hmv|]. eexists. split; [apply lookup_insert_eq|]. by eapply lock_in_manual, lock_in_expires.
    + apply Hxs.
    + apply Ho.
    + by exists a, e, l.
    + eexists. split; [apply lookup_insert_eq|]. by eapply lock_in_manual, lock_in_expires.
    + done.
Qed.
End taking.

(** ** The timer and the work *)
Section live.
Context {W : Type} `{!ExpireTimer W}.
Implicit Types (s : wls W) (A : view) (L : heads) (x y ty : Z).

Definition pending s : option Z := tm_pending (expire_timer s).
Definition base s := (inactive_locks s, active_wake_locks s, (main_wake_lock s, unknown_wakeup s, deleted_wake_locks s), sync_wake_lock s).
Lemma env_base s s' : env s' = env s -> base s' = base s.
Proof. unfold env, base. congruence. Qed.

Lemma rep_run s L A n t q o : rep s L A -> rep (set_run n t q o s) L A.
Proof. by intros []. Qed.

Lemma rearm_run s r : tm_ok (expire_timer s) -> r < 2 ^ 31 ->
  exists t, rearm r s = Some (tt, set_run (current_event_num s) t (suspend_queued s || (r =? 0)) (suspending s) s) /\ tm_ok t /\ tm_jiffies t = jiffies s /\
    tm_pending t = if r >? 0 then Some (u32 (jiffies s + r)) else None.
Proof.
  intros Ht Hr. pose proof (tm_jiffies_range _ Ht) as Hj. unfold rearm. erewrite bind_run by done. rewrite Z.gtb_ltb. destruct (Z.ltb_spec 0 r) as [Hp|Hn].
  - destruct (tm_mod_law (expire_timer s) (u32 (jiffies s + r)) Ht) as (b & t & Hmod & Hok & Hj' & Hp'); [apply u32_range| |].
    { fold (jiffies s). rewrite <-s32_u32, u32_sub_l, s32_u32. replace (jiffies s + r - jiffies s) with r by lia. rewrite s32_small by lia. lia. }
    exists t. split; [|done]. unfold on_timer. unfold mbind, M_bind. rewrite Hmod. cbn. assert ((r =? 0) = false) as -> by lia. by rewrite orb_false_r.
  - destruct (tm_del_law (expire_timer s) Ht) as (b & t & Hdel & Hok & Hj' & Hp'). exists t. split; [|done]. unfold on_timer. unfold mbind, M_bind. rewrite Hdel. cbn.
    destruct (r =? 0); [by rewrite orb_true_r|by rewrite orb_false_r].
Qed.

Definition near s A : Prop := forall x, x ∈ timed A 0 -> - 2 ^ 30 <= key s x < 2 ^ 30.
(** The timer is set, for the end of the last timeout, exactly when no lock without a
    timeout is active and some timeout is not over. *)
Record armed s A : Prop := {
  lv_near : near s A;
  lv_timer : forall e, pending s = Some e -> perm A 0 = [] /\ 0 < s32 (e - jiffies s) /\ (forall x, x ∈ timed A 0 -> key s x <= s32 (e - jiffies s)) /\
    exists x, x ∈ timed A 0 /\ key s x = s32 (e - jiffies s);
  lv_armed : perm A 0 = [] -> forall x, x ∈ timed A 0 -> 0 < key s x -> is_Some (pending s);
}.
(** What makes the system suspend. *)
Definition next s A : Prop := perm A 0 = [] -> is_Some (pending s) \/ suspend_queued s = true \/ suspending s = Some (current_event_num s).
Definition live s A : Prop := armed s A /\ next s A.

(** Locks whose time is over may be taken off the list. *)
Lemma armed_trim s s' A A' : expire_timer s' = expire_timer s -> (forall x, x ∈ timed A 0 -> key s' x = key s x) -> perm A' 0 = perm A 0 ->
  (forall x, x ∈ timed A' 0 -> x ∈ timed A 0) -> (forall x, x ∈ timed A 0 -> 0 < key s x -> x ∈ timed A' 0) -> armed s A -> armed s' A'.
Proof.
  intros Et Ek HP Hsub Hsup [H1 H2 H3]. assert (jiffies s' = jiffies s) as Ej by (unfold jiffies; by rewrite Et).
  assert (pending s' = pending s) as Ep by (unfold pending; by rewrite Et). split; unfold near; rewrite ?HP, ?Ep, ?Ej.
  - intros x Hx. rewrite Ek; auto.
  - intros e He. destruct (H2 e He) as (HP0 & Hpos & Hall & x & Hx & Ex). split_and!; [done|done|intros y Hy; rewrite Ek; auto|]. exists x. rewrite Ek by done. split; [|done]. apply Hsup; [done|lia].
  - intros HP0 x Hx. rewrite Ek by auto. intros ?. eapply H3; eauto.
Qed.
Lemma live_trim s s' A A' : env s' = env s -> (forall x, x ∈ timed A 0 -> key s' x = key s x) -> perm A' 0 = perm A 0 ->
  (forall x, x ∈ timed A' 0 -> x ∈ timed A 0) -> (forall x, x ∈ timed A 0 -> 0 < key s x -> x ∈ timed A' 0) -> live s A -> live s' A'.
Proof.
  intros He Ek HP Hsub Hsup [Ha Hn]. unfold env in He. injection He as E1 E2 E3 E4 E5 E6 E7 E8 E9 E10. split; [by eapply armed_trim|].
  unfold next, pending. by rewrite HP, E6, E7, E8, E9.
Qed.

Lemma alive_sub s l x : x ∈ alive s l -> x ∈ l /\ 0 < key s x.
Proof. intros [? ?]%list_elem_of_filter. done. Qed.
Lemma none_true (l : list Z) : none l = true <-> l = [].
Proof. unfold none. by rewrite bool_decide_eq_true. Qed.
Lemma none_false (l : list Z) : none l = false <-> l <> [].
Proof. unfold none. by rewrite bool_decide_eq_false. Qed.

(** The common end of taking and releasing establishes the invariant. *)
Lemma settle_run s L A ht : rep s L A -> tm_ok (expire_timer s) -> near s A -> (ht = false -> perm A 0 <> []) ->
  exists r s1 s2 L' A', (if ht then has_wake_lock_locked 0 else mret (-1)) s = Some (r, s1) /\ rearm r s1 = Some (tt, s2) /\ rep s2 L' A' /\ live s2 A' /\
    tm_ok (expire_timer s2) /\ base s2 = base s /\ (forall y, listed A' y <-> listed A y) /\ (forall y, option_Forall2 same_lock (locks s !! y) (locks s2 !! y)) /\ perm A' 0 = perm A 0.
Proof.
  intros Hr Ht Hn Hht.
  assert (exists s1 L' A', (if ht then has_wake_lock_locked 0 else mret (-1)) s = Some (if none (perm A 0) then longest s 0 (timed A 0) else -1, s1) /\ rep s1 L' A' /\ quiet s s1 /\
    perm A' 0 = perm A 0 /\ timed A' 0 = (if none (perm A 0) then alive s (timed A 0) else timed A 0) /\ (forall y, listed A' y <-> listed A y)) as (s1 & L' & A' & Hrun & Hr1 & Hq & HP & HT & Hlis).
  { destruct ht.
    - destruct (has_run s L A 0 ltac:(lia) Hr) as (s1 & L' & A' & Hrun & Hr1 & Hq & HA & Hlis). exists s1, L', A'. destruct (HA 0 ltac:(lia)) as [HP HT]. by split_and!.
    - exists s, L, A. rewrite (proj2 (none_false _)) by auto. by split_and!. }
  set (r := if none (perm A 0) then longest s 0 (timed A 0) else -1) in *.
  destruct (longest_spec s (timed A 0) 0) as (Hl0 & Hlmax & Hlex).
  assert (longest s 0 (timed A 0) < 2 ^ 30) as Hlt by (destruct Hlex as [->|(x & Hx & ->)]; [lia|by apply Hn]).
  pose proof (q_env _ _ Hq) as He. unfold env in He. injection He as E1 E2 E3 E4 E5 E6 Et E8 E9 E10.
  destruct (rearm_run s1 r) as (t & Hre & Hok & Hj & Hpen); [by rewrite Et|unfold r; case_match; lia|]. rewrite (quiet_jiffies _ _ Hq) in *.
  eexists r, s1, _, L', A'. split; [exact Hrun|]. split; [exact Hre|]. split; [by apply rep_run|].
  split; [|split_and!; [done|unfold base; cbn; congruence|done|apply Hq|done]].
  assert (forall x, key (set_run (current_event_num s1) t (suspend_queued s1 || (r =? 0)) (suspending s1) s1) x = key s x) as Ek.
  { intros x. rewrite <-(quiet_key _ _ x Hq). unfold key, jiffies. cbn. by rewrite Hj, Et. }
  assert (next (set_run (current_event_num s1) t (suspend_queued s1 || (r =? 0)) (suspending s1) s1) A') as Hnext.
  { unfold next, pending. cbn. rewrite Hpen, HP. intros HP0. unfold r. rewrite HP0. cbn. destruct (Z.gtb_spec (longest s 0 (timed A 0)) 0); [eauto|]. right. left.
    assert (longest s 0 (timed A 0) =? 0 = true) as -> by lia. apply orb_true_r. }
  split; [|done]. split; unfold near, pending, jiffies; cbn; rewrite ?Hj, ?Hpen, ?HP, ?HT.
  - intros x Hx. rewrite Ek. apply Hn. destruct (none (perm A 0)); [by apply alive_sub in Hx as [? _]|done].
  - intros e He. destruct (Z.gtb_spec r 0) as [Hpos|]; [|done]. injection He as <-. unfold r in *. destruct (none (perm A 0)) eqn:EN; [|lia]. split; [by apply none_true|].
    assert (s32 (u32 (jiffies s + longest s 0 (timed A 0)) - jiffies s) = longest s 0 (timed A 0)) as ->.
    { rewrite <-s32_u32, u32_sub_l, s32_u32. replace (_ - _) with (longest s 0 (timed A 0)) by lia. apply s32_small. lia. }
    split; [lia|]. split; [intros x Hx; rewrite Ek; apply alive_sub in Hx as [? _]; auto|].
    destruct Hlex as [Hl|(x & Hx & Hl)]; [lia|]. exists x. rewrite Ek. split; [|done]. apply list_elem_of_filter. split; [lia|done].
  - intros HP0 x Hx. rewrite Ek. rewrite HP0 in *. intros Hk. assert (x ∈ timed A 0) as Hx0 by (by apply alive_sub in Hx as [? _]). specialize (Hlmax x Hx0). unfold r. rewrite HP0. cbn.
    destruct (Z.gtb_spec (longest s 0 (timed A 0)) 0); [eauto|lia].
Qed.

(** ** The invariant *)
Definition type_at s ty x : Prop := exists l, locks s !! x = Some l /\ type_of l = ty.
Definition typed s s' : Prop := forall y, option_Forall2 (λ l l', type_of l' = type_of l) (locks s !! y) (locks s' !! y).
(** The locks of the file itself. *)
Definition own_locks s : list Z := [main_wake_lock s; unknown_wakeup s; sync_wake_lock s].
Record known s A : Prop := {
  kn_deleted : is_Some (locks s !! deleted_wake_locks s);
  kn_own : forall x, x ∈ own_locks s -> listed A x /\ type_at s 0 x;
}.
Lemma known_main s A : known s A -> is_Some (locks s !! main_wake_lock s).
Proof. intros [_ H]. destruct (H (main_wake_lock s)) as [_ (l & -> & _)]; [set_solver +|]. eauto. Qed.
Record good s L A : Prop := {
  g_rep : rep s L A;
  g_live : live s A;
  g_timer : tm_ok (expire_timer s);
  g_known : known s A;
}.
Definition inv s : Prop := exists L A, good s L A.

Lemma typed_some s s' x : typed s s' -> is_Some (locks s !! x) -> is_Some (locks s' !! x).
Proof. intros H [l E]. specialize (H x). rewrite E in H. inversion H. eauto. Qed.
Lemma typed_at s s' ty x : typed s s' -> type_at s ty x -> type_at s' ty x.
Proof. intros H (l & E & Hl). specialize (H x). rewrite E in H. inversion H as [? l' Et E1 E2|]. subst. exists l'. split; [done|congruence]. Qed.
#[export] Instance typed_trans : Transitive typed.
Proof.
  intros s1 s2 s3 H1 H2 y. specialize (H1 y). specialize (H2 y).
  inversion H1 as [a b Hab E1 E2|E1 E2]; inversion H2 as [c d Hcd E3 E4|E3 E4]; try congruence; constructor. congruence.
Qed.
Lemma same_typed s s' : (forall y, option_Forall2 same_lock (locks s !! y) (locks s' !! y)) -> typed s s'.
Proof. intros H y. specialize (H y). inversion H as [a b [_ Ht] E1 E2|]; by constructor. Qed.
Lemma others_typed x s s' ty a e a' e' : others x s s' -> lock_at s ty a e x -> lock_at s' ty a' e' x -> typed s s'.
Proof.
  intros Ho (l & El & Hl) (l' & El' & Hl') y. destruct (decide (y = x)) as [->|Hne].
  - rewrite El, El'. constructor. by rewrite (li_type _ _ _ _ Hl), (li_type _ _ _ _ Hl').
  - specialize (Ho y Hne). inversion Ho as [? ? [_ Ht] E1 E2|]; by constructor.
Qed.
Lemma known_same s s' A A' : known s A -> base s' = base s -> typed s s' -> (forall y, listed A y -> listed A' y) -> known s' A'.
Proof.
  intros [H1 H2] Hb Ht Hl. unfold base in Hb. injection Hb as _ _ Em Eu Ed Ey. split; unfold own_locks; rewrite ?Em, ?Ed, ?Eu, ?Ey; [by eapply typed_some|].
  intros x Hx. destruct (H2 x Hx). split; [auto|by eapply typed_at].
Qed.
Lemma sstep_typed s s' : sstep s s' -> typed s s'.
Proof. intros H. apply same_typed, sstep_quiet, H. Qed.

Lemma good_sstep s s' L A : good s L A -> sstep s s' -> good s' L A.
Proof.
  intros [H1 H2 H3 H4] Hs. pose proof (sstep_quiet _ _ Hs) as Hq. pose proof (q_env _ _ Hq) as He. split.
  - by eapply rep_sstep.
  - eapply live_trim; [exact He| |done|done|done|exact H2]. intros x _. by apply quiet_key.
  - unfold env in He. congruence.
  - eapply known_same; [done|by apply env_base|by apply sstep_typed|done].
Qed.

(** The invariant after a step that takes or releases no suspend lock except those of [X]. *)
Definition follows s A (X : Z -> Prop) s' L' A' : Prop := good s' L' A' /\ base s' = base s /\ forall y, ~ X y -> y ∈ perm A' 0 <-> y ∈ perm A 0.
Lemma follows_sstep s A X s1 L1 A1 s2 : follows s A X s1 L1 A1 -> sstep s1 s2 -> follows s A X s2 L1 A1.
Proof. intros (H1 & H2 & H3) Hs. split; [by eapply good_sstep|]. split; [|done]. rewrite <-H2. apply env_base, Hs. Qed.
(** Locks that are set up stay so, with their types, except those of [D]. *)
Definition steady s A (D : Z -> Prop) s' A' : Prop := forall y ty, ~ D y -> listed A y -> type_at s ty y -> listed A' y /\ type_at s' ty y.
Lemma steady_typed s A D s' A' : typed s s' -> (forall y, listed A y -> listed A' y) -> steady s A D s' A'.
Proof. intros Ht Hl y ty _ Hy Hty. split; [auto|by eapply typed_at]. Qed.

(** ** The operations preserve it *)
Lemma has_good s L A ty : good s L A -> 0 <= ty < 2 -> exists s' L' A',
  has_wake_lock ty s = Some (if none (perm A ty) then longest s 0 (timed A ty) else -1, s') /\ good s' L' A' /\ quiet s s' /\
  (forall t, 0 <= t < 2 -> perm A' t = perm A t /\ timed A' t = if (t =? ty) && none (perm A ty) then alive s (timed A t) else timed A t) /\ steady s A (λ _, False) s' A'.
Proof.
  intros [H1 H2 H3 H4] Hty. destruct (has_run s L A ty Hty H1) as (s' & L' & A' & Hrun & Hr & Hq & HA & Hlis). exists s', L', A'. split; [done|].
  split; [|split; [done|split; [done|apply steady_typed; [apply same_typed, Hq|apply Hlis]]]].
  pose proof (q_env _ _ Hq) as He. destruct (HA 0 ltac:(lia)) as [HP HT]. split; [done| | |].
  - eapply live_trim; [exact He|intros x _; by apply quiet_key|done|..|exact H2]; rewrite HT.
    + intros x Hx. case_match; [by apply alive_sub in Hx as [? _]|done].
    + intros x Hx Hk. case_match; [by apply list_elem_of_filter|done].
  - unfold env in He. congruence.
  - eapply known_same; [done|by apply env_base|apply same_typed, Hq|apply Hlis].
Qed.

Lemma other_type s L A x ty a e t : rep s L A -> lock_at s ty a e x -> 0 <= t < 2 -> x ∈ perm A t ++ timed A t -> t = ty.
Proof.
  intros Hr (l & El & Hl) Ht [Hx|Hx]%elem_of_app; [destruct (rp_perm_in _ _ _ Hr t x Ht Hx) as (l' & El' & Hl')|destruct (rp_timed_in _ _ _ Hr t x Ht Hx) as (l' & El' & Hl')];
    destruct Hl, Hl'; congruence.
Qed.
Lemma place_timed A x ht y : y ∈ timed (place x 0 ht A) 0 -> (y = x /\ ht = true) \/ (y <> x /\ y ∈ timed A 0).
Proof.
  destruct ht; cbn.
  - intros [Hy|Hy%list_elem_of_singleton]%elem_of_app; [right|by left]. apply in_filter_ne in Hy. tauto.
  - intros Hy. right. apply in_filter_ne in Hy. tauto.
Qed.
Lemma place_listed A x ty ht y : 0 <= ty < 2 -> listed A x -> listed (place x ty ht A) y <-> listed A y.
Proof.
  intros Hty Hx. split.
  - destruct (decide (y = x)) as [->|Hne]; [done|]. intros [Hy|(t & Ht & Hy)].
    + left. destruct ht; cbn in Hy; by apply in_filter_ne in Hy as [? _].
    + right. exists t. split; [done|]. unfold place in Hy. destruct ht; cbn [perm timed put_perm put_timed out] in Hy; destruct (t =? ty);
        rewrite ?elem_of_app, ?list_elem_of_singleton, ?elem_of_cons, ?list_elem_of_filter in *; tauto.
  - intros Hy. destruct (decide (y = x)) as [->|Hne].
    + right. exists ty. split; [done|]. destruct ht; cbn; rewrite Z.eqb_refl; set_solver +.
    + destruct (out_listed A x y Hy Hne) as [?|(t & Ht & Hin)]; [left; by destruct ht|right]. exists t. split; [done|]. destruct ht; cbn; case_match; set_solver +Hin.
Qed.
Lemma kept_perm A x ht y : x <> y -> y ∈ perm (place x 0 ht A) 0 <-> y ∈ perm A 0.
Proof. intros Hne. unfold place. destruct ht; cbn [perm put_perm put_timed out Z.eqb]; rewrite ?elem_of_cons, list_elem_of_filter; naive_solver. Qed.
Lemma place_other A x ty ht : ty <> 0 -> x ∉ perm A 0 -> x ∉ timed A 0 -> perm (place x ty ht A) 0 = perm A 0 /\ timed (place x ty ht A) 0 = timed A 0.
Proof.
  intros Hne Hp Ht. unfold place. destruct ht; cbn [perm timed put_perm put_timed out]; rewrite (proj2 (Z.eqb_neq 0 ty)) by done; by rewrite !filter_ne_notin.
Qed.

Lemma main_stats_run s L A lock main : rep s L A -> is_Some (locks s !! main) ->
  exists s', (if lock =? main then update_sleep_wait_stats_locked true
    else a ← wake_lock_active main; if negb a then update_sleep_wait_stats_locked false else mret tt) s = Some (tt, s') /\ sstep s s'.
Proof.
  intros Hr [l El]. case_match; [by eapply update_stats_run|]. unfold wake_lock_active. rewrite bind_assoc. mrun (get_lock_run _ _ _ El). rewrite bind_mret_l.
  case_match; [by eapply update_stats_run|]. by exists s.
Qed.

(** Taking a lock that keeps the system from suspending.  What was known of the timer
    before does not matter. *)
Lemma lock_suspend_run s L A x t ht : rep s L A -> near s A -> tm_ok (expire_timer s) -> is_Some (locks s !! main_wake_lock s) -> listed A x -> type_at s 0 x ->
  (ht = true -> - 2 ^ 30 <= t < 2 ^ 30) ->
  exists s' L' A', wake_lock_internal x t ht s = Some (tt, s') /\ rep s' L' A' /\ live s' A' /\ tm_ok (expire_timer s') /\ base s' = base s /\ typed s s' /\
    (forall y, listed A' y <-> listed A y) /\ perm A' 0 = perm (place x 0 ht A) 0.
Proof.
  intros Hr Hn Ht Hm Hx (l & El & Hty) Hb. destruct (take_run _ _ _ _ t ht Hr Hx) as (ty & s1 & L1 & Htake & Hty' & Hr1 & He1 & Ho & (a & e & Hat) & Hat' & Hkey).
  assert (ty = 0) as -> by (destruct Hat as (l' & El' & Hl'); destruct Hl'; congruence).
  unfold wake_lock_internal. mrun Htake. cbn [Z.eqb WAKE_LOCK_SUSPEND]. erewrite bind_run by done. erewrite bind_run by done.
  set (s2 := set_event_num _ s1). pose proof (env_base _ _ He1) as Hb1. assert (expire_timer s1 = expire_timer s) as Et by (unfold env in He1; congruence).
  pose proof (others_typed _ _ _ _ _ _ _ _ Ho Hat Hat') as Hty1. assert (main_wake_lock s2 = main_wake_lock s) as Em by (unfold base in Hb1; cbn; congruence).
  pose proof (rep_run s1 L1 _ (s32 (current_event_num s1 + 1)) (expire_timer s1) (suspend_queued s1) (suspending s1) Hr1) as Hr2. fold (set_event_num (s32 (current_event_num s1 + 1)) s1) in Hr2. fold s2 in Hr2.
  destruct (main_stats_run s2 L1 _ x (main_wake_lock s2) Hr2) as (s3 & Hst & Hss); [rewrite Em; by apply (typed_some _ _ _ Hty1)|]. mrun Hst. pose proof (rep_sstep _ _ _ _ Hr2 Hss) as Hr3.
  pose proof (ss_env _ _ Hss) as He3.
  destruct (settle_run s3 L1 (place x 0 ht A) ht Hr3) as (r & s4 & s5 & L5 & A5 & Hhas & Hre & Hr5 & Hl5 & Ht5 & Hb5 & Hlis & Hsame & HP5).
  - unfold env in He3. assert (expire_timer s3 = expire_timer s2) as -> by congruence. unfold s2. cbn. by rewrite Et.
  - intros y Hy. rewrite (quiet_key _ _ y (sstep_quiet _ _ Hss)). change (key s2 y) with (key s1 y). destruct (place_timed _ _ _ _ Hy) as [[-> Eht]|[Hne Hin]].
    + rewrite Hkey by done. specialize (Hb Eht). by rewrite s32_small by lia.
    + rewrite (others_key x s s1) by done. by apply Hn.
  - intros ->. done.
  - mrun Hhas. exists s5, L5, A5. split_and!; [done|done|done|done| | | |].
    + rewrite Hb5, (env_base _ _ He3). exact Hb1.
    + etrans; [exact Hty1|]. etrans; [exact (sstep_typed _ _ Hss)|by apply same_typed].
    + intros y. rewrite Hlis. apply place_listed; [lia|done].
    + exact HP5.
Qed.

Lemma lock_good s L A x t ht : good s L A -> listed A x -> (ht = true -> - 2 ^ 30 <= t < 2 ^ 30) ->
  exists s' L' A', wake_lock_internal x t ht s = Some (tt, s') /\ follows s A (eq x) s' L' A' /\ (type_at s 0 x -> x ∈ perm A' 0 <-> ht = false) /\ steady s A (λ _, False) s' A'.
Proof.
  intros [H1 H2 H3 H4] Hx Hb. destruct (listed_lock _ _ _ _ H1 Hx) as (ty & a & e & Hty & l & El & Hl). destruct (decide (ty = 0)) as [->|Hne].
  { destruct (lock_suspend_run s L A x t ht) as (s' & L' & A' & Hrun & Hr & Hl' & Ht & Hba & Hty' & Hlis & HP); try done; [apply H2|by eapply known_main|exists l; split; [done|apply Hl]|].
    exists s', L', A'. split; [done|]. split; [|split; [intros _; rewrite HP; destruct ht; cbn; [split; [intros Hq; by apply in_filter_ne in Hq as [_ ?]|done]|set_solver +]|apply steady_typed; [done|apply Hlis]]]. split; [split; [done..|]; eapply known_same; [exact H4|done|done|apply Hlis]|]. split; [done|].
    intros y Hy. rewrite HP. by apply kept_perm. }
  destruct (take_run _ _ _ _ t ht H1 Hx) as (ty' & s1 & L1 & Htake & _ & Hr1 & He1 & Ho & (a' & e' & Hat) & Hat' & Hkey).
  assert (ty' = ty) as -> by (destruct Hat as (l' & El' & Hl'); destruct Hl, Hl'; congruence).
  unfold wake_lock_internal. mrun Htake. rewrite (proj2 (Z.eqb_neq ty WAKE_LOCK_SUSPEND)) by done. exists s1, L1, (place x ty ht A). split; [done|].
  assert (x ∉ perm A 0 ++ timed A 0) as Hnot by (intros Hin; apply Hne; symmetry; by eapply (other_type s L A x)). apply not_elem_of_app in Hnot as [Hnp Hnt].
  destruct (place_other A x ty ht Hne Hnp Hnt) as [EP ET].
  split; [|split; [intros (l' & El' & Hl'); destruct Hl; congruence|apply steady_typed; [by eapply others_typed|intros y; by apply place_listed]]]. split; [|split; [by apply env_base|intros y _; by rewrite EP]]. split; [done| |unfold env in He1; congruence|].
  - eapply live_trim; [exact He1| | | | |exact H2].
    + intros y Hy. apply (others_key x); [done|done|]. by intros ->.
    + done.
    + intros y. by rewrite ET.
    + intros y Hy _. by rewrite ET.
  - eapply known_same; [done|by apply env_base|by eapply others_typed|]. intros y. by apply place_listed.
Qed.

Lemma unlock_good s L A x : good s L A -> listed A x -> exists s' L' A', wake_unlock x s = Some (tt, s') /\ follows s A (eq x) s' L' A' /\ x ∉ perm A' 0 /\ steady s A (λ _, False) s' A'.
Proof.
  intros [H1 H2 H3 H4] Hx. destruct (listed_lock _ _ _ _ H1 Hx) as (ty & a & e & Hty & l & El & Hl).
  unfold wake_unlock. mrun (get_lock_run _ _ _ El). fold (type_of l). rewrite (li_type _ _ _ _ Hl). cbv zeta.
  destruct (deactivate_run _ _ _ _ false H1 Hx) as (s1 & L1 & Hde & Hr1 & Hq1). mrun Hde. erewrite bind_run by done. pose proof (q_env _ _ Hq1) as He1.
  assert (known s1 (put_idle x (out x A))) as Hk1 by (eapply known_same; [done|by apply env_base|apply same_typed, Hq1|intros y; by apply put_idle_listed]).
  assert (tm_ok (expire_timer s1)) as Ht1 by (unfold env in He1; congruence).
  destruct (Z.eqb_spec ty WAKE_LOCK_SUSPEND) as [->|Hne].
  - destruct (settle_run s1 L1 _ true Hr1 Ht1) as (r & s2 & s3 & L3 & A3 & Hhas & Hre & Hr3 & Hl3 & Ht3 & Hb3 & Hlis & Hsame & HP3); [|done|].
    { intros y Hy. rewrite (quiet_key _ _ y Hq1). apply H2. cbn in Hy. by apply in_filter_ne in Hy as [? _]. }
    unfold WAKE_LOCK_SUSPEND. mrun Hhas. mrun Hre. assert (good s3 L3 A3) as Hg3.
    { split; [done..|]. eapply known_same; [exact Hk1|done|by apply same_typed|apply Hlis]. }
    assert (steady s A (λ _, False) s3 A3) as Hsd.
    { apply steady_typed; [etrans; [apply same_typed, Hq1|by apply same_typed]|intros y Hy; apply Hlis; by apply put_idle_listed]. }
    assert (follows s A (eq x) s3 L3 A3 /\ x ∉ perm A3 0) as [Hf Hx3].
    { split; [split; [done|split; [by rewrite Hb3, (env_base _ _ He1)|]]|]; rewrite HP3; cbn; [intros y Hy; rewrite list_elem_of_filter; naive_solver|by intros [_ ?]%in_filter_ne]. }
    case_match; [|exists s3, L3, A3; by split_and!]. destruct (update_stats_run false s3 L3 A3 Hr3) as (s4 & Hrun & Hss). exists s4, L3, A3. split; [done|]. split; [by eapply follows_sstep|split; [done|]].
    intros y ty Hd Hy Hty0. destruct (Hsd y ty Hd Hy Hty0). split; [done|eapply typed_at; [by apply sstep_typed|done]].
  - exists s1, L1, (put_idle x (out x A)). split; [done|].
    assert (x ∉ perm A 0 ++ timed A 0) as Hnot by (intros Hin; apply Hne; symmetry; apply (other_type s L A x ty a e 0); [done|by exists l|lia|done]). apply not_elem_of_app in Hnot as [Hnp Hnt].
    split; [|split; [cbn; by intros [_ ?]%in_filter_ne|apply steady_typed; [apply same_typed, Hq1|intros y; by apply put_idle_listed]]]. split; [|split; [by apply env_base|intros y _; cbn; by rewrite filter_ne_notin]]. split; [done| |done|done].
    eapply live_trim; [exact He1|intros y _; by apply quiet_key|..|exact H2]; cbn; [by apply filter_ne_notin| |].
    + intros y Hy. by apply in_filter_ne in Hy as [? _].
    + intros y Hy _. by rewrite filter_ne_notin.
Qed.

(** ** Setting up and tearing down *)
Lemma new_unowned s L A x l : rep s L A -> locks s !! x = Some l -> flag 8 l = false -> forall h, ~ own L x h.
Proof.
  intros Hr El Hf h (k & Ek & Hin). apply elem_of_cons in Hin as [->|Hin].
  { destruct (rp_node _ _ _ Hr h) as [_ HL]; [by eexists|]. congruence. }
  assert (listed A x) as Hx.
  { destruct (rp_only _ _ _ Hr h k Ek) as [->|(ty & Hty & ->)].
    - left. rewrite (rp_idle _ _ _ Hr) in Ek. by injection Ek as ->.
    - right. exists ty. split; [done|]. rewrite (rp_active _ _ _ Hr) in Ek by done. by injection Ek as ->. }
  destruct (listed_lock _ _ _ _ Hr Hx) as (ty & a & e & _ & l' & El' & Hl'). destruct Hl'. congruence.
Qed.
Lemma unowned_filter (L : heads) x : (forall h, ~ own L x h) -> filter (λ y, y <> x) <$> L = L.
Proof.
  intros Hu. apply map_eq. intros h. rewrite lookup_fmap. destruct (L !! h) as [k|] eqn:Ek; [|done]. cbn. f_equal. apply filter_ne_notin. intros Hin. apply (Hu h). by eapply own_entry.
Qed.

Lemma init_run s L A x type nm l : rep s L A -> locks s !! x = Some l -> flag 8 l = false -> nm <> 0 \/ name l <> 0 -> 0 <= Z.land type WAKE_LOCK_TYPE_MASK < 2 ->
  exists s' L', wake_lock_init x type nm s = Some (tt, s') /\ rep s' L' (put_idle x A) /\ env s' = env s /\ (forall y, y <> x -> locks s' !! y = locks s !! y) /\
    lock_at s' (Z.land type WAKE_LOCK_TYPE_MASK) false false x.
Proof.
  intros Hr El Hf Hnm Hty. pose proof (new_unowned _ _ _ _ _ Hr El Hf) as Hu. destruct (rp_node _ _ _ Hr x) as [Hal _]; [by eexists|].
  destruct (INIT_LIST_HEAD_dlist (lists s) x Hal) as (m1 & Hini & Hd1 & Hs1). pose proof (lrep_outside _ _ _ _ (rp_lists _ _ _ Hr) Hu Hs1) as Hr1.
  assert (allocated m1 x) as Hal1 by (eapply dlist_allocated; [exact Hd1|set_solver +]).
  destruct (heap_add_unowned _ _ _ _ _ Hr1 (rp_idle _ _ _ Hr) Hu Hal1) as (m2 & Hadd & Hr2 & Ha2).
  set (l3 := set_flags (Z.lor (Z.land type WAKE_LOCK_TYPE_MASK) WAKE_LOCK_INITIALIZED) (WakeLock (flags l) (if negb (nm =? 0) then nm else name l) (expires l)
    (LockStat 0 0 0 (ktime_set 0 0) (ktime_set 0 0) (ktime_set 0 0) (ktime_set 0 0)))).
  set (s' := set_lists m2 (set_locks (<[x := l3]> (locks s)) s)). exists s'. eexists. split; [|split; [|split; [done|split]]].
  - unfold wake_lock_init.
    assert ((if negb (nm =? 0) then upd_lock x (λ l, WakeLock (flags l) nm (expires l) (stat l)) else mret tt) s =
      Some (tt, set_locks (<[x := WakeLock (flags l) (if negb (nm =? 0) then nm else name l) (expires l) (stat l)]> (locks s)) s)) as Hn1.
    { case_match; [by apply (upd_lock_run _ _ (λ l, WakeLock (flags l) nm (expires l) (stat l)))|]. unfold mret, M_ret. f_equal. f_equal. destruct l. cbn. rewrite insert_id by done. by destruct s. }
    mrun Hn1. erewrite bind_run by (apply get_lock_run; cbn; apply lookup_insert_eq). cbn [name].
    assert (((if negb (nm =? 0) then nm else name l) =? 0) = false) as -> by (destruct (Z.eqb_spec nm 0); cbn; lia). cbn [BUG_ON]. rewrite bind_mret_l.
    erewrite bind_run by (apply upd_lock_run; cbn; apply lookup_insert_eq). erewrite bind_run by (apply upd_lock_run; cbn; apply lookup_insert_eq).
    erewrite bind_run by (apply on_mem_run; exact Hini). erewrite bind_run by done. cbn [inactive_locks set_lists set_locks]. erewrite on_mem_run by (cbn; exact Hadd).
    unfold s'. cbn. by rewrite !insert_insert_eq.
  - eapply (rep_place s s' L A x m2 _ (<[inactive_locks s := x :: idle A]> L)); [done|done| | |by eexists|..]; try (intros ty y Hty' Hy; right; split; [done|]; intros ->).
    + intros q Hq. apply Ha2. destruct (decide (q = x)) as [->|]; [done|]. unfold allocated. rewrite Hs1; [done|set_solver].
    + split_and!; [done..|]. intros y Hy. cbn. rewrite lookup_insert_ne by done. by destruct (locks s !! y); constructor.
    + intros h. destruct (decide (inactive_locks s = h)) as [<-|]; [by rewrite (rp_idle _ _ _ Hr)|]. by rewrite lookup_insert_ne.
    + intros ty Hty'. rewrite lookup_insert_ne by (by apply (rp_sep _ _ _ Hr)). by apply Hr.
    + apply lookup_insert_eq.
    + apply (Hu (head s ty)). eapply own_entry; [by apply Hr|set_solver +Hy].
    + apply (Hu (head s ty)). eapply own_entry; [by apply Hr|set_solver +Hy].
    + intros y [->|Hy]%elem_of_cons.
      * left. split; [done|]. eexists. split; [exact Hty|]. eexists. split; [apply lookup_insert_eq|by apply lock_in_fresh].
      * right. split; [done|]. intros ->. apply (Hu (inactive_locks s)). eapply own_entry; [by apply Hr|done].
    + intros y [Hy|Hy] _; [left; cbn; set_solver +Hy|by right].
    + left. left. cbn. set_solver +.
  - intros y Hy. cbn. by rewrite lookup_insert_ne.
  - eexists. split; [apply lookup_insert_eq|by apply lock_in_fresh].
Qed.

(** A lock that is taken off its list and is not set up any more. *)
Lemma destroy_run s L A x : rep s L A -> listed A x -> is_Some (locks s !! deleted_wake_locks s) ->
  exists s' L', wake_lock_destroy x s = Some (tt, s') /\ rep s' L' (out x A) /\ env s' = env s /\ others x s s' /\ is_Some (locks s' !! x).
Proof.
  intros Hr Hx Hdel. destruct (listed_lock _ _ _ _ Hr Hx) as (ty & a & e & Hty & l & El & Hl).
  set (s1 := set_locks (<[x := clear_bits WAKE_LOCK_INITIALIZED l]> (locks s)) s).
  assert (locks s1 !! x = Some (clear_bits WAKE_LOCK_INITIALIZED l)) as El1 by apply lookup_insert_eq.
  assert (exists s2, (if negb (count (stat (clear_bits WAKE_LOCK_INITIALIZED l)) =? 0) then upd_stat (deleted_wake_locks s1) (add_deleted (stat (clear_bits WAKE_LOCK_INITIALIZED l))) else mret tt) s1
    = Some (tt, s2) /\ sstep s1 s2) as (s2 & Hst & Hss).
  { case_match; [|by exists s1]. destruct (at_upd_stat (deleted_wake_locks s1) (add_deleted (stat (clear_bits WAKE_LOCK_INITIALIZED l))) s1) as ([] & s2 & ? & ?); [|by exists s2].
    cbn. destruct (decide (deleted_wake_locks s = x)) as [->|]; [rewrite lookup_insert_eq; eauto|by rewrite lookup_insert_ne]. }
  destruct (rep_out _ _ _ _ Hr Hx) as (m' & L' & Hrun & Hr' & Hu & Ha & Hax & EL & HA & HI).
  pose proof (ss_env _ _ Hss) as He. destruct (sstep_lock _ _ _ _ Hss El1) as (l2 & El2 & Hk). exists (set_lists m' s2), L'. split_and!.
  - unfold wake_lock_destroy. mrun (upd_lock_run _ _ (clear_bits WAKE_LOCK_INITIALIZED) _ El). mrun (get_lock_run s1 x _ El1). erewrite bind_run by done. mrun Hst.
    apply on_mem_run. by rewrite (ss_lists _ _ Hss).
  - unfold env in He. eapply (rep_place s _ L A x m' _ L'); [done|done|done| |by eexists|..].
    + split_and!; [done|cbn; change (inactive_locks s) with (inactive_locks s1); congruence|cbn; change (active_wake_locks s) with (active_wake_locks s1); congruence|].
      intros y Hy. cbn. pose proof (ss_locks _ _ Hss y) as H. cbn in H. by rewrite lookup_insert_ne in H.
    + intros h. rewrite EL, lookup_fmap. by intros ?%fmap_is_Some.
    + exact HA.
    + exact HI.
    + intros t y _ Hy. right. by apply in_filter_ne.
    + intros t y _ Hy. right. by apply in_filter_ne.
    + intros y Hy. right. by apply in_filter_ne.
    + intros y Hy Hne. by apply out_listed.
    + right. cbn [locks set_lists]. intros l'. rewrite El2. destruct Hk as (_ & _ & Hk). intros E. injection E as <-. rewrite (Hk 8), flag_clear by lia. apply andb_false_r.
  - exact He.
  - intros y Hy. cbn. pose proof (ss_locks _ _ Hss y) as H. cbn in H. rewrite lookup_insert_ne in H by done. inversion H; constructor. by apply kept_same.
  - cbn. eauto.
Qed.

Lemma init_good s L A x type nm l : good s L A -> locks s !! x = Some l -> flag 8 l = false -> nm <> 0 \/ name l <> 0 -> 0 <= Z.land type WAKE_LOCK_TYPE_MASK < 2 ->
  exists s' L' A', wake_lock_init x type nm s = Some (tt, s') /\ follows s A (eq x) s' L' A' /\ steady s A (λ _, False) s' A' /\ listed A' x /\ lock_at s' (Z.land type WAKE_LOCK_TYPE_MASK) false false x.
Proof.
  intros [H1 H2 H3 H4] El Hf Hnm Hty. destruct (init_run _ _ _ _ _ _ _ H1 El Hf Hnm Hty) as (s' & L' & Hrun & Hr & He & Ho & Hat). exists s', L', (put_idle x A). split; [done|].
  assert (forall y, listed A y -> y <> x) as Hnx.
  { intros y Hy ->. destruct (listed_lock _ _ _ _ H1 Hy) as (ty & a & e & _ & l' & El' & Hl'). destruct Hl'. congruence. }
  pose proof (env_base _ _ He) as Hb. unfold base in Hb. injection Hb as E1 E2 E3 E4 E5 E6.
  assert (steady s A (λ _, False) s' (put_idle x A)) as Hsd.
  { intros y ty _ Hl (ly & Ely & Hly). split; [destruct Hl as [?|?]; [left; cbn; set_solver|by right]|]. exists ly. rewrite Ho; [done|by apply Hnx]. }
  split; [|split; [done|split; [left; cbn; set_solver +|done]]].
  split; [|split; [by apply env_base|done]]. split; [done| |unfold env in He; congruence|].
  - apply (live_trim s s' A); [exact He| |done|done|done|exact H2]. intros y Hy. unfold key. rewrite (env_jiffies _ _ He), Ho; [done|]. apply Hnx. right. exists 0. split; [lia|set_solver +Hy].
  - destruct H4 as [K1 K2]. split; unfold own_locks; rewrite ?E3, ?E4, ?E5, ?E6.
    + destruct (decide (deleted_wake_locks s = x)) as [->|]; [destruct Hat as (? & -> & _); eauto|by rewrite Ho].
    + intros y Hy. destruct (K2 y Hy) as [Hl Hty0]. apply Hsd; tauto.
Qed.

Lemma destroy_good s L A x l : good s L A -> listed A x -> locks s !! x = Some l -> flag 9 l = false -> x ∉ own_locks s ->
  exists s' L' A', wake_lock_destroy x s = Some (tt, s') /\ follows s A (eq x) s' L' A' /\ steady s A (eq x) s' (out x A) /\ A' = out x A.
Proof.
  intros [H1 H2 H3 H4] Hx El Hf Hne. destruct (destroy_run _ _ _ _ H1 Hx (kn_deleted _ _ H4)) as (s' & L' & Hrun & Hr & He & Ho & Hs). exists s', L', (out x A). split; [done|].
  pose proof (env_base _ _ He) as Hb. unfold base in Hb. injection Hb as E1 E2 E3 E4 E5 E6.
  assert (x ∉ perm A 0 /\ x ∉ timed A 0) as [Hnp Hnt].
  { split; intros Hin; [destruct (rp_perm_in _ _ _ H1 0 x ltac:(lia) Hin) as (l' & El' & Hl')|destruct (rp_timed_in _ _ _ H1 0 x ltac:(lia) Hin) as (l' & El' & Hl')]; destruct Hl'; congruence. }
  assert (steady s A (eq x) s' (out x A)) as Hsd.
  { intros y ty Hyx Hl (ly & Ely & Hly). assert (y <> x) as Hne' by congruence. split; [by apply out_listed|]. specialize (Ho y Hne'). rewrite Ely in Ho. inversion Ho as [? l' [_ Ht] EE1 EE2|]. subst. exists l'. split; [done|]. congruence. }
  split; [|done]. split; [|split; [by apply env_base|intros y _; cbn; by rewrite filter_ne_notin]]. split; [done| |unfold env in He; congruence|].
  - eapply live_trim; [exact He| |cbn; by apply filter_ne_notin|cbn; by rewrite filter_ne_notin|cbn; by rewrite filter_ne_notin|exact H2]. intros y Hy. eapply others_key; [done|done|]. by intros ->.
  - destruct H4 as [[k Ek] K2]. split; unfold own_locks; rewrite ?E3, ?E4, ?E5, ?E6.
    + destruct (decide (deleted_wake_locks s = x)) as [->|Hyx]; [done|]. specialize (Ho _ Hyx). rewrite Ek in Ho. inversion Ho. eauto.
    + intros y Hy. destruct (K2 y Hy) as [Hl Hty0]. apply Hsd; [by intros <-|done|done].
Qed.

(** ** Time and suspending *)
Lemma key_tick s s' n x : locks s' = locks s -> jiffies s' = u32 (jiffies s + n) -> 0 <= n < 2 ^ 30 -> n - 2 ^ 30 <= key s x < 2 ^ 30 -> is_Some (locks s !! x) -> key s' x = key s x - n.
Proof.
  intros El Ej Hn Hk [l E]. unfold key in *. rewrite El, E, Ej in *. destruct (u32_ex (jiffies s + n)) as [k1 ->]. destruct (s32_ex (expires l - jiffies s)) as [k2 E2].
  rewrite E2 in *. apply (s32_shift _ _ (- k1 - k2)); lia.
Qed.

(** [n] jiffies pass; no lock has been on the list for so long after its time that the
    counter wraps. *)
Lemma tick_good s L A n kt tomono : good s L A -> 0 <= n < 2 ^ 30 -> (forall x, x ∈ timed A 0 -> n - 2 ^ 30 <= key s x) ->
  exists s' L' A', tick n kt tomono s = Some (tt, s') /\ good s' L' A' /\ perm A' 0 = perm A 0 /\ (forall x, x ∈ timed A' 0 -> x ∈ timed A 0 /\ key s' x = key s x - n) /\
    base s' = base s /\ suspending s' = suspending s /\ (suspend_queued s = true -> suspend_queued s' = true) /\
    (perm A 0 = [] -> (forall x, x ∈ timed A 0 -> key s x <= n) -> is_Some (pending s) -> suspend_queued s' = true) /\ steady s A (λ _, False) s' A'.
Proof.
  intros [H1 H2 H3 H4] Hn Hold. unfold tick. destruct (tm_tick_law (expire_timer s) n H3 ltac:(lia)) as (b & t & Htick & Hok & Hj & Hp). fold (jiffies s) in *. fold (pending s) in Hp.
  assert (on_timer (tm_tick n) s = Some (b, set_timer t s)) as Hon by (unfold on_timer; by rewrite Htick). mrun Hon. erewrite bind_run by done.
  set (s1 := set_times kt tomono (set_timer t s)). destruct H2 as [[L1 L2 L3] L4].
  assert (forall x, x ∈ timed A 0 -> key s1 x = key s x - n) as Ek.
  { intros x Hx. destruct (rp_timed_in _ _ _ H1 0 x ltac:(lia) Hx) as (l & El & _). apply key_tick; [done|exact Hj|done|specialize (L1 x Hx); specialize (Hold x Hx); lia|by eexists]. }
  assert (rep s1 L A) as Hr1 by (by destruct H1). assert (known s1 A) as Hk1 by (by destruct H4).
  destruct (pending s) as [e|] eqn:Ep.
  - destruct (L2 e eq_refl) as (HP & Hpos & Hall & x0 & Hx0 & Ex0). destruct (Z.leb_spec (s32 (e - jiffies s)) n) as [Hle|Hgt]; destruct Hp as [-> Hp].
    + destruct (has_run s1 L A 0 ltac:(lia) Hr1) as (s2 & L' & A' & Hrun & Hr2 & Hq & HA & Hlis). rewrite HP in *. cbn [none bool_decide decide] in *.
      destruct (HA 0 ltac:(lia)) as [HP' HT']. change (none []) with true in *. cbn [andb Z.eqb] in HT'.
      assert (longest s1 0 (timed A 0) = 0) as El0.
      { destruct (longest_spec s1 (timed A 0) 0) as (Hl0 & _ & [E|(x & Hx & E)]); [done|]. specialize (Ek x Hx). specialize (Hall x Hx). lia. }
      unfold expire_wake_locks. rewrite El0 in Hrun. mrun Hrun. cbn [Z.eqb]. eexists _, L', A'. split; [done|]. pose proof (q_env _ _ Hq) as He. unfold env in He.
      injection He as E1 E2 E3 E4 E5 E6 Et E8 E9 E10. assert (timed A' 0 = []) as HT0.
      { rewrite HT'. destruct (alive s1 (timed A 0)) as [|x rest] eqn:Ea; [done|]. assert (x ∈ alive s1 (timed A 0)) as Hx by (rewrite Ea; set_solver +). apply alive_sub in Hx as [Hx Hk].
        specialize (Ek x Hx). specialize (Hall x Hx). lia. }
      split; [|split_and!; [by rewrite HP'|rewrite HT0; set_solver +|unfold base; cbn; congruence|cbn; congruence|done|done|apply steady_typed; [apply (same_typed s1), Hq|apply Hlis]]]. split; [by apply rep_run| |cbn; by rewrite Et|].
      * split; [split|]; unfold near, pending, next; cbn; rewrite ?HT0, ?Et.
        -- set_solver +.
        -- cbn. rewrite Hp. done.
        -- set_solver +.
        -- intros _. by right; left.
      * destruct (known_same _ s2 _ A' Hk1) as [? ?]; [apply env_base, Hq|apply same_typed, Hq|apply Hlis|]. by split.
    + exists s1, L, A. split; [done|]. assert (s32 (e - jiffies s1) = s32 (e - jiffies s) - n) as Ee.
      { unfold jiffies at 1. cbn. rewrite Hj. destruct (u32_ex (jiffies s + n)) as [k1 ->]. destruct (s32_ex (e - jiffies s)) as [k2 E2]. pose proof (s32_range (e - jiffies s)). rewrite E2 in *. apply (s32_shift _ _ (- k1 - k2)); lia. }
      split; [|split_and!; [done|auto|done|done|done| |by intros y ty]].
      * split; [done| |done|done]. split; [split|].
        -- intros x Hx. rewrite Ek by done. specialize (L1 x Hx). specialize (Hold x Hx). lia.
        -- unfold pending. cbn. rewrite Hp. intros ? [= <-]. fold (jiffies s1). rewrite Ee. split_and!; [done|lia|intros x Hx; rewrite Ek by done; specialize (Hall x Hx); lia|].
           exists x0. rewrite Ek by done. split; [done|lia].
        -- intros _ x Hx _. unfold pending. cbn. rewrite Hp. eauto.
        -- intros _. left. unfold pending. cbn. rewrite Hp. eauto.
      * intros _ Hle. specialize (Hle x0 Hx0). lia.
  - destruct Hp as [-> Hp]. exists s1, L, A. split; [done|]. split; [|split_and!; [done|auto|done|done|done|intros _ _ [? ?]; done|by intros y ty]]. split; [done| |done|done]. split; [split|].
    + intros x Hx. rewrite Ek by done. specialize (L1 x Hx). specialize (Hold x Hx). lia.
    + unfold pending. cbn. by rewrite Hp.
    + intros HP x Hx. rewrite Ek by done. intros Hpos. destruct (L3 HP x Hx ltac:(lia)). done.
    + intros HP. destruct (L4 HP) as [[? ?]|?]; [congruence|by right].
Qed.

(** Nothing keeps the system from suspending. *)
Definition free s A : Prop := perm A 0 = [] /\ forall x, x ∈ timed A 0 -> key s x <= 0.
Lemma free_result s A : (if none (perm A 0) then longest s 0 (timed A 0) else -1) = 0 <-> free s A.
Proof.
  destruct (longest_spec s (timed A 0) 0) as (H0 & H1 & H2). unfold free. destruct (none (perm A 0)) eqn:E; [apply none_true in E|apply none_false in E].
  - split; [intros El; split; [done|]; intros x Hx; specialize (H1 x Hx); lia|]. intros [_ Hx]. destruct H2 as [?|(x & Hin & Hk)]; [done|]. specialize (Hx x Hin). lia.
  - split; [lia|]. by intros [? _].
Qed.

Lemma start_good s L A : good s L A -> exists b s' L' A', suspend_start s = Some (b, s') /\ follows s A (λ _, False) s' L' A' /\ (b = true <-> free s A) /\ steady s A (λ _, False) s' A'.
Proof.
  intros [H1 [Ha Hn] H3 H4]. unfold suspend_start. erewrite bind_run by done. set (s1 := set_queued false s). assert (rep s1 L A) as Hr1 by (by apply rep_run).
  destruct (has_run s1 L A 0 ltac:(lia) Hr1) as (s2 & L' & A' & Hrun & Hr2 & Hq & HA & Hlis). unfold has_wake_lock, WAKE_LOCK_SUSPEND. mrun Hrun.
  pose proof (free_result s A) as Hfree. change (longest s1 0) with (longest s 0) in *. change (alive s1) with (alive s) in *. set (r := if none (perm A 0) then _ else _) in *.
  destruct (HA 0 ltac:(lia)) as [HP HT]. cbn [Z.eqb andb] in HT. pose proof (q_env _ _ Hq) as He. unfold env in He. injection He as E1 E2 E3 E4 E5 E6 Et E8 E9 E10.
  assert (armed s2 A') as Ha2.
  { eapply (armed_trim s s2 A); [exact Et|intros x _; by rewrite (quiet_key _ _ x Hq)|done|..|done]; rewrite HT.
    - intros x Hx. case_match; [by apply alive_sub in Hx as [? _]|done].
    - intros x Hx Hk. case_match; [by apply list_elem_of_filter|done]. }
  assert (known s2 A') as Hk2 by (eapply (known_same s1); [by destruct H4|apply env_base, Hq|apply same_typed, Hq|apply Hlis]).
  assert (base s2 = base s /\ forall y, ~ False -> y ∈ perm A' 0 <-> y ∈ perm A 0) as [Hb2 Hp2] by (split; [unfold base; cbn in *; congruence|by rewrite HP]).
  assert (steady s A (λ _, False) s2 A') as Hsd by (apply steady_typed; [apply (same_typed s1), Hq|apply Hlis]).
  assert (tm_ok (expire_timer s2)) as Ht2 by (by rewrite Et). destruct (Z.eqb_spec r 0) as [E0|E0]; cbn [negb].
  - eexists true, _, L', A'. split; [done|]. split; [|split; [tauto|exact Hsd]]. split; [|split; [exact Hb2|exact Hp2]]. split; [by apply rep_run| |done|by destruct Hk2]. split; [by destruct Ha2|]. intros _. by right; right.
  - eexists false, _, L', A'. split; [done|]. split; [|split; [split; [done|tauto]|exact Hsd]]. split; [|split; [exact Hb2|exact Hp2]]. split; [done| |done|done]. split; [done|]. intros HP0. left. rewrite HP in HP0. unfold pending. rewrite Et.
    unfold r in E0. rewrite HP0 in E0. change (none []) with true in E0. destruct (longest_spec s (timed A 0) 0) as (Hl0 & _ & [?|(x & Hx & Hk)]); [done|]. eapply Ha; [done|exact Hx|lia].
Qed.

Lemma sstep_stats s u w r : sstep s (set_stats u w r s).
Proof. split; [done|done|]. intros y. cbn. by destruct (locks s !! y); constructor. Qed.
Lemma late_good s L A : good s L A -> exists r s' L' A', power_suspend_late s = Some (r, s') /\ follows s A (λ _, False) s' L' A' /\ (r = 0 \/ r = - EAGAIN) /\ (r = 0 <-> free s A) /\ steady s A (λ _, False) s' A'.
Proof.
  intros Hg. destruct (has_good s L A 0 Hg ltac:(lia)) as (s' & L' & A' & Hrun & Hg' & Hq & HA & Hsd). unfold power_suspend_late, WAKE_LOCK_SUSPEND. mrun Hrun. pose proof (free_result s A) as Hfree.
  erewrite bind_run by done. eexists _, _, L', A'. split; [done|]. destruct (HA 0 ltac:(lia)) as [HP _].
  split; [eapply follows_sstep; [split; [exact Hg'|split; [apply env_base, Hq|by rewrite HP]]|apply sstep_stats]|]. destruct (Z.eqb_spec (if none (perm A 0) then longest s 0 (timed A 0) else -1) 0) as [E|E]; cbn [negb].
  - split; [by left|]. split; [tauto|exact Hsd].
  - split; [by right|]. split; [split; [done|tauto]|exact Hsd].
Qed.

Lemma end_good s L A n : good s L A -> suspending s = Some n -> exists s' L' A', suspend_end s = Some (tt, s') /\ follows s A (eq (unknown_wakeup s)) s' L' A' /\ steady s A (λ _, False) s' A'.
Proof.
  intros [H1 [Ha Hn] H3 H4] Es. unfold suspend_end. erewrite bind_run by done. rewrite Es. erewrite bind_run by done. set (s1 := set_suspending None s).
  destruct (Z.eqb_spec (current_event_num s) n) as [<-|Hne].
  - destruct (lock_suspend_run s1 L A (unknown_wakeup s) (HZ `div` 2) true) as (s' & L' & A' & Hrun & Hr & Hl & Ht & Hb & Hty & Hlis & HP); [by apply rep_run|apply Ha|done|exact (known_main _ _ H4)|apply H4; set_solver +|apply H4; set_solver +|done|].
    exists s', L', A'. split; [done|]. split; [|apply steady_typed; [exact Hty|apply Hlis]]. split; [|split; [done|intros y Hy; rewrite HP; by apply kept_perm]]. split; [done..|]. eapply (known_same s1); [by destruct H4|done|done|apply Hlis].
  - exists s1, L, A. split; [done|]. split; [|by intros y ty]. split; [|done]. split; [by apply rep_run| |done|by destruct H4]. split; [by destruct Ha|]. intros HP. destruct (Hn HP) as [?|[?|E]]; [by left|by right; left|congruence].
Qed.

(** ** Start *)
Definition fresh s x : Prop := exists l, locks s !! x = Some l /\ flag 8 l = false.
(** The state when [wakelocks_init] is called: [LIST_HEAD] has set up [inactive_locks],
    and the locks are zero. *)
Record boot s : Prop := {
  bt_lists : lrep (lists s) {[inactive_locks s := []]};
  bt_heads : forall ty, 0 <= ty < 2 -> allocated (lists s) (head s ty) /\ head s ty <> inactive_locks s;
  bt_locks : forall x, is_Some (locks s !! x) -> fresh s x /\ allocated (lists s) x /\ x <> inactive_locks s /\ forall ty, 0 <= ty < 2 -> x <> head s ty;
  bt_own : Forall (λ x, is_Some (locks s !! x)) [deleted_wake_locks s; main_wake_lock s; unknown_wakeup s; sync_wake_lock s];
  bt_distinct : NoDup [deleted_wake_locks s; main_wake_lock s; unknown_wakeup s; sync_wake_lock s];
  bt_timer : tm_ok (expire_timer s) /\ pending s = None;
}.
Definition empty_view : view := View (λ _, []) (λ _, []) [].

Lemma heads_run s : boot s -> exists m L, on_lists (INIT_LIST_HEAD (head s 0)) s = Some (tt, set_lists m s) /\
  exists m', on_lists (INIT_LIST_HEAD (head s 1)) (set_lists m s) = Some (tt, set_lists m' s) /\ rep (set_lists m' s) L empty_view.
Proof.
  intros [H1 H2 H3 _ _ _]. destruct (H2 0 ltac:(lia)) as [Ha0 Hn0], (H2 1 ltac:(lia)) as [Ha1 Hn1]. assert (head s 1 <> head s 0) as H10 by (unfold head; lia).
  destruct (INIT_LIST_HEAD_dlist (lists s) (head s 0) Ha0) as (m & Hrun & Hd & Hs).
  assert (lrep m (<[head s 0 := []]> {[inactive_locks s := []]})) as Hr1.
  { eapply lrep_fresh; [exact H1| |done|done]. intros h (k & E & Hin). apply lookup_singleton_Some in E as [<- <-]. set_solver. }
  assert (allocated m (head s 1)) as Ha1' by (unfold allocated; rewrite Hs by set_solver; exact Ha1).
  destruct (INIT_LIST_HEAD_dlist m (head s 1) Ha1') as (m' & Hrun' & Hd' & Hs').
  assert (lrep m' (<[head s 1 := []]> (<[head s 0 := []]> {[inactive_locks s := []]}))) as Hr2.
  { eapply lrep_fresh; [exact Hr1| |done|done]. intros h (k & E & Hin). apply lookup_insert_Some in E as [[<- <-]|[_ [<- <-]%lookup_singleton_Some]]; set_solver. }
  exists m, (<[head s 1 := []]> (<[head s 0 := []]> {[inactive_locks s := []]})). split; [by apply on_mem_run|]. exists m'. split; [exact (on_mem_run _ (set_lists m s) _ _ Hrun')|].
  assert (forall ty, 0 <= ty < 2 -> ty = 0 \/ ty = 1) as H01 by lia. split; cbn [lists set_lists inactive_locks perm timed idle empty_view locks app]; try set_solver +.
  - done.
  - intros ty [-> | ->]%H01; change (head (set_lists m' s)) with (head s); [rewrite lookup_insert_ne by done|]; apply lookup_insert_eq.
  - rewrite !lookup_insert_ne by done. apply lookup_singleton_eq.
  - intros ty Hty. apply not_eq_sym. by apply H2.
  - intros x Hx. destruct (H3 x Hx) as (_ & Ha & Hi & Hh). split.
    + unfold allocated. rewrite Hs' by (intros ->%list_elem_of_singleton; by apply (Hh 1)). rewrite Hs by (intros ->%list_elem_of_singleton; by apply (Hh 0)). exact Ha.
    + rewrite !lookup_insert_ne by (apply not_eq_sym; apply Hh; lia). by apply lookup_singleton_ne.
  - intros x l El Hf. destruct (H3 x) as ((l' & El' & Hf') & _); [by eexists|]. congruence.
  - intros h l [[<- _]|[_ [[<- _]|[_ [<- _]%lookup_singleton_Some]]%lookup_insert_Some]]%lookup_insert_Some; [right; exists 1; by split|right; exists 0; by split|by left].
Qed.

Lemma fresh_init s L A x nm : rep s L A -> fresh s x -> nm <> 0 -> exists s' L',
  wake_lock_init x WAKE_LOCK_SUSPEND nm s = Some (tt, s') /\ rep s' L' (put_idle x A) /\ env s' = env s /\ (forall y, y <> x -> locks s' !! y = locks s !! y) /\ type_at s' 0 x.
Proof.
  intros Hr (l & El & Hf) Hnm. destruct (init_run s L A x WAKE_LOCK_SUSPEND nm l Hr El Hf) as (s' & L' & Hrun & Hr' & He & Ho & l' & El' & Hl'); [by left|done|].
  exists s', L'. split_and!; [done..|]. exists l'. split; [done|apply Hl'].
Qed.

Lemma put_idle_other A x y : listed (put_idle x A) y <-> y = x \/ listed A y.
Proof.
  split.
  - intros [[->|Hy]%elem_of_cons|Hy]; [by left|by right; left|by right; right].
  - intros [->|[Hy|Hy]]; [left; cbn; set_solver +|left; cbn; set_solver +Hy|by right].
Qed.
Lemma listed_out A x y : listed (out x A) y -> listed A y /\ y <> x.
Proof.
  intros [[? ?]%in_filter_ne|(ty & Hty & Hy)]; [split; [by left|done]|]. cbn in Hy. rewrite <-filter_app in Hy. apply in_filter_ne in Hy as [? ?]. split; [|done]. right. by exists ty.
Qed.
Lemma not_listed_fresh s L A x : rep s L A -> is_Some (locks s !! x) -> ~ listed A x -> fresh s x.
Proof. intros Hr [l E] Hn. exists l. split; [done|]. destruct (flag 8 l) eqn:Ef; [|done]. destruct Hn. by eapply rp_init. Qed.
Lemma live_idle s s' A x : env s' = env s -> (forall y, y <> x -> locks s' !! y = locks s !! y) -> ~ listed A x -> live s A -> live s' (put_idle x A).
Proof.
  intros He Ho Hx Hl. apply (live_trim s s' A); try done. intros y Hy. unfold key. rewrite (env_jiffies _ _ He), Ho; [done|]. intros ->. apply Hx. right. exists 0. split; [lia|set_solver +Hy].
Qed.

(** All four locks are set up, and [main_wake_lock] keeps the system awake. *)
Lemma setup_run s n1 n2 n3 n4 : boot s -> n1 <> 0 -> n2 <> 0 -> n3 <> 0 -> n4 <> 0 -> exists s' L A,
  wakelocks_setup n1 n2 n3 n4 s = Some (tt, s') /\ good s' L A /\ listed A (sync_wake_lock s') /\ listed A (main_wake_lock s') /\ listed A (deleted_wake_locks s') /\
  (lock_at s' 0 true false (main_wake_lock s') /\ pending s' = None) /\ base s' = base s /\ (forall y, listed A y -> y ∈ [deleted_wake_locks s; main_wake_lock s; unknown_wakeup s; sync_wake_lock s]).
Proof.
  intros Hb N1 N2 N3 N4. unfold wakelocks_setup. erewrite bind_run by done. destruct (heads_run s Hb) as (m & L0 & Hh0 & m' & Hh1 & Hr0). mrun Hh0. mrun Hh1.
  set (s0 := set_lists m' s) in *. set (d := deleted_wake_locks s). set (mn := main_wake_lock s). set (u := unknown_wakeup s). set (y := sync_wake_lock s).
  pose proof (bt_distinct _ Hb) as Hnd. fold d mn u y in Hnd. assert (d <> mn /\ d <> u /\ d <> y /\ mn <> u /\ mn <> y /\ u <> y) as (D1 & D2 & D3 & D4 & D5 & D6).
  { repeat (apply NoDup_cons in Hnd as [? Hnd]). set_solver. }
  assert (forall z, z ∈ [d; mn; u; y] -> fresh s0 z) as Hfr by (intros z Hz; pose proof (proj1 (Forall_forall _ _) (bt_own _ Hb) z Hz); by apply (bt_locks _ Hb)).
  destruct (fresh_init s0 L0 _ d n1 Hr0 (Hfr d ltac:(set_solver +)) N1) as (s1 & L1 & Hi1 & Hr1 & He1 & Ho1 & Ht1). mrun Hi1.
  assert (forall z, z <> d -> z ∈ [d; mn; u; y] -> fresh s1 z) as Hfr1 by (intros z Hz Hin; destruct (Hfr z Hin) as (l & ? & ?); exists l; by rewrite Ho1).
  destruct (fresh_init s1 L1 _ mn n2 Hr1 (Hfr1 mn ltac:(done) ltac:(set_solver +)) N2) as (s2 & L2 & Hi2 & Hr2 & He2 & Ho2 & Ht2). mrun Hi2.
  set (A2 := put_idle mn (put_idle d empty_view)) in *. assert (env s2 = env s0) as He20 by congruence. assert (forall z, listed A2 z <-> z = mn \/ z = d) as HA2.
  { intros z. unfold A2. rewrite !put_idle_other. split; [|tauto]. intros [?|[?|[Hz|(? & _ & Hz)]]]; [tauto|tauto|set_solver +Hz|set_solver +Hz]. }
  assert (main_wake_lock s2 = mn /\ expire_timer s2 = expire_timer s) as [Em Et].
  { change mn with (main_wake_lock s0). change (expire_timer s) with (expire_timer s0). unfold env in He20. split; congruence. }
  destruct (lock_suspend_run s2 L2 A2 mn 0 false) as (s3 & L3 & A3 & Hlk & Hr3 & Hl3 & Htm3 & Hb3 & Hty3 & Hlis3 & Hmn); [done|intros z Hz; set_solver +Hz|rewrite Et; apply Hb| |apply HA2; by left|done|done|].
  { rewrite Em. destruct Ht2 as (l & -> & _). eauto. }
  unfold wake_lock. mrun Hlk.
  assert (forall z, z <> d -> z <> mn -> z ∈ [d; mn; u; y] -> ~ listed A3 z /\ fresh s3 z) as Hfr3.
  { intros z Hd Hm Hin. assert (~ listed A3 z) as Hn by (rewrite Hlis3, HA2; tauto). split; [done|]. apply (not_listed_fresh _ _ _ _ Hr3); [|done]. apply (typed_some _ _ _ Hty3).
    rewrite Ho2 by done. destruct (Hfr1 z Hd Hin) as (l & -> & _). eauto. }
  destruct (Hfr3 u ltac:(done) ltac:(done) ltac:(set_solver +)) as [Hnu Hfu]. destruct (Hfr3 y ltac:(done) ltac:(done) ltac:(set_solver +)) as [Hny (ly & Ely & Hfy)].
  destruct (fresh_init s3 L3 _ u n3 Hr3 Hfu N3) as (s4 & L4 & Hi4 & Hr4 & He4 & Ho4 & Ht4). mrun Hi4.
  destruct (fresh_init s4 L4 _ y n4 Hr4) as (s5 & L5 & Hi5 & Hr5 & He5 & Ho5 & Ht5); [exists ly; by rewrite Ho4|done|].
  assert (base s5 = base s) as Hbase by (rewrite (env_base _ _ He5), (env_base _ _ He4), Hb3; by rewrite (env_base _ _ He20)).
  pose proof Hbase as Hb'. unfold base in Hb'. injection Hb' as Fi Fa Fm Fu Fd Fy. exists s5, L5, (put_idle y (put_idle u A3)). rewrite Fy, Fm, Fd. fold d mn y.
  assert (forall z, listed (put_idle y (put_idle u A3)) z <-> z = y \/ z = u \/ z = mn \/ z = d) as HA5 by (intros z; by rewrite !put_idle_other, Hlis3, HA2).
  assert (mn ∈ perm A3 0) as Hmn' by (rewrite Hmn; cbn; set_solver +). split; [done|]. split; [|split_and!; [apply HA5; tauto..|apply (rp_perm_in _ _ _ Hr5 0 mn); [lia|exact Hmn']| |done|intros z; rewrite HA5; set_solver +]].
  2: { assert (expire_timer s5 = expire_timer s3) as Et5 by (unfold env in He5, He4; congruence). unfold pending. rewrite Et5. destruct (tm_pending (expire_timer s3)) as [e|] eqn:Ep; [|done].
    destruct (lv_timer _ _ (proj1 Hl3) e Ep) as [HP _]. rewrite HP in Hmn'. set_solver +Hmn'. }
  assert (forall z, z = d \/ z = mn -> is_Some (locks s5 !! z)) as Hold.
  { intros z Hz. rewrite Ho5, Ho4 by (destruct Hz; subst; done). apply (typed_some _ _ _ Hty3). destruct (listed_lock _ _ _ _ Hr2 (proj2 (HA2 z) ltac:(tauto))) as (? & ? & ? & _ & l & -> & _). eauto. }
  split; [done| | |].
  - eapply live_idle; [exact He5|done| |eapply live_idle; [exact He4|done|done|done]]. rewrite put_idle_other. intros [?|?]; [done|]. by apply Hny.
  - assert (expire_timer s5 = expire_timer s3) as -> by (unfold env in He5, He4; congruence). done.
  - split; unfold own_locks; rewrite ?Fm, ?Fd, ?Fu, ?Fy; [apply Hold; by left|]. fold mn u y. intros z Hz. split; [apply HA5; set_solver +Hz|].
    apply elem_of_cons in Hz as [->|[->|Hz%list_elem_of_singleton]%elem_of_cons].
    + destruct Ht2 as (lm & Elm & Hlm). specialize (Hty3 mn). rewrite Elm in Hty3. inversion Hty3 as [? l3 Et3 E1 E2|]. exists l3. rewrite Ho5, Ho4 by done. split; [done|congruence].
    + destruct Ht4 as (lu & Elu & Hlu). exists lu. by rewrite Ho5 by done.
    + by subst z.
Qed.

Lemma destroy_step s L A x (rest : M (wls W) unit) : rep s L A -> listed A x -> is_Some (locks s !! deleted_wake_locks s) -> exists s' L',
  (wake_lock_destroy x ;; rest) s = rest s' /\ rep s' L' (out x A) /\ env s' = env s /\ is_Some (locks s' !! deleted_wake_locks s').
Proof.
  intros Hr Hx Hd. destruct (destroy_run s L A x Hr Hx Hd) as (s' & L' & Hrun & Hr' & He & Ho & Hs). exists s', L'. mrun Hrun. split_and!; [done..|].
  assert (deleted_wake_locks s' = deleted_wake_locks s) as -> by (unfold env in He; congruence). destruct (decide (deleted_wake_locks s = x)) as [->|Hne]; [done|].
  destruct Hd as [l El]. specialize (Ho _ Hne). rewrite El in Ho. inversion Ho. eauto.
Qed.
Lemma exit_run s L A : good s L A -> listed A (sync_wake_lock s) -> listed A (main_wake_lock s) -> listed A (deleted_wake_locks s) ->
  NoDup [deleted_wake_locks s; main_wake_lock s; unknown_wakeup s; sync_wake_lock s] -> exists s' L',
  wakelocks_exit s = Some (tt, s') /\ rep s' L' (out (deleted_wake_locks s) (out (main_wake_lock s) (out (unknown_wakeup s) (out (sync_wake_lock s) A)))).
Proof.
  intros [H1 _ _ [K2 K3]] Hy Hm Hd Hnd. destruct (K3 (unknown_wakeup s)) as [Hu _]; [set_solver +|]. set (d := deleted_wake_locks s) in *. set (mn := main_wake_lock s) in *. set (u := unknown_wakeup s) in *. set (y := sync_wake_lock s) in *.
  assert (d <> mn /\ d <> u /\ d <> y /\ mn <> u /\ mn <> y /\ u <> y) as (D1 & D2 & D3 & D4 & D5 & D6).
  { repeat (apply NoDup_cons in Hnd as [? Hnd]). set_solver. }
  unfold wakelocks_exit. erewrite bind_run by done. fold d mn u y.
  destruct (destroy_step s L A y (wake_lock_destroy u ;; wake_lock_destroy mn ;; wake_lock_destroy d) H1 Hy K2) as (s1 & L1 & -> & Hr1 & _ & Hd1).
  destruct (destroy_step s1 L1 _ u (wake_lock_destroy mn ;; wake_lock_destroy d) Hr1 ltac:(by apply out_listed) Hd1) as (s2 & L2 & -> & Hr2 & _ & Hd2).
  destruct (destroy_step s2 L2 _ mn (wake_lock_destroy d) Hr2 ltac:(by repeat apply out_listed) Hd2) as (s3 & L3 & -> & Hr3 & _ & Hd3).
  destruct (destroy_run s3 L3 _ d Hr3 ltac:(by repeat apply out_listed) Hd3) as (s4 & L4 & -> & Hr4 & _). by exists s4, L4.
Qed.

(** ** The lines of /proc/wakelocks *)
Lemma at_print p : at_lock p (print_lock_stat p : M (wls W) stat_line).
Proof. unfold print_lock_stat. at_lock. Qed.
Lemma expired_time_pure s s' p l r : locks s !! p = Some l -> get_expired_time p s = Some (r, s') -> s' = s.
Proof.
  unfold get_expired_time. intros El H. rewrite (bind_run _ _ _ _ _ (get_lock_run _ _ _ El)) in H. case_match; [by injection H|].
  rewrite (bind_run _ _ s s s) in H by done. case_match; [by injection H|]. rewrite set_normalized_run in H by apply s32_range. by injection H.
Qed.
(** Printing reads the clock and nothing else. *)
Lemma print_run s p l : locks s !! p = Some l -> exists ln s', print_lock_stat p s = Some (ln, s') /\ sstep s s' /\ ln_name ln = name l /\ locks s' = locks s.
Proof.
  intros El. destruct (at_print p s) as (ln & s' & Hrun & Hss); [by eexists|]. exists ln, s'. split; [done|]. split; [done|].
  unfold print_lock_stat in Hrun. rewrite (bind_run _ _ _ _ _ (get_lock_run _ _ _ El)) in Hrun. cbn beta zeta in Hrun. destruct (has_bits WAKE_LOCK_ACTIVE l); [|by injection Hrun as <- <-].
  apply bind_inv in Hrun as (r & s1 & ->%(expired_time_pure _ _ _ l) & Hrun); [|done]. apply bind_inv in Hrun as (en & s2 & Hen & Hrun).
  assert (locks s2 = locks s) as <- by (destruct r; by injection Hen as _ <-). by injection Hrun as <- <-.
Qed.

Definition name_at s x : Z := match locks s !! x with Some l => name l | None => 0 end.
Lemma name_at_sstep s s' x : sstep s s' -> name_at s' x = name_at s x.
Proof. intros H. unfold name_at. pose proof (ss_locks _ _ H x) as Hx. inversion Hx as [a b (_ & Hn & _) E1 E2|]; [by rewrite Hn|done]. Qed.
Lemma names_sstep s s' (l : list Z) : sstep s s' -> name_at s' <$> l = name_at s <$> l.
Proof. intros H. apply list_fmap_ext. intros _ y _. by apply name_at_sstep. Qed.
Lemma show_walk_run h fuel : forall l1 l2 s L, lrep (lists s) L -> L !! h = Some (l1 ++ l2) -> (forall x, x ∈ l2 -> is_Some (locks s !! x)) -> (length l2 < fuel)%nat ->
  exists lns s', show_walk fuel h (hd h l2) s = Some (lns, s') /\ sstep s s' /\ ln_name <$> lns = name_at s <$> l2 /\ locks s' = locks s.
Proof.
  induction fuel as [|fuel IH]; intros l1 l2 s L Hr EL Hin Hf; [lia|]. cbn [show_walk]. destruct l2 as [|x l2]; cbn [hd].
  { rewrite Z.eqb_refl. by exists [], s. }
  assert ((x =? h) = false) as ->.
  { apply Z.eqb_neq. intros ->. pose proof (lrep_nodup _ _ _ _ Hr EL) as Hn. apply NoDup_cons in Hn as [Hn _]. set_solver +Hn. }
  destruct (Hin x ltac:(set_solver +)) as [l El]. destruct (print_run s x l El) as (ln & s1 & Hp & Hss & Hnm & Hls). mrun Hp. rewrite <-(ss_lists _ _ Hss) in Hr.
  mrun (on_mem_run (get_next x) _ _ _ (heap_next _ _ _ _ _ _ Hr EL)). rewrite same_lists.
  destruct (IH (l1 ++ [x]) l2 s1 L Hr) as (lns & s' & Hrun & Hss' & Hnms & Hls'); [by rewrite <-app_assoc|intros y Hy; eapply sstep_is_Some; [exact Hss|apply Hin; set_solver +Hy]|cbn in Hf; lia|].
  exists (ln :: lns), s'. mrun Hrun. split; [done|]. split; [by etrans|]. split; [|congruence]. cbn. rewrite Hnm, Hnms. f_equal; [unfold name_at; by rewrite El|]. by apply names_sstep.
Qed.
Lemma show_list_run s L A h l : rep s L A -> L !! h = Some l -> (forall x, x ∈ l -> listed A x) -> exists lns s', show_list h s = Some (lns, s') /\ sstep s s' /\ ln_name <$> lns = name_at s <$> l /\ locks s' = locks s.
Proof.
  intros Hr EL Hin. unfold show_list. erewrite bind_run by done. mrun (on_mem_run (get_next h) _ _ _ (heap_first _ _ _ _ (rp_lists _ _ _ Hr) EL)). rewrite same_lists.
  assert (forall x, x ∈ l -> is_Some (locks s !! x)) as Hs by (intros x Hx; destruct (listed_lock _ _ _ _ Hr (Hin x Hx)) as (? & ? & ? & _ & k & -> & _); eauto).
  apply (show_walk_run h _ [] l s L (rp_lists _ _ _ Hr) EL Hs). apply Nat.lt_succ_r. rewrite <-size_dom.
  pose proof (lrep_nodup _ _ _ _ (rp_lists _ _ _ Hr) EL) as [_ Hn]%NoDup_cons.
  transitivity (size (list_to_set l : gset Z)); [by rewrite size_list_to_set|]. apply subseteq_size. intros x Hx%elem_of_list_to_set. by apply elem_of_dom, Hs.
Qed.
Lemma show_run s L A : rep s L A -> exists lns s', wakelock_stats_show s = Some (lns, s') /\ sstep s s' /\
  ln_name <$> lns = name_at s <$> (idle A ++ (perm A 0 ++ timed A 0) ++ perm A 1 ++ timed A 1) /\ locks s' = locks s.
Proof.
  intros Hr. unfold wakelock_stats_show. erewrite bind_run by done.
  destruct (show_list_run s L A (inactive_locks s) _ Hr (rp_idle _ _ _ Hr)) as (l0 & s1 & H0 & S1 & N0 & Q0); [by left|]. mrun H0. pose proof (rep_sstep _ _ _ _ Hr S1) as Hr1.
  rewrite <-(env_head _ _ 0 (ss_env _ _ S1)). destruct (show_list_run s1 L A (head s1 0) _ Hr1 (rp_active _ _ _ Hr1 0 ltac:(lia))) as (l1 & s2 & H1 & S2 & N1 & Q1); [intros x Hx; right; by exists 0|]. mrun H1.
  pose proof (rep_sstep _ _ _ _ Hr1 S2) as Hr2. rewrite <-(env_head _ _ 1 (ss_env _ _ S1)), <-(env_head _ _ 1 (ss_env _ _ S2)).
  destruct (show_list_run s2 L A (head s2 1) _ Hr2 (rp_active _ _ _ Hr2 1 ltac:(lia))) as (l2 & s3 & H2 & S3 & N2 & Q2); [intros x Hx; right; by exists 1|]. mrun H2.
  exists (l0 ++ l1 ++ l2), s3. split; [done|]. split; [etrans; [exact S1|]; by etrans|]. 
  rewrite (names_sstep _ _ _ S1) in N1. rewrite (names_sstep _ _ _ S2), (names_sstep _ _ _ S1) in N2. split; [by rewrite !fmap_app, N0, N1, N2, !fmap_app|congruence].
Qed.
End live.
End WakelockLive.
