(* ===== verification/WakelockSys.v ===== *)
(** * Wake locks: the system

    The calls of drivers, the passing of time and the steps of the work that suspends, in
    any order after [wakelocks_init]; and what holds in all states they lead to. *)
From stdpp Require Import prelude gmap list.
From Stdlib Require Import ZArith Lia ZifyBool.
From S2P Require Import Prelude Time ListHead ListHeap Wakelock WakelockLive.
Import Time Wakelock WakelockLive.
Open Scope Z_scope.

Module WakelockSys.

(** ** Steps *)
Inductive event :=
  | Init (lock type name : Z)
  | Destroy (lock : Z)
  | Lock (lock : Z)
  | Lock_timeout (lock timeout : Z)
  | Unlock (lock : Z)
  | Has (type : Z)
  | Show_stats
  | Tick (n : Z) (kt tomono : timespec)
  | Suspend_start
  | Suspend_late
  | Suspend_end.

Section system.
Context {W : Type} `{!ExpireTimer W}.
Implicit Types (s : wls W) (A : view) (L : heads) (x y ty : Z).

Definition step (ev : event) : M (wls W) unit :=
  match ev with
  | Init lock type name => wake_lock_init lock type name
  | Destroy lock => wake_lock_destroy lock
  | Lock lock => wake_lock lock
  | Lock_timeout lock timeout => wake_lock_timeout lock timeout
  | Unlock lock => wake_unlock lock
  | Has type => has_wake_lock type ;; mret tt
  | Show_stats => wakelock_stats_show ;; mret tt
  | Tick n kt tomono => tick n kt tomono
  | Suspend_start => suspend_start ;; mret tt
  | Suspend_late => power_suspend_late ;; mret tt
  | Suspend_end => suspend_end
  end.

Definition lock_has s (b : Z) (v : bool) x : Prop := exists l, locks s !! x = Some l /\ has_bits b l = v.
(** A lock of a type that is active, with or without a timeout. *)
Definition held s ty (timeout : bool) x : Prop := exists l, locks s !! x = Some l /\ has_bits WAKE_LOCK_INITIALIZED l = true /\
  Z.land (flags l) WAKE_LOCK_TYPE_MASK = ty /\ has_bits WAKE_LOCK_ACTIVE l = true /\ has_bits WAKE_LOCK_AUTO_EXPIRE l = timeout.

(** What the callers keep to: a lock is set up once, with a name and one of the two types,
    before it is used, and not destroyed while it is active, nor is one of the three locks
    of the power management; a timeout is shorter than
    [2 ^ 30] jiffies (twelve days), and so is the time for which a lock whose time is over
    stays on the list behind a lock without a timeout.  The work starts when it is queued. *)
Definition event_ok s (ev : event) : Prop :=
  match ev with
  | Init lock type nm => (exists l, locks s !! lock = Some l /\ has_bits WAKE_LOCK_INITIALIZED l = false /\ (nm <> 0 \/ name l <> 0)) /\ 0 <= Z.land type WAKE_LOCK_TYPE_MASK < 2
  | Destroy lock => lock_has s WAKE_LOCK_INITIALIZED true lock /\ lock_has s WAKE_LOCK_ACTIVE false lock /\ lock ∉ own_locks s
  | Lock lock | Unlock lock => lock_has s WAKE_LOCK_INITIALIZED true lock
  | Lock_timeout lock timeout => lock_has s WAKE_LOCK_INITIALIZED true lock /\ - 2 ^ 30 <= timeout < 2 ^ 30
  | Has type => 0 <= type < 2
  | Show_stats => True
  | Tick n _ _ => 0 <= n < 2 ^ 30 /\ forall x, held s WAKE_LOCK_SUSPEND true x -> n - 2 ^ 30 <= key s x
  | Suspend_start => suspend_queued s = true /\ suspending s = None
  | Suspend_late | Suspend_end => is_Some (suspending s)
  end.

Inductive reach : wls W -> Prop :=
  | reach_init s s' n1 n2 n3 n4 : boot s -> n1 <> 0 -> n2 <> 0 -> n3 <> 0 -> n4 <> 0 -> wakelocks_init 0 0 true true n1 n2 n3 n4 s = Some (0, s') -> reach s'
  | reach_step s ev s' : reach s -> event_ok s ev -> step ev s = Some (tt, s') -> reach s'.

(** ** The lists and the flags *)
Lemma has_init l : has_bits WAKE_LOCK_INITIALIZED l = flag 8 l. Proof. by apply has_bits_flag. Qed.
Lemma has_active l : has_bits WAKE_LOCK_ACTIVE l = flag 9 l. Proof. by apply has_bits_flag. Qed.
Lemma has_auto l : has_bits WAKE_LOCK_AUTO_EXPIRE l = flag 10 l. Proof. by apply has_bits_flag. Qed.

Lemma held_at s ty e x : held s ty e x <-> lock_at s ty true e x.
Proof.
  split.
  - intros (l & El & H1 & H2 & H3 & H4). rewrite has_init in H1. rewrite has_active in H3. rewrite has_auto in H4. exists l. by split.
  - intros (l & El & [H1 H2 H3 H4]). exists l. by rewrite has_init, has_active, has_auto.
Qed.
Lemma held_listed s L A ty e x : rep s L A -> 0 <= ty < 2 -> lock_at s ty true e x <-> x ∈ (if e then timed A ty else perm A ty).
Proof.
  intros Hr Hty. split.
  - intros (l & El & [H1 H2 H3 H4]). destruct (rp_init _ _ _ Hr x l El H2) as [Hx|(t & Ht & [Hx|Hx]%elem_of_app)].
    + destruct (rp_idle_in _ _ _ Hr x Hx) as (t & _ & l' & El' & []). congruence.
    + destruct (rp_perm_in _ _ _ Hr t x Ht Hx) as (l' & El' & []). destruct e; [congruence|]. by replace ty with t by congruence.
    + destruct (rp_timed_in _ _ _ Hr t x Ht Hx) as (l' & El' & []). destruct e; [|congruence]. by replace ty with t by congruence.
  - destruct e; by apply Hr.
Qed.
Lemma held_in s L A ty e x : rep s L A -> 0 <= ty < 2 -> held s ty e x <-> x ∈ (if e then timed A ty else perm A ty).
Proof. intros. rewrite held_at. by apply (held_listed _ L). Qed.
Lemma no_perm s L A ty : rep s L A -> 0 <= ty < 2 -> (forall x, ~ held s ty false x) -> perm A ty = [].
Proof. intros Hr Hty Hno. destruct (perm A ty) as [|x l] eqn:E; [done|]. destruct (Hno x). apply (held_in _ L A); [done|done|]. rewrite E. set_solver +. Qed.
Lemma init_listed s L A x : rep s L A -> lock_has s WAKE_LOCK_INITIALIZED true x <-> listed A x.
Proof.
  intros Hr. split.
  - intros (l & El & Hi). rewrite has_init in Hi. by apply (rp_init _ _ _ Hr x l).
  - intros Hx. destruct (listed_lock _ _ _ _ Hr Hx) as (ty & a & e & _ & l & El & []). exists l. by rewrite has_init.
Qed.
Lemma free_held s L A : rep s L A -> free s A <-> (forall x, ~ held s 0 false x) /\ forall x, held s 0 true x -> key s x <= 0.
Proof.
  intros Hr. unfold free. split.
  - intros [HP HT]. split; intros x; rewrite (held_in _ L A) by (done || lia); [rewrite HP; set_solver +|apply HT].
  - intros [HP HT]. split.
    + by apply (no_perm s L).
    + intros x Hx. apply HT. by rewrite (held_in _ L A) by (done || lia).
Qed.

(** ** All reachable states *)
(** The lock that a step is about. *)
Definition names s (ev : event) x : Prop :=
  match ev with
  | Init y _ _ | Destroy y | Lock y | Lock_timeout y _ | Unlock y => y = x
  | Suspend_end => unknown_wakeup s = x
  | _ => False
  end.
(** The lock that a step tears down. *)
Definition destroys (ev : event) x : Prop := ev = Destroy x.
Lemma steady_weaken s A s' A' (D : Z -> Prop) : steady s A (λ _, False) s' A' -> steady s A D s' A'.
Proof. intros H y ty _. apply H. tauto. Qed.
Lemma step_follows s L A ev : good s L A -> event_ok s ev -> exists s' L' A', step ev s = Some (tt, s') /\ follows s A (names s ev) s' L' A' /\ steady s A (destroys ev) s' A'.
Proof.
  intros Hg Hok. pose proof (g_rep _ _ _ Hg) as Hr. destruct ev; cbn [step event_ok names] in *.
  2: { destruct Hok as (Hi%(init_listed _ _ _ _ Hr) & (l & El & Ha) & Hne). rewrite has_active in Ha. destruct (destroy_good s L A lock l Hg Hi El Ha Hne) as (s' & L' & A' & ? & ? & Hsd & ->).
       exists s', L', (out lock A). split_and!; [done|done|]. intros y ty Hd. apply Hsd. intros ->. by apply Hd. }
  - destruct Hok as ((l & El & Hi & Hnm) & Hty). rewrite has_init in Hi. destruct (init_good s L A lock type _ l Hg El Hi Hnm Hty) as (s' & L' & A' & ? & ? & ? & _). exists s', L', A'. by eauto using steady_weaken.
  - apply (init_listed _ _ _ _ Hr) in Hok. destruct (lock_good s L A lock 0 false Hg Hok) as (s' & L' & A' & ? & ? & _ & ?); [done|]. exists s', L', A'. by eauto using steady_weaken.
  - destruct Hok as [Hi%(init_listed _ _ _ _ Hr) Hb]. destruct (lock_good s L A lock timeout true Hg Hi) as (s' & L' & A' & ? & ? & _ & ?); [done|]. exists s', L', A'. by eauto using steady_weaken.
  - apply (init_listed _ _ _ _ Hr) in Hok. destruct (unlock_good s L A lock Hg Hok) as (s' & L' & A' & ? & ? & _ & ?). exists s', L', A'. by eauto using steady_weaken.
  - destruct (has_good s L A type Hg Hok) as (s' & L' & A' & Hrun & Hg' & Hq & HA & Hsd). mrun Hrun. exists s', L', A'. split; [done|]. split; [|by apply steady_weaken]. split; [done|].
    destruct (HA 0 ltac:(lia)) as [-> _]. split; [apply env_base, Hq|done].
  - destruct (show_run s L A Hr) as (lns & s' & Hrun & Hss & _). mrun Hrun. exists s', L, A. split; [done|]. split; [by eapply follows_sstep|]. apply steady_typed; [by apply sstep_typed|done].
  - destruct Hok as [Hn Hold]. destruct (tick_good s L A n kt tomono Hg Hn) as (s' & L' & A' & Hrun & Hg' & HP & _ & Hb & _ & _ & _ & Hsd); [intros x Hx; apply Hold; by apply (held_in _ L A)|].
    exists s', L', A'. split; [done|]. split; [|by apply steady_weaken]. split; [done|]. by rewrite HP.
  - destruct (start_good s L A Hg) as (b & s' & L' & A' & Hrun & Hi & _ & ?). mrun Hrun. exists s', L', A'. by eauto using steady_weaken.
  - destruct (late_good s L A Hg) as (r & s' & L' & A' & Hrun & Hi & _ & _ & ?). mrun Hrun. exists s', L', A'. by eauto using steady_weaken.
  - destruct Hok as [n En]. destruct (end_good s L A n Hg En) as (s' & L' & A' & ? & ? & ?). exists s', L', A'. by eauto using steady_weaken.
Qed.
Lemma step_inv s ev : inv s -> event_ok s ev -> exists s', step ev s = Some (tt, s') /\ inv s'.
Proof. intros (L & A & Hg) Hok. destruct (step_follows s L A ev Hg Hok) as (s' & L' & A' & Hrun & [Hf _] & _). exists s'. split; [done|]. by exists L', A'. Qed.
Lemma reach_inv s : reach s -> inv s.
Proof.
  induction 1 as [s s' n1 n2 n3 n4 Hb N1 N2 N3 N4 Hrun|s ev s' _ IH Hok Hrun].
  - destruct (setup_run s n1 n2 n3 n4 Hb N1 N2 N3 N4) as (s1 & L & A & Hset & Hg & _). unfold wakelocks_init in Hrun. rewrite (bind_run _ _ _ _ _ Hset) in Hrun.
    injection Hrun as <-. by exists L, A.
  - destruct (step_inv s ev IH Hok) as (s1 & Hrun1 & Hi). rewrite Hrun1 in Hrun. by injection Hrun as <-.
Qed.

(** ** What the lines show *)
Definition normal (kt : Z) : Prop := exists sec nsec, packed kt sec nsec.
Lemma packed_order a b : normal a -> normal b -> (ktime_to_ns a >? ktime_to_ns b) = (a >? b).
Proof.
  intros (sa & na & Ha) (sb & nb & Hb). rewrite (ktime_to_ns_eq _ _ _ Ha), (ktime_to_ns_eq _ _ _ Hb). destruct Ha as (-> & ? & ?), Hb as (-> & ? & ?). unfold NSEC_PER_SEC. lia.
Qed.
Lemma s64_ex z : exists k, s64 z = z + k * 2 ^ 64 /\ - 2 ^ 63 <= s64 z < 2 ^ 63.
Proof.
  unfold s64, u64. pose proof (Z.div_mod z (2 ^ 64) ltac:(lia)). pose proof (Z.mod_pos_bound z (2 ^ 64) ltac:(lia)). cbv zeta.
  destruct (Z.ltb_spec (z `mod` 2 ^ 64) (2 ^ 63)); [exists (- (z `div` 2 ^ 64))|exists (- (z `div` 2 ^ 64) - 1)]; lia.
Qed.
Lemma normal_sub a b : normal a -> normal b -> normal (ktime_sub a b).
Proof.
  intros (sa & na & -> & Ha & Hna) (sb & nb & -> & Hb & Hnb). unfold ktime_sub. destruct (s64_ex (sa * 2 ^ 32 + na - (sb * 2 ^ 32 + nb))) as (k & -> & Hk). destruct (Z.le_gt_cases nb na).
  - replace (_ + k * 2 ^ 64) with ((sa - sb + k * 2 ^ 32) * 2 ^ 32 + (na - nb)) in * by lia. destruct (kt_halves (sa - sb + k * 2 ^ 32) (na - nb)) as [_ ->]; [lia|lia|].
    rewrite s32_small by lia. destruct (Z.ltb_spec (na - nb) 0); [lia|]. exists (sa - sb + k * 2 ^ 32), (na - nb). split; lia.
  - replace (_ + k * 2 ^ 64) with ((sa - sb - 1 + k * 2 ^ 32) * 2 ^ 32 + (2 ^ 32 + na - nb)) in * by lia.
    destruct (kt_halves (sa - sb - 1 + k * 2 ^ 32) (2 ^ 32 + na - nb)) as [-> ->]; [lia|lia|]. rewrite (s32_shift _ (na - nb) 1) by lia. destruct (Z.ltb_spec (na - nb) 0); [|lia].
    change NSEC_PER_SEC with 1000000000. rewrite ktime_set_eq by lia. exists (sa - sb - 1 + k * 2 ^ 32), (na - nb + 1000000000). split; lia.
Qed.
Lemma expired_time_run s x l : locks s !! x = Some l -> exists r, get_expired_time x s = Some (r, s) /\ match r with Some t => normal t | None => True end.
Proof.
  intros El. unfold get_expired_time. mrun (get_lock_run _ _ _ El). case_match; [by exists None|]. erewrite bind_run by done. case_match; [by exists None|]. cbv zeta.
  rewrite set_normalized_run by apply s32_range. eexists. split; [done|]. unfold timespec_to_ktime. cbn [tv_sec tv_nsec]. set (n := s32 _ `mod` _).
  assert (0 <= n < 1000000000) by (apply Z.mod_pos_bound; done). rewrite ktime_set_eq; [|apply s32_range|lia]. eexists _, _. split; [done|]. split; [apply s32_range|done].
Qed.

Lemma print_active s x l r : locks s !! x = Some l -> has_bits WAKE_LOCK_ACTIVE l = true -> get_expired_time x s = Some (r, s) ->
  exists ln s1, let now := default (clock s (reads s)) r in let st := stat l in let d := ktime_sub now (last_time st) in
  print_lock_stat x s = Some (ln, s1) /\ ln_count ln = s32 (count st + 1) /\ ln_expire_count ln = (if r then s32 (expire_count st + 1) else expire_count st) /\
  ln_wakeup_count ln = wakeup_count st /\ ln_total_time ln = ktime_to_ns (ktime_add (total_time st) d) /\
  ln_sleep_time ln = ktime_to_ns (if has_bits WAKE_LOCK_PREVENTING_SUSPEND l then ktime_add (prevent_suspend_time st) (ktime_sub now (last_sleep_time_update s)) else prevent_suspend_time st) /\
  ln_max_time ln = ktime_to_ns (if d >? max_time st then d else max_time st).
Proof.
  intros El Ha Hr. unfold print_lock_stat. mrun (get_lock_run _ _ _ El). rewrite Ha. cbv zeta. mrun Hr. destruct r as [t|]; cbn [default from_option id].
  - rewrite bind_mret_l. eexists _, s. by split_and!.
  - rewrite bind_assoc. erewrite bind_run by done. rewrite bind_mret_l. eexists _, _. by split_and!.
Qed.
Lemma release_active s x l r : locks s !! x = Some l -> has_bits WAKE_LOCK_ACTIVE l = true -> get_expired_time x s = Some (r, s) ->
  exists s1 l', let now := default (clock s (reads s)) r in let st := stat l in let d := ktime_sub now (last_time st) in
  wake_unlock_stat_locked x false s = Some (tt, s1) /\ locks s1 !! x = Some l' /\ count (stat l') = s32 (count st + 1) /\
  expire_count (stat l') = (if r then s32 (expire_count st + 1) else expire_count st) /\ wakeup_count (stat l') = wakeup_count st /\ total_time (stat l') = ktime_add (total_time st) d /\
  prevent_suspend_time (stat l') = (if has_bits WAKE_LOCK_PREVENTING_SUSPEND l then ktime_add (prevent_suspend_time st) (ktime_sub now (last_sleep_time_update s)) else prevent_suspend_time st) /\
  max_time (stat l') = (if ktime_to_ns d >? ktime_to_ns (max_time st) then d else max_time st).
Proof.
  intros El Ha Hr. unfold wake_unlock_stat_locked. mrun (get_lock_run _ _ _ El). rewrite Ha. cbn [negb]. mrun Hr.
  set (now := default (clock s (reads s)) r). assert (exists s0, (match r with Some now => mret (true, now) | None => now ← ktime_get; mret (false, now) end : M (wls W) (bool * Z)) s =
    Some ((if r then true else false, now), s0) /\ locks s0 = locks s /\ last_sleep_time_update s0 = last_sleep_time_update s) as (s0 & Hen & El0 & Elu) by (destruct r; eexists; by split_and!).
  mrun Hen. cbn [fst snd]. rewrite <-El0 in El. erewrite bind_run by (by apply upd_lock_run). erewrite bind_run by (apply upd_lock_run; cbn; apply lookup_insert_eq).
  erewrite bind_run by done. erewrite bind_run by (apply upd_lock_run; cbn; apply lookup_insert_eq). erewrite bind_run by (apply get_lock_run; cbn; apply lookup_insert_eq).
  change (has_bits WAKE_LOCK_PREVENTING_SUSPEND (set_stat _ _)) with (has_bits WAKE_LOCK_PREVENTING_SUSPEND l). destruct (has_bits WAKE_LOCK_PREVENTING_SUSPEND l).
  - erewrite bind_run by done. erewrite bind_run by (apply upd_lock_run; cbn; apply lookup_insert_eq). erewrite upd_lock_run by (cbn; apply lookup_insert_eq).
    eexists _, _. split; [done|]. cbn. rewrite lookup_insert_eq. split; [done|]. cbn. rewrite <-Elu. by destruct r.
  - eexists _, _. split; [done|]. cbn. rewrite lookup_insert_eq. split; [done|]. cbn. by destruct r.
Qed.

Lemma step_held s ev s' x : inv s -> event_ok s ev -> step ev s = Some (tt, s') ->
  base s' = base s /\ (ev = Lock x -> type_at s WAKE_LOCK_SUSPEND x -> held s' WAKE_LOCK_SUSPEND false x) /\ (ev = Unlock x -> ~ held s' WAKE_LOCK_SUSPEND false x) /\
  (~ names s ev x -> held s' WAKE_LOCK_SUSPEND false x <-> held s WAKE_LOCK_SUSPEND false x).
Proof.
  intros (L & A & Hg) Hok Hrun. pose proof (g_rep _ _ _ Hg) as Hr. split_and!.
  - destruct (step_follows s L A ev Hg Hok) as (s1 & L1 & A1 & Hrun1 & (_ & Hb & _) & _). rewrite Hrun1 in Hrun. by injection Hrun as <-.
  - intros -> Hty. destruct (lock_good s L A x 0 false Hg) as (s1 & L1 & A1 & Hrun1 & Hf & Hin & _); [by apply (init_listed s L A x Hr)|done|]. cbn in Hrun. unfold wake_lock in Hrun. rewrite Hrun1 in Hrun. injection Hrun as <-.
    apply (held_in s1 L1 A1); [apply Hf|done|by apply Hin].
  - intros ->. destruct (unlock_good s L A x Hg) as (s1 & L1 & A1 & Hrun1 & Hf & Hin & _); [by apply (init_listed s L A x Hr)|]. cbn in Hrun. rewrite Hrun1 in Hrun. injection Hrun as <-.
    rewrite (held_in s1 L1 A1); [done|apply Hf|done].
  - intros Hn. destruct (step_follows s L A ev Hg Hok) as (s1 & L1 & A1 & Hrun1 & (Hg1 & _ & Hf) & _). rewrite Hrun1 in Hrun. injection Hrun as <-.
    rewrite (held_in s1 L1 A1), (held_in s L A); [by apply Hf|done|done|apply Hg1|done].
Qed.
(** The three locks of the power management can always be used. *)
Lemma own_ok s x : inv s -> x ∈ own_locks s -> lock_has s WAKE_LOCK_INITIALIZED true x /\ type_at s WAKE_LOCK_SUSPEND x.
Proof. intros (L & A & Hg) Hx. destruct (kn_own _ _ (g_known _ _ _ Hg) x Hx) as [Hl Ht]. split; [|done]. by apply (init_listed s L A x (g_rep _ _ _ Hg)). Qed.

(** A lock that is given a timeout is not held without one any more. *)
Lemma step_timeout s s' x t : inv s -> event_ok s (Lock_timeout x t) -> step (Lock_timeout x t) s = Some (tt, s') -> type_at s WAKE_LOCK_SUSPEND x -> ~ held s' WAKE_LOCK_SUSPEND false x.
Proof.
  intros (L & A & Hg) [Hi Hb] Hrun Hty. destruct (lock_good s L A x t true Hg) as (s1 & L1 & A1 & Hrun1 & Hf & Hin & _); [by apply (init_listed s L A x (g_rep _ _ _ Hg))|done|].
  cbn [step] in Hrun. unfold wake_lock_timeout in Hrun. rewrite Hrun1 in Hrun. injection Hrun as <-. rewrite (held_in s1 L1 A1); [|apply Hf|done]. rewrite (Hin Hty). done.
Qed.
(** A new lock is not held. *)
Lemma step_init s s' x type nm : inv s -> event_ok s (Init x type nm) -> step (Init x type nm) s = Some (tt, s') ->
  lock_has s' WAKE_LOCK_INITIALIZED true x /\ type_at s' (Z.land type WAKE_LOCK_TYPE_MASK) x /\ forall ty e, ~ held s' ty e x.
Proof.
  intros (L & A & Hg) ((l & El & Hi & Hnm) & Hty) Hrun. rewrite has_init in Hi. destruct (init_good s L A x type nm l Hg El Hi Hnm Hty) as (s1 & L1 & A1 & Hrun1 & _ & _ & _ & l1 & El1 & Hl1).
  cbn [step] in Hrun. rewrite Hrun1 in Hrun. injection Hrun as <-. split_and!.
  - exists l1. split; [done|]. rewrite has_init. apply Hl1.
  - exists l1. split; [done|apply Hl1].
  - intros ty e (l2 & El2 & _ & _ & Ha & _). rewrite has_active in Ha. destruct Hl1. congruence.
Qed.
(** A lock that is set up stays so, with its type, until it is torn down. *)
Lemma step_lock s ev s' x ty : inv s -> event_ok s ev -> step ev s = Some (tt, s') -> ~ destroys ev x -> lock_has s WAKE_LOCK_INITIALIZED true x -> type_at s ty x ->
  lock_has s' WAKE_LOCK_INITIALIZED true x /\ type_at s' ty x.
Proof.
  intros (L & A & Hg) Hok Hrun Hd Hi Hty. destruct (step_follows s L A ev Hg Hok) as (s1 & L1 & A1 & Hrun1 & (Hg1 & _) & Hsd). rewrite Hrun1 in Hrun. injection Hrun as <-.
  apply (init_listed s L A x (g_rep _ _ _ Hg)) in Hi. destruct (Hsd x ty Hd Hi Hty) as [Hl Ht]. split; [|done]. by apply (init_listed s1 L1 A1 x (g_rep _ _ _ Hg1)).
Qed.

(** The three lists are disjoint. *)
Lemma all_nodup s L A : rep s L A -> NoDup (idle A ++ (perm A 0 ++ timed A 0) ++ perm A 1 ++ timed A 1).
Proof.
  intros Hr. assert (forall h h' l l' x, L !! h = Some l -> L !! h' = Some l' -> x ∈ l -> x ∈ l' -> h = h') as Hd.
  { intros h h' l l' x E E' Hx Hx'. eapply (lr_disj _ _ (rp_lists _ _ _ Hr)); by eapply own_entry. }
  pose proof (rp_active _ _ _ Hr 0 ltac:(lia)) as E0. pose proof (rp_active _ _ _ Hr 1 ltac:(lia)) as E1. pose proof (rp_idle _ _ _ Hr) as Ei.
  apply NoDup_app. split; [|split].
  - by pose proof (lrep_nodup _ _ _ _ (rp_lists _ _ _ Hr) Ei) as [_ ?]%NoDup_cons.
  - intros x Hx [Hx'|Hx']%elem_of_app; [eapply (rp_sep _ _ _ Hr 0); [lia|]|eapply (rp_sep _ _ _ Hr 1); [lia|]]; by eapply Hd.
  - apply NoDup_app. split; [by apply (active_nodup s L)|split; [|by apply (active_nodup s L)]]. intros x Hx Hx'. pose proof (Hd _ _ _ _ _ E0 E1 Hx Hx') as Eh%head_inj. done.
Qed.

Lemma in_time s n kt tomono : reach s -> event_ok s (Tick n kt tomono) -> (forall x, ~ held s WAKE_LOCK_SUSPEND false x) ->
  (forall x, held s WAKE_LOCK_SUSPEND true x -> key s x <= n) -> suspending s = None ->
  exists s1 s2, tick n kt tomono s = Some (tt, s1) /\ suspend_queued s1 = true /\ suspend_start s1 = Some (true, s2).
Proof.
  intros (L & A & Hg)%reach_inv [Hn Hold] Hno Hle Hs. pose proof (g_rep _ _ _ Hg) as Hr.
  assert (forall b x, held s WAKE_LOCK_SUSPEND b x <-> x ∈ (if b then timed A 0 else perm A 0)) as Hh by (intros b x; by apply (held_in _ L)).
  assert (perm A 0 = []) as HP by (apply (no_perm s L A 0 Hr); [lia|exact Hno]).
  assert (forall x, x ∈ timed A 0 -> key s x <= n) as Hle' by (intros x Hx; apply Hle; by rewrite Hh).
  destruct (tick_good s L A n kt tomono Hg Hn) as (s1 & L1 & A1 & Hrun & Hg1 & HP1 & HT1 & _ & _ & Hq1 & Hq2 & _); [intros x Hx; apply Hold; by rewrite Hh|].
  destruct (start_good s1 L1 A1 Hg1) as (b & s2 & L2 & A2 & Hst & _ & Hb & _). exists s1, s2. split; [done|]. split.
  - destruct (proj2 (g_live _ _ _ Hg) HP) as [?|[?|?]]; [by apply Hq2|by apply Hq1|congruence].
  - assert (b = true) as ->; [|done]. apply Hb. split; [congruence|]. intros x Hx. destruct (HT1 x Hx) as [Hx' ->]. specialize (Hle' x Hx'). lia.
Qed.

(** ** Theorems *)
(** C29: No sequence of calls, ticks and steps of the work that suspends corrupts a list, follows a bad pointer or runs into a [BUG_ON]: after [wakelocks_init], each of the eleven steps whose caller keeps to the rules finishes. *)
Theorem wakelocks_safe s ev : reach s -> event_ok s ev -> exists s', step ev s = Some (tt, s') /\ reach s'.
Proof.
  intros Hs Hok. destruct (step_inv s ev (reach_inv s Hs) Hok) as (s' & Hrun & _). exists s'. split; [done|]. by eapply reach_step.
Qed.

(** C10: A suspend lock without a timeout is held from the call of [wake_lock] until the call of [wake_unlock] or of [wake_lock_timeout] for the same lock, whatever else happens: other locks, timeouts that end, ticks, and attempts to suspend. The one exception is the lock unknown_wakeup of the power management itself, which the end of an attempt to suspend gives a timeout. *)
Theorem held_until_released s ev s' x : reach s -> event_ok s ev -> step ev s = Some (tt, s') ->
  (ev = Lock x -> type_at s WAKE_LOCK_SUSPEND x -> held s' WAKE_LOCK_SUSPEND false x) /\ (ev = Unlock x -> ~ held s' WAKE_LOCK_SUSPEND false x) /\
  (~ names s ev x -> held s' WAKE_LOCK_SUSPEND false x <-> held s WAKE_LOCK_SUSPEND false x) /\
  (forall t, ev = Lock_timeout x t -> type_at s WAKE_LOCK_SUSPEND x -> ~ held s' WAKE_LOCK_SUSPEND false x) /\
  (held s WAKE_LOCK_SUSPEND false x -> held s' WAKE_LOCK_SUSPEND false x \/ ev = Unlock x \/ (exists t, ev = Lock_timeout x t) \/ (ev = Suspend_end /\ x = unknown_wakeup s)).
Proof.
  intros Hs Hok Hrun. pose proof (reach_inv s Hs) as Hi. destruct (step_held s ev s' x Hi Hok Hrun) as (_ & HL & HU & Hk). split_and!; [done..| |].
  - intros t ->. by apply (step_timeout s s' x t).
  - intros Hh. pose proof Hh as (l & El & Hin & Hty & Hact & _). assert (names s ev x \/ ~ names s ev x) as [Hn|Hn] by (destruct ev; cbn; try tauto; lia); [|left; by apply Hk].
    destruct ev; cbn [names event_ok] in *; try done; subst.
    + destruct Hok as [(l' & El' & Hf & _) _]. congruence.
    + destruct Hok as (_ & (l' & El' & Hf) & _). congruence.
    + left. apply HL; [done|]. by exists l.
    + right; right; left. by eexists.
    + by right; left.
    + by right; right; right.
Qed.

(** C11: The system never stays awake for no reason, if the callers keep to the rules of [event_ok]: no lock is destroyed while it is active, and timeouts and ticks are below 2^30 jiffies. Whenever no suspend lock without a timeout is held, [expire_timer] is pending for exactly the time when the last timeout ends, or the work that suspends is queued, or it is running and no lock was taken since it started. The timer is pending only when no suspend lock without a timeout is held. *)
Theorem awake_for_a_reason s : reach s ->
  ((forall x, ~ held s WAKE_LOCK_SUSPEND false x) ->
    (exists e, tm_pending (expire_timer s) = Some e /\ 0 < s32 (e - jiffies s) /\ (forall x, held s WAKE_LOCK_SUSPEND true x -> key s x <= s32 (e - jiffies s)) /\
      exists x, held s WAKE_LOCK_SUSPEND true x /\ key s x = s32 (e - jiffies s)) \/
    suspend_queued s = true \/ suspending s = Some (current_event_num s)) /\
  (forall x e, held s WAKE_LOCK_SUSPEND false x -> tm_pending (expire_timer s) = Some e -> False).
Proof.
  intros (L & A & [Hr [[_ Ht _] Hn] _ _])%reach_inv. assert (forall b x, held s WAKE_LOCK_SUSPEND b x <-> x ∈ (if b then timed A 0 else perm A 0)) as Hh by (intros b x; by apply (held_in _ L)).
  split.
  - intros Hno. assert (perm A 0 = []) as HP by (apply (no_perm s L A 0 Hr); [lia|exact Hno]).
    destruct (Hn HP) as [[e He]|[?|?]]; [left|by right; left|by right; right]. destruct (Ht e He) as (_ & Hpos & Hall & x & Hx & Ex). exists e. split_and!; [done|done| |].
    + intros y Hy%Hh. by apply Hall.
    + exists x. by rewrite Hh.
  - intros x e Hx%Hh He. destruct (Ht e He) as [HP _]. rewrite HP in Hx. set_solver +Hx.
Qed.

(** [has_wake_lock] does what its comment says: -1 if a lock of the type without a timeout is held, otherwise the number of jiffies until all of them time out, 0 if none is left. Locks whose time is over are not active afterwards; no other lock changes. *)
Theorem has_wake_lock_correct s ty : reach s -> 0 <= ty < 2 -> exists r s', has_wake_lock ty s = Some (r, s') /\
  (r = -1 <-> exists x, held s ty false x) /\
  (r <> -1 -> 0 <= r /\ (forall x, held s ty true x -> key s x <= r) /\ (0 < r -> exists x, held s ty true x /\ key s x = r)) /\
  (forall t e x, 0 <= t < 2 -> held s' t e x <-> held s t e x /\ (t = ty -> r <> -1 -> 0 < key s x)).
Proof.
  intros (L & A & Hg)%reach_inv Hty. pose proof (g_rep _ _ _ Hg) as Hr. destruct (has_good s L A ty Hg Hty) as (s' & L' & A' & Hrun & Hg' & _ & HA & _). eexists _, s'. split; [exact Hrun|].
  destruct (longest_spec s (timed A ty) 0) as (H0 & H1 & H2). assert (forall e x, held s ty e x <-> x ∈ (if e then timed A ty else perm A ty)) as Hh by (intros e x; by apply (held_in _ L)).
  destruct (none (perm A ty)) eqn:EN; [apply none_true in EN|apply none_false in EN].
  - split_and!; [split; [lia|intros (x & Hx%Hh); rewrite EN in Hx; set_solver +Hx]| |].
    + intros _. split_and!; [done|intros x Hx%Hh; auto|]. intros Hpos. destruct H2 as [?|(x & Hx & Ex)]; [lia|]. exists x. by rewrite Hh.
    + intros t e x Ht. rewrite (held_in s' L' A'), (held_in s L A) by (done || apply Hg'). destruct (HA t Ht) as [-> ->]. destruct (Z.eqb_spec t ty) as [->|Hne]; cbn [andb]; [|by intuition].
      destruct e; [|rewrite EN; set_solver +]. split; [intros [? ?]%alive_sub; by intuition|]. intros [Hx Hk]. apply list_elem_of_filter. split; [apply Hk; lia|done].
  - split_and!; [|done|].
    + split; [|done]. intros _. destruct (perm A ty) as [|x l] eqn:E; [done|]. exists x. rewrite Hh. set_solver +.
    + intros t e x Ht. rewrite (held_in s' L' A'), (held_in s L A) by (done || apply Hg'). destruct (HA t Ht) as [-> ->]. rewrite andb_false_r. by intuition.
Qed.

(** Nothing keeps the system from suspending. *)
Definition unlocked s : Prop := (forall x, ~ held s WAKE_LOCK_SUSPEND false x) /\ forall x, held s WAKE_LOCK_SUSPEND true x -> key s x <= 0.
(** The system suspends only when nothing keeps it awake: the work goes on to suspend, and the last callback before the machine stops returns 0 and not [-EAGAIN], exactly when no suspend lock is held except ones whose time is over. *)
Theorem suspend_only_unlocked s : reach s ->
  (exists b s', suspend_start s = Some (b, s') /\ (b = true <-> unlocked s)) /\
  (exists r s', power_suspend_late s = Some (r, s') /\ (r = 0 \/ r = - EAGAIN) /\ (r = 0 <-> unlocked s)).
Proof.
  intros (L & A & Hg)%reach_inv. pose proof (free_held s L A (g_rep _ _ _ Hg)) as Hf. split.
  - destruct (start_good s L A Hg) as (b & s' & L' & A' & Hrun & _ & Hb & _). exists b, s'. split; [done|]. by rewrite Hb.
  - destruct (late_good s L A Hg) as (r & s' & L' & A' & Hrun & _ & Hr & Hb & _). exists r, s'. split_and!; [done|done|]. by rewrite Hb.
Qed.

(** [wakelocks_init] returns 0 and leaves [main_wake_lock] held, without a timeout; or it returns the error of the step that failed, and none of the locks is set up. *)
Theorem wakelocks_init_result s dev drv wq sq n1 n2 n3 n4 : boot s -> n1 <> 0 -> n2 <> 0 -> n3 <> 0 -> n4 <> 0 -> exists ret s', wakelocks_init dev drv wq sq n1 n2 n3 n4 s = Some (ret, s') /\
  ret = (if negb (dev =? 0) then dev else if negb (drv =? 0) then drv else if wq && sq then 0 else - ENOMEM) /\
  (if ret =? 0 then held s' WAKE_LOCK_SUSPEND false (main_wake_lock s') /\ tm_pending (expire_timer s') = None else forall x, ~ lock_has s' WAKE_LOCK_INITIALIZED true x).
Proof.
  intros Hb N1 N2 N3 N4. destruct (setup_run s n1 n2 n3 n4 Hb N1 N2 N3 N4) as (s1 & L & A & Hset & Hg & Ly & Lm & Ld & Hheld & Hbase & Hall).
  assert (exists s2, wakelocks_exit s1 = Some (tt, s2) /\ forall x, ~ lock_has s2 WAKE_LOCK_INITIALIZED true x) as (s2 & Hex & Hno).
  { destruct (exit_run s1 L A Hg Ly Lm Ld) as (s2 & L2 & Hrun & Hr2); [pose proof (bt_distinct _ Hb); unfold base in Hbase; congruence|]. exists s2. split; [done|].
    intros x Hx%(init_listed _ _ _ _ Hr2). repeat apply listed_out in Hx as [Hx ?]. apply Hall in Hx. unfold base in Hbase. injection Hbase as _ _ Em Eu Ed Ey. set_solver. }
  unfold wakelocks_init. mrun Hset. cbv zeta. destruct (Z.eqb_spec dev 0) as [->|Hdev]; cbn [negb].
  2: { mrun Hex. exists dev, s2. rewrite (proj2 (Z.eqb_neq dev 0)) by done. by split_and!. }
  destruct (Z.eqb_spec drv 0) as [->|Hdrv]; cbn [negb].
  2: { mrun Hex. exists drv, s2. rewrite (proj2 (Z.eqb_neq drv 0)) by done. by split_and!. }
  destruct wq, sq; cbn [negb andb]; try (mrun Hex; exists (- ENOMEM), s2; by split_and!). exists 0, s1. split; [done|]. split; [done|]. destruct Hheld. split; [by apply held_at|done].
Qed.

(** The line of a lock in /proc/wakelocks shows the statistics that the lock would have if it were released now, an active lock included, although the two functions compute them separately and compare the times in different ways. *)
Theorem shown_as_released s x l : locks s !! x = Some l -> normal (last_time (stat l)) -> normal (max_time (stat l)) -> (forall n, normal (clock s n)) ->
  exists ln s1 s2 l', print_lock_stat x s = Some (ln, s1) /\ wake_unlock_stat_locked x false s = Some (tt, s2) /\ locks s2 !! x = Some l' /\
    (ln_count ln, ln_expire_count ln, ln_wakeup_count ln, ln_total_time ln, ln_sleep_time ln, ln_max_time ln) =
      (count (stat l'), expire_count (stat l'), wakeup_count (stat l'), ktime_to_ns (total_time (stat l')), ktime_to_ns (prevent_suspend_time (stat l')), ktime_to_ns (max_time (stat l'))).
Proof.
  intros El Hlast Hmax Hclock. destruct (has_bits WAKE_LOCK_ACTIVE l) eqn:Ha.
  - destruct (expired_time_run s x l El) as (r & Hr & Hn). destruct (print_active s x l r El Ha Hr) as (ln & s1 & Hp & P1 & P2 & P3 & P4 & P5 & P6).
    destruct (release_active s x l r El Ha Hr) as (s2 & l' & Hrel & El' & R1 & R2 & R3 & R4 & R5 & R6). exists ln, s1, s2, l'. split_and!; [done..|].
    rewrite P1, P2, P3, P4, P5, P6, R1, R2, R3, R4, R5, R6, packed_order; [done| |done]. apply normal_sub; [destruct r; [done|apply Hclock]|done].
  - unfold print_lock_stat, wake_unlock_stat_locked. mrun (get_lock_run _ _ _ El). mrun (get_lock_run _ _ _ El). rewrite Ha. eexists _, s, s, l. by split_and!.
Qed.

(** /proc/wakelocks has one line for each lock that is set up, whatever list it is on, and no other; reading it changes no lock. *)
Theorem stats_show_complete s : reach s -> exists order lns s', wakelock_stats_show s = Some (lns, s') /\ NoDup order /\
  (forall x, x ∈ order <-> lock_has s WAKE_LOCK_INITIALIZED true x) /\ ln_name <$> lns = name_at s <$> order /\ locks s' = locks s.
Proof.
  intros (L & A & Hg)%reach_inv. pose proof (g_rep _ _ _ Hg) as Hr. destruct (show_run s L A Hr) as (lns & s' & Hrun & _ & Hn & Hls). eexists _, lns, s'. split; [done|]. split_and!; [| |done|done].
  - by apply (all_nodup s L).
  - intros x. rewrite (init_listed _ _ _ _ Hr), !elem_of_app. unfold listed. split.
    + intros [?|[Hx|Hx]]; [by left|right; exists 0; rewrite elem_of_app; split; [lia|done]|right; exists 1; rewrite elem_of_app; split; [lia|done]].
    + intros [?|(ty & Hty & Hx%elem_of_app)]; [by left|]. assert (ty = 0 \/ ty = 1) as [->| ->] by lia; tauto.
Qed.
End system.

(** ** Examples *)
Section examples.
Context {W : Type} `{!ExpireTimer W}.
Implicit Types (s : wls W) (x : Z).

(** The state after [wakelocks_init], and after some steps. *)
Definition next_of (m : M (wls W) unit) s : wls W := match m s with Some (_, s') => s' | None => s end.
Definition start s : wls W := next_of (wakelocks_init 0 0 true true 1 2 3 4 ;; mret tt) s.
Definition run_from s (evs : list event) : wls W := foldl (λ s ev, next_of (step ev) s) s evs.

Lemma start_init s : boot s -> wakelocks_init 0 0 true true 1 2 3 4 s = Some (0, start s).
Proof.
  intros Hb. destruct (setup_run s 1 2 3 4 Hb) as (s1 & L & A & Hset & _); [done..|]. assert (wakelocks_init 0 0 true true 1 2 3 4 s = Some (0, s1)) as Hrun by (unfold wakelocks_init; by mrun Hset).
  rewrite Hrun. unfold start, next_of. by rewrite (bind_run _ _ _ _ _ Hrun).
Qed.
Lemma start_reach s : boot s -> reach (start s).
Proof. intros Hb. eapply (reach_init s _ 1 2 3 4); [done..|]. by apply start_init. Qed.
Lemma demo_result {A : Type} (m : M (wls W) A) s a b s' : m s = Some (a, s') -> fst <$> m s = Some b -> a = b.
Proof. intros ->. by intros [= ->]. Qed.
Lemma demo_runs (m : M (wls W) unit) s : bool_decide (is_Some (m s)) = true -> exists s', m s = Some (tt, s').
Proof. intros [[[] s'] Hs]%bool_decide_eq_true. by exists s'. Qed.
Lemma demo_step s evs ev : reach (run_from s evs) -> event_ok (run_from s evs) ev -> bool_decide (is_Some (step ev (run_from s evs))) = true -> reach (run_from s (evs ++ [ev])).
Proof.
  intros Hr Hok [[[] s'] Hs]%bool_decide_eq_true. unfold run_from. rewrite foldl_app. cbn [foldl]. fold (run_from s evs). eapply reach_step; [exact Hr|exact Hok|]. unfold next_of. by rewrite Hs.
Qed.
Lemma demo_timed s lo hi : map_Forall (λ x l, has_bits WAKE_LOCK_AUTO_EXPIRE l = true -> lo <= s32 (expires l - jiffies s) <= hi) (locks s) ->
  forall x, held s WAKE_LOCK_SUSPEND true x -> lo <= key s x <= hi.
Proof. intros HF x (l & El & _ & _ & _ & Ha). unfold key. rewrite El. by apply (HF x l El). Qed.
Lemma demo_no_perm s : map_Forall (λ x l, has_bits WAKE_LOCK_ACTIVE l = true -> has_bits WAKE_LOCK_AUTO_EXPIRE l = true) (locks s) -> forall x, ~ held s WAKE_LOCK_SUSPEND false x.
Proof. intros HF x (l & El & _ & _ & Ha & He). specialize (HF x l El Ha). congruence. Qed.
Lemma demo_has s b v x : (match locks s !! x with Some l => eqb (has_bits b l) v | None => false end) = true -> lock_has s b v x.
Proof. intros H. destruct (locks s !! x) as [l|] eqn:E; [|done]. exists l. split; [done|]. by apply eqb_prop. Qed.

(** The four locks of the file and one of a driver, at 340. *)
Definition zero_lock : wake_lock_s := WakeLock 0 0 0 (LockStat 0 0 0 0 0 0 0).
Definition demo_with (w : W) : wls W :=
  Wls {[ 100 := ListHead 100 100; 200 := ListHead 0 0; 208 := ListHead 0 0; 300 := ListHead 0 0; 310 := ListHead 0 0; 320 := ListHead 0 0; 330 := ListHead 0 0; 340 := ListHead 0 0 ]}
    {[ 300 := zero_lock; 310 := zero_lock; 320 := zero_lock; 330 := zero_lock; 340 := zero_lock ]}
    100 200 0 300 330 310 320 0 false w false None (λ _, ktime_set 7 5) 0 (Timespec 10 0) (Timespec 0 0).
Lemma demo_with_ok w : tm_ok w -> tm_pending w = None -> boot (demo_with w).
Proof.
  intros Hok Hp. split.
  - apply lrep_check_ok. vm_compute. reflexivity.
  - intros ty Hty. assert (ty = 0 \/ ty = 1) as [->| ->] by lia; split; [vm_compute; eauto|done|vm_compute; eauto|done].
  - assert (map_Forall (λ x l, flag 8 l = false /\ bool_decide (is_Some (lists (demo_with w) !! x)) && negb (x =? 100) && negb (x =? 200) && negb (x =? 208) = true) (locks (demo_with w))) as HF
      by (apply (bool_decide_unpack _); vm_compute; exact I).
    intros x [l El]. destruct (HF x l El) as [Hf Hx]. apply andb_prop in Hx as [[[Ha H1]%andb_prop H2]%andb_prop H3]. split; [by exists l|]. split; [by apply bool_decide_eq_true in Ha|].
    split; [intros ->; done|]. intros ty Hty. assert (ty = 0 \/ ty = 1) as [->| ->] by lia; intros ->; done.
  - repeat constructor; vm_compute; eauto.
  - apply (bool_decide_unpack _). vm_compute. exact I.
  - by split.
Qed.
End examples.

(** A timer that only counts. *)
Definition countdown_ok (w : Z * option Z) : Prop := 0 <= w.1 < 2 ^ 32 /\ match w.2 with Some e => 0 <= e < 2 ^ 32 | None => True end.
Definition countdown_tick (n : Z) : M (Z * option Z) bool := λ w,
  let late := match w.2 with Some e => s32 (e - w.1) <=? n | None => false end in Some (late, (u32 (w.1 + n), if late then None else w.2)).
#[local] Instance Countdown : ExpireTimer (Z * option Z).
Proof.
  refine (Build_ExpireTimer _ fst snd (λ e w, Some (0, (w.1, Some e))) (λ w, Some (0, (w.1, None))) countdown_tick countdown_ok _ _ _ _ _).
  - by intros [j p] [? _].
  - by intros [j p] e [_ ?] [= ->].
  - intros [j p] e [? _] He _. by exists 0, (j, Some e).
  - intros [j p] [? _]. by exists 0, (j, None).
  - intros [j p] n [? ?] Hn. eexists _, _. split; [reflexivity|]. split; [|split; [done|]].
    + split; [apply u32_range|]. cbn. destruct p as [e|]; [|done]. by destruct (s32 (e - j) <=? n).
    + cbn. destruct p as [e|]; [|done]. by destruct (s32 (e - j) <=? n).
Defined.

Definition demo_boot : wls (Z * option Z) := demo_with (2 ^ 32 - 50, None).
Definition demo_init : wls (Z * option Z) := start demo_boot.
Definition demo_events : list event := [Init 340 WAKE_LOCK_SUSPEND 9; Lock_timeout 340 100; Unlock 300; Tick 20 (Timespec 10 20000000) (Timespec 0 0)].
Definition demo_run (evs : list event) : wls (Z * option Z) := run_from demo_init evs.

Lemma demo_locks_boot : boot demo_boot.
Proof. apply demo_with_ok; [|done]. split; [split; [done|reflexivity]|done]. Qed.
Lemma demo_reach_init : reach (demo_run []).
Proof. exact (start_reach _ demo_locks_boot). Qed.
Lemma demo_reach3 : reach (demo_run (take 3 demo_events)).
Proof.
  apply (demo_step _ [_; _] _); [apply (demo_step _ [_] _); [apply (demo_step _ [] _); [exact demo_reach_init| |]| |]| |]; try (vm_compute; reflexivity).
  - split; [|split; vm_compute; congruence]. eexists. split; [vm_compute; reflexivity|]. split; [done|by left].
  - split; [|lia]. apply demo_has. vm_compute. reflexivity.
  - apply demo_has. vm_compute. reflexivity.
Qed.
Lemma demo_tick_ok n : 0 <= n <= 100 -> event_ok (demo_run (take 3 demo_events)) (Tick n (Timespec 10 0) (Timespec 0 0)).
Proof.
  intros Hn. split; [lia|]. intros x Hx. apply (demo_timed _ 0 100) in Hx; [lia|]. apply (bool_decide_unpack _). vm_compute. exact I.
Qed.

Lemma wakelocks_safe_witness : exists s', step (Tick 20 (Timespec 10 0) (Timespec 0 0)) (demo_run (take 3 demo_events)) = Some (tt, s') /\ reach s'.
Proof. apply (wakelocks_safe (demo_run (take 3 demo_events))); [exact demo_reach3|]. apply demo_tick_ok. lia. Defined.

Lemma held_until_released_witness : exists s', step (Lock 300) (demo_run (take 3 demo_events)) = Some (tt, s') /\ held s' WAKE_LOCK_SUSPEND false 300.
Proof.
  destruct (demo_runs (step (Lock 300)) (demo_run (take 3 demo_events))) as [s' Hs]; [vm_compute; reflexivity|]. exists s'. split; [exact Hs|].
  assert (event_ok (demo_run (take 3 demo_events)) (Lock 300)) as Hok by (apply demo_has; vm_compute; reflexivity).
  destruct (held_until_released (demo_run (take 3 demo_events)) (Lock 300) s' 300 demo_reach3 Hok Hs) as (H & _). apply H; [reflexivity|]. eexists. split; vm_compute; reflexivity.
Defined.

Lemma awake_for_a_reason_witness : exists e, tm_pending (expire_timer (demo_run (take 3 demo_events))) = Some e /\ s32 (e - jiffies (demo_run (take 3 demo_events))) = 100.
Proof.
  destruct (awake_for_a_reason (demo_run (take 3 demo_events)) demo_reach3) as [H _].
  destruct H as [(e & He & _)|[H|H]]; [apply demo_no_perm, (bool_decide_unpack _); vm_compute; exact I| | |].
  - exists e. split; [exact He|]. assert (e = 50) as -> by (vm_compute in He; congruence). vm_compute. reflexivity.
  - vm_compute in H. discriminate.
  - vm_compute in H. discriminate.
Defined.

Lemma has_wake_lock_correct_witness : exists r s', has_wake_lock WAKE_LOCK_SUSPEND (demo_run (take 3 demo_events)) = Some (r, s') /\ r = 100.
Proof.
  destruct (has_wake_lock_correct (demo_run (take 3 demo_events)) WAKE_LOCK_SUSPEND demo_reach3) as (r & s' & Hrun & _); [unfold WAKE_LOCK_SUSPEND; lia|].
  exists r, s'. split; [exact Hrun|]. apply (demo_result _ _ _ _ _ Hrun). vm_compute. reflexivity.
Defined.

Lemma suspend_only_unlocked_witness : exists r s', power_suspend_late (demo_run (take 3 demo_events)) = Some (r, s') /\ r = - EAGAIN.
Proof.
  destruct (suspend_only_unlocked (demo_run (take 3 demo_events)) demo_reach3) as (_ & r & s' & Hrun & _). exists r, s'. split; [exact Hrun|]. apply (demo_result _ _ _ _ _ Hrun). vm_compute. reflexivity.
Defined.

Lemma wakelocks_init_result_witness : exists s', wakelocks_init 0 0 true false 1 2 3 4 demo_boot = Some (- ENOMEM, s') /\ forall x, ~ lock_has s' WAKE_LOCK_INITIALIZED true x.
Proof.
  destruct (wakelocks_init_result demo_boot 0 0 true false 1 2 3 4 demo_locks_boot) as (ret & s' & Hrun & -> & Hno); [done..|]. exists s'. split; [exact Hrun|exact Hno].
Defined.

Lemma demo_clock_normal : normal (ktime_set 7 5).
Proof. exists 7, 5. by vm_compute. Qed.
Lemma zero_normal : normal 0.
Proof. exists 0, 0. by vm_compute. Qed.
Lemma shown_as_released_witness : exists ln s1, print_lock_stat 340 (demo_run demo_events) = Some (ln, s1) /\ ln_count ln = 1.
Proof.
  assert (exists l, locks (demo_run demo_events) !! 340 = Some l /\ last_time (stat l) = ktime_set 7 5 /\ max_time (stat l) = 0) as (l & El & Hlast & Hmax) by (eexists; split; [vm_compute; reflexivity|done]).
  destruct (shown_as_released (demo_run demo_events) 340 l El) as (ln & s1 & s2 & l' & Hp & _).
  - rewrite Hlast. exact demo_clock_normal.
  - rewrite Hmax. exact zero_normal.
  - intros n. assert (clock (demo_run demo_events) n = ktime_set 7 5) as -> by (vm_compute; reflexivity). exact demo_clock_normal.
  - exists ln, s1. split; [exact Hp|]. rewrite (demo_result _ _ _ (default (StatLine 0 0 0 0 0 0 0 0 0) (fst <$> print_lock_stat 340 (demo_run demo_events))) _ Hp); vm_compute; reflexivity.
Defined.

Lemma stats_show_complete_witness : exists lns s', wakelock_stats_show (demo_run (take 3 demo_events)) = Some (lns, s') /\ ln_name <$> lns = [2; 4; 3; 1; 9].
Proof.
  destruct (stats_show_complete (demo_run (take 3 demo_events)) demo_reach3) as (order & lns & s' & Hrun & _). exists lns, s'. split; [exact Hrun|]. rewrite (demo_result _ _ _ (default [] (fst <$> wakelock_stats_show (demo_run (take 3 demo_events)))) _ Hrun); vm_compute; reflexivity.
Defined.
End WakelockSys.
