(* ===== verification/WakelockTimer.v ===== *)
(** * Wake locks on the timer wheel

    The timer wheel of TimerWheel.v and TimerRun.v provides what the wake locks need of
    [expire_timer]: an instance of [ExpireTimer], so that the theorems of WakelockSys.v
    hold for the wake locks with the timers of kernel/timer.c, together with any other
    timers of the system whose functions leave [expire_timer] alone. *)
From stdpp Require Import prelude gmap list.
From Stdlib Require Import ZArith Lia ZifyBool.
From S2P Require Import Prelude ListHead ListHeap TimerWheel TimerRun Time Wakelock WakelockLive WakelockSys.
Import Timer TimerRun.
Open Scope Z_scope.

Module WakelockTimer.

Section instance.
(** The stack nodes of [__run_timers], the address of [expire_timer], and what the timer
    functions do: they use the timers [K] and not [expire_timer]. *)
Context (w p x : Z) (handler : Z -> Z -> prog) (K : Z -> Prop).
Context (HP : forall fn d, prog_ok K (handler fn d)) (Hav : forall fn d, avoids x (handler fn d)).
Implicit Types (s : wheel) (L : heads) (T e n : Z).

(** The timers are between two ticks: the jiffies up to now are processed, or all but the
    current one (after boot).  [DEFINE_TIMER] leaves [slack] zero. *)
Record quiescent s : Prop := {
  qu_ok : exists L T, timers_ok w p s L T;
  qu_jiffies : 0 <= jiffies s < 2 ^ 32;
  qu_done : -1 <= s32 (jiffies s - timer_jiffies s) <= 0;
  qu_timer : exists t, timers s !! x = Some t /\ slack t = 0;
  qu_known : forall y, K y -> is_Some (timers s !! y);
  qu_future : forall e, pending s !! x = Some e -> 0 <= e < 2 ^ 32 /\ 0 < s32 (e - jiffies s);
}.

Definition expire_mod (e : Z) : TM Z := mod_timer x e.
Definition expire_del : TM Z := del_timer x.
(** Whether the function was called shows in the record of calls. *)
Definition expire_tick (n : Z) : TM bool := λ s,
  match (do_timer n ;; run_timer_softirq w p handler) s with
  | Some (_, s') => Some (bool_decide (length (calls_of x (called s)) < length (calls_of x (called s')))%nat, s')
  | None => None
  end.

Lemma no_slack now e : 0 <= e < 2 ^ 32 -> apply_slack now 0 e = e.
Proof. intros He. rewrite apply_slack_eq by done. unfold slack_room. cbn [Z.leb Z.compare]. rewrite Z.add_0_r, u32_small by done. cbv zeta. by rewrite Z.lxor_nilpotent. Qed.

(** A call of the interface that changes only [expire_timer]. *)
Lemma quiescent_effect s s' q : quiescent s -> prog_ok (λ y, y = x) q -> exec q s = Some (tt, s') -> abst s' [] = sp_exec q (abst s []) ->
  (forall e, pending s' !! x = Some e -> 0 <= e < 2 ^ 32 /\ 0 < s32 (e - jiffies s)) -> quiescent s' /\ jiffies s' = jiffies s.
Proof.
  intros [(L & T & Hok) Hj Hd (t & Ht & Hsl) HK Hf] Hq Hrun Ha Hp. destruct (use_run w p (λ y, y = x) q s L T Hok Hq) as (s1 & L1 & Hrun1 & Hok1 & _); [intros y ->; by eexists|].
  rewrite Hrun in Hrun1. injection Hrun1 as <-. destruct (sp_exec_time q (abst s [])) as (En & Ej & Ei). rewrite <-Ha in En, Ej, Ei. cbn in En, Ej, Ei.
  split; [|done]. split; rewrite ?En, ?Ej; try done.
  - by exists L1, T.
  - pose proof (f_equal (lookup x) Ei) as Ex. rewrite !lookup_fmap, Ht in Ex. destruct (timers s' !! x) as [t'|] eqn:Et; [|done]. exists t'. split; [done|]. injection Ex as _ _ _ Es. congruence.
  - intros y Hy. eapply static_known; [exact Ei|by apply HK].
Qed.

Lemma expire_mod_law s e : quiescent s -> 0 <= e < 2 ^ 32 -> 0 < s32 (e - jiffies s) ->
  exists r s', expire_mod e s = Some (r, s') /\ quiescent s' /\ jiffies s' = jiffies s /\ pending s' !! x = Some e.
Proof.
  intros Hq He Hf. pose proof Hq as [(L & T & Hok) _ _ (t & Ht & Hsl) _ _]. destruct (mod_timer_run [] s L T x t e (proj1 Hok) Ht He) as (s' & L' & Hrun & Heff).
  destruct (use_run w p (λ y, y = x) (ModTimer x e (λ _, Done)) s L T Hok) as (s1 & L1 & Hrun1 & _ & Ha); [by split|intros y ->; by eexists|].
  assert (s1 = s') as -> by (cbn [exec] in Hrun1; rewrite (bind_run _ _ _ _ _ Hrun) in Hrun1; by injection Hrun1 as <-).
  assert (pending s' !! x = Some e) as Hpe.
  { unfold mod_timer_effect in Heff. destruct (pend s x && (expires t =? e)) eqn:Ep.
    - destruct Heff as [-> _]. apply andb_prop in Ep as [Ep1 Ep2%Z.eqb_eq]. apply pending_lookup. by exists t.
    - destruct Heff as [Heff _]. rewrite Hsl, no_slack in Heff by done. rewrite (ef_pending _ _ _ _ _ _ _ _ Heff). apply lookup_partial_alter_eq. }
  destruct (quiescent_effect s s' (ModTimer x e (λ _, Done)) Hq) as [Hq' Hj]; [by split|done|done|intros e' He'; rewrite Hpe in He'; by injection He' as <-|]. by exists (if pend s x then 1 else 0), s'.
Qed.
Lemma expire_del_law s : quiescent s -> exists r s', expire_del s = Some (r, s') /\ quiescent s' /\ jiffies s' = jiffies s /\ pending s' !! x = None.
Proof.
  intros Hq. pose proof Hq as [(L & T & Hok) _ _ (t & Ht & Hsl) _ _]. destruct (pend s x) eqn:Ep.
  - destruct (del_run [] s L T x t (proj1 Hok) Ht Ep) as (s' & L' & Hrun & Heff & _).
    destruct (use_run w p (λ y, y = x) (DelTimer x (λ _, Done)) s L T Hok) as (s1 & L1 & Hrun1 & _ & Ha); [by split|intros y ->; by eexists|].
    assert (s1 = s') as -> by (cbn [exec] in Hrun1; rewrite (bind_run _ _ _ _ _ Hrun) in Hrun1; by injection Hrun1 as <-).
    assert (pending s' !! x = None) as Hpe by (rewrite (ef_pending _ _ _ _ _ _ _ _ Heff); apply lookup_partial_alter_eq).
    destruct (quiescent_effect s s' (DelTimer x (λ _, Done)) Hq) as [Hq' Hj]; [by split|done|done|intros e He; congruence|]. by exists 1, s'.
  - exists 0, s. split; [by apply (del_idle_run [] s L T x t (proj1 Hok))|]. split_and!; [done|done|]. apply eq_None_not_Some. intros [e (t' & _ & Hp & _)%pending_lookup]. congruence.
Qed.

Lemma spec_run_end h A A' : spec_run h A A' -> -1 <= s32 (sp_jiffies A - sp_now A) -> sp_jiffies A' = sp_jiffies A /\ s32 (sp_jiffies A' - sp_now A') = -1.
Proof.
  induction 1 as [A Ht|A A1 A2 Ht Hex Hrun IH]; intros Hd; unfold time_after_eq in Ht; [lia|].
  destruct (spec_expire_time _ _ _ Hex) as (En & Ej & _). cbn in En, Ej. rewrite En, Ej, s32_sub_succ in IH by lia. apply IH. lia.
Qed.

Lemma expire_tick_law s n : quiescent s -> 0 <= n < 2 ^ 31 ->
  exists b s', expire_tick n s = Some (b, s') /\ quiescent s' /\ jiffies s' = u32 (jiffies s + n) /\
    match pending s !! x with
    | None => b = false /\ pending s' !! x = None
    | Some e => if s32 (e - jiffies s) <=? n then b = true /\ pending s' !! x = None else b = false /\ pending s' !! x = Some e
    end.
Proof.
  intros [(L & T & Hok) Hj Hd (t & Ht & Hsl) HK Hf] Hn. set (s1 := set_jiffies (u32 (jiffies s + n)) s).
  destruct (softirq_run w p handler K HP s1 L T (timers_ok_jiffies w p s L T _ Hok) HK) as (s' & L' & T' & Hrun & Hok' & Hsp).
  assert (s32 (jiffies s1 - timer_jiffies s1) = s32 (jiffies s - timer_jiffies s) + n) as Ed.
  { cbn. rewrite <-s32_u32, u32_sub_l, s32_u32. destruct (s32_ex (jiffies s - timer_jiffies s)) as [k Ek]. rewrite Ek in *. apply (s32_shift _ _ (- k)); lia. }
  destruct (spec_run_end _ _ _ Hsp) as [Ej Ee]; [change (-1 <= s32 (jiffies s1 - timer_jiffies s1)); lia|]. cbn in Ej, Ee. pose proof (spec_run_info _ _ _ Hsp) as Ei. cbn in Ei.
  assert (exists b, expire_tick n s = Some (b, s') /\ match pending s !! x with
    | None => b = false /\ pending s' !! x = None
    | Some e => if s32 (e - jiffies s) <=? n then b = true /\ pending s' !! x = None else b = false /\ pending s' !! x = Some e end) as (b & Htick & Hb).
  { eexists. split; [unfold expire_tick; erewrite bind_run by done; fold s1; by rewrite Hrun|]. destruct (pending s !! x) as [e|] eqn:Ep.
    - destruct (Hf e eq_refl) as [He Hfut]. pose proof (spec_run_exact x handler Hav (abst s1 []) (abst s' []) e (set_expires 0 t) Hsp Ep) as Hex. cbv zeta in Hex.
      cbn [sp_now sp_jiffies sp_waiting sp_calls sp_info abst] in Hex. rewrite Ed in Hex. specialize (Hex ltac:(cbn; by rewrite lookup_fmap, Ht)). change (timer_jiffies s1) with (timer_jiffies s) in Hex. change (called s1) with (called s) in Hex.
      assert (s32 (e - timer_jiffies s) = s32 (e - jiffies s) + s32 (jiffies s - timer_jiffies s)) as Et.
      { destruct (s32_ex (e - jiffies s)) as [k1 E1]. destruct (s32_ex (jiffies s - timer_jiffies s)) as [k2 E2]. pose proof (s32_range (e - jiffies s)). rewrite E1, E2 in *. apply (s32_shift _ _ (- k1 - k2)); lia. }
      rewrite Et in Hex. destruct (Z.leb_spec (s32 (e - jiffies s)) n).
      + destruct (Z.leb_spec (Z.max 0 (s32 (e - jiffies s) + s32 (jiffies s - timer_jiffies s))) (s32 (jiffies s - timer_jiffies s) + n)); [|lia]. destruct Hex as [Hw Hc]. split; [|done].
        apply bool_decide_eq_true. rewrite Hc, length_app. cbn. lia.
      + destruct (Z.leb_spec (Z.max 0 (s32 (e - jiffies s) + s32 (jiffies s - timer_jiffies s))) (s32 (jiffies s - timer_jiffies s) + n)); [lia|]. destruct Hex as [Hw Hc]. split; [|done].
        apply bool_decide_eq_false. rewrite Hc. lia.
    - destruct (spec_run_idle x handler Hav (abst s1 []) (abst s' []) Hsp Ep) as [Hw Hc]. split; [|done]. apply bool_decide_eq_false. cbn [sp_calls abst] in Hc. rewrite Hc. change (called s1) with (called s). lia. }
  exists b, s'. split; [done|]. split; [|split; [exact Ej|done]]. split; rewrite ?Ej.
  - by exists L', T'.
  - apply u32_range.
  - rewrite <-Ej. lia.
  - pose proof (f_equal (lookup x) Ei) as Ex. rewrite !lookup_fmap, Ht in Ex. destruct (timers s' !! x) as [t'|] eqn:Et; [|done]. exists t'. split; [done|]. injection Ex as _ _ _ Es. congruence.
  - intros y Hy. eapply static_known; [exact Ei|by apply HK].
  - intros e He. destruct (pending s !! x) as [e0|] eqn:Ep; [|destruct Hb; congruence]. destruct (Hf e0 eq_refl) as [He0 Hfut]. destruct (Z.leb_spec (s32 (e0 - jiffies s)) n); destruct Hb as [_ Hb]; [congruence|].
    assert (e0 = e) as -> by congruence. split; [done|]. change (0 < s32 (e - u32 (jiffies s + n))). destruct (u32_ex (jiffies s + n)) as [k1 ->]. destruct (s32_ex (e - jiffies s)) as [k2 E2].
    pose proof (s32_range (e - jiffies s)). rewrite E2 in *. rewrite (s32_shift _ (e - jiffies s + k2 * 2 ^ 32 - n) (- k1 - k2)); lia.
Qed.

(** The interface, provided by the wheel. *)
Definition WheelTimer : Wakelock.ExpireTimer wheel.
Proof.
  refine (Wakelock.Build_ExpireTimer wheel jiffies (λ s, pending s !! x) expire_mod expire_del expire_tick quiescent _ _ expire_mod_law expire_del_law expire_tick_law).
  - intros s H. apply H.
  - intros s e H He. by apply (qu_future _ H).
Defined.

(** C6: The wake locks and the timer wheel work together. With [expire_timer] a timer of the wheel that no timer function touches, among any other timers: if only suspend locks with timeouts are held, all of which end within [n] jiffies, then the tick after [n] jiffies queues the work, and when that starts it goes on to suspend the system. The callers keep to the rules of [event_ok]: no lock is destroyed while it is active, and timeouts and ticks are below 2^30 jiffies. *)
Theorem wheel_suspends_in_time (s : Wakelock.wls wheel) n kt tomono (I := WheelTimer) : WakelockSys.reach s -> WakelockSys.event_ok s (WakelockSys.Tick n kt tomono) ->
  (forall y, ~ WakelockSys.held s Wakelock.WAKE_LOCK_SUSPEND false y) -> (forall y, WakelockSys.held s Wakelock.WAKE_LOCK_SUSPEND true y -> Wakelock.key s y <= n) -> Wakelock.suspending s = None ->
  exists s1 s2 : Wakelock.wls wheel, Wakelock.tick n kt tomono s = Some (tt, s1) /\ Wakelock.suspend_queued s1 = true /\ Wakelock.suspend_start s1 = Some (true, s2).
Proof. apply WakelockSys.in_time. Qed.
End instance.

(** The wheel of TimerRun.v, with [expire_timer] at 200 and timer functions that do nothing. *)
Definition idle_handler (fn d : Z) : prog := Done.
#[local] Instance demo_timer : Wakelock.ExpireTimer wheel := WheelTimer 500 600 200 idle_handler (λ _, False) (λ _ _, I) (λ _ _, I).
Lemma demo_quiescent : quiescent 500 600 200 (λ _, False) demo.
Proof.
  split.
  - destruct demo_at_boot as [L Hok]. by exists L, (jiffies demo_boot).
  - vm_compute. split; congruence.
  - vm_compute. split; congruence.
  - exists (TimerList 0 4097 1 20 0). split; [vm_compute; reflexivity|reflexivity].
  - intros y [].
  - intros e He. vm_compute in He. discriminate.
Qed.
Definition demo_locks : Wakelock.wls wheel := WakelockSys.run_from (WakelockSys.start (WakelockSys.demo_with demo)) [WakelockSys.Lock_timeout 310 100; WakelockSys.Unlock 300].
Lemma demo_locks_reach : WakelockSys.reach demo_locks.
Proof.
  apply (WakelockSys.demo_step _ [_] _); [apply (WakelockSys.demo_step _ [] _); [apply WakelockSys.start_reach, WakelockSys.demo_with_ok; [exact demo_quiescent|vm_compute; reflexivity]| |]| |]; try (vm_compute; reflexivity).
  - split; [|lia]. apply WakelockSys.demo_has. vm_compute. reflexivity.
  - apply WakelockSys.demo_has. vm_compute. reflexivity.
Qed.

Lemma wheel_suspends_in_time_witness : exists s1 s2, Wakelock.tick 100 (Time.Time.Timespec 10 0) (Time.Time.Timespec 0 0) demo_locks = Some (tt, s1) /\
  Wakelock.suspend_queued s1 = true /\ Wakelock.suspend_start s1 = Some (true, s2).
Proof.
  assert (forall y, WakelockSys.held demo_locks Wakelock.WAKE_LOCK_SUSPEND true y -> 0 <= Wakelock.key demo_locks y <= 100) as Hk by (apply WakelockSys.demo_timed, (bool_decide_unpack _); vm_compute; exact I).
  apply (wheel_suspends_in_time 500 600 200 idle_handler (λ _, False) (λ _ _, I) (λ _ _, I) demo_locks 100 (Time.Time.Timespec 10 0) (Time.Time.Timespec 0 0) demo_locks_reach).
  - split; [lia|]. intros y Hy. apply Z.le_trans with 0; [lia|exact (proj1 (Hk y Hy))].
  - apply WakelockSys.demo_no_perm, (bool_decide_unpack _). vm_compute. exact I.
  - intros y Hy. exact (proj2 (Hk y Hy)).
  - vm_compute. reflexivity.
Defined.
End WakelockTimer.
