(* ===== verification/EarlySuspend.v ===== *)
(** * Early suspend

    kernel/power/earlysuspend.c: user space asks for sleep or wakeup; the handlers that
    drivers registered are called before the system may suspend, in the order of their
    levels, and in the opposite order when it is woken up.  As long as the system is in
    use, [main_wake_lock] keeps it from suspending.

    The requests change [state] at once and queue work for the thread of
    [suspend_work_queue]; the work takes [early_suspend_lock] and [state_lock] in turn,
    so that it is several steps, between which requests, registrations and everything of
    WakelockSys.v can happen.  (The work that suspends is on the same queue; that its
    steps can come at any time here, and not only between those of the other work, allows
    more than the code.)  What the handlers do is not modelled: a call is recorded.
    The locks and the timer are those of the earlier files. *)
From stdpp Require Import prelude gmap list sorting.
From Stdlib Require Import ZArith Lia ZifyBool.
From S2P Require Import Prelude Time ListHead ListHeap Wakelock WakelockLive WakelockSys.
Open Scope Z_scope.

Module EarlySuspend.
Import Wakelock WakelockLive WakelockSys.

(** ** Data *)
Definition SUSPEND_REQUESTED : Z := 1.
Definition SUSPENDED : Z := 2.
Definition SUSPEND_REQUESTED_AND_SUSPENDED : Z := Z.lor SUSPEND_REQUESTED SUSPENDED.
Definition PM_SUSPEND_ON : Z := 0.
Definition PM_SUSPEND_MEM : Z := 3.

(** The hooks are addresses, 0 if there is none; [link] has the address of the handler. *)
Record early_suspend_s := Handler { level : Z; suspend : Z; resume : Z }.
Inductive work := Early_suspend_work | Late_resume_work.
#[export] Instance work_eq_dec : EqDecision work.
Proof. solve_decision. Defined.
Inductive call := Registered (h : Z) | Unregistered (h : Z) | Suspend_call (h : Z) | Resume_call (h : Z).
(** Where the thread of the work queue is: without work; in [early_suspend] before the
    handlers are called, or after that; in [late_resume] before the handlers are called. *)
Inductive thread_at := Idle | Suspending | Finishing | Resuming.

Record es (W : Type) := Es {
  link : mem;
  handlers : gmap Z early_suspend_s;
  early_suspend_handlers : Z;
  early_suspend_lock : bool;
  state : Z;
  dvfs_fixed_by_rp : bool;
  requested_suspend_state : Z;
  queue : list work;
  worker : thread_at;
  sync_queued : bool;
  sync_running : bool;
  calls : list call;
  wl : wls W;
}.
Arguments Es {_}. Arguments link {_}. Arguments handlers {_}. Arguments early_suspend_handlers {_}. Arguments early_suspend_lock {_}. Arguments state {_}.
Arguments dvfs_fixed_by_rp {_}. Arguments requested_suspend_state {_}. Arguments queue {_}. Arguments worker {_}. Arguments sync_queued {_}. Arguments sync_running {_}.
Arguments calls {_}. Arguments wl {_}.

Section ops.
Context {W : Type} `{!ExpireTimer W}.
Implicit Types (s : es W) (h : Z).

Definition set_link (m : mem) s : es W :=
  Es m (handlers s) (early_suspend_handlers s) (early_suspend_lock s) (state s) (dvfs_fixed_by_rp s) (requested_suspend_state s) (queue s) (worker s) (sync_queued s) (sync_running s) (calls s) (wl s).
Definition set_state (z : Z) s : es W :=
  Es (link s) (handlers s) (early_suspend_handlers s) (early_suspend_lock s) z (dvfs_fixed_by_rp s) (requested_suspend_state s) (queue s) (worker s) (sync_queued s) (sync_running s) (calls s) (wl s).
Definition set_requested (z : Z) s : es W :=
  Es (link s) (handlers s) (early_suspend_handlers s) (early_suspend_lock s) (state s) (dvfs_fixed_by_rp s) z (queue s) (worker s) (sync_queued s) (sync_running s) (calls s) (wl s).
Definition set_dvfs (b : bool) s : es W :=
  Es (link s) (handlers s) (early_suspend_handlers s) (early_suspend_lock s) (state s) b (requested_suspend_state s) (queue s) (worker s) (sync_queued s) (sync_running s) (calls s) (wl s).
Definition set_work (q : list work) (p : thread_at) (locked : bool) s : es W :=
  Es (link s) (handlers s) (early_suspend_handlers s) locked (state s) (dvfs_fixed_by_rp s) (requested_suspend_state s) q p (sync_queued s) (sync_running s) (calls s) (wl s).
Definition set_sync (queued running : bool) s : es W :=
  Es (link s) (handlers s) (early_suspend_handlers s) (early_suspend_lock s) (state s) (dvfs_fixed_by_rp s) (requested_suspend_state s) (queue s) (worker s) queued running (calls s) (wl s).
Definition add_call (c : call) s : es W :=
  Es (link s) (handlers s) (early_suspend_handlers s) (early_suspend_lock s) (state s) (dvfs_fixed_by_rp s) (requested_suspend_state s) (queue s) (worker s) (sync_queued s) (sync_running s) (calls s ++ [c]) (wl s).
Definition set_wl (l : wls W) s : es W :=
  Es (link s) (handlers s) (early_suspend_handlers s) (early_suspend_lock s) (state s) (dvfs_fixed_by_rp s) (requested_suspend_state s) (queue s) (worker s) (sync_queued s) (sync_running s) (calls s) l.

Abbreviation EM := (M (es W)).

Definition on_link {A} (f : M mem A) : EM A := λ s, match f (link s) with Some (a, m) => Some (a, set_link m s) | None => None end.
Definition on_wl {A} (f : M (wls W) A) : EM A := λ s, match f (wl s) with Some (a, l) => Some (a, set_wl l s) | None => None end.
Definition get_handler (h : Z) : EM early_suspend_s := λ s, match handlers s !! h with Some e => Some (e, s) | None => None end.
Definition place_at (p : thread_at) (locked : bool) : EM unit := modify (λ s, set_work (queue s) p locked s).
(** Work that is queued already is not queued again. *)
Definition queue_work (w : work) : EM unit := modify (λ s, set_work (if bool_decide (w ∈ queue s) then queue s else queue s ++ [w]) (worker s) (early_suspend_lock s) s).

(** ** Handlers *)
(** [list_for_each] in [register_early_suspend]: the position before which to insert. *)
Fixpoint register_walk (fuel : nat) (lvl pos : Z) : EM Z :=
  match fuel with
  | O => oops
  | S fuel =>
      s ← get;
      if pos =? early_suspend_handlers s then mret pos
      else e ← get_handler pos; if level e >? lvl then mret pos else next ← on_link (get_next pos); register_walk fuel lvl next
  end.
Definition register_early_suspend (handler : Z) : EM unit :=
  e ← get_handler handler;
  s ← get;
  first ← on_link (get_next (early_suspend_handlers s));
  pos ← register_walk (S (size (handlers s))) (level e) first;
  on_link (list_add_tail handler pos) ;;
  modify (add_call (Registered handler)) ;;
  if negb (Z.land (state s) SUSPENDED =? 0) && negb (suspend e =? 0) then modify (add_call (Suspend_call handler)) else mret tt.
Definition unregister_early_suspend (handler : Z) : EM unit :=
  on_link (list_del handler) ;; modify (add_call (Unregistered handler)).

Fixpoint suspend_walk (fuel : nat) (pos : Z) : EM unit :=
  match fuel with
  | O => oops
  | S fuel =>
      s ← get;
      if pos =? early_suspend_handlers s then mret tt
      else
        e ← get_handler pos;
        (if negb (suspend e =? 0) then modify (add_call (Suspend_call pos)) else mret tt) ;;
        next ← on_link (get_next pos);
        suspend_walk fuel next
  end.
Fixpoint resume_walk (fuel : nat) (pos : Z) : EM unit :=
  match fuel with
  | O => oops
  | S fuel =>
      s ← get;
      if pos =? early_suspend_handlers s then mret tt
      else
        e ← get_handler pos;
        (if negb (resume e =? 0) then modify (add_call (Resume_call pos)) else mret tt) ;;
        prev ← on_link (get_prev pos);
        resume_walk fuel prev
  end.

(** ** [early_suspend] *)
(** Up to the release of [state_lock]; after an abort the other lock is released too. *)
Definition early_suspend_begin : EM unit :=
  s ← get;
  if state s =? SUSPEND_REQUESTED then modify (set_state (Z.lor (state s) SUSPENDED)) ;; place_at Suspending true
  else place_at Finishing false.
Definition early_suspend_call : EM unit :=
  s ← get;
  first ← on_link (get_next (early_suspend_handlers s));
  suspend_walk (S (size (handlers s))) first ;;
  modify (λ s, set_sync true (sync_running s) s) ;;
  place_at Finishing false.
Definition early_suspend_end : EM unit :=
  s ← get;
  (if state s =? SUSPEND_REQUESTED_AND_SUSPENDED then on_wl (wake_unlock (main_wake_lock (wl s))) else mret tt) ;;
  place_at Idle (early_suspend_lock s).

(** ** [late_resume] *)
Definition late_resume_begin : EM unit :=
  s ← get;
  if state s =? SUSPENDED then modify (set_state (Z.land (state s) (Z.lnot SUSPENDED))) ;; place_at Resuming true
  else place_at Idle false.
(** [policy] says whether [cpufreq_cpu_get] finds a policy; without one the function
    returns with the lock held. *)
Definition late_resume_call (policy : bool) : EM unit :=
  s ← get;
  if dvfs_fixed_by_rp s && negb policy then place_at Idle true
  else
    (if dvfs_fixed_by_rp s then modify (set_dvfs false) else mret tt) ;;
    last ← on_link (get_prev (early_suspend_handlers s));
    resume_walk (S (size (handlers s))) last ;;
    place_at Idle false.

(** ** Requests *)
Definition request_suspend_state (new_state : Z) : EM unit :=
  s ← get;
  let old_sleep := Z.land (state s) SUSPEND_REQUESTED in
  (if (old_sleep =? 0) && negb (new_state =? PM_SUSPEND_ON) then
     modify (set_state (Z.lor (state s) SUSPEND_REQUESTED)) ;; queue_work Early_suspend_work
   else if negb (old_sleep =? 0) && (new_state =? PM_SUSPEND_ON) then
     modify (set_state (Z.land (state s) (Z.lnot SUSPEND_REQUESTED))) ;; on_wl (wake_lock (main_wake_lock (wl s))) ;; queue_work Late_resume_work
   else mret tt) ;;
  modify (set_requested new_state).
Definition get_suspend_state : EM Z := s ← get; mret (requested_suspend_state s).

(** ** The two threads *)
(** The next step of the thread of [suspend_work_queue]. *)
Definition work_step (policy : bool) : EM unit :=
  s ← get;
  match worker s with
  | Idle =>
      match queue s with
      | [] => mret tt
      | w :: q => modify (λ s, set_work q (worker s) (early_suspend_lock s) s) ;; match w with Early_suspend_work => early_suspend_begin | Late_resume_work => late_resume_begin end
      end
  | Suspending => early_suspend_call
  | Finishing => early_suspend_end
  | Resuming => late_resume_call policy
  end.
(** [sync_system], in two steps with [sys_sync] between them. *)
Definition sync_system : EM unit :=
  s ← get;
  if sync_running s then on_wl (wake_unlock (sync_wake_lock (wl s))) ;; modify (λ s, set_sync (sync_queued s) false s)
  else if sync_queued s then modify (set_sync false true) ;; on_wl (wake_lock (sync_wake_lock (wl s)))
  else mret tt.
End ops.

(** ** What happened to a handler *)
(** Whether a handler is registered, and if so whether it is suspended; [None] after a call
    in a wrong order. *)
Definition track (h : Z) (acc : option (option bool)) (c : call) : option (option bool) :=
  match acc with
  | None => None
  | Some cur =>
      match c with
      | Registered h' => if h' =? h then (match cur with None => Some (Some false) | Some _ => None end) else acc
      | Unregistered h' => if h' =? h then (match cur with Some _ => Some None | None => None end) else acc
      | Suspend_call h' => if h' =? h then (match cur with Some false => Some (Some true) | _ => None end) else acc
      | Resume_call h' => if h' =? h then (match cur with Some true => Some (Some false) | _ => None end) else acc
      end
  end.
Definition tracked (h : Z) (cs : list call) : option (option bool) := foldl (track h) (Some None) cs.
Definition registered (h : Z) (cs : list call) : bool :=
  foldl (λ b c, match c with Registered h' => (h' =? h) || b | Unregistered h' => negb (h' =? h) && b | _ => b end) false cs.

Lemma tracked_app h cs cs' : tracked h (cs ++ cs') = foldl (track h) (tracked h cs) cs'.
Proof. unfold tracked. apply foldl_app. Qed.
Lemma track_other h (f : Z -> call) (l : list Z) acc : (forall y, y <> h -> track h acc (f y) = acc) -> h ∉ l -> foldl (track h) acc (f <$> l) = acc.
Proof. intros Hf. induction l as [|y l IH]; intros Hn; [done|]. cbn. rewrite Hf by set_solver. apply IH. set_solver. Qed.
Lemma track_all h (f : Z -> call) (l : list Z) a b : (forall acc y, y <> h -> track h acc (f y) = acc) -> track h a (f h) = b -> NoDup l -> h ∈ l -> foldl (track h) a (f <$> l) = b.
Proof.
  intros Hf Hh Hn Hin. apply list_elem_of_split in Hin as (l1 & l2 & ->). apply NoDup_app in Hn as (_ & H1 & H2). apply NoDup_cons in H2 as [H2 _].
  rewrite fmap_app, foldl_app, (track_other h f l1 a (Hf a)) by set_solver +H1. cbn. rewrite Hh. by apply track_other; auto.
Qed.
Lemma track_suspend_ne h acc y : y <> h -> track h acc (Suspend_call y) = acc.
Proof. intros Hy. destruct acc; [|done]. cbn. by rewrite (proj2 (Z.eqb_neq y h)). Qed.
Lemma track_resume_ne h acc y : y <> h -> track h acc (Resume_call y) = acc.
Proof. intros Hy. destruct acc; [|done]. cbn. by rewrite (proj2 (Z.eqb_neq y h)). Qed.
Lemma registered_calls h (f : Z -> call) (l : list Z) cs : (forall y, (exists y', f y = Suspend_call y') \/ (exists y', f y = Resume_call y')) -> registered h (cs ++ (f <$> l)) = registered h cs.
Proof.
  intros Hf. unfold registered. rewrite foldl_app. generalize (foldl (λ b c, match c with Registered h' => (h' =? h) || b | Unregistered h' => negb (h' =? h) && b | _ => b end) false cs).
  induction l as [|y l IH]; intros b; [done|]. cbn. destruct (Hf y) as [[y' ->]|[y' ->]]; apply IH.
Qed.

(** ** The walks *)
Section walks.
Context {W : Type} `{!ExpireTimer W}.
Implicit Types (s : es W) (h x : Z) (hs : list Z).

Lemma on_link_run {A : Type} (f : M mem A) s a m : f (link s) = Some (a, m) -> on_link f s = Some (a, set_link m s).
Proof. intros H. unfold on_link. by rewrite H. Qed.
Lemma same_link s : set_link (link s) s = s.
Proof. by destruct s. Qed.
Lemma on_wl_run {A : Type} (f : M (wls W) A) s a l : f (wl s) = Some (a, l) -> on_wl f s = Some (a, set_wl l s).
Proof. intros H. unfold on_wl. by rewrite H. Qed.
Lemma get_handler_run s h e : handlers s !! h = Some e -> get_handler h s = Some (e, s).
Proof. intros H. unfold get_handler. by rewrite H. Qed.

Definition level_of s h : Z := match handlers s !! h with Some e => level e | None => 0 end.
Definition hook (f : early_suspend_s -> Z) s h : Z := match handlers s !! h with Some e => f e | None => 0 end.
(** The calls that a walk over [l] makes. *)
Definition hook_calls (f : early_suspend_s -> Z) (c : Z -> call) s (l : list Z) : list call := c <$> filter (λ h, hook f s h <> 0) l.
Definition log (cs : list call) s : es W :=
  Es (link s) (handlers s) (early_suspend_handlers s) (early_suspend_lock s) (state s) (dvfs_fixed_by_rp s) (requested_suspend_state s) (queue s) (worker s) (sync_queued s) (sync_running s) (calls s ++ cs) (wl s).
Lemma log_nil s : log [] s = s.
Proof. destruct s. unfold log. cbn. by rewrite app_nil_r. Qed.
Lemma log_log cs cs' s : log cs' (log cs s) = log (cs ++ cs') s.
Proof. unfold log. cbn. by rewrite app_assoc. Qed.

Record listed_handlers s hs : Prop := {
  lh_rep : lrep (link s) {[early_suspend_handlers s := hs]};
  lh_known : forall h, h ∈ hs -> is_Some (handlers s !! h);
}.
Lemma handlers_head s hs : listed_handlers s hs -> ({[early_suspend_handlers s := hs]} : heads) !! early_suspend_handlers s = Some hs.
Proof. intros _. apply lookup_singleton_eq. Qed.
Lemma handlers_nodup s hs : listed_handlers s hs -> NoDup (early_suspend_handlers s :: hs).
Proof. intros H. by eapply (lrep_nodup _ _ _ _ (lh_rep _ _ H)), handlers_head. Qed.
Lemma not_head s hs x : listed_handlers s hs -> x ∈ hs -> (x =? early_suspend_handlers s) = false.
Proof. intros Hl Hx. apply Z.eqb_neq. intros ->. by pose proof (handlers_nodup _ _ Hl) as [? _]%NoDup_cons. Qed.
Lemma hook_run (f : early_suspend_s -> Z) (c : Z -> call) s x e : handlers s !! x = Some e ->
  (if negb (f e =? 0) then modify (add_call (c x)) else mret tt) s = Some (tt, log (hook_calls f c s [x]) s).
Proof.
  intros He. assert (f e = hook f s x) as -> by (unfold hook; by rewrite He). unfold hook_calls. rewrite filter_cons, filter_nil.
  destruct (Z.eqb_spec (hook f s x) 0); cbn [negb]; [rewrite decide_False by tauto; by rewrite log_nil|by rewrite decide_True by done].
Qed.
Lemma handlers_length s hs : listed_handlers s hs -> (length hs < S (size (handlers s)))%nat.
Proof.
  intros H. apply Nat.lt_succ_r. rewrite <-size_dom. pose proof (handlers_nodup s hs H) as [_ Hn]%NoDup_cons.
  transitivity (size (list_to_set hs : gset Z)); [by rewrite size_list_to_set|]. apply subseteq_size. intros x Hx%elem_of_list_to_set. by apply elem_of_dom, (lh_known _ _ H).
Qed.

Lemma register_walk_run lvl fuel : forall l1 l2 s, listed_handlers s (l1 ++ l2) -> Forall (λ h, level_of s h <= lvl) l1 -> (length l2 < fuel)%nat ->
  exists k1 k2, l1 ++ l2 = k1 ++ k2 /\ register_walk fuel lvl (hd (early_suspend_handlers s) l2) s = Some (hd (early_suspend_handlers s) k2, s) /\
    Forall (λ h, level_of s h <= lvl) k1 /\ (forall h k, k2 = h :: k -> lvl < level_of s h).
Proof.
  induction fuel as [|fuel IH]; intros l1 l2 s Hl Hle Hf; [lia|]. cbn [register_walk]. erewrite bind_run by done. destruct l2 as [|x l2]; cbn [hd].
  { rewrite Z.eqb_refl. exists l1, []. by rewrite app_nil_r in *. }
  rewrite (not_head _ _ x Hl) by set_solver +.
  destruct (lh_known _ _ Hl x ltac:(set_solver +)) as [e He]. mrun (get_handler_run _ _ _ He). assert (level e = level_of s x) as Ee by (unfold level_of; by rewrite He).
  rewrite Ee, Z.gtb_ltb. destruct (Z.ltb_spec lvl (level_of s x)) as [Hlt|Hge].
  - exists l1, (x :: l2). split_and!; [done|done|done|]. by intros h k [= <- <-].
  - mrun (on_link_run _ _ _ _ (heap_next _ _ _ _ _ _ (lh_rep _ _ Hl) (handlers_head _ _ Hl))). rewrite same_link.
    destruct (IH (l1 ++ [x]) l2 s) as (k1 & k2 & E & Hrun & H1 & H2); [by rewrite <-app_assoc|apply Forall_app; split; [done|by constructor]|cbn in Hf; lia|].
    exists k1, k2. rewrite <-app_assoc in E. by split_and!.
Qed.

Lemma listed_log cs s hs : listed_handlers s hs -> listed_handlers (log cs s) hs.
Proof. by intros []. Qed.
Lemma suspend_walk_run fuel : forall l1 l2 s, listed_handlers s (l1 ++ l2) -> (length l2 < fuel)%nat ->
  suspend_walk fuel (hd (early_suspend_handlers s) l2) s = Some (tt, log (hook_calls suspend Suspend_call s l2) s).
Proof.
  induction fuel as [|fuel IH]; intros l1 l2 s Hl Hf; [lia|]. cbn [suspend_walk]. erewrite bind_run by done. destruct l2 as [|x l2]; cbn [hd].
  { rewrite Z.eqb_refl. by rewrite log_nil. }
  rewrite (not_head _ _ x Hl) by set_solver +.
  destruct (lh_known _ _ Hl x ltac:(set_solver +)) as [e He]. mrun (get_handler_run _ _ _ He). mrun (hook_run suspend Suspend_call s x e He).
  set (s1 := log _ s). pose proof (listed_log (hook_calls suspend Suspend_call s [x]) s _ Hl) as Hl1. fold s1 in Hl1.
  mrun (on_link_run _ s1 _ _ (heap_next _ _ _ _ _ _ (lh_rep _ _ Hl1) (handlers_head _ _ Hl1))). rewrite same_link. change (early_suspend_handlers s) with (early_suspend_handlers s1).
  rewrite (IH (l1 ++ [x]) l2 s1); [|by rewrite <-app_assoc|cbn in Hf; lia]. change (hook_calls suspend Suspend_call s1 l2) with (hook_calls suspend Suspend_call s l2). unfold s1. rewrite log_log.
  unfold hook_calls. rewrite <-fmap_app, <-filter_app. done.
Qed.
Lemma resume_walk_run fuel : forall l1 l2 s, listed_handlers s (l1 ++ l2) -> (length l1 < fuel)%nat ->
  resume_walk fuel (lastd (early_suspend_handlers s) l1) s = Some (tt, log (hook_calls resume Resume_call s (rev l1)) s).
Proof.
  induction fuel as [|fuel IH]; intros l1 l2 s Hl Hf; [lia|]. cbn [resume_walk]. erewrite bind_run by done. destruct l1 as [|x l1 _] using rev_ind.
  { rewrite Z.eqb_refl. by rewrite log_nil. }
  rewrite lastd_snoc. rewrite (not_head _ _ x Hl) by set_solver +.
  destruct (lh_known _ _ Hl x ltac:(set_solver +)) as [e He]. mrun (get_handler_run _ _ _ He). mrun (hook_run resume Resume_call s x e He).
  set (s1 := log _ s). pose proof (listed_log (hook_calls resume Resume_call s [x]) s _ Hl) as Hl1. fold s1 in Hl1. rewrite <-app_assoc in Hl1. cbn [app] in Hl1.
  mrun (on_link_run _ s1 _ _ (heap_get_prev _ _ _ _ _ _ (lh_rep _ _ Hl1) (handlers_head _ _ Hl1))). rewrite same_link. change (early_suspend_handlers s) with (early_suspend_handlers s1).
  rewrite (IH l1 (x :: l2) s1); [|done|rewrite length_app in Hf; cbn in Hf; lia]. change (hook_calls resume Resume_call s1 (rev l1)) with (hook_calls resume Resume_call s (rev l1)). unfold s1. rewrite log_log.
  rewrite rev_app_distr. unfold hook_calls. rewrite <-fmap_app, <-filter_app. done.
Qed.
End walks.

(** ** Steps *)
Inductive event :=
  | Register (handler : Z)
  | Unregister (handler : Z)
  | Request (new_state : Z)
  | Work (policy : bool)
  | Sync
  | Wl (ev : WakelockSys.event).

Section system.
Context {W : Type} `{!ExpireTimer W}.
Implicit Types (s : es W) (h x : Z) (hs : list Z).

Definition step (ev : event) : M (es W) unit :=
  match ev with
  | Register h => register_early_suspend h
  | Unregister h => unregister_early_suspend h
  | Request st => request_suspend_state st
  | Work policy => work_step policy
  | Sync => sync_system
  | Wl ev => on_wl (WakelockSys.step ev)
  end.

(** A driver registers a handler that is not registered and unregisters one that is; both
    wait for [early_suspend_lock].  [main_wake_lock] is used by this file only. *)
Definition event_ok s (ev : event) : Prop :=
  match ev with
  | Register h => is_Some (handlers s !! h) /\ registered h (calls s) = false /\ early_suspend_lock s = false
  | Unregister h => registered h (calls s) = true /\ early_suspend_lock s = false
  | Request _ | Work _ | Sync => True
  | Wl ev => WakelockSys.event_ok (wl s) ev /\ ~ names (wl s) ev (main_wake_lock (wl s))
  end.

Record boot s : Prop := {
  bt_list : lrep (link s) {[early_suspend_handlers s := []]};
  bt_cells : forall h, is_Some (handlers s !! h) -> allocated (link s) h /\ h <> early_suspend_handlers s;
  bt_state : state s = 0 /\ requested_suspend_state s = PM_SUSPEND_MEM /\ dvfs_fixed_by_rp s = false;
  bt_work : queue s = [] /\ worker s = Idle /\ early_suspend_lock s = false /\ sync_queued s = false /\ sync_running s = false;
  bt_calls : calls s = [];
  bt_wl : exists (s0 : wls W) n1 n2 n3 n4, WakelockLive.boot s0 /\ n1 <> 0 /\ n2 <> 0 /\ n3 <> 0 /\ n4 <> 0 /\ wakelocks_init 0 0 true true n1 n2 n3 n4 s0 = Some (0, wl s);
}.
Inductive reach : es W -> Prop :=
  | reach_boot s : boot s -> reach s
  | reach_step s ev s' : reach s -> event_ok s ev -> step ev s = Some (tt, s') -> reach s'.

(** ** Handlers *)
(** Whether the handlers are suspended: they are called after [state] changed. *)
Definition suspended s : bool := match worker s with Suspending => false | Resuming => true | _ => negb (Z.land (state s) SUSPENDED =? 0) end.
Definition both s h : Prop := hook suspend s h <> 0 /\ hook resume s h <> 0.

Record hinv s hs (b : bool) : Prop := {
  hv_list : listed_handlers s hs;
  hv_cells : forall h, is_Some (handlers s !! h) -> allocated (link s) h /\ h <> early_suspend_handlers s;
  hv_sorted : StronglySorted (λ x y, level_of s x <= level_of s y) hs;
  hv_reg : forall h, registered h (calls s) = true <-> h ∈ hs;
  hv_in : forall h, both s h -> h ∈ hs -> tracked h (calls s) = Some (Some b);
  hv_out : forall h, both s h -> h ∉ hs -> tracked h (calls s) = Some None;
}.
Definition hview s := (link s, handlers s, early_suspend_handlers s, calls s).
Lemma hinv_frame s s' hs b : hview s' = hview s -> hinv s hs b -> hinv s' hs b.
Proof. destruct s, s'. intros [= -> -> -> ->] [[] H2 H3 H4 H5 H6]. by split. Qed.

(** All registered handlers are called. *)
Lemma hinv_calls s hs b b' (f : early_suspend_s -> Z) (c : Z -> call) l : hinv s hs b -> l ≡ₚ hs ->
  (forall y, (exists y', c y = Suspend_call y') \/ (exists y', c y = Resume_call y')) -> (forall h acc y, y <> h -> track h acc (c y) = acc) ->
  (forall h, both s h -> hook f s h <> 0) -> (forall h, track h (Some (Some b)) (c h) = Some (Some b')) -> hinv (log (hook_calls f c s l) s) hs b'.
Proof.
  intros [H1 H2 H3 H4 H5 H6] Hp Hc Ho Hf Ht. assert (NoDup l) as Hn by (rewrite Hp; by pose proof (handlers_nodup _ _ H1) as [_ ?]%NoDup_cons). split; [by apply listed_log|exact H2|exact H3| | |].
  - intros h. cbn [calls log]. unfold hook_calls. rewrite registered_calls by done. apply H4.
  - intros h Hb Hin. cbn [calls log]. rewrite tracked_app, H5 by done. unfold hook_calls. apply track_all; [intros acc y; apply Ho|apply Ht|by apply NoDup_filter|].
    apply list_elem_of_filter. split; [by apply Hf|by rewrite Hp].
  - intros h Hb Hin. cbn [calls log]. rewrite tracked_app, H6 by done. unfold hook_calls. apply track_other; [auto|]. intros [_ Hx]%list_elem_of_filter. rewrite Hp in Hx. done.
Qed.
Lemma suspend_calls s hs : hinv s hs false -> exists first, on_link (get_next (early_suspend_handlers s)) s = Some (first, s) /\
  suspend_walk (S (size (handlers s))) first s = Some (tt, log (hook_calls suspend Suspend_call s hs) s) /\ hinv (log (hook_calls suspend Suspend_call s hs) s) hs true.
Proof.
  intros H. pose proof (hv_list _ _ _ H) as Hl. eexists. split_and!.
  - rewrite (on_link_run _ _ _ _ (heap_get_next _ _ _ _ (lh_rep _ _ Hl) (handlers_head _ _ Hl))). by rewrite same_link.
  - pose proof (suspend_walk_run (S (size (handlers s))) [] hs s Hl (handlers_length _ _ Hl)) as Hw. destruct hs; exact Hw.
  - eapply hinv_calls; [exact H|done|eauto|intros; by apply track_suspend_ne|by intros h []|]. intros h. cbn. by rewrite Z.eqb_refl.
Qed.
Lemma resume_calls s hs : hinv s hs true -> exists last, on_link (get_prev (early_suspend_handlers s)) s = Some (last, s) /\
  resume_walk (S (size (handlers s))) last s = Some (tt, log (hook_calls resume Resume_call s (rev hs)) s) /\ hinv (log (hook_calls resume Resume_call s (rev hs)) s) hs false.
Proof.
  intros H. pose proof (hv_list _ _ _ H) as Hl. eexists. split_and!.
  - rewrite (on_link_run _ _ _ _ (heap_get_prev_head _ _ _ _ (lh_rep _ _ Hl) (handlers_head _ _ Hl))). by rewrite same_link.
  - pose proof (handlers_length _ _ Hl). rewrite <-(app_nil_r hs) in Hl. by apply (resume_walk_run (S (size (handlers s))) hs [] s Hl).
  - eapply hinv_calls; [exact H|symmetry; apply Permutation_rev|eauto|intros; by apply track_resume_ne|by intros h []|]. intros h. cbn. by rewrite Z.eqb_refl.
Qed.

Lemma not_own h0 hs x h' : x <> h0 -> x ∉ hs -> ~ own {[h0 := hs]} x h'.
Proof. intros Hn Hx (l & [<- <-]%lookup_singleton_Some & Hin). set_solver. Qed.
(** The calls of a registration. *)
Definition register_calls s h : list call := Registered h :: hook_calls suspend Suspend_call s (if negb (Z.land (state s) SUSPENDED =? 0) then [h] else []).
Lemma registered_snoc h h' cs : registered h (cs ++ [Registered h']) = (h' =? h) || registered h cs.
Proof. unfold registered. by rewrite foldl_app. Qed.
Lemma unregistered_snoc h h' cs : registered h (cs ++ [Unregistered h']) = negb (h' =? h) && registered h cs.
Proof. unfold registered. by rewrite foldl_app. Qed.

Lemma register_registered s h h' : registered h' (calls s ++ register_calls s h) = (h =? h') || registered h' (calls s).
Proof.
  unfold register_calls. rewrite (app_assoc (calls s) [Registered h] (hook_calls _ _ _ _) : calls s ++ Registered h :: hook_calls _ _ _ _ = _).
  unfold hook_calls. rewrite registered_calls by eauto. apply registered_snoc.
Qed.
Lemma register_tracked s hs b h h' : hinv s hs b -> negb (Z.land (state s) SUSPENDED =? 0) = b -> h ∉ hs -> both s h' ->
  tracked h' (calls s ++ register_calls s h) = if h =? h' then Some (Some b) else tracked h' (calls s).
Proof.
  intros Hv Hb Hn Hh. unfold register_calls. rewrite Hb, tracked_app. cbn [foldl]. destruct (Z.eqb_spec h h') as [->|Hne].
  - rewrite (hv_out _ _ _ Hv) by done. cbn [track]. rewrite Z.eqb_refl. destruct b; [|done]. unfold hook_calls. rewrite filter_cons, decide_True by apply Hh. cbn. by rewrite Z.eqb_refl.
  - assert (exists a, tracked h' (calls s) = Some a) as [a ->] by (destruct (decide (h' ∈ hs)); [rewrite (hv_in _ _ _ Hv) by done|rewrite (hv_out _ _ _ Hv) by done]; eauto).
    cbn [track]. rewrite (proj2 (Z.eqb_neq h h')) by done. apply track_other; [intros; by apply track_suspend_ne|]. intros [_ Hx]%list_elem_of_filter. destruct b; set_solver.
Qed.
Lemma insert_sorted s h k1 k2 : Forall (λ x, level_of s x <= level_of s h) k1 -> (forall y k, k2 = y :: k -> level_of s h < level_of s y) ->
  StronglySorted (λ x y, level_of s x <= level_of s y) (k1 ++ k2) -> StronglySorted (λ x y, level_of s x <= level_of s y) (k1 ++ h :: k2).
Proof.
  intros H1 H2 (H3 & H4 & H5)%StronglySorted_app. apply StronglySorted_app. split_and!; [|done|].
  - intros x y Hx [->|Hy]%elem_of_cons; [by eapply Forall_forall in H1|by apply H3].
  - apply StronglySorted_cons. split; [|done]. destruct k2 as [|y k]; [done|]. specialize (H2 y k eq_refl). apply StronglySorted_cons in H5 as [H5 _].
    constructor; [lia|]. eapply Forall_impl; [exact H5|]. cbn. lia.
Qed.
Lemma insert_cells m m' h0 k1 k2 x q : lrep m' {[h0 := k1 ++ x :: k2]} -> same_outside (x :: h0 :: k1 ++ k2) m m' -> allocated m q -> allocated m' q.
Proof.
  intros Hr Hs Hq. destruct (decide (q ∈ x :: h0 :: k1 ++ k2)) as [Hin|Hout]; [|unfold allocated; by rewrite Hs].
  eapply (dlist_allocated _ h0 (k1 ++ x :: k2)); [apply (lr_dlist _ _ Hr), lookup_singleton_eq|set_solver +Hin].
Qed.
Lemma register_good s hs b h : hinv s hs b -> is_Some (handlers s !! h) -> h ∉ hs -> negb (Z.land (state s) SUSPENDED =? 0) = b ->
  exists m k1 k2, register_early_suspend h s = Some (tt, log (register_calls s h) (set_link m s)) /\ hs = k1 ++ k2 /\ hinv (log (register_calls s h) (set_link m s)) (k1 ++ h :: k2) b.
Proof.
  intros Hv [e He] Hn Hb. pose proof (hv_list _ _ _ Hv) as Hl. destruct (hv_cells _ _ _ Hv h (ex_intro _ e He)) as [Ha Hh].
  destruct (register_walk_run (level e) (S (size (handlers s))) [] hs s Hl) as (k1 & k2 & Ehs & Hw & H1 & H2); [done|by apply handlers_length|]. cbn [app] in Ehs. subst hs.
  assert (level e = level_of s h) as Ee by (unfold level_of; by rewrite He). rewrite Ee in H1, H2.
  destruct (heap_add_before (link s) _ (early_suspend_handlers s) k1 k2 h (hd (early_suspend_handlers s) k2) (tail (k2 ++ [early_suspend_handlers s])) (lh_rep _ _ Hl) (handlers_head _ _ Hl))
    as (m & Hadd & Hr & Hs); [intros h'; by apply not_own|done|by destruct k2|]. rewrite insert_singleton_eq in Hr.
  exists m, k1, k2. split; [|split; [done|]].
  - unfold register_early_suspend. mrun (get_handler_run _ _ _ He). erewrite bind_run by done.
    mrun (on_link_run _ _ _ _ (heap_get_next _ _ _ _ (lh_rep _ _ Hl) (handlers_head _ _ Hl))). rewrite same_link.
    replace (match k1 ++ k2 with [] => early_suspend_handlers s | x :: _ => x end) with (hd (early_suspend_handlers s) (k1 ++ k2)) by (by destruct (k1 ++ k2)). mrun Hw.
    mrun (on_link_run _ _ _ _ Hadd). erewrite bind_run by done. unfold register_calls.
    destruct (negb (Z.land (state s) SUSPENDED =? 0)); cbn [andb]; [|done]. pose proof (hook_run suspend Suspend_call (add_call (Registered h) (set_link m s)) h e He) as Hc.
    rewrite Hc. f_equal. f_equal. exact (log_log [Registered h] (hook_calls suspend Suspend_call s [h]) (set_link m s)).
  - split.
    + split; [exact Hr|]. intros x Hx. cbn [handlers log set_link]. destruct (decide (x = h)) as [->|Hne]; [by exists e|]. apply (lh_known _ _ Hl). set_solver +Hx Hne.
    + intros x Hx. destruct (hv_cells _ _ _ Hv x Hx) as [Hax Hxh]. split; [|done]. by eapply insert_cells.
    + apply (insert_sorted s h k1 k2 H1 H2), Hv.
    + intros x. cbn [calls log set_link]. rewrite register_registered. pose proof (hv_reg _ _ _ Hv x) as Hx. destruct (Z.eqb_spec h x) as [->|Hne]; cbn [orb]; [set_solver +|]. rewrite Hx. set_solver +Hne.
    + intros x Hx Hin. cbn [calls log set_link]. rewrite (register_tracked s (k1 ++ k2) b h x Hv Hb Hn Hx). destruct (Z.eqb_spec h x) as [->|Hne]; [done|]. apply (hv_in _ _ _ Hv); [done|set_solver +Hin Hne].
    + intros x Hx Hin. cbn [calls log set_link]. rewrite (register_tracked s (k1 ++ k2) b h x Hv Hb Hn Hx). destruct (Z.eqb_spec h x) as [->|Hne]; [set_solver +Hin|]. apply (hv_out _ _ _ Hv); [done|set_solver +Hin].
Qed.

Lemma unregister_good s hs b h : hinv s hs b -> h ∈ hs -> exists m, let s' := log [Unregistered h] (set_link m s) in
  unregister_early_suspend h s = Some (tt, s') /\ hinv s' (filter (λ y, y <> h) hs) b.
Proof.
  intros Hv Hin. pose proof (hv_list _ _ _ Hv) as Hl. destruct (heap_del_any _ _ _ _ _ (lh_rep _ _ Hl) (handlers_head _ _ Hl) Hin) as (m & Hrun & Hr & _ & Ha).
  rewrite map_fmap_singleton in Hr. exists m. cbv zeta. split; [unfold unregister_early_suspend; by mrun (on_link_run _ _ _ _ Hrun)|]. split.
  - split; [exact Hr|]. intros x [_ Hx]%list_elem_of_filter. by apply (lh_known _ _ Hl).
  - intros x Hx. destruct (hv_cells _ _ _ Hv x Hx) as [Hax Hxh]. split; [by apply Ha|done].
  - apply sorted_filter, Hv.
  - intros x. cbn [calls log set_link]. rewrite unregistered_snoc, list_elem_of_filter. pose proof (hv_reg _ _ _ Hv x) as Hx. destruct (Z.eqb_spec h x) as [->|Hne]; cbn [negb andb]; [split; [done|by intros []]|]. rewrite Hx. by intuition.
  - intros x Hx [Hne Hx']%list_elem_of_filter. cbn [calls log set_link]. rewrite tracked_app, (hv_in _ _ _ Hv) by done. cbn. by rewrite (proj2 (Z.eqb_neq h x)).
  - intros x Hx Hno. cbn [calls log set_link]. rewrite tracked_app. rewrite list_elem_of_filter in Hno. cbn [foldl]. destruct (Z.eqb_spec h x) as [->|Hne].
    + rewrite (hv_in _ _ _ Hv) by done. cbn. by rewrite Z.eqb_refl.
    + rewrite (hv_out _ _ _ Hv); [|done|by intros ?; apply Hno]. cbn. by rewrite (proj2 (Z.eqb_neq h x)).
Qed.

(** ** The state and the work *)
Definition main_held s : Prop := held (wl s) WAKE_LOCK_SUSPEND false (main_wake_lock (wl s)).
(** What [state], the thread, its queue and [main_wake_lock] have to do with each other. *)
Record winv (st : Z) (p : thread_at) (q : list work) (H : Prop) : Prop := {
  wv_state : st = 0 \/ st = 1 \/ st = 2 \/ st = 3;
  wv_queue : NoDup q;
  wv_one : st = 1 -> Early_suspend_work ∈ q;
  wv_two : st = 2 -> Late_resume_work ∈ q;
  wv_awake : st <> 3 -> H;
  wv_three : st = 3 -> H -> Early_suspend_work ∈ q \/ p = Suspending \/ p = Finishing;
  wv_suspending : p = Suspending -> H /\ (st = 2 \/ st = 3);
  wv_resuming : p = Resuming -> st = 0 \/ st = 1;
}.
Record einv s hs : Prop := {
  ei_wl : inv (wl s);
  ei_own : NoDup (own_locks (wl s));
  ei_handlers : hinv s hs (suspended s);
  ei_work : winv (state s) (worker s) (queue s) (main_held s);
  ei_lock : early_suspend_lock s = match worker s with Suspending | Resuming => true | _ => false end;
  ei_dvfs : dvfs_fixed_by_rp s = false;
}.
Lemma winv_iff st p q H H' : (H' <-> H) -> winv st p q H -> winv st p q H'.
Proof. intros E [H1 H2 H3 H4 H5 H6 H7 H8]. split; intuition. Qed.

(** A step of the wake locks that does not name [main_wake_lock] changes nothing here. *)
Lemma wl_run s ev : inv (wl s) -> WakelockSys.event_ok (wl s) ev -> exists l, on_wl (WakelockSys.step ev) s = Some (tt, set_wl l s) /\ WakelockSys.step ev (wl s) = Some (tt, l) /\ inv l /\ base l = base (wl s).
Proof.
  intros Hi Hok. destruct (step_inv _ _ Hi Hok) as (l & Hrun & Hi'). exists l. split_and!; [by apply on_wl_run|done|done|]. by destruct (step_held _ _ _ 0 Hi Hok Hrun).
Qed.
Lemma base_main (l l' : wls W) : base l' = base l -> main_wake_lock l' = main_wake_lock l /\ own_locks l' = own_locks l.
Proof. unfold base, own_locks. by intros [= _ _ -> -> _ ->]. Qed.
Lemma wl_keep s hs ev : einv s hs -> WakelockSys.event_ok (wl s) ev -> ~ names (wl s) ev (main_wake_lock (wl s)) ->
  exists l, on_wl (WakelockSys.step ev) s = Some (tt, set_wl l s) /\ einv (set_wl l s) hs.
Proof.
  intros [H1 H2 H3 H4 H5 H6] Hok Hno. destruct (wl_run s ev H1 Hok) as (l & Hrun & Hrun' & Hi & Hb). exists l. split; [done|]. destruct (base_main _ _ Hb) as [Em Eo].
  split; [done|cbn; by rewrite Eo|exact (hinv_frame s (set_wl l s) hs _ eq_refl H3)| |done|done]. eapply winv_iff; [|exact H4]. unfold main_held. cbn [wl set_wl]. rewrite Em. by eapply step_held.
Qed.
Lemma main_ok s hs : einv s hs -> lock_has (wl s) WAKE_LOCK_INITIALIZED true (main_wake_lock (wl s)) /\ type_at (wl s) WAKE_LOCK_SUSPEND (main_wake_lock (wl s)).
Proof. intros H. apply own_ok; [apply H|]. set_solver +. Qed.
Lemma main_lock s hs : einv s hs -> exists l, wake_lock (main_wake_lock (wl s)) (wl s) = Some (tt, l) /\ inv l /\ base l = base (wl s) /\ main_held (set_wl l s).
Proof.
  intros H. destruct (main_ok s hs H) as [Hi Ht]. destruct (wl_run s (Lock (main_wake_lock (wl s))) (ei_wl _ _ H) Hi) as (l & Hrun & Hrun' & Hl & Hb). exists l. split_and!; [done..|].
  unfold main_held. cbn [wl set_wl]. destruct (base_main _ _ Hb) as [-> _]. destruct (step_held _ (Lock (main_wake_lock (wl s))) _ (main_wake_lock (wl s)) (ei_wl _ _ H) Hi Hrun') as (_ & HL & _). by apply HL.
Qed.
Lemma main_unlock s hs : einv s hs -> exists l, on_wl (wake_unlock (main_wake_lock (wl s))) s = Some (tt, set_wl l s) /\ inv l /\ base l = base (wl s) /\ ~ main_held (set_wl l s).
Proof.
  intros H. destruct (main_ok s hs H) as [Hi Ht]. destruct (wl_run s (Unlock (main_wake_lock (wl s))) (ei_wl _ _ H) Hi) as (l & Hrun & Hrun' & Hl & Hb). exists l. split_and!; [done..|].
  unfold main_held. cbn [wl set_wl]. destruct (base_main _ _ Hb) as [-> _]. destruct (step_held _ (Unlock (main_wake_lock (wl s))) _ (main_wake_lock (wl s)) (ei_wl _ _ H) Hi Hrun') as (_ & _ & HU & _). by apply HU.
Qed.

(** The number of steps that the thread has left, at most. *)
Definition todo s : nat := 3 * length (queue s) + match worker s with Idle => 0 | Suspending => 2 | Finishing => 1 | Resuming => 1 end.
Definition asked s : bool := negb (Z.land (state s) SUSPEND_REQUESTED =? 0).
(** What one step of the thread does. *)
Definition progress s hs s' : Prop := einv s' hs /\ asked s' = asked s /\ (todo s' < todo s)%nat.

(** *** The steps of the thread and the requests, on [winv] *)
Ltac work := intros; match goal with Hv : winv _ _ _ _ |- _ => destruct Hv as [W1 W2 W3 W4 W5 W6 W7 W8]; rewrite ?NoDup_cons in W2; rewrite ?elem_of_cons in *; split; try done; try (intros; subst); intuition (congruence || lia) end.
Lemma winv_begin_early q H : winv 1 Idle (Early_suspend_work :: q) H -> winv 3 Suspending q H. Proof. work. Qed.
Lemma winv_abort_early st q H : st <> 1 -> winv st Idle (Early_suspend_work :: q) H -> winv st Finishing q H. Proof. work. Qed.
Lemma winv_called st q H : winv st Suspending q H -> winv st Finishing q H. Proof. work. Qed.
Lemma winv_release q H H' : ~ H' -> winv 3 Finishing q H -> winv 3 Idle q H'. Proof. work. Qed.
Lemma winv_keep st q H : st <> 3 -> winv st Finishing q H -> winv st Idle q H. Proof. work. Qed.
Lemma winv_begin_late q H : winv 2 Idle (Late_resume_work :: q) H -> winv 0 Resuming q H. Proof. work. Qed.
Lemma winv_abort_late st q H : st <> 2 -> winv st Idle (Late_resume_work :: q) H -> winv st Idle q H. Proof. work. Qed.
Lemma winv_resumed st q H : winv st Resuming q H -> winv st Idle q H. Proof. work. Qed.
Definition queued (w : work) (q : list work) : list work := if bool_decide (w ∈ q) then q else q ++ [w].
Lemma elem_of_queued w v q : v ∈ queued w q <-> v = w \/ v ∈ q.
Proof. unfold queued. case_bool_decide; set_solver. Qed.
Lemma NoDup_queued w q : NoDup q -> NoDup (queued w q).
Proof. unfold queued. case_bool_decide; [done|]. intros. apply NoDup_app. split; [done|]. split; [set_solver|apply NoDup_singleton]. Qed.
Lemma winv_sleep st p q H : st = 0 \/ st = 2 -> winv st p q H -> winv (st + 1) p (queued Early_suspend_work q) H.
Proof.
  intros Hst [W1 W2 W3 W4 W5 W6 W7 W8]. split; rewrite ?elem_of_queued; [lia|by apply NoDup_queued|tauto|lia|intros; apply W5; lia|tauto| |]; intros Hp.
  - destruct (W7 Hp). split; [done|lia].
  - specialize (W8 Hp). lia.
Qed.
Lemma winv_wake st p q (H H' : Prop) : st = 1 \/ st = 3 -> H' -> winv st p q H -> winv (st - 1) p (queued Late_resume_work q) H'.
Proof.
  intros Hst HH [W1 W2 W3 W4 W5 W6 W7 W8]. split; rewrite ?elem_of_queued; [lia|by apply NoDup_queued|lia|tauto|done|lia| |]; intros Hp.
  - destruct (W7 Hp). split; [done|lia].
  - specialize (W8 Hp). lia.
Qed.

(** A state that differs in [state] and the work only. *)
Lemma einv_work s s' hs : einv s hs -> hview s' = hview s -> wl s' = wl s -> dvfs_fixed_by_rp s' = dvfs_fixed_by_rp s -> suspended s' = suspended s ->
  early_suspend_lock s' = match worker s' with Suspending | Resuming => true | _ => false end -> winv (state s') (worker s') (queue s') (main_held s) -> einv s' hs.
Proof.
  intros [H1 H2 H3 H4 H5 H6] Hv Ew Ed Es Hl Hw. split; [by rewrite Ew|by rewrite Ew| |unfold main_held; by rewrite Ew|done|by rewrite Ed]. rewrite Es. by apply (hinv_frame s).
Qed.
Lemma begin_early s hs q : einv s hs -> worker s = Idle -> queue s = Early_suspend_work :: q ->
  exists s', early_suspend_begin (set_work q (worker s) (early_suspend_lock s) s) = Some (tt, s') /\ progress s hs s'.
Proof.
  intros He Hw Hq. pose proof (ei_work _ _ He) as Hv. rewrite Hw, Hq in Hv. unfold early_suspend_begin. erewrite bind_run by done. cbn [state set_work].
  destruct (Z.eqb_spec (state s) SUSPEND_REQUESTED) as [E|E]; [erewrite bind_run by done|]; (eexists; split; [reflexivity|]; split; [|split; [|unfold todo; cbn; rewrite Hq, Hw; cbn; lia]]).
  - apply (einv_work s); try done; cbn; [unfold suspended; cbn; by rewrite Hw, E|]. rewrite E in *. by apply winv_begin_early.
  - unfold asked. cbn. by rewrite E.
  - apply (einv_work s); try done; cbn; [unfold suspended; cbn; by rewrite Hw|]. by apply winv_abort_early.
  - done.
Qed.
Lemma begin_late s hs q : einv s hs -> worker s = Idle -> queue s = Late_resume_work :: q ->
  exists s', late_resume_begin (set_work q (worker s) (early_suspend_lock s) s) = Some (tt, s') /\ progress s hs s'.
Proof.
  intros He Hw Hq. pose proof (ei_work _ _ He) as Hv. rewrite Hw, Hq in Hv. unfold late_resume_begin. erewrite bind_run by done. cbn [state set_work].
  destruct (Z.eqb_spec (state s) SUSPENDED) as [E|E]; [erewrite bind_run by done|]; (eexists; split; [reflexivity|]; split; [|split; [|unfold todo; cbn; rewrite Hq, Hw; cbn; lia]]).
  - apply (einv_work s); try done; cbn; [unfold suspended; cbn; by rewrite Hw, E|]. rewrite E in *. by apply winv_begin_late.
  - unfold asked. cbn. by rewrite E.
  - apply (einv_work s); try done; cbn; [unfold suspended; cbn; by rewrite Hw|]. by apply winv_abort_late.
  - done.
Qed.

Lemma call_early s hs : einv s hs -> worker s = Suspending -> exists s', early_suspend_call s = Some (tt, s') /\ progress s hs s' /\ calls s' = calls s ++ hook_calls suspend Suspend_call s hs.
Proof.
  intros [H1 H2 H3 H4 H5 H6] Hw. unfold suspended in H3. rewrite Hw in H3, H4. destruct (suspend_calls s hs H3) as (first & Hf & Hwalk & Hv). unfold early_suspend_call. erewrite bind_run by done. mrun Hf. mrun Hwalk.
  erewrite bind_run by done. eexists. split; [reflexivity|]. split; [|done]. split; [|split; [done|unfold todo; cbn; rewrite Hw; lia]].
  split; [exact H1|exact H2| | |done|exact H6].
  - eapply hinv_frame; [|destruct (wv_suspending _ _ _ _ H4 eq_refl) as [_ Hst]; unfold suspended; cbn; destruct Hst as [-> | ->]; exact Hv]. done.
  - by apply winv_called.
Qed.
Lemma call_late policy s hs : einv s hs -> worker s = Resuming -> exists s', late_resume_call policy s = Some (tt, s') /\ progress s hs s' /\ calls s' = calls s ++ hook_calls resume Resume_call s (rev hs).
Proof.
  intros [H1 H2 H3 H4 H5 H6] Hw. unfold suspended in H3. rewrite Hw in H3, H4. destruct (resume_calls s hs H3) as (last & Hf & Hwalk & Hv). unfold late_resume_call. erewrite bind_run by done. rewrite H6. cbn [andb].
  erewrite bind_run by done. mrun Hf. mrun Hwalk. eexists. split; [reflexivity|]. split; [|done]. split; [|split; [done|unfold todo; cbn; rewrite Hw; lia]].
  split; [exact H1|exact H2| | |done|exact H6].
  - eapply hinv_frame; [|destruct (wv_resuming _ _ _ _ H4 eq_refl) as [Hst | Hst]; unfold suspended; cbn; rewrite Hst; exact Hv]. done.
  - by apply winv_resumed.
Qed.
Lemma finish_early s hs : einv s hs -> worker s = Finishing -> exists s', early_suspend_end s = Some (tt, s') /\ progress s hs s'.
Proof.
  intros He Hw. pose proof (ei_work _ _ He) as Hv. pose proof (ei_lock _ _ He) as Hl. rewrite Hw in Hv, Hl. unfold early_suspend_end. erewrite bind_run by done.
  destruct (Z.eqb_spec (state s) SUSPEND_REQUESTED_AND_SUSPENDED) as [E|E].
  - destruct (main_unlock s hs He) as (l & Hrun & Hi & Hb & Hno). mrun Hrun. eexists. split; [reflexivity|]. split; [|split; [done|unfold todo; cbn; rewrite Hw; lia]].
    destruct He as [H1 H2 H3 H4 H5 H6]. destruct (base_main _ _ Hb) as [Em Eo]. split; [exact Hi|cbn; by rewrite Eo| | |done|exact H6].
    + apply (hinv_frame s); [done|]. unfold suspended in *. cbn. by rewrite Hw in H3.
    + cbn. rewrite E in *. by eapply winv_release.
  - erewrite bind_run by done. eexists. split; [reflexivity|]. split; [|split; [done|unfold todo; cbn; rewrite Hw; lia]].
    apply (einv_work s); try done; cbn; [unfold suspended; cbn; by rewrite Hw|by apply winv_keep].
Qed.
Lemma work_good policy s hs : einv s hs -> (todo s <> 0)%nat -> exists s', work_step policy s = Some (tt, s') /\ progress s hs s'.
Proof.
  intros He Ht. unfold work_step. erewrite bind_run by done. destruct (worker s) eqn:Hw.
  - destruct (queue s) as [|w q] eqn:Hq; [unfold todo in Ht; by rewrite Hw, Hq in Ht|]. erewrite bind_run by done. destruct w; [by apply begin_early|by apply begin_late].
  - destruct (call_early s hs He Hw) as (s' & ? & ? & _). by exists s'.
  - by apply finish_early.
  - destruct (call_late policy s hs He Hw) as (s' & ? & ? & _). by exists s'.
Qed.
Lemma work_idle policy s : todo s = 0%nat -> worker s = Idle /\ queue s = [] /\ work_step policy s = Some (tt, s).
Proof. unfold todo, work_step. intros H. erewrite bind_run by done. destruct (worker s), (queue s); cbn in H; try lia. done. Qed.

Lemma request_good st s hs : einv s hs -> exists s', request_suspend_state st s = Some (tt, s') /\ einv s' hs /\ asked s' = negb (st =? 0) /\ requested_suspend_state s' = st /\ calls s' = calls s.
Proof.
  intros He. pose proof (ei_work _ _ He) as Hv. pose proof (ei_lock _ _ He) as Hl. unfold request_suspend_state. erewrite bind_run by done. cbv zeta. change PM_SUSPEND_ON with 0.
  assert ((Z.land (state s) SUSPEND_REQUESTED =? 0) = negb (asked s)) as -> by (unfold asked; by rewrite negb_involutive). destruct (asked s) eqn:Ea, (Z.eqb_spec st 0) as [->|Hst]; cbn [negb andb].
  - destruct (main_lock s hs He) as (l & Hrun & Hi & Hb & Hheld). rewrite bind_assoc. erewrite bind_run by done. rewrite bind_assoc. erewrite bind_run by (by apply on_wl_run). erewrite bind_run by done.
    assert (state s = 1 \/ state s = 3) as Hs by (unfold asked in Ea; pose proof (wv_state _ _ _ _ Hv) as [E|[E|[E|E]]]; rewrite E in *; auto; done).
    eexists. split; [reflexivity|]. destruct He as [H1 H2 H3 H4 H5 H6]. destruct (base_main _ _ Hb) as [Em Eo]. split_and!; [|unfold asked; cbn; by destruct Hs as [-> | ->]|done|done].
    split; [exact Hi|cbn; by rewrite Eo| |cbn|exact H5|exact H6].
    + apply (hinv_frame s); [done|]. unfold suspended in *. cbn. destruct (worker s); try exact H3; destruct Hs as [Hs | Hs]; rewrite Hs in *; exact H3.
    + replace (Z.land (state s) (Z.lnot SUSPEND_REQUESTED)) with (state s - 1) by (by destruct Hs as [-> | ->]). by eapply winv_wake.
  - eexists. split; [reflexivity|]. split_and!; [|done|done|done]. by apply (einv_work s).
  - eexists. split; [reflexivity|]. split_and!; [|done|done|done]. by apply (einv_work s).
  - assert (state s = 0 \/ state s = 2) as Hs by (unfold asked in Ea; pose proof (wv_state _ _ _ _ Hv) as [E|[E|[E|E]]]; rewrite E in *; auto; done).
    rewrite bind_assoc. do 2 (erewrite bind_run by done). eexists. split; [reflexivity|]. split_and!; [|unfold asked; cbn; by destruct Hs as [-> | ->]|done|done]. apply (einv_work s); try done; cbn.
    + unfold suspended. cbn. destruct (worker s); try done; by destruct Hs as [-> | ->].
    + replace (Z.lor (state s) SUSPEND_REQUESTED) with (state s + 1) by (by destruct Hs as [-> | ->]). by apply winv_sleep.
Qed.
Lemma main_sync s hs : einv s hs -> sync_wake_lock (wl s) <> main_wake_lock (wl s).
Proof. intros He E. pose proof (ei_own _ _ He) as Hn. unfold own_locks in Hn. rewrite E in Hn. apply NoDup_cons in Hn as [Hn _]. set_solver +Hn. Qed.
Lemma sync_good s hs : einv s hs -> exists s', sync_system s = Some (tt, s') /\ einv s' hs.
Proof.
  intros He. pose proof (main_sync s hs He) as Hne. destruct (own_ok (wl s) (sync_wake_lock (wl s)) (ei_wl _ _ He)) as [Hi _]; [set_solver +|]. unfold sync_system. erewrite bind_run by done. destruct (sync_running s).
  - destruct (wl_keep s hs (Unlock (sync_wake_lock (wl s))) He Hi Hne) as (l & Hrun & He'). mrun Hrun. eexists. split; [reflexivity|]. apply (einv_work (set_wl l s)); try done; apply He'.
  - destruct (sync_queued s); [|by exists s]. erewrite bind_run by done.
    assert (einv (set_sync false true s) hs) as He1 by (apply (einv_work s); try done; apply He).
    destruct (wl_keep (set_sync false true s) hs (Lock (sync_wake_lock (wl s))) He1 Hi Hne) as (l & Hrun & He'). by eexists.
Qed.

Lemma step_einv s hs ev : einv s hs -> event_ok s ev -> exists s' hs', step ev s = Some (tt, s') /\ einv s' hs'.
Proof.
  intros He Hok. destruct ev; cbn [step event_ok] in *.
  - destruct Hok as (Hk & Hr & Hl). destruct He as [H1 H2 H3 H4 H5 H6]. assert (handler ∉ hs) as Hn by (rewrite <-(hv_reg _ _ _ H3); congruence). rewrite Hl in H5.
    destruct (register_good s hs (suspended s) handler H3 Hk Hn) as (m & k1 & k2 & Hrun & -> & Hv); [unfold suspended; by destruct (worker s)|].
    exists (log (register_calls s handler) (set_link m s)), (k1 ++ handler :: k2). split; [done|]. split; [exact H1|exact H2|exact Hv|exact H4|cbn; by rewrite Hl|exact H6].
  - destruct Hok as [Hr Hl]. destruct He as [H1 H2 H3 H4 H5 H6]. apply (hv_reg _ _ _ H3) in Hr. destruct (unregister_good s hs _ handler H3 Hr) as (m & Hrun & Hv).
    eexists _, _. split; [exact Hrun|]. by split.
  - destruct (request_good new_state s hs He) as (s' & ? & ? & _). by exists s', hs.
  - destruct (decide (todo s = 0%nat)) as [Ht|Ht]; [destruct (work_idle policy s Ht) as (_ & _ & ?); by exists s, hs|]. destruct (work_good policy s hs He Ht) as (s' & ? & ? & _). by exists s', hs.
  - destruct (sync_good s hs He) as (s' & ? & ?). by exists s', hs.
  - destruct Hok as [Hok Hno]. destruct (wl_keep s hs ev He Hok Hno) as (l & ? & ?). by exists (set_wl l s), hs.
Qed.
Lemma boot_einv s : boot s -> einv s [].
Proof.
  intros [H1 H2 (H3 & _ & H4) (H5 & H6 & H7 & _) H8 (s0 & n1 & n2 & n3 & n4 & Hb & N1 & N2 & N3 & N4 & Hi)].
  destruct (setup_run s0 n1 n2 n3 n4 Hb N1 N2 N3 N4) as (l & L & A & Hset & Hg & _ & _ & _ & [Hheld _] & Hbase & _). unfold wakelocks_init in Hi. rewrite (bind_run _ _ _ _ _ Hset) in Hi. injection Hi as ->.
  assert (main_held s) as Hm by (unfold main_held; by apply held_at). split; [by exists L, A| | | |by rewrite H6, H7|done].
  - destruct (base_main _ _ Hbase) as [_ ->]. by pose proof (bt_distinct _ Hb) as [_ ?]%NoDup_cons.
  - split; [split; [done|set_solver +]|done|constructor| | |]; rewrite H8; [set_solver +|set_solver +|done].
  - rewrite H3, H5, H6. split; try done; [lia|constructor].
Qed.
Lemma reach_einv s : reach s -> exists hs, einv s hs.
Proof.
  induction 1 as [s Hb|s ev s' _ [hs He] Hok Hrun]; [exists []; by apply boot_einv|]. destruct (step_einv s hs ev He Hok) as (s1 & hs1 & Hrun1 & He1). rewrite Hrun1 in Hrun. injection Hrun as <-. by exists hs1.
Qed.

Lemma todo_bound s hs : einv s hs -> (todo s <= 8)%nat.
Proof.
  intros He. unfold todo. assert (length (queue s) <= length [Early_suspend_work; Late_resume_work])%nat.
  { apply submseteq_length, NoDup_submseteq; [apply He|]. intros [] _; set_solver +. }
  cbn in *. destruct (worker s); lia.
Qed.
(** Steps of the thread, each with its result of [cpufreq_cpu_get]. *)
Fixpoint run_work (policies : list bool) : M (es W) unit :=
  match policies with [] => mret tt | policy :: policies => work_step policy ;; run_work policies end.
Lemma run_work_ends policies : forall s hs, einv s hs -> (todo s <= length policies)%nat ->
  exists s', run_work policies s = Some (tt, s') /\ einv s' hs /\ asked s' = asked s /\ todo s' = 0%nat.
Proof.
  induction policies as [|policy policies IH]; intros s hs He Ht; cbn [run_work length] in *.
  { exists s. split_and!; [done|done|done|lia]. }
  destruct (decide (todo s = 0%nat)) as [E|E].
  - destruct (work_idle policy s E) as (_ & _ & Hrun). mrun Hrun. apply IH; [done|lia].
  - destruct (work_good policy s hs He E) as (s1 & Hrun & He1 & Ha & Hlt). mrun Hrun. destruct (IH s1 hs He1) as (s2 & ? & ? & ? & ?); [lia|]. exists s2. by rewrite <-Ha.
Qed.
Lemma idle_state s hs : einv s hs -> todo s = 0%nat -> state s = (if asked s then 3 else 0) /\ (main_held s <-> asked s = false) /\ suspended s = asked s.
Proof.
  intros He Ht. destruct (work_idle true s Ht) as (Hw & Hq & _). destruct (ei_work _ _ He) as [W1 _ W3 W4 W5 W6 _ _]. rewrite Hw, Hq in *. unfold suspended, asked. rewrite Hw.
  destruct W1 as [E|[E|[E|E]]]; rewrite E in *; [|by destruct (not_elem_of_nil _ (W3 eq_refl))|by destruct (not_elem_of_nil _ (W4 eq_refl))|]; cbn.
  - split_and!; [done| |done]. split; [done|]. intros _. by apply W5.
  - split_and!; [done| |done]. split; [|done]. intros Hh. destruct (W6 eq_refl Hh) as [Hx%not_elem_of_nil|[|]]; done.
Qed.

(** ** Theorems *)
(** What the types of the variables do not say: [state] has two bits, the lock is taken exactly while the thread is about to call handlers, work is queued at most once; and
    [early_suspend_handlers] is a list, without a cycle, of the registered handlers, in the order of their levels. *)
Definition well_formed s : Prop :=
  0 <= state s <= 3 /\ early_suspend_lock s = (match worker s with Suspending | Resuming => true | _ => false end) /\ NoDup (queue s) /\
  exists hs, dlist (link s) (early_suspend_handlers s) hs /\ (forall h, h ∈ hs <-> registered h (calls s) = true) /\ StronglySorted (λ x y, level_of s x <= level_of s y) hs.

(** C30: All states that requests, registrations, the two threads and the wake locks lead to are well formed, and every step that is allowed in one of them finishes. *)
Theorem early_suspend_well_formed s : reach s -> well_formed s /\ forall ev, event_ok s ev -> exists s', step ev s = Some (tt, s') /\ reach s'.
Proof.
  intros Hs. destruct (reach_einv s Hs) as [hs He]. split.
  - destruct (ei_work _ _ He) as [Hst Hq _ _ _ _ _ _]. destruct (ei_handlers _ _ He) as [Hl _ Hso Hr _ _]. split_and!; [lia|lia|apply He|done|]. exists hs. split_and!; [|by intros h; rewrite Hr|done].
    eapply lr_dlist; [apply Hl|]. by eapply handlers_head.
  - intros ev Hok. destruct (step_einv s hs ev He Hok) as (s' & _ & Hrun & _). exists s'. split; [done|]. by eapply reach_step.
Qed.

(** C28: Each handler with both functions is suspended and resumed alternately, beginning with [suspend], and never called when it is not registered: what was called so far says that it is suspended exactly when [suspended] says so. This holds for handlers that are registered or unregistered while the system sleeps, and whatever the order of the requests. *)
Theorem handlers_alternate s h : reach s -> both s h -> tracked h (calls s) = Some (if registered h (calls s) then Some (suspended s) else None).
Proof.
  intros Hs Hb. destruct (reach_einv s Hs) as [hs He]. destruct (ei_handlers _ _ He) as [_ _ _ Hr Hin Hout]. specialize (Hr h). destruct (registered h (calls s)); [apply Hin; [done|by apply Hr]|].
  apply Hout; [done|]. intros Hx%Hr. done.
Qed.

(** The handlers that have one of the functions, in the order of their levels. *)
Definition by_level (f : early_suspend_s -> Z) s (l : list Z) : Prop :=
  NoDup l /\ StronglySorted (λ x y, level_of s x <= level_of s y) l /\ forall h, h ∈ l <-> registered h (calls s) = true /\ hook f s h <> 0.
Lemma by_level_filter f s hs : einv s hs -> by_level f s (filter (λ h, hook f s h <> 0) hs).
Proof.
  intros He. destruct (ei_handlers _ _ He) as [Hl _ Hso Hr _ _]. split_and!; [apply NoDup_filter; by pose proof (handlers_nodup _ _ Hl) as [_ ?]%NoDup_cons|by apply sorted_filter|].
  intros h. rewrite list_elem_of_filter, Hr. tauto.
Qed.
(** [early_suspend] calls the [suspend] function of every registered handler that has one, once, in the order of the levels; [late_resume] calls the [resume] functions in the opposite order. *)
Theorem handlers_in_order s : reach s ->
  (worker s = Suspending -> exists l s', early_suspend_call s = Some (tt, s') /\ by_level suspend s l /\ calls s' = calls s ++ (Suspend_call <$> l)) /\
  (worker s = Resuming -> forall policy, exists l s', late_resume_call policy s = Some (tt, s') /\ by_level resume s l /\ calls s' = calls s ++ (Resume_call <$> rev l)).
Proof.
  intros [hs He]%reach_einv. split; intros Hw.
  - destruct (call_early s hs He Hw) as (s' & Hrun & _ & Hc). exists (filter (λ h, hook suspend s h <> 0) hs), s'. split_and!; [done|by apply by_level_filter|done].
  - intros policy. destruct (call_late policy s hs He Hw) as (s' & Hrun & _ & Hc). exists (filter (λ h, hook resume s h <> 0) hs), s'. split_and!; [done|by apply by_level_filter|].
    rewrite Hc. unfold hook_calls. f_equal. f_equal. rewrite !rev_alt. apply filter_reverse.
Qed.

(** C8: A request takes effect. From any state, after a request and at most eight steps of [early_suspend] and [late_resume] all work is done, [state] is what was asked for, [main_wake_lock] is held exactly if that was to be awake, and all registered handlers (that have both functions) are suspended exactly if it was to sleep. *)
Theorem requests_settle s st policies : reach s -> (8 <= length policies)%nat -> exists s1 s2, request_suspend_state st s = Some (tt, s1) /\ run_work policies s1 = Some (tt, s2) /\
  worker s2 = Idle /\ queue s2 = [] /\ state s2 = (if st =? PM_SUSPEND_ON then 0 else SUSPEND_REQUESTED_AND_SUSPENDED) /\ (main_held s2 <-> st = PM_SUSPEND_ON) /\
  forall h, both s2 h -> registered h (calls s2) = true -> tracked h (calls s2) = Some (Some (negb (st =? PM_SUSPEND_ON))).
Proof.
  intros [hs He]%reach_einv Hlen. destruct (request_good st s hs He) as (s1 & Hrun1 & He1 & Ha & _). pose proof (todo_bound s1 hs He1). destruct (run_work_ends policies s1 hs He1) as (s2 & Hrun2 & He2 & Ha2 & Ht2); [lia|].
  destruct (work_idle true s2 Ht2) as (Hw & Hq & _). destruct (idle_state s2 hs He2 Ht2) as (Hst & Hm & Hsu). change PM_SUSPEND_ON with 0. rewrite Ha2, Ha in *. exists s1, s2. split_and!; try done.
  - rewrite Hst. by destruct (st =? 0).
  - rewrite Hm. destruct (Z.eqb_spec st 0); done.
  - intros h Hb Hr. rewrite <-Hsu. destruct (ei_handlers _ _ He2) as [_ _ _ Hreg Hin _]. apply Hin; [done|by apply Hreg].
Qed.

(** C27: The system suspends only after the handlers: whenever the work that suspends goes on, or the last callback before the machine stops lets it, sleep has been asked for and each registered handler (that has both functions) has been suspended and not resumed since. *)
Theorem suspend_after_handlers s h : reach s -> both s h -> registered h (calls s) = true ->
  (exists l', suspend_start (wl s) = Some (true, l')) \/ (exists l', power_suspend_late (wl s) = Some (0, l')) -> state s = SUSPEND_REQUESTED_AND_SUSPENDED /\ tracked h (calls s) = Some (Some true).
Proof.
  intros [hs He]%reach_einv Hb Hr Hs. assert (~ main_held s) as Hm.
  { destruct (ei_wl _ _ He) as (L & A & Hg). assert (free (wl s) A) as [Hno _]%(free_held _ L A (g_rep _ _ _ Hg)); [|apply Hno]. destruct Hs as [[l' Hs]|[l' Hs]].
    - destruct (start_good _ L A Hg) as (b & s' & L' & A' & Hrun & _ & Hiff & _). rewrite Hrun in Hs. injection Hs as -> _. by apply Hiff.
    - destruct (late_good _ L A Hg) as (r & s' & L' & A' & Hrun & _ & _ & Hiff & _). rewrite Hrun in Hs. injection Hs as -> _. by apply Hiff. }
  destruct (ei_work _ _ He) as [_ _ _ _ W5 _ W7 W8]. assert (state s = 3) as E by (destruct (decide (state s = 3)); [done|by destruct Hm; apply W5]). split; [done|].
  assert (suspended s = true) as <-; [|apply (ei_handlers _ _ He); [done|by apply (hv_reg _ _ _ (ei_handlers _ _ He))]]. unfold suspended. rewrite E in *. destruct (worker s); try done. by destruct W7.
Qed.
End system.

(** ** Examples *)
#[local] Existing Instance Countdown.
(** Two handlers, at 400 and 410. *)
Definition demo_es : es (Z * option Z) :=
  Es {[390 := ListHead 390 390; 400 := ListHead 0 0; 410 := ListHead 0 0]} {[400 := Handler 50 1 2; 410 := Handler 10 3 4]} 390 false 0 false PM_SUSPEND_MEM [] Idle false false [] demo_init.
Definition es_run (evs : list event) : es (Z * option Z) := foldl (λ s ev, match step ev s with Some (_, s') => s' | None => s end) demo_es evs.
Definition es_events : list event := [Register 400; Register 410; Request PM_SUSPEND_MEM; Work true; Work true; Work true; Request PM_SUSPEND_ON; Work true].

Lemma demo_es_boot : boot demo_es.
Proof.
  split; [apply lrep_check_ok; vm_compute; reflexivity| |done|done|done|].
  - assert (map_Forall (λ x _, bool_decide (is_Some (link demo_es !! x)) && negb (x =? 390) = true) (handlers demo_es)) as HF by (apply (bool_decide_unpack _); vm_compute; exact I).
    intros h [e He]. specialize (HF h e He). apply andb_prop in HF as [Ha%bool_decide_eq_true Hh]. split; [exact Ha|]. intros ->. done.
  - exists demo_boot, 1, 2, 3, 4. split_and!; [exact demo_locks_boot|done|done|done|done|]. exact (start_init _ demo_locks_boot).
Qed.
(** The rules for the steps above, as a function. *)
Definition event_okb (s : es (Z * option Z)) (ev : event) : bool :=
  match ev with
  | Register h => bool_decide (is_Some (handlers s !! h)) && negb (registered h (calls s)) && negb (early_suspend_lock s)
  | Unregister h => registered h (calls s) && negb (early_suspend_lock s)
  | Request _ | Work _ | Sync => true
  | Wl _ => false
  end.
Lemma event_okb_ok s ev : event_okb s ev = true -> event_ok s ev.
Proof.
  destruct ev; cbn; try done.
  - intros [[Hk%bool_decide_eq_true Hr%negb_true_iff]%andb_prop Hl%negb_true_iff]%andb_prop. done.
  - intros [Hr Hl%negb_true_iff]%andb_prop. done.
Qed.
Lemma es_step evs ev : reach (es_run evs) -> event_okb (es_run evs) ev = true -> bool_decide (is_Some (step ev (es_run evs))) = true -> reach (es_run (evs ++ [ev])).
Proof.
  intros Hr Hok [[[] s'] Hs]%bool_decide_eq_true. unfold es_run. rewrite foldl_app. cbn [foldl]. fold (es_run evs). rewrite Hs. eapply reach_step; [exact Hr|by apply event_okb_ok|exact Hs].
Qed.
Lemma es_reach n : reach (es_run (take n es_events)).
Proof.
  assert (forall k, (k < 8)%nat -> reach (es_run (take k es_events)) -> reach (es_run (take (S k) es_events))) as Hk.
  { intros k Hk Hr. destruct (es_events !! k) as [ev|] eqn:Ev; [|apply lookup_ge_None in Ev; cbn in Ev; lia]. rewrite (take_S_r _ _ ev Ev). apply es_step; [exact Hr| |].
    all: do 8 (destruct k as [|k]; [injection Ev as <-; vm_compute; reflexivity|]); lia. }
  induction n as [|n IH]; [exact (reach_boot _ demo_es_boot)|]. destruct (decide (n < 8)%nat) as [Hn|Hn]; [by apply Hk|]. rewrite take_ge in * by (cbn; lia). exact IH.
Qed.

Lemma early_suspend_well_formed_witness : exists s', step (Unregister 400) (es_run (take 6 es_events)) = Some (tt, s') /\ reach s'.
Proof. destruct (early_suspend_well_formed (es_run (take 6 es_events)) (es_reach 6)) as [_ H]. apply H, event_okb_ok. vm_compute. reflexivity. Defined.
Lemma handlers_alternate_witness : tracked 400 (calls (es_run es_events)) = Some (Some true).
Proof. assert (both (es_run es_events) 400) as Hb by (split; vm_compute; discriminate). pose proof (handlers_alternate (es_run es_events) 400 (es_reach 8) Hb) as H. vm_compute in H. vm_compute. exact H. Defined.
Lemma handlers_in_order_witness : exists s', early_suspend_call (es_run (take 4 es_events)) = Some (tt, s') /\ exists l, calls s' = [Registered 400; Registered 410] ++ (Suspend_call <$> l) /\ 410 ∈ l.
Proof.
  destruct (handlers_in_order (es_run (take 4 es_events)) (es_reach 4)) as [H _]. destruct H as (l & s' & Hrun & (_ & _ & Hl) & Hc); [vm_compute; reflexivity|]. exists s'. split; [exact Hrun|]. exists l. split; [exact Hc|].
  apply Hl. split; [vm_compute; reflexivity|vm_compute; discriminate].
Defined.
Lemma requests_settle_witness : exists s1 s2, request_suspend_state PM_SUSPEND_MEM (es_run es_events) = Some (tt, s1) /\ run_work (repeat true 8) s1 = Some (tt, s2) /\ state s2 = 3.
Proof.
  destruct (requests_settle (es_run es_events) PM_SUSPEND_MEM (repeat true 8) (es_reach 8)) as (s1 & s2 & H1 & H2 & _ & _ & H3 & _); [rewrite repeat_length; lia|]. exists s1, s2. split_and!; [exact H1|exact H2|exact H3].
Defined.
Lemma suspend_after_handlers_witness : tracked 410 (calls (es_run (take 6 es_events))) = Some (Some true).
Proof.
  assert (both (es_run (take 6 es_events)) 410) as Hb by (split; vm_compute; discriminate).
  destruct (suspend_after_handlers (es_run (take 6 es_events)) 410 (es_reach 6) Hb) as [_ H]; [vm_compute; reflexivity| |exact H]. left.
  destruct (suspend_start (wl (es_run (take 6 es_events)))) as [[b l]|] eqn:E.
  - exists l. assert (b = true) as ->; [|reflexivity]. apply (demo_result _ _ _ _ _ E). vm_compute. reflexivity.
  - assert (fst <$> suspend_start (wl (es_run (take 6 es_events))) = Some true) as E' by (vm_compute; reflexivity). rewrite E in E'. discriminate.
Defined.
End EarlySuspend.
