(* ===== verification/UserWakelock.v ===== *)
(** * Wake locks of user space

    kernel/power/userwakelock.c: the files wake_lock and wake_unlock of /sys/power.  A
    name written to the first takes a lock of that name, with a timeout in nanoseconds if
    one follows; a name written to the second releases it.  The locks are kept in a
    red-black tree in the order of their names.

    A string is the list of its bytes before the terminating 0, and a pointer into it is
    the rest of the list.  [kzalloc] gives the address [mem], or 0. *)
From stdpp Require Import prelude gmap list sorting.
From Stdlib Require Import ZArith Lia ZifyBool.
From S2P Require Import Prelude Time ListHead ListHeap Rbtree Ashmem Wakelock WakelockLive WakelockSys.
Open Scope Z_scope.

Module UserWakelock.
Import Time Wakelock WakelockLive WakelockSys.

(** ** Strings *)
Definition _U : Z := 1.
Definition _L : Z := 2.
Definition _D : Z := 4.
Definition _C : Z := 8.
Definition _P : Z := 16.
Definition _S : Z := 32.
Definition _X : Z := 64.
Definition _SP : Z := 128.
(** The table in runs of equal entries. *)
Definition _ctype : list Z := concat ((λ '(n, m), repeat m n) <$>
  [(9%nat, _C); (5%nat, Z.lor _C _S); (18%nat, _C); (1%nat, Z.lor _S _SP); (15%nat, _P); (10%nat, _D); (7%nat, _P); (6%nat, Z.lor _U _X); (20%nat, _U); (6%nat, _P);
   (6%nat, Z.lor _L _X); (20%nat, _L); (4%nat, _P); (1%nat, _C); (32%nat, 0); (1%nat, Z.lor _S _SP); (31%nat, _P); (23%nat, _U); (1%nat, _P); (7%nat, _U); (24%nat, _L); (1%nat, _P); (8%nat, _L)]).
Definition __ismask (c : Z) : Z := nth (Z.to_nat c) _ctype 0.
Definition isspace (c : Z) : bool := negb (Z.land (__ismask c) _S =? 0).
Definition isdigit (c : Z) : bool := negb (Z.land (__ismask c) _D =? 0).
Definition isxdigit (c : Z) : bool := negb (Z.land (__ismask c) (Z.lor _D _X) =? 0).
Definition TOLOWER (c : Z) : Z := Z.lor c 32.
Definition deref (p : list Z) : Z := match p with [] => 0 | c :: _ => c end.

Definition simple_guess_base (cp : list Z) : Z :=
  if deref cp =? 48 then if (TOLOWER (deref (drop 1 cp)) =? 120) && isxdigit (deref (drop 2 cp)) then 16 else 8 else 10.
Fixpoint strtoull_loop (base result : Z) (cp : list Z) : Z * list Z :=
  match cp with
  | [] => (result, cp)
  | c :: cp' =>
      if isxdigit c then
        let value := if isdigit c then c - 48 else TOLOWER c - 97 + 10 in
        if value >=? base then (result, cp) else strtoull_loop base (u64 (result * base + value)) cp'
      else (result, cp)
  end.
Definition simple_strtoull (cp : list Z) (base : Z) : Z * list Z :=
  let base := if base =? 0 then simple_guess_base cp else base in
  let cp := if (base =? 16) && (deref cp =? 48) && (TOLOWER (deref (drop 1 cp)) =? 120) then drop 2 cp else cp in
  strtoull_loop base 0 cp.
Fixpoint strncmp (cs ct : list Z) (count : nat) : Z :=
  match count with
  | O => 0
  | S count =>
      let c1 := deref cs in
      let c2 := deref ct in
      if negb (c1 =? c2) then if c1 <? c2 then -1 else 1
      else if c1 =? 0 then 0
      else strncmp (tail cs) (tail ct) count
  end.

(** ** The arguments *)
Fixpoint skip_name (arg : list Z) : nat * list Z :=
  match arg with
  | [] => (O, [])
  | c :: arg' => if (c =? 0) || isspace c then (O, arg) else let '(n, rest) := skip_name arg' in (S n, rest)
  end.
Fixpoint skip_spaces (arg : list Z) : list Z :=
  match arg with [] => [] | c :: arg' => if isspace c then skip_spaces arg' else arg end.
(** Nanoseconds to jiffies, as a [long]. *)
Definition timeout_jiffies (timeout : Z) : Z :=
  let timeout := u64 (timeout + (NSEC_PER_SEC `div` HZ - 1)) `div` (NSEC_PER_SEC `div` HZ) in
  s32 (if timeout <=? 0 then 1 else timeout).
(** The length of the name and the timeout; [None] is [bad_arg]. *)
Definition parse_args (buf : list Z) (timeoutptr : bool) : option (nat * Z) :=
  let '(name_len, arg) := skip_name buf in
  if Nat.eqb name_len 0 then None
  else
    let arg := skip_spaces arg in
    if timeoutptr && negb (deref arg =? 0) then
      let '(timeout, arg) := simple_strtoull arg 0 in
      let arg := skip_spaces arg in
      if negb (deref arg =? 0) then None else Some (name_len, timeout_jiffies timeout)
    else if negb (deref arg =? 0) then None
    else Some (name_len, 0).

(** ** Data *)
Record uwl (W : Type) := Uwl {
  user_wake_locks : rb_state;
  lock_name : gmap Z (list Z);
  wl : wls W;
}.
Arguments Uwl {_}. Arguments user_wake_locks {_}. Arguments lock_name {_}. Arguments wl {_}.
(** The members of [struct user_wake_lock] at an address: [wake_lock] and [name]. *)
Definition wake_lock_of (l : Z) : Z := l + 16.
Definition name_of (l : Z) : Z := l + 88.

Section ops.
Context {W : Type} `{!ExpireTimer W}.
Implicit Types (s : uwl W).
Abbreviation UM := (M (uwl W)).

Definition set_tree (t : rb_state) s : uwl W := Uwl t (lock_name s) (wl s).
Definition set_wl (l : wls W) s : uwl W := Uwl (user_wake_locks s) (lock_name s) l.
Definition on_tree {A} (f : M rb_state A) : UM A := λ s, match f (user_wake_locks s) with Some (a, t) => Some (a, set_tree t s) | None => None end.
Definition on_wl {A} (f : M (wls W) A) : UM A := λ s, match f (wl s) with Some (a, l) => Some (a, set_wl l s) | None => None end.
Definition load_name (l : Z) : UM (list Z) := λ s, match lock_name s !! l with Some nm => Some (nm, s) | None => None end.

(** ** [lookup_wake_lock_name] *)
Definition lookup_diff (buf : list Z) (name_len : nat) (nm : list Z) : Z :=
  let diff := strncmp buf nm name_len in if (diff =? 0) && negb (deref (drop name_len nm) =? 0) then -1 else diff.
(** The lock of the name, or the place for it. *)
Fixpoint lookup_loop (fuel : nat) (buf : list Z) (name_len : nat) (parent : Z) (link : rb_link) (p : Z) : UM (Z + Z * rb_link) :=
  match fuel with
  | O => oops
  | S fuel =>
      if p =? 0 then mret (inr (parent, link))
      else
        n ← on_tree (load p);
        nm ← load_name p;
        let diff := lookup_diff buf name_len nm in
        if diff <? 0 then lookup_loop fuel buf name_len p (LinkLeft p) (rb_left n)
        else if diff >? 0 then lookup_loop fuel buf name_len p (LinkRight p) (rb_right n)
        else mret (inl p)
  end.
(** A new lock, all zero, with its name. *)
Definition zero_wake_lock : wake_lock_s := WakeLock 0 0 0 (LockStat 0 0 0 0 0 0 0).
Definition zero_lock_at (x : Z) (l : wls W) : wls W := set_lists (<[x := ListHead 0 0]> (lists l)) (set_locks (<[x := zero_wake_lock]> (locks l)) l).
Definition new_lock (buf : list Z) (name_len : nat) (parent : Z) (link : rb_link) (mem : Z) : UM (Z + Z) :=
  if mem =? 0 then mret (inl (- ENOMEM))
  else
    modify (λ s, Uwl (user_wake_locks s) (<[mem := take name_len buf]> (lock_name s)) (zero_lock_at (wake_lock_of mem) (wl s))) ;;
    on_wl (wake_lock_init (wake_lock_of mem) WAKE_LOCK_SUSPEND (name_of mem)) ;;
    on_tree (rb_link_node mem parent link) ;;
    on_tree (rb_insert_color mem) ;;
    mret (inr mem).
(** An error, or the lock and the timeout. *)
Definition lookup_wake_lock_name (buf : list Z) (allocate timeoutptr : bool) (mem : Z) : UM (Z + Z * Z) :=
  match parse_args buf timeoutptr with
  | None => mret (inl (- EINVAL))
  | Some (name_len, timeout) =>
      s ← get;
      r ← lookup_loop (S (size (nodes (user_wake_locks s)))) buf name_len 0 LinkRoot (root (user_wake_locks s));
      match r with
      | inl l => mret (inr (l, timeout))
      | inr (parent, link) =>
          if negb allocate then mret (inl (- EINVAL))
          else
            r ← new_lock buf name_len parent link mem;
            match r with inl e => mret (inl e) | inr l => mret (inr (l, timeout)) end
      end
  end.

(** ** The files *)
Definition wake_lock_store (buf : list Z) (n mem : Z) : UM Z :=
  r ← lookup_wake_lock_name buf true true mem;
  match r with
  | inl e => mret e
  | inr (l, timeout) =>
      (if negb (timeout =? 0) then on_wl (wake_lock_timeout (wake_lock_of l) timeout) else on_wl (wake_lock (wake_lock_of l))) ;;
      mret n
  end.
Definition wake_unlock_store (buf : list Z) (n : Z) : UM Z :=
  r ← lookup_wake_lock_name buf false false 0;
  match r with
  | inl e => mret e
  | inr (l, _) => on_wl (wake_unlock (wake_lock_of l)) ;; mret n
  end.
(** [scnprintf] of a string into the rest of the page after [out]; one byte is left for
    the 0. *)
Definition scnprintf (out str : list Z) : list Z := out ++ take (Z.to_nat Ashmem.PAGE_SIZE - length out - 1) str.
Fixpoint show_loop (fuel : nat) (active : bool) (n : Z) (out : list Z) : UM (list Z) :=
  match fuel with
  | O => oops
  | S fuel =>
      if n =? 0 then mret out
      else
        a ← on_wl (wake_lock_active (wake_lock_of n));
        out ← (if eqb a active then nm ← load_name n; mret (scnprintf out (nm ++ [32])) else mret out);
        next ← on_tree (rb_next n);
        show_loop fuel active next out
  end.
Definition show (active : bool) : UM (list Z) :=
  first ← on_tree rb_first;
  s ← get;
  out ← show_loop (S (size (nodes (user_wake_locks s)))) active first [];
  mret (scnprintf out [10]).
Definition wake_lock_show : UM (list Z) := show true.
Definition wake_unlock_show : UM (list Z) := show false.
End ops.

(** ** The order of names *)
Fixpoint lexcmp (a b : list Z) : Z :=
  match a, b with
  | [], [] => 0
  | [], _ :: _ => -1
  | _ :: _, [] => 1
  | x :: a, y :: b => if x <? y then -1 else if y <? x then 1 else lexcmp a b
  end.
Lemma lexcmp_anti a : forall b, lexcmp b a = - lexcmp a b.
Proof. induction a as [|x a IH]; intros [|y b]; try done. cbn. destruct (Z.ltb_spec x y), (Z.ltb_spec y x); try lia. by rewrite IH. Qed.
Lemma lexcmp_eq a : forall b, lexcmp a b = 0 <-> a = b.
Proof.
  induction a as [|x a IH]; intros [|y b]; cbn; try done. destruct (Z.ltb_spec x y), (Z.ltb_spec y x); try lia; [split; [lia|]; intros [= -> ->]; lia|split; [lia|]; intros [= -> ->]; lia|].
  rewrite IH. assert (x = y) as -> by lia. split; [by intros ->|by intros [= ->]].
Qed.
Lemma lexcmp_range a : forall b, lexcmp a b = -1 \/ lexcmp a b = 0 \/ lexcmp a b = 1.
Proof. induction a as [|x a IH]; intros [|y b]; cbn; auto. destruct (x <? y), (y <? x); auto. Qed.
Lemma lexcmp_trans a : forall b c, lexcmp a b = -1 -> lexcmp b c = -1 -> lexcmp a c = -1.
Proof.
  induction a as [|x a IH]; intros [|y b] [|z c]; cbn; try done. destruct (Z.ltb_spec x y), (Z.ltb_spec y x), (Z.ltb_spec y z), (Z.ltb_spec z y), (Z.ltb_spec x z), (Z.ltb_spec z x); try lia; try done.
  apply IH.
Qed.
(** Names have no 0 byte. *)
Definition nonzero (nm : list Z) : Prop := Forall (λ c, 0 < c) nm.
Lemma lookup_diff_lex nm : forall rest nm', nonzero nm -> nonzero nm' -> lookup_diff (nm ++ rest) (length nm) nm' = lexcmp nm nm'.
Proof.
  unfold lookup_diff. cbv zeta. induction nm as [|x nm IH]; intros rest [|y nm'] H1 H2; cbn [length strncmp lexcmp app deref tail drop].
  - done.
  - rewrite Z.eqb_refl. cbn [andb]. apply Forall_cons in H2 as [H2 _]. by rewrite (proj2 (Z.eqb_neq y 0)) by lia.
  - apply Forall_cons in H1 as [H1 _]. rewrite (proj2 (Z.eqb_neq x 0)) by lia. cbn [negb]. rewrite (proj2 (Z.ltb_ge x 0)) by lia. done.
  - apply Forall_cons in H1 as [H1 H1']. apply Forall_cons in H2 as [H2 H2']. destruct (Z.eqb_spec x y) as [->|Hne]; cbn [negb].
    + rewrite (proj2 (Z.eqb_neq y 0)) by lia. rewrite Z.ltb_irrefl. by apply IH.
    + destruct (Z.ltb_spec x y); [done|]. by rewrite (proj2 (Z.ltb_lt y x)) by lia.
Qed.

(** ** The arguments *)
Lemma skip_name_split buf : let '(n, rest) := skip_name buf in buf = take n buf ++ rest /\ length (take n buf) = n /\ Forall (λ c, c <> 0 /\ isspace c = false) (take n buf).
Proof.
  induction buf as [|c buf IH]; [done|]. cbn. destruct (Z.eqb_spec c 0) as [|Hc]; cbn [orb]; [done|]. destruct (isspace c) eqn:Es; [done|]. destruct (skip_name buf) as [n rest]. destruct IH as (H1 & H2 & H3).
  cbn. split_and!; [by f_equal|by f_equal|by constructor].
Qed.
Definition bytes (buf : list Z) : Prop := Forall (λ c, 0 <= c) buf.
(** The name that a string begins with. *)
Definition name_in (buf : list Z) : list Z := take (skip_name buf).1 buf.
Lemma parse_args_name buf tp n t : bytes buf -> parse_args buf tp = Some (n, t) -> exists rest, buf = name_in buf ++ rest /\ length (name_in buf) = n /\ name_in buf <> [] /\ nonzero (name_in buf) /\ take n buf = name_in buf.
Proof.
  intros Hb. unfold parse_args, name_in. pose proof (skip_name_split buf) as Hs. destruct (skip_name buf) as [k rest]. destruct Hs as (H1 & H2 & H3). cbn [fst].
  destruct (Nat.eqb_spec k 0) as [|Hk]; [done|]. intros Hp. assert (n = k) as ->.
  { destruct (tp && negb (deref (skip_spaces rest) =? 0)); [destruct (simple_strtoull (skip_spaces rest) 0) as [v r]; cbv zeta in Hp; destruct (negb (deref (skip_spaces r) =? 0)); congruence|].
    destruct (negb (deref (skip_spaces rest) =? 0)); congruence. }
  exists rest. split_and!; [done|done|intros E; rewrite E in H2; cbn in H2; lia| |done].
  rewrite H1 in Hb. apply Forall_app in Hb as [Hb _]. unfold nonzero. rewrite Forall_forall in *. intros c Hc. specialize (H3 c Hc). specialize (Hb c Hc). lia.
Qed.

(** ** The tree *)
Section tree.
Context {W : Type} `{!ExpireTimer W}.
Implicit Types (s : uwl W) (x y : Z) (l : list Z) (k : ctx) (t : tree).

Definition nm_of s x : list Z := default [] (lock_name s !! x).
Definition name_lt s x y : Prop := lexcmp (nm_of s x) (nm_of s y) = -1.
Definition named s x : Prop := is_Some (lock_name s !! x) /\ nonzero (nm_of s x).

Lemma user_tree_run {A : Type} (f : M rb_state A) s a st : f (user_wake_locks s) = Some (a, st) -> on_tree f s = Some (a, set_tree st s).
Proof. intros H. unfold on_tree. by rewrite H. Qed.
Lemma same_tree s : set_tree (user_wake_locks s) s = s.
Proof. by destruct s. Qed.
Lemma user_wl_run {A : Type} (f : M (wls W) A) s a w : f (wl s) = Some (a, w) -> on_wl f s = Some (a, set_wl w s).
Proof. intros H. unfold on_wl. by rewrite H. Qed.
Lemma load_name_run s x : named s x -> load_name x s = Some (nm_of s x, s).
Proof. intros [[nm E] _]. unfold load_name, nm_of. by rewrite E. Qed.
Lemma name_lt_trans s x y z : name_lt s x y -> name_lt s y z -> name_lt s x z.
Proof. apply lexcmp_trans. Qed.

(** The descent ends at the lock with the name, or at the hole between the smaller and the
    larger names. *)
Lemma lookup_loop_run nm rest s : nonzero nm -> forall fuel k t, zrep (user_wake_locks s) k t -> (length (inorder t) < fuel)%nat -> (forall y, y ∈ inorder t -> named s y) ->
  StronglySorted (name_lt s) (inorder t) -> (forall a, a ∈ cleft k -> lexcmp (nm_of s a) nm = -1) -> (forall b, b ∈ cright k -> lexcmp nm (nm_of s b) = -1) ->
  (exists y, y ∈ inorder t /\ nm_of s y = nm /\ lookup_loop fuel (nm ++ rest) (length nm) (cptr k) (link_of k) (tptr t) s = Some (inl y, s)) \/
  ((forall y, y ∈ inorder t -> nm_of s y <> nm) /\ exists k', lookup_loop fuel (nm ++ rest) (length nm) (cptr k) (link_of k) (tptr t) s = Some (inr (cptr k', link_of k'), s) /\
    zrep (user_wake_locks s) k' L /\ plug k' L = plug k t /\ (forall a, a ∈ cleft k' -> lexcmp (nm_of s a) nm = -1) /\ (forall b, b ∈ cright k' -> lexcmp nm (nm_of s b) = -1)).
Proof.
  intros Hnm. induction fuel as [|fuel IH]; intros k t Hz Hf Hna Hs HL HR; [lia|]. cbn [lookup_loop]. destruct t as [|c l y r].
  { right. split; [set_solver +|]. exists k. by split_and!. }
  destruct (zrep_valid _ _ _ _ _ _ Hz) as [_ Hy]. cbn [tptr]. rewrite (proj2 (Z.eqb_neq _ _) Hy). cbn [inorder] in Hf, Hs, Hna. rewrite length_app in Hf. cbn in Hf.
  apply StronglySorted_app in Hs as (H1 & H2 & H3). apply StronglySorted_cons in H3 as [H3 H4]. rewrite Forall_forall in H3.
  erewrite bind_run by (apply user_tree_run; by eapply zrep_load). rewrite same_tree. pose proof (Hna y ltac:(set_solver +)) as Hny. mrun (load_name_run s y Hny). cbv zeta. cbn [rb_left rb_right].
  rewrite lookup_diff_lex by (done || apply Hny). destruct (lexcmp_range nm (nm_of s y)) as [E|[E|E]]; rewrite E; cbn [Z.ltb Z.gtb Z.compare].
  - destruct (IH (Lf c y r :: k) l) as [(z & Hz' & En & Hrun)|(Hno & k' & Hrun & Hk)]; [by apply zdn_L|lia|intros; apply Hna; set_solver|done|done| | |].
    { cbn. intros b [->|[Hb|Hb]%elem_of_app]%elem_of_cons; [done|eapply lexcmp_trans; [exact E|by apply H3]|by apply HR]. }
    + left. exists z. split_and!; [cbn; set_solver +Hz'|done|done].
    + right. split; [|by exists k']. intros z Hin En. cbn in Hin. apply elem_of_app in Hin as [Hin|[->|Hin]%elem_of_cons]; [by eapply Hno| |].
      * apply lexcmp_eq in En. rewrite lexcmp_anti in En. lia.
      * assert (lexcmp nm (nm_of s z) = -1) as Hlt by (eapply lexcmp_trans; [exact E|by apply H3]). rewrite En, (proj2 (lexcmp_eq nm nm)) in Hlt by done. lia.
  - left. exists y. apply lexcmp_eq in E. split_and!; [cbn; set_solver +|done|done].
  - assert (lexcmp (nm_of s y) nm = -1) as E' by (rewrite lexcmp_anti; lia).
    destruct (IH (Rf c l y :: k) r) as [(z & Hz' & En & Hrun)|(Hno & k' & Hrun & Hk)]; [by apply zdn_R|lia|intros; apply Hna; set_solver|done| |done| |].
    { cbn. intros a Ha. rewrite !elem_of_app, list_elem_of_singleton in Ha. destruct Ha as [Ha|[Ha| ->]]; [by apply HL|eapply lexcmp_trans; [|exact E']; apply H1; [done|set_solver +]|done]. }
    + left. exists z. split_and!; [cbn; set_solver +Hz'|done|done].
    + right. split; [|by exists k']. intros z Hin En. cbn in Hin. apply elem_of_app in Hin as [Hin|[->|Hin]%elem_of_cons]; [| |by eapply Hno].
      * assert (lexcmp (nm_of s z) nm = -1) as Hlt by (eapply lexcmp_trans; [|exact E']; apply H1; [done|set_solver +]). rewrite En, (proj2 (lexcmp_eq nm nm)) in Hlt by done. lia.
      * apply lexcmp_eq in En. rewrite lexcmp_anti in En. lia.
Qed.

(** ** New memory *)
Implicit Types (w : wls W) (LL : heads) (A : view).
(** Nothing is at the address yet. *)
Definition unused w x : Prop := locks w !! x = None /\ lists w !! x = None.
Lemma zero_at w x ty a e y : unused w x -> lock_at w ty a e y -> lock_at (zero_lock_at x w) ty a e y.
Proof. intros [Hx _] (l & El & Hl). exists l. split; [|done]. cbn. rewrite lookup_insert_ne; [done|]. congruence. Qed.
Lemma zero_rep w LL A x : rep w LL A -> unused w x -> rep (zero_lock_at x w) LL A.
Proof.
  intros [H1 H2 H3 H4 H5 H6 H7 H8 H9 H10] Hu. pose proof (unowned_free _ _ _ H1 (proj2 Hu)) as Ho. split; cbn [lists set_lists set_locks zero_lock_at inactive_locks]; try done.
  - by apply heap_store.
  - intros y [l El]. cbn in El. apply lookup_insert_Some in El as [[<- _]|[Hne El]].
    + split; [unfold allocated; rewrite lookup_insert_eq; eauto|]. destruct (LL !! x) as [k|] eqn:E; [|done]. destruct (Ho x). exists k. split; [done|set_solver +].
    + destruct (H5 y) as [Ha HL]; [eauto|]. split; [|done]. unfold allocated. by rewrite lookup_insert_ne.
  - intros ty y Hty Hy. apply zero_at; auto.
  - intros ty y Hty Hy. apply zero_at; auto.
  - intros y Hy. destruct (H8 y Hy) as (ty & ? & ?). exists ty. split; [done|]. by apply zero_at.
  - intros y l El Hf. cbn in El. apply lookup_insert_Some in El as [[<- <-]|[_ El]]; [done|]. by eapply H9.
Qed.
Lemma zero_good w LL A x : good w LL A -> unused w x -> good (zero_lock_at x w) LL A.
Proof.
  intros [H1 H2 H3 H4] Hu. split; [by apply zero_rep| |done|].
  - eapply (live_trim w _ A A); [done| |done|done|done|exact H2]. intros y Hy. destruct (rp_timed_in _ _ _ H1 0 y ltac:(lia) Hy) as (l & El & _). unfold key. cbn. rewrite lookup_insert_ne; [done|]. destruct Hu. congruence.
  - destruct H4 as [[d Ed] K2]. destruct Hu as [Hx _]. split.
    + cbn. rewrite lookup_insert_ne by congruence. eauto.
    + intros y Hy. destruct (K2 y Hy) as [Hl (l & El & Hl')]. split; [done|]. exists l. cbn. rewrite lookup_insert_ne by congruence. done.
Qed.
Lemma zero_held w x ty e y : unused w x -> held (zero_lock_at x w) ty e y <-> held w ty e y.
Proof.
  intros [Hx _]. split; intros (l & El & H1 & H2 & H3 & H4).
  - cbn in El. apply lookup_insert_Some in El as [[<- <-]|[_ El]]; [done|]. by exists l.
  - exists l. cbn. rewrite lookup_insert_ne by congruence. done.
Qed.
Lemma zero_type w x ty y : unused w x -> type_at w ty y -> type_at (zero_lock_at x w) ty y.
Proof. intros [Hx _] (l & El & Hl). exists l. cbn. rewrite lookup_insert_ne by congruence. done. Qed.
Lemma zero_has w x b v y : unused w x -> lock_has w b v y -> lock_has (zero_lock_at x w) b v y.
Proof. intros [Hx _] (l & El & Hl). exists l. cbn. rewrite lookup_insert_ne by congruence. done. Qed.
End tree.

(** ** The invariant *)
Section system.
Context {W : Type} `{!ExpireTimer W}.
Implicit Types (s : uwl W) (w : wls W) (x y : Z) (l : list Z).

Record uok s l : Prop := {
  uo_tree : tree_ok (user_wake_locks s) l;
  uo_dom : forall x, is_Some (lock_name s !! x) <-> x ∈ l;
  uo_named : forall x, x ∈ l -> named s x;
  uo_sorted : StronglySorted (name_lt s) l;
  uo_wl : inv (wl s);
  uo_locks : forall x, x ∈ l -> lock_has (wl s) WAKE_LOCK_INITIALIZED true (wake_lock_of x) /\ type_at (wl s) WAKE_LOCK_SUSPEND (wake_lock_of x);
}.
(** A lock of the file is held without a timeout. *)
Definition held_at s x : Prop := held (wl s) WAKE_LOCK_SUSPEND false (wake_lock_of x).

Lemma of_inj x y : wake_lock_of x = wake_lock_of y -> x = y.
Proof. unfold wake_lock_of. lia. Qed.
Lemma sorted_names s l x y : StronglySorted (name_lt s) l -> x ∈ l -> y ∈ l -> nm_of s x = nm_of s y -> x = y.
Proof.
  intros Hs Hx Hy E. assert (~ name_lt s x y) as H1 by (unfold name_lt; rewrite E, (proj2 (lexcmp_eq _ _)); done). assert (~ name_lt s y x) as H2 by (unfold name_lt; rewrite E, (proj2 (lexcmp_eq _ _)); done).
  induction Hs as [|z l Hs IH Hz]; [set_solver +Hx|]. rewrite Forall_forall in Hz. apply elem_of_cons in Hx as [->|Hx], Hy as [->|Hy]; [done| | |by apply IH].
  - by destruct H1; apply Hz. - by destruct H2; apply Hz.
Qed.
(** A step of the wake locks on the locks of the tree. *)
Lemma uok_wl s l ev w : uok s l -> event_ok (wl s) ev -> step ev (wl s) = Some (tt, w) -> (forall x, x ∈ l -> ~ destroys ev (wake_lock_of x)) -> uok (set_wl w s) l.
Proof.
  intros [H1 H2 H3 H4 H5 H6] Hok Hrun Hd. split; [done|done|done|done| |].
  - destruct (step_inv _ _ H5 Hok) as (w1 & Hrun1 & Hi). rewrite Hrun1 in Hrun. by injection Hrun as <-.
  - intros x Hx. destruct (H6 x Hx). eapply step_lock; [exact H5|exact Hok|exact Hrun|by apply Hd|done|done].
Qed.
Lemma wl_step s ev : inv (wl s) -> event_ok (wl s) ev -> exists w, on_wl (step ev) s = Some (tt, set_wl w s) /\ step ev (wl s) = Some (tt, w).
Proof. intros Hi Hok. destruct (step_inv _ _ Hi Hok) as (w & Hrun & _). exists w. split; [by apply user_wl_run|done]. Qed.

Lemma nm_of_new s x nm t w y : y <> x -> nm_of (Uwl t (<[x := nm]> (lock_name s)) w) y = nm_of s y.
Proof. intros Hne. unfold nm_of. cbn. by rewrite lookup_insert_ne. Qed.
Lemma sorted_new s nm x t w k1 k2 : x ∉ k1 ++ k2 -> StronglySorted (name_lt s) (k1 ++ k2) -> (forall a, a ∈ k1 -> lexcmp (nm_of s a) nm = -1) -> (forall b, b ∈ k2 -> lexcmp nm (nm_of s b) = -1) ->
  StronglySorted (name_lt (Uwl t (<[x := nm]> (lock_name s)) w)) (k1 ++ x :: k2).
Proof.
  intros Hx (H1 & H2 & H3)%StronglySorted_app HL HR. set (s' := Uwl t _ w). assert (forall y, y ∈ k1 ++ k2 -> nm_of s' y = nm_of s y) as En by (intros y Hy; apply nm_of_new; by intros ->).
  assert (nm_of s' x = nm) as Ex by (unfold nm_of; cbn; by rewrite lookup_insert_eq).
  assert (forall k, (forall y, y ∈ k -> y ∈ k1 ++ k2) -> StronglySorted (name_lt s) k -> StronglySorted (name_lt s') k) as Hk.
  { intros k Hin Hs. induction Hs as [|z k Hs IH Hz]; [constructor|]. constructor; [apply IH; set_solver +Hin|]. rewrite Forall_forall in *. intros y Hy. unfold name_lt. rewrite !En by (apply Hin; set_solver +Hy). by apply Hz. }
  apply StronglySorted_app. split_and!.
  - intros a b Ha [->|Hb]%elem_of_cons; unfold name_lt; [rewrite Ex, En by set_solver +Ha; by apply HL|rewrite !En by set_solver +Ha Hb; by apply H1].
  - apply Hk; [set_solver +|done].
  - apply StronglySorted_cons. split; [|apply Hk; [set_solver +|done]]. apply Forall_forall. intros b Hb. unfold name_lt. rewrite Ex, En by set_solver +Hb. by apply HR.
Qed.

(** ** The operations *)
(** What is given to a write: a string of bytes, its length, and new memory, if there is
    any.  The timeout is below [2 ^ 30] jiffies. *)
Definition store_ok s (buf : list Z) (n mem : Z) : Prop :=
  bytes buf /\ 0 <= n /\ match parse_args buf true with Some (_, t) => - 2 ^ 30 <= t < 2 ^ 30 | None => True end /\
  (mem <> 0 -> valid mem /\ 0 < mem /\ lock_name s !! mem = None /\ unused (wl s) (wake_lock_of mem)).

Lemma new_lock_good s l buf nlen nm mem k : uok s l -> take nlen buf = nm -> nonzero nm -> mem <> 0 -> valid mem /\ 0 < mem /\ lock_name s !! mem = None /\ unused (wl s) (wake_lock_of mem) ->
  zrep (user_wake_locks s) k L -> is_rb (plug k L) -> inorder (plug k L) = l -> (forall a, a ∈ cleft k -> lexcmp (nm_of s a) nm = -1) -> (forall b, b ∈ cright k -> lexcmp nm (nm_of s b) = -1) ->
  exists s' l', new_lock buf nlen (cptr k) (link_of k) mem s = Some (inr mem, s') /\ uok s' l' /\ lock_name s' = <[mem := nm]> (lock_name s) /\
    ~ held_at s' mem /\ forall x, x <> mem -> held_at s' x <-> held_at s x.
Proof.
  intros [H1 H2 H3 H4 H5 H6] Enm Hnz H0 (Hv & Hpos & Hname & Hun) Hz Hrb Hin HL HR. unfold new_lock. rewrite (proj2 (Z.eqb_neq mem 0)) by done. erewrite bind_run by done. rewrite Enm.
  set (s1 := Uwl _ _ _). assert (inv (wl s1)) as Hi1 by (destruct H5 as (LL & A & Hg); exists LL, A; by apply zero_good).
  set (ev := Init (wake_lock_of mem) WAKE_LOCK_SUSPEND (name_of mem)). assert (event_ok (wl s1) ev) as Hok.
  { split; [|done]. exists zero_wake_lock. split; [cbn; apply lookup_insert_eq|]. split; [done|]. left. unfold name_of. lia. }
  destruct (wl_step s1 ev Hi1 Hok) as (w & Hrun & Hrun'). mrun Hrun. destruct (step_init _ _ _ _ _ Hi1 Hok Hrun') as (Hini & Hty & Hno).
  rewrite inorder_plug in Hin. cbn [inorder app] in Hin. assert (mem ∉ l) as Hml by (rewrite <-H2, Hname; by intros [? ?]). assert (mem ∉ cids k) as Hmk by (rewrite cids_perm, Hin; done).
  destruct (rb_link_node_run _ _ _ Hz Hv Hmk) as (t1 & Hr1 & Hz1). destruct (rb_insert_color_run _ _ _ Hz1 Hrb) as (t2 & t & Hr2 & Hz2 & Hrb2 & Hi2).
  mrun (user_tree_run _ (set_wl w s1) _ _ Hr1). mrun (user_tree_run _ (set_tree t1 (set_wl w s1)) _ _ Hr2). eexists _, (cleft k ++ mem :: cright k). split; [reflexivity|].
  assert (forall x, x ∈ l -> x <> mem) as Hne by (intros x Hx ->; done).
  assert (forall x, x <> mem -> held w WAKE_LOCK_SUSPEND false (wake_lock_of x) <-> held (wl s) WAKE_LOCK_SUSPEND false (wake_lock_of x)) as Hheld.
  { intros x Hx. destruct (step_held _ _ _ (wake_lock_of x) Hi1 Hok Hrun') as (_ & _ & _ & Hh). rewrite Hh; [by apply zero_held|]. cbn. intros E%of_inj. congruence. }
  split; [|split; [done|split; [apply Hno|exact Hheld]]]. change (uok (Uwl t2 (<[mem := nm]> (lock_name s)) w) (cleft k ++ mem :: cright k)). split; cbn [user_wake_locks lock_name wl].
  - exists t. by split_and!.
  - intros x. rewrite elem_of_app, elem_of_cons. destruct (decide (x = mem)) as [->|Hx]; [rewrite lookup_insert_eq; split; eauto|]. rewrite lookup_insert_ne, H2, <-Hin by done. set_solver +Hx.
  - intros x Hx. destruct (decide (x = mem)) as [->|Hxm]; [unfold named, nm_of; cbn; rewrite lookup_insert_eq; split; [eauto|done]|].
    unfold named. rewrite nm_of_new by done. cbn. rewrite lookup_insert_ne by done. apply H3. rewrite <-Hin. set_solver +Hx Hxm.
  - apply sorted_new; rewrite ?Hin; done.
  - destruct (step_inv _ _ Hi1 Hok) as (w1 & Hrun1 & Hi). rewrite Hrun1 in Hrun'. by injection Hrun' as <-.
  - intros x Hx. destruct (decide (x = mem)) as [->|Hxm]; [done|]. assert (x ∈ l) as Hxl by (rewrite <-Hin; set_solver +Hx Hxm). destruct (H6 x Hxl) as [Hhas Hta].
    eapply step_lock; [exact Hi1|exact Hok|exact Hrun'|done|by apply zero_has|by apply zero_type].
Qed.

(** What [lookup_wake_lock_name] returns when the arguments are well formed. *)
Definition found s buf t (r : option ((Z + Z * Z) * uwl W)) : Prop := exists y, lock_name s !! y = Some (name_in buf) /\ r = Some (inr (y, t), s).
Definition added s buf t mem (r : option ((Z + Z * Z) * uwl W)) : Prop := exists s' l', r = Some (inr (mem, t), s') /\ uok s' l' /\ lock_name s' = <[mem := name_in buf]> (lock_name s) /\
  ~ held_at s' mem /\ forall x, x <> mem -> held_at s' x <-> held_at s x.
Lemma lookup_good s l buf allocate tp mem n t : uok s l -> bytes buf -> parse_args buf tp = Some (n, t) ->
  (mem <> 0 -> valid mem /\ 0 < mem /\ lock_name s !! mem = None /\ unused (wl s) (wake_lock_of mem)) ->
  found s buf t (lookup_wake_lock_name buf allocate tp mem s) \/
  (forall y, lock_name s !! y <> Some (name_in buf)) /\
    if negb allocate then lookup_wake_lock_name buf allocate tp mem s = Some (inl (- EINVAL), s)
    else if mem =? 0 then lookup_wake_lock_name buf allocate tp mem s = Some (inl (- ENOMEM), s)
    else added s buf t mem (lookup_wake_lock_name buf allocate tp mem s).
Proof.
  intros Ho Hb Hp Hm. pose proof Ho as [(tr & Hz & Hrb & Hin) H2 H3 H4 H5 H6]. unfold lookup_wake_lock_name. rewrite Hp. erewrite bind_run by done. destruct (parse_args_name buf tp n t Hb Hp) as (rest & Eb & En & Hne & Hnz & Etk).
  assert (root (user_wake_locks s) = tptr tr) as -> by (by destruct Hz as [_ Hc _ _]). pose proof (zrep_fuel _ _ _ Hz) as Hfuel. rewrite Hin in Hfuel. cbn [length] in Hfuel.
  destruct (lookup_loop_run (name_in buf) rest s Hnz (S (size (nodes (user_wake_locks s)))) [] tr) as [(y & Hy & Eny & Hrun)|(Hno & k & Hrun & Hzk & Hpl & HL & HR)]; rewrite ?Hin; try done; [lia|set_solver +|set_solver +| |];
    rewrite <-Eb, En in Hrun; rewrite (bind_run _ _ _ _ _ Hrun).
  - left. rewrite Hin in Hy. exists y. split; [|done]. destruct (H3 y Hy) as [[nm E] _]. unfold nm_of in Eny. rewrite E in *. cbn in Eny. congruence.
  - right. split.
    { intros y E. apply (Hno y); [rewrite Hin; apply H2; eauto|]. unfold nm_of. by rewrite E. }
    destruct allocate; cbn [negb]; [|done]. destruct (Z.eqb_spec mem 0) as [->|H0]; [done|].
    destruct (new_lock_good s l buf n (name_in buf) mem k Ho Etk Hnz H0 (Hm H0) Hzk) as (s' & l' & Hnew & Ho' & Enm & Hnot & Hheld); [by rewrite Hpl|rewrite Hpl; exact Hin|done|done|].
    rewrite (bind_run _ _ _ _ _ Hnew). exists s', l'. by split_and!.
Qed.

Definition held_name s (nm : list Z) : Prop := exists x, lock_name s !! x = Some nm /\ held_at s x.
Definition known_name s (nm : list Z) : Prop := exists x, lock_name s !! x = Some nm.
Lemma name_unique s l x y nm : uok s l -> lock_name s !! x = Some nm -> lock_name s !! y = Some nm -> x = y.
Proof. intros [_ H2 _ H4 _ _] Ex Ey. eapply sorted_names; [exact H4|apply H2; eauto|apply H2; eauto|]. unfold nm_of. by rewrite Ex, Ey. Qed.

(** A step on one lock of the tree. *)
Lemma own_step s l ev x (h : Prop) : uok s l -> x ∈ l -> event_ok (wl s) ev -> (forall y, ~ destroys ev y) -> (forall y, names (wl s) ev y <-> wake_lock_of x = y) ->
  (forall w, step ev (wl s) = Some (tt, w) -> held w WAKE_LOCK_SUSPEND false (wake_lock_of x) <-> h) ->
  exists s', on_wl (step ev) s = Some (tt, s') /\ uok s' l /\ lock_name s' = lock_name s /\ (held_at s' x <-> h) /\ forall y, y <> x -> held_at s' y <-> held_at s y.
Proof.
  intros Ho Hx Hok Hd Hn Hh. destruct (wl_step s ev (uo_wl _ _ Ho) Hok) as (w & Hrun & Hrun'). exists (set_wl w s). split_and!; [done|by eapply uok_wl|done|by apply Hh|].
  intros y Hy. destruct (step_held _ _ _ (wake_lock_of y) (uo_wl _ _ Ho) Hok Hrun') as (_ & _ & _ & Hk). apply Hk. rewrite Hn. intros E%of_inj. congruence.
Qed.
Lemma lock_one s l x t : uok s l -> x ∈ l -> - 2 ^ 30 <= t < 2 ^ 30 ->
  exists s', (if negb (t =? 0) then on_wl (wake_lock_timeout (wake_lock_of x) t) else on_wl (wake_lock (wake_lock_of x))) s = Some (tt, s') /\
    uok s' l /\ lock_name s' = lock_name s /\ (held_at s' x <-> t = 0) /\ forall y, y <> x -> held_at s' y <-> held_at s y.
Proof.
  intros Ho Hx Ht. destruct (uo_locks _ _ Ho x Hx) as [Hi Hty]. destruct (Z.eqb_spec t 0) as [->|H0]; cbn [negb].
  - apply (own_step s l (Lock (wake_lock_of x)) x (0 = 0)); try done. intros w Hrun. destruct (step_held _ (Lock (wake_lock_of x)) _ (wake_lock_of x) (uo_wl _ _ Ho) Hi Hrun) as (_ & HL & _). split; [done|]. intros _. by apply HL.
  - apply (own_step s l (Lock_timeout (wake_lock_of x) t) x (t = 0)); try done. intros w Hrun. pose proof (step_timeout _ _ _ _ (uo_wl _ _ Ho) (conj Hi Ht) Hrun Hty). done.
Qed.
Lemma unlock_one s l x : uok s l -> x ∈ l -> exists s', on_wl (wake_unlock (wake_lock_of x)) s = Some (tt, s') /\
    uok s' l /\ lock_name s' = lock_name s /\ (held_at s' x <-> False) /\ forall y, y <> x -> held_at s' y <-> held_at s y.
Proof.
  intros Ho Hx. destruct (uo_locks _ _ Ho x Hx) as [Hi Hty].
  apply (own_step s l (Unlock (wake_lock_of x)) x False); try done. intros w Hrun. destruct (step_held _ (Unlock (wake_lock_of x)) _ (wake_lock_of x) (uo_wl _ _ Ho) Hi Hrun) as (_ & _ & HU & _). split; [|done]. by apply HU.
Qed.

Lemma held_names s s' l y nm0 (h : Prop) : uok s' l -> lock_name s' !! y = Some nm0 -> (forall x nm, nm <> nm0 -> lock_name s' !! x = Some nm <-> lock_name s !! x = Some nm) ->
  (held_at s' y <-> h) -> (forall x, x <> y -> held_at s' x <-> held_at s x) -> forall nm, held_name s' nm <-> if decide (nm = nm0) then h else held_name s nm.
Proof.
  intros Ho Ey En Hy Hx nm. destruct (decide (nm = nm0)) as [->|Hne].
  - rewrite <-Hy. split; [|by exists y]. intros (x & Ex & Hh). by rewrite <-(name_unique s' l x y nm0 Ho Ex Ey).
  - assert (forall x, lock_name s' !! x = Some nm -> x <> y) as Hxy by congruence. split; intros (x & Ex & Hh).
    + exists x. split; [by apply En|]. apply Hx; [by apply Hxy|done].
    + apply En in Ex; [|done]. exists x. split; [done|]. apply Hx; [by apply Hxy|done].
Qed.
Lemma known_in s l x nm : uok s l -> lock_name s !! x = Some nm -> x ∈ l.
Proof. intros Ho E. apply (uo_dom _ _ Ho). eauto. Qed.

(** A write to wake_lock that succeeds. *)
Definition locked s buf t s' : Prop := known_name s' (name_in buf) /\ forall nm, held_name s' nm <-> if decide (nm = name_in buf) then t = 0 else held_name s nm.
Lemma lock_store_good s l buf n mem : uok s l -> store_ok s buf n mem -> exists r s' l', wake_lock_store buf n mem s = Some (r, s') /\ uok s' l' /\
  match parse_args buf true with
  | None => r = - EINVAL /\ s' = s
  | Some (_, t) => (r = - ENOMEM /\ s' = s /\ mem = 0 /\ ~ known_name s (name_in buf)) \/ (r = n /\ (known_name s (name_in buf) \/ mem <> 0) /\ locked s buf t s')
  end.
Proof.
  intros Ho (Hb & Hn & Ht & Hm). unfold wake_lock_store. destruct (parse_args buf true) as [[k t]|] eqn:Hp.
  2: { erewrite bind_run by (unfold lookup_wake_lock_name; by rewrite Hp). by exists (- EINVAL), s, l. }
  destruct (lookup_good s l buf true true mem k t Ho Hb Hp Hm) as [(y & Ey & Hl)|[Hno Hl]]; [|cbn [negb] in Hl; destruct (Z.eqb_spec mem 0) as [->|H0]; [|destruct Hl as (s1 & l1 & Hl & Ho1 & En1 & Hnot & Hh1)]]; rewrite (bind_run _ _ _ _ _ Hl).
  - destruct (lock_one s l y t Ho (known_in _ _ _ _ Ho Ey) Ht) as (s' & Hrun & Ho' & En & Hy & Hx). mrun Hrun. exists n, s', l. split_and!; [done|done|]. right. split; [done|]. split; [left; by exists y|].
    split; [exists y; congruence|]. apply (held_names s s' l y); [done|congruence|by rewrite En|done|done].
  - exists (- ENOMEM), s, l. split_and!; [done|done|]. left. split_and!; try done. intros [y Ey]. by apply (Hno y).
  - assert (lock_name s1 !! mem = Some (name_in buf)) as Em by (rewrite En1; apply lookup_insert_eq).
    destruct (lock_one s1 l1 mem t Ho1 (known_in _ _ _ _ Ho1 Em) Ht) as (s' & Hrun & Ho' & En & Hy & Hx). mrun Hrun. exists n, s', l1. split_and!; [done|done|]. right. split; [done|]. split; [by right|].
    split; [exists mem; congruence|]. apply (held_names s s' l1 mem); [done|congruence| |done|intros x Hxm; rewrite Hx by done; by apply Hh1].
    intros x nm Hne. rewrite En, En1. destruct (decide (x = mem)) as [->|Hxm]; [|by rewrite lookup_insert_ne]. destruct (Hm H0) as (_ & _ & E0 & _). rewrite lookup_insert_eq, E0. split; [congruence|done].
Qed.
Lemma unlock_store_good s l buf n : uok s l -> bytes buf -> exists r s', wake_unlock_store buf n s = Some (r, s') /\ uok s' l /\
  ((r = - EINVAL /\ s' = s /\ (parse_args buf false = None \/ ~ known_name s (name_in buf))) \/
   (r = n /\ parse_args buf false <> None /\ known_name s (name_in buf) /\ forall nm, held_name s' nm <-> if decide (nm = name_in buf) then False else held_name s nm)).
Proof.
  intros Ho Hb. unfold wake_unlock_store. destruct (parse_args buf false) as [[k t]|] eqn:Hp.
  2: { erewrite bind_run by (unfold lookup_wake_lock_name; by rewrite Hp). exists (- EINVAL), s. split_and!; [done|done|]. left. by auto. }
  destruct (lookup_good s l buf false false 0 k t Ho Hb Hp) as [(y & Ey & Hl)|[Hno Hl]]; [done| |]; rewrite (bind_run _ _ _ _ _ Hl).
  - destruct (unlock_one s l y Ho (known_in _ _ _ _ Ho Ey)) as (s' & Hrun & Ho' & En & Hy & Hx). mrun Hrun. exists n, s'. split_and!; [done|done|]. right. split_and!; [done|done|by exists y|].
    apply (held_names s s' l y); [done|congruence|by rewrite En|done|done].
  - exists (- EINVAL), s. split_and!; [done|done|]. left. split_and!; [done|done|]. right. intros [y Ey]. by apply (Hno y).
Qed.

(** ** What user space asked for *)
(** Whether a string has a timeout, the timeout in nanoseconds, and its number of
    jiffies before it is cut to 32 bits. *)
Definition has_timeout (buf : list Z) : bool := negb (deref (skip_spaces (skip_name buf).2) =? 0).
Definition timeout_of (buf : list Z) : Z := (simple_strtoull (skip_spaces (skip_name buf).2) 0).1.
Definition jiffies_of (timeout : Z) : Z := u64 (timeout + 999999) `div` 1000000.
Lemma parse_timeout buf n t : parse_args buf true = Some (n, t) -> t = if has_timeout buf then timeout_jiffies (timeout_of buf) else 0.
Proof.
  unfold parse_args, timeout_of, has_timeout. destruct (skip_name buf) as [k rest]. cbn [fst snd]. destruct (Nat.eqb k 0); [done|]. cbn [andb]. destruct (negb (deref (skip_spaces rest) =? 0)).
  - destruct (simple_strtoull (skip_spaces rest) 0) as [v r]. cbv zeta. destruct (negb (deref (skip_spaces r) =? 0)); [done|]. by intros [= _ <-].
  - by intros [= _ <-].
Qed.
Lemma timeout_jiffies_0 timeout : timeout_jiffies timeout = 0 <-> 0 < jiffies_of timeout /\ jiffies_of timeout mod 2 ^ 32 = 0.
Proof.
  unfold timeout_jiffies. change (NSEC_PER_SEC `div` HZ) with 1000000. change (1000000 - 1) with 999999. fold (jiffies_of timeout). destruct (Z.leb_spec (jiffies_of timeout) 0).
  - split; [done|lia].
  - fold (u32 (jiffies_of timeout)). rewrite <-(s32_u32 (jiffies_of timeout)). pose proof (u32_range (jiffies_of timeout)). unfold s32. rewrite (u32_small (u32 _)) by done.
    destruct (Z.ltb_spec (u32 (jiffies_of timeout)) (2 ^ 31)); lia.
Qed.

Inductive action := Hold | Hold_for (timeout : Z) | Release.
Definition lock_action (buf : list Z) : action := if has_timeout buf then Hold_for (timeout_of buf) else Hold.
(** The actions that take a lock without a timeout: those without one, and those whose number of jiffies is cut to 0. *)
Definition forever (a : action) : Prop := match a with Hold => True | Hold_for timeout => 0 < jiffies_of timeout /\ jiffies_of timeout mod 2 ^ 32 = 0 | Release => False end.
Lemma lock_action_forever buf n t : parse_args buf true = Some (n, t) -> t = 0 <-> forever (lock_action buf).
Proof. intros ->%parse_timeout. unfold lock_action. destruct (has_timeout buf); [apply timeout_jiffies_0|done]. Qed.
(** The writes that succeeded, with the names. *)
Inductive reach : uwl W -> list (list Z * action) -> Prop :=
  | reach_start s : WakelockSys.reach (wl s) -> lock_name s = ∅ -> root (user_wake_locks s) = 0 -> reach s []
  | reach_lock s tr buf n mem r s' : reach s tr -> store_ok s buf n mem -> wake_lock_store buf n mem s = Some (r, s') -> reach s' (if r <? 0 then tr else tr ++ [(name_in buf, lock_action buf)])
  | reach_unlock s tr buf n r s' : reach s tr -> bytes buf -> 0 <= n -> wake_unlock_store buf n s = Some (r, s') -> reach s' (if r <? 0 then tr else tr ++ [(name_in buf, Release)])
  | reach_wl s tr ev s' : reach s tr -> event_ok (wl s) ev -> (forall x, is_Some (lock_name s !! x) -> ~ names (wl s) ev (wake_lock_of x)) -> on_wl (step ev) s = Some (tt, s') -> reach s' tr.
Definition last_action (nm : list Z) (tr : list (list Z * action)) : option action := foldl (λ acc '(nm', a), if decide (nm' = nm) then Some a else acc) None tr.
Lemma last_snoc_action nm tr nm' a : last_action nm (tr ++ [(nm', a)]) = if decide (nm' = nm) then Some a else last_action nm tr.
Proof. unfold last_action. by rewrite foldl_app. Qed.

Lemma start_uok s : inv (wl s) -> lock_name s = ∅ -> root (user_wake_locks s) = 0 -> uok s [].
Proof.
  intros Hi Hn Hr. split; [|intros x; rewrite Hn, lookup_empty; split; [by intros [? ?]|set_solver +]|set_solver +|constructor|done|set_solver +].
  exists L. split_and!; [|by exists 0%nat; constructor|done]. destruct (user_wake_locks s) as [nds rt]. cbn in Hr. subst rt. by repeat constructor.
Qed.
Lemma destroys_names w ev x : destroys ev x -> names w ev x.
Proof. by intros ->. Qed.
Lemma reach_uok s tr : reach s tr -> (exists l, uok s l) /\ forall nm, held_name s nm <-> exists a, last_action nm tr = Some a /\ forever a.
Proof.
  induction 1 as [s Hs Hn Hr|s tr buf n mem r s' _ [[l Ho] IH] Hok Hrun|s tr buf n r s' _ [[l Ho] IH] Hb Hn Hrun|s tr ev s' _ [[l Ho] IH] Hok Hno Hrun].
  - split; [exists []; apply start_uok; [by apply reach_inv|done|done]|]. intros nm. split; [intros (x & Ex & _); by rewrite Hn, lookup_empty in Ex|by intros (a & ? & _)].
  - destruct (lock_store_good s l buf n mem Ho Hok) as (r1 & s1 & l1 & Hrun1 & Ho1 & Hres). rewrite Hrun1 in Hrun. injection Hrun as <- <-. split; [by exists l1|]. intros nm. destruct Hok as (_ & Hn & _ & _).
    destruct (parse_args buf true) as [[k t]|] eqn:Hp; [|destruct Hres as [-> ->]; apply IH]. destruct Hres as [(-> & -> & _)|(-> & _ & _ & Hh)]; [apply IH|].
    rewrite (proj2 (Z.ltb_ge n 0)), last_snoc_action, Hh by done. destruct (decide (nm = name_in buf)) as [->|Hne]; [rewrite decide_True by done|by rewrite decide_False by congruence].
    rewrite (lock_action_forever _ _ _ Hp). naive_solver.
  - destruct (unlock_store_good s l buf n Ho Hb) as (r1 & s1 & Hrun1 & Ho1 & Hres). rewrite Hrun1 in Hrun. injection Hrun as <- <-. split; [by exists l|]. intros nm.
    destruct Hres as [(-> & -> & _)|(-> & _ & _ & Hh)]; [apply IH|]. rewrite (proj2 (Z.ltb_ge n 0)), last_snoc_action, Hh by done.
    destruct (decide (nm = name_in buf)) as [->|Hne]; [rewrite decide_True by done; naive_solver|by rewrite decide_False by congruence].
  - destruct (wl_step s ev (uo_wl _ _ Ho) Hok) as (w & Hrun1 & Hrun'). rewrite Hrun1 in Hrun. injection Hrun as <-.
    assert (forall x, x ∈ l -> ~ names (wl s) ev (wake_lock_of x)) as Hno' by (intros x Hx; apply Hno; by apply (uo_dom _ _ Ho)).
    split; [exists l; eapply uok_wl; [done|done|done|]; intros x Hx Hd%(destroys_names (wl s)); by apply (Hno' x)|]. intros nm. rewrite <-IH.
    assert (forall x, lock_name s !! x = Some nm -> held_at (set_wl w s) x <-> held_at s x) as Hsame.
    { intros x Ex. destruct (step_held _ _ _ (wake_lock_of x) (uo_wl _ _ Ho) Hok Hrun') as (_ & _ & _ & Hk). apply Hk, Hno. eauto. }
    split; intros (x & Ex & Hh); exists x; (split; [done|]); by apply Hsame.
Qed.

(** ** The files read *)
Definition active_at s (b : bool) x : bool := match locks (wl s) !! wake_lock_of x with Some k => eqb (has_bits WAKE_LOCK_ACTIVE k) b | None => false end.
Definition page (full : list Z) : list Z := take (Z.to_nat Ashmem.PAGE_SIZE - 1) full.
Lemma scnprintf_page full str : scnprintf (page full) str = page (full ++ str).
Proof.
  unfold scnprintf, page. set (m := (Z.to_nat Ashmem.PAGE_SIZE - 1)%nat). rewrite take_app, length_take. f_equal. f_equal. lia.
Qed.
Lemma active_run s l x : uok s l -> x ∈ l -> exists a, on_wl (wake_lock_active (wake_lock_of x)) s = Some (a, s) /\ forall b, eqb a b = active_at s b x.
Proof.
  intros Ho Hx. destruct (uo_locks _ _ Ho x Hx) as [(k & Ek & _) _]. exists (has_bits WAKE_LOCK_ACTIVE k). split; [|intros b; unfold active_at; by rewrite Ek].
  unfold on_wl, wake_lock_active. mrun (get_lock_run _ _ _ Ek). by destruct s.
Qed.
Lemma show_loop_run s l b tr : uok s l -> zrep (user_wake_locks s) [] tr -> inorder tr = l -> forall fuel l2 l1 full, l = l1 ++ l2 -> (length l2 < fuel)%nat ->
  show_loop fuel b (hd0 l2) (page full) s = Some (page (full ++ concat ((λ x, nm_of s x ++ [32]) <$> filter (λ x, active_at s b x = true) l2)), s).
Proof.
  intros Ho Hz Hin. induction fuel as [|fuel IH]; intros l2 l1 full E Hf; [lia|]. cbn [show_loop]. destruct l2 as [|x l2]; [cbn; by rewrite app_nil_r|].
  assert (x ∈ l) as Hx by (rewrite E; set_solver +). assert (x <> 0) as H0 by (destruct Hz as [_ _ _ Hv]; cbn in Hv; rewrite Hin, Forall_forall in Hv; by destruct (Hv x Hx)).
  change (hd0 (x :: l2)) with x. rewrite (proj2 (Z.eqb_neq x 0)) by done. destruct (active_run s l x Ho Hx) as (a & Ha & Hab). mrun Ha. rewrite Hab.
  assert (rb_next x (user_wake_locks s) = Some (hd0 l2, user_wake_locks s)) as Hnext by (apply (rb_next_run _ _ _ l1 l2 Hz); by rewrite Hin).
  rewrite filter_cons. destruct (active_at s b x) eqn:Eb.
  - rewrite bind_assoc. mrun (load_name_run s x (uo_named _ _ Ho x Hx)). rewrite bind_mret_l. mrun (user_tree_run _ s _ _ Hnext). rewrite same_tree, scnprintf_page, (IH l2 (l1 ++ [x])); [|by rewrite <-app_assoc|cbn in Hf; lia].
    rewrite decide_True by done. cbn. by rewrite <-app_assoc.
  - rewrite bind_mret_l. mrun (user_tree_run _ s _ _ Hnext). rewrite same_tree, (IH l2 (l1 ++ [x])); [|by rewrite <-app_assoc|cbn in Hf; lia]. by rewrite decide_False by done.
Qed.

(** ** Theorems *)
(** C26: A name is a lock that user space holds exactly as it asked: whatever else was written, read, locked, released, expired or suspended in between, the lock of a name is held without a timeout exactly if the last write for this name that succeeded was one to wake_lock whose string has no timeout, or has one whose number of jiffies is a positive multiple of [2 ^ 32], which the code cuts to 0 ([long_timeout_forever]). *)
Theorem user_locks_follow s tr nm : reach s tr -> held_name s nm <->
  last_action nm tr = Some Hold \/ exists timeout, last_action nm tr = Some (Hold_for timeout) /\ 0 < jiffies_of timeout /\ jiffies_of timeout mod 2 ^ 32 = 0.
Proof.
  intros [_ H]%reach_uok. rewrite H. split; [|intros [E|(timeout & E & ?)]; by eexists]. intros ([|timeout|] & E & Hf); [by left|right; by exists timeout|done].
Qed.

(** A write returns the number of bytes, or [-EINVAL] for a string that is not well formed, [-ENOMEM] when a new name finds no memory; [wake_unlock] knows only names that were locked before. No error changes anything. *)
Theorem user_stores_correct s tr buf n mem : reach s tr -> store_ok s buf n mem ->
  (exists r s', wake_lock_store buf n mem s = Some (r, s') /\ match parse_args buf true with
    | None => r = - EINVAL /\ s' = s
    | Some (_, t) => (r = - ENOMEM /\ s' = s /\ mem = 0 /\ ~ known_name s (name_in buf)) \/ (r = n /\ (known_name s (name_in buf) \/ mem <> 0) /\ locked s buf t s')
    end) /\
  (exists r s', wake_unlock_store buf n s = Some (r, s') /\
    (r = - EINVAL /\ s' = s /\ (parse_args buf false = None \/ ~ known_name s (name_in buf)) \/
     r = n /\ known_name s (name_in buf) /\ forall nm, held_name s' nm <-> nm <> name_in buf /\ held_name s nm)).
Proof.
  intros [[l Ho] _]%reach_uok Hok. split.
  - destruct (lock_store_good s l buf n mem Ho Hok) as (r & s' & l' & Hrun & _ & Hres). by exists r, s'.
  - destruct (unlock_store_good s l buf n Ho (proj1 Hok)) as (r & s' & Hrun & _ & [Hres|(-> & _ & Hk & Hh)]); exists r, s' || exists n, s'; (split; [done|]); [by left|right].
    split_and!; [done|done|]. intros nm. rewrite Hh. case_decide; naive_solver.
Qed.

(** The two files show the names of the locks that are active and of those that are not, in the order of the names, each with a space behind it, and a newline; as much of that as fits into a page with its 0. *)
Theorem user_shows_correct s tr (b : bool) : reach s tr -> exists nms,
  (if b then wake_lock_show else wake_unlock_show) s = Some (page (concat ((λ nm, nm ++ [32]) <$> nms) ++ [10]), s) /\ StronglySorted (λ a c, lexcmp a c = -1) nms /\
  forall nm, nm ∈ nms <-> exists x, lock_name s !! x = Some nm /\ lock_has (wl s) WAKE_LOCK_ACTIVE b (wake_lock_of x).
Proof.
  intros [[l Ho] _]%reach_uok. pose proof Ho as [(t & Hz & Hrb & Hin) H2 H3 H4 _ H6]. exists (nm_of s <$> filter (λ x, active_at s b x = true) l). split_and!.
  - assert (show b s = Some (page (concat ((λ nm, nm ++ [32]) <$> (nm_of s <$> filter (λ x, active_at s b x = true) l)) ++ [10]), s)) as Hshow; [|by destruct b].
    unfold show. mrun (user_tree_run _ s _ _ (rb_first_run _ _ Hz)). rewrite same_tree, Hin. erewrite bind_run by done. pose proof (zrep_fuel _ _ _ Hz) as Hf. rewrite Hin in Hf. cbn in Hf.
    pose proof (show_loop_run s l b t Ho Hz Hin (S (size (nodes (user_wake_locks s)))) l [] [] eq_refl ltac:(lia)) as Hrun. change (page []) with (@nil Z) in Hrun. mrun Hrun. unfold mret, M_ret. rewrite scnprintf_page. cbn [app].
    by rewrite <-list_fmap_compose.
  - eapply StronglySorted_fmap; [|by apply sorted_filter]. done.
  - intros nm. rewrite list_elem_of_fmap. setoid_rewrite list_elem_of_filter. unfold active_at, lock_has. split.
    + intros (x & -> & Ha & Hx). exists x. destruct (H3 x Hx) as [[nm E] _]. unfold nm_of. rewrite E. split; [done|]. destruct (locks (wl s) !! wake_lock_of x) as [k|]; [|done]. exists k. split; [done|]. by apply eqb_prop.
    + intros (x & Ex & k & Ek & Ha). exists x. rewrite Ek. unfold nm_of. rewrite Ex. split_and!; [done|by rewrite Ha, eqb_reflx|apply H2; eauto].
Qed.

(** C39: A long timeout is not a timeout. The number of jiffies is cut to 32 bits: a write to wake_lock with a timeout of a multiple of [2 ^ 32] jiffies (49.7 days) takes the lock without one, so that it is held until it is released. *)
Theorem long_timeout_forever s tr buf n mem r s' k : reach s tr -> store_ok s buf n mem -> timeout_of buf = k * 2 ^ 32 * 1000000 -> 0 < k -> timeout_of buf + 999999 < 2 ^ 64 ->
  wake_lock_store buf n mem s = Some (r, s') -> 0 <= r -> held_name s' (name_in buf).
Proof.
  intros [[l Ho] _]%reach_uok Hok Ht Hk Hb Hrun Hr. destruct (lock_store_good s l buf n mem Ho Hok) as (r1 & s1 & l1 & Hrun1 & _ & Hres). rewrite Hrun1 in Hrun. injection Hrun as <- <-.
  destruct (parse_args buf true) as [[j t]|] eqn:Hp; [|destruct Hres as [-> _]; unfold EINVAL in Hr; lia]. destruct Hres as [(-> & _)|(_ & _ & _ & Hh)]; [unfold ENOMEM in Hr; lia|]. rewrite Hh, decide_True by done.
  apply (lock_action_forever _ _ _ Hp). unfold lock_action. destruct (has_timeout buf); [|done]. cbn. unfold jiffies_of, u64. rewrite Z.mod_small, Ht, Z.div_add_l by lia.
  change (999999 `div` 1000000) with 0. rewrite Z.add_0_r, Z.mod_mul by lia. lia.
Qed.
End system.

(** ** Examples *)
#[local] Existing Instance Countdown.
Definition demo_user : uwl (Z * option Z) := Uwl (RbState ∅ 0) ∅ demo_init.
(** The strings b, a 5, and a 4294967296000000. *)
Definition buf_b : list Z := [98; 10].
Definition buf_a5 : list Z := [97; 32; 53].
Definition buf_long : list Z := [97; 32; 52; 50; 57; 52; 57; 54; 55; 50; 57; 54; 48; 48; 48; 48; 48; 48].
Definition next_user (m : M (uwl (Z * option Z)) Z) (s : uwl (Z * option Z)) : uwl (Z * option Z) := match m s with Some (_, s') => s' | None => s end.
Definition demo_user1 : uwl (Z * option Z) := next_user (wake_lock_store buf_b 2 512) demo_user.
Definition demo_user2 : uwl (Z * option Z) := next_user (wake_lock_store buf_a5 3 640) demo_user1.

Lemma user_run (m : M (uwl (Z * option Z)) Z) s r : fst <$> m s = Some r -> m s = Some (r, next_user m s).
Proof. unfold next_user. destruct (m s) as [[r' s']|]; [|done]. by intros [= ->]. Qed.
Lemma demo_user_reach : reach demo_user [].
Proof. apply reach_start; [exact demo_reach_init|reflexivity|reflexivity]. Qed.
(** The checks of new memory, as a function. *)
Lemma store_okb (s : uwl (Z * option Z)) buf n mem : forallb (λ c, 0 <=? c) buf && (0 <=? n) && (match parse_args buf true with Some (_, t) => (- 2 ^ 30 <=? t) && (t <? 2 ^ 30) | None => true end) &&
  (0 <? mem) && (mem mod 4 =? 0) && bool_decide (lock_name s !! mem = None) && bool_decide ((λ _, 0) <$> locks (wl s) !! wake_lock_of mem = None) &&
  bool_decide ((λ _, 0) <$> lists (wl s) !! wake_lock_of mem = None) = true -> store_ok s buf n mem.
Proof.
  intros [[[[[[[Hb Hn]%andb_prop Ht]%andb_prop Hp]%andb_prop Hv]%andb_prop Hm%bool_decide_eq_true]%andb_prop Hl%bool_decide_eq_true]%andb_prop Hk%bool_decide_eq_true]%andb_prop. split_and!.
  - apply Forall_forall. intros c Hc. apply list_elem_of_In in Hc. rewrite forallb_forall in Hb. specialize (Hb c Hc). lia.
  - lia.
  - destruct (parse_args buf true) as [[k t]|]; [lia|done].
  - intros _. split_and!; [apply valid_dec; lia|lia|done|]. split; [by destruct (locks (wl s) !! wake_lock_of mem)|by destruct (lists (wl s) !! wake_lock_of mem)].
Qed.
Lemma demo_user1_reach : reach demo_user1 [([98], Hold)].
Proof.
  assert (wake_lock_store buf_b 2 512 demo_user = Some (2, demo_user1)) as Hrun by (apply user_run; vm_compute; reflexivity).
  refine (reach_lock _ _ _ _ _ _ _ demo_user_reach _ Hrun). apply store_okb. vm_compute. reflexivity.
Qed.
Lemma demo_user2_reach : reach demo_user2 [([98], Hold); ([97], Hold_for 5)].
Proof.
  assert (wake_lock_store buf_a5 3 640 demo_user1 = Some (3, demo_user2)) as Hrun by (apply user_run; vm_compute; reflexivity).
  refine (reach_lock _ _ _ _ _ _ _ demo_user1_reach _ Hrun). apply store_okb. vm_compute. reflexivity.
Qed.

Lemma user_locks_follow_witness : held_name demo_user2 [98] /\ ~ held_name demo_user2 [97].
Proof.
  split; [apply (user_locks_follow demo_user2 _ [98] demo_user2_reach); left; vm_compute; reflexivity|].
  intros H%(user_locks_follow demo_user2 _ [97] demo_user2_reach). destruct H as [H|(timeout & H & Hj & Hm)]; vm_compute in H; [discriminate|]. injection H as <-. vm_compute in Hm. discriminate.
Defined.
Lemma user_shows_correct_witness : exists nms, wake_lock_show demo_user2 = Some (page (concat ((λ nm, nm ++ [32]) <$> nms) ++ [10]), demo_user2) /\ [97] ∈ nms.
Proof.
  destruct (user_shows_correct demo_user2 _ true demo_user2_reach) as (nms & Hrun & _ & Hin). exists nms. split; [exact Hrun|]. apply Hin. exists 640. split; [vm_compute; reflexivity|].
  apply demo_has. vm_compute. reflexivity.
Defined.
Lemma long_timeout_forever_witness : held_name (next_user (wake_lock_store buf_long 18 640) demo_user1) [97].
Proof.
  apply (long_timeout_forever demo_user1 _ buf_long 18 640 18 _ 1 demo_user1_reach); [apply store_okb; vm_compute; reflexivity|vm_compute; reflexivity|lia|vm_compute; reflexivity|apply user_run; vm_compute; reflexivity|lia].
Defined.
End UserWakelock.
