(* ===== verification/BinderAlloc.v ===== *)
(** * The buffers of a binder process

    drivers/staging/android/binder.c: the area a process maps to receive transactions is cut
    into buffers, each a header followed by its data.  All buffers are on a list in the order
    of their addresses; the free ones are in a red-black tree by size, the allocated ones in
    another by address.  A page of the area is allocated and mapped, in the kernel and in the
    process, when a header or the data of an allocated buffer first needs it, and freed when
    the last such use ends.

    A header is known by its address; its [entry] and its [rb_node] are in the list memory and
    in the two trees at that address, its other members in [headers].  The members that only
    the transaction code uses are left out.  To use a header whose pages are not mapped is an
    oops.  What [alloc_page], [map_vm_area] and [vm_insert_page] return for a page, and
    whether [get_task_mm] finds an address space, is given by a [page_env]. *)
From stdpp Require Import prelude gmap list sorting.
From Stdlib Require Import ZArith Lia ZifyBool.
From S2P Require Import Prelude ListHead ListHeap Rbtree Ashmem.
Open Scope Z_scope.

Module BinderAlloc.
Import Ashmem.

(** ** Data *)
Record binder_buffer := Buf {
  bfree : bool;
  async_transaction : bool;
  transaction : Z;
  data_size : Z;
  offsets_size : Z;
}.
(** [sizeof(struct binder_buffer)] and [offsetof(struct binder_buffer, data)]. *)
Definition sizeof_buffer : Z := 40.
Definition data (b : Z) : Z := b + sizeof_buffer.

(** [buffers] is the address of the head of the list.  [kernel_pages] are the addresses of the
    pages that are mapped in the area, [user_pages] those that are also mapped at
    [user_buffer_offset] from there in the process. *)
Record binder_proc := Proc {
  vma : bool;
  buffer : Z;
  buffer_size : Z;
  user_buffer_offset : Z;
  buffers : Z;
  free_async_space : Z;
  entries : mem;
  headers : gmap Z binder_buffer;
  free_buffers : rb_state;
  allocated_buffers : rb_state;
  pages : list Z;
  kernel_pages : gset Z;
  user_pages : gset Z;
}.
Implicit Types (s : binder_proc) (b : Z).

Inductive page_result := Page (pg : Z) | No_page | No_kernel_map (pg : Z) | No_user_map (pg : Z).
Record page_env := PageEnv { mm : bool; page_at : Z -> page_result }.

Abbreviation BM := (M binder_proc).
Definition set_vma v s := Proc v (buffer s) (buffer_size s) (user_buffer_offset s) (buffers s) (free_async_space s) (entries s) (headers s) (free_buffers s) (allocated_buffers s) (pages s) (kernel_pages s) (user_pages s).
Definition set_area a n u s := Proc (vma s) a n u (buffers s) (free_async_space s) (entries s) (headers s) (free_buffers s) (allocated_buffers s) (pages s) (kernel_pages s) (user_pages s).
Definition set_async z s := Proc (vma s) (buffer s) (buffer_size s) (user_buffer_offset s) (buffers s) z (entries s) (headers s) (free_buffers s) (allocated_buffers s) (pages s) (kernel_pages s) (user_pages s).
Definition set_entries m s := Proc (vma s) (buffer s) (buffer_size s) (user_buffer_offset s) (buffers s) (free_async_space s) m (headers s) (free_buffers s) (allocated_buffers s) (pages s) (kernel_pages s) (user_pages s).
Definition set_headers h s := Proc (vma s) (buffer s) (buffer_size s) (user_buffer_offset s) (buffers s) (free_async_space s) (entries s) h (free_buffers s) (allocated_buffers s) (pages s) (kernel_pages s) (user_pages s).
Definition set_free_tree t s := Proc (vma s) (buffer s) (buffer_size s) (user_buffer_offset s) (buffers s) (free_async_space s) (entries s) (headers s) t (allocated_buffers s) (pages s) (kernel_pages s) (user_pages s).
Definition set_alloc_tree t s := Proc (vma s) (buffer s) (buffer_size s) (user_buffer_offset s) (buffers s) (free_async_space s) (entries s) (headers s) (free_buffers s) t (pages s) (kernel_pages s) (user_pages s).
Definition set_pages p k u s := Proc (vma s) (buffer s) (buffer_size s) (user_buffer_offset s) (buffers s) (free_async_space s) (entries s) (headers s) (free_buffers s) (allocated_buffers s) p k u.

Definition on_entries {A} (f : M mem A) : BM A := λ s, match f (entries s) with Some (a, m) => Some (a, set_entries m s) | None => None end.
Definition on_free {A} (f : M rb_state A) : BM A := λ s, match f (free_buffers s) with Some (a, t) => Some (a, set_free_tree t s) | None => None end.
Definition on_alloc {A} (f : M rb_state A) : BM A := λ s, match f (allocated_buffers s) with Some (a, t) => Some (a, set_alloc_tree t s) | None => None end.

(** ** Headers and their pages *)
Definition buffer_start_page b : Z := Z.land b PAGE_MASK.
Definition buffer_end_page b : Z := Z.land (b + sizeof_buffer - 1) PAGE_MASK.
Definition header_mapped s b : bool := bool_decide (buffer_start_page b ∈ kernel_pages s) && bool_decide (buffer_end_page b ∈ kernel_pages s).
Definition load_buf b : BM binder_buffer := λ s, if header_mapped s b then match headers s !! b with Some h => Some (h, s) | None => None end else None.
Definition store_buf b (f : binder_buffer -> binder_buffer) : BM unit := h ← load_buf b; modify (λ s, set_headers (<[b := f h]> (headers s)) s).
Definition with_free (v : bool) (h : binder_buffer) : binder_buffer := Buf v (async_transaction h) (transaction h) (data_size h) (offsets_size h).
Definition with_transaction (t : Z) (h : binder_buffer) : binder_buffer := Buf (bfree h) (async_transaction h) t (data_size h) (offsets_size h).
Definition with_sizes (dsize osize : Z) (is_async : bool) (h : binder_buffer) : binder_buffer := Buf (bfree h) is_async (transaction h) dsize osize.
(** Memory that becomes a header holds whatever was there before. *)
Definition new_header b (junk : binder_buffer) : BM unit := modify (λ s, set_headers (<[b := junk]> (headers s)) (set_entries (<[b := ListHead 0 0]> (entries s)) s)).

(** ** [binder_buffer_size] and the trees *)
Definition binder_buffer_size b : BM Z :=
  s ← get;
  last ← on_entries (list_is_last b (buffers s));
  if (last : bool) then mret (buffer s + buffer_size s - data b) else n ← on_entries (get_next b); mret (n - data b).

Fixpoint insert_free_loop (fuel : nat) (new_buffer new_buffer_size parent : Z) (link : rb_link) (p : Z) : BM unit :=
  match fuel with
  | O => oops
  | S fuel =>
      if p =? 0 then on_free (rb_link_node new_buffer parent link) ;; on_free (rb_insert_color new_buffer)
      else
        n ← on_free (load p);
        h ← load_buf p;
        BUG_ON (negb (bfree h)) ;;
        sz ← binder_buffer_size p;
        if new_buffer_size <? sz then insert_free_loop fuel new_buffer new_buffer_size p (LinkLeft p) (rb_left n)
        else insert_free_loop fuel new_buffer new_buffer_size p (LinkRight p) (rb_right n)
  end.
Definition binder_insert_free_buffer (new_buffer : Z) : BM unit :=
  h ← load_buf new_buffer;
  BUG_ON (negb (bfree h)) ;;
  new_buffer_size ← binder_buffer_size new_buffer;
  s ← get;
  insert_free_loop (S (size (nodes (free_buffers s)))) new_buffer new_buffer_size 0 LinkRoot (root (free_buffers s)).

Fixpoint insert_allocated_loop (fuel : nat) (new_buffer parent : Z) (link : rb_link) (p : Z) : BM unit :=
  match fuel with
  | O => oops
  | S fuel =>
      if p =? 0 then on_alloc (rb_link_node new_buffer parent link) ;; on_alloc (rb_insert_color new_buffer)
      else
        n ← on_alloc (load p);
        h ← load_buf p;
        BUG_ON (bfree h) ;;
        if new_buffer <? p then insert_allocated_loop fuel new_buffer p (LinkLeft p) (rb_left n)
        else if new_buffer >? p then insert_allocated_loop fuel new_buffer p (LinkRight p) (rb_right n)
        else oops
  end.
Definition binder_insert_allocated_buffer (new_buffer : Z) : BM unit :=
  h ← load_buf new_buffer;
  BUG_ON (bfree h) ;;
  s ← get;
  insert_allocated_loop (S (size (nodes (allocated_buffers s)))) new_buffer 0 LinkRoot (root (allocated_buffers s)).

Fixpoint buffer_lookup_loop (fuel : nat) (kern_ptr n : Z) : BM Z :=
  match fuel with
  | O => oops
  | S fuel =>
      if n =? 0 then mret 0
      else
        nd ← on_alloc (load n);
        h ← load_buf n;
        BUG_ON (bfree h) ;;
        if kern_ptr <? n then buffer_lookup_loop fuel kern_ptr (rb_left nd)
        else if kern_ptr >? n then buffer_lookup_loop fuel kern_ptr (rb_right nd)
        else mret n
  end.
Definition binder_buffer_lookup (user_ptr : Z) : BM Z :=
  s ← get;
  let kern_ptr := u32 (user_ptr - user_buffer_offset s - sizeof_buffer) in
  buffer_lookup_loop (S (size (nodes (allocated_buffers s)))) kern_ptr (root (allocated_buffers s)).

(** ** Pages *)
Definition page_index s (page_addr : Z) : nat := Z.to_nat ((page_addr - buffer s) `div` PAGE_SIZE).
Definition get_page (page_addr : Z) : BM Z := λ s, match pages s !! page_index s page_addr with Some pg => Some (pg, s) | None => None end.
Definition set_page (page_addr pg : Z) : BM unit := modify (λ s, set_pages (<[page_index s page_addr := pg]> (pages s)) (kernel_pages s) (user_pages s) s).
Definition map_kernel (page_addr : Z) : BM unit := modify (λ s, set_pages (pages s) ({[page_addr]} ∪ kernel_pages s) (user_pages s) s).
Definition unmap_kernel_range (page_addr : Z) : BM unit := modify (λ s, set_pages (pages s) (kernel_pages s ∖ {[page_addr]}) (user_pages s) s).
Definition map_user (page_addr : Z) : BM unit := modify (λ s, set_pages (pages s) (kernel_pages s) ({[page_addr]} ∪ user_pages s) s).
Definition zap_page_range (page_addr : Z) : BM unit := modify (λ s, set_pages (pages s) (kernel_pages s) (user_pages s ∖ {[page_addr]}) s).
(** [__free_page] needs a page. *)
Definition free_page (page_addr : Z) : BM unit := pg ← get_page page_addr; BUG_ON (pg =? 0) ;; set_page page_addr 0.

(** The loop at [free_range], from the page at [page_addr] down to the one at [start]. *)
Fixpoint free_range (fuel : nat) (vma : bool) (start page_addr : Z) : BM unit :=
  match fuel with
  | O => oops
  | S fuel =>
      if page_addr >=? start then
        (if vma then zap_page_range page_addr else mret tt) ;;
        unmap_kernel_range page_addr ;;
        free_page page_addr ;;
        free_range fuel vma start (page_addr - PAGE_SIZE)
      else mret tt
  end.
Definition free_pages_down (vma : bool) (start page_addr : Z) : BM Z :=
  s ← get; free_range (S (length (pages s))) vma start page_addr ;; mret (- ENOMEM).
(** The loop that allocates; an error leaves it for the middle of the other loop. *)
Fixpoint alloc_range (fuel : nat) (e : page_env) (vma : bool) (start end_ page_addr : Z) : BM Z :=
  match fuel with
  | O => oops
  | S fuel =>
      if page_addr <? end_ then
        pg ← get_page page_addr;
        BUG_ON (negb (pg =? 0)) ;;
        match page_at e page_addr with
        | No_page =>
            free_pages_down vma start (page_addr - PAGE_SIZE)
        | No_kernel_map pg =>
            set_page page_addr pg ;;
            free_page page_addr ;; free_pages_down vma start (page_addr - PAGE_SIZE)
        | No_user_map pg =>
            set_page page_addr pg ;; map_kernel page_addr ;;
            unmap_kernel_range page_addr ;; free_page page_addr ;; free_pages_down vma start (page_addr - PAGE_SIZE)
        | Page pg =>
            set_page page_addr pg ;; map_kernel page_addr ;; map_user page_addr ;;
            alloc_range fuel e vma start end_ (page_addr + PAGE_SIZE)
        end
      else mret 0
  end.
Definition binder_update_page_range (e : page_env) (allocate : bool) (start end_ : Z) (vma_arg : bool) : BM Z :=
  if end_ <=? start then mret 0
  else
    s ← get;
    let v := if vma_arg then true else if mm e then vma s else false in
    if negb allocate then free_pages_down v start (end_ - PAGE_SIZE)
    else if negb v then mret (- ENOMEM)
    else alloc_range (S (length (pages s))) e v start end_ start.

(** ** [binder_alloc_buf] *)
Definition ALIGN (x a : Z) : Z := Z.land (u32 (x + (a - 1))) (u32 (Z.lnot (a - 1))).
(** [inl] is a buffer of exactly the size, with its size; [inr] is [best_fit] at the end of
    the descent. *)
Fixpoint best_fit_loop (fuel : nat) (sz n best_fit : Z) : BM (Z * Z + Z) :=
  match fuel with
  | O => oops
  | S fuel =>
      if n =? 0 then mret (inr best_fit)
      else
        nd ← on_free (load n);
        h ← load_buf n;
        BUG_ON (negb (bfree h)) ;;
        bsz ← binder_buffer_size n;
        if sz <? bsz then best_fit_loop fuel sz (rb_left nd) n
        else if sz >? bsz then best_fit_loop fuel sz (rb_right nd) best_fit
        else mret (inl (n, bsz))
  end.
(** The rest of the buffer becomes a free buffer. *)
Definition split_buffer b (sz : Z) (junk : binder_buffer) : BM unit :=
  let new_buffer := data b + sz in
  new_header new_buffer junk ;;
  on_entries (list_add new_buffer b) ;;
  store_buf new_buffer (with_free true) ;;
  binder_insert_free_buffer new_buffer.
(** The buffer [b] has been chosen; [exact] says that the loop ended with [n != NULL]. *)
Definition alloc_from (e : page_env) (junk : binder_buffer) (dsize osize : Z) (is_async : bool) (sz b bsz : Z) (exact : bool) : BM Z :=
  let has_page_addr := Z.land (data b + bsz) PAGE_MASK in
  let bsz := if exact then bsz else if u32 (sz + sizeof_buffer + 4) >=? bsz then sz else u32 (sz + sizeof_buffer) in
  let end_page_addr := PAGE_ALIGN (data b + bsz) in
  let end_page_addr := if end_page_addr >? has_page_addr then has_page_addr else end_page_addr in
  ret ← binder_update_page_range e true (PAGE_ALIGN (data b)) end_page_addr false;
  if negb (ret =? 0) then mret 0
  else
    on_free (rb_erase b) ;;
    store_buf b (with_free false) ;;
    binder_insert_allocated_buffer b ;;
    (if negb (bsz =? sz) then split_buffer b sz junk else mret tt) ;;
    store_buf b (with_sizes dsize osize is_async) ;;
    (if is_async then modify (λ s, set_async (u32 (free_async_space s - u32 (sz + sizeof_buffer))) s) else mret tt) ;;
    mret b.
Definition binder_alloc_buf (e : page_env) (junk : binder_buffer) (dsize osize : Z) (is_async : bool) : BM Z :=
  s ← get;
  if negb (vma s) then mret 0
  else
    let sz := u32 (ALIGN dsize 4 + ALIGN osize 4) in
    if (sz <? dsize) || (sz <? osize) then mret 0
    else if is_async && (free_async_space s <? u32 (sz + sizeof_buffer)) then mret 0
    else
      r ← best_fit_loop (S (size (nodes (free_buffers s)))) sz (root (free_buffers s)) 0;
      match r with
      | inl (b, bsz) => alloc_from e junk dsize osize is_async sz b bsz true
      | inr best_fit =>
          if best_fit =? 0 then mret 0
          else bsz ← binder_buffer_size best_fit; alloc_from e junk dsize osize is_async sz best_fit bsz false
      end.

(** ** [binder_free_buf] *)
Definition binder_delete_free_buffer (e : page_env) b : BM unit :=
  s ← get;
  first ← on_entries (get_next (buffers s));
  BUG_ON (first =? b) ;;
  prev ← on_entries (get_prev b);
  h ← load_buf prev;
  BUG_ON (negb (bfree h)) ;;
  let shared := buffer_end_page prev =? buffer_start_page b in
  let free_page_start := negb shared in
  let free_page_end := negb (shared && (buffer_end_page prev =? buffer_end_page b)) in
  last ← on_entries (list_is_last b (buffers s));
  '(free_page_start, free_page_end) ←
    (if (last : bool) then mret (free_page_start, free_page_end)
     else
       next ← on_entries (get_next b);
       let shared := buffer_start_page next =? buffer_end_page b in
       mret (if shared && (buffer_start_page next =? buffer_start_page b) then false else free_page_start, if shared then false else free_page_end));
  on_entries (list_del b) ;;
  if (free_page_start : bool) || (free_page_end : bool) then
    binder_update_page_range e false (if free_page_start then buffer_start_page b else buffer_end_page b)
      ((if free_page_end then buffer_end_page b else buffer_start_page b) + PAGE_SIZE) false ;; mret tt
  else mret tt.
Definition merge_next (e : page_env) b : BM unit :=
  s ← get;
  last ← on_entries (list_is_last b (buffers s));
  if (last : bool) then mret tt
  else
    next ← on_entries (get_next b);
    h ← load_buf next;
    if bfree h then on_free (rb_erase next) ;; binder_delete_free_buffer e next else mret tt.
Definition merge_prev (e : page_env) b : BM Z :=
  s ← get;
  first ← on_entries (get_next (buffers s));
  if first =? b then mret b
  else
    prev ← on_entries (get_prev b);
    h ← load_buf prev;
    if bfree h then binder_delete_free_buffer e b ;; on_free (rb_erase prev) ;; mret prev else mret b.
Definition binder_free_buf (e : page_env) b : BM unit :=
  bsz ← binder_buffer_size b;
  h ← load_buf b;
  let sz := u32 (ALIGN (data_size h) 4 + ALIGN (offsets_size h) 4) in
  s ← get;
  BUG_ON (bfree h) ;;
  BUG_ON (sz >? bsz) ;;
  BUG_ON (negb (transaction h =? 0)) ;;
  BUG_ON (b <? buffer s) ;;
  BUG_ON (b >? buffer s + buffer_size s) ;;
  (if async_transaction h then modify (λ s, set_async (u32 (free_async_space s + u32 (sz + sizeof_buffer))) s) else mret tt) ;;
  binder_update_page_range e false (PAGE_ALIGN (data b)) (Z.land (data b + bsz) PAGE_MASK) false ;;
  on_alloc (rb_erase b) ;;
  store_buf b (with_free true) ;;
  merge_next e b ;;
  b ← merge_prev e b;
  binder_insert_free_buffer b.

(** ** The area *)
Definition SZ_4M : Z := 4194304.
(** [area] is the address [get_vm_area] gives, or 0; [array] says that the array of pages
    could be allocated.  The caches of the device do not alias. *)
Definition binder_mmap (e : page_env) (junk : binder_buffer) (area : Z) (array : bool) (vm_start vm_end vm_flags : Z) : BM Z :=
  let vm_end := if vm_end - vm_start >? SZ_4M then vm_start + SZ_4M else vm_end in
  if negb (Z.land vm_flags VM_WRITE =? 0) then mret (- EPERM)
  else
    s ← get;
    if negb (buffer s =? 0) then mret (- EBUSY)
    else if area =? 0 then mret (- ENOMEM)
    else
      modify (λ s, set_area area (buffer_size s) (s32 (vm_start - area)) s) ;;
      if negb array then
        modify (λ s, set_area 0 (buffer_size s) (user_buffer_offset s) s) ;; mret (- ENOMEM)
      else
        modify (set_pages (replicate (Z.to_nat ((vm_end - vm_start) `div` PAGE_SIZE)) 0) ∅ ∅) ;;
        modify (λ s, set_area area (vm_end - vm_start) (user_buffer_offset s) s) ;;
        ret ← binder_update_page_range e true area (area + PAGE_SIZE) true;
        if negb (ret =? 0) then
          modify (λ s, set_area 0 (buffer_size s) (user_buffer_offset s) (set_pages [] (kernel_pages s) (user_pages s) s)) ;; mret (- ENOMEM)
        else
          new_header area junk ;;
          on_entries (INIT_LIST_HEAD (buffers s)) ;;
          on_entries (list_add area (buffers s)) ;;
          store_buf area (with_free true) ;;
          binder_insert_free_buffer area ;;
          modify (λ s, set_async (buffer_size s `div` 2) s) ;;
          modify (set_vma true) ;;
          mret 0.
(** The mapping goes away with all its pages. *)
Definition binder_vma_close : BM unit := modify (λ s, set_vma false (set_pages (pages s) (kernel_pages s) ∅ s)).

(** ** The end of the process, in [binder_deferred_release] *)
Fixpoint release_buffers (fuel : nat) (e : page_env) (count : Z) : BM Z :=
  match fuel with
  | O => oops
  | S fuel =>
      n ← on_alloc rb_first;
      if n =? 0 then mret count
      else
        h ← load_buf n;
        (if negb (transaction h =? 0) then store_buf n (with_transaction 0) else mret tt) ;;
        binder_free_buf e n ;;
        release_buffers fuel e (count + 1)
  end.
(** The entry of a page that is freed is cleared; the code drops the array after the loop. *)
Fixpoint release_pages (n : nat) (i : Z) (page_count : Z) : BM Z :=
  match n with
  | O => mret page_count
  | S n =>
      s ← get;
      let page_addr := buffer s + i * PAGE_SIZE in
      pg ← get_page page_addr;
      if negb (pg =? 0) then
        unmap_kernel_range page_addr ;; free_page page_addr ;; release_pages n (i + 1) (page_count + 1)
      else release_pages n (i + 1) page_count
  end.
(** The array of pages and the area are freed at the end, if there are any. *)
Definition binder_release_area (e : page_env) : BM Z :=
  s ← get;
  release_buffers (S (size (nodes (allocated_buffers s)))) e 0 ;;
  s ← get;
  if bool_decide (pages s = []) then mret 0
  else
    page_count ← release_pages (Z.to_nat (buffer_size s `div` PAGE_SIZE)) 0 0;
    modify (λ s, set_pages [] (kernel_pages s) (user_pages s) s) ;;
    mret page_count.

End BinderAlloc.
