(* ===== verification/BinderPages.v ===== *)
(** * The pages of a binder area

    What [binder_update_page_range] does: a range of pages that are not mapped is mapped, or
    nothing changes when one of them cannot be; a range of pages that are mapped is freed. *)
From stdpp Require Import prelude gmap list sorting.
From Stdlib Require Import ZArith Lia ZifyBool.
From S2P Require Import Prelude ListHead ListHeap Rbtree Ashmem BinderAlloc.
Open Scope Z_scope.

Module BinderPages.
Import Ashmem BinderAlloc.
Implicit Types (s : binder_proc) (p b : Z) (e : page_env).

(** ** Addresses *)
Lemma page_floor x : 0 <= x < 2 ^ 32 -> exists k, Z.land x PAGE_MASK = 4096 * k /\ 4096 * k <= x < 4096 * k + 4096.
Proof.
  intros Hx. unfold PAGE_MASK. change (PAGE_SIZE - 1) with (2 ^ 12 - 1). unfold u32. rewrite (land_not_ones 32 12) by lia.
  exists (x `div` 4096). pose proof (Z.div_mod x (2 ^ 12)). pose proof (Z.mod_pos_bound x (2 ^ 12)). change (2 ^ 12) with 4096 in *. lia.
Qed.
Lemma page_ceil x : 0 <= x <= 2 ^ 32 - 4096 -> exists k, PAGE_ALIGN x = 4096 * k /\ 4096 * k - 4096 < x <= 4096 * k.
Proof.
  intros Hx. change (PAGE_ALIGN x) with (Z.land (u32 (x + 4095)) PAGE_MASK). rewrite u32_small by lia.
  destruct (page_floor (x + 4095)) as (k & -> & Hk); [lia|]. exists k. lia.
Qed.

Record area_ok s : Prop := {
  ao_pos : 4096 <= buffer s;
  ao_align : buffer s mod 4096 = 0;
  ao_size : 0 < buffer_size s;
  ao_pages : buffer_size s mod 4096 = 0;
  ao_top : buffer s + buffer_size s <= 2 ^ 32 - 4096;
}.
Definition page_of s p : Prop := p mod 4096 = 0 /\ buffer s <= p < buffer s + buffer_size s.

(** ** Mapped pages

    [v] says that the area is mapped in the process. *)
Record pinv (v : bool) s : Prop := {
  pi_area : area_ok s;
  pi_length : Z.of_nat (length (pages s)) = buffer_size s `div` 4096;
  pi_in : forall p, p ∈ kernel_pages s -> page_of s p;
  pi_page : forall p, page_of s p -> exists pg, pages s !! page_index s p = Some pg /\ (pg <> 0 <-> p ∈ kernel_pages s);
  pi_user : user_pages s = if v then kernel_pages s else ∅;
}.
(** Only the pages have changed. *)
Definition pages_only s s' : Prop := s' = set_pages (pages s') (kernel_pages s') (user_pages s') s.
Lemma pages_only_refl s : pages_only s s.
Proof. by destruct s. Qed.
Lemma pages_only_trans s1 s2 s3 : pages_only s1 s2 -> pages_only s2 s3 -> pages_only s1 s3.
Proof. unfold pages_only. intros H1 H2. rewrite H1 in H2. by rewrite H2. Qed.

Definition put_page p pg s := set_pages (<[page_index s p := pg]> (pages s)) ({[p]} ∪ kernel_pages s) ({[p]} ∪ user_pages s) s.
Definition drop_page (v : bool) p s := set_pages (<[page_index s p := 0]> (pages s)) (kernel_pages s ∖ {[p]}) (if v then user_pages s ∖ {[p]} else user_pages s) s.

Lemma page_index_inj s p q : area_ok s -> page_of s p -> page_of s q -> page_index s p = page_index s q -> p = q.
Proof.
  intros [H1 H2 H3 H4 H5] [Hp Hp'] [Hq Hq']. unfold page_index. change PAGE_SIZE with 4096. intros E.
  apply Z2Nat.inj in E; [|apply Z.div_pos; lia..]. Z.to_euclidean_division_equations. lia.
Qed.
Lemma page_index_lt v s p : pinv v s -> page_of s p -> (page_index s p < length (pages s))%nat.
Proof. intros Hi Hp. destruct (pi_page _ _ Hi p Hp) as (pg & E & _). by apply lookup_lt_Some in E. Qed.

(** Changing the entry of one page, with the mappings to match. *)
Lemma pinv_set v s p pg : pinv v s -> page_of s p ->
  (pg <> 0 -> pinv v (set_pages (<[page_index s p := pg]> (pages s)) ({[p]} ∪ kernel_pages s) (if v then {[p]} ∪ user_pages s else ∅) s)) /\
  pinv v (set_pages (<[page_index s p := 0]> (pages s)) (kernel_pages s ∖ {[p]}) (if v then user_pages s ∖ {[p]} else ∅) s).
Proof.
  intros Hi Hp. pose proof (page_index_lt _ _ _ Hi Hp) as Hlt. pose proof Hi as [H1 H2 H3 H4 H5].
  split; [intros Hpg|]; (split; [destruct H1; by split|cbn [pages set_pages]; by rewrite length_insert|cbn; set_solver| |cbn; destruct v; [by rewrite H5|done]]);
    intros q Hq; destruct (decide (q = p)) as [->|Hne].
  - exists pg. split; [by apply list_lookup_insert_eq|]. cbn. set_solver.
  - destruct (H4 q Hq) as (pq & E & Hiff). exists pq. split; [|cbn; set_solver]. cbn. rewrite list_lookup_insert_ne; [done|]. intros E'. apply Hne. symmetry. by eapply page_index_inj.
  - exists 0. split; [by apply list_lookup_insert_eq|]. cbn. set_solver.
  - destruct (H4 q Hq) as (pq & E & Hiff). exists pq. split; [|cbn; set_solver]. cbn. rewrite list_lookup_insert_ne; [done|]. intros E'. apply Hne. symmetry. by eapply page_index_inj.
Qed.
Lemma put_page_inv s p pg : pinv true s -> page_of s p -> pg <> 0 -> pinv true (put_page p pg s).
Proof. intros Hi Hp Hpg. by apply (pinv_set true s p pg Hi Hp). Qed.
Lemma drop_page_inv v s p : pinv v s -> page_of s p -> pinv v (drop_page v p s).
Proof. intros Hi Hp. destruct (pinv_set v s p 0 Hi Hp) as [_ H]. unfold drop_page. destruct v; [exact H|]. by rewrite (pi_user _ _ Hi). Qed.
Lemma drop_put_page s p pg : pinv true s -> page_of s p -> p ∉ kernel_pages s -> drop_page true p (put_page p pg s) = s.
Proof.
  intros Hi Hp Hn. destruct (pi_page _ _ Hi p Hp) as (pg0 & E & Hiff). assert (pg0 = 0) as -> by (destruct (decide (pg0 = 0)); tauto).
  pose proof (pi_user _ _ Hi) as Hu. unfold drop_page, put_page, page_index, set_pages in *. destruct s; cbn in *. subst. f_equal; [|set_solver..].
  rewrite list_insert_insert_eq. by apply list_insert_id.
Qed.

(** ** The loops *)
Lemma get_page_run v s p : pinv v s -> page_of s p -> exists pg, get_page p s = Some (pg, s) /\ (pg <> 0 <-> p ∈ kernel_pages s).
Proof. intros Hi Hp. destruct (pi_page _ _ Hi p Hp) as (pg & E & Hiff). exists pg. split; [|done]. unfold get_page. by rewrite E. Qed.
(** One round of the loop that frees. *)
Lemma drop_page_run {A} v s p (k : BM A) : pinv v s -> p ∈ kernel_pages s ->
  ((if v then zap_page_range p else mret tt) ;; unmap_kernel_range p ;; free_page p ;; k) s = k (drop_page v p s).
Proof.
  intros Hi Hk. pose proof (pi_in _ _ Hi p Hk) as Hp. destruct (pi_page _ _ Hi p Hp) as (pg & E & Hiff).
  assert (pg <> 0) as H0 by tauto. unfold free_page, get_page, mbind, M_bind, unmap_kernel_range, zap_page_range, modify, mret, M_ret.
  destruct v; cbn; unfold page_index in *; cbn; rewrite E; rewrite (proj2 (Z.eqb_neq _ _) H0); done.
Qed.
Lemma free_range_done f v start p s : p < start -> free_range (S f) v start p s = Some (tt, s).
Proof. intros H. cbn. by rewrite Z.geb_leb, (proj2 (Z.leb_gt _ _) H). Qed.
Lemma free_range_step f v start p s : pinv v s -> p ∈ kernel_pages s -> start <= p -> free_range (S f) v start p s = free_range f v start (p - PAGE_SIZE) (drop_page v p s).
Proof. intros Hi Hk Hle. cbn [free_range]. rewrite Z.geb_leb, (proj2 (Z.leb_le _ _) Hle). by apply drop_page_run. Qed.
(** More fuel than pages makes no difference. *)
Lemma free_range_fuel v start : forall n f1 f2 p s, (n < f1)%nat -> (n < f2)%nat -> p < start + 4096 * Z.of_nat n -> free_range f1 v start p s = free_range f2 v start p s.
Proof.
  induction n as [|n IH]; intros [|f1] [|f2] p s H1 H2 Hp; try lia; [by rewrite !free_range_done by lia|].
  cbn [free_range]. destruct (p >=? start); [|done]. unfold mbind, M_bind. repeat (match goal with |- context [match ?m ?s with Some _ => _ | None => _ end] => destruct (m s) as [[??]|] end; [|done]).
  apply IH; [lia..|]. change PAGE_SIZE with 4096. lia.
Qed.
(** [start], [end_]: a range of whole pages of the area. *)
Definition range s (start end_ : Z) : Prop := start mod 4096 = 0 /\ end_ mod 4096 = 0 /\ buffer s <= start /\ end_ <= buffer s + buffer_size s.
Definition in_range (start end_ p : Z) : Prop := p mod 4096 = 0 /\ start <= p < end_.

Lemma free_range_run v start : forall n s f, (n < f)%nat -> pinv v s -> start mod 4096 = 0 ->
  (forall p, in_range start (start + 4096 * Z.of_nat n) p -> p ∈ kernel_pages s) ->
  exists s', free_range f v start (start + 4096 * Z.of_nat n - 4096) s = Some (tt, s') /\ pages_only s s' /\ pinv v s' /\
    forall p, p ∈ kernel_pages s' <-> p ∈ kernel_pages s /\ ~ in_range start (start + 4096 * Z.of_nat n) p.
Proof.
  induction n as [|n IH]; intros s [|f] Hf Hi Hst Hall; [lia| |lia|].
  - rewrite free_range_done by lia. exists s. split_and!; [done|apply pages_only_refl|done|]. unfold in_range. intros p. split; [|tauto]. intros. split; [done|lia].
  - set (p := start + 4096 * Z.of_nat (S n) - 4096).
    assert (p mod 4096 = 0) as Hp0 by (unfold p; replace (start + _ - _) with (start + Z.of_nat n * 4096) by lia; rewrite Z.mod_add; lia).
    assert (p ∈ kernel_pages s) as Hpk by (apply Hall; split; [done|lia]). rewrite free_range_step by (done || lia).
    destruct (IH (drop_page v p s) f) as (s' & Hrun & Ho & Hi' & Hk); [lia|apply drop_page_inv; [done|by eapply pi_in]|done| |].
    { intros q [Hq1 Hq2]. cbn. apply elem_of_difference. split; [apply Hall; split; [done|lia]|]. rewrite elem_of_singleton. unfold p. lia. }
    replace (p - PAGE_SIZE) with (start + 4096 * Z.of_nat n - 4096) by (unfold p; change PAGE_SIZE with 4096; lia).
    exists s'. split_and!; [done|by eapply pages_only_trans, Ho|done|]. intros q. rewrite Hk. cbn. rewrite elem_of_difference, elem_of_singleton. unfold in_range.
    split; [intros [[H1 H2] H3]; split; [done|]|intros [H1 H2]; split; [split; [done|intros ->; apply H2; split; [done|lia]]|intros [? ?]; apply H2; split; [done|lia]]].
    intros [H4 H5]. apply H3. split; [done|]. unfold p in *. pose proof (Z.div_mod q 4096). pose proof (Z.div_mod start 4096). lia.
Qed.
Lemma free_pages_down_run v s start end_ : pinv v s -> range s start end_ -> start <= end_ -> (forall p, in_range start end_ p -> p ∈ kernel_pages s) ->
  exists s', free_pages_down v start (end_ - PAGE_SIZE) s = Some (- ENOMEM, s') /\ pages_only s s' /\ pinv v s' /\
    forall p, p ∈ kernel_pages s' <-> p ∈ kernel_pages s /\ ~ in_range start end_ p.
Proof.
  intros Hi (H1 & H2 & H3 & H4) Hle Hall. assert (exists n, end_ = start + 4096 * Z.of_nat n) as [n ->].
  { exists (Z.to_nat ((end_ - start) `div` 4096)). Z.to_euclidean_division_equations. lia. }
  unfold free_pages_down. erewrite bind_run by done. change PAGE_SIZE with 4096.
  destruct (free_range_run v start n s (S (length (pages s)))) as (s' & Hrun & H); [|done..|mrun Hrun; by exists s'].
  pose proof (pi_length _ _ Hi). Z.to_euclidean_division_equations. lia.
Qed.

Definition gives_page e p : Prop := exists pg, page_at e p = Page pg.
(** The pages that are handed out are not NULL. *)
Definition env_ok e : Prop := forall p, match page_at e p with Page pg | No_kernel_map pg | No_user_map pg => pg <> 0 | No_page => True end.

Lemma next_page p : (p + 4096) mod 4096 = p mod 4096.
Proof. rewrite <-(Z.mod_add p 1 4096) by lia. f_equal. Qed.
Lemma range_first p end_ q : p mod 4096 = 0 -> p < end_ -> in_range p end_ q <-> q = p \/ in_range (p + 4096) end_ q.
Proof. unfold in_range. intros Hp Hlt. pose proof (Z.div_mod p 4096). pose proof (Z.div_mod q 4096). split; [|intros [->|]; lia]. intros [H1 H2]. destruct (decide (q = p)); [by left|right]. lia. Qed.
Lemma range_rest p end_ q : p mod 4096 = 0 -> in_range p end_ q -> q <> p -> in_range (p + 4096) end_ q.
Proof. intros Hp Hq Hne. apply range_first in Hq as [|]; [done..|destruct Hq; lia]. Qed.

Lemma put_page_run {A} s p pg (k : BM A) : (set_page p pg ;; map_kernel p ;; map_user p ;; k) s = k (put_page p pg s).
Proof. done. Qed.
(** A page that was allocated and could not be mapped is given back at once. *)
Lemma page_back v s p pg : pinv v s -> page_of s p -> p ∉ kernel_pages s ->
  (<[page_index s p := 0]> (<[page_index s p := pg]> (pages s))) = pages s /\ (<[page_index s p := pg]> (pages s)) !! page_index s p = Some pg.
Proof.
  intros Hi Hp Hn. destruct (pi_page _ _ Hi p Hp) as (pg0 & E & Hiff). assert (pg0 = 0) as -> by (destruct (decide (pg0 = 0)); tauto).
  split; [rewrite list_insert_insert_eq; by apply list_insert_id|]. apply list_lookup_insert_eq. by eapply page_index_lt.
Qed.
Lemma fail_kernel_map {A} v s p pg (k : BM A) : pinv v s -> page_of s p -> p ∉ kernel_pages s -> pg <> 0 -> (set_page p pg ;; free_page p ;; k) s = k s.
Proof.
  intros Hi Hp Hn H0. destruct (page_back v s p pg Hi Hp Hn) as [E1 E2]. unfold free_page, set_page, get_page, mbind, M_bind, modify, page_index in *. cbn.
  rewrite E2, (proj2 (Z.eqb_neq _ _) H0). cbn. rewrite E1. by destruct s.
Qed.
Lemma fail_user_map {A} v s p pg (k : BM A) : pinv v s -> page_of s p -> p ∉ kernel_pages s -> pg <> 0 ->
  (set_page p pg ;; map_kernel p ;; unmap_kernel_range p ;; free_page p ;; k) s = k s.
Proof.
  intros Hi Hp Hn H0. destruct (page_back v s p pg Hi Hp Hn) as [E1 E2]. unfold free_page, set_page, map_kernel, unmap_kernel_range, get_page, mbind, M_bind, modify, page_index in *. cbn.
  rewrite E2, (proj2 (Z.eqb_neq _ _) H0). cbn. rewrite E1. replace (({[p]} ∪ kernel_pages s) ∖ {[p]}) with (kernel_pages s) by set_solver. by destruct s.
Qed.
(** Freeing from a page that has just been mapped begins with that page. *)
Lemma free_pages_again s start p pg : pinv true s -> range s start p -> start <= p -> page_of s p -> p ∉ kernel_pages s -> pg <> 0 ->
  free_pages_down true start (p + 4096 - 4096) (put_page p pg s) = free_pages_down true start (p - PAGE_SIZE) s.
Proof.
  intros Hi (R1 & R2 & R3 & R4) Hle Hp Hn H0. replace (p + 4096 - 4096) with p by lia. unfold free_pages_down. erewrite bind_run by done. erewrite (bind_run _ get) by done.
  assert (page_index s p < length (pages s))%nat as Hlt by (by eapply page_index_lt).
  assert (free_range (S (length (pages (put_page p pg s)))) true start p (put_page p pg s) = free_range (S (length (pages s))) true start (p - PAGE_SIZE) s) as E.
  { cbn [pages put_page set_pages]. rewrite length_insert. rewrite free_range_step by (by apply put_page_inv || (cbn; set_solver +) || done). rewrite drop_put_page by done. change PAGE_SIZE with 4096.
    destruct (pi_area _ _ Hi). unfold page_index in Hlt. change PAGE_SIZE with 4096 in Hlt.
    apply (free_range_fuel true start (Z.to_nat ((p - start) `div` 4096))); Z.to_euclidean_division_equations; lia. }
  unfold mbind, M_bind. by rewrite E.
Qed.

(** The loop either maps the whole range, or ends as the loop that frees would from the page
    before. *)
Lemma alloc_range_run e start : env_ok e -> forall n s f p, (n < f)%nat -> pinv true s -> range s p (p + 4096 * Z.of_nat n) -> range s start p -> start <= p ->
  (forall q, in_range p (p + 4096 * Z.of_nat n) q -> q ∉ kernel_pages s) ->
  (alloc_range f e true start (p + 4096 * Z.of_nat n) p s = free_pages_down true start (p - PAGE_SIZE) s /\ exists q, in_range p (p + 4096 * Z.of_nat n) q /\ ~ gives_page e q) \/
  (exists s', alloc_range f e true start (p + 4096 * Z.of_nat n) p s = Some (0, s') /\ pages_only s s' /\ pinv true s' /\
    (forall q, in_range p (p + 4096 * Z.of_nat n) q -> gives_page e q) /\ forall q, q ∈ kernel_pages s' <-> q ∈ kernel_pages s \/ in_range p (p + 4096 * Z.of_nat n) q).
Proof.
  intros He. induction n as [|n IH]; intros s [|f] p Hf Hi Hr Hr0 Hle Hall; [lia| |lia|].
  - right. exists s. cbn [alloc_range]. rewrite (proj2 (Z.ltb_ge _ _)) by lia. unfold in_range.
    split_and!; [done|apply pages_only_refl|done|lia|]. intros q. split; [tauto|]. intros [|]; [done|lia].
  - destruct Hr as (R1 & R2 & R3 & R4). assert (page_of s p) as Hp by (split; [done|lia]). assert (in_range p (p + 4096 * Z.of_nat (S n)) p) as Hpin by (split; [done|lia]).
    pose proof (Hall p Hpin) as Hn. destruct (get_page_run _ s p Hi Hp) as (pg0 & Hg & Hiff). assert (pg0 = 0) as -> by (destruct (decide (pg0 = 0)); tauto).
    cbn [alloc_range]. rewrite (proj2 (Z.ltb_lt _ _)) by lia. mrun Hg. erewrite bind_run by done. specialize (He p).
    destruct (page_at e p) as [pg| |pg|pg] eqn:Ep.
    + rewrite put_page_run. destruct (IH (put_page p pg s) f (p + PAGE_SIZE)) as [[Hrun Hq]|(s' & Hrun & Ho & Hi' & Hg' & Hk)]; change PAGE_SIZE with 4096 in *.
      * lia.
      * by apply put_page_inv.
      * by replace (p + 4096 + 4096 * Z.of_nat n) with (p + 4096 * Z.of_nat (S n)) by lia; (split_and!; [rewrite next_page|..]; try done; cbn; lia).
      * split_and!; [apply Hr0|by rewrite next_page|apply Hr0|cbn; lia].
      * lia.
      * intros q [Hq1 Hq2]. cbn. rewrite not_elem_of_union, not_elem_of_singleton. split; [lia|]. apply Hall. split; [done|lia].
      * left. replace (p + 4096 * Z.of_nat (S n)) with (p + 4096 + 4096 * Z.of_nat n) by lia. rewrite Hrun. split; [by apply free_pages_again|].
        destruct Hq as (q & [Hq1 Hq2] & Hq3). exists q. split; [split; [done|lia]|done].
      * right. exists s'. replace (p + 4096 * Z.of_nat (S n)) with (p + 4096 + 4096 * Z.of_nat n) by lia. split_and!; [done|by eapply pages_only_trans, Ho|done| |].
        -- intros q Hq. destruct (decide (q = p)) as [->|Hne]; [by exists pg|]. apply Hg'. by apply range_rest.
        -- intros q. rewrite Hk. cbn. rewrite elem_of_union, elem_of_singleton. rewrite (range_first p (p + 4096 + 4096 * Z.of_nat n) q) by (done || lia). tauto.
    + left. split; [done|]. exists p. split; [done|]. intros [pg E]. congruence.
    + left. rewrite (fail_kernel_map true) by done. split; [done|]. exists p. split; [done|]. intros [pg' E]. congruence.
    + left. rewrite (fail_user_map true) by done. split; [done|]. exists p. split; [done|]. intros [pg' E]. congruence.
Qed.

(** ** [binder_update_page_range] *)
Definition has_vma e (vma_arg : bool) s : bool := if vma_arg then true else if mm e then vma s else false.
Lemma update_alloc_run e s start end_ vma_arg : env_ok e -> has_vma e vma_arg s = true -> pinv true s -> (start < end_ -> range s start end_) ->
  (forall q, in_range start end_ q -> q ∉ kernel_pages s) ->
  (binder_update_page_range e true start end_ vma_arg s = Some (- ENOMEM, s) /\ exists q, in_range start end_ q /\ ~ gives_page e q) \/
  (exists s', binder_update_page_range e true start end_ vma_arg s = Some (0, s') /\ pages_only s s' /\ pinv true s' /\
    (forall q, in_range start end_ q -> gives_page e q) /\ forall q, q ∈ kernel_pages s' <-> q ∈ kernel_pages s \/ in_range start end_ q).
Proof.
  intros He Hv Hi Hr Hall. unfold binder_update_page_range. destruct (Z.leb_spec end_ start) as [Hle|Hlt].
  { right. exists s. unfold in_range. split_and!; [done|apply pages_only_refl|done|lia|]. intros q. split; [tauto|]. intros [|]; [done|lia]. }
  specialize (Hr Hlt). assert (exists n, end_ = start + 4096 * Z.of_nat n) as [n ->].
  { destruct Hr as (R1 & R2 & _). exists (Z.to_nat ((end_ - start) `div` 4096)). Z.to_euclidean_division_equations. lia. }
  erewrite bind_run by done. cbv zeta. change (if vma_arg then true else _) with (has_vma e vma_arg s). rewrite Hv. cbn [negb].
  destruct (alloc_range_run e start He n s (S (length (pages s))) start) as [[-> Hq]|H]; [|done|done|by destruct Hr as (?&?&?&?); split_and!; try done; lia|lia|done| |by right].
  { destruct Hr as (_ & _ & R3 & R4). pose proof (pi_length _ _ Hi). destruct (pi_area _ _ Hi). Z.to_euclidean_division_equations. lia. }
  left. split; [|done]. unfold free_pages_down. erewrite bind_run by done. erewrite bind_run; [done|]. apply free_range_done. change PAGE_SIZE with 4096. lia.
Qed.
Lemma update_free_run e v s start end_ : has_vma e false s = v -> pinv v s -> (start < end_ -> range s start end_) -> (forall q, in_range start end_ q -> q ∈ kernel_pages s) ->
  exists r s', binder_update_page_range e false start end_ false s = Some (r, s') /\ pages_only s s' /\ pinv v s' /\
    forall q, q ∈ kernel_pages s' <-> q ∈ kernel_pages s /\ ~ in_range start end_ q.
Proof.
  intros Hv Hi Hr Hall. unfold binder_update_page_range. destruct (Z.leb_spec end_ start) as [Hle|Hlt].
  { exists 0, s. unfold in_range. split_and!; [done|apply pages_only_refl|done|]. intros q. split; [|tauto]. intros. split; [done|lia]. }
  erewrite bind_run by done. cbv zeta. change (if mm e then vma s else false) with (has_vma e false s). rewrite Hv. cbn [negb].
  destruct (free_pages_down_run v s start end_ Hi (Hr Hlt)) as (s' & H); [lia|done|]. by exists (- ENOMEM), s'.
Qed.

(** An access to the list and to the trees leaves the pages alone. *)
Definition same_pages s s' : Prop :=
  buffer s' = buffer s /\ buffer_size s' = buffer_size s /\ pages s' = pages s /\ kernel_pages s' = kernel_pages s /\ user_pages s' = user_pages s.
Lemma pinv_same v s s' : same_pages s s' -> pinv v s -> pinv v s'.
Proof.
  intros (E2 & E3 & E4 & E5 & E6) [[A1 A2 A3 A4 A5] H2 H3 H4 H5]. unfold page_of, page_index in *.
  split; [split; by rewrite ?E2, ?E3|by rewrite E4, E3| | |by rewrite E5, E6]; unfold page_of, page_index; rewrite E2, E3, E5; [done|by rewrite E4].
Qed.

End BinderPages.
