(* ===== verification/BinderHeap.v ===== *)
(** * The buffers of a binder area: invariant and operations

    The buffers tile the area in the order of the list, the free ones are in one tree and the
    allocated ones in the other, and the pages that are mapped are exactly those that some
    header or the data of some allocated buffer needs. *)
From stdpp Require Import prelude gmap list sorting.
From Stdlib Require Import ZArith Lia ZifyBool.
From S2P Require Import Prelude ListHead ListHeap Rbtree Ashmem BinderAlloc BinderPages.
Open Scope Z_scope.

Module BinderHeap.
Import Ashmem BinderAlloc BinderPages.
Implicit Types (s : binder_proc) (p b c : Z) (e : page_env) (bs fs als : list Z) (fr : Z -> bool).

(** ** Buffers that tile an area up to [fin] *)
Fixpoint tiled (fin : Z) bs : Prop :=
  match bs with [] => True | b :: r => b + sizeof_buffer <= hd fin r /\ b mod 4 = 0 /\ tiled fin r end.
(** The size of the data of a buffer. *)
Fixpoint size_of (fin : Z) bs (x : Z) : Z :=
  match bs with [] => 0 | b :: r => if b =? x then hd fin r - data b else size_of fin r x end.
Definition end_of (fin : Z) bs (x : Z) : Z := data x + size_of fin bs x.

Lemma tiled_app fin bs1 bs2 : tiled fin (bs1 ++ bs2) <-> tiled (hd fin bs2) bs1 /\ tiled fin bs2.
Proof.
  induction bs1 as [|b r IH]; cbn; [tauto|]. rewrite IH. assert (hd fin (r ++ bs2) = hd (hd fin bs2) r) as -> by (by destruct r). tauto.
Qed.
Lemma tiled_bounds fin bs x : tiled fin bs -> x ∈ bs -> hd fin bs <= x /\ x + sizeof_buffer <= fin /\ x mod 4 = 0.
Proof.
  revert x. unfold sizeof_buffer. induction bs as [|b r IH]; cbn; [set_solver|]. unfold sizeof_buffer. intros x (H1 & H2 & H3) [->|Hx]%elem_of_cons.
  - split_and!; [lia| |done]. destruct r as [|y r]; [done|]. cbn in H1. destruct (IH y H3) as (_ & ? & _); [set_solver +|]. lia.
  - destruct (IH x H3 Hx) as (? & ? & ?). split_and!; [lia|done..].
Qed.
(** A buffer ends where the next begins. *)
Lemma tiled_mid fin l1 b l2 : tiled fin (l1 ++ b :: l2) ->
  (forall x, x ∈ l1 -> x + sizeof_buffer <= b) /\ (forall x, x ∈ l2 -> hd fin l2 <= x) /\ b + sizeof_buffer <= hd fin l2 <= fin /\ b mod 4 = 0.
Proof.
  intros [H1 H2]%tiled_app. cbn in H1, H2. destruct H2 as (H2 & H3 & H4). split_and!; [|intros x Hx; by apply (tiled_bounds _ _ x H4)|done| |done].
  - intros x Hx. by apply (tiled_bounds _ _ x H1).
  - destruct l2 as [|y l2]; cbn; [lia|]. pose proof (tiled_bounds _ _ y H4 ltac:(set_solver +)) as (? & ? & ?). unfold sizeof_buffer in *. lia.
Qed.
Lemma tiled_nodup fin bs : tiled fin bs -> NoDup bs.
Proof.
  induction bs as [|b r IH]; [constructor|]. intros H. pose proof (tiled_mid fin [] b r H) as (_ & H1 & H2 & _). destruct H as (_ & _ & H). constructor; [|by apply IH].
  intros Hb%H1. unfold sizeof_buffer in *. lia.
Qed.
Lemma size_of_mid fin l1 b l2 : b ∉ l1 -> size_of fin (l1 ++ b :: l2) b = hd fin l2 - data b.
Proof.
  induction l1 as [|x l1 IH]; cbn; [by rewrite Z.eqb_refl|]. intros Hn. rewrite (proj2 (Z.eqb_neq x b)) by set_solver +Hn. apply IH. set_solver +Hn.
Qed.
Lemma tiled_split fin l1 b l2 : tiled fin (l1 ++ b :: l2) -> b ∉ l1 /\ b ∉ l2 /\ size_of fin (l1 ++ b :: l2) b = hd fin l2 - data b.
Proof.
  intros H. pose proof (tiled_mid _ _ _ _ H) as (H1 & H2 & H3 & _). unfold sizeof_buffer in *. assert (b ∉ l1) as Hn by (intros Hb%H1; lia).
  split_and!; [done|intros Hb%H2; lia|by apply size_of_mid].
Qed.
Lemma size_of_left fin l1 b l2 x : x ∈ l1 -> size_of fin (l1 ++ b :: l2) x = size_of b l1 x.
Proof.
  induction l1 as [|y l1 IH]; [set_solver|]. cbn. destruct (Z.eqb_spec y x) as [->|Hne]; [by destruct l1|]. intros Hx. apply IH. set_solver +Hx Hne.
Qed.
Lemma size_of_right fin l1 l2 x : x ∉ l1 -> size_of fin (l1 ++ l2) x = size_of fin l2 x.
Proof. induction l1 as [|y l1 IH]; [done|]. cbn. intros Hx. rewrite (proj2 (Z.eqb_neq y x)) by set_solver +Hx. apply IH. set_solver +Hx. Qed.
Lemma end_of_bounds fin bs x : tiled fin bs -> x ∈ bs -> data x <= end_of fin bs x <= fin.
Proof.
  intros H (l1 & l2 & ->)%list_elem_of_split. pose proof (tiled_mid _ _ _ _ H) as (_ & _ & H3 & _). unfold end_of. destruct (tiled_split _ _ _ _ H) as (_ & _ & ->).
  unfold data, sizeof_buffer in *. lia.
Qed.
Lemma end_of_left fin l1 b l2 x : tiled fin (l1 ++ b :: l2) -> x ∈ l1 -> end_of fin (l1 ++ b :: l2) x <= b.
Proof.
  intros [H _]%tiled_app Hx. unfold end_of. rewrite size_of_left by done. cbn in H. by apply end_of_bounds.
Qed.
(** A new buffer in the middle changes the size of the one before it only. *)
Lemma size_of_insert fin l1 b c l2 x : x <> b -> x <> c -> size_of fin (l1 ++ b :: c :: l2) x = size_of fin (l1 ++ b :: l2) x.
Proof.
  intros Hb Hc. destruct (decide (x ∈ l1)) as [Hx|Hx]; [by rewrite !size_of_left by done|]. rewrite !size_of_right by done. cbn.
  by rewrite !(proj2 (Z.eqb_neq _ x)) by congruence.
Qed.

(** ** The pages that are needed *)
Definition uses_header b p : Prop := b < p + 4096 /\ p < data b.
#[export] Instance uses_header_dec b p : Decision (uses_header b p).
Proof. unfold uses_header. apply _. Defined.
Definition inside (fin : Z) bs b p : Prop := data b <= p /\ p + 4096 <= end_of fin bs b.
Definition need fr (fin : Z) bs p : Prop := exists b, b ∈ bs /\ (uses_header b p \/ fr b = false /\ inside fin bs b p).

(** Where a header uses a page, in the terms of the code. *)
Lemma uses_header_pages b p : 0 <= b < 2 ^ 32 - 40 -> p mod 4096 = 0 -> uses_header b p <-> p = buffer_start_page b \/ p = buffer_end_page b.
Proof.
  intros Hb Hp. unfold uses_header, buffer_start_page, buffer_end_page, data, sizeof_buffer. destruct (page_floor b) as (k & -> & Hk); [lia|]. destruct (page_floor (b + 40 - 1)) as (j & -> & Hj); [lia|].
  pose proof (Z.div_mod p 4096). lia.
Qed.
(** A buffer that is taken or given back. *)
Lemma need_data fr fr' fin bs b p : tiled fin bs -> b ∈ bs -> fr b = true -> fr' b = false -> (forall x, x <> b -> fr' x = fr x) ->
  (need fr' fin bs p <-> need fr fin bs p \/ inside fin bs b p) /\ (inside fin bs b p -> ~ need fr fin bs p).
Proof.
  intros Ht Hb E1 E2 Hfr. split.
  - split.
    + intros (x & Hx & [Hu|[Hf Hi]]); [left; exists x; tauto|]. destruct (decide (x = b)) as [->|Hne]; [by right|]. left. exists x. rewrite <-Hfr by done. tauto.
    + intros [(x & Hx & [Hu|[Hf Hi]])|Hi]; [exists x; tauto| |exists b; tauto]. exists x. split; [done|]. right. rewrite Hfr; [done|]. intros ->. congruence.
  - intros [Hi1 Hi2] (x & Hx & Hux). apply list_elem_of_split in Hb as (l1 & l2 & ->). pose proof (tiled_mid _ _ _ _ Ht) as (H1 & H2 & H3 & _).
    unfold end_of in Hi2. destruct (tiled_split _ _ _ _ Ht) as (_ & _ & E). rewrite E in Hi2. unfold uses_header, inside, data, sizeof_buffer in *.
    apply elem_of_app in Hx as [Hx|[->|Hx]%elem_of_cons].
    + pose proof (end_of_left _ _ _ _ _ Ht Hx). specialize (H1 x Hx). lia.
    + destruct Hux as [|[? _]]; [lia|congruence].
    + specialize (H2 x Hx). lia.
Qed.
(** A free buffer [c] after a free buffer [b]: its header is the only thing there. *)
Definition only_header b c l2 p : Prop := uses_header c p /\ ~ uses_header b p /\ match l2 with [] => True | n :: _ => ~ uses_header n p end.
#[export] Instance only_header_dec b c l2 p : Decision (only_header b c l2 p).
Proof. unfold only_header. destruct l2; apply _. Defined.
Lemma need_delete fr fin l1 b c l2 p : tiled fin (l1 ++ b :: c :: l2) -> fr b = true -> fr c = true ->
  need fr fin (l1 ++ b :: l2) p <-> need fr fin (l1 ++ b :: c :: l2) p /\ ~ only_header b c l2 p.
Proof.
  intros Ht Eb Ec. pose proof (tiled_mid _ _ _ _ Ht) as (H1 & _ & H3 & _). cbn [hd] in H3.
  assert (l1 ++ b :: c :: l2 = (l1 ++ [b]) ++ c :: l2) as El by (by rewrite <-app_assoc). pose proof Ht as Ht'. rewrite El in Ht'. pose proof (tiled_mid _ _ _ _ Ht') as (_ & H5 & H6 & _).
  assert (forall x, fr x = false -> inside fin (l1 ++ b :: c :: l2) x p <-> inside fin (l1 ++ b :: l2) x p) as Hin.
  { intros x Hx. unfold inside, end_of. rewrite size_of_insert; [done|congruence..]. }
  assert (forall x n l, l2 = n :: l -> x ∈ l2 -> n <= x) as Hn by (intros x n l -> Hx; by apply (H5 x)).
  split.
  - intros (x & Hx & Hux). split.
    + exists x. split; [set_solver +Hx|]. destruct Hux as [Hu|[Hf Hi]]; [by left|right]. split; [done|]. by apply Hin.
    + intros (Hc & Hb & Hl2). apply elem_of_app in Hx as [Hx|[->|Hx]%elem_of_cons].
      * specialize (H1 x Hx). apply Hb. destruct Hux as [Hu|[Hf Hi]]; [|apply (Hin x Hf) in Hi; pose proof (end_of_left _ _ _ _ _ Ht Hx)]; unfold inside, uses_header, data, sizeof_buffer in *; lia.
      * destruct Hux as [Hu|[Hf _]]; [done|congruence].
      * destruct l2 as [|n l2]; [set_solver|]. specialize (Hn x n l2 eq_refl Hx). apply Hl2. cbn [hd] in H6.
        destruct Hux as [Hu|[Hf [Hi _]]]; unfold uses_header, data, sizeof_buffer in *; lia.
  - intros [(x & Hx & Hux) Hno]. destruct (decide (x = c)) as [->|Hne].
    + destruct Hux as [Hu|[Hf _]]; [|congruence]. assert (uses_header b p \/ exists n l, l2 = n :: l /\ uses_header n p) as [Hb|(n & l & -> & Hn')].
      { destruct (decide (uses_header b p)) as [|Hb]; [by left|right]. destruct l2 as [|n l]; [|destruct (decide (uses_header n p)) as [|Hn']; [by exists n, l|]]; exfalso; apply Hno; by refine (conj Hu (conj Hb _)). }
      * exists b. split; [set_solver +|by left].
      * exists n. split; [set_solver +|by left].
    + exists x. split; [set_solver +Hx Hne|]. destruct Hux as [Hu|[Hf Hi]]; [by left|right]. split; [done|]. by apply Hin.
Qed.
Lemma need_ext fr fr' fin bs p : (forall x, x ∈ bs -> fr' x = fr x) -> need fr' fin bs p <-> need fr fin bs p.
Proof. intros H. split; intros (x & Hx & Hux); exists x; (split; [done|]); by rewrite ?H in * by done. Qed.
(** The range that [binder_alloc_buf] maps, when the buffer is taken as a whole and when its
    rest becomes a free buffer. *)
Definition page_end (top last : Z) : Z := let end_ := PAGE_ALIGN top in let has := Z.land last PAGE_MASK in if end_ >? has then has else end_.
Lemma page_end_spec top last p : 0 <= top <= 2 ^ 32 - 4096 -> 0 <= last < 2 ^ 32 -> p mod 4096 = 0 -> p < page_end top last <-> p < top /\ p + 4096 <= last.
Proof.
  intros H1 H2 Hp. unfold page_end. destruct (page_ceil top H1) as (k & -> & Hk). destruct (page_floor last H2) as (j & -> & Hj). cbv zeta.
  pose proof (Z.div_mod p 4096). destruct (Z.gtb_spec (4096 * k) (4096 * j)); lia.
Qed.
Lemma page_start_spec x p : 0 <= x <= 2 ^ 32 - 4096 -> p mod 4096 = 0 -> PAGE_ALIGN x <= p <-> x <= p.
Proof. intros H1 Hp. destruct (page_ceil x H1) as (k & -> & Hk). pose proof (Z.div_mod p 4096). lia. Qed.
Lemma range_whole fin l1 b l2 sz p : tiled fin (l1 ++ b :: l2) -> 0 <= b -> fin <= 2 ^ 32 - 4096 -> 0 <= sz -> data b + sz <= hd fin l2 <= data b + sz + 44 -> p mod 4096 = 0 ->
  in_range (PAGE_ALIGN (data b)) (page_end (data b + sz) (hd fin l2)) p <-> inside fin (l1 ++ b :: l2) b p.
Proof.
  intros Ht Hb Hf Hsz Hn Hp. pose proof (tiled_mid _ _ _ _ Ht) as (_ & _ & H3 & _). unfold inside, end_of. destruct (tiled_split _ _ _ _ Ht) as (_ & _ & ->). unfold in_range.
  unfold data, sizeof_buffer in *. rewrite page_end_spec, page_start_spec by (done || lia). lia.
Qed.
Lemma range_split fin l1 b c l2 p : tiled fin (l1 ++ b :: c :: l2) -> 0 <= b -> fin <= 2 ^ 32 - 4096 -> fin mod 4096 = 0 -> p mod 4096 = 0 ->
  in_range (PAGE_ALIGN (data b)) (page_end (data c) (hd fin l2)) p <-> only_header b c l2 p \/ inside fin (l1 ++ b :: c :: l2) b p.
Proof.
  intros Ht Hb Hf Hfin Hp. pose proof (tiled_mid _ _ _ _ Ht) as (_ & _ & H3 & _). cbn [hd] in H3. unfold inside, end_of. destruct (tiled_split _ _ _ _ Ht) as (_ & _ & ->). cbn [hd].
  assert (l1 ++ b :: c :: l2 = (l1 ++ [b]) ++ c :: l2) as El by (by rewrite <-app_assoc). rewrite El in Ht. pose proof (tiled_mid _ _ _ _ Ht) as (_ & _ & H6 & _).
  assert (p < data c -> match l2 with [] => True | n :: _ => ~ uses_header n p end <-> p + 4096 <= hd fin l2) as Hl2.
  { unfold uses_header, data, sizeof_buffer in *. pose proof (Z.div_mod p 4096). pose proof (Z.div_mod fin 4096). destruct l2 as [|n l2]; cbn [hd] in *.
    - intros. split; [|done]. intros _. lia.
    - lia. }
  unfold in_range, only_header. destruct (decide (p < data c)) as [Hc|Hc]; [rewrite (Hl2 Hc)|]; clear Hl2;
    unfold uses_header, data, sizeof_buffer in *; rewrite page_end_spec, page_start_spec by (done || lia); lia.
Qed.
(** The pages that are needed after the buffer has been split, and before. *)
Lemma need_split fr fr' fin l1 b c l2 p : tiled fin (l1 ++ b :: c :: l2) -> tiled fin (l1 ++ b :: l2) -> fr b = true -> fr' b = false -> fr' c = true ->
  (forall x, x <> b -> x <> c -> fr' x = fr x) ->
  need fr' fin (l1 ++ b :: c :: l2) p <-> need fr fin (l1 ++ b :: l2) p \/ (only_header b c l2 p \/ inside fin (l1 ++ b :: c :: l2) b p).
Proof.
  intros Ht Ht0 E1 E2 E3 Hfr. set (fr2 := λ x, if x =? b then true else fr' x).
  assert (fr2 b = true) as E4 by (unfold fr2; by rewrite Z.eqb_refl). assert (c <> b) as Hcb by (intros ->; congruence).
  assert (forall x, x <> b -> fr' x = fr2 x) as Hfr2 by (intros x Hx; unfold fr2; by rewrite (proj2 (Z.eqb_neq _ _) Hx)).
  assert (fr2 c = true) as E5 by (by rewrite <-Hfr2).
  destruct (need_data fr2 fr' fin (l1 ++ b :: c :: l2) b p Ht ltac:(set_solver +) E4 E2 Hfr2) as [-> _].
  assert (c ∉ l1 ++ b :: l2) as Hc.
  { pose proof (tiled_nodup _ _ Ht) as Hnd. apply NoDup_app in Hnd as (_ & Hd & Hnd). apply NoDup_cons in Hnd as [_ Hnd]. apply NoDup_cons in Hnd as [Hc _].
    intros [Hx|[Hx|Hx]%elem_of_cons]%elem_of_app; [|done|done]. apply (Hd c Hx). set_solver +. }
  rewrite <-(need_ext fr fr2 fin (l1 ++ b :: l2) p).
  2: { intros x Hx. destruct (decide (x = b)) as [->|Hne]; [congruence|]. rewrite <-Hfr2 by done. apply Hfr; [done|]. by intros ->. }
  pose proof (need_delete fr2 fin l1 b c l2 p Ht E4 E5) as Hd. assert (only_header b c l2 p -> need fr2 fin (l1 ++ b :: c :: l2) p) as Ho.
  { intros (Hu & _). exists c. split; [set_solver +|by left]. }
  destruct (decide (only_header b c l2 p)); tauto.
Qed.

(** The pages of a header that is deleted: the flags of [binder_delete_free_buffer]. *)
Definition delete_flags b c l2 : bool * bool :=
  let shared := buffer_end_page b =? buffer_start_page c in
  let free_page_start := negb shared in
  let free_page_end := negb (shared && (buffer_end_page b =? buffer_end_page c)) in
  match l2 with
  | [] => (free_page_start, free_page_end)
  | n :: _ =>
      let shared := buffer_start_page n =? buffer_end_page c in
      (if shared && (buffer_start_page n =? buffer_start_page c) then false else free_page_start, if shared then false else free_page_end)
  end.
Lemma delete_range fin l1 b c l2 p : tiled fin (l1 ++ b :: c :: l2) -> 0 <= b -> fin <= 2 ^ 32 - 4096 -> p mod 4096 = 0 ->
  let '(free_page_start, free_page_end) := delete_flags b c l2 in
  only_header b c l2 p <-> free_page_start || free_page_end = true /\
    in_range (if free_page_start then buffer_start_page c else buffer_end_page c) ((if free_page_end then buffer_end_page c else buffer_start_page c) + PAGE_SIZE) p.
Proof.
  intros Ht Hb Hf Hp. pose proof (tiled_mid _ _ _ _ Ht) as (_ & _ & H3 & _). cbn [hd] in H3.
  assert (l1 ++ b :: c :: l2 = (l1 ++ [b]) ++ c :: l2) as El by (by rewrite <-app_assoc). rewrite El in Ht. pose proof (tiled_mid _ _ _ _ Ht) as (_ & _ & H6 & _).
  unfold delete_flags, only_header, in_range, buffer_start_page, buffer_end_page, uses_header, data, sizeof_buffer in *. change PAGE_SIZE with 4096.
  destruct (page_floor (b + 40 - 1)) as (kb & -> & Hkb); [lia|]. destruct (page_floor c) as (ks & -> & Hks); [lia|]. destruct (page_floor (c + 40 - 1)) as (ke & -> & Hke); [lia|].
  assert (exists j, p = 4096 * j) as [j ->] by (exists (p `div` 4096); pose proof (Z.div_mod p 4096); lia).
  destruct l2 as [|n l2]; cbn [hd] in *; [|destruct (page_floor n) as (kn & -> & Hkn); [lia|]];
    repeat match goal with |- context [?x =? ?y] => destruct (Z.eqb_spec x y) end; cbn [andb orb negb]; lia.
Qed.

(** ** The invariant *)
Definition fin s : Z := buffer s + buffer_size s.
Definition isfree s b : bool := match headers s !! b with Some h => bfree h | None => true end.
Record core s bs : Prop := {
  co_list : lrep (entries s) {[buffers s := bs]};
  co_head : head bs = Some (buffer s);
  co_tiled : tiled (fin s) bs;
  co_hdr : forall b, b ∈ bs -> exists h, headers s !! b = Some h;
  co_out : ~ (buffer s <= buffers s < fin s);
  co_pages : pinv (vma s) s;
  co_mapped : forall b, b ∈ bs -> header_mapped s b = true;
}.
(** The pages that are mapped are those that are needed. *)
Definition exact_pages s bs : Prop := forall p, p ∈ kernel_pages s <-> page_of s p /\ need (isfree s) (fin s) bs p.

Lemma co_bounds s bs b : core s bs -> b ∈ bs -> buffer s <= b /\ data b <= fin s /\ b mod 4 = 0 /\ 4096 <= b /\ fin s <= 2 ^ 32 - 4096 /\ fin s mod 4096 = 0.
Proof.
  intros Hc Hb. destruct (pi_area _ _ (co_pages _ _ Hc)) as [A1 A2 A3 A4 A5]. pose proof (tiled_bounds _ _ _ (co_tiled _ _ Hc) Hb) as (H1 & H2 & H3).
  pose proof (co_head _ _ Hc) as Hh. destruct bs as [|x bs]; [done|]. cbn in Hh, H1. injection Hh as ->. unfold data, fin in *. split_and!; [lia..|]. by rewrite Z.add_mod, A2, A4.
Qed.
Lemma mapped_pages s b : area_ok s -> buffer s <= b -> data b <= fin s -> (forall p, page_of s p -> uses_header b p -> p ∈ kernel_pages s) -> header_mapped s b = true.
Proof.
  intros [A1 A2 A3 A4 A5] H1 H2 Hall. unfold data, sizeof_buffer, fin in *.
  assert (forall p, p mod 4096 = 0 -> uses_header b p -> p ∈ kernel_pages s) as Hk.
  { intros p Hp Hu. apply Hall; [|done]. split; [done|]. destruct Hu as [U1 U2]. unfold data, sizeof_buffer in *.
    pose proof (Z.div_mod p 4096). pose proof (Z.div_mod (buffer s) 4096). lia. }
  unfold header_mapped. apply andb_true_iff. rewrite !bool_decide_eq_true. unfold buffer_start_page, buffer_end_page, sizeof_buffer.
  destruct (page_floor b) as (k & Ek & Hk1); [lia|]. destruct (page_floor (b + 40 - 1)) as (j & Ej & Hj); [lia|]. rewrite Ek, Ej.
  split; apply Hk; try (rewrite Z.mul_comm; apply Z.mod_mul; lia); unfold uses_header, data, sizeof_buffer; lia.
Qed.
Lemma load_buf_run s bs b : core s bs -> b ∈ bs -> exists h, headers s !! b = Some h /\ load_buf b s = Some (h, s).
Proof. intros Hc Hb. destruct (co_hdr _ _ Hc b Hb) as [h E]. exists h. split; [done|]. unfold load_buf. by rewrite (co_mapped _ _ Hc b Hb), E. Qed.
Lemma store_buf_run s bs b f h : core s bs -> b ∈ bs -> headers s !! b = Some h -> store_buf b f s = Some (tt, set_headers (<[b := f h]> (headers s)) s).
Proof. intros Hc Hb E. destruct (load_buf_run s bs b Hc Hb) as (h' & E' & Hrun). unfold store_buf. mrun Hrun. by rewrite E' in E; injection E as ->. Qed.

Lemma entries_run {A} (f : M mem A) s a m : f (entries s) = Some (a, m) -> on_entries f s = Some (a, set_entries m s).
Proof. intros H. unfold on_entries. by rewrite H. Qed.
Lemma entries_read {A} (f : M mem A) s a : f (entries s) = Some (a, entries s) -> on_entries f s = Some (a, s).
Proof. intros H. unfold on_entries. rewrite H. by destruct s. Qed.
Lemma free_run {A} (f : M rb_state A) s a t : f (free_buffers s) = Some (a, t) -> on_free f s = Some (a, set_free_tree t s).
Proof. intros H. unfold on_free. by rewrite H. Qed.
Lemma free_read {A} (f : M rb_state A) s a : f (free_buffers s) = Some (a, free_buffers s) -> on_free f s = Some (a, s).
Proof. intros H. unfold on_free. rewrite H. by destruct s. Qed.
Lemma alloc_run {A} (f : M rb_state A) s a t : f (allocated_buffers s) = Some (a, t) -> on_alloc f s = Some (a, set_alloc_tree t s).
Proof. intros H. unfold on_alloc. by rewrite H. Qed.
Lemma alloc_read {A} (f : M rb_state A) s a : f (allocated_buffers s) = Some (a, allocated_buffers s) -> on_alloc f s = Some (a, s).
Proof. intros H. unfold on_alloc. rewrite H. by destruct s. Qed.

(** The list. *)
Lemma entry_next_run s l1 b l2 : core s (l1 ++ b :: l2) -> on_entries (get_next b) s = Some (hd (buffers s) l2, s).
Proof. intros Hc. apply entries_read. eapply heap_next; [apply Hc|by rewrite lookup_singleton_eq]. Qed.
Lemma first_run s bs : core s bs -> on_entries (get_next (buffers s)) s = Some (buffer s, s).
Proof. intros Hc. apply entries_read. erewrite heap_first; [|apply Hc|by rewrite lookup_singleton_eq]. pose proof (co_head _ _ Hc). destruct bs; [done|]. cbn in *. congruence. Qed.
Lemma prev_run s l1 a b l2 : core s (l1 ++ a :: b :: l2) -> on_entries (get_prev b) s = Some (a, s).
Proof.
  intros Hc. apply entries_read. rewrite <-(lastd_snoc (buffers s) l1 a). eapply heap_get_prev; [apply Hc|]. rewrite lookup_singleton_eq. by rewrite <-app_assoc.
Qed.
Lemma head_notin s bs b : core s bs -> b ∈ bs -> b <> buffers s.
Proof.
  intros Hc Hb. pose proof (co_bounds _ _ _ Hc Hb) as (H1 & H2 & _). pose proof (co_out _ _ Hc). unfold data, sizeof_buffer in *. lia.
Qed.
Lemma is_last_run s l1 b l2 : core s (l1 ++ b :: l2) -> on_entries (list_is_last b (buffers s)) s = Some (match l2 with [] => true | _ => false end, s).
Proof.
  intros Hc. apply entries_read. unfold list_is_last. erewrite bind_run by (eapply heap_next; [apply Hc|by rewrite lookup_singleton_eq]).
  destruct l2 as [|n l2]; cbn; [by rewrite Z.eqb_refl|]. rewrite (proj2 (Z.eqb_neq _ _)); [done|]. eapply head_notin; [done|]. set_solver +.
Qed.
Lemma buffer_size_run s bs b : core s bs -> b ∈ bs -> binder_buffer_size b s = Some (size_of (fin s) bs b, s).
Proof.
  intros Hc (l1 & l2 & ->)%list_elem_of_split. destruct (tiled_split _ _ _ _ (co_tiled _ _ Hc)) as (_ & _ & ->). unfold binder_buffer_size. erewrite bind_run by done.
  mrun (is_last_run _ _ _ _ Hc). destruct l2 as [|n l2]; [done|]. by mrun (entry_next_run _ _ _ _ Hc).
Qed.

(** ** The trees *)
Definition le_size (f : Z -> Z) (x y : Z) : Prop := f x <= f y.
Definition in_tree s bs (v : bool) (l : list Z) : Prop := forall y, y ∈ l -> y ∈ bs /\ isfree s y = v.
Lemma isfree_load s bs b v : core s bs -> b ∈ bs -> isfree s b = v -> exists h, headers s !! b = Some h /\ load_buf b s = Some (h, s) /\ bfree h = v.
Proof. intros Hc Hb Hf. destruct (load_buf_run s bs b Hc Hb) as (h & E & Hrun). exists h. split_and!; [done..|]. unfold isfree in Hf. by rewrite E in Hf. Qed.
Lemma co_valid s bs b : core s bs -> b ∈ bs -> valid b.
Proof. intros Hc Hb. pose proof (co_bounds _ _ _ Hc Hb) as (_ & _ & H3 & H4 & _). apply valid_dec; lia. Qed.

Section descent.
Context (s : binder_proc) (bs : list Z) (Hc : core s bs).
Let sz := size_of (fin s) bs.

(** The descent to the place of a free buffer ends after the buffers that are not larger. *)
Lemma insert_free_loop_run x : valid x -> forall fuel k t, zrep (free_buffers s) k t -> (length (inorder t) < fuel)%nat -> in_tree s bs true (inorder t) ->
  StronglySorted (le_size sz) (inorder t) -> (forall a, a ∈ cleft k -> sz a <= sz x) -> (forall a, a ∈ cright k -> sz x < sz a) -> is_rb (plug k t) -> x ∉ inorder (plug k t) ->
  exists st' f1 f2, insert_free_loop fuel x (sz x) (cptr k) (link_of k) (tptr t) s = Some (tt, set_free_tree st' s) /\ tree_ok st' (f1 ++ x :: f2) /\ f1 ++ f2 = inorder (plug k t) /\
    (forall a, a ∈ f1 -> sz a <= sz x) /\ (forall a, a ∈ f2 -> sz x < sz a).
Proof.
  intros Hx. induction fuel as [|fuel IH]; intros k t Hz Hf Hin Hs HL HR Hrb Hn; [lia|]. cbn [insert_free_loop]. destruct t as [|c l y r].
  - cbn [tptr Z.eqb]. rewrite inorder_plug in Hn. assert (x ∉ cids k) as Hxk by (rewrite cids_perm; set_solver +Hn).
    destruct (rb_link_node_run _ _ x Hz Hx Hxk) as (st1 & H1 & Hz1). erewrite bind_run by (by apply free_run).
    destruct (rb_insert_color_run _ _ _ Hz1 Hrb) as (st2 & t & H2 & Hz2 & Hrb2 & Hi). exists st2, (cleft k), (cright k). split_and!; [exact (free_run (rb_insert_color x) (set_free_tree st1 s) tt st2 H2)|by exists t| |done..].
    by rewrite inorder_plug.
  - destruct (zrep_valid _ _ _ _ _ _ Hz) as [_ Hy]. cbn [tptr]. rewrite (proj2 (Z.eqb_neq _ _) Hy). cbn [inorder] in Hf, Hs, Hin. rewrite length_app in Hf. cbn in Hf.
    apply StronglySorted_app in Hs as (H1 & H2 & H3). apply StronglySorted_cons in H3 as [H3 H4]. rewrite Forall_forall in H3.
    erewrite bind_run by (apply free_read; by eapply zrep_load). destruct (Hin y) as [Hyb Hyf]; [set_solver +|]. destruct (isfree_load _ _ _ _ Hc Hyb Hyf) as (h & E & Hrun & Hfr).
    mrun Hrun. rewrite Hfr. erewrite bind_run by done. mrun (buffer_size_run _ _ _ Hc Hyb). fold sz. cbn [rb_left rb_right]. destruct (Z.ltb_spec (sz x) (sz y)) as [Hlt|Hge].
    + apply (IH (Lf c y r :: k) l); [by apply zdn_L|lia|intros z Hz'; apply Hin; set_solver +Hz'|done|done| |done|done].
      cbn. intros a [->|[Ha|Ha]%elem_of_app]%elem_of_cons; [done| |by apply HR]. specialize (H3 a Ha). unfold le_size in H3. lia.
    + apply (IH (Rf c l y :: k) r); [by apply zdn_R|lia|intros z Hz'; apply Hin; set_solver +Hz'|done| |done|done|done].
      cbn. intros a Ha. rewrite !elem_of_app, list_elem_of_singleton in Ha. destruct Ha as [Ha|[Ha| ->]]; [by apply HL| |lia]. specialize (H1 a y Ha ltac:(set_solver +)). unfold le_size in H1. lia.
Qed.
Lemma insert_free_run x fs : x ∈ bs -> isfree s x = true -> tree_ok (free_buffers s) fs -> in_tree s bs true fs -> StronglySorted (le_size sz) fs -> x ∉ fs ->
  exists st' f1 f2, binder_insert_free_buffer x s = Some (tt, set_free_tree st' s) /\ tree_ok st' (f1 ++ x :: f2) /\ fs = f1 ++ f2 /\ StronglySorted (le_size sz) (f1 ++ x :: f2).
Proof.
  intros Hx Hfx (t & Hz & Hrb & Ht) Hin Hs Hn. unfold binder_insert_free_buffer. destruct (isfree_load _ _ _ _ Hc Hx Hfx) as (h & E & Hrun & Hfr).
  mrun Hrun. rewrite Hfr. erewrite bind_run by done. mrun (buffer_size_run _ _ _ Hc Hx). fold sz. erewrite bind_run by done.
  assert (root (free_buffers s) = tptr t) as -> by (by destruct Hz as [_ Hcr _ _]). pose proof (zrep_fuel _ _ _ Hz) as Hfuel. cbn in Hfuel. rewrite Ht in Hfuel.
  destruct (insert_free_loop_run x (co_valid _ _ _ Hc Hx) (S (size (nodes (free_buffers s)))) [] t) as (st' & f1 & f2 & H1 & H2 & H3 & H4 & H5); try done; rewrite ?Ht; try done; [lia|set_solver +|set_solver +|cbn; by rewrite Ht|].
  exists st', f1, f2. cbn in H3. rewrite Ht in H3. clear Ht. subst fs. split_and!; [done..|]. apply StronglySorted_app in Hs as (S1 & S2 & S3). apply StronglySorted_app. split_and!; [|done|].
  - intros a a' Ha [->|Ha']%elem_of_cons; [by apply H4|by apply S1].
  - constructor; [done|]. apply Forall_forall. intros a Ha. specialize (H5 a Ha). unfold le_size. lia.
Qed.

(** The descent by address. *)
Lemma insert_allocated_loop_run x : valid x -> forall fuel k t, zrep (allocated_buffers s) k t -> (length (inorder t) < fuel)%nat -> in_tree s bs false (inorder t) ->
  StronglySorted Z.lt (inorder t) -> (forall a, a ∈ cleft k -> a < x) -> (forall a, a ∈ cright k -> x < a) -> is_rb (plug k t) -> x ∉ inorder (plug k t) ->
  exists st' f1 f2, insert_allocated_loop fuel x (cptr k) (link_of k) (tptr t) s = Some (tt, set_alloc_tree st' s) /\ tree_ok st' (f1 ++ x :: f2) /\ f1 ++ f2 = inorder (plug k t) /\
    (forall a, a ∈ f1 -> a < x) /\ (forall a, a ∈ f2 -> x < a).
Proof.
  intros Hx. induction fuel as [|fuel IH]; intros k t Hz Hf Hin Hs HL HR Hrb Hn; [lia|]. cbn [insert_allocated_loop]. destruct t as [|c l y r].
  - cbn [tptr Z.eqb]. rewrite inorder_plug in Hn. assert (x ∉ cids k) as Hxk by (rewrite cids_perm; set_solver +Hn).
    destruct (rb_link_node_run _ _ x Hz Hx Hxk) as (st1 & H1 & Hz1). erewrite bind_run by (by apply alloc_run).
    destruct (rb_insert_color_run _ _ _ Hz1 Hrb) as (st2 & t & H2 & Hz2 & Hrb2 & Hi). exists st2, (cleft k), (cright k).
    split_and!; [exact (alloc_run (rb_insert_color x) (set_alloc_tree st1 s) tt st2 H2)|by exists t| |done..]. by rewrite inorder_plug.
  - destruct (zrep_valid _ _ _ _ _ _ Hz) as [_ Hy]. cbn [tptr]. rewrite (proj2 (Z.eqb_neq _ _) Hy). cbn [inorder] in Hf, Hs, Hin. rewrite length_app in Hf. cbn in Hf.
    apply StronglySorted_app in Hs as (H1 & H2 & H3). apply StronglySorted_cons in H3 as [H3 H4]. rewrite Forall_forall in H3.
    erewrite bind_run by (apply alloc_read; by eapply zrep_load). destruct (Hin y) as [Hyb Hyf]; [set_solver +|]. destruct (isfree_load _ _ _ _ Hc Hyb Hyf) as (h & E & Hrun & Hfr).
    mrun Hrun. rewrite Hfr. erewrite bind_run by done. cbn [rb_left rb_right]. destruct (Z.ltb_spec x y) as [Hlt|Hge]; [|rewrite Z.gtb_ltb; destruct (Z.ltb_spec y x) as [Hlt|Hge']].
    + apply (IH (Lf c y r :: k) l); [by apply zdn_L|lia|intros z Hz'; apply Hin; set_solver +Hz'|done|done| |done|done].
      cbn. intros a [->|[Ha|Ha]%elem_of_app]%elem_of_cons; [done| |by apply HR]. specialize (H3 a Ha). lia.
    + apply (IH (Rf c l y :: k) r); [by apply zdn_R|lia|intros z Hz'; apply Hin; set_solver +Hz'|done| |done|done|done].
      cbn. intros a Ha. rewrite !elem_of_app, list_elem_of_singleton in Ha. destruct Ha as [Ha|[Ha| ->]]; [by apply HL| |lia]. specialize (H1 a y Ha ltac:(set_solver +)). lia.
    + exfalso. apply Hn. rewrite inorder_plug. cbn. assert (x = y) as -> by lia. set_solver +.
Qed.
Lemma insert_allocated_run x als : x ∈ bs -> isfree s x = false -> tree_ok (allocated_buffers s) als -> in_tree s bs false als -> StronglySorted Z.lt als -> x ∉ als ->
  exists st' f1 f2, binder_insert_allocated_buffer x s = Some (tt, set_alloc_tree st' s) /\ tree_ok st' (f1 ++ x :: f2) /\ als = f1 ++ f2 /\ StronglySorted Z.lt (f1 ++ x :: f2).
Proof.
  intros Hx Hfx (t & Hz & Hrb & Ht) Hin Hs Hn. unfold binder_insert_allocated_buffer. destruct (isfree_load _ _ _ _ Hc Hx Hfx) as (h & E & Hrun & Hfr).
  mrun Hrun. rewrite Hfr. erewrite bind_run by done. erewrite bind_run by done.
  assert (root (allocated_buffers s) = tptr t) as -> by (by destruct Hz as [_ Hcr _ _]). pose proof (zrep_fuel _ _ _ Hz) as Hfuel. cbn in Hfuel. rewrite Ht in Hfuel.
  destruct (insert_allocated_loop_run x (co_valid _ _ _ Hc Hx) (S (size (nodes (allocated_buffers s)))) [] t) as (st' & f1 & f2 & H1 & H2 & H3 & H4 & H5); try done; rewrite ?Ht; try done;
    [lia|set_solver +|set_solver +|cbn; by rewrite Ht|].
  exists st', f1, f2. cbn in H3. rewrite Ht in H3. clear Ht. subst als. split_and!; [done..|]. apply StronglySorted_app in Hs as (S1 & S2 & S3). apply StronglySorted_app. split_and!; [|done|].
  - intros a a' Ha [->|Ha']%elem_of_cons; [by apply H4|by apply S1].
  - constructor; [done|]. apply Forall_forall. intros a Ha. by apply H5.
Qed.
Lemma buffer_lookup_loop_run x : forall fuel k t, zrep (allocated_buffers s) k t -> (length (inorder t) < fuel)%nat -> in_tree s bs false (inorder t) -> StronglySorted Z.lt (inorder t) ->
  buffer_lookup_loop fuel x (tptr t) s = Some (if decide (x ∈ inorder t) then x else 0, s).
Proof.
  induction fuel as [|fuel IH]; intros k t Hz Hf Hin Hs; [lia|]. cbn [buffer_lookup_loop]. destruct t as [|c l y r]; [done|].
  destruct (zrep_valid _ _ _ _ _ _ Hz) as [_ Hy]. cbn [tptr]. rewrite (proj2 (Z.eqb_neq _ _) Hy). cbn [inorder] in *. rewrite length_app in Hf. cbn in Hf.
  apply StronglySorted_app in Hs as (H1 & H2 & H3). apply StronglySorted_cons in H3 as [H3 H4]. rewrite Forall_forall in H3.
  erewrite bind_run by (apply alloc_read; by eapply zrep_load). destruct (Hin y) as [Hyb Hyf]; [set_solver +|]. destruct (isfree_load _ _ _ _ Hc Hyb Hyf) as (h & E & Hrun & Hfr).
  mrun Hrun. rewrite Hfr. erewrite bind_run by done. cbn [rb_left rb_right]. destruct (Z.ltb_spec x y) as [Hlt|Hge]; [|rewrite Z.gtb_ltb; destruct (Z.ltb_spec y x) as [Hlt|Hge']].
  - rewrite (IH (Lf c y r :: k) l); [|by apply zdn_L|lia|intros z Hz'; apply Hin; set_solver +Hz'|done]. do 2 f_equal. apply decide_ext. rewrite elem_of_app, elem_of_cons.
    split; [tauto|]. intros [|[->|Hx%H3]]; [done|lia..].
  - rewrite (IH (Rf c l y :: k) r); [|by apply zdn_R|lia|intros z Hz'; apply Hin; set_solver +Hz'|done]. do 2 f_equal. apply decide_ext. rewrite elem_of_app, elem_of_cons.
    split; [tauto|]. intros [Hx|[->|Hx]]; [|lia|done]. specialize (H1 x y Hx ltac:(set_solver +)). lia.
  - assert (x = y) as -> by lia. rewrite decide_True by set_solver +. done.
Qed.
Lemma buffer_lookup_run als user_ptr : tree_ok (allocated_buffers s) als -> in_tree s bs false als -> StronglySorted Z.lt als ->
  let x := u32 (user_ptr - user_buffer_offset s - sizeof_buffer) in binder_buffer_lookup user_ptr s = Some (if decide (x ∈ als) then x else 0, s).
Proof.
  intros (t & Hz & Hrb & Ht) Hin Hs x. unfold binder_buffer_lookup. erewrite bind_run by done. cbv zeta. fold x.
  assert (root (allocated_buffers s) = tptr t) as -> by (by destruct Hz as [_ Hcr _ _]). pose proof (zrep_fuel _ _ _ Hz) as Hfuel. cbn in Hfuel.
  rewrite (buffer_lookup_loop_run x _ [] t) by (done || lia || by rewrite Ht). by rewrite Ht.
Qed.

(** The search for a best fit: a buffer of the size, or else the first of the larger ones. *)
Lemma best_fit_loop_run need_ : forall fuel k t, zrep (free_buffers s) k t -> (length (inorder t) < fuel)%nat -> in_tree s bs true (inorder t) ->
  StronglySorted (le_size sz) (inorder t) -> (forall a, a ∈ cleft k -> sz a < need_) -> (forall a, a ∈ cright k -> need_ < sz a) ->
  (exists y, y ∈ inorder t /\ sz y = need_ /\ best_fit_loop fuel need_ (tptr t) (hd0 (cright k)) s = Some (inl (y, need_), s)) \/
  (exists l1 l2, inorder (plug k t) = l1 ++ l2 /\ (forall a, a ∈ l1 -> sz a < need_) /\ (forall a, a ∈ l2 -> need_ < sz a) /\
    best_fit_loop fuel need_ (tptr t) (hd0 (cright k)) s = Some (inr (hd0 l2), s)).
Proof.
  induction fuel as [|fuel IH]; intros k t Hz Hf Hin Hs HL HR; [lia|]. cbn [best_fit_loop]. destruct t as [|c l y r].
  { right. exists (cleft k), (cright k). split_and!; [by rewrite inorder_plug|done..]. }
  destruct (zrep_valid _ _ _ _ _ _ Hz) as [_ Hy]. cbn [tptr]. rewrite (proj2 (Z.eqb_neq _ _) Hy). cbn [inorder] in Hf, Hs, Hin. rewrite length_app in Hf. cbn in Hf.
  apply StronglySorted_app in Hs as (H1 & H2 & H3). apply StronglySorted_cons in H3 as [H3 H4]. rewrite Forall_forall in H3.
  erewrite bind_run by (apply free_read; by eapply zrep_load). destruct (Hin y) as [Hyb Hyf]; [set_solver +|]. destruct (isfree_load _ _ _ _ Hc Hyb Hyf) as (h & E & Hrun & Hfr).
  mrun Hrun. rewrite Hfr. erewrite bind_run by done. mrun (buffer_size_run _ _ _ Hc Hyb). fold sz. cbn [rb_left rb_right].
  destruct (Z.ltb_spec need_ (sz y)) as [Hlt|Hge]; [|rewrite Z.gtb_ltb; destruct (Z.ltb_spec (sz y) need_) as [Hlt|Hge']].
  - destruct (IH (Lf c y r :: k) l) as [(z & Hz' & Ez & Hrun')|H]; [by apply zdn_L|lia|intros z Hz'; apply Hin; set_solver +Hz'|done|done| |left; exists z; split_and!; [cbn; set_solver +Hz'|done..]|by right].
    cbn. intros a [->|[Ha|Ha]%elem_of_app]%elem_of_cons; [done| |by apply HR]. specialize (H3 a Ha). unfold le_size in H3. lia.
  - destruct (IH (Rf c l y :: k) r) as [(z & Hz' & Ez & Hrun')|H]; [by apply zdn_R|lia|intros z Hz'; apply Hin; set_solver +Hz'|done| |done|left; exists z; split_and!; [cbn; set_solver +Hz'|done..]|by right].
    cbn. intros a Ha. rewrite !elem_of_app, list_elem_of_singleton in Ha. destruct Ha as [Ha|[Ha| ->]]; [by apply HL| |lia]. specialize (H1 a y Ha ltac:(set_solver +)). unfold le_size in H1. lia.
  - left. exists y. assert (sz y = need_) as -> by lia. split_and!; [cbn; set_solver +|lia|done].
Qed.
Definition fits (n : Z) fs y : Prop := y ∈ fs /\ n <= sz y /\ forall a, a ∈ fs -> n <= sz a -> sz y <= sz a.
Lemma best_fit_run n fs : tree_ok (free_buffers s) fs -> in_tree s bs true fs -> StronglySorted (le_size sz) fs ->
  let run := best_fit_loop (S (size (nodes (free_buffers s)))) n (root (free_buffers s)) 0 s in
  (exists y, fits n fs y /\ sz y = n /\ run = Some (inl (y, sz y), s)) \/ ((forall a, a ∈ fs -> sz a < n) /\ run = Some (inr 0, s)) \/ (exists y, fits n fs y /\ n < sz y /\ run = Some (inr y, s)).
Proof.
  intros (t & Hz & Hrb & Ht) Hin Hs run. unfold run. assert (root (free_buffers s) = tptr t) as -> by (by destruct Hz as [_ Hcr _ _]). pose proof (zrep_fuel _ _ _ Hz) as Hfuel. cbn in Hfuel.
  destruct (best_fit_loop_run n (S (size (nodes (free_buffers s)))) [] t) as [(y & Hy & Ey & Hrun)|(l1 & l2 & Hl & H1 & H2 & Hrun)]; try (done || by rewrite Ht); [lia|set_solver +|set_solver +| |].
  - left. exists y. rewrite Ey. split_and!; [|done..]. rewrite Ht in Hy. split_and!; [done|lia|]. intros. lia.
  - cbn in Hl, Hrun. rewrite Ht in Hl. clear Ht. subst fs. destruct l2 as [|y l2]; cbn in Hrun.
    + right. left. split; [|done]. intros a Ha. apply H1. by rewrite app_nil_r in Ha.
    + right. right. exists y. pose proof (H2 y ltac:(set_solver +)). split_and!; [|done..]. split_and!; [set_solver +|lia|]. intros a [Ha%H1|Ha]%elem_of_app Hn; [lia|].
      apply StronglySorted_app in Hs as (_ & _ & Hs). apply StronglySorted_cons in Hs as [Hs _]. rewrite Forall_forall in Hs. apply elem_of_cons in Ha as [->|Ha]; [lia|by apply Hs].
Qed.
End descent.

Lemma erase_free_run s l1 x l2 : tree_ok (free_buffers s) (l1 ++ x :: l2) -> exists st', on_free (rb_erase x) s = Some (tt, set_free_tree st' s) /\ tree_ok st' (l1 ++ l2).
Proof.
  intros (t & Hz & Hrb & Ht). destruct (rb_erase_run _ t x l1 l2 Hz Hrb Ht) as (st' & t' & Hrun & H). exists st'. split; [by apply free_run|by exists t'].
Qed.
Lemma erase_alloc_run s l1 x l2 : tree_ok (allocated_buffers s) (l1 ++ x :: l2) -> exists st', on_alloc (rb_erase x) s = Some (tt, set_alloc_tree st' s) /\ tree_ok st' (l1 ++ l2).
Proof.
  intros (t & Hz & Hrb & Ht). destruct (rb_erase_run _ t x l1 l2 Hz Hrb Ht) as (st' & t' & Hrun & H). exists st'. split; [by apply alloc_run|by exists t'].
Qed.
(** ** What the invariant does not depend on *)
Lemma core_free_tree s bs t : core s bs -> core (set_free_tree t s) bs.
Proof. intros [H1 H2 H3 H4 H5 H6 H7]. split; [done..|by apply (pinv_same _ s)|done]. Qed.
Lemma core_alloc_tree s bs t : core s bs -> core (set_alloc_tree t s) bs.
Proof. intros [H1 H2 H3 H4 H5 H6 H7]. split; [done..|by apply (pinv_same _ s)|done]. Qed.
Lemma core_async s bs z : core s bs -> core (set_async z s) bs.
Proof. intros [H1 H2 H3 H4 H5 H6 H7]. split; [done..|by apply (pinv_same _ s)|done]. Qed.
Lemma core_header s bs b h : core s bs -> core (set_headers (<[b := h]> (headers s)) s) bs.
Proof.
  intros [H1 H2 H3 H4 H5 H6 H7]. split; [done..| |done|by apply (pinv_same _ s)|done]. intros x Hx. cbn. destruct (decide (x = b)) as [->|Hne]; [rewrite lookup_insert_eq; eauto|].
  rewrite lookup_insert_ne by done. by apply H4.
Qed.

(** ** [binder_delete_free_buffer] *)
Lemma page_of_header s bs b p : core s bs -> b ∈ bs -> p mod 4096 = 0 -> uses_header b p -> page_of s p.
Proof.
  intros Hc Hb Hp [U1 U2]. pose proof (co_bounds _ _ _ Hc Hb) as (H1 & H2 & _ & _ & _ & H6). destruct (pi_area _ _ (co_pages _ _ Hc)) as [A1 A2 A3 A4 A5]. split; [done|].
  unfold fin, data, sizeof_buffer in *. pose proof (Z.div_mod p 4096). pose proof (Z.div_mod (buffer s) 4096). pose proof (Z.div_mod (buffer_size s) 4096). lia.
Qed.
Lemma header_pages s bs b : core s bs -> b ∈ bs -> page_of s (buffer_start_page b) /\ page_of s (buffer_end_page b).
Proof.
  intros Hc Hb. pose proof (co_bounds _ _ _ Hc Hb) as (H1 & H2 & _ & H4 & H5 & _). unfold data, sizeof_buffer in *.
  assert (buffer_start_page b mod 4096 = 0 /\ buffer_end_page b mod 4096 = 0) as [M1 M2].
  { unfold buffer_start_page, buffer_end_page, sizeof_buffer. destruct (page_floor b) as (k & -> & _); [lia|]. destruct (page_floor (b + 40 - 1)) as (j & -> & _); [lia|]. rewrite !(Z.mul_comm 4096), !Z.mod_mul; lia. }
  split; (eapply page_of_header; [done|done|done|]); apply uses_header_pages; (lia || tauto).
Qed.
Lemma page_range s p q : area_ok s -> page_of s p -> page_of s q -> range s p (q + PAGE_SIZE).
Proof.
  intros [A1 A2 A3 A4 A5] [P1 P2] [Q1 Q2]. change PAGE_SIZE with 4096. split_and!; [done|by rewrite next_page|lia|].
  pose proof (Z.div_mod q 4096). pose proof (Z.div_mod (buffer s) 4096). pose proof (Z.div_mod (buffer_size s) 4096). lia.
Qed.
(** The part of the code after the flags. *)
Definition delete_pages e (flags : bool * bool) c : BM unit :=
  if fst flags || snd flags then
    binder_update_page_range e false (if fst flags then buffer_start_page c else buffer_end_page c) ((if snd flags then buffer_end_page c else buffer_start_page c) + PAGE_SIZE) false ;; mret tt
  else mret tt.
Lemma delete_code e s l1 b c l2 : core s (l1 ++ b :: c :: l2) -> isfree s b = true ->
  binder_delete_free_buffer e c s = (on_entries (list_del c) ;; delete_pages e (delete_flags b c l2) c) s.
Proof.
  intros Hc Hb. assert (l1 ++ b :: c :: l2 = (l1 ++ [b]) ++ c :: l2) as El by (by rewrite <-app_assoc). pose proof Hc as Hc'. rewrite El in Hc'.
  assert (b ∈ l1 ++ b :: c :: l2) as Hin by set_solver +. unfold binder_delete_free_buffer. erewrite bind_run by done. mrun (first_run _ _ Hc).
  pose proof (co_bounds _ _ _ Hc Hin) as (H1 & _). pose proof (tiled_mid _ _ _ _ (co_tiled _ _ Hc)) as (_ & _ & H3 & _). cbn [hd] in H3. unfold sizeof_buffer in H3.
  rewrite (proj2 (Z.eqb_neq (buffer s) c)) by lia. erewrite bind_run by done. mrun (prev_run _ _ _ _ _ Hc). destruct (isfree_load _ _ _ _ Hc Hin Hb) as (h & _ & Hrun & Hf).
  mrun Hrun. rewrite Hf. erewrite bind_run by done. cbv zeta. mrun (is_last_run _ _ _ _ Hc'). destruct l2 as [|n l2].
  - by rewrite bind_mret_l.
  - rewrite bind_assoc. mrun (entry_next_run _ _ _ _ Hc'). by rewrite bind_mret_l.
Qed.
Lemma delete_pages_run e s s1 l1 b c l2 : core s (l1 ++ b :: c :: l2) -> exact_pages s (l1 ++ b :: c :: l2) -> same_pages s s1 -> has_vma e false s1 = vma s ->
  exists s', delete_pages e (delete_flags b c l2) c s1 = Some (tt, s') /\ pages_only s1 s' /\ pinv (vma s) s' /\ forall p, p ∈ kernel_pages s' <-> p ∈ kernel_pages s /\ ~ only_header b c l2 p.
Proof.
  intros Hc Hex Hsame Hv. assert (c ∈ l1 ++ b :: c :: l2) as Hcin by set_solver +. destruct (header_pages _ _ _ Hc Hcin) as [P1 P2].
  pose proof (co_bounds _ _ c Hc Hcin) as (_ & _ & _ & _ & F1 & F2). pose proof (co_bounds _ _ b Hc ltac:(set_solver +)) as (_ & _ & _ & B1 & _).
  pose proof (pinv_same _ _ _ Hsame (co_pages _ _ Hc)) as Hi1. pose proof (pi_area _ _ Hi1) as A1. destruct Hsame as (E2 & E3 & E4 & E5 & E6).
  assert (page_of s1 (buffer_start_page c) /\ page_of s1 (buffer_end_page c)) as [P1' P2'] by (unfold page_of in *; by rewrite E2, E3).
  pose proof (fun p Hp => delete_range (fin s) l1 b c l2 p (co_tiled _ _ Hc) ltac:(lia) F1 Hp) as Hr. destruct (delete_flags b c l2) as [f1 f2]. unfold delete_pages. cbn [fst snd].
  destruct (f1 || f2) eqn:Ef.
  - destruct (update_free_run e (vma s) s1 (if f1 then buffer_start_page c else buffer_end_page c) ((if f2 then buffer_end_page c else buffer_start_page c) + PAGE_SIZE) Hv Hi1) as (r & s' & Hrun & Ho & Hi' & Hk).
    + intros _. apply page_range; [done|by destruct f1|by destruct f2].
    + intros p Hp. rewrite E5. destruct (proj2 (Hr p (proj1 Hp)) (conj eq_refl Hp)) as [Hu _]. apply Hex. split; [by eapply page_of_header; [| |apply Hp|]|]. exists c. split; [done|by left].
    + mrun Hrun. exists s'. split_and!; [done..|]. intros p. rewrite Hk, E5. split; intros [H1 H2]; (split; [done|]); [intros H3|intros H3]; apply H2; apply (Hr p); try done; try apply H3; apply (pi_in _ _ (co_pages _ _ Hc) p H1).
  - exists s1. split_and!; [done|apply pages_only_refl|done|]. intros p. rewrite E5. split; [|tauto]. intros Hp. split; [done|]. intros Ho. apply Hr in Ho as [? _]; [done|]. apply (pi_in _ _ (co_pages _ _ Hc) p Hp).
Qed.
Lemma delete_run e s l1 b c l2 : has_vma e false s = vma s -> core s (l1 ++ b :: c :: l2) -> exact_pages s (l1 ++ b :: c :: l2) -> isfree s b = true -> isfree s c = true ->
  exists s', binder_delete_free_buffer e c s = Some (tt, s') /\ core s' (l1 ++ b :: l2) /\ exact_pages s' (l1 ++ b :: l2) /\
    s' = set_pages (pages s') (kernel_pages s') (user_pages s') (set_entries (entries s') s).
Proof.
  intros Hv Hc Hex Eb Ec. rewrite (delete_code e s l1 b c l2 Hc Eb). assert (l1 ++ b :: c :: l2 = (l1 ++ [b]) ++ c :: l2) as El by (by rewrite <-app_assoc).
  destruct (heap_del (entries s) {[buffers s := l1 ++ b :: c :: l2]} (buffers s) (l1 ++ [b]) l2 c (co_list _ _ Hc)) as (m' & Hdel & Hr & _); [by rewrite lookup_singleton_eq, El|].
  rewrite insert_singleton_eq, <-app_assoc in Hr. cbn [app] in Hr. mrun (entries_run _ _ _ _ Hdel). set (s1 := set_entries m' s).
  destruct (delete_pages_run e s s1 l1 b c l2 Hc Hex) as (s' & Hrun & Ho & Hi & Hk); [done|done|]. rewrite Hrun. exists s'. unfold pages_only in Ho.
  assert (forall p, p ∈ kernel_pages s' <-> page_of s p /\ need (isfree s) (fin s) (l1 ++ b :: l2) p) as Hex'.
  { intros p. rewrite Hk, (Hex p), (need_delete _ _ _ _ _ _ _ (co_tiled _ _ Hc) Eb Ec). tauto. }
  assert (tiled (fin s) (l1 ++ b :: l2)) as Ht.
  { pose proof (co_tiled _ _ Hc) as Ht. apply tiled_app in Ht as [T1 T2]. apply tiled_app. split; [done|]. cbn in T2 |- *. unfold sizeof_buffer in *. destruct T2 as (? & ? & ? & ? & ?). split_and!; [lia|done..]. }
  split_and!; [done| | |by rewrite Ho].
  - rewrite Ho. rewrite Ho in Hi. destruct Hc as [C1 C2 C3 C4 C5 C6 C7]. split; [done| |done| |done|done|].
    + cbn. by destruct l1.
    + intros x Hx. apply C4. set_solver +Hx.
    + intros x Hx. assert (x ∈ l1 ++ b :: c :: l2) as Hx' by set_solver +Hx. pose proof (tiled_bounds _ _ _ C3 Hx') as (X1 & X2 & _).
      apply mapped_pages; [apply (pi_area _ _ Hi)| |done|].
      * destruct l1; cbn in C2, X1; injection C2 as ->; done.
      * intros p Hp Hu. apply Hex'. split; [done|]. exists x. split; [done|by left].
  - intros p. rewrite Ho at 2 3 4. cbn. apply Hex'.
Qed.

(** ** Sizes of requests *)
Lemma align_spec x : 0 <= x < 2 ^ 32 -> (exists k, ALIGN x 4 = 4 * k /\ x <= 4 * k < x + 4 /\ 4 * k < 2 ^ 32) \/ (2 ^ 32 - 4 < x /\ ALIGN x 4 = 0).
Proof.
  intros Hx. assert (ALIGN x 4 = u32 (x + (2 ^ 2 - 1)) - u32 (x + (2 ^ 2 - 1)) mod 2 ^ 2) as ->.
  { unfold ALIGN. change (4 - 1) with (2 ^ 2 - 1). unfold u32 at 2. apply (land_not_ones 32 2); [lia..|apply u32_range]. }
  destruct (u32_ex (x + (2 ^ 2 - 1))) as [k Hk]. pose proof (u32_range (x + (2 ^ 2 - 1))). pose proof (Z.div_mod (u32 (x + (2 ^ 2 - 1))) (2 ^ 2)). pose proof (Z.mod_pos_bound (u32 (x + (2 ^ 2 - 1))) (2 ^ 2)).
  assert (k = 0 \/ k = -1) as [->| ->] by lia.
  - left. exists (u32 (x + (2 ^ 2 - 1)) `div` 2 ^ 2). lia.
  - right. split; [lia|]. pose proof (Z.mod_small (u32 (x + (2 ^ 2 - 1))) (2 ^ 2)). lia.
Qed.
Definition rounded (x : Z) : Z := (x + 3) `div` 4 * 4.
Definition request (h : binder_buffer) : Z := u32 (ALIGN (data_size h) 4 + ALIGN (offsets_size h) 4).
(** The test for an overflow finds every overflow. *)
Lemma request_spec dsize osize : 0 <= dsize < 2 ^ 32 -> 0 <= osize < 2 ^ 32 -> let sz := u32 (ALIGN dsize 4 + ALIGN osize 4) in
  if (sz <? dsize) || (sz <? osize) then 2 ^ 32 <= rounded dsize + rounded osize else sz = rounded dsize + rounded osize /\ 0 <= sz < 2 ^ 32 /\ sz mod 4 = 0.
Proof.
  intros Hd Ho sz. unfold rounded. pose proof (Z.div_mod (dsize + 3) 4). pose proof (Z.mod_pos_bound (dsize + 3) 4). pose proof (Z.div_mod (osize + 3) 4). pose proof (Z.mod_pos_bound (osize + 3) 4).
  pose proof (u32_range (ALIGN dsize 4 + ALIGN osize 4)) as Hr. destruct (u32_ex (ALIGN dsize 4 + ALIGN osize 4)) as [j Hj]. fold sz in Hr, Hj.
  destruct (align_spec dsize Hd) as [(k1 & E1 & K1 & _)|[K1 E1]], (align_spec osize Ho) as [(k2 & E2 & K2 & _)|[K2 E2]]; rewrite E1, E2 in Hj;
    destruct (Z.ltb_spec sz dsize), (Z.ltb_spec sz osize); cbn [orb]; try lia.
  assert (j = 0) as -> by lia. split_and!; [lia..|]. rewrite Hj, Z.mul_0_l, Z.add_0_r, <-Z.mul_add_distr_l, Z.mul_comm. apply Z.mod_mul. lia.
Qed.

(** ** The whole invariant *)
Definition async_cost (hs : gmap Z binder_buffer) (y : Z) : Z := match hs !! y with Some h => if async_transaction h then request h + sizeof_buffer else 0 | None => 0 end.
Definition async_sum hs (l : list Z) : Z := foldr Z.add 0 (async_cost hs <$> l).
Definition fit_ok s bs (y : Z) : Prop := forall h, headers s !! y = Some h ->
  0 <= data_size h /\ 0 <= offsets_size h /\ request h = rounded (data_size h) + rounded (offsets_size h) /\ request h <= size_of (fin s) bs y.
(** No two neighbours are free. *)
Fixpoint apart fr bs : Prop := match bs with [] => True | b :: r => match r with [] => True | c :: _ => fr b = false \/ fr c = false end /\ apart fr r end.
Record binv s bs fs als : Prop := {
  bv_core : core s bs;
  bv_exact : exact_pages s bs;
  bv_free : tree_ok (free_buffers s) fs;
  bv_free_in : forall y, y ∈ fs <-> y ∈ bs /\ isfree s y = true;
  bv_free_sorted : StronglySorted (le_size (size_of (fin s) bs)) fs;
  bv_alloc : tree_ok (allocated_buffers s) als;
  bv_alloc_in : forall y, y ∈ als <-> y ∈ bs /\ isfree s y = false;
  bv_alloc_sorted : StronglySorted Z.lt als;
  bv_apart : apart (isfree s) bs;
  bv_fit : forall y, y ∈ als -> fit_ok s bs y;
  bv_async : free_async_space s + async_sum (headers s) als = buffer_size s `div` 2 /\ 0 <= free_async_space s;
  bv_size : buffer_size s <= SZ_4M;
}.
Lemma apart_mid fr l1 b l2 : apart fr (l1 ++ b :: l2) <-> apart fr (l1 ++ [b]) /\ apart fr (b :: l2).
Proof. induction l1 as [|x l1 IH]; [cbn; tauto|]. rewrite <-!app_comm_cons. cbn [apart]. rewrite IH. destruct l1; cbn; tauto. Qed.
Lemma apart_mono fr fr' bs : (forall x, x ∈ bs -> fr' x = true -> fr x = true) -> apart fr bs -> apart fr' bs.
Proof.
  induction bs as [|b r IH]; [done|]. intros H [H1 H2]. split; [|apply IH; [|done]; intros x Hx; apply H; set_solver +Hx]. destruct r as [|c r]; [done|].
  destruct (fr' b) eqn:Eb; [|by left]. destruct (fr' c) eqn:Ec; [|by right]. apply H in Eb; [|set_solver +]. apply H in Ec; [|set_solver +]. destruct H1; congruence.
Qed.
Lemma async_sum_app hs l1 l2 : async_sum hs (l1 ++ l2) = async_sum hs l1 + async_sum hs l2.
Proof. unfold async_sum. induction l1 as [|x l1 IH]; cbn; lia. Qed.
Lemma async_sum_cons hs x l : async_sum hs (x :: l) = async_cost hs x + async_sum hs l.
Proof. done. Qed.
Lemma async_sum_ext hs hs' l : (forall y, y ∈ l -> hs' !! y = hs !! y) -> async_sum hs' l = async_sum hs l.
Proof. unfold async_sum, async_cost. induction l as [|x l IH]; intros H; cbn; [done|]. rewrite (H x) by set_solver +. rewrite IH; [done|]. intros y Hy. apply H. set_solver +Hy. Qed.
Lemma async_sum_pos hs l : 0 <= async_sum hs l.
Proof.
  unfold async_sum. induction l as [|x l IH]; cbn; [lia|]. unfold async_cost at 1, sizeof_buffer. destruct (hs !! x) as [h|]; [|lia]. destruct (async_transaction h); [|lia].
  pose proof (u32_range (ALIGN (data_size h) 4 + ALIGN (offsets_size h) 4)). unfold request. lia.
Qed.
Lemma tree_ok_nodup st l : tree_ok st l -> NoDup l.
Proof. intros (t & [_ _ Hn _] & _ & <-). by apply NoDup_app in Hn as (_ & _ & Hn). Qed.
Lemma le_size_ext f g l : (forall x, x ∈ l -> f x = g x) -> StronglySorted (le_size f) l -> StronglySorted (le_size g) l.
Proof.
  intros Hfg. induction 1 as [|x l Hs IH Hx]; constructor; [apply IH; intros y Hy; apply Hfg; set_solver +Hy|].
  rewrite Forall_forall in Hx |- *. intros y Hy. unfold le_size in *. rewrite <-!Hfg by set_solver +Hy. by apply Hx.
Qed.
Lemma sorted_drop {R : relation Z} l1 x l2 : StronglySorted R (l1 ++ x :: l2) -> StronglySorted R (l1 ++ l2).
Proof.
  intros (H1 & H2 & H3)%StronglySorted_app. apply StronglySorted_cons in H3 as [_ H3]. apply StronglySorted_app. split_and!; [|done..]. intros a a' Ha Ha'. apply H1; [done|set_solver +Ha'].
Qed.
End BinderHeap.
