(* ===== verification/BinderOps.v ===== *)
(** * Allocation and release of binder buffers

    [binder_alloc_buf] and [binder_free_buf] keep the invariant of [BinderHeap]; the first
    takes a best fit or changes nothing, the second merges the buffer with its free
    neighbours. *)
From stdpp Require Import prelude gmap list sorting.
From Stdlib Require Import ZArith Lia ZifyBool.
From S2P Require Import Prelude ListHead ListHeap Rbtree Ashmem BinderAlloc BinderPages BinderHeap.
Open Scope Z_scope.

Module BinderOps.
Import Ashmem BinderAlloc BinderPages BinderHeap.
Implicit Types (s : binder_proc) (p b c : Z) (e : page_env) (bs fs als : list Z) (h : binder_buffer).

(** ** Taking a buffer *)
Lemma isfree_insert s b h : isfree (set_headers (<[b := h]> (headers s)) s) b = bfree h.
Proof. unfold isfree. cbn. by rewrite lookup_insert_eq. Qed.
Lemma isfree_insert_ne s b h x : x <> b -> isfree (set_headers (<[b := h]> (headers s)) s) x = isfree s x.
Proof. intros Hx. unfold isfree. cbn. by rewrite lookup_insert_ne. Qed.

Lemma take_buffer_run {A} (k : BM A) s bs f1 b f2 als h : core s bs -> b ∈ bs -> headers s !! b = Some h -> tree_ok (free_buffers s) (f1 ++ b :: f2) ->
  tree_ok (allocated_buffers s) als -> in_tree s bs false als -> StronglySorted Z.lt als -> b ∉ als ->
  exists t1 t2 a1 a2, let s' := set_alloc_tree t2 (set_headers (<[b := with_free false h]> (headers s)) (set_free_tree t1 s)) in
    (on_free (rb_erase b) ;; store_buf b (with_free false) ;; binder_insert_allocated_buffer b ;; k) s = k s' /\
    core s' bs /\ tree_ok t1 (f1 ++ f2) /\ tree_ok t2 (a1 ++ b :: a2) /\ als = a1 ++ a2 /\ StronglySorted Z.lt (a1 ++ b :: a2).
Proof.
  intros Hc Hb Eh Hf Ha Hin Hs Hn. destruct (erase_free_run s f1 b f2 Hf) as (t1 & Hrun1 & Ht1). mrun Hrun1. pose proof (core_free_tree _ _ t1 Hc) as Hc1.
  mrun (store_buf_run (set_free_tree t1 s) bs b (with_free false) h Hc1 Hb Eh). pose proof (core_header _ _ b (with_free false h) Hc1) as Hc2.
  set (s2 := set_headers (<[b := with_free false h]> (headers (set_free_tree t1 s))) (set_free_tree t1 s)) in *.
  destruct (insert_allocated_run s2 bs Hc2 b als Hb (isfree_insert _ _ _) Ha) as (t2 & a1 & a2 & Hrun2 & Ht2 & E & Hs2); [|done|done|].
  { intros y Hy. destruct (Hin y Hy) as [H1 H2]. split; [done|]. unfold s2. rewrite isfree_insert_ne; [done|]. by intros ->. }
  mrun Hrun2. exists t1, t2, a1, a2. split_and!; [done|by apply core_alloc_tree|done..].
Qed.

(** ** The rest of a buffer *)
Lemma core_split s l1 b l2 c h m : core s (l1 ++ b :: l2) -> tiled (fin s) (l1 ++ b :: c :: l2) -> header_mapped s c = true -> lrep m {[buffers s := l1 ++ b :: c :: l2]} ->
  core (set_headers (<[c := h]> (headers s)) (set_entries m s)) (l1 ++ b :: c :: l2).
Proof.
  intros [C1 C2 C3 C4 C5 C6 C7] Ht Hm Hr. split; [done| |done| |done|by apply (pinv_same _ s)|].
  - cbn. by destruct l1.
  - intros x Hx. cbn. destruct (decide (x = c)) as [->|Hne]; [rewrite lookup_insert_eq; eauto|]. rewrite lookup_insert_ne by done. apply C4. set_solver +Hx Hne.
  - intros x Hx. change (header_mapped s x = true). destruct (decide (x = c)) as [->|Hne]; [done|]. apply C7. set_solver +Hx Hne.
Qed.
Lemma split_run s l1 b l2 sz junk fs : let c := data b + sz in core s (l1 ++ b :: l2) -> tiled (fin s) (l1 ++ b :: c :: l2) -> header_mapped s c = true ->
  tree_ok (free_buffers s) fs -> in_tree s (l1 ++ b :: l2) true fs -> StronglySorted (le_size (size_of (fin s) (l1 ++ b :: l2))) fs -> b ∉ fs ->
  exists m t g1 g2, let s' := set_free_tree t (set_headers (<[c := with_free true junk]> (headers s)) (set_entries m s)) in
    split_buffer b sz junk s = Some (tt, s') /\ core s' (l1 ++ b :: c :: l2) /\ tree_ok t (g1 ++ c :: g2) /\ fs = g1 ++ g2 /\
    StronglySorted (le_size (size_of (fin s) (l1 ++ b :: c :: l2))) (g1 ++ c :: g2).
Proof.
  intros c Hc Ht Hm Hf Hin Hs Hb. assert (c ∉ l1 ++ b :: l2) as Hcn.
  { pose proof (tiled_nodup _ _ Ht) as Hnd. intros Hx. change (l1 ++ b :: c :: l2) with (l1 ++ [b] ++ c :: l2) in Hnd. rewrite app_assoc in Hnd. apply NoDup_app in Hnd as (_ & Hd & Hnd).
    apply NoDup_cons in Hnd as [Hnd _]. assert (c ∈ l1 ++ [b] \/ c ∈ l2) as [Hx'|] by set_solver +Hx; [|done]. apply (Hd c Hx'). set_solver +. }
  assert (c <> buffers s) as Hch.
  { pose proof (tiled_bounds _ _ c Ht ltac:(set_solver +)) as (_ & H2 & _). pose proof (co_bounds _ _ b Hc ltac:(set_solver +)) as (H1 & _).
    pose proof (tiled_mid _ _ _ _ Ht) as (_ & _ & H3 & _). cbn [hd] in H3. pose proof (co_out _ _ Hc). unfold sizeof_buffer in *. lia. }
  assert (forall q : Z, ~ own {[buffers s := l1 ++ b :: l2]} c q) as Hown.
  { intros q (l & E & Hl). apply lookup_singleton_Some in E as [<- <-]. set_solver +Hl Hcn Hch. }
  pose proof (heap_store _ _ c (ListHead 0 0) (co_list _ _ Hc) Hown) as Hr0.
  destruct (heap_add_after _ _ (buffers s) (l1 ++ [b]) l2 c b (buffers s :: l1) Hr0) as (m & Hadd & Hr & _);
    [rewrite lookup_singleton_eq; by rewrite <-app_assoc|done|unfold allocated; rewrite lookup_insert_eq; eauto|done|]. rewrite insert_singleton_eq, <-app_assoc in Hr. cbn [app] in Hr.
  unfold split_buffer. fold c. erewrite bind_run by done. erewrite bind_run by (by apply entries_run). pose proof (core_split s l1 b l2 c junk m Hc Ht Hm Hr) as Hc1.
  set (s1 := set_headers (<[c := junk]> (headers s)) (set_entries m s)) in *. change (set_entries m _) with s1.
  assert (c ∈ l1 ++ b :: c :: l2) as Hci by set_solver +. mrun (store_buf_run s1 _ c (with_free true) junk Hc1 Hci (lookup_insert_eq _ _ _)). cbn [headers s1 set_headers]. rewrite insert_insert_eq.
  pose proof (core_split s l1 b l2 c (with_free true junk) m Hc Ht Hm Hr) as Hc2. set (s2 := set_headers (<[c := with_free true junk]> (headers s)) (set_entries m s)) in *. change (set_headers _ s1) with s2.
  destruct (insert_free_run s2 _ Hc2 c fs Hci) as (t & g1 & g2 & Hrun & Ht' & E & Hs'); [exact (isfree_insert (set_entries m s) c (with_free true junk))|done| | | |exists m, t, g1, g2; split_and!; [done|by apply core_free_tree|done..]].
  - intros y Hy. destruct (Hin y Hy) as [H1 H2]. split; [set_solver +H1|]. unfold s2. rewrite (isfree_insert_ne (set_entries m s)); [done|]. by intros ->.
  - eapply le_size_ext; [|exact Hs]. intros x Hx. symmetry. apply size_of_insert; [by intros ->|]. intros ->. by apply Hcn, Hin.
  - intros Hx. by apply Hcn, Hin.
Qed.

(** ** [binder_alloc_buf] *)
Definition same_area s s' : Prop := vma s' = vma s /\ buffer s' = buffer s /\ buffer_size s' = buffer_size s /\ user_buffer_offset s' = user_buffer_offset s /\ buffers s' = buffers s.
(** What an allocation of [b] does: one more buffer is allocated, the others stay as they are. *)
Record alloc_post s bs als b (dsize osize : Z) (is_async : bool) s' bs' als' : Prop := {
  ap_area : same_area s s';
  ap_alloc : forall y, y ∈ als' <-> y = b \/ y ∈ als;
  ap_header : exists h, headers s !! b = Some h /\ headers s' !! b = Some (Buf false is_async (transaction h) dsize osize);
  ap_others : forall y, y ∈ bs -> y <> b -> headers s' !! y = headers s !! y /\ size_of (fin s') bs' y = size_of (fin s) bs y;
  ap_size : 0 <= size_of (fin s') bs' b - (rounded dsize + rounded osize) <= 44;
  ap_async : free_async_space s' = free_async_space s - (if is_async then rounded dsize + rounded osize + sizeof_buffer else 0);
}.
Lemma core_pages s s1 bs : core s bs -> pages_only s s1 -> pinv (vma s) s1 -> (forall b, b ∈ bs -> header_mapped s1 b = true) -> core s1 bs.
Proof. intros [C1 C2 C3 C4 C5 C6 C7] Ho Hi Hm. rewrite Ho in *. by split. Qed.
Lemma mapped_more s s1 b : (forall p, p ∈ kernel_pages s -> p ∈ kernel_pages s1) -> header_mapped s b = true -> header_mapped s1 b = true.
Proof. unfold header_mapped. intros Hk. rewrite !andb_true_iff, !bool_decide_eq_true. intros [H1 H2]. split; by apply Hk. Qed.
Lemma data_range s bs l1 b l2 top : core s bs -> bs = l1 ++ b :: l2 -> data b <= top <= hd (fin s) l2 ->
  (PAGE_ALIGN (data b) < page_end top (hd (fin s) l2) -> range s (PAGE_ALIGN (data b)) (page_end top (hd (fin s) l2))) /\
  forall p, in_range (PAGE_ALIGN (data b)) (page_end top (hd (fin s) l2)) p -> page_of s p /\ inside (fin s) bs b p.
Proof.
  intros Hc -> Htop. pose proof (co_bounds _ _ b Hc ltac:(set_solver +)) as (H1 & H2 & _ & H4 & H5 & H6). destruct (tiled_split _ _ _ _ (co_tiled _ _ Hc)) as (_ & _ & E).
  pose proof (tiled_mid _ _ _ _ (co_tiled _ _ Hc)) as (_ & _ & H3 & _). unfold inside, end_of. rewrite E. clear E. unfold data, sizeof_buffer in *. split.
  - intros _. destruct (page_ceil (b + 40)) as (k & Ek & Hk); [lia|]. rewrite Ek. unfold page_end. destruct (page_ceil top) as (j & -> & Hj); [lia|]. destruct (page_floor (hd (fin s) l2)) as (i & -> & Hi); [lia|].
    unfold data, sizeof_buffer, fin in *. cbv zeta. destruct (Z.gtb_spec (4096 * j) (4096 * i)); (split_and!; [rewrite Z.mul_comm; apply Z.mod_mul; lia..|lia|lia]).
  - intros p [Hp1 Hp2]. rewrite page_end_spec, page_start_spec in Hp2 by (done || lia). unfold page_of, data, sizeof_buffer, fin in *. split_and!; (done || lia).
Qed.
Lemma alloc_pages_run e s bs fs als l1 b l2 top : binv s bs fs als -> vma s = true -> mm e = true -> env_ok e -> bs = l1 ++ b :: l2 -> isfree s b = true -> data b <= top <= hd (fin s) l2 ->
  let run := binder_update_page_range e true (PAGE_ALIGN (data b)) (page_end top (hd (fin s) l2)) false s in
  (run = Some (- ENOMEM, s) /\ exists q, page_of s q /\ ~ gives_page e q) \/
  (exists s1, run = Some (0, s1) /\ pages_only s s1 /\ core s1 bs /\ forall p, p ∈ kernel_pages s1 <-> p ∈ kernel_pages s \/ in_range (PAGE_ALIGN (data b)) (page_end top (hd (fin s) l2)) p).
Proof.
  intros Hb Hv Hm He El Hf Htop run. pose proof (bv_core _ _ _ _ Hb) as Hc. pose proof (co_pages _ _ Hc) as Hi. rewrite Hv in Hi. destruct (data_range s bs l1 b l2 top Hc El Htop) as [Hr Hin].
  assert (b ∈ bs) as Hbs by (rewrite El; set_solver +). set (fr' := λ x, if x =? b then false else isfree s x).
  destruct (update_alloc_run e s (PAGE_ALIGN (data b)) (page_end top (hd (fin s) l2)) false) as [[Hrun (q & Hq & Hg)]|(s1 & Hrun & Ho & Hi1 & _ & Hk)]; [done|unfold has_vma; by rewrite Hm|done|done| | |].
  - intros p Hp Hpk. destruct (Hin p Hp) as [_ Hins]. apply (bv_exact _ _ _ _ Hb) in Hpk as [_ Hn].
    destruct (need_data (isfree s) fr' (fin s) bs b p (co_tiled _ _ Hc) Hbs Hf) as [_ H]; [unfold fr'; by rewrite Z.eqb_refl|intros x Hx; unfold fr'; by rewrite (proj2 (Z.eqb_neq _ _) Hx)|]. by apply H.
  - left. split; [done|]. exists q. split; [by apply Hin|done].
  - right. exists s1. split_and!; [done..| |done]. eapply core_pages; [done|done|by rewrite Hv|]. intros x Hx. eapply mapped_more; [|by apply (co_mapped _ _ Hc)]. intros p Hp. apply Hk. by left.
Qed.
Lemma isfree_eq s s' x : headers s' !! x = headers s !! x -> isfree s' x = isfree s x.
Proof. unfold isfree. by intros ->. Qed.
Lemma isfree_some s x h : headers s !! x = Some h -> isfree s x = bfree h.
Proof. unfold isfree. by intros ->. Qed.
Lemma same_fin s s' : same_area s s' -> fin s' = fin s.
Proof. intros (_ & E1 & E2 & _). unfold fin. by rewrite E1, E2. Qed.

(** The invariant after an allocation, from its parts; [cs] are the new free buffers. *)
Section assemble.
Context (s s' : binder_proc) (bs bs' fs fs' als a1 a2 cs : list Z) (b : Z) (h : binder_buffer) (dsize osize : Z) (is_async : bool).
Context (Hb : binv s bs fs als) (Hbs : b ∈ bs) (Hfree : isfree s b = true) (Eals : als = a1 ++ a2).
Context (Hh : headers s !! b = Some h) (Hh' : headers s' !! b = Some (Buf false is_async (transaction h) dsize osize)).
Context (Harea : same_area s s') (Hc : core s' bs') (Hex : exact_pages s' bs') (Hcs : forall x, x ∈ bs' <-> x ∈ bs \/ x ∈ cs) (Hcs' : forall x, x ∈ cs -> x ∉ bs /\ isfree s' x = true).
Context (Hold : forall x, x ∈ bs -> x <> b -> headers s' !! x = headers s !! x /\ size_of (fin s') bs' x = size_of (fin s) bs x).
Context (Hfs : forall x, x ∈ fs' <-> (x ∈ fs /\ x <> b) \/ x ∈ cs) (Hft : tree_ok (free_buffers s') fs') (Hfsort : StronglySorted (le_size (size_of (fin s') bs')) fs').
Context (Hat : tree_ok (allocated_buffers s') (a1 ++ b :: a2)) (Hasort : StronglySorted Z.lt (a1 ++ b :: a2)).
Context (Hap : apart (isfree s') bs').
Context (Hd : 0 <= dsize) (Ho : 0 <= osize) (Hreq : u32 (ALIGN dsize 4 + ALIGN osize 4) = rounded dsize + rounded osize) (Hsz : 0 <= size_of (fin s') bs' b - (rounded dsize + rounded osize) <= 44).
Context (Has : free_async_space s' = free_async_space s - (if is_async then rounded dsize + rounded osize + sizeof_buffer else 0)) (Has0 : 0 <= free_async_space s').

Lemma assemble_alloc : binv s' bs' fs' (a1 ++ b :: a2) /\ alloc_post s bs als b dsize osize is_async s' bs' (a1 ++ b :: a2).
Proof.
  assert (forall y, y ∈ a1 ++ b :: a2 <-> y = b \/ y ∈ als) as Hin by (rewrite Eals; set_solver +).
  assert (b ∉ als) as Hbn by (intros Hx; apply (bv_alloc_in _ _ _ _ Hb) in Hx as [_ Hx]; congruence).
  assert (isfree s' b = false) as Hfb by (by apply isfree_some in Hh').
  split; [|by split; eauto]. split; [done|done|done| |done|done| |done|done| | |].
  - intros y. rewrite Hfs, Hcs, (bv_free_in _ _ _ _ Hb y). split.
    + intros [[[H1 H2] H3]|H1]; [|by split; [right|apply Hcs']]. split; [by left|]. rewrite <-H2. apply isfree_eq. by apply Hold.
    + intros [[H1|H1] H2]; [|by right]. left. assert (y <> b) as Hne by (intros ->; congruence). split; [|done]. split; [done|]. rewrite <-H2. symmetry. apply isfree_eq. by apply Hold.
  - intros y. rewrite Hin, Hcs, (bv_alloc_in _ _ _ _ Hb y). split.
    + intros [->|[H1 H2]]; [by split; [left|]|]. split; [by left|]. rewrite <-H2. apply isfree_eq. apply Hold; [done|]. intros ->. congruence.
    + intros [[H1|H1] H2]; [|destruct (Hcs' y H1); congruence]. destruct (decide (y = b)) as [->|Hne]; [by left|right]. split; [done|]. rewrite <-H2. symmetry. apply isfree_eq. by apply Hold.
  - intros y Hy. apply Hin in Hy. destruct (decide (y = b)) as [->|Hne].
    + intros h' E. rewrite Hh' in E. injection E as <-. unfold request. cbn [data_size offsets_size]. split_and!; [done..|lia].
    + destruct Hy as [|Hy]; [done|]. destruct (Hold y) as [E1 E2]; [by apply (bv_alloc_in _ _ _ _ Hb)|done|]. unfold fit_ok. rewrite E1, E2. by apply (bv_fit _ _ _ _ Hb).
  - split; [|done]. destruct Harea as (_ & _ & -> & _). destruct (bv_async _ _ _ _ Hb) as [E _]. rewrite <-E, Has, Eals, !async_sum_app, async_sum_cons.
    assert (async_cost (headers s') b = if is_async then rounded dsize + rounded osize + sizeof_buffer else 0) as -> by (unfold async_cost, request; rewrite Hh'; cbn [async_transaction data_size offsets_size]; by rewrite Hreq).
    assert (forall l, (forall y, y ∈ l -> y ∈ als) -> async_sum (headers s') l = async_sum (headers s) l) as Hs.
    { intros l Hl. apply async_sum_ext. intros y Hy%Hl. apply Hold; [by apply (bv_alloc_in _ _ _ _ Hb)|]. by intros ->. }
    rewrite !Hs by (intros y Hy; rewrite Eals; set_solver +Hy). destruct is_async; lia.
  - destruct Harea as (_ & _ & -> & _). apply (bv_size _ _ _ _ Hb).
Qed.
End assemble.

Lemma finish_run s bs b h (dsize osize : Z) (is_async : bool) sz : core s bs -> b ∈ bs -> headers s !! b = Some (with_free false h) -> exists s',
  (store_buf b (with_sizes dsize osize is_async) ;; (if is_async then modify (λ s, set_async (u32 (free_async_space s - u32 (sz + sizeof_buffer))) s) else mret tt) ;; mret b) s = Some (b, s') /\
  core s' bs /\ headers s' = <[b := Buf false is_async (transaction h) dsize osize]> (headers s) /\ same_area s s' /\ kernel_pages s' = kernel_pages s /\
  free_buffers s' = free_buffers s /\ allocated_buffers s' = allocated_buffers s /\
  free_async_space s' = if is_async then u32 (free_async_space s - u32 (sz + sizeof_buffer)) else free_async_space s.
Proof.
  intros Hc Hb Eh. mrun (store_buf_run s bs b (with_sizes dsize osize is_async) _ Hc Hb Eh).
  exists (set_headers (<[b := with_sizes dsize osize is_async (with_free false h)]> (headers s)) (if is_async then set_async (u32 (free_async_space s - u32 (sz + sizeof_buffer))) s else s)).
  destruct is_async; (split; [done|]); (split; [|done]); [apply (core_header (set_async _ s)); by apply core_async|by apply core_header].
Qed.
(** A request that has passed the tests and a free buffer for it. *)
Record request_ok s bs fs b (dsize osize : Z) (is_async : bool) (sz : Z) : Prop := {
  rq_d : 0 <= dsize; rq_o : 0 <= osize;
  rq_u32 : u32 (ALIGN dsize 4 + ALIGN osize 4) = sz;
  rq_sum : sz = rounded dsize + rounded osize;
  rq_align : 0 <= sz /\ sz mod 4 = 0;
  rq_async : is_async = true -> sz + sizeof_buffer <= free_async_space s;
  rq_in : b ∈ fs;
  rq_fit : sz <= size_of (fin s) bs b;
}.
Lemma async_after s bs fs als b dsize osize is_async sz : binv s bs fs als -> request_ok s bs fs b dsize osize is_async sz ->
  let z := if is_async then u32 (free_async_space s - u32 (sz + sizeof_buffer)) else free_async_space s in
  z = free_async_space s - (if is_async then rounded dsize + rounded osize + sizeof_buffer else 0) /\ 0 <= z.
Proof.
  intros Hb [? ? ? Hsum [? _] Has ? ?] z. destruct (bv_async _ _ _ _ Hb) as [E H0]. pose proof (bv_size _ _ _ _ Hb) as H4. destruct (pi_area _ _ (co_pages _ _ (bv_core _ _ _ _ Hb))) as [_ _ A3 _ _].
  pose proof (async_sum_pos (headers s) als). unfold z. destruct is_async; [|lia]. specialize (Has eq_refl). unfold sizeof_buffer, SZ_4M in *.
  assert (buffer_size s `div` 2 <= buffer_size s) by (apply Z.div_le_upper_bound; lia). rewrite (u32_small (sz + 40)) by lia. rewrite u32_small; lia.
Qed.
Lemma free_in_bs s bs fs als b : binv s bs fs als -> b ∈ fs -> b ∈ bs /\ isfree s b = true /\ b ∉ als /\ exists h, headers s !! b = Some h.
Proof.
  intros Hb Hf. apply (bv_free_in _ _ _ _ Hb) in Hf as [H1 H2]. split_and!; [done..| |by apply (co_hdr _ _ (bv_core _ _ _ _ Hb))]. intros [_ H3]%(bv_alloc_in _ _ _ _ Hb). congruence.
Qed.
Definition alloc_tail (b sz : Z) (junk : binder_buffer) (dsize osize : Z) (is_async split : bool) : BM Z :=
  on_free (rb_erase b) ;; store_buf b (with_free false) ;; binder_insert_allocated_buffer b ;; (if split then split_buffer b sz junk else mret tt) ;;
  store_buf b (with_sizes dsize osize is_async) ;; (if is_async then modify (λ s, set_async (u32 (free_async_space s - u32 (sz + sizeof_buffer))) s) else mret tt) ;; mret b.
(** The first part of the tail, up to the insertion in the tree of allocated buffers. *)
Lemma tail_start (k : BM Z) s bs fs als s1 b : binv s bs fs als -> b ∈ fs -> pages_only s s1 -> core s1 bs ->
  exists s4 h f1 f2 a1 a2, (on_free (rb_erase b) ;; store_buf b (with_free false) ;; binder_insert_allocated_buffer b ;; k) s1 = k s4 /\ core s4 bs /\
    headers s !! b = Some h /\ headers s4 = <[b := with_free false h]> (headers s) /\ same_area s s4 /\ free_async_space s4 = free_async_space s /\ kernel_pages s4 = kernel_pages s1 /\
    fs = f1 ++ b :: f2 /\ b ∉ f1 ++ f2 /\ tree_ok (free_buffers s4) (f1 ++ f2) /\ als = a1 ++ a2 /\ tree_ok (allocated_buffers s4) (a1 ++ b :: a2) /\ StronglySorted Z.lt (a1 ++ b :: a2).
Proof.
  intros Hb Hq Ho Hc. destruct (free_in_bs _ _ _ _ _ Hb Hq) as (Hbs & Hf & Hna & h & Eh). pose proof (bv_free _ _ _ _ Hb) as Hft.
  destruct (list_elem_of_split _ _ Hq) as (f1 & f2 & Efs). rewrite Efs in Hft. unfold pages_only in Ho.
  assert (headers s1 = headers s /\ free_buffers s1 = free_buffers s /\ allocated_buffers s1 = allocated_buffers s) as (X1 & X2 & X3) by (rewrite Ho; by split_and!).
  edestruct (take_buffer_run k) as (t1 & t2 & a1 & a2 & Hrun & Hc4 & Ht1 & Ht2 & Ea & Hsa);
    [exact Hc|exact Hbs|rewrite X1; exact Eh|rewrite X2; exact Hft|rewrite X3; apply (bv_alloc _ _ _ _ Hb)| |apply (bv_alloc_sorted _ _ _ _ Hb)|done|].
  { intros y Hy; unfold isfree; rewrite X1; by apply (bv_alloc_in _ _ _ _ Hb). }
  rewrite X1 in *. match type of Hc4 with core ?x _ => exists x, h, f1, f2, a1, a2 end. split_and!; try done; try (rewrite Ho; done).
  apply tree_ok_nodup in Hft. rewrite <-Permutation_middle in Hft. by apply NoDup_cons in Hft as [? _].
Qed.
Lemma tail_whole s bs fs als s1 b sz junk dsize osize is_async : binv s bs fs als -> request_ok s bs fs b dsize osize is_async sz -> size_of (fin s) bs b <= sz + 44 -> pages_only s s1 -> core s1 bs ->
  (forall p, p ∈ kernel_pages s1 <-> p ∈ kernel_pages s \/ (page_of s p /\ inside (fin s) bs b p)) ->
  exists s' fs' als', alloc_tail b sz junk dsize osize is_async false s1 = Some (b, s') /\ binv s' bs fs' als' /\ alloc_post s bs als b dsize osize is_async s' bs als'.
Proof.
  intros Hb Hq Hmax Ho Hc Hk. pose proof (rq_in _ _ _ _ _ _ _ _ Hq) as Hbf. destruct (free_in_bs _ _ _ _ _ Hb Hbf) as (Hbs & Hf & _). unfold alloc_tail.
  edestruct tail_start as (s4 & h & f1 & f2 & a1 & a2 & Hrun & Hc4 & Eh & Ehs & Ear & Eas & Ek & Efs & Hnf & Hft & Ea & Hat & Hsa); [exact Hb|exact Hbf|exact Ho|exact Hc|]. rewrite Hrun, bind_mret_l. clear Hrun.
  destruct (finish_run s4 bs b h dsize osize is_async sz Hc4 Hbs) as (s5 & Hrun & Hc5 & Ehs5 & Ear5 & Ek5 & Ef5 & Ea5 & Eas5); [rewrite Ehs; apply lookup_insert_eq|].
  exists s5, (f1 ++ f2), (a1 ++ b :: a2). split; [done|]. rewrite Ehs, insert_insert_eq in Ehs5. rewrite Eas in Eas5.
  assert (same_area s s5) as Harea by (unfold same_area in *; intuition congruence). pose proof (same_fin _ _ Harea) as Efin.
  destruct (async_after _ _ _ _ _ _ _ _ _ Hb Hq) as [As1 As2]. destruct Hq as [Q1 Q2 Q3 Q4 Q5 Q6 Q7 Q8].
  assert (headers s5 !! b = Some (Buf false is_async (transaction h) dsize osize)) as Hh5 by (rewrite Ehs5; apply lookup_insert_eq). pose proof (isfree_some _ _ _ Hh5) as Hf5. cbn [bfree] in Hf5.
  assert (forall x, x <> b -> headers s5 !! x = headers s !! x) as Hold by (intros x Hx; rewrite Ehs5; by apply lookup_insert_ne).
  apply (assemble_alloc s s5 bs bs fs (f1 ++ f2) als a1 a2 [] b h); try done; rewrite ?Efin, ?Eas5, ?Ef5, ?Ea5; try done; try lia.
  - intros p. rewrite Ek5, Ek, Hk, (bv_exact _ _ _ _ Hb p), Efin.
    destruct (need_data (isfree s) (isfree s5) (fin s) bs b p (co_tiled _ _ (bv_core _ _ _ _ Hb)) Hbs Hf Hf5) as [-> _]; [intros x Hx; apply isfree_eq; by apply Hold|].
    assert (page_of s5 p <-> page_of s p) as -> by (unfold page_of; destruct Harea as (_ & -> & -> & _); done). tauto.
  - set_solver +.
  - set_solver +.
  - intros x _ Hx. split; [by apply Hold|done].
  - intros x. rewrite Efs. set_solver +Hnf.
  - pose proof (bv_free_sorted _ _ _ _ Hb) as Hs. rewrite Efs in Hs. by eapply sorted_drop.
  - eapply apart_mono, (bv_apart _ _ _ _ Hb). intros x _ Hx. rewrite <-Hx. symmetry. apply isfree_eq, Hold. intros ->. congruence.
Qed.
Lemma split_mapped s bs fs als s1 l1 b l2 c : binv s bs fs als -> bs = l1 ++ b :: l2 -> tiled (fin s) (l1 ++ b :: c :: l2) -> core s1 bs -> pages_only s s1 ->
  (forall p, p ∈ kernel_pages s1 <-> p ∈ kernel_pages s \/ (page_of s p /\ (only_header b c l2 p \/ inside (fin s) (l1 ++ b :: c :: l2) b p))) -> header_mapped s1 c = true.
Proof.
  intros Hb El Ht Hc1 Ho Hk. pose proof (bv_core _ _ _ _ Hb) as Hc. pose proof (co_bounds _ _ b Hc ltac:(rewrite El; set_solver +)) as (B1 & _).
  pose proof (tiled_mid _ _ _ _ Ht) as (_ & _ & H3 & _). pose proof (tiled_bounds _ _ c Ht ltac:(set_solver +)) as (_ & H4 & _). cbn [hd] in H3. unfold pages_only in Ho.
  assert (buffer s1 = buffer s /\ fin s1 = fin s) as [E1 E2] by (by rewrite Ho). unfold sizeof_buffer in *.
  apply mapped_pages; [apply (pi_area _ _ (co_pages _ _ Hc1))|lia|rewrite E2; done|]. intros p Hp Hu. apply Hk.
  assert (page_of s p) as Hp' by (rewrite Ho in Hp; exact Hp). destruct (decide (only_header b c l2 p)) as [|Hno]; [right; tauto|]. left. apply (bv_exact _ _ _ _ Hb). split; [done|].
  destruct (decide (uses_header b p)) as [|Hnb]; [exists b; rewrite El; split; [set_solver +|by left]|]. destruct l2 as [|n l2]; [exfalso; apply Hno; by refine (conj Hu (conj Hnb _))|].
  destruct (decide (uses_header n p)) as [|Hnn]; [exists n; rewrite El; split; [set_solver +|by left]|]. exfalso; apply Hno; by refine (conj Hu (conj Hnb _)).
Qed.
Lemma apart_split fr fr' l1 b c l2 : fr b = true -> fr' b = false -> (forall x, x ∈ l1 ++ l2 -> fr' x = fr x) -> apart fr (l1 ++ b :: l2) -> apart fr' (l1 ++ b :: c :: l2).
Proof.
  intros Eb Eb' Hfr [H1 H2]%apart_mid. apply apart_mid. split.
  - eapply apart_mono; [|exact H1]. intros x Hx Hx'. destruct (decide (x = b)) as [->|Hne]; [done|]. rewrite <-Hfr; [done|]. set_solver +Hx Hne.
  - cbn [apart] in *. destruct H2 as [H2 H3]. split_and!; [by left| |].
    + destruct l2 as [|n l2]; [done|]. right. rewrite Hfr by set_solver +. destruct H2; congruence.
    + eapply apart_mono; [|exact H3]. intros x Hx Hx'. rewrite <-Hfr; [done|]. set_solver +Hx.
Qed.
(** The code of an allocation with a rest, and what it leaves. *)
Lemma tail_split_run s bs fs als s1 l1 b l2 sz junk dsize osize is_async : let c := data b + sz in binv s bs fs als -> b ∈ fs -> bs = l1 ++ b :: l2 ->
  tiled (fin s) (l1 ++ b :: c :: l2) -> b <> c -> pages_only s s1 -> core s1 bs -> header_mapped s1 c = true ->
  exists s' h g1 g2 a1 a2, alloc_tail b sz junk dsize osize is_async true s1 = Some (b, s') /\ core s' (l1 ++ b :: c :: l2) /\ same_area s s' /\ kernel_pages s' = kernel_pages s1 /\
    headers s !! b = Some h /\ headers s' = <[b := Buf false is_async (transaction h) dsize osize]> (<[c := with_free true junk]> (<[b := with_free false h]> (headers s))) /\
    free_async_space s' = (if is_async then u32 (free_async_space s - u32 (sz + sizeof_buffer)) else free_async_space s) /\ fs ≡ₚ b :: g1 ++ g2 /\
    tree_ok (free_buffers s') (g1 ++ c :: g2) /\ StronglySorted (le_size (size_of (fin s) (l1 ++ b :: c :: l2))) (g1 ++ c :: g2) /\
    als = a1 ++ a2 /\ tree_ok (allocated_buffers s') (a1 ++ b :: a2) /\ StronglySorted Z.lt (a1 ++ b :: a2).
Proof.
  intros c Hb Hbf El Ht Hbc Ho Hc Hm. unfold alloc_tail.
  edestruct tail_start as (s4 & h & f1 & f2 & a1 & a2 & Hrun & Hc4 & Eh & Ehs & Ear & Eas & Ek & Efs & Hnf & Hft & Ea & Hat & Hsa); [exact Hb|exact Hbf|exact Ho|exact Hc|]. rewrite Hrun. clear Hrun.
  pose proof (same_fin _ _ Ear) as Efin4. assert (forall x, x <> b -> isfree s4 x = isfree s x) as Hfr4 by (intros x Hx; apply isfree_eq; rewrite Ehs; by apply lookup_insert_ne).
  destruct (split_run s4 l1 b l2 sz junk (f1 ++ f2)) as (m & t & g1 & g2 & Hrun & Hc5 & Htr & Eg & Hsg); [by rewrite <-El|by rewrite Efin4|unfold header_mapped; by rewrite Ek|done| | |done|].
  { intros y Hy. assert (y ∈ fs) as Hy' by (rewrite Efs; set_solver +Hy). apply (bv_free_in _ _ _ _ Hb) in Hy' as [? ?]. rewrite <-El. split; [done|]. rewrite Hfr4; [done|]. by intros ->. }
  { rewrite <-El, Efin4. pose proof (bv_free_sorted _ _ _ _ Hb) as Hs. rewrite Efs in Hs. by eapply sorted_drop. }
  fold c in Hrun, Hc5, Htr, Hsg. mrun Hrun. clear Hrun. match type of Hc5 with core ?x _ => set (s5 := x) in * end. rewrite Efin4 in Hsg.
  destruct (finish_run s5 _ b h dsize osize is_async sz Hc5) as (s6 & Hrun & Hc6 & Ehs6 & Ear6 & Ek6 & Ef6 & Ea6 & Eas6); [set_solver +|cbn; rewrite lookup_insert_ne, Ehs by done; apply lookup_insert_eq|].
  exists s6, h, g1, g2, a1, a2. assert (same_area s s6) as Harea by (unfold same_area, s5 in *; cbn in Ear6; intuition congruence).
  assert (free_async_space s6 = if is_async then u32 (free_async_space s - u32 (sz + sizeof_buffer)) else free_async_space s) as Eas' by (rewrite Eas6; cbn; by rewrite Eas).
  split_and!; try done; [by rewrite Ek6|rewrite Ehs6; cbn; by rewrite Ehs|rewrite Efs, <-Permutation_middle, Eg; done|by rewrite Ef6|by rewrite Ea6].
Qed.
Lemma tail_split s bs fs als s1 l1 b l2 sz junk dsize osize is_async : let c := data b + sz in binv s bs fs als -> request_ok s bs fs b dsize osize is_async sz ->
  bs = l1 ++ b :: l2 -> tiled (fin s) (l1 ++ b :: c :: l2) -> pages_only s s1 -> core s1 bs ->
  (forall p, p ∈ kernel_pages s1 <-> p ∈ kernel_pages s \/ (page_of s p /\ (only_header b c l2 p \/ inside (fin s) (l1 ++ b :: c :: l2) b p))) ->
  exists s' bs' fs' als', alloc_tail b sz junk dsize osize is_async true s1 = Some (b, s') /\ binv s' bs' fs' als' /\ alloc_post s bs als b dsize osize is_async s' bs' als'.
Proof.
  intros c Hb Hq El Ht Ho Hc Hk. pose proof (rq_in _ _ _ _ _ _ _ _ Hq) as Hbf. destruct (free_in_bs _ _ _ _ _ Hb Hbf) as (Hbs & Hf & _).
  pose proof (split_mapped _ _ _ _ _ _ _ _ _ Hb El Ht Hc Ho Hk) as Hm. pose proof (co_tiled _ _ (bv_core _ _ _ _ Hb)) as Ht0.
  pose proof (tiled_nodup _ _ Ht) as Hnd. assert (c ∉ bs) as Hcn.
  { rewrite El. intros Hx. change (l1 ++ b :: c :: l2) with (l1 ++ [b] ++ c :: l2) in Hnd. rewrite app_assoc, <-Permutation_middle in Hnd. apply NoDup_cons in Hnd as [Hnd _]. set_solver +Hx Hnd. }
  assert (b <> c) as Hbc by (intros E; apply Hcn; by rewrite <-E).
  destruct (tail_split_run s bs fs als s1 l1 b l2 sz junk dsize osize is_async Hb Hbf El Ht Hbc Ho Hc Hm) as (s6 & h & g1 & g2 & a1 & a2 & Hrun & Hc6 & Harea & Ek & Eh & Ehs6 & Eas & Pf & Hft & Hsf & Ea & Hat & Hsa).
  fold c in Hc6, Ehs6, Hft, Hsf. exists s6, (l1 ++ b :: c :: l2), (g1 ++ c :: g2), (a1 ++ b :: a2). split; [done|]. pose proof (same_fin _ _ Harea) as Efin.
  destruct (async_after _ _ _ _ _ _ _ _ _ Hb Hq) as [As1 As2]. destruct Hq as [Q1 Q2 Q3 Q4 Q5 Q6 Q7 Q8].
  assert (headers s6 !! b = Some (Buf false is_async (transaction h) dsize osize)) as Hh6 by (rewrite Ehs6; apply lookup_insert_eq). pose proof (isfree_some _ _ _ Hh6) as Hf6. cbn [bfree] in Hf6.
  assert (forall x, x <> b -> x <> c -> headers s6 !! x = headers s !! x) as Hold by (intros x Hx Hx'; by rewrite Ehs6, !lookup_insert_ne by done).
  assert (isfree s6 c = true) as Hfc by (unfold isfree; rewrite Ehs6, lookup_insert_ne by done; by rewrite lookup_insert_eq).
  assert (forall x, x ∈ bs -> x <> c) as Hne by (intros x Hx E; apply Hcn; by rewrite <-E).
  apply (assemble_alloc s s6 bs (l1 ++ b :: c :: l2) fs (g1 ++ c :: g2) als a1 a2 [c] b h); try done; rewrite ?Efin, ?Eas; try done; try lia.
  - intros p. rewrite Ek, Hk, (bv_exact _ _ _ _ Hb p), Efin.
    rewrite (need_split (isfree s) (isfree s6) (fin s) l1 b c l2 p Ht); [|by rewrite <-El|done|done|done|intros x Hx Hx'; apply isfree_eq; by apply Hold]. rewrite <-El.
    assert (page_of s6 p <-> page_of s p) as -> by (unfold page_of; destruct Harea as (_ & -> & -> & _); done). tauto.
  - intros x. rewrite El. set_solver +.
  - intros x ->%list_elem_of_singleton. done.
  - intros x Hx Hx'. split; [apply Hold; auto|]. rewrite El. apply size_of_insert; auto.
  - intros x. rewrite Pf. assert (b ∉ g1 ++ g2) as Hbg by (pose proof (tree_ok_nodup _ _ (bv_free _ _ _ _ Hb)) as Hn; rewrite Pf in Hn; by apply NoDup_cons in Hn as [? _]). set_solver +Hbg.
  - apply (apart_split (isfree s)); [done|done| |rewrite <-El; apply (bv_apart _ _ _ _ Hb)]. intros x Hx. rewrite El in Ht0. destruct (tiled_split _ _ _ _ Ht0) as (N1 & N2 & _).
    apply isfree_eq, Hold; [|apply Hne; rewrite El; set_solver +Hx]. intros ->. set_solver +Hx N1 N2.
  - destruct (tiled_split _ _ _ _ Ht) as (_ & _ & ->). cbn [hd]. unfold c. lia.
Qed.
Definition no_pages e s : Prop := exists q, page_of s q /\ ~ gives_page e q.
Definition allocates s bs als b (dsize osize : Z) (is_async : bool) (r : option (Z * binder_proc)) : Prop :=
  exists s' bs' fs' als', r = Some (b, s') /\ binv s' bs' fs' als' /\ alloc_post s bs als b dsize osize is_async s' bs' als'.
Lemma alloc_from_code e junk dsize osize is_async sz b (bsz : Z) (split : bool) exact s : 0 <= sz <= bsz -> bsz <= SZ_4M -> (exact = true -> sz = bsz) -> split = negb (bsz <=? sz + 44) ->
  alloc_from e junk dsize osize is_async sz b bsz exact s =
  (ret ← binder_update_page_range e true (PAGE_ALIGN (data b)) (page_end (data b + (if split then sz + sizeof_buffer else sz)) (data b + bsz)) false;
   if negb (ret =? 0) then mret 0 else alloc_tail b sz junk dsize osize is_async split) s.
Proof.
  intros Hsz H4 Hex ->. unfold alloc_from, sizeof_buffer, SZ_4M in *.
  assert ((if exact then bsz else if u32 (sz + 40 + 4) >=? bsz then sz else u32 (sz + 40)) = if negb (bsz <=? sz + 44) then sz + 40 else sz) as ->.
  { rewrite (u32_small (sz + 40 + 4)), (u32_small (sz + 40)), Z.geb_leb by lia. destruct exact; [specialize (Hex eq_refl)|]; destruct (Z.leb_spec bsz (sz + 44)); cbn [negb]; try lia; [rewrite (proj2 (Z.leb_le _ _)); lia|rewrite (proj2 (Z.leb_gt _ _)); lia]. }
  destruct (bsz <=? sz + 44); cbn [negb]; cbv zeta; [by rewrite Z.eqb_refl|]. by rewrite (proj2 (Z.eqb_neq (sz + 40) sz)) by lia.
Qed.
Lemma alloc_from_run e junk s bs fs als b dsize osize is_async sz exact : binv s bs fs als -> vma s = true -> mm e = true -> env_ok e -> request_ok s bs fs b dsize osize is_async sz ->
  (exact = true -> sz = size_of (fin s) bs b) ->
  let run := alloc_from e junk dsize osize is_async sz b (size_of (fin s) bs b) exact s in (run = Some (0, s) /\ no_pages e s) \/ allocates s bs als b dsize osize is_async run.
Proof.
  intros Hb Hv Hm He Hq Hex run. destruct (free_in_bs _ _ _ _ _ Hb (rq_in _ _ _ _ _ _ _ _ Hq)) as (Hbs & Hf & _). pose proof (bv_core _ _ _ _ Hb) as Hc. pose proof (co_tiled _ _ Hc) as Ht.
  destruct (list_elem_of_split _ _ Hbs) as (l1 & l2 & El). pose proof (rq_fit _ _ _ _ _ _ _ _ Hq) as Hfit. destruct (rq_align _ _ _ _ _ _ _ _ Hq) as [Hs0 Hs4]. pose proof (end_of_bounds _ _ _ Ht Hbs) as Hend.
  assert (size_of (fin s) bs b = hd (fin s) l2 - data b) as Esz by (rewrite El in Ht |- *; by apply tiled_split). unfold run. clear run.
  destruct (co_bounds _ _ _ Hc Hbs) as (B1 & B2 & B3 & B4 & B5 & B6). pose proof (bv_size _ _ _ _ Hb) as H4M.
  assert (size_of (fin s) bs b <= SZ_4M) as Hsz4 by (unfold end_of, fin, data, sizeof_buffer in *; lia).
  rewrite (alloc_from_code _ _ _ _ _ _ _ _ (negb (size_of (fin s) bs b <=? sz + 44))) by done. rewrite Esz in *. replace (data b + (hd (fin s) l2 - data b)) with (hd (fin s) l2) by lia.
  destruct (Z.leb_spec (hd (fin s) l2 - data b) (sz + 44)) as [Hw|Hw]; cbn [negb].
  - destruct (alloc_pages_run e s bs fs als l1 b l2 (data b + sz) Hb Hv Hm He El Hf) as [[Hrun Hq']|(s1 & Hrun & Ho & Hc1 & Hk)]; [lia| |]; mrun Hrun; [by left|right].
    destruct (tail_whole s bs fs als s1 b sz junk dsize osize is_async Hb Hq) as (s' & fs' & als' & H); [lia|done|done| |by exists s', bs, fs', als'].
    intros p. rewrite Hk. split; (intros [Hp|Hp]; [by left|right]).
    + destruct (proj2 (data_range s bs l1 b l2 (data b + sz) Hc El ltac:(lia)) p Hp). done.
    + destruct Hp as [[Hp1 Hp2] Hin]. rewrite El in Hin, Ht. apply (range_whole (fin s) l1); (done || lia).
  - set (c := data b + sz). assert (data b + (sz + sizeof_buffer) = data c) as -> by (unfold c, data; lia).
    assert (tiled (fin s) (l1 ++ b :: c :: l2)) as Ht'.
    { rewrite El in Ht. apply tiled_app in Ht as [T1 T2]. apply tiled_app. split; [done|]. cbn in T2 |- *. destruct T2 as (T2 & T3 & T4). unfold c, data, sizeof_buffer in *. split_and!; try (done || lia).
      rewrite Z.add_mod, Hs4, (Z.add_mod b), T3 by lia. done. }
    destruct (alloc_pages_run e s bs fs als l1 b l2 (data c) Hb Hv Hm He El Hf) as [[Hrun Hq']|(s1 & Hrun & Ho & Hc1 & Hk)]; [unfold c, data, sizeof_buffer in *; lia| |]; mrun Hrun; [by left|right].
    eapply (tail_split s bs fs als s1 l1 b l2 sz junk dsize osize is_async Hb Hq El Ht' Ho Hc1). fold c. intros p. rewrite Hk. split; (intros [Hp|Hp]; [by left|right]).
    + destruct (proj2 (data_range s bs l1 b l2 (data c) Hc El ltac:(unfold c, data, sizeof_buffer in *; lia)) p Hp) as [Hp' _]. split; [done|]. apply (range_split (fin s) l1); (done || lia || apply Hp').
    + destruct Hp as [[Hp1 Hp2] Hin]. apply (range_split (fin s) l1); (done || lia).
Qed.
(** Why a request may be refused. *)
Definition refused e s bs fs (dsize osize : Z) (is_async : bool) : Prop :=
  vma s = false \/ 2 ^ 32 <= rounded dsize + rounded osize \/ (is_async = true /\ free_async_space s < rounded dsize + rounded osize + sizeof_buffer) \/
  (forall y, y ∈ fs -> size_of (fin s) bs y < rounded dsize + rounded osize) \/ no_pages e s.
Lemma alloc_buf_run e junk s bs fs als dsize osize is_async : binv s bs fs als -> (vma s = true -> mm e = true) -> env_ok e -> 0 <= dsize < 2 ^ 32 -> 0 <= osize < 2 ^ 32 ->
  let run := binder_alloc_buf e junk dsize osize is_async s in
  (run = Some (0, s) /\ refused e s bs fs dsize osize is_async) \/ exists b, fits s bs (rounded dsize + rounded osize) fs b /\ allocates s bs als b dsize osize is_async run.
Proof.
  intros Hb Hm He Hd Ho run. unfold run, binder_alloc_buf, refused. erewrite bind_run by done. destruct (vma s) eqn:Hv; cbn [negb]; [|left; tauto]. specialize (Hm eq_refl). cbv zeta.
  pose proof (request_spec dsize osize Hd Ho) as Hr. cbv zeta in Hr. destruct (_ || _); [left; tauto|]. destruct Hr as (Er & R1 & R2). set (sz := u32 _) in *. rewrite <-Er.
  pose proof (bv_core _ _ _ _ Hb) as Hc. pose proof (bv_size _ _ _ _ Hb) as H4M.
  destruct (is_async && (free_async_space s <? u32 (sz + sizeof_buffer))) eqn:Ea.
  { left. split; [done|]. apply andb_true_iff in Ea as [-> Ea%Z.ltb_lt]. pose proof (Z.mod_le (sz + sizeof_buffer) (2 ^ 32)). unfold u32, sizeof_buffer in *. right. right. left. split; [done|lia]. }
  assert (forall b, fits s bs sz fs b -> request_ok s bs fs b dsize osize is_async sz) as Hq.
  { intros b (F1 & F2 & _). split; try done; try lia. intros ->. cbn [andb] in Ea. apply Z.ltb_ge in Ea. destruct (free_in_bs _ _ _ _ _ Hb F1) as (Hbs & _).
    pose proof (end_of_bounds _ _ _ (co_tiled _ _ Hc) Hbs) as Hend. destruct (co_bounds _ _ _ Hc Hbs) as (B1 & _). unfold end_of, fin, data, sizeof_buffer, SZ_4M in *. by rewrite u32_small in Ea by lia. }
  destruct (best_fit_run s bs Hc sz fs (bv_free _ _ _ _ Hb)) as [(b & Hf & Esz & Hrun)|[[Hno Hrun]|(b & Hf & Esz & Hrun)]];
    [intros y Hy; by apply (bv_free_in _ _ _ _ Hb)|apply (bv_free_sorted _ _ _ _ Hb)|rewrite (bind_run _ _ _ _ _ Hrun)..]; [| by left; tauto|].
  - destruct (alloc_from_run e junk s bs fs als b dsize osize is_async sz true Hb Hv Hm He (Hq b Hf)) as [[Hrun' Hp]|H]; [done|left; tauto|right; by exists b].
  - assert (b <> 0) as H0 by (destruct (free_in_bs _ _ _ _ _ Hb (proj1 Hf)) as (Hbs & _); pose proof (co_bounds _ _ _ Hc Hbs) as (_ & _ & _ & ? & _); lia). rewrite (proj2 (Z.eqb_neq _ _) H0).
    destruct (free_in_bs _ _ _ _ _ Hb (proj1 Hf)) as (Hbs & _). mrun (buffer_size_run _ _ _ Hc Hbs).
    destruct (alloc_from_run e junk s bs fs als b dsize osize is_async sz false Hb Hv Hm He (Hq b Hf)) as [[Hrun' Hp]|H]; [done|left; tauto|right; by exists b].
Qed.

(** ** [binder_free_buf]

    Between the two trees: [x] is free and in neither of them. *)
Record half s bs fs als (x : Z) : Prop := {
  hf_core : core s bs;
  hf_exact : exact_pages s bs;
  hf_free : tree_ok (free_buffers s) fs;
  hf_in : forall y, y ∈ fs <-> y ∈ bs /\ isfree s y = true /\ y <> x;
  hf_sorted : StronglySorted (le_size (size_of (fin s) bs)) fs;
  hf_alloc : tree_ok (allocated_buffers s) als;
  hf_alloc_in : forall y, y ∈ als <-> y ∈ bs /\ isfree s y = false;
  hf_bs : x ∈ bs;
  hf_x : isfree s x = true;
}.
(** The allocated buffers [als] stay as they are. *)
Definition keeps als s bs s' bs' : Prop :=
  same_area s s' /\ free_async_space s' = free_async_space s /\ forall y, y ∈ als -> headers s' !! y = headers s !! y /\ size_of (fin s') bs' y = size_of (fin s) bs y.
Lemma keeps_refl als s bs : keeps als s bs s bs.
Proof. split_and!; [by split_and!|done..]. Qed.
Lemma keeps_trans als s1 bs1 s2 bs2 s3 bs3 : keeps als s1 bs1 s2 bs2 -> keeps als s2 bs2 s3 bs3 -> keeps als s1 bs1 s3 bs3.
Proof.
  intros (A1 & F1 & K1) (A2 & F2 & K2). split_and!; [unfold same_area in *; intuition congruence|congruence|]. intros y Hy. destruct (K1 y Hy), (K2 y Hy). split; congruence.
Qed.
(** Two free neighbours become one; one of them was in the tree of free buffers. *)
Lemma half_merge s s' l1 b c l2 fs als x z f1 f2 : half s (l1 ++ b :: c :: l2) fs als x -> (x = b /\ z = c \/ x = c /\ z = b) -> isfree s b = true -> isfree s c = true -> fs = f1 ++ z :: f2 ->
  core s' (l1 ++ b :: l2) -> exact_pages s' (l1 ++ b :: l2) -> headers s' = headers s -> same_area s s' -> free_async_space s' = free_async_space s ->
  tree_ok (free_buffers s') (f1 ++ f2) -> allocated_buffers s' = allocated_buffers s ->
  half s' (l1 ++ b :: l2) (f1 ++ f2) als b /\ keeps als s (l1 ++ b :: c :: l2) s' (l1 ++ b :: l2).
Proof.
  intros Hh Hxz Eb Ec Ef Hc Hex Eh Ha Eas Hft Eat. pose proof (same_fin _ _ Ha) as Efin. assert (forall y, isfree s' y = isfree s y) as Hfr by (intros y; apply isfree_eq; by rewrite Eh).
  pose proof (tiled_nodup _ _ (co_tiled _ _ (hf_core _ _ _ _ _ Hh))) as Hnd. assert (c ∉ l1 ++ b :: l2) as Hcn.
  { change (l1 ++ b :: c :: l2) with (l1 ++ [b] ++ c :: l2) in Hnd. rewrite app_assoc, <-Permutation_middle in Hnd. apply NoDup_cons in Hnd as [Hnd _]. by rewrite <-app_assoc in Hnd. }
  assert (z ∉ f1 ++ f2) as Hzn.
  { pose proof (tree_ok_nodup _ _ (hf_free _ _ _ _ _ Hh)) as Hn. rewrite Ef, <-Permutation_middle in Hn. by apply NoDup_cons in Hn as [? _]. }
  assert (forall y, y ∈ f1 ++ f2 <-> y ∈ l1 ++ b :: l2 /\ isfree s' y = true /\ y <> b) as Hin.
  { intros y. assert (y ∈ f1 ++ f2 <-> y ∈ fs /\ y <> z) as -> by (rewrite Ef; set_solver +Hzn). rewrite (hf_in _ _ _ _ _ Hh y), Hfr. destruct Hxz as [[-> ->]|[-> ->]]; set_solver +Hcn. }
  split; [split; try done|split_and!; [done..|]].
  - eapply le_size_ext; [|eapply (sorted_drop f1 z f2); rewrite <-Ef; apply (hf_sorted _ _ _ _ _ Hh)]. intros y Hy. rewrite Efin. apply size_of_insert; [apply Hin in Hy; tauto|]. intros ->. apply Hin in Hy. tauto.
  - rewrite Eat. apply (hf_alloc _ _ _ _ _ Hh).
  - intros y. rewrite (hf_alloc_in _ _ _ _ _ Hh y), Hfr. split; intros [H1 H2]; (split; [|done]); [assert (y <> c) by congruence; set_solver|set_solver +H1].
  - set_solver +.
  - by rewrite Hfr.
  - intros y Hy. rewrite Eh, Efin. split; [done|]. apply (hf_alloc_in _ _ _ _ _ Hh) in Hy as [_ Hy]. symmetry. apply size_of_insert; congruence.
Qed.
Lemma apart_snoc fr l a : apart fr (l ++ [a]) <-> apart fr l /\ match last l with None => True | Some x => fr x = false \/ fr a = false end.
Proof. induction l as [|x l IH]; [done|]. rewrite <-app_comm_cons. cbn [apart]. rewrite IH. destruct l as [|y l]; cbn [app last apart]; tauto. Qed.
Lemma delete_same e s s' : s' = set_pages (pages s') (kernel_pages s') (user_pages s') (set_entries (entries s') s) ->
  headers s' = headers s /\ same_area s s' /\ free_async_space s' = free_async_space s /\ free_buffers s' = free_buffers s /\ allocated_buffers s' = allocated_buffers s /\ has_vma e false s' = has_vma e false s.
Proof. intros ->. by split_and!. Qed.
Lemma merge_next_run e s l1 b l2 fs als : half s (l1 ++ b :: l2) fs als b -> has_vma e false s = vma s -> apart (isfree s) l2 ->
  exists s' l2' fs', merge_next e b s = Some (tt, s') /\ half s' (l1 ++ b :: l2') fs' als b /\ keeps als s (l1 ++ b :: l2) s' (l1 ++ b :: l2') /\ headers s' = headers s /\
    has_vma e false s' = has_vma e false s /\ apart (isfree s) l2' /\ match l2' with [] => True | n :: _ => isfree s n = false end.
Proof.
  intros Hh Hv Hap. pose proof (hf_core _ _ _ _ _ Hh) as Hc. unfold merge_next. erewrite bind_run by done. mrun (is_last_run _ _ _ _ Hc). destruct l2 as [|n l2].
  { exists s, [], fs. by split_and!; try done; apply keeps_refl. }
  mrun (entry_next_run _ _ _ _ Hc). cbn [hd]. assert (n ∈ l1 ++ b :: n :: l2) as Hn by set_solver +. destruct (isfree s n) eqn:En.
  - destruct (isfree_load _ _ _ _ Hc Hn En) as (h & _ & Hrun & Hfr). mrun Hrun. rewrite Hfr.
    assert (n ∈ fs) as Hnf. { apply (hf_in _ _ _ _ _ Hh). split_and!; [done..|]. intros ->. destruct (tiled_split _ _ _ _ (co_tiled _ _ Hc)) as (_ & H & _). set_solver +H. }
    apply list_elem_of_split in Hnf as (f1 & f2 & Ef). pose proof (hf_free _ _ _ _ _ Hh) as Hft. rewrite Ef in Hft. destruct (erase_free_run s f1 n f2 Hft) as (t & Hrun1 & Ht). mrun Hrun1.
    destruct (delete_run e (set_free_tree t s) l1 b n l2 Hv (core_free_tree _ _ t Hc) (hf_exact _ _ _ _ _ Hh) (hf_x _ _ _ _ _ Hh) En) as (s' & Hrun2 & Hc' & Hex' & Es'). rewrite Hrun2.
    destruct (delete_same e _ _ Es') as (E1 & E2 & E3 & E4 & E5 & E6). exists s', l2, (f1 ++ f2). split; [done|].
    destruct (half_merge s s' l1 b n l2 fs als b n f1 f2 Hh) as [Hh' Hk]; try done; [by left|apply (hf_x _ _ _ _ _ Hh)|by rewrite E4|].
    split_and!; try done; [apply Hap|].
    destruct Hap as [Hap _]. destruct l2 as [|m l2]; [done|]. destruct Hap; congruence.
  - destruct (isfree_load _ _ _ _ Hc Hn En) as (h & _ & Hrun & Hfr). mrun Hrun. rewrite Hfr. exists s, (n :: l2), fs. by split_and!; try done; apply keeps_refl.
Qed.
Lemma merge_prev_run e s l1 b l2 fs als : half s (l1 ++ b :: l2) fs als b -> has_vma e false s = vma s -> apart (isfree s) l1 ->
  exists s' l1' b' fs', merge_prev e b s = Some (b', s') /\ half s' (l1' ++ b' :: l2) fs' als b' /\ keeps als s (l1 ++ b :: l2) s' (l1' ++ b' :: l2) /\ headers s' = headers s /\
    apart (isfree s) l1' /\ match last l1' with None => True | Some n => isfree s n = false end.
Proof.
  intros Hh Hv Hap. pose proof (hf_core _ _ _ _ _ Hh) as Hc. unfold merge_prev. erewrite bind_run by done. mrun (first_run _ _ Hc). destruct l1 as [|a l1 _] using rev_ind.
  { pose proof (co_head _ _ Hc) as E. cbn in E. injection E as ->. rewrite Z.eqb_refl. exists s, [], (buffer s), fs. by split_and!; try done; apply keeps_refl. }
  rewrite <-app_assoc in *. cbn [app] in *. assert (a ∈ l1 ++ a :: b :: l2) as Ha by set_solver +. pose proof (tiled_mid _ _ _ _ (co_tiled _ _ Hc)) as (_ & _ & H3 & _). cbn [hd] in H3.
  destruct (co_bounds _ _ _ Hc Ha) as (B1 & _). unfold sizeof_buffer in H3. rewrite (proj2 (Z.eqb_neq (buffer s) b)) by lia. mrun (prev_run _ _ _ _ _ Hc). destruct (isfree s a) eqn:En.
  - destruct (isfree_load _ _ _ _ Hc Ha En) as (h & _ & Hrun & Hfr). mrun Hrun. rewrite Hfr.
    assert (a ∈ fs) as Hnf by (apply (hf_in _ _ _ _ _ Hh); split_and!; [done..|lia]).
    apply list_elem_of_split in Hnf as (f1 & f2 & Ef). pose proof (hf_free _ _ _ _ _ Hh) as Hft. rewrite Ef in Hft.
    destruct (delete_run e s l1 a b l2 Hv Hc (hf_exact _ _ _ _ _ Hh) En (hf_x _ _ _ _ _ Hh)) as (s1 & Hrun2 & Hc' & Hex' & Es'). mrun Hrun2.
    destruct (delete_same e _ _ Es') as (E1 & E2 & E3 & E4 & E5 & E6). rewrite <-E4 in Hft. destruct (erase_free_run s1 f1 a f2 Hft) as (t & Hrun1 & Ht). mrun Hrun1.
    exists (set_free_tree t s1), l1, a, (f1 ++ f2). split; [done|].
    destruct (half_merge s (set_free_tree t s1) l1 a b l2 fs als b a f1 f2 Hh) as [Hh' Hk]; try done; [by right|apply (hf_x _ _ _ _ _ Hh)|by apply core_free_tree|].
    apply apart_snoc in Hap as [Hap Hl]. split_and!; try done. destruct (last l1) as [x|]; [|done]. destruct Hl; congruence.
  - destruct (isfree_load _ _ _ _ Hc Ha En) as (h & _ & Hrun & Hfr). mrun Hrun. rewrite Hfr. exists s, (l1 ++ [a]), b, fs. rewrite <-app_assoc. split_and!; try done. by rewrite last_snoc.
Qed.
Lemma page_end_same x : 0 <= x <= 2 ^ 32 - 4096 -> page_end x x = Z.land x PAGE_MASK.
Proof. intros Hx. unfold page_end. destruct (page_ceil x Hx) as (k & -> & Hk). destruct (page_floor x) as (j & -> & Hj); [lia|]. cbv zeta. destruct (Z.gtb_spec (4096 * k) (4096 * j)); lia. Qed.
(** The pages inside the data of an allocated buffer are freed. *)
Lemma free_pages_run e s bs l1 b l2 : core s bs -> exact_pages s bs -> bs = l1 ++ b :: l2 -> isfree s b = false -> has_vma e false s = vma s ->
  exists r s1, binder_update_page_range e false (PAGE_ALIGN (data b)) (Z.land (hd (fin s) l2) PAGE_MASK) false s = Some (r, s1) /\ pages_only s s1 /\ core s1 bs /\
    forall p, p ∈ kernel_pages s1 <-> p ∈ kernel_pages s /\ ~ inside (fin s) bs b p.
Proof.
  intros Hc Hex El Hf Hv. pose proof (co_tiled _ _ Hc) as Ht. assert (b ∈ bs) as Hbs by (rewrite El; set_solver +).
  destruct (co_bounds _ _ _ Hc Hbs) as (B1 & B2 & B3 & B4 & B5 & B6). assert (data b <= hd (fin s) l2 <= fin s) as Hh by (rewrite El in Ht; pose proof (tiled_mid _ _ _ _ Ht); unfold data; tauto).
  rewrite <-page_end_same by (unfold data, sizeof_buffer in *; lia). destruct (data_range s bs l1 b l2 (hd (fin s) l2) Hc El ltac:(lia)) as [Hr Hin].
  assert (forall p, page_of s p -> inside (fin s) bs b p <-> in_range (PAGE_ALIGN (data b)) (page_end (hd (fin s) l2) (hd (fin s) l2)) p) as Hins.
  { intros p [Hp _]. rewrite El in Ht |- *. pose proof (range_whole (fin s) l1 b l2 (hd (fin s) l2 - data b) p Ht) as Hw. replace (data b + (hd (fin s) l2 - data b)) with (hd (fin s) l2) in Hw by lia.
    symmetry. apply Hw; (done || lia). }
  destruct (update_free_run e (vma s) s (PAGE_ALIGN (data b)) (page_end (hd (fin s) l2) (hd (fin s) l2)) Hv (co_pages _ _ Hc) Hr) as (r & s1 & Hrun & Ho & Hi & Hk).
  { intros p Hp. destruct (Hin p Hp). apply Hex. split; [done|]. exists b. split; [done|by right]. }
  assert (forall p, p ∈ kernel_pages s1 <-> p ∈ kernel_pages s /\ ~ inside (fin s) bs b p) as Hk'.
  { intros p. rewrite Hk. split; intros [H1 H2]; (split; [done|]); intros H3; apply H2, Hins; try done; apply (pi_in _ _ (co_pages _ _ Hc) p H1). }
  exists r, s1. split_and!; try done. eapply core_pages; [done..|]. intros x Hx. unfold pages_only in Ho.
  apply mapped_pages; [apply (pi_area _ _ Hi)|rewrite Ho; apply (co_bounds _ _ _ Hc Hx)|rewrite Ho; apply (co_bounds _ _ _ Hc Hx)|]. intros p Hp Hu. rewrite Ho in Hp. apply Hk'.
  assert (need (λ y, if y =? b then true else isfree s y) (fin s) bs p) as Hn by (exists x; split; [done|by left]). split.
  - apply Hex. split; [done|]. exists x. split; [done|by left].
  - intros Hp'. eapply need_data; [exact Ht|exact Hbs| | | |exact Hp'|exact Hn]; cbn; [by rewrite Z.eqb_refl|exact Hf|]. intros y Hy. by rewrite (proj2 (Z.eqb_neq _ _) Hy).
Qed.
Definition async_back h : Z := if async_transaction h then request h + sizeof_buffer else 0.
Lemma async_freed s bs fs als a1 b a2 h : binv s bs fs als -> als = a1 ++ b :: a2 -> headers s !! b = Some h ->
  (if async_transaction h then u32 (free_async_space s + u32 (request h + sizeof_buffer)) else free_async_space s) = free_async_space s + async_back h /\
  free_async_space s + async_back h + async_sum (headers s) (a1 ++ a2) = buffer_size s `div` 2 /\ 0 <= free_async_space s + async_back h.
Proof.
  intros Hb Ea Eh. destruct (bv_async _ _ _ _ Hb) as [E H0]. pose proof (bv_size _ _ _ _ Hb) as H4. destruct (pi_area _ _ (co_pages _ _ (bv_core _ _ _ _ Hb))) as [_ _ A3 _ _].
  rewrite Ea, async_sum_app, async_sum_cons in E. assert (async_cost (headers s) b = async_back h) as Ec by (unfold async_cost; by rewrite Eh).
  pose proof (async_sum_pos (headers s) a1). pose proof (async_sum_pos (headers s) a2). assert (buffer_size s `div` 2 <= buffer_size s) by (apply Z.div_le_upper_bound; lia).
  rewrite async_sum_app. pose proof (u32_range (ALIGN (data_size h) 4 + ALIGN (offsets_size h) 4)) as Hr. fold (request h) in Hr.
  unfold async_back, sizeof_buffer, SZ_4M in *. destruct (async_transaction h); [|lia]. rewrite (u32_small (request h + 40)) by lia. rewrite u32_small by lia. lia.
Qed.
Lemma free_code e s bs fs als l1 b l2 h : binv s bs fs als -> b ∈ als -> bs = l1 ++ b :: l2 -> headers s !! b = Some h -> transaction h = 0 ->
  binder_free_buf e b s =
  ((if async_transaction h then modify (λ s, set_async (u32 (free_async_space s + u32 (request h + sizeof_buffer))) s) else mret tt) ;;
   binder_update_page_range e false (PAGE_ALIGN (data b)) (Z.land (hd (fin s) l2) PAGE_MASK) false ;;
   on_alloc (rb_erase b) ;; store_buf b (with_free true) ;; merge_next e b ;; b ← merge_prev e b; binder_insert_free_buffer b) s.
Proof.
  intros Hb Ha El Eh Htr. pose proof (bv_core _ _ _ _ Hb) as Hc. destruct (proj1 (bv_alloc_in _ _ _ _ Hb b) Ha) as [Hbs Hf]. unfold binder_free_buf. mrun (buffer_size_run _ _ _ Hc Hbs).
  destruct (isfree_load _ _ _ _ Hc Hbs Hf) as (h' & Eh' & Hrun & Hfr). rewrite Eh in Eh'. injection Eh' as <-. mrun Hrun. cbv zeta. erewrite bind_run by done.
  destruct (bv_fit _ _ _ _ Hb b Ha h Eh) as (_ & _ & _ & Hfit). destruct (co_bounds _ _ _ Hc Hbs) as (B1 & B2 & _). unfold data, sizeof_buffer in B2.
  rewrite Hfr, Htr, Z.eqb_refl, (proj2 (Z.ltb_ge _ _) B1), !Z.gtb_ltb. change (u32 (ALIGN (data_size h) 4 + ALIGN (offsets_size h) 4)) with (request h).
  rewrite (proj2 (Z.ltb_ge _ _) Hfit), (proj2 (Z.ltb_ge (buffer s + buffer_size s) b)) by (unfold fin in B2; lia).
  assert (data b + size_of (fin s) bs b = hd (fin s) l2) as ->; [|done]. rewrite El. pose proof (co_tiled _ _ Hc) as Ht. rewrite El in Ht. destruct (tiled_split _ _ _ _ Ht) as (_ & _ & ->). lia.
Qed.
Lemma free_start e s bs fs als b h : binv s bs fs als -> b ∈ als -> headers s !! b = Some h -> transaction h = 0 -> has_vma e false s = vma s ->
  exists s4 a1 a2, binder_free_buf e b s = (merge_next e b ;; b ← merge_prev e b; binder_insert_free_buffer b) s4 /\ half s4 bs fs (a1 ++ a2) b /\ als = a1 ++ b :: a2 /\
    headers s4 = <[b := with_free true h]> (headers s) /\ same_area s s4 /\ free_async_space s4 = free_async_space s + async_back h /\ has_vma e false s4 = has_vma e false s.
Proof.
  intros Hb Ha Eh Htr Hv. destruct (proj1 (bv_alloc_in _ _ _ _ Hb b) Ha) as [Hbs Hf]. destruct (list_elem_of_split _ _ Hbs) as (l1 & l2 & El). rewrite (free_code e s bs fs als l1 b l2 h) by done.
  destruct (list_elem_of_split _ _ Ha) as (a1 & a2 & Ea). destruct (async_freed s bs fs als a1 b a2 h Hb Ea Eh) as (As1 & _ & _). pose proof (bv_core _ _ _ _ Hb) as Hc.
  set (s1 := set_async (free_async_space s + async_back h) s). assert (forall {A} (k : BM A), ((if async_transaction h then modify (λ s, set_async (u32 (free_async_space s + u32 (request h + sizeof_buffer))) s) else mret tt) ;; k) s = k s1) as Has.
  { intros A k. unfold s1. rewrite <-As1. destruct (async_transaction h); [done|]. by destruct s. }
  rewrite Has. clear Has. destruct (free_pages_run e s1 bs l1 b l2 (core_async _ _ _ Hc) (bv_exact _ _ _ _ Hb) El Hf Hv) as (r & s2 & Hrun & Ho & Hc2 & Hk). change (fin s1) with (fin s) in *. mrun Hrun. clear Hrun.
  pose proof (bv_alloc _ _ _ _ Hb) as Hat. rewrite Ea in Hat. unfold pages_only in Ho. assert (allocated_buffers s2 = allocated_buffers s) as E2 by (by rewrite Ho). rewrite <-E2 in Hat.
  destruct (erase_alloc_run s2 a1 b a2 Hat) as (t & Hrun & Ht). mrun Hrun. clear Hrun. pose proof (core_alloc_tree _ _ t Hc2) as Hc3.
  mrun (store_buf_run _ _ b (with_free true) h Hc3 Hbs ltac:(cbn; rewrite Ho; exact Eh)). pose proof (core_header _ _ b (with_free true h) Hc3) as Hc4. match type of Hc4 with core ?x _ => set (s4 := x) in * end.
  assert (headers s4 = <[b := with_free true h]> (headers s)) as Eh4 by (unfold s4; cbn; by rewrite Ho). assert (isfree s4 b = true) as Hf4 by (unfold isfree; by rewrite Eh4, lookup_insert_eq).
  assert (forall x, x <> b -> isfree s4 x = isfree s x) as Hfr by (intros x Hx; apply isfree_eq; rewrite Eh4; by apply lookup_insert_ne).
  assert (same_area s s4) as Harea by (unfold s4; rewrite Ho; by split_and!). pose proof (same_fin _ _ Harea) as Efin.
  assert (b ∉ a1 ++ a2) as Hnb by (apply tree_ok_nodup in Hat; rewrite <-Permutation_middle in Hat; by apply NoDup_cons in Hat as [? _]).
  exists s4, a1, a2. split_and!; try done; [|unfold s4; cbn; by rewrite Ho|unfold s4, has_vma; cbn; by rewrite Ho]. split; try done.
  - intros p. change (kernel_pages s4) with (kernel_pages s2). rewrite Hk. change (p ∈ kernel_pages s1) with (p ∈ kernel_pages s). rewrite (bv_exact _ _ _ _ Hb p), Efin.
    assert (page_of s4 p <-> page_of s p) as -> by (unfold page_of; destruct Harea as (_ & -> & -> & _); done).
    destruct (need_data (isfree s4) (isfree s) (fin s) bs b p (co_tiled _ _ Hc) Hbs Hf4 Hf) as [-> Hno]; [intros x Hx; symmetry; by apply Hfr|]. tauto.
  - change (free_buffers s4) with (free_buffers s2). rewrite Ho. apply (bv_free _ _ _ _ Hb).
  - intros y. rewrite (bv_free_in _ _ _ _ Hb y). split; [intros [H1 H2]; assert (y <> b) by congruence|intros (H1 & H2 & H3)]; [by rewrite Hfr|by rewrite Hfr in H2].
  - rewrite Efin. apply (bv_free_sorted _ _ _ _ Hb).
  - intros y. assert (y ∈ a1 ++ a2 <-> y ∈ als /\ y <> b) as -> by (rewrite Ea; set_solver +Hnb). rewrite (bv_alloc_in _ _ _ _ Hb y). split; [intros [[H1 H2] H3]; by rewrite Hfr|intros [H1 H2]].
    assert (y <> b) by congruence. by rewrite Hfr in H2.
Qed.
(** What a release of [b] does: one buffer less is allocated, the others stay as they are. *)
Record free_post s bs als b s' bs' als' : Prop := {
  fp_area : same_area s s';
  fp_alloc : forall y, y ∈ als' <-> y ∈ als /\ y <> b;
  fp_others : forall y, y ∈ als' -> headers s' !! y = headers s !! y /\ size_of (fin s') bs' y = size_of (fin s) bs y;
  fp_async : forall h, headers s !! b = Some h -> free_async_space s' = free_async_space s + async_back h;
}.
Lemma apart_around fr l1 b l2 : apart fr l1 -> apart fr l2 -> match last l1 with None => True | Some n => fr n = false end -> match l2 with [] => True | n :: _ => fr n = false end -> apart fr (l1 ++ b :: l2).
Proof.
  intros H1 H2 H3 H4. apply apart_mid. split.
  - apply apart_snoc. split; [done|]. destruct (last l1); [by left|done].
  - split; [|done]. destruct l2; [done|by right].
Qed.
(** The last step: the buffer goes into the tree of free buffers. *)
Lemma half_finish s bs fs als b : half s bs fs als b -> StronglySorted Z.lt als -> apart (isfree s) bs -> (forall y, y ∈ als -> fit_ok s bs y) ->
  free_async_space s + async_sum (headers s) als = buffer_size s `div` 2 -> 0 <= free_async_space s -> buffer_size s <= SZ_4M ->
  exists t fs', binder_insert_free_buffer b s = Some (tt, set_free_tree t s) /\ binv (set_free_tree t s) bs fs' als.
Proof.
  intros Hh Hs Hap Hfit Has Has0 H4. assert (b ∉ fs) as Hn by (intros Hy; apply (hf_in _ _ _ _ _ Hh) in Hy; tauto).
  destruct (insert_free_run s bs (hf_core _ _ _ _ _ Hh) b fs (hf_bs _ _ _ _ _ Hh) (hf_x _ _ _ _ _ Hh) (hf_free _ _ _ _ _ Hh)) as (t & g1 & g2 & Hrun & Ht & Eg & Hsg);
    [intros y Hy; apply (hf_in _ _ _ _ _ Hh) in Hy; tauto|apply (hf_sorted _ _ _ _ _ Hh)|done|].
  exists t, (g1 ++ b :: g2). split; [done|]. destruct Hh as [Hc He Hf Hi Hso Ha Hai Hb Hx]. split; try done; [by apply core_free_tree|]. change (isfree (set_free_tree t s)) with (isfree s).
  intros y. assert (y ∈ g1 ++ b :: g2 <-> y = b \/ y ∈ fs) as -> by (rewrite Eg; set_solver +). rewrite (Hi y). destruct (decide (y = b)) as [->|Hne]; tauto.
Qed.
(** The buffer and its free neighbours become one. *)
Lemma merge_run e s l1 b l2 fs als : half s (l1 ++ b :: l2) fs als b -> has_vma e false s = vma s -> apart (isfree s) l1 -> apart (isfree s) l2 ->
  exists s' bs' b' fs', (merge_next e b ;; b ← merge_prev e b; binder_insert_free_buffer b) s = binder_insert_free_buffer b' s' /\ half s' bs' fs' als b' /\
    keeps als s (l1 ++ b :: l2) s' bs' /\ headers s' = headers s /\ apart (isfree s') bs'.
Proof.
  intros Hh Hv Ap1 Ap2. destruct (merge_next_run e s l1 b l2 fs als Hh Hv Ap2) as (s5 & l2' & fs5 & Hrun5 & Hh5 & Hk5 & Eh5 & Hv5 & Ap2' & Hn2). mrun Hrun5.
  assert (forall x, isfree s5 x = isfree s x) as Hfr5 by (intros x; apply isfree_eq; by rewrite Eh5). assert (vma s5 = vma s) as Hv5' by (apply Hk5).
  destruct (merge_prev_run e s5 l1 b l2' fs5 als Hh5) as (s6 & l1' & b' & fs6 & Hrun6 & Hh6 & Hk6 & Eh6 & Ap1' & Hn1); [congruence|by eapply apart_mono; [|exact Ap1]; intros x _; rewrite Hfr5|]. mrun Hrun6.
  assert (forall x, isfree s6 x = isfree s5 x) as Hfr6 by (intros x; apply isfree_eq; by rewrite Eh6).
  exists s6, (l1' ++ b' :: l2'), b', fs6. split_and!; [done|done|by eapply keeps_trans|congruence|]. apply apart_around.
  - eapply apart_mono; [|exact Ap1']. intros x _. by rewrite Hfr6.
  - eapply apart_mono; [|exact Ap2']. intros x _. by rewrite Hfr6, Hfr5.
  - destruct (last l1'); [by rewrite Hfr6|done].
  - destruct l2'; [done|by rewrite Hfr6, Hfr5].
Qed.
Lemma free_buf_run e s bs fs als b h : binv s bs fs als -> b ∈ als -> headers s !! b = Some h -> transaction h = 0 -> has_vma e false s = vma s ->
  exists s' bs' fs' als', binder_free_buf e b s = Some (tt, s') /\ binv s' bs' fs' als' /\ free_post s bs als b s' bs' als'.
Proof.
  intros Hb Ha Eh Htr Hv. destruct (free_start e s bs fs als b h Hb Ha Eh Htr Hv) as (s4 & a1 & a2 & -> & Hh4 & Ea & Eh4 & Har4 & Eas4 & Hv4). destruct (proj1 (bv_alloc_in _ _ _ _ Hb b) Ha) as [Hbs Hf].
  destruct (list_elem_of_split _ _ Hbs) as (l1 & l2 & El). destruct (async_freed s bs fs als a1 b a2 h Hb Ea Eh) as (_ & As2 & As3). pose proof (co_tiled _ _ (bv_core _ _ _ _ Hb)) as Ht.
  assert (forall x, x <> b -> isfree s4 x = isfree s x) as Hfr by (intros x Hx; apply isfree_eq; rewrite Eh4; by apply lookup_insert_ne).
  assert (apart (isfree s4) l1 /\ apart (isfree s4) l2) as [Ap1 Ap2].
  { pose proof (bv_apart _ _ _ _ Hb) as Hap. rewrite El in Hap, Ht. apply apart_mid in Hap as [[H1 _]%apart_snoc [_ H2]]. destruct (tiled_split _ _ _ _ Ht) as (N1 & N2 & _).
    split; (eapply apart_mono; [|done]); intros x Hx; rewrite Hfr; [done|by intros ->|done|by intros ->]. }
  assert (vma s4 = vma s) as Hv4' by (apply Har4). pose proof Hh4 as Hh4'. rewrite El in Hh4'. destruct (merge_run e s4 l1 b l2 fs (a1 ++ a2) Hh4') as (s6 & bs' & b' & fs6 & -> & Hh6 & Hk6 & Eh6 & Hap6); [congruence|done|done|].
  rewrite <-El in Hk6. destruct Hk6 as (Ka & Kas & Kh). assert (same_area s s6) as Harea by (unfold same_area in *; intuition congruence). pose proof (same_fin _ _ Harea) as Efin.
  assert (b ∉ a1 ++ a2) as Hnb by (pose proof (tree_ok_nodup _ _ (bv_alloc _ _ _ _ Hb)) as Hn; rewrite Ea, <-Permutation_middle in Hn; by apply NoDup_cons in Hn as [? _]).
  assert (forall y, y ∈ a1 ++ a2 <-> y ∈ als /\ y <> b) as Hin by (intros y; rewrite Ea; set_solver +Hnb).
  assert (forall y, y ∈ a1 ++ a2 -> headers s6 !! y = headers s !! y /\ size_of (fin s6) bs' y = size_of (fin s) bs y) as Hold.
  { intros y Hy. destruct (Kh y Hy) as [K1 K2]. rewrite K1, K2, Eh4, (same_fin _ _ Har4). split; [|done]. apply lookup_insert_ne. apply Hin in Hy as [_ Hy]. done. }
  destruct (half_finish s6 bs' fs6 (a1 ++ a2) b' Hh6) as (t & fs7 & Hrun & Hb7).
  - pose proof (bv_alloc_sorted _ _ _ _ Hb) as Hs. rewrite Ea in Hs. by eapply sorted_drop.
  - done.
  - intros y Hy. unfold fit_ok. destruct (Hold y Hy) as [-> ->]. apply (bv_fit _ _ _ _ Hb). by apply Hin.
  - destruct Harea as (_ & _ & -> & _). rewrite Kas, Eas4, (async_sum_ext (headers s)); [lia|]. intros y Hy. by apply Hold.
  - rewrite Kas, Eas4. lia.
  - destruct Harea as (_ & _ & -> & _). apply (bv_size _ _ _ _ Hb).
  - rewrite Hrun. exists (set_free_tree t s6), bs', fs7, (a1 ++ a2). split_and!; [done|done|]. split; try done. intros h' Eh'. rewrite Eh in Eh'. injection Eh' as <-. cbn. by rewrite Kas.
Qed.
End BinderOps.
