(* ===== verification/BinderSys.v ===== *)
(** * Binder areas over their lifetime

    An area is mapped with [binder_mmap], buffers are allocated, used and released in any
    order, the process may drop its mapping, and at the end everything is given back. *)
From stdpp Require Import prelude gmap list sorting.
From Stdlib Require Import ZArith Lia ZifyBool.
From S2P Require Import Prelude ListHead ListHeap Rbtree Ashmem BinderAlloc BinderPages BinderHeap BinderOps.
Open Scope Z_scope.

Module BinderSys.
Import Ashmem BinderAlloc BinderPages BinderHeap BinderOps.
Implicit Types (s : binder_proc) (p b c : Z) (e : page_env) (bs fs als : list Z) (h junk : binder_buffer) (H : gset Z).

(** ** Mapping an area *)
(** A process that has just been opened. *)
Record opened s : Prop := {
  op_buffer : buffer s = 0;
  op_vma : vma s = false;
  op_free : tree_ok (free_buffers s) [];
  op_alloc : tree_ok (allocated_buffers s) [];
  op_head : allocated (entries s) (buffers s);
}.
(** Whole pages, at an address of the kernel that is not that of the list head. *)
Record area_given s (area vm_start vm_end : Z) : Prop := {
  ag_pos : 4096 <= area;
  ag_align : area mod 4096 = 0;
  ag_size : 0 < vm_end - vm_start;
  ag_pages : (vm_end - vm_start) mod 4096 = 0;
  ag_top : area + (vm_end - vm_start) <= 2 ^ 32 - 4096;
  ag_head : ~ (area <= buffers s < area + (vm_end - vm_start));
}.
(** A tree with a single buffer. *)
Lemma insert_first b s sz : tree_ok (free_buffers s) [] -> valid b -> exists t,
  insert_free_loop (S (size (nodes (free_buffers s)))) b sz 0 LinkRoot (root (free_buffers s)) s = Some (tt, set_free_tree t s) /\ tree_ok t [b].
Proof.
  intros (t & Hz & Hrb & Ht) Hv. assert (t = L) as -> by (destruct t as [|c l x r]; [done|]; cbn in Ht; by destruct (inorder l)).
  assert (root (free_buffers s) = 0) as -> by (by destruct Hz as [_ Hcr _ _]). cbn [insert_free_loop Z.eqb].
  destruct (rb_link_node_run _ [] b Hz Hv ltac:(set_solver +)) as (st1 & H1 & Hz1). cbn [cptr link_of] in H1. erewrite bind_run by (by apply free_run).
  destruct (rb_insert_color_run _ [] _ Hz1 Hrb) as (st2 & t & H2 & Hz2 & Hrb2 & Hi). exists st2. split; [exact (free_run (rb_insert_color b) (set_free_tree st1 s) tt st2 H2)|by exists t].
Qed.
Lemma first_entry m (hd b : Z) : allocated m hd -> b <> hd -> exists m1 m2,
  INIT_LIST_HEAD hd (<[b := ListHead 0 0]> m) = Some (tt, m1) /\ list_add b hd m1 = Some (tt, m2) /\ lrep m2 {[hd := [b]]}.
Proof.
  intros Ha Hne. assert (allocated (<[b := ListHead 0 0]> m) hd) as Ha' by (unfold allocated; by rewrite lookup_insert_ne).
  destruct (INIT_LIST_HEAD_dlist _ _ Ha') as (m1 & Hrun & Hd & Hs). assert (lrep m1 ∅) as Hr0 by (split; [by intros ? ? ?%lookup_empty_Some|intros ? ? ? (? & ?%lookup_empty_Some & _)]; done).
  pose proof (heap_idle _ _ _ Hr0 Hd) as Hr1. rewrite insert_empty in Hr1.
  destruct (heap_add_unowned m1 {[hd := []]} hd [] b Hr1) as (m2 & Hadd & Hr2 & _); [by rewrite lookup_singleton_eq| | |].
  - intros q (l & E & Hl). apply lookup_singleton_Some in E as [<- <-]. set_solver +Hl Hne.
  - unfold allocated. rewrite Hs by set_solver +Hne. rewrite lookup_insert_eq. eauto.
  - exists m1, m2. rewrite insert_singleton_eq in Hr2. done.
Qed.
(** The state after the area has been reserved, before its first page is mapped. *)
Definition reserved (area vm_start vm_end : Z) s : binder_proc :=
  set_area area (vm_end - vm_start) (s32 (vm_start - area)) (set_pages (replicate (Z.to_nat ((vm_end - vm_start) `div` PAGE_SIZE)) 0) ∅ ∅ (set_area area (buffer_size s) (s32 (vm_start - area)) s)).
Lemma reserved_inv s area vm_start vm_end : area_given s area vm_start vm_end -> pinv true (reserved area vm_start vm_end s).
Proof.
  intros [A1 A2 A3 A4 A5 A6]. assert (area_ok (reserved area vm_start vm_end s)) as Ha by (by split). change PAGE_SIZE with 4096 in *. split; [done| |by cbn; set_solver| |done].
  - cbn. change PAGE_SIZE with 4096. rewrite length_replicate, Z2Nat.id; [done|]. apply Z.div_pos; lia.
  - intros p [Hp1 Hp2]. exists 0. split; [|cbn; set_solver]. cbn in *. apply lookup_replicate_2. unfold page_index. cbn. change PAGE_SIZE with 4096. apply Z2Nat.inj_lt; Z.to_euclidean_division_equations; lia.
Qed.
(** The first buffer: the area after its first page has been mapped. *)
Definition mmap_tail (head area : Z) junk : BM Z :=
  new_header area junk ;; on_entries (INIT_LIST_HEAD head) ;; on_entries (list_add area head) ;; store_buf area (with_free true) ;; binder_insert_free_buffer area ;;
  modify (λ s, set_async (buffer_size s `div` 2) s) ;; modify (set_vma true) ;; mret 0.
Record first_page s (area : Z) : Prop := {
  fp_buffer : buffer s = area;
  fp_pinv : pinv true s;
  fp_kernel : forall p, p ∈ kernel_pages s <-> p = area;
  fp_free : tree_ok (free_buffers s) [];
  fp_alloc0 : tree_ok (allocated_buffers s) [];
  fp_head : allocated (entries s) (buffers s);
  fp_out : ~ (area <= buffers s < fin s);
  fp_size : buffer_size s <= SZ_4M;
}.
Lemma load_plain s b h : header_mapped s b = true -> headers s !! b = Some h -> load_buf b s = Some (h, s).
Proof. intros Hm E. unfold load_buf. by rewrite Hm, E. Qed.
Lemma store_plain s b f h : header_mapped s b = true -> headers s !! b = Some h -> store_buf b f s = Some (tt, set_headers (<[b := f h]> (headers s)) s).
Proof. intros Hm E. unfold store_buf. by mrun (load_plain s b h Hm E). Qed.
Lemma uses_first s area p : buffer s = area -> area_ok s -> page_of s p -> uses_header area p <-> p = area.
Proof.
  intros E [A1 A2 A3 A4 A5] [P1 P2]. unfold uses_header, data, sizeof_buffer. subst area. pose proof (Z.div_mod p 4096). pose proof (Z.div_mod (buffer s) 4096). lia.
Qed.
Lemma mmap_tail_state s area junk : first_page s area -> exists m t, let s' := set_vma true (set_async (buffer_size s `div` 2) (set_free_tree t (set_headers (<[area := with_free true junk]> (headers s)) (set_entries m s)))) in
  mmap_tail (buffers s) area junk s = Some (0, s') /\ lrep m {[buffers s := [area]]} /\ tree_ok t [area] /\ header_mapped s area = true.
Proof.
  intros [F1 F2 F3 F4 F5 F6 F7 F8]. destruct (pi_area _ _ F2) as [A1 A2 A3 A4 A5]. assert (area <> buffers s) as Hne by (unfold fin in *; lia).
  assert (header_mapped s area = true) as Hm. { apply mapped_pages; [by apply (pi_area _ _ F2)|lia|unfold fin, data, sizeof_buffer; pose proof (Z.div_mod (buffer_size s) 4096); lia|]. intros p Hp Hu. apply F3. by apply (uses_first s area). }
  destruct (first_entry (entries s) (buffers s) area F6 Hne) as (m1 & m2 & H1 & H2 & Hr). unfold mmap_tail. erewrite bind_run by done. erewrite bind_run by (by apply entries_run). erewrite bind_run by (by apply entries_run).
  set (s0 := set_headers (<[area := junk]> (headers s)) (set_entries m2 s)). change (set_entries m2 _) with s0.
  erewrite bind_run by (apply (store_plain s0 area (with_free true) junk Hm); apply lookup_insert_eq). set (s1 := set_headers (<[area := with_free true junk]> (headers s)) (set_entries m2 s)).
  assert (set_headers (<[area := with_free true junk]> (headers s0)) s0 = s1) as -> by (unfold s1, s0; cbn; by rewrite insert_insert_eq).
  assert (valid area) as Hv by (rewrite F1 in A1, A2; apply valid_dec; pose proof (Z.div_mod area 4096); pose proof (Z.div_mod area 4); pose proof (Z.mod_pos_bound area 4); lia).
  destruct (insert_first area s1 (buffer s + buffer_size s - data area) F4 Hv) as (t & Hrun & Ht). exists m2, t. split_and!; [|done..].
  assert (binder_insert_free_buffer area s1 = Some (tt, set_free_tree t s1)) as Hins; [|by mrun Hins].
  unfold binder_insert_free_buffer. erewrite bind_run by (apply (load_plain s1 area (with_free true junk) Hm); apply lookup_insert_eq). cbn [bfree with_free negb]. erewrite bind_run by done.
  erewrite bind_run; [erewrite bind_run by done; exact Hrun|]. unfold binder_buffer_size. erewrite bind_run by done.
  erewrite bind_run; [|apply entries_read; unfold list_is_last; erewrite bind_run by (eapply (heap_next m2 _ (buffers s) [] area []); [exact Hr|by rewrite lookup_singleton_eq]); cbn [hd]; by rewrite Z.eqb_refl]. done.
Qed.
Lemma mmap_tail_run s area junk : first_page s area -> exists s', mmap_tail (buffers s) area junk s = Some (0, s') /\ binv s' [area] [area] [] /\ vma s' = true /\ user_buffer_offset s' = user_buffer_offset s.
Proof.
  intros Hf. destruct (mmap_tail_state s area junk Hf) as (m & t & Hrun & Hr & Ht & Hm). rewrite Hrun. eexists. split; [done|]. split; [|done]. destruct Hf as [F1 F2 F3 F4 F5 F6 F7 F8]. destruct (pi_area _ _ F2) as [A1 A2 A3 A4 A5].
  match goal with |- binv ?x _ _ _ => set (s' := x) in * end. assert (isfree s' area = true) as Hfr by (unfold isfree; cbn; by rewrite lookup_insert_eq).
  split; try done.
  - split; [done|by cbn; rewrite F1| |intros x ->%list_elem_of_singleton; cbn; rewrite lookup_insert_eq; eauto|rewrite <-F1 in F7; exact F7|by apply (pinv_same true s)|by intros x ->%list_elem_of_singleton].
    rewrite F1 in A1, A2. cbn. unfold fin, sizeof_buffer. cbn. pose proof (Z.div_mod (buffer_size s) 4096). pose proof (Z.div_mod area 4096). pose proof (Z.div_mod area 4). pose proof (Z.mod_pos_bound area 4).
    split_and!; [rewrite F1; lia|lia|done].
  - intros p. change (kernel_pages s') with (kernel_pages s). rewrite F3. split.
    + intros ->. split; [by apply (pi_in _ _ F2), F3|]. exists area. split; [set_solver +|]. left. unfold uses_header, data, sizeof_buffer. lia.
    + intros [Hp (x & ->%list_elem_of_singleton & [Hu|[Hx _]])]; [|congruence]. by apply (uses_first s area).
  - intros y. rewrite list_elem_of_singleton. split; [intros ->; done|tauto].
  - constructor; constructor.
  - intros y. split; [set_solver +|]. intros [->%list_elem_of_singleton Hx]. congruence.
  - constructor.
  - set_solver +.
  - cbn. split; [lia|]. apply Z.div_pos; lia.
Qed.
Definition mmap_end (vm_start vm_end : Z) : Z := if vm_end - vm_start >? SZ_4M then vm_start + SZ_4M else vm_end.
(** A mapping either fails and leaves the process as if just opened, or gives one free buffer
    that is the whole area. *)
Lemma binder_mmap_run e junk area array vm_start vm_end vm_flags s : opened s -> env_ok e -> (area <> 0 -> area_given s area vm_start (mmap_end vm_start vm_end)) ->
  let run := binder_mmap e junk area array vm_start vm_end vm_flags s in
  (exists r s', run = Some (r, s') /\ r <> 0 /\ opened s') \/
  (exists s', run = Some (0, s') /\ binv s' [area] [area] [] /\ vma s' = true /\ user_buffer_offset s' = s32 (vm_start - area)).
Proof.
  intros [O1 O2 O3 O4 O5] He Hg run. unfold run, binder_mmap. cbv zeta. fold (mmap_end vm_start vm_end). destruct (Z.land vm_flags VM_WRITE =? 0); cbn [negb].
  2: { left. by exists (- EPERM), s. }
  erewrite bind_run by done. rewrite O1. cbn [Z.eqb negb]. destruct (Z.eqb_spec area 0) as [->|H0]; [left; by exists (- ENOMEM), s|]. specialize (Hg H0). erewrite bind_run by done. destruct array; cbn [negb].
  2: { left. erewrite bind_run by done. eexists (- ENOMEM), _. split_and!; [done|done|by split]. }
  erewrite bind_run by done. erewrite bind_run by done. set (ve := mmap_end vm_start vm_end) in *. change (set_area area (ve - vm_start) _ _) with (reserved area vm_start ve s).
  set (s1 := reserved area vm_start ve s). pose proof (reserved_inv s area vm_start ve Hg) as Hi. destruct Hg as [A1 A2 A3 A4 A5 A6].
  destruct (update_alloc_run e s1 area (area + PAGE_SIZE) true He eq_refl Hi) as [[Hrun _]|(s2 & Hrun & Ho & Hi2 & _ & Hk)].
  - intros _. change PAGE_SIZE with 4096. split_and!; [done|by rewrite next_page|cbn; lia|cbn]. pose proof (Z.div_mod (ve - vm_start) 4096). lia.
  - cbn. set_solver +.
  - mrun Hrun. change (negb (- ENOMEM =? 0)) with true. cbv iota. left. erewrite bind_run by done. eexists _, _. split_and!; [done|done|by split].
  - mrun Hrun. right. unfold pages_only in Ho. assert (buffers s2 = buffers s /\ buffer s2 = area /\ user_buffer_offset s2 = s32 (vm_start - area)) as (E1 & E2 & E3) by (by rewrite Ho).
    destruct (mmap_tail_run s2 area junk) as (s' & Hrun' & Hb & Hv & Hu); [|rewrite E1 in Hrun'; exists s'; by rewrite Hu, E3].
    split; [done|done| |rewrite Ho; exact O3|rewrite Ho; exact O4|rewrite Ho; exact O5|rewrite Ho; exact A6|].
    + intros p. rewrite Hk. change PAGE_SIZE with 4096. unfold in_range. cbn. pose proof (Z.div_mod p 4096). pose proof (Z.div_mod area 4096). split; [intros [?|[? ?]]; [set_solver|lia]|]. intros ->. right. split; [done|lia].
    + rewrite Ho. cbn. unfold ve, mmap_end. destruct (Z.gtb_spec (vm_end - vm_start) SZ_4M); lia.
Qed.

(** ** Other changes of the state *)
Lemma binv_transaction s bs fs als b h t : binv s bs fs als -> headers s !! b = Some h -> binv (set_headers (<[b := with_transaction t h]> (headers s)) s) bs fs als.
Proof.
  intros [B1 B2 B3 B4 B5 B6 B7 B8 B9 B10 B11 B12] Eh. set (s' := set_headers _ s).
  assert (forall x, isfree s' x = isfree s x) as Hfr by (intros x; destruct (decide (x = b)) as [->|Hne]; [unfold s'; rewrite isfree_insert; unfold isfree; by rewrite Eh|by apply isfree_insert_ne]).
  split; try done; [by apply core_header| | | | | |].
  - intros p. change (kernel_pages s') with (kernel_pages s). rewrite (B2 p). change (page_of s' p) with (page_of s p). change (fin s') with (fin s). rewrite (need_ext (isfree s) (isfree s')) by (intros; apply Hfr). done.
  - intros y. by rewrite Hfr.
  - intros y. by rewrite Hfr.
  - eapply apart_mono; [|exact B9]. intros x _. by rewrite Hfr.
  - intros y Hy h' E'. destruct (decide (y = b)) as [->|Hne]; [|by apply (B10 y Hy); cbn in E'; rewrite lookup_insert_ne in E'].
    cbn in E'. rewrite lookup_insert_eq in E'. injection E' as <-. exact (B10 b Hy h Eh).
  - assert (async_sum (headers s') als = async_sum (headers s) als) as ->; [|done]. unfold async_sum. f_equal. apply list_fmap_ext. intros i x _. unfold async_cost. cbn.
    destruct (decide (x = b)) as [->|Hne]; [by rewrite lookup_insert_eq, Eh|by rewrite lookup_insert_ne].
Qed.
Lemma binv_close s bs fs als : binv s bs fs als -> binv (set_vma false (set_pages (pages s) (kernel_pages s) ∅ s)) bs fs als.
Proof.
  intros [[C1 C2 C3 C4 C5 C6 C7] B2 B3 B4 B5 B6 B7 B8 B9 B10 B11 B12]. split; try done. split; try done. destruct C6 as [[P1 P2 P3 P4 P5] P6 P7 P8 _]. split; [by split|done..].
Qed.

(** ** All states of an area

    [H] are the buffers that have been handed out and not been released.  A buffer is released
    when no transaction uses it.  A process without an address space has no mapping: [get_task_mm] is
    assumed not to fail while the area is mapped, which is so as long as the thread that opened
    the device has not exited. *)
Definition mm_ok e s : Prop := mm e = false -> vma s = false.
Inductive reach : binder_proc -> gset Z -> Prop :=
  | reach_mmap e junk area array vm_start vm_end vm_flags s s' : opened s -> env_ok e -> (area <> 0 -> area_given s area vm_start (mmap_end vm_start vm_end)) ->
      binder_mmap e junk area array vm_start vm_end vm_flags s = Some (0, s') -> reach s' ∅
  | reach_alloc e junk dsize osize is_async s H b s' : reach s H -> env_ok e -> mm_ok e s -> 0 <= dsize < 2 ^ 32 -> 0 <= osize < 2 ^ 32 ->
      binder_alloc_buf e junk dsize osize is_async s = Some (b, s') -> reach s' (if b =? 0 then H else {[b]} ∪ H)
  | reach_transaction b t s H s' : reach s H -> b ∈ H -> store_buf b (with_transaction t) s = Some (tt, s') -> reach s' H
  | reach_free e b h s H s' : reach s H -> b ∈ H -> headers s !! b = Some h -> transaction h = 0 -> mm_ok e s -> binder_free_buf e b s = Some (tt, s') -> reach s' (H ∖ {[b]})
  | reach_close s H s' : reach s H -> binder_vma_close s = Some (tt, s') -> reach s' H.
Lemma mm_has_vma e s : mm_ok e s -> has_vma e false s = vma s.
Proof. unfold mm_ok, has_vma. destruct (mm e); [done|]. intros Hm. by rewrite Hm. Qed.
Lemma mm_alloc e s : mm_ok e s -> vma s = true -> mm e = true.
Proof. unfold mm_ok. destruct (mm e); [done|]. intros Hm Hv. rewrite Hm in Hv by done. done. Qed.

Lemma area_reach_inv s H : reach s H -> exists bs fs als, binv s bs fs als /\ forall y, y ∈ als <-> y ∈ H.
Proof.
  induction 1 as [e junk area array vm_start vm_end vm_flags s s' Ho He Hg Hrun|e junk dsize osize is_async s H b s' Hr (bs & fs & als & Hb & Hin) He Hm Hd Hos Hrun
    |b t s H s' Hr (bs & fs & als & Hb & Hin) HbH Hrun|e b h s H s' Hr (bs & fs & als & Hb & Hin) HbH Eh Ht Hm Hrun|s H s' Hr (bs & fs & als & Hb & Hin) Hrun].
  - destruct (binder_mmap_run e junk area array vm_start vm_end vm_flags s Ho He Hg) as [(r & s1 & Hrun' & Hne & _)|(s1 & Hrun' & Hb & _)]; rewrite Hrun in Hrun'; injection Hrun'; [congruence|]. intros <-.
    exists [area], [area], []. split; [done|]. set_solver +.
  - destruct (alloc_buf_run e junk s bs fs als dsize osize is_async Hb (mm_alloc _ _ Hm) He Hd Hos) as [[Hrun' _]|(b1 & _ & s1 & bs' & fs' & als' & Hrun' & Hb' & Hp)]; rewrite Hrun in Hrun'; injection Hrun' as -> ->.
    + exists bs, fs, als. done.
    + exists bs', fs', als'. split; [done|]. assert (b1 <> 0) as H0.
      { assert (b1 ∈ als') as Hb1 by (apply (ap_alloc _ _ _ _ _ _ _ _ _ _ Hp); by left). apply (bv_alloc_in _ _ _ _ Hb') in Hb1 as [Hb1 _]. pose proof (co_bounds _ _ _ (bv_core _ _ _ _ Hb') Hb1) as (_ & _ & _ & ? & _). lia. }
      rewrite (proj2 (Z.eqb_neq _ _) H0). intros y. rewrite (ap_alloc _ _ _ _ _ _ _ _ _ _ Hp y), Hin. set_solver +.
  - exists bs, fs, als. split; [|done]. apply Hin, (bv_alloc_in _ _ _ _ Hb) in HbH as [Hbs _]. destruct (co_hdr _ _ (bv_core _ _ _ _ Hb) b Hbs) as [h Eh].
    rewrite (store_buf_run s bs b _ h (bv_core _ _ _ _ Hb) Hbs Eh) in Hrun. injection Hrun as <-. by apply binv_transaction.
  - destruct (free_buf_run e s bs fs als b h Hb (proj2 (Hin b) HbH) Eh Ht (mm_has_vma _ _ Hm)) as (s1 & bs' & fs' & als' & Hrun' & Hb' & Hp). rewrite Hrun in Hrun'. injection Hrun' as ->.
    exists bs', fs', als'. split; [done|]. intros y. rewrite (fp_alloc _ _ _ _ _ _ _ Hp y), Hin. set_solver +.
  - exists bs, fs, als. split; [|done]. unfold binder_vma_close, modify in Hrun. injection Hrun as <-. by apply binv_close.
Qed.

(** ** The allocated buffers determine the area *)
Lemma tiled_cons fin b r : tiled fin (b :: r) -> b < fin /\ b ∉ r /\ tiled fin r /\ (forall x, x ∈ r -> hd fin r <= x).
Proof.
  intros Ht. pose proof (tiled_mid fin [] b r Ht) as (_ & H2 & H3 & _). unfold sizeof_buffer in H3. split_and!; [lia| |apply Ht|done]. intros Hx%H2. lia.
Qed.
Lemma layout_unique fin fr1 fr2 bs1 bs2 : tiled fin bs1 -> tiled fin bs2 -> hd fin bs1 = hd fin bs2 -> apart fr1 bs1 -> apart fr2 bs2 ->
  (forall y, (y ∈ bs1 /\ fr1 y = false) <-> (y ∈ bs2 /\ fr2 y = false)) -> (forall y, y ∈ bs1 -> fr1 y = false -> size_of fin bs1 y = size_of fin bs2 y) -> bs1 = bs2.
Proof.
  revert bs2. induction bs1 as [|b r1 IH]; intros bs2 T1 T2 Eh A1 A2 Hal Hsz.
  { destruct bs2 as [|b r]; [done|]. apply tiled_cons in T2 as [? _]. cbn in Eh. lia. }
  destruct bs2 as [|b' r2]; [apply tiled_cons in T1 as [? _]; cbn in Eh; lia|]. cbn in Eh. subst b'. f_equal.
  pose proof (tiled_cons _ _ _ T1) as (_ & N1 & T1' & H1). pose proof (tiled_cons _ _ _ T2) as (_ & N2 & T2' & H2). destruct A1 as [A1 A1'], A2 as [A2 A2'].
  assert (forall y, y <> b -> (y ∈ r1 /\ fr1 y = false) <-> (y ∈ r2 /\ fr2 y = false)) as Hal'.
  { intros y Hy. specialize (Hal y). rewrite !elem_of_cons in Hal. tauto. }
  assert (fr1 b = false <-> fr2 b = false) as Hb by (specialize (Hal b); set_solver +Hal).
  apply IH; try done.
  - destruct (fr1 b) eqn:E1.
    + assert (fr2 b = true) as E2 by (destruct (fr2 b); [done|]; destruct Hb as [_ Hb]; by specialize (Hb eq_refl)).
      assert (match r1 with [] => True | n :: _ => fr1 n = false end) as X1 by (destruct r1; [done|]; destruct A1; congruence).
      assert (match r2 with [] => True | n :: _ => fr2 n = false end) as X2 by (destruct r2; [done|]; destruct A2; congruence).
      destruct r1 as [|n1 r1], r2 as [|n2 r2]; [done|exfalso; destruct (proj2 (Hal' n2 ltac:(set_solver +N2))) as [? _]; [split; [set_solver +|done]|set_solver]
        |exfalso; destruct (proj1 (Hal' n1 ltac:(set_solver +N1))) as [? _]; [split; [set_solver +|done]|set_solver]|].
      destruct (proj2 (Hal' n2 ltac:(set_solver +N2))) as [G1%H1 _]; [split; [set_solver +|done]|]. destruct (proj1 (Hal' n1 ltac:(set_solver +N1))) as [G2%H2 _]; [split; [set_solver +|done]|]. cbn in *. lia.
    + specialize (Hsz b ltac:(set_solver +) E1). cbn in Hsz. rewrite Z.eqb_refl in Hsz. lia.
  - intros y. split; intros [Y1 Y2]; (apply Hal'; [by intros ->|done]).
  - intros y Y1 Y2. assert (b <> y) as Hne by (by intros ->). specialize (Hsz y ltac:(set_solver +Y1) Y2). cbn in Hsz. by rewrite (proj2 (Z.eqb_neq _ _) Hne) in Hsz.
Qed.
(** Two states of an area with the same allocated buffers have the same buffers and pages. *)
Lemma same_layout s1 s2 bs1 fs1 als1 bs2 fs2 als2 : binv s1 bs1 fs1 als1 -> binv s2 bs2 fs2 als2 -> same_area s1 s2 -> (forall y, y ∈ als1 <-> y ∈ als2) ->
  (forall y, y ∈ als1 -> size_of (fin s1) bs1 y = size_of (fin s2) bs2 y) -> bs1 = bs2 /\ kernel_pages s1 = kernel_pages s2 /\ user_pages s1 = user_pages s2 /\ forall y, y ∈ bs1 -> isfree s1 y = isfree s2 y.
Proof.
  intros B1 B2 Ha Hal Hsz. pose proof (same_fin _ _ Ha) as Ef. rewrite Ef in Hsz.
  assert (bs1 = bs2) as ->.
  { apply (layout_unique (fin s1) (isfree s1) (isfree s2)); [apply B1|rewrite <-Ef; apply B2| |apply B1|apply B2| |].
    - pose proof (co_head _ _ (bv_core _ _ _ _ B1)). pose proof (co_head _ _ (bv_core _ _ _ _ B2)). destruct Ha as (_ & Eb & _). destruct bs1, bs2; try done. cbn in *. congruence.
    - intros y. by rewrite <-(bv_alloc_in _ _ _ _ B1 y), <-(bv_alloc_in _ _ _ _ B2 y).
    - intros y Y1 Y2. apply Hsz. by apply (bv_alloc_in _ _ _ _ B1). }
  assert (forall y, y ∈ bs2 -> isfree s1 y = isfree s2 y) as Hfr.
  { intros y Hy. specialize (Hal y). rewrite (bv_alloc_in _ _ _ _ B1 y), (bv_alloc_in _ _ _ _ B2 y) in Hal. destruct (isfree s1 y), (isfree s2 y); try done; exfalso; [destruct Hal as [_ Hal]|destruct Hal as [Hal _]]; destruct (Hal (conj Hy eq_refl)); done. }
  assert (kernel_pages s1 = kernel_pages s2) as Ek.
  { apply set_eq. intros p. rewrite (bv_exact _ _ _ _ B1 p), (bv_exact _ _ _ _ B2 p), Ef, (need_ext (isfree s2) (isfree s1)) by done. unfold page_of. destruct Ha as (_ & -> & -> & _). done. }
  split_and!; [done..| |done]. rewrite (pi_user _ _ (co_pages _ _ (bv_core _ _ _ _ B1))), (pi_user _ _ (co_pages _ _ (bv_core _ _ _ _ B2))), Ek. by destruct Ha as (-> & _).
Qed.

(** ** The end of the process *)
Lemma release_buffers_run e : forall n fuel s bs fs als (count : Z), length als = n -> (n < fuel)%nat -> binv s bs fs als -> mm_ok e s ->
  exists s' bs' fs', release_buffers fuel e count s = Some (count + Z.of_nat n, s') /\ binv s' bs' fs' [] /\ same_area s s'.
Proof.
  induction n as [|n IH]; intros [|fuel] s bs fs als count Hl Hf Hb Hm; try lia; cbn [release_buffers]; destruct (bv_alloc _ _ _ _ Hb) as (t & Hz & _ & Hi).
  - apply nil_length_inv in Hl as ->. erewrite bind_run by (apply alloc_read; by apply rb_first_run). rewrite Hi. cbn. rewrite Z.add_0_r. by exists s, bs, fs.
  - destruct als as [|b als]; [done|]. erewrite bind_run by (apply alloc_read; by apply rb_first_run). rewrite Hi. change (hd0 (b :: als)) with b.
    destruct (proj1 (bv_alloc_in _ _ _ _ Hb b) ltac:(set_solver +)) as [Hbs _]. pose proof (bv_core _ _ _ _ Hb) as Hc. pose proof (co_bounds _ _ _ Hc Hbs) as (_ & _ & _ & Hb0 & _).
    assert (b <> 0) as H0 by lia. rewrite (proj2 (Z.eqb_neq _ _) H0). destruct (load_buf_run s bs b Hc Hbs) as (h & Eh & Hrun). mrun Hrun.
    assert (exists s1 h1, ((if negb (transaction h =? 0) then store_buf b (with_transaction 0) else mret tt) s = Some (tt, s1)) /\ binv s1 bs fs (b :: als) /\ headers s1 !! b = Some h1 /\ transaction h1 = 0 /\ same_area s s1)
      as (s1 & h1 & Hrun1 & Hb1 & Eh1 & Ht1 & Ha1).
    { destruct (Z.eqb_spec (transaction h) 0) as [E0|E0]; cbn [negb]; [by exists s, h; split_and!|]. rewrite (store_buf_run s bs b _ h Hc Hbs Eh). eexists _, _.
      split_and!; [done|by apply binv_transaction|apply lookup_insert_eq|done..]. }
    mrun Hrun1. assert (mm_ok e s1) as Hm1 by (unfold mm_ok; destruct Ha1 as (-> & _); done).
    destruct (free_buf_run e s1 bs fs (b :: als) b h1 Hb1 ltac:(set_solver +) Eh1 Ht1 (mm_has_vma _ _ Hm1)) as (s2 & bs2 & fs2 & als2 & Hrun2 & Hb2 & Hp2). mrun Hrun2.
    assert (als2 ≡ₚ als) as Hper.
    { pose proof (tree_ok_nodup _ _ (bv_alloc _ _ _ _ Hb)) as Hn. apply NoDup_cons in Hn as [Hn1 Hn2]. apply NoDup_Permutation; [by eapply tree_ok_nodup, Hb2|done|].
      intros y. rewrite (fp_alloc _ _ _ _ _ _ _ Hp2 y). set_solver +Hn1. }
    pose proof (fp_area _ _ _ _ _ _ _ Hp2) as Ha2. destruct (IH fuel s2 bs2 fs2 als2 (count + 1)) as (s3 & bs3 & fs3 & Hrun3 & Hb3 & Ha3); [rewrite Hper; cbn in Hl; lia|lia|done|unfold mm_ok; destruct Ha2 as (-> & _); done|].
    exists s3, bs3, fs3. rewrite Hrun3. split_and!; [do 2 f_equal; lia|done|unfold same_area in *; intuition congruence..].
Qed.
(** With nothing allocated the area is one free buffer and its first page. *)
Lemma empty_area s bs fs : binv s bs fs [] -> bs = [buffer s] /\ kernel_pages s = {[buffer s]} /\ free_async_space s = buffer_size s `div` 2.
Proof.
  intros Hb. pose proof (bv_core _ _ _ _ Hb) as Hc. assert (forall y, y ∈ bs -> isfree s y = true) as Hfr.
  { intros y Hy. destruct (isfree s y) eqn:E; [done|]. exfalso. assert (y ∈ []) as Hn by (by apply (bv_alloc_in _ _ _ _ Hb)). set_solver +Hn. }
  assert (bs = [buffer s]) as ->.
  { pose proof (co_head _ _ Hc) as Hh. destruct bs as [|b [|c r]]; [done|cbn in Hh; congruence|]. pose proof (bv_apart _ _ _ _ Hb) as [[Ha|Ha] _]; rewrite Hfr in Ha by set_solver +; done. }
  split_and!; [done| |destruct (bv_async _ _ _ _ Hb) as [E _]; cbn in E; lia]. apply set_eq. intros p. rewrite (bv_exact _ _ _ _ Hb p), elem_of_singleton. pose proof (pi_area _ _ (co_pages _ _ Hc)) as Ha. split.
  - intros [Hp (x & ->%list_elem_of_singleton & [Hu|[Hx _]])]; [by apply (uses_first s (buffer s))|]. rewrite Hfr in Hx by set_solver +. done.
  - intros ->. split; [destruct Ha; split; [done|lia]|]. exists (buffer s). split; [set_solver +|]. left. unfold uses_header, data, sizeof_buffer. lia.
Qed.
Lemma release_pages_run : forall n s (i count : Z), pinv false s -> 0 <= i -> 4096 * (i + Z.of_nat n) = buffer_size s -> (forall p, p ∈ kernel_pages s -> buffer s + 4096 * i <= p) ->
  exists s', release_pages n i count s = Some (count + Z.of_nat (size (kernel_pages s)), s') /\ kernel_pages s' = ∅.
Proof.
  induction n as [|n IH]; intros s i count Hi Hi0 Hn Hk; cbn [release_pages].
  - assert (kernel_pages s = ∅) as E.
    { apply set_eq. intros p. split; [|set_solver +]. intros Hp. pose proof (Hk p Hp). destruct (pi_in _ _ Hi p Hp) as [_ ?]. lia. }
    exists s. split; [|done]. rewrite E, size_empty. cbn. by rewrite Z.add_0_r.
  - erewrite bind_run by done. cbv zeta. change PAGE_SIZE with 4096. set (p := buffer s + i * 4096). pose proof (pi_area _ _ Hi) as [A1 A2 A3 A4 A5].
    assert (page_of s p) as Hp by (split; [unfold p; by rewrite Z.mod_add|lia]). destruct (get_page_run _ s p Hi Hp) as (pg & Hg & Hiff). mrun Hg.
    assert (forall q, q ∈ kernel_pages s -> q <> p -> buffer s + 4096 * (i + 1) <= q) as Hnext.
    { intros q Hq Hne. pose proof (Hk q Hq). destruct (pi_in _ _ Hi q Hq) as [Hq0 _]. unfold p in *. pose proof (Z.div_mod q 4096). pose proof (Z.div_mod (buffer s) 4096). lia. }
    destruct (Z.eqb_spec pg 0) as [E0|E0]; cbn [negb].
    + destruct (IH s (i + 1) count Hi) as (s' & Hrun & E); [lia|lia| |by exists s']. intros q Hq. apply Hnext; [done|]. intros ->. tauto.
    + assert (p ∈ kernel_pages s) as Hpk by tauto. pose proof (drop_page_run (A := Z) false s p (release_pages n (i + 1) (count + 1)) Hi Hpk) as Hd. change ((unmap_kernel_range p ;; free_page p ;; release_pages n (i + 1) (count + 1)) s = release_pages n (i + 1) (count + 1) (drop_page false p s)) in Hd. rewrite Hd.
      destruct (IH (drop_page false p s) (i + 1) (count + 1)) as (s' & Hrun & E); [by apply drop_page_inv|lia|cbn; lia|cbn; intros q [Hq1 Hq2]%elem_of_difference; apply Hnext; [done|set_solver +Hq2]|].
      exists s'. split; [|done]. rewrite Hrun. cbn [kernel_pages drop_page set_pages]. rewrite size_difference by set_solver +Hpk. rewrite size_singleton.
      assert (size (kernel_pages s) <> 0)%nat by (intros E1%size_empty_inv; set_solver +Hpk E1). do 2 f_equal. lia.
Qed.

Lemma release_area_run e s bs fs als : binv s bs fs als -> vma s = false -> exists s', binder_release_area e s = Some (1, s') /\ kernel_pages s' = ∅ /\ pages s' = [].
Proof.
  intros Hb Hv. unfold binder_release_area. erewrite bind_run by done. destruct (bv_alloc _ _ _ _ Hb) as (t & Hz & _ & Hi). pose proof (zrep_fuel _ _ _ Hz) as Hf. rewrite Hi in Hf. cbn in Hf.
  destruct (release_buffers_run e (length als) (S (size (nodes (allocated_buffers s)))) s bs fs als 0 eq_refl) as (s1 & bs1 & fs1 & Hrun & Hb1 & Ha); [lia|done|by unfold mm_ok|]. mrun Hrun. erewrite bind_run by done.
  destruct (empty_area _ _ _ Hb1) as (_ & Ek & _). pose proof (co_pages _ _ (bv_core _ _ _ _ Hb1)) as Hp. destruct (pi_area _ _ Hp) as [A1 A2 A3 A4 A5]. assert (vma s1 = false) as Hv1 by (destruct Ha as (-> & _); done).
  rewrite Hv1 in Hp. pose proof (pi_length _ _ Hp) as Hl. rewrite bool_decide_eq_false_2 by (intros E; rewrite E in Hl; cbn in Hl; Z.to_euclidean_division_equations; lia).
  change PAGE_SIZE with 4096. destruct (release_pages_run (Z.to_nat (buffer_size s1 `div` 4096)) s1 0 0 Hp) as (s2 & Hrun2 & E2); [lia|Z.to_euclidean_division_equations; lia|rewrite Ek; set_solver by lia|].
  mrun Hrun2. rewrite Ek, size_singleton. erewrite bind_run by done. eexists. by split_and!.
Qed.

(** ** What the area guarantees *)
(** C4: Whatever buffers have been allocated, used and released before, in whatever order and
    with whatever failures to get a page, no operation of the allocator stops the machine: no
    [BUG_ON] fires, no list or tree is broken, no header is used whose page is not mapped, and
    every descent and every loop over pages ends.  It is assumed that [get_task_mm] does not
    fail while the process has the area mapped ([mm_ok]). *)
Theorem binder_never_oopses s H : reach s H ->
  (forall e junk dsize osize is_async, env_ok e -> mm_ok e s -> 0 <= dsize < 2 ^ 32 -> 0 <= osize < 2 ^ 32 -> exists b s', binder_alloc_buf e junk dsize osize is_async s = Some (b, s')) /\
  (forall e b h, b ∈ H -> headers s !! b = Some h -> transaction h = 0 -> mm_ok e s -> exists s', binder_free_buf e b s = Some (tt, s')) /\
  (forall user_ptr, exists b, binder_buffer_lookup user_ptr s = Some (b, s)) /\
  (forall e, vma s = false -> exists n s', binder_release_area e s = Some (n, s')).
Proof.
  intros (bs & fs & als & Hb & Hin)%area_reach_inv. split_and!.
  - intros e junk dsize osize is_async He Hm Hd Ho.
    destruct (alloc_buf_run e junk s bs fs als dsize osize is_async Hb (mm_alloc _ _ Hm) He Hd Ho) as [[Hrun _]|(b & _ & s' & bs' & fs' & als' & Hrun & _)]; rewrite Hrun; eauto.
  - intros e b h HbH Eh Ht Hm. destruct (free_buf_run e s bs fs als b h Hb (proj2 (Hin b) HbH) Eh Ht (mm_has_vma _ _ Hm)) as (s' & bs' & fs' & als' & Hrun & _). eauto.
  - intros user_ptr. rewrite (buffer_lookup_run s bs (bv_core _ _ _ _ Hb) als user_ptr); [eauto|apply Hb|intros y Hy; by apply (bv_alloc_in _ _ _ _ Hb)|apply Hb].
  - intros e Hv. destruct (release_area_run e s bs fs als Hb Hv) as (s' & Hrun & _). eauto.
Qed.

(** The first address after the data and the offsets of a buffer. *)
Definition extent h b : Z := data b + rounded (data_size h) + rounded (offsets_size h).
Lemma extent_end s bs fs als b h : binv s bs fs als -> b ∈ als -> headers s !! b = Some h -> data b + (data_size h + offsets_size h) <= extent h b <= end_of (fin s) bs b.
Proof.
  intros Hb Ha Eh. destruct (bv_fit _ _ _ _ Hb b Ha h Eh) as (D & O & Er & Hf). unfold extent, end_of, rounded in *. Z.to_euclidean_division_equations. lia.
Qed.
(** Every address of a buffer that is allocated is on a page that is needed. *)
Lemma address_mapped s bs fs als b x : binv s bs fs als -> b ∈ als -> b <= x < end_of (fin s) bs b -> Z.land x PAGE_MASK ∈ kernel_pages s.
Proof.
  intros Hb Ha Hx. pose proof (bv_core _ _ _ _ Hb) as Hc. destruct (proj1 (bv_alloc_in _ _ _ _ Hb b) Ha) as [Hbs Hf]. pose proof (co_tiled _ _ Hc) as Ht.
  destruct (co_bounds _ _ _ Hc Hbs) as (B1 & B2 & _ & B4 & B5 & B6). pose proof (end_of_bounds _ _ _ Ht Hbs) as Hend. destruct (pi_area _ _ (co_pages _ _ Hc)) as [_ A2 _ _ _].
  destruct (page_floor x) as (k & -> & Hk); [lia|]. set (p := 4096 * k) in *. assert (p mod 4096 = 0) as Hp by (unfold p; rewrite Z.mul_comm; apply Z.mod_mul; lia).
  apply (bv_exact _ _ _ _ Hb). split.
  - split; [done|]. pose proof (Z.div_mod (buffer s) 4096). unfold p, fin in *. lia.
  - destruct (decide (uses_header b p)) as [Hu|Hu]; [exists b; split; [done|by left]|]. assert (data b <= p) as Hp1 by (unfold uses_header in Hu; lia).
    destruct (decide (p + 4096 <= end_of (fin s) bs b)) as [Hp2|Hp2]; [exists b; split; [done|right; by split]|].
    apply list_elem_of_split in Hbs as (l1 & l2 & El). unfold end_of in *. rewrite El in Hx, Hend, Hp2, Ht. destruct (tiled_split _ _ _ _ Ht) as (_ & _ & E). rewrite E in *. destruct l2 as [|n l2]; cbn [hd] in *.
    + pose proof (Z.div_mod (fin s) 4096). unfold p in *. lia.
    + exists n. rewrite El. split; [set_solver +|]. left. unfold uses_header, data, sizeof_buffer in *. lia.
Qed.
(** C7: Buffers that have been handed out lie in the area and do not overlap, each is large
    enough for the sizes it was allocated for, and all its addresses are mapped in the kernel
    and, as long as the process has the area mapped, in the process (if [get_task_mm] has not
    failed in that time, [mm_ok]). *)
Theorem binder_buffers_apart s H b : reach s H -> b ∈ H -> exists h, headers s !! b = Some h /\ bfree h = false /\
  buffer s <= b /\ data b + (data_size h + offsets_size h) <= extent h b <= buffer s + buffer_size s /\
  (forall x, b <= x < extent h b -> Z.land x PAGE_MASK ∈ kernel_pages s /\ (vma s = true -> Z.land x PAGE_MASK ∈ user_pages s)) /\
  (forall b' h', b' ∈ H -> b' <> b -> headers s !! b' = Some h' -> extent h b <= b' \/ extent h' b' <= b).
Proof.
  intros (bs & fs & als & Hb & Hin)%area_reach_inv Hbh. apply Hin in Hbh as Ha. destruct (proj1 (bv_alloc_in _ _ _ _ Hb b) Ha) as [Hbs Hf]. pose proof (bv_core _ _ _ _ Hb) as Hc. pose proof (co_tiled _ _ Hc) as Ht.
  destruct (isfree_load _ _ _ _ Hc Hbs Hf) as (h & Eh & _ & Hfr). pose proof (extent_end _ _ _ _ _ _ Hb Ha Eh) as He. pose proof (end_of_bounds _ _ _ Ht Hbs) as Hend. exists h.
  split_and!; [done|done|apply (co_bounds _ _ _ Hc Hbs)|lia|unfold fin in *; lia| |].
  - intros x Hx. assert (Z.land x PAGE_MASK ∈ kernel_pages s) as Hk by (eapply address_mapped; [done|done|lia]). split; [done|]. intros Hv. by rewrite (pi_user _ _ (co_pages _ _ Hc)), Hv.
  - intros b' h' Hb' Hne Eh'. apply Hin in Hb'. pose proof (extent_end _ _ _ _ _ _ Hb Hb' Eh') as He'. apply (bv_alloc_in _ _ _ _ Hb) in Hb' as [Hbs' _]. apply list_elem_of_split in Hbs as (l1 & l2 & ->).
    apply elem_of_app in Hbs' as [Hx|[->|Hx]%elem_of_cons]; [right; pose proof (end_of_left _ _ _ _ _ Ht Hx); lia|done|left].
    pose proof (tiled_mid _ _ _ _ Ht) as (_ & H2 & _). specialize (H2 _ Hx). unfold end_of in He. destruct (tiled_split _ _ _ _ Ht) as (_ & _ & E). rewrite E in He. lia.
Qed.
(** C16: [binder_alloc_buf] takes a smallest free buffer that is large enough, with at most 44
    bytes more than asked for; what was allocated before stays as it is.  When it returns NULL
    nothing has changed, no page is leaked, and there is a reason: the area is not mapped, the
    sizes overflow, the asynchronous space is used up, no free buffer is large enough, or a
    page could not be had.  [get_task_mm] does not fail while the area is mapped ([mm_ok]). *)
Theorem binder_alloc_buf_correct e junk s bs fs als dsize osize is_async : binv s bs fs als -> env_ok e -> mm_ok e s -> 0 <= dsize < 2 ^ 32 -> 0 <= osize < 2 ^ 32 ->
  match binder_alloc_buf e junk dsize osize is_async s with
  | None => False
  | Some (b, s') =>
      if b =? 0 then s' = s /\ refused e s bs fs dsize osize is_async
      else fits s bs (rounded dsize + rounded osize) fs b /\ exists bs' fs' als', binv s' bs' fs' als' /\ alloc_post s bs als b dsize osize is_async s' bs' als'
  end.
Proof.
  intros Hb He Hm Hd Ho. destruct (alloc_buf_run e junk s bs fs als dsize osize is_async Hb (mm_alloc _ _ Hm) He Hd Ho) as [[Hrun Hr]|(b & Hfit & s' & bs' & fs' & als' & Hrun & Hb' & Hp)]; rewrite Hrun; [done|].
  assert (b <> 0) as H0 by (destruct (free_in_bs _ _ _ _ _ Hb (proj1 Hfit)) as (Hbs & _); pose proof (co_bounds _ _ _ (bv_core _ _ _ _ Hb) Hbs) as (_ & _ & _ & ? & _); lia).
  rewrite (proj2 (Z.eqb_neq _ _) H0). split; [done|]. by exists bs', fs', als'.
Qed.
(** C17: A buffer that is allocated and released again leaves the area as it was: the same
    buffers, free and allocated, the same pages mapped in the kernel and in the process, the
    same asynchronous space.  [get_task_mm] does not fail while the area is mapped ([mm_ok]). *)
Theorem binder_alloc_free_roundtrip e e' junk s H dsize osize is_async b s1 : reach s H -> env_ok e -> mm_ok e s -> mm_ok e' s -> 0 <= dsize < 2 ^ 32 -> 0 <= osize < 2 ^ 32 ->
  binder_alloc_buf e junk dsize osize is_async s = Some (b, s1) -> b <> 0 ->
  exists s', (store_buf b (with_transaction 0) ;; binder_free_buf e' b) s1 = Some (tt, s') /\
    kernel_pages s' = kernel_pages s /\ user_pages s' = user_pages s /\ free_async_space s' = free_async_space s /\ (forall y, y ∈ H -> headers s' !! y = headers s !! y) /\
    exists bs, lrep (entries s) {[buffers s := bs]} /\ lrep (entries s') {[buffers s := bs]} /\ forall y, y ∈ bs -> isfree s' y = isfree s y.
Proof.
  intros (bs & fs & als & Hb & Hin)%area_reach_inv He Hm Hm' Hd Ho Hrun H0.
  destruct (alloc_buf_run e junk s bs fs als dsize osize is_async Hb (mm_alloc _ _ Hm) He Hd Ho) as [[Hrun' Hr]|(b1 & Hfit & s2 & bs1 & fs1 & als1 & Hrun' & Hb1 & Hp1)]; rewrite Hrun in Hrun'; injection Hrun' as -> ->; [done|].
  destruct (free_in_bs _ _ _ _ _ Hb (proj1 Hfit)) as (Hbs & Hfree & Hna & _). destruct (ap_header _ _ _ _ _ _ _ _ _ _ Hp1) as (h & Eh & Eh1). pose proof (ap_area _ _ _ _ _ _ _ _ _ _ Hp1) as Ha1.
  assert (b1 ∈ als1) as Hb1a by (apply (ap_alloc _ _ _ _ _ _ _ _ _ _ Hp1); by left). destruct (proj1 (bv_alloc_in _ _ _ _ Hb1 b1) Hb1a) as [Hbs1 _].
  mrun (store_buf_run s2 bs1 b1 (with_transaction 0) _ (bv_core _ _ _ _ Hb1) Hbs1 Eh1). pose proof (binv_transaction _ _ _ _ _ _ 0 Hb1 Eh1) as Hb2. set (s3 := set_headers _ s2) in *.
  assert (vma s3 = vma s) as Hv3 by (apply Ha1). destruct (free_buf_run e' s3 bs1 fs1 als1 b1 (with_transaction 0 (Buf false is_async (transaction h) dsize osize)) Hb2 Hb1a) as (s4 & bs4 & fs4 & als4 & Hrun4 & Hb4 & Hp4);
    [apply lookup_insert_eq|done|apply mm_has_vma; unfold mm_ok; by rewrite Hv3|]. exists s4. split; [done|]. pose proof (fp_area _ _ _ _ _ _ _ Hp4) as Ha4.
  assert (same_area s4 s) as Ha by (unfold same_area in *; cbn in Ha4; intuition congruence).
  assert (forall y, y ∈ als4 <-> y ∈ als) as Hal.
  { intros y. rewrite (fp_alloc _ _ _ _ _ _ _ Hp4 y), (ap_alloc _ _ _ _ _ _ _ _ _ _ Hp1 y). split; [tauto|]. intros Hy. split; [by right|]. by intros ->. }
  assert (forall y, y ∈ als4 -> headers s4 !! y = headers s !! y /\ size_of (fin s4) bs4 y = size_of (fin s) bs y) as Hold.
  { intros y Hy. destruct (fp_others _ _ _ _ _ _ _ Hp4 y Hy) as [-> ->]. apply Hal in Hy. assert (y <> b1) as Hne by (by intros ->). apply (bv_alloc_in _ _ _ _ Hb) in Hy as [Hy _].
    destruct (ap_others _ _ _ _ _ _ _ _ _ _ Hp1 y Hy Hne) as [E1 E2]. split; [|exact E2]. cbn. by rewrite lookup_insert_ne. }
  destruct (same_layout _ _ _ _ _ _ _ _ Hb4 Hb Ha Hal) as (E1 & E2 & E3 & E4); [intros y Hy; by apply Hold|]. subst bs4. split_and!; [done|done| |intros y Hy; apply Hold, Hal; by apply Hin|].
  - rewrite (fp_async _ _ _ _ _ _ _ Hp4 _ (lookup_insert_eq _ _ _)). cbn. rewrite (ap_async _ _ _ _ _ _ _ _ _ _ Hp1).
    pose proof (bv_fit _ _ _ _ Hb1 b1 Hb1a _ Eh1) as (_ & _ & Er & _). unfold async_back. cbn. unfold request in *. cbn in *. destruct is_async; lia.
  - exists bs. destruct Ha as (_ & _ & _ & _ & Eb). split_and!; [apply Hb|rewrite Eb; apply Hb4|done].
Qed.
(** C24: At the end of the process every buffer that is still allocated is released, and every
    page of the area is freed: after the buffers only the first page is left. *)
Theorem binder_release_area_frees e s H : reach s H -> vma s = false ->
  (exists s1, release_buffers (S (size (nodes (allocated_buffers s)))) e 0 s = Some (Z.of_nat (size H), s1) /\ kernel_pages s1 = {[buffer s]} /\ free_async_space s1 = buffer_size s `div` 2 /\
    lrep (entries s1) {[buffers s := [buffer s]]}) /\
  (exists s', binder_release_area e s = Some (1, s') /\ kernel_pages s' = ∅ /\ pages s' = []).
Proof.
  intros (bs & fs & als & Hb & Hin)%area_reach_inv Hv. split; [|apply (release_area_run e s bs fs als Hb Hv)].
  destruct (bv_alloc _ _ _ _ Hb) as (t & Hz & _ & Hi). pose proof (zrep_fuel _ _ _ Hz) as Hf. rewrite Hi in Hf. cbn in Hf.
  destruct (release_buffers_run e (length als) (S (size (nodes (allocated_buffers s)))) s bs fs als 0 eq_refl) as (s1 & bs1 & fs1 & Hrun & Hb1 & Ha); [lia|done|by unfold mm_ok|].
  destruct (empty_area _ _ _ Hb1) as (Ebs & Ek & Eas). destruct Ha as (_ & E1 & E2 & _ & E3). exists s1. rewrite <-E1, <-E2, <-E3, <-Ebs. split_and!; [|done|done|apply Hb1].
  rewrite Hrun. replace (size H) with (length als); [done|]. assert (H = list_to_set als) as -> by (apply set_eq; intros y; by rewrite elem_of_list_to_set, Hin).
  symmetry. apply size_list_to_set. by eapply tree_ok_nodup, Hb.
Qed.
(** A pointer of the process names a buffer exactly when it is the user address of the data
    of a buffer that has been handed out; any other pointer is rejected with NULL. *)
Theorem binder_buffer_lookup_correct s H user_ptr : reach s H -> 0 <= user_ptr < 2 ^ 32 ->
  exists r, binder_buffer_lookup user_ptr s = Some (r, s) /\ (r <> 0 -> r ∈ H /\ u32 (data r + user_buffer_offset s) = user_ptr) /\
    forall b, b ∈ H -> u32 (data b + user_buffer_offset s) = user_ptr -> r = b.
Proof.
  intros (bs & fs & als & Hb & Hin)%area_reach_inv Hu. pose proof (bv_core _ _ _ _ Hb) as Hc.
  pose proof (buffer_lookup_run s bs Hc als user_ptr (bv_alloc _ _ _ _ Hb) ltac:(intros y Hy; by apply (bv_alloc_in _ _ _ _ Hb)) (bv_alloc_sorted _ _ _ _ Hb)) as Hrun. cbv zeta in Hrun.
  set (x := u32 (user_ptr - user_buffer_offset s - sizeof_buffer)) in *.
  assert (forall b, 0 <= b < 2 ^ 32 -> u32 (data b + user_buffer_offset s) = user_ptr <-> b = x) as Hx.
  { intros b Hb32. unfold x, data. destruct (u32_ex (b + sizeof_buffer + user_buffer_offset s)) as [k Hk]. destruct (u32_ex (user_ptr - user_buffer_offset s - sizeof_buffer)) as [j Hj].
    pose proof (u32_range (b + sizeof_buffer + user_buffer_offset s)). pose proof (u32_range (user_ptr - user_buffer_offset s - sizeof_buffer)). lia. }
  eexists. split; [exact Hrun|]. split.
  - destruct (decide (x ∈ als)) as [Hxa|]; [|done]. intros _. split; [by apply Hin|]. apply Hx; [apply u32_range|done].
  - intros b HbH Eu. apply Hin in HbH. destruct (proj1 (bv_alloc_in _ _ _ _ Hb b) HbH) as [Hbs _]. destruct (co_bounds _ _ _ Hc Hbs) as (_ & B2 & _ & B4 & B5 & _). unfold data, sizeof_buffer in *.
    apply Hx in Eu; [|lia]. subst b. by rewrite decide_True.
Qed.

(** ** An area of three pages *)
Definition demo_open : binder_proc := Proc false 0 0 0 400 0 {[400 := ListHead 0 0]} ∅ (RbState ∅ 0) (RbState ∅ 0) [] ∅ ∅.
Definition demo_env : page_env := PageEnv true (λ _, Page 1).
Definition demo_junk : binder_buffer := Buf false true 7 1 1.
Definition final (r : option (Z * binder_proc)) : binder_proc := match r with Some (_, s) => s | None => demo_open end.
Definition demo_mapped : binder_proc := final (binder_mmap demo_env demo_junk 1048576 true 65536 77824 1 demo_open).
Definition demo_one : binder_proc := final (binder_alloc_buf demo_env demo_junk 100 8 true demo_mapped).
Definition demo_two : binder_proc := final (binder_alloc_buf demo_env demo_junk 5000 0 false demo_one).
Definition demo_closed : binder_proc := match binder_vma_close demo_two with Some (_, s) => s | None => demo_open end.
Lemma demo_env_ok : env_ok demo_env.
Proof. intros p. cbn. lia. Qed.
Lemma demo_opened : opened demo_open.
Proof.
  assert (tree_ok (RbState ∅ 0) []) as Ht by (exists L; split_and!; [split; [done|done|constructor|constructor]|by exists 0%nat; constructor|done]).
  split; [done|done|exact Ht|exact Ht|]. unfold allocated. cbn. by rewrite lookup_singleton_eq.
Qed.
Lemma demo_area : area_given demo_open 1048576 65536 (mmap_end 65536 77824).
Proof. split; vm_compute; (reflexivity || (intros Hx; discriminate) || intros [Hx _]; by destruct Hx). Qed.
Lemma demo_area_reach1 : reach demo_mapped ∅.
Proof. apply (reach_mmap demo_env demo_junk 1048576 true 65536 77824 1 demo_open); [apply demo_opened|apply demo_env_ok|intros _; apply demo_area|vm_compute; reflexivity]. Qed.
Lemma demo_binv : binv demo_mapped [1048576] [1048576] [].
Proof.
  destruct (binder_mmap_run demo_env demo_junk 1048576 true 65536 77824 1 demo_open demo_opened demo_env_ok (λ _, demo_area)) as [(r & s' & Hrun & Hne & _)|(s' & Hrun & Hb & _)].
  - exfalso. apply Hne. assert (fst <$> binder_mmap demo_env demo_junk 1048576 true 65536 77824 1 demo_open = Some 0) as E by (vm_compute; reflexivity). rewrite Hrun in E. by injection E.
  - unfold demo_mapped. by rewrite Hrun.
Qed.
Lemma demo_area_reach2 : reach demo_one ({[1048576]} ∪ ∅).
Proof. apply (reach_alloc demo_env demo_junk 100 8 true demo_mapped ∅ 1048576); [apply demo_area_reach1|apply demo_env_ok|done|lia|lia|vm_compute; reflexivity]. Qed.
Lemma demo_area_reach3 : reach demo_two ({[1048724]} ∪ ({[1048576]} ∪ ∅)).
Proof. apply (reach_alloc demo_env demo_junk 5000 0 false demo_one _ 1048724); [apply demo_area_reach2|apply demo_env_ok|done|lia|lia|vm_compute; reflexivity]. Qed.
Lemma demo_area_reach4 : reach demo_closed ({[1048724]} ∪ ({[1048576]} ∪ ∅)).
Proof. eapply reach_close; [apply demo_area_reach3|done]. Qed.

Lemma binder_never_oopses_witness : exists b s', binder_alloc_buf demo_env demo_junk 2000 100 true demo_two = Some (b, s').
Proof. apply (proj1 (binder_never_oopses demo_two _ demo_area_reach3)); [exact demo_env_ok|discriminate|split; [discriminate|reflexivity]..]. Defined.
Lemma binder_buffers_apart_witness : exists h, headers demo_two !! 1048724 = Some h /\ extent h 1048724 = 1053764 /\
  (forall x, 1048724 <= x < 1053764 -> Z.land x PAGE_MASK ∈ kernel_pages demo_two).
Proof.
  destruct (binder_buffers_apart demo_two _ 1048724 demo_area_reach3 ltac:(set_solver +)) as (h & Eh & _ & _ & _ & Hm & _). exists h.
  assert (extent h 1048724 = 1053764) as Ee by (assert (headers demo_two !! 1048724 = Some (Buf false false 7 5000 0)) as E by (vm_compute; reflexivity); rewrite Eh in E; injection E as ->; vm_compute; reflexivity).
  split_and!; [exact Eh|exact Ee|]. intros x Hx. rewrite <-Ee in Hx. exact (proj1 (Hm x Hx)).
Defined.
Lemma binder_alloc_buf_correct_witness : exists s', binder_alloc_buf demo_env demo_junk 100 8 true demo_mapped = Some (1048576, s') /\ fits demo_mapped [1048576] 108 [1048576] 1048576.
Proof.
  pose proof (binder_alloc_buf_correct demo_env demo_junk demo_mapped _ _ _ 100 8 true demo_binv demo_env_ok ltac:(discriminate) ltac:(lia) ltac:(lia)) as Hc.
  exists demo_one. assert (binder_alloc_buf demo_env demo_junk 100 8 true demo_mapped = Some (1048576, demo_one)) as E by (vm_compute; reflexivity). rewrite E in Hc. split; [exact E|exact (proj1 Hc)].
Defined.
Lemma binder_alloc_free_roundtrip_witness : exists s', (store_buf 1048724 (with_transaction 0) ;; binder_free_buf demo_env 1048724) demo_two = Some (tt, s') /\ kernel_pages s' = kernel_pages demo_one.
Proof.
  destruct (binder_alloc_free_roundtrip demo_env demo_env demo_junk demo_one _ 5000 0 false 1048724 demo_two demo_area_reach2 demo_env_ok ltac:(discriminate) ltac:(discriminate) ltac:(lia) ltac:(lia)) as (s' & Hrun & Hk & _);
    [vm_compute; reflexivity|discriminate|]. exists s'. split; [exact Hrun|exact Hk].
Defined.
Lemma binder_release_area_frees_witness : exists s', binder_release_area demo_env demo_closed = Some (1, s') /\ kernel_pages s' = ∅.
Proof. destruct (proj2 (binder_release_area_frees demo_env demo_closed _ demo_area_reach4 ltac:(reflexivity))) as (s' & Hrun & Hk & _). exists s'. split; [exact Hrun|exact Hk]. Defined.
Lemma binder_buffer_lookup_correct_witness : binder_buffer_lookup 65724 demo_two = Some (1048724, demo_two).
Proof.
  destruct (binder_buffer_lookup_correct demo_two _ 65724 demo_area_reach3 ltac:(lia)) as (r & Hrun & _ & Hr). rewrite Hrun. rewrite (Hr 1048724); [reflexivity|set_solver +|vm_compute; reflexivity].
Defined.

End BinderSys.
