(* ===== verification/BinderRef.v ===== *)
(** * Nodes and references of binder

    drivers/staging/android/binder.c: an object that a process offers to others is a node; a
    process that may use it has a reference to it, known to the process by a descriptor.  A
    process has three red-black trees: its nodes by the pointer of the object, and its
    references by descriptor and by node.

    Nodes and references are counted.  A node counts the references that are strong
    ([internal_strong_refs]) and the buffers and pending acknowledgements that use it
    ([local_strong_refs], [local_weak_refs]); the list [refs] has all references to it.  The
    owner is told of the first and of the last reference by a work item, the node itself, on
    one of its lists.  A transaction carries objects in its buffer: those of the sender become
    references of the target, references become other references, or the object itself when it
    is the target's, and what the buffer holds is dropped when it is freed.

    The work entry of a node is in the list memory [works] at the address of the node, the list
    head [todo] of a process or a thread at its address; only work items that are nodes are on
    these lists.  A [hlist] is the list of its entries.  [kzalloc] gives an address, or 0.  The
    counters of a node count things that exist at the same time and are not cut to their width;
    those of a reference are increased on request of the process and are.  The threads of a
    process are a map to the process instead of a tree; transaction records, one-way
    transactions in [async_todo], death notifications and statistics are left out. *)
From stdpp Require Import prelude gmap list sorting.
From Stdlib Require Import ZArith Lia ZifyBool.
From S2P Require Import Prelude ListHead ListHeap Rbtree.
Open Scope Z_scope.

Module BinderRef.

(** ** Data *)
Record binder_node := Node {
  n_proc : Z;
  n_ptr : Z;
  n_cookie : Z;
  refs : list Z;
  internal_strong_refs : Z;
  local_weak_refs : Z;
  local_strong_refs : Z;
  has_strong_ref : bool;
  pending_strong_ref : bool;
  has_weak_ref : bool;
  pending_weak_ref : bool;
}.
Record binder_ref := Ref {
  r_proc : Z;
  r_node : Z;
  desc : Z;
  strong : Z;
  weak : Z;
}.
(** A buffer with the words of its data, [b_data_size] in bytes, and its offsets. *)
Record binder_buffer := TBuf {
  b_proc : Z;
  target_node : Z;
  b_data : list Z;
  b_data_size : Z;
  b_offsets : list Z;
}.
Record binder_proc := BProc {
  proc_nodes : rb_state;
  refs_by_desc : rb_state;
  refs_by_node : rb_state;
}.
Record binder := Binder {
  bnodes : gmap Z binder_node;
  brefs : gmap Z binder_ref;
  bprocs : gmap Z binder_proc;
  threads : gmap Z Z;
  bbufs : gmap Z binder_buffer;
  works : mem;
  binder_dead_nodes : list Z;
  binder_context_mgr_node : Z;
  binder_context_mgr_uid : Z;
}.
Implicit Types (s : binder) (nd : binder_node) (rf : binder_ref).
Abbreviation RM := (M binder).

Definition set_nodes x s := Binder x (brefs s) (bprocs s) (threads s) (bbufs s) (works s) (binder_dead_nodes s) (binder_context_mgr_node s) (binder_context_mgr_uid s).
Definition set_refs x s := Binder (bnodes s) x (bprocs s) (threads s) (bbufs s) (works s) (binder_dead_nodes s) (binder_context_mgr_node s) (binder_context_mgr_uid s).
Definition set_procs x s := Binder (bnodes s) (brefs s) x (threads s) (bbufs s) (works s) (binder_dead_nodes s) (binder_context_mgr_node s) (binder_context_mgr_uid s).
Definition set_threads x s := Binder (bnodes s) (brefs s) (bprocs s) x (bbufs s) (works s) (binder_dead_nodes s) (binder_context_mgr_node s) (binder_context_mgr_uid s).
Definition set_bufs x s := Binder (bnodes s) (brefs s) (bprocs s) (threads s) x (works s) (binder_dead_nodes s) (binder_context_mgr_node s) (binder_context_mgr_uid s).
Definition set_works x s := Binder (bnodes s) (brefs s) (bprocs s) (threads s) (bbufs s) x (binder_dead_nodes s) (binder_context_mgr_node s) (binder_context_mgr_uid s).
Definition set_dead x s := Binder (bnodes s) (brefs s) (bprocs s) (threads s) (bbufs s) (works s) x (binder_context_mgr_node s) (binder_context_mgr_uid s).
Definition set_mgr x s := Binder (bnodes s) (brefs s) (bprocs s) (threads s) (bbufs s) (works s) (binder_dead_nodes s) x (binder_context_mgr_uid s).
Definition set_mgr_uid x s := Binder (bnodes s) (brefs s) (bprocs s) (threads s) (bbufs s) (works s) (binder_dead_nodes s) (binder_context_mgr_node s) x.

Definition load_node (n : Z) : RM binder_node := λ s, match bnodes s !! n with Some nd => Some (nd, s) | None => None end.
Definition store_node (n : Z) (f : binder_node -> binder_node) : RM unit := nd ← load_node n; modify (λ s, set_nodes (<[n := f nd]> (bnodes s)) s).
Definition load_ref (r : Z) : RM binder_ref := λ s, match brefs s !! r with Some rf => Some (rf, s) | None => None end.
Definition store_ref (r : Z) (f : binder_ref -> binder_ref) : RM unit := rf ← load_ref r; modify (λ s, set_refs (<[r := f rf]> (brefs s)) s).
Definition on_works {A} (f : M mem A) : RM A := λ s, match f (works s) with Some (a, m) => Some (a, set_works m s) | None => None end.
Definition kfree_node (n : Z) : RM unit := modify (λ s, set_works (delete n (works s)) (set_nodes (delete n (bnodes s)) s)).
Definition kfree_ref (r : Z) : RM unit := modify (λ s, set_refs (delete r (brefs s)) s).

Definition with_proc x nd := Node x (n_ptr nd) (n_cookie nd) (refs nd) (internal_strong_refs nd) (local_weak_refs nd) (local_strong_refs nd) (has_strong_ref nd) (pending_strong_ref nd) (has_weak_ref nd) (pending_weak_ref nd).
Definition with_refs x nd := Node (n_proc nd) (n_ptr nd) (n_cookie nd) x (internal_strong_refs nd) (local_weak_refs nd) (local_strong_refs nd) (has_strong_ref nd) (pending_strong_ref nd) (has_weak_ref nd) (pending_weak_ref nd).
Definition with_internal x nd := Node (n_proc nd) (n_ptr nd) (n_cookie nd) (refs nd) x (local_weak_refs nd) (local_strong_refs nd) (has_strong_ref nd) (pending_strong_ref nd) (has_weak_ref nd) (pending_weak_ref nd).
Definition with_local_weak x nd := Node (n_proc nd) (n_ptr nd) (n_cookie nd) (refs nd) (internal_strong_refs nd) x (local_strong_refs nd) (has_strong_ref nd) (pending_strong_ref nd) (has_weak_ref nd) (pending_weak_ref nd).
Definition with_local_strong x nd := Node (n_proc nd) (n_ptr nd) (n_cookie nd) (refs nd) (internal_strong_refs nd) (local_weak_refs nd) x (has_strong_ref nd) (pending_strong_ref nd) (has_weak_ref nd) (pending_weak_ref nd).
Definition with_strong_flags h p nd := Node (n_proc nd) (n_ptr nd) (n_cookie nd) (refs nd) (internal_strong_refs nd) (local_weak_refs nd) (local_strong_refs nd) h p (has_weak_ref nd) (pending_weak_ref nd).
Definition with_weak_flags h p nd := Node (n_proc nd) (n_ptr nd) (n_cookie nd) (refs nd) (internal_strong_refs nd) (local_weak_refs nd) (local_strong_refs nd) (has_strong_ref nd) (pending_strong_ref nd) h p.
Definition with_strong x rf := Ref (r_proc rf) (r_node rf) (desc rf) x (weak rf).
Definition with_weak x rf := Ref (r_proc rf) (r_node rf) (desc rf) (strong rf) x.
Definition with_desc x rf := Ref (r_proc rf) (r_node rf) x (strong rf) (weak rf).

(** ** The trees of a process *)
Inductive tree_kind := By_ptr | By_desc | By_node.
#[export] Instance tree_kind_eq_dec : EqDecision tree_kind.
Proof. solve_decision. Defined.
Definition get_tree (k : tree_kind) (pr : binder_proc) : rb_state := match k with By_ptr => proc_nodes pr | By_desc => refs_by_desc pr | By_node => refs_by_node pr end.
Definition put_tree (k : tree_kind) (t : rb_state) (pr : binder_proc) : binder_proc :=
  match k with By_ptr => BProc t (refs_by_desc pr) (refs_by_node pr) | By_desc => BProc (proc_nodes pr) t (refs_by_node pr) | By_node => BProc (proc_nodes pr) (refs_by_desc pr) t end.
Definition on_tree {A} (k : tree_kind) (P : Z) (f : M rb_state A) : RM A := λ s,
  match bprocs s !! P with
  | Some pr => match f (get_tree k pr) with Some (a, t) => Some (a, set_procs (<[P := put_tree k t pr]> (bprocs s)) s) | None => None end
  | None => None
  end.
Definition tree_fuel (k : tree_kind) (P : Z) : RM nat := on_tree k P (λ t, Some (S (size (nodes t)), t)).
(** What the tree is ordered by. *)
Definition load_key (k : tree_kind) (x : Z) : RM Z :=
  match k with By_ptr => nd ← load_node x; mret (n_ptr nd) | By_desc => rf ← load_ref x; mret (desc rf) | By_node => rf ← load_ref x; mret (r_node rf) end.
(** The two loops over a tree: the entry with the key, or NULL; and the same with the place
    for a new entry. *)
Fixpoint find_loop (fuel : nat) (k : tree_kind) (P key n : Z) : RM Z :=
  match fuel with
  | O => oops
  | S fuel =>
      if n =? 0 then mret 0
      else
        x ← on_tree k P (load n);
        v ← load_key k n;
        if key <? v then find_loop fuel k P key (rb_left x) else if key >? v then find_loop fuel k P key (rb_right x) else mret n
  end.
Fixpoint place_loop (fuel : nat) (k : tree_kind) (P key parent : Z) (link : rb_link) (p : Z) : RM (Z + Z * rb_link) :=
  match fuel with
  | O => oops
  | S fuel =>
      if p =? 0 then mret (inr (parent, link))
      else
        x ← on_tree k P (load p);
        v ← load_key k p;
        if key <? v then place_loop fuel k P key p (LinkLeft p) (rb_left x) else if key >? v then place_loop fuel k P key p (LinkRight p) (rb_right x) else mret (inl p)
  end.
Definition find (k : tree_kind) (P key : Z) : RM Z := fuel ← tree_fuel k P; n ← on_tree k P get_root; find_loop fuel k P key n.
Definition place (k : tree_kind) (P key parent : Z) : RM (Z + Z * rb_link) := fuel ← tree_fuel k P; p ← on_tree k P get_root; place_loop fuel k P key parent LinkRoot p.
Definition tree_insert (k : tree_kind) (P x parent : Z) (link : rb_link) : RM unit := on_tree k P (rb_link_node x parent link) ;; on_tree k P (rb_insert_color x).

(** ** Nodes *)
Definition binder_get_node (P ptr : Z) : RM Z := find By_ptr P ptr.
Definition kzalloc_node (mem : Z) : RM unit :=
  modify (λ s, set_works (<[mem := ListHead 0 0]> (works s)) (set_nodes (<[mem := Node 0 0 0 [] 0 0 0 false false false false]> (bnodes s)) s)).
Definition binder_new_node (P ptr cookie mem : Z) : RM Z :=
  w ← place By_ptr P ptr 0;
  match w with
  | inl _ => mret 0
  | inr (parent, link) =>
      if mem =? 0 then mret 0
      else
        kzalloc_node mem ;;
        tree_insert By_ptr P mem parent link ;;
        store_node mem (λ _, Node P ptr cookie [] 0 0 0 false false false false) ;;
        on_works (INIT_LIST_HEAD mem) ;;
        mret mem
  end.

Definition requeue (node target_list : Z) : RM unit := on_works (list_del_init node) ;; on_works (list_add_tail node target_list).
Definition binder_inc_node (node : Z) (strong internal : bool) (target_list : Z) : RM Z :=
  nd ← load_node node;
  s ← get;
  if strong then
    if internal && (target_list =? 0) && (internal_strong_refs nd =? 0) && negb ((node =? binder_context_mgr_node s) && has_strong_ref nd) then mret (- EINVAL)
    else
      store_node node (if internal then with_internal (internal_strong_refs nd + 1) else with_local_strong (local_strong_refs nd + 1)) ;;
      (if negb (has_strong_ref nd) && negb (target_list =? 0) then requeue node target_list else mret tt) ;;
      mret 0
  else
    (if internal then mret tt else store_node node (with_local_weak (local_weak_refs nd + 1))) ;;
    if has_weak_ref nd then mret 0
    else
      e ← on_works (list_empty node);
      if (e : bool) then
        if target_list =? 0 then mret (- EINVAL) else on_works (list_add_tail node target_list) ;; mret 0
      else mret 0.

(** [hlist_del] of an entry that is not on the list follows poisoned pointers. *)
Definition hlist_del_dead (node : Z) : RM unit :=
  s ← get; BUG_ON (negb (bool_decide (node ∈ binder_dead_nodes s))) ;; modify (λ s, set_dead (filter (λ x, x <> node) (binder_dead_nodes s)) s).
Definition dec_counts (strong internal : bool) nd : binder_node :=
  if strong then if internal then with_internal (internal_strong_refs nd - 1) nd else with_local_strong (local_strong_refs nd - 1) nd
  else if internal then nd else with_local_weak (local_weak_refs nd - 1) nd.
Definition binder_dec_node (node : Z) (strong internal : bool) : RM Z :=
  store_node node (dec_counts strong internal) ;;
  nd ← load_node node;
  if (if strong then negb (local_strong_refs nd =? 0) || negb (internal_strong_refs nd =? 0) else negb (local_weak_refs nd =? 0) || negb (bool_decide (refs nd = []))) then mret 0
  else if negb (n_proc nd =? 0) && (has_strong_ref nd || has_weak_ref nd) then
    e ← on_works (list_empty node);
    (if (e : bool) then on_works (list_add_tail node (n_proc nd)) else mret tt) ;;
    mret 0
  else if bool_decide (refs nd = []) && (local_strong_refs nd =? 0) && (local_weak_refs nd =? 0) then
    on_works (list_del_init node) ;;
    (if negb (n_proc nd =? 0) then on_tree By_ptr (n_proc nd) (rb_erase node) else hlist_del_dead node) ;;
    kfree_node node ;;
    mret 0
  else mret 0.

(** ** References *)
Definition binder_get_ref (P d : Z) : RM Z := find By_desc P d.
Fixpoint desc_loop (fuel : nat) (P n d : Z) : RM Z :=
  match fuel with
  | O => oops
  | S fuel =>
      if n =? 0 then mret d
      else
        rf ← load_ref n;
        if desc rf >? d then mret d
        else
          n' ← on_tree By_desc P (rb_next n);
          desc_loop fuel P n' (u32 (desc rf + 1))
  end.
(** The second descent starts with the [parent] the first one left. *)
Definition binder_get_ref_for_node (P node mem : Z) : RM Z :=
  w ← place By_node P node 0;
  match w with
  | inl ref => mret ref
  | inr (parent, link) =>
      if mem =? 0 then mret 0
      else
        modify (λ s, set_refs (<[mem := Ref P node 0 0 0]> (brefs s)) s) ;;
        tree_insert By_node P mem parent link ;;
        s ← get;
        fuel ← tree_fuel By_desc P;
        n ← on_tree By_desc P rb_first;
        d ← desc_loop fuel P n (if node =? binder_context_mgr_node s then 0 else 1);
        store_ref mem (with_desc d) ;;
        w ← place By_desc P d parent;
        match w with
        | inl _ => oops
        | inr (parent, link) =>
            tree_insert By_desc P mem parent link ;;
            (if negb (node =? 0) then nd ← load_node node; store_node node (with_refs (mem :: refs nd)) else mret tt) ;;
            mret mem
        end
  end.
Definition hlist_del_ref (ref : Z) : RM unit :=
  rf ← load_ref ref;
  nd ← load_node (r_node rf);
  BUG_ON (negb (bool_decide (ref ∈ refs nd))) ;;
  store_node (r_node rf) (with_refs (filter (λ x, x <> ref) (refs nd))).
(** Up to the death notification of the reference, which is not part of the model. *)
Definition binder_delete_ref (ref : Z) : RM unit :=
  rf ← load_ref ref;
  on_tree By_desc (r_proc rf) (rb_erase ref) ;;
  on_tree By_node (r_proc rf) (rb_erase ref) ;;
  (if negb (strong rf =? 0) then binder_dec_node (r_node rf) true true ;; mret tt else mret tt) ;;
  hlist_del_ref ref ;;
  binder_dec_node (r_node rf) false true ;;
  kfree_ref ref.
Definition binder_inc_ref (ref : Z) (st : bool) (target_list : Z) : RM Z :=
  rf ← load_ref ref;
  if st then
    ret ← (if strong rf =? 0 then binder_inc_node (r_node rf) true true target_list else mret 0);
    if negb (ret =? 0) then mret ret else store_ref ref (with_strong (s32 (strong rf + 1))) ;; mret 0
  else
    ret ← (if weak rf =? 0 then binder_inc_node (r_node rf) false true target_list else mret 0);
    if negb (ret =? 0) then mret ret else store_ref ref (with_weak (s32 (weak rf + 1))) ;; mret 0.
Definition binder_dec_ref (ref : Z) (st : bool) : RM Z :=
  rf ← load_ref ref;
  if (if st then strong rf else weak rf) =? 0 then mret (- EINVAL)
  else
    store_ref ref (if st then with_strong (strong rf - 1) else with_weak (weak rf - 1)) ;;
    (if st && (strong rf - 1 =? 0) then binder_dec_node (r_node rf) true true ;; mret tt else mret tt) ;;
    rf ← load_ref ref;
    (if (strong rf =? 0) && (weak rf =? 0) then binder_delete_ref ref else mret tt) ;;
    mret 0.

(** ** Commands of user space *)
Inductive ref_cmd := BC_INCREFS | BC_ACQUIRE | BC_RELEASE | BC_DECREFS.
Definition is_inc (c : ref_cmd) : bool := match c with BC_INCREFS | BC_ACQUIRE => true | _ => false end.
(** [ref->desc] is read for a message before [ref] is compared with NULL. *)
Definition bc_refs (c : ref_cmd) (P target mem : Z) : RM unit :=
  s ← get;
  ref ← (if (target =? 0) && negb (binder_context_mgr_node s =? 0) && is_inc c then
    ref ← binder_get_ref_for_node P (binder_context_mgr_node s) mem; rf ← load_ref ref; mret ref
  else binder_get_ref P target);
  if ref =? 0 then mret tt
  else
    match c with
    | BC_INCREFS => binder_inc_ref ref false 0
    | BC_ACQUIRE => binder_inc_ref ref true 0
    | BC_RELEASE => binder_dec_ref ref true
    | BC_DECREFS => binder_dec_ref ref false
    end ;;
    mret tt.
(** [BC_ACQUIRE_DONE] and [BC_INCREFS_DONE]. *)
Definition bc_done (acquire : bool) (P node_ptr cookie : Z) : RM unit :=
  node ← binder_get_node P node_ptr;
  if node =? 0 then mret tt
  else
    nd ← load_node node;
    if negb (cookie =? n_cookie nd) then mret tt
    else if negb (if acquire then pending_strong_ref nd else pending_weak_ref nd) then mret tt
    else
      store_node node (if acquire then with_strong_flags (has_strong_ref nd) false else with_weak_flags (has_weak_ref nd) false) ;;
      binder_dec_node node acquire false ;;
      mret tt.
Definition binder_set_context_mgr (P euid mem : Z) : RM Z :=
  s ← get;
  if negb (binder_context_mgr_node s =? 0) then mret (- EBUSY)
  else if negb (binder_context_mgr_uid s =? -1) && negb (binder_context_mgr_uid s =? euid) then mret (- EPERM)
  else
    (if binder_context_mgr_uid s =? -1 then modify (set_mgr_uid euid) else mret tt) ;;
    node ← binder_new_node P 0 0 mem;
    modify (set_mgr node) ;;
    if node =? 0 then mret (- ENOMEM)
    else
      nd ← load_node node;
      store_node node (λ nd, with_strong_flags true (pending_strong_ref nd) (with_weak_flags true (pending_weak_ref nd) (with_local_strong (local_strong_refs nd + 1) (with_local_weak (local_weak_refs nd + 1) nd)))) ;;
      mret 0.

(** ** The work of a node *)
Inductive node_reply := BR_NOOP | BR_INCREFS | BR_ACQUIRE | BR_RELEASE | BR_DECREFS.
Definition node_strong nd : bool := negb (internal_strong_refs nd =? 0) || negb (local_strong_refs nd =? 0).
Definition node_weak nd : bool := negb (bool_decide (refs nd = [])) || negb (local_weak_refs nd =? 0) || node_strong nd.
Definition work_node (P node : Z) : RM node_reply :=
  nd ← load_node node;
  if node_weak nd && negb (has_weak_ref nd) then
    store_node node (λ nd, with_local_weak (local_weak_refs nd + 1) (with_weak_flags true true nd)) ;; mret BR_INCREFS
  else if node_strong nd && negb (has_strong_ref nd) then
    store_node node (λ nd, with_local_strong (local_strong_refs nd + 1) (with_strong_flags true true nd)) ;; mret BR_ACQUIRE
  else if negb (node_strong nd) && has_strong_ref nd then
    store_node node (λ nd, with_strong_flags false (pending_strong_ref nd) nd) ;; mret BR_RELEASE
  else if negb (node_weak nd) && has_weak_ref nd then
    store_node node (λ nd, with_weak_flags false (pending_weak_ref nd) nd) ;; mret BR_DECREFS
  else
    on_works (list_del_init node) ;;
    (if negb (node_weak nd) && negb (node_strong nd) then on_tree By_ptr P (rb_erase node) ;; kfree_node node else mret tt) ;;
    mret BR_NOOP.
(** The thread [T] of [P] takes the first work of its list or, if it waits for the work of the
    process, of that list; [None] if there is none. *)
Definition binder_thread_read (P T : Z) (wait_for_proc_work : bool) : RM (option node_reply) :=
  e ← on_works (list_empty T);
  if negb e then
    w ← on_works (get_next T); r ← work_node P w; mret (Some r)
  else
    e ← on_works (list_empty P);
    if negb e && wait_for_proc_work then w ← on_works (get_next P); r ← work_node P w; mret (Some r) else mret None.

(** ** Objects in transactions *)
Definition B_PACK_CHARS (c1 c2 c3 c4 : Z) : Z := Z.lor (Z.lor (Z.lor (Z.shiftl c1 24) (Z.shiftl c2 16)) (Z.shiftl c3 8)) c4.
Definition B_TYPE_LARGE : Z := 133.
Definition BINDER_TYPE_BINDER : Z := B_PACK_CHARS 115 98 42 B_TYPE_LARGE.
Definition BINDER_TYPE_WEAK_BINDER : Z := B_PACK_CHARS 119 98 42 B_TYPE_LARGE.
Definition BINDER_TYPE_HANDLE : Z := B_PACK_CHARS 115 104 42 B_TYPE_LARGE.
Definition BINDER_TYPE_WEAK_HANDLE : Z := B_PACK_CHARS 119 104 42 B_TYPE_LARGE.
Definition BINDER_TYPE_FD : Z := B_PACK_CHARS 102 100 42 B_TYPE_LARGE.
(** [sizeof(struct flat_binder_object)], and its words at an offset: type, flags, binder or
    handle, cookie. *)
Definition sizeof_object : Z := 16.
Definition word_at (off i : Z) : nat := Z.to_nat (off `div` 4 + i).
Definition get_word (d : list Z) (off i : Z) : RM Z := match d !! word_at off i with Some w => mret w | None => oops end.
Definition set_word (off i v : Z) (d : list Z) : list Z := <[word_at off i := v]> d.
Definition bad_offset (data_size off : Z) : bool := (off >? u32 (data_size - sizeof_object)) || (data_size <? sizeof_object) || negb (off mod 4 =? 0).

(** What [kzalloc] gives for a node and for a reference, and the descriptor that the target
    gets for a file, if it may get one and there is one. *)
Record obj_env := ObjEnv { node_mem : Z; ref_mem : Z; target_fd : option Z }.
Definition translate_binder (P T Q : Z) (d : list Z) (off : Z) (e : obj_env) (st : bool) : RM (bool * list Z) :=
  ptr ← get_word d off 2;
  cookie ← get_word d off 3;
  node ← binder_get_node P ptr;
  node ← (if node =? 0 then binder_new_node P ptr cookie (node_mem e) else mret node);
  if node =? 0 then mret (false, d)
  else
    nd ← load_node node;
    if negb (cookie =? n_cookie nd) then mret (false, d)
    else
      ref ← binder_get_ref_for_node Q node (ref_mem e);
      if ref =? 0 then mret (false, d)
      else
        rf ← load_ref ref;
        binder_inc_ref ref st T ;;
        mret (true, set_word off 2 (desc rf) (set_word off 0 (if st then BINDER_TYPE_HANDLE else BINDER_TYPE_WEAK_HANDLE) d)).
Definition translate_handle (P Q : Z) (d : list Z) (off : Z) (e : obj_env) (st : bool) : RM (bool * list Z) :=
  handle ← get_word d off 2;
  ref ← binder_get_ref P (u32 handle);
  if ref =? 0 then mret (false, d)
  else
    rf ← load_ref ref;
    nd ← load_node (r_node rf);
    if n_proc nd =? Q then
      binder_inc_node (r_node rf) st false 0 ;;
      mret (true, set_word off 3 (n_cookie nd) (set_word off 2 (n_ptr nd) (set_word off 0 (if st then BINDER_TYPE_BINDER else BINDER_TYPE_WEAK_BINDER) d)))
    else
      new_ref ← binder_get_ref_for_node Q (r_node rf) (ref_mem e);
      if new_ref =? 0 then mret (false, d)
      else
        nrf ← load_ref new_ref;
        binder_inc_ref new_ref st 0 ;;
        mret (true, set_word off 2 (desc nrf) d).
Definition translate_object (P T Q : Z) (d : list Z) (off : Z) (e : obj_env) : RM (bool * list Z) :=
  type ← get_word d off 0;
  if (type =? BINDER_TYPE_BINDER) || (type =? BINDER_TYPE_WEAK_BINDER) then translate_binder P T Q d off e (type =? BINDER_TYPE_BINDER)
  else if (type =? BINDER_TYPE_HANDLE) || (type =? BINDER_TYPE_WEAK_HANDLE) then translate_handle P Q d off e (type =? BINDER_TYPE_HANDLE)
  else if type =? BINDER_TYPE_FD then match target_fd e with Some fd => mret (true, set_word off 2 fd d) | None => mret (false, d) end
  else mret (false, d).
(** [done] is how many objects have been translated. *)
Fixpoint translate_loop (P T Q data_size : Z) (d : list Z) (offs : list (Z * obj_env)) (done : nat) : RM (bool * list Z * nat) :=
  match offs with
  | [] => mret (true, d, done)
  | (off, e) :: offs =>
      if bad_offset data_size off then mret (false, d, done)
      else
        '(ok, d) ← translate_object P T Q d off e;
        if (ok : bool) then translate_loop P T Q data_size d offs (S done) else mret (false, d, done)
  end.

Definition release_object (P : Z) (d : list Z) (off : Z) : RM unit :=
  type ← get_word d off 0;
  if (type =? BINDER_TYPE_BINDER) || (type =? BINDER_TYPE_WEAK_BINDER) then
    ptr ← get_word d off 2;
    node ← binder_get_node P ptr;
    if node =? 0 then mret tt else binder_dec_node node (type =? BINDER_TYPE_BINDER) false ;; mret tt
  else if (type =? BINDER_TYPE_HANDLE) || (type =? BINDER_TYPE_WEAK_HANDLE) then
    handle ← get_word d off 2;
    ref ← binder_get_ref P (u32 handle);
    if ref =? 0 then mret tt else binder_dec_ref ref (type =? BINDER_TYPE_HANDLE) ;; mret tt
  else mret tt.
Fixpoint release_loop (P data_size : Z) (d : list Z) (offs : list Z) : RM unit :=
  match offs with
  | [] => mret tt
  | off :: offs => (if bad_offset data_size off then mret tt else release_object P d off) ;; release_loop P data_size d offs
  end.
(** [failed_at] is the number of objects before the one that failed. *)
Definition binder_transaction_buffer_release (P : Z) (b : binder_buffer) (failed_at : option nat) : RM unit :=
  (if negb (target_node b =? 0) then binder_dec_node (target_node b) true false ;; mret tt else mret tt) ;;
  release_loop P (b_data_size b) (b_data b) (match failed_at with Some n => take n (b_offsets b) | None => b_offsets b end).

(** The node and the process of a call: that of the handle, or the context manager; for a
    reply, only the process [reply]. *)
Definition transaction_target (P handle : Z) (reply : option Z) : RM (option (Z * Z)) :=
  match reply with
  | Some Q => mret (Some (0, Q))
  | None =>
      node ← (if negb (handle =? 0) then ref ← binder_get_ref P handle; if ref =? 0 then mret 0 else rf ← load_ref ref; mret (r_node rf) else s ← get; mret (binder_context_mgr_node s));
      if node =? 0 then mret None
      else nd ← load_node node; mret (if n_proc nd =? 0 then None else Some (node, n_proc nd))
  end.
(** [b] is the new buffer, or 0; [copied] says that the data and the offsets could be copied
    from user space and that the size of the offsets is a multiple of that of a word. *)
Definition binder_transaction (P T handle : Z) (reply : option Z) (b : Z) (copied : bool) (data_size : Z) (d : list Z) (offs : list (Z * obj_env)) : RM bool :=
  t ← transaction_target P handle reply;
  match t with
  | None => mret false
  | Some (node, Q) =>
      if b =? 0 then mret false
      else
        (if negb (node =? 0) then binder_inc_node node true false 0 ;; mret tt else mret tt) ;;
        '(ok, d, done) ← (if copied then translate_loop P T Q data_size d offs 0 else mret (false, d, O));
        let buf := TBuf Q node d data_size offs.*1 in
        if (ok : bool) then modify (λ s, set_bufs (<[b := buf]> (bbufs s)) s) ;; mret true
        else binder_transaction_buffer_release Q buf (Some done) ;; mret false
  end.
(** [BC_FREE_BUFFER] for the buffer that [binder_buffer_lookup] finds; [allow_user_free] says
    that a thread of the process has been given it.  The records of transactions and the queue
    [async_todo] of the node are not part of the model: what is left of the command is the check
    of the buffer, the release of its objects, and its end. *)
Definition bc_free_buffer (P b : Z) (allow_user_free : bool) : RM unit :=
  s ← get;
  match bbufs s !! b with
  | Some buf =>
      if negb (b_proc buf =? P) then mret tt
      else if negb allow_user_free then mret tt
      else binder_transaction_buffer_release P buf None ;; modify (λ s, set_bufs (delete b (bbufs s)) s)
  | None => mret tt
  end.

(** ** Processes and threads *)
Definition new_head (x : Z) : RM unit := modify (λ s, set_works (<[x := ListHead 0 0]> (works s)) s) ;; on_works (INIT_LIST_HEAD x).
Definition empty_tree : rb_state := RbState ∅ 0.
Definition binder_open (P : Z) : RM unit := modify (λ s, set_procs (<[P := BProc empty_tree empty_tree empty_tree]> (bprocs s)) s) ;; new_head P.
(** A thread that the process does not have yet. *)
Definition binder_get_thread (P T : Z) : RM unit := modify (λ s, set_threads (<[T := P]> (threads s)) s) ;; new_head T.
(** The loop of [binder_release_work].  The only work of the model is that of nodes, which is
    just taken off the list (the default case); the cases for transactions and for completed
    transactions are not part of it. *)
Fixpoint release_work_loop (fuel : nat) (list : Z) : RM unit :=
  match fuel with
  | O => oops
  | S fuel =>
      e ← on_works (list_empty list);
      if (e : bool) then mret tt
      else w ← on_works (get_next list); on_works (list_del_init w) ;; release_work_loop fuel list
  end.
Definition binder_release_work (list : Z) : RM unit := s ← get; release_work_loop (S (size (works s))) list.
Definition free_head (x : Z) : RM unit := modify (λ s, set_works (delete x (works s)) s).
(** The end of [binder_free_thread]: the thread leaves the process, its work is released and
    it is freed.  The walk of its stack of transactions is not part of the model. *)
Definition binder_free_thread (T : Z) : RM unit := modify (λ s, set_threads (delete T (threads s)) s) ;; binder_release_work T ;; free_head T.
Fixpoint free_threads (l : list Z) : RM unit := match l with [] => mret tt | T :: l => binder_free_thread T ;; free_threads l end.
Definition threads_of s (P : Z) : list Z := (filter (λ '(_, Q), Q = P) (map_to_list (threads s))).*1.

Fixpoint release_nodes (fuel : nat) (P : Z) : RM unit :=
  match fuel with
  | O => oops
  | S fuel =>
      n ← on_tree By_ptr P rb_first;
      if n =? 0 then mret tt
      else
        on_tree By_ptr P (rb_erase n) ;;
        on_works (list_del_init n) ;;
        nd ← load_node n;
        (if bool_decide (refs nd = []) then kfree_node n
         else
           store_node n (λ nd, with_local_weak 0 (with_local_strong 0 (with_proc 0 nd))) ;;
           modify (λ s, set_dead (n :: binder_dead_nodes s) s)) ;;
        release_nodes fuel P
  end.
Fixpoint release_refs (fuel : nat) (P : Z) : RM unit :=
  match fuel with
  | O => oops
  | S fuel =>
      n ← on_tree By_desc P rb_first;
      if n =? 0 then mret tt else binder_delete_ref n ;; release_refs fuel P
  end.
(** [binder_deferred_release] as far as it is about threads, nodes, references and which
    buffers exist; death notifications, transactions and pages are not part of the model (the
    pages are in BinderSys.v). *)
Definition binder_deferred_release (P : Z) : RM unit :=
  s ← get;
  (if negb (binder_context_mgr_node s =? 0) then
     nd ← load_node (binder_context_mgr_node s); if n_proc nd =? P then modify (set_mgr 0) else mret tt
   else mret tt) ;;
  free_threads (threads_of s P) ;;
  fuel ← tree_fuel By_ptr P; release_nodes fuel P ;;
  fuel ← tree_fuel By_desc P; release_refs fuel P ;;
  binder_release_work P ;;
  modify (λ s, set_bufs (filter (λ '(_, b), b_proc b <> P) (bbufs s)) s) ;;
  modify (λ s, set_procs (delete P (bprocs s)) s) ;;
  free_head P.

End BinderRef.
