(* ===== verification/BinderShape.v ===== *)
(** * The shape of binder's data

    The trees, lists and records of BinderRef.v are described by an invariant, [shape]: each
    tree of a process has exactly the nodes or references of the process, in the order of
    their keys; each node is on at most one list of work, of its own process; the dead nodes
    are those without a process.  The operations on trees and lists are related to it; a
    reference that has been taken out of some of its trees is listed in [D]. *)
From stdpp Require Import prelude gmap list sorting.
From Stdlib Require Import ZArith Lia ZifyBool.
From S2P Require Import Prelude ListHead ListHeap Rbtree BinderRef.
Open Scope Z_scope.

Module BinderShape.
Import BinderRef.
Implicit Types (s : binder) (k : tree_kind) (P : Z) (D : list (tree_kind * Z)).

(** ** Keys and members of trees *)
Definition key s k (x : Z) : Z :=
  match k with
  | By_ptr => match bnodes s !! x with Some nd => n_ptr nd | None => 0 end
  | By_desc => match brefs s !! x with Some rf => desc rf | None => 0 end
  | By_node => match brefs s !! x with Some rf => r_node rf | None => 0 end
  end.
Definition member s k P (x : Z) : Prop :=
  match k with By_ptr => exists nd, bnodes s !! x = Some nd /\ n_proc nd = P | _ => exists rf, brefs s !! x = Some rf /\ r_proc rf = P end.
Definition klt s k (x y : Z) : Prop := key s k x < key s k y.
Lemma member_key s k P x : member s k P x -> load_key k x s = Some (key s k x, s).
Proof. destruct k; intros (y & E & _); cbn; unfold mbind, M_bind, load_node, load_ref; rewrite E; done. Qed.

(** ** Trees of a process *)
Lemma get_put k t pr : get_tree k (put_tree k t pr) = t. Proof. by destruct k. Qed.
Lemma get_put_ne k k' t pr : k' <> k -> get_tree k' (put_tree k t pr) = get_tree k' pr. Proof. by destruct k, k'. Qed.
Lemma put_get k pr : put_tree k (get_tree k pr) pr = pr. Proof. by destruct k, pr. Qed.
Lemma set_procs_id s : set_procs (bprocs s) s = s. Proof. by destruct s. Qed.
Lemma set_works_id s : set_works (works s) s = s. Proof. by destruct s. Qed.
Lemma tree_run {A} k P (f : M rb_state A) s pr a t : bprocs s !! P = Some pr -> f (get_tree k pr) = Some (a, t) -> on_tree k P f s = Some (a, set_procs (<[P := put_tree k t pr]> (bprocs s)) s).
Proof. intros E H. unfold on_tree. by rewrite E, H. Qed.
Lemma tree_read {A} k P (f : M rb_state A) s pr a : bprocs s !! P = Some pr -> f (get_tree k pr) = Some (a, get_tree k pr) -> on_tree k P f s = Some (a, s).
Proof. intros E H. rewrite (tree_run _ _ _ _ _ _ _ E H), put_get, insert_id by done. by rewrite set_procs_id. Qed.
Lemma works_run {A} (f : M mem A) s a m : f (works s) = Some (a, m) -> on_works f s = Some (a, set_works m s).
Proof. intros H. unfold on_works. by rewrite H. Qed.
Lemma works_read {A} (f : M mem A) s a : f (works s) = Some (a, works s) -> on_works f s = Some (a, s).
Proof. intros H. by rewrite (works_run _ _ _ _ H), set_works_id. Qed.
Lemma load_node_run s n nd : bnodes s !! n = Some nd -> load_node n s = Some (nd, s). Proof. unfold load_node. by intros ->. Qed.
Lemma load_ref_run s r rf : brefs s !! r = Some rf -> load_ref r s = Some (rf, s). Proof. unfold load_ref. by intros ->. Qed.
Lemma store_node_run s n nd f : bnodes s !! n = Some nd -> store_node n f s = Some (tt, set_nodes (<[n := f nd]> (bnodes s)) s).
Proof. intros E. unfold store_node. by erewrite bind_run by (by apply load_node_run). Qed.
Lemma store_ref_run s r rf f : brefs s !! r = Some rf -> store_ref r f s = Some (tt, set_refs (<[r := f rf]> (brefs s)) s).
Proof. intros E. unfold store_ref. by erewrite bind_run by (by apply load_ref_run). Qed.

(** A node of the tree splits the others by key. *)
Section descent.
Context (s : binder) (k : tree_kind) (P : Z) (pr : binder_proc) (Hpr : bprocs s !! P = Some pr).
Definition sorted (l : list Z) : Prop := StronglySorted (klt s k) l /\ forall x, x ∈ l -> member s k P x.
Lemma sorted_split l1 x l2 : sorted (l1 ++ x :: l2) -> sorted l1 /\ sorted l2 /\ member s k P x /\ (forall a, a ∈ l1 -> key s k a < key s k x) /\ (forall a, a ∈ l2 -> key s k x < key s k a).
Proof.
  intros [(H1 & H2 & H3)%StronglySorted_app Hm]. apply StronglySorted_cons in H3 as [H3 H4]. rewrite Forall_forall in H3.
  split_and!; [split; [done|]|split; [done|]|..]; try (intros y Hy; apply Hm; set_solver +Hy); [apply Hm; set_solver +| |done]. intros a Ha. apply H1; [done|set_solver +].
Qed.
Lemma find_loop_run kv : forall fuel K t, zrep (get_tree k pr) K t -> (length (inorder t) < fuel)%nat -> sorted (inorder t) ->
  exists x, find_loop fuel k P kv (tptr t) s = Some (x, s) /\ ((x = 0 /\ forall y, y ∈ inorder t -> key s k y <> kv) \/ (x <> 0 /\ x ∈ inorder t /\ key s k x = kv)).
Proof.
  induction fuel as [|fuel IH]; intros K t Hz Hf Hs; [lia|]. cbn [find_loop]. destruct t as [|c l y r]; [exists 0; split; [done|left; set_solver +]|].
  destruct (zrep_valid _ _ _ _ _ _ Hz) as [_ Hy]. cbn [tptr]. rewrite (proj2 (Z.eqb_neq _ _) Hy). cbn [inorder] in *. rewrite length_app in Hf. cbn in Hf.
  destruct (sorted_split _ _ _ Hs) as (Hsl & Hsr & Hm & Hl & Hr).
  erewrite bind_run by (eapply tree_read; [done|by eapply zrep_load]). erewrite bind_run by (by eapply member_key). cbn [rb_left rb_right].
  destruct (Z.ltb_spec kv (key s k y)) as [Hlt|Hge]; [|rewrite Z.gtb_ltb; destruct (Z.ltb_spec (key s k y) kv) as [Hlt|Hge']].
  - destruct (IH (Lf c y r :: K) l) as (x & -> & Hx); [by apply zdn_L|lia|done|]. exists x. split; [done|]. destruct Hx as [[-> Hx]|(? & ? & ?)]; [left|right; set_solver].
    split; [done|]. intros a [Ha|[->|Ha]%elem_of_cons]%elem_of_app; [by apply Hx|lia|specialize (Hr a Ha); lia].
  - destruct (IH (Rf c l y :: K) r) as (x & -> & Hx); [by apply zdn_R|lia|done|]. exists x. split; [done|]. destruct Hx as [[-> Hx]|(? & ? & ?)]; [left|right; set_solver].
    split; [done|]. intros a [Ha|[->|Ha]%elem_of_cons]%elem_of_app; [specialize (Hl a Ha); lia|lia|by apply Hx].
  - exists y. split; [done|]. right. split_and!; [done|set_solver +|lia].
Qed.
Lemma place_loop_run kv parent0 : forall fuel K t, zrep (get_tree k pr) K t -> (length (inorder t) < fuel)%nat -> sorted (inorder t) -> is_rb (plug K t) ->
  (forall a, a ∈ cleft K -> key s k a < kv) -> (forall a, a ∈ cright K -> kv < key s k a) ->
  exists w, place_loop fuel k P kv (if K is [] then parent0 else cptr K) (link_of K) (tptr t) s = Some (w, s) /\
    match w with
    | inl x => x <> 0 /\ x ∈ inorder t /\ key s k x = kv
    | inr (parent, link) => exists K', zrep (get_tree k pr) K' L /\ is_rb (plug K' L) /\ plug K' L = plug K t /\ link = link_of K' /\ parent = (if K' is [] then parent0 else cptr K') /\
        (forall a, a ∈ cleft K' -> key s k a < kv) /\ (forall a, a ∈ cright K' -> kv < key s k a)
    end.
Proof.
  induction fuel as [|fuel IH]; intros K t Hz Hf Hs Hrb HL HR; [lia|]. cbn [place_loop]. destruct t as [|c l y r]; [eexists; split; [done|]; by exists K|].
  destruct (zrep_valid _ _ _ _ _ _ Hz) as [_ Hy]. cbn [tptr]. rewrite (proj2 (Z.eqb_neq _ _) Hy). cbn [inorder] in *. rewrite length_app in Hf. cbn in Hf.
  destruct (sorted_split _ _ _ Hs) as (Hsl & Hsr & Hm & Hl & Hr).
  erewrite bind_run by (eapply tree_read; [done|by eapply zrep_load]). erewrite bind_run by (by eapply member_key). cbn [rb_left rb_right].
  destruct (Z.ltb_spec kv (key s k y)) as [Hlt|Hge]; [|rewrite Z.gtb_ltb; destruct (Z.ltb_spec (key s k y) kv) as [Hlt|Hge']].
  - destruct (IH (Lf c y r :: K) l) as (w & Hrun & Hw); [by apply zdn_L|lia|done|done|done| |].
    { cbn. intros a [->|[Ha|Ha]%elem_of_app]%elem_of_cons; [done| |by apply HR]. specialize (Hr a Ha). lia. }
    exists w. split; [exact Hrun|]. destruct w as [x|[pa li]]; [|exact Hw]. destruct Hw as (? & ? & ?). set_solver.
  - destruct (IH (Rf c l y :: K) r) as (w & Hrun & Hw); [by apply zdn_R|lia|done|done| |done|].
    { cbn. intros a Ha. rewrite !elem_of_app, list_elem_of_singleton in Ha. destruct Ha as [Ha|[Ha| ->]]; [by apply HL| |lia]. specialize (Hl a Ha). lia. }
    exists w. split; [exact Hrun|]. destruct w as [x|[pa li]]; [|exact Hw]. destruct Hw as (? & ? & ?). set_solver.
  - exists (inl y). split; [done|]. split_and!; [done|set_solver +|lia].
Qed.
End descent.
Arguments sorted : clear implicits.

(** ** Trees have their members *)
Record trees D s : Prop := {
  tr_tree : forall P pr k, bprocs s !! P = Some pr -> exists l, tree_ok (get_tree k pr) l /\ StronglySorted (klt s k) l /\ forall x, x ∈ l <-> member s k P x /\ (k, x) ∉ D;
}.
Lemma trees_sorted D s P pr k : trees D s -> bprocs s !! P = Some pr -> exists t, zrep (get_tree k pr) [] t /\ is_rb t /\ sorted s k P (inorder t) /\ forall x, x ∈ inorder t <-> member s k P x /\ (k, x) ∉ D.
Proof. intros [Ht] E. destruct (Ht P pr k E) as (l & (t & Hz & Hrb & <-) & Hs & Hx). exists t. split_and!; [done..|split; [done|]|done]. intros x Hxt. by apply Hx. Qed.

(** The place for a key in a tree. *)
Definition hole D s k P kv parent0 parent link : Prop :=
  exists pr K, bprocs s !! P = Some pr /\ zrep (get_tree k pr) K L /\ is_rb (plug K L) /\ link = link_of K /\ parent = (if K is [] then parent0 else cptr K) /\
    (forall a, a ∈ cleft K -> key s k a < kv) /\ (forall a, a ∈ cright K -> kv < key s k a) /\ (forall x, x ∈ cleft K ++ cright K <-> member s k P x /\ (k, x) ∉ D) /\ StronglySorted (klt s k) (cleft K ++ cright K).

Lemma tree_fuel_run s k P pr : bprocs s !! P = Some pr -> tree_fuel k P s = Some (S (size (nodes (get_tree k pr))), s).
Proof. intros E. unfold tree_fuel. by eapply tree_read. Qed.
Lemma find_run D s k P kv : trees D s -> is_Some (bprocs s !! P) ->
  exists x, find k P kv s = Some (x, s) /\ ((x = 0 /\ forall y, member s k P y -> (k, y) ∉ D -> key s k y <> kv) \/ (x <> 0 /\ member s k P x /\ (k, x) ∉ D /\ key s k x = kv)).
Proof.
  intros Ht [pr E]. destruct (trees_sorted _ _ _ _ k Ht E) as (t & Hz & Hrb & Hs & Hx). unfold find.
  erewrite bind_run by (by apply tree_fuel_run). erewrite bind_run by (by eapply tree_read). assert (root (get_tree k pr) = tptr t) as -> by (by destruct Hz as [_ Hcr _ _]).
  pose proof (zrep_fuel _ _ _ Hz) as Hf. cbn in Hf.
  destruct (find_loop_run s k P pr E kv (S (size (nodes (get_tree k pr)))) [] t Hz ltac:(lia) Hs) as (x & -> & H). exists x. split; [done|].
  destruct H as [[-> H]|(H0 & Hin & H)]; [left; split; [done|]|right; split; [done|]].
  - intros y Hy Hd. apply H, Hx. done.
  - apply Hx in Hin. tauto.
Qed.
Lemma place_run D s k P kv parent0 : trees D s -> is_Some (bprocs s !! P) ->
  exists w, place k P kv parent0 s = Some (w, s) /\
    match w with inl x => x <> 0 /\ member s k P x /\ (k, x) ∉ D /\ key s k x = kv | inr (parent, link) => hole D s k P kv parent0 parent link end.
Proof.
  intros Ht [pr E]. destruct (trees_sorted _ _ _ _ k Ht E) as (t & Hz & Hrb & Hs & Hx). unfold place.
  erewrite bind_run by (by apply tree_fuel_run). erewrite bind_run by (by eapply tree_read). assert (root (get_tree k pr) = tptr t) as -> by (by destruct Hz as [_ Hcr _ _]).
  pose proof (zrep_fuel _ _ _ Hz) as Hf. cbn in Hf.
  destruct (place_loop_run s k P pr E kv parent0 (S (size (nodes (get_tree k pr)))) [] t Hz ltac:(lia) Hs Hrb) as (w & Hrun & H); [set_solver +..|]. exists w. split; [exact Hrun|].
  destruct w as [x|[pa li]].
  - destruct H as (H0 & Hin & H). apply Hx in Hin. tauto.
  - destruct H as (K & HzK & HrbK & Hp & Hli & Hpa & HL & HR). apply (f_equal inorder) in Hp. rewrite inorder_plug in Hp. cbn in Hp.
    exists pr, K. rewrite Hp. split_and!; [done..| |apply Hs]. intros x. by rewrite <-Hx.
Qed.
(** No other entry has the key. *)
Lemma hole_free D s k P kv p0 p li y : hole D s k P kv p0 p li -> member s k P y -> (k, y) ∉ D -> key s k y <> kv.
Proof. intros (pr & K & _ & _ & _ & _ & _ & HL & HR & Hx & _) Hm Hd. destruct (Hx y) as [_ Hy]. destruct (elem_of_app (cleft K) (cright K) y) as [[H%HL|H%HR] _]; [by apply Hy|lia..]. Qed.

(** One tree of one process is replaced. *)
Lemma trees_put D D' s P pr k t l : trees D s -> bprocs s !! P = Some pr -> tree_ok t l -> StronglySorted (klt s k) l -> (forall x, x ∈ l <-> member s k P x /\ (k, x) ∉ D') ->
  (forall k' P' x, member s k' P' x -> k' <> k \/ P' <> P -> (k', x) ∈ D <-> (k', x) ∈ D') -> trees D' (set_procs (<[P := put_tree k t pr]> (bprocs s)) s).
Proof.
  intros [Ht] E Hok Hs Hx HD. split. intros P' pr' k' E'. cbn in E'.
  assert (k' <> k \/ P' <> P -> exists l0, tree_ok (get_tree k' pr') l0 /\ StronglySorted (klt s k') l0 /\ forall x, x ∈ l0 <-> member s k' P' x /\ (k', x) ∉ D') as Hother.
  { intros Hne. assert (exists pr0, bprocs s !! P' = Some pr0 /\ get_tree k' pr' = get_tree k' pr0) as (pr0 & E0 & ->).
    { apply lookup_insert_Some in E' as [[<- <-]|[_ E']]; [exists pr; split; [done|]; apply get_put_ne; naive_solver|by exists pr']. }
    destruct (Ht _ _ k' E0) as (l0 & H1 & H2 & H3). exists l0. split_and!; [done..|]. intros x. rewrite H3. split; intros [Hm Hd]; (split; [done|]); by rewrite (HD k' P' x Hm Hne) in *. }
  destruct (decide (P' = P)) as [->|Hne]; [|apply Hother; by right]. assert ({k' = k} + {k' <> k}) as [->|Hne] by (decide equality); [|apply Hother; by left].
  rewrite lookup_insert_eq in E'. injection E' as <-. exists l. rewrite get_put. done.
Qed.
Lemma klt_ext s s' k l : (forall x, x ∈ l -> key s' k x = key s k x) -> StronglySorted (klt s k) l -> StronglySorted (klt s' k) l.
Proof.
  intros He. induction 1 as [|x l Hs IH Hx]; constructor; [apply IH; intros y Hy; apply He; set_solver +Hy|].
  rewrite Forall_forall in Hx |- *. intros y Hy. unfold klt in *. rewrite !He by set_solver +Hy. by apply Hx.
Qed.
Lemma trees_ext D D' s s' : trees D s -> bprocs s' = bprocs s -> (forall k P x, is_Some (bprocs s !! P) -> member s' k P x /\ (k, x) ∉ D' <-> member s k P x /\ (k, x) ∉ D) ->
  (forall k P x, member s k P x -> (k, x) ∉ D -> key s' k x = key s k x) -> trees D' s'.
Proof.
  intros [Ht] Hp Hm Hk. split. intros P pr k E. rewrite Hp in E. destruct (Ht P pr k E) as (l & Hok & Hs & Hx). exists l. split_and!; [done| |].
  - eapply klt_ext; [|done]. intros x Hxl%Hx. eapply Hk; apply Hxl.
  - intros x. rewrite Hx, Hm; [done|by eexists].
Qed.
Lemma hole_ext D D' s s' k P kv p0 p li : hole D s k P kv p0 p li -> bprocs s' = bprocs s -> (forall x, member s' k P x /\ (k, x) ∉ D' <-> member s k P x /\ (k, x) ∉ D) ->
  (forall x, member s k P x -> (k, x) ∉ D -> key s' k x = key s k x) -> hole D' s' k P kv p0 p li.
Proof.
  intros (pr & K & E & Hz & Hrb & Hli & Hp & HL & HR & Hx & Hs) Hb Hm Hk. exists pr, K. rewrite Hb. split_and!; try done.
  - intros a Ha. rewrite Hk; [by apply HL|apply Hx; set_solver +Ha..].
  - intros a Ha. rewrite Hk; [by apply HR|apply Hx; set_solver +Ha..].
  - intros x. by rewrite Hm.
  - eapply klt_ext; [|done]. intros x Hxl%Hx. apply Hk; apply Hxl.
Qed.
Lemma dom_put k t pr s P : bprocs s !! P = Some pr -> dom (<[P := put_tree k t pr]> (bprocs s)) = dom (bprocs s).
Proof. intros E. rewrite dom_insert_L. apply elem_of_dom_2 in E. set_solver. Qed.
Lemma tree_insert_run D s k P x kv p0 p li : trees ((k, x) :: D) s -> (k, x) ∉ D -> hole ((k, x) :: D) s k P kv p0 p li -> ((forall y, member s k P y -> (k, y) ∈ (k, x) :: D) -> p0 = 0) ->
  member s k P x -> key s k x = kv -> valid x ->
  exists ps, tree_insert k P x p li s = Some (tt, set_procs ps s) /\ dom ps = dom (bprocs s) /\ trees D (set_procs ps s).
Proof.
  intros Ht HxD (pr & K & E & Hz & Hrb & -> & -> & HL & HR & Hx & Hs) H0 Hm Hk Hv. assert ((if K is [] then p0 else cptr K) = cptr K) as ->.
  { destruct K; [|done]. cbn in *. apply H0. intros y Hy. destruct (decide ((k, y) ∈ (k, x) :: D)) as [|Hn]; [done|]. destruct (not_elem_of_nil y). by apply Hx. }
  assert (x ∉ cids K) as HxK by (rewrite cids_perm; rewrite Hx; set_solver +).
  destruct (rb_link_node_run _ _ x Hz Hv HxK) as (st1 & Hr1 & Hz1). destruct (rb_insert_color_run _ _ _ Hz1 Hrb) as (st2 & t & Hr2 & Hz2 & Hrb2 & Hi).
  exists (<[P := put_tree k st2 pr]> (bprocs s)). split_and!; [|by apply dom_put|].
  - unfold tree_insert. erewrite bind_run by (by apply (tree_run _ _ _ _ _ _ _ E Hr1)).
    rewrite (tree_run k P (rb_insert_color x) _ (put_tree k st1 pr) tt st2); [|by cbn; rewrite lookup_insert_eq|by rewrite get_put]. cbn. rewrite insert_insert_eq. by destruct k.
  - assert (forall y, y ∈ cleft K ++ x :: cright K <-> member s k P y /\ (k, y) ∉ D) as Hmem.
    { intros y. rewrite elem_of_app, elem_of_cons. specialize (Hx y). rewrite elem_of_app, not_elem_of_cons in Hx. destruct (decide (y = x)) as [->|Hne]; [tauto|]. assert ((k, y) <> (k, x)) by congruence. tauto. }
    eapply trees_put; [exact Ht|done|by exists t| |done|]; [|intros k' P' y Hy Hne; rewrite elem_of_cons; split; [|tauto]; intros [[= -> ->]|]; [|done]; destruct Hne as [|Hne]; [done|];
      destruct k, Hm as (? & E1 & <-), Hy as (? & E2 & <-); congruence].
    apply StronglySorted_app in Hs as (S1 & S2 & S3). apply StronglySorted_app. split_and!; [|done|].
    + intros a b Ha [->|Hb]%elem_of_cons; [unfold klt; rewrite Hk; by apply HL|by apply S1].
    + constructor; [done|]. apply Forall_forall. intros a Ha. unfold klt. rewrite Hk. by apply HR.
Qed.
Lemma tree_erase_run D s k P x : trees D s -> is_Some (bprocs s !! P) -> member s k P x -> (k, x) ∉ D ->
  exists ps, on_tree k P (rb_erase x) s = Some (tt, set_procs ps s) /\ dom ps = dom (bprocs s) /\ trees ((k, x) :: D) (set_procs ps s).
Proof.
  intros Ht [pr E] Hm HD. pose proof Ht as [Ht']. destruct (Ht' _ _ k E) as (l & (t & Hz & Hrb & Hi) & Hs & Hl). assert (x ∈ l) as (l1 & l2 & ->)%list_elem_of_split by (by apply Hl).
  destruct (rb_erase_run _ t x l1 l2 Hz Hrb Hi) as (st & t' & Hrun & Hz' & Hrb' & Hi').
  exists (<[P := put_tree k st pr]> (bprocs s)). split_and!; [by apply tree_run|by apply dom_put|].
  assert (x ∉ l1 ++ l2) as Hn. { destruct Hz as [_ _ Hn _]. cbn in Hn. rewrite Hi, <-Permutation_middle in Hn. by apply NoDup_cons in Hn as [? _]. }
  eapply trees_put; [exact Ht|done|by exists t'| | |].
  - apply StronglySorted_app in Hs as (S1 & S2 & S3). apply StronglySorted_cons in S3 as [_ S3]. apply StronglySorted_app. split_and!; [|done..]. intros a b Ha Hb. apply S1; set_solver +Ha Hb.
  - intros y. specialize (Hl y). rewrite not_elem_of_cons. rewrite elem_of_app, elem_of_cons in Hl. rewrite elem_of_app in *. destruct (decide (y = x)) as [->|Hne]; [tauto|]. assert ((k, y) <> (k, x)) by congruence. tauto.
  - intros k' P' y Hy Hne. rewrite elem_of_cons. split; [tauto|]. intros [[= -> ->]|]; [|done]. destruct Hne as [|Hne]; [done|]. destruct k, Hm as (? & E1 & <-), Hy as (? & E2 & <-); congruence.
Qed.
(** Walks along a tree. *)
Lemma tree_first_run s k P pr l : bprocs s !! P = Some pr -> tree_ok (get_tree k pr) l -> on_tree k P rb_first s = Some (hd0 l, s).
Proof. intros E (t & Hz & _ & <-). eapply tree_read; [done|by apply rb_first_run]. Qed.
Lemma tree_next_run s k P pr l1 x l2 : bprocs s !! P = Some pr -> tree_ok (get_tree k pr) (l1 ++ x :: l2) -> on_tree k P (rb_next x) s = Some (hd0 l2, s).
Proof. intros E (t & Hz & _ & Hi). eapply tree_read; [done|by eapply rb_next_run]. Qed.
Lemma tree_valid st l x : tree_ok st l -> x ∈ l -> valid x.
Proof. intros (t & [_ _ _ Hv] & _ & <-) Hx. rewrite Forall_forall in Hv. apply Hv. set_solver +Hx. Qed.

(** ** Addresses *)
(** A structure is at a word of the address space. *)
Definition address (x : Z) : Prop := valid x /\ x < 2 ^ 32.
Lemma address_count l : NoDup l -> (forall x, x ∈ l -> address x) -> Z.of_nat (length l) < 2 ^ 30.
Proof.
  intros Hn Ha. assert (NoDup ((λ x, x `div` 4) <$> l)) as Hn'.
  { apply NoDup_fmap_2_strong; [|done]. intros x y Hx Hy E. destruct (Ha x Hx) as [[[? Hx4] _] _], (Ha y Hy) as [[[? Hy4] _] _]. cbn in E. Z.to_euclidean_division_equations. lia. }
  assert ((λ x, x `div` 4) <$> l ⊆+ seqZ 1 (2 ^ 30 - 1)) as Hsub%submseteq_length.
  { apply NoDup_submseteq; [done|]. intros y (x & -> & Hx)%list_elem_of_fmap. destruct (Ha x Hx) as [[[? Hx4] ?] ?]. apply elem_of_seqZ. Z.to_euclidean_division_equations. lia. }
  rewrite length_fmap, length_seqZ in Hsub. lia.
Qed.

(** ** The smallest unused descriptor *)
Definition descs s (l : list Z) : list Z := key s By_desc <$> l.
Definition least_unused (d0 : Z) (used : list Z) (d : Z) : Prop := d0 <= d /\ d ∉ used /\ forall v, d0 <= v < d -> v ∈ used.
Section desc_loop.
Context (s : binder) (P : Z) (pr : binder_proc) (l : list Z) (Hpr : bprocs s !! P = Some pr) (Hok : tree_ok (refs_by_desc pr) l).
Context (Hm : forall x, x ∈ l -> member s By_desc P x) (Hs : StronglySorted (klt s By_desc) l).
Lemma desc_loop_run fuel l1 l2 d : l = l1 ++ l2 -> (length l2 < fuel)%nat -> 0 <= d -> d + Z.of_nat (length l2) < 2 ^ 32 -> (forall x, x ∈ l2 -> d <= key s By_desc x) ->
  exists d', desc_loop fuel P (hd0 l2) d s = Some (d', s) /\ least_unused d (descs s l2) d' /\ d' <= d + Z.of_nat (length l2).
Proof.
  revert l1 l2 d. induction fuel as [|fuel IH]; intros l1 l2 d El Hf Hd Hb Hl; [lia|]. cbn [desc_loop]. destruct l2 as [|x l2].
  - exists d. split; [done|]. split; [|lia]. split_and!; [lia|apply not_elem_of_nil|lia].
  - assert (member s By_desc P x) as Hx by (apply Hm; rewrite El; set_solver +). destruct Hx as (rf & E & HP). assert (valid x) as [_ H0] by (eapply tree_valid; [exact Hok|rewrite El; set_solver +]).
    change (hd0 (x :: l2)) with x. rewrite (proj2 (Z.eqb_neq _ _) H0). erewrite bind_run by (by apply load_ref_run). assert (key s By_desc x = desc rf) as Hk by (cbn; by rewrite E). cbn in Hf, Hb.
    assert (forall y, y ∈ l2 -> desc rf < key s By_desc y) as Hgt.
    { rewrite El in Hs. apply StronglySorted_app in Hs as (_ & _ & Hs2). apply StronglySorted_cons in Hs2 as [Hs2 _]. rewrite Forall_forall in Hs2. intros y Hy. rewrite <-Hk. by apply Hs2. }
    specialize (Hl x ltac:(set_solver +)) as Hdx. rewrite Hk in Hdx. rewrite Z.gtb_ltb. destruct (Z.ltb_spec d (desc rf)) as [Hlt|Hge].
    + exists d. split; [done|]. split; [|cbn; lia]. split_and!; [lia| |lia]. unfold descs. rewrite list_elem_of_fmap. intros (y & -> & [->|Hy%Hgt]%elem_of_cons); lia.
    + assert (desc rf = d) as Hdd by lia. erewrite bind_run by (eapply tree_next_run; [done|]; cbn; by rewrite <-El). rewrite Hdd, u32_small by lia.
      destruct (IH (l1 ++ [x]) l2 (d + 1)) as (d' & -> & (H1 & H2 & H3) & H4); [by rewrite <-app_assoc|lia..| |].
      { intros y Hy%Hgt. lia. }
      exists d'. split; [done|]. split; [|cbn; lia]. split_and!; [lia| |].
      * cbn [descs fmap list_fmap]. rewrite not_elem_of_cons. split; [lia|done].
      * intros v Hv. cbn [descs fmap list_fmap]. apply elem_of_cons. destruct (decide (v = d)) as [->|]; [left; lia|right; apply H3; lia].
Qed.
(** From the root, starting with 0 or 1. *)
Lemma desc_search fuel (d0 : Z) : (length l < fuel)%nat -> 0 <= d0 <= 1 -> Z.of_nat (length l) < 2 ^ 30 -> (forall x, x ∈ l -> 0 <= key s By_desc x) ->
  exists d, desc_loop fuel P (hd0 l) d0 s = Some (d, s) /\ least_unused d0 (descs s l) d /\ d <= 2 ^ 31.
Proof.
  intros Hf Hd Hl Hk. assert (l = [] \/ exists x l', l = x :: l') as [El|(x & l' & El)] by (clear; destruct l as [|x l']; [by left|right; by exists x, l']).
  { destruct (desc_loop_run fuel [] l d0) as (d & H1 & H2 & H3); [done|lia..| |]; [rewrite El; set_solver +|]. exists d. split_and!; [done..|lia]. }
  destruct (decide (d0 <= key s By_desc x)) as [Hle|Hlt].
  - destruct (desc_loop_run fuel [] l d0) as (d & H1 & H2 & H3); [done|lia..| |exists d; split_and!; [done..|lia]].
    intros y Hy. rewrite El in Hy, Hs. apply StronglySorted_cons in Hs as [Hs' _]. rewrite Forall_forall in Hs'. apply elem_of_cons in Hy as [->|Hy]; [done|]. specialize (Hs' y Hy). unfold klt in Hs'. lia.
  - pose proof (Hk x ltac:(rewrite El; set_solver +)) as Hx0. assert (d0 = 1 /\ key s By_desc x = 0) as [-> Hx] by lia.
    destruct fuel as [|fuel]; [lia|]. cbn [desc_loop]. assert (member s By_desc P x) as (rf & E & HP) by (apply Hm; rewrite El; set_solver +). assert (valid x) as [_ H0] by (eapply tree_valid; [exact Hok|rewrite El; set_solver +]).
    assert (hd0 l = x) as -> by (by rewrite El). rewrite (proj2 (Z.eqb_neq _ _) H0). erewrite bind_run by (by apply load_ref_run). assert (key s By_desc x = desc rf) as Hkx by (cbn; by rewrite E). rewrite Hkx in Hx. rewrite Hx.
    cbn [Z.gtb Z.compare]. erewrite bind_run by (eapply (tree_next_run s By_desc P pr []); [done|]; cbn; by rewrite <-El). change (u32 (0 + 1)) with 1.
    destruct (desc_loop_run fuel [x] l' 1) as (d & H1 & (H2 & H3 & H4) & H5); [done|rewrite El in Hf; cbn in Hf; lia|lia|rewrite El in Hl; cbn in Hl; lia| |].
    { intros y Hy. rewrite El in Hs. apply StronglySorted_cons in Hs as [Hs' _]. rewrite Forall_forall in Hs'. specialize (Hs' y Hy). unfold klt in Hs'. lia. }
    exists d. rewrite H1. split; [done|]. rewrite El in Hl |- *. cbn in Hl. split; [|lia]. split_and!; [done| |].
    + cbn [descs fmap list_fmap]. apply not_elem_of_cons. split; [lia|done].
    + intros v Hv. cbn [descs fmap list_fmap]. apply elem_of_cons. right. by apply H4.
Qed.
End desc_loop.

(** ** Lists of work *)
(** The process that has the list of the head [h]. *)
Definition owner s (h : Z) : option Z := match bprocs s !! h with Some _ => Some h | None => threads s !! h end.
Record wrep s (L : heads) : Prop := {
  wr_rep : lrep (works s) L;
  wr_cell : forall x, is_Some (works s !! x) -> is_Some (bnodes s !! x) \/ is_Some (owner s x);
  wr_head : forall h P, owner s h = Some P -> is_Some (L !! h) /\ bnodes s !! h = None;
  wr_node : forall n nd, bnodes s !! n = Some nd -> L !! n = Some [] \/ exists h l, L !! h = Some l /\ n ∈ l;
  wr_entry : forall h l x, L !! h = Some l -> x ∈ l -> exists nd, bnodes s !! x = Some nd /\ n_proc nd <> 0 /\ owner s h = Some (n_proc nd);
}.
Lemma owner_ext s s' h : dom (bprocs s') = dom (bprocs s) -> threads s' = threads s -> owner s' h = owner s h.
Proof.
  intros Hd Ht. unfold owner. rewrite Ht. assert (is_Some (bprocs s' !! h) <-> is_Some (bprocs s !! h)) as H by (by rewrite <-!elem_of_dom, Hd).
  destruct (bprocs s' !! h), (bprocs s !! h); try done; destruct H as [H1 H2]; [by destruct H1|by destruct H2].
Qed.
Lemma wrep_ext s s' L : wrep s L -> works s' = works s -> (forall h, owner s' h = owner s h) -> (forall n, n_proc <$> bnodes s' !! n = n_proc <$> bnodes s !! n) -> wrep s' L.
Proof.
  intros [H1 H0 H2 H3 H4] Hw Ho Hn. assert (forall n nd, bnodes s' !! n = Some nd -> exists nd0, bnodes s !! n = Some nd0 /\ n_proc nd0 = n_proc nd) as Hback.
  { intros n nd E. specialize (Hn n). rewrite E in Hn. destruct (bnodes s !! n) as [nd0|] eqn:E0; [|done]. exists nd0. cbn in Hn. split; congruence. }
  split; [by rewrite Hw|..].
  - intros x. rewrite Hw, Ho. intros [[nd E]|Hx]%H0; [left|by right]. specialize (Hn x). rewrite E in Hn. by destruct (bnodes s' !! x).
  - intros h P. rewrite Ho. intros [Hh E]%H2. split; [done|]. destruct (bnodes s' !! h) as [nd|] eqn:E'; [|done]. apply Hback in E' as (? & ? & _). congruence.
  - intros n nd (nd0 & E & _)%Hback. by eapply H3.
  - intros h l x E Hx. destruct (H4 h l x E Hx) as (nd & Ex & Hp & Hh). specialize (Hn x). rewrite Ex in Hn. destruct (bnodes s' !! x) as [nd'|]; [|done]. exists nd'. injection Hn as Hn'. by rewrite Hn', Ho.
Qed.
Lemma wrep_works s m L L' : wrep s L -> lrep m L' -> dom m = dom (works s) -> (forall h P, owner s h = Some P -> is_Some (L' !! h)) ->
  (forall n nd, bnodes s !! n = Some nd -> L' !! n = Some [] \/ exists h l, L' !! h = Some l /\ n ∈ l) ->
  (forall h l x, L' !! h = Some l -> x ∈ l -> (exists l0, L !! h = Some l0 /\ x ∈ l0) \/ exists nd, bnodes s !! x = Some nd /\ n_proc nd <> 0 /\ owner s h = Some (n_proc nd)) -> wrep (set_works m s) L'.
Proof.
  intros [H1 H0 H2 H3 H4] Hr Hd Hh Hn He. split; [done|..].
  - intros x Hx. apply H0. cbn in Hx. by rewrite <-elem_of_dom, <-Hd, elem_of_dom.
  - intros h P Ho. split; [by eapply Hh|]. by eapply H2.
  - exact Hn.
  - intros h l x E Hx. destruct (He h l x E Hx) as [(l0 & E0 & Hx0)|?]; [by eapply H4|done].
Qed.
Lemma queue_run s L n nd h : wrep s L -> bnodes s !! n = Some nd -> L !! n = Some [] -> n_proc nd <> 0 -> owner s h = Some (n_proc nd) ->
  exists m L', on_works (list_add_tail n h) s = Some (tt, set_works m s) /\ wrep (set_works m s) L'.
Proof.
  intros Hw E EL H0 Ho. pose proof Hw as [H1 _ H2 H3 H4]. destruct (H2 _ _ Ho) as [[l El] Eh]. assert (n <> h) as Hne by congruence.
  destruct (heap_add_tail _ _ _ _ _ H1 El EL Hne) as (m & Hrun & Hr). exists m, (<[h := l ++ [n]]> (delete n L)). split; [by apply works_run|].
  assert (forall h' P, owner s h' = Some P -> h' <> n) as Hon by (intros h' P [_ Hx]%H2 ->; congruence).
  eapply wrep_works; [exact Hw|done|eapply keeps_dom_run; [|exact Hrun]; eauto with kernel|..].
  - intros h' P Ho'. destruct (decide (h' = h)) as [->|Hh]; [by rewrite lookup_insert_eq|]. rewrite lookup_insert_ne, lookup_delete_ne by (done || (apply not_eq_sym; by eapply Hon)). by eapply H2.
  - intros x ndx Ex. destruct (decide (x = n)) as [->|Hx]; [right; exists h, (l ++ [n]); rewrite lookup_insert_eq; set_solver +|].
    assert (x <> h) by congruence. destruct (H3 _ _ Ex) as [Ix|(h' & l' & E' & Hx')]; [left; by rewrite lookup_insert_ne, lookup_delete_ne by done|right].
    assert (h' <> n) by (intros ->; rewrite EL in E'; simplify_eq; set_solver +Hx'). destruct (decide (h' = h)) as [->|]; [exists h, (l ++ [n]); rewrite lookup_insert_eq; simplify_eq; set_solver +Hx'|].
    exists h', l'. by rewrite lookup_insert_ne, lookup_delete_ne by done.
  - intros h' l' x E' Hx. apply lookup_insert_Some in E' as [[<- <-]|[Hh E']].
    + apply elem_of_app in Hx as [Hx|Hx]; [left; by exists l|right]. apply list_elem_of_singleton in Hx as ->. by exists nd.
    + apply lookup_delete_Some in E' as [_ E']. left. by exists l'.
Qed.
Lemma unqueue_run s L n nd : wrep s L -> bnodes s !! n = Some nd ->
  exists m L', on_works (list_del_init n) s = Some (tt, set_works m s) /\ wrep (set_works m s) L' /\ L' !! n = Some [] /\ (forall h l, L !! h = Some l -> h <> n -> L' !! h = Some (filter (λ x, x <> n) l)).
Proof.
  intros Hw E. pose proof Hw as [H1 _ H2 H3 H4]. assert (forall h l, L !! h = Some l -> n ∉ l -> filter (λ x, x <> n) l = l) as Hf by (intros h l _ Hn; by apply filter_ne_notin).
  destruct (H3 _ _ E) as [Ei|(h & l & Eh & Hn)].
  - destruct (heap_del_init_idle _ _ _ H1 Ei) as (m & Hrun & Hr). exists m, L. split_and!; [by apply works_run| |done|].
    + eapply wrep_works; [exact Hw|done|eapply keeps_dom_run; [|exact Hrun]; eauto with kernel|intros h P Ho; by eapply H2|done|]. intros h l x El Hx. left. by exists l.
    + intros h l El Hh. rewrite El, (Hf h) by (done || (intros Hx; by eapply (lrep_entry_ne _ _ _ _ _ _ H1 El Hx Ei))). done.
  - apply list_elem_of_split in Hn as (l1 & l2 & ->). destruct (heap_del_init _ _ _ _ _ _ H1 Eh) as (m & Hrun & Hr). pose proof (lrep_nodup _ _ _ _ H1 Eh) as Hnd. pose proof (proj2 (proj1 (NoDup_cons _ _) Hnd)) as Hnd'.
    rewrite app_comm_cons, <-Permutation_middle, <-app_comm_cons in Hnd. apply NoDup_cons in Hnd as [Hn _]. assert (h <> n) as Hhn by set_solver +Hn.
    exists m, (<[n := []]> (<[h := l1 ++ l2]> L)). split_and!; [by apply works_run| |by rewrite lookup_insert_eq|].
    + eapply wrep_works; [exact Hw|done|eapply keeps_dom_run; [|exact Hrun]; eauto with kernel|..].
      * intros h' P Ho. destruct (decide (h' = n)) as [->|]; [by rewrite lookup_insert_eq|]. rewrite lookup_insert_ne by done. destruct (decide (h' = h)) as [->|]; [by rewrite lookup_insert_eq|]. rewrite lookup_insert_ne by done. by eapply H2.
      * intros x ndx Ex. destruct (decide (x = n)) as [->|Hx]; [left; by rewrite lookup_insert_eq|]. destruct (H3 _ _ Ex) as [Ix|(h' & l' & E' & Hx')].
        -- left. rewrite lookup_insert_ne by done. destruct (decide (x = h)) as [->|]; [rewrite Eh in Ix; by destruct l1|by rewrite lookup_insert_ne].
        -- right. exists h'. destruct (decide (h' = n)) as [->|]; [by destruct (lrep_entry_ne _ _ _ _ n l' H1 Eh); [set_solver +|]|]. rewrite lookup_insert_ne by done.
           destruct (decide (h' = h)) as [->|]; [rewrite lookup_insert_eq; exists (l1 ++ l2); split; [done|]; simplify_eq; set_solver +Hx' Hx|rewrite lookup_insert_ne by done; by exists l'].
      * intros h' l' x E' Hx. left. apply lookup_insert_Some in E' as [[_ <-]|[_ E']]; [set_solver +Hx|]. apply lookup_insert_Some in E' as [[<- <-]|[_ E']]; [|by exists l']. exists (l1 ++ n :: l2). set_solver +Hx Eh.
    + intros h' l' E' Hh'. rewrite lookup_insert_ne by done. destruct (decide (h' = h)) as [->|Hne]; [rewrite lookup_insert_eq; simplify_eq; by rewrite filter_ne|].
      rewrite lookup_insert_ne, E', (Hf h') by (done || (intros Hx; apply Hne; eapply (lr_disj _ _ H1 n); [by eapply own_entry|eapply own_entry; [done|set_solver +]])). done.
Qed.
Lemma empty_run s L n nd : wrep s L -> bnodes s !! n = Some nd -> exists e : bool, on_works (list_empty n) s = Some (e, s) /\ if e then L !! n = Some [] else exists h l, L !! h = Some l /\ n ∈ l.
Proof.
  intros [H1 _ H2 H3 H4] E. destruct (H3 _ _ E) as [Ei|(h & l & Eh & Hn)].
  - exists true. split; [|done]. apply works_read. by rewrite (heap_list_empty _ _ _ _ H1 Ei).
  - exists false. split; [|by exists h, l]. apply list_elem_of_split in Hn as (l1 & l2 & ->). apply works_read. by eapply heap_list_empty_entry.
Qed.
(** The cell of a new node or head. *)
Lemma fresh_run m L x c : lrep m L -> m !! x = None -> exists m', INIT_LIST_HEAD x (<[x := c]> m) = Some (tt, m') /\ lrep m' (<[x := []]> L) /\ L !! x = None.
Proof.
  intros Hr E. assert (forall h, ~ own L x h) as Ho.
  { intros h (l & El & Hx). destruct (dlist_allocated _ _ _ x (lr_dlist _ _ Hr _ _ El) Hx). congruence. }
  destruct (INIT_LIST_HEAD_dlist (<[x := c]> m) x) as (m' & Hrun & Hd & Hs); [by exists c; rewrite lookup_insert_eq|]. exists m'. split_and!; [done| |].
  - eapply lrep_fresh; [exact Hr|done|done|]. intros q Hq. rewrite Hs by done. apply lookup_insert_ne. set_solver +Hq.
  - destruct (L !! x) as [l|] eqn:El; [|done]. destruct (Ho x). by eapply own_head.
Qed.

(** ** The shape *)
Record shape D s : Prop := {
  sh_trees : trees D s;
  sh_works : exists L, wrep s L;
  sh_dead : NoDup (binder_dead_nodes s) /\ forall n, n ∈ binder_dead_nodes s <-> exists nd, bnodes s !! n = Some nd /\ n_proc nd = 0;
  sh_node : forall n nd, bnodes s !! n = Some nd -> address n /\ (n_proc nd <> 0 -> is_Some (bprocs s !! n_proc nd));
  sh_ref : forall r rf, brefs s !! r = Some rf -> address r /\ is_Some (bprocs s !! r_proc rf) /\ u32 (desc rf) = desc rf;
  sh_proc : forall P, is_Some (bprocs s !! P) -> P <> 0;
  sh_thread : forall T P, threads s !! T = Some P -> T <> 0 /\ bprocs s !! T = None /\ is_Some (bprocs s !! P);
}.
(** What the operations on nodes and references leave alone. *)
Record frame s s' : Prop := {
  fr_procs : dom (bprocs s') = dom (bprocs s);
  fr_threads : threads s' = threads s;
  fr_bufs : bbufs s' = bbufs s;
  fr_mgr : binder_context_mgr_node s' = binder_context_mgr_node s;
  fr_uid : binder_context_mgr_uid s' = binder_context_mgr_uid s;
}.
Lemma frame_refl s : frame s s. Proof. done. Qed.
Lemma frame_trans s1 s2 s3 : frame s1 s2 -> frame s2 s3 -> frame s1 s3. Proof. intros [] []. split; congruence. Qed.
Lemma frame_proc s s' P : frame s s' -> is_Some (bprocs s' !! P) <-> is_Some (bprocs s !! P).
Proof. intros [H _ _ _]. by rewrite <-!elem_of_dom, H. Qed.
Lemma frame_owner s s' h : frame s s' -> owner s' h = owner s h. Proof. intros [H1 H2 _ _]. by apply owner_ext. Qed.

Lemma shape_procs D D' s ps : shape D s -> trees D' (set_procs ps s) -> dom ps = dom (bprocs s) -> shape D' (set_procs ps s).
Proof.
  intros [H1 [L H2] H3 H4 H5 H6 H7] Ht Hd. assert (forall P, is_Some (ps !! P) <-> is_Some (bprocs s !! P)) as Hp by (intros P; by rewrite <-!elem_of_dom, Hd). split; [done|..]; cbn; try done.
  - exists L. eapply wrep_ext; [exact H2|done| |done]. intros h. by apply owner_ext.
  - intros n nd E. destruct (H4 _ _ E) as [? Hpr]. split; [done|]. intros ?. apply Hp. by apply Hpr.
  - intros r rf E. destruct (H5 _ _ E) as (? & Hpr & ?). split_and!; [done|by apply Hp|done].
  - intros P HP. by apply H6, Hp.
  - intros T P E. destruct (H7 _ _ E) as (? & HT & ?). split_and!; [done| |by apply Hp]. destruct (ps !! T) as [x|] eqn:Ex; [|done]. assert (is_Some (bprocs s !! T)) as [? ?] by (apply Hp; by eexists). congruence.
Qed.
Lemma shape_works D s m L : shape D s -> wrep (set_works m s) L -> shape D (set_works m s).
Proof. intros [[H1] H2 H3 H4 H5 H6 H7] Hw. split; try done. by exists L. Qed.
Lemma shape_node D s n nd nd' : shape D s -> bnodes s !! n = Some nd -> n_proc nd' = n_proc nd -> n_ptr nd' = n_ptr nd -> shape D (set_nodes (<[n := nd']> (bnodes s)) s).
Proof.
  intros [H1 [L H2] H3 H4 H5 H6 H7] E Hp Hq. assert (forall x y, <[n := nd']> (bnodes s) !! x = Some y -> exists y0, bnodes s !! x = Some y0 /\ n_proc y = n_proc y0 /\ n_ptr y = n_ptr y0) as Hback.
  { intros x y [[<- <-]|[_ Ex]]%lookup_insert_Some; [by exists nd|by exists y]. }
  assert (forall x y, bnodes s !! x = Some y -> exists y0, <[n := nd']> (bnodes s) !! x = Some y0 /\ n_proc y0 = n_proc y /\ n_ptr y0 = n_ptr y) as Hfwd.
  { intros x y Ex. destruct (decide (x = n)) as [->|Hne]; [exists nd'; rewrite lookup_insert_eq; split; [done|]; by simplify_eq|exists y; by rewrite lookup_insert_ne]. }
  split; cbn; try done.
  - eapply trees_ext; [exact H1|done|..].
    + intros [] P x _; try done. cbn. split; intros [(y & Ey & HP) Hd]; (split; [|done]); [apply Hback in Ey as (y0 & ? & ? & _)|apply Hfwd in Ey as (y0 & ? & ? & _)]; exists y0; (split; [done|congruence]).
    + intros [] P x (y & Ey & HP) Hd; try done. cbn. destruct (Hfwd _ _ Ey) as (y0 & -> & _ & Hpp). by rewrite Ey.
  - exists L. eapply wrep_ext; [exact H2|done|done|]. intros x. cbn. destruct (decide (x = n)) as [->|Hne]; [rewrite lookup_insert_eq, E; cbn; by rewrite Hp|by rewrite lookup_insert_ne].
  - destruct H3 as [Hn Hx]. split; [done|]. intros x. rewrite Hx. split; intros (y & Ey & HP); [apply Hfwd in Ey as (y0 & ? & ? & _)|apply Hback in Ey as (y0 & ? & ? & _)]; exists y0; (split; [done|congruence]).
  - intros x y (y0 & Ey & -> & _)%Hback. by apply H4.
Qed.
Lemma shape_ref D s r rf rf' : shape D s -> brefs s !! r = Some rf -> r_proc rf' = r_proc rf -> r_node rf' = r_node rf -> desc rf' = desc rf -> shape D (set_refs (<[r := rf']> (brefs s)) s).
Proof.
  intros [H1 [L H2] H3 H4 H5 H6 H7] E Hp Hq Hd. assert (forall x y, <[r := rf']> (brefs s) !! x = Some y -> exists y0, brefs s !! x = Some y0 /\ r_proc y = r_proc y0 /\ r_node y = r_node y0 /\ desc y = desc y0) as Hback.
  { intros x y [[<- <-]|[_ Ex]]%lookup_insert_Some; [by exists rf|by exists y]. }
  assert (forall x y, brefs s !! x = Some y -> exists y0, <[r := rf']> (brefs s) !! x = Some y0 /\ r_proc y0 = r_proc y /\ r_node y0 = r_node y /\ desc y0 = desc y) as Hfwd.
  { intros x y Ex. destruct (decide (x = r)) as [->|Hne]; [exists rf'; rewrite lookup_insert_eq; split; [done|]; by simplify_eq|exists y; by rewrite lookup_insert_ne]. }
  split; cbn; try done.
  - eapply trees_ext; [exact H1|done|..].
    + intros [] P x _; try done; cbn; (split; intros [(y & Ey & HP) Hd']; (split; [|done]); [apply Hback in Ey as (y0 & ? & ? & _)|apply Hfwd in Ey as (y0 & ? & ? & _)]; exists y0; (split; [done|congruence])).
    + intros [] P x (y & Ey & HP) Hd'; try done; cbn; destruct (Hfwd _ _ Ey) as (y0 & -> & _ & ? & ?); by rewrite Ey.
  - exists L. by eapply wrep_ext.
  - intros x y (y0 & Ey & -> & _ & ->)%Hback. by apply H5.
Qed.

(** A node on no list, in no tree and not among the dead is freed. *)
Lemma wrep_drop s L n nd : wrep s L -> bnodes s !! n = Some nd -> L !! n = Some [] -> wrep (set_works (delete n (works s)) (set_nodes (delete n (bnodes s)) s)) (delete n L).
Proof.
  intros [H1 H0 H2 H3 H4] E Ei. assert (forall h l, L !! h = Some l -> n ∉ l) as Hni by (intros h l El Hx; by eapply (lrep_entry_ne _ _ _ _ _ _ H1 El Hx Ei)). split; cbn.
  - apply heap_free; [by apply lrep_delete|by eapply idle_unowned].
  - intros x [c [Hx Ec]%lookup_delete_Some]. rewrite lookup_delete_ne by done. apply H0. by exists c.
  - intros h P Ho. destruct (H2 _ _ Ho) as [Hh Eh]. rewrite !lookup_delete_ne by congruence. done.
  - intros x ndx [Hx Ex]%lookup_delete_Some. destruct (H3 _ _ Ex) as [Ix|(h & l & El & Hxl)]; [left; by rewrite lookup_delete_ne|right]. exists h, l. split; [|done]. rewrite lookup_delete_ne; [done|]. intros <-. rewrite Ei in El. simplify_eq. set_solver +Hxl.
  - intros h l x [_ El]%lookup_delete_Some Hx. destruct (H4 _ _ _ El Hx) as (ndx & Ex & ?). exists ndx. rewrite lookup_delete_ne; [done|]. intros <-. by apply (Hni h l).
Qed.
Definition drop_node n ps s : binder := set_works (delete n (works s)) (set_nodes (delete n (bnodes s)) (set_dead (filter (λ x, x <> n) (binder_dead_nodes s)) (set_procs ps s))).
Lemma shape_drop D s n nd ps L : shape D s -> bnodes s !! n = Some nd -> wrep s L -> L !! n = Some [] -> trees ((By_ptr, n) :: D) (set_procs ps s) -> dom ps = dom (bprocs s) -> shape D (drop_node n ps s).
Proof.
  intros Hsh E Hw Ei Ht Hd. pose proof (shape_procs _ _ _ _ Hsh Ht Hd) as [H1 _ H3 H4 H5 H6 H7]. split; try done.
  - eapply trees_ext; [exact Ht|done|..].
    + intros k P x _. rewrite not_elem_of_cons. destruct k; cbn; [|split; [intros [? ?]|intros (? & _ & ?)]; split_and!; done || congruence..].
      split; [intros [(y & [Hne Ey]%lookup_delete_Some & Hy) Hx]; split; [by exists y|]; split; [congruence|done]|].
      intros ((y & Ey & Hy) & Hne & Hx). split; [|done]. exists y. rewrite lookup_delete_ne by congruence. done.
    + intros [] P x _ Hx; cbn; try done. rewrite lookup_delete_ne; [done|]. intros <-. set_solver +Hx.
  - exists (delete n L). eapply wrep_ext; [exact (wrep_drop _ _ _ _ Hw E Ei)|done| |done]. intros h. by apply owner_ext.
  - destruct H3 as [Hn Hx]. cbn in *. split; [by apply NoDup_filter|]. intros x. rewrite list_elem_of_filter, Hx. split.
    + intros (Hne & y & Ey & Hy). exists y. by rewrite lookup_delete_ne.
    + intros (y & [Hne Ey]%lookup_delete_Some & Hy). split; [done|by exists y].
  - intros x y Ey. cbn in Ey. apply lookup_delete_Some in Ey as [_ Ey]. by apply H4.
Qed.
(** A new node of a process. *)
Definition fresh s x : Prop := address x /\ bnodes s !! x = None /\ brefs s !! x = None /\ owner s x = None.
Lemma fresh_works s L x : wrep s L -> fresh s x -> works s !! x = None.
Proof. intros [_ H _ _ _] (_ & E1 & _ & E2). destruct (works s !! x) as [c|] eqn:E; [|done]. destruct (H x) as [[? ?]|[? ?]]; [by exists c|congruence..]. Qed.
Lemma wrep_node s m L n nd : wrep s L -> fresh s n -> lrep m (<[n := []]> L) -> dom m = {[n]} ∪ dom (works s) -> L !! n = None -> wrep (set_works m (set_nodes (<[n := nd]> (bnodes s)) s)) (<[n := []]> L).
Proof.
  intros [H1 H0 H2 H3 H4] (Ha & Fn & Fr & Fo) Hr Hd En. split; cbn; [done|..].
  - intros x Hx. destruct (decide (x = n)) as [->|Hne]; [left; by rewrite lookup_insert_eq|]. rewrite lookup_insert_ne by done. apply H0. rewrite <-elem_of_dom in Hx |- *. set_solver.
  - intros h P Ho. destruct (H2 _ _ Ho) as [? ?]. assert (h <> n) by (intros ->; unfold owner in *; cbn in *; congruence). by rewrite !lookup_insert_ne.
  - intros x ndx [[<- <-]|[Hne Ex]]%lookup_insert_Some; [left; by rewrite lookup_insert_eq|]. destruct (H3 _ _ Ex) as [Ix|(h & l & El & Hx)]; [left; by rewrite lookup_insert_ne|right]. exists h, l. split; [|done]. rewrite lookup_insert_ne; [done|congruence].
  - intros h l x [[<- <-]|[Hne El]]%lookup_insert_Some Hx; [set_solver +Hx|]. destruct (H4 _ _ _ El Hx) as (ndx & Ex & ? & ?). exists ndx. rewrite lookup_insert_ne by congruence. done.
Qed.
(** A new head, of a process or of a thread. *)
Lemma wrep_head s s' m L x : wrep s L -> bnodes s !! x = None -> owner s x = None -> lrep m (<[x := []]> L) -> dom m = {[x]} ∪ dom (works s) -> L !! x = None ->
  works s' = m -> bnodes s' = bnodes s -> is_Some (owner s' x) -> (forall y, y <> x -> owner s' y = owner s y) -> wrep s' (<[x := []]> L).
Proof.
  intros [H1 H0 H2 H3 H4] Fn Fo Hr Hd En Hm Hn Hx Hy. split; rewrite ?Hm, ?Hn; cbn; [done|..].
  - intros y Hc. destruct (decide (y = x)) as [->|Hne]; [by right|]. rewrite Hy by done. apply H0. rewrite <-elem_of_dom in Hc |- *. set_solver.
  - intros h P Ho. destruct (decide (h = x)) as [->|Hne]; [by rewrite lookup_insert_eq|]. rewrite Hy in Ho by done. rewrite lookup_insert_ne by done. by eapply H2.
  - intros y ndy Ey. assert (y <> x) by congruence. destruct (H3 _ _ Ey) as [Ix|(h & l & El & Hyl)]; [left; by rewrite lookup_insert_ne|right]. exists h, l. split; [|done]. rewrite lookup_insert_ne; [done|congruence].
  - intros h l y [[<- <-]|[Hne El]]%lookup_insert_Some Hyl; [set_solver +Hyl|]. rewrite Hy by done. by eapply H4.
Qed.
(** The head of an empty list goes. *)
Lemma wrep_free_head s s' L x : wrep s L -> L !! x = Some [] -> bnodes s !! x = None -> works s' = delete x (works s) -> bnodes s' = bnodes s -> owner s' x = None -> (forall y, y <> x -> owner s' y = owner s y) -> wrep s' (delete x L).
Proof.
  intros [H1 H0 H2 H3 H4] Ei Fn Hm Hn Hx Hy. split; rewrite ?Hm, ?Hn; cbn.
  - apply heap_free; [by apply lrep_delete|by eapply idle_unowned].
  - intros y [c [Hne Ec]%lookup_delete_Some]. rewrite Hy by done. apply H0. by exists c.
  - intros h P Ho. assert (h <> x) by congruence. rewrite Hy in Ho by done. rewrite lookup_delete_ne by done. by eapply H2.
  - intros y ndy Ey. assert (y <> x) by congruence. destruct (H3 _ _ Ey) as [Iy|(h & l & El & Hyl)]; [left; by rewrite lookup_delete_ne|right]. exists h, l. split; [|done]. rewrite lookup_delete_ne; [done|]. intros <-. rewrite Ei in El. simplify_eq. set_solver +Hyl.
  - intros h l y [Hne El]%lookup_delete_Some Hyl. rewrite Hy by done. by eapply H4.
Qed.
End BinderShape.
