(* ===== verification/BinderNodes.v ===== *)
(** * The operations on binder's nodes and references

    Each operation of BinderRef.v on nodes and references returns in every state with the
    [shape] of BinderShape.v and keeps it; what it does to the records is given by a function
    on them. *)
From stdpp Require Import prelude gmap list sorting.
From Stdlib Require Import ZArith Lia ZifyBool.
From S2P Require Import Prelude ListHead ListHeap Rbtree BinderRef BinderShape.
Open Scope Z_scope.

Module BinderNodes.
Import BinderRef BinderShape.
Implicit Types (s : binder) (nd : binder_node) (rf : binder_ref) (D : list (tree_kind * Z)).

(** The end of a step: the shape, the rest of the state, and the records. *)
Record step_to D s s' (ns : gmap Z binder_node) (rs : gmap Z binder_ref) : Prop := {
  st_shape : shape D s';
  st_frame : frame s s';
  st_nodes : bnodes s' = ns;
  st_refs : brefs s' = rs;
}.
Lemma step_refl D s : shape D s -> step_to D s s (bnodes s) (brefs s).
Proof. by split. Qed.
Lemma step_trans D D' s1 s2 s3 ns rs ns' rs' : step_to D s1 s2 ns rs -> step_to D' s2 s3 ns' rs' -> step_to D' s1 s3 ns' rs'.
Proof. intros [] []. split; try done. by eapply frame_trans. Qed.
Lemma set_node_step D s n nd nd' : shape D s -> bnodes s !! n = Some nd -> n_proc nd' = n_proc nd -> n_ptr nd' = n_ptr nd -> step_to D s (set_nodes (<[n := nd']> (bnodes s)) s) (<[n := nd']> (bnodes s)) (brefs s).
Proof. intros Hs E Hp Hq. split; [by eapply shape_node|done..]. Qed.
Lemma set_ref_step D s r rf rf' : shape D s -> brefs s !! r = Some rf -> r_proc rf' = r_proc rf -> r_node rf' = r_node rf -> desc rf' = desc rf -> step_to D s (set_refs (<[r := rf']> (brefs s)) s) (bnodes s) (<[r := rf']> (brefs s)).
Proof. intros Hs E Hp Hq Hd. split; [by eapply shape_ref|done..]. Qed.
Lemma set_works_step D s m L : shape D s -> wrep (set_works m s) L -> step_to D s (set_works m s) (bnodes s) (brefs s).
Proof. intros Hs Hw. split; [by eapply shape_works|done..]. Qed.

(** ** [binder_dec_node] *)
Definition dec_result (st internal : bool) nd : option binder_node :=
  let nd := dec_counts st internal nd in
  if (if st then negb (local_strong_refs nd =? 0) || negb (internal_strong_refs nd =? 0) else negb (local_weak_refs nd =? 0) || negb (bool_decide (refs nd = []))) then Some nd
  else if negb (n_proc nd =? 0) && (has_strong_ref nd || has_weak_ref nd) then Some nd
  else if bool_decide (refs nd = []) && (local_strong_refs nd =? 0) && (local_weak_refs nd =? 0) then None
  else Some nd.
Lemma dec_counts_id st internal nd : n_proc (dec_counts st internal nd) = n_proc nd /\ n_ptr (dec_counts st internal nd) = n_ptr nd.
Proof. by destruct st, internal. Qed.
Lemma proc_owner s P : is_Some (bprocs s !! P) -> owner s P = Some P.
Proof. intros [pr E]. unfold owner. by rewrite E. Qed.
Lemma dead_iff D s n nd : shape D s -> bnodes s !! n = Some nd -> n ∈ binder_dead_nodes s <-> n_proc nd = 0.
Proof. intros [_ _ [_ H] _ _ _ _] E. rewrite H. split; [intros (y & Ey & ?); congruence|by exists nd]. Qed.
(** The node is taken from its list and from its tree or the dead nodes, and freed. *)
Lemma free_node_run D s n nd : shape D s -> (By_ptr, n) ∉ D -> bnodes s !! n = Some nd ->
  exists s', (on_works (list_del_init n) ;; (if negb (n_proc nd =? 0) then on_tree By_ptr (n_proc nd) (rb_erase n) else hlist_del_dead n) ;; kfree_node n) s = Some (tt, s') /\
    step_to D s s' (delete n (bnodes s)) (brefs s).
Proof.
  intros Hs HD E. destruct (sh_works _ _ Hs) as [L Hw]. destruct (unqueue_run _ _ _ _ Hw E) as (m & L' & Hrun & Hw' & Ei & _). erewrite bind_run by exact Hrun.
  pose proof (shape_works _ _ _ _ Hs Hw') as Hs1. set (s1 := set_works m s) in *. assert (bnodes s1 !! n = Some nd) as E1 by done.
  destruct (Z.eqb_spec (n_proc nd) 0) as [H0|H0]; cbn [negb].
  - assert (n ∈ binder_dead_nodes s1) as Hd by (by apply (dead_iff _ _ _ _ Hs1 E1)). unfold hlist_del_dead. erewrite bind_run; [|erewrite bind_run by done; rewrite bool_decide_true by done; by erewrite bind_run by done].
    exists (drop_node n (bprocs s1) s1). split; [done|]. split; [|done..]. eapply shape_drop; [exact Hs1|done|exact Hw'|done| |done].
    eapply trees_ext; [apply Hs1|done| |done]. intros k P x HP. rewrite not_elem_of_cons. destruct k; cbn; [|split; [intros (? & _ & ?)|intros [? ?]]; split_and!; done || congruence..].
    split; [intros (? & ? & ?); done|]. intros [(y & Ey & Hy) ?]. split_and!; [by exists y| |done]. intros [= ->]. assert (y = nd) as -> by congruence. apply (sh_proc _ _ Hs1 P HP). congruence.
  - assert (is_Some (bprocs s1 !! n_proc nd)) as HP by (by apply (sh_node _ _ Hs1 n nd E1)). destruct (tree_erase_run D s1 By_ptr (n_proc nd) n (sh_trees _ _ Hs1) HP) as (ps & Hrun2 & Hdom & Ht); [by exists nd|done|].
    erewrite bind_run by exact Hrun2. exists (drop_node n ps s1). assert (n ∉ binder_dead_nodes s1) as Hnd by (by rewrite (dead_iff _ _ _ _ Hs1 E1)). split.
    + unfold drop_node. rewrite (filter_ne_notin _ _ Hnd). done.
    + split; [by eapply shape_drop|by split|done..].
Qed.
Lemma dec_node_run D s n nd st internal : shape D s -> (By_ptr, n) ∉ D -> bnodes s !! n = Some nd ->
  exists s', binder_dec_node n st internal s = Some (0, s') /\ step_to D s s' (partial_alter (λ _, dec_result st internal nd) n (bnodes s)) (brefs s).
Proof.
  intros Hs HD E. unfold binder_dec_node, dec_result. erewrite bind_run by (by eapply store_node_run). set (nd1 := dec_counts st internal nd). destruct (dec_counts_id st internal nd) as [Hp Hq].
  pose proof (set_node_step _ _ _ _ nd1 Hs E Hp Hq) as Hst. set (s1 := set_nodes _ s) in *. assert (bnodes s1 !! n = Some nd1) as E1 by (cbn; by rewrite lookup_insert_eq). pose proof (st_shape _ _ _ _ _ Hst) as Hs1.
  erewrite bind_run by (by apply load_node_run). destruct (if st then _ else _); [by exists s1|]. destruct (negb (n_proc nd1 =? 0) && _) eqn:Eq.
  - destruct (sh_works _ _ Hs1) as [L Hw]. destruct (empty_run _ _ _ _ Hw E1) as (e & Hrun & He). erewrite bind_run by exact Hrun. destruct e; [|exists s1; by erewrite bind_run by done].
    apply andb_true_iff in Eq as [H0 _]. assert (n_proc nd1 <> 0) as H1 by lia.
    destruct (queue_run _ _ _ _ (n_proc nd1) Hw E1 He H1) as (m & L' & Hrun2 & Hw'); [apply proc_owner; by apply (sh_node _ _ Hs1 n nd1 E1)|]. erewrite bind_run by exact Hrun2.
    eexists. split; [done|]. eapply step_trans; [exact Hst|exact (set_works_step D s1 m L' Hs1 Hw')].
  - destruct (bool_decide _ && _ && _); [|by exists s1]. destruct (free_node_run D s1 n nd1 Hs1 HD E1) as (s' & Hrun & Hst'). exists s'. split.
    + apply bind_inv in Hrun as ([] & sa & Ha & Hrun). mrun Ha. apply bind_inv in Hrun as ([] & sb & Hb & Hrun). mrun Hb. by mrun Hrun.
    + eapply step_trans; [exact Hst|]. cbn in Hst'. destruct Hst' as [? ? Hn ?]. split; try done. rewrite Hn. etrans; [apply delete_insert_eq|reflexivity].
Qed.

(** ** [binder_inc_node] *)
Definition inc_counts (st internal : bool) nd : binder_node :=
  if st then if internal then with_internal (internal_strong_refs nd + 1) nd else with_local_strong (local_strong_refs nd + 1) nd
  else if internal then nd else with_local_weak (local_weak_refs nd + 1) nd.
(** A first strong reference that nobody can tell the owner about. *)
Definition inc_refused s (n : Z) nd (st internal : bool) (target : Z) : bool :=
  st && (internal && (target =? 0) && (internal_strong_refs nd =? 0) && negb ((n =? binder_context_mgr_node s) && has_strong_ref nd)).
Definition list_for s (target : Z) nd : Prop := target = 0 \/ (n_proc nd <> 0 /\ owner s target = Some (n_proc nd)).
Lemma inc_counts_id st internal nd : n_proc (inc_counts st internal nd) = n_proc nd /\ n_ptr (inc_counts st internal nd) = n_ptr nd.
Proof. by destruct st, internal. Qed.
Lemma requeue_run D s n nd target : shape D s -> bnodes s !! n = Some nd -> n_proc nd <> 0 -> owner s target = Some (n_proc nd) -> exists s', requeue n target s = Some (tt, s') /\ step_to D s s' (bnodes s) (brefs s).
Proof.
  intros Hs E H0 Ho. destruct (sh_works _ _ Hs) as [L Hw]. destruct (unqueue_run _ _ _ _ Hw E) as (m & L' & Hrun & Hw' & Ei & _). unfold requeue. erewrite bind_run by exact Hrun.
  pose proof (set_works_step _ _ _ _ Hs Hw') as Hst. destruct (queue_run (set_works m s) L' n nd target Hw' E Ei H0 Ho) as (m2 & L2 & Hrun2 & Hw2). rewrite Hrun2. eexists. split; [done|].
  eapply step_trans; [exact Hst|]. exact (set_works_step _ _ _ _ (st_shape _ _ _ _ _ Hst) Hw2).
Qed.
Lemma inc_node_run D s n nd st internal target : shape D s -> bnodes s !! n = Some nd -> list_for s target nd ->
  exists ret s', binder_inc_node n st internal target s = Some (ret, s') /\
    step_to D s s' (if inc_refused s n nd st internal target then bnodes s else <[n := inc_counts st internal nd]> (bnodes s)) (brefs s) /\
    if st then ret = (if inc_refused s n nd st internal target then - EINVAL else 0) else ret = 0 \/ (ret = - EINVAL /\ target = 0).
Proof.
  intros Hs E Hl. unfold binder_inc_node, inc_refused. erewrite bind_run by (by apply load_node_run). erewrite bind_run by done. destruct (inc_counts_id st internal nd) as [Hp Hq].
  pose proof (set_node_step _ _ _ _ _ Hs E Hp Hq) as Hst. set (s1 := set_nodes _ s) in *. pose proof (st_shape _ _ _ _ _ Hst) as Hs1. assert (bnodes s1 !! n = Some (inc_counts st internal nd)) as E1 by (cbn; by rewrite lookup_insert_eq).
  destruct st.
  - rewrite andb_true_l. destruct (internal && _ && _ && _); [exists (- EINVAL), s; split_and!; [done|by apply step_refl|done]|].
    erewrite bind_run; [|rewrite (store_node_run _ _ _ _ E); by instantiate (1 := s1); destruct internal].
    destruct (negb (has_strong_ref nd) && negb (target =? 0)) eqn:Eq; [|exists 0, s1; by erewrite bind_run by done].
    destruct Hl as [->|[H0 Ho]]; [lia|]. rewrite <-Hp in H0, Ho. destruct (requeue_run D s1 n _ target Hs1 E1 H0 Ho) as (s' & Hrun & Hst'). mrun Hrun. exists 0, s'. split_and!; [done| |done]. by eapply step_trans.
  - rewrite andb_false_l. erewrite (bind_run _ _ _ tt s1); [|destruct internal; [|by rewrite (store_node_run _ _ _ _ E)]; unfold s1; cbn; rewrite insert_id by done; by destruct s].
    destruct (has_weak_ref nd); [exists 0, s1; split_and!; [done..|by left]|]. destruct (sh_works _ _ Hs1) as [L Hw]. destruct (empty_run _ _ _ _ Hw E1) as (e & Hrun & He). erewrite bind_run by exact Hrun.
    destruct e; [|exists 0, s1; split_and!; [done..|by left]]. destruct (Z.eqb_spec target 0) as [H0|H0]; [exists (- EINVAL), s1; split_and!; [done..|by right]|].
    destruct Hl as [->|[H1 Ho]]; [done|]. rewrite <-Hp in H1, Ho. destruct (queue_run s1 L n _ target Hw E1 He H1 Ho) as (m & L' & Hrun2 & Hw'). erewrite bind_run by exact Hrun2. exists 0. eexists. split_and!; [done| |by left].
    eapply step_trans; [exact Hst|]. exact (set_works_step D s1 m L' Hs1 Hw').
Qed.

(** ** [binder_new_node] *)
Lemma on_tree_local {A} k P (f : M rb_state A) s1 s2 a ps : bprocs s2 = bprocs s1 -> on_tree k P f s1 = Some (a, set_procs ps s1) -> on_tree k P f s2 = Some (a, set_procs ps s2).
Proof.
  intros Hb. unfold on_tree. rewrite Hb. destruct (bprocs s1 !! P) as [pr|]; [|done]. destruct (f _) as [[a' t]|]; [|done]. intros H.
  pose proof (f_equal (fmap (λ r, bprocs r.2)) H) as Hp. cbn in Hp. injection Hp as <-. assert (a' = a) as -> by congruence. done.
Qed.
Lemma tree_insert_local k P x pa li s1 s2 ps : bprocs s2 = bprocs s1 -> tree_insert k P x pa li s1 = Some (tt, set_procs ps s1) -> tree_insert k P x pa li s2 = Some (tt, set_procs ps s2).
Proof.
  intros Hb ([] & sa & Ha & H)%bind_inv. unfold tree_insert. assert (exists pa', sa = set_procs pa' s1) as [ps1 ->].
  { unfold on_tree in Ha. destruct (bprocs s1 !! P); [|done]. destruct (rb_link_node _ _ _ _) as [[? ?]|]; [|done]. injection Ha as _ <-. by eexists. }
  erewrite bind_run by (by eapply on_tree_local). pose proof (on_tree_local k P (rb_insert_color x) (set_procs ps1 s1) (set_procs ps1 s2) tt ps eq_refl) as H2. by apply H2.
Qed.
Definition new_node (P ptr cookie : Z) : binder_node := Node P ptr cookie [] 0 0 0 false false false false.
Lemma trees_new_node s n nd : shape [] s -> bnodes s !! n = None -> trees [(By_ptr, n)] (set_nodes (<[n := nd]> (bnodes s)) s) /\
  forall k P kv p0 p li, hole [] s k P kv p0 p li -> hole [(By_ptr, n)] (set_nodes (<[n := nd]> (bnodes s)) s) k P kv p0 p li.
Proof.
  intros Hs Fn. assert (forall k P x, member (set_nodes (<[n := nd]> (bnodes s)) s) k P x /\ (k, x) ∉ [(By_ptr, n)] <-> member s k P x /\ (k, x) ∉ []) as Hm.
  { intros k P x. rewrite not_elem_of_cons. pose proof (not_elem_of_nil (k, x)). destruct k; cbn; [|intuition congruence..]. split.
    - intros [(y & Ey & Hy) [Hne _]]. split; [|done]. exists y. rewrite lookup_insert_ne in Ey by congruence. done.
    - intros [(y & Ey & Hy) _]. assert (x <> n) by congruence. split; [|split; [congruence|done]]. exists y. by rewrite lookup_insert_ne. }
  assert (forall k P x, member s k P x -> (k, x) ∉ [] -> key (set_nodes (<[n := nd]> (bnodes s)) s) k x = key s k x) as Hk.
  { intros [] P x (y & Ey & _) _; try done. cbn. by rewrite lookup_insert_ne by congruence. }
  split; [eapply trees_ext; [apply Hs|done|intros; apply Hm|apply Hk]|]. intros. eapply hole_ext; [done|done|intros; apply Hm|intros; by eapply Hk].
Qed.
Lemma new_node_shape s n nd ps m L : shape [] s -> fresh s n -> wrep s L -> is_Some (bprocs s !! n_proc nd) -> trees [] (set_procs ps (set_nodes (<[n := nd]> (bnodes s)) s)) -> dom ps = dom (bprocs s) ->
  lrep m (<[n := []]> L) -> dom m = {[n]} ∪ dom (works s) -> L !! n = None -> shape [] (set_works m (set_nodes (<[n := nd]> (bnodes s)) (set_procs ps s))).
Proof.
  intros [H1 _ H3 H4 H5 H6 H7] Hf Hw HP Ht Hd Hr Hdm En. pose proof (H6 _ HP) as H0. destruct Hf as (Ha & Fn & Fr & Fo). assert (forall P, is_Some (ps !! P) <-> is_Some (bprocs s !! P)) as Hp by (intros P; by rewrite <-!elem_of_dom, Hd).
  split; cbn; try done.
  - by eapply trees_ext.
  - exists (<[n := []]> L). eapply wrep_ext; [by apply (wrep_node s m L n nd)|done| |done]. intros h. by apply owner_ext.
  - destruct H3 as [Hn Hx]. split; [done|]. intros x. rewrite Hx. split; intros (y & Ey & Hy); exists y; (split; [|done]).
    + rewrite lookup_insert_ne by congruence. done.
    + apply lookup_insert_Some in Ey as [[<- <-]|[_ Ey]]; [done|done].
  - intros x y [[<- <-]|[_ Ey]]%lookup_insert_Some; [split; [done|]; intros _; by apply Hp|]. destruct (H4 _ _ Ey) as [? Hq]. split; [done|]. intros ?. by apply Hp, Hq.
  - intros r rf E. destruct (H5 _ _ E) as (? & ? & ?). split_and!; [done|by apply Hp|done].
  - intros P HP'. by apply H6, Hp.
  - intros T P E. destruct (H7 _ _ E) as (? & HT & ?). split_and!; [done| |by apply Hp]. destruct (ps !! T) as [x|] eqn:Ex; [|done]. assert (is_Some (bprocs s !! T)) as [? ?] by (apply Hp; by eexists). congruence.
Qed.
Lemma new_node_run s P ptr cookie mem : shape [] s -> is_Some (bprocs s !! P) -> mem = 0 \/ fresh s mem ->
  exists x s', binder_new_node P ptr cookie mem s = Some (x, s') /\
    ((x = 0 /\ s' = s /\ (mem = 0 \/ exists n nd, bnodes s !! n = Some nd /\ n_proc nd = P /\ n_ptr nd = ptr)) \/
     (x = mem /\ x <> 0 /\ fresh s mem /\ (forall n nd, bnodes s !! n = Some nd -> n_proc nd = P -> n_ptr nd <> ptr) /\ step_to [] s s' (<[mem := new_node P ptr cookie]> (bnodes s)) (brefs s))).
Proof.
  intros Hs HP Hmem. unfold binder_new_node. destruct (place_run [] s By_ptr P ptr 0 (sh_trees _ _ Hs) HP) as (w & Hrun & Hw). mrun Hrun. destruct w as [x|[parent link]].
  { exists 0, s. split; [done|]. left. split_and!; [done..|]. right. destruct Hw as (_ & (nd & E & Hp) & _ & Hk). exists x, nd. cbn in Hk. rewrite E in Hk. done. }
  destruct (Z.eqb_spec mem 0) as [H0|H0]; [exists 0, s; split; [done|left; by split_and!; [..|left]]|]. destruct Hmem as [|Hf]; [done|]. pose proof Hf as (Ha & Fn & Fr & Fo).
  set (nd := new_node P ptr cookie). set (sx := set_nodes (<[mem := nd]> (bnodes s)) s). destruct (trees_new_node s mem nd Hs Fn) as [Ht Hh]. fold sx in Ht, Hh.
  destruct (tree_insert_run [] sx By_ptr P mem ptr 0 parent link) as (ps & Hins & Hdom & Ht'); [done|apply not_elem_of_nil|by apply Hh|done|exists nd; cbn; by rewrite lookup_insert_eq|cbn; by rewrite lookup_insert_eq|apply Ha|].
  destruct (sh_works _ _ Hs) as [L HwL]. pose proof (fresh_works _ _ _ HwL Hf) as Fw. destruct (fresh_run (works s) L mem (ListHead 0 0) (wr_rep _ _ HwL) Fw) as (m & Hinit & Hr & En).
  exists mem, (set_works m (set_nodes (<[mem := nd]> (bnodes s)) (set_procs ps s))). split.
  - unfold kzalloc_node. erewrite bind_run by done. erewrite bind_run by (eapply tree_insert_local; [|exact Hins]; done). erewrite bind_run by (eapply store_node_run; cbn; by rewrite lookup_insert_eq).
    erewrite bind_run by (apply works_run; cbn; exact Hinit). cbn. by rewrite insert_insert_eq.
  - right. split_and!; [done..| |].
    + intros n ndn E Hp Hq. eapply (hole_free _ _ _ _ _ _ _ _ n Hw); [by exists ndn|apply not_elem_of_nil|cbn; by rewrite E].
    + split; [|by split|done..]. assert (dom m = {[mem]} ∪ dom (works s)) as Hdm.
      { apply keeps_dom_init in Hinit. cbn in Hinit. by rewrite Hinit, dom_insert_L. }
      by eapply new_node_shape.
Qed.

(** ** [binder_get_ref_for_node] *)
Definition unused_desc s (P d0 d : Z) : Prop :=
  d0 <= d /\ (forall r rf, brefs s !! r = Some rf -> r_proc rf = P -> desc rf <> d) /\ forall v, d0 <= v < d -> exists r rf, brefs s !! r = Some rf /\ r_proc rf = P /\ desc rf = v.
(** A new reference is in none of its trees; the others are where they were. *)
Lemma member_new_ref s r rf k P x : brefs s !! r = None -> member (set_refs (<[r := rf]> (brefs s)) s) k P x /\ (k, x) ∉ [(By_node, r); (By_desc, r)] <-> member s k P x /\ (k, x) ∉ [].
Proof.
  intros Fr. rewrite !not_elem_of_cons. pose proof (not_elem_of_nil (k, x)) as Hnil. destruct k; cbn; [intuition congruence|..]; (split;
    [intros [(y & Ey & Hy) (H1 & H2 & _)]; split; [|done]; exists y; rewrite lookup_insert_ne in Ey by congruence; done|
     intros [(y & Ey & Hy) _]; assert (x <> r) by congruence; split; [exists y; by rewrite lookup_insert_ne|split_and!; congruence || done]]).
Qed.
Lemma key_new_ref s r rf k P x : brefs s !! r = None -> member s k P x -> key (set_refs (<[r := rf]> (brefs s)) s) k x = key s k x.
Proof. intros Fr. destruct k; intros (y & Ey & _); cbn; [done|..]; by rewrite lookup_insert_ne by congruence. Qed.
Lemma new_ref_shape s r rf ps : shape [] s -> fresh s r -> is_Some (bprocs s !! r_proc rf) -> u32 (desc rf) = desc rf -> trees [] (set_procs ps (set_refs (<[r := rf]> (brefs s)) s)) -> dom ps = dom (bprocs s) ->
  shape [] (set_procs ps (set_refs (<[r := rf]> (brefs s)) s)).
Proof.
  intros [H1 [L H2] H3 H4 H5 H6 H7] Hf HP Hd Ht Hdom. destruct Hf as (Ha & Fn & Fr & Fo). assert (forall P, is_Some (ps !! P) <-> is_Some (bprocs s !! P)) as Hp by (intros P; by rewrite <-!elem_of_dom, Hdom).
  split; cbn; try done.
  - exists L. eapply wrep_ext; [exact H2|done| |done]. intros h. by apply owner_ext.
  - intros x y Ey. destruct (H4 _ _ Ey) as [? Hq]. split; [done|]. intros ?. by apply Hp, Hq.
  - intros x y [[<- <-]|[_ Ey]]%lookup_insert_Some; [split_and!; [done|by apply Hp|done]|]. destruct (H5 _ _ Ey) as (? & ? & ?). split_and!; [done|by apply Hp|done].
  - intros P HP'. by apply H6, Hp.
  - intros T P E. destruct (H7 _ _ E) as (? & HT & ?). split_and!; [done| |by apply Hp]. destruct (ps !! T) as [x|] eqn:Ex; [|done]. assert (is_Some (bprocs s !! T)) as [? ?] by (apply Hp; by eexists). congruence.
Qed.
(** The first descent, that links the reference by its node. *)
Lemma link_by_node_run s P n r parent link : shape [] s -> fresh s r -> is_Some (bprocs s !! P) -> hole [] s By_node P n 0 parent link ->
  let s1 := set_refs (<[r := Ref P n 0 0 0]> (brefs s)) s in
  exists ps, tree_insert By_node P r parent link s1 = Some (tt, set_procs ps s1) /\ dom ps = dom (bprocs s) /\ trees [(By_desc, r)] (set_procs ps s1) /\
    ((forall y, member s By_desc P y -> y = r) -> parent = 0).
Proof.
  intros Hs Hf HP Hh s1. pose proof Hf as (Ha & Fn & Fr & Fo). assert (trees [(By_node, r); (By_desc, r)] s1) as Ht.
  { eapply trees_ext; [apply Hs|done|intros; by apply member_new_ref|intros k Q x Hm _; by eapply key_new_ref]. }
  assert (hole [(By_node, r); (By_desc, r)] s1 By_node P n 0 parent link) as Hh1.
  { eapply hole_ext; [exact Hh|done|intros; by apply member_new_ref|intros x Hm _; by eapply key_new_ref]. }
  destruct (tree_insert_run [(By_desc, r)] s1 By_node P r n 0 parent link) as (ps & Hrun & Hdom & Ht'); try done.
  - set_solver +.
  - exists (Ref P n 0 0 0). cbn. by rewrite lookup_insert_eq.
  - cbn. by rewrite lookup_insert_eq.
  - apply Ha.
  - exists ps. split_and!; [done..|]. intros Hall. destruct Hh as (pr & K & _ & _ & _ & _ & -> & _ & _ & Hx & _). destruct K as [|f K]; [done|]. exfalso. pose proof (cptr_in (f :: K) ltac:(done)) as Hin.
    rewrite cids_perm, Hx in Hin. destruct Hin as [Hm _]. pose proof (Hall _ Hm) as Er. rewrite Er in Hm. destruct Hm as (y & Ey & _). congruence.
Qed.
(** The walk over the descriptors, with the reference still outside the tree. *)
Lemma desc_search_run s P r d0 : trees [(By_desc, r)] s -> is_Some (bprocs s !! P) -> (forall x rf, brefs s !! x = Some rf -> address x /\ 0 <= desc rf) -> 0 <= d0 <= 1 ->
  exists d, (fuel ← tree_fuel By_desc P; n ← on_tree By_desc P rb_first; desc_loop fuel P n d0) s = Some (d, s) /\ d0 <= d <= 2 ^ 31 /\
    (forall x rf, brefs s !! x = Some rf -> r_proc rf = P -> x <> r -> desc rf <> d) /\ (forall v, d0 <= v < d -> exists x rf, brefs s !! x = Some rf /\ r_proc rf = P /\ x <> r /\ desc rf = v).
Proof.
  intros [Ht] [pr E] Hrf Hd0. destruct (Ht P pr By_desc E) as (l & Hok & Hs & Hx). pose proof Hok as (t & Hz & _ & Hi).
  assert (forall x, x ∈ l <-> exists rf, brefs s !! x = Some rf /\ r_proc rf = P /\ x <> r) as Hl.
  { intros x. rewrite Hx, not_elem_of_cons. pose proof (not_elem_of_nil (By_desc, x)). cbn. split; [intros [(rf & ? & ?) [Hne _]]; exists rf; split_and!; [done..|congruence]|intros (rf & ? & ? & ?); split; [by exists rf|split; [congruence|done]]]. }
  assert (NoDup l) as Hn by (destruct Hz as [_ _ Hn _]; cbn in Hn; by rewrite Hi in Hn).
  assert (Z.of_nat (length l) < 2 ^ 30) as Hlen by (apply address_count; [done|]; intros x (rf & Ex & _)%Hl; by eapply Hrf). pose proof (zrep_fuel _ _ _ Hz) as Hfuel. cbn in Hfuel. rewrite Hi in Hfuel.
  erewrite bind_run by (by apply tree_fuel_run). erewrite bind_run by (by eapply tree_first_run).
  destruct (desc_search s P pr l E Hok (λ x Hxl, proj1 (proj1 (Hx x) Hxl)) Hs (S (size (nodes (get_tree By_desc pr)))) d0) as (d & Hrun & (H1 & H2 & H3) & H4); [cbn in *; lia|done|done| |].
  { intros x (rf & Ex & _)%Hl. cbn. rewrite Ex. by eapply Hrf. }
  exists d. split_and!; [exact Hrun|done|done|..].
  - intros x rf Ex Hp Hne <-. apply H2, list_elem_of_fmap. exists x. split; [cbn; by rewrite Ex|]. apply Hl. by exists rf.
  - intros v Hv. apply H3, list_elem_of_fmap in Hv as (x & -> & (rf & Ex & Hp & Hne)%Hl). exists x, rf. split_and!; [done..|]. cbn. by rewrite Ex.
Qed.
(** The second descent, that links it by its descriptor. *)
Lemma link_by_desc_run s P r n d parent : trees [(By_desc, r)] s -> is_Some (bprocs s !! P) -> brefs s !! r = Some (Ref P n d 0 0) -> valid r ->
  (forall x rf, brefs s !! x = Some rf -> r_proc rf = P -> x <> r -> desc rf <> d) -> ((forall x rf, brefs s !! x = Some rf -> r_proc rf = P -> x = r) -> parent = 0) ->
  exists pa li ps, place By_desc P d parent s = Some (inr (pa, li), s) /\ tree_insert By_desc P r pa li s = Some (tt, set_procs ps s) /\ dom ps = dom (bprocs s) /\ trees [] (set_procs ps s).
Proof.
  intros Ht HP E Hv Hd H0. destruct (place_run _ s By_desc P d parent Ht HP) as (w & Hrun & Hw). destruct w as [x|[pa li]].
  - exfalso. destruct Hw as (_ & (rf & Ex & Hp) & Hx & Hk). cbn in Hk. rewrite Ex in Hk. apply (Hd x rf); [done..| |done]. intros ->. set_solver +Hx.
  - destruct (tree_insert_run [] s By_desc P r d parent pa li Ht (not_elem_of_nil _) Hw) as (ps & Hins & Hdom & Ht').
    + intros Hall. apply H0. intros x rf Ex Hp. specialize (Hall x (ex_intro _ rf (conj Ex Hp))). set_solver +Hall.
    + by exists (Ref P n d 0 0).
    + cbn. by rewrite E.
    + done.
    + by exists pa, li, ps.
Qed.
Lemma trees_desc s r rf rf' : trees [(By_desc, r)] s -> brefs s !! r = Some rf -> r_proc rf' = r_proc rf -> r_node rf' = r_node rf -> trees [(By_desc, r)] (set_refs (<[r := rf']> (brefs s)) s).
Proof.
  intros Ht E Hp Hn. eapply trees_ext; [exact Ht|done|..].
  - intros [] P x _; try done; cbn; (split; intros [(y & Ey & Hy) Hx]; (split; [|done])); destruct (decide (x = r)) as [->|Hne]; rewrite ?lookup_insert_eq, ?lookup_insert_ne in * by done; [exists rf|by exists y|exists rf'|by exists y|exists rf|by exists y|exists rf'|by exists y]; simplify_eq; done.
  - intros [] P x (y & Ey & Hy) Hx; cbn; [done|..]; (destruct (decide (x = r)) as [->|Hne]; [rewrite lookup_insert_eq, E|by rewrite lookup_insert_ne]); [set_solver +Hx|done].
Qed.
Lemma get_ref_for_node_run s P n nd mem : shape [] s -> is_Some (bprocs s !! P) -> bnodes s !! n = Some nd -> mem = 0 \/ fresh s mem ->
  exists r s', binder_get_ref_for_node P n mem s = Some (r, s') /\
    ((s' = s /\ r <> 0 /\ exists rf, brefs s !! r = Some rf /\ r_proc rf = P /\ r_node rf = n) \/
     ((forall x rf, brefs s !! x = Some rf -> r_proc rf = P -> r_node rf <> n) /\
      ((r = 0 /\ mem = 0 /\ s' = s) \/
       (r = mem /\ r <> 0 /\ fresh s mem /\ exists d, unused_desc s P (if n =? binder_context_mgr_node s then 0 else 1) d /\ d <= 2 ^ 31 /\
         step_to [] s s' (<[n := with_refs (r :: refs nd) nd]> (bnodes s)) (<[r := Ref P n d 0 0]> (brefs s)))))).
Proof.
  intros Hs HP E Hmem. unfold binder_get_ref_for_node. destruct (place_run [] s By_node P n 0 (sh_trees _ _ Hs) HP) as (w & Hrun & Hw). mrun Hrun. destruct w as [r|[parent link]].
  { exists r, s. split; [done|]. left. destruct Hw as (H0 & (rf & Er & Hp) & _ & Hk). cbn in Hk. rewrite Er in Hk. split_and!; [done..|]. by exists rf. }
  assert (forall x rf, brefs s !! x = Some rf -> r_proc rf = P -> r_node rf <> n) as Hno.
  { intros x rf Ex Hp Hn. eapply (hole_free _ _ _ _ _ _ _ _ x Hw); [by exists rf|apply not_elem_of_nil|cbn; by rewrite Ex]. }
  destruct (Z.eqb_spec mem 0) as [H0|H0]; [exists 0, s; split; [done|]; right; split; [done|by left]|]. destruct Hmem as [|Hf]; [done|]. pose proof Hf as (Ha & Fn & Fr & Fo).
  erewrite bind_run by done. destruct (link_by_node_run s P n mem parent link Hs Hf HP Hw) as (ps & Hins & Hdom & Ht & Hpar). set (s1 := set_refs _ s) in *. mrun Hins. erewrite bind_run by done.
  set (s2 := set_procs ps s1) in *. assert (is_Some (bprocs s2 !! P)) as HP2 by (cbn; by rewrite <-elem_of_dom, Hdom, elem_of_dom).
  assert (forall x rf, brefs s2 !! x = Some rf -> x <> mem -> brefs s !! x = Some rf) as Hback by (intros x rf Ex Hx; cbn in Ex; by rewrite lookup_insert_ne in Ex).
  destruct (desc_search_run s2 P mem (if n =? binder_context_mgr_node s2 then 0 else 1) Ht HP2) as (d & Hsearch & Hd & Hnew & Hall); [|by destruct (n =? _)|].
  { intros x rf Ex. destruct (decide (x = mem)) as [->|Hx]; [cbn in Ex; rewrite lookup_insert_eq in Ex; by simplify_eq|]. apply Hback in Ex; [|done]. destruct (sh_ref _ _ Hs x rf Ex) as (? & _ & <-). split; [done|apply u32_range]. }
  apply bind_inv in Hsearch as (fu & sa & Ha1 & Hsearch). mrun Ha1. apply bind_inv in Hsearch as (x0 & sb & Hb1 & Hsearch). mrun Hb1. mrun Hsearch.
  assert (brefs s2 !! mem = Some (Ref P n 0 0 0)) as Em by (cbn; by rewrite lookup_insert_eq). erewrite bind_run by (by eapply store_ref_run). set (s3 := set_refs _ s2).
  assert (s3 = set_procs ps (set_refs (<[mem := Ref P n d 0 0]> (brefs s)) s)) as E3 by (unfold s3; cbn; by rewrite insert_insert_eq).
  assert (forall x rf, brefs s3 !! x = Some rf -> x <> mem -> brefs s !! x = Some rf) as Hback3 by (intros x rf; rewrite E3; cbn; intros Ex Hx; by rewrite lookup_insert_ne in Ex).
  destruct (link_by_desc_run s3 P mem n d parent) as (pa & li & ps2 & Hpl & Hins2 & Hdom2 & Ht2).
  - by apply (trees_desc s2 mem (Ref P n 0 0 0)).
  - done.
  - cbn. by rewrite lookup_insert_eq.
  - apply Ha.
  - intros x rf Ex Hp Hx. apply (Hnew x rf); [|done..]. apply Hback3 in Ex; [|done]. cbn. by rewrite lookup_insert_ne.
  - intros Honly. apply Hpar. intros y (rf & Ey & Hp). apply (Honly y rf); [|done]. rewrite E3. cbn. assert (y <> mem) by congruence. by rewrite lookup_insert_ne.
  - mrun Hpl. mrun Hins2. rewrite E3 in Hdom2, Ht2 |- *. cbn in Hdom2. assert (n <> 0) as Hn0 by (apply (sh_node _ _ Hs n nd E)). rewrite (proj2 (Z.eqb_neq _ _) Hn0). cbn [negb].
    rewrite bind_assoc. erewrite bind_run by (by apply load_node_run). erewrite bind_run by (by eapply store_node_run).
    exists mem. eexists. split; [done|]. right. split; [done|]. right. split_and!; [done..|]. exists d. split_and!; [|lia|].
    + split_and!; [exact (proj1 Hd)| |].
      * intros x rf Ex Hp. assert (x <> mem) by congruence. apply (Hnew x rf); [cbn; by rewrite lookup_insert_ne|done..].
      * intros v Hv. destruct (Hall v Hv) as (x & rf & Ex & Hp & Hx & Hd'). exists x, rf. split_and!; [|done..]. by apply Hback.
    + assert (shape [] (set_procs ps2 (set_refs (<[mem := Ref P n d 0 0]> (brefs s)) s))) as Hs4 by (apply new_ref_shape; [done..|cbn; apply u32_small; destruct (n =? _); lia|exact Ht2|by rewrite Hdom2]).
      eapply step_trans; [|apply (set_node_step _ _ n nd _ Hs4); done]. split; [done| |done..]. split; [cbn; congruence|done..].
Qed.

(** ** [binder_delete_ref] *)
(** A node with references is not freed. *)
Lemma dec_result_refs st internal nd : refs nd <> [] -> dec_result st internal nd = Some (dec_counts st internal nd).
Proof.
  intros Hr. unfold dec_result. assert (refs (dec_counts st internal nd) = refs nd) as -> by (by destruct st, internal). rewrite (bool_decide_false (refs nd = [])) by done. cbn [andb]. destruct (if st then _ else _); [done|]. by destruct (negb _ && _).
Qed.
(** The node after one of its references, strong or not, is deleted. *)
Definition without_ref (r : Z) (st : bool) nd : binder_node := with_refs (filter (λ x, x <> r) (refs nd)) (if st then dec_counts true true nd else nd).
Definition del_result (r : Z) (st : bool) nd : option binder_node := dec_result false true (without_ref r st nd).
Lemma shape_kfree_ref s r : shape [(By_node, r); (By_desc, r)] s -> shape [] (set_refs (delete r (brefs s)) s).
Proof.
  intros [H1 [L H2] H3 H4 H5 H6 H7]. split; cbn; try done.
  - eapply trees_ext; [exact H1|done|..].
    + intros k P x _. rewrite !not_elem_of_cons. pose proof (not_elem_of_nil (k, x)). destruct k; cbn; [intuition congruence|..]; (split;
        [intros [(y & [Hne Ey]%lookup_delete_Some & Hy) _]; split; [by exists y|split_and!; congruence || done]|
         intros [(y & Ey & Hy) (Ha & Hb & _)]; split; [exists y; rewrite lookup_delete_ne by congruence; done|done]]).
    + intros k P x _ Hx. rewrite !not_elem_of_cons in Hx. destruct k; cbn; [done|..]; rewrite lookup_delete_ne; try done; intros <-; destruct Hx as (? & ? & _); congruence.
  - exists L. by eapply wrep_ext.
  - intros x y [_ Ey]%lookup_delete_Some. by apply H5.
Qed.
Lemma detach_ref_run s r rf : shape [] s -> brefs s !! r = Some rf ->
  exists s', on_tree By_desc (r_proc rf) (rb_erase r) s = Some (tt, s') /\ exists s'', on_tree By_node (r_proc rf) (rb_erase r) s' = Some (tt, s'') /\ step_to [(By_node, r); (By_desc, r)] s s'' (bnodes s) (brefs s).
Proof.
  intros Hs E. destruct (sh_ref _ _ Hs r rf E) as (_ & HP & _). destruct (tree_erase_run [] s By_desc (r_proc rf) r (sh_trees _ _ Hs) HP) as (ps1 & Hr1 & Hd1 & Ht1); [by exists rf|apply not_elem_of_nil|].
  exists (set_procs ps1 s). split; [done|]. pose proof (shape_procs _ _ _ _ Hs Ht1 Hd1) as Hs1.
  destruct (tree_erase_run [(By_desc, r)] (set_procs ps1 s) By_node (r_proc rf) r Ht1) as (ps2 & Hr2 & Hd2 & Ht2); [cbn; by rewrite <-elem_of_dom, Hd1, elem_of_dom|by exists rf|set_solver +|].
  eexists. split; [exact Hr2|]. split; [exact (shape_procs _ _ _ _ Hs1 Ht2 Hd2)| |done..]. split; [cbn in *; congruence|done..].
Qed.
Lemma delete_ref_run s r rf nd : shape [] s -> brefs s !! r = Some rf -> bnodes s !! r_node rf = Some nd -> r ∈ refs nd ->
  exists s', binder_delete_ref r s = Some (tt, s') /\ step_to [] s s' (partial_alter (λ _, del_result r (negb (strong rf =? 0)) nd) (r_node rf) (bnodes s)) (delete r (brefs s)).
Proof.
  intros Hs E En Hin. unfold binder_delete_ref. erewrite bind_run by (by apply load_ref_run). destruct (detach_ref_run s r rf Hs E) as (s1 & Hr1 & s2 & Hr2 & Hst). mrun Hr1. mrun Hr2.
  set (n := r_node rf) in *. set (D := [(By_node, r); (By_desc, r)]) in *. assert ((By_ptr, n) ∉ D) as HD by set_solver +. set (b := negb (strong rf =? 0)). set (nd1 := if b then dec_counts true true nd else nd).
  assert (exists s3, (if b then binder_dec_node n true true ;; mret tt else mret tt) s2 = Some (tt, s3) /\ step_to D s s3 (<[n := nd1]> (bnodes s)) (brefs s)) as (s3 & Hr3 & Hst3).
  { destruct Hst as [Hs2 Hf2 Hn2 Hrf2]. assert (bnodes s2 !! n = Some nd) as En2 by (by rewrite Hn2). destruct b; [|exists s2; split; [done|]; split; [done..|by rewrite insert_id|done]].
    destruct (dec_node_run D s2 n nd true true Hs2 HD En2) as (s3 & Hrun & Hst3). mrun Hrun. exists s3. split; [done|]. rewrite dec_result_refs in Hst3 by (intros Hr; rewrite Hr in Hin; set_solver +Hin).
    eapply step_trans; [by split|]. rewrite Hn2, Hrf2 in Hst3. exact Hst3. }
  mrun Hr3. destruct Hst3 as [Hs3 Hf3 Hn3 Hrf3]. assert (bnodes s3 !! n = Some nd1) as En3 by (by rewrite Hn3, lookup_insert_eq). assert (brefs s3 !! r = Some rf) as E3 by (by rewrite Hrf3).
  assert (refs nd1 = refs nd) as Hrefs by (unfold nd1; by destruct b). set (nd2 := without_ref r b nd). assert (hlist_del_ref r s3 = Some (tt, set_nodes (<[n := nd2]> (bnodes s3)) s3)) as Hdel.
  { unfold hlist_del_ref. erewrite bind_run by (by apply load_ref_run). erewrite bind_run by (by apply load_node_run). rewrite bool_decide_true by (by rewrite Hrefs). erewrite bind_run by done. rewrite (store_node_run _ _ _ _ En3), Hrefs. done. }
  mrun Hdel. pose proof (set_node_step D s3 n nd1 nd2 Hs3 En3 ltac:(unfold nd2, without_ref, nd1; by destruct b) ltac:(unfold nd2, without_ref, nd1; by destruct b)) as Hst4. set (s4 := set_nodes _ s3) in *.
  destruct (dec_node_run D s4 n nd2 false true (st_shape _ _ _ _ _ Hst4) HD) as (s5 & Hr5 & Hst5); [cbn; by rewrite lookup_insert_eq|]. mrun Hr5. destruct Hst5 as [Hs5 Hf5 Hn5 Hrf5].
  exists (set_refs (delete r (brefs s5)) s5). split; [done|]. split; [by apply shape_kfree_ref|..].
  - eapply frame_trans; [exact Hf3|]. eapply frame_trans; [exact (st_frame _ _ _ _ _ Hst4)|]. eapply frame_trans; [exact Hf5|done].
  - cbn. rewrite Hn5. cbn. rewrite Hn3. by rewrite !partial_alter_insert_eq.
  - cbn. by rewrite Hrf5, <-Hrf3.
Qed.

(** ** [binder_inc_ref] and [binder_dec_ref] *)
Definition inc_ref_result (st : bool) rf : binder_ref := if st then with_strong (s32 (strong rf + 1)) rf else with_weak (s32 (weak rf + 1)) rf.
Definition dec_ref_result (st : bool) rf : binder_ref := if st then with_strong (strong rf - 1) rf else with_weak (weak rf - 1) rf.
Lemma inc_ref_run s r rf nd st target : shape [] s -> brefs s !! r = Some rf -> bnodes s !! r_node rf = Some nd -> list_for s target nd ->
  exists ret s', binder_inc_ref r st target s = Some (ret, s') /\
    ((ret = 0 /\ step_to [] s s' (if st && (strong rf =? 0) then <[r_node rf := inc_counts true true nd]> (bnodes s) else bnodes s) (<[r := inc_ref_result st rf]> (brefs s))) \/
     (ret = - EINVAL /\ target = 0 /\ step_to [] s s' (bnodes s) (brefs s))).
Proof.
  intros Hs E En Hl. unfold binder_inc_ref. erewrite bind_run by (by apply load_ref_run). set (n := r_node rf) in *.
  assert (exists ret s1, (if (if st then strong rf else weak rf) =? 0 then binder_inc_node n st true target else mret 0) s = Some (ret, s1) /\
    ((ret = 0 /\ step_to [] s s1 (if st && (strong rf =? 0) then <[n := inc_counts true true nd]> (bnodes s) else bnodes s) (brefs s)) \/ (ret = - EINVAL /\ target = 0 /\ step_to [] s s1 (bnodes s) (brefs s)))) as (ret & s1 & Hr1 & Hpost).
  { destruct (Z.eqb_spec (if st then strong rf else weak rf) 0) as [H0|H0].
    - destruct (inc_node_run [] s n nd st true target Hs En Hl) as (ret & s1 & Hrun & Hst & Hret). exists ret, s1. split; [done|]. destruct st.
      + rewrite H0. cbn [andb Z.eqb]. destruct (inc_refused s n nd true true target) eqn:Er; [right; split_and!; [done| |done]|by left]. unfold inc_refused in Er. lia.
      + cbn [inc_refused andb] in Hst |- *. cbn [inc_counts] in Hst. rewrite insert_id in Hst by done. destruct Hret as [->|[-> ->]]; [by left|by right].
    - exists 0, s. split; [done|]. left. split; [done|]. destruct st; cbn [andb]; [rewrite (proj2 (Z.eqb_neq _ _) H0)|]; by apply step_refl. }
  assert (exists ret s', (ret ← (if (if st then strong rf else weak rf) =? 0 then binder_inc_node n st true target else mret 0); if negb (ret =? 0) then mret ret else store_ref r (if st then with_strong (s32 (strong rf + 1)) else with_weak (s32 (weak rf + 1))) ;; mret 0) s = Some (ret, s') /\
    ((ret = 0 /\ step_to [] s s' (if st && (strong rf =? 0) then <[n := inc_counts true true nd]> (bnodes s) else bnodes s) (<[r := inc_ref_result st rf]> (brefs s))) \/ (ret = - EINVAL /\ target = 0 /\ step_to [] s s' (bnodes s) (brefs s)))) as H.
  { mrun Hr1. destruct Hpost as [[-> Hst]|(-> & H0 & Hst)]; [|exists (- EINVAL), s1; split; [done|by right]]. cbn [Z.eqb negb]. pose proof Hst as [Hs1 _ _ Hrf]. assert (brefs s1 !! r = Some rf) as E1 by (by rewrite Hrf).
    erewrite bind_run by (by eapply store_ref_run). exists 0. eexists. split; [done|]. left. split; [done|]. replace ((if st then with_strong (s32 (strong rf + 1)) else with_weak (s32 (weak rf + 1))) rf) with (inc_ref_result st rf) by (by destruct st).
    eapply step_trans; [exact Hst|]. destruct (set_ref_step [] s1 r rf (inc_ref_result st rf) Hs1 E1) as [? ? ? ?]; [by destruct st..|]. split; [done|done|by rewrite <-(st_nodes _ _ _ _ _ Hst)|by rewrite <-Hrf]. }
  by destruct st.
Qed.
Lemma dec_ref_run s r rf nd st : shape [] s -> brefs s !! r = Some rf -> bnodes s !! r_node rf = Some nd -> r ∈ refs nd ->
  let rf' := dec_ref_result st rf in let nd' := if st && (strong rf - 1 =? 0) then dec_counts true true nd else nd in
  exists ret s', binder_dec_ref r st s = Some (ret, s') /\
    if (if st then strong rf else weak rf) =? 0 then ret = - EINVAL /\ s' = s
    else ret = 0 /\ if (strong rf' =? 0) && (weak rf' =? 0) then step_to [] s s' (partial_alter (λ _, del_result r false nd') (r_node rf) (bnodes s)) (delete r (brefs s))
      else step_to [] s s' (<[r_node rf := nd']> (bnodes s)) (<[r := rf']> (brefs s)).
Proof.
  intros Hs E En Hin rf' nd'. unfold binder_dec_ref. erewrite bind_run by (by apply load_ref_run). destruct (Z.eqb_spec (if st then strong rf else weak rf) 0) as [H0|H0]; [by exists (- EINVAL), s|].
  set (n := r_node rf) in *. erewrite bind_run by (by eapply store_ref_run). replace ((if st then with_strong (strong rf - 1) else with_weak (weak rf - 1)) rf) with rf' by (unfold rf'; by destruct st).
  assert (r_proc rf' = r_proc rf /\ r_node rf' = n /\ desc rf' = desc rf) as (Hrp & Hrn & Hrd) by (unfold rf'; by destruct st).
  pose proof (set_ref_step [] s r rf rf' Hs E Hrp Hrn Hrd) as Hst1. set (s1 := set_refs _ s) in *. pose proof (st_shape _ _ _ _ _ Hst1) as Hs1. assert (brefs s1 !! r = Some rf') as E1 by (cbn; by rewrite lookup_insert_eq).
  assert (refs nd <> []) as Hne by (intros Hr; rewrite Hr in Hin; set_solver +Hin).
  assert (exists s2, (if st && (strong rf - 1 =? 0) then binder_dec_node n true true ;; mret tt else mret tt) s1 = Some (tt, s2) /\ step_to [] s s2 (<[n := nd']> (bnodes s)) (<[r := rf']> (brefs s))) as (s2 & Hr2 & Hst2).
  { unfold nd'. destruct (st && _); [|exists s1; split; [done|]; rewrite insert_id by done; done]. destruct (dec_node_run [] s1 n nd true true Hs1 (not_elem_of_nil _) En) as (s2 & Hrun & Hst2). mrun Hrun. exists s2. split; [done|].
    rewrite dec_result_refs in Hst2 by done. eapply step_trans; [exact Hst1|exact Hst2]. }
  mrun Hr2. destruct Hst2 as [Hs2 Hf2 Hn2 Hrf2]. assert (brefs s2 !! r = Some rf') as E2 by (by rewrite Hrf2, lookup_insert_eq). erewrite bind_run by (by apply load_ref_run). exists 0.
  destruct ((strong rf' =? 0) && (weak rf' =? 0)) eqn:Ez; [|exists s2; by erewrite bind_run by done]. assert (bnodes s2 !! r_node rf' = Some nd') as En2 by (by rewrite Hrn, Hn2, lookup_insert_eq).
  destruct (delete_ref_run s2 r rf' nd' Hs2 E2 En2) as (s3 & Hr3 & Hst3); [unfold nd'; by destruct (st && _)|]. mrun Hr3. exists s3. split_and!; [done..|]. apply andb_true_iff in Ez as [Ez _]. rewrite Ez, Hrn, Hn2, Hrf2 in Hst3. cbn [negb] in Hst3.
  rewrite partial_alter_insert_eq, delete_insert_eq in Hst3. eapply step_trans; [by split|exact Hst3].
Qed.

(** ** The work of a node *)
Definition work_result nd : node_reply * option binder_node :=
  if node_weak nd && negb (has_weak_ref nd) then (BR_INCREFS, Some (with_local_weak (local_weak_refs nd + 1) (with_weak_flags true true nd)))
  else if node_strong nd && negb (has_strong_ref nd) then (BR_ACQUIRE, Some (with_local_strong (local_strong_refs nd + 1) (with_strong_flags true true nd)))
  else if negb (node_strong nd) && has_strong_ref nd then (BR_RELEASE, Some (with_strong_flags false (pending_strong_ref nd) nd))
  else if negb (node_weak nd) && has_weak_ref nd then (BR_DECREFS, Some (with_weak_flags false (pending_weak_ref nd) nd))
  else (BR_NOOP, if negb (node_weak nd) && negb (node_strong nd) then None else Some nd).
Lemma work_node_run s n nd : shape [] s -> bnodes s !! n = Some nd -> n_proc nd <> 0 ->
  exists s', work_node (n_proc nd) n s = Some ((work_result nd).1, s') /\ step_to [] s s' (partial_alter (λ _, (work_result nd).2) n (bnodes s)) (brefs s).
Proof.
  intros Hs E P0. unfold work_node, work_result. erewrite bind_run by (by apply load_node_run). assert (forall f r, n_proc (f nd) = n_proc nd -> n_ptr (f nd) = n_ptr nd -> exists s', (store_node n f ;; mret r) s = Some (r : node_reply, s') /\ step_to [] s s' (<[n := f nd]> (bnodes s)) (brefs s)) as Hset.
  { intros f r Hp Hq. erewrite bind_run by (by eapply store_node_run). eexists. split; [done|]. by eapply set_node_step. }
  destruct (node_weak nd && negb (has_weak_ref nd)); [by apply Hset|]. destruct (node_strong nd && negb (has_strong_ref nd)); [by apply Hset|]. destruct (negb (node_strong nd) && has_strong_ref nd); [by apply Hset|].
  destruct (negb (node_weak nd) && has_weak_ref nd); [by apply Hset|]. destruct (negb (node_weak nd) && negb (node_strong nd)).
  - destruct (free_node_run [] s n nd Hs (not_elem_of_nil _) E) as (s' & Hrun & Hst). exists s'. split; [|exact Hst]. rewrite (proj2 (Z.eqb_neq _ _) P0) in Hrun. cbn [negb] in Hrun.
    apply bind_inv in Hrun as ([] & sa & Ha & Hrun). mrun Ha. by mrun Hrun.
  - destruct (sh_works _ _ Hs) as [L Hw]. destruct (unqueue_run _ _ _ _ Hw E) as (m & L' & Hrun & Hw' & _). mrun Hrun. eexists. split; [by erewrite bind_run by done|]. cbn [snd]. destruct (set_works_step _ _ _ _ Hs Hw') as [? ? Hn Hr]. split; [done..| |done].
    rewrite Hn. symmetry. exact (insert_id _ _ _ E).
Qed.
(** What the owner reads: the first node on a list of its own. *)
Lemma head_run s L h Q : wrep s L -> owner s h = Some Q -> exists l, L !! h = Some l /\ on_works (list_empty h) s = Some (bool_decide (l = []), s) /\ on_works (get_next h) s = Some (hd h l, s) /\
  forall x, x ∈ l -> exists nd, bnodes s !! x = Some nd /\ n_proc nd <> 0 /\ n_proc nd = Q.
Proof.
  intros [H1 H0 H2 H3 H4] Ho. destruct (H2 _ _ Ho) as [[l El] _]. exists l. split_and!; [done|apply works_read; by eapply heap_list_empty|apply works_read; by rewrite (heap_get_next _ _ _ _ H1 El); destruct l|].
  intros x Hx. destruct (H4 _ _ _ El Hx) as (nd & ? & ? & ?). exists nd. split_and!; [done..|congruence].
Qed.
Lemma thread_read_run s P T wait : shape [] s -> threads s !! T = Some P ->
  exists r s', binder_thread_read P T wait s = Some (r, s') /\
    match r with None => s' = s | Some r => exists n nd, bnodes s !! n = Some nd /\ n_proc nd = P /\ r = (work_result nd).1 /\ step_to [] s s' (partial_alter (λ _, (work_result nd).2) n (bnodes s)) (brefs s) end.
Proof.
  intros Hs ET. destruct (sh_thread _ _ Hs T P ET) as (_ & Hnp & HP). destruct (sh_works _ _ Hs) as [L Hw]. assert (owner s T = Some P) as HoT by (unfold owner; by rewrite Hnp).
  assert (forall h l, l <> [] -> on_works (get_next h) s = Some (hd h l, s) -> (forall x, x ∈ l -> exists nd, bnodes s !! x = Some nd /\ n_proc nd <> 0 /\ n_proc nd = P) ->
    exists r s', (w ← on_works (get_next h); r ← work_node P w; mret (Some r)) s = Some (Some r, s') /\ exists n nd, bnodes s !! n = Some nd /\ n_proc nd = P /\ r = (work_result nd).1 /\ step_to [] s s' (partial_alter (λ _, (work_result nd).2) n (bnodes s)) (brefs s)) as Htake.
  { intros h l Hl Hnext Hx. mrun Hnext. destruct l as [|x l]; [done|]. cbn [hd]. destruct (Hx x) as (nd & E & P0 & <-); [set_solver +|]. destruct (work_node_run s x nd Hs E P0) as (s' & Hrun & Hst). mrun Hrun. eexists _, s'. split; [done|]. by exists x, nd. }
  destruct (head_run s L T P Hw HoT) as (l & _ & Hem & Hnext & Hx). unfold binder_thread_read. mrun Hem. destruct (bool_decide_reflect (l = [])) as [Hl|Hl]; cbn [negb].
  - destruct (head_run s L P P Hw (proc_owner _ _ HP)) as (l' & _ & Hem' & Hnext' & Hx'). mrun Hem'. destruct (bool_decide_reflect (l' = [])) as [Hl'|Hl']; cbn [negb andb]; [by exists None, s|]. destruct wait; [|by exists None, s].
    destruct (Htake P l' Hl' Hnext' Hx') as (r & s' & Hrun & H). by exists (Some r), s'.
  - destruct (Htake T l Hl Hnext Hx) as (r & s' & Hrun & H). by exists (Some r), s'.
Qed.

(** ** Lists of work that go *)
Lemma release_loop_run s L h Q fuel l : wrep s L -> owner s h = Some Q -> L !! h = Some l -> (length l < fuel)%nat -> exists m L', release_work_loop fuel h s = Some (tt, set_works m s) /\ wrep (set_works m s) L' /\ L' !! h = Some [].
Proof.
  revert s L l. induction fuel as [|fuel IH]; intros s L l Hw Ho El Hf; [lia|]. cbn [release_work_loop]. destruct (head_run s L h Q Hw Ho) as (l0 & E0 & Hem & Hnext & Hx). rewrite El in E0. injection E0 as <-. mrun Hem.
  destruct l as [|x l]; [exists (works s), L; rewrite set_works_id; by rewrite bool_decide_true|]. rewrite bool_decide_false by done. mrun Hnext. cbn [hd]. destruct (Hx x) as (nd & E & _); [set_solver +|].
  destruct (unqueue_run _ _ _ _ Hw E) as (m & L1 & Hrun & Hw1 & _ & Hl). mrun Hrun. pose proof (lrep_nodup _ _ _ _ (wr_rep _ _ Hw) El) as Hn. apply NoDup_cons in Hn as [Hnh Hn]. assert (h <> x) as Hhx by set_solver +Hnh. specialize (Hl h _ El Hhx).
  rewrite filter_cons, decide_False in Hl by congruence. apply NoDup_cons in Hn as [Hxl _]. rewrite (filter_ne_notin _ _ Hxl) in Hl. cbn in Hf.
  destruct (IH (set_works m s) L1 l Hw1 Ho Hl ltac:(lia)) as (m2 & L2 & Hrun2 & Hw2 & Hl2). rewrite Hrun2. by exists m2, L2.
Qed.
Lemma release_work_run s L h Q : wrep s L -> owner s h = Some Q -> exists m L', binder_release_work h s = Some (tt, set_works m s) /\ wrep (set_works m s) L' /\ L' !! h = Some [].
Proof.
  intros Hw Ho. destruct (wr_head _ _ Hw _ _ Ho) as [[l El] _]. unfold binder_release_work. erewrite bind_run by done. eapply release_loop_run; [done..|]. pose proof (heap_length _ _ _ _ (wr_rep _ _ Hw) El). lia.
Qed.
Lemma on_works_local {A} (f : M mem A) s1 s2 a s' : works s2 = works s1 -> on_works f s1 = Some (a, s') -> exists m, s' = set_works m s1 /\ on_works f s2 = Some (a, set_works m s2).
Proof. intros Hw. unfold on_works. rewrite Hw. destruct (f (works s1)) as [[a' m]|]; [|done]. intros [= -> <-]. by exists m. Qed.
Lemma release_loop_local fuel h s1 s2 m : works s2 = works s1 -> release_work_loop fuel h s1 = Some (tt, set_works m s1) -> release_work_loop fuel h s2 = Some (tt, set_works m s2).
Proof.
  revert s1 s2. induction fuel as [|fuel IH]; intros s1 s2 Hw H; [done|]. cbn [release_work_loop] in *. apply bind_inv in H as (e & sa & Ha & H). destruct (on_works_local _ _ s2 _ _ Hw Ha) as (m1 & -> & Ha2). mrun Ha2. destruct e.
  - injection H as H. by subst.
  - apply bind_inv in H as (w & sb & Hb & H). destruct (on_works_local _ (set_works m1 s1) (set_works m1 s2) _ _ eq_refl Hb) as (m2 & -> & Hb2). mrun Hb2. apply bind_inv in H as ([] & sc & Hc & H). destruct (on_works_local _ (set_works m2 (set_works m1 s1)) (set_works m2 (set_works m1 s2)) _ _ eq_refl Hc) as (m3 & -> & Hc2). mrun Hc2.
    by apply (IH (set_works m3 (set_works m2 (set_works m1 s1))) (set_works m3 (set_works m2 (set_works m1 s2)))).
Qed.
Lemma release_work_local h s1 s2 m : works s2 = works s1 -> binder_release_work h s1 = Some (tt, set_works m s1) -> binder_release_work h s2 = Some (tt, set_works m s2).
Proof. intros Hw H. unfold binder_release_work in *. erewrite bind_run in H by done. erewrite bind_run by done. rewrite Hw. by eapply release_loop_local. Qed.
End BinderNodes.
