(* ===== verification/BinderCount.v ===== *)
(** * The reference counts of binder

    The counters of nodes and references agree with what there is ([counts]): a node counts
    its references that are strong, and the holders of local references, which are buffers
    ([Hs] for strong, [Hw] for weak ones), acknowledgements that the owner has not sent yet and,
    for the context manager, the driver.  The functions of BinderNodes.v that give the records
    after each operation keep this. *)
From stdpp Require Import prelude gmap list.
From Stdlib Require Import ZArith Lia ZifyBool.
From S2P Require Import Prelude BinderRef BinderNodes.
Open Scope Z_scope.

Module BinderCount.
Import BinderRef BinderNodes.
Implicit Types (N : gmap Z binder_node) (R : gmap Z binder_ref) (nd : binder_node) (rf : binder_ref) (Hs Hw : list Z) (X mgr : Z) (Y : option Z).

Definition weight R (r : Z) : Z := match R !! r with Some rf => if strong rf =? 0 then 0 else 1 | None => 0 end.
Definition strong_count R (l : list Z) : Z := foldr (λ r a, weight R r + a) 0 l.
Definition held (n : Z) (H : list Z) : Z := Z.of_nat (length (filter (λ x, x = n) H)).

(** [X] is a process whose buffers do not count any more, [Y] a dead node that may have lost
    its last reference. *)
Record counts X Y mgr N R Hs Hw : Prop := {
  co_ref : forall r rf, R !! r = Some rf -> exists nd, N !! r_node rf = Some nd /\ r ∈ refs nd;
  co_range : forall r rf, R !! r = Some rf -> 0 <= strong rf < 2 ^ 31 /\ 0 <= weak rf < 2 ^ 31;
  co_refs : forall n nd, N !! n = Some nd -> NoDup (refs nd) /\ (forall r, r ∈ refs nd -> exists rf, R !! r = Some rf /\ r_node rf = n) /\ internal_strong_refs nd = strong_count R (refs nd);
  co_flags : forall n nd, N !! n = Some nd -> (pending_strong_ref nd = true -> has_strong_ref nd = true) /\ (pending_weak_ref nd = true -> has_weak_ref nd = true);
  co_live : forall n nd, N !! n = Some nd -> n_proc nd <> 0 -> n_proc nd <> X ->
    local_strong_refs nd = held n Hs + Z.b2z (pending_strong_ref nd) + Z.b2z (n =? mgr) /\ local_weak_refs nd = held n Hw + Z.b2z (pending_weak_ref nd) + Z.b2z (n =? mgr);
  co_dead : forall n nd, N !! n = Some nd -> n_proc nd = 0 -> local_strong_refs nd = 0 /\ local_weak_refs nd = 0 /\ (Y <> Some n -> refs nd <> []);
  co_held : forall n, n ∈ Hs \/ n ∈ Hw -> exists nd, N !! n = Some nd /\ n_proc nd <> 0 /\ n_proc nd <> X;
  co_mgr : mgr <> 0 -> exists nd, N !! mgr = Some nd /\ n_proc nd <> 0 /\ n_proc nd <> X /\ has_strong_ref nd = true /\ has_weak_ref nd = true;
}.

(** ** Counting *)
Lemma held_cons n x H : held n (x :: H) = held n H + Z.b2z (x =? n).
Proof. unfold held. rewrite filter_cons. case_decide as E; [rewrite E, Z.eqb_refl|rewrite (proj2 (Z.eqb_neq x n) E)]; cbn; lia. Qed.
Lemma held_perm n H H' : H ≡ₚ H' -> held n H = held n H'.
Proof. intros Hp. unfold held. by rewrite Hp. Qed.
Lemma held_pos n H : 0 <= held n H. Proof. unfold held. lia. Qed.
Lemma held_member n H : n ∈ H -> 1 <= held n H.
Proof. intros Hn. unfold held. assert (n ∈ filter (λ x, x = n) H) as Hf by (by apply list_elem_of_filter). destruct (filter _ H); [set_solver +Hf|cbn; lia]. Qed.
Lemma held_notin n H : n ∉ H -> held n H = 0.
Proof.
  intros Hn. unfold held. destruct (filter (λ x, x = n) H) as [|y l] eqn:E; [done|].
  assert (y ∈ filter (λ x, x = n) H) as [-> Hy]%list_elem_of_filter by (rewrite E; set_solver +). done.
Qed.
Lemma weight_range R r : 0 <= weight R r <= 1. Proof. unfold weight. destruct (R !! r) as [rf|]; [destruct (strong rf =? 0)|]; lia. Qed.
Lemma strong_count_pos R l : 0 <= strong_count R l.
Proof. induction l as [|r l IH]; cbn; [lia|]. fold (strong_count R l). pose proof (weight_range R r). lia. Qed.
Lemma strong_count_ext R R' l : (forall r, r ∈ l -> weight R r = weight R' r) -> strong_count R l = strong_count R' l.
Proof. induction l as [|r l IH]; intros H; cbn; [done|]. fold (strong_count R l) (strong_count R' l). rewrite H, IH; [done|intros; apply H; set_solver|set_solver +]. Qed.
Lemma strong_count_app R l1 l2 : strong_count R (l1 ++ l2) = strong_count R l1 + strong_count R l2.
Proof. induction l1 as [|r l IH]; cbn; [done|]. fold (strong_count R (l ++ l2)). rewrite IH. unfold strong_count. lia. Qed.
Lemma strong_count_in R l r : r ∈ l -> weight R r <= strong_count R l.
Proof. intros (l1 & l2 & ->)%list_elem_of_split. rewrite strong_count_app. cbn. fold (strong_count R l2). pose proof (strong_count_pos R l1). pose proof (strong_count_pos R l2). lia. Qed.
Lemma strong_count_filter R l r : NoDup l -> r ∈ l -> strong_count R (filter (λ x, x <> r) l) = strong_count R l - weight R r.
Proof. intros Hn (l1 & l2 & ->)%list_elem_of_split. rewrite filter_ne by done. rewrite !strong_count_app. cbn. fold (strong_count R l2). lia. Qed.
Lemma strong_count_insert R l r rf : NoDup l -> r ∈ l -> strong_count (<[r := rf]> R) l = strong_count R l - weight R r + weight (<[r := rf]> R) r.
Proof.
  intros Hn Hr. pose proof (strong_count_filter (<[r := rf]> R) l r Hn Hr) as H1. pose proof (strong_count_filter R l r Hn Hr) as H2.
  rewrite (strong_count_ext (<[r := rf]> R) R) in H1; [lia|]. intros x [Hx _]%list_elem_of_filter. unfold weight. by rewrite lookup_insert_ne.
Qed.
Lemma weight_delete_ne R r x : x <> r -> weight (delete r R) x = weight R x. Proof. intros H. unfold weight. by rewrite lookup_delete_ne. Qed.
Lemma weight_insert_ne R r rf x : x <> r -> weight (<[r := rf]> R) x = weight R x. Proof. intros H. unfold weight. by rewrite lookup_insert_ne. Qed.
Lemma weight_insert R r rf : weight (<[r := rf]> R) r = if strong rf =? 0 then 0 else 1. Proof. unfold weight. by rewrite lookup_insert_eq. Qed.

(** ** Changes of one node *)
(** What of a node only its process and its holders see. *)
Definition local_ok X mgr n nd Hs Hw : Prop :=
  ((pending_strong_ref nd = true -> has_strong_ref nd = true) /\ (pending_weak_ref nd = true -> has_weak_ref nd = true)) /\
  (n_proc nd <> 0 -> n_proc nd <> X -> local_strong_refs nd = held n Hs + Z.b2z (pending_strong_ref nd) + Z.b2z (n =? mgr) /\ local_weak_refs nd = held n Hw + Z.b2z (pending_weak_ref nd) + Z.b2z (n =? mgr)) /\
  (n_proc nd = 0 -> local_strong_refs nd = 0 /\ local_weak_refs nd = 0) /\
  (n = mgr -> mgr <> 0 -> has_strong_ref nd = true /\ has_weak_ref nd = true).
Lemma counts_local X Y mgr N R Hs Hw n nd : counts X Y mgr N R Hs Hw -> N !! n = Some nd -> local_ok X mgr n nd Hs Hw.
Proof.
  intros [H1 H2 H3 H4 H5 H6 H7 H8] E. refine (conj (H4 _ _ E) (conj (H5 _ _ E) (conj _ _))).
  - intros H0. by destruct (H6 _ _ E H0) as (? & ? & _).
  - intros -> Hm. destruct (H8 Hm) as (nd' & E' & _ & _ & ? & ?). split; congruence.
Qed.
Lemma counts_node X Y mgr N R Hs Hw Hs' Hw' n nd nd' : counts X Y mgr N R Hs Hw -> N !! n = Some nd -> n_proc nd' = n_proc nd -> refs nd' = refs nd -> internal_strong_refs nd' = internal_strong_refs nd ->
  local_ok X mgr n nd' Hs' Hw' -> (forall x, x <> n -> held x Hs' = held x Hs /\ held x Hw' = held x Hw) -> (n ∈ Hs' \/ n ∈ Hw' -> n_proc nd <> 0 /\ n_proc nd <> X) ->
  counts X Y mgr (<[n := nd']> N) R Hs' Hw'.
Proof.
  intros [H1 H2 H3 H4 H5 H6 H7 H8] E Hp Hr Hi ((L1 & L2) & L3 & L4 & L5) Hh Hn. assert (forall x, x <> n -> <[n := nd']> N !! x = N !! x) as Hne by (intros x Hx; by apply lookup_insert_ne).
  split.
  - intros r rf Er. destruct (H1 _ _ Er) as (y & Ey & Hin). destruct (decide (r_node rf = n)) as [En|Hx]; [|exists y; by rewrite Hne].
    exists nd'. rewrite En, lookup_insert_eq, Hr. rewrite En, E in Ey. by simplify_eq.
  - done.
  - intros x y [[<- <-]|[_ Ey]]%lookup_insert_Some; [|by apply H3]. rewrite Hr, Hi. by apply H3.
  - intros x y [[<- <-]|[_ Ey]]%lookup_insert_Some; [done|by eapply H4].
  - intros x y [[<- <-]|[Hx Ey]]%lookup_insert_Some P0 PX; [by apply L3|]. destruct (Hh x) as [-> ->]; [done|]. by apply H5.
  - intros x y [[<- <-]|[Hx Ey]]%lookup_insert_Some P0; [|by apply H6]. destruct (L4 P0) as [? ?]. split_and!; [done..|]. rewrite Hr. rewrite Hp in P0. by apply (H6 _ _ E P0).
  - intros x Hx. destruct (decide (x = n)) as [->|Hne']; [exists nd'; rewrite lookup_insert_eq, Hp; split; [done|by apply Hn]|]. rewrite Hne by done. apply H7. destruct (Hh x Hne') as [E1 E2].
    destruct Hx as [Hx%held_member|Hx%held_member]; [left|right]; (destruct (decide (x ∈ Hs)), (decide (x ∈ Hw)); try done; exfalso); repeat match goal with H : x ∉ _ |- _ => apply held_notin in H end; lia.
  - intros Hm. destruct (H8 Hm) as (y & Ey & P0 & PX & F1 & F2). destruct (decide (mgr = n)) as [->|Hx]; [|exists y; by rewrite Hne]. exists nd'. rewrite lookup_insert_eq, Hp. simplify_eq. split_and!; [done..|by apply L5|by apply L5].
Qed.
(** The end of [binder_dec_node]. *)
Lemma counts_drop X mgr N R Hs Hw n nd : counts X (Some n) mgr N R Hs Hw -> N !! n = Some nd -> refs nd = [] -> local_strong_refs nd = 0 -> local_weak_refs nd = 0 -> counts X None mgr (delete n N) R Hs Hw.
Proof.
  intros [H1 H2 H3 H4 H5 H6 H7 H8] E Hr Hls Hlw. assert (n_proc nd <> 0 -> n_proc nd <> X -> n ∉ Hs /\ n ∉ Hw /\ n <> mgr) as Hfree.
  { intros P0 PX. destruct (H5 _ _ E P0 PX) as [E1 E2]. pose proof (held_pos n Hs). pose proof (held_pos n Hw). split_and!; [intros Hin%held_member|intros Hin%held_member|intros Em; assert (n =? mgr = true) as Eb by lia]; destruct (pending_strong_ref nd), (pending_weak_ref nd), (n =? mgr); cbn [Z.b2z] in *; lia. }
  split.
  - intros r rf Er. destruct (H1 _ _ Er) as (y & Ey & Hin). exists y. rewrite lookup_delete_ne; [done|]. intros En. rewrite <-En, E in Ey. simplify_eq. rewrite Hr in Hin. set_solver +Hin.
  - done.
  - intros x y [_ Ey]%lookup_delete_Some. by apply H3.
  - intros x y [_ Ey]%lookup_delete_Some. by eapply H4.
  - intros x y [_ Ey]%lookup_delete_Some. by apply H5.
  - intros x y [Hx Ey]%lookup_delete_Some P0. destruct (H6 _ _ Ey P0) as (? & ? & Hrx). split_and!; [done..|]. intros _. apply Hrx. congruence.
  - intros x Hx. destruct (H7 x Hx) as (y & Ey & P0 & PX). exists y. rewrite lookup_delete_ne; [done|]. intros ->. rewrite E in Ey. simplify_eq. destruct (Hfree P0 PX) as (? & ? & _). tauto.
  - intros Hm. destruct (H8 Hm) as (y & Ey & P0 & PX & ?). exists y. rewrite lookup_delete_ne; [done|]. intros ->. rewrite E in Ey. simplify_eq. by destruct (Hfree P0 PX) as (_ & _ & ?).
Qed.
Lemma counts_settle X mgr N R Hs Hw n nd : counts X (Some n) mgr N R Hs Hw -> N !! n = Some nd -> (n_proc nd = 0 -> refs nd <> []) -> counts X None mgr N R Hs Hw.
Proof.
  intros [H1 H2 H3 H4 H5 H6 H7 H8] E Hr. split; try done. intros x y Ey P0. destruct (H6 _ _ Ey P0) as (? & ? & Hx). split_and!; [done..|]. intros _. destruct (decide (x = n)) as [->|]; [simplify_eq; by apply Hr|apply Hx; congruence].
Qed.
Lemma counts_finish X mgr N R Hs Hw n st internal nd : counts X (Some n) mgr (<[n := dec_counts st internal nd]> N) R Hs Hw -> counts X None mgr (partial_alter (λ _, dec_result st internal nd) n N) R Hs Hw.
Proof.
  intros Hc. set (nd' := dec_counts st internal nd) in *. assert (<[n := nd']> N !! n = Some nd') as E by apply lookup_insert_eq. pose proof (co_refs _ _ _ _ _ _ _ Hc _ _ E) as (_ & _ & Hi). unfold dec_result. fold nd'.
  destruct (if st then _ else _) eqn:Eb.
  - eapply counts_settle; [exact Hc|exact E|]. intros P0 Hr. destruct (co_dead _ _ _ _ _ _ _ Hc _ _ E P0) as (Hs0 & Hw0 & _). rewrite Hr in Hi, Eb. cbn in Hi. rewrite Hs0, Hw0, Hi in Eb. by destruct st.
  - destruct (negb _ && _) eqn:Eq; [eapply counts_settle; [exact Hc|exact E|lia]|]. destruct (bool_decide (refs nd' = [])) eqn:Er; cbn [andb].
    + apply bool_decide_eq_true in Er. destruct ((local_strong_refs nd' =? 0) && (local_weak_refs nd' =? 0)) eqn:El.
      * pose proof (counts_drop _ _ _ _ _ _ _ _ Hc E Er) as Hd. rewrite delete_insert_eq in Hd. apply Hd; lia.
      * eapply counts_settle; [exact Hc|exact E|]. intros P0. destruct (co_dead _ _ _ _ _ _ _ Hc _ _ E P0) as (? & ? & _). lia.
    + apply bool_decide_eq_false in Er. by eapply counts_settle.
Qed.
Lemma counts_exempt X mgr N R Hs Hw n : counts X None mgr N R Hs Hw -> counts X (Some n) mgr N R Hs Hw.
Proof. intros [H1 H2 H3 H4 H5 H6 H7 H8]. split; try done. intros x y Ey P0. destruct (H6 _ _ Ey P0) as (? & ? & Hx). split_and!; [done..|]. intros _. by apply Hx. Qed.

(** ** Holders *)
Definition hold (st : bool) (n : Z) (H : list Z * list Z) : list Z * list Z := if st then (n :: H.1, H.2) else (H.1, n :: H.2).
Lemma counts_hold X Y mgr N R Hs Hw n nd st : counts X Y mgr N R Hs Hw -> N !! n = Some nd -> n_proc nd <> 0 -> n_proc nd <> X ->
  counts X Y mgr (<[n := inc_counts st false nd]> N) R (hold st n (Hs, Hw)).1 (hold st n (Hs, Hw)).2.
Proof.
  intros Hc E P0 PX. pose proof (counts_local _ _ _ _ _ _ _ _ _ Hc E) as ((L1 & L2) & L3 & L4 & L5). destruct (L3 P0 PX) as [E1 E2].
  destruct st; (eapply counts_node; [exact Hc|exact E|done|done|done| |intros x Hx; cbn; rewrite held_cons; assert (n =? x = false) by lia; lia|done]); cbn.
  - refine (conj (conj L1 L2) (conj _ (conj _ L5))); cbn; [intros _ _; rewrite held_cons, Z.eqb_refl; cbn; lia|done].
  - refine (conj (conj L1 L2) (conj _ (conj _ L5))); cbn; [intros _ _; rewrite held_cons, Z.eqb_refl; cbn; lia|done].
Qed.
Lemma counts_perm X Y mgr N R Hs Hw Hs' Hw' : counts X Y mgr N R Hs Hw -> Hs ≡ₚ Hs' -> Hw ≡ₚ Hw' -> counts X Y mgr N R Hs' Hw'.
Proof.
  intros [H1 H2 H3 H4 H5 H6 H7 H8] E1 E2. split; try done.
  - intros n nd E P0 PX. rewrite <-(held_perm _ _ _ E1), <-(held_perm _ _ _ E2). by apply H5.
  - intros n. rewrite <-E1, <-E2. apply H7.
Qed.
(** A holder lets go. *)
Lemma counts_unhold X mgr N R Hs Hw n nd st : counts X None mgr N R (hold st n (Hs, Hw)).1 (hold st n (Hs, Hw)).2 -> N !! n = Some nd -> counts X None mgr (partial_alter (λ _, dec_result st false nd) n N) R Hs Hw.
Proof.
  intros Hc E. apply counts_finish. pose proof (counts_local _ _ _ _ _ _ _ _ _ Hc E) as ((L1 & L2) & L3 & L4 & L5). destruct (co_held _ _ _ _ _ _ _ Hc n) as (nd0 & E0 & P0 & PX); [destruct st; cbn; set_solver +|].
  rewrite E in E0. injection E0 as <-. destruct (L3 P0 PX) as [E1 E2]. apply (counts_exempt _ _ _ _ _ _ n) in Hc.
  destruct st; (eapply counts_node; [exact Hc|exact E|done|done|done| |intros x Hx; cbn; rewrite held_cons; assert (n =? x = false) by lia; lia|done]); cbn in *.
  - refine (conj (conj L1 L2) (conj _ (conj _ L5))); cbn; [intros _ _; rewrite held_cons, Z.eqb_refl in E1; cbn in E1; lia|done].
  - refine (conj (conj L1 L2) (conj _ (conj _ L5))); cbn; [intros _ _; rewrite held_cons, Z.eqb_refl in E2; cbn in E2; lia|done].
Qed.
(** The owner acknowledges. *)
Definition acknowledged (acquire : bool) nd : binder_node := if acquire then with_strong_flags (has_strong_ref nd) false nd else with_weak_flags (has_weak_ref nd) false nd.
Lemma counts_done mgr N R Hs Hw n nd (acquire : bool) : counts 0 None mgr N R Hs Hw -> N !! n = Some nd -> n_proc nd <> 0 -> (if acquire then pending_strong_ref nd else pending_weak_ref nd) = true ->
  counts 0 None mgr (partial_alter (λ _, dec_result acquire false (acknowledged acquire nd)) n N) R Hs Hw.
Proof.
  intros Hc E P0 Hp. apply counts_finish. pose proof (counts_local _ _ _ _ _ _ _ _ _ Hc E) as ((L1 & L2) & L3 & L4 & L5). destruct (L3 P0 P0) as [E1 E2]. apply (counts_exempt _ _ _ _ _ _ n) in Hc.
  destruct acquire; (eapply counts_node; [exact Hc|exact E|done|done|done| |done|done]); unfold local_ok; cbn in *; rewrite Hp in *; cbn in *; (split_and!; [tauto|tauto|lia|lia|tauto]).
Qed.

(** ** References *)
Lemma counts_ref X Y mgr N R Hs Hw r rf rf' nd : counts X Y mgr N R Hs Hw -> R !! r = Some rf -> N !! r_node rf = Some nd -> r_node rf' = r_node rf -> 0 <= strong rf' < 2 ^ 31 -> 0 <= weak rf' < 2 ^ 31 ->
  counts X Y mgr (<[r_node rf := with_internal (internal_strong_refs nd - weight R r + weight (<[r := rf']> R) r) nd]> N) (<[r := rf']> R) Hs Hw.
Proof.
  intros [H1 H2 H3 H4 H5 H6 H7 H8] Er E Hn Hst Hwk. set (n := r_node rf) in *. set (nd' := with_internal _ nd). assert (r ∈ refs nd) as Hin by (destruct (H1 _ _ Er) as (y & Ey & ?); fold n in Ey; by simplify_eq). assert (forall x, x <> n -> <[n := nd']> N !! x = N !! x) as Hne by (intros x Hx; by apply lookup_insert_ne).
  split.
  - intros x rx Ex. assert (exists rx0, R !! x = Some rx0 /\ r_node rx0 = r_node rx) as (rx0 & E0 & <-) by (apply lookup_insert_Some in Ex as [[<- <-]|[_ Ex]]; [by exists rf|by exists rx]). destruct (H1 _ _ E0) as (y & Ey & Hiny).
    destruct (decide (r_node rx0 = n)) as [En|Hx]; [exists nd'; rewrite En in *; rewrite lookup_insert_eq; by simplify_eq|exists y; by rewrite Hne].
  - intros x rx [[<- <-]|[_ Ex]]%lookup_insert_Some; [done|by eapply H2].
  - intros x y Ey. assert (exists y0, N !! x = Some y0 /\ refs y = refs y0) as (y0 & E0 & Hrefs) by (apply lookup_insert_Some in Ey as [[<- <-]|[_ Ey]]; [by exists nd|by exists y]). destruct (H3 _ _ E0) as (Hnd & Hr & Hi). rewrite Hrefs. split_and!; [done|..].
    + intros z Hz. destruct (Hr z Hz) as (rz & Ez & Hzn). destruct (decide (z = r)) as [->|Hzr]; [exists rf'; rewrite lookup_insert_eq; simplify_eq; by split|exists rz; by rewrite lookup_insert_ne].
    + apply lookup_insert_Some in Ey as [[<- <-]|[Hx Ey]]; [|].
      * rewrite E in E0. injection E0 as <-. rewrite strong_count_insert by done. cbn. lia.
      * rewrite E0 in Ey. injection Ey as <-. rewrite Hi. apply strong_count_ext. intros z Hz. rewrite weight_insert_ne; [done|]. intros ->. destruct (Hr r Hz) as (rz & Ez & Hzn). rewrite Er in Ez. injection Ez as <-. by apply Hx.
  - intros x y [[<- <-]|[_ Ey]]%lookup_insert_Some; [by apply (H4 _ _ E)|by eapply H4].
  - intros x y [[<- <-]|[_ Ey]]%lookup_insert_Some; [by apply (H5 _ _ E)|by eapply H5].
  - intros x y [[<- <-]|[_ Ey]]%lookup_insert_Some; [by apply (H6 _ _ E)|by eapply H6].
  - intros x Hx. destruct (H7 x Hx) as (y & Ey & ? & ?). destruct (decide (x = n)) as [->|Hxn]; [exists nd'; rewrite lookup_insert_eq; by simplify_eq|exists y; by rewrite Hne].
  - intros Hm. destruct (H8 Hm) as (y & Ey & ? & ? & ? & ?). destruct (decide (mgr = n)) as [->|Hxn]; [exists nd'; rewrite lookup_insert_eq; by simplify_eq|exists y; by rewrite Hne].
Qed.
Lemma with_internal_id nd i : i = internal_strong_refs nd -> with_internal i nd = nd. Proof. intros ->. by destruct nd. Qed.
Lemma counts_inc_ref X Y mgr N R Hs Hw r rf nd (st : bool) : counts X Y mgr N R Hs Hw -> R !! r = Some rf -> N !! r_node rf = Some nd -> (if st then strong rf else weak rf) < 2 ^ 31 - 1 ->
  counts X Y mgr (if st && (strong rf =? 0) then <[r_node rf := inc_counts true true nd]> N else N) (<[r := inc_ref_result st rf]> R) Hs Hw.
Proof.
  intros Hc Er E Hroom. destruct (co_range _ _ _ _ _ _ _ Hc _ _ Er) as [Hr1 Hr2]. assert (0 <= strong (inc_ref_result st rf) < 2 ^ 31 /\ 0 <= weak (inc_ref_result st rf) < 2 ^ 31 /\ strong (inc_ref_result st rf) = (if st then strong rf + 1 else strong rf)) as (G1 & G2 & G3).
  { destruct st; cbn; rewrite s32_small by lia; lia. }
  pose proof (counts_ref _ _ _ _ _ _ _ r rf (inc_ref_result st rf) nd Hc Er E ltac:(by destruct st) G1 G2) as H. rewrite weight_insert, G3 in H. unfold weight in H. rewrite Er in H.
  destruct (st && _) eqn:Eb.
  - apply andb_true_iff in Eb as [-> Eb]. rewrite Eb in H. assert (strong rf + 1 =? 0 = false) as Ec by lia. rewrite Ec in H. unfold inc_counts. by replace (internal_strong_refs nd + 1) with (internal_strong_refs nd - 0 + 1) by lia.
  - rewrite with_internal_id in H; [by rewrite insert_id in H|]. destruct st; cbn in Eb |- *; [assert (strong rf + 1 =? 0 = false) as -> by lia; rewrite Eb; lia|]. destruct (strong rf =? 0); lia.
Qed.
Lemma counts_dec_ref X Y mgr N R Hs Hw r rf nd (st : bool) : counts X Y mgr N R Hs Hw -> R !! r = Some rf -> N !! r_node rf = Some nd -> (if st then strong rf else weak rf) <> 0 ->
  counts X Y mgr (<[r_node rf := if st && (strong rf - 1 =? 0) then dec_counts true true nd else nd]> N) (<[r := dec_ref_result st rf]> R) Hs Hw.
Proof.
  intros Hc Er E H0. destruct (co_range _ _ _ _ _ _ _ Hc _ _ Er) as [Hr1 Hr2].
  pose proof (counts_ref _ _ _ _ _ _ _ r rf (dec_ref_result st rf) nd Hc Er E ltac:(by destruct st) ltac:(destruct st; cbn; lia) ltac:(destruct st; cbn; lia)) as H. rewrite weight_insert in H. unfold weight in H. rewrite Er in H.
  destruct (st && _) eqn:Eb.
  - apply andb_true_iff in Eb as [-> Eb]. cbn in H |- *. assert (strong rf =? 0 = false) as Ec by lia. rewrite Eb, Ec in H. by replace (internal_strong_refs nd - 1 + 0) with (internal_strong_refs nd - 1) in H by lia.
  - rewrite with_internal_id in H; [done|]. destruct st; cbn in Eb |- *; [assert (strong rf =? 0 = false) as -> by lia; rewrite Eb; lia|]. destruct (strong rf =? 0); lia.
Qed.
Lemma counts_new_ref X Y mgr N R Hs Hw P r n nd d : counts X Y mgr N R Hs Hw -> R !! r = None -> N !! n = Some nd -> counts X Y mgr (<[n := with_refs (r :: refs nd) nd]> N) (<[r := Ref P n d 0 0]> R) Hs Hw.
Proof.
  intros [H1 H2 H3 H4 H5 H6 H7 H8] Er E. set (nd' := with_refs _ nd). assert (forall x, x <> n -> <[n := nd']> N !! x = N !! x) as Hne by (intros x Hx; by apply lookup_insert_ne).
  assert (forall x y, N !! x = Some y -> r ∉ refs y) as Hnew by (intros x y Ey Hin; destruct (H3 _ _ Ey) as (_ & Hr & _); destruct (Hr r Hin) as (rf & ? & _); congruence).
  assert (forall x y, N !! x = Some y -> strong_count (<[r := Ref P n d 0 0]> R) (refs y) = strong_count R (refs y)) as Hsc.
  { intros x y Ey. apply strong_count_ext. intros z Hz. rewrite weight_insert_ne; [done|]. intros ->. by apply (Hnew _ _ Ey). }
  split.
  - intros x rx [[<- <-]|[Hx Ex]]%lookup_insert_Some; cbn; [exists nd'; rewrite lookup_insert_eq; split; [done|set_solver +]|]. destruct (H1 _ _ Ex) as (y & Ey & Hin).
    destruct (decide (r_node rx = n)) as [En|Hxn]; [exists nd'; rewrite En in *; rewrite lookup_insert_eq; simplify_eq; set_solver +Hin|exists y; by rewrite Hne].
  - intros x rx [[<- <-]|[_ Ex]]%lookup_insert_Some; [cbn; lia|by eapply H2].
  - intros x y [[<- <-]|[Hx Ey]]%lookup_insert_Some.
    + destruct (H3 _ _ E) as (Hnd & Hr & Hi). cbn. split_and!; [by constructor; [apply (Hnew _ _ E)|]|..].
      * intros z [->|Hz]%elem_of_cons; [exists (Ref P n d 0 0); by rewrite lookup_insert_eq|]. destruct (Hr z Hz) as (rz & Ez & ?). exists rz. rewrite lookup_insert_ne by congruence. done.
      * rewrite weight_insert. cbn. fold (strong_count (<[r := Ref P n d 0 0]> R) (refs nd)). by rewrite (Hsc _ _ E), Hi.
    + destruct (H3 _ _ Ey) as (Hnd & Hr & Hi). split_and!; [done| |by rewrite (Hsc _ _ Ey)]. intros z Hz. destruct (Hr z Hz) as (rz & Ez & ?). exists rz. rewrite lookup_insert_ne by congruence. done.
  - intros x y [[<- <-]|[_ Ey]]%lookup_insert_Some; [by apply (H4 _ _ E)|by eapply H4].
  - intros x y [[<- <-]|[_ Ey]]%lookup_insert_Some; [by apply (H5 _ _ E)|by eapply H5].
  - intros x y [[<- <-]|[_ Ey]]%lookup_insert_Some; [|by eapply H6]. intros P0. destruct (H6 _ _ E P0) as (? & ? & _). by split_and!.
  - intros x Hx. destruct (H7 x Hx) as (y & Ey & ? & ?). destruct (decide (x = n)) as [->|Hxn]; [exists nd'; rewrite lookup_insert_eq; by simplify_eq|exists y; by rewrite Hne].
  - intros Hm. destruct (H8 Hm) as (y & Ey & ? & ? & ? & ?). destruct (decide (mgr = n)) as [->|Hxn]; [exists nd'; rewrite lookup_insert_eq; by simplify_eq|exists y; by rewrite Hne].
Qed.
Lemma counts_del_ref X mgr N R Hs Hw r rf nd : counts X None mgr N R Hs Hw -> R !! r = Some rf -> N !! r_node rf = Some nd ->
  counts X None mgr (partial_alter (λ _, del_result r (negb (strong rf =? 0)) nd) (r_node rf) N) (delete r R) Hs Hw.
Proof.
  intros Hc Er E. set (n := r_node rf) in *. unfold del_result. apply counts_finish. cbn [dec_counts]. set (nd' := without_ref _ _ nd). destruct Hc as [H1 H2 H3 H4 H5 H6 H7 H8].
  assert (r ∈ refs nd) as Hin by (destruct (H1 _ _ Er) as (y & Ey & ?); fold n in Ey; by simplify_eq). assert (forall x, x <> n -> <[n := nd']> N !! x = N !! x) as Hne by (intros x Hx; by apply lookup_insert_ne).
  assert (refs nd' = filter (λ x, x <> r) (refs nd) /\ n_proc nd' = n_proc nd /\ local_strong_refs nd' = local_strong_refs nd /\ local_weak_refs nd' = local_weak_refs nd /\ has_strong_ref nd' = has_strong_ref nd /\ has_weak_ref nd' = has_weak_ref nd /\
    pending_strong_ref nd' = pending_strong_ref nd /\ pending_weak_ref nd' = pending_weak_ref nd /\ internal_strong_refs nd' = internal_strong_refs nd - weight R r) as (F1 & F2 & F3 & F4 & F5 & F6 & F7 & F8 & F9).
  { unfold nd', without_ref, weight. rewrite Er. destruct (strong rf =? 0); cbn; split_and!; try done; lia. }
  split.
  - intros x rx [Hx Ex]%lookup_delete_Some. destruct (H1 _ _ Ex) as (y & Ey & Hiny). destruct (decide (r_node rx = n)) as [En|Hxn]; [|exists y; by rewrite Hne].
    exists nd'. rewrite En, lookup_insert_eq, F1. rewrite En, E in Ey. injection Ey as <-. split; [done|]. apply list_elem_of_filter. done.
  - intros x rx [_ Ex]%lookup_delete_Some. by eapply H2.
  - intros x y [[<- <-]|[Hx Ey]]%lookup_insert_Some.
    + destruct (H3 _ _ E) as (Hnd & Hr & Hi). rewrite F1, F9. split_and!; [by apply NoDup_filter|..].
      * intros z [Hzr Hz]%list_elem_of_filter. destruct (Hr z Hz) as (rz & Ez & ?). exists rz. by rewrite lookup_delete_ne.
      * rewrite (strong_count_ext (delete r R) R); [rewrite strong_count_filter by done; lia|]. intros z [Hz _]%list_elem_of_filter. by apply weight_delete_ne.
    + destruct (H3 _ _ Ey) as (Hnd & Hr & Hi). assert (r ∉ refs y) as Hny by (intros Hy; destruct (Hr r Hy) as (rz & Ez & Hz); rewrite Er in Ez; injection Ez as <-; by apply Hx). split_and!; [done|..].
      * intros z Hz. destruct (Hr z Hz) as (rz & Ez & ?). exists rz. rewrite lookup_delete_ne by congruence. done.
      * rewrite Hi. apply strong_count_ext. intros z Hz. symmetry. apply weight_delete_ne. congruence.
  - intros x y [[<- <-]|[_ Ey]]%lookup_insert_Some; [rewrite F5, F6, F7, F8; by apply (H4 _ _ E)|by eapply H4].
  - intros x y [[<- <-]|[_ Ey]]%lookup_insert_Some; [rewrite F2, F3, F4, F7, F8; by apply (H5 _ _ E)|by eapply H5].
  - intros x y [[<- <-]|[Hx Ey]]%lookup_insert_Some; rewrite ?F2, ?F3, ?F4; intros P0; [destruct (H6 _ _ E P0) as (? & ? & _)|destruct (H6 _ _ Ey P0) as (? & ? & Hrx)]; split_and!; [done..|intros []; done|done|done|intros _; by apply Hrx].
  - intros x Hx. destruct (H7 x Hx) as (y & Ey & ? & ?). destruct (decide (x = n)) as [->|Hxn]; [exists nd'; rewrite lookup_insert_eq, F2; by simplify_eq|exists y; by rewrite Hne].
  - intros Hm. destruct (H8 Hm) as (y & Ey & ? & ? & ? & ?). destruct (decide (mgr = n)) as [->|Hxn]; [exists nd'; rewrite lookup_insert_eq, F2, F5, F6; by simplify_eq|exists y; by rewrite Hne].
Qed.

(** ** Nodes that come, are told of, and go *)
Lemma counts_new_node X Y mgr N R Hs Hw n P ptr cookie : counts X Y mgr N R Hs Hw -> N !! n = None -> n <> 0 -> P <> 0 -> counts X Y mgr (<[n := new_node P ptr cookie]> N) R Hs Hw.
Proof.
  intros [H1 H2 H3 H4 H5 H6 H7 H8] En Hn0 P0. assert (forall x y, N !! x = Some y -> <[n := new_node P ptr cookie]> N !! x = Some y) as Hold by (intros x y Ey; rewrite lookup_insert_ne by congruence; done).
  assert (held n Hs = 0 /\ held n Hw = 0 /\ n <> mgr) as (G1 & G2 & G3).
  { split_and!; [apply held_notin|apply held_notin|]; [intros Hx; destruct (H7 n) as (y & ? & _); [tauto|congruence]..|]. intros ->. destruct (H8 Hn0) as (y & ? & _). congruence. }
  split.
  - intros r rf Er. destruct (H1 _ _ Er) as (y & Ey & ?). exists y. by rewrite (Hold _ _ Ey).
  - done.
  - intros x y [[<- <-]|[_ Ey]]%lookup_insert_Some; [|by apply H3]. cbn. split_and!; [constructor|set_solver +|done].
  - intros x y [[<- <-]|[_ Ey]]%lookup_insert_Some; [done|by eapply H4].
  - intros x y [[<- <-]|[_ Ey]]%lookup_insert_Some; [|by apply H5]. intros _ _. cbn. rewrite G1, G2, (proj2 (Z.eqb_neq n mgr) G3). done.
  - intros x y [[<- <-]|[_ Ey]]%lookup_insert_Some; [done|by apply H6].
  - intros x Hx. destruct (H7 x Hx) as (y & Ey & ?). exists y. by rewrite (Hold _ _ Ey).
  - intros Hm. destruct (H8 Hm) as (y & Ey & ?). exists y. by rewrite (Hold _ _ Ey).
Qed.
(** The node of the context manager. *)
Definition managing nd : binder_node := with_strong_flags true (pending_strong_ref nd) (with_weak_flags true (pending_weak_ref nd) (with_local_strong (local_strong_refs nd + 1) (with_local_weak (local_weak_refs nd + 1) nd))).
Lemma counts_mgr N R Hs Hw n nd : counts 0 None 0 N R Hs Hw -> (forall x y, N !! x = Some y -> x <> 0) -> N !! n = Some nd -> n_proc nd <> 0 -> counts 0 None n (<[n := managing nd]> N) R Hs Hw.
Proof.
  intros Hc Hnz E P0. pose proof (Hnz _ _ E) as Hn0. pose proof (counts_local _ _ _ _ _ _ _ _ _ Hc E) as (_ & L3 & _ & _). destruct (L3 P0 P0) as [E1 E2]. rewrite (proj2 (Z.eqb_neq n 0) Hn0) in E1, E2. cbn in E1, E2.
  destruct Hc as [H1 H2 H3 H4 H5 H6 H7 H8]. assert (forall x, x <> n -> <[n := managing nd]> N !! x = N !! x) as Hne by (intros x Hx; by apply lookup_insert_ne). split.
  - intros r rf Er. destruct (H1 _ _ Er) as (y & Ey & Hin). destruct (decide (r_node rf = n)) as [En|Hx]; [exists (managing nd); rewrite En in *; rewrite lookup_insert_eq; by simplify_eq|exists y; by rewrite Hne].
  - done.
  - intros x y [[<- <-]|[_ Ey]]%lookup_insert_Some; [by apply (H3 _ _ E)|by apply H3].
  - intros x y [[<- <-]|[_ Ey]]%lookup_insert_Some; [done|by eapply H4].
  - intros x y [[<- <-]|[Hx Ey]]%lookup_insert_Some; [intros _ _; cbn; rewrite Z.eqb_refl; cbn; lia|]. intros Q0 _. destruct (H5 _ _ Ey Q0 Q0) as [F1 F2]. pose proof (Hnz _ _ Ey) as Hx0. rewrite (proj2 (Z.eqb_neq x 0) Hx0) in F1, F2. assert (x =? n = false) as -> by lia. done.
  - intros x y [[<- <-]|[_ Ey]]%lookup_insert_Some; [done|by apply H6].
  - intros x Hx. destruct (H7 x Hx) as (y & Ey & ? & ?). destruct (decide (x = n)) as [->|Hxn]; [exists (managing nd); rewrite lookup_insert_eq; by simplify_eq|exists y; by rewrite Hne].
  - intros _. exists (managing nd). by rewrite lookup_insert_eq.
Qed.
(** [BINDER_WORK_NODE]: the last reference is not told before the acknowledgements are in. *)
Lemma counts_work mgr N R Hs Hw n nd : counts 0 None mgr N R Hs Hw -> N !! n = Some nd -> n_proc nd <> 0 -> n <> 0 -> counts 0 None mgr (partial_alter (λ _, (work_result nd).2) n N) R Hs Hw.
Proof.
  intros Hc E P0 Hn0. pose proof (counts_local _ _ _ _ _ _ _ _ _ Hc E) as ((L1 & L2) & L3 & L4 & L5). destruct (L3 P0 P0) as [E1 E2]. pose proof (held_pos n Hs) as Ps. pose proof (held_pos n Hw) as Pw.
  pose proof (co_refs _ _ _ _ _ _ _ Hc _ _ E) as (_ & _ & Hi). pose proof (strong_count_pos R (refs nd)) as Hsc.
  assert (forall nd', n_proc nd' = n_proc nd -> refs nd' = refs nd -> internal_strong_refs nd' = internal_strong_refs nd -> local_ok 0 mgr n nd' Hs Hw -> counts 0 None mgr (<[n := nd']> N) R Hs Hw) as Hset.
  { intros nd' ? ? ? ?. eapply counts_node; [exact Hc|exact E|done..|]. intros Hx. destruct (co_held _ _ _ _ _ _ _ Hc n Hx) as (y & Ey & ?). by simplify_eq. }
  assert (node_strong nd = false -> pending_strong_ref nd = false /\ n <> mgr) as Hns by (unfold node_strong; intros Hb; destruct (pending_strong_ref nd), (Z.eqb_spec n mgr); cbn [Z.b2z] in *; split; try done; lia).
  assert (node_weak nd = false -> pending_weak_ref nd = false /\ n <> mgr) as Hnw by (unfold node_weak; intros Hb; destruct (pending_weak_ref nd), (Z.eqb_spec n mgr); cbn [Z.b2z] in *; split; try done; lia).
  unfold work_result. destruct (node_weak nd && negb (has_weak_ref nd)) eqn:B1; [|destruct (node_strong nd && negb (has_strong_ref nd)) eqn:B2; [|destruct (negb (node_strong nd) && has_strong_ref nd) eqn:B3; [|destruct (negb (node_weak nd) && has_weak_ref nd) eqn:B4]]]; cbn [snd].
  - assert (has_weak_ref nd = false) as Bw by lia. assert (pending_weak_ref nd = false) as Bp by (destruct (pending_weak_ref nd); [|done]; rewrite L2 in Bw by done; done). rewrite Bp in E2. apply Hset; [done..|]. refine (conj (conj L1 _) (conj _ (conj _ _))); cbn in *; [done|lia|done|]. intros Hm Hm0. by destruct (L5 Hm Hm0).
  - assert (has_strong_ref nd = false) as Bw by lia. assert (pending_strong_ref nd = false) as Bp by (destruct (pending_strong_ref nd); [|done]; rewrite L1 in Bw by done; done). rewrite Bp in E1. apply Hset; [done..|]. refine (conj (conj _ L2) (conj _ (conj _ _))); cbn in *; [done|lia|done|]. intros Hm Hm0. by destruct (L5 Hm Hm0).
  - destruct Hns as [Hp Hm]; [lia|]. apply Hset; [done..|]. refine (conj (conj _ L2) (conj L3 (conj L4 _))); cbn; [by rewrite Hp|done].
  - destruct Hnw as [Hp Hm]; [lia|]. apply Hset; [done..|]. refine (conj (conj L1 _) (conj L3 (conj L4 _))); cbn; [by rewrite Hp|done].
  - destruct (negb (node_weak nd) && negb (node_strong nd)) eqn:B5; [|exact (eq_ind_r (λ M, counts 0 None mgr M R Hs Hw) Hc (insert_id N n nd E))]. unfold node_weak, node_strong in B5.
    eapply counts_drop; [by apply counts_exempt|exact E|destruct (bool_decide_reflect (refs nd = [])); [done|lia]|lia..].
Qed.

(** ** The end of a process *)
(** The nodes and the buffers of [P] do not count any more. *)
Lemma counts_leave mgr N R Hs Hw Hs' Hw' P : counts 0 None mgr N R Hs Hw -> (forall x y, N !! x = Some y -> x <> 0) -> (forall n nd, N !! n = Some nd -> n_proc nd <> P -> held n Hs' = held n Hs /\ held n Hw' = held n Hw) ->
  (forall n, n ∈ Hs' \/ n ∈ Hw' -> exists nd, N !! n = Some nd /\ n_proc nd <> 0 /\ n_proc nd <> P) ->
  counts P None (match N !! mgr with Some nd => if n_proc nd =? P then 0 else mgr | None => mgr end) N R Hs' Hw'.
Proof.
  intros [H1 H2 H3 H4 H5 H6 H7 H8] Hnz Hh Hin. set (mgr' := match N !! mgr with Some nd => _ | None => _ end). split; try done.
  - intros n nd E P0 PX. destruct (Hh n nd E PX) as [-> ->]. destruct (H5 n nd E P0 P0) as [-> ->]. assert ((n =? mgr') = (n =? mgr)) as ->; [|done]. pose proof (Hnz _ _ E) as Hn0.
    unfold mgr'. destruct (N !! mgr) as [ndm|] eqn:Em; [|done]. destruct (Z.eqb_spec (n_proc ndm) P) as [Hm|Hm]; [|done]. assert (n <> mgr) by (intros ->; congruence). lia.
  - intros Hm. unfold mgr' in *. destruct (N !! mgr) as [ndm|] eqn:Em; [|destruct (H8 Hm) as (y & ? & _); congruence]. destruct (Z.eqb_spec (n_proc ndm) P) as [Hp|Hp]; [done|].
    destruct (H8 Hm) as (y & Ey & ? & _ & ? & ?). exists y. simplify_eq. done.
Qed.
Definition retire_result nd : option binder_node := if bool_decide (refs nd = []) then None else Some (with_local_weak 0 (with_local_strong 0 (with_proc 0 nd))).
Lemma counts_retire P mgr N R Hs Hw n nd : counts P None mgr N R Hs Hw -> N !! n = Some nd -> n_proc nd = P -> counts P None mgr (partial_alter (λ _, retire_result nd) n N) R Hs Hw.
Proof.
  intros [H1 H2 H3 H4 H5 H6 H7 H8] E HP. assert (forall y, N !! n = Some y -> n_proc y <> P -> False) as Hn by (intros y Ey Hy; congruence). unfold retire_result. destruct (bool_decide_reflect (refs nd = [])) as [Hr|Hr].
  - change (partial_alter (λ _, None) n N) with (delete n N). split; try done.
    + intros r rf Er. destruct (H1 _ _ Er) as (y & Ey & Hin). exists y. rewrite lookup_delete_ne; [done|]. intros En. rewrite <-En, E in Ey. simplify_eq. rewrite Hr in Hin. set_solver +Hin.
    + intros x y [_ Ey]%lookup_delete_Some. by apply H3.
    + intros x y [_ Ey]%lookup_delete_Some. by eapply H4.
    + intros x y [_ Ey]%lookup_delete_Some. by apply H5.
    + intros x y [_ Ey]%lookup_delete_Some. by apply H6.
    + intros x Hx. destruct (H7 x Hx) as (y & Ey & ? & ?). exists y. rewrite lookup_delete_ne; [done|]. intros ->. by eapply Hn.
    + intros Hm. destruct (H8 Hm) as (y & Ey & ? & ? & ?). exists y. rewrite lookup_delete_ne; [done|]. intros ->. by eapply Hn.
  - set (nd' := with_local_weak _ _). change (partial_alter (λ _, Some nd') n N) with (<[n := nd']> N). assert (forall x, x <> n -> <[n := nd']> N !! x = N !! x) as Hne by (intros x Hx; by apply lookup_insert_ne). split; try done.
    + intros r rf Er. destruct (H1 _ _ Er) as (y & Ey & Hin). destruct (decide (r_node rf = n)) as [En|Hx]; [exists nd'; rewrite En in *; rewrite lookup_insert_eq; by simplify_eq|exists y; by rewrite Hne].
    + intros x y [[<- <-]|[_ Ey]]%lookup_insert_Some; [by apply (H3 _ _ E)|by apply H3].
    + intros x y [[<- <-]|[_ Ey]]%lookup_insert_Some; [by apply (H4 _ _ E)|by eapply H4].
    + intros x y [[<- <-]|[_ Ey]]%lookup_insert_Some; [done|by apply H5].
    + intros x y [[<- <-]|[_ Ey]]%lookup_insert_Some; [intros _; by split_and!|by apply H6].
    + intros x Hx. destruct (H7 x Hx) as (y & Ey & ? & ?). exists y. rewrite Hne; [done|]. intros ->. by eapply Hn.
    + intros Hm. destruct (H8 Hm) as (y & Ey & ? & ? & ?). exists y. rewrite Hne; [done|]. intros ->. by eapply Hn.
Qed.
Lemma counts_gone P mgr N R Hs Hw : counts P None mgr N R Hs Hw -> (forall n nd, N !! n = Some nd -> n_proc nd <> P) -> counts 0 None mgr N R Hs Hw.
Proof.
  intros [H1 H2 H3 H4 H5 H6 H7 H8] Hno. split; try done.
  - intros n nd E P0 _. apply H5; [done..|]. by eapply Hno.
  - intros n Hn. destruct (H7 n Hn) as (y & ? & ? & _). by exists y.
  - intros Hm. destruct (H8 Hm) as (y & ? & ? & _ & ?). by exists y.
Qed.
End BinderCount.
