(* ===== verification/BinderHold.v ===== *)
(** * What buffers hold

    A buffer holds the node it was sent to and the nodes that its objects name.  [good s l] is
    the invariant of binder's nodes and references when the buffers in [l] hold what they
    name; the operations of BinderRef.v keep it. *)
From stdpp Require Import prelude gmap list sorting.
From Stdlib Require Import ZArith Lia ZifyBool.
From S2P Require Import Prelude ListHead ListHeap Rbtree BinderRef BinderShape BinderNodes BinderCount.
Open Scope Z_scope.

Module BinderHold.
Import BinderRef BinderShape BinderNodes BinderCount.
Implicit Types (s : binder) (N : gmap Z binder_node) (R : gmap Z binder_ref) (nd : binder_node) (rf : binder_ref) (Hs Hw hs hw : list Z) (d : list Z) (l : list binder_buffer).

Definition named N (Q ptr n : Z) : Prop := exists nd, N !! n = Some nd /\ n_proc nd = Q /\ n_ptr nd = ptr.
Definition binder_type (st : bool) : Z := if st then BINDER_TYPE_BINDER else BINDER_TYPE_WEAK_BINDER.
(** The nodes that the objects at [offs] name. *)
Inductive holds N (Q size : Z) d : list Z -> list Z -> list Z -> Prop :=
  | holds_nil : holds N Q size d [] [] []
  | holds_binder off offs st ptr n hs hw : bad_offset size off = false -> d !! word_at off 0 = Some (binder_type st) -> d !! word_at off 2 = Some ptr -> named N Q ptr n ->
      holds N Q size d offs hs hw -> holds N Q size d (off :: offs) (hold st n (hs, hw)).1 (hold st n (hs, hw)).2
  | holds_other off offs type w hs hw : bad_offset size off = false -> d !! word_at off 0 = Some type -> type <> BINDER_TYPE_BINDER -> type <> BINDER_TYPE_WEAK_BINDER -> d !! word_at off 2 = Some w ->
      holds N Q size d offs hs hw -> holds N Q size d (off :: offs) hs hw.
Definition target_holds N (b : binder_buffer) : Prop := target_node b <> 0 -> exists nd, N !! target_node b = Some nd /\ n_proc nd = b_proc b.
Definition target_list (b : binder_buffer) : list Z := if target_node b =? 0 then [] else [target_node b].
Inductive bufs_hold N : list binder_buffer -> list Z -> list Z -> Prop :=
  | bufs_nil : bufs_hold N [] [] []
  | bufs_cons b l hs hw Hs Hw : target_holds N b -> holds N (b_proc b) (b_data_size b) (b_data b) (b_offsets b) hs hw -> bufs_hold N l Hs Hw -> bufs_hold N (b :: l) (target_list b ++ hs ++ Hs) (hw ++ Hw).

(** Nodes keep their names. *)
Definition ids N N' : Prop := forall n nd nd', N !! n = Some nd -> N' !! n = Some nd' -> n_proc nd' = n_proc nd /\ n_ptr nd' = n_ptr nd.
Definition keeps N N' (n : Z) : Prop := forall nd, N !! n = Some nd -> exists nd', N' !! n = Some nd' /\ n_proc nd' = n_proc nd /\ n_ptr nd' = n_ptr nd.
Lemma holds_mono N N' Q size d offs hs hw : (forall n, n ∈ hs \/ n ∈ hw -> keeps N N' n) -> holds N Q size d offs hs hw -> holds N' Q size d offs hs hw.
Proof.
  intros Hn. induction 1 as [|off offs st ptr n hs hw Hb H0 H2 (nd & E & Hp & Hq) H IH|off offs type w hs hw Hb H0 Hn1 Hn2 H2 H IH]; [constructor| |by econstructor; eauto].
  apply holds_binder with (ptr := ptr); [done..| |apply IH; intros x Hx; apply Hn; destruct st; cbn; set_solver +Hx]. destruct (Hn n ltac:(destruct st; cbn; set_solver +) nd E) as (nd' & E' & Hp' & Hq'). exists nd'. split_and!; [done|congruence..].
Qed.
Lemma bufs_hold_keep N N' l Hs Hw : (forall n, n ∈ Hs \/ n ∈ Hw -> keeps N N' n) -> bufs_hold N l Hs Hw -> bufs_hold N' l Hs Hw.
Proof.
  intros Hn. induction 1 as [|b l hs hw Hs Hw Ht Hh H IH]; [constructor|]. constructor.
  - intros H0. destruct (Ht H0) as (nd & E & Hp). destruct (Hn (target_node b) ltac:(left; unfold target_list; rewrite (proj2 (Z.eqb_neq _ _) H0); set_solver +) nd E) as (nd' & E' & Hp' & _). exists nd'. split; [done|congruence].
  - eapply holds_mono; [|done]. intros n Hx. apply Hn. set_solver +Hx.
  - apply IH. intros n Hx. apply Hn. set_solver +Hx.
Qed.
Lemma bufs_hold_mono N N' l Hs Hw : ids N N' -> (forall n, n ∈ Hs \/ n ∈ Hw -> is_Some (N' !! n)) -> bufs_hold N l Hs Hw -> bufs_hold N' l Hs Hw.
Proof. intros Hi Hn. apply bufs_hold_keep. intros n Hx nd E. destruct (Hn n Hx) as [nd' E']. exists nd'. split; [done|]. by eapply Hi. Qed.
Lemma bufs_hold_perm N l l' Hs Hw : l ≡ₚ l' -> bufs_hold N l Hs Hw -> exists Hs' Hw', bufs_hold N l' Hs' Hw' /\ Hs ≡ₚ Hs' /\ Hw ≡ₚ Hw'.
Proof.
  intros Hp. revert Hs Hw. induction Hp as [|b l l' Hp IH|b c l|l1 l2 l3 H1 IH1 H2 IH2]; intros Hs Hw Hh.
  - by exists Hs, Hw.
  - inversion Hh as [|? ? hs hw Hs0 Hw0 Ht Ho Hr]; subst. destruct (IH _ _ Hr) as (Hs' & Hw' & ? & E1 & E2). exists (target_list b ++ hs ++ Hs'), (hw ++ Hw'). split_and!; [by constructor|by rewrite E1|by rewrite E2].
  - inversion Hh as [|? ? hs hw Hs0 Hw0 Ht Ho Hr]; subst. inversion Hr as [|? ? hs' hw' Hs1 Hw1 Ht' Ho' Hr']; subst. eexists _, _. split; [constructor; [done..|]; by constructor|]. split; solve_Permutation.
  - destruct (IH1 _ _ Hh) as (Hs1 & Hw1 & Hh1 & E1 & F1). destruct (IH2 _ _ Hh1) as (Hs2 & Hw2 & Hh2 & E2 & F2). exists Hs2, Hw2. split_and!; [done|by rewrite E1|by rewrite F1].
Qed.
Lemma holds_app N Q size d o1 o2 hs1 hw1 hs2 hw2 : holds N Q size d o1 hs1 hw1 -> holds N Q size d o2 hs2 hw2 -> holds N Q size d (o1 ++ o2) (hs1 ++ hs2) (hw1 ++ hw2).
Proof.
  intros H1 H2. induction H1 as [|off offs st ptr n hs hw Hb H0 Hp Hn H IH|off offs type w hs hw Hb H0 Hn1 Hn2 Hp H IH]; cbn; [done| |by econstructor; eauto].
  pose proof (holds_binder _ _ _ _ _ _ _ _ _ _ _ Hb H0 Hp Hn IH) as Hx. by destruct st.
Qed.

(** ** The invariant *)
Record good s l : Prop := {
  g_shape : shape [] s;
  g_counts : exists Hs Hw, bufs_hold (bnodes s) l Hs Hw /\ counts 0 None (binder_context_mgr_node s) (bnodes s) (brefs s) Hs Hw;
}.
Lemma good_perm s l l' : l ≡ₚ l' -> good s l -> good s l'.
Proof. intros Hp [H1 (Hs & Hw & H2 & H3)]. destruct (bufs_hold_perm _ _ _ _ _ Hp H2) as (Hs' & Hw' & H2' & E1 & E2). split; [done|]. exists Hs', Hw'. split; [done|]. by eapply counts_perm. Qed.
Lemma good_step s s' l N R : good s l -> step_to [] s s' N R -> ids (bnodes s) N ->
  (forall Hs Hw, counts 0 None (binder_context_mgr_node s) (bnodes s) (brefs s) Hs Hw -> counts 0 None (binder_context_mgr_node s) N R Hs Hw) -> good s' l.
Proof.
  intros [H1 (Hs & Hw & H2 & H3)] [G1 G2 G3 G4] Hi Hc. split; [done|]. exists Hs, Hw. rewrite G3, G4, (fr_mgr _ _ G2). specialize (Hc _ _ H3). split; [|done].
  eapply bufs_hold_mono; [exact Hi| |exact H2]. intros n Hn. destruct (co_held _ _ _ _ _ _ _ Hc n Hn) as (nd & E & _). by exists nd.
Qed.
Lemma ids_refl N : ids N N. Proof. intros n nd nd' E E'. rewrite E in E'. by injection E' as <-. Qed.
Lemma ids_alter N n nd (o : option binder_node) : N !! n = Some nd -> (forall nd', o = Some nd' -> n_proc nd' = n_proc nd /\ n_ptr nd' = n_ptr nd) -> ids N (partial_alter (λ _, o) n N).
Proof.
  intros E Ho x y y' Ey Ey'. destruct (decide (x = n)) as [->|Hx]; [rewrite lookup_partial_alter_eq in Ey'; rewrite E in Ey; injection Ey as <-; by apply Ho|]. rewrite lookup_partial_alter_ne in Ey' by done. rewrite Ey in Ey'. by injection Ey' as <-.
Qed.
Lemma ids_insert N n nd nd' : N !! n = Some nd -> n_proc nd' = n_proc nd -> n_ptr nd' = n_ptr nd -> ids N (<[n := nd']> N).
Proof. intros E Hp Hq. apply (ids_alter N n nd (Some nd') E). intros ? [= <-]. done. Qed.
Lemma ids_new N n nd : N !! n = None -> ids N (<[n := nd]> N).
Proof. intros E x y y' Ey Ey'. rewrite lookup_insert_ne in Ey' by congruence. rewrite Ey in Ey'. by injection Ey' as <-. Qed.
Lemma dec_result_id st internal nd nd' : dec_result st internal nd = Some nd' -> nd' = dec_counts st internal nd.
Proof. unfold dec_result. destruct (if st then _ else _); [congruence|]. destruct (negb _ && _); [congruence|]. destruct (bool_decide _ && _ && _); congruence. Qed.
Lemma ids_dec N n nd st internal : N !! n = Some nd -> ids N (partial_alter (λ _, dec_result st internal nd) n N).
Proof. intros E. apply (ids_alter _ _ _ _ E). intros nd' ->%dec_result_id. apply dec_counts_id. Qed.
Lemma ids_del N n nd r st : N !! n = Some nd -> ids N (partial_alter (λ _, del_result r st nd) n N).
Proof. intros E. apply (ids_alter _ _ _ _ E). intros nd' H. unfold del_result in H. apply dec_result_id in H as ->. by destruct st. Qed.

(** ** Lookups *)
Lemma key_unique D s k P x y : trees D s -> is_Some (bprocs s !! P) -> member s k P x -> (k, x) ∉ D -> member s k P y -> (k, y) ∉ D -> key s k x = key s k y -> x = y.
Proof.
  intros [Ht] [pr E] Hx Dx Hy Dy Hk. destruct (Ht P pr k E) as (l & _ & Hs & Hl). assert (x ∈ l) as (l1 & l2 & ->)%list_elem_of_split by (by apply Hl). assert (y ∈ l1 ++ x :: l2) as Hyl by (by apply Hl).
  apply StronglySorted_app in Hs as (H1 & H2 & H3). apply StronglySorted_cons in H3 as [H3 _]. rewrite Forall_forall in H3. apply elem_of_app in Hyl as [Hyl|[->|Hyl]%elem_of_cons]; [|done|].
  - specialize (H1 y x Hyl ltac:(set_solver +)). unfold klt in H1. lia.
  - specialize (H3 y Hyl). unfold klt in H3. lia.
Qed.
Lemma named_unique s P ptr x y : shape [] s -> is_Some (bprocs s !! P) -> named (bnodes s) P ptr x -> named (bnodes s) P ptr y -> x = y.
Proof.
  intros Hs HP (nx & Ex & Px & Qx) (ny & Ey & Py & Qy). eapply (key_unique [] s By_ptr P); [apply Hs|done|by exists nx|apply not_elem_of_nil|by exists ny|apply not_elem_of_nil|]. cbn. rewrite Ex, Ey. congruence.
Qed.
Lemma get_node_run s P ptr : shape [] s -> is_Some (bprocs s !! P) -> exists n, binder_get_node P ptr s = Some (n, s) /\ ((n = 0 /\ forall x, ~ named (bnodes s) P ptr x) \/ (n <> 0 /\ named (bnodes s) P ptr n)).
Proof.
  intros Hs HP. destruct (find_run [] s By_ptr P ptr (sh_trees _ _ Hs) HP) as (n & Hrun & H). exists n. split; [exact Hrun|]. destruct H as [[-> H]|(H0 & (nd & E & Hp) & _ & Hk)]; [left|right].
  - split; [done|]. intros x (nd & E & Hp & Hq). apply (H x); [by exists nd|apply not_elem_of_nil|cbn; by rewrite E].
  - split; [done|]. exists nd. cbn in Hk. rewrite E in Hk. done.
Qed.
Lemma get_ref_run s P (d : Z) : shape [] s -> is_Some (bprocs s !! P) ->
  exists r, binder_get_ref P d s = Some (r, s) /\ ((r = 0 /\ forall x rf, brefs s !! x = Some rf -> r_proc rf = P -> desc rf <> d) \/ (r <> 0 /\ exists rf, brefs s !! r = Some rf /\ r_proc rf = P /\ desc rf = d)).
Proof.
  intros Hs HP. destruct (find_run [] s By_desc P d (sh_trees _ _ Hs) HP) as (r & Hrun & H). exists r. split; [exact Hrun|]. destruct H as [[-> H]|(H0 & (rf & E & Hp) & _ & Hk)]; [left|right].
  - split; [done|]. intros x rf E Hp Hd. apply (H x); [by exists rf|apply not_elem_of_nil|cbn; by rewrite E].
  - split; [done|]. exists rf. cbn in Hk. rewrite E in Hk. done.
Qed.
Lemma good_ref s l r rf : good s l -> brefs s !! r = Some rf -> exists nd, bnodes s !! r_node rf = Some nd /\ r ∈ refs nd.
Proof. intros [_ (Hs & Hw & _ & Hc)] E. by apply (co_ref _ _ _ _ _ _ _ Hc). Qed.

(** ** Operations that leave the holders alone *)
Definition available s (x : Z) : Prop := x = 0 \/ fresh s x.
Lemma good_new_node s l P ptr cookie mem : good s l -> is_Some (bprocs s !! P) -> available s mem ->
  exists n s', binder_new_node P ptr cookie mem s = Some (n, s') /\ good s' l /\ frame s s' /\ brefs s' = brefs s /\
    ((n = 0 /\ s' = s) \/ (n = mem /\ n <> 0 /\ bnodes s !! n = None /\ bnodes s' = <[n := new_node P ptr cookie]> (bnodes s))).
Proof.
  intros Hg HP Hm. destruct (new_node_run s P ptr cookie mem (g_shape _ _ Hg) HP Hm) as (n & s' & Hrun & H). exists n, s'. split; [done|]. destruct H as [(-> & -> & _)|(-> & H0 & Hf & _ & Hst)]; [split_and!; [done..|by left]|].
  pose proof Hf as (_ & Fn & _ & _). split_and!; [|apply Hst|apply Hst|right; split_and!; [done..|apply Hst]]. eapply good_step; [done|exact Hst|by apply ids_new|]. intros Hs Hw Hc. apply counts_new_node; [done..|]. apply (sh_proc _ _ (g_shape _ _ Hg) _ HP).
Qed.
Lemma good_get_ref_for_node s l P n nd mem : good s l -> is_Some (bprocs s !! P) -> bnodes s !! n = Some nd -> available s mem ->
  exists r s', binder_get_ref_for_node P n mem s = Some (r, s') /\ good s' l /\ frame s s' /\ (mem <> 0 -> r <> 0) /\
    ((r = 0 /\ s' = s) \/ (r <> 0 /\ exists rf, brefs s' !! r = Some rf /\ r_proc rf = P /\ r_node rf = n /\
      ((s' = s) \/ (r = mem /\ brefs s !! r = None /\ brefs s' = <[r := rf]> (brefs s) /\ strong rf = 0 /\ weak rf = 0 /\ bnodes s' = <[n := with_refs (r :: refs nd) nd]> (bnodes s))))).
Proof.
  intros Hg HP E Hm. destruct (get_ref_for_node_run s P n nd mem (g_shape _ _ Hg) HP E Hm) as (r & s' & Hrun & H). exists r, s'. split; [done|]. destruct H as [(-> & H0 & rf & Er & Hp & Hn)|[Hno [(-> & -> & ->)|(-> & H0 & Hf & d & Hd & Hb & Hst)]]].
  - split_and!; [done..|]. right. split; [done|]. exists rf. split_and!; [done..|by left].
  - split_and!; [done..|by left].
  - pose proof Hf as (_ & _ & Fr & _). split_and!; [|apply Hst|done|].
    + eapply good_step; [done|exact Hst|by eapply ids_insert|]. intros Hs Hw Hc. by apply counts_new_ref.
    + right. split; [done|]. exists (Ref P n d 0 0). rewrite (st_refs _ _ _ _ _ Hst), lookup_insert_eq. split_and!; [done..|]. right. split_and!; [done..|apply Hst].
Qed.
Lemma good_inc_ref s l r rf nd (st : bool) target : good s l -> brefs s !! r = Some rf -> bnodes s !! r_node rf = Some nd -> list_for s target nd -> (if st then strong rf else weak rf) < 2 ^ 31 - 1 ->
  exists ret s', binder_inc_ref r st target s = Some (ret, s') /\ good s' l /\ frame s s' /\ (target <> 0 -> ret = 0) /\
    (exists rf', brefs s' = <[r := rf']> (brefs s) /\ r_proc rf' = r_proc rf /\ r_node rf' = r_node rf /\ desc rf' = desc rf /\ strong rf' <= strong rf + 1 /\ weak rf' <= weak rf + 1) /\
    (forall x, is_Some (bnodes s' !! x) <-> is_Some (bnodes s !! x)).
Proof.
  intros Hg E En Hl Hroom. pose proof Hg as [Hsh (Hs & Hw & _ & Hc)]. destruct (co_range _ _ _ _ _ _ _ Hc _ _ E) as [R1 R2]. destruct (inc_ref_run s r rf nd st target Hsh E En Hl) as (ret & s' & Hrun & H). exists ret, s'. split; [done|].
  destruct H as [[-> Hst]|(-> & H0 & Hst)].
  - split_and!; [|apply Hst|done|exists (inc_ref_result st rf); split_and!; [apply Hst|by destruct st..|destruct st; cbn; rewrite ?s32_small by lia; lia|destruct st; cbn; rewrite ?s32_small by lia; lia]|].
    + eapply good_step; [done|exact Hst| |intros ? ? ?; by apply counts_inc_ref]. destruct (st && _); [by eapply ids_insert|apply ids_refl].
    + intros x. rewrite (st_nodes _ _ _ _ _ Hst). destruct (st && _); [|done]. destruct (decide (x = r_node rf)) as [->|Hx]; [rewrite lookup_insert_eq, En; split; by eexists|by rewrite lookup_insert_ne].
  - split_and!; [|apply Hst|done|exists rf; split_and!; [rewrite insert_id by done; apply Hst|done..|lia|lia]|intros x; by rewrite (st_nodes _ _ _ _ _ Hst)]. eapply good_step; [done|exact Hst|apply ids_refl|done].
Qed.
Lemma good_dec_ref s l r rf (st : bool) : good s l -> brefs s !! r = Some rf -> exists ret s', binder_dec_ref r st s = Some (ret, s') /\ good s' l /\ frame s s'.
Proof.
  intros Hg E. destruct (good_ref _ _ _ _ Hg E) as (nd & En & Hin). destruct (dec_ref_run s r rf nd st (g_shape _ _ Hg) E En Hin) as (ret & s' & Hrun & H). exists ret, s'. split; [done|].
  destruct (Z.eqb_spec (if st then strong rf else weak rf) 0) as [H0|H0]; [by destruct H as [_ ->]|]. destruct H as [_ H]. destruct (_ && (weak (dec_ref_result st rf) =? 0)) eqn:Ez.
  - assert (del_result r false (if st && (strong rf - 1 =? 0) then dec_counts true true nd else nd) = del_result r (negb (strong rf =? 0)) nd) as Hd.
    { apply andb_true_iff in Ez as [Ez _]. unfold del_result, without_ref. destruct st; cbn in *; [assert (strong rf =? 0 = false) as -> by lia; rewrite Ez; done|by rewrite Ez]. }
    rewrite Hd in H. split; [|apply H]. eapply good_step; [done|exact H|by eapply ids_del|]. intros Hs Hw Hc. by apply counts_del_ref.
  - split; [|apply H]. eapply good_step; [done|exact H|destruct (st && _); by eapply ids_insert|]. intros Hs Hw Hc. by apply counts_dec_ref.
Qed.

(** ** Holders come and go *)
Lemma good_hold s l l' n nd st : good s l -> bnodes s !! n = Some nd -> n_proc nd <> 0 ->
  (forall N Hs Hw, bufs_hold N l Hs Hw -> named N (n_proc nd) (n_ptr nd) n -> exists Hs' Hw', bufs_hold N l' Hs' Hw' /\ (hold st n (Hs, Hw)).1 ≡ₚ Hs' /\ (hold st n (Hs, Hw)).2 ≡ₚ Hw') ->
  exists ret s', binder_inc_node n st false 0 s = Some (ret, s') /\ good s' l' /\ frame s s' /\ brefs s' = brefs s /\ bnodes s' = <[n := inc_counts st false nd]> (bnodes s).
Proof.
  intros [Hsh (Hs & Hw & Hh & Hc)] E P0 Hl. destruct (inc_node_run [] s n nd st false 0 Hsh E ltac:(by left)) as (ret & s' & Hrun & Hst & _). exists ret, s'. split; [done|].
  assert (inc_refused s n nd st false 0 = false) as Hr by (unfold inc_refused; by destruct st). rewrite Hr in Hst. destruct Hst as [G1 G2 G3 G4]. split_and!; [|done..]. destruct (inc_counts_id st false nd) as [Hp Hq].
  pose proof (counts_hold _ _ _ _ _ _ _ _ _ st Hc E P0 P0) as Hc'. destruct (Hl (bnodes s') Hs Hw) as (Hs' & Hw' & Hh' & E1 & E2).
  - rewrite G3. eapply bufs_hold_mono; [by eapply ids_insert| |exact Hh]. intros x Hx. destruct (co_held _ _ _ _ _ _ _ Hc x Hx) as (y & Ey & _). destruct (decide (x = n)) as [->|Hne]; [rewrite lookup_insert_eq; by eexists|rewrite lookup_insert_ne by done; by exists y].
  - rewrite G3. exists (inc_counts st false nd). by rewrite lookup_insert_eq.
  - split; [done|]. exists Hs', Hw'. split; [done|]. rewrite G3, G4, (fr_mgr _ _ G2). by eapply counts_perm.
Qed.
Lemma good_unhold s l l' n nd st : good s l -> bnodes s !! n = Some nd ->
  (forall Hs Hw, bufs_hold (bnodes s) l Hs Hw -> exists Hs' Hw', bufs_hold (bnodes s) l' Hs' Hw' /\ Hs ≡ₚ (hold st n (Hs', Hw')).1 /\ Hw ≡ₚ (hold st n (Hs', Hw')).2) ->
  exists s', binder_dec_node n st false s = Some (0, s') /\ good s' l' /\ frame s s' /\ brefs s' = brefs s.
Proof.
  intros [Hsh (Hs & Hw & Hh & Hc)] E Hl. destruct (dec_node_run [] s n nd st false Hsh (not_elem_of_nil _) E) as (s' & Hrun & [G1 G2 G3 G4]). exists s'. split; [done|]. split_and!; [|done..].
  destruct (Hl _ _ Hh) as (Hs' & Hw' & Hh' & E1 & E2). pose proof (counts_perm _ _ _ _ _ _ _ _ _ Hc E1 E2) as Hc1. pose proof (counts_unhold _ _ _ _ _ _ _ _ _ Hc1 E) as Hc'. split; [done|]. exists Hs', Hw'. rewrite G3, G4, (fr_mgr _ _ G2). split; [|done].
  eapply bufs_hold_mono; [by apply ids_dec| |exact Hh']. intros x Hx. destruct (co_held _ _ _ _ _ _ _ Hc' x Hx) as (y & Ey & _). by exists y.
Qed.
(** The node a call was sent to. *)
Lemma good_take_target s l n nd d size : good s l -> bnodes s !! n = Some nd -> n_proc nd <> 0 ->
  exists ret s', binder_inc_node n true false 0 s = Some (ret, s') /\ good s' (TBuf (n_proc nd) n d size [] :: l) /\ frame s s' /\ brefs s' = brefs s /\ bnodes s' = <[n := inc_counts true false nd]> (bnodes s).
Proof.
  intros Hg E P0. assert (n <> 0) as Hn0 by (apply (sh_node _ _ (g_shape _ _ Hg) n nd E)). apply (good_hold s l); [done..|]. intros N Hs Hw Hh (nd' & E' & Hp & Hq). exists (n :: Hs), Hw. split; [|by split].
  pose proof (bufs_cons N (TBuf (n_proc nd) n d size []) l [] [] Hs Hw) as Hb. unfold target_list in Hb. cbn in Hb. rewrite (proj2 (Z.eqb_neq _ _) Hn0) in Hb. apply Hb; [intros _; by exists nd'|constructor|done].
Qed.
Lemma good_drop_target s l b : good s (b :: l) -> target_node b <> 0 ->
  exists s', binder_dec_node (target_node b) true false s = Some (0, s') /\ good s' (TBuf (b_proc b) 0 (b_data b) (b_data_size b) (b_offsets b) :: l) /\ frame s s' /\ brefs s' = brefs s.
Proof.
  intros Hg H0. pose proof Hg as [Hsh (Hs & Hw & Hh & Hc)]. inversion Hh as [|? ? hs hw Hs0 Hw0 Ht Ho Hr]; subst. destruct (Ht H0) as (nd & E & Hp). eapply good_unhold; [exact Hg|exact E|].
  intros Hs1 Hw1 Hh1. inversion Hh1 as [|? ? hs1 hw1 Hs2 Hw2 Ht1 Ho1 Hr1]; subst. exists (hs1 ++ Hs2), (hw1 ++ Hw2). cbn. split_and!; [|unfold target_list; by rewrite (proj2 (Z.eqb_neq _ _) H0)|done].
  exact (bufs_cons _ (TBuf (b_proc b) 0 (b_data b) (b_data_size b) (b_offsets b)) l hs1 hw1 Hs2 Hw2 (λ H, False_ind _ (H eq_refl)) Ho1 Hr1).
Qed.

(** ** Releasing a buffer *)
Lemma binder_type_strong st : (binder_type st =? BINDER_TYPE_BINDER) = st /\ ((binder_type st =? BINDER_TYPE_BINDER) || (binder_type st =? BINDER_TYPE_WEAK_BINDER)) = true.
Proof. by destruct st. Qed.
Lemma get_word_run s d off i w : d !! word_at off i = Some w -> get_word d off i s = Some (w, s).
Proof. intros E. unfold get_word. by rewrite E. Qed.
Lemma release_object_run s l Q t d size off offs : good s (TBuf Q t d size (off :: offs) :: l) -> is_Some (bprocs s !! Q) ->
  bad_offset size off = false /\ exists s', release_object Q d off s = Some (tt, s') /\ good s' (TBuf Q t d size offs :: l) /\ frame s s'.
Proof.
  intros Hg HQ. pose proof Hg as [Hsh (Hs & Hw & Hh & Hc)]. inversion Hh as [|? ? hs hw Hs0 Hw0 Ht Ho Hr]; subst. cbn [b_proc b_data b_data_size b_offsets] in Ho. inversion Ho as [|? ? st ptr n hs1 hw1 Hb E0 E2 Hn Ho1|? ? type w hs1 hw1 Hb E0 Hn1 Hn2 E2 Ho1]; subst; (split; [done|]); unfold release_object; erewrite bind_run by (by apply get_word_run).
  - destruct (binder_type_strong st) as [F1 ->]. rewrite F1. erewrite bind_run by (by apply get_word_run). destruct (get_node_run s Q ptr Hsh HQ) as (n' & Hrun & H). mrun Hrun. destruct H as [[_ H]|[H0 H]]; [by destruct (H n)|]. assert (n' = n) as -> by (by eapply named_unique).
    rewrite (proj2 (Z.eqb_neq _ _) H0). pose proof Hn as (nd & E & _). destruct (good_unhold s _ (TBuf Q t d size offs :: l) n nd st Hg E) as (s' & Hrun' & Hg' & Hf & _); [|mrun Hrun'; by exists s'].
    intros Hs1 Hw1 Hh1. inversion Hh1 as [|? ? hs2 hw2 Hs2 Hw2 Ht1 Ho2 Hr1]; subst. cbn [b_proc b_data b_data_size b_offsets] in Ho2. inversion Ho2 as [|? ? st' ptr' n' hs3 hw3 Hb' E0' E2' Hn' Ho3|? ? type' w' hs3 hw3 Hb' E0' Hn1' Hn2' E2' Ho3]; subst.
    + rewrite E0 in E0'. rewrite E2 in E2'. injection E2' as <-. assert (st' = st) as -> by (destruct st, st'; by vm_compute in E0'). assert (n' = n) as -> by (eapply named_unique; [done|exact HQ|exact Hn'|exact Hn]).
      exists (target_list (TBuf Q t d size offs) ++ hs3 ++ Hs2), (hw3 ++ Hw2). split; [by constructor|]. destruct st; cbn; split; solve_Permutation.
    + rewrite E0 in E0'. injection E0' as <-. by destruct st.
  - rewrite (proj2 (Z.eqb_neq _ _) Hn1), (proj2 (Z.eqb_neq _ _) Hn2). cbn [orb]. assert (good s (TBuf Q t d size offs :: l)) as Hg1 by (split; [done|]; exists (target_list (TBuf Q t d size offs) ++ hs ++ Hs0), (hw ++ Hw0); split; [by constructor|done]).
    destruct ((type =? BINDER_TYPE_HANDLE) || (type =? BINDER_TYPE_WEAK_HANDLE)); [|by exists s]. erewrite bind_run by (by apply get_word_run). destruct (get_ref_run s Q (u32 w) Hsh HQ) as (r & Hrun & H). mrun Hrun. destruct H as [[-> _]|[H0 (rf & Er & Hp & Hd)]]; [by exists s|].
    rewrite (proj2 (Z.eqb_neq _ _) H0). destruct (good_dec_ref s _ r rf (type =? BINDER_TYPE_HANDLE) Hg1 Er) as (ret & s' & Hrun' & Hg' & Hf). mrun Hrun'. by exists s'.
Qed.
Lemma release_loop_good Q t d size offs : forall s l, good s (TBuf Q t d size offs :: l) -> is_Some (bprocs s !! Q) -> exists s', release_loop Q size d offs s = Some (tt, s') /\ good s' (TBuf Q t d size [] :: l) /\ frame s s'.
Proof.
  induction offs as [|off offs IH]; intros s l Hg HQ; [by exists s|]. cbn [release_loop]. destruct (release_object_run _ _ _ _ _ _ _ _ Hg HQ) as (Hb & s1 & Hrun & Hg1 & Hf1). rewrite Hb. mrun Hrun.
  destruct (IH s1 l Hg1) as (s2 & Hrun2 & Hg2 & Hf2); [by apply (frame_proc _ _ _ Hf1)|]. exists s2. split_and!; [done..|]. by eapply frame_trans.
Qed.
Lemma good_empty_buffer s l Q d size : good s (TBuf Q 0 d size [] :: l) -> good s l.
Proof. intros [Hsh (Hs & Hw & Hh & Hc)]. split; [done|]. inversion Hh as [|? ? hs hw Hs0 Hw0 Ht Ho Hr]; subst. cbn [b_offsets] in Ho. inversion Ho; subst. by exists Hs0, Hw0. Qed.
Lemma buffer_release_good s l b offs failed : good s (TBuf (b_proc b) (target_node b) (b_data b) (b_data_size b) offs :: l) -> is_Some (bprocs s !! b_proc b) -> offs = (match failed with Some n => take n (b_offsets b) | None => b_offsets b end) ->
  exists s', binder_transaction_buffer_release (b_proc b) b failed s = Some (tt, s') /\ good s' l /\ frame s s'.
Proof.
  intros Hg HQ Hoffs. unfold binder_transaction_buffer_release. rewrite <-Hoffs. destruct (Z.eqb_spec (target_node b) 0) as [H0|H0]; cbn [negb].
  - rewrite H0 in Hg. destruct (release_loop_good _ _ _ _ _ _ _ Hg HQ) as (s' & Hrun & Hg' & Hf). erewrite bind_run by done. exists s'. split_and!; [done| |done]. by eapply good_empty_buffer.
  - destruct (good_drop_target _ _ _ Hg H0) as (s1 & Hrun1 & Hg1 & Hf1 & _). cbn in Hrun1, Hg1. rewrite bind_assoc. mrun Hrun1. rewrite bind_mret_l.
    destruct (release_loop_good _ _ _ _ _ _ _ Hg1) as (s' & Hrun & Hg' & Hf); [by apply (frame_proc _ _ _ Hf1)|]. exists s'. split_and!; [done|by eapply good_empty_buffer|by eapply frame_trans].
Qed.

(** ** Growth *)
(** The counters of references have room for [k] more. *)
Definition roomy (k : Z) s : Prop := k < 2 ^ 31 /\ forall r rf, brefs s !! r = Some rf -> strong rf + k < 2 ^ 31 /\ weak rf + k < 2 ^ 31.
(** Nodes and references are only added at [ms], and counters of references grow by [j] at
    most. *)
Record grow s s' (ms : list Z) (j : Z) : Prop := {
  gr_frame : frame s s';
  gr_node : forall x, bnodes s !! x = None -> x ∉ ms -> bnodes s' !! x = None;
  gr_ref : forall x, brefs s !! x = None -> x ∉ ms -> brefs s' !! x = None;
  gr_room : forall k, 0 <= k -> roomy (k + j) s -> roomy k s';
}.
Lemma roomy_mono k k' s : k' <= k -> roomy k s -> roomy k' s.
Proof. intros Hk [H1 H2]. split; [lia|]. intros r rf E. specialize (H2 _ _ E). lia. Qed.
Lemma grow_refl s ms j : 0 <= j -> grow s s ms j.
Proof. intros Hj. split; [done..|]. intros k _. apply roomy_mono. lia. Qed.
Lemma grow_trans s1 s2 s3 m1 m2 j1 j2 : 0 <= j2 -> grow s1 s2 m1 j1 -> grow s2 s3 m2 j2 -> grow s1 s3 (m1 ++ m2) (j1 + j2).
Proof.
  intros J [F1 N1 R1 C1] [F2 N2 R2 C2]. split; [by eapply frame_trans|..].
  - intros x E Hx. apply N2; [apply N1|]; set_solver.
  - intros x E Hx. apply R2; [apply R1|]; set_solver.
  - intros k Hk Hr. apply C2; [done|]. apply C1; [lia|]. by replace (k + j2 + j1) with (k + (j1 + j2)) by lia.
Qed.
Lemma grow_mono s s' ms ms' j j' : ms ⊆ ms' -> j <= j' -> grow s s' ms j -> grow s s' ms' j'.
Proof. intros Hm Hj [F1 N1 R1 C1]. split; [done|intros x E Hx; apply N1; set_solver|intros x E Hx; apply R1; set_solver|]. intros k Hk Hr. apply C1; [done|]. eapply roomy_mono; [|exact Hr]. lia. Qed.
Lemma grow_available s s' ms j x : grow s s' ms j -> available s x -> x ∉ ms -> available s' x.
Proof.
  intros [F1 N1 R1 C1] [->|(Ha & E1 & E2 & E3)] Hx; [by left|right]. split_and!; [done|by apply N1|by apply R1|by rewrite (frame_owner _ _ _ F1)].
Qed.
(** The records of a step. *)
Lemma grow_nodes s s' j : frame s s' -> 0 <= j -> (forall x, is_Some (bnodes s' !! x) -> is_Some (bnodes s !! x)) -> brefs s' = brefs s -> grow s s' [] j.
Proof.
  intros Hf Hj Hn Hr. split; [done|..|].
  - intros x E _. destruct (bnodes s' !! x) as [y|] eqn:Ey; [|done]. destruct (Hn x) as [? ?]; [by exists y|congruence].
  - intros x. by rewrite Hr.
  - intros k _ [H1 H2]. split; [lia|]. intros r rf. rewrite Hr. intros E. specialize (H2 _ _ E). lia.
Qed.
Lemma good_new_node_grow s l P ptr cookie mem : good s l -> is_Some (bprocs s !! P) -> available s mem ->
  exists n s', binder_new_node P ptr cookie mem s = Some (n, s') /\ good s' l /\ grow s s' [mem] 0 /\ (n = 0 \/ (n <> 0 /\ bnodes s' !! n = Some (new_node P ptr cookie))).
Proof.
  intros Hg HP Ha. destruct (good_new_node s l P ptr cookie mem Hg HP Ha) as (n & s' & Hrun & Hg' & Hf & Hr & H). exists n, s'. split_and!; [done..| |].
  - destruct H as [[_ ->]|(-> & H0 & En & Hn)]; [by apply grow_refl|]. split; [done|..].
    + intros x E Hx. rewrite Hn, lookup_insert_ne by set_solver +Hx. done.
    + intros x. by rewrite Hr.
    + intros k _. unfold roomy. by rewrite Hr, Z.add_0_r.
  - destruct H as [[-> _]|(-> & H0 & En & Hn)]; [by left|right]. by rewrite Hn, lookup_insert_eq.
Qed.
Lemma good_ref_for_node_grow s l P n nd mem : good s l -> is_Some (bprocs s !! P) -> bnodes s !! n = Some nd -> available s mem ->
  exists r s', binder_get_ref_for_node P n mem s = Some (r, s') /\ good s' l /\ grow s s' [mem] 0 /\ (mem <> 0 -> r <> 0) /\
    (r = 0 \/ (r <> 0 /\ exists rf nd', brefs s' !! r = Some rf /\ r_proc rf = P /\ r_node rf = n /\ bnodes s' !! n = Some nd' /\ n_proc nd' = n_proc nd /\ n_ptr nd' = n_ptr nd)).
Proof.
  intros Hg HP E Ha. destruct (good_get_ref_for_node s l P n nd mem Hg HP E Ha) as (r & s' & Hrun & Hg' & Hf & Hnz & H). exists r, s'. split_and!; [done..| |done|].
  - destruct H as [[_ ->]|(H0 & rf & Er & _ & _ & [->|(-> & En & Hr & S0 & W0 & Hn)])]; [by apply grow_refl..|]. split; [done|..].
    + intros x Ex _. rewrite Hn, lookup_insert_ne by congruence. done.
    + intros x Ex Hx. rewrite Hr, lookup_insert_ne by set_solver +Hx. done.
    + intros k _. rewrite Z.add_0_r. intros [H1 H2]. split; [done|]. intros x y. rewrite Hr. intros [[<- <-]|[_ Ey]]%lookup_insert_Some; [rewrite S0, W0; lia|by eapply H2].
  - destruct H as [[-> _]|(H0 & rf & Er & Hp & Hn' & H)]; [by left|right]. split; [done|]. destruct H as [->|(-> & En & Hr & S0 & W0 & Hn)]; [by exists rf, nd|]. exists rf. eexists. rewrite Hn, lookup_insert_eq. by split_and!.
Qed.
Lemma good_inc_ref_grow s l r rf nd (st : bool) target : good s l -> brefs s !! r = Some rf -> bnodes s !! r_node rf = Some nd -> list_for s target nd -> roomy 1 s ->
  exists ret s', binder_inc_ref r st target s = Some (ret, s') /\ good s' l /\ grow s s' [] 1 /\ (target <> 0 -> ret = 0).
Proof.
  intros Hg E En Hl [_ Hroom]. destruct (good_inc_ref s l r rf nd st target Hg E En Hl) as (ret & s' & Hrun & Hg' & Hf & Hret & (rf' & Hr & _ & _ & _ & HS & HW) & Hn); [specialize (Hroom _ _ E); destruct st; lia|].
  exists ret, s'. split_and!; [done..| |done]. split; [done|..].
  - intros x Ex _. destruct (bnodes s' !! x) as [y|] eqn:Ey; [|done]. destruct (proj1 (Hn x)) as [? ?]; [by exists y|congruence].
  - intros x Ex _. rewrite Hr, lookup_insert_ne by congruence. done.
  - intros k Hk [H1 H2]. split; [lia|]. intros x y. rewrite Hr. intros [[<- <-]|[_ Ey]]%lookup_insert_Some; [specialize (H2 _ _ E); lia|specialize (H2 _ _ Ey); lia].
Qed.
End BinderHold.
