(* ===== verification/BinderTrans.v ===== *)
(** * Objects in transactions keep the counts

    A transaction whose objects do not overlap leaves a buffer that holds exactly what it
    names; one that fails leaves nothing behind.  Commands, acknowledgements and the end of
    processes keep the invariant too. *)
From stdpp Require Import prelude gmap list sorting.
From Stdlib Require Import ZArith Lia ZifyBool.
From S2P Require Import Prelude ListHead ListHeap Rbtree BinderRef BinderShape BinderNodes BinderCount BinderHold.
Open Scope Z_scope.

Module BinderTrans.
Import BinderRef BinderShape BinderNodes BinderCount BinderHold.
Implicit Types (s : binder) (N : gmap Z binder_node) (nd : binder_node) (rf : binder_ref) (Hs Hw hs hw : list Z) (d : list Z) (l : list binder_buffer).

(** ** Words of objects *)
Definition apart (o1 o2 : Z) : Prop := o1 + sizeof_object <= o2 \/ o2 + sizeof_object <= o1.
Lemma good_offset size off : 0 <= size < 2 ^ 32 -> 0 <= off -> bad_offset size off = false -> off + sizeof_object <= size /\ off mod 4 = 0.
Proof. intros Hz Ho. unfold bad_offset, sizeof_object. intros Hb. assert (16 <= size) by lia. rewrite u32_small in Hb by lia. lia. Qed.
Lemma word_in size d off i : 0 <= size < 2 ^ 32 -> size <= 4 * Z.of_nat (length d) -> 0 <= off -> bad_offset size off = false -> 0 <= i < 4 -> is_Some (d !! word_at off i).
Proof. intros Hz Hl Ho Hb Hi. destruct (good_offset _ _ Hz Ho Hb) as [H1 H2]. apply lookup_lt_is_Some. unfold word_at, sizeof_object in *. pose proof (Z.div_mod off 4). lia. Qed.
Lemma word_ne o1 o2 i j : 0 <= o1 -> 0 <= o2 -> o1 mod 4 = 0 -> o2 mod 4 = 0 -> apart o1 o2 -> 0 <= i < 4 -> 0 <= j < 4 -> word_at o1 i <> word_at o2 j.
Proof. unfold apart, word_at, sizeof_object. intros H1 H2 M1 M2 Ha Hi Hj. pose proof (Z.div_mod o1 4). pose proof (Z.div_mod o2 4). lia. Qed.
(** The words outside the object at [off] are as before. *)
Definition only_at (off : Z) d d' : Prop := length d' = length d /\ forall w, (forall i, 0 <= i < 4 -> w <> word_at off i) -> d' !! w = d !! w.
Lemma only_at_refl off d : only_at off d d. Proof. by split. Qed.
Lemma only_at_set off i v d d' : 0 <= i < 4 -> only_at off d d' -> only_at off d (set_word off i v d').
Proof. intros Hi [H1 H2]. split; [unfold set_word; by rewrite length_insert|]. intros w Hw. unfold set_word. rewrite list_lookup_insert_ne by (apply not_eq_sym; by apply Hw). by apply H2. Qed.
Lemma get_set_word d off i v : is_Some (d !! word_at off i) -> set_word off i v d !! word_at off i = Some v.
Proof. intros Hs%lookup_lt_is_Some. apply list_lookup_insert_eq. done. Qed.
Lemma get_set_word_ne d off i j v : 0 <= off -> 0 <= i -> 0 <= j -> i <> j -> set_word off i v d !! word_at off j = d !! word_at off j.
Proof. intros Ho Hi Hj Hij. apply list_lookup_insert_ne. unfold word_at. pose proof (Z.div_pos off 4). lia. Qed.
Lemma holds_agree N Q size d d' off offs hs hw : 0 <= size < 2 ^ 32 -> 0 <= off -> off mod 4 = 0 -> only_at off d d' -> Forall (λ o, 0 <= o /\ apart o off) offs -> holds N Q size d offs hs hw -> holds N Q size d' offs hs hw.
Proof.
  intros Hz Ho Hm [_ Hd] Ha Hh. assert (forall o i, 0 <= o -> apart o off -> bad_offset size o = false -> 0 <= i < 4 -> d' !! word_at o i = d !! word_at o i) as Hw.
  { intros o i Ho' Hap Hb Hi. apply Hd. intros j Hj. destruct (good_offset _ _ Hz Ho' Hb) as [_ Hm']. by apply word_ne. }
  induction Hh as [|o offs st ptr n hs hw Hb H0 Hp Hn H IH|o offs type w hs hw Hb H0 Hn1 Hn2 Hp H IH]; [constructor|..]; apply Forall_cons in Ha as [[Ho' Hap] Ha].
  - apply holds_binder with (ptr := ptr); [done| | |done|by apply IH]; rewrite Hw by (done || lia); done.
  - apply holds_other with (type := type) (w := w); [done| |done|done| |by apply IH]; rewrite Hw by (done || lia); done.
Qed.
(** The buffer with one object more. *)
Lemma buffer_object N Q t d d' size pre off l Hs Hw : 0 <= size < 2 ^ 32 -> 0 <= off -> off mod 4 = 0 -> only_at off d d' -> Forall (λ o, 0 <= o /\ apart o off) pre -> bufs_hold N (TBuf Q t d size pre :: l) Hs Hw ->
  forall hs hw, holds N Q size d' [off] hs hw -> exists Hs' Hw', bufs_hold N (TBuf Q t d' size (pre ++ [off]) :: l) Hs' Hw' /\ hs ++ Hs ≡ₚ Hs' /\ hw ++ Hw ≡ₚ Hw'.
Proof.
  intros Hz Ho Hm Hd Ha Hh hs hw Hobj. inversion Hh as [|? ? hs0 hw0 Hs0 Hw0 Ht Ho0 Hr]; subst. cbn [b_proc b_data b_data_size b_offsets] in Ho0. apply (holds_agree _ _ _ _ d' off) in Ho0; [|done..].
  eexists _, _. split; [constructor; [exact Ht|cbn; by eapply holds_app|exact Hr]|]. unfold target_list. cbn. split; solve_Permutation.
Qed.
Lemma good_object s Q t d d' size pre off l type w : good s (TBuf Q t d size pre :: l) -> 0 <= size < 2 ^ 32 -> 0 <= off -> off mod 4 = 0 -> only_at off d d' -> Forall (λ o, 0 <= o /\ apart o off) pre ->
  bad_offset size off = false -> d' !! word_at off 0 = Some type -> type <> BINDER_TYPE_BINDER -> type <> BINDER_TYPE_WEAK_BINDER -> d' !! word_at off 2 = Some w -> good s (TBuf Q t d' size (pre ++ [off]) :: l).
Proof.
  intros [Hsh (Hs & Hw & Hh & Hc)] Hz Ho Hm Hd Ha Hb E0 T1 T2 E2. destruct (buffer_object _ _ _ _ d' _ _ off _ _ _ Hz Ho Hm Hd Ha Hh [] []) as (Hs' & Hw' & Hh' & P1 & P2); [eapply holds_other; [done..|constructor]|].
  split; [done|]. exists Hs', Hw'. split; [done|]. by eapply counts_perm.
Qed.

(** ** One object *)
Section object.
Context (P T Q t size off : Z) (pre : list Z) (l : list binder_buffer) (e : obj_env).
Context (Hz : 0 <= size < 2 ^ 32) (Ho : 0 <= off) (Hb : bad_offset size off = false) (Hpre : Forall (λ o, 0 <= o /\ apart o off) pre) (Hmem : ref_mem e = 0 \/ ref_mem e <> node_mem e).
Record ready s d : Prop := {
  rd_good : good s (TBuf Q t d size pre :: l);
  rd_size : size <= 4 * Z.of_nat (length d);
  rd_P : is_Some (bprocs s !! P);
  rd_Q : is_Some (bprocs s !! Q);
  rd_T : threads s !! T = Some P;
  rd_node : available s (node_mem e);
  rd_ref : available s (ref_mem e);
  rd_room : roomy 1 s;
}.
Definition translated s s' d d' (ok : bool) : Prop := grow s s' [node_mem e; ref_mem e] 1 /\ only_at off d d' /\ good s' (TBuf Q t d' size (if ok then pre ++ [off] else pre) :: l).
Lemma off_aligned : off mod 4 = 0. Proof. apply (good_offset _ _ Hz Ho Hb). Qed.
Lemma ready_word s d i : ready s d -> 0 <= i < 4 -> exists w, d !! word_at off i = Some w /\ forall s', get_word d off i s' = Some (w, s').
Proof. intros Hr Hi. destruct (word_in size d off i Hz (rd_size _ _ Hr) Ho Hb Hi) as [w E]. exists w. split; [done|]. intros s'. by apply get_word_run. Qed.
Lemma refused_object s d : ready s d -> translated s s d d false.
Proof. intros Hr. split_and!; [by apply grow_refl|apply only_at_refl|apply Hr]. Qed.
Lemma handle_type (st : bool) : (if st then BINDER_TYPE_HANDLE else BINDER_TYPE_WEAK_HANDLE) <> BINDER_TYPE_BINDER /\ (if st then BINDER_TYPE_HANDLE else BINDER_TYPE_WEAK_HANDLE) <> BINDER_TYPE_WEAK_BINDER.
Proof. by destruct st. Qed.
(** The reference of the target, new or not, is taken and its descriptor written. *)
Lemma give_ref s s1 d n nd (st : bool) target ty : ready s d -> good s1 (TBuf Q t d size pre :: l) -> grow s s1 [node_mem e] 0 -> bnodes s1 !! n = Some nd -> list_for s1 target nd ->
  (ty = d \/ ty = set_word off 0 (if st then BINDER_TYPE_HANDLE else BINDER_TYPE_WEAK_HANDLE) d) -> (exists type, ty !! word_at off 0 = Some type /\ type <> BINDER_TYPE_BINDER /\ type <> BINDER_TYPE_WEAK_BINDER) ->
  exists ok d' s', (ref ← binder_get_ref_for_node Q n (ref_mem e); if ref =? 0 then mret (false, d) else rf ← load_ref ref; binder_inc_ref ref st target ;; mret (true, set_word off 2 (desc rf) ty)) s1 = Some ((ok, d'), s') /\ translated s s' d d' ok.
Proof.
  intros Hr Hg1 Hgr En Hl Hty (type & Ety & T1 & T2). assert (available s1 (ref_mem e)) as Ha by (destruct Hmem as [Hm|Hm]; [by left|]; eapply grow_available; [exact Hgr|apply Hr|set_solver +Hm]).
  assert (is_Some (bprocs s1 !! Q)) as HQ by (apply (frame_proc _ _ _ (gr_frame _ _ _ _ Hgr)), Hr). assert (only_at off d ty) as Hdt by (destruct Hty as [->| ->]; [apply only_at_refl|apply only_at_set; [lia|apply only_at_refl]]).
  destruct (good_ref_for_node_grow s1 _ Q n nd (ref_mem e) Hg1 HQ En Ha) as (r & s2 & Hrun & Hg2 & Hgr2 & _ & H). mrun Hrun. assert (grow s s2 [node_mem e; ref_mem e] 0) as Hgr12 by exact (grow_trans _ _ _ _ _ 0 0 ltac:(done) Hgr Hgr2).
  destruct H as [->|(H0 & rf & nd' & Er & Hp & Hn & En' & Hp' & Hq')].
  - exists false, d, s2. split; [done|]. split_and!; [|apply only_at_refl|done]. eapply grow_mono; [| |exact Hgr12]; [done|lia].
  - rewrite (proj2 (Z.eqb_neq _ _) H0). erewrite bind_run by (by apply load_ref_run). rewrite <-Hn in En'.
    destruct (good_inc_ref_grow s2 _ r rf nd' st target Hg2 Er En') as (ret & s3 & Hrun3 & Hg3 & Hgr3 & _).
    { destruct Hl as [->|[P0 Ho']]; [by left|right]. rewrite Hp'. split; [done|]. by rewrite (frame_owner _ _ _ (gr_frame _ _ _ _ Hgr2)). }
    { apply (gr_room _ _ _ _ Hgr12); [lia|apply Hr]. }
    mrun Hrun3. exists true, (set_word off 2 (desc rf) ty), s3. split; [done|]. split_and!; [exact (grow_trans _ _ _ _ [] 0 1 ltac:(lia) Hgr12 Hgr3)|apply only_at_set; [lia|done]|].
    eapply (good_object _ _ _ d); [exact Hg3|done|done|apply off_aligned|apply only_at_set; [lia|done]|done|done| |exact T1|exact T2|].
    + rewrite get_set_word_ne by lia. exact Ety.
    + apply get_set_word. destruct (word_in size ty off 2) as [w E2]; [done|rewrite (proj1 Hdt); apply Hr|done..|lia|by exists w].
Qed.
Lemma translate_binder_good s d (st : bool) : ready s d -> exists ok d' s', translate_binder P T Q d off e st s = Some ((ok, d'), s') /\ translated s s' d d' ok.
Proof.
  intros Hr. unfold translate_binder. destruct (ready_word s d 2 Hr ltac:(lia)) as (ptr & E2 & W2). mrun (W2 s). destruct (ready_word s d 3 Hr ltac:(lia)) as (cookie & E3 & W3). mrun (W3 s). destruct (ready_word s d 0 Hr ltac:(lia)) as (type & E0 & _).
  pose proof (rd_good _ _ Hr) as Hg. pose proof (g_shape _ _ Hg) as Hsh. destruct (get_node_run s P ptr Hsh (rd_P _ _ Hr)) as (n & Hrun & Hn). mrun Hrun.
  assert (exists n1 s1, (if n =? 0 then binder_new_node P ptr cookie (node_mem e) else mret n) s = Some (n1, s1) /\ good s1 (TBuf Q t d size pre :: l) /\ grow s s1 [node_mem e] 0 /\ (n1 = 0 \/ (n1 <> 0 /\ exists nd, bnodes s1 !! n1 = Some nd /\ n_proc nd = P))) as (n1 & s1 & Hrun1 & Hg1 & Hgr1 & Hn1).
  { destruct Hn as [[-> Hn]|(H0 & nd & E & Hp & Hq)].
    - destruct (good_new_node_grow s _ P ptr cookie (node_mem e) Hg (rd_P _ _ Hr) (rd_node _ _ Hr)) as (n1 & s1 & Hrun1 & Hg1 & Hgr1 & H). exists n1, s1. split_and!; [done..|]. destruct H as [->|[H0 H]]; [by left|right]. split; [done|]. by eexists.
    - rewrite (proj2 (Z.eqb_neq _ _) H0). exists n, s. split_and!; [done|done|by apply grow_refl|]. right. split; [done|]. by exists nd. }
  mrun Hrun1. destruct Hn1 as [->|(H0 & nd & E & Hp)].
  { exists false, d, s1. split; [done|]. split_and!; [|apply only_at_refl|done]. eapply grow_mono; [| |exact Hgr1]; [set_solver +|lia]. }
  rewrite (proj2 (Z.eqb_neq _ _) H0). erewrite bind_run by (by apply load_node_run). destruct (negb (cookie =? n_cookie nd)).
  { exists false, d, s1. split; [done|]. split_and!; [|apply only_at_refl|done]. eapply grow_mono; [| |exact Hgr1]; [set_solver +|lia]. }
  assert (list_for s1 T nd) as Hl.
  { right. rewrite Hp. destruct (sh_thread _ _ Hsh T P (rd_T _ _ Hr)) as (_ & HT & HP). split; [by apply (sh_proc _ _ Hsh)|]. rewrite (frame_owner _ _ _ (gr_frame _ _ _ _ Hgr1)). unfold owner. rewrite HT. apply Hr. }
  destruct (handle_type st) as [T1 T2]. eapply (give_ref s s1 d n1 nd st T _ Hr Hg1 Hgr1 E Hl); [by right|]. eexists. split; [by apply get_set_word; eexists|done].
Qed.
(** The object goes home: the buffer holds the node. *)
Lemma give_node s d n nd (st : bool) : ready s d -> bnodes s !! n = Some nd -> n_proc nd = Q ->
  let d' := set_word off 3 (n_cookie nd) (set_word off 2 (n_ptr nd) (set_word off 0 (if st then BINDER_TYPE_BINDER else BINDER_TYPE_WEAK_BINDER) d)) in
  exists ret s', binder_inc_node n st false 0 s = Some (ret, s') /\ translated s s' d d' true.
Proof.
  intros Hr E Hp d'. pose proof (g_shape _ _ (rd_good _ _ Hr)) as Hsh. assert (n_proc nd <> 0) as P0 by (rewrite Hp; apply (sh_proc _ _ Hsh), Hr).
  assert (only_at off d d') as Hd by (do 3 (apply only_at_set; [lia|]); apply only_at_refl).
  destruct (ready_word s d 0 Hr ltac:(lia)) as (w0 & E0 & _). destruct (ready_word s d 2 Hr ltac:(lia)) as (w2 & E2 & _).
  assert (d' !! word_at off 0 = Some (binder_type st)) as D0. { unfold d'. rewrite !get_set_word_ne by lia. rewrite get_set_word by (by eexists). done. }
  assert (d' !! word_at off 2 = Some (n_ptr nd)) as D2. { unfold d'. rewrite get_set_word_ne by lia. rewrite get_set_word; [done|]. rewrite get_set_word_ne by lia. by eexists. }
  destruct (good_hold s _ (TBuf Q t d' size (pre ++ [off]) :: l) n nd st (rd_good _ _ Hr) E P0) as (ret & s' & Hrun & Hg & Hf & Hrf & Hn).
  - intros N Hs Hw Hh Hnm. rewrite Hp in Hnm. destruct (buffer_object _ _ _ _ d' _ _ off _ _ _ Hz Ho off_aligned Hd Hpre Hh (hold st n ([], [])).1 (hold st n ([], [])).2) as (Hs' & Hw' & Hh' & P1 & P2); [eapply holds_binder; [done..|constructor]|].
    exists Hs', Hw'. split; [done|]. by destruct st.
  - exists ret, s'. split; [done|]. split_and!; [|done|done]. eapply grow_mono; [| |apply (grow_nodes _ _ 1 Hf ltac:(lia))]; [set_solver +|lia| |done]. intros x. rewrite Hn. destruct (decide (x = n)) as [->|Hx]; [by rewrite E|by rewrite lookup_insert_ne].
Qed.
Lemma translate_handle_good s d (st : bool) : ready s d -> d !! word_at off 0 = Some (if st then BINDER_TYPE_HANDLE else BINDER_TYPE_WEAK_HANDLE) -> exists ok d' s', translate_handle P Q d off e st s = Some ((ok, d'), s') /\ translated s s' d d' ok.
Proof.
  intros Hr E0. unfold translate_handle. destruct (ready_word s d 2 Hr ltac:(lia)) as (h & E2 & W2). mrun (W2 s). pose proof (rd_good _ _ Hr) as Hg. pose proof (g_shape _ _ Hg) as Hsh.
  destruct (get_ref_run s P (u32 h) Hsh (rd_P _ _ Hr)) as (r & Hrun & H). mrun Hrun. destruct H as [[-> _]|(H0 & rf & Er & Hp & Hd)]; [exists false, d, s; split; [done|by apply refused_object]|].
  rewrite (proj2 (Z.eqb_neq _ _) H0). erewrite bind_run by (by apply load_ref_run). destruct (good_ref _ _ _ _ Hg Er) as (nd & En & _). erewrite bind_run by (by apply load_node_run).
  destruct (Z.eqb_spec (n_proc nd) Q) as [HQ|HQ].
  - destruct (give_node s d (r_node rf) nd st Hr En HQ) as (ret & s' & Hrun' & Ht). mrun Hrun'. eexists true, _, s'. split; [done|exact Ht].
  - destruct (handle_type st) as [T1 T2]. destruct (give_ref s s d (r_node rf) nd st 0 d Hr Hg ltac:(by apply grow_refl) En ltac:(by left) ltac:(by left)) as (ok & d' & s' & Hrun' & Ht); [by eexists|]. rewrite Hrun'. by exists ok, d', s'.
Qed.
Lemma translate_object_good s d : ready s d -> exists ok d' s', translate_object P T Q d off e s = Some ((ok, d'), s') /\ translated s s' d d' ok.
Proof.
  intros Hr. unfold translate_object. destruct (ready_word s d 0 Hr ltac:(lia)) as (type & E0 & W0). mrun (W0 s). destruct ((type =? BINDER_TYPE_BINDER) || (type =? BINDER_TYPE_WEAK_BINDER)) eqn:B1; [by apply translate_binder_good|].
  destruct ((type =? BINDER_TYPE_HANDLE) || (type =? BINDER_TYPE_WEAK_HANDLE)) eqn:B2.
  - apply translate_handle_good; [done|]. rewrite E0. destruct (Z.eqb_spec type BINDER_TYPE_HANDLE) as [->|]; [done|]. f_equal. lia.
  - destruct (Z.eqb_spec type BINDER_TYPE_FD) as [Hfd|]; [|exists false, d, s; split; [done|by apply refused_object]]. destruct (target_fd e) as [fd|]; [|exists false, d, s; split; [done|by apply refused_object]].
    eexists true, _, s. split; [done|]. assert (only_at off d (set_word off 2 fd d)) as Hd by (apply only_at_set; [lia|apply only_at_refl]). split_and!; [by apply grow_refl|done|].
    destruct (ready_word s d 2 Hr ltac:(lia)) as (w2 & E2 & _). eapply good_object; [apply Hr|done|done|apply off_aligned|done|done|done|rewrite get_set_word_ne by lia; exact E0|lia|lia|by apply get_set_word; eexists].
Qed.
End object.

(** ** All objects *)
Definition mems (offs : list (Z * obj_env)) : list Z := concat ((λ '(_, e), [node_mem e; ref_mem e]) <$> offs).
(** What [kzalloc] returns: free addresses, each once. *)
Definition all_available s (offs : list (Z * obj_env)) : Prop := Forall (available s) (mems offs) /\ NoDup (filter (λ x, x <> 0) (mems offs)).
Lemma all_available_cons s off e offs : all_available s ((off, e) :: offs) -> available s (node_mem e) /\ available s (ref_mem e) /\ (ref_mem e = 0 \/ ref_mem e <> node_mem e) /\
  forall s' j, grow s s' [node_mem e; ref_mem e] j -> all_available s' offs.
Proof.
  intros [Ha Hn]. change (mems ((off, e) :: offs)) with (node_mem e :: ref_mem e :: mems offs) in Ha, Hn. rewrite !Forall_cons in Ha. destruct Ha as (A1 & A2 & A3). rewrite !filter_cons in Hn. split_and!; [done..| |].
  - destruct (decide (ref_mem e = 0)) as [|H2]; [by left|right]. rewrite (decide_True _ _ H2) in Hn. destruct (decide (node_mem e <> 0)) as [H1|H1]; [apply NoDup_cons in Hn as [Hn _]; set_solver +Hn|]. intros E. apply H1. congruence.
  - intros s' j Hg. assert (NoDup (filter (λ x, x <> 0) (mems offs)) /\ forall x, x ∈ mems offs -> x <> 0 -> x <> node_mem e /\ x <> ref_mem e) as [Hn' Hx].
    { destruct (decide (node_mem e <> 0)) as [H1|H1], (decide (ref_mem e <> 0)) as [H2|H2]; rewrite ?NoDup_cons in Hn; (split; [tauto|]); intros x Hx Hx0; assert (x ∈ filter (λ x, x <> 0) (mems offs)) as Hf by (by apply list_elem_of_filter); (split; intros ->); try done; set_solver +Hn Hf. }
    split; [|done]. rewrite Forall_forall in A3 |- *. intros x Hin. destruct (decide (x = 0)) as [->|Hx0]; [by left|]. destruct (Hx x Hin Hx0). eapply grow_available; [exact Hg|by apply A3|set_solver].
Qed.
Lemma translate_loop_good P T Q t size l offs : forall s d pre, good s (TBuf Q t d size pre :: l) -> 0 <= size < 2 ^ 32 -> size <= 4 * Z.of_nat (length d) -> is_Some (bprocs s !! P) -> is_Some (bprocs s !! Q) -> threads s !! T = Some P ->
  all_available s offs -> roomy (Z.of_nat (length offs)) s -> Forall (λ o, 0 <= o) (pre ++ offs.*1) -> StronglySorted apart (pre ++ offs.*1) ->
  exists ok d' k s', translate_loop P T Q size d offs (length pre) s = Some ((ok, d', k), s') /\ frame s s' /\ good s' (TBuf Q t d' size (take k (pre ++ offs.*1)) :: l) /\ (ok = true -> k = length (pre ++ offs.*1)).
Proof.
  induction offs as [|[off e] offs IH]; intros s d pre Hg Hz Hl HP HQ HT Ha Hroom Hpos Hap.
  - exists true, d, (length pre), s. cbn. rewrite app_nil_r, take_ge by done. by split_and!.
  - cbn [translate_loop fmap list_fmap fst]. destruct (bad_offset size off) eqn:Hb.
    { exists false, d, (length pre), s. rewrite take_app_length. by split_and!. }
    destruct (all_available_cons _ _ _ _ Ha) as (A1 & A2 & A3 & A4). cbn in Hpos, Hap, Hroom. apply Forall_app in Hpos as [Hp1 Hp2]. apply Forall_cons in Hp2 as [Ho Hp2]. pose proof (proj1 (StronglySorted_app _ _ _) Hap) as (Hpo & _ & _).
    assert (Forall (λ o, 0 <= o /\ apart o off) pre) as Hpre by (apply Forall_forall; intros o Hin; split; [rewrite Forall_forall in Hp1; by apply Hp1|apply Hpo; [done|set_solver +]]).
    destruct (translate_object_good P T Q t size off pre l e Hz Ho Hb Hpre A3 s d) as (ok & d' & s1 & Hrun & Hgr & [Hlen _] & Hg1); [split; try done; eapply roomy_mono; [|exact Hroom]; lia|]. mrun Hrun. destruct ok.
    + destruct (IH s1 d' (pre ++ [off]) Hg1 Hz) as (ok & d2 & k & s2 & Hrun2 & Hf2 & Hg2 & Hok).
      * by rewrite Hlen.
      * by apply (frame_proc _ _ _ (gr_frame _ _ _ _ Hgr)).
      * by apply (frame_proc _ _ _ (gr_frame _ _ _ _ Hgr)).
      * by rewrite (fr_threads _ _ (gr_frame _ _ _ _ Hgr)).
      * by eapply A4.
      * apply (gr_room _ _ _ _ Hgr); [lia|]. by replace (Z.of_nat (length offs) + 1) with (Z.of_nat (S (length offs))) by lia.
      * rewrite <-app_assoc. cbn. apply Forall_app. split; [done|]. by apply Forall_cons.
      * by rewrite <-app_assoc.
      * rewrite length_app, Nat.add_1_r in Hrun2. rewrite <-app_assoc in Hg2, Hok. exists ok, d2, k, s2. split_and!; [done| |done|done]. eapply frame_trans; [apply Hgr|done].
    + exists false, d', (length pre), s1. cbn. rewrite take_app_length. split_and!; [done|apply Hgr|done|done].
Qed.

(** ** Transactions *)
Definition buffers s : list binder_buffer := (map_to_list (bbufs s)).*2.
Record inv s : Prop := {
  iv_good : good s (buffers s);
  iv_buf : forall b buf, bbufs s !! b = Some buf -> is_Some (bprocs s !! b_proc buf);
}.
Lemma inv_frame s s' : inv s -> frame s s' -> good s' (buffers s) -> inv s'.
Proof. intros [_ H] Hf Hg. split; [unfold buffers; by rewrite (fr_bufs _ _ Hf)|]. intros b buf. rewrite (fr_bufs _ _ Hf), (frame_proc _ _ _ Hf). apply H. Qed.
Lemma transaction_target_run s l P handle reply : good s l -> is_Some (bprocs s !! P) -> (forall Q, reply = Some Q -> is_Some (bprocs s !! Q)) ->
  exists r, transaction_target P handle reply s = Some (r, s) /\ match r with None => True | Some (n, Q) => is_Some (bprocs s !! Q) /\ (n = 0 \/ (n <> 0 /\ exists nd, bnodes s !! n = Some nd /\ n_proc nd = Q /\ Q <> 0)) end.
Proof.
  intros Hg HP Hreply. pose proof Hg as [Hsh (Hs & Hw & _ & Hc)]. unfold transaction_target. destruct reply as [Q|]; [exists (Some (0, Q)); split; [done|]; split; [by apply Hreply|by left]|].
  assert (exists n, (if negb (handle =? 0) then ref ← binder_get_ref P handle; if ref =? 0 then mret 0 else rf ← load_ref ref; mret (r_node rf) else s ← get; mret (binder_context_mgr_node s)) s = Some (n, s) /\ (n = 0 \/ exists nd, bnodes s !! n = Some nd)) as (n & Hrun & Hn).
  { destruct (negb (handle =? 0)).
    - destruct (get_ref_run s P handle Hsh HP) as (r & Hrun & H). mrun Hrun. destruct H as [[-> _]|(H0 & rf & Er & _)]; [exists 0; split; [done|by left]|]. rewrite (proj2 (Z.eqb_neq _ _) H0). erewrite bind_run by (by apply load_ref_run). destruct (good_ref _ _ _ _ Hg Er) as (nd & E & _). eexists. split; [done|]. right. by exists nd.
    - eexists. split; [done|]. destruct (decide (binder_context_mgr_node s = 0)) as [|Hm]; [by left|right]. destruct (co_mgr _ _ _ _ _ _ _ Hc Hm) as (nd & E & _). by exists nd. }
  mrun Hrun. destruct (Z.eqb_spec n 0) as [->|H0]; [by exists None|]. destruct Hn as [|(nd & E)]; [done|]. erewrite bind_run by (by apply load_node_run). eexists. split; [done|]. destruct (Z.eqb_spec (n_proc nd) 0) as [HQ|HQ]; [done|].
  split; [by apply (sh_node _ _ Hsh n nd E)|]. right. split; [done|]. by exists nd.
Qed.
Lemma good_new_buffer s l Q d size : good s l -> good s (TBuf Q 0 d size [] :: l).
Proof. intros [Hsh (Hs & Hw & Hh & Hc)]. split; [done|]. exists Hs, Hw. split; [|done]. exact (bufs_cons _ (TBuf Q 0 d size []) l [] [] Hs Hw (λ H, False_ind _ (H eq_refl)) (holds_nil _ _ _ _) Hh). Qed.
Definition objects_ok (size : Z) d (offs : list Z) : Prop := 0 <= size < 2 ^ 32 /\ size <= 4 * Z.of_nat (length d) /\ Forall (λ o, 0 <= o) offs /\ StronglySorted apart offs.
Lemma transaction_good s P T handle reply b copied size d offs : inv s -> threads s !! T = Some P -> (forall Q, reply = Some Q -> is_Some (bprocs s !! Q)) -> bbufs s !! b = None -> objects_ok size d offs.*1 -> all_available s offs -> roomy (Z.of_nat (length offs)) s ->
  exists ok s', binder_transaction P T handle reply b copied size d offs s = Some (ok, s') /\ inv s' /\ dom (bprocs s') = dom (bprocs s) /\ threads s' = threads s.
Proof.
  intros Hi HT Hreply Hbb (Hz & Hl & Hpos & Hap) Ha Hroom. pose proof (iv_good _ Hi) as Hg. pose proof (g_shape _ _ Hg) as Hsh. destruct (sh_thread _ _ Hsh T P HT) as (_ & _ & HP). unfold binder_transaction.
  destruct (transaction_target_run s _ P handle reply Hg HP Hreply) as (r & Hrun & Hr). mrun Hrun. destruct r as [[n Q]|]; [|by exists false, s]. destruct Hr as [HQ Hn]. destruct (b =? 0); [by exists false, s|].
  assert (exists s1, (if negb (n =? 0) then binder_inc_node n true false 0 ;; mret tt else mret tt) s = Some (tt, s1) /\ good s1 (TBuf Q n d size [] :: buffers s) /\ grow s s1 [] 0) as (s1 & Hrun1 & Hg1 & Hgr1).
  { destruct Hn as [->|(H0 & nd & E & Hp & HQ0)]; [exists s; split_and!; [done|by apply good_new_buffer|by apply grow_refl]|]. rewrite (proj2 (Z.eqb_neq _ _) H0). cbn [negb].
    destruct (good_take_target s _ n nd d size Hg E) as (ret & s1 & Hrun1 & Hg1 & Hf1 & Hr1 & Hn1); [by rewrite Hp|]. mrun Hrun1. rewrite Hp in Hg1. exists s1. split_and!; [done..|]. apply grow_nodes; [done|done| |done]. intros x. rewrite Hn1. destruct (decide (x = n)) as [->|Hx]; [by rewrite E|by rewrite lookup_insert_ne]. }
  mrun Hrun1. pose proof (gr_frame _ _ _ _ Hgr1) as Hf1.
  assert (exists ok d' k s2, (if copied then translate_loop P T Q size d offs 0 else mret (false, d, O)) s1 = Some ((ok, d', k), s2) /\ frame s1 s2 /\ good s2 (TBuf Q n d' size (take k offs.*1) :: buffers s) /\ (ok = true -> k = length offs.*1)) as (ok & d' & k & s2 & Hrun2 & Hf2 & Hg2 & Hok).
  { destruct copied; [|exists false, d, O, s1; by split_and!]. apply (translate_loop_good P T Q n size (buffers s) offs s1 d []); try done.
    - by apply (frame_proc _ _ _ Hf1).
    - by apply (frame_proc _ _ _ Hf1).
    - by rewrite (fr_threads _ _ Hf1).
    - destruct Ha as [A1 A2]. split; [|done]. rewrite Forall_forall in A1 |- *. intros x Hx. eapply grow_available; [exact Hgr1|by apply A1|set_solver +].
    - apply (gr_room _ _ _ _ Hgr1); [lia|]. by rewrite Z.add_0_r. }
  mrun Hrun2. pose proof (frame_trans _ _ _ Hf1 Hf2) as Hf. destruct ok.
  - specialize (Hok eq_refl). rewrite take_ge in Hg2 by lia. eexists true, _. split; [done|]. split_and!; [|apply Hf..]. split.
    + destruct Hg2 as [G1 (Hs & Hw & G2 & G3)]. pose proof (map_to_list_insert (bbufs s) b (TBuf Q n d' size offs.*1) Hbb) as Hperm. apply (fmap_Permutation snd) in Hperm. assert (buffers (set_bufs (<[b:=TBuf Q n d' size offs.*1]> (bbufs s2)) s2) ≡ₚ TBuf Q n d' size offs.*1 :: buffers s) as Hp by (unfold buffers; cbn; rewrite (fr_bufs _ _ Hf); exact Hperm).
      eapply good_perm; [symmetry; exact Hp|]. split; [|by exists Hs, Hw]. destruct G1 as [T1 [L T2] T3 T4 T5 T6 T7]. split; try done; [by eapply trees_ext|]. exists L. by eapply wrep_ext.
    + intros b' buf Eb. cbn in Eb |- *. rewrite (frame_proc _ _ _ Hf). rewrite (fr_bufs _ _ Hf) in Eb. apply lookup_insert_Some in Eb as [[_ <-]|[_ Eb]]; [done|by eapply iv_buf].
  - destruct (buffer_release_good s2 (buffers s) (TBuf Q n d' size offs.*1) (take k offs.*1) (Some k)) as (s3 & Hrun3 & Hg3 & Hf3); [done|by apply (frame_proc _ _ _ Hf)|done|]. mrun Hrun3. exists false, s3. pose proof (frame_trans _ _ _ Hf Hf3) as Hf'.
    split_and!; [done|by eapply inv_frame|apply Hf'..].
Qed.
(** [BC_FREE_BUFFER] *)
Lemma free_buffer_good s P b allow : inv s -> is_Some (bprocs s !! P) -> exists s', bc_free_buffer P b allow s = Some (tt, s') /\ inv s' /\ dom (bprocs s') = dom (bprocs s) /\ threads s' = threads s.
Proof.
  intros Hi HP. unfold bc_free_buffer. erewrite bind_run by done. destruct (bbufs s !! b) as [buf|] eqn:Eb; [|by exists s]. destruct (Z.eqb_spec (b_proc buf) P) as [Hp|]; cbn [negb]; [|by exists s]. destruct allow; cbn [negb]; [|by exists s]. rewrite <-Hp.
  pose proof (map_to_list_delete (bbufs s) b buf Eb) as Hperm. apply (fmap_Permutation snd) in Hperm. cbn in Hperm.
  destruct (buffer_release_good s ((map_to_list (delete b (bbufs s))).*2) buf (b_offsets buf) None) as (s' & Hrun & Hg & Hf); [|by eapply iv_buf|done|].
  - assert (TBuf (b_proc buf) (target_node buf) (b_data buf) (b_data_size buf) (b_offsets buf) = buf) as -> by (by destruct buf). eapply good_perm; [symmetry; exact Hperm|apply Hi].
  - mrun Hrun. eexists. split; [done|]. split_and!; [|apply Hf..]. split.
    + destruct Hg as [G1 (Hs & Hw & G2 & G3)]. unfold buffers. cbn. rewrite (fr_bufs _ _ Hf). split; [|by exists Hs, Hw]. destruct G1 as [T1 [L T2] T3 T4 T5 T6 T7]. split; try done; [by eapply trees_ext|]. exists L. by eapply wrep_ext.
    + intros b' buf' E'. cbn in E' |- *. rewrite (frame_proc _ _ _ Hf). rewrite (fr_bufs _ _ Hf) in E'. apply lookup_delete_Some in E' as [_ E']. by eapply iv_buf.
Qed.

(** ** Commands *)
Definition stable s s' : Prop := dom (bprocs s') = dom (bprocs s) /\ threads s' = threads s.
Lemma frame_stable s s' : frame s s' -> stable s s'. Proof. intros Hf. split; apply Hf. Qed.
Lemma bc_refs_good s c P target mem : inv s -> is_Some (bprocs s !! P) -> available s mem -> roomy 1 s -> (target = 0 -> is_inc c = true -> mem <> 0) -> exists s', bc_refs c P target mem s = Some (tt, s') /\ inv s' /\ stable s s'.
Proof.
  intros Hi HP Ha Hroom Hm. pose proof (iv_good _ Hi) as Hg. pose proof Hg as [Hsh (Hs & Hw & _ & Hc)]. unfold bc_refs. erewrite bind_run by done.
  assert (exists r s1, (if (target =? 0) && negb (binder_context_mgr_node s =? 0) && is_inc c then ref ← binder_get_ref_for_node P (binder_context_mgr_node s) mem; rf ← load_ref ref; mret ref else binder_get_ref P target) s = Some (r, s1) /\
    good s1 (buffers s) /\ frame s s1 /\ roomy 1 s1 /\ (r = 0 \/ (r <> 0 /\ exists rf, brefs s1 !! r = Some rf))) as (r & s1 & Hrun & Hg1 & Hf1 & Hroom1 & Hr).
  { destruct (_ && _ && _) eqn:Eb.
    - destruct (co_mgr _ _ _ _ _ _ _ Hc) as (nd & E & _); [lia|]. destruct (good_ref_for_node_grow s _ P _ nd mem Hg HP E Ha) as (r & s1 & Hrun & Hg1 & Hgr & Hnz & H). mrun Hrun. assert (r <> 0) as H0 by (apply Hnz, Hm; [lia|by destruct (is_inc c); [|lia]]).
      destruct H as [|(_ & rf & nd' & Er & _)]; [done|]. erewrite bind_run by (by apply load_ref_run). exists r, s1. split_and!; [done|done|apply Hgr|apply (gr_room _ _ _ _ Hgr); [lia|done]|]. right. split; [done|]. by exists rf.
    - destruct (get_ref_run s P target Hsh HP) as (r & Hrun & H). exists r, s. split_and!; [done..|]. destruct H as [[-> _]|(H0 & rf & Er & _)]; [by left|right]. split; [done|]. by exists rf. }
  mrun Hrun. destruct Hr as [->|(H0 & rf & Er)]; [exists s1; split_and!; [done|by eapply inv_frame|by apply frame_stable]|]. rewrite (proj2 (Z.eqb_neq _ _) H0). destruct (good_ref _ _ _ _ Hg1 Er) as (nd & En & _).
  assert (exists ret s2, match c with BC_INCREFS => binder_inc_ref r false 0 | BC_ACQUIRE => binder_inc_ref r true 0 | BC_RELEASE => binder_dec_ref r true | BC_DECREFS => binder_dec_ref r false end s1 = Some (ret, s2) /\ good s2 (buffers s) /\ frame s1 s2) as (ret & s2 & Hrun2 & Hg2 & Hf2).
  { destruct c; [| |by apply (good_dec_ref s1 _ r rf)|by apply (good_dec_ref s1 _ r rf)]; (edestruct (good_inc_ref_grow s1 (buffers s) r rf nd) as (ret & s2 & Hrun2 & Hg2 & Hgr2 & _); [done..|by left|done|]; exists ret, s2; split_and!; [exact Hrun2|done|apply Hgr2]). }
  mrun Hrun2. exists s2. pose proof (frame_trans _ _ _ Hf1 Hf2) as Hf. split_and!; [done|by eapply inv_frame|by apply frame_stable].
Qed.
Lemma bc_done_good s acquire P ptr cookie : inv s -> is_Some (bprocs s !! P) -> exists s', bc_done acquire P ptr cookie s = Some (tt, s') /\ inv s' /\ stable s s'.
Proof.
  intros Hi HP. pose proof (iv_good _ Hi) as Hg. pose proof (g_shape _ _ Hg) as Hsh. unfold bc_done. destruct (get_node_run s P ptr Hsh HP) as (n & Hrun & H). mrun Hrun. destruct H as [[-> _]|(H0 & nd & E & Hp & Hq)]; [by exists s|].
  rewrite (proj2 (Z.eqb_neq _ _) H0). erewrite bind_run by (by apply load_node_run). destruct (negb (cookie =? n_cookie nd)); [by exists s|]. destruct (if acquire then pending_strong_ref nd else pending_weak_ref nd) eqn:Epend; cbn [negb]; [|by exists s].
  erewrite bind_run by (by eapply store_node_run). replace ((if acquire then with_strong_flags (has_strong_ref nd) false else with_weak_flags (has_weak_ref nd) false) nd) with (acknowledged acquire nd) by (by destruct acquire).
  pose proof (set_node_step [] s n nd (acknowledged acquire nd) Hsh E ltac:(by destruct acquire) ltac:(by destruct acquire)) as Hst. set (s1 := set_nodes _ s) in *.
  destruct (dec_node_run [] s1 n (acknowledged acquire nd) acquire false (st_shape _ _ _ _ _ Hst) (not_elem_of_nil _)) as (s2 & Hrun2 & Hst2); [cbn; by rewrite lookup_insert_eq|]. mrun Hrun2. exists s2. split; [done|].
  cbn in Hst2. rewrite partial_alter_insert_eq in Hst2. pose proof (step_trans _ _ _ _ _ _ _ _ _ Hst Hst2) as Hst12. split; [|apply frame_stable, Hst12]. eapply inv_frame; [done|apply Hst12|]. eapply good_step; [exact Hg|exact Hst12| |].
  - apply (ids_alter _ _ nd _ E). intros nd' ->%dec_result_id. destruct (dec_counts_id acquire false (acknowledged acquire nd)) as [-> ->]. by destruct acquire.
  - intros Hs Hw Hc. apply counts_done; [done..| |done]. rewrite Hp. by apply (sh_proc _ _ Hsh).
Qed.
Lemma thread_read_good s P T wait : inv s -> threads s !! T = Some P -> exists r s', binder_thread_read P T wait s = Some (r, s') /\ inv s' /\ stable s s'.
Proof.
  intros Hi HT. pose proof (iv_good _ Hi) as Hg. pose proof (g_shape _ _ Hg) as Hsh. destruct (thread_read_run s P T wait Hsh HT) as (r & s' & Hrun & H). exists r, s'. split; [done|]. destruct r as [r|]; [|by rewrite H]. destruct H as (n & nd & E & Hp & _ & Hst).
  destruct (sh_thread _ _ Hsh T P HT) as (_ & _ & HP). split; [|apply frame_stable, Hst]. eapply inv_frame; [done|apply Hst|]. eapply good_step; [exact Hg|exact Hst| |].
  - apply (ids_alter _ _ nd _ E). intros nd'. unfold work_result. repeat destruct (_ && _); intros [= <-]; done.
  - intros Hs Hw Hc. apply counts_work; [done..|rewrite Hp; by apply (sh_proc _ _ Hsh)|]. apply (sh_node _ _ Hsh n nd E).
Qed.
Lemma shape_mgr D s x u : shape D s -> shape D (set_mgr_uid u (set_mgr x s)).
Proof. intros [T1 [L T2] T3 T4 T5 T6 T7]. split; try done; [by eapply trees_ext|]. exists L. by eapply wrep_ext. Qed.
Lemma set_context_mgr_good s P euid mem : inv s -> is_Some (bprocs s !! P) -> available s mem -> exists ret s', binder_set_context_mgr P euid mem s = Some (ret, s') /\ inv s' /\ stable s s'.
Proof.
  intros Hi HP Ha. unfold binder_set_context_mgr. erewrite bind_run by done. destruct (Z.eqb_spec (binder_context_mgr_node s) 0) as [Hm|]; cbn [negb]; [|by exists (- EBUSY), s]. destruct (negb (binder_context_mgr_uid s =? -1) && _); [by exists (- EPERM), s|].
  set (u := if binder_context_mgr_uid s =? -1 then euid else binder_context_mgr_uid s). set (s0 := set_mgr_uid u (set_mgr (binder_context_mgr_node s) s)). erewrite (bind_run _ _ _ tt s0); [|unfold s0, u; by destruct (_ =? -1), s].
  assert (inv s0) as Hi0. { destruct Hi as [[H1 H2] H3]. split; [|done]. split; [by apply shape_mgr|done]. }
  assert (available s0 mem) as Ha0 by exact Ha. pose proof (iv_good _ Hi0) as Hg0.
  destruct (good_new_node s0 _ P 0 0 mem Hg0 HP Ha0) as (n & s1 & Hrun & Hg1 & Hf1 & Hr1 & H). mrun Hrun. erewrite bind_run by done. destruct H as [[-> ->]|(-> & H0 & En & Hn)].
  - eexists (- ENOMEM), _. split; [done|]. split; [|done]. assert (set_mgr 0 s0 = s0) as ->; [unfold s0; cbn; by rewrite Hm|done].
  - rewrite (proj2 (Z.eqb_neq _ _) H0). assert (bnodes s1 !! mem = Some (new_node P 0 0)) as E1 by (by rewrite Hn, lookup_insert_eq). erewrite bind_run by (by apply load_node_run). erewrite bind_run by (by eapply store_node_run).
    eexists 0, _. split; [done|]. split; [|apply frame_stable in Hf1; exact Hf1]. pose proof (g_shape _ _ Hg1) as Hsh1. split.
    + destruct Hg1 as [_ (Hs & Hw & G2 & G3)]. unfold buffers. cbn. rewrite (fr_bufs _ _ Hf1). split.
      * eapply (shape_node [] (set_mgr mem s1) mem (new_node P 0 0)); [|done..]. pose proof (shape_mgr [] s1 mem (binder_context_mgr_uid s1) Hsh1) as Hx. by destruct s1.
      * exists Hs, Hw. cbn. rewrite (fr_mgr _ _ Hf1) in G3. cbn in G3. rewrite Hm in G3. split; [|apply counts_mgr; [done| |done|by apply (sh_proc _ _ (g_shape _ _ Hg0))]; intros x y Ey; apply (sh_node _ _ Hsh1 x y Ey)].
        eapply bufs_hold_mono; [by eapply ids_insert| |exact G2]. intros x Hx. destruct (co_held _ _ _ _ _ _ _ G3 x Hx) as (y & Ey & _). destruct (decide (x = mem)) as [->|Hne]; [rewrite lookup_insert_eq; by eexists|rewrite lookup_insert_ne by done; by exists y].
    + intros b buf Eb. cbn in Eb |- *. rewrite (frame_proc _ _ _ Hf1). rewrite (fr_bufs _ _ Hf1) in Eb. by eapply (iv_buf _ Hi).
Qed.
End BinderTrans.
