(* ===== verification/BinderEnd.v ===== *)
(** * Processes and threads of binder come and go

    The invariant of BinderTrans.v is kept when a process opens the device, when threads start
    and exit, and when a process ends: its nodes are freed or become dead, its references are
    deleted, and its buffers hold nothing any more. *)
From stdpp Require Import prelude gmap list sorting.
From Stdlib Require Import ZArith Lia ZifyBool.
From S2P Require Import Prelude ListHead ListHeap Rbtree BinderRef BinderShape BinderNodes BinderCount BinderHold BinderTrans.
Open Scope Z_scope.

Module BinderEnd.
Import BinderRef BinderShape BinderNodes BinderCount BinderHold BinderTrans.
Implicit Types (s : binder) (N : gmap Z binder_node) (nd : binder_node) (rf : binder_ref) (Hs Hw hs hw : list Z) (l : list binder_buffer).

(** ** Heads of lists *)
Lemma new_head_run s L x : wrep s L -> works s !! x = None -> forall s', works s' = works s -> exists m, new_head x s' = Some (tt, set_works m s') /\ lrep m (<[x := []]> L) /\ dom m = {[x]} ∪ dom (works s) /\ L !! x = None.
Proof.
  intros Hw E s' Hs'. destruct (fresh_run (works s) L x (ListHead 0 0) (wr_rep _ _ Hw) E) as (m & Hrun & Hr & El). exists m. split_and!; [|done| |done].
  - unfold new_head. erewrite bind_run by done. rewrite Hs'. by rewrite (works_run _ (set_works (<[x := ListHead 0 0]> (works s)) s') tt m).
  - apply keeps_dom_init in Hrun. cbn in Hrun. by rewrite Hrun, dom_insert_L.
Qed.
Lemma empty_tree_ok : tree_ok empty_tree [].
Proof. exists L. split_and!; [|exists 0%nat; constructor|done]. split; [done|done|constructor|constructor]. Qed.
Lemma binder_open_good s P : inv s -> fresh s P -> exists s', binder_open P s = Some (tt, s') /\ inv s' /\ dom (bprocs s') = {[P]} ∪ dom (bprocs s) /\ threads s' = threads s.
Proof.
  intros Hi Hf. pose proof Hf as (Ha & Fn & Fr & Fo). destruct Hi as [[[T1 [L T2] T3 T4 T5 T6 T7] Hc] Hb]. pose proof (fresh_works _ _ _ T2 Hf) as Fw. assert (bprocs s !! P = None) as Fp by (unfold owner in Fo; by destruct (bprocs s !! P)).
  set (s1 := set_procs (<[P := BProc empty_tree empty_tree empty_tree]> (bprocs s)) s). destruct (new_head_run s L P T2 Fw s1 eq_refl) as (m & Hrun & Hr & Hd & El). exists (set_works m s1). split; [unfold binder_open; by erewrite bind_run by done|].
  assert (forall Q, is_Some (bprocs s !! Q) -> is_Some (<[P := BProc empty_tree empty_tree empty_tree]> (bprocs s) !! Q)) as Hp by (intros Q [pr E]; rewrite lookup_insert_ne by congruence; by exists pr).
  split_and!; [|by apply dom_insert_L|done]. split; [split; [split|]|]; cbn; try done.
  - destruct T1 as [T1]. split. intros Q pr k E. cbn in E. apply lookup_insert_Some in E as [[<- <-]|[Hne E]].
    + exists []. split_and!; [destruct k; apply empty_tree_ok|constructor|]. intros x. split; [set_solver +|]. intros [Hm _]. exfalso. destruct k, Hm as (y & Ey & Hy).
      * destruct (T4 _ _ Ey) as [_ [? ?]]; [rewrite Hy; destruct Ha as [[_ ?] _]; done|congruence].
      * destruct (T5 _ _ Ey) as (_ & [? ?] & _). congruence.
      * destruct (T5 _ _ Ey) as (_ & [? ?] & _). congruence.
    + by apply T1.
  - exists (<[P := []]> L). apply (wrep_head s _ m L P T2); try done; unfold owner; cbn.
    + rewrite lookup_insert_eq. done.
    + intros y Hy. by rewrite lookup_insert_ne.
  - intros n nd E. destruct (T4 _ _ E) as [? Hq]. split; [done|]. intros ?. by apply Hp, Hq.
  - intros r rf E. destruct (T5 _ _ E) as (? & ? & ?). split_and!; [done|by apply Hp|done].
  - intros Q [pr [[<- _]|[_ E]]%lookup_insert_Some]; [destruct Ha as [[_ ?] _]; done|apply T6; by exists pr].
  - intros T Q E. destruct (T7 _ _ E) as (? & HT & ?). assert (T <> P) by (intros ->; unfold owner in Fo; rewrite Fp in Fo; congruence). rewrite lookup_insert_ne by done. split_and!; [done..|by apply Hp].
  - intros b buf E. apply Hp. by eapply Hb.
Qed.
Lemma binder_get_thread_good s P T : inv s -> fresh s T -> is_Some (bprocs s !! P) -> exists s', binder_get_thread P T s = Some (tt, s') /\ inv s' /\ dom (bprocs s') = dom (bprocs s) /\ threads s' = <[T := P]> (threads s).
Proof.
  intros Hi Hf HP. pose proof Hf as (Ha & Fn & Fr & Fo). destruct Hi as [[[T1 [L T2] T3 T4 T5 T6 T7] Hc] Hb]. pose proof (fresh_works _ _ _ T2 Hf) as Fw. assert (bprocs s !! T = None) as Fp by (unfold owner in Fo; by destruct (bprocs s !! T)).
  set (s1 := set_threads (<[T := P]> (threads s)) s). destruct (new_head_run s L T T2 Fw s1 eq_refl) as (m & Hrun & Hr & Hd & El). exists (set_works m s1). split; [unfold binder_get_thread; by erewrite bind_run by done|].
  split_and!; [|done..]. split; [split; [split|]|]; cbn; try done.
  - by eapply trees_ext.
  - exists (<[T := []]> L). apply (wrep_head s _ m L T T2); try done; unfold owner; cbn.
    + rewrite Fp, lookup_insert_eq. done.
    + intros y Hy. by rewrite lookup_insert_ne.
  - intros T' Q [[<- <-]|[_ E]]%lookup_insert_Some; [|by apply T7]. split_and!; [destruct Ha as [[_ ?] _]; done|done|done].
Qed.
Lemma free_thread_good s T P : shape [] s -> threads s !! T = Some P ->
  exists s', binder_free_thread T s = Some (tt, s') /\ shape [] s' /\ bprocs s' = bprocs s /\ threads s' = delete T (threads s) /\ bnodes s' = bnodes s /\ brefs s' = brefs s /\ bbufs s' = bbufs s /\ binder_context_mgr_node s' = binder_context_mgr_node s.
Proof.
  intros [T1 [L T2] T3 T4 T5 T6 T7] ET. destruct (T7 _ _ ET) as (HT0 & HT & HP). assert (owner s T = Some P) as Ho by (unfold owner; by rewrite HT). destruct (release_work_run s L T P T2 Ho) as (m & L' & Hrun & Hw & El).
  set (s1 := set_threads (delete T (threads s)) s). set (s2 := set_works (delete T m) s1). exists s2. split.
  - unfold binder_free_thread. erewrite bind_run by done. erewrite bind_run by (by apply (release_work_local T s s1 m)). done.
  - split_and!; try done. split; cbn; try done.
    + by eapply trees_ext.
    + exists (delete T L'). eapply (wrep_free_head (set_works m s)); [exact Hw|done|by apply (wr_head _ _ T2 T P)|done|done|..]; unfold owner; cbn.
      * by rewrite HT, lookup_delete_eq.
      * intros y Hy. by rewrite lookup_delete_ne.
    + intros T' Q [_ E]%lookup_delete_Some. by apply T7.
Qed.

(** ** The end of a process *)
(** The invariant while [P] ends: its buffers do not count, and [l] has the others. *)
Record leaving P s l : Prop := {
  lv_shape : shape [] s;
  lv_counts : exists Hs Hw, bufs_hold (bnodes s) l Hs Hw /\ counts P None (binder_context_mgr_node s) (bnodes s) (brefs s) Hs Hw;
}.
Lemma held_app n H H' : held n (H ++ H') = held n H + held n H'.
Proof. unfold held. rewrite filter_app, length_app. lia. Qed.
Lemma holds_proc N Q size d offs hs hw n : holds N Q size d offs hs hw -> n ∈ hs \/ n ∈ hw -> exists nd, N !! n = Some nd /\ n_proc nd = Q.
Proof.
  induction 1 as [|off offs st ptr x hs hw Hb H0 H2 (nd & E & Hp & Hq) H IH|off offs type w hs hw Hb H0 Hn1 Hn2 H2 H IH]; [set_solver +| |done]. intros Hn. destruct (decide (n = x)) as [->|Hx]; [by exists nd|]. apply IH. destruct st; cbn in Hn; set_solver +Hn Hx.
Qed.
(** All that a buffer holds belongs to its process. *)
Lemma bufs_leave N P l Hs Hw : bufs_hold N l Hs Hw -> exists Hs' Hw', bufs_hold N (filter (λ b, b_proc b <> P) l) Hs' Hw' /\
  (forall n nd, N !! n = Some nd -> n_proc nd <> P -> held n Hs' = held n Hs /\ held n Hw' = held n Hw) /\ (forall n, n ∈ Hs' -> n ∈ Hs) /\ (forall n, n ∈ Hw' -> n ∈ Hw) /\ (forall n, n ∈ Hs' \/ n ∈ Hw' -> exists nd, N !! n = Some nd /\ n_proc nd <> P).
Proof.
  induction 1 as [|b l hs hw Hs Hw Ht Hh H IH]; [exists [], []; split_and!; [constructor|done|set_solver +..]|]. destruct IH as (Hs' & Hw' & I1 & I2 & I3 & I4 & I5).
  assert (forall n, n ∈ target_list b ++ hs \/ n ∈ hw -> exists nd, N !! n = Some nd /\ n_proc nd = b_proc b) as Hown.
  { intros n [[Hn|Hn]%elem_of_app|Hn]; [|eapply holds_proc; [exact Hh|tauto]..]. unfold target_list in Hn. destruct (Z.eqb_spec (target_node b) 0) as [|H0]; [set_solver +Hn|]. apply list_elem_of_singleton in Hn as ->. by apply Ht. }
  rewrite filter_cons. destruct (decide (b_proc b <> P)) as [Hp|Hp].
  - exists (target_list b ++ hs ++ Hs'), (hw ++ Hw'). split_and!; [by constructor|..].
    + intros n nd E Hn. rewrite !held_app. destruct (I2 n nd E Hn) as [-> ->]. done.
    + intros n. rewrite !elem_of_app. intros [|[|Hn%I3]]; tauto.
    + intros n. rewrite !elem_of_app. intros [|Hn%I4]; tauto.
    + intros n Hn. destruct (decide (n ∈ target_list b ++ hs \/ n ∈ hw)) as [Hd|Hd]; [destruct (Hown n Hd) as (nd & E & Hq); exists nd; split; [done|congruence]|]. apply I5. set_solver +Hn Hd.
  - exists Hs', Hw'. split_and!; [done|..|done].
    + intros n nd E Hn. rewrite !held_app. destruct (I2 n nd E Hn) as [-> ->]. rewrite (held_notin n (target_list b)), (held_notin n hs), (held_notin n hw); [done|..]; intros Hin; (destruct (Hown n) as (nd' & E' & Hq); [rewrite elem_of_app; tauto|]; rewrite E in E'; injection E' as <-; apply Hp; congruence).
    + intros n Hn%I3. set_solver +Hn.
    + intros n Hn%I4. set_solver +Hn.
Qed.
Lemma begin_leaving P s : inv s -> P <> 0 -> let mgr' := match bnodes s !! binder_context_mgr_node s with Some nd => if n_proc nd =? P then 0 else binder_context_mgr_node s | None => binder_context_mgr_node s end in
  leaving P (set_mgr mgr' s) (filter (λ b, b_proc b <> P) (buffers s)).
Proof.
  intros [[Hsh (Hs & Hw & Hh & Hc)] _] P0 mgr'. destruct (bufs_leave _ P _ _ _ Hh) as (Hs' & Hw' & L1 & L2 & L3 & L4 & L5). split.
  - pose proof (shape_mgr [] s mgr' (binder_context_mgr_uid s) Hsh) as Hx. by destruct s.
  - exists Hs', Hw'. split; [done|]. apply (counts_leave _ _ _ Hs Hw); [done| |done|].
    + intros x y E. apply (sh_node _ _ Hsh x y E).
    + intros n Hn. destruct (L5 n Hn) as (nd & E & Hp). destruct (co_held _ _ _ _ _ _ _ Hc n) as (nd' & E' & ? & _); [destruct Hn as [Hn%L3|Hn%L4]; tauto|]. exists nd. rewrite E in E'. injection E' as <-. done.
Qed.
Lemma leaving_step P s s' l N R : leaving P s l -> step_to [] s s' N R -> ids (bnodes s) N ->
  (forall Hs Hw, counts P None (binder_context_mgr_node s) (bnodes s) (brefs s) Hs Hw -> counts P None (binder_context_mgr_node s) N R Hs Hw) -> leaving P s' l.
Proof.
  intros [H1 (Hs & Hw & H2 & H3)] [G1 G2 G3 G4] Hi Hc. split; [done|]. exists Hs, Hw. rewrite G3, G4, (fr_mgr _ _ G2). specialize (Hc _ _ H3). split; [|done].
  eapply bufs_hold_mono; [exact Hi| |exact H2]. intros n Hn. destruct (co_held _ _ _ _ _ _ _ Hc n Hn) as (nd & E & _). by exists nd.
Qed.
(** What stays while only lists and threads change. *)
Record quiet s s' : Prop := {
  qu_procs : bprocs s' = bprocs s;
  qu_nodes : bnodes s' = bnodes s;
  qu_refs : brefs s' = brefs s;
  qu_bufs : bbufs s' = bbufs s;
  qu_mgr : binder_context_mgr_node s' = binder_context_mgr_node s;
}.
Lemma free_threads_good P ts : forall s, shape [] s -> NoDup ts -> (forall T, T ∈ ts -> threads s !! T = Some P) ->
  exists s', free_threads ts s = Some (tt, s') /\ shape [] s' /\ quiet s s' /\ forall T Q, threads s' !! T = Some Q <-> threads s !! T = Some Q /\ T ∉ ts.
Proof.
  induction ts as [|T ts IH]; intros s Hs Hn Ht; [exists s; split_and!; [done..|]; intros; set_solver +|]. cbn [free_threads]. apply NoDup_cons in Hn as [Hn1 Hn2].
  destruct (free_thread_good s T P Hs) as (s1 & Hrun & Hs1 & Q1 & Q2 & Q3 & Q4 & Q5 & Q6); [apply Ht; set_solver +|]. mrun Hrun.
  destruct (IH s1 Hs1 Hn2) as (s2 & Hrun2 & Hs2 & [] & Hth). { intros T' HT'. rewrite Q2, lookup_delete_ne by congruence. apply Ht. set_solver +HT'. }
  exists s2. split_and!; [done..|split; congruence|]. intros T' Q. rewrite Hth, Q2, lookup_delete_Some, not_elem_of_cons. intuition congruence.
Qed.
Lemma threads_of_spec s P : NoDup (threads_of s P) /\ forall T, T ∈ threads_of s P <-> threads s !! T = Some P.
Proof.
  unfold threads_of. split.
  - apply (NoDup_fmap_fst); [|apply NoDup_filter, NoDup_map_to_list]. intros T Q Q' [_ H1%elem_of_map_to_list]%list_elem_of_filter [_ H2%elem_of_map_to_list]%list_elem_of_filter. congruence.
  - intros T. rewrite list_elem_of_fmap. split; [intros ([T' Q] & -> & [HQ E%elem_of_map_to_list]%list_elem_of_filter); cbn in *; congruence|]. intros E. exists (T, P). split; [done|]. apply list_elem_of_filter. split; [done|]. by apply elem_of_map_to_list.
Qed.

(** One node of the process. *)
Lemma retire_shape P s n nd ps m L : shape [] s -> bnodes s !! n = Some nd -> n_proc nd = P -> refs nd <> [] -> trees [(By_ptr, n)] (set_procs ps s) -> dom ps = dom (bprocs s) -> wrep (set_works m (set_procs ps s)) L -> L !! n = Some [] -> P <> 0 ->
  shape [] (set_dead (n :: binder_dead_nodes s) (set_nodes (<[n := with_local_weak 0 (with_local_strong 0 (with_proc 0 nd))]> (bnodes s)) (set_works m (set_procs ps s)))).
Proof.
  intros Hs E HP Hr Ht Hd Hw Ei P0. pose proof Hs as [T1 _ T3 T4 T5 T6 T7]. set (nd' := with_local_weak _ _). assert (forall Q, is_Some (ps !! Q) <-> is_Some (bprocs s !! Q)) as Hp by (intros Q; by rewrite <-!elem_of_dom, Hd). split; cbn; try done.
  - eapply trees_ext; [exact Ht|done|..].
    + intros k Q x HQ. cbn in HQ. rewrite not_elem_of_cons. pose proof (not_elem_of_nil (k, x)). destruct k; cbn; [|intuition congruence..]. split.
      * intros [(y & [[<- <-]|[Hne Ey]]%lookup_insert_Some & Hy) _]; [exfalso; apply (T6 Q); [by apply Hp|by rewrite <-Hy]|]. split; [by exists y|split; [congruence|done]].
      * intros [(y & Ey & Hy) [Hne _]]. split; [|done]. exists y. rewrite lookup_insert_ne by congruence. done.
    + intros [] Q x _ Hx; cbn; try done. rewrite lookup_insert_ne; [done|]. intros <-. set_solver +Hx.
  - exists L. destruct Hw as [W1 W0 W2 W3 W4]. split; cbn; try done.
    + intros x Hx. destruct (W0 x Hx) as [[y Ey]|?]; [left|by right]. cbn in Ey. destruct (decide (x = n)) as [->|Hne]; [by rewrite lookup_insert_eq|rewrite lookup_insert_ne by done; by exists y].
    + intros h Q Ho. destruct (W2 h Q Ho) as [? Eh]. split; [done|]. cbn in Eh. rewrite lookup_insert_ne by congruence. done.
    + intros x y [[<- <-]|[_ Ey]]%lookup_insert_Some; [by left|by eapply W3].
    + intros h l x El Hx. destruct (W4 h l x El Hx) as (y & Ey & ?). exists y. cbn in Ey. rewrite lookup_insert_ne; [done|]. intros <-. by eapply (lrep_entry_ne _ _ _ _ _ _ W1 El Hx Ei).
  - destruct T3 as [Hn Hx]. assert (n ∉ binder_dead_nodes s) as Hnd by (rewrite Hx; intros (y & Ey & Hy); congruence). split; [by constructor|]. intros x. rewrite elem_of_cons, Hx. split.
    + intros [->|(y & Ey & Hy)]; [exists nd'; by rewrite lookup_insert_eq|]. exists y. rewrite lookup_insert_ne by congruence. done.
    + intros (y & [[<- <-]|[_ Ey]]%lookup_insert_Some & Hy); [by left|right; by exists y].
  - intros x y [[<- <-]|[_ Ey]]%lookup_insert_Some; [split; [apply (T4 _ _ E)|done]|]. destruct (T4 _ _ Ey) as [? Hq]. split; [done|]. intros ?. by apply Hp, Hq.
  - intros r rf Er. destruct (T5 _ _ Er) as (? & ? & ?). split_and!; [done|by apply Hp|done].
  - intros Q HQ. by apply T6, Hp.
  - intros T Q ET. destruct (T7 _ _ ET) as (? & HT & ?). split_and!; [done| |by apply Hp]. destruct (ps !! T) as [x|] eqn:Ex; [|done]. assert (is_Some (bprocs s !! T)) as [? ?] by (apply Hp; by eexists). congruence.
Qed.
Definition retire_code P n : RM unit :=
  on_tree By_ptr P (rb_erase n) ;; on_works (list_del_init n) ;; nd ← load_node n;
  (if bool_decide (refs nd = []) then kfree_node n else store_node n (λ nd, with_local_weak 0 (with_local_strong 0 (with_proc 0 nd))) ;; modify (λ s, set_dead (n :: binder_dead_nodes s) s)).
Lemma retire_node_run P s n nd : shape [] s -> bnodes s !! n = Some nd -> n_proc nd = P -> is_Some (bprocs s !! P) ->
  exists s', retire_code P n s = Some (tt, s') /\ step_to [] s s' (partial_alter (λ _, retire_result nd) n (bnodes s)) (brefs s).
Proof.
  intros Hs E Hp HP. pose proof (sh_proc _ _ Hs P HP) as P0. unfold retire_code, retire_result. destruct (tree_erase_run [] s By_ptr P n (sh_trees _ _ Hs) HP) as (ps & Hrun & Hdom & Ht); [by exists nd|apply not_elem_of_nil|]. mrun Hrun.
  pose proof (shape_procs _ _ _ _ Hs Ht Hdom) as Hs1. destruct (sh_works _ _ Hs1) as [L Hw]. destruct (unqueue_run (set_procs ps s) L n nd Hw E) as (m & L' & Hrun2 & Hw2 & Ei & _). mrun Hrun2. erewrite bind_run by (by apply load_node_run).
  destruct (bool_decide_reflect (refs nd = [])) as [Hr|Hr].
  - assert (n ∉ binder_dead_nodes s) as Hnd by (rewrite (dead_iff _ _ _ _ Hs E); congruence). exists (drop_node n ps (set_works m s)). split; [unfold drop_node; cbn; by rewrite (filter_ne_notin _ _ Hnd)|]. assert (wrep (set_works m s) L') as Hw3 by (eapply wrep_ext; [exact Hw2|done| |done]; intros h; symmetry; by apply owner_ext).
    split; [eapply (shape_drop [] (set_works m s)); [by eapply shape_works|exact E|exact Hw3|exact Ei| |done]; by eapply trees_ext|by split|done..].
  - erewrite bind_run by (by eapply store_node_run). eexists. split; [done|]. split; [exact (retire_shape P s n nd ps m L' Hs E Hp Hr Ht Hdom Hw2 Ei P0)|by split|done..].
Qed.
Lemma first_member s k P : trees [] s -> is_Some (bprocs s !! P) -> exists n, on_tree k P rb_first s = Some (n, s) /\ ((n = 0 /\ forall x, ~ member s k P x) \/ (n <> 0 /\ member s k P n)).
Proof.
  intros [Ht] [pr E]. destruct (Ht P pr k E) as (l & Hok & _ & Hx). exists (hd0 l). split; [by eapply tree_first_run|]. destruct l as [|n l]; [left; split; [done|]; intros x Hm; destruct (not_elem_of_nil x); apply Hx; split; [done|apply not_elem_of_nil]|right].
  split; [by apply (tree_valid _ _ n Hok); set_solver +|]. apply (Hx n). set_solver +.
Qed.
Lemma member_list s k P : trees [] s -> is_Some (bprocs s !! P) -> exists fuel ms, tree_fuel k P s = Some (fuel, s) /\ (length ms < fuel)%nat /\ forall x : Z, x ∈ ms <-> member s k P x.
Proof.
  intros [Ht] [pr E]. destruct (Ht P pr k E) as (l & (t & Hz & _ & Hi) & _ & Hx). exists (S (size (nodes (get_tree k pr)))), l. split_and!; [by apply tree_fuel_run| |].
  - pose proof (zrep_fuel _ _ _ Hz) as Hf. cbn in Hf. rewrite Hi in Hf. lia.
  - intros x. rewrite Hx. pose proof (not_elem_of_nil (k, x)). tauto.
Qed.
Lemma release_nodes_good P l fuel : forall s ms, leaving P s l -> is_Some (bprocs s !! P) -> (length ms < fuel)%nat -> (forall x, member s By_ptr P x -> x ∈ ms) ->
  exists s', release_nodes fuel P s = Some (tt, s') /\ leaving P s' l /\ frame s s' /\ brefs s' = brefs s /\ forall n nd, bnodes s' !! n = Some nd -> n_proc nd <> P.
Proof.
  induction fuel as [|fuel IH]; intros s ms Hl HP Hf Hms; [lia|]. cbn [release_nodes]. pose proof (lv_shape _ _ _ Hl) as Hs. destruct (first_member s By_ptr P (sh_trees _ _ Hs) HP) as (n & Hrun & H). mrun Hrun. destruct H as [[-> Hno]|(H0 & nd & E & Hp)].
  - exists s. split_and!; [done..|]. intros n nd E Hp. apply (Hno n). by exists nd.
  - rewrite (proj2 (Z.eqb_neq _ _) H0). destruct (retire_node_run P s n nd Hs E Hp HP) as (s1 & Hrun1 & Hst). pose proof (sh_proc _ _ Hs P HP) as P0. assert (leaving P s1 l) as Hl1.
    { destruct Hl as [_ (Hs0 & Hw0 & Hh & Hc)]. destruct Hst as [G1 G2 G3 G4]. split; [done|]. exists Hs0, Hw0. rewrite G3, G4, (fr_mgr _ _ G2). split; [|by apply counts_retire]. eapply bufs_hold_keep; [|exact Hh].
      intros x Hx ndx Ex. destruct (co_held _ _ _ _ _ _ _ Hc x Hx) as (y & Ey & _ & Hy). assert (x <> n) by congruence. exists ndx. by rewrite lookup_partial_alter_ne. }
    assert (forall x, member s1 By_ptr P x -> x ∈ filter (λ y, y <> n) ms) as Hms1.
    { intros x (y & Ey & Hy). rewrite (st_nodes _ _ _ _ _ Hst) in Ey. destruct (decide (x = n)) as [->|Hx].
      - rewrite lookup_partial_alter_eq in Ey. unfold retire_result in Ey. destruct (bool_decide _); [done|]. injection Ey as <-. cbn in Hy. congruence.
      - rewrite lookup_partial_alter_ne in Ey by done. apply list_elem_of_filter. split; [done|]. apply Hms. by exists y. }
    assert (length (filter (λ y, y <> n) ms) < fuel)%nat as Hf1 by (pose proof (length_filter_lt (λ y, y <> n) ms n (Hms n (ex_intro _ nd (conj E Hp)))); specialize (H ltac:(tauto)); lia).
    destruct (IH s1 (filter (λ y, y <> n) ms) Hl1) as (s2 & Hrun2 & Hl2 & Hf2 & Hr2 & Hno); [by apply (frame_proc _ _ _ (st_frame _ _ _ _ _ Hst))|exact Hf1|exact Hms1|].
    exists s2. split_and!; [|done|eapply frame_trans; [apply Hst|done]|rewrite Hr2; apply Hst|done].
    unfold retire_code in Hrun1. apply bind_inv in Hrun1 as ([] & sa & Ha & Hrun1). mrun Ha. apply bind_inv in Hrun1 as ([] & sb & Hb & Hrun1). mrun Hb. apply bind_inv in Hrun1 as (nd1 & sc & Hc & Hrun1). mrun Hc. by mrun Hrun1.
Qed.
Definition others P (R : gmap Z binder_ref) : gmap Z binder_ref := filter (λ '(_, rf), r_proc rf <> P) R.
Lemma release_refs_good P l fuel : forall s ms, leaving P s l -> is_Some (bprocs s !! P) -> (length ms < fuel)%nat -> (forall x, member s By_desc P x -> x ∈ ms) -> (forall n nd, bnodes s !! n = Some nd -> n_proc nd <> P) ->
  exists s', release_refs fuel P s = Some (tt, s') /\ leaving P s' l /\ frame s s' /\ (forall n nd, bnodes s' !! n = Some nd -> n_proc nd <> P) /\ brefs s' = others P (brefs s).
Proof.
  induction fuel as [|fuel IH]; intros s ms Hl HP Hf Hms Hnn; [lia|]. cbn [release_refs]. pose proof (lv_shape _ _ _ Hl) as Hs. destruct (first_member s By_desc P (sh_trees _ _ Hs) HP) as (r & Hrun & H). mrun Hrun. destruct H as [[-> Hno]|(H0 & rf & E & Hp)].
  - exists s. split_and!; [done..|]. symmetry. apply map_filter_id. intros r rf E Hp. apply (Hno r). by exists rf.
  - rewrite (proj2 (Z.eqb_neq _ _) H0). destruct (lv_counts _ _ _ Hl) as (Hs0 & Hw0 & _ & Hc0). destruct (co_ref _ _ _ _ _ _ _ Hc0 _ _ E) as (nd & En & Hin). destruct (delete_ref_run s r rf nd Hs E En Hin) as (s1 & Hrun1 & Hst). mrun Hrun1.
    assert (ids (bnodes s) (partial_alter (λ _, del_result r (negb (strong rf =? 0)) nd) (r_node rf) (bnodes s))) as Hids by (by apply ids_del).
    assert (leaving P s1 l) as Hl1 by (eapply leaving_step; [exact Hl|exact Hst|done|]; intros Hs1 Hw1 Hc1; by apply counts_del_ref).
    destruct (IH s1 (filter (λ y, y <> r) ms) Hl1) as (s2 & Hrun2 & Hl2 & Hf2 & Hn2 & Hr2).
    + by apply (frame_proc _ _ _ (st_frame _ _ _ _ _ Hst)).
    + pose proof (length_filter_lt (λ y, y <> r) ms r (Hms r (ex_intro _ rf (conj E Hp)))) as H. specialize (H ltac:(tauto)). lia.
    + intros x (y & Ey & Hy). rewrite (st_refs _ _ _ _ _ Hst) in Ey. apply lookup_delete_Some in Ey as [Hne Ey]. apply list_elem_of_filter. split; [done|]. apply Hms. by exists y.
    + intros n nd' En'. rewrite (st_nodes _ _ _ _ _ Hst) in En'. destruct (bnodes s !! n) as [nd0|] eqn:E0; [destruct (Hids _ _ _ E0 En') as [-> _]; by eapply Hnn|]. rewrite lookup_partial_alter_ne in En' by congruence. congruence.
    + exists s2. split_and!; [done..|eapply frame_trans; [apply Hst|done]|done|]. rewrite Hr2, (st_refs _ _ _ _ _ Hst). apply map_filter_delete_not. intros y Ey. rewrite E in Ey. injection Ey as <-. tauto.
Qed.
Lemma buffers_filter s P : (map_to_list (filter (λ '(_, b), b_proc b <> P) (bbufs s))).*2 ≡ₚ filter (λ b, b_proc b <> P) (buffers s).
Proof.
  unfold buffers. assert (map_to_list (filter (λ '(_, b), b_proc b <> P) (bbufs s)) ≡ₚ filter (λ '(_, b), b_proc b <> P) (map_to_list (bbufs s))) as ->.
  { apply NoDup_Permutation; [apply NoDup_map_to_list|apply NoDup_filter, NoDup_map_to_list|]. intros [b buf]. rewrite list_elem_of_filter, !elem_of_map_to_list, map_lookup_filter_Some. tauto. }
  induction (map_to_list (bbufs s)) as [|[b buf] m IH]; [done|]. cbn [fmap list_fmap snd]. rewrite !filter_cons. destruct (decide (b_proc buf <> P)); cbn; by rewrite IH.
Qed.
(** The last steps, when nothing of the process is left. *)
Definition gone_code P : RM unit :=
  binder_release_work P ;; modify (λ s, set_bufs (filter (λ '(_, b), b_proc b <> P) (bbufs s)) s) ;; modify (λ s, set_procs (delete P (bprocs s)) s) ;; free_head P.
Lemma gone_good P s : leaving P s (filter (λ b, b_proc b <> P) (buffers s)) -> is_Some (bprocs s !! P) -> (forall n nd, bnodes s !! n = Some nd -> n_proc nd <> P) -> (forall r rf, brefs s !! r = Some rf -> r_proc rf <> P) ->
  (forall T, threads s !! T <> Some P) -> (forall b buf, bbufs s !! b = Some buf -> is_Some (bprocs s !! b_proc buf)) ->
  exists s', gone_code P s = Some (tt, s') /\ inv s' /\ bprocs s' = delete P (bprocs s) /\ threads s' = threads s /\ bnodes s' = bnodes s /\ brefs s' = brefs s /\ bbufs s' = filter (λ '(_, b), b_proc b <> P) (bbufs s).
Proof.
  intros [[T1 [L T2] T3 T4 T5 T6 T7] (Hs & Hw & Hh & Hc)] HP Hnn Hrr Htt Hbb. destruct (release_work_run s L P P T2 (proc_owner _ _ HP)) as (m & L' & Hrun & Hw' & El). unfold gone_code. mrun Hrun. erewrite bind_run by done. erewrite bind_run by done.
  eexists. split; [done|]. split_and!; [|done..]. assert (forall Q, Q <> P -> is_Some (bprocs s !! Q) -> is_Some (delete P (bprocs s) !! Q)) as Hp by (intros Q HQ ?; by rewrite lookup_delete_ne). split.
  - split; [split|]; cbn; try done.
    + destruct T1 as [T1]. split. intros Q pr k E. cbn in E. apply lookup_delete_Some in E as [_ E]. exact (T1 Q pr k E).
    + exists (delete P L'). eapply (wrep_free_head (set_works m s)); [exact Hw'|done|by apply (wr_head _ _ T2 P P), proc_owner|done|done|..]; unfold owner; cbn.
      * rewrite lookup_delete_eq. destruct (threads s !! P) as [Q|] eqn:ET; [|done]. destruct (T7 _ _ ET) as (_ & HT & _). destruct HP as [? ?]. congruence.
      * intros y Hy. by rewrite lookup_delete_ne.
    + intros n nd E. destruct (T4 _ _ E) as [? Hq]. split; [done|]. intros ?. apply Hp; [by eapply Hnn|by apply Hq].
    + intros r rf E. destruct (T5 _ _ E) as (? & ? & ?). split_and!; [done| |done]. apply Hp; [by eapply Hrr|done].
    + intros Q [pr [_ E]%lookup_delete_Some]. apply T6. by exists pr.
    + intros T Q E. destruct (T7 _ _ E) as (? & HT & ?). split_and!; [done|rewrite lookup_delete_None; by right|]. apply Hp; [|done]. intros ->. by apply (Htt T).
    + destruct (bufs_hold_perm _ _ _ _ _ (symmetry (buffers_filter s P)) Hh) as (Hs' & Hw'' & Hh' & P1 & P2). exists Hs', Hw''. split; [exact Hh'|]. eapply counts_perm; [|exact P1|exact P2]. by eapply counts_gone.
  - cbn. intros b buf [E HQ]%map_lookup_filter_Some. apply Hp; [done|]. by eapply Hbb.
Qed.
Lemma deferred_release_good P s : inv s -> is_Some (bprocs s !! P) -> exists s', binder_deferred_release P s = Some (tt, s') /\ inv s' /\ dom (bprocs s') = dom (bprocs s) ∖ {[P]} /\
  (forall T Q, threads s' !! T = Some Q <-> threads s !! T = Some Q /\ Q <> P) /\ (forall n nd, bnodes s' !! n = Some nd -> n_proc nd <> P) /\ brefs s' = others P (brefs s) /\ bbufs s' = filter (λ '(_, b), b_proc b <> P) (bbufs s).
Proof.
  intros Hi HP. pose proof Hi as [[Hsh (Hs & Hw & Hh & Hc)] Hb]. pose proof (sh_proc _ _ Hsh P HP) as P0. unfold binder_deferred_release. erewrite bind_run by done. pose proof (begin_leaving P s Hi P0) as Hl. cbn zeta in Hl. set (mgr' := match _ with Some _ => _ | None => _ end) in Hl.
  assert ((if negb (binder_context_mgr_node s =? 0) then nd ← load_node (binder_context_mgr_node s); if n_proc nd =? P then modify (set_mgr 0) else mret tt else mret tt) s = Some (tt, set_mgr mgr' s)) as Hm.
  { assert (set_mgr (binder_context_mgr_node s) s = s) as Hid by (by destruct s). unfold mgr'. destruct (Z.eqb_spec (binder_context_mgr_node s) 0) as [H0|H0]; cbn [negb].
    - destruct (bnodes s !! binder_context_mgr_node s) as [nd|] eqn:E; [|by rewrite Hid]. rewrite H0 in E. by destruct (sh_node _ _ Hsh 0 nd E) as [[[_ ?] _] _].
    - destruct (co_mgr _ _ _ _ _ _ _ Hc H0) as (nd & E & _). erewrite bind_run by (by apply load_node_run). rewrite E. destruct (n_proc nd =? P); [done|by rewrite Hid]. }
  mrun Hm. set (s1 := set_mgr mgr' s) in *. destruct (threads_of_spec s P) as [Ht1 Ht2]. destruct (free_threads_good P (threads_of s P) s1 (lv_shape _ _ _ Hl) Ht1) as (s2 & Hrun2 & Hs2 & [Q1 Q2 Q3 Q4 Q5] & Hth); [intros T HT; by apply Ht2|]. mrun Hrun2.
  set (l := filter (λ b, b_proc b <> P) (buffers s)) in *. assert (leaving P s2 l) as Hl2 by (split; [done|]; rewrite Q2, Q3, Q5; apply Hl). assert (is_Some (bprocs s2 !! P)) as HP2 by (by rewrite Q1).
  destruct (member_list s2 By_ptr P (sh_trees _ _ Hs2) HP2) as (f1 & m1 & Hf1 & Hm1 & Hx1). mrun Hf1. destruct (release_nodes_good P l f1 s2 m1 Hl2 HP2 Hm1) as (s3 & Hrun3 & Hl3 & Hfr3 & Hr3 & Hn3); [intros x Hx; by apply Hx1|]. mrun Hrun3.
  assert (is_Some (bprocs s3 !! P)) as HP3 by (by apply (frame_proc _ _ _ Hfr3)). destruct (member_list s3 By_desc P (sh_trees _ _ (lv_shape _ _ _ Hl3)) HP3) as (f2 & m2 & Hf2 & Hm2 & Hx2). mrun Hf2.
  destruct (release_refs_good P l f2 s3 m2 Hl3 HP3 Hm2) as (s4 & Hrun4 & Hl4 & Hfr4 & Hn4 & Hr4); [intros x Hx; by apply Hx2|done|]. mrun Hrun4. pose proof (frame_trans _ _ _ Hfr3 Hfr4) as Hfr.
  assert (bbufs s4 = bbufs s) as Hbufs by (rewrite (fr_bufs _ _ Hfr), Q4; done). assert (forall Q, is_Some (bprocs s4 !! Q) <-> is_Some (bprocs s !! Q)) as Hpr by (intros Q; rewrite (frame_proc _ _ _ Hfr), Q1; done).
  assert (forall T Q, threads s4 !! T = Some Q <-> threads s !! T = Some Q /\ Q <> P) as Hth4 by (intros T Q; rewrite (fr_threads _ _ Hfr), Hth, Ht2; change (threads s1) with (threads s); split; intros [HT HQ]; (split; [exact HT|]); congruence).
  destruct (gone_good P s4) as (s5 & Hrun5 & Hi5 & Hp5 & Ht5 & Hn5 & Hr5 & Hb5); [unfold buffers; by rewrite Hbufs|by apply Hpr|done|intros r rf; rewrite Hr4; by intros [_ ?]%map_lookup_filter_Some|intros T; rewrite Hth4; tauto|intros b buf Eb; rewrite Hbufs in Eb; apply Hpr; by eapply Hb|].
  exists s5. split_and!; [exact Hrun5|done| | | |rewrite Hr5, Hr4, Hr3, Q3; done|by rewrite Hb5, Hbufs]; rewrite ?Ht5, ?Hn5; [|done..]. rewrite Hp5, dom_delete_L. f_equal. apply set_eq. intros Q. rewrite !elem_of_dom. apply Hpr.
Qed.
End BinderEnd.
