(* ===== verification/BinderRefSys.v ===== *)
(** * Nodes and references of binder over time

    Processes open the device, start and end threads, send transactions, free buffers, count
    references and exit, in any order ([reach]).  What user space has no say in is assumed of
    an event ([allowed]): that memory is where nothing else is, and that the process and the
    thread exist.  Two things it has a say in are assumed as well: that the objects of a
    transaction do not overlap, and that the counter of a reference is not at its limit.
    Without the first the theorems do not hold, see [duplicate_offsets_use_after_free]. *)
From stdpp Require Import prelude gmap list sorting.
From Stdlib Require Import ZArith Lia ZifyBool.
From S2P Require Import Prelude ListHead ListHeap Rbtree BinderRef BinderShape BinderNodes BinderCount BinderHold BinderTrans BinderEnd.
Open Scope Z_scope.

Module BinderRefSys.
Import BinderRef BinderShape BinderNodes BinderCount BinderHold BinderTrans BinderEnd.
Implicit Types (s : binder) (nd : binder_node) (rf : binder_ref).

(** ** Events *)
Inductive event :=
  | Open (P : Z)
  | Start_thread (P T : Z)
  | Exit_thread (P T : Z)
  | Context_mgr (P euid mem : Z)
  | Refs (c : ref_cmd) (P target mem : Z)
  | Refs_done (acquire : bool) (P ptr cookie : Z)
  | Read (P T : Z) (wait_for_proc_work : bool)
  | Transaction (P T handle : Z) (reply : option Z) (b : Z) (copied : bool) (size : Z) (d : list Z) (offs : list (Z * obj_env))
  | Free_buffer (P b : Z) (allow_user_free : bool)
  | Release (P : Z).
Definition do_event (ev : event) : RM unit :=
  match ev with
  | Open P => binder_open P
  | Start_thread P T => binder_get_thread P T
  | Exit_thread P T => binder_free_thread T
  | Context_mgr P euid mem => binder_set_context_mgr P euid mem ;; mret tt
  | Refs c P target mem => bc_refs c P target mem
  | Refs_done acquire P ptr cookie => bc_done acquire P ptr cookie
  | Read P T wait => binder_thread_read P T wait ;; mret tt
  | Transaction P T handle reply b copied size d offs => binder_transaction P T handle reply b copied size d offs ;; mret tt
  | Free_buffer P b allow => bc_free_buffer P b allow
  | Release P => binder_deferred_release P
  end.
Definition allowed s (ev : event) : Prop :=
  match ev with
  | Open P => fresh s P
  | Start_thread P T => fresh s T /\ is_Some (bprocs s !! P)
  | Exit_thread P T => threads s !! T = Some P
  | Context_mgr P euid mem => is_Some (bprocs s !! P) /\ available s mem
  | Refs c P target mem => is_Some (bprocs s !! P) /\ available s mem /\ roomy 1 s /\ (target = 0 -> is_inc c = true -> mem <> 0)
  | Refs_done acquire P ptr cookie => is_Some (bprocs s !! P)
  | Read P T wait => threads s !! T = Some P
  | Transaction P T handle reply b copied size d offs =>
      threads s !! T = Some P /\ match reply with Some Q => is_Some (bprocs s !! Q) | None => True end /\ bbufs s !! b = None /\
      objects_ok size d offs.*1 /\ all_available s offs /\ roomy (Z.of_nat (length offs)) s
  | Free_buffer P b allow => is_Some (bprocs s !! P)
  | Release P => is_Some (bprocs s !! P)
  end.
#[export] Instance fresh_dec s x : Decision (fresh s x).
Proof. unfold fresh, address, valid, aligned. apply _. Defined.
#[export] Instance available_dec s x : Decision (available s x).
Proof. unfold available. apply _. Defined.
#[export] Instance roomy_dec k s : Decision (roomy k s).
Proof. refine (cast_if (decide (k < 2 ^ 31 /\ map_Forall (λ _ rf, strong rf + k < 2 ^ 31 /\ weak rf + k < 2 ^ 31) (brefs s)))); done. Defined.
#[export] Instance apart_dec o1 o2 : Decision (apart o1 o2).
Proof. unfold apart. apply _. Defined.
#[export] Instance allowed_dec s ev : Decision (allowed s ev).
Proof. destruct ev as [| | | | | | |? ? ? [] | |]; cbn; unfold objects_ok, all_available; apply _. Defined.

Definition init : binder := Binder ∅ ∅ ∅ ∅ ∅ ∅ [] 0 (-1).
Inductive reach : binder -> Prop :=
  | reach_init : reach init
  | reach_step s ev s' : reach s -> allowed s ev -> do_event ev s = Some (tt, s') -> reach s'.
(** Events that are all allowed. *)
Fixpoint run (evs : list event) s : option binder :=
  match evs with
  | [] => Some s
  | ev :: evs => if decide (allowed s ev) then match do_event ev s with Some (_, s') => run evs s' | None => None end else None
  end.
Lemma run_reach evs : forall s s', reach s -> run evs s = Some s' -> reach s'.
Proof.
  induction evs as [|ev evs IH]; cbn; intros s s' Hr; [by intros [= <-]|]. destruct (decide _) as [Ha|]; [|done]. destruct (do_event ev s) as [[[] s1]|] eqn:E; [|done]. apply IH. by eapply reach_step.
Qed.

(** ** The invariant *)
Lemma init_inv : inv init.
Proof.
  split; [|done]. split.
  - split; [split; intros ? ? ? [=]| | |by intros ? ? [=]..|by intros P [? [=]]|by intros ? ? [=]].
    + exists ∅. split; [split; [intros ? ? [=]|by intros q h1 h2 (l & [=] & _)]|by intros x [? [=]]|intros h P; unfold owner; cbn; by rewrite !lookup_empty|by intros ? ? [=]|by intros ? ? ? [=]].
    + split; [constructor|]. intros n. split; [by intros ?%not_elem_of_nil|by intros (nd & [=] & _)].
  - exists [], []. split; [constructor|]. split; try done. set_solver +.
Qed.
Lemma exit_thread_good s P T : inv s -> threads s !! T = Some P -> exists s', binder_free_thread T s = Some (tt, s') /\ inv s'.
Proof.
  intros [[Hsh Hc] Hb] HT. destruct (free_thread_good s T P Hsh HT) as (s' & Hrun & Hsh' & Hp & Ht & Hn & Hr & Hbb & Hm). exists s'. split; [done|]. split; [split; [done|]|].
  - unfold buffers. by rewrite Hn, Hr, Hbb, Hm.
  - intros b buf. rewrite Hbb, Hp. apply Hb.
Qed.
Lemma event_good s ev : inv s -> allowed s ev -> exists s', do_event ev s = Some (tt, s') /\ inv s'.
Proof.
  intros Hi Ha. destruct ev as [P|P T|P T|P euid mem|c P target mem|acquire P ptr cookie|P T wait|P T handle reply b copied size d offs|P b allow|P]; cbn in Ha |- *.
  - destruct (binder_open_good s P Hi Ha) as (s' & ? & ? & _). by exists s'.
  - destruct Ha as [Hf HP]. destruct (binder_get_thread_good s P T Hi Hf HP) as (s' & ? & ? & _). by exists s'.
  - by eapply exit_thread_good.
  - destruct Ha as [HP Hm]. destruct (set_context_mgr_good s P euid mem Hi HP Hm) as (ret & s' & Hrun & ? & _). mrun Hrun. by exists s'.
  - destruct Ha as (HP & Hm & Hroom & H0). destruct (bc_refs_good s c P target mem Hi HP Hm Hroom H0) as (s' & ? & ? & _). by exists s'.
  - destruct (bc_done_good s acquire P ptr cookie Hi Ha) as (s' & ? & ? & _). by exists s'.
  - destruct (thread_read_good s P T wait Hi Ha) as (r & s' & Hrun & ? & _). mrun Hrun. by exists s'.
  - destruct Ha as (HT & Hr & Hb & Ho & Hm & Hroom). destruct (transaction_good s P T handle reply b copied size d offs Hi HT) as (ok & s' & Hrun & ? & _); [|done..|]; [intros Q ->; done|]. mrun Hrun. by exists s'.
  - destruct (free_buffer_good s P b allow Hi Ha) as (s' & ? & ? & _). by exists s'.
  - destruct (deferred_release_good P s Hi Ha) as (s' & ? & ? & _). by exists s'.
Qed.
Lemma reached_inv s : reach s -> inv s.
Proof. induction 1 as [|s ev s' _ IH Ha Hrun]; [apply init_inv|]. destruct (event_good s ev IH Ha) as (s1 & Hrun1 & ?). rewrite Hrun in Hrun1. by injection Hrun1 as <-. Qed.

(** ** An object that is sent and sent back *)
Definition handle_type (st : bool) : Z := if st then BINDER_TYPE_HANDLE else BINDER_TYPE_WEAK_HANDLE.
(** The process [Q] has a reference with descriptor [h] to the object [ptr], [cookie] of [P]. *)
Definition refers s (Q h P ptr cookie : Z) : Prop :=
  exists r rf nd, brefs s !! r = Some rf /\ r_proc rf = Q /\ desc rf = h /\ bnodes s !! r_node rf = Some nd /\ n_proc nd = P /\ n_ptr nd = ptr /\ n_cookie nd = cookie.
Lemma refers_inc_ref s l r rf nd st target : good s l -> brefs s !! r = Some rf -> bnodes s !! r_node rf = Some nd -> list_for s target nd -> roomy 1 s ->
  exists ret s', binder_inc_ref r st target s = Some (ret, s') /\ good s' l /\ frame s s' /\ refers s' (r_proc rf) (desc rf) (n_proc nd) (n_ptr nd) (n_cookie nd).
Proof.
  intros Hg E En Hl Hroom. destruct (good_inc_ref_grow s l r rf nd st target Hg E En Hl Hroom) as (ret & s' & Hrun & Hg' & Hgr & _). destruct (inc_ref_run s r rf nd st target (g_shape _ _ Hg) E En Hl) as (ret2 & s2 & Hrun2 & H).
  rewrite Hrun in Hrun2. injection Hrun2 as <- <-. exists ret, s'. split_and!; [done|done|apply Hgr|]. destruct H as [[_ Hst]|(_ & _ & Hst)]; destruct Hst as [_ _ Hn Hr].
  - exists r, (inc_ref_result st rf). rewrite Hr, lookup_insert_eq, Hn. destruct st; cbn; [|by exists nd]. destruct (strong rf =? 0); [exists (inc_counts true true nd); by rewrite lookup_insert_eq|by exists nd].
  - exists r, rf, nd. by rewrite Hr, Hn.
Qed.
(** The node of an object, made when there is none yet. *)
Lemma object_node_run s l P ptr cookie mem : good s l -> is_Some (bprocs s !! P) -> fresh s mem -> (forall n nd, bnodes s !! n = Some nd -> n_proc nd = P -> n_ptr nd = ptr -> n_cookie nd = cookie) ->
  exists n nd s', (node ← binder_get_node P ptr; if node =? 0 then binder_new_node P ptr cookie mem else mret node) s = Some (n, s') /\ n <> 0 /\ good s' l /\ grow s s' [mem] 0 /\ bnodes s' !! n = Some nd /\ n_proc nd = P /\ n_ptr nd = ptr /\ n_cookie nd = cookie.
Proof.
  intros Hg HP Hf Hck. pose proof (g_shape _ _ Hg) as Hsh. destruct (get_node_run s P ptr Hsh HP) as (n & Hrun & H). mrun Hrun. destruct H as [[-> Hno]|(H0 & nd & E & Hp & Hq)].
  - destruct (good_new_node_grow s l P ptr cookie mem Hg HP (or_intror Hf)) as (n & s' & Hrun' & Hg' & Hgr & H). destruct (new_node_run s P ptr cookie mem Hsh HP (or_intror Hf)) as (n2 & s2 & Hrun2 & H2). rewrite Hrun' in Hrun2. injection Hrun2 as <- <-.
    destruct H as [->|[H0 En]]; [|by exists n, (new_node P ptr cookie), s']. exfalso. destruct H2 as [(_ & _ & H2)|(_ & ? & _)]; [|done]. destruct H2 as [->|(x & nd & Ex & Hp & Hq)]; [by destruct Hf as [[[_ ?] _] _]|]. by apply (Hno x); exists nd.
  - rewrite (proj2 (Z.eqb_neq _ _) H0). exists n, nd, s. split_and!; [done..|by apply grow_refl|done|done|done|]. by eapply Hck.
Qed.
Lemma node_ref_run s l Q n nd mem : good s l -> is_Some (bprocs s !! Q) -> bnodes s !! n = Some nd -> fresh s mem ->
  exists r rf nd' s', binder_get_ref_for_node Q n mem s = Some (r, s') /\ r <> 0 /\ good s' l /\ grow s s' [mem] 0 /\ brefs s' !! r = Some rf /\ r_proc rf = Q /\ r_node rf = n /\ bnodes s' !! n = Some nd' /\ n_proc nd' = n_proc nd /\ n_ptr nd' = n_ptr nd /\ n_cookie nd' = n_cookie nd.
Proof.
  intros Hg HQ E Hf. destruct (good_ref_for_node_grow s l Q n nd mem Hg HQ E (or_intror Hf)) as (r & s' & Hrun & Hg' & Hgr & Hnz & H). destruct (good_get_ref_for_node s l Q n nd mem Hg HQ E (or_intror Hf)) as (r2 & s2 & Hrun2 & _ & _ & _ & H2).
  rewrite Hrun in Hrun2. injection Hrun2 as <- <-. destruct H2 as [[-> _]|(H0 & rf & Er & Hp & Hn & H2)]; [destruct Hf as [[[_ Hm] _] _]; by destruct (Hnz Hm eq_refl)|]. destruct H2 as [->|(_ & _ & _ & _ & _ & Hns)].
  - by exists r, rf, nd, s.
  - exists r, rf, (with_refs (r :: refs nd) nd), s'. by rewrite Hns, lookup_insert_eq.
Qed.
Lemma send_run s l P T Q d off e st ptr cookie : good s l -> threads s !! T = Some P -> is_Some (bprocs s !! Q) -> roomy 1 s -> fresh s (node_mem e) -> fresh s (ref_mem e) -> ref_mem e <> node_mem e ->
  d !! word_at off 2 = Some ptr -> d !! word_at off 3 = Some cookie -> (forall n nd, bnodes s !! n = Some nd -> n_proc nd = P -> n_ptr nd = ptr -> n_cookie nd = cookie) ->
  exists h s', translate_binder P T Q d off e st s = Some ((true, set_word off 2 h (set_word off 0 (handle_type st) d)), s') /\ good s' l /\ frame s s' /\ refers s' Q h P ptr cookie.
Proof.
  intros Hg HT HQ Hroom Hf1 Hf2 Hne E2 E3 Hck. pose proof (sh_thread _ _ (g_shape _ _ Hg) T P HT) as (_ & HT' & HP). unfold translate_binder. unfold get_word. rewrite E2, E3, !bind_mret_l.
  destruct (object_node_run s l P ptr cookie (node_mem e) Hg HP Hf1 Hck) as (n & nd & s1 & Hrun & H0 & Hg1 & Hgr1 & En & Hp & Hq & Hc). apply bind_inv in Hrun as (x & sa & Ha & Hrun). mrun Ha. mrun Hrun. rewrite (proj2 (Z.eqb_neq _ _) H0).
  erewrite bind_run by (by apply load_node_run). rewrite Hc, Z.eqb_refl. cbn [negb]. pose proof (gr_frame _ _ _ _ Hgr1) as F1.
  destruct (grow_available _ _ _ _ _ Hgr1 (or_intror Hf2) ltac:(set_solver +Hne)) as [?|Hf2']; [by destruct Hf2 as [[[_ ?] _] _]|].
  destruct (node_ref_run s1 l Q n nd (ref_mem e) Hg1 (proj2 (frame_proc _ _ Q F1) HQ) En Hf2') as (r & rf & nd' & s2 & Hrun2 & Hr0 & Hg2 & Hgr2 & Er & Hrp & Hrn & En2 & Hp2 & Hq2 & Hc2). mrun Hrun2. rewrite (proj2 (Z.eqb_neq _ _) Hr0). erewrite bind_run by (by apply load_ref_run).
  pose proof (frame_trans _ _ _ F1 (gr_frame _ _ _ _ Hgr2)) as F2. destruct (refers_inc_ref s2 l r rf nd' st T Hg2 Er) as (ret & s3 & Hrun3 & Hg3 & F3 & H3).
  - by rewrite Hrn.
  - right. rewrite Hp2, Hp. split; [by apply (sh_proc _ _ (g_shape _ _ Hg))|]. rewrite (frame_owner _ _ _ F2). unfold owner. by rewrite HT'.
  - apply (gr_room _ _ _ _ Hgr2); [done|]. by apply (gr_room _ _ _ _ Hgr1).
  - mrun Hrun3. exists (desc rf), s3. split_and!; [done|done|by eapply frame_trans|]. rewrite Hrp, Hp2, Hq2, Hc2, Hp, Hq, Hc in H3. exact H3.
Qed.
(** The handle of a process for an object of [P], sent to [P], is the object again. *)
Lemma give_back_run s l Q P d off e st h ptr cookie : good s l -> is_Some (bprocs s !! Q) -> is_Some (bprocs s !! P) -> refers s Q h P ptr cookie -> d !! word_at off 2 = Some h ->
  exists s', translate_handle Q P d off e st s = Some ((true, set_word off 3 cookie (set_word off 2 ptr (set_word off 0 (binder_type st) d))), s').
Proof.
  intros Hg HQ HP (r & rf & nd & Er & Hrp & Hrd & En & Hp & Hq & Hc) E2. pose proof (g_shape _ _ Hg) as Hsh. unfold translate_handle, get_word. rewrite E2, bind_mret_l. destruct (sh_ref _ _ Hsh r rf Er) as (Ha & _ & Hu). rewrite <-Hrd, Hu.
  destruct (get_ref_run s Q (desc rf) Hsh HQ) as (r' & Hrun & H). mrun Hrun. destruct H as [[_ H]|(H0 & rf' & Er' & Hp' & Hd')]; [by destruct (H r rf Er Hrp)|].
  assert (r' = r) as ->. { eapply (key_unique [] s By_desc Q); [apply Hsh|done|by exists rf'|apply not_elem_of_nil|by exists rf|apply not_elem_of_nil|]. cbn. by rewrite Er, Er'. }
  assert (rf' = rf) as -> by congruence. rewrite (proj2 (Z.eqb_neq _ _) H0). erewrite bind_run by (by apply load_ref_run). erewrite bind_run by (by apply load_node_run). rewrite (proj2 (Z.eqb_eq _ _) Hp).
  destruct (inc_node_run [] s (r_node rf) nd st false 0 Hsh En ltac:(by left)) as (ret & s' & Hrun' & _). mrun Hrun'. exists s'. by rewrite Hq, Hc.
Qed.
Lemma set_words_back d off st h ptr cookie : 0 <= off -> d !! word_at off 0 = Some (binder_type st) -> d !! word_at off 2 = Some ptr -> d !! word_at off 3 = Some cookie ->
  set_word off 3 cookie (set_word off 2 ptr (set_word off 0 (binder_type st) (set_word off 2 h (set_word off 0 (handle_type st) d)))) = d.
Proof.
  intros Ho E0 E2 E3. assert (word_at off 0 <> word_at off 2) by (unfold word_at; Z.to_euclidean_division_equations; lia). unfold set_word.
  rewrite (list_insert_insert_ne _ (word_at off 0) (word_at off 2)) by done. rewrite !list_insert_insert_eq, (list_insert_id d (word_at off 0)), (list_insert_id d (word_at off 2)) by done. by apply list_insert_id.
Qed.

(** ** What buffers hold is there *)
Lemma bufs_hold_target N l Hs Hw buf : bufs_hold N l Hs Hw -> buf ∈ l -> target_node buf <> 0 -> target_node buf ∈ Hs /\ exists nd, N !! target_node buf = Some nd /\ n_proc nd = b_proc buf.
Proof.
  induction 1 as [|b l hs hw Hs Hw Ht Ho H IH]; intros Hb H0; [set_solver +Hb|]. apply elem_of_cons in Hb as [->|Hb].
  - split; [|by apply Ht]. unfold target_list. rewrite (proj2 (Z.eqb_neq _ _) H0). set_solver +.
  - destruct (IH Hb H0) as [? ?]. split; [set_solver|done].
Qed.
Lemma node_refs_iff s l n nd : good s l -> bnodes s !! n = Some nd -> forall r, r ∈ refs nd <-> exists rf, brefs s !! r = Some rf /\ r_node rf = n.
Proof.
  intros [_ (Hs & Hw & _ & Hc)] E r. split; [by apply (co_refs _ _ _ _ _ _ _ Hc n nd E)|]. intros (rf & Er & <-). destruct (co_ref _ _ _ _ _ _ _ Hc r rf Er) as (nd' & E' & ?). congruence.
Qed.

(** ** A device in use *)
(** The process 1000 is the context manager; 2000 has sent it the object 77 in the buffer 9000,
    and has been told that it is referred to. *)
Definition object (type ptr cookie : Z) : list Z := [type; 0; ptr; cookie].
Definition demo : list event :=
  [Open 1000; Open 2000; Start_thread 1000 1100; Start_thread 2000 2100; Context_mgr 1000 0 4000;
   Transaction 2000 2100 0 None 9000 true 16 (object BINDER_TYPE_BINDER 77 78) [(0, ObjEnv 4004 5000 None)];
   Read 2000 2100 true; Read 2000 2100 true; Read 2000 2100 true; Refs_done true 2000 77 78; Refs_done false 2000 77 78].
(** Then the manager calls the object. *)
Definition demo_call : list event := demo ++ [Transaction 1000 1100 1 None 9004 true 0 [] []].
Definition state_after (evs : list event) : binder := match run evs init with Some s => s | None => init end.
Lemma demo_reach : reach (state_after demo).
Proof. apply (run_reach demo init); [constructor|vm_compute; reflexivity]. Qed.
Lemma demo_call_reach : reach (state_after demo_call).
Proof. apply (run_reach demo_call init); [constructor|vm_compute; reflexivity]. Qed.

(** ** Properties *)
(** C3: over any sequence of events that are allowed, no operation on nodes and references
    uses one that has been freed, follows a broken list or tree, or hits its BUG(), and every
    loop ends.  Allowed means: memory is where nothing else is, the process and the thread
    exist, the objects of a transaction do not overlap ([duplicate_offsets_use_after_free] is
    the other case), the counters of references stay below 2^31, and [BC_ACQUIRE] and
    [BC_INCREFS] of the handle 0 find memory ([acquire_without_memory_oopses]). *)
Theorem binder_refs_safe s ev : reach s -> allowed s ev -> exists s', do_event ev s = Some (tt, s').
Proof. intros Hr Ha. destruct (event_good s ev (reached_inv s Hr) Ha) as (s' & ? & _). by exists s'. Qed.
Lemma binder_refs_safe_witness : exists s', do_event (Release 2000) (state_after demo_call) = Some (tt, s').
Proof. apply binder_refs_safe; [apply demo_call_reach|]. apply (bool_decide_unpack _). vm_compute. exact I. Defined.

(** C5: in every state that events that are allowed lead to (so the objects of a transaction
    do not overlap, and the counters of references stay below 2^31; with an offset given twice
    it does not hold, see [duplicate_offsets_use_after_free]), a node is not freed while
    something refers to it, and its counters are exact: every reference is on the list of a
    node that exists, the list of a node has just the references to it, the internal counter is
    the number of those that are strong, the node a buffer was sent to exists and is counted,
    and the local counters of a node whose process lives are the numbers of buffers, pending
    acknowledgements and context managers that hold it. *)
Theorem binder_counts_exact s : reach s ->
  (forall r rf, brefs s !! r = Some rf -> exists nd, bnodes s !! r_node rf = Some nd /\ r ∈ refs nd) /\
  (forall n nd, bnodes s !! n = Some nd -> NoDup (refs nd) /\ (forall r, r ∈ refs nd <-> exists rf, brefs s !! r = Some rf /\ r_node rf = n) /\ internal_strong_refs nd = strong_count (brefs s) (refs nd)) /\
  (forall b buf, bbufs s !! b = Some buf -> target_node buf <> 0 -> exists nd, bnodes s !! target_node buf = Some nd /\ n_proc nd = b_proc buf /\ 0 < local_strong_refs nd) /\
  exists Hs Hw, bufs_hold (bnodes s) (buffers s) Hs Hw /\ forall n nd, bnodes s !! n = Some nd -> n_proc nd <> 0 ->
    local_strong_refs nd = held n Hs + Z.b2z (pending_strong_ref nd) + Z.b2z (n =? binder_context_mgr_node s) /\
    local_weak_refs nd = held n Hw + Z.b2z (pending_weak_ref nd) + Z.b2z (n =? binder_context_mgr_node s).
Proof.
  intros Hr%reached_inv. pose proof (iv_good _ Hr) as Hg. pose proof Hg as [Hsh (Hs & Hw & Hh & Hc)].
  assert (forall n nd, bnodes s !! n = Some nd -> n_proc nd <> 0 -> local_strong_refs nd = held n Hs + Z.b2z (pending_strong_ref nd) + Z.b2z (n =? binder_context_mgr_node s) /\ local_weak_refs nd = held n Hw + Z.b2z (pending_weak_ref nd) + Z.b2z (n =? binder_context_mgr_node s)) as Hl by (intros n nd E H0; by apply (co_live _ _ _ _ _ _ _ Hc n nd E H0)).
  split_and!; [by apply Hc| | |by exists Hs, Hw].
  - intros n nd E. destruct (co_refs _ _ _ _ _ _ _ Hc n nd E) as (? & _ & ?). split_and!; [done|by eapply node_refs_iff|done].
  - intros b buf E H0. assert (buf ∈ buffers s) as Hb by (apply list_elem_of_fmap; exists (b, buf); split; [done|by apply elem_of_map_to_list]). destruct (bufs_hold_target _ _ _ _ buf Hh Hb H0) as (Hin & nd & En & Hp).
    exists nd. split_and!; [done..|]. destruct (Hl _ nd En) as [-> _]; [rewrite Hp; apply (sh_proc _ _ Hsh); by eapply (iv_buf _ Hr)|]. pose proof (held_member _ _ Hin). destruct (pending_strong_ref nd), (_ =? _); cbn; lia.
Qed.
Lemma binder_counts_exact_witness : exists nd, bnodes (state_after demo_call) !! 4004 = Some nd /\ n_proc nd = 2000 /\ 0 < local_strong_refs nd.
Proof.
  destruct (binder_counts_exact _ demo_call_reach) as (_ & _ & H & _). assert (exists buf, bbufs (state_after demo_call) !! 9004 = Some buf /\ target_node buf = 4004 /\ b_proc buf = 2000) as (buf & Eb & Ht & Hp) by (eexists; vm_compute; done).
  specialize (H _ _ Eb). rewrite Ht, Hp in H. by apply H.
Defined.

(** C12: an object that a process sends arrives as a handle that refers to it, with the
    process, the pointer and the cookie it was sent with; and when the handle is sent back it
    arrives as the object, word for word. *)
Theorem binder_object_roundtrip s P T Q T' d off e e' (st : bool) ptr cookie : reach s -> threads s !! T = Some P -> is_Some (bprocs s !! Q) -> roomy 1 s ->
  fresh s (node_mem e) -> fresh s (ref_mem e) -> ref_mem e <> node_mem e -> 0 <= off ->
  d !! word_at off 0 = Some (binder_type st) -> d !! word_at off 2 = Some ptr -> d !! word_at off 3 = Some cookie ->
  (forall n nd, bnodes s !! n = Some nd -> n_proc nd = P -> n_ptr nd = ptr -> n_cookie nd = cookie) ->
  exists h d1 s1 s2, translate_object P T Q d off e s = Some ((true, d1), s1) /\ d1 !! word_at off 0 = Some (handle_type st) /\ d1 !! word_at off 2 = Some h /\ refers s1 Q h P ptr cookie /\
    translate_object Q T' P d1 off e' s1 = Some ((true, d), s2).
Proof.
  intros Hr%reached_inv HT HQ Hroom Hf1 Hf2 Hne Ho E0 E2 E3 Hck. pose proof (iv_good _ Hr) as Hg. destruct (send_run s _ P T Q d off e st ptr cookie Hg HT HQ Hroom Hf1 Hf2 Hne E2 E3 Hck) as (h & s1 & Hrun & Hg1 & Hf & Href).
  set (d1 := set_word off 2 h (set_word off 0 (handle_type st) d)) in *. assert (d1 !! word_at off 0 = Some (handle_type st)) as D0 by (unfold d1; rewrite get_set_word_ne by lia; apply get_set_word; by eexists).
  assert (d1 !! word_at off 2 = Some h) as D2 by (unfold d1; apply get_set_word; rewrite get_set_word_ne by lia; by eexists). pose proof (sh_thread _ _ (g_shape _ _ Hg) T P HT) as (_ & _ & HP).
  destruct (give_back_run s1 _ Q P d1 off e' st h ptr cookie Hg1 (proj2 (frame_proc _ _ _ Hf) HQ) (proj2 (frame_proc _ _ _ Hf) HP) Href D2) as (s2 & Hrun2). unfold d1 in Hrun2 at 2. rewrite set_words_back in Hrun2 by done.
  exists h, d1, s1, s2. split_and!; [|done..|]; unfold translate_object, get_word; [rewrite E0, bind_mret_l|rewrite D0, bind_mret_l]; by destruct st.
Qed.
Lemma binder_object_roundtrip_witness : exists h d1 s1 s2, translate_object 2000 2100 1000 (object BINDER_TYPE_WEAK_BINDER 79 80) 0 (ObjEnv 4008 5008 None) (state_after demo) = Some ((true, d1), s1) /\
  d1 !! word_at 0 0 = Some (handle_type false) /\ d1 !! word_at 0 2 = Some h /\ refers s1 1000 h 2000 79 80 /\ translate_object 1000 1100 2000 d1 0 (ObjEnv 0 0 None) s1 = Some ((true, object BINDER_TYPE_WEAK_BINDER 79 80), s2).
Proof.
  apply (binder_object_roundtrip (state_after demo) 2000 2100 1000 1100); [apply demo_reach|vm_compute; reflexivity|apply (bool_decide_unpack _); vm_compute; exact I..|done|done|done|done|done|].
  intros n nd E. revert n nd E. apply (bool_decide_unpack (map_Forall (λ _ nd, n_proc nd = 2000 -> n_ptr nd = 79 -> n_cookie nd = 80) (bnodes (state_after demo)))). vm_compute. exact I.
Defined.

(** C23: [binder_get_ref_for_node] gives the one reference that the process has to the node, if
    there is one; else a new one, whose descriptor is the smallest that the process does not
    use, 0 being kept for the context manager; or NULL if there is no memory, and then nothing
    has changed. *)
Theorem binder_ref_smallest_descriptor s P n nd mem : reach s -> is_Some (bprocs s !! P) -> bnodes s !! n = Some nd -> available s mem ->
  exists r s', binder_get_ref_for_node P n mem s = Some (r, s') /\
    ((s' = s /\ r <> 0 /\ (exists rf, brefs s !! r = Some rf /\ r_proc rf = P /\ r_node rf = n) /\ forall x rf, brefs s !! x = Some rf -> r_proc rf = P -> r_node rf = n -> x = r) \/
     ((forall x rf, brefs s !! x = Some rf -> r_proc rf = P -> r_node rf <> n) /\
      ((r = 0 /\ mem = 0 /\ s' = s) \/
       (r = mem /\ r <> 0 /\ exists h, unused_desc s P (if n =? binder_context_mgr_node s then 0 else 1) h /\ brefs s' = <[r := Ref P n h 0 0]> (brefs s) /\ bnodes s' = <[n := with_refs (r :: refs nd) nd]> (bnodes s) /\ frame s s')))).
Proof.
  intros Hr%reached_inv HP E Ha. pose proof (g_shape _ _ (iv_good _ Hr)) as Hsh. destruct (get_ref_for_node_run s P n nd mem Hsh HP E Ha) as (r & s' & Hrun & H). exists r, s'. split; [done|]. destruct H as [(-> & H0 & rf & Er & Hp & Hn)|[Hno H]]; [left|right; split; [done|]].
  - split_and!; [done|done|by exists rf|]. intros x rf' Ex Hp' Hn'. apply (key_unique [] s By_node P); [apply Hsh|done|by exists rf'|apply not_elem_of_nil|by exists rf|apply not_elem_of_nil|]. cbn. by rewrite Ex, Er, Hn, Hn'.
  - destruct H as [?|(-> & H0 & _ & h & Hd & _ & [_ ? ? ?])]; [by left|right]. split_and!; [done..|]. by exists h.
Qed.
Lemma binder_ref_smallest_descriptor_witness : exists r s', binder_get_ref_for_node 2000 4000 5004 (state_after demo) = Some (r, s') /\ (r = 5004 -> exists h, unused_desc (state_after demo) 2000 0 h /\ brefs s' !! r = Some (Ref 2000 4000 h 0 0)).
Proof.
  destruct (bnodes (state_after demo) !! 4000) as [nd|] eqn:E; [|vm_compute in E; discriminate E].
  destruct (binder_ref_smallest_descriptor (state_after demo) 2000 4000 nd 5004) as (r & s' & Hrun & H); [apply demo_reach|apply (bool_decide_unpack _); vm_compute; exact I|exact E|apply (bool_decide_unpack _); vm_compute; exact I|]. exists r, s'. split; [exact Hrun|].
  intros Hr. destruct H as [(_ & _ & (rf & Er & _) & _)|(_ & [(H0 & _)|(_ & _ & h & Hd & Hb & _)])]; [rewrite Hr in Er; vm_compute in Er; discriminate Er|congruence|]. exists h. split; [exact Hd|]. rewrite Hb. apply lookup_insert_eq.
Defined.

(** C18: when a process ends, in a state that events that are allowed lead to (the objects of
    transactions do not overlap), the loops over its threads, nodes and references end; none of
    its nodes and references is left, nor an entry of a thread or a buffer, and it is not the
    context manager any more; the references of the other processes are as they were and their
    nodes still exist, those of the process as dead nodes.  Transactions and the work they
    queue are not part of this. *)
Theorem binder_process_end s P : reach s -> is_Some (bprocs s !! P) -> exists s', binder_deferred_release P s = Some (tt, s') /\
  dom (bprocs s') = dom (bprocs s) ∖ {[P]} /\ (forall T Q, threads s' !! T = Some Q <-> threads s !! T = Some Q /\ Q <> P) /\
  (forall n nd, bnodes s' !! n = Some nd -> n_proc nd <> P) /\ (forall b, bbufs s' !! b = bbufs s !! b ≫= λ buf, if b_proc buf =? P then None else Some buf) /\
  (forall r rf, brefs s' !! r = Some rf <-> brefs s !! r = Some rf /\ r_proc rf <> P) /\
  (forall r rf, brefs s' !! r = Some rf -> exists nd, bnodes s' !! r_node rf = Some nd /\ r ∈ refs nd /\ (n_proc nd = 0 -> r_node rf ∈ binder_dead_nodes s')) /\
  (binder_context_mgr_node s' <> 0 -> exists nd, bnodes s' !! binder_context_mgr_node s' = Some nd /\ n_proc nd <> P).
Proof.
  intros Hr%reached_inv HP. destruct (deferred_release_good P s Hr HP) as (s' & Hrun & [[Hsh (Hs & Hw & _ & Hc)] _] & Hd & Ht & Hn & Href & Hb). exists s'. split_and!; [done..| | | |].
  - intros b. rewrite Hb, map_lookup_filter. destruct (bbufs s !! b) as [buf|]; cbn; [|done]. destruct (Z.eqb_spec (b_proc buf) P) as [Hp|Hp]; [by rewrite option_guard_False by tauto|by rewrite option_guard_True].
  - intros r rf. rewrite Href. unfold others. by rewrite map_lookup_filter_Some.
  - intros r rf E. destruct (co_ref _ _ _ _ _ _ _ Hc r rf E) as (nd & En & Hin). exists nd. split_and!; [done..|]. intros H0. apply (sh_dead _ _ Hsh). by exists nd.
  - intros Hm. destruct (co_mgr _ _ _ _ _ _ _ Hc Hm) as (nd & En & _). exists nd. split; [done|]. by eapply Hn.
Qed.
Lemma binder_process_end_witness : exists s', binder_deferred_release 2000 (state_after demo_call) = Some (tt, s') /\ (forall b, bbufs s' !! b = bbufs (state_after demo_call) !! b ≫= λ buf, if b_proc buf =? 2000 then None else Some buf) /\ (forall n nd, bnodes s' !! n = Some nd -> n_proc nd <> 2000).
Proof.
  destruct (binder_process_end (state_after demo_call) 2000) as (s' & Hrun & _ & _ & Hn & Hb & _); [apply demo_call_reach|apply (bool_decide_unpack _); vm_compute; exact I|]. exists s'. split; [exact Hrun|]. split; [exact Hb|exact Hn].
Defined.

(** C15: no node and no reference leaks: when no process has the device open any more,
    whatever they did before (events that are allowed: the objects of transactions do not
    overlap) and in whatever order they ended, all nodes, dead ones included, and all
    references are freed, and there is no context manager.  Transactions and their work are not
    part of this. *)
Theorem binder_nodes_refs_freed s : reach s -> bprocs s = ∅ -> bnodes s = ∅ /\ brefs s = ∅ /\ binder_dead_nodes s = [] /\ binder_context_mgr_node s = 0.
Proof.
  intros Hr%reached_inv Hp. pose proof (iv_good _ Hr) as [[_ _ [_ T3] T4 T5 _ _] (Hs & Hw & _ & Hc)]. assert (forall P, ~ is_Some (bprocs s !! P)) as Hno by (intros P [pr E]; by rewrite Hp in E).
  assert (brefs s = ∅) as Hrefs. { apply map_empty. intros r. destruct (brefs s !! r) as [rf|] eqn:E; [|done]. destruct (T5 _ _ E) as (_ & ? & _). by destruct (Hno (r_proc rf)). }
  assert (bnodes s = ∅) as Hnodes. { apply map_empty. intros n. destruct (bnodes s !! n) as [nd|] eqn:E; [|done]. exfalso. destruct (decide (n_proc nd = 0)) as [H0|H0]; [|by destruct (Hno (n_proc nd)); apply (T4 _ _ E)].
    destruct (co_dead _ _ _ _ _ _ _ Hc n nd E H0) as (_ & _ & Hd). destruct (refs nd) as [|r l] eqn:El; [by apply Hd|]. destruct (co_refs _ _ _ _ _ _ _ Hc n nd E) as (_ & Hx & _). rewrite El in Hx. destruct (Hx r ltac:(set_solver +)) as (rf & Er & _). by rewrite Hrefs in Er. }
  split_and!; [done..| |].
  - destruct (binder_dead_nodes s) as [|n l] eqn:E; [done|]. destruct (proj1 (T3 n) ltac:(set_solver +)) as (nd & En & _). by rewrite Hnodes in En.
  - destruct (decide (binder_context_mgr_node s = 0)) as [?|Hm]; [done|]. destruct (co_mgr _ _ _ _ _ _ _ Hc Hm) as (nd & En & _). by rewrite Hnodes in En.
Qed.
Lemma binder_nodes_refs_freed_witness : let s := state_after (demo_call ++ [Release 2000; Release 1000]) in bprocs s = ∅ /\ bnodes s = ∅ /\ brefs s = ∅ /\ binder_dead_nodes s = [].
Proof.
  destruct (binder_nodes_refs_freed (state_after (demo_call ++ [Release 2000; Release 1000]))) as (H1 & H2 & H3 & _); [apply (run_reach (demo_call ++ [Release 2000; Release 1000]) init); [constructor|vm_compute; reflexivity]|vm_compute; reflexivity|].
  split; [vm_compute; reflexivity|]. split; [exact H1|]. split; [exact H2|exact H3].
Defined.

(** ** Flaws *)
(** The manager sends its object 55 to the process 2000, and the transaction has the offset 0
    twice: the object is translated once and the handle it became is taken for one of the
    sender. *)
Definition twice : event := Transaction 1000 1100 1 None 9008 true 16 (object BINDER_TYPE_BINDER 55 56) [(0, ObjEnv 4008 5004 None); (0, ObjEnv 0 0 None)].
Definition twice_freed : list event := [Free_buffer 1000 9000 true; Free_buffer 2000 9008 true; Read 2000 2100 true; Read 2000 2100 true; Read 2000 2100 true].
(** C38: with an offset that is given twice a buffer can hold a node once and release it twice.
    From a state that can be reached, such a transaction and operations that are allowed lead
    to a buffer whose target node has been freed; freeing the buffer uses it. *)
Theorem duplicate_offsets_use_after_free : exists s s1 s2, reach s /\ do_event twice s = Some (tt, s1) /\ run twice_freed s1 = Some s2 /\
  (exists buf, bbufs s2 !! 9004 = Some buf /\ b_proc buf = 2000 /\ target_node buf <> 0 /\ bnodes s2 !! target_node buf = None) /\ do_event (Free_buffer 2000 9004 true) s2 = None.
Proof.
  set (s := state_after demo_call). set (s1 := match do_event twice s with Some (_, s1) => s1 | None => init end). exists s, s1, (match run twice_freed s1 with Some s2 => s2 | None => init end).
  split_and!; [apply demo_call_reach|vm_compute; reflexivity..| |vm_compute; reflexivity]. eexists. split_and!; [vm_compute; reflexivity..|vm_compute; discriminate|vm_compute; reflexivity].
Qed.
(** [BC_ACQUIRE] or [BC_INCREFS] of the context manager by a process that has no reference to
    it, when there is no memory for one, reads through NULL. *)
Lemma acquire_without_memory_oopses s c P : reach s -> is_Some (bprocs s !! P) -> is_inc c = true -> binder_context_mgr_node s <> 0 -> (forall r rf, brefs s !! r = Some rf -> r_proc rf = P -> r_node rf <> binder_context_mgr_node s) -> bc_refs c P 0 0 s = None.
Proof.
  intros Hr%reached_inv HP Hc Hm Hno. pose proof (iv_good _ Hr) as [Hsh (Hs & Hw & _ & Hco)]. destruct (co_mgr _ _ _ _ _ _ _ Hco Hm) as (nd & E & _). unfold bc_refs. erewrite bind_run by done. rewrite Hc, (proj2 (Z.eqb_neq _ _) Hm). cbn [Z.eqb negb andb].
  destruct (get_ref_for_node_run s P _ nd 0 Hsh HP E (or_introl eq_refl)) as (r & s' & Hrun & H). assert (r = 0 /\ s' = s) as [-> ->]. { destruct H as [(_ & _ & rf & Er & Hp & Hn)|(_ & [(? & _ & ?)|(-> & ? & _)])]; [by destruct (Hno r rf Er Hp)|done|done]. }
  rewrite bind_assoc. mrun Hrun. destruct (brefs s !! 0) as [rf|] eqn:E0; [by destruct (sh_ref _ _ Hsh 0 rf E0) as [[[_ ?] _] _]|]. unfold mbind, M_bind, load_ref. by rewrite E0.
Qed.
End BinderRefSys.
